(* ===== verification/_CoqProject ===== *)
-Q . S2P
Prelude.v
GoBytes.v
GoFloat.v
RecordUpdate.v
ChannelTypes.v
ChannelNote.v
ChannelOnion.v
ChannelRouter.v
ChannelRoute.v
ChannelPlan.v
ChannelCrypto.v
ChannelState.v
ChannelMultipath.v
ChannelTransition.v
ChannelHistory.v
ChannelWire.v
ChannelCommitter.v
ChannelStore.v
ChannelPreimages.v
ChannelSession.v
ChannelSafety.v
ChannelProtocol.v
ChannelCrash.v
ChannelSignatures.v
ChannelCoordinator.v
ChannelReconcile.v
ChannelPayment.v
ChannelExecutor.v
ChannelLegs.v
ChannelRouting.v
ChannelChain.v
ChannelVault.v
ChannelCustody.v
ChannelWatch.v
DhtKeys.v
DhtTable.v
DhtRecords.v
DhtReplicas.v
DhtReports.v
DhtLookup.v
DhtPublish.v
Rlp.v
EthProof.v
EthTrie.v
EthEvidence.v
EthReceipts.v
EthHeader.v
EthSsz.v
EthFollower.v
EthLight.v
ChannelEvents.v
AxonCells.v
SessionPacket.v
Session.v
SessionReliable.v
Placement.v
PlacementLevel.v
Ledger.v
