(* ===== verification/Prelude.v ===== *)
(** * A verification library for dendritic-node

    dendritic-node is a Go program: nodes that store erasure-coded content,
    talk over AXON, an onion-routed cell network, and pay each other through
    two-party payment channels settled by an Ethereum contract.  This library
    models the parts that must not go wrong quietly - money, keys and bytes an
    adversary chooses - and proves what they promise.

    ** Parts and how they meet

    Payment channels ([src/internal/channel]).  A channel is a sequence of
    states both parties sign; the highest one is what the contract pays out.
    - [ChannelTypes], [ChannelCrypto]: the records and enumerations of
      [state.go], [transition.go], [store.go], and the interface to keccak256 and
      ECDSA recovery, which are libraries.
    - [ChannelState] ([state.go]): digests, signature recovery, [Accept], the one
      door a signed state comes in by.  [ChannelTransition] ([transition.go]):
      [Apply], which computes the state an intent leads to.  [ChannelHistory]
      ([history.go]): the log of payments.
    - [ChannelWire] ([scpp.go], the encodings of [store.go]): messages and frames.
    - [ChannelCommitter] is the interface between the protocol and the store: a
      class of operations with laws, crashes included.  [ChannelStore]
      ([store.go]) implements it over a disk whose writes may fail or half
      succeed; [ChannelPreimages] ([preimages.go]) is the vault of lock secrets.
    - [ChannelSession] ([session.go]) is the SCPP protocol, one function per
      message handler, over any [Committer].  [ChannelSafety],
      [ChannelProtocol], [ChannelCrash] and [ChannelSignatures] hold its theorems:
      against the interface, then for the real store across crashes and restarts,
      and for every message that leaves the node.
    - [ChannelCoordinator] ([coordinator.go], [locks.go], [reconcile.go]) is
      the API the node calls: adoption, payment, recovery, funding.
      [ChannelReconcile] is about restored backups, [ChannelPayment] composes two
      coordinators into a payment that completes.
    - [ChannelRouting] ([routing.go]) is the hub: forwarding, claiming upstream,
      refunding.
    - Private payments: [ChannelNote] ([note.go], [blinded.go]) derives every id
      and holds the invoices; [ChannelOnion] ([onion.go]) is the packet,
      [ChannelRouter] ([router.go]) the node that peels and forwards it;
      [ChannelRoute] ([route.go], [atomic.go]) selects the hops and builds their
      locks; [ChannelPlan] ([payment.go]) composes them.  [ChannelMultipath]
      ([multipath.go], [multipath_exec.go]) splits a payment, [ChannelExecutor]
      drives its legs over an [Engine], and [ChannelLegs] makes the coordinator
      that engine.
    - [ChannelChain] ([chain.go]) decodes the contract's answers; [ChannelEvents]
      ([eventreader.go]) caches them between the contract's events, which the
      chain follower below delivers.
    - [ChannelVault] ([vault.go], [vaultstore.go]), [ChannelCustody] and
      [ChannelWatch] ([watchtower.go], [challengebudget.go]) are the defence of a
      channel whose owner is away: what a vault keeps, that it survives crashes
      and interleavings, and that a watchtower fed from it beats a stale close.
    AXON ([src/internal/axon]).
    - [AxonCells] ([link/cell.go], [circuit/relaycell.go]): the fixed-size cells.
    - [SessionPacket] ([session/packet.go], [keys.go]): packets and the replay
      window.  [Session] ([session/session.go], [stream.go]): the session, its
      carriers, streams, timers and resumption.  [SessionReliable]: two sessions
      and a network that loses, repeats, reorders and forges.
    - The DHT ([dht/]).  [DhtKeys] ([keys.go], [kadid.go], [hsdir.go]): keys,
      distances, positions, the store of beacon mixes.  [DhtTable] ([table.go]):
      the routing table and its caps.  [DhtRecords] ([records.go],
      [validate.go]): the record classes, validation and the sequence floor.
      [DhtReplicas] ([validate.go]): how replicas settle conflicts and merge.
      [DhtReports] ([report.go]): content reports.  [DhtLookup] ([lookup.go],
      [circuitrpc.go], [lookupwire.go]): lookups as interleaved paths over one
      set of claims, their circuits and messages.  [DhtPublish] ([publish.go]):
      the periods and positions of a descriptor and a round of publication.
      A lookup uses the table for its seeds and the records' validation for what
      it returns; a publication uses the table for its holders.

    Ethereum proofs ([src/internal/ethproof]), over a provider nothing is
    believed from.
    - [Rlp] ([rlp.go], [rlpencode.go]): the decoder of untrusted bytes and the
      encoder.  [EthProof] ([proof.go]): the walk of a Merkle-Patricia proof, slots
      and accounts; [EthTrie] ([triebuild.go]): the root of a set of entries.
    - [EthEvidence] ([client.go], [evidence.go]): verified reads, and the records
      that keep them.  [EthReceipts] ([receipts.go], [bloom.go]) and [EthHeader]
      ([headerrlp.go]): receipts against their root, headers against their hash.
    - [EthFollower] ([blockscan.go], [chainfollower.go]): authenticated blocks and
      the follower that hands over the contract's logs, block by block, from the
      recorded checkpoint to the finalised head.
    - [EthSsz] ([ssz.go], [execution.go]) and [EthLight] ([lightclient.go],
      [rotation.go], [finality.go], [checkpoint.go], [bls.go],
      [lightclient_verifier.go], [beaconsource.go]): SSZ trees, and the light
      client that decides which head is finalised.

    Storage ([src/internal/placement], [src/internal/store]).
    - [Placement] ([plan.go], [reputation.go]): which peer takes which shard of a
      chunk, and how many shards outlive a loss of peers.  [PlacementLevel]
      ([level.go]): the target of a fleet and who moves bytes to whom.
    - [Ledger] ([placement.go], [rebalance.go], [drain.go]): the rows that record
      who confirmed which shard, judged by [Placement]'s survivability; a round of
      placement is [Plan] on a row's snapshot and a confirmation for each
      assignment.

    [Prelude], [GoBytes], [GoFloat] and [RecordUpdate] are shared: the [outcome] of
    a Go function (a value, an error, a panic), machine integers as [Z] with their
    wrap-around written out, byte strings as lists of [Z], hex, decimal and big
    integers, binary64, and [r <| f := v |>].

    ** How code is rendered

    A definition keeps the name of the function it translates; where a function is
    cut in pieces, each piece is named for what it does and the composition keeps
    the function's name.  [error] values are constructors, their formatted text is
    not kept unless it is compared.  A method on a shared object is a
    function from its state to its next state.  Goroutines appear only where they
    matter: where a lock is released in the middle of an operation, the
    operation is split there and the pieces interleave ([ChannelCustody], the
    crash points of [ChannelSignatures], the network of [SessionReliable]).  An
    operation reads the clock once, as an argument [now], unless the code's second
    reading could change the outcome.

    Third-party code is a parameter: keccak256 and ECDSA recovery
    ([ChannelCrypto]: fixed widths only - no theorem assumes unforgeability or
    collision resistance; [digest_binds_state] exhibits the collision instead),
    the session AEAD, HMAC and HKDF ([SessionPacket]: with its own key a sealed
    packet opens to what was sealed; that the receiver's keys open no packet to
    anything else is a condition of the network's steps, [opens_as_sealed], not a
    law of the cipher), GCM and JSON of the vault ([VaultCodec]: opening and
    parsing invert sealing and printing, on the records the vault writes), and for
    the DHT SHA-256 ([Sha256]: 32-byte digests; theorems exhibit the collision they
    would need), CBOR and Ed25519 ([Cbor]; [LookupCbor]: parsing inverts printing); for
    private payments HMAC ([HmacSha256]), AES-GCM ([Gcm]), the JSON of a hop
    ([HopJson]) and of the executor's journal ([JournalCodec]: what is printed
    parses), the curve ([Curve]: multiples of the base add and differ) and the
    draws of the source of randomness, which may fail.  For the proofs,
    keccak256 is [Keccak] (32-byte digests), and the JSON of evidence and of the
    follower's checkpoint are [EvidenceCodec] and [CheckpointCodec] (what is
    printed parses); theorems name the two colliding preimages they would need.
    The BLS library is [Blst], without a law: the theorem about the light client
    assumes that a supermajority of a true committee signs canonical headers
    only ([honest_majority]).  The
    chain, the peer and the transaction sender are function arguments.  Each
    class has a concrete instance, and every theorem with hypotheses has a
    witness on it.

    The preimage vault of a node is one object that several components hold a
    pointer to; [co_vault] says whether the coordinator was given it.  The
    [Session] record carries three history variables the code does not have
    ([h_queued], [h_delivered], [h_sealed]), which no operation reads.

    Maps iterate in no particular order in Go: a model that iterates sorts as the
    code does, or states its theorem for every order.  Recursion is structural,
    except RLP decoding, whose fuel is the length of the input
    ([DecodeRLP_terminates] shows that it is enough), the deal of a lookup's
    seeds, whose fuel is their number, the walk of a proof, which the code itself
    bounds by 65 nodes, the trie builder, whose fuel is the longest path, the
    batches of the follower, whose fuel is their number, the layers of an SSZ
    tree, whose fuel is the width, the loop of the levelling target, whose fuel is
    the number of pools, and [choose], whose fuel is the number of factors.

    ** What the theorems show

    Money: no transition creates value ([Apply_conserves_value]) and a transition
    is exactly its declarative effect ([Apply_refines_effect]); whatever the peer
    sends, the disk does and however often the node crashes, the messages it lets
    out never bear its signature over two digests at one nonce
    ([never_signs_twice], retries and replays included, the peer's forgeries
    excluded); two honest nodes never answer a settlement and a refund of one
    lock over the same span of time; an honest payment completes; a hub that paid downstream
    can collect upstream; an expired lock comes back; collateral is only ever
    what the chain said.

    Private payments: every hop of a planned payment peels its own instruction,
    unless two slots authenticate under one key ([plan_delivers]); the locks of a
    route unwind from the recipient's secret; a router forwards a payment once; a
    split pays exactly the total; a fragment's preimage opens no other; an
    interrupted payment is finished or unwound by resuming it over an engine that
    does what it is asked, and an intent a channel applied is never paid again.

    Defence: a vault only moves forward under any interleaving, recovers all it
    acknowledged, and what it holds is what the watchtower challenges with, in
    time for every delay the budget allows ([delegated_state_defends]).

    Data: stored records, wire states, chain answers, RLP items and packets
    decode to what was encoded; cells and relay cells decode only from their one
    encoding.

    AXON: frames are delivered exactly once, in order, and none is lost; the
    replay window is the set of packets seen; packet numbers are never reused;
    forged packets change nothing.

    DHT: the caps of the table hold through every admission and ejection; a record
    is replaced only by its owner and never rolled back; replicas converge and
    evict only by bond; the paths of a lookup stay disjoint, over circuits that
    share no relay, and end; a mentioned contact never holds anything; a client
    within twelve hours of the publisher's clock finds the descriptor.

    Ethereum: the light client's finalised header stays on the canonical chain,
    unless the run took one of three [slips] - a SHA-256 collision, and the padded
    bitfield and the next committee of another period that the code does not
    refuse ([light_client_follows_chain]); two providers that satisfy the follower gave
    one history ([history_is_fixed]), and it hands each block over once, in order
    ([Advance_exactly_once]); receipts are complete or refused; a proof gives the
    value a trie holds or refuses; two records of evidence agree; the event
    reader never answers from a stale cache while advances complete.

    Storage: two shards of a chunk never go to one peer or one failure domain,
    and a shard is left over only when nobody could take it; the count of
    surviving shards never overstates and is exact up to its caps; a chunk
    planned over enough distinct peers and confirmed decodes after any loss its
    parity allows ([fresh_chunk_survives]); the silences counted against a peer
    are consecutive; the levelling target accounts for every byte.

    Where the code does something other than it says, the theorem states what it
    does: [topup_freezes_channel], [pay_countersigned_as_close],
    [vault_refuses_after_topup], [reused_lock_id_never_refunded],
    [HandleResponse_trusts_unsigned_conflict], [racing_proposals_both_leave],
    [Pay_done_without_state], [Reconcile_skips_moved_collateral],
    [Reconcile_forgets_sent_proposal], [Load_needs_writes], [DecodeRLP_panics],
    [one_node_hides_record], [report_evidence_trimmed], [freshness_never_ends],
    [readmission_bypasses_caps], [moved_contact_listed_twice],
    [merge_tie_diverges], [planned_payment_refused],
    [racing_forwards_both_leave], [expiry_is_the_senders_word],
    [limits_ignored], [slot_tells_position], [onward_same_blob],
    [one_node_every_hop], [greedy_refuses_a_possible_route],
    [smallest_split_is_equal], [large_payment_too_small],
    [leg_unapplied_without_error], [resettle_counts_again],
    [negative_quantity_authentic], [racing_advances_hide_event], [cache_ignores_contract],
    [invoice_terms_forgeable], [failed_advance_hides_event],
    [unsigned_head_blinds_follower], [padded_bitfield_passes_threshold],
    [early_next_committee_lost], [extra_storage_proof_panics],
    [duplicate_keys_merged], [overfull_fleet_sheds], [rewrite_forgets_drain],
    [forgetting_hides_holders].

    ** What is not modelled

    Network and file I/O, HTTP servers, templates, configuration and command
    lines; drivers of containers and microVMs; cryptography, which is libraries;
    the contract, which is Solidity (the states it honours are those [Accept]
    admits).  Of the channel package, the tip pool and its commitments, key custody, mailboxes and the RPC transaction builders
    are not modelled, nor the AXON circuits, the files of the content store,
    erasure coding and the drivers that move shards.  The session's condition variable and goroutine scheduling are not
    modelled: each operation is atomic under the session's mutex. *)
From Stdlib Require Export ZArith Lia.
From stdpp Require Export base tactics list list_numbers gmap strings sorting.

#[global] Open Scope Z_scope.

(** ** Outcomes

    A Go function either returns a value, returns a non-nil [error], or
    panics (an index or slice out of range, a nil dereference). *)
Inductive outcome (E A : Type) : Type :=
| Ok (a : A)
| Err (e : E)
| Panic.
Arguments Ok {E A} a.
Arguments Err {E A} e.
Arguments Panic {E A}.

Definition obind {E A B : Type} (m : outcome E A) (f : A -> outcome E B) : outcome E B :=
  match m with
  | Ok a => f a
  | Err e => Err e
  | Panic => Panic
  end.

(** [if cond { return err }]: continue with [k] when the guard does not fire. *)
Definition guard_err {E A : Type} (bad : bool) (e : E) (k : outcome E A) : outcome E A :=
  if bad then Err e else k.

(** A failing call whose error the caller replaces: [if err != nil { return e }]. *)
Definition of_option {E A : Type} (e : E) (m : option A) : outcome E A :=
  match m with
  | Some a => Ok a
  | None => Err e
  end.

Definition is_ok {E A : Type} (m : outcome E A) : bool :=
  match m with Ok _ => true | _ => false end.

Declare Scope go_scope.
Delimit Scope go_scope with go.
Notation "'let?' x ':=' m 'in' k" := (obind m (fun x => k))
  (at level 10, x pattern, m at level 100, k at level 200) : go_scope.
Notation "'fail?' b 'with' e ';;' k" := (guard_err b e k)
  (at level 10, b at level 99, e at level 99, k at level 200) : go_scope.
#[global] Open Scope go_scope.

(** ** Machine integers

    A [w]-bit value is a [Z] in range; arithmetic wraps around. *)
Definition wrap_u (w z : Z) : Z := z mod 2 ^ w.
Definition wrap_s (w z : Z) : Z := (z + 2 ^ (w - 1)) mod 2 ^ w - 2 ^ (w - 1).

Abbreviation wrap_u64 := (wrap_u 64).
Abbreviation wrap_i64 := (wrap_s 64).

Definition u_range (w z : Z) : Prop := 0 <= z < 2 ^ w.
Definition s_range (w z : Z) : Prop := - 2 ^ (w - 1) <= z < 2 ^ (w - 1).

(** Go's truncated division and remainder. *)
Definition go_quot (a b : Z) : Z := Z.quot a b.
Definition go_rem (a b : Z) : Z := Z.rem a b.

(** ** Tactics *)

(** Split every [outcome] computation of the context into its successful path. *)
Ltac outcome_step :=
  match goal with
  | H : obind ?m _ = Ok _ |- _ =>
      let a := fresh "a" in let E := fresh "E" in
      destruct m as [a| |] eqn:E; cbn [obind] in H; [|discriminate H|discriminate H]
  | H : guard_err ?b _ _ = Ok _ |- _ =>
      let E := fresh "E" in
      destruct b eqn:E; cbn [guard_err] in H; [discriminate H|]
  | H : of_option _ ?m = Ok _ |- _ =>
      let a := fresh "a" in let E := fresh "E" in
      destruct m as [a|] eqn:E; cbn [of_option] in H; [|discriminate H]
  | H : Ok _ = Ok _ |- _ => injection H as H
  | H : Err _ = Ok _ |- _ => discriminate H
  | H : Panic = Ok _ |- _ => discriminate H
  end.
Ltac outcome_inv := repeat (outcome_step; subst).

(** Turn boolean comparisons of [Z] and boolean connectives into propositions. *)
Ltac zbool :=
  repeat match goal with
  | H : (_ <? _) = true |- _ => apply Z.ltb_lt in H
  | H : (_ <? _) = false |- _ => apply Z.ltb_ge in H
  | H : (_ <=? _) = true |- _ => apply Z.leb_le in H
  | H : (_ <=? _) = false |- _ => apply Z.leb_gt in H
  | H : (_ =? _) = true |- _ => apply Z.eqb_eq in H
  | H : (_ =? _) = false |- _ => apply Z.eqb_neq in H
  | H : (_ && _) = true |- _ => apply andb_true_iff in H as [? ?]
  | H : (_ || _) = false |- _ => apply orb_false_iff in H as [? ?]
  | H : negb _ = true |- _ => apply negb_true_iff in H
  | H : negb _ = false |- _ => apply negb_false_iff in H
  | H : bool_decide _ = true |- _ => apply bool_decide_eq_true in H
  | H : bool_decide _ = false |- _ => apply bool_decide_eq_false in H
  end.

(** Case split on the comparison a goal or hypothesis branches on. *)
Ltac zcase :=
  match goal with
  | |- context [if ?a <? ?b then _ else _] => destruct (Z.ltb_spec a b)
  | |- context [if ?a <=? ?b then _ else _] => destruct (Z.leb_spec a b)
  | |- context [if ?a =? ?b then _ else _] => destruct (Z.eqb_spec a b)
  | H : context [if ?a <? ?b then _ else _] |- _ => destruct (Z.ltb_spec a b)
  | H : context [if ?a <=? ?b then _ else _] |- _ => destruct (Z.leb_spec a b)
  | H : context [if ?a =? ?b then _ else _] |- _ => destruct (Z.eqb_spec a b)
  end.

(** ** Generic lemmas *)

(** Unlike [injection], this does not evaluate the values. *)
Lemma Ok_inj {E A : Type} (a b : A) : Ok (E := E) a = Ok b -> a = b.
Proof. congruence. Qed.

Lemma obind_ok {E A B : Type} (m : outcome E A) (f : A -> outcome E B) (b : B) :
  obind m f = Ok b <-> exists a, m = Ok a /\ f a = Ok b.
Proof.
  destruct m as [a| |]; cbn; split; try (intros (? & ? & ?); discriminate); try discriminate.
  - eauto.
  - intros (a' & [= <-] & H); exact H.
Qed.

Lemma obind_not_panic {E A B : Type} (m : outcome E A) (f : A -> outcome E B) :
  m <> Panic -> (forall a, m = Ok a -> f a <> Panic) -> obind m f <> Panic.
Proof. intros Hm Hf. destruct m; cbn; [by apply Hf|discriminate|done]. Qed.

Lemma guard_err_ok {E A : Type} (bad : bool) (e : E) (k : outcome E A) (a : A) :
  guard_err bad e k = Ok a <-> bad = false /\ k = Ok a.
Proof. destruct bad; cbn; split; (intros [? ?] || intros ?); try discriminate; auto. Qed.

Lemma guard_err_not_panic {E A : Type} (bad : bool) (e : E) (k : outcome E A) :
  k <> Panic -> guard_err bad e k <> Panic.
Proof. by destruct bad. Qed.

Lemma of_option_not_panic {E A : Type} (e : E) (m : option A) : of_option e m <> Panic.
Proof. by destruct m. Qed.

(** [no_panic] walks a computation; the database holds the callees that never panic. *)
Create HintDb no_panic discriminated.
#[export] Hint Resolve of_option_not_panic : no_panic.
Ltac no_panic :=
  repeat first
    [ discriminate
    | solve [auto with no_panic nocore]
    | apply guard_err_not_panic
    | apply obind_not_panic; [|intros ? ?]
    | case_match ].

Lemma wrap_u_range (w z : Z) : 0 <= w -> u_range w (wrap_u w z).
Proof. intros Hw. unfold u_range, wrap_u. apply Z.mod_pos_bound. lia. Qed.

Lemma wrap_u_small (w z : Z) : u_range w z -> wrap_u w z = z.
Proof. unfold u_range, wrap_u. intros H. by apply Z.mod_small. Qed.

Lemma wrap_s_small (w z : Z) : 1 <= w -> s_range w z -> wrap_s w z = z.
Proof.
  unfold s_range, wrap_s. intros Hw Hz.
  assert (2 ^ w = 2 * 2 ^ (w - 1)) as E
    by (rewrite <- (Z.pow_succ_r 2 (w - 1)) by lia; f_equal; lia).
  rewrite Z.mod_small by lia. lia.
Qed.

Lemma wrap_s_range (w z : Z) : 1 <= w -> s_range w (wrap_s w z).
Proof.
  unfold s_range, wrap_s. intros Hw.
  assert (2 ^ w = 2 * 2 ^ (w - 1)) as E
    by (rewrite <- (Z.pow_succ_r 2 (w - 1)) by lia; f_equal; lia).
  pose proof (Z.mod_pos_bound (z + 2 ^ (w - 1)) (2 ^ w) ltac:(lia)). lia.
Qed.

Create HintDb go discriminated.
#[export] Hint Resolve wrap_u_range wrap_s_range : go.

(** Sum of a list of integers. *)
Definition zsum (l : list Z) : Z := foldr Z.add 0 l.

Lemma zsum_cons (x : Z) (l : list Z) : zsum (x :: l) = x + zsum l.
Proof. done. Qed.

Lemma zsum_app (l k : list Z) : zsum (l ++ k) = zsum l + zsum k.
Proof. induction l as [|x l IH]; cbn; [done|]. unfold zsum in *. rewrite IH. lia. Qed.

Lemma zsum_perm (l k : list Z) : l ≡ₚ k -> zsum l = zsum k.
Proof. induction 1; cbn in *; unfold zsum in *; cbn in *; lia. Qed.

Lemma zsum_nonneg (l : list Z) : Forall (fun x => 0 <= x) l -> 0 <= zsum l.
Proof. induction 1; cbn; unfold zsum in *; lia. Qed.

(** A fact about every number below a literal bound, by evaluation: the goal's
    [n] has a hypothesis [0 <= n < k]. *)
Lemma below_all (P : Z -> Prop) (k : Z) (n : Z) :
  Forall P (seqZ 0 k) -> 0 <= n < k -> P n.
Proof.
  intros HP Hn. rewrite Forall_forall in HP. apply HP, elem_of_seqZ. lia.
Qed.

Ltac each_below n :=
  match goal with
  | H : 0 <= n < ?k |- _ =>
      pattern n; apply (below_all _ k n); [|exact H]; repeat constructor
  end.

(** Unlike [injection], these leave the entries as they are. *)
Lemma cons_eq_inv {A : Type} (x y : A) (l k : list A) : x :: l = y :: k -> x = y /\ l = k.
Proof. by intros [= -> ->]. Qed.

Ltac cons_inv :=
  repeat match goal with H : _ :: _ = _ :: _ |- _ => apply cons_eq_inv in H as [? H] end.

Lemma NoDup_snoc {A : Type} (l : list A) (x : A) : NoDup l -> x ∉ l -> NoDup (l ++ [x]).
Proof.
  intros Hl Hx. apply NoDup_app. split; [done|]. split; [|apply NoDup_singleton].
  intros y Hy HI. apply list_elem_of_singleton in HI as ->. done.
Qed.

Lemma length_filter_map {A B : Type} (P : B -> Prop) {DP : forall x, Decision (P x)} (f : A -> B) (l : list A) :
  length (filter P (map f l)) = length (filter (fun x => P (f x)) l).
Proof. induction l as [|x l IH]; [done|]. cbn [map]. rewrite !filter_cons. destruct (decide (P (f x))); cbn [length]; by rewrite IH. Qed.
Lemma filter_ext_in {A : Type} (P Q : A -> Prop) {DP : forall x, Decision (P x)} {DQ : forall x, Decision (Q x)} (l : list A) :
  (forall x, x ∈ l -> P x <-> Q x) -> filter P l = filter Q l.
Proof.
  induction l as [|x l IH]; intros H; [done|]. rewrite !filter_cons. rewrite IH by (intros y Hy; apply H; by apply list_elem_of_further).
  pose proof (H x (list_elem_of_here _ _)). destruct (decide (P x)), (decide (Q x)); tauto.
Qed.
