(* ===== verification/GoBytes.v ===== *)
(** * Bytes, byte orders and text

    The parts of the Go standard library the components share: byte slices
    and arrays as lists of [Z], [encoding/binary]'s big and little endian
    integers, [bytes.Compare], [big.Int.Bytes], [encoding/hex], the base 10
    text of a [big.Int], [time], and [crypto/sha256] as a parameter. *)
From S2P Require Import Prelude.
From Stdlib Require Import Ascii.
From Stdlib Require String.
Import String.StringSyntax.

Abbreviation bytes := (list Z).

Definition byte_ok (b : Z) : Prop := 0 <= b < 256.
Definition bytes_ok (l : bytes) : Prop := Forall byte_ok l.
(** A Go array [[n]byte]. *)
Definition array_ok (n : nat) (l : bytes) : Prop := length l = n /\ bytes_ok l.
Definition zeros (n : nat) : bytes := replicate n 0.

Definition byte_okb (b : Z) : bool := (0 <=? b) && (b <? 256).
Definition array_okb (n : nat) (l : bytes) : bool :=
  Nat.eqb (length l) n && forallb byte_okb l.

(** [binary.LittleEndian] and [binary.BigEndian], for any width. *)
Fixpoint le_encode (n : nat) (z : Z) : bytes :=
  match n with
  | O => []
  | S n => z mod 256 :: le_encode n (z / 256)
  end.
Fixpoint le_decode (l : bytes) : Z :=
  match l with
  | [] => 0
  | b :: l => b + 256 * le_decode l
  end.
Definition be_encode (n : nat) (z : Z) : bytes := reverse (le_encode n z).
Definition be_decode (l : bytes) : Z := foldl (fun acc b => acc * 256 + b) 0 l.

(** [bytes.Compare(a, b) < 0]. *)
Fixpoint bytes_ltb (a b : bytes) : bool :=
  match a, b with
  | _, [] => false
  | [], _ :: _ => true
  | x :: a, y :: b => if x =? y then bytes_ltb a b else x <? y
  end.

(** The number of bytes of [|z|], and [big.Int.Bytes]. *)
Definition byte_len (z : Z) : nat :=
  if Z.abs z =? 0 then O else Z.to_nat (Z.log2 (Z.abs z) / 8 + 1).
Definition big_bytes (z : Z) : bytes := be_encode (byte_len z) (Z.abs z).

(** [encoding/hex]. *)
Definition hex_digit (n : Z) : ascii :=
  ascii_of_N (Z.to_N (if n <? 10 then 48 + n else 87 + n)).
Definition hex_value (c : ascii) : option Z :=
  let n := Z.of_N (N_of_ascii c) in
  if (48 <=? n) && (n <=? 57) then Some (n - 48)
  else if (97 <=? n) && (n <=? 102) then Some (n - 87)
  else if (65 <=? n) && (n <=? 70) then Some (n - 55)
  else None.
Fixpoint hex_encode (l : bytes) : string :=
  match l with
  | [] => String.EmptyString
  | b :: l => String.String (hex_digit (b / 16)) (String.String (hex_digit (b mod 16)) (hex_encode l))
  end.
Fixpoint hex_decode (s : string) : option bytes :=
  match s with
  | String.EmptyString => Some []
  | String.String c1 (String.String c2 s) =>
      match hex_value c1, hex_value c2, hex_decode s with
      | Some h, Some l, Some r => Some (16 * h + l :: r)
      | _, _, _ => None
      end
  | String.String _ String.EmptyString => None
  end.

(** [big.Int.String] and [big.Int.SetString(s, 10)]. *)
Definition dec_digit (n : Z) : ascii := ascii_of_N (Z.to_N (48 + n)).
Definition dec_value (c : ascii) : option Z :=
  let n := Z.of_N (N_of_ascii c) in
  if (48 <=? n) && (n <=? 57) then Some (n - 48) else None.
Fixpoint dec_loop (fuel : nat) (n : Z) (acc : string) : string :=
  match fuel with
  | O => acc
  | S fuel =>
      if n <? 10 then String.String (dec_digit n) acc
      else dec_loop fuel (n / 10) (String.String (dec_digit (n mod 10)) acc)
  end.
Definition dec_nat_text (n : Z) : string := dec_loop (S (Z.to_nat (Z.log2 n))) n String.EmptyString.
Definition dec_text (z : Z) : string :=
  if z <? 0 then String.String "-" (dec_nat_text (- z)) else dec_nat_text z.
Fixpoint dec_scan (s : string) (acc : Z) : option Z :=
  match s with
  | String.EmptyString => Some acc
  | String.String c s =>
      match dec_value c with
      | Some d => dec_scan s (acc * 10 + d)
      | None => None
      end
  end.
Definition dec_scan_digits (s : string) : option Z :=
  match s with String.EmptyString => None | _ => dec_scan s 0 end.
Definition dec_parse (s : string) : option Z :=
  match s with
  | String.EmptyString => None
  | String.String c r =>
      if Ascii.eqb c "-" then Z.opp <$> dec_scan_digits r
      else if Ascii.eqb c "+" then dec_scan_digits r
      else dec_scan_digits s
  end.

(** The bytes of a Go string literal. *)
Definition text_bytes (s : string) : bytes := map (fun c => Z.of_N (N_of_ascii c)) (String.list_ascii_of_string s).

(** [time]: an instant is a number of nanoseconds since 1970, a difference
    saturates. *)
Definition NanoSecond : Z := 1000000000.
Definition time_Sub (t u : Z) : Z := Z.max (- 2 ^ 63) (Z.min (2 ^ 63 - 1) (t - u)).
(** [Unix()] *)
Definition unix (t : Z) : Z := t / NanoSecond.

Lemma array_okb_spec (n : nat) (l : bytes) : array_okb n l = true <-> array_ok n l.
Proof.
  unfold array_okb, array_ok, bytes_ok. rewrite andb_true_iff, Nat.eqb_eq, forallb_forall, Forall_forall.
  assert (forall b, byte_okb b = true <-> byte_ok b) as H.
  { intros b. unfold byte_okb, byte_ok. rewrite andb_true_iff, Z.leb_le, Z.ltb_lt. lia. }
  split; intros [? F]; (split; [done|]); intros b Hb; apply H, F; by apply list_elem_of_In.
Qed.

(** ** Little and big endian *)

Lemma byte_mod_ok (z : Z) : byte_ok (z mod 256).
Proof. unfold byte_ok. apply Z.mod_pos_bound. lia. Qed.

Lemma length_le_encode (n : nat) (z : Z) : length (le_encode n z) = n.
Proof. revert z; induction n; intros; cbn; auto. Qed.

Lemma le_encode_ok (n : nat) (z : Z) : bytes_ok (le_encode n z).
Proof.
  revert z; induction n; intros; cbn; constructor; [apply byte_mod_ok|apply IHn].
Qed.

Lemma le_decode_encode (n : nat) (z : Z) :
  le_decode (le_encode n z) = z mod 256 ^ Z.of_nat n.
Proof.
  revert z; induction n as [|n IH]; intros z; cbn [le_encode le_decode].
  - by rewrite Z.mod_1_r.
  - rewrite IH, Nat2Z.inj_succ, Z.pow_succ_r by lia.
    rewrite Z.rem_mul_r by lia. lia.
Qed.

Lemma le_encode_decode (l : bytes) : bytes_ok l -> le_encode (length l) (le_decode l) = l.
Proof.
  induction 1 as [|b l Hb Hl IH]; cbn; [done|].
  unfold byte_ok in Hb. f_equal.
  - rewrite Z.mul_comm, Z.mod_add, Z.mod_small by lia. done.
  - replace ((b + 256 * le_decode l) / 256) with (le_decode l); [done|].
    rewrite Z.mul_comm, Z.div_add, Z.div_small by lia. lia.
Qed.

Lemma le_encode_inj (n : nat) (x y : Z) : 0 <= x < 256 ^ Z.of_nat n -> 0 <= y < 256 ^ Z.of_nat n -> le_encode n x = le_encode n y -> x = y.
Proof.
  intros Hx Hy H. apply (f_equal le_decode) in H. rewrite !le_decode_encode in H. by rewrite !Z.mod_small in H by done.
Qed.
Lemma le_decode_range (l : bytes) :
  bytes_ok l -> 0 <= le_decode l < 256 ^ Z.of_nat (length l).
Proof.
  induction 1 as [|b l Hb Hl IH]; cbn [le_decode length]; [lia|].
  unfold byte_ok in Hb. rewrite Nat2Z.inj_succ, Z.pow_succ_r by lia. lia.
Qed.

Lemma le_encode_mod (n : nat) (z : Z) :
  le_encode n (z mod 256 ^ Z.of_nat n) = le_encode n z.
Proof.
  rewrite <- le_decode_encode. rewrite <- (length_le_encode n z) at 1.
  apply le_encode_decode, le_encode_ok.
Qed.

Lemma le_decode_app (l k : bytes) :
  le_decode (l ++ k) = le_decode l + 256 ^ Z.of_nat (length l) * le_decode k.
Proof.
  induction l as [|b l IH]; cbn [app le_decode length]; [lia|].
  rewrite IH, Nat2Z.inj_succ, Z.pow_succ_r by lia. lia.
Qed.

Lemma be_decode_acc (l : bytes) (acc : Z) :
  foldl (fun acc b => acc * 256 + b) acc l = acc * 256 ^ Z.of_nat (length l) + be_decode l.
Proof.
  unfold be_decode. revert acc; induction l as [|b l IH]; intros acc; cbn [foldl length]; [lia|].
  rewrite (IH (acc * 256 + b)), (IH (0 * 256 + b)), Nat2Z.inj_succ, Z.pow_succ_r by lia. lia.
Qed.

Lemma be_decode_cons (b : Z) (l : bytes) :
  be_decode (b :: l) = b * 256 ^ Z.of_nat (length l) + be_decode l.
Proof. unfold be_decode at 1. cbn [foldl]. rewrite be_decode_acc. lia. Qed.

Lemma be_decode_app (l k : bytes) :
  be_decode (l ++ k) = be_decode l * 256 ^ Z.of_nat (length k) + be_decode k.
Proof. unfold be_decode at 1. rewrite foldl_app. apply be_decode_acc. Qed.

Lemma be_decode_le (l : bytes) : be_decode l = le_decode (reverse l).
Proof.
  induction l as [|b l IH]; [done|].
  rewrite be_decode_cons, reverse_cons, le_decode_app, length_reverse, IH. cbn. lia.
Qed.

Lemma length_be_encode (n : nat) (z : Z) : length (be_encode n z) = n.
Proof. unfold be_encode. by rewrite length_reverse, length_le_encode. Qed.

Lemma be_encode_ok (n : nat) (z : Z) : bytes_ok (be_encode n z).
Proof. unfold be_encode, bytes_ok. rewrite Forall_reverse. apply le_encode_ok. Qed.

Lemma be_encode_array (n : nat) (z : Z) : array_ok n (be_encode n z).
Proof. split; [apply length_be_encode|apply be_encode_ok]. Qed.

Lemma be_decode_encode (n : nat) (z : Z) :
  be_decode (be_encode n z) = z mod 256 ^ Z.of_nat n.
Proof. unfold be_encode. rewrite be_decode_le, reverse_involutive. apply le_decode_encode. Qed.

Lemma be_decode_encode_small (n : nat) (z : Z) :
  0 <= z < 256 ^ Z.of_nat n -> be_decode (be_encode n z) = z.
Proof. intros. rewrite be_decode_encode. by apply Z.mod_small. Qed.

Lemma be_encode_decode (l : bytes) : bytes_ok l -> be_encode (length l) (be_decode l) = l.
Proof.
  intros Hl. unfold be_encode. rewrite be_decode_le, <- length_reverse.
  rewrite le_encode_decode, reverse_involutive; [done|]. unfold bytes_ok. by rewrite Forall_reverse.
Qed.

Lemma be_decode_range (l : bytes) :
  bytes_ok l -> 0 <= be_decode l < 256 ^ Z.of_nat (length l).
Proof.
  intros Hl. rewrite be_decode_le, <- length_reverse. apply le_decode_range.
  unfold bytes_ok. by rewrite Forall_reverse.
Qed.

Lemma be_decode_inj (l k : bytes) :
  bytes_ok l -> bytes_ok k -> length l = length k -> be_decode l = be_decode k -> l = k.
Proof.
  intros Hl Hk Hlen E.
  rewrite <- (be_encode_decode l), <- (be_encode_decode k) by done. by rewrite Hlen, E.
Qed.

Lemma be_encode_inj (n : nat) (x y : Z) :
  0 <= x < 256 ^ Z.of_nat n -> 0 <= y < 256 ^ Z.of_nat n ->
  be_encode n x = be_encode n y -> x = y.
Proof.
  intros Hx Hy E. apply (f_equal be_decode) in E.
  by rewrite !be_decode_encode_small in E.
Qed.

(** ** Lexicographic comparison *)

Lemma bytes_ltb_irrefl (a : bytes) : bytes_ltb a a = false.
Proof. induction a; cbn; [done|]. by rewrite Z.eqb_refl. Qed.

Lemma bytes_ltb_trans (a b c : bytes) :
  bytes_ltb a b = true -> bytes_ltb b c = true -> bytes_ltb a c = true.
Proof.
  revert b c; induction a as [|x a IH]; intros [|y b] [|z c]; cbn; try done.
  repeat zcase; subst; intros; zbool; try lia; eauto.
Qed.

Lemma bytes_ltb_total (a b : bytes) :
  bytes_ltb a b = false -> bytes_ltb b a = false -> a = b.
Proof.
  revert b; induction a as [|x a IH]; intros [|y b]; cbn; try done.
  repeat zcase; subst; intros; zbool; try lia. f_equal; auto.
Qed.

Lemma bytes_ltb_asym (a b : bytes) : bytes_ltb a b = true -> bytes_ltb b a = false.
Proof.
  intros H. destruct (bytes_ltb b a) eqn:E; [|done].
  pose proof (bytes_ltb_trans _ _ _ H E) as C. by rewrite bytes_ltb_irrefl in C.
Qed.

(** For arrays of one length, [bytes.Compare] is the order of the big-endian integers. *)
Lemma bytes_ltb_be (n : nat) (a b : bytes) :
  array_ok n a -> array_ok n b -> bytes_ltb a b = (be_decode a <? be_decode b).
Proof.
  revert a b; induction n as [|n IH]; intros a b [La Ha] [Lb Hb].
  { destruct a, b; cbn in *; try discriminate. done. }
  destruct a as [|x a]; [discriminate|]. destruct b as [|y b]; [discriminate|].
  injection La as La. injection Lb as Lb.
  apply Forall_cons in Ha as [Hx Ha]. apply Forall_cons in Hb as [Hy Hb].
  cbn [bytes_ltb]. rewrite !be_decode_cons, La, Lb, (IH a b) by (split; done).
  pose proof (be_decode_range a Ha) as Ra. pose proof (be_decode_range b Hb) as Rb.
  rewrite La in Ra. rewrite Lb in Rb.
  destruct (Z.eqb_spec x y) as [->|].
  - apply eq_true_iff_eq. rewrite !Z.ltb_lt. lia.
  - apply eq_true_iff_eq. rewrite !Z.ltb_lt. nia.
Qed.

(** ** big.Int.Bytes *)

Lemma byte_len_spec (z : Z) : z <> 0 -> 256 ^ (Z.of_nat (byte_len z) - 1) <= Z.abs z < 256 ^ Z.of_nat (byte_len z).
Proof.
  intros Hz. unfold byte_len. destruct (Z.eqb_spec (Z.abs z) 0); [lia|].
  pose proof (Z.log2_spec (Z.abs z) ltac:(lia)) as [L1 L2].
  pose proof (Z.log2_nonneg (Z.abs z)) as L0.
  set (k := Z.log2 (Z.abs z)) in *.
  rewrite Z2Nat.id by (pose proof (Z.div_pos k 8); lia).
  replace (k / 8 + 1 - 1) with (k / 8) by lia.
  change 256 with (2 ^ 8). rewrite <- !Z.pow_mul_r by (pose proof (Z.div_pos k 8); lia).
  pose proof (Z.mul_div_le k 8 ltac:(lia)). pose proof (Z.mul_succ_div_gt k 8 ltac:(lia)).
  split.
  - etransitivity; [apply Z.pow_le_mono_r; [lia|]|exact L1]. lia.
  - eapply Z.lt_le_trans; [exact L2|]. apply Z.pow_le_mono_r; lia.
Qed.

Lemma byte_len_bound (z : Z) : Z.abs z < 256 ^ Z.of_nat (byte_len z).
Proof.
  destruct (decide (z = 0)) as [->|Hz]; [done|]. by apply byte_len_spec.
Qed.

Lemma be_decode_big_bytes (z : Z) : be_decode (big_bytes z) = Z.abs z.
Proof.
  unfold big_bytes. apply be_decode_encode_small. pose proof (byte_len_bound z). lia.
Qed.
Lemma big_bytes_inj (x y : Z) : 0 <= x -> 0 <= y -> big_bytes x = big_bytes y -> x = y.
Proof. intros Hx Hy H. apply (f_equal be_decode) in H. rewrite !be_decode_big_bytes in H. lia. Qed.

Lemma byte_len_le (z : Z) (n : nat) : Z.abs z < 256 ^ Z.of_nat n -> (byte_len z <= n)%nat.
Proof.
  intros Hz. destruct (decide (z = 0)) as [->|Hnz]; [change (0 <= n)%nat; lia|].
  pose proof (byte_len_spec z Hnz) as [L _].
  pose proof (Z.le_lt_trans _ _ _ L Hz) as C. apply Z.pow_lt_mono_r_iff in C; lia.
Qed.

Lemma be_decode_zeros (n : nat) : be_decode (zeros n) = 0.
Proof.
  unfold zeros. induction n; [done|]. cbn [replicate]. rewrite be_decode_cons, IHn. lia.
Qed.

Lemma zeros_ok (n : nat) : array_ok n (zeros n).
Proof.
  split; [apply length_replicate|]. apply Forall_replicate. unfold byte_ok; lia.
Qed.

(** ** Hexadecimal text *)

Lemma hex_value_digit (n : Z) : 0 <= n < 16 -> hex_value (hex_digit n) = Some n.
Proof.
  intros Hn.
  each_below n.
Qed.

Lemma hex_decode_encode (l : bytes) : bytes_ok l -> hex_decode (hex_encode l) = Some l.
Proof.
  induction 1 as [|b l Hb Hl IH]; cbn [hex_encode hex_decode]; [done|].
  unfold byte_ok in Hb.
  pose proof (Z.mod_pos_bound b 16 ltac:(lia)).
  assert (0 <= b / 16 < 16) by (split; [apply Z.div_pos|apply Z.div_lt_upper_bound]; lia).
  rewrite !hex_value_digit by lia. rewrite IH. do 2 f_equal.
  rewrite (Z.div_mod b 16) at 3 by lia. lia.
Qed.

Lemma hex_value_range (c : ascii) (n : Z) : hex_value c = Some n -> 0 <= n < 16.
Proof. unfold hex_value. repeat case_match; intros [= <-]; zbool; lia. Qed.

Lemma hex_decode_cons (s : string) (b : Z) (l : bytes) :
  hex_decode s = Some (b :: l) -> byte_ok b /\ exists s', hex_decode s' = Some l.
Proof.
  destruct s as [|c1 [|c2 s]]; cbn; try discriminate.
  destruct (hex_value c1) as [h|] eqn:E1, (hex_value c2) as [d|] eqn:E2,
    (hex_decode s) as [r|] eqn:E3; try discriminate.
  intros [= <- <-]. apply hex_value_range in E1, E2. unfold byte_ok. split; [lia|eauto].
Qed.

Lemma hex_decode_ok (s : string) (l : bytes) : hex_decode s = Some l -> bytes_ok l.
Proof.
  revert s. induction l as [|b l IH]; intros s Hs; constructor;
    apply hex_decode_cons in Hs as [Hb [s' Hs']]; [exact Hb|by eapply IH].
Qed.

(** ** Decimal text *)

Lemma dec_value_digit (n : Z) : 0 <= n < 10 -> dec_value (dec_digit n) = Some n.
Proof.
  intros Hn.
  each_below n.
Qed.

Lemma dec_digit_not_sign (n : Z) (c : ascii) :
  0 <= n < 10 -> c = "-"%char \/ c = "+"%char -> Ascii.eqb (dec_digit n) c = false.
Proof.
  intros Hn Hc.
  destruct Hc as [-> | ->]; each_below n.
Qed.

(** The loop prints a non-empty run of digits that scans back to the number. *)
Lemma dec_loop_scan (fuel : nat) (n : Z) (acc : string) :
  0 <= n < 2 ^ Z.of_nat fuel ->
  (exists d r, dec_loop fuel n acc = String.String (dec_digit d) r /\ 0 <= d < 10) /\
  dec_scan (dec_loop fuel n acc) 0 = dec_scan acc n \/ fuel = O.
Proof.
  revert n acc. induction fuel as [|fuel IH]; intros n acc Hn; [by right|left].
  rewrite Nat2Z.inj_succ, Z.pow_succ_r in Hn by lia. cbn [dec_loop].
  destruct (Z.ltb_spec n 10).
  - split; [exists n, acc; split; [done|lia]|]. cbn. by rewrite dec_value_digit by lia.
  - pose proof (Z.mod_pos_bound n 10 ltac:(lia)). pose proof (Z.div_mod n 10 ltac:(lia)).
    destruct (IH (n / 10) (String.String (dec_digit (n mod 10)) acc)) as [[HD HS]| ->].
    + split; [apply Z.div_pos; lia|]. apply Z.div_lt_upper_bound; lia.
    + split; [exact HD|]. rewrite HS. cbn [dec_scan]. rewrite dec_value_digit by lia.
      f_equal. lia.
    + cbn in Hn. lia.
Qed.

Lemma dec_nat_text_scan (n : Z) :
  0 <= n -> exists d r, dec_nat_text n = String.String (dec_digit d) r /\ 0 <= d < 10 /\
    dec_scan (dec_nat_text n) 0 = Some n.
Proof.
  intros Hn. unfold dec_nat_text.
  destruct (dec_loop_scan (S (Z.to_nat (Z.log2 n))) n String.EmptyString) as [[(d & r & E & Hd) HS]|?];
    [|exists d, r; rewrite <- E; auto|done].
  split; [lia|]. rewrite Nat2Z.inj_succ, Z2Nat.id by apply Z.log2_nonneg.
  destruct (decide (n = 0)) as [->|]; [done|]. apply Z.log2_spec. lia.
Qed.

(** [SetString] reads back what [String] prints. *)
Lemma dec_scan_digits_text (n : Z) : 0 <= n -> dec_scan_digits (dec_nat_text n) = Some n.
Proof.
  intros Hn. destruct (dec_nat_text_scan n Hn) as (d & r & E & Hd & HS).
  unfold dec_scan_digits. rewrite E in *. exact HS.
Qed.

Lemma dec_parse_text (z : Z) : dec_parse (dec_text z) = Some z.
Proof.
  unfold dec_text. destruct (Z.ltb_spec z 0).
  - change (Z.opp <$> dec_scan_digits (dec_nat_text (- z)) = Some z).
    rewrite dec_scan_digits_text by lia. cbn. f_equal. lia.
  - pose proof (dec_scan_digits_text z ltac:(lia)) as HS.
    destruct (dec_nat_text_scan z) as (d & r & E & Hd & _); [lia|].
    rewrite E in *. unfold dec_parse.
    rewrite !dec_digit_not_sign by auto. exact HS.
Qed.

#[export] Hint Resolve be_encode_ok le_encode_ok be_encode_array zeros_ok byte_mod_ok : go.


(** ** Concatenations of fixed-width fields *)

Lemma concat_arrays_inj (n : nat) (ls ks : list bytes) :
  (0 < n)%nat -> Forall (fun l => length l = n) ls -> Forall (fun l => length l = n) ks ->
  concat ls = concat ks -> ls = ks.
Proof.
  intros Hn Hls. revert ks. induction Hls as [|l ls Hl Hls IH]; intros ks Hks E.
  - destruct Hks as [|k ks Hk]; [done|]. cbn in E. apply (f_equal length) in E.
    rewrite length_app in E. cbn in E. lia.
  - destruct Hks as [|k ks Hk Hks]; cbn in E.
    + apply (f_equal length) in E. rewrite length_app in E. cbn in E. lia.
    + apply app_inj_1 in E as [-> E]; [|congruence]. f_equal. by apply IH.
Qed.

Lemma length_concat_arrays (n : nat) (ls : list bytes) :
  Forall (fun l => length l = n) ls -> length (concat ls) = (n * length ls)%nat.
Proof. induction 1 as [|l ls Hl _ IH]; cbn; [lia|]. rewrite length_app, IH. lia. Qed.

(** ** Concatenations of strings *)

Lemma append_cons (c : Ascii.ascii) (a b : string) :
  String.append (String.String c a) b = String.String c (String.append a b).
Proof. done. Qed.

Lemma append_inj (a b s t : string) :
  String.length a = String.length b -> String.append a s = String.append b t -> a = b /\ s = t.
Proof.
  revert b. induction a as [|c a IH]; intros [|d b]; cbn; try done. intros [= Hl] [= -> H].
  by destruct (IH b Hl H) as [-> ->].
Qed.

Lemma length_append (a b : string) : String.length (String.append a b) = (String.length a + String.length b)%nat.
Proof. induction a as [|c a IH]; [done|].
  change (S (String.length (String.append a b)) = S (String.length a + String.length b)). by rewrite IH.
Qed.

Lemma append_inj_r (a b s t : string) :
  String.length s = String.length t -> String.append a s = String.append b t -> a = b /\ s = t.
Proof.
  intros Hl H. apply append_inj; [|done]. apply (f_equal String.length) in H. rewrite !length_append in H. lia.
Qed.

Lemma length_hex_encode (b : bytes) : String.length (hex_encode b) = (2 * length b)%nat.
Proof. induction b as [|x b IH]; [done|]. cbn. rewrite IH. lia. Qed.

Lemma hex_encode_inj (a b : bytes) : bytes_ok a -> bytes_ok b -> hex_encode a = hex_encode b -> a = b.
Proof. intros Ha Hb H. apply (f_equal hex_decode) in H. rewrite !hex_decode_encode in H by done. by injection H. Qed.

Lemma append_assoc (a b c : string) : String.append (String.append a b) c = String.append a (String.append b c).
Proof. induction a as [|x a IH]; [done|]. rewrite !append_cons. by rewrite IH. Qed.

(** ** [crypto/sha256]; only the width of a digest is relied on. *)

Class Sha256 : Type := sha256 : bytes -> bytes.
Class Sha256Laws (H : Sha256) : Prop := sha256_array : forall b, array_ok 32 (sha256 b).

Section Digests.
Context `{Hash : Sha256}.
(** The collision a theorem exhibits: these two inputs, different, with one digest. *)
Definition sha_collide (x y : bytes) : Prop := x <> y /\ sha256 x = sha256 y.
Definition unless_collide (x y : bytes) (P : Prop) : Prop := P \/ sha_collide x y.

Lemma sha_same (x y : bytes) (P : Prop) : (x = y -> P) -> sha256 x = sha256 y -> unless_collide x y P.
Proof. intros HP H. destruct (decide (x = y)) as [E|E]; [left; auto|by right]. Qed.
End Digests.

(** A function of the digest's width, for the concrete instances. *)
#[export] Instance toy_sha : Sha256 :=
  fun b => be_encode 32 (foldl (fun acc x => Z.land (acc * 257 + x + 1) 3618502788666131106986593281521497120414687020801267626233049500247285301247) 5 b).
#[export] Instance toy_sha_laws : Sha256Laws toy_sha.
Proof. intros b. apply be_encode_array. Qed.
