(* ===== verification/RecordUpdate.v ===== *)
(** * Record update

    [r <| f := v |>] is [r] with field [f] replaced, [r <| f ::= g |>] applies
    [g] to it.  A record type opts in with an [Eta] instance; the setter of a
    projection is then found by resolution. *)
From S2P Require Import Prelude.

Class Eta (R : Type) := eta : R -> R.
Class Setter {R T : Type} (proj : R -> T) := setf : (T -> T) -> R -> R.

(** Rebuild the record, with the argument [proj r] of its constructor abstracted. *)
Ltac solve_setter :=
  match goal with
  | |- @Setter ?R ?T ?proj =>
      let g := fresh "g" in let r := fresh "r" in
      unfold Setter; intros g r;
      let body := eval hnf in (@eta R _ r) in
      let abstracted := eval pattern (proj r) in body in
      match abstracted with ?F _ => exact (F (g (proj r))) end
  end.
#[export] Hint Extern 0 (Setter _) => solve_setter : typeclass_instances.

Notation "r <| f := v |>" := (setf (proj := f) (fun _ => v) r)
  (at level 1, f at level 0, left associativity, format "r  <| f  :=  v |>") : go_scope.
Notation "r <| f ::= g |>" := (setf (proj := f) g r)
  (at level 1, f at level 0, left associativity, format "r  <| f  ::=  g |>") : go_scope.
