(* ===== verification/ChannelTypes.v ===== *)
(** * Payment channels: the data

    The records of [internal/channel]: an HTLC, a state, a doubly signed state,
    a transition, the per-channel record with its protocol state, and the error
    values of the package.  A [*big.Int] is an [option Z] ([None] is nil), a
    [[32]byte] or [Address] is the list of its bytes, a Go map is a [gmap]. *)
From S2P Require Import Prelude.
From S2P Require Import GoBytes.

(** The error values the modelled functions return; a wrapped error
    ([fmt.Errorf] with [%w]) is its sentinel, an unnamed one is [ErrText]. *)
Inductive chan_err : Type :=
| ErrBadAddress | ErrBadStateSignature | ErrHighS | ErrNotConserved | ErrNegative
| ErrWrongChannel | ErrDuplicateHTLC | ErrHTLCExpiryPast | ErrNotOpen
| ErrNonceRegressed | ErrInsufficient | ErrNoSuchChannel | ErrChannelExists
| ErrStateUnreadable | ErrNotFromChain
| ErrUnknownKind | ErrNoSuchLock | ErrLockExists | ErrPreimageBad | ErrLocksRemain
| ErrAmountNotPositive | ErrNotAParty
| ErrLocksUnsorted | ErrMalformed | ErrUnknownDomain | ErrNotDecimal | ErrNotBytes32
| ErrNegativeField | ErrHexInvalid
| ErrNeedsReconcile | ErrConflicted | ErrNoPending | ErrIntentMismatch | ErrAlreadySigned
| ErrOtherPending | ErrNotAConflict | ErrVault | ErrPersist | ErrSigner
| ErrChannelNotAdopted | ErrNotAParticipant | ErrChannelNotOnChain | ErrChainUnreachable
| ErrNotChannelManagerV2 | ErrStaleDeposit | ErrNotVerifiable
| ErrNoMargin | ErrNoSuchIncoming | ErrSecretUnknown | ErrNotTheForwarder
| ErrDiffers (field : string)
| ErrRefusing (code : string)
| ErrText (msg : string).

(** state.go *)
Record HTLC : Type := mkHTLC {
  h_ID : bytes;
  h_Hash : bytes;
  h_Amount : option Z;
  h_Expiry : Z;
  h_PayerIsA : bool
}.

Record State : Type := mkState {
  st_Channel : bytes;
  st_Nonce : Z;
  st_BalanceA : option Z;
  st_BalanceB : option Z;
  st_Pending : list HTLC;
  st_WithdrawA : option Z;
  st_WithdrawB : option Z;
  st_Op : Z
}.

Record SignedState : Type := mkSignedState {
  ss_State : State;
  ss_SigA : bytes;
  ss_SigB : bytes
}.

(** transition.go; [KindOther] is any other string of the wire. *)
Inductive TransitionKind : Type :=
| KindPay | KindLockAdd | KindLockSettle | KindLockRefund | KindClose | KindCheckpoint
| KindOther (s : string).

Record StateTransition : Type := mkTransition {
  t_Kind : TransitionKind;
  t_Amount : option Z;
  t_LockID : bytes;
  t_Hash : bytes;
  t_Expiry : Z;
  t_Preimage : bytes
}.

Record PendingProposal : Type := mkPendingProposal {
  pp_Intent : bytes;
  pp_Transition : StateTransition;
  pp_State : State;
  pp_Sig : bytes
}.

Record ConflictRecord : Type := mkConflictRecord {
  cr_Nonce : Z;
  cr_Mine : SignedState;
  cr_Theirs : SignedState
}.

(** history.go; [RouteNone] is the empty string of an unset route, [PayOther] and
    [RouteOther] any other string a stored record may hold. *)
Inductive PayStatus : Type :=
| PayInitiated | PayInFlight | PayCompleted | PayRefunded | PayRejected | PayUnknown
| PayOther (s : string).
Inductive PayRoute : Type := RouteNone | RouteDirect | RouteRouted | RouteOther (s : string).

Record PaymentRecord : Type := mkPaymentRecord {
  pr_Intent : bytes;
  pr_Kind : TransitionKind;
  pr_Route : PayRoute;
  pr_Incoming : bool;
  pr_Amount : string;
  pr_Status : PayStatus;
  pr_LockID : bytes;
  pr_Nonce : Z;
  pr_CreatedAt : Z;
  pr_ResolvedAt : Z;
  pr_Detail : string
}.

(** payout.go *)
Record PayoutPolicy : Type := mkPayoutPolicy {
  po_Mode : string;
  po_IntervalSeconds : Z
}.
Record PayoutRecord : Type := mkPayoutRecord {
  por_Policy : PayoutPolicy;
  por_Phase : string;
  por_TxHash : string;
  por_Nonce : Z;
  por_SubmittedAt : Z;
  por_ConfirmedAt : Z;
  por_LastAttemptAt : Z;
  por_Attempts : Z;
  por_LastError : string;
  por_DueAt : Z
}.

(** The contract's lifecycle ([type Status uint8]). *)
Definition StatusNone : Z := 0.
Definition StatusOpen : Z := 1.
Definition StatusClosing : Z := 2.
Definition StatusSettled : Z := 3.

Record Channel : Type := mkChannel {
  ch_ID : bytes;
  ch_PartyA : bytes;
  ch_PartyB : bytes;
  ch_DepositA : option Z;
  ch_DepositB : option Z;
  ch_Status : Z;
  ch_ChainID : option Z;
  ch_Contract : bytes;
  ch_Latest : SignedState;
  ch_Signed : gmap Z bytes;
  ch_Applied : gmap bytes Z;
  ch_Pending : option PendingProposal;
  ch_Conflict : option ConflictRecord;
  ch_History : list PaymentRecord;
  ch_Payout : option PayoutRecord;
  ch_NeedsReconcile : bool
}.

(** The zero values of the Go structs. *)
Definition zero_state : State := mkState (zeros 32) 0 None None [] None None 0.
Definition zero_signed : SignedState := mkSignedState zero_state [] [].

(** Field updates. *)
Definition set_Op (o : Z) (s : State) : State :=
  mkState (st_Channel s) (st_Nonce s) (st_BalanceA s) (st_BalanceB s) (st_Pending s)
    (st_WithdrawA s) (st_WithdrawB s) o.
Definition set_Pending (ps : list HTLC) (s : State) : State :=
  mkState (st_Channel s) (st_Nonce s) (st_BalanceA s) (st_BalanceB s) ps
    (st_WithdrawA s) (st_WithdrawB s) (st_Op s).
Definition set_BalanceA (v : option Z) (s : State) : State :=
  mkState (st_Channel s) (st_Nonce s) v (st_BalanceB s) (st_Pending s)
    (st_WithdrawA s) (st_WithdrawB s) (st_Op s).
Definition set_BalanceB (v : option Z) (s : State) : State :=
  mkState (st_Channel s) (st_Nonce s) (st_BalanceA s) v (st_Pending s)
    (st_WithdrawA s) (st_WithdrawB s) (st_Op s).
Definition set_WithdrawA (v : option Z) (s : State) : State :=
  mkState (st_Channel s) (st_Nonce s) (st_BalanceA s) (st_BalanceB s) (st_Pending s)
    v (st_WithdrawB s) (st_Op s).
Definition set_WithdrawB (v : option Z) (s : State) : State :=
  mkState (st_Channel s) (st_Nonce s) (st_BalanceA s) (st_BalanceB s) (st_Pending s)
    (st_WithdrawA s) v (st_Op s).

Definition set_Latest (l : SignedState) (c : Channel) : Channel :=
  mkChannel (ch_ID c) (ch_PartyA c) (ch_PartyB c) (ch_DepositA c) (ch_DepositB c) (ch_Status c)
    (ch_ChainID c) (ch_Contract c) l (ch_Signed c) (ch_Applied c) (ch_Pending c) (ch_Conflict c)
    (ch_History c) (ch_Payout c) (ch_NeedsReconcile c).
Definition set_Signed (m : gmap Z bytes) (c : Channel) : Channel :=
  mkChannel (ch_ID c) (ch_PartyA c) (ch_PartyB c) (ch_DepositA c) (ch_DepositB c) (ch_Status c)
    (ch_ChainID c) (ch_Contract c) (ch_Latest c) m (ch_Applied c) (ch_Pending c) (ch_Conflict c)
    (ch_History c) (ch_Payout c) (ch_NeedsReconcile c).
Definition set_Applied (m : gmap bytes Z) (c : Channel) : Channel :=
  mkChannel (ch_ID c) (ch_PartyA c) (ch_PartyB c) (ch_DepositA c) (ch_DepositB c) (ch_Status c)
    (ch_ChainID c) (ch_Contract c) (ch_Latest c) (ch_Signed c) m (ch_Pending c) (ch_Conflict c)
    (ch_History c) (ch_Payout c) (ch_NeedsReconcile c).
Definition set_PendingProposal (p : option PendingProposal) (c : Channel) : Channel :=
  mkChannel (ch_ID c) (ch_PartyA c) (ch_PartyB c) (ch_DepositA c) (ch_DepositB c) (ch_Status c)
    (ch_ChainID c) (ch_Contract c) (ch_Latest c) (ch_Signed c) (ch_Applied c) p (ch_Conflict c)
    (ch_History c) (ch_Payout c) (ch_NeedsReconcile c).
Definition set_Conflict (k : option ConflictRecord) (c : Channel) : Channel :=
  mkChannel (ch_ID c) (ch_PartyA c) (ch_PartyB c) (ch_DepositA c) (ch_DepositB c) (ch_Status c)
    (ch_ChainID c) (ch_Contract c) (ch_Latest c) (ch_Signed c) (ch_Applied c) (ch_Pending c) k
    (ch_History c) (ch_Payout c) (ch_NeedsReconcile c).
Definition set_History (h : list PaymentRecord) (c : Channel) : Channel :=
  mkChannel (ch_ID c) (ch_PartyA c) (ch_PartyB c) (ch_DepositA c) (ch_DepositB c) (ch_Status c)
    (ch_ChainID c) (ch_Contract c) (ch_Latest c) (ch_Signed c) (ch_Applied c) (ch_Pending c)
    (ch_Conflict c) h (ch_Payout c) (ch_NeedsReconcile c).
Definition set_Chain (dA dB : option Z) (status : Z) (c : Channel) : Channel :=
  mkChannel (ch_ID c) (ch_PartyA c) (ch_PartyB c) dA dB status
    (ch_ChainID c) (ch_Contract c) (ch_Latest c) (ch_Signed c) (ch_Applied c) (ch_Pending c)
    (ch_Conflict c) (ch_History c) (ch_Payout c) (ch_NeedsReconcile c).
Definition set_NeedsReconcile (b : bool) (c : Channel) : Channel :=
  mkChannel (ch_ID c) (ch_PartyA c) (ch_PartyB c) (ch_DepositA c) (ch_DepositB c) (ch_Status c)
    (ch_ChainID c) (ch_Contract c) (ch_Latest c) (ch_Signed c) (ch_Applied c) (ch_Pending c)
    (ch_Conflict c) (ch_History c) (ch_Payout c) b.

#[export] Instance HTLC_eq_dec : EqDecision HTLC.
Proof. solve_decision. Defined.
#[export] Instance State_eq_dec : EqDecision State.
Proof. solve_decision. Defined.
#[export] Instance TransitionKind_eq_dec : EqDecision TransitionKind.
Proof. solve_decision. Defined.
#[export] Instance chan_err_eq_dec : EqDecision chan_err.
Proof. solve_decision. Defined.
#[export] Instance PayStatus_eq_dec : EqDecision PayStatus.
Proof. solve_decision. Defined.
#[export] Instance PayRoute_eq_dec : EqDecision PayRoute.
Proof. solve_decision. Defined.
