(* ===== verification/ChannelNote.v ===== *)
(** * Private payments: derivations, notes and invoices
    ([internal/channel/note.go], [blinded.go])

    The one hashing primitive and that it is unambiguous, the bearer note, and the
    blinded invoice with its ledger.  Times are nanoseconds since 1970; what the
    random source yields is an argument. *)
From S2P Require Import Prelude.
From S2P Require Import GoBytes.
From S2P Require Import RecordUpdate.

(** Errors of the private payment path. *)
Inductive pay_err : Type :=
| ErrNoteExpired | ErrNoteVersion | ErrNoteMalformed | ErrNotHomomorphic
| ErrInvoiceExpired | ErrInvoiceReused | ErrAmountOutOfRange | ErrInvoiceMalformed
| ErrNotForUs | ErrTooManyHops | ErrHopTooLarge | ErrExpiryOrdering | ErrBadPacket
| ErrReplayed | ErrExpiredHop | ErrExpiryTooTight | ErrNoLiquidity | ErrTooManyInFlight
| ErrBadScalar | ErrPointMismatch | ErrTooManyLocks
| RouteRefusal (reason : string) (found needed before after : Z)
| ErrRandom | ErrPay (text : string).

(** ** Derivation *)

(** [crypto/hmac] over [crypto/sha256]: key, message. *)
Class HmacSha256 : Type := hmac_sha256 : bytes -> bytes -> bytes.
Class HmacLaws (H : HmacSha256) : Prop := hmac_array : forall k m, array_ok 32 (hmac_sha256 k m).

(** Each part preceded by its length, then the first 32 bytes. *)
Definition derive_message (parts : list bytes) : bytes :=
  concat (map (fun p => be_encode 8 (Z.of_nat (length p)) ++ p) parts).
Definition derive `{HmacSha256} (domain : string) (parts : list bytes) : bytes :=
  let sum := take 32 (hmac_sha256 (text_bytes domain) (derive_message parts)) in sum ++ zeros (32 - length sum).

Definition uint64Bytes (v : Z) : bytes := be_encode 8 v.
Definition amountBytes (a : Z) : bytes := uint64Bytes (wrap_u64 a).

(** ** Notes *)

Definition NoteVersion : Z := 1.
Definition domainNullifier : string := "rabbiit/note/nullifier/v1".
Definition domainOwner : string := "rabbiit/note/owner/v1".
Definition domainKeyHint : string := "rabbiit/note/keyhint/v1".
Definition domainValue : string := "rabbiit/note/value/v1".
Definition domainContext : string := "rabbiit/note/context/v1".
Definition domainRoute : string := "rabbiit/note/route/v1".

Record PrivatePaymentNote : Type := mkNote {
  no_Version : Z; no_AssetID : bytes; no_ValueCommitment : bytes; no_OwnerCommitment : bytes; no_RecipientKeyHint : bytes;
  no_NullifierSeed : bytes; no_RouteCommitment : bytes; no_ContextCommitment : bytes; no_CreatedAt : Z; no_ExpiresAt : Z;
  no_Nonce : bytes; no_Ciphertext : bytes
}.

(** [uint64(now.Unix())] *)
Definition unix_u64 (now : Z) : Z := wrap_u64 (unix now).
Definition note_Validate (n : PrivatePaymentNote) (now : Z) : outcome pay_err unit :=
  fail? negb (no_Version n =? NoteVersion) with ErrNoteVersion ;;
  fail? (no_ExpiresAt n =? 0) || (no_CreatedAt n =? 0) with ErrNoteMalformed ;;
  fail? no_ExpiresAt n <=? no_CreatedAt n with ErrNoteMalformed ;;
  fail? bool_decide (no_Nonce n = zeros 32) with ErrNoteMalformed ;;
  fail? no_ExpiresAt n <=? unix_u64 now with ErrNoteExpired ;;
  Ok tt.
Definition note_Expired (n : PrivatePaymentNote) (now : Z) : bool := no_ExpiresAt n <=? unix_u64 now.

Section Notes.
Context `{Hmac : HmacSha256}.
Definition Nullifier (n : PrivatePaymentNote) (spendingKey : bytes) : bytes := derive domainNullifier [no_NullifierSeed n; spendingKey].
Definition OwnerCommitmentFor (spendingKey nonce : bytes) : bytes := derive domainOwner [spendingKey; nonce].
Definition KeyHintFor (sharedSecret nonce : bytes) : bytes := derive domainKeyHint [sharedSecret; nonce].
Definition ContextCommitmentFor (purpose : string) (opening : bytes) : bytes := derive domainContext [text_bytes purpose; opening].
Definition RouteCommitmentFor (secrets : list bytes) : bytes := derive domainRoute secrets.

(** [CommitmentScheme], and the placeholder. *)
Record CommitmentScheme : Type := mkScheme { cs_Commit : Z -> bytes -> bytes; cs_IsHomomorphic : bool; cs_Name : string }.
Definition HashCommitment : CommitmentScheme :=
  mkScheme (fun value blinding => derive domainValue [be_encode 8 value; blinding]) false "hash-sha256-placeholder".
Definition CheckBalance (s : option CommitmentScheme) (inputs outputs : list bytes) (fee : bytes) : outcome pay_err unit :=
  match s with
  | None => Err ErrNotHomomorphic
  | Some s =>
      fail? negb (cs_IsHomomorphic s) with ErrNotHomomorphic ;;
      Err (ErrPay (String.append "channel: homomorphic balance check not implemented for " (cs_Name s)))
  end.
End Notes.

(** ** Invoices *)

Definition domainInvoice : string := "rabbiit/invoice/id/v1".
Definition domainEndpoint : string := "rabbiit/invoice/endpoint/v1".
Definition domainInvCommit : string := "rabbiit/invoice/commit/v1".

Record BlindedInvoice : Type := mkInvoice {
  iv_InvoiceID : bytes; iv_IntroductionNode : string; iv_BlindedEndpoint : bytes; iv_FinalHopCiphertext : bytes;
  iv_RecipientEphemeralKey : bytes; iv_Commitment : bytes; iv_IssuedAt : Z; iv_ExpiresAt : Z; iv_MinAmount : Z; iv_MaxAmount : Z;
  iv_Streaming : bool
}.
#[export] Instance BlindedInvoice_eta : Eta BlindedInvoice := fun i => mkInvoice (iv_InvoiceID i) (iv_IntroductionNode i)
  (iv_BlindedEndpoint i) (iv_FinalHopCiphertext i) (iv_RecipientEphemeralKey i) (iv_Commitment i) (iv_IssuedAt i) (iv_ExpiresAt i)
  (iv_MinAmount i) (iv_MaxAmount i) (iv_Streaming i).
Record InvoiceRequest : Type := mkInvoiceRequest {
  ir_SettlementKey : bytes; ir_IntroductionNode : string; ir_MinAmount : Z; ir_MaxAmount : Z; ir_TTL : Z; ir_Streaming : bool
}.
Record ExitView : Type := mkExitView { xv_BlindedEndpoint : bytes; xv_FinalHopCiphertext : bytes; xv_Expiry : Z }.

Section Invoices.
Context `{Hmac : HmacSha256}.

Definition commit_parts (i : BlindedInvoice) : list bytes :=
  [iv_InvoiceID i; iv_BlindedEndpoint i; amountBytes (iv_MinAmount i); amountBytes (iv_MaxAmount i); uint64Bytes (iv_ExpiresAt i)].
Definition invoice_commit (i : BlindedInvoice) : bytes := derive domainInvCommit (commit_parts i).

(** [rng n]: the n-th read of 32 bytes. *)
Definition NewInvoice (rng : nat -> option bytes) (req : InvoiceRequest) (now : Z) : outcome pay_err BlindedInvoice :=
  fail? String.eqb (ir_IntroductionNode req) "" with ErrInvoiceMalformed ;;
  fail? (ir_MaxAmount req <=? 0) || (ir_MinAmount req <? 0) || (ir_MaxAmount req <? ir_MinAmount req) with ErrInvoiceMalformed ;;
  fail? ir_TTL req <=? 0 with ErrInvoiceMalformed ;;
  let? entropy := of_option ErrRandom (rng 0%nat) in
  let? ephemeral := of_option ErrRandom (rng 1%nat) in
  let inv := mkInvoice (derive domainInvoice [entropy; ir_SettlementKey req]) (ir_IntroductionNode req)
    (derive domainEndpoint [ir_SettlementKey req; entropy; text_bytes (ir_IntroductionNode req)]) [] ephemeral (zeros 32)
    (unix_u64 now) (unix_u64 (now + ir_TTL req)) (ir_MinAmount req) (ir_MaxAmount req) (ir_Streaming req) in
  Ok (inv <| iv_Commitment := invoice_commit inv |>).

Definition invoice_Validate (i : option BlindedInvoice) (now : Z) : outcome pay_err unit :=
  match i with
  | None => Err ErrInvoiceMalformed
  | Some i =>
      fail? String.eqb (iv_IntroductionNode i) "" with ErrInvoiceMalformed ;;
      fail? iv_ExpiresAt i <=? iv_IssuedAt i with ErrInvoiceMalformed ;;
      fail? (iv_MaxAmount i <=? 0) || (iv_MaxAmount i <? iv_MinAmount i) with ErrInvoiceMalformed ;;
      fail? negb (bool_decide (iv_Commitment i = invoice_commit i)) with ErrInvoiceMalformed ;;
      fail? iv_ExpiresAt i <=? unix_u64 now with ErrInvoiceExpired ;;
      Ok tt
  end.
Definition AcceptsAmount (i : BlindedInvoice) (a : Z) : outcome pay_err unit :=
  fail? (a <? iv_MinAmount i) || (iv_MaxAmount i <? a) with ErrAmountOutOfRange ;; Ok tt.
Definition ViewForExit (i : BlindedInvoice) : ExitView := mkExitView (iv_BlindedEndpoint i) (iv_FinalHopCiphertext i) (iv_ExpiresAt i).

Definition NewInvoiceLedger : gset bytes := ∅.
Definition ledger_Claim (paid : gset bytes) (i : BlindedInvoice) : gset bytes * outcome pay_err unit :=
  if bool_decide (iv_InvoiceID i ∈ paid) && negb (iv_Streaming i) then (paid, Err ErrInvoiceReused)
  else ({[iv_InvoiceID i]} ∪ paid, Ok tt).
End Invoices.

(** ** Derivations are unambiguous *)

Lemma be_encode_app_inj (n : nat) (x y : Z) (l k : bytes) :
  0 <= x < 256 ^ Z.of_nat n -> 0 <= y < 256 ^ Z.of_nat n ->
  be_encode n x ++ l = be_encode n y ++ k -> x = y /\ l = k.
Proof. intros Hx Hy H. apply app_inj_1 in H as [H ->]; [|by rewrite !length_be_encode]. split; [|done]. by apply be_encode_inj in H. Qed.

Lemma derive_message_inj (l k : list bytes) :
  Forall (fun p => Z.of_nat (length p) < 2 ^ 64) l -> Forall (fun p => Z.of_nat (length p) < 2 ^ 64) k ->
  derive_message l = derive_message k -> l = k.
Proof.
  assert (forall p m, be_encode 8 (Z.of_nat (length p)) ++ p ++ m <> []) as HN.
  { intros p m H. apply (f_equal length) in H. rewrite length_app, length_be_encode in H. cbn in H. lia. }
  revert k. induction l as [|p l IH]; intros [|q k] Hl Hk; unfold derive_message; cbn [map concat]; rewrite <- ?app_assoc.
  - done.
  - intros H. by destruct (HN q _ (eq_sym H)).
  - intros H. by destruct (HN p _ H).
  - apply Forall_cons in Hl as [Hp Hl]. apply Forall_cons in Hk as [Hq Hk].
    intros [Hn H]%be_encode_app_inj; [|change (256 ^ Z.of_nat 8) with (2 ^ 64); lia..].
    apply app_inj_1 in H as [-> H]; [|lia]. f_equal. by apply IH.
Qed.

Section Unambiguous.
Context `{Hmac : HmacSha256}.

(** The collision a theorem exhibits: these two labels and lists of parts give HMAC
    different keys and messages, and their sums agree on the first 32 bytes. *)
Definition derive_collide (d : string) (l : list bytes) (d' : string) (k : list bytes) : Prop :=
  (text_bytes d, derive_message l) <> (text_bytes d', derive_message k) /\ derive d l = derive d' k.

Definition short_parts (parts : list bytes) : Prop := Forall (fun p => Z.of_nat (length p) < 2 ^ 64) parts.

Lemma derive_inj (d d' : string) (l k : list bytes) :
  short_parts l -> short_parts k -> derive d l = derive d' k -> (text_bytes d = text_bytes d' /\ l = k) \/ derive_collide d l d' k.
Proof.
  intros Hl Hk H. destruct (decide ((text_bytes d, derive_message l) = (text_bytes d', derive_message k))) as [E|E].
  - left. injection E as Ed Em. split; [done|]. by apply derive_message_inj.
  - right. by split.
Qed.

Lemma length_derive (d : string) (l : list bytes) : length (derive d l) = 32%nat.
Proof. unfold derive, zeros. rewrite length_app, length_replicate, length_take. lia. Qed.
Lemma derive_array {HL : HmacLaws Hmac} (d : string) (l : list bytes) : array_ok 32 (derive d l).
Proof.
  split; [apply length_derive|]. unfold derive. apply Forall_app_2; [|apply zeros_ok]. apply Forall_take. apply hmac_array.
Qed.
End Unambiguous.

(** ** What an invoice promises *)

(** The widths Go gives the fields. *)
Record invoice_typed (i : BlindedInvoice) : Prop := {
  it_id : length (iv_InvoiceID i) = 32%nat;
  it_endpoint : length (iv_BlindedEndpoint i) = 32%nat;
  it_min : s_range 64 (iv_MinAmount i);
  it_max : s_range 64 (iv_MaxAmount i);
  it_expires : u_range 64 (iv_ExpiresAt i)
}.

Lemma wrap_u64_inj (x y : Z) : s_range 64 x -> s_range 64 y -> wrap_u64 x = wrap_u64 y -> x = y.
Proof.
  unfold s_range, wrap_u. intros Hx Hy H. change (2 ^ (64 - 1)) with 9223372036854775808 in *. change (2 ^ 64) with 18446744073709551616 in *.
  pose proof (Z.div_mod x 18446744073709551616 ltac:(lia)). pose proof (Z.div_mod y 18446744073709551616 ltac:(lia)). nia.
Qed.
Lemma uint64Bytes_inj (x y : Z) : u_range 64 x -> u_range 64 y -> uint64Bytes x = uint64Bytes y -> x = y.
Proof. intros Hx Hy H. by apply be_encode_inj in H. Qed.
Lemma amountBytes_inj (x y : Z) : s_range 64 x -> s_range 64 y -> amountBytes x = amountBytes y -> x = y.
Proof. intros Hx Hy H. apply wrap_u64_inj; [done|done|]. apply uint64Bytes_inj; [by apply wrap_u_range..|exact H]. Qed.
Lemma unix_u64_small (t : Z) : 0 <= unix t < 2 ^ 64 -> unix_u64 t = unix t.
Proof. intros H. by apply wrap_u_small. Qed.

Section InvoiceTheorems.
Context `{Hmac : HmacSha256}.

Lemma invoice_commit_set (i : BlindedInvoice) (c : bytes) : invoice_commit (i <| iv_Commitment := c |>) = invoice_commit i.
Proof. done. Qed.

Lemma commit_parts_short (i : BlindedInvoice) : invoice_typed i -> short_parts (commit_parts i).
Proof.
  intros []. unfold short_parts, commit_parts, amountBytes, uint64Bytes. repeat constructor; rewrite ?it_id0, ?it_endpoint0, ?length_be_encode; lia.
Qed.

Lemma list5_inj {A} (a b c d e a' b' c' d' e' : A) : [a; b; c; d; e] = [a'; b'; c'; d'; e'] -> a = a' /\ b = b' /\ c = c' /\ d = d' /\ e = e'.
Proof. by intros [= -> -> -> -> ->]. Qed.

Lemma invoice_commit_inj (i j : BlindedInvoice) : invoice_typed i -> invoice_typed j -> invoice_commit i = invoice_commit j ->
  (iv_InvoiceID i = iv_InvoiceID j /\ iv_BlindedEndpoint i = iv_BlindedEndpoint j /\ iv_MinAmount i = iv_MinAmount j /\
    iv_MaxAmount i = iv_MaxAmount j /\ iv_ExpiresAt i = iv_ExpiresAt j) \/
  derive_collide domainInvCommit (commit_parts i) domainInvCommit (commit_parts j).
Proof.
  intros Hi Hj H. apply derive_inj in H as [[_ H]|H]; [left|by right|by apply commit_parts_short..].
  apply list5_inj in H as (E1 & E2 & E3 & E4 & E5). split; [done|]. split; [done|].
  split; [apply amountBytes_inj in E3; [done|apply Hi|apply Hj]|]. split; [apply amountBytes_inj in E4; [done|apply Hi|apply Hj]|].
  apply uint64Bytes_inj in E5; [done|apply Hi|apply Hj].
Qed.

Lemma invoice_Validate_ok (i : BlindedInvoice) (now : Z) :
  invoice_Validate (Some i) now = Ok tt <->
    iv_IntroductionNode i <> "" /\ iv_IssuedAt i < iv_ExpiresAt i /\ 0 < iv_MaxAmount i /\ iv_MinAmount i <= iv_MaxAmount i /\
    iv_Commitment i = invoice_commit i /\ unix_u64 now < iv_ExpiresAt i.
Proof.
  unfold invoice_Validate. rewrite !guard_err_ok, orb_false_iff, !Z.leb_gt, Z.ltb_ge, negb_false_iff, bool_decide_eq_true, String.eqb_neq. tauto.
Qed.

(** An invoice is issued and honoured on the same terms: what [NewInvoice]
    returns validates until it expires, takes exactly the amounts of the range
    asked for, and - unless it is a streaming one - is paid once, whatever else
    the ledger has seen. *)
Theorem invoice_honoured (rng : nat -> option bytes) (req : InvoiceRequest) (now t : Z) (i : BlindedInvoice) (paid : gset bytes)
    (Hnew : NewInvoice rng req now = Ok i) (Hstart : 0 <= unix now) (Hlife : unix now < unix (now + ir_TTL req) < 2 ^ 63)
    (Ht : 0 <= unix t < unix (now + ir_TTL req)) :
  invoice_Validate (Some i) t = Ok tt /\
  (forall a, AcceptsAmount i a = Ok tt <-> ir_MinAmount req <= a <= ir_MaxAmount req) /\
  (ledger_Claim (ledger_Claim paid i).1 i).2 = (if ir_Streaming req then Ok tt else Err ErrInvoiceReused).
Proof.
  unfold NewInvoice in Hnew. outcome_inv. zbool. apply String.eqb_neq in E. split; [|split].
  - rewrite invoice_Validate_ok, invoice_commit_set. cbn. rewrite !unix_u64_small by lia. repeat split; (done || lia).
  - intros a'. unfold AcceptsAmount. rewrite guard_err_ok, orb_false_iff, !Z.ltb_ge. cbn [iv_MinAmount iv_MaxAmount]. tauto.
  - unfold ledger_Claim. cbn [iv_InvoiceID iv_Streaming]. set (id := derive _ _). destruct (ir_Streaming req); [by rewrite !andb_false_r|].
    cbn [negb]. rewrite !andb_true_r. destruct (decide (id ∈ paid)) as [HP|HP].
    + rewrite (bool_decide_eq_true_2 (id ∈ paid)) by done. cbn [fst]. by rewrite bool_decide_eq_true_2.
    + rewrite (bool_decide_eq_false_2 (id ∈ paid)) by done. cbn [fst]. rewrite bool_decide_eq_true_2; [done|]. apply elem_of_union_l, elem_of_singleton_2; reflexivity.
Qed.

(** The commitment of an invoice keeps nobody from changing its terms: it is a
    hash of public fields under a public label, so whoever carries an invoice can
    put any range and any later expiry on it, recompute the commitment, and what
    he hands on validates. *)
Theorem invoice_terms_forgeable (i : BlindedInvoice) (now min max expires : Z)
    (Hok : invoice_Validate (Some i) now = Ok tt) (Hmin : 0 <= min <= max) (Hmax : 0 < max) (Hexp : iv_ExpiresAt i <= expires) :
  exists j, invoice_Validate (Some j) now = Ok tt /\ iv_InvoiceID j = iv_InvoiceID i /\ iv_BlindedEndpoint j = iv_BlindedEndpoint i /\
    iv_MinAmount j = min /\ iv_MaxAmount j = max /\ iv_ExpiresAt j = expires.
Proof.
  set (k := mkInvoice (iv_InvoiceID i) (iv_IntroductionNode i) (iv_BlindedEndpoint i) (iv_FinalHopCiphertext i)
    (iv_RecipientEphemeralKey i) [] (iv_IssuedAt i) expires min max (iv_Streaming i)).
  exists (k <| iv_Commitment := invoice_commit k |>). split; [|done].
  apply invoice_Validate_ok in Hok as (H1 & H2 & _ & _ & _ & H3).
  rewrite invoice_Validate_ok, invoice_commit_set. cbn. repeat split; (done || lia).
Qed.
End InvoiceTheorems.

(** ** Witnesses *)

#[export] Instance toy_hmac : HmacSha256 := fun k m => be_encode 32 (foldl (fun acc x => Z.land (acc * 257 + x + 1) 3618502788666131106986593281521497120414687020801267626233049500247285301247) 5 (k ++ m)).
#[export] Instance toy_hmac_laws : HmacLaws toy_hmac.
Proof. intros k m. apply be_encode_array. Qed.
Definition toy_request : InvoiceRequest := mkInvoiceRequest (zeros 32) "intro" 5 500 (3600 * NanoSecond) false.
Definition toy_invoice : BlindedInvoice :=
  match NewInvoice (fun n => Some (be_encode 32 (Z.of_nat n))) toy_request (1000 * NanoSecond) with Ok i => i | _ => mkInvoice [] "" [] [] [] [] 0 0 0 0 false end.
Lemma toy_invoice_new : NewInvoice (fun n => Some (be_encode 32 (Z.of_nat n))) toy_request (1000 * NanoSecond) = Ok toy_invoice.
Proof. vm_compute; reflexivity. Qed.

Lemma invoice_honoured_witness : invoice_Validate (Some toy_invoice) (1500 * NanoSecond) = Ok tt.
Proof.
  refine (proj1 (invoice_honoured _ toy_request (1000 * NanoSecond) (1500 * NanoSecond) toy_invoice ∅ toy_invoice_new _ _ _));
    repeat match goal with |- _ /\ _ => split end; vm_compute; (reflexivity || (intros H; discriminate H)).
Defined.

Lemma toy_invoice_valid : invoice_Validate (Some toy_invoice) (1500 * NanoSecond) = Ok tt.
Proof. vm_compute; reflexivity. Qed.
Lemma invoice_terms_forgeable_witness : exists j, invoice_Validate (Some j) (1500 * NanoSecond) = Ok tt /\ iv_MaxAmount j = 1000000.
Proof.
  destruct (invoice_terms_forgeable toy_invoice (1500 * NanoSecond) 1 1000000 (iv_ExpiresAt toy_invoice) toy_invoice_valid)
    as (j & H1 & _ & _ & _ & H2 & _); [lia|lia|apply Z.le_refl|]. exists j. split; [exact H1|exact H2].
Defined.
