(* ===== verification/ChannelOnion.v ===== *)
(** * The onion packet ([internal/channel/onion.go])

    A packet of fixed slots: building one, peeling it, padding, the order of the
    slots, and failure messages.  AES-GCM and the parser of the hop instructions are
    classes; the printer of an instruction is written out.  A source of randomness
    gives, for the k-th read of n bytes, those bytes or a failure. *)
From S2P Require Import Prelude.
From S2P Require Import GoBytes.
From S2P Require Import RecordUpdate.
From S2P Require Import ChannelNote.
From Stdlib Require Import Ascii.

Definition MaxHops : nat := 3.
Definition SlotSize : nat := 1024.
Definition domainHopKey : string := "rabbiit/onion/hopkey/v1".
Definition domainReplay : string := "rabbiit/onion/replay/v1".
Definition domainPermute : string := "rabbiit/onion/permute/v1".
Definition domainFailureKey : string := "rabbiit/onion/failure/v1".

Record HopInstruction : Type := mkHop {
  hp_NextHop : string; hp_BlindedEndpoint : string; hp_OutgoingCommitment : bytes; hp_FeeCommitment : bytes;
  hp_OutgoingExpiry : Z; hp_ReplayGuard : bytes
}.
#[export] Instance HopInstruction_eta : Eta HopInstruction := fun h => mkHop (hp_NextHop h) (hp_BlindedEndpoint h)
  (hp_OutgoingCommitment h) (hp_FeeCommitment h) (hp_OutgoingExpiry h) (hp_ReplayGuard h).
Record Packet : Type := mkPacket {
  pk_EphemeralPublicKey : bytes; pk_Slots : list bytes; pk_PaymentCommitment : bytes; pk_ProofReference : bytes; pk_Expiry : Z
}.
#[export] Instance Packet_eta : Eta Packet := fun p => mkPacket (pk_EphemeralPublicKey p) (pk_Slots p) (pk_PaymentCommitment p)
  (pk_ProofReference p) (pk_Expiry p).

(** ** Libraries *)

(** [crypto/rand]: the k-th read, of n bytes. *)
Definition Rand : Type := nat -> nat -> option bytes.

(** AES-GCM under a 32-byte key: key, nonce, text. *)
Class Gcm : Type := { gcm_seal : bytes -> bytes -> bytes -> bytes; gcm_open : bytes -> bytes -> bytes -> option bytes }.
Class GcmLaws (G : Gcm) : Prop := {
  gcm_open_seal : forall k n p, gcm_open k n (gcm_seal k n p) = Some p;
  gcm_seal_length : forall k n p, length (gcm_seal k n p) = (length p + 16)%nat
}.
Definition NonceSize : nat := 12.

(** [json.Marshal] of an instruction: the fields in order, an array of bytes as a
    list of decimals.  [q] prints a string. *)
Definition json_key (k : string) : bytes := [34] ++ text_bytes k ++ [34; 58].
Fixpoint json_items (l : bytes) : bytes :=
  match l with
  | [] => []
  | [b] => text_bytes (dec_text b)
  | b :: l => text_bytes (dec_text b) ++ [44] ++ json_items l
  end.
Definition json_array (l : bytes) : bytes := [91] ++ json_items l ++ [93].
Definition json_omitempty (q : string -> bytes) (k s : string) : bytes :=
  if String.eqb s "" then [] else json_key k ++ q s ++ [44].
Definition hop_json (q : string -> bytes) (h : HopInstruction) : bytes :=
  [123] ++ json_omitempty q "next_hop" (hp_NextHop h) ++ json_omitempty q "blinded_endpoint" (hp_BlindedEndpoint h) ++
  json_key "outgoing_commitment" ++ json_array (hp_OutgoingCommitment h) ++ [44] ++
  json_key "fee_commitment" ++ json_array (hp_FeeCommitment h) ++ [44] ++
  json_key "outgoing_expiry" ++ text_bytes (dec_text (hp_OutgoingExpiry h)) ++ [44] ++
  json_key "replay_guard" ++ json_array (hp_ReplayGuard h) ++ [125].

(** A string that [encoding/json] prints as it is: printable ASCII but for the
    quote, the backslash and the three HTML characters. *)
Definition plain_byte (b : Z) : bool :=
  (32 <=? b) && (b <=? 126) && negb (b =? 34) && negb (b =? 92) && negb (b =? 38) && negb (b =? 60) && negb (b =? 62).
Definition plain_text (s : string) : bool := forallb plain_byte (text_bytes s).
Definition quoted (s : string) : bytes := [34] ++ text_bytes s ++ [34].
(** The widths Go gives the fields. *)
Record hop_typed (h : HopInstruction) : Prop := {
  ht_out : array_ok 32 (hp_OutgoingCommitment h);
  ht_fee : array_ok 32 (hp_FeeCommitment h);
  ht_expiry : u_range 64 (hp_OutgoingExpiry h);
  ht_guard : array_ok 32 (hp_ReplayGuard h)
}.
Definition hop_plain (h : HopInstruction) : bool := plain_text (hp_NextHop h) && plain_text (hp_BlindedEndpoint h).

(** [encoding/json]: how a string is printed, and reading an instruction. *)
Class HopJson : Type := { json_string : string -> bytes; hop_unmarshal : bytes -> option HopInstruction }.
Class HopJsonLaws (J : HopJson) : Prop := {
  json_string_plain : forall s, plain_text s = true -> json_string s = quoted s;
  hop_unmarshal_json : forall h, hop_typed h -> hop_plain h = true -> hop_unmarshal (hop_json json_string h) = Some h
}.

(** ** Keys, order, padding, sealing *)

Section Onion.
Context `{Hmac : HmacSha256} `{G : Gcm} `{J : HopJson}.

Definition hopKey (shared : bytes) : bytes := derive domainHopKey [shared].
Definition replayGuardFor (shared ephemeral : bytes) : bytes := derive domainReplay [shared; ephemeral].

(** [order[i], order[j] = order[j], order[i]] *)
Definition swap (i j : nat) (order : list nat) : list nat :=
  match order !! i, order !! j with
  | Some x, Some y => <[j := x]> (<[i := y]> order)
  | _, _ => order
  end.
(** The draw of step [i]: the stream may be derived anew, four bytes of it are used. *)
Definition permute_stream (i : nat) (stream : bytes) : bytes :=
  if (Nat.modulo i 8 =? 0)%nat then derive domainPermute [stream] else stream.
Definition permute_draw (i : nat) (stream : bytes) : nat :=
  Z.to_nat (be_decode (take 4 (drop (Nat.modulo i 8 * 4) stream)) mod Z.of_nat (i + 1)).
Fixpoint permute_loop (i : nat) (stream : bytes) (order : list nat) : list nat :=
  match i with
  | O => order
  | S k =>
      let stream := permute_stream i stream in
      permute_loop k stream (swap i (permute_draw i stream) order)
  end.
Definition permutation (ephemeral : bytes) (n : nat) : list nat :=
  permute_loop (n - 1) (derive domainPermute [ephemeral]) (seq 0 n).

(** [seal] reads its nonce; the first argument counts the reads. *)
Definition seal (rng : Rand) (k : nat) (key plaintext : bytes) : outcome pay_err bytes :=
  let? nonce := of_option ErrRandom (rng k NonceSize) in
  Ok (nonce ++ gcm_seal key nonce plaintext).
Definition open (key sealed : bytes) : option bytes :=
  if (length sealed <? NonceSize)%nat then None else gcm_open key (take NonceSize sealed) (drop NonceSize sealed).

Definition padTo (data : bytes) (size : nat) : outcome pay_err bytes :=
  fail? (size <? length data + 4)%nat with ErrHopTooLarge ;;
  Ok (be_encode 4 (Z.of_nat (length data)) ++ data ++ zeros (size - 4 - length data)).
(** [padded[4 : 4+n]] adds in 32 bits. *)
Definition unpad (padded : bytes) : outcome pay_err bytes :=
  fail? (length padded <? 4)%nat with ErrBadPacket ;;
  let n := be_decode (take 4 padded) in
  fail? Z.of_nat (length padded) - 4 <? n with ErrBadPacket ;;
  let hi := wrap_u 32 (4 + n) in
  if hi <? 4 then Panic else Ok (take (Z.to_nat (hi - 4)) (drop 4 padded)).

(** ** Build *)

(** The loop that refuses expiries that do not decrease. *)
Fixpoint expiries_fall (hops : list HopInstruction) : bool :=
  match hops with
  | h :: (h' :: _) as rest => negb (hp_OutgoingExpiry h <=? hp_OutgoingExpiry h') && expiries_fall rest
  | _ => true
  end.
Definition guarded (ephemeral secret : bytes) (hop : HopInstruction) : HopInstruction :=
  hop <| hp_ReplayGuard := replayGuardFor secret ephemeral |>.
Definition seal_hop (rng : Rand) (k : nat) (ephemeral secret : bytes) (hop : HopInstruction) : outcome pay_err bytes :=
  let? padded := padTo (hop_json json_string (guarded ephemeral secret hop)) SlotSize in
  seal rng k (hopKey secret) padded.
(** [packet.Slots[order[i]] = sealedSlot], hop by hop. *)
Fixpoint seal_hops (rng : Rand) (k : nat) (ephemeral : bytes) (hops : list HopInstruction) (secrets : list bytes) (order : list nat)
    (slots : list (option bytes)) : outcome pay_err (list (option bytes)) :=
  match hops, secrets, order with
  | [], _, _ => Ok slots
  | hop :: hops, secret :: secrets, o :: order =>
      let? sealed := seal_hop rng k ephemeral secret hop in
      if (o <? length slots)%nat then seal_hops rng (S k) ephemeral hops secrets order (<[o := Some sealed]> slots) else Panic
  | _, _, _ => Panic
  end.
(** The unused slots, of the length [size]. *)
Fixpoint fill_slots (rng : Rand) (k size : nat) (slots : list (option bytes)) : outcome pay_err (list bytes) :=
  match slots with
  | [] => Ok []
  | Some s :: slots => let? rest := fill_slots rng k size slots in Ok (s :: rest)
  | None :: slots =>
      let? filler := of_option ErrRandom (rng k size) in
      let? rest := fill_slots rng (S k) size slots in Ok (filler :: rest)
  end.
(** [len(packet.Slots[order[0]])] *)
Definition slot_length (order : list nat) (slots : list (option bytes)) : nat :=
  match order with o :: _ => length (default [] (mjoin (slots !! o))) | [] => 0 end.
Definition Build (rng : Rand) (ephemeral : bytes) (hops : list HopInstruction) (secrets : list bytes) : outcome pay_err Packet :=
  fail? (MaxHops <? length hops)%nat || negb (length hops =? length secrets)%nat with ErrTooManyHops ;;
  fail? (length hops =? 0)%nat with ErrBadPacket ;;
  fail? negb (expiries_fall hops) with ErrExpiryOrdering ;;
  let order := permutation ephemeral MaxHops in
  let? slots := seal_hops rng 0 ephemeral hops secrets order (replicate MaxHops None) in
  let? slots := fill_slots rng (length hops) (slot_length order slots) slots in
  Ok (mkPacket ephemeral slots (zeros 32) (zeros 32) 0).

(** ** Peel, size, failures *)

Definition peel_slot (ephemeral shared plaintext : bytes) : outcome pay_err HopInstruction :=
  let? encoded := unpad plaintext in
  let? hop := of_option ErrBadPacket (hop_unmarshal encoded) in
  fail? negb (bool_decide (hp_ReplayGuard hop = replayGuardFor shared ephemeral)) with ErrBadPacket ;;
  Ok hop.
Fixpoint peel_slots (ephemeral shared key : bytes) (slots : list bytes) : outcome pay_err HopInstruction :=
  match slots with
  | [] => Err ErrNotForUs
  | slot :: slots =>
      match open key slot with
      | None => peel_slots ephemeral shared key slots
      | Some plaintext => peel_slot ephemeral shared plaintext
      end
  end.
Definition Peel (p : option Packet) (shared : bytes) : outcome pay_err HopInstruction :=
  match p with
  | None => Err ErrBadPacket
  | Some p =>
      fail? (length (pk_Slots p) =? 0)%nat with ErrBadPacket ;;
      peel_slots (pk_EphemeralPublicKey p) shared (hopKey shared) (pk_Slots p)
  end.
Definition Size (p : option Packet) : nat :=
  match p with
  | None => 0
  | Some p => length (pk_EphemeralPublicKey p) + length (pk_PaymentCommitment p) + length (pk_ProofReference p) + 8 +
      sum_list (map length (pk_Slots p))
  end.
Definition SealFailure (rng : Rand) (shared : bytes) (reason : string) : outcome pay_err bytes :=
  seal rng 0 (derive domainFailureKey [shared]) (text_bytes reason).
Definition OpenFailure (shared sealed : bytes) : option bytes := open (derive domainFailureKey [shared]) sealed.
End Onion.

(** ** The order of the slots is a permutation *)

Lemma swap_perm (i j : nat) (l : list nat) : swap i j l ≡ₚ l.
Proof.
  unfold swap. destruct (l !! i) as [x|] eqn:Ei; [|done]. destruct (l !! j) as [y|] eqn:Ej; [|done].
  apply Permutation_inj. pose proof (lookup_lt_Some _ _ _ Ei). pose proof (lookup_lt_Some _ _ _ Ej). rewrite !length_insert. split; [done|].
  exists (fun k => if decide (k = j) then i else if decide (k = i) then j else k). split.
  - intros a b. repeat case_decide; congruence.
  - intros k. repeat case_decide; subst.
    + rewrite list_lookup_insert_eq; [done|]. by rewrite length_insert.
    + rewrite list_lookup_insert_ne, list_lookup_insert_eq; done.
    + by rewrite !list_lookup_insert_ne.
Qed.

Section Order.
Context `{Hmac : HmacSha256}.

Lemma permute_loop_perm (i : nat) (stream : bytes) (l : list nat) : permute_loop i stream l ≡ₚ l.
Proof. revert stream l. induction i as [|i IH]; intros stream l; [done|]. cbn [permute_loop]. by rewrite IH, swap_perm. Qed.
Lemma permutation_perm (ephemeral : bytes) (n : nat) : permutation ephemeral n ≡ₚ seq 0 n.
Proof. apply permute_loop_perm. Qed.
Lemma permutation_NoDup (ephemeral : bytes) (n : nat) : NoDup (permutation ephemeral n).
Proof. rewrite permutation_perm. apply NoDup_seq. Qed.
Lemma length_permutation (ephemeral : bytes) (n : nat) : length (permutation ephemeral n) = n.
Proof. by rewrite permutation_perm, length_seq. Qed.
Lemma permutation_lt (ephemeral : bytes) (n i o : nat) : permutation ephemeral n !! i = Some o -> (o < n)%nat.
Proof. intros H%list_elem_of_lookup_2. rewrite permutation_perm, elem_of_seq in H. lia. Qed.
End Order.

(** ** Padding and sealing *)

Lemma padTo_inv (d p : bytes) (size : nat) : padTo d size = Ok p ->
  (length d + 4 <= size)%nat /\ p = be_encode 4 (Z.of_nat (length d)) ++ d ++ zeros (size - 4 - length d) /\ length p = size.
Proof.
  intros [E H]%guard_err_ok. apply Ok_inj in H as <-. apply Nat.ltb_ge in E. split; [done|]. split; [done|].
  rewrite !length_app, length_be_encode. unfold zeros. rewrite length_replicate. lia.
Qed.

Lemma unpad_padTo (d p : bytes) (size : nat) : Z.of_nat size < 2 ^ 32 -> padTo d size = Ok p -> unpad p = Ok d.
Proof.
  intros Hs (Hd & Hp & Hl)%padTo_inv. unfold unpad. rewrite (proj2 (Nat.ltb_ge _ _)) by lia. cbn [guard_err].
  assert (take 4 p = be_encode 4 (Z.of_nat (length d))) as ->
    by (rewrite Hp; apply take_app_length'; by rewrite length_be_encode).
  rewrite be_decode_encode_small by (change (256 ^ Z.of_nat 4) with (2 ^ 32); lia).
  rewrite (proj2 (Z.ltb_ge _ _)) by lia. cbn [guard_err].
  rewrite wrap_u_small by (unfold u_range; lia). rewrite (proj2 (Z.ltb_ge _ _)) by lia. f_equal.
  assert (drop 4 p = d ++ zeros (size - 4 - length d)) as ->
    by (rewrite Hp; apply drop_app_length'; by rewrite length_be_encode).
  replace (Z.to_nat (4 + Z.of_nat (length d) - 4)) with (length d) by lia. by rewrite take_app_length.
Qed.

(** What a source of randomness promises: the bytes asked for. *)
Definition rand_sized (rng : Rand) : Prop := forall k n b, rng k n = Some b -> length b = n.

Section Sealing.
Context `{G : Gcm} {GL : GcmLaws G}.

Lemma open_seal (rng : Rand) (k : nat) (key p c : bytes) : rand_sized rng -> seal rng k key p = Ok c ->
  open key c = Some p /\ length c = (length p + 28)%nat.
Proof.
  intros Hr Hs. unfold seal in Hs. outcome_inv. apply Hr in E0 as E. rewrite length_app, gcm_seal_length, E. split; [|unfold NonceSize; lia].
  unfold open. rewrite length_app, gcm_seal_length, E. rewrite (proj2 (Nat.ltb_ge _ _)) by lia.
  rewrite take_app_length', drop_app_length' by done. apply gcm_open_seal.
Qed.
End Sealing.

(** ** What a built packet holds *)

Lemma elem_of_take_sub {A} (x : A) (n : nat) (l : list A) : x ∈ take n l -> x ∈ l.
Proof. intros H. rewrite <- (take_drop n l). apply elem_of_app. by left. Qed.

Section Built.
Context `{Hmac : HmacSha256} `{G : Gcm} `{J : HopJson}.

Lemma seal_hops_spec (rng : Rand) (eph : bytes) (hops : list HopInstruction) (secrets : list bytes) (order : list nat) (k : nat)
    (slots slots' : list (option bytes)) :
  NoDup order -> seal_hops rng k eph hops secrets order slots = Ok slots' ->
  length slots' = length slots /\
  (forall o, o ∉ take (length hops) order -> slots' !! o = slots !! o) /\
  (forall i hop, hops !! i = Some hop -> exists s o c, secrets !! i = Some s /\ order !! i = Some o /\
    seal_hop rng (k + i) eph s hop = Ok c /\ slots' !! o = Some (Some c)).
Proof.
  revert k secrets order slots. induction hops as [|hop hops IH]; intros k secrets order slots HN H; cbn [seal_hops] in H.
  { outcome_inv. split; [done|]. split; [done|]. intros i hop Hi. by rewrite lookup_nil in Hi. }
  destruct secrets as [|s secrets]; [discriminate|]. destruct order as [|o order]; [discriminate|].
  apply NoDup_cons in HN as [Ho HN]. apply obind_ok in H as (c & Hc & H).
  destruct (Nat.ltb_spec o (length slots)); [|discriminate]. apply IH in H as (HL & HF & HS); [|done].
  rewrite length_insert in HL. split; [done|]. split.
  - intros o' Ho'. cbn [take length] in Ho'. apply not_elem_of_cons in Ho' as [Hne Ho']. rewrite HF by done. by rewrite list_lookup_insert_ne.
  - intros [|i] hop' Hi; cbn in Hi.
    + injection Hi as <-. exists s, o, c. rewrite Nat.add_0_r. split; [done|]. split; [done|]. split; [done|].
      rewrite HF; [by rewrite list_lookup_insert_eq|]. intros Hin. apply Ho. by eapply elem_of_take_sub.
    + destruct (HS i hop' Hi) as (s' & o' & c' & H1 & H2 & H3 & H4). exists s', o', c'. rewrite Nat.add_succ_r in *. done.
Qed.

Lemma fill_slots_spec (rng : Rand) (k size : nat) (slots : list (option bytes)) (l : list bytes) :
  fill_slots rng k size slots = Ok l ->
  length l = length slots /\ (forall o c, slots !! o = Some (Some c) -> l !! o = Some c) /\
  (forall o, slots !! o = Some None -> exists k' f, rng k' size = Some f /\ l !! o = Some f).
Proof.
  revert k l. induction slots as [|[s|] slots IH]; intros k l H; cbn [fill_slots] in H.
  - outcome_inv. split; [done|]. split; intros o *; by rewrite lookup_nil.
  - apply obind_ok in H as (r & Hr & H). apply Ok_inj in H as <-. apply IH in Hr as (HL & HS & HF). split; [cbn; lia|].
    split; intros [|o] *; cbn; [congruence|apply HS|congruence|apply HF].
  - apply obind_ok in H as (f & Hf & H). apply obind_ok in H as (r & Hr & H). apply Ok_inj in H as <-.
    apply IH in Hr as (HL & HS & HF). split; [cbn; lia|]. split; intros [|o] *; cbn; [congruence|apply HS|intros _|apply HF].
    unfold of_option in Hf. destruct (rng k size) as [f'|] eqn:E; [|discriminate]. apply Ok_inj in Hf as ->. eauto.
Qed.

(** The slots of a built packet: three, the one of hop [i] at the [i]-th place of the
    order; the rest random. *)
Lemma Build_spec (rng : Rand) (eph : bytes) (hops : list HopInstruction) (secrets : list bytes) (pkt : Packet) :
  Build rng eph hops secrets = Ok pkt ->
  pkt = mkPacket eph (pk_Slots pkt) (zeros 32) (zeros 32) 0 /\ length (pk_Slots pkt) = MaxHops /\
  (0 < length hops <= MaxHops)%nat /\ length hops = length secrets /\
  (forall i hop, hops !! i = Some hop -> exists s o c, secrets !! i = Some s /\ permutation eph MaxHops !! i = Some o /\
    seal_hop rng i eph s hop = Ok c /\ pk_Slots pkt !! o = Some c) /\
  (forall o slot, pk_Slots pkt !! o = Some slot -> (exists i hop s, hops !! i = Some hop /\ seal_hop rng i eph s hop = Ok slot) \/
    exists i hop s c k, hops !! i = Some hop /\ seal_hop rng i eph s hop = Ok c /\ rng k (length c) = Some slot).
Proof.
  unfold Build. intros H. apply guard_err_ok in H as [E1 H]. apply guard_err_ok in H as [E2 H]. apply guard_err_ok in H as [E3 H].
  apply orb_false_iff in E1 as [E1 E1']. apply negb_false_iff, Nat.eqb_eq in E1'. apply Nat.ltb_ge in E1. apply Nat.eqb_neq in E2.
  pose proof (permutation_NoDup eph MaxHops) as HN. pose proof (length_permutation eph MaxHops) as HLo.
  pose proof (permutation_lt eph MaxHops) as Hlt. set (order := permutation eph MaxHops) in *.
  apply obind_ok in H as (sl & Hsl & H). apply obind_ok in H as (slots & Hslots & H). apply Ok_inj in H as <-. cbn [pk_Slots].
  apply seal_hops_spec in Hsl as (L1 & F1 & S1); [|done]. apply fill_slots_spec in Hslots as (L2 & S2 & F2).
  rewrite length_replicate in L1.
  assert (forall i hop, hops !! i = Some hop -> exists s o c, secrets !! i = Some s /\ order !! i = Some o /\
    seal_hop rng i eph s hop = Ok c /\ sl !! o = Some (Some c)) as S1' by exact S1.
  split; [done|]. split; [lia|]. split; [lia|]. split; [done|]. split.
  - intros i hop Hi. destruct (S1' i hop Hi) as (s & o & c & H1 & H2 & H3 & H4). exists s, o, c. eauto.
  - intros o slot Hslot. assert (o < MaxHops)%nat as Ho by (apply lookup_lt_Some in Hslot; lia).
    destruct (decide (o ∈ take (length hops) order)) as [Hin|Hout].
    + apply list_elem_of_lookup in Hin as [i Hi]. apply lookup_take_Some in Hi as [Hi Hlen].
      destruct (hops !! i) as [hop|] eqn:Eh; [|apply lookup_ge_None in Eh; lia].
      destruct (S1' i hop Eh) as (s & o' & c & H1 & H2 & H3 & H4). assert (o' = o) as -> by congruence.
      left. exists i, hop, s. split; [done|]. apply S2 in H4. congruence.
    + right. destruct (hops !! 0%nat) as [hop|] eqn:Eh; [|apply lookup_ge_None in Eh; lia].
      destruct (S1' 0%nat hop Eh) as (s & o0 & c & H1 & H2 & H3 & H4).
      assert (sl !! o = Some None) as En by (rewrite F1, lookup_replicate_2; done).
      destruct (F2 o En) as (k & f & Hf & Hl). exists 0%nat, hop, s, c, k. split; [done|]. split; [done|].
      replace (length c) with (slot_length order sl); [congruence|].
      unfold slot_length. destruct order as [|o0' order']; [discriminate|]. cbn in H2. injection H2 as ->. by rewrite H4.
Qed.

Lemma seal_hop_opens {GL : GcmLaws G} (rng : Rand) (i : nat) (eph s c : bytes) (hop : HopInstruction) :
  rand_sized rng -> seal_hop rng i eph s hop = Ok c ->
  exists p, open (hopKey s) c = Some p /\ unpad p = Ok (hop_json json_string (guarded eph s hop)) /\ length c = (SlotSize + 28)%nat.
Proof.
  intros Hr H. apply obind_ok in H as (p & Hp & H). exists p. apply open_seal in H as [Ho Hl]; [|done]. split; [done|].
  split; [apply (unpad_padTo _ _ SlotSize); [vm_compute; reflexivity|exact Hp]|]. apply padTo_inv in Hp as (_ & _ & Hp). lia.
Qed.

Lemma peel_slots_first (eph s key p : bytes) (slots : list bytes) (o : nat) (c : bytes) :
  slots !! o = Some c -> open key c = Some p ->
  peel_slots eph s key slots = peel_slot eph s p \/ exists o' c', o' <> o /\ slots !! o' = Some c' /\ is_Some (open key c').
Proof.
  revert o. induction slots as [|slot slots IH]; intros o Ho Hp; [by rewrite lookup_nil in Ho|]. cbn [peel_slots].
  destruct o as [|o]; cbn in Ho.
  - injection Ho as ->. rewrite Hp. by left.
  - destruct (open key slot) as [p'|] eqn:E.
    + right. exists 0%nat, slot. split; [done|]. split; [done|]. by rewrite E.
    + destruct (IH o Ho Hp) as [H|(o' & c' & H1 & H2 & H3)]; [by left|right]. exists (S o'), c'. split; [congruence|]. done.
Qed.
End Built.

(** ** What the onion promises *)

Section Promises.
Context `{Hmac : HmacSha256} {HL : HmacLaws Hmac} `{G : Gcm} {GL : GcmLaws G} `{J : HopJson} {JL : HopJsonLaws J}.

Lemma guarded_typed (eph s : bytes) (hop : HopInstruction) : hop_typed hop -> hop_typed (guarded eph s hop).
Proof. intros []. split; try done. apply derive_array. Qed.

Lemma peel_slot_own (eph s p : bytes) (hop : HopInstruction) : hop_typed hop -> hop_plain hop = true ->
  unpad p = Ok (hop_json json_string (guarded eph s hop)) -> peel_slot eph s p = Ok (guarded eph s hop).
Proof.
  intros Ht Hp Hu. unfold peel_slot. rewrite Hu. cbn [obind]. rewrite hop_unmarshal_json; [|by apply guarded_typed|done].
  cbn [of_option obind]. by rewrite bool_decide_eq_true_2.
Qed.

(** Two slots of the packet authenticate under one secret. *)
Definition slot_ambiguous (p : Packet) (s : bytes) : Prop :=
  exists o o' slot slot', o <> o' /\ pk_Slots p !! o = Some slot /\ pk_Slots p !! o' = Some slot' /\
    is_Some (open (hopKey s) slot) /\ is_Some (open (hopKey s) slot').

(** A built packet delivers to every hop its own instruction and nothing else:
    peeling with hop i's secret yields hop i's instruction, marked with the guard of
    this hop and this packet. *)
Lemma onion_delivers (rng : Rand) (eph : bytes) (hops : list HopInstruction) (secrets : list bytes) (pkt : Packet)
    (i : nat) (hop : HopInstruction) (s : bytes) :
  rand_sized rng -> Build rng eph hops secrets = Ok pkt -> hops !! i = Some hop -> secrets !! i = Some s ->
  hop_typed hop -> hop_plain hop = true ->
  Peel (Some pkt) s = Ok (guarded eph s hop) \/ slot_ambiguous pkt s.
Proof.
  intros Hrng Hbuild Hhop Hs Ht Hp.
  apply Build_spec in Hbuild as (Hpkt & HL3 & _ & _ & Hslot & _). destruct (Hslot i hop Hhop) as (s' & o & c & H1 & H2 & H3 & H4).
  assert (s' = s) as -> by congruence. apply seal_hop_opens in H3 as (p & Hop & Hu & _); [|done].
  unfold Peel. rewrite HL3. cbn [Nat.eqb guard_err MaxHops]. rewrite Hpkt at 1. cbn [pk_EphemeralPublicKey].
  destruct (peel_slots_first eph s (hopKey s) p (pk_Slots pkt) o c H4 Hop) as [->|(o' & c' & A & B & D)].
  - left. by apply peel_slot_own.
  - right. exists o, o', c, c'. rewrite Hop. eauto.
Qed.

(** Every packet weighs the same, whatever the length of its route and what its
    instructions say. *)
Theorem packet_size_constant (rng : Rand) (eph : bytes) (hops : list HopInstruction) (secrets : list bytes) (pkt : Packet)
    (Hrng : rand_sized rng) (Heph : length eph = 32%nat) (Hbuild : Build rng eph hops secrets = Ok pkt) :
  Size (Some pkt) = (104 + MaxHops * (SlotSize + 28))%nat /\ Forall (fun s => length s = (SlotSize + 28)%nat) (pk_Slots pkt).
Proof.
  apply Build_spec in Hbuild as (Hpkt & HL3 & _ & _ & _ & Hall).
  assert (Forall (fun s => length s = (SlotSize + 28)%nat) (pk_Slots pkt)) as HF.
  { apply Forall_lookup. intros o slot Ho. destruct (Hall o slot Ho) as [(i & hop & s & _ & Hc)|(i & hop & s & c & k & _ & Hc & Hr)].
    - by apply seal_hop_opens in Hc as (p & _ & _ & Hc).
    - apply seal_hop_opens in Hc as (p & _ & _ & Hc); [|done]. apply Hrng in Hr. congruence. }
  split; [|done]. rewrite Hpkt. unfold Size. cbn [pk_EphemeralPublicKey pk_PaymentCommitment pk_ProofReference pk_Slots].
  rewrite Heph. unfold zeros. rewrite !length_replicate.
  destruct (pk_Slots pkt) as [|a [|b [|c [|]]]]; try discriminate. rewrite !Forall_cons in HF. cbn [map sum_list sum_list_with].
  destruct HF as (-> & -> & -> & _). reflexivity.
Qed.

(** The slot a hop finds its instruction in tells it its place on the route: the
    order of the slots is computed from the ephemeral key, and that key is in the
    packet.  Whoever opens a slot and runs the same computation reads off whether he
    is the first hop, whose predecessor is the payer. *)
Theorem slot_tells_position (rng : Rand) (eph : bytes) (hops : list HopInstruction) (secrets : list bytes) (pkt : Packet)
    (i : nat) (s : bytes) (Hrng : rand_sized rng) (Hbuild : Build rng eph hops secrets = Ok pkt)
    (Hi : (i < length hops)%nat) (Hs : secrets !! i = Some s) :
  exists o slot, pk_Slots pkt !! o = Some slot /\ is_Some (open (hopKey s) slot) /\
    list_find (eq o) (permutation (pk_EphemeralPublicKey pkt) MaxHops) = Some (i, o).
Proof.
  apply Build_spec in Hbuild as (Hpkt & _ & _ & _ & Hslot & _). apply lookup_lt_is_Some in Hi as [hop Hhop].
  destruct (Hslot i hop Hhop) as (s' & o & c & H1 & H2 & H3 & H4). assert (s' = s) as -> by congruence.
  apply seal_hop_opens in H3 as (p & Hop & _); [|done]. exists o, c. split; [done|]. split; [by rewrite Hop|].
  rewrite Hpkt. cbn [pk_EphemeralPublicKey]. apply list_find_Some. split; [done|]. split; [done|].
  intros j y Hj Hlt <-. pose proof (NoDup_lookup _ _ _ _ (permutation_NoDup eph MaxHops) H2 Hj). lia.
Qed.

(** A packet replayed under another ephemeral key is refused by the hop it was for. *)
Lemma replay_under_new_key (pkt : Packet) (s eph : bytes) (hop : HopInstruction) :
  Peel (Some pkt) s = Ok hop -> eph <> pk_EphemeralPublicKey pkt ->
  Z.of_nat (length s) < 2 ^ 64 -> Z.of_nat (length eph) < 2 ^ 64 -> Z.of_nat (length (pk_EphemeralPublicKey pkt)) < 2 ^ 64 ->
  Peel (Some (pkt <| pk_EphemeralPublicKey := eph |>)) s = Err ErrBadPacket \/
  derive_collide domainReplay [s; pk_EphemeralPublicKey pkt] domainReplay [s; eph].
Proof.
  intros H Hne Hs He He'. destruct pkt as [e slots pc pr x]. cbn [pk_EphemeralPublicKey] in *. unfold Peel in *. cbn [pk_Slots pk_EphemeralPublicKey] in *.
  change (pk_Slots ((mkPacket e slots pc pr x) <| pk_EphemeralPublicKey := eph |>)) with slots.
  change (pk_EphemeralPublicKey ((mkPacket e slots pc pr x) <| pk_EphemeralPublicKey := eph |>)) with eph.
  destruct (length slots =? 0)%nat; [discriminate|]. cbn [guard_err] in *. induction slots as [|slot slots IH]; [discriminate|].
  cbn [peel_slots] in *. destruct (open (hopKey s) slot) as [p|]; [|by apply IH].
  unfold peel_slot in *. apply obind_ok in H as (enc & Henc & H). rewrite Henc. cbn [obind].
  apply obind_ok in H as (hop' & Hh & H). rewrite Hh. cbn [obind].
  apply guard_err_ok in H as [Hg H]. apply Ok_inj in H as ->. apply negb_false_iff, bool_decide_eq_true in Hg.
  destruct (decide (hp_ReplayGuard hop = replayGuardFor s eph)) as [Hg'|Hg'].
  - right. rewrite Hg in Hg'. apply derive_inj in Hg' as [[_ Hg']|HC]; [congruence|exact HC|by repeat constructor..].
  - left. by rewrite bool_decide_eq_false_2.
Qed.

(** A failure message opens to the reason that was sealed, under the hop's secret. *)
Lemma failure_roundtrip (rng : Rand) (s c : bytes) (reason : string) :
  rand_sized rng -> SealFailure rng s reason = Ok c -> OpenFailure s c = Some (text_bytes reason).
Proof. intros Hr H. by apply open_seal in H as [H _]. Qed.
End Promises.

(** ** An instruction fits its slot *)

Lemma length_dec_loop (fuel k : nat) (n : Z) (acc : string) : (1 <= k)%nat -> 0 <= n < 10 ^ Z.of_nat k ->
  (length (text_bytes (dec_loop fuel n acc)) <= k + length (text_bytes acc))%nat.
Proof.
  revert k n acc. induction fuel as [|fuel IH]; intros k n acc Hk Hn; cbn [dec_loop]; [lia|].
  destruct (Z.ltb_spec n 10).
  - change (text_bytes (String.String ?c acc)) with (Z.of_N (N_of_ascii c) :: text_bytes acc). cbn [length]. lia.
  - destruct k as [|[|k]]; [lia|change (10 ^ Z.of_nat 1) with 10 in Hn; lia|].
    rewrite (IH (S k)); [|lia|split; [apply Z.div_pos; lia|apply Z.div_lt_upper_bound; [lia|]]].
    + change (text_bytes (String.String ?c acc)) with (Z.of_N (N_of_ascii c) :: text_bytes acc). cbn [length]. lia.
    + rewrite <- Z.pow_succ_r by lia. rewrite <- Nat2Z.inj_succ. lia.
Qed.

Lemma length_dec_text (k : nat) (n : Z) : (1 <= k)%nat -> 0 <= n < 10 ^ Z.of_nat k -> (length (text_bytes (dec_text n)) <= k)%nat.
Proof.
  intros Hk Hn. unfold dec_text. rewrite (proj2 (Z.ltb_ge _ _)) by lia.
  unfold dec_nat_text. etransitivity; [by apply (length_dec_loop _ k)|]. change (length (text_bytes "")) with 0%nat. lia.
Qed.

Lemma length_json_items (l : bytes) : bytes_ok l -> (length (json_items l) <= 4 * length l)%nat.
Proof.
  induction 1 as [|b l Hb Hl IH]; [done|]. unfold byte_ok in Hb.
  assert (length (text_bytes (dec_text b)) <= 3)%nat by (apply length_dec_text; [lia|change (10 ^ Z.of_nat 3) with 1000; lia]).
  destruct l as [|c l]; [cbn [json_items length]; lia|]. change (json_items (b :: c :: l)) with (text_bytes (dec_text b) ++ [44] ++ json_items (c :: l)). rewrite !length_app. cbn [length] in *. lia.
Qed.

Definition hop_fits (h : HopInstruction) : bool :=
  hop_plain h && (length (text_bytes (hp_NextHop h)) + length (text_bytes (hp_BlindedEndpoint h)) <=? 496)%nat.

Section Fits.
Context `{J : HopJson} {JL : HopJsonLaws J}.

Lemma length_omitempty (k s : string) : plain_text s = true ->
  (length (json_omitempty json_string k s) <= length (text_bytes k) + length (text_bytes s) + 6)%nat.
Proof.
  intros H. unfold json_omitempty, json_key. destruct (String.eqb s ""); [cbn; lia|].
  rewrite json_string_plain by done. unfold quoted. rewrite !length_app. cbn [length]. lia.
Qed.

Lemma length_json_array (l : bytes) : array_ok 32 l -> (length (json_array l) <= 130)%nat.
Proof. intros [Hl Hb]. apply length_json_items in Hb. unfold json_array. rewrite !length_app. cbn [length]. lia. Qed.

Lemma length_hop_json (h : HopInstruction) : hop_typed h -> hop_fits h = true -> (length (hop_json json_string h) + 4 <= SlotSize)%nat.
Proof.
  intros [Ho Hf He Hg] [Hp Hl]%andb_true_iff. apply Nat.leb_le in Hl. apply andb_true_iff in Hp as [Hn Hb].
  apply (length_omitempty "next_hop") in Hn. apply (length_omitempty "blinded_endpoint") in Hb.
  apply length_json_array in Ho, Hf, Hg.
  assert (length (text_bytes (dec_text (hp_OutgoingExpiry h))) <= 20)%nat as Hd
    by (apply length_dec_text; [lia|]; unfold u_range in He; change (10 ^ Z.of_nat 20) with 100000000000000000000; lia).
  unfold hop_json. rewrite !length_app.
  change (length (json_key "outgoing_commitment")) with 22%nat. change (length (json_key "fee_commitment")) with 17%nat.
  change (length (json_key "outgoing_expiry")) with 18%nat. change (length (json_key "replay_guard")) with 15%nat.
  change (length (text_bytes "next_hop")) with 8%nat in Hn. change (length (text_bytes "blinded_endpoint")) with 16%nat in Hb.
  unfold SlotSize. cbn [length]. lia.
Qed.
End Fits.

Section Succeeds.
Context `{Hmac : HmacSha256} {HL : HmacLaws Hmac} `{G : Gcm} {GL : GcmLaws G} `{J : HopJson} {JL : HopJsonLaws J}.

Lemma seal_hop_ok (rng : Rand) (k : nat) (eph s : bytes) (hop : HopInstruction) : (forall k n, is_Some (rng k n)) ->
  hop_typed hop -> hop_fits hop = true -> exists c, seal_hop rng k eph s hop = Ok c.
Proof.
  intros Hr Ht Hf. unfold seal_hop, padTo.
  pose proof (length_hop_json (guarded eph s hop) (guarded_typed _ _ _ Ht) Hf) as Hl.
  rewrite (proj2 (Nat.ltb_ge _ _)) by lia. cbn [guard_err obind]. unfold seal. destruct (Hr k NonceSize) as [nonce ->]. cbn [of_option obind]. eauto.
Qed.

Lemma seal_hops_ok (rng : Rand) (eph : bytes) (hops : list HopInstruction) (secrets : list bytes) (order : list nat) (k : nat)
    (slots : list (option bytes)) : (forall k n, is_Some (rng k n)) ->
  Forall (fun h => hop_typed h /\ hop_fits h = true) hops -> length hops = length secrets -> (length hops <= length order)%nat ->
  Forall (fun o => o < length slots)%nat order -> exists slots', seal_hops rng k eph hops secrets order slots = Ok slots'.
Proof.
  intros Hr Hh. revert k secrets order slots. induction Hh as [|hop hops [Ht Hf] Hh IH]; intros k secrets order slots Hs Ho Hlt; cbn [seal_hops]; [eauto|].
  destruct secrets as [|s secrets]; [discriminate|]. destruct order as [|o order]; [cbn in Ho; lia|].
  apply Forall_cons in Hlt as [H0 Hlt]. destruct (seal_hop_ok rng k eph s hop Hr Ht Hf) as [c ->]. cbn [obind].
  rewrite (proj2 (Nat.ltb_lt _ _)) by done. cbn in Hs, Ho. apply IH; [lia|lia|]. by rewrite length_insert.
Qed.

Lemma fill_slots_ok (rng : Rand) (k size : nat) (slots : list (option bytes)) : (forall k n, is_Some (rng k n)) ->
  exists l, fill_slots rng k size slots = Ok l.
Proof.
  intros Hr. revert k. induction slots as [|[s|] slots IH]; intros k; cbn [fill_slots]; [eauto| |].
  - destruct (IH k) as [l ->]. cbn. eauto.
  - destruct (Hr k size) as [f ->]. cbn [of_option obind]. destruct (IH (S k)) as [l ->]. cbn. eauto.
Qed.

(** A route within the format can always be packed: one to three hops with one
    secret each, expiries falling, names of printable ASCII that leave a slot its 496
    bytes.  An instruction so bounded fits its slot, whatever it commits to. *)
Theorem Build_succeeds (rng : Rand) (eph : bytes) (hops : list HopInstruction) (secrets : list bytes)
    (Hrng : forall k n, is_Some (rng k n)) (Hlen : (1 <= length hops <= MaxHops)%nat) (Hs : length hops = length secrets)
    (Hfall : expiries_fall hops = true) (Hhops : Forall (fun h => hop_typed h /\ hop_fits h = true) hops) :
  exists pkt, Build rng eph hops secrets = Ok pkt.
Proof.
  unfold Build. rewrite (proj2 (Nat.ltb_ge _ _)) by lia. rewrite (proj2 (Nat.eqb_eq _ _) Hs). cbn [orb negb guard_err].
  rewrite (proj2 (Nat.eqb_neq _ _)) by lia. rewrite Hfall. cbn [negb guard_err].
  destruct (seal_hops_ok rng eph hops secrets (permutation eph MaxHops) 0 (replicate MaxHops None) Hrng Hhops Hs) as [sl ->].
  - rewrite length_permutation. lia.
  - apply Forall_lookup. intros i o Ho. rewrite length_replicate. by eapply permutation_lt.
  - cbn [obind]. destruct (fill_slots_ok rng (length hops) (slot_length (permutation eph MaxHops) sl) sl Hrng) as [l ->]. cbn. eauto.
Qed.
End Succeeds.

(** ** A reader of instructions *)

Module ToyJson.
Fixpoint lit (p l : bytes) : option bytes :=
  match p, l with
  | [], _ => Some l
  | x :: p, y :: l => if x =? y then lit p l else None
  | _, _ => None
  end.
Fixpoint digits (acc : Z) (l : bytes) : Z * bytes :=
  match l with
  | b :: l' => if (48 <=? b) && (b <=? 57) then digits (acc * 10 + (b - 48)) l' else (acc, l)
  | [] => (acc, [])
  end.
Fixpoint items (k : nat) (l : bytes) : option (bytes * bytes) :=
  match k with
  | O => Some ([], l)
  | S k =>
      let (b, l) := digits 0 l in
      match k with
      | O => Some ([b], l)
      | S _ => l ← lit [44] l; '(bs, l) ← items k l; Some (b :: bs, l)
      end
  end.
Definition array (l : bytes) : option (bytes * bytes) :=
  l ← lit [91] l; '(bs, l) ← items 32 l; l ← lit [93] l; Some (bs, l).
Fixpoint until_quote (l : bytes) : bytes * bytes :=
  match l with
  | b :: l' => if b =? 34 then ([], l) else let (t, r) := until_quote l' in (b :: t, r)
  | [] => ([], [])
  end.
Definition string_of_bytes (l : bytes) : string := foldr (fun b s => String.String (ascii_of_N (Z.to_N b)) s) String.EmptyString l.
Definition optional (k : string) (l : bytes) : option (string * bytes) :=
  match lit (json_key k ++ [34]) l with
  | None => Some (String.EmptyString, l)
  | Some l => let (t, l) := until_quote l in l ← lit [34; 44] l; Some (string_of_bytes t, l)
  end.
Definition unmarshal (l : bytes) : option HopInstruction :=
  l ← lit [123] l;
  '(next, l) ← optional "next_hop" l;
  '(endpoint, l) ← optional "blinded_endpoint" l;
  l ← lit (json_key "outgoing_commitment") l; '(out, l) ← array l;
  l ← lit ([44] ++ json_key "fee_commitment") l; '(fee, l) ← array l;
  l ← lit ([44] ++ json_key "outgoing_expiry") l;
  let (expiry, l) := digits 0 l in
  l ← lit ([44] ++ json_key "replay_guard") l; '(guard, l) ← array l;
  Some (mkHop next endpoint out fee expiry guard).

Lemma lit_app (p r : bytes) : lit p (p ++ r) = Some r.
Proof. induction p as [|x p IH]; [done|]. cbn. by rewrite Z.eqb_refl. Qed.

Lemma digits_scan (s : string) (acc n : Z) (r : bytes) : dec_scan s acc = Some n ->
  match r with b :: _ => (48 <=? b) && (b <=? 57) = false | [] => True end -> digits acc (text_bytes s ++ r) = (n, r).
Proof.
  revert acc. induction s as [|c s IH]; intros acc H Hr; cbn [dec_scan] in H.
  - injection H as ->. destruct r as [|b r]; [done|]. change (digits n (b :: r) = (n, b :: r)). cbn [digits]. by rewrite Hr.
  - change (text_bytes (String.String c s) ++ r) with (Z.of_N (N_of_ascii c) :: text_bytes s ++ r). cbn [digits].
    unfold dec_value in H. destruct ((48 <=? Z.of_N (N_of_ascii c)) && (Z.of_N (N_of_ascii c) <=? 57)); [|discriminate]. by apply IH.
Qed.

Lemma digits_text (n : Z) (r : bytes) : 0 <= n ->
  match r with b :: _ => (48 <=? b) && (b <=? 57) = false | [] => True end -> digits 0 (text_bytes (dec_text n) ++ r) = (n, r).
Proof.
  intros Hn. unfold dec_text. rewrite (proj2 (Z.ltb_ge _ _)) by lia. apply digits_scan.
  by destruct (dec_nat_text_scan n Hn) as (d & t & _ & _ & H).
Qed.

Lemma items_json (l r : bytes) : bytes_ok l -> items (length l) (json_items l ++ [93] ++ r) = Some (l, [93] ++ r).
Proof.
  induction 1 as [|b l Hb Hl IH]; [done|]. unfold byte_ok in Hb. cbn [length items]. destruct l as [|c l].
  - cbn [json_items length]. by rewrite digits_text by (lia || done).
  - change (json_items (b :: c :: l)) with (text_bytes (dec_text b) ++ [44] ++ json_items (c :: l)). rewrite <- !app_assoc.
    rewrite digits_text by (lia || done). rewrite lit_app. cbn [length] in *. cbn [mbind option_bind]. by rewrite IH.
Qed.

Lemma array_json (l r : bytes) : array_ok 32 l -> array (json_array l ++ r) = Some (l, r).
Proof.
  intros [Hl Hb]. unfold array, json_array. rewrite <- !app_assoc, lit_app. cbn [mbind option_bind]. rewrite <- Hl, items_json by done.
  cbn [mbind option_bind]. by rewrite lit_app.
Qed.

Lemma until_quote_plain (s : string) (r : bytes) : plain_text s = true -> until_quote (text_bytes s ++ [34] ++ r) = (text_bytes s, [34] ++ r).
Proof.
  unfold plain_text. induction (text_bytes s) as [|b l IH]; [done|]. cbn [forallb]. intros [Hb Hl]%andb_true_iff. cbn [app until_quote].
  rewrite (proj2 (Z.eqb_neq b 34)) by (unfold plain_byte in Hb; zbool; lia). specialize (IH Hl). by setoid_rewrite IH.
Qed.

Lemma string_of_text (s : string) : string_of_bytes (text_bytes s) = s.
Proof. induction s as [|c s IH]; [done|]. cbn. rewrite N2Z.id, ascii_N_embedding. f_equal. exact IH. Qed.

Lemma optional_json (k s : string) (r : bytes) : plain_text s = true -> lit (json_key k ++ [34]) r = None ->
  optional k (json_omitempty quoted k s ++ r) = Some (s, r).
Proof.
  intros Hs Hr. unfold optional, json_omitempty. destruct (String.eqb_spec s "") as [->|Hne]; [change ([] ++ r) with r; by rewrite Hr|].
  unfold quoted. rewrite <- !app_assoc.
  replace (json_key k ++ [34] ++ text_bytes s ++ [34] ++ [44] ++ r) with ((json_key k ++ [34]) ++ text_bytes s ++ [34] ++ [44] ++ r)
    by (by rewrite <- !app_assoc).
  rewrite lit_app, until_quote_plain by done. change ([34] ++ [44] ++ r) with ([34; 44] ++ r). rewrite lit_app.
  cbn [mbind option_bind]. by rewrite string_of_text.
Qed.

Lemma unmarshal_json (h : HopInstruction) : hop_typed h -> hop_plain h = true -> unmarshal (hop_json quoted h) = Some h.
Proof.
  intros [Ho Hf He Hg] [Hn Hb]%andb_true_iff. unfold unmarshal, hop_json. rewrite lit_app. cbn [mbind option_bind].
  rewrite optional_json; [|done|]; cycle 1.
  { unfold json_omitempty. by destruct (String.eqb (hp_BlindedEndpoint h) ""). }
  cbn [mbind option_bind]. rewrite optional_json by done. cbn [mbind option_bind].
  rewrite lit_app. cbn [mbind option_bind]. rewrite array_json by done. cbn [mbind option_bind].
  rewrite app_assoc, lit_app. cbn [mbind option_bind]. rewrite array_json by done. cbn [mbind option_bind].
  rewrite app_assoc, lit_app. cbn [mbind option_bind]. rewrite digits_text; [|apply He|done].
  rewrite app_assoc, lit_app. cbn [mbind option_bind]. rewrite array_json by done. cbn [mbind option_bind]. by destruct h.
Qed.
End ToyJson.

(** ** Witnesses *)

#[export] Instance toy_hop_json : HopJson := {| json_string := quoted; hop_unmarshal := ToyJson.unmarshal |}.
#[export] Instance toy_hop_json_laws : HopJsonLaws toy_hop_json.
Proof. split; [done|]. apply ToyJson.unmarshal_json. Qed.
(** The key, the nonce and the text, under a tag. *)
#[export] Instance toy_gcm : Gcm := {|
  gcm_seal k n p := take 16 (reverse k ++ zeros 16) ++ p;
  gcm_open k n c := if decide (take 16 c = take 16 (reverse k ++ zeros 16)) then Some (drop 16 c) else None |}.
#[export] Instance toy_gcm_laws : GcmLaws toy_gcm.
Proof.
  assert (forall k, length (take 16 (reverse k ++ zeros 16)) = 16%nat) as HK by (intros k; rewrite length_take, length_app, length_reverse; cbn [zeros replicate length]; lia).
  split; intros k n p; unfold toy_gcm; cbn [gcm_seal gcm_open].
  - rewrite (take_app_length' (take 16 _)), drop_app_length' by (symmetry; apply HK). by rewrite decide_True.
  - rewrite length_app, HK. lia.
Qed.

Definition toy_rng : Rand := fun k n => Some (replicate n (Z.of_nat k mod 256)).
Lemma toy_rng_sized : rand_sized toy_rng.
Proof. intros k n b [= <-]. apply length_replicate. Qed.
Lemma toy_rng_total (k n : nat) : is_Some (toy_rng k n).
Proof. eexists. reflexivity. Qed.
Definition toy_eph : bytes := be_encode 32 4242.
Definition toy_secret (i : Z) : bytes := be_encode 32 (1000 + i).
Definition toy_hop (next : string) (expiry : Z) : HopInstruction := mkHop next "" (zeros 32) (zeros 32) expiry (zeros 32).
Definition toy_hops : list HopInstruction := [toy_hop "n2" 1200; toy_hop "n3" 1100; toy_hop "" 1000].
Definition toy_secrets : list bytes := [toy_secret 1; toy_secret 2; toy_secret 3].
Lemma toy_hop_typed (next : string) (expiry : Z) : u_range 64 expiry -> hop_typed (toy_hop next expiry).
Proof. intros H. split; [apply zeros_ok|apply zeros_ok|exact H|apply zeros_ok]. Qed.
Definition toy_packet : Packet :=
  match Build toy_rng toy_eph toy_hops toy_secrets with Ok p => p | _ => mkPacket [] [] [] [] 0 end.
Lemma toy_packet_built : Build toy_rng toy_eph toy_hops toy_secrets = Ok toy_packet.
Proof. vm_compute. reflexivity. Qed.
Lemma packet_size_constant_witness : Size (Some toy_packet) = 3260%nat.
Proof. exact (proj1 (packet_size_constant toy_rng toy_eph toy_hops toy_secrets toy_packet toy_rng_sized eq_refl toy_packet_built)). Defined.

Lemma slot_tells_position_witness : exists o slot, pk_Slots toy_packet !! o = Some slot /\
  list_find (eq o) (permutation (pk_EphemeralPublicKey toy_packet) MaxHops) = Some (0%nat, o).
Proof.
  destruct (slot_tells_position toy_rng toy_eph toy_hops toy_secrets toy_packet 0 (toy_secret 1) toy_rng_sized toy_packet_built)
    as (o & slot & H1 & _ & H2); [cbn; lia|reflexivity|]. exists o, slot. split; [exact H1|exact H2].
Defined.

Lemma toy_hops_fit : Forall (fun h => hop_typed h /\ hop_fits h = true) toy_hops.
Proof. repeat constructor; try apply zeros_ok; vm_compute; congruence. Qed.
Lemma Build_succeeds_witness : exists pkt, Build toy_rng toy_eph toy_hops toy_secrets = Ok pkt.
Proof.
  apply (Build_succeeds toy_rng toy_eph toy_hops toy_secrets toy_rng_total); [split; cbn; unfold MaxHops; lia|reflexivity|reflexivity|exact toy_hops_fit].
Defined.
