(* ===== verification/ChannelRouter.v ===== *)
(** * A forwarding router ([internal/channel/router.go])

    One hop of a private payment: the checks, the two sections under the lock, the
    lock table, and what happens when calls interleave.  Instants are nanoseconds
    since 1970. *)
From S2P Require Import Prelude.
From S2P Require Import GoBytes.
From S2P Require Import RecordUpdate.
From S2P Require Import ChannelNote.
From S2P Require Import ChannelOnion.

(** [time.Unix(int64(s), 0)]: the seconds are kept from year one, in 64 bits. *)
Definition unixToInternal : Z := 62135596800.
Definition time_Unix (s : Z) : Z := (wrap_i64 (wrap_i64 s + unixToInternal) - unixToInternal) * NanoSecond.

Record RouterPolicy : Type := mkPolicy {
  rp_MinTimelockMargin : Z; rp_MaxInFlight : Z; rp_MaxHTLCValue : Z; rp_BaseFee : Z; rp_PrivateOnly : bool
}.
#[export] Instance RouterPolicy_eta : Eta RouterPolicy := fun p => mkPolicy (rp_MinTimelockMargin p) (rp_MaxInFlight p)
  (rp_MaxHTLCValue p) (rp_BaseFee p) (rp_PrivateOnly p).
Record InFlight : Type := mkInFlight { if_ReplayGuard : bytes; if_OutgoingCommitment : bytes; if_Expiry : Z }.
Record Router : Type := mkRouter {
  ro_policy : RouterPolicy; ro_inFlight : gmap bytes InFlight; ro_seen : gset bytes; ro_Forwarded : Z; ro_Refused : Z
}.
#[export] Instance Router_eta : Eta Router := fun r => mkRouter (ro_policy r) (ro_inFlight r) (ro_seen r) (ro_Forwarded r) (ro_Refused r).

Definition minute : Z := 60 * NanoSecond.
Definition NewRouter (policy : RouterPolicy) : Router :=
  let policy := if rp_MinTimelockMargin policy <=? 0 then policy <| rp_MinTimelockMargin := 10 * minute |> else policy in
  let policy := if rp_MaxInFlight policy <=? 0 then policy <| rp_MaxInFlight := 20 |> else policy in
  mkRouter policy ∅ ∅ 0 0.

Definition count (ok : bool) (r : Router) : Router :=
  if ok then r <| ro_Forwarded ::= fun n => wrap_u64 (n + 1) |> else r <| ro_Refused ::= fun n => wrap_u64 (n + 1) |>.

Section Router.
Context `{Hmac : HmacSha256} `{G : Gcm} `{J : HopJson}.

(** The first section under the lock. *)
Definition admit_payment (r : Router) (hop : HopInstruction) : outcome pay_err unit :=
  fail? bool_decide (hp_ReplayGuard hop ∈ ro_seen r) with ErrReplayed ;;
  fail? rp_MaxInFlight (ro_policy r) <=? Z.of_nat (size (ro_inFlight r)) with ErrTooManyInFlight ;;
  Ok tt.
(** Between the sections: times and liquidity. *)
Definition check_terms (policy : RouterPolicy) (hop : HopInstruction) (packet : Packet) (outboundAvailable now : Z) : outcome pay_err unit :=
  let outgoing := time_Unix (hp_OutgoingExpiry hop) in
  fail? negb (now <? outgoing) with ErrExpiredHop ;;
  let incoming := time_Unix (pk_Expiry packet) in
  fail? time_Sub incoming outgoing <? rp_MinTimelockMargin policy with ErrExpiryTooTight ;;
  fail? (0 <? rp_MaxHTLCValue policy) && (outboundAvailable <? rp_MaxHTLCValue policy) && (outboundAvailable <=? 0) with ErrNoLiquidity ;;
  fail? outboundAvailable <=? 0 with ErrNoLiquidity ;;
  Ok tt.
(** The second section. *)
Definition take_lock (r : Router) (lock : InFlight) : Router :=
  (r <| ro_inFlight ::= fun m => <[if_ReplayGuard lock := lock]> m |>) <| ro_seen ::= fun s => {[if_ReplayGuard lock]} ∪ s |>.
Definition lock_of (hop : HopInstruction) : InFlight :=
  mkInFlight (hp_ReplayGuard hop) (hp_OutgoingCommitment hop) (time_Unix (hp_OutgoingExpiry hop)).
Definition onward_of (packet : Packet) (hop : HopInstruction) : Packet := packet <| pk_Expiry := hp_OutgoingExpiry hop |>.

(** What a call does up to the end of the first section, and the rest. *)
Definition Forward_enter (r : Router) (packet : option Packet) (shared : bytes) : Router * outcome pay_err HopInstruction :=
  match (let? hop := Peel packet shared in let? _ := admit_payment r hop in Ok hop) with
  | Ok hop => (r, Ok hop)
  | o => (count false r, o)
  end.
Definition Forward_leave (r : Router) (packet : Packet) (hop : HopInstruction) (outboundAvailable now : Z)
    : Router * outcome pay_err (Packet * InFlight) :=
  match check_terms (ro_policy r) hop packet outboundAvailable now with
  | Ok _ => (count true (take_lock r (lock_of hop)), Ok (onward_of packet hop, lock_of hop))
  | Err e => (count false r, Err e)
  | Panic => (r, Panic)
  end.
Definition Forward (r : Router) (packet : option Packet) (shared : bytes) (outboundAvailable now : Z)
    : Router * outcome pay_err (Packet * InFlight) :=
  match Forward_enter r packet shared with
  | (r, Ok hop) =>
      match packet with
      | Some packet => Forward_leave r packet hop outboundAvailable now
      | None => (r, Panic)
      end
  | (r, Err e) => (r, Err e)
  | (r, Panic) => (r, Panic)
  end.

Definition Resolve (r : Router) (guard : bytes) : Router := r <| ro_inFlight ::= delete guard |>.
(** In no particular order. *)
Definition Outstanding (r : Router) : list InFlight := (map_to_list (ro_inFlight r)).*2.
Definition ExpireStale (r : Router) (now : Z) : Router * Z :=
  let live := filter (fun '(_, f) => now < if_Expiry f) (ro_inFlight r) in
  (r <| ro_inFlight := live |>, Z.of_nat (size (ro_inFlight r)) - Z.of_nat (size live)).
End Router.

(** ** What one call does *)

Section OneCall.
Context `{Hmac : HmacSha256} `{G : Gcm} `{J : HopJson}.

Lemma Forward_enter_ok (r r' : Router) (packet : option Packet) (s : bytes) (hop : HopInstruction) :
  Forward_enter r packet s = (r', Ok hop) <->
  r' = r /\ Peel packet s = Ok hop /\ (hp_ReplayGuard hop ∉ ro_seen r) /\ Z.of_nat (size (ro_inFlight r)) < rp_MaxInFlight (ro_policy r).
Proof.
  unfold Forward_enter, admit_payment. destruct (Peel packet s) as [h| |]; cbn [obind].
  2,3: split; [discriminate|by intros (_ & ? & _)].
  destruct (bool_decide (hp_ReplayGuard h ∈ ro_seen r)) eqn:E1; cbn [guard_err obind].
  { apply bool_decide_eq_true in E1. split; [discriminate|]. intros (_ & [= ->] & H & _). by destruct H. }
  apply bool_decide_eq_false in E1. destruct (Z.leb_spec (rp_MaxInFlight (ro_policy r)) (Z.of_nat (size (ro_inFlight r)))); cbn [guard_err obind].
  - split; [discriminate|]. intros (_ & _ & _ & ?). lia.
  - split; [intros [= <- <-]; done|]. by intros (-> & [= ->] & _).
Qed.

Lemma Forward_enter_refused (r r' : Router) (packet : option Packet) (s : bytes) (o : outcome pay_err HopInstruction) :
  Forward_enter r packet s = (r', o) -> is_ok o = false -> r' = count false r.
Proof. unfold Forward_enter. destruct (let? _ := _ in _) as [hop| |]; intros [<- <-]%pair_equal_spec; done. Qed.

Lemma Forward_ok (r r' : Router) (packet : option Packet) (s : bytes) (avail now : Z) (on : Packet) (lock : InFlight) :
  Forward r packet s avail now = (r', Ok (on, lock)) ->
  exists p hop, packet = Some p /\ Forward_enter r packet s = (r, Ok hop) /\ check_terms (ro_policy r) hop p avail now = Ok tt /\
    r' = count true (take_lock r (lock_of hop)) /\ on = onward_of p hop /\ lock = lock_of hop.
Proof.
  unfold Forward. destruct (Forward_enter r packet s) as [r0 [hop| |]] eqn:E; [|discriminate..].
  destruct packet as [p|]; [|discriminate]. pose proof E as E'. apply Forward_enter_ok in E' as [-> _]. unfold Forward_leave.
  destruct (check_terms (ro_policy r) hop p avail now) as [[]| |] eqn:C; [|discriminate..]. intros [= <- <- <-]. by exists p, hop.
Qed.

Lemma count_fields (ok : bool) (r : Router) :
  ro_policy (count ok r) = ro_policy r /\ ro_inFlight (count ok r) = ro_inFlight r /\ ro_seen (count ok r) = ro_seen r /\
  ro_Forwarded (count ok r) = (if ok then wrap_u64 (ro_Forwarded r + 1) else ro_Forwarded r).
Proof. by destruct ok. Qed.

(** A call that does not forward leaves everything but the counter of refusals. *)
Lemma Forward_refused (r : Router) (packet : option Packet) (s : bytes) (avail now : Z) :
  is_ok (Forward r packet s avail now).2 = false ->
  (Forward r packet s avail now).1 = r \/ (Forward r packet s avail now).1 = count false r.
Proof.
  unfold Forward. destruct (Forward_enter r packet s) as [r0 [hop| |]] eqn:E.
  - apply Forward_enter_ok in E as [-> _]. destruct packet as [p|]; [|by left]. unfold Forward_leave.
    destruct (check_terms _ _ _ _ _); cbn; [discriminate|by right|by left].
  - apply Forward_enter_refused in E as ->; [by right|done].
  - apply Forward_enter_refused in E as ->; [by right|done].
Qed.

Lemma time_Unix_small (x : Z) : 0 <= x < 2 ^ 62 -> time_Unix x = x * NanoSecond.
Proof.
  intros H. unfold time_Unix. rewrite (wrap_s_small 64 x) by (unfold s_range; lia).
  rewrite wrap_s_small by (unfold s_range, unixToInternal; lia). lia.
Qed.

(** The largest value of a payment plays no part. *)
Lemma check_terms_eq (policy : RouterPolicy) (hop : HopInstruction) (p : Packet) (avail now : Z) :
  check_terms policy hop p avail now =
  (fail? negb (now <? time_Unix (hp_OutgoingExpiry hop)) with ErrExpiredHop ;;
   fail? time_Sub (time_Unix (pk_Expiry p)) (time_Unix (hp_OutgoingExpiry hop)) <? rp_MinTimelockMargin policy with ErrExpiryTooTight ;;
   fail? avail <=? 0 with ErrNoLiquidity ;;
   Ok tt).
Proof.
  unfold check_terms. destruct (negb _); [done|]. cbn [guard_err]. destruct (_ <? rp_MinTimelockMargin policy); [done|]. cbn [guard_err].
  destruct (avail <=? 0); [by rewrite andb_true_r; destruct (_ && _)|by rewrite andb_false_r].
Qed.

Lemma check_terms_ok (policy : RouterPolicy) (hop : HopInstruction) (p : Packet) (avail now : Z) :
  check_terms policy hop p avail now = Ok tt <->
  now < time_Unix (hp_OutgoingExpiry hop) /\ 0 < avail /\
  rp_MinTimelockMargin policy <= time_Sub (time_Unix (pk_Expiry p)) (time_Unix (hp_OutgoingExpiry hop)).
Proof.
  rewrite check_terms_eq, !guard_err_ok, negb_false_iff, Z.ltb_lt, Z.ltb_ge, Z.leb_gt. tauto.
Qed.

(** What a router carries on leaves it the time to be paid: the lock it takes
    expires later than now, the packet it answers expires later still by the margin,
    and the packet it sends on carries the deadline of its own lock. *)
Theorem forward_leaves_margin (r r' : Router) (p : Packet) (s : bytes) (avail now : Z) (on : Packet) (lock : InFlight)
    (H : Forward r (Some p) s avail now = (r', Ok (on, lock))) (Hm : 0 < rp_MinTimelockMargin (ro_policy r)) :
  now < if_Expiry lock /\ if_Expiry lock + rp_MinTimelockMargin (ro_policy r) <= time_Unix (pk_Expiry p) /\
  time_Unix (pk_Expiry on) = if_Expiry lock /\ ro_inFlight r' !! if_ReplayGuard lock = Some lock /\ if_ReplayGuard lock ∉ ro_seen r.
Proof.
  apply Forward_ok in H as (p' & hop & [= <-] & E & C & -> & -> & ->). apply check_terms_ok in C as (C1 & C2 & C3).
  apply Forward_enter_ok in E as (_ & _ & E & _). unfold time_Sub in C3. destruct (count_fields true (take_lock r (lock_of hop))) as (_ & -> & _).
  cbn [lock_of if_Expiry if_ReplayGuard]. split; [done|]. split; [lia|]. split; [done|]. split; [|done]. apply lookup_insert_eq.
Qed.

(** The same policy with other limits. *)
Definition with_limits (p : RouterPolicy) (value fee : Z) (private : bool) : RouterPolicy :=
  mkPolicy (rp_MinTimelockMargin p) (rp_MaxInFlight p) value fee private.

(** The limits an operator configures do nothing: the largest value of a payment,
    the fee and the wish to carry only private payments never change what a router
    answers.  (The comparison with the largest value only fires when there is no
    liquidity at all, which is refused anyway.) *)
Theorem limits_ignored (r : Router) (value fee : Z) (private : bool) (packet : option Packet) (s : bytes) (avail now : Z) :
  (Forward (r <| ro_policy := with_limits (ro_policy r) value fee private |>)
    packet s avail now).2 = (Forward r packet s avail now).2.
Proof.
  unfold Forward, Forward_enter. change (admit_payment (r <| ro_policy := ?x |>)) with (admit_payment r).
  destruct (let? hop := Peel packet s in let? _ := admit_payment r hop in Ok hop) as [hop| |]; [|done..].
  destruct packet as [p|]; [|done]. unfold Forward_leave. rewrite !check_terms_eq.
  change (rp_MinTimelockMargin (ro_policy (r <| ro_policy := with_limits (ro_policy r) value fee private |>)))
    with (rp_MinTimelockMargin (ro_policy r)).
  by destruct (_ : outcome pay_err unit).
Qed.

(** The onward packet is the packet that came in, but for the deadline. *)
Lemma onward_same_blob (r r' : Router) (p on : Packet) (s : bytes) (avail now : Z) (lock : InFlight) :
  Forward r (Some p) s avail now = (r', Ok (on, lock)) ->
  pk_EphemeralPublicKey on = pk_EphemeralPublicKey p /\ pk_Slots on = pk_Slots p /\ Size (Some on) = Size (Some p).
Proof. intros H. by apply Forward_ok in H as (p' & hop & [= <-] & _ & _ & _ & -> & _). Qed.

(** The margin is measured against the word of the previous hop: the deadline of
    the arriving packet is a field nothing authenticates.  A packet refused as too
    tight is forwarded when the sender writes a later deadline into it. *)
Theorem expiry_is_the_senders_word (r : Router) (p : Packet) (hop : HopInstruction) (s : bytes) (avail now : Z)
    (Hpeel : Forward_enter r (Some p) s = (r, Ok hop)) (Hnow : now < time_Unix (hp_OutgoingExpiry hop)) (Hav : 0 < avail)
    (Hexp : 0 <= hp_OutgoingExpiry hop < 2 ^ 61) (Hm : rp_MinTimelockMargin (ro_policy r) < 2 ^ 63) :
  exists later r', Forward r (Some (p <| pk_Expiry := later |>)) s avail now = (r', Ok (p <| pk_Expiry := hp_OutgoingExpiry hop |>, lock_of hop)).
Proof.
  exists (hp_OutgoingExpiry hop + 2 ^ 61). eexists. unfold Forward.
  change (Forward_enter r (Some (p <| pk_Expiry := ?x |>)) s) with (Forward_enter r (Some p) s). rewrite Hpeel. unfold Forward_leave.
  assert (check_terms (ro_policy r) hop (p <| pk_Expiry := hp_OutgoingExpiry hop + 2 ^ 61 |>) avail now = Ok tt) as ->; [|done].
  apply check_terms_ok. split; [done|]. split; [done|].
  change (pk_Expiry (p <| pk_Expiry := ?x |>)) with x. rewrite !time_Unix_small by lia. unfold time_Sub, NanoSecond. lia.
Qed.
End OneCall.

(** ** Histories of calls, one at a time *)

Inductive router_op : Type :=
| OpForward (packet : option Packet) (shared : bytes) (avail now : Z)
| OpResolve (guard : bytes)
| OpExpire (now : Z).

Section Histories.
Context `{Hmac : HmacSha256} `{G : Gcm} `{J : HopJson}.

(** The router after an operation, and the guard of the payment it forwarded. *)
Definition run_op (r : Router) (op : router_op) : Router * option bytes :=
  match op with
  | OpForward packet s avail now =>
      match Forward r packet s avail now with
      | (r', Ok (_, lock)) => (r', Some (if_ReplayGuard lock))
      | (r', _) => (r', None)
      end
  | OpResolve guard => (Resolve r guard, None)
  | OpExpire now => ((ExpireStale r now).1, None)
  end.
Fixpoint run_ops (r : Router) (ops : list router_op) : Router * list bytes :=
  match ops with
  | [] => (r, [])
  | op :: ops =>
      let (r1, g) := run_op r op in
      let (r2, gs) := run_ops r1 ops in
      (r2, option_list g ++ gs)
  end.

(** What holds of a router whose past forwarded the guards [past]. *)
Record router_ok (policy : RouterPolicy) (past : list bytes) (r : Router) : Prop := {
  rk_policy : ro_policy r = policy;
  rk_seen : ro_seen r = list_to_set past;
  rk_once : NoDup past;
  rk_held : forall g f, ro_inFlight r !! g = Some f -> if_ReplayGuard f = g /\ g ∈ past;
  rk_bound : Z.of_nat (size (ro_inFlight r)) <= rp_MaxInFlight policy;
  rk_count : ro_Forwarded r = wrap_u64 (Z.of_nat (length past))
}.

Lemma wrap_u64_succ (n : nat) : wrap_u64 (wrap_u64 (Z.of_nat n) + 1) = wrap_u64 (Z.of_nat (S n)).
Proof. unfold wrap_u. rewrite Zplus_mod_idemp_l. f_equal. lia. Qed.

(** Dropping locks keeps it. *)
Lemma router_ok_drop (policy : RouterPolicy) (past : list bytes) (r : Router) (m : gmap bytes InFlight) :
  router_ok policy past r -> m ⊆ ro_inFlight r -> router_ok policy past (r <| ro_inFlight := m |>).
Proof.
  intros [] Hm. split; try done.
  - intros g f Hg. apply rk_held0. by eapply lookup_weaken.
  - apply map_subseteq_size in Hm. change (ro_inFlight (r <| ro_inFlight := m |>)) with m. lia.
Qed.

Lemma router_ok_step (policy : RouterPolicy) (past : list bytes) (r : Router) (op : router_op) :
  router_ok policy past r -> router_ok policy (past ++ option_list (run_op r op).2) (run_op r op).1.
Proof.
  intros H. destruct op as [packet s avail now|guard|now]; cbn [run_op].
  - destruct (Forward r packet s avail now) as [r' o] eqn:E.
    assert (is_ok o = false -> router_ok policy (past ++ []) r') as HR.
    { intros Ho. rewrite app_nil_r. pose proof (Forward_refused r packet s avail now) as HF. rewrite E in HF. cbn [fst snd] in HF.
      destruct (HF Ho) as [-> | ->]; [done|]. destruct H. by split. }
    destruct o as [[on lock]| |]; cbn [fst snd option_list]; [|by apply HR..].
    apply Forward_ok in E as (p & hop & -> & E & _ & -> & _ & ->). apply Forward_enter_ok in E as (_ & _ & Hg & Hsz). destruct H as [HP HS HN HH HB HC].
    change (if_ReplayGuard (lock_of hop)) with (hp_ReplayGuard hop). set (g := hp_ReplayGuard hop) in *.
    destruct (count_fields true (take_lock r (lock_of hop))) as (C1 & C2 & C3 & C4). split.
    + by rewrite C1.
    + rewrite C3. change (ro_seen (take_lock r (lock_of hop))) with ({[g]} ∪ ro_seen r). rewrite HS, list_to_set_app_L. cbn. set_solver.
    + apply NoDup_app. split; [done|]. split; [|apply NoDup_singleton]. intros x Hx ->%list_elem_of_singleton. rewrite HS in Hg. set_solver.
    + intros g' f. rewrite C2. change (ro_inFlight (take_lock r (lock_of hop))) with (<[g := lock_of hop]> (ro_inFlight r)).
      rewrite lookup_insert_Some. intros [[<- <-]|[_ Hf]]; [split; [done|set_solver]|]. apply HH in Hf. set_solver.
    + rewrite C2. change (ro_inFlight (take_lock r (lock_of hop))) with (<[g := lock_of hop]> (ro_inFlight r)).
      rewrite map_size_insert. rewrite HP in Hsz. destruct (ro_inFlight r !! g); cbn; lia.
    + rewrite C4. change (ro_Forwarded (take_lock r (lock_of hop))) with (ro_Forwarded r). rewrite HC, length_app, Nat.add_1_r. apply wrap_u64_succ.
  - cbn [fst snd option_list]. rewrite app_nil_r. change (Resolve r guard) with (r <| ro_inFlight := delete guard (ro_inFlight r) |>).
    apply router_ok_drop; [done|]. apply delete_subseteq.
  - cbn [fst snd option_list]. rewrite app_nil_r. apply router_ok_drop; [done|]. apply map_filter_subseteq.
Qed.

Lemma router_ok_run (policy : RouterPolicy) (past : list bytes) (r : Router) (ops : list router_op) :
  router_ok policy past r -> router_ok policy (past ++ (run_ops r ops).2) (run_ops r ops).1.
Proof.
  revert past r. induction ops as [|op ops IH]; intros past r H; cbn [run_ops].
  - cbn [fst snd]. by rewrite app_nil_r.
  - apply router_ok_step with (op := op) in H. destruct (run_op r op) as [r1 g]. cbn [fst snd] in H.
    apply IH in H. destruct (run_ops r1 ops) as [r2 gs]. cbn [fst snd] in *. by rewrite <- app_assoc in H.
Qed.

Lemma NewRouter_ok (policy : RouterPolicy) :
  router_ok (ro_policy (NewRouter policy)) [] (NewRouter policy) /\ 0 < rp_MinTimelockMargin (ro_policy (NewRouter policy)) /\
  0 < rp_MaxInFlight (ro_policy (NewRouter policy)).
Proof.
  assert (0 < rp_MinTimelockMargin (ro_policy (NewRouter policy)) /\ 0 < rp_MaxInFlight (ro_policy (NewRouter policy))) as [H1 H2].
  { unfold NewRouter. destruct policy as [m x v f p]. cbn [rp_MinTimelockMargin rp_MaxInFlight].
    destruct (Z.leb_spec m 0); cbn -[minute]; destruct (Z.leb_spec x 0); cbn -[minute]; unfold minute, NanoSecond; split; lia. }
  split; [|done]. split; [done|done|constructor| |change (0 <= rp_MaxInFlight (ro_policy (NewRouter policy))); lia|done].
  intros g f H. change ((∅ : gmap bytes InFlight) !! g = Some f) in H. by rewrite lookup_empty in H.
Qed.

(** C28. A router called by one caller at a time forwards no payment twice, ever - not
    after its lock was resolved or has expired - and never holds more locks than its
    policy allows; its counter is the number of payments it forwarded. *)
Theorem forwarded_once (policy : RouterPolicy) (ops : list router_op) :
  let (r, guards) := run_ops (NewRouter policy) ops in
  NoDup guards /\ (forall g, g ∈ ro_seen r <-> g ∈ guards) /\ (forall g f, ro_inFlight r !! g = Some f -> g ∈ guards) /\
  Z.of_nat (length (Outstanding r)) <= rp_MaxInFlight (ro_policy (NewRouter policy)) /\
  ro_Forwarded r = wrap_u64 (Z.of_nat (length guards)).
Proof.
  destruct (NewRouter_ok policy) as [H _]. apply router_ok_run with (ops := ops) in H. destruct (run_ops (NewRouter policy) ops) as [r gs].
  cbn [fst snd app] in H. destruct H as [_ HS HN HH HB HC]. split; [done|]. split; [intros g; rewrite HS; apply elem_of_list_to_set|].
  split; [intros g f Hf; by apply HH in Hf as [_ Hf]|]. split; [|done]. unfold Outstanding. by rewrite length_fmap, length_map_to_list.
Qed.

(** Expiring drops exactly the locks whose time has come. *)
Lemma ExpireStale_exact (r : Router) (now : Z) (g : bytes) (f : InFlight) :
  ro_inFlight (ExpireStale r now).1 !! g = Some f <-> ro_inFlight r !! g = Some f /\ now < if_Expiry f.
Proof.
  change (ro_inFlight (ExpireStale r now).1) with (filter (fun '(_, f) => now < if_Expiry f) (ro_inFlight r)).
  by rewrite map_lookup_filter_Some.
Qed.
End Histories.

(** ** Calls that interleave

    The lock is released between the replay check and the taking of the lock, so two
    calls can be in between at once. *)

Inductive call_at : Type := Idle | Entered (hop : HopInstruction) | Returned (res : outcome pay_err (Packet * InFlight)).
Record caller : Type := mkCaller { cl_packet : Packet; cl_shared : bytes; cl_avail : Z; cl_now : Z; cl_at : call_at }.
#[export] Instance caller_eta : Eta caller := fun c => mkCaller (cl_packet c) (cl_shared c) (cl_avail c) (cl_now c) (cl_at c).

Section Interleaving.
Context `{Hmac : HmacSha256} `{G : Gcm} `{J : HopJson}.

Definition entered_at (o : outcome pay_err HopInstruction) : call_at :=
  match o with Ok hop => Entered hop | Err e => Returned (Err e) | Panic => Returned Panic end.
Inductive rstep : Router * list caller -> Router * list caller -> Prop :=
| RS_enter r cs i c r' o (Hi : cs !! i = Some c) (Hat : cl_at c = Idle)
    (HE : Forward_enter r (Some (cl_packet c)) (cl_shared c) = (r', o)) :
    rstep (r, cs) (r', <[i := c <| cl_at := entered_at o |>]> cs)
| RS_leave r cs i c hop r' o (Hi : cs !! i = Some c) (Hat : cl_at c = Entered hop)
    (HL : Forward_leave r (cl_packet c) hop (cl_avail c) (cl_now c) = (r', o)) :
    rstep (r, cs) (r', <[i := c <| cl_at := Returned o |>]> cs)
| RS_resolve r cs guard : rstep (r, cs) (Resolve r guard, cs)
| RS_expire r cs now : rstep (r, cs) ((ExpireStale r now).1, cs).

(** Two calls with one packet that are in between the two sections together both
    forward it - the second payment of a replay - although either of them, made after
    the other, is refused as replayed. *)
Theorem racing_forwards_both_leave (r r1 : Router) (p : Packet) (s : bytes) (avail now : Z) (x : Packet * InFlight)
    (H : Forward r (Some p) s avail now = (r1, Ok x)) :
  let call at_ := mkCaller p s avail now at_ in
  (Forward r1 (Some p) s avail now).2 = Err ErrReplayed /\
  exists r2, rtc rstep (r, [call Idle; call Idle]) (r2, [call (Returned (Ok x)); call (Returned (Ok x))]) /\
    ro_Forwarded r2 = wrap_u64 (wrap_u64 (ro_Forwarded r + 1) + 1).
Proof.
  intros call. destruct x as [on lock]. pose proof H as H'. apply Forward_ok in H as (p' & hop & [= <-] & E & C & Hr1 & -> & ->).
  pose proof E as E'. apply Forward_enter_ok in E' as (_ & HP & _). split.
  - subst r1. unfold Forward, Forward_enter. rewrite HP. cbn [obind]. unfold admit_payment. rewrite bool_decide_eq_true_2; [done|].
    change (ro_seen (count true (take_lock r (lock_of hop)))) with ({[hp_ReplayGuard hop]} ∪ ro_seen r). set_solver.
  - assert (forall r', ro_policy r' = ro_policy r -> Forward_leave r' p hop avail now = (count true (take_lock r' (lock_of hop)), Ok (onward_of p hop, lock_of hop))) as HL
      by (intros r' Hp; unfold Forward_leave; by rewrite Hp, C).
    exists (count true (take_lock r1 (lock_of hop))). split; [|by subst r1].
    set (x := (onward_of p hop, lock_of hop)).
    apply (rtc_l _ _ (r, [call (Entered hop); call Idle])); [exact (RS_enter r [call Idle; call Idle] 0 (call Idle) r (Ok hop) eq_refl eq_refl E)|].
    apply (rtc_l _ _ (r, [call (Entered hop); call (Entered hop)]));
      [exact (RS_enter r [call (Entered hop); call Idle] 1 (call Idle) r (Ok hop) eq_refl eq_refl E)|].
    apply (rtc_l _ _ (r1, [call (Returned (Ok x)); call (Entered hop)])).
    { apply (RS_leave r [call (Entered hop); call (Entered hop)] 0 (call (Entered hop)) hop r1 (Ok x) eq_refl eq_refl). subst r1. by apply HL. }
    apply rtc_once, (RS_leave r1 [call (Returned (Ok x)); call (Entered hop)] 1 (call (Entered hop)) hop _ (Ok x) eq_refl eq_refl).
    apply HL. by subst r1.
Qed.

Definition in_between (c : caller) : nat := match cl_at c with Entered _ => 1 | _ => 0 end.
Definition busy (cs : list caller) : nat := sum_list_with in_between cs.

Lemma busy_insert (cs : list caller) (i : nat) (c c' : caller) : cs !! i = Some c ->
  (busy (<[i := c']> cs) + in_between c = busy cs + in_between c')%nat.
Proof.
  unfold busy. revert i. induction cs as [|d cs IH]; intros [|i] H; [done|done| |]; cbn -[in_between] in *.
  - injection H as ->. lia.
  - specialize (IH i H). rewrite <- !Nat.add_assoc. f_equal. exact IH.
Qed.
Lemma busy_le (cs : list caller) : (busy cs <= length cs)%nat.
Proof. unfold busy. induction cs as [|c cs IH]; cbn; [lia|]. unfold in_between at 1. destruct (cl_at c); lia. Qed.

Lemma Forward_leave_size (r r' : Router) (p : Packet) (hop : HopInstruction) (avail now : Z) (o : outcome pay_err (Packet * InFlight)) :
  Forward_leave r p hop avail now = (r', o) -> ro_policy r' = ro_policy r /\ (size (ro_inFlight r') <= S (size (ro_inFlight r)))%nat.
Proof.
  unfold Forward_leave. destruct (check_terms _ _ _ _ _); intros [<- _]%pair_equal_spec; [|split; [done|]..].
  - split; [done|]. change (ro_inFlight (count true (take_lock r (lock_of hop)))) with (<[hp_ReplayGuard hop := lock_of hop]> (ro_inFlight r)).
    rewrite map_size_insert. destruct (_ !! _); cbn; lia.
  - change (ro_inFlight (count false r)) with (ro_inFlight r). lia.
  - lia.
Qed.

(** What survives: the callers in between can push the lock table over its limit,
    but only by their number. *)
Lemma racing_overshoot (r r' : Router) (cs cs' : list caller) :
  rtc rstep (r, cs) (r', cs') -> 0 < rp_MaxInFlight (ro_policy r) ->
  Z.of_nat (size (ro_inFlight r) + busy cs) <= rp_MaxInFlight (ro_policy r) - 1 + Z.of_nat (length cs) ->
  Z.of_nat (size (ro_inFlight r') + busy cs') <= rp_MaxInFlight (ro_policy r) - 1 + Z.of_nat (length cs).
Proof.
  intros H Hpos. remember (r, cs) as a eqn:Ea. remember (r', cs') as b eqn:Eb. revert r cs Ea Hpos.
  induction H as [a|a m b Hst Hrest IH]; intros r cs -> Hpos HB; [injection Eb as <- <-; done|].
  assert (exists r1 cs1, m = (r1, cs1) /\ ro_policy r1 = ro_policy r /\ length cs1 = length cs /\
    Z.of_nat (size (ro_inFlight r1) + busy cs1) <= rp_MaxInFlight (ro_policy r) - 1 + Z.of_nat (length cs)) as (r1 & cs1 & -> & HP & HLen & HB1).
  { inversion Hst; subst; clear Hst; eexists _, _; (split; [reflexivity|]); rewrite ?length_insert.
    - pose proof (busy_insert cs i c (c <| cl_at := entered_at o |>) Hi) as HI. unfold in_between at 1 in HI. rewrite Hat in HI.
      destruct o as [hop| |]; cbn [entered_at] in *.
      + apply Forward_enter_ok in HE as (-> & _ & _ & Hsz). change (in_between (c <| cl_at := Entered hop |>)) with 1%nat in HI.
        pose proof (busy_le (<[i := c <| cl_at := Entered hop |>]> cs)) as HC. rewrite length_insert in HC. split; [done|]. split; [done|]. lia.
      + apply Forward_enter_refused in HE as ->; [|done]. split; [done|]. split; [done|].
        change (ro_inFlight (count false r)) with (ro_inFlight r). change (in_between (c <| cl_at := Returned (Err e) |>)) with 0%nat in HI. lia.
      + apply Forward_enter_refused in HE as ->; [|done]. split; [done|]. split; [done|].
        change (ro_inFlight (count false r)) with (ro_inFlight r). change (in_between (c <| cl_at := Returned Panic |>)) with 0%nat in HI. lia.
    - apply Forward_leave_size in HL as [HP HS]. split; [done|]. split; [done|].
      pose proof (busy_insert cs i c (c <| cl_at := Returned o |>) Hi) as HI. unfold in_between at 1 in HI. rewrite Hat in HI.
      change (in_between (c <| cl_at := Returned o |>)) with 0%nat in HI. lia.
    - split; [done|]. split; [done|]. change (ro_inFlight (Resolve r guard)) with (delete guard (ro_inFlight r)).
      pose proof (map_subseteq_size _ _ (delete_subseteq (ro_inFlight r) guard)). lia.
    - split; [done|]. split; [done|]. change (ro_inFlight (ExpireStale r now).1) with (filter (fun '(_, f) => now < if_Expiry f) (ro_inFlight r)).
      pose proof (map_subseteq_size _ _ (map_filter_subseteq (fun '(_, f) => now < if_Expiry f) (ro_inFlight r))). lia. }
  rewrite <- HP, <- HLen. apply (IH Eb r1 cs1 eq_refl); [by rewrite HP|]. rewrite HP, HLen. exact HB1.
Qed.
End Interleaving.

(** ** Witnesses *)

Definition toy_policy : RouterPolicy := mkPolicy (60 * NanoSecond) 5 0 0 false.
Definition toy_router : Router := NewRouter toy_policy.
Definition toy_arrival : Packet := toy_packet <| pk_Expiry := 1200 |>.
Definition toy_now : Z := 500 * NanoSecond.
Definition value_of {A : Type} (d : A) (o : outcome pay_err A) : A := match o with Ok a => a | _ => d end.
Definition toy_result : Router * outcome pay_err (Packet * InFlight) := Forward toy_router (Some toy_arrival) (toy_secret 2) 9 toy_now.
Definition toy_forwarded : Router * (Packet * InFlight) := (toy_result.1, value_of (mkPacket [] [] [] [] 0, mkInFlight [] [] 0) toy_result.2).
Lemma toy_forward : Forward toy_router (Some toy_arrival) (toy_secret 2) 9 toy_now = (toy_forwarded.1, Ok toy_forwarded.2).
Proof. vm_compute. reflexivity. Qed.

Lemma forward_leaves_margin_witness :
  toy_now < if_Expiry toy_forwarded.2.2 /\ if_Expiry toy_forwarded.2.2 + rp_MinTimelockMargin (ro_policy toy_router) <= time_Unix (pk_Expiry toy_arrival).
Proof.
  pose proof toy_forward as H. rewrite (surjective_pairing toy_forwarded.2) in H.
  destruct (forward_leaves_margin toy_router toy_forwarded.1 toy_arrival (toy_secret 2) 9 toy_now toy_forwarded.2.1 toy_forwarded.2.2 H) as (H1 & H2 & _).
  - reflexivity.
  - split; [exact H1|exact H2].
Defined.

Lemma racing_forwards_both_leave_witness : (Forward toy_forwarded.1 (Some toy_arrival) (toy_secret 2) 9 toy_now).2 = Err ErrReplayed.
Proof. exact (proj1 (racing_forwards_both_leave toy_router toy_forwarded.1 toy_arrival (toy_secret 2) 9 toy_now toy_forwarded.2 toy_forward)). Defined.

(** A packet that leaves no margin. *)
Definition toy_tight : Packet := toy_packet <| pk_Expiry := 1100 |>.
Definition toy_tight_hop : HopInstruction := value_of (toy_hop "" 0) (Peel (Some toy_tight) (toy_secret 2)).
Lemma toy_tight_enters : Forward_enter toy_router (Some toy_tight) (toy_secret 2) = (toy_router, Ok toy_tight_hop).
Proof. vm_compute. reflexivity. Qed.
Lemma toy_tight_expiry : hp_OutgoingExpiry toy_tight_hop = 1100.
Proof. vm_compute. reflexivity. Qed.
Lemma expiry_is_the_senders_word_witness :
  (Forward toy_router (Some toy_tight) (toy_secret 2) 9 toy_now).2 = Err ErrExpiryTooTight /\
  exists later r', Forward toy_router (Some (toy_tight <| pk_Expiry := later |>)) (toy_secret 2) 9 toy_now =
    (r', Ok (toy_tight <| pk_Expiry := hp_OutgoingExpiry toy_tight_hop |>, lock_of toy_tight_hop)).
Proof.
  split.
  - unfold Forward. rewrite toy_tight_enters. unfold Forward_leave, check_terms. rewrite toy_tight_expiry. reflexivity.
  - apply (expiry_is_the_senders_word toy_router toy_tight toy_tight_hop (toy_secret 2) 9 toy_now toy_tight_enters); rewrite ?toy_tight_expiry; try lia; reflexivity.
Defined.
