(* ===== verification/ChannelRoute.v ===== *)
(** * Choosing routers and locking hops
    ([internal/channel/route.go], [internal/channel/atomic.go])

    The draw of a route under the diversity constraints, scores in binary64 as the
    code computes them, and the chain of points that makes a route settle backwards.
    The curve is a class. *)
From S2P Require Import Prelude.
From S2P Require Import GoBytes.
From S2P Require Import GoFloat.
From S2P Require Import ChannelNote.
From S2P Require Import ChannelOnion.

(** ** Data *)

Record Candidate : Type := mkCandidate {
  ca_NodeID : string; ca_Operator : string; ca_FaultDomain : string; ca_CapacityBucket : Z; ca_SuccessRate : float64;
  ca_LatencyMS : Z; ca_PrivacyVersion : Z; ca_Jurisdiction : string
}.
Record RouteRequest : Type := mkRouteRequest {
  rq_Hops : Z; rq_MinCapacityBucket : Z; rq_MinSuccessRate : float64; rq_PrivacyVersion : Z; rq_AvoidNodes : gmap string bool;
  rq_RequireDistinctFaultDomains : bool
}.

(** ** Selection *)

Section Selection.
Context `{Hmac : HmacSha256}.

Definition score (c : Candidate) (seed : bytes) : float64 :=
  let s := f64_mul (ca_SuccessRate c) (f64_of_int 100) in
  let s := if 0 <? ca_LatencyMS c then f64_sub s (f64_div (f64_of_int (ca_LatencyMS c)) (f64_of_int 100)) else s in
  let j := derive "rabbiit/route/jitter/v1" [text_bytes (ca_NodeID c); seed] in
  f64_add s (f64_div (f64_of_int (nth 0 j 0)) (f64_of_int 255)).

(** The candidates that are not skipped by the first loop. *)
Definition usable_for (req : RouteRequest) (c : Candidate) : bool :=
  negb (String.eqb (ca_NodeID c) "" || String.eqb (ca_Operator c) "") &&
  negb (default false (rq_AvoidNodes req !! ca_NodeID c)) &&
  negb (ca_CapacityBucket c <? rq_MinCapacityBucket req) &&
  negb (SFltb (ca_SuccessRate c) (rq_MinSuccessRate req)) &&
  negb (negb (rq_PrivacyVersion req =? 0) && negb (ca_PrivacyVersion c =? rq_PrivacyVersion req)).
Definition hops_wanted (req : RouteRequest) : Z := if rq_Hops req <=? 0 then Z.of_nat MaxHops else rq_Hops req.
Definition operators_of (cs : list Candidate) : gset string := list_to_set (ca_Operator <$> cs).

(** The order of [sort.Slice]. *)
Definition string_ltb (a b : string) : bool := bytes_ltb (text_bytes a) (text_bytes b).
Definition ranks_before (seed : bytes) (a b : Candidate) : bool :=
  let sa := score a seed in
  let sb := score b seed in
  if negb (SFeqb sa sb) then SFltb sb sa else string_ltb (ca_NodeID a) (ca_NodeID b).
Definition rank (seed : bytes) (cs : list Candidate) : list Candidate :=
  merge_sort (fun a b => Is_true (negb (ranks_before seed b a))) cs.

(** The greedy pick, [hops] still to be chosen. *)
Definition skipped (req : RouteRequest) (usedOperator usedDomain : gset string) (c : Candidate) : bool :=
  bool_decide (ca_Operator c ∈ usedOperator) ||
  (rq_RequireDistinctFaultDomains req && negb (String.eqb (ca_FaultDomain c) "") && bool_decide (ca_FaultDomain c ∈ usedDomain)).
Fixpoint pick (req : RouteRequest) (usedOperator usedDomain : gset string) (chosen cs : list Candidate) : option (list Candidate) :=
  match cs with
  | [] => None
  | c :: cs =>
      if skipped req usedOperator usedDomain c then pick req usedOperator usedDomain chosen cs
      else
        let chosen := chosen ++ [c] in
        if Z.of_nat (length chosen) =? hops_wanted req then Some chosen
        else pick req ({[ca_Operator c]} ∪ usedOperator)
          (if String.eqb (ca_FaultDomain c) "" then usedDomain else {[ca_FaultDomain c]} ∪ usedDomain) chosen cs
  end.

Definition no_operators : string :=
  "not enough independent operators to build a private route; routing anyway would provide no anonymity".
Definition no_domains : string := "not enough independent fault domains to build a private route under the requested constraints".
Definition SelectRoute (candidates : list Candidate) (req : RouteRequest) (seed : bytes) : outcome pay_err (list Candidate) :=
  let usable := List.filter (usable_for req) candidates in
  let refuse reason := RouteRefusal reason (Z.of_nat (size (operators_of usable))) (hops_wanted req) (Z.of_nat (length candidates)) (Z.of_nat (length usable)) in
  fail? Z.of_nat (size (operators_of usable)) <? hops_wanted req with refuse no_operators ;;
  of_option (refuse no_domains) (pick req ∅ ∅ [] (rank seed usable)).
Definition DiversityOf (candidates : list Candidate) : Z :=
  Z.of_nat (size (operators_of (List.filter (fun c => negb (String.eqb (ca_Operator c) "")) candidates))).
End Selection.

(** ** Locks *)

(** A group with a generator of order [cu_N]; affine coordinates. *)
Class Curve : Type := { cu_N : Z; ScalarBaseMult : bytes -> Z * Z; cu_Add : Z * Z -> Z * Z -> Z * Z }.
Class CurveLaws (C : Curve) : Prop := {
  cu_N_pos : 1 < cu_N;
  base_add : forall a b, 0 <= a < cu_N -> 0 <= b < cu_N ->
    cu_Add (ScalarBaseMult (big_bytes a)) (ScalarBaseMult (big_bytes b)) = ScalarBaseMult (big_bytes ((a + b) mod cu_N));
  base_inj : forall a b, 0 <= a < cu_N -> 0 <= b < cu_N -> ScalarBaseMult (big_bytes a) = ScalarBaseMult (big_bytes b) -> a = b
}.

(** A nil coordinate is [None]. *)
Record Point : Type := mkPoint { pt_X : option Z; pt_Y : option Z }.
Definition point_of (xy : Z * Z) : Point := mkPoint (Some xy.1) (Some xy.2).
Definition Point_Equal (p q : Point) : bool :=
  match p, q with
  | mkPoint (Some x) (Some y), mkPoint (Some x') (Some y') => (x =? x') && (y =? y')
  | _, _ => false
  end.
Record LockChain : Type := mkLockChain { lc_Locks : list Point; lc_blindings : list Z }.

Section Locks.
Context `{C : Curve}.

(** [rand.Int(rand.Reader, n)]: the k-th draw, zero replaced by one. *)
Definition nonzero (z : Z) : Z := if z =? 0 then 1 else z.
Definition NewSecret (draw : nat -> option Z) : outcome pay_err (Z * Point) :=
  let? z := of_option ErrRandom (draw 0%nat) in
  let z := nonzero z in
  Ok (z, point_of (ScalarBaseMult (big_bytes z))).

(** From the exit backwards: [n] hops are left, [k] draws were made. *)
Fixpoint build_locks (n k : nat) (draw : nat -> option Z) (recipient : Z * Z) (accumulated : Z) (chain : LockChain) : outcome pay_err LockChain :=
  match n with
  | O => Ok chain
  | S n =>
      let? b := of_option ErrRandom (draw k) in
      let b := nonzero b in
      let accumulated := (accumulated + b) mod cu_N in
      let lock := point_of (cu_Add recipient (ScalarBaseMult (big_bytes accumulated))) in
      build_locks n (S k) draw recipient accumulated (mkLockChain (lock :: lc_Locks chain) (b :: lc_blindings chain))
  end.
Definition BuildLocks (draw : nat -> option Z) (recipient : Point) (hops : Z) : outcome pay_err LockChain :=
  fail? (hops <=? 0) || (Z.of_nat MaxHops <? hops) with ErrTooManyLocks ;;
  match recipient with
  | mkPoint (Some x) (Some y) => build_locks (Z.to_nat hops) 0 draw (x, y) 0 (mkLockChain [] [])
  | _ => Panic
  end.

Definition BlindingFor (l : LockChain) (hop : Z) : outcome pay_err Z :=
  fail? (hop <? 0) || (Z.of_nat (length (lc_blindings l)) <=? hop) with ErrBadScalar ;;
  Ok (nth (Z.to_nat hop) (lc_blindings l) 0).
Definition Unwind (downstream blinding : Z) : Z := (downstream + blinding) mod cu_N.
Definition Satisfies (lock : Point) (scalar : option Z) : outcome pay_err unit :=
  match scalar with
  | None => Err ErrBadScalar
  | Some s =>
      fail? (s <? 0) || (cu_N <=? s) with ErrBadScalar ;;
      fail? negb (Point_Equal (point_of (ScalarBaseMult (big_bytes s))) lock) with ErrPointMismatch ;;
      Ok tt
  end.
(** The scalars from the last blinding backwards. *)
Fixpoint unwind_all (blindings : list Z) (z : Z) : list Z :=
  match blindings with
  | [] => []
  | b :: bs => let rest := unwind_all bs z in Unwind (match rest with s :: _ => s | [] => z end) b :: rest
  end.
Definition SettleRoute (chain : option LockChain) (z : Z) : outcome pay_err (list Z) :=
  match chain with
  | None => Err ErrTooManyLocks
  | Some chain =>
      fail? (length (lc_Locks chain) =? 0)%nat with ErrTooManyLocks ;;
      if (length (lc_blindings chain) <? length (lc_Locks chain))%nat then Panic
      else Ok (unwind_all (take (length (lc_Locks chain)) (lc_blindings chain)) z)
  end.
End Locks.

(** ** What a drawn route is *)

Section Drawn.
Context `{Hmac : HmacSha256}.

(** The labels of the fault domains that are given. *)
Definition domains_of (cs : list Candidate) : list string := List.filter (fun d => negb (String.eqb d "")) (ca_FaultDomain <$> cs).

Record diverse (req : RouteRequest) (cs : list Candidate) (usedOperator usedDomain : gset string) : Prop := {
  dv_ops : NoDup (ca_Operator <$> cs);
  dv_ops_used : forall o, o ∈ ca_Operator <$> cs -> o ∈ usedOperator;
  dv_doms : rq_RequireDistinctFaultDomains req = true -> NoDup (domains_of cs);
  dv_doms_used : forall d, d ∈ domains_of cs -> d ∈ usedDomain
}.

Lemma domains_of_snoc (cs : list Candidate) (c : Candidate) :
  domains_of (cs ++ [c]) = domains_of cs ++ (if String.eqb (ca_FaultDomain c) "" then [] else [ca_FaultDomain c]).
Proof. unfold domains_of. rewrite fmap_app, List.filter_app. cbn. by destruct (String.eqb (ca_FaultDomain c) ""). Qed.

Lemma diverse_pick (req : RouteRequest) (cs : list Candidate) (ops doms : gset string) (c : Candidate) :
  diverse req cs ops doms -> skipped req ops doms c = false ->
  diverse req (cs ++ [c]) ({[ca_Operator c]} ∪ ops) (if String.eqb (ca_FaultDomain c) "" then doms else {[ca_FaultDomain c]} ∪ doms).
Proof.
  intros [H1 H2 H3 H4] Hs. apply orb_false_iff in Hs as [Ho Hd]. apply bool_decide_eq_false in Ho. split.
  - rewrite fmap_app. apply NoDup_snoc; [done|]. intros H. apply Ho, H2, H.
  - intros o. rewrite fmap_app, elem_of_app. intros [H%H2|H%list_elem_of_singleton]; set_solver.
  - intros Hr. rewrite domains_of_snoc. rewrite Hr in Hd. destruct (String.eqb (ca_FaultDomain c) ""); [by rewrite app_nil_r; apply H3|].
    apply bool_decide_eq_false in Hd. apply NoDup_snoc; [by apply H3|]. intros H. apply Hd, H4, H.
  - intros d. rewrite domains_of_snoc, elem_of_app. destruct (String.eqb (ca_FaultDomain c) ""); intros [H%H4|H]; set_solver.
Qed.

Lemma pick_diverse (req : RouteRequest) (ops doms : gset string) (chosen cs route : list Candidate) :
  diverse req chosen ops doms -> pick req ops doms chosen cs = Some route ->
  exists ops' doms', diverse req route ops' doms' /\ Z.of_nat (length route) = hops_wanted req /\
    (forall c, c ∈ route -> c ∈ chosen \/ c ∈ cs).
Proof.
  revert ops doms chosen. induction cs as [|c cs IH]; intros ops doms chosen HD H; cbn [pick] in H; [discriminate|].
  destruct (skipped req ops doms c) eqn:Hs.
  - apply IH in H as (o & d & H1 & H2 & H3); [|done]. exists o, d. split; [done|]. split; [done|]. intros x [?|?]%H3; [by left|right; by right].
  - pose proof (diverse_pick _ _ _ _ _ HD Hs) as HD'. destruct (Z.eqb_spec (Z.of_nat (length (chosen ++ [c]))) (hops_wanted req)) as [E|E].
    + injection H as <-. eexists _, _. split; [exact HD'|]. split; [done|]. intros x [?| ->%list_elem_of_singleton]%elem_of_app; [by left|right; by left].
    + apply IH in H as (o & d & H1 & H2 & H3); [|done]. exists o, d. split; [done|]. split; [done|].
      intros x [[?| ->%list_elem_of_singleton]%elem_of_app|?]%H3; [by left|right; by left|right; by right].
Qed.

Lemma operators_of_cons (c : Candidate) (cs : list Candidate) : operators_of (c :: cs) = {[ca_Operator c]} ∪ operators_of cs.
Proof. done. Qed.

(** Without the constraint on fault domains the greedy pick never misses. *)
Lemma pick_complete (req : RouteRequest) (ops doms : gset string) (chosen cs : list Candidate) :
  rq_RequireDistinctFaultDomains req = false -> Z.of_nat (length chosen) < hops_wanted req ->
  hops_wanted req <= Z.of_nat (length chosen) + Z.of_nat (size (operators_of cs ∖ ops)) ->
  is_Some (pick req ops doms chosen cs).
Proof.
  intros Hr. revert ops doms chosen. induction cs as [|c cs IH]; intros ops doms chosen Hlt Hle; cbn [pick].
  { change (operators_of []) with (∅ : gset string) in Hle. replace ((∅ : gset string) ∖ ops) with (∅ : gset string) in Hle by set_solver.
    rewrite size_empty in Hle. lia. }
  unfold skipped. rewrite Hr, orb_false_r. rewrite operators_of_cons in Hle. destruct (decide (ca_Operator c ∈ ops)) as [Hin|Hout].
  - rewrite bool_decide_eq_true_2 by done. apply IH; [done|]. by replace (({[ca_Operator c]} ∪ operators_of cs) ∖ ops) with (operators_of cs ∖ ops) in Hle by set_solver.
  - rewrite bool_decide_eq_false_2 by done. destruct (Z.eqb_spec (Z.of_nat (length (chosen ++ [c]))) (hops_wanted req)) as [E|E]; [done|].
    rewrite length_app in E. cbn [length] in *. apply IH; rewrite ?length_app; cbn [length]; [lia|].
    assert (size (({[ca_Operator c]} ∪ operators_of cs) ∖ ops) <= 1 + size (operators_of cs ∖ ({[ca_Operator c]} ∪ ops)))%nat; [|lia].
    etransitivity; [apply (subseteq_size _ ({[ca_Operator c]} ∪ operators_of cs ∖ ({[ca_Operator c]} ∪ ops)))|].
    + intros x. destruct (decide (x = ca_Operator c)); set_solver.
    + rewrite size_union_alt, size_singleton. apply Nat.add_le_mono_l, subseteq_size. set_solver.
Qed.

Lemma rank_perm (seed : bytes) (cs : list Candidate) : rank seed cs ≡ₚ cs.
Proof. apply merge_sort_Permutation. Qed.
Lemma rank_operators (seed : bytes) (cs : list Candidate) : operators_of (rank seed cs) = operators_of cs.
Proof. unfold operators_of. by rewrite rank_perm. Qed.
Lemma hops_wanted_pos (req : RouteRequest) : 0 < hops_wanted req.
Proof. unfold hops_wanted, MaxHops. destruct (Z.leb_spec (rq_Hops req) 0); lia. Qed.

(** A route that is drawn keeps the constraints: as many hops as asked for, no
    operator twice, no fault domain twice where that is required, every hop one of the
    candidates offered and none of those the request excludes. *)
Theorem route_is_diverse (candidates : list Candidate) (req : RouteRequest) (seed : bytes) (route : list Candidate)
    (H : SelectRoute candidates req seed = Ok route) :
  Z.of_nat (length route) = hops_wanted req /\ NoDup (ca_Operator <$> route) /\
  (rq_RequireDistinctFaultDomains req = true -> NoDup (domains_of route)) /\
  (forall c, c ∈ route -> c ∈ candidates /\ usable_for req c = true).
Proof.
  apply guard_err_ok in H as [_ H]. destruct (pick _ _ _ _ _) as [r|] eqn:E; [|discriminate]. injection H as ->.
  apply pick_diverse in E as (ops & doms & [H1 _ H3 _] & HL & Hin); [|by split; try constructor; intros x Hx%elem_of_nil].
  split; [done|]. split; [done|]. split; [done|]. intros c [?%elem_of_nil|Hc]%Hin; [done|]. rewrite rank_perm in Hc.
  apply list_elem_of_In, List.filter_In in Hc as [Hc Hu]. split; [by apply list_elem_of_In|done].
Qed.

(** Without the constraint on fault domains a route is refused exactly when the
    usable candidates have fewer operators than hops, and the refusal says how many
    there are. *)
Theorem refusal_exact (candidates : list Candidate) (req : RouteRequest) (seed : bytes)
    (Hr : rq_RequireDistinctFaultDomains req = false) :
  let usable := List.filter (usable_for req) candidates in
  let found := Z.of_nat (size (operators_of usable)) in
  if found <? hops_wanted req
  then SelectRoute candidates req seed = Err (RouteRefusal no_operators found (hops_wanted req) (Z.of_nat (length candidates)) (Z.of_nat (length usable)))
  else exists route, SelectRoute candidates req seed = Ok route.
Proof.
  intros usable found. unfold SelectRoute. fold usable. fold found. destruct (Z.ltb_spec found (hops_wanted req)) as [Hlt|Hge]; [done|]. cbn [guard_err].
  destruct (pick_complete req ∅ ∅ [] (rank seed usable) Hr) as [route ->].
  - pose proof (hops_wanted_pos req). cbn. lia.
  - rewrite rank_operators, difference_empty_L. cbn [length]. fold found. lia.
  - by exists route.
Qed.

(** Operators are what a router says of itself, and a router may be offered under
    several: when one node supplies all the usable candidates, under as many operator
    names as there are hops, the route drawn is that node at every hop.  The node id,
    which alone is not a claim, is never compared. *)
Theorem one_node_every_hop (candidates : list Candidate) (req : RouteRequest) (seed : bytes) (node : string)
    (Hr : rq_RequireDistinctFaultDomains req = false)
    (Hone : forall c, c ∈ candidates -> usable_for req c = true -> ca_NodeID c = node)
    (Hnames : hops_wanted req <= Z.of_nat (size (operators_of (List.filter (usable_for req) candidates)))) :
  exists route, SelectRoute candidates req seed = Ok route /\ Z.of_nat (length route) = hops_wanted req /\ Forall (fun c => ca_NodeID c = node) route.
Proof.
  destruct (pick_complete req ∅ ∅ [] (rank seed (List.filter (usable_for req) candidates)) Hr) as [route E].
  - pose proof (hops_wanted_pos req). cbn. lia.
  - rewrite rank_operators, difference_empty_L. cbn [length]. lia.
  - exists route. unfold SelectRoute. rewrite (proj2 (Z.ltb_ge _ _)) by lia. rewrite E. split; [done|].
    apply pick_diverse in E as (_ & _ & _ & HL & Hin); [|by split; try constructor; intros x Hx%elem_of_nil]. split; [done|].
    apply Forall_forall. intros c [?%elem_of_nil|Hc]%Hin; [done|]. rewrite rank_perm in Hc.
    apply list_elem_of_In, List.filter_In in Hc as [Hc Hu]. apply Hone; [by apply list_elem_of_In|done].
Qed.
End Drawn.

(** ** What a chain of locks is *)

Lemma mod_shift_ne (n x b : Z) : 0 < b < n -> (x + b) mod n <> x mod n.
Proof.
  intros Hb E. pose proof (Z.div_mod (x + b) n ltac:(lia)) as D1. pose proof (Z.div_mod x n ltac:(lia)) as D2. rewrite E in D1.
  clear E. revert D1 D2. generalize ((x + b) / n), (x / n), (x mod n). intros q1 q2 m D1 D2.
  set (p := n * q1) in *. set (r := n * q2) in *. assert (b = p - r) by lia. subst p r.
  assert (q1 = q2 \/ q1 < q2 \/ q2 < q1) as [-> | [?|?]] by lia; nia.
Qed.

Section Chains.
Context `{C : Curve} {CL : CurveLaws C}.

(** The blindings from a hop to the exit, added up. *)
Fixpoint tail_sum (bs : list Z) (acc : Z) : Z :=
  match bs with
  | [] => acc
  | b :: bs => (tail_sum bs acc + b) mod cu_N
  end.
Definition hop_lock (recipient : Z * Z) (sum : Z) : Point := point_of (cu_Add recipient (ScalarBaseMult (big_bytes sum))).
Fixpoint locks_for (recipient : Z * Z) (bs : list Z) (acc : Z) : list Point :=
  match bs with
  | [] => []
  | b :: rest => hop_lock recipient (tail_sum bs acc) :: locks_for recipient rest acc
  end.

Definition draws_below (draw : nat -> option Z) : Prop := forall k b, draw k = Some b -> 0 <= b < cu_N.
Lemma nonzero_range (b : Z) : 0 <= b < cu_N -> 0 < nonzero b < cu_N.
Proof. pose proof cu_N_pos. unfold nonzero. destruct (Z.eqb_spec b 0); lia. Qed.

Lemma tail_sum_snoc (bs : list Z) (b acc : Z) : tail_sum (bs ++ [b]) acc = tail_sum bs ((acc + b) mod cu_N).
Proof. induction bs as [|x bs IH]; cbn [app tail_sum]; [done|]. by rewrite IH. Qed.
Lemma locks_for_snoc (r : Z * Z) (bs : list Z) (b acc : Z) :
  locks_for r (bs ++ [b]) acc = locks_for r bs ((acc + b) mod cu_N) ++ [hop_lock r ((acc + b) mod cu_N)].
Proof. induction bs as [|x bs IH]; cbn [app locks_for]; [done|]. rewrite IH. cbn [tail_sum]. by rewrite tail_sum_snoc. Qed.
Lemma tail_sum_range (bs : list Z) (acc : Z) : 0 <= acc < cu_N -> 0 <= tail_sum bs acc < cu_N.
Proof. pose proof cu_N_pos. intros. destruct bs; cbn [tail_sum]; [done|]. apply Z.mod_pos_bound. lia. Qed.
Lemma length_locks_for (r : Z * Z) (bs : list Z) (acc : Z) : length (locks_for r bs acc) = length bs.
Proof. induction bs; cbn; auto. Qed.

Lemma build_locks_spec (n k : nat) (draw : nat -> option Z) (r : Z * Z) (acc : Z) (chain chain' : LockChain) :
  draws_below draw -> build_locks n k draw r acc chain = Ok chain' ->
  exists bs, length bs = n /\ Forall (fun b => 0 < b < cu_N) bs /\
    chain' = mkLockChain (locks_for r bs acc ++ lc_Locks chain) (bs ++ lc_blindings chain).
Proof.
  intros Hd. revert k acc chain. induction n as [|n IH]; intros k acc chain H; cbn [build_locks] in H.
  - apply Ok_inj in H as <-. exists []. split; [done|]. split; [done|]. by destruct chain.
  - apply obind_ok in H as (b & Hb & H). destruct (draw k) as [b'|] eqn:E; [|discriminate]. apply Ok_inj in Hb as ->. apply Hd, nonzero_range in E.
    apply IH in H as (bs & HL & HF & ->). exists (bs ++ [nonzero b]). rewrite length_app. cbn [lc_Locks lc_blindings length]. split; [lia|].
    split; [apply Forall_app; split; [done|by constructor]|]. rewrite locks_for_snoc, <- !app_assoc. done.
Qed.

(** The scalar hop [i] ends with. *)
Lemma unwind_head (bs : list Z) (z : Z) : 0 <= z < cu_N ->
  match unwind_all bs z with s :: _ => s | [] => z end = (z + tail_sum bs 0) mod cu_N.
Proof.
  intros Hz. induction bs as [|b bs IH]; cbn [unwind_all tail_sum].
  - rewrite Z.add_0_r. symmetry. by apply Z.mod_small.
  - unfold Unwind. rewrite IH, Zplus_mod_idemp_l, Zplus_mod_idemp_r. f_equal. lia.
Qed.

Lemma length_unwind_all (bs : list Z) (z : Z) : length (unwind_all bs z) = length bs.
Proof. induction bs; cbn; auto. Qed.

Lemma Point_Equal_iff (a b : Z * Z) : Point_Equal (point_of a) (point_of b) = true <-> a = b.
Proof. destruct a as [x y], b as [x' y']. cbn. rewrite andb_true_iff, !Z.eqb_eq. split; [by intros [-> ->]|by intros [= -> ->]]. Qed.

Lemma Satisfies_base (x : Z) (s : Z) : 0 <= x < cu_N ->
  Satisfies (point_of (ScalarBaseMult (big_bytes x))) (Some s) = Ok tt <-> s = x.
Proof.
  intros Hx. unfold Satisfies. rewrite !guard_err_ok, orb_false_iff, negb_false_iff, Z.ltb_ge, Z.leb_gt, Point_Equal_iff. split.
  - intros ((H1 & H2) & H & _). apply base_inj in H; [done|lia|done].
  - intros ->. done.
Qed.

(** The locks of a route open one after another and each by one scalar only:
    from the secret of the recipient the unwinding computes, hop by hop, scalars
    that satisfy the locks, and no other scalar satisfies any of them. *)
Theorem locks_unwind (draw : nat -> option Z) (z hops : Z) (chain : LockChain) (Hz : 0 <= z < cu_N) (Hd : draws_below draw)
    (Hbuild : BuildLocks draw (point_of (ScalarBaseMult (big_bytes z))) hops = Ok chain) :
  exists scalars, SettleRoute (Some chain) z = Ok scalars /\ Z.of_nat (length scalars) = hops /\
    Forall2 (fun lock s => forall t, Satisfies lock (Some t) = Ok tt <-> t = s) (lc_Locks chain) scalars.
Proof.
  apply guard_err_ok in Hbuild as [Hh Hbuild]. apply orb_false_iff in Hh as [H H0]. zbool. cbn [point_of] in Hbuild.
  rewrite <- surjective_pairing in Hbuild.
  apply build_locks_spec in Hbuild as (bs & HL & HF & ->); [|done]. cbn [lc_Locks lc_blindings]. rewrite !app_nil_r.
  unfold SettleRoute. cbn [lc_Locks lc_blindings]. rewrite length_locks_for, (proj2 (Nat.eqb_neq _ _)), (proj2 (Nat.ltb_ge _ _)) by lia. cbn [guard_err].
  rewrite take_ge by lia. exists (unwind_all bs z). split; [done|]. split; [rewrite length_unwind_all; lia|].
  clear HL H H0. induction HF as [|b bs Hb HF IH]; cbn [unwind_all locks_for]; constructor; [|done].
    intros t. pose proof cu_N_pos.
    assert (0 <= tail_sum (b :: bs) 0 < cu_N) by (apply tail_sum_range; lia).
    unfold hop_lock. rewrite base_add, Satisfies_base by (done || (apply Z.mod_pos_bound; lia)).
    pose proof (unwind_head (b :: bs) z Hz) as HU. cbn [unwind_all] in HU. by rewrite HU.
Qed.

(** Neighbours never hold the same value: the locks of a hop and of the next one
    are different points. *)
Theorem neighbours_never_share (draw : nat -> option Z) (z hops : Z) (chain : LockChain) (i : nat) (l l' : Point)
    (Hz : 0 <= z < cu_N) (Hd : draws_below draw) (Hbuild : BuildLocks draw (point_of (ScalarBaseMult (big_bytes z))) hops = Ok chain)
    (Hi : lc_Locks chain !! i = Some l) (Hi' : lc_Locks chain !! S i = Some l') : l <> l'.
Proof.
  apply guard_err_ok in Hbuild as [_ Hbuild]. cbn [point_of] in Hbuild. rewrite <- surjective_pairing in Hbuild.
  apply build_locks_spec in Hbuild as (bs & _ & HF & ->); [|done]. cbn [lc_Locks] in *. rewrite app_nil_r in *.
  pose proof cu_N_pos. revert bs HF Hi Hi'. induction i as [|i IH]; intros [|b [|b' bs]] HF Hi Hi'; try discriminate.
  - cbn [locks_for lookup list_lookup] in Hi, Hi'. injection Hi as <-. injection Hi' as <-. unfold hop_lock.
    set (t := tail_sum (b' :: bs) 0). change (tail_sum (b :: b' :: bs) 0) with ((t + b) mod cu_N).
    assert (0 <= t < cu_N) as Ht by (apply tail_sum_range; lia). rewrite !base_add by (done || (apply Z.mod_pos_bound; lia)).
    intros E. assert (point_of (ScalarBaseMult (big_bytes ((z + (t + b) mod cu_N) mod cu_N))) = point_of (ScalarBaseMult (big_bytes ((z + t) mod cu_N)))) as E' by exact E.
    apply (f_equal (fun p => Point_Equal p (point_of (ScalarBaseMult (big_bytes ((z + t) mod cu_N)))))) in E'.
    rewrite (proj2 (Point_Equal_iff (ScalarBaseMult (big_bytes ((z + t) mod cu_N))) _) eq_refl) in E'. apply Point_Equal_iff, base_inj in E'; [|apply Z.mod_pos_bound; lia..].
    rewrite Zplus_mod_idemp_r in E'. apply Forall_cons in HF as [Hb _].
    rewrite Z.add_assoc in E'. by eapply mod_shift_ne.
  - apply Forall_cons in HF as [_ HF]. eapply (IH (b' :: bs)); done.
Qed.
End Chains.

(** ** Witnesses *)

(** The additive group of the integers modulo a prime. *)
#[export] Instance toy_curve : Curve := {|
  cu_N := 7919; ScalarBaseMult k := (be_decode k mod 7919, 1); cu_Add p q := ((p.1 + q.1) mod 7919, 1) |}.
#[export] Instance toy_curve_laws : CurveLaws toy_curve.
Proof.
  split; unfold toy_curve; cbn [cu_N ScalarBaseMult cu_Add fst].
  - lia.
  - intros a b Ha Hb. rewrite !be_decode_big_bytes. pose proof (Z.mod_pos_bound (a + b) 7919 ltac:(lia)).
    rewrite !Z.abs_eq by lia. by rewrite <- Zplus_mod, Zmod_mod.
  - intros a b Ha Hb. rewrite !be_decode_big_bytes, !Z.abs_eq by lia. rewrite !Z.mod_small by lia. congruence.
Qed.

Definition toy_draw (k : nat) : option Z := Some (Z.of_nat (100 * k + 17)%nat mod 7919).
Lemma toy_draws_below : draws_below toy_draw.
Proof. intros k b [= <-]. apply Z.mod_pos_bound. reflexivity. Qed.
Definition toy_chain : LockChain :=
  match BuildLocks toy_draw (point_of (ScalarBaseMult (big_bytes 4321))) 3 with Ok c => c | _ => mkLockChain [] [] end.
Lemma toy_chain_built : BuildLocks toy_draw (point_of (ScalarBaseMult (big_bytes 4321))) 3 = Ok toy_chain.
Proof. vm_compute. reflexivity. Qed.

Lemma locks_unwind_witness : exists scalars, SettleRoute (Some toy_chain) 4321 = Ok scalars /\ length scalars = 3%nat.
Proof.
  destruct (locks_unwind toy_draw 4321 3 toy_chain) as (scalars & H1 & H2 & _); [split; vm_compute; congruence|exact toy_draws_below|exact toy_chain_built|].
  exists scalars. split; [exact H1|lia].
Defined.
Lemma neighbours_never_share_witness : lc_Locks toy_chain !! 0%nat <> lc_Locks toy_chain !! 1%nat.
Proof.
  destruct (lc_Locks toy_chain !! 0%nat) as [l|] eqn:E0; [|discriminate]. destruct (lc_Locks toy_chain !! 1%nat) as [l'|] eqn:E1; [|discriminate].
  intros [= ->]. apply (neighbours_never_share toy_draw 4321 3 toy_chain 0 l' l'); [split; vm_compute; congruence|exact toy_draws_below|exact toy_chain_built|exact E0|exact E1|reflexivity].
Defined.

Definition tenth (n : Z) : float64 := f64_div (f64_of_int n) (f64_of_int 10).
Definition toy_candidate (node operator domain : string) (rate : Z) : Candidate :=
  mkCandidate node operator domain 3 (tenth rate) 40 1 "".
Definition toy_route_request (distinctDomains : bool) (hops : Z) : RouteRequest := mkRouteRequest hops 1 (tenth 5) 1 ∅ distinctDomains.
Definition toy_candidates : list Candidate :=
  [toy_candidate "n1" "o1" "d1" 9; toy_candidate "n2" "o2" "d2" 8; toy_candidate "n3" "o3" "d3" 7; toy_candidate "n4" "o1" "d4" 6].
Definition toy_route : list Candidate :=
  match SelectRoute toy_candidates (toy_route_request true 3) (zeros 32) with Ok r => r | _ => [] end.
Lemma toy_route_selected : SelectRoute toy_candidates (toy_route_request true 3) (zeros 32) = Ok toy_route.
Proof. vm_compute. reflexivity. Qed.
Lemma route_is_diverse_witness : Z.of_nat (length toy_route) = 3 /\ NoDup (ca_Operator <$> toy_route).
Proof.
  destruct (route_is_diverse toy_candidates (toy_route_request true 3) (zeros 32) toy_route toy_route_selected) as (H1 & H2 & _).
  split; [exact H1|exact H2].
Defined.

Lemma refusal_exact_witness : exists route, SelectRoute toy_candidates (toy_route_request false 3) (zeros 32) = Ok route.
Proof. exact (refusal_exact toy_candidates (toy_route_request false 3) (zeros 32) eq_refl). Defined.

Definition toy_sybil : list Candidate :=
  [toy_candidate "n1" "o1" "" 9; toy_candidate "n1" "o2" "" 8; toy_candidate "n1" "o3" "" 7].
Lemma one_node_every_hop_witness : exists route, SelectRoute toy_sybil (toy_route_request false 3) (zeros 32) = Ok route /\
  Z.of_nat (length route) = 3 /\ Forall (fun c => ca_NodeID c = "n1"%string) route.
Proof.
  apply (one_node_every_hop toy_sybil (toy_route_request false 3) (zeros 32) "n1"); [reflexivity| |vm_compute; congruence].
  intros c Hc _. repeat (apply elem_of_cons in Hc as [-> | Hc]; [reflexivity|]). by apply elem_of_nil in Hc.
Defined.

(** The greedy pick is not a search: with distinct fault domains asked for, a route
    can be refused although one exists.  The best candidate takes an operator and a
    domain that two others could have used between them. *)
Example greedy_refuses_a_possible_route :
  let a := toy_candidate "n1" "o1" "d1" 9 in
  let b := toy_candidate "n2" "o2" "d1" 8 in
  let c := toy_candidate "n3" "o1" "d2" 7 in
  SelectRoute [a; b; c] (toy_route_request true 2) (zeros 32) = Err (RouteRefusal no_domains 2 2 3 3) /\
  SelectRoute [b; c] (toy_route_request true 2) (zeros 32) = Ok [b; c].
Proof. vm_compute. split; reflexivity. Qed.
