(* ===== verification/ChannelPlan.v ===== *)
(** * Planning a private payment ([internal/channel/payment.go])

    The invoice, the route, the locks and the onion composed, and what becomes of the
    result at the routers of the route. *)
From S2P Require Import Prelude.
From S2P Require Import GoBytes.
From S2P Require Import RecordUpdate.
From S2P Require Import ChannelNote.
From S2P Require Import ChannelOnion.
From S2P Require Import ChannelRouter.
From S2P Require Import ChannelRoute.
From Stdlib Require Import Ascii.

Record PlanRequest : Type := mkPlanRequest {
  pq_Invoice : option BlindedInvoice; pq_Amount : Z; pq_Candidates : list Candidate; pq_Routing : RouteRequest;
  pq_Curve : option Curve; pq_Seed : bytes; pq_Now : option Z
}.
Record Plan : Type := mkPlan {
  pl_Amount : Z; pl_Route : list Candidate; pl_Locks : LockChain; pl_Packet : Packet; pl_Secret : bytes; pl_Invoice : BlindedInvoice
}.
Definition no_curve : string := "channel: no curve supplied - the settlement chain's curve is required".

Section Planning.
Context `{Hmac : HmacSha256} `{G : Gcm} `{J : HopJson}.

Definition HopSharedSecret (seed ephemeral : bytes) (node : string) : bytes :=
  derive "rabbiit/payment/hopsecret/v2" [seed; ephemeral; text_bytes node].

(** The instruction of hop [i]; [next] is the router after it.  A nil coordinate
    would panic. *)
Definition hop_commitment (lock : Point) : outcome pay_err bytes :=
  match lock with
  | mkPoint (Some x) (Some y) => Ok (derive "rabbiit/payment/hopcommit/v1" [big_bytes x; big_bytes y])
  | _ => Panic
  end.
Definition plan_hop (base : Z) (endpoint : bytes) (i : nat) (commitment : bytes) (next : option Candidate) : HopInstruction :=
  mkHop (match next with Some c => ca_NodeID c | None => "" end)
    (match next with Some _ => "" | None => hex_encode endpoint end)
    commitment (zeros 32) (wrap_u64 (base - Z.of_nat i * 60)) (zeros 32).
(** [hops], route and locks in step. *)
Fixpoint plan_hops (base : Z) (endpoint : bytes) (i : nat) (route : list Candidate) (locks : list Point) : outcome pay_err (list HopInstruction) :=
  match route, locks with
  | [], _ => Ok []
  | _ :: rest, lock :: locks =>
      let? commitment := hop_commitment lock in
      let? hops := plan_hops base endpoint (S i) rest locks in
      Ok (plan_hop base endpoint i commitment (head rest) :: hops)
  | _, [] => Panic
  end.

Definition plan_ephemeral (seed : bytes) (z : Z) : bytes := derive "rabbiit/payment/ephemeral/v1" [seed; big_bytes z].
(** [clock] is read when the request carries no time; [draw] are the scalars read
    from the source of randomness, the secret first; [rng] its reads in [Build]. *)
Definition PlanPayment (clock : Z) (draw : nat -> option Z) (rng : Rand) (req : PlanRequest) : outcome pay_err Plan :=
  match pq_Curve req, pq_Invoice req with
  | None, _ => Err (ErrPay no_curve)
  | _, None => Err ErrInvoiceMalformed
  | Some curve, Some invoice =>
      let now := default clock (pq_Now req) in
      let? _ := invoice_Validate (Some invoice) now in
      let? _ := AcceptsAmount invoice (pq_Amount req) in
      let? route := SelectRoute (pq_Candidates req) (pq_Routing req) (pq_Seed req) in
      let? secret := NewSecret draw in
      let? locks := BuildLocks (fun k => draw (S k)) secret.2 (Z.of_nat (length route)) in
      let base := wrap_u64 (unix (now + 10 * minute)) in
      let? hops := plan_hops base (iv_BlindedEndpoint invoice) 0 route (lc_Locks locks) in
      let ephemeral := plan_ephemeral (pq_Seed req) secret.1 in
      let secrets := map (fun c => HopSharedSecret (pq_Seed req) ephemeral (ca_NodeID c)) route in
      let? packet := Build rng ephemeral hops secrets in
      Ok (mkPlan (pq_Amount req) route locks (packet <| pk_Expiry := base |>) (big_bytes secret.1) invoice)
  end.

Definition Plan_Hops (p : option Plan) : nat := match p with None => 0 | Some p => length (pl_Route p) end.
(** In the order of the route, each once. *)
Fixpoint distinct_operators (seen : gset string) (route : list Candidate) : list string :=
  match route with
  | [] => []
  | c :: route =>
      if negb (String.eqb (ca_Operator c) "") && negb (bool_decide (ca_Operator c ∈ seen))
      then ca_Operator c :: distinct_operators ({[ca_Operator c]} ∪ seen) route
      else distinct_operators seen route
  end.
Definition Operators (p : Plan) : list string := distinct_operators ∅ (pl_Route p).
End Planning.

(** ** What is planned *)

Section Planned.
Context `{Hmac : HmacSha256} {HL : HmacLaws Hmac} `{G : Gcm} {GL : GcmLaws G} `{J : HopJson} {JL : HopJsonLaws J}.

Lemma plan_hops_spec (base : Z) (endpoint : bytes) (i : nat) (route : list Candidate) (locks : list Point) (hops : list HopInstruction) :
  plan_hops base endpoint i route locks = Ok hops -> length hops = length route /\
  forall k c, route !! k = Some c -> exists lock commitment, locks !! k = Some lock /\ hop_commitment lock = Ok commitment /\
    hops !! k = Some (plan_hop base endpoint (i + k) commitment (route !! S k)).
Proof.
  revert i locks hops. induction route as [|c route IH]; intros i locks hops H; cbn [plan_hops] in H.
  { apply Ok_inj in H as <-. split; [done|]. intros k c Hk. by rewrite lookup_nil in Hk. }
  destruct locks as [|lock locks]; [discriminate|]. apply obind_ok in H as (cm & Hcm & H). apply obind_ok in H as (hs & Hhs & H).
  apply Ok_inj in H as <-. apply IH in Hhs as [HLn HS]. split; [cbn; lia|]. intros [|k] c' Hk; cbn in Hk.
  - exists lock, cm. split; [done|]. split; [done|]. rewrite Nat.add_0_r. cbn [lookup list_lookup]. by destruct route.
  - destruct (HS k c' Hk) as (l & m & H1 & H2 & H3). exists l, m. split; [done|]. split; [done|].
    rewrite Nat.add_succ_r. exact H3.
Qed.

Lemma plain_text_hex (l : bytes) : bytes_ok l -> plain_text (hex_encode l) = true.
Proof.
  induction 1 as [|b l Hb Hl IH]; [done|]. unfold byte_ok in Hb.
  assert (forall n, 0 <= n < 16 -> plain_byte (Z.of_N (N_of_ascii (hex_digit n))) = true) as HD by (intros n Hn; each_below n).
  change (plain_byte (Z.of_N (N_of_ascii (hex_digit (b / 16)))) && (plain_byte (Z.of_N (N_of_ascii (hex_digit (b mod 16)))) && plain_text (hex_encode l)) = true).
  rewrite IH, !HD; [done|apply Z.mod_pos_bound; lia|]. split; [apply Z.div_pos; lia|apply Z.div_lt_upper_bound; lia].
Qed.

Lemma plan_hop_ok (base : Z) (endpoint cm : bytes) (lock : Point) (i : nat) (next : option Candidate) :
  hop_commitment lock = Ok cm -> bytes_ok endpoint -> (forall c, next = Some c -> plain_text (ca_NodeID c) = true) ->
  hop_typed (plan_hop base endpoint i cm next) /\ hop_plain (plan_hop base endpoint i cm next) = true.
Proof.
  intros Hc He Hn. split.
  - split; try apply zeros_ok; [|by apply wrap_u_range]. unfold hop_commitment in Hc. repeat case_match; try discriminate.
    apply Ok_inj in Hc as <-. apply derive_array.
  - unfold hop_plain, plan_hop. cbn [hp_NextHop hp_BlindedEndpoint]. destruct next as [c|]; [by rewrite Hn|]. by rewrite plain_text_hex.
Qed.

Definition request_time (clock : Z) (req : PlanRequest) : Z := default clock (pq_Now req).
Definition plan_base (clock : Z) (req : PlanRequest) : Z := wrap_u64 (unix (request_time clock req + 10 * minute)).
(** The secret of hop [c] of a plan. *)
Definition hop_secret (req : PlanRequest) (p : Plan) (c : Candidate) : bytes :=
  HopSharedSecret (pq_Seed req) (pk_EphemeralPublicKey (pl_Packet p)) (ca_NodeID c).
Lemma PlanPayment_inv (clock : Z) (draw : nat -> option Z) (rng : Rand) (req : PlanRequest) (p : Plan) :
  PlanPayment clock draw rng req = Ok p ->
  exists curve invoice secret hops packet, pq_Curve req = Some curve /\ pq_Invoice req = Some invoice /\
    invoice_Validate (Some invoice) (request_time clock req) = Ok tt /\ AcceptsAmount invoice (pq_Amount req) = Ok tt /\
    SelectRoute (pq_Candidates req) (pq_Routing req) (pq_Seed req) = Ok (pl_Route p) /\
    NewSecret draw = Ok secret /\ BuildLocks (fun k => draw (S k)) secret.2 (Z.of_nat (length (pl_Route p))) = Ok (pl_Locks p) /\
    plan_hops (plan_base clock req) (iv_BlindedEndpoint invoice) 0 (pl_Route p) (lc_Locks (pl_Locks p)) = Ok hops /\
    Build rng (plan_ephemeral (pq_Seed req) secret.1) hops
      (map (fun c => HopSharedSecret (pq_Seed req) (plan_ephemeral (pq_Seed req) secret.1) (ca_NodeID c)) (pl_Route p)) = Ok packet /\
    pl_Packet p = packet <| pk_Expiry := plan_base clock req |> /\ pl_Secret p = big_bytes secret.1 /\ pl_Amount p = pq_Amount req /\
    pl_Invoice p = invoice.
Proof.
  unfold PlanPayment. intros H. destruct (pq_Curve req) as [curve|] eqn:Ec; [|discriminate]. destruct (pq_Invoice req) as [invoice|] eqn:Ei; [|discriminate].
  apply obind_ok in H as ([] & H1 & H). apply obind_ok in H as ([] & H2 & H). apply obind_ok in H as (route & H3 & H).
  apply obind_ok in H as (secret & H4 & H). apply obind_ok in H as (locks & H5 & H). apply obind_ok in H as (hops & H6 & H).
  apply obind_ok in H as (packet & H7 & H). apply Ok_inj in H as <-. exists curve, invoice, secret, hops, packet. done.
Qed.
(** What the router at place [i] finds. *)
Lemma plan_instruction (clock : Z) (draw : nat -> option Z) (rng : Rand) (req : PlanRequest) (p : Plan) (i : nat) (c : Candidate) :
  rand_sized rng -> PlanPayment clock draw rng req = Ok p -> bytes_ok (iv_BlindedEndpoint (pl_Invoice p)) ->
  Forall (fun c => plain_text (ca_NodeID c) = true) (pl_Route p) -> pl_Route p !! i = Some c ->
  exists lock cm, lc_Locks (pl_Locks p) !! i = Some lock /\ hop_commitment lock = Ok cm /\
    (Peel (Some (pl_Packet p)) (hop_secret req p c) =
       Ok (guarded (pk_EphemeralPublicKey (pl_Packet p)) (hop_secret req p c)
         (plan_hop (plan_base clock req) (iv_BlindedEndpoint (pl_Invoice p)) i cm (pl_Route p !! S i))) \/
     slot_ambiguous (pl_Packet p) (hop_secret req p c)).
Proof.
  intros Hr H He Hn Hc. apply PlanPayment_inv in H as (curve & inv & secret & hops & pkt & _ & _ & _ & _ & _ & _ & _ & Hhops & Hb & Hpkt & _ & _ & Hi).
  apply plan_hops_spec in Hhops as [_ Hhops]. destruct (Hhops i c Hc) as (lock & cm & Hl & Hcm & Hhop). exists lock, cm.
  split; [done|]. split; [done|]. pose proof (Build_spec _ _ _ _ _ Hb) as (Heph & _). apply (f_equal pk_EphemeralPublicKey) in Heph. cbn in Heph.
  assert (pk_EphemeralPublicKey (pl_Packet p) = plan_ephemeral (pq_Seed req) secret.1) as Ee by (by rewrite Hpkt).
  unfold hop_secret. rewrite Ee, Hi in *.
  destruct (plan_hop_ok (plan_base clock req) (iv_BlindedEndpoint inv) cm lock i (pl_Route p !! S i) Hcm He) as [Ht Hp].
  { intros c' Hc'. rewrite Forall_forall in Hn. apply Hn. by eapply list_elem_of_lookup_2. }
  assert (map (fun c => HopSharedSecret (pq_Seed req) (plan_ephemeral (pq_Seed req) secret.1) (ca_NodeID c)) (pl_Route p) !! i =
    Some (HopSharedSecret (pq_Seed req) (plan_ephemeral (pq_Seed req) secret.1) (ca_NodeID c))) as Hs by (by rewrite list_lookup_fmap, Hc).
  destruct (onion_delivers rng _ hops _ pkt i _ _ Hr Hb Hhop Hs Ht Hp) as [HP|HA]; [left|right].
  - by rewrite Hpkt.
  - by rewrite Hpkt.
Qed.

(** C27. A planned payment over plain-text node ids (printable ASCII that needs no JSON escape)
    reaches where it should: every router of the route peels, with its secret, an instruction that
    names the router after it - the last one the blinded endpoint - commits to the lock at its
    place, and expires a minute before the one upstream; unless two slots happen to authenticate
    under its key. *)
Theorem plan_delivers (clock : Z) (draw : nat -> option Z) (rng : Rand) (req : PlanRequest) (p : Plan) (i : nat) (c : Candidate)
    (Hrng : rand_sized rng) (Hplan : PlanPayment clock draw rng req = Ok p) (He : bytes_ok (iv_BlindedEndpoint (pl_Invoice p)))
    (Hn : Forall (fun c => plain_text (ca_NodeID c) = true) (pl_Route p)) (Hc : pl_Route p !! i = Some c) :
  slot_ambiguous (pl_Packet p) (hop_secret req p c) \/
  exists hop x y, Peel (Some (pl_Packet p)) (hop_secret req p c) = Ok hop /\
    lc_Locks (pl_Locks p) !! i = Some (mkPoint (Some x) (Some y)) /\
    hp_OutgoingCommitment hop = derive "rabbiit/payment/hopcommit/v1" [big_bytes x; big_bytes y] /\
    hp_OutgoingExpiry hop = wrap_u64 (plan_base clock req - Z.of_nat i * 60) /\
    match pl_Route p !! S i with
    | Some next => hp_NextHop hop = ca_NodeID next /\ hp_BlindedEndpoint hop = ""%string
    | None => hp_NextHop hop = ""%string /\ hex_decode (hp_BlindedEndpoint hop) = Some (iv_BlindedEndpoint (pl_Invoice p))
    end.
Proof.
  destruct (plan_instruction clock draw rng req p i c Hrng Hplan He Hn Hc) as ([[x|] [y|]] & cm & Hl & Hcm & [HP|HA]); try discriminate; [right|by left].
  apply Ok_inj in Hcm as <-. eexists _, x, y. split; [exact HP|]. split; [done|]. split; [done|]. split; [done|].
  destruct (pl_Route p !! S i) as [next|]; [done|]. split; [done|]. by apply hex_decode_encode.
Qed.

(** C25. No planned payment gets past its first router. The packet's deadline and the deadline of
    the first router's own lock are the same instant, so the margin left is nothing and a router
    made by [NewRouter] always demands some: whatever its policy, its state, its liquidity and the
    time it refuses, with [ErrExpiryTooTight] when it gets to the margin check and, when an earlier
    check stops the packet first, with [ErrReplayed], [ErrTooManyInFlight] or [ErrExpiredHop]. For
    routes of plain-text node ids (printable ASCII that needs no JSON escape) and an endpoint of
    bytes, unless two slots of the packet happen to authenticate under one hop secret. *)
Theorem planned_payment_refused (clock : Z) (draw : nat -> option Z) (rng : Rand) (req : PlanRequest) (p : Plan) (c : Candidate)
    (policy : RouterPolicy) (r : Router) (avail now : Z)
    (Hrng : rand_sized rng) (Hplan : PlanPayment clock draw rng req = Ok p) (He : bytes_ok (iv_BlindedEndpoint (pl_Invoice p)))
    (Hn : Forall (fun c => plain_text (ca_NodeID c) = true) (pl_Route p)) (Hc : pl_Route p !! 0%nat = Some c)
    (Hpolicy : ro_policy r = ro_policy (NewRouter policy)) :
  slot_ambiguous (pl_Packet p) (hop_secret req p c) \/
  exists e, (Forward r (Some (pl_Packet p)) (hop_secret req p c) avail now).2 = Err e /\
    (e = ErrReplayed \/ e = ErrTooManyInFlight \/ e = ErrExpiredHop \/ e = ErrExpiryTooTight).
Proof.
  destruct (plan_instruction clock draw rng req p 0 c Hrng Hplan He Hn Hc) as (lock & cm & _ & _ & [HP|HA]); [right|by left].
  set (hop := guarded _ _ _) in HP. assert (hp_OutgoingExpiry hop = pk_Expiry (pl_Packet p)) as Hx.
  { apply PlanPayment_inv in Hplan as (curve & inv & secret & hops & pkt & _ & _ & _ & _ & _ & _ & _ & _ & _ & -> & _).
    change (wrap_u64 (plan_base clock req - Z.of_nat 0 * 60) = plan_base clock req). rewrite Z.sub_0_r. apply wrap_u_small. by apply wrap_u_range. }
  unfold Forward, Forward_enter, admit_payment. rewrite HP. cbn [obind].
  destruct (bool_decide _); cbn [guard_err obind]; [eexists; split; [done|]; by left|].
  destruct (_ <=? _); cbn [guard_err obind]; [eexists; split; [done|]; right; by left|].
  unfold Forward_leave. rewrite check_terms_eq. destruct (negb _); cbn [guard_err]; [eexists; split; [done|]; right; right; by left|].
  rewrite Hx. assert (time_Sub (time_Unix (pk_Expiry (pl_Packet p))) (time_Unix (pk_Expiry (pl_Packet p))) <? rp_MinTimelockMargin (ro_policy r) = true) as ->.
  { destruct (NewRouter_ok policy) as (_ & Hm & _). rewrite Hpolicy. apply Z.ltb_lt. unfold time_Sub. lia. }
  cbn [guard_err]. eexists. split; [done|]. by right; right; right.
Qed.

(** And the routers after it leave each other a minute. *)
Lemma later_hops_leave_a_minute (clock : Z) (req : PlanRequest) (i : nat) :
  (Z.of_nat i + 1) * 60 <= plan_base clock req < 2 ^ 62 ->
  time_Sub (time_Unix (wrap_u64 (plan_base clock req - Z.of_nat i * 60))) (time_Unix (wrap_u64 (plan_base clock req - Z.of_nat (S i) * 60))) = minute.
Proof.
  intros H. rewrite !wrap_u_small by (unfold u_range; lia). rewrite !time_Unix_small by lia. unfold time_Sub, minute, NanoSecond. lia.
Qed.
End Planned.

(** ** Witnesses *)

(** Which slots open under a secret. *)
Definition opening (p : Packet) (s : bytes) : list bool := (fun slot => bool_decide (is_Some (open (hopKey s) slot))) <$> pk_Slots p.
Lemma not_ambiguous (p : Packet) (s : bytes) (n k : nat) : opening p s = (fun o => bool_decide (o = n)) <$> seq 0 k -> ~ slot_ambiguous p s.
Proof.
  intros E (o & o' & slot & slot' & Hne & H & H' & Hs & Hs').
  assert (forall j sl, pk_Slots p !! j = Some sl -> is_Some (open (hopKey s) sl) -> j = n) as HJ.
  { intros j sl Hj Ho. pose proof (f_equal (lookup j) E) as Ej. unfold opening in Ej. rewrite !list_lookup_fmap, Hj in Ej.
    destruct (seq 0 k !! j) as [x|] eqn:Ex; [|discriminate]. apply lookup_seq in Ex as [-> _].
    assert (bool_decide (is_Some (open (hopKey s) sl)) = bool_decide ((0 + j)%nat = n)) as Eb by exact (inj Some _ _ Ej).
    rewrite bool_decide_eq_true_2 in Eb by done. symmetry in Eb. by apply bool_decide_eq_true in Eb. }
  apply Hne. rewrite (HJ o slot), (HJ o' slot'); done.
Qed.

Definition toy_plan_request : PlanRequest :=
  mkPlanRequest (Some toy_invoice) 100 toy_candidates (toy_route_request true 3) (Some toy_curve) (be_encode 32 55) (Some (1500 * NanoSecond)).
Definition toy_plan : Plan :=
  value_of (mkPlan 0 [] (mkLockChain [] []) (mkPacket [] [] [] [] 0) [] toy_invoice) (PlanPayment 0 toy_draw toy_rng toy_plan_request).
Lemma toy_plan_made : PlanPayment 0 toy_draw toy_rng toy_plan_request = Ok toy_plan.
Proof. vm_compute. reflexivity. Qed.
Lemma toy_plan_endpoint : bytes_ok (iv_BlindedEndpoint (pl_Invoice toy_plan)).
Proof. apply (bool_decide_unpack _). vm_compute. exact I. Qed.
Lemma toy_plan_names : Forall (fun c => plain_text (ca_NodeID c) = true) (pl_Route toy_plan).
Proof. apply (bool_decide_unpack _). vm_compute. exact I. Qed.
Definition toy_first : Candidate := toy_candidate "n1" "o1" "d1" 9.
Lemma toy_plan_first : pl_Route toy_plan !! 0%nat = Some toy_first.
Proof. vm_compute. reflexivity. Qed.
Lemma toy_plan_opening : exists n, opening (pl_Packet toy_plan) (hop_secret toy_plan_request toy_plan toy_first) = (fun o => bool_decide (o = n)) <$> seq 0 3.
Proof. (exists 0%nat; vm_compute; reflexivity) || (exists 1%nat; vm_compute; reflexivity) || (exists 2%nat; vm_compute; reflexivity). Qed.
Lemma toy_plan_unambiguous : ~ slot_ambiguous (pl_Packet toy_plan) (hop_secret toy_plan_request toy_plan toy_first).
Proof. destruct toy_plan_opening as [n H]. by eapply not_ambiguous. Qed.

Lemma plan_delivers_witness : exists hop, Peel (Some (pl_Packet toy_plan)) (hop_secret toy_plan_request toy_plan toy_first) = Ok hop.
Proof.
  destruct (plan_delivers 0 toy_draw toy_rng toy_plan_request toy_plan 0 toy_first toy_rng_sized toy_plan_made toy_plan_endpoint toy_plan_names toy_plan_first)
    as [H|(hop & x & y & H & _)]; [destruct (toy_plan_unambiguous H)|]. exists hop. exact H.
Defined.

Lemma planned_payment_refused_witness :
  exists e, (Forward toy_router (Some (pl_Packet toy_plan)) (hop_secret toy_plan_request toy_plan toy_first) 9 (1500 * NanoSecond)).2 = Err e.
Proof.
  destruct (planned_payment_refused 0 toy_draw toy_rng toy_plan_request toy_plan toy_first toy_policy toy_router 9 (1500 * NanoSecond)
    toy_rng_sized toy_plan_made toy_plan_endpoint toy_plan_names toy_plan_first eq_refl) as [H|(e & H & _)]; [destruct (toy_plan_unambiguous H)|].
  exists e. exact H.
Defined.
