(* ===== verification/ChannelCrypto.v ===== *)
(** * The cryptographic interface of the payment channels

    keccak256 and ECDSA public key recovery are third-party code: the class
    [ChannelCrypto] names the two calls, [ChannelCryptoLaws] the widths of
    their results.  [toy_crypto] is a concrete implementation, on which the
    witnesses of the channel files are evaluated. *)
From S2P Require Import Prelude.
From S2P Require Import GoBytes.

(** ** The cryptographic libraries (golang.org/x/crypto/sha3, decred secp256k1) *)
Class ChannelCrypto : Type := {
  keccak256 : bytes -> bytes;
  (** [ecdsa.RecoverCompact] then [SerializeUncompressed]: [None] is its error. *)
  recover_compact : bytes -> bytes -> option bytes
}.
Class ChannelCryptoLaws (C : ChannelCrypto) : Prop := {
  keccak256_array : forall b, array_ok 32 (keccak256 b);
  recover_compact_array : forall sig digest pub,
    recover_compact sig digest = Some pub -> array_ok 65 pub
}.

(** ** A concrete implementation

    The hash is a polynomial checksum; a signature over a digest is
    [r || f(digest) || v], and recovers the key [04 || r || r]. *)
Definition toy_hash (b : bytes) : bytes :=
  be_encode 32 (foldl (fun acc x => Z.land (acc * 1000003 + x + 1) 0xFFFFFFFFFFFFFFF) 7 b).
Definition toy_s (digest : bytes) : bytes := zeros 1 ++ drop 1 digest.
Definition toy_recover (compact digest : bytes) : option bytes :=
  let r := take 32 (drop 1 compact) in
  if array_okb 32 r && bool_decide (drop 33 compact = toy_s digest)
  then Some (4 :: r ++ r) else None.

#[export] Instance toy_crypto : ChannelCrypto := {
  keccak256 := toy_hash;
  recover_compact := toy_recover
}.

#[export] Instance toy_laws : ChannelCryptoLaws toy_crypto.
Proof.
  split.
  - intros b. apply be_encode_array.
  - intros sig digest pub. cbn. unfold toy_recover.
    destruct (array_okb 32 _ && _) eqn:E; [|discriminate]. intros [= <-].
    apply andb_true_iff in E as [E _]. apply array_okb_spec in E as [L O].
    split; [cbn; rewrite length_app, L; reflexivity|].
    constructor; [unfold byte_ok; lia|]. by apply Forall_app.
Qed.
