(* ===== verification/ChannelState.v ===== *)
(** * Payment channels: the signed state machine ([internal/channel/state.go])

    Addresses, the EIP-191 digest of a state and its preimage, signature
    recovery, the conservation rule, and [Channel.Accept], the one door every
    state comes through.  keccak256 and ECDSA recovery are the interface
    [ChannelCrypto]; what the proofs need of them is [ChannelCryptoLaws]. *)
From S2P Require Import Prelude.
From S2P Require Import GoBytes.
From S2P Require Import ChannelTypes.
From S2P Require Import ChannelCrypto.
From Stdlib Require Import Ascii.

(** ** Addresses *)

Definition zero_address : bytes := zeros 20.

Definition strip_0x (s : string) : string :=
  match s with
  | String.String "0" (String.String "x" r) => r
  | String.String "0" (String.String "X" r) => r
  | _ => s
  end.
Definition ParseAddress (s : string) : outcome chan_err bytes :=
  match hex_decode (strip_0x s) with
  | Some raw => if Nat.eqb (length raw) 20 then Ok raw else Err ErrBadAddress
  | None => Err ErrBadAddress
  end.
Definition Hex (a : bytes) : string := String.String "0" (String.String "x" (hex_encode a)).
Definition Less (a b : bytes) : bool := bytes_ltb a b.
Definition IsZero (a : bytes) : bool := bool_decide (a = zero_address).
Definition SortParties (x y : bytes) : bytes * bytes := if Less x y then (x, y) else (y, x).

(** ** abi.encode and the digests *)

Definition word (b : bytes) : bytes :=
  let b := drop (length b - 32) b in zeros (32 - length b) ++ b.
Definition u256 (n : option Z) : bytes :=
  match n with
  | None => zeros 32
  | Some n => word (big_bytes n)
  end.
Definition u64 (n : Z) : bytes := word (big_bytes n).

Definition orZero (n : option Z) : Z := default 0 n.
Arguments orZero !n /.

(** The lock encoding, one per HTLC. *)
Definition htlc_word (h : HTLC) : bytes :=
  h_ID h ++ h_Hash h ++ u256 (h_Amount h) ++ word (big_bytes (h_Expiry h)) ++
  [if h_PayerIsA h then 1 else 0].

(** [sort.Slice] by id: a stable merge sort; with distinct ids, as [Accept]
    requires, there is only one sorted order. *)
Definition id_le (a b : HTLC) : Prop := bytes_ltb (h_ID b) (h_ID a) = false.
#[export] Instance id_le_dec (a b : HTLC) : Decision (id_le a b).
Proof. unfold id_le. apply _. Defined.
Definition sort_locks (l : list HTLC) : list HTLC := merge_sort id_le l.

Definition OpState : Z := 1.
Definition OpCoopClose : Z := 2.
Definition OpCheckpoint : Z := 3.
Definition op (s : State) : Z := if st_Op s =? 0 then OpState else st_Op s.

Definition eip191_prefix : bytes :=
  25 :: text_bytes "Ethereum Signed Message:" ++
  10 :: [51; 50].

(** [secp256k1n / 2]. *)
Definition halfOrder : Z := 0x7FFFFFFFFFFFFFFFFFFFFFFFFFFFFFFF5D576E7357A4501DDFE92F46681B20A0.

Section Digests.
Context `{Crypto : ChannelCrypto}.

Definition keccak (parts : list bytes) : bytes := keccak256 (concat parts).

Definition DeriveChannelID (x y : bytes) : bytes :=
  let '(a, b) := SortParties x y in keccak [word a; word b].

Definition StateDigestV1 (chainID : option Z) (contract id : bytes) (nonce : Z)
    (balanceA balanceB : option Z) : bytes :=
  keccak [u256 chainID; word contract; id; u64 nonce; u256 balanceA; u256 balanceB].

Definition StateDigest (o : Z) (chainID : option Z) (contract id : bytes) (nonce : Z)
    (balanceA balanceB : option Z) (htlcRoot : bytes) (withdrawA withdrawB : option Z) : bytes :=
  keccak [u256 (Some o); u256 chainID; word contract; id; u64 nonce; u256 balanceA;
          u256 balanceB; htlcRoot; u256 withdrawA; u256 withdrawB].

Definition PersonalDigest (raw : bytes) : bytes := keccak [eip191_prefix; raw].

Definition HTLCRoot (s : State) : bytes :=
  match st_Pending s with
  | [] => zeros 32
  | ps => keccak (map htlc_word (sort_locks ps))
  end.

Definition Digest (s : State) (chainID : option Z) (contract : bytes) : bytes :=
  StateDigest (op s) chainID contract (st_Channel s) (st_Nonce s)
    (st_BalanceA s) (st_BalanceB s) (HTLCRoot s) (st_WithdrawA s) (st_WithdrawB s).

Definition h_Matches (h : HTLC) (preimage : bytes) : bool :=
  bool_decide (keccak [preimage] = h_Hash h).

(** The recovery byte: 0 and 1 are lifted to 27 and 28. *)
Definition recovery_byte (v : Z) : option Z :=
  if (v =? 0) || (v =? 1) then Some (v + 27)
  else if (v =? 27) || (v =? 28) then Some v
  else None.

Definition RecoverSigner (raw sig : bytes) : outcome chan_err bytes :=
  fail? negb (Nat.eqb (length sig) 65) with ErrBadStateSignature ;;
  let s := be_decode (take 32 (drop 32 sig)) in
  fail? halfOrder <? s with ErrHighS ;;
  let? v := of_option ErrBadStateSignature (recovery_byte (List.nth 64 sig 0)) in
  let compact := v :: take 32 sig ++ take 32 (drop 32 sig) in
  let digest := PersonalDigest raw in
  let? uncompressed := of_option ErrBadStateSignature (recover_compact compact digest) in
  let addr := drop 12 (keccak [drop 1 uncompressed]) in
  fail? IsZero addr with ErrBadStateSignature ;;
  Ok addr.
End Digests.

(** ** Conservation *)

Definition lockedTotal (s : State) : Z := zsum (map (fun h => orZero (h_Amount h)) (st_Pending s)).

Definition Conserved (s : State) (depositA depositB : option Z) : bool :=
  orZero (st_BalanceA s) + orZero (st_BalanceB s) + lockedTotal s
    + orZero (st_WithdrawA s) + orZero (st_WithdrawB s)
  =? orZero depositA + orZero depositB.

Definition anyNegative (ns : list (option Z)) : bool :=
  existsb (fun n => match n with Some n => n <? 0 | None => false end) ns.

Definition Complete (ss : SignedState) : bool :=
  Nat.eqb (length (ss_SigA ss)) 65 && Nat.eqb (length (ss_SigB ss)) 65.

(** ** The channel record *)

Definition clonePending (l : list HTLC) : list HTLC :=
  map (fun h => mkHTLC (h_ID h) (h_Hash h) (Some (orZero (h_Amount h))) (h_Expiry h) (h_PayerIsA h)) l.

Definition cloneState (s : State) : State :=
  mkState (st_Channel s) (st_Nonce s) (Some (orZero (st_BalanceA s))) (Some (orZero (st_BalanceB s)))
    (clonePending (st_Pending s)) (st_WithdrawA s) (st_WithdrawB s) (st_Op s).

(** [cloneSigned] copies the slices; the values are unchanged. *)
Definition cloneSigned (ss : SignedState) : SignedState :=
  mkSignedState (ss_State ss) (ss_SigA ss) (ss_SigB ss).

Definition cloneProposal (p : PendingProposal) : PendingProposal :=
  mkPendingProposal (pp_Intent p) (pp_Transition p) (cloneState (pp_State p)) (pp_Sig p).

Definition Clone (c : Channel) : Channel :=
  mkChannel (ch_ID c) (ch_PartyA c) (ch_PartyB c)
    (Some (orZero (ch_DepositA c))) (Some (orZero (ch_DepositB c))) (ch_Status c)
    (Some (orZero (ch_ChainID c))) (ch_Contract c) (cloneSigned (ch_Latest c))
    (ch_Signed c) (ch_Applied c) (cloneProposal <$> ch_Pending c)
    ((fun k => mkConflictRecord (cr_Nonce k) (cloneSigned (cr_Mine k)) (cloneSigned (cr_Theirs k)))
       <$> ch_Conflict c)
    (ch_History c) (ch_Payout c) (ch_NeedsReconcile c).

Definition HasSigned (c : Channel) (nonce : Z) : option bytes := ch_Signed c !! nonce.

(** [for n := range m { if n <= top { delete(m, n) } }] *)
Definition prune_signed (top : Z) (m : gmap Z bytes) : gmap Z bytes :=
  filter (fun kv => top < kv.1) m.

Definition NoteSigned (nonce : Z) (digest : bytes) (c : Channel) : Channel :=
  set_Signed (prune_signed (st_Nonce (ss_State (ch_Latest c)))
                (<[nonce := digest]> (ch_Signed c))) c.

Definition NoteApplied (intent : bytes) (nonce : Z) (c : Channel) : Channel :=
  set_Applied (<[intent := nonce]> (ch_Applied c)) c.

Definition AppliedAt (c : Channel) (intent : bytes) : option Z := ch_Applied c !! intent.

Definition IsA (c : Channel) (addr : bytes) : bool := bool_decide (addr = ch_PartyA c).
Definition Party (c : Channel) (isA : bool) : bytes := if isA then ch_PartyA c else ch_PartyB c.
Definition BalanceOf (c : Channel) (addr : bytes) : Z :=
  if IsA c addr then orZero (st_BalanceA (ss_State (ch_Latest c)))
  else orZero (st_BalanceB (ss_State (ch_Latest c))).

Section Accept.
Context `{Crypto : ChannelCrypto}.

Definition NewChannel (chainID : option Z) (contract x y : bytes) : Channel :=
  let '(a, b) := SortParties x y in
  mkChannel (DeriveChannelID a b) a b (Some 0) (Some 0) StatusOpen chainID contract
    zero_signed ∅ ∅ None None [] None false.

(** Check 3 of [Accept]: every lock holds a positive amount. *)
Definition amounts_positive (ps : list HTLC) : bool :=
  forallb (fun h => match h_Amount h with Some a => 0 <? a | None => false end) ps.

(** Check 4: ids unique and an expiry set, in the order of the slice. *)
Fixpoint check_locks (seen : list bytes) (ps : list HTLC) : outcome chan_err unit :=
  match ps with
  | [] => Ok tt
  | h :: ps =>
      fail? bool_decide (h_ID h ∈ seen) with ErrDuplicateHTLC ;;
      fail? h_Expiry h <=? 0 with ErrHTLCExpiryPast ;;
      check_locks (h_ID h :: seen) ps
  end.

(** The nonce rule, check 2: [true] is a refusal. *)
Definition nonce_regressed (latest : SignedState) (nonce : Z) : bool :=
  (nonce <=? st_Nonce (ss_State latest)) &&
  negb ((st_Nonce (ss_State latest) =? 0) && negb (Complete latest)).

Definition Accept (c : Channel) (candidate : SignedState) : outcome chan_err Channel :=
  let st := ss_State candidate in
  fail? negb (ch_Status c =? StatusOpen) with ErrNotOpen ;;
  fail? negb (bool_decide (st_Channel st = ch_ID c)) with ErrWrongChannel ;;
  fail? nonce_regressed (ch_Latest c) (st_Nonce st) with ErrNonceRegressed ;;
  fail? anyNegative [st_BalanceA st; st_BalanceB st] with ErrNegative ;;
  fail? negb (amounts_positive (st_Pending st)) with ErrNegative ;;
  let? _ := check_locks [] (st_Pending st) in
  fail? negb (Conserved st (ch_DepositA c) (ch_DepositB c)) with ErrNotConserved ;;
  fail? negb (Complete candidate) with ErrBadStateSignature ;;
  let raw := Digest st (ch_ChainID c) (ch_Contract c) in
  let? signerA := RecoverSigner raw (ss_SigA candidate) in
  let? signerB := RecoverSigner raw (ss_SigB candidate) in
  fail? negb (bool_decide (signerA = ch_PartyA c) && bool_decide (signerB = ch_PartyB c))
    with ErrBadStateSignature ;;
  let c := set_Latest candidate c in
  Ok (set_Signed (prune_signed (st_Nonce st) (ch_Signed c)) c).
End Accept.

(** [fmt.Sprintf("%s:%d", hex, nonce)] *)
Definition ReplayKey (id : bytes) (nonce : Z) : string :=
  String.append (hex_encode id) (String.String ":" (dec_text nonce)).

(** ** abi.encode words *)

Lemma word_short (b : bytes) : (length b <= 32)%nat -> word b = zeros (32 - length b) ++ b.
Proof. intros H. unfold word. by replace (length b - 32)%nat with O by lia. Qed.

Lemma length_word (b : bytes) : length (word b) = 32%nat.
Proof.
  unfold word. rewrite length_app, length_drop. unfold zeros. rewrite length_replicate. lia.
Qed.

Lemma be_decode_word (b : bytes) : (length b <= 32)%nat -> be_decode (word b) = be_decode b.
Proof. intros H. rewrite word_short, be_decode_app, be_decode_zeros by done. lia. Qed.

Lemma word_inj (a b : bytes) :
  length a = length b -> (length a <= 32)%nat -> word a = word b -> a = b.
Proof.
  intros Hlen Ha E. rewrite !word_short in E by lia. rewrite Hlen in E. by apply app_inv_head in E.
Qed.

Lemma length_big_bytes (z : Z) (n : nat) :
  Z.abs z < 256 ^ Z.of_nat n -> (length (big_bytes z) <= n)%nat.
Proof. intros H. unfold big_bytes. rewrite length_be_encode. by apply byte_len_le. Qed.

Lemma be_decode_word_big (z : Z) :
  u_range 256 z -> be_decode (word (big_bytes z)) = z.
Proof.
  unfold u_range. intros Hz. rewrite be_decode_word.
  - rewrite be_decode_big_bytes. lia.
  - apply length_big_bytes. change (256 ^ Z.of_nat 32) with (2 ^ 256). lia.
Qed.

Lemma word_big_inj (x y : Z) :
  u_range 256 x -> u_range 256 y -> word (big_bytes x) = word (big_bytes y) -> x = y.
Proof. intros Hx Hy E. apply (f_equal be_decode) in E. by rewrite !be_decode_word_big in E. Qed.

Lemma u256_word (n : option Z) : u256 n = word (big_bytes (orZero n)).
Proof. destruct n; [done|]. vm_compute. reflexivity. Qed.

Lemma length_u256 (n : option Z) : length (u256 n) = 32%nat.
Proof. rewrite u256_word. apply length_word. Qed.

Lemma u256_inj (x y : option Z) :
  u_range 256 (orZero x) -> u_range 256 (orZero y) -> u256 x = u256 y -> orZero x = orZero y.
Proof. intros Hx Hy E. rewrite !u256_word in E. by apply word_big_inj. Qed.

Lemma u_range_weaken (w w' z : Z) : 0 <= w <= w' -> u_range w z -> u_range w' z.
Proof.
  unfold u_range. intros Hw Hz. pose proof (Z.pow_le_mono_r 2 w w' ltac:(lia) ltac:(lia)). lia.
Qed.

Lemma u64_inj (x y : Z) : u_range 64 x -> u_range 64 y -> u64 x = u64 y -> x = y.
Proof. intros Hx Hy. apply word_big_inj; by apply (u_range_weaken 64). Qed.

(** ** Widths of the fields a contract can represent *)

Record htlc_wf (h : HTLC) : Prop := {
  hwf_ID : array_ok 32 (h_ID h);
  hwf_Hash : array_ok 32 (h_Hash h);
  hwf_Amount : u_range 256 (orZero (h_Amount h));
  hwf_Expiry : u_range 63 (h_Expiry h)
}.

Record state_wf (s : State) : Prop := {
  swf_Channel : array_ok 32 (st_Channel s);
  swf_Nonce : u_range 64 (st_Nonce s);
  swf_BalanceA : u_range 256 (orZero (st_BalanceA s));
  swf_BalanceB : u_range 256 (orZero (st_BalanceB s));
  swf_WithdrawA : u_range 256 (orZero (st_WithdrawA s));
  swf_WithdrawB : u_range 256 (orZero (st_WithdrawB s));
  swf_Op : u_range 8 (st_Op s);
  swf_Pending : Forall htlc_wf (st_Pending s)
}.

(** Two locks, and two states, that mean the same to the contract. *)
Definition htlc_agree (a b : HTLC) : Prop :=
  h_ID a = h_ID b /\ h_Hash a = h_Hash b /\ orZero (h_Amount a) = orZero (h_Amount b) /\
  h_Expiry a = h_Expiry b /\ h_PayerIsA a = h_PayerIsA b.

Definition balances_agree (s1 s2 : State) : Prop :=
  orZero (st_BalanceA s1) = orZero (st_BalanceA s2) /\
  orZero (st_BalanceB s1) = orZero (st_BalanceB s2) /\
  orZero (st_WithdrawA s1) = orZero (st_WithdrawA s2) /\
  orZero (st_WithdrawB s1) = orZero (st_WithdrawB s2).

Lemma length_htlc_word (h : HTLC) : htlc_wf h -> length (htlc_word h) = 129%nat.
Proof.
  intros [[L1 _] [L2 _] _ _]. unfold htlc_word.
  rewrite !length_app, L1, L2, length_u256, length_word. reflexivity.
Qed.

Lemma htlc_word_inj (a b : HTLC) :
  htlc_wf a -> htlc_wf b -> htlc_word a = htlc_word b -> htlc_agree a b.
Proof.
  intros [[L1 _] [L2 _] A1 X1] [[M1 _] [M2 _] A2 X2] E. unfold htlc_word in E.
  apply app_inj_1 in E as [E1 E]; [|congruence].
  apply app_inj_1 in E as [E2 E]; [|congruence].
  apply app_inj_1 in E as [E3 E]; [|by rewrite !length_u256].
  apply app_inj_1 in E as [E4 E]; [|by rewrite !length_word].
  apply u256_inj in E3; [|done|done].
  apply word_big_inj in E4; [|by apply (u_range_weaken 63)|by apply (u_range_weaken 63)].
  repeat split; try done. destruct (h_PayerIsA a), (h_PayerIsA b); congruence.
Qed.

Lemma sort_locks_perm (l : list HTLC) : sort_locks l ≡ₚ l.
Proof. apply merge_sort_Permutation. Qed.

Lemma sort_locks_wf (l : list HTLC) : Forall htlc_wf l -> Forall htlc_wf (sort_locks l).
Proof. by rewrite (sort_locks_perm l). Qed.

Lemma htlc_words_inj (l k : list HTLC) :
  Forall htlc_wf l -> Forall htlc_wf k ->
  concat (map htlc_word l) = concat (map htlc_word k) -> Forall2 htlc_agree l k.
Proof.
  intros Hl Hk E. apply (concat_arrays_inj 129) in E; [|lia| |];
    [|apply Forall_fmap; eapply Forall_impl; [done|]; apply length_htlc_word..].
  revert k Hk E. induction Hl as [|a l Ha Hl IH]; intros [|b k] Hk E; try discriminate E; [done|].
  apply Forall_cons in Hk as [Hb Hk]. injection E as Eab E.
  constructor; [by apply htlc_word_inj|by apply IH].
Qed.

(** The bytes [StateDigest] hashes, and those [HTLCRoot] hashes. *)
Definition locks_preimage (s : State) : bytes := concat (map htlc_word (sort_locks (st_Pending s))).

Section DigestBinding.
Context `{Crypto : ChannelCrypto} `{Laws : !ChannelCryptoLaws Crypto}.

Definition digest_preimage (s : State) (chainID : option Z) (contract : bytes) : bytes :=
  concat [u256 (Some (op s)); u256 chainID; word contract; st_Channel s; u64 (st_Nonce s);
    u256 (st_BalanceA s); u256 (st_BalanceB s); HTLCRoot s; u256 (st_WithdrawA s);
    u256 (st_WithdrawB s)].

(** Two different inputs keccak maps to one hash. *)
Definition collide (x y : bytes) : Prop := x <> y /\ keccak256 x = keccak256 y.

Lemma length_keccak (parts : list bytes) : length (keccak parts) = 32%nat.
Proof. apply keccak256_array. Qed.

Lemma length_HTLCRoot (s : State) : length (HTLCRoot s) = 32%nat.
Proof. unfold HTLCRoot. destruct (st_Pending s); [done|apply length_keccak]. Qed.

Lemma op_range (s : State) : state_wf s -> u_range 256 (op s).
Proof.
  intros H. unfold op. destruct (Z.eqb_spec (st_Op s) 0); [by vm_compute|].
  apply (u_range_weaken 8); [lia|apply H].
Qed.

(** Equal roots mean equal lock sets, unless keccak collides. *)
Lemma HTLCRoot_binds (s1 s2 : State) :
  state_wf s1 -> state_wf s2 -> HTLCRoot s1 = HTLCRoot s2 ->
  Forall2 htlc_agree (sort_locks (st_Pending s1)) (sort_locks (st_Pending s2)) \/
  collide (locks_preimage s1) (locks_preimage s2) \/
  keccak256 (locks_preimage s1) = zeros 32 \/ keccak256 (locks_preimage s2) = zeros 32.
Proof.
  intros W1 W2 E. unfold HTLCRoot in E.
  destruct (st_Pending s1) as [|h1 p1] eqn:P1, (st_Pending s2) as [|h2 p2] eqn:P2.
  - left. constructor.
  - right. right. right. unfold locks_preimage. rewrite P2. by symmetry.
  - right. right. left. unfold locks_preimage. by rewrite P1.
  - unfold collide, locks_preimage. rewrite P1, P2.
    destruct (decide (concat (map htlc_word (sort_locks (h1 :: p1))) =
                      concat (map htlc_word (sort_locks (h2 :: p2))))) as [Eq|Ne].
    + left. apply htlc_words_inj; [| |done]; apply sort_locks_wf.
      * rewrite <- P1. apply W1.
      * rewrite <- P2. apply W2.
    + right. left. split; [exact Ne|exact E].
Qed.

(** The preimage fixes every field a party signs. *)
Lemma digest_preimage_inj (s1 s2 : State) (c1 c2 : option Z) (k1 k2 : bytes) :
  state_wf s1 -> state_wf s2 ->
  u_range 256 (orZero c1) -> u_range 256 (orZero c2) -> array_ok 20 k1 -> array_ok 20 k2 ->
  digest_preimage s1 c1 k1 = digest_preimage s2 c2 k2 ->
  op s1 = op s2 /\ orZero c1 = orZero c2 /\ k1 = k2 /\ st_Channel s1 = st_Channel s2 /\
  st_Nonce s1 = st_Nonce s2 /\ balances_agree s1 s2 /\ HTLCRoot s1 = HTLCRoot s2.
Proof.
  intros W1 W2 C1 C2 [K1 _] [K2 _] E. unfold digest_preimage in E.
  apply (concat_arrays_inj 32) in E; [|lia| |];
    [|repeat constructor; rewrite ?length_u256, ?length_word, ?length_HTLCRoot;
      first [reflexivity|apply length_word|apply W1|apply W2]..].
  injection E as E1 E2 E3 E4 E5 E6 E7 E8 E9 E10.
  unfold balances_agree.
  pose proof (op_range s1 W1) as O1. pose proof (op_range s2 W2) as O2.
  destruct W1, W2.
  repeat split; try done; try (by apply u256_inj).
  - by apply (word_big_inj (op s1) (op s2)).
  - apply word_inj in E3; lia || done.
  - by apply u64_inj.
Qed.
End DigestBinding.

(** ** Acceptance, declaratively *)
Section AcceptSpec.
Context `{Crypto : ChannelCrypto}.

(** What a node may adopt as its latest state. *)
Record acceptable (c : Channel) (ss : SignedState) : Prop := {
  acc_open : ch_Status c = StatusOpen;
  acc_channel : st_Channel (ss_State ss) = ch_ID c;
  acc_nonce : st_Nonce (ss_State (ch_Latest c)) < st_Nonce (ss_State ss) \/
    (st_Nonce (ss_State (ch_Latest c)) = 0 /\ Complete (ch_Latest c) = false);
  acc_balanceA : 0 <= orZero (st_BalanceA (ss_State ss));
  acc_balanceB : 0 <= orZero (st_BalanceB (ss_State ss));
  acc_amounts : Forall (fun h => exists a, h_Amount h = Some a /\ 0 < a) (st_Pending (ss_State ss));
  acc_ids : NoDup (map h_ID (st_Pending (ss_State ss)));
  acc_expiries : Forall (fun h => 0 < h_Expiry h) (st_Pending (ss_State ss));
  acc_conserved : orZero (st_BalanceA (ss_State ss)) + orZero (st_BalanceB (ss_State ss))
    + lockedTotal (ss_State ss) + orZero (st_WithdrawA (ss_State ss))
    + orZero (st_WithdrawB (ss_State ss)) = orZero (ch_DepositA c) + orZero (ch_DepositB c);
  acc_complete : length (ss_SigA ss) = 65%nat /\ length (ss_SigB ss) = 65%nat;
  acc_sigA : RecoverSigner (Digest (ss_State ss) (ch_ChainID c) (ch_Contract c)) (ss_SigA ss)
    = Ok (ch_PartyA c);
  acc_sigB : RecoverSigner (Digest (ss_State ss) (ch_ChainID c) (ch_Contract c)) (ss_SigB ss)
    = Ok (ch_PartyB c)
}.

(** The channel after adopting [ss]: the state, and the ledger of signed nonces pruned. *)
Definition adopted (c : Channel) (ss : SignedState) : Channel :=
  set_Signed (prune_signed (st_Nonce (ss_State ss)) (ch_Signed c)) (set_Latest ss c).

Lemma nonce_regressed_false (latest : SignedState) (n : Z) :
  nonce_regressed latest n = false <->
  st_Nonce (ss_State latest) < n \/ (st_Nonce (ss_State latest) = 0 /\ Complete latest = false).
Proof.
  unfold nonce_regressed. rewrite andb_false_iff, negb_false_iff, andb_true_iff, negb_true_iff.
  rewrite Z.leb_gt, Z.eqb_eq. done.
Qed.

Lemma anyNegative_false (a b : option Z) :
  anyNegative [a; b] = false <-> 0 <= orZero a /\ 0 <= orZero b.
Proof.
  unfold anyNegative, orZero. destruct a as [a|], b as [b|]; cbn;
    rewrite ?orb_false_r, ?orb_false_iff, ?Z.ltb_ge; lia || (split; [lia|done]).
Qed.

Lemma amounts_positive_true (ps : list HTLC) :
  amounts_positive ps = true <-> Forall (fun h => exists a, h_Amount h = Some a /\ 0 < a) ps.
Proof.
  unfold amounts_positive. rewrite forallb_forall, Forall_forall.
  split; intros H h Hh; [apply list_elem_of_In in Hh|apply list_elem_of_In in Hh]; specialize (H h Hh).
  - destruct (h_Amount h) as [a|]; [|discriminate]. exists a. zbool. done.
  - destruct H as (a & -> & Ha). apply Z.ltb_lt. exact Ha.
Qed.

Lemma check_locks_ok (ps : list HTLC) (seen : list bytes) :
  check_locks seen ps = Ok tt <->
  NoDup (map h_ID ps) /\ Forall (fun h => h_ID h ∉ seen) ps /\ Forall (fun h => 0 < h_Expiry h) ps.
Proof.
  revert seen; induction ps as [|h ps IH]; intros seen; cbn [check_locks map].
  { split; [repeat split; constructor|done]. }
  rewrite !guard_err_ok, IH, NoDup_cons, !Forall_cons, bool_decide_eq_false, Z.leb_gt.
  rewrite !Forall_forall.
  split.
  - intros (Hs & He & Hn & Hf & Hx). repeat split; try done.
    + intros Hin. apply list_elem_of_fmap in Hin as (h' & E & Hh'). apply (Hf h' Hh').
      rewrite <- E. left.
    + intros h' Hh' Hin. apply (Hf h' Hh'). by right.
  - intros ((Hni & Hn) & (Hs & Hf) & He & Hx). repeat split; try done.
    intros h' Hh' Hin. apply elem_of_cons in Hin as [E|Hin]; [|by apply (Hf h' Hh')].
    apply Hni. rewrite <- E. by apply list_elem_of_fmap_2.
Qed.

Lemma Complete_true (ss : SignedState) :
  Complete ss = true <-> length (ss_SigA ss) = 65%nat /\ length (ss_SigB ss) = 65%nat.
Proof. unfold Complete. by rewrite andb_true_iff, !Nat.eqb_eq. Qed.

Lemma Conserved_true (s : State) (dA dB : option Z) :
  Conserved s dA dB = true <->
  orZero (st_BalanceA s) + orZero (st_BalanceB s) + lockedTotal s + orZero (st_WithdrawA s)
    + orZero (st_WithdrawB s) = orZero dA + orZero dB.
Proof. unfold Conserved. apply Z.eqb_eq. Qed.

Lemma Accept_ok (c c' : Channel) (ss : SignedState) :
  Accept c ss = Ok c' -> acceptable c ss /\ c' = adopted c ss.
Proof.
  unfold Accept. intros H. repeat outcome_step. zbool. subst.
  repeat match goal with
  | H : nonce_regressed _ _ = false |- _ => apply nonce_regressed_false in H
  | H : anyNegative _ = false |- _ => apply anyNegative_false in H as [? ?]
  | H : amounts_positive _ = true |- _ => apply amounts_positive_true in H
  | H : Conserved _ _ _ = true |- _ => apply Conserved_true in H
  | H : Complete _ = true |- _ => apply Complete_true in H
  | H : check_locks _ _ = Ok ?u |- _ => destruct u; apply check_locks_ok in H as (? & ? & ?)
  end.
  split; [by constructor|reflexivity].
Qed.

Lemma Accept_complete (c : Channel) (ss : SignedState) :
  acceptable c ss -> Accept c ss = Ok (adopted c ss).
Proof.
  intros []. unfold Accept.
  assert (check_locks [] (st_Pending (ss_State ss)) = Ok tt) as ->.
  { apply check_locks_ok. repeat split; try done. apply Forall_forall. intros ? _. apply not_elem_of_nil. }
  rewrite (proj2 (Z.eqb_eq _ _) acc_open0), (proj2 (nonce_regressed_false _ _) acc_nonce0),
    (proj2 (anyNegative_false _ _) (conj acc_balanceA0 acc_balanceB0)),
    (proj2 (amounts_positive_true _) acc_amounts0), (proj2 (Conserved_true _ _ _) acc_conserved0),
    (proj2 (Complete_true _) acc_complete0), acc_sigA0, acc_sigB0.
  cbn [negb guard_err obind]. rewrite !bool_decide_true by done. reflexivity.
Qed.

Lemma Accept_iff (c c' : Channel) (ss : SignedState) :
  Accept c ss = Ok c' <-> acceptable c ss /\ c' = adopted c ss.
Proof. split; [apply Accept_ok|]. intros [H ->]. by apply Accept_complete. Qed.

Lemma Accept_adopted (c : Channel) (ss : SignedState) :
  is_ok (Accept c ss) = true -> Accept c ss = Ok (adopted c ss).
Proof.
  destruct (Accept c ss) as [c'| |] eqn:E; try discriminate. by apply Accept_ok in E as [_ ->].
Qed.

(** Adopting keeps the identity, the collateral and the protocol state of the channel. *)
Lemma adopted_frame (c : Channel) (ss : SignedState) :
  let c' := adopted c ss in
  ch_Latest c' = ss /\ ch_ID c' = ch_ID c /\ ch_PartyA c' = ch_PartyA c /\
  ch_PartyB c' = ch_PartyB c /\ ch_DepositA c' = ch_DepositA c /\ ch_DepositB c' = ch_DepositB c /\
  ch_Status c' = ch_Status c /\ ch_ChainID c' = ch_ChainID c /\ ch_Contract c' = ch_Contract c /\
  ch_Applied c' = ch_Applied c /\ ch_Pending c' = ch_Pending c /\ ch_Conflict c' = ch_Conflict c.
Proof. repeat split. Qed.

Lemma RecoverSigner_not_panic (raw sig : bytes) : RecoverSigner raw sig <> Panic.
Proof. unfold RecoverSigner. no_panic. Qed.

Lemma check_locks_not_panic (ps : list HTLC) (seen : list bytes) : check_locks seen ps <> Panic.
Proof.
  revert seen; induction ps as [|h ps IH]; intros seen; cbn [check_locks]; [discriminate|].
  do 2 apply guard_err_not_panic. apply IH.
Qed.

#[local] Hint Resolve RecoverSigner_not_panic check_locks_not_panic : no_panic.
Lemma Accept_not_panic (c : Channel) (ss : SignedState) : Accept c ss <> Panic.
Proof. unfold Accept. no_panic. Qed.

(** The nonces of an accepted history are strictly increasing. *)
Fixpoint accept_all (c : Channel) (l : list SignedState) : outcome chan_err Channel :=
  match l with
  | [] => Ok c
  | ss :: l => let? c := Accept c ss in accept_all c l
  end.

Lemma accepted_complete (c c' : Channel) (ss : SignedState) :
  Accept c ss = Ok c' -> Complete (ch_Latest c') = true.
Proof. intros [H ->]%Accept_iff. apply Complete_true, H. Qed.

Lemma accept_all_above (l : list SignedState) (c c' : Channel) :
  Complete (ch_Latest c) = true -> accept_all c l = Ok c' ->
  Forall (fun ss => st_Nonce (ss_State (ch_Latest c)) < st_Nonce (ss_State ss)) l.
Proof.
  revert c; induction l as [|ss l IH]; intros c Hc H; [constructor|].
  cbn in H. apply obind_ok in H as (c1 & HA & H). pose proof (accepted_complete _ _ _ HA) as Hc1.
  apply Accept_iff in HA as [HA ->].
  destruct (acc_nonce _ _ HA) as [Hn|[_ Hn]]; [|congruence].
  constructor; [exact Hn|]. eapply Forall_impl; [by apply IH|]. cbn. lia.
Qed.
End AcceptSpec.

#[export] Hint Resolve RecoverSigner_not_panic check_locks_not_panic Accept_not_panic : no_panic.

(** ** A concrete channel, for the witnesses *)

Definition toy_address (r : Z) : bytes :=
  drop 12 (toy_hash (be_encode 32 r ++ be_encode 32 r)).
Definition toy_sign (r : Z) (raw : bytes) : bytes :=
  be_encode 32 r ++ toy_s (PersonalDigest raw) ++ [27].
Definition toy_A : bytes := (SortParties (toy_address 1) (toy_address 2)).1.
Definition toy_B : bytes := (SortParties (toy_address 1) (toy_address 2)).2.
Definition toy_keyA : Z := if bool_decide (toy_A = toy_address 1) then 1 else 2.
Definition toy_keyB : Z := 3 - toy_keyA.
Definition toy_contract : bytes := be_encode 20 99.
Definition toy_channel : Channel :=
  set_Chain (Some 60) (Some 40) StatusOpen (NewChannel (Some 1) toy_contract toy_A toy_B).
Definition toy_signed (s : State) : SignedState :=
  let raw := Digest s (Some 1) toy_contract in
  mkSignedState s (toy_sign toy_keyA raw) (toy_sign toy_keyB raw).
Definition toy_pay_state (nonce a b : Z) : State :=
  mkState (ch_ID toy_channel) nonce (Some a) (Some b) [] None None OpState.

(** ** Theorems *)

(** [Address.Less] on two addresses is the order of the 160-bit integers they
    denote, which is how the contract decides who is party A; so the sorted pair,
    and the channel id derived from it, do not depend on the argument order. *)
Theorem parties_sorted_as_integers `{ChannelCrypto} (x y : bytes) (Hx : array_ok 20 x) (Hy : array_ok 20 y) :
  SortParties x y = (if be_decode x <? be_decode y then (x, y) else (y, x)) /\
  SortParties x y = SortParties y x /\ DeriveChannelID x y = DeriveChannelID y x.
Proof.
  assert (SortParties x y = SortParties y x) as E.
  { unfold SortParties, Less. destruct (bytes_ltb x y) eqn:L1.
    - by rewrite (bytes_ltb_asym _ _ L1).
    - destruct (bytes_ltb y x) eqn:L2; [done|]. by rewrite (bytes_ltb_total _ _ L1 L2). }
  unfold DeriveChannelID. rewrite E. split; [|done]. rewrite <- E.
  unfold SortParties, Less. by rewrite (bytes_ltb_be 20).
Qed.

Lemma parties_sorted_as_integers_witness :
  SortParties (be_encode 20 7) (be_encode 20 5) = (be_encode 20 5, be_encode 20 7).
Proof.
  rewrite (proj1 (parties_sorted_as_integers (be_encode 20 7) (be_encode 20 5)
    (be_encode_array _ _) (be_encode_array _ _))). vm_compute. reflexivity.
Defined.

(** C18. The value both parties sign fixes the whole state: if two representable
    states, each with its chain and contract, have one digest, then they agree on
    the operation domain, the chain, the contract, the channel, the nonce, both
    balances, both withdrawals and the set of locks, or the proof holds two
    different inputs with one keccak256 hash, or a lock set that hashes to zero. *)
Theorem digest_binds_state `{Crypto : ChannelCrypto} `{!ChannelCryptoLaws Crypto}
    (s1 s2 : State) (chain1 chain2 : option Z) (k1 k2 : bytes)
    (W1 : state_wf s1) (W2 : state_wf s2)
    (R1 : u_range 256 (orZero chain1)) (R2 : u_range 256 (orZero chain2))
    (A1 : array_ok 20 k1) (A2 : array_ok 20 k2)
    (E : Digest s1 chain1 k1 = Digest s2 chain2 k2) :
  (op s1 = op s2 /\ orZero chain1 = orZero chain2 /\ k1 = k2 /\
   st_Channel s1 = st_Channel s2 /\ st_Nonce s1 = st_Nonce s2 /\ balances_agree s1 s2 /\
   Forall2 htlc_agree (sort_locks (st_Pending s1)) (sort_locks (st_Pending s2))) \/
  collide (digest_preimage s1 chain1 k1) (digest_preimage s2 chain2 k2) \/
  collide (locks_preimage s1) (locks_preimage s2) \/
  keccak256 (locks_preimage s1) = zeros 32 \/ keccak256 (locks_preimage s2) = zeros 32.
Proof.
  destruct (decide (digest_preimage s1 chain1 k1 = digest_preimage s2 chain2 k2)) as [Eq|Ne];
    [|right; left; by split].
  apply digest_preimage_inj in Eq as (Ho & Hc & Hk & Hi & Hn & Hb & Hr); try done.
  apply HTLCRoot_binds in Hr as [Hl|Hr]; [by left|by right; right|done|done].
Qed.

(** [Accept] decides exactly the declarative rule [acceptable]: the channel is open, the state names
    it, the nonce is higher than the latest one (or nothing signed is held yet), no balance or lock
    is negative - a withdrawal may be, see [Accept_admits_negative_withdrawal] - lock ids are unique
    with an expiry set, value is conserved against the deposits and both signatures recover to the
    two parties; it then makes the state the latest, prunes the ledger of signed nonces and changes
    nothing else. *)
Theorem Accept_decides_acceptable `{ChannelCrypto} (c c' : Channel) (ss : SignedState) :
  Accept c ss = Ok c' <-> acceptable c ss /\ c' = adopted c ss.
Proof. apply Accept_iff. Qed.

(** [Accept] never panics, whatever a peer sends. *)
Theorem Accept_never_panics `{ChannelCrypto} (c : Channel) (ss : SignedState) :
  Accept c ss <> Panic.
Proof. apply Accept_not_panic. Qed.

(** Along any sequence of accepted states the nonces strictly increase, so no
    state is accepted twice and an old one never comes back. *)
Theorem accepted_nonces_increase `{ChannelCrypto} (c c' : Channel) (l : list SignedState)
    (Hl : accept_all c l = Ok c') :
  StronglySorted (fun a b => st_Nonce (ss_State a) < st_Nonce (ss_State b)) l.
Proof.
  revert c Hl; induction l as [|ss l IH]; intros c Hl; [constructor|].
  cbn in Hl. apply obind_ok in Hl as (c1 & HA & Hl). constructor; [by eapply IH|].
  pose proof (accepted_complete _ _ _ HA) as Hc1.
  pose proof (accept_all_above l c1 c' Hc1 Hl) as F. by apply Accept_iff in HA as [_ ->].
Qed.

Definition toy_pay1 : SignedState := toy_signed (toy_pay_state 1 50 50).
Definition toy_pay4 : SignedState := toy_signed (toy_pay_state 4 30 70).

Lemma accepted_nonces_increase_witness :
  StronglySorted (fun a b => st_Nonce (ss_State a) < st_Nonce (ss_State b)) [toy_pay1; toy_pay4].
Proof.
  apply (accepted_nonces_increase toy_channel (adopted (adopted toy_channel toy_pay1) toy_pay4)).
  cbn [accept_all]. rewrite (Accept_adopted toy_channel) by (vm_compute; reflexivity).
  cbn [obind]. rewrite Accept_adopted by (vm_compute; reflexivity). reflexivity.
Defined.

Lemma toy_pay_state_wf (n a b : Z) :
  u_range 64 n -> u_range 256 a -> u_range 256 b -> state_wf (toy_pay_state n a b).
Proof.
  intros. constructor; try done. apply array_okb_spec. vm_compute. reflexivity.
Qed.

Lemma digest_binds_state_witness :
  balances_agree (ss_State toy_pay1) (ss_State toy_pay1).
Proof.
  pose proof (toy_pay_state_wf 1 50 50 ltac:(done) ltac:(done) ltac:(done)) as W.
  assert (u_range 256 (orZero (Some 1))) as R by done.
  pose proof (be_encode_array 20 99) as A.
  destruct (digest_binds_state (toy_pay_state 1 50 50) (toy_pay_state 1 50 50) (Some 1) (Some 1)
    toy_contract toy_contract W W R R A A eq_refl) as [(_ & _ & _ & _ & _ & H & _)|[[H _]|[[H _]|[H|H]]]].
  - exact H.
  - exfalso. apply H. reflexivity.
  - exfalso. apply H. reflexivity.
  - vm_compute in H. discriminate H.
  - vm_compute in H. discriminate H.
Defined.

(** When a state with no negative withdrawal is accepted, what it still holds,
    both balances and every lock, is covered by the deposits. *)
Theorem accepted_within_collateral `{ChannelCrypto} (c c' : Channel) (ss : SignedState)
    (HA : Accept c ss = Ok c')
    (WA : 0 <= orZero (st_WithdrawA (ss_State ss))) (WB : 0 <= orZero (st_WithdrawB (ss_State ss))) :
  let s := ss_State (ch_Latest c') in
  let total := orZero (ch_DepositA c') + orZero (ch_DepositB c') in
  0 <= orZero (st_BalanceA s) <= total /\ 0 <= orZero (st_BalanceB s) <= total /\
  0 <= lockedTotal s <= total.
Proof.
  apply Accept_iff in HA as [[] ->]. intros s total.
  change s with (ss_State ss). change total with (orZero (ch_DepositA c) + orZero (ch_DepositB c)).
  assert (0 <= lockedTotal (ss_State ss)).
  { apply zsum_nonneg, Forall_fmap. eapply Forall_impl; [exact acc_amounts0|].
    intros h (a & Ha & Hp). cbn. rewrite Ha. cbn. lia. }
  lia.
Qed.

Lemma accepted_within_collateral_witness :
  0 <= 50 <= 100 /\ 0 <= 50 <= 100 /\ 0 <= 0 <= 100.
Proof.
  exact (accepted_within_collateral toy_channel (adopted toy_channel toy_pay1) toy_pay1
    (Accept_adopted (Crypto := toy_crypto) toy_channel toy_pay1 ltac:(vm_compute; reflexivity))
    ltac:(cbn; lia) ltac:(cbn; lia)).
Defined.

(** The check "no negative anything" does not look at the withdrawals: a
    doubly signed state that withdraws a negative amount is accepted, and leaves
    party A with a balance larger than all the collateral of the channel. *)
Theorem Accept_admits_negative_withdrawal :
  exists (c c' : Channel) (ss : SignedState),
    Accept c ss = Ok c' /\ orZero (st_WithdrawA (ss_State ss)) < 0 /\
    orZero (ch_DepositA c) + orZero (ch_DepositB c) < orZero (st_BalanceA (ss_State (ch_Latest c'))).
Proof.
  set (ss := toy_signed (set_WithdrawA (Some (-70)) (toy_pay_state 1 130 40))).
  exists toy_channel, (adopted toy_channel ss), ss.
  split; [apply Accept_adopted; vm_compute; reflexivity|]. split; vm_compute; reflexivity.
Qed.
