(* ===== verification/ChannelMultipath.v ===== *)
(** * Splitting a payment ([internal/channel/multipath.go], and the construction
    of [internal/channel/multipath_exec.go])

    Amounts of a split in 64 bits as the code computes them, the independence of its
    routes, and the payment made of it: one leg per channel with its derived intent,
    lock and hash. *)
From S2P Require Import Prelude.
From S2P Require Import GoBytes.
From S2P Require Import RecordUpdate.
From S2P Require Import ChannelTypes.
From S2P Require Import ChannelNote.
From S2P Require Import ChannelOnion.
From S2P Require Import ChannelRoute.
From S2P Require Import ChannelCrypto.
From S2P Require Import ChannelState.

Inductive split_err : Type :=
| ErrTooSmallToSplit | ErrNotEnoughRoutes | ErrFragmentSum | ErrSplitLocks (e : pay_err) | ErrSplitRandom
| ErrPlanNotConserving | ErrFragmentExpiryUnsafe | ErrNoFragments | ErrDuplicateFragmentChannel | ErrFragmentNegative
| ErrPlanChannelMismatch | ErrPlanUnverified (e : split_err) | ErrNoFragment.

(** ** Splitting *)

Definition MinFragment : Z := 1000.
Definition MaxFragments : nat := 4.

Record Fragment : Type := mkFragment { fg_Amount : Z; fg_Route : list Candidate; fg_Locks : LockChain }.
Record SplitPlan : Type := mkSplitPlan { sl_Total : Z; sl_Fragments : list Fragment }.

Definition ShouldSplit (total : Z) (routesAvailable : nat) : bool * string :=
  if total <? 2 * MinFragment then (false, "too small to split without producing conspicuous fragments"%string)
  else if (routesAvailable <? 2)%nat then (false, "not enough independent routes to split across"%string)
  else (true, ""%string).

Definition route_clashes (used : gset string) (route : list Candidate) : bool :=
  existsb (fun hop => String.eqb (ca_Operator hop) "" || bool_decide (ca_Operator hop ∈ used)) route.
Fixpoint independent_from (used : gset string) (routes : list (list Candidate)) : list (list Candidate) :=
  match routes with
  | [] => []
  | route :: routes =>
      if route_clashes used route then independent_from used routes
      else route :: independent_from (operators_of route ∪ used) routes
  end.
Definition independentRoutes : list (list Candidate) -> list (list Candidate) := independent_from ∅.

(** [Amount(int64(spare) * weights[i] / sum)], added to the floor. *)
Definition fragment_share (spare sum w : Z) : Z := wrap_i64 (MinFragment + go_quot (wrap_i64 (spare * w)) sum).
Definition sum_i64 (l : list Z) : Z := foldl (fun acc x => wrap_i64 (acc + x)) 0 l.
(** The first largest. *)
Fixpoint largest_from (i best : nat) (bestv : Z) (l : list Z) : nat :=
  match l with
  | [] => best
  | x :: l => if bestv <? x then largest_from (S i) i x l else largest_from (S i) best bestv l
  end.
Definition largest_index (l : list Z) : nat := match l with [] => 0 | x :: l => largest_from 1 0 x l end.
(** [draw i]: the i-th [rand.Int] below 1000. *)
Fixpoint draw_weights (draw : nat -> option Z) (i n : nat) : outcome split_err (list Z) :=
  match n with
  | O => Ok []
  | S n => let? w := of_option ErrSplitRandom (draw i) in let? ws := draw_weights draw (S i) n in Ok (w + 1 :: ws)
  end.
Definition settle_remainder (total : Z) (out : list Z) : list Z :=
  let remainder := wrap_i64 (total - sum_i64 out) in
  if remainder =? 0 then out
  else alter (fun x => wrap_i64 (x + remainder)) (largest_index out) out.
Definition unevenSplit (draw : nat -> option Z) (total : Z) (n : nat) : outcome split_err (list Z) :=
  fail? (n <? 2)%nat with ErrTooSmallToSplit ;;
  let reserved := wrap_i64 (MinFragment * Z.of_nat n) in
  fail? total <? reserved with ErrTooSmallToSplit ;;
  let spare := wrap_i64 (total - reserved) in
  let? weights := draw_weights draw 0 n in
  let sum := sum_i64 weights in
  Ok (settle_remainder total (map (fragment_share spare sum) weights)).

Fixpoint verify_route (seen : gset string) (route : list Candidate) : outcome split_err (gset string) :=
  match route with
  | [] => Ok seen
  | hop :: route =>
      fail? bool_decide (ca_Operator hop ∈ seen) with ErrNotEnoughRoutes ;;
      verify_route ({[ca_Operator hop]} ∪ seen) route
  end.
Fixpoint verify_fragments (seen : gset string) (sum : Z) (fs : list Fragment) : outcome split_err Z :=
  match fs with
  | [] => Ok sum
  | f :: fs =>
      fail? fg_Amount f <? MinFragment with ErrTooSmallToSplit ;;
      let? seen := verify_route seen (fg_Route f) in
      verify_fragments seen (wrap_i64 (sum + fg_Amount f)) fs
  end.
Definition Verify (p : option SplitPlan) : outcome split_err unit :=
  match p with
  | None => Err ErrNotEnoughRoutes
  | Some p =>
      fail? (length (sl_Fragments p) <? 2)%nat with ErrNotEnoughRoutes ;;
      let? sum := verify_fragments ∅ 0 (sl_Fragments p) in
      fail? negb (sum =? sl_Total p) with ErrFragmentSum ;;
      Ok tt
  end.
Definition AllEqual (p : option SplitPlan) : bool :=
  match p with
  | Some (mkSplitPlan _ (f :: ((_ :: _) as fs))) => forallb (fun g => fg_Amount g =? fg_Amount f) fs
  | _ => false
  end.
Definition Sizes (p : SplitPlan) : list Z := merge_sort Z.le (map fg_Amount (sl_Fragments p)).

Section Splitting.
Context `{C : Curve}.

(** [lockDraw i]: the scalars drawn for the locks of fragment [i]. *)
Fixpoint make_fragments (lockDraw : nat -> nat -> option Z) (recipient : Point) (i : nat) (routes : list (list Candidate)) (amounts : list Z)
    : outcome split_err (list Fragment) :=
  match routes, amounts with
  | [], _ => Ok []
  | route :: routes, a :: amounts =>
      match BuildLocks (lockDraw i) recipient (Z.of_nat (length route)) with
      | Err e => Err (ErrSplitLocks e)
      | Panic => Panic
      | Ok locks =>
          let? rest := make_fragments lockDraw recipient (S i) routes amounts in
          Ok (mkFragment a route locks :: rest)
      end
  | _, [] => Panic
  end.
Definition Split (draw : nat -> option Z) (lockDraw : nat -> nat -> option Z) (recipient : Point) (total : Z) (routes : list (list Candidate))
    : outcome split_err SplitPlan :=
  fail? negb (ShouldSplit total (length routes)).1 with ErrTooSmallToSplit ;;
  fail? (length routes <? 2)%nat with ErrNotEnoughRoutes ;;
  let usable := independentRoutes (take MaxFragments routes) in
  fail? (length usable <? 2)%nat with ErrNotEnoughRoutes ;;
  let maxByFloor := go_quot total MinFragment in
  let n := if maxByFloor <? Z.of_nat (length usable) then maxByFloor else Z.of_nat (length usable) in
  fail? n <? 2 with ErrTooSmallToSplit ;;
  let usable := take (Z.to_nat n) usable in
  let? amounts := unevenSplit draw total (Z.to_nat n) in
  let? fragments := make_fragments lockDraw recipient 0 usable amounts in
  let plan := mkSplitPlan total fragments in
  let? _ := Verify (Some plan) in
  Ok plan.
Definition RoutingLocksFor (plan : option SplitPlan) (index : Z) : outcome split_err LockChain :=
  match plan with
  | None => Err ErrNoFragment
  | Some plan =>
      fail? (index <? 0) || (Z.of_nat (length (sl_Fragments plan)) <=? index) with ErrNoFragment ;;
      match sl_Fragments plan !! Z.to_nat index with Some f => Ok (fg_Locks f) | None => Panic end
  end.
End Splitting.

(** ** The payment *)

Record MultipathLeg : Type := mkLeg {
  lg_Index : Z; lg_Channel : bytes; lg_Amount : option Z; lg_Expiry : Z; lg_Intent : bytes; lg_Hash : bytes; lg_LockID : bytes
}.
Record MultipathPayment : Type := mkPayment { mp_ID : bytes; mp_Total : option Z; mp_Deadline : Z; mp_Legs : list MultipathLeg }.

Section Payments.
Context `{Hmac : HmacSha256} `{Crypto : ChannelCrypto}.

Definition FragmentIntent (paymentID : bytes) (index : Z) (channel : bytes) (amount : option Z) : bytes :=
  derive "rabbiit/multipath/intent/v1" [paymentID; u64 (wrap_u64 index); channel; big_bytes (orZero amount)].
Definition FragmentPreimage (secret intent : bytes) : bytes := derive "rabbiit/multipath/preimage/v2" [secret; intent].
Definition FragmentHash (secret intent : bytes) : bytes :=
  let h := take 32 (keccak [FragmentPreimage secret intent]) in h ++ zeros (32 - length h).
Definition settleIntent (lockIntent : bytes) : bytes := derive "rabbiit/multipath/settle/v1" [lockIntent].
Definition refundIntent (lockIntent : bytes) : bytes := derive "rabbiit/multipath/refund/v1" [lockIntent].

Definition make_leg (id secret : bytes) (i : nat) (channel : bytes) (amt expiry : Z) : MultipathLeg :=
  let intent := FragmentIntent id (Z.of_nat i) channel (Some amt) in
  mkLeg (Z.of_nat i) channel (Some amt) expiry intent (FragmentHash secret intent) (derive "rabbiit/multipath/lock/v1" [intent]).
(** The loop: the legs and their sum. *)
Fixpoint make_legs (id secret : bytes) (deadline : Z) (i : nat) (seen : gset bytes) (channels : list bytes) (amounts : list (option Z))
    (expiries : list Z) : outcome split_err (list MultipathLeg * Z) :=
  match channels, amounts, expiries with
  | [], _, _ => Ok ([], 0)
  | channel :: channels, amount :: amounts, expiry :: expiries =>
      let amt := orZero amount in
      fail? amt <=? 0 with ErrFragmentNegative ;;
      fail? bool_decide (channel ∈ seen) with ErrDuplicateFragmentChannel ;;
      fail? (expiry <=? 0) || (deadline <? expiry) with ErrFragmentExpiryUnsafe ;;
      let? (legs, sum) := make_legs id secret deadline (S i) ({[channel]} ∪ seen) channels amounts expiries in
      Ok (make_leg id secret i channel amt expiry :: legs, amt + sum)
  | _, _, _ => Panic
  end.
Definition BuildPayment (id secret : bytes) (total : option Z) (deadline : Z) (channels : list bytes) (amounts : list (option Z)) (expiries : list Z)
    : outcome split_err MultipathPayment :=
  fail? (length channels <? 2)%nat || negb (length channels =? length amounts)%nat || negb (length channels =? length expiries)%nat with ErrNoFragments ;;
  let? (legs, sum) := make_legs id secret deadline 0 ∅ channels amounts expiries in
  fail? negb (sum =? orZero total) with ErrPlanNotConserving ;;
  Ok (mkPayment id (Some (orZero total)) deadline legs).

(** The expiry of a fragment: one window per hop and one for the recipient. *)
Fixpoint plan_windows (now perHopSeconds : Z) (fs : list Fragment) : outcome split_err (list Z) :=
  match fs with
  | [] => Ok []
  | f :: fs =>
      fail? (length (fg_Route f) =? 0)%nat with ErrPlanChannelMismatch ;;
      let? rest := plan_windows now perHopSeconds fs in
      Ok (wrap_i64 (now + wrap_i64 (perHopSeconds * (Z.of_nat (length (fg_Route f)) + 1))) :: rest)
  end.
Definition PaymentFromSplitPlan (plan : option SplitPlan) (id secret : bytes) (channels : list bytes) (now perHopSeconds deadline : Z)
    : outcome split_err MultipathPayment :=
  match Verify plan, plan with
  | Err e, _ => Err (ErrPlanUnverified e)
  | Ok _, Some plan =>
      fail? negb (length channels =? length (sl_Fragments plan))%nat with ErrPlanChannelMismatch ;;
      fail? perHopSeconds <=? 0 with ErrFragmentExpiryUnsafe ;;
      let? expiries := plan_windows now perHopSeconds (sl_Fragments plan) in
      let amounts := map fg_Amount (sl_Fragments plan) in
      BuildPayment id secret (Some (zsum amounts)) deadline channels (map Some amounts) expiries
  | _, _ => Panic
  end.
End Payments.

(** ** The arithmetic of a split *)

Lemma sum_i64_acc (l : list Z) (acc : Z) : (foldl (fun acc x => wrap_i64 (acc + x)) acc l - (acc + zsum l)) mod 2 ^ 64 = 0.
Proof.
  revert acc. induction l as [|x l IH]; intros acc; cbn [foldl zsum foldr].
  - by rewrite Z.add_0_r, Z.sub_diag.
  - fold (zsum l). specialize (IH (wrap_i64 (acc + x))).
    replace (foldl (fun acc x => wrap_i64 (acc + x)) (wrap_i64 (acc + x)) l - (acc + (x + zsum l)))
      with (foldl (fun acc x => wrap_i64 (acc + x)) (wrap_i64 (acc + x)) l - (wrap_i64 (acc + x) + zsum l) + (wrap_i64 (acc + x) - (acc + x))) by lia.
    rewrite Z.add_mod, IH by lia. unfold wrap_s. rewrite Z.add_0_l, Zmod_mod.
    replace ((acc + x + 2 ^ (64 - 1)) mod 2 ^ 64 - 2 ^ (64 - 1) - (acc + x)) with ((acc + x + 2 ^ (64 - 1)) mod 2 ^ 64 - (acc + x + 2 ^ (64 - 1))) by lia.
    rewrite Zminus_mod_idemp_l, Z.sub_diag. done.
Qed.

(** The sum of 64-bit values that fits is their sum. *)
Lemma sum_i64_acc_small (l : list Z) (acc : Z) : Forall (fun x => 0 <= x) l -> 0 <= acc -> acc + zsum l < 2 ^ 63 ->
  foldl (fun acc x => wrap_i64 (acc + x)) acc l = acc + zsum l.
Proof.
  intros Hl. revert acc. induction Hl as [|x l Hx Hl IH]; intros acc Ha Hs; cbn [foldl zsum foldr] in *; [lia|]. fold (zsum l) in *.
  pose proof (zsum_nonneg l Hl). rewrite wrap_s_small by (unfold s_range; lia). rewrite IH by lia. lia.
Qed.
Lemma sum_i64_small (l : list Z) : Forall (fun x => 0 <= x) l -> zsum l < 2 ^ 63 -> sum_i64 l = zsum l.
Proof. intros Hl Hs. unfold sum_i64. by rewrite sum_i64_acc_small by (done || lia). Qed.

Lemma fragment_share_bound (spare sum w : Z) (n : nat) : (0 < n <= 4)%nat -> Z.of_nat n <= sum ->
  fragment_share spare sum w <= MinFragment + 2 ^ 63 / Z.of_nat n /\ s_range 64 (fragment_share spare sum w).
Proof.
  intros Hn Hs. unfold fragment_share. split; [|by apply wrap_s_range]. pose proof (wrap_s_range 64 (spare * w) ltac:(lia)) as Hr.
  set (x := wrap_i64 (spare * w)) in *. unfold s_range in Hr. change (2 ^ (64 - 1)) with (2 ^ 63) in Hr.
  assert (- (2 ^ 63 / Z.of_nat n) <= go_quot x sum <= 2 ^ 63 / Z.of_nat n) as Hq.
  { unfold go_quot. destruct (Z.le_gt_cases 0 x).
    - rewrite Z.quot_div_nonneg by lia. split; [pose proof (Z.div_pos x sum ltac:(lia) ltac:(lia)); pose proof (Z.div_pos (2 ^ 63) (Z.of_nat n) ltac:(lia) ltac:(lia)); lia|].
      transitivity (2 ^ 63 / sum); [apply Z.div_le_mono; lia|apply Z.div_le_compat_l; lia].
    - rewrite <- (Z.opp_involutive x), Z.quot_opp_l, Z.quot_div_nonneg by lia.
      assert (0 <= - x / sum <= 2 ^ 63 / Z.of_nat n); [|pose proof (Z.div_pos (2 ^ 63) (Z.of_nat n) ltac:(lia) ltac:(lia)); lia].
      split; [apply Z.div_pos; lia|]. transitivity (2 ^ 63 / sum); [apply Z.div_le_mono; lia|apply Z.div_le_compat_l; lia]. }
  unfold MinFragment in *. destruct (decide (n = 1%nat)) as [->|Hn1].
  - pose proof (wrap_s_range 64 (1000 + go_quot x sum) ltac:(lia)) as Hw. unfold s_range in Hw.
    change (2 ^ 63 / Z.of_nat 1) with (2 ^ 63). change (2 ^ (64 - 1)) with (2 ^ 63) in Hw. lia.
  - assert (2 ^ 63 / Z.of_nat n <= 2 ^ 63 / 2) by (apply Z.div_le_compat_l; lia). change (2 ^ 63 / 2) with 4611686018427387904 in *.
    rewrite wrap_s_small; [lia|lia|]. unfold s_range. lia.
Qed.

Lemma zsum_le (l : list Z) (b : Z) : Forall (fun x => x <= b) l -> zsum l <= b * Z.of_nat (length l).
Proof. induction 1 as [|x l Hx Hl IH]; cbn [zsum foldr length]; [lia|fold (zsum l); lia]. Qed.

Lemma zsum_alter (l : list Z) (j : nat) (f : Z -> Z) (b m : Z) : Forall (fun x => x <= b) l -> (j < length l)%nat -> (forall x, f x <= m) ->
  zsum (alter f j l) <= b * (Z.of_nat (length l) - 1) + m.
Proof.
  intros Hl. revert j. induction Hl as [|x l Hx Hl IH]; intros [|j] Hj Hm; cbn [length] in *; [lia|lia| |].
  - change (alter f 0%nat (x :: l)) with (f x :: l). cbn [zsum foldr]. fold (zsum l). pose proof (zsum_le l b Hl). specialize (Hm x).
    replace (Z.of_nat (S (length l)) - 1) with (Z.of_nat (length l)) by lia. lia.
  - change (alter f (S j) (x :: l)) with (x :: alter f j l). cbn [zsum foldr]. fold (zsum (alter f j l)). specialize (IH j ltac:(lia) Hm).
    replace (Z.of_nat (S (length l)) - 1) with (Z.of_nat (length l) - 1 + 1) by lia. rewrite Z.mul_add_distr_l. lia.
Qed.

Lemma largest_from_lt (l : list Z) (i best : nat) (v : Z) : (best < i)%nat -> (largest_from i best v l < i + length l)%nat.
Proof.
  revert i best v. induction l as [|x l IH]; intros i best v H; cbn [largest_from length]; [lia|].
  destruct (v <? x); [specialize (IH (S i) i x)|specialize (IH (S i) best v)]; lia.
Qed.
Lemma largest_index_lt (l : list Z) : l <> [] -> (largest_index l < length l)%nat.
Proof. destruct l as [|x l]; [done|]. intros _. unfold largest_index. pose proof (largest_from_lt l 1 0 x ltac:(lia)). cbn [length]. lia. Qed.

Definition draws_weights (draw : nat -> option Z) : Prop := forall k w, draw k = Some w -> 0 <= w < 1000.
Lemma draw_weights_spec (draw : nat -> option Z) (i n : nat) (ws : list Z) : draws_weights draw -> draw_weights draw i n = Ok ws ->
  length ws = n /\ Forall (fun w => 1 <= w <= 1000) ws.
Proof.
  intros Hd. revert i ws. induction n as [|n IH]; intros i ws H; cbn [draw_weights] in H; [apply Ok_inj in H as <-; by split|].
  apply obind_ok in H as (w & Hw & H). apply obind_ok in H as (r & Hr & H). apply Ok_inj in H as <-.
  destruct (draw i) as [w'|] eqn:E; [|discriminate]. apply Ok_inj in Hw as ->. apply Hd in E. apply IH in Hr as [HL HF].
  split; [cbn; lia|]. constructor; [lia|done].
Qed.

Lemma weights_sum (ws : list Z) (n : nat) : length ws = n -> (n <= 4)%nat -> Forall (fun w => 1 <= w <= 1000) ws ->
  sum_i64 ws = zsum ws /\ Z.of_nat n <= zsum ws <= 4000.
Proof.
  intros HL Hn HF. assert (Z.of_nat n <= zsum ws <= 1000 * Z.of_nat n) as HB.
  { rewrite <- HL. clear HL Hn. induction HF as [|w ws Hw HF IH]; cbn [zsum foldr length]; [lia|fold (zsum ws); lia]. }
  split; [|lia]. apply sum_i64_small; [|lia]. eapply Forall_impl; [exact HF|]. cbn. lia.
Qed.

(** Whatever the weights and even where the products overflow, the fragments come
    nowhere near wrapping around together. *)
Lemma unevenSplit_bound (draw : nat -> option Z) (total : Z) (n : nat) (out : list Z) :
  draws_weights draw -> (n <= 4)%nat -> unevenSplit draw total n = Ok out ->
  length out = n /\ zsum out < 2 ^ 64 /\ Forall (s_range 64) out.
Proof.
  intros Hd Hn H. apply guard_err_ok in H as [H1 H]. apply guard_err_ok in H as [H2 H]. apply Nat.ltb_ge in H1.
  apply obind_ok in H as (ws & Hws & H). apply Ok_inj in H as <-. apply draw_weights_spec in Hws as [HL HF]; [|done].
  destruct (weights_sum ws n HL Hn HF) as [-> HS]. set (spare := wrap_i64 (total - _)).
  assert (Forall (fun x => x <= MinFragment + 2 ^ 63 / Z.of_nat n) (map (fragment_share spare (zsum ws)) ws) /\
    Forall (s_range 64) (map (fragment_share spare (zsum ws)) ws)) as [HB HR].
  { split; apply Forall_fmap, Forall_forall; intros w _; by apply (fragment_share_bound _ _ _ n); lia. }
  assert (length (map (fragment_share spare (zsum ws)) ws) = n) as HLo by (by rewrite length_map).
  set (out := map _ ws) in *. unfold settle_remainder. set (r := wrap_i64 (total - _)).
  assert (2 ^ 63 / Z.of_nat n <= 2 ^ 63 / 2) as Hq by (apply Z.div_le_compat_l; lia). change (2 ^ 63 / 2) with 4611686018427387904 in Hq.
  assert ((2 ^ 63 / Z.of_nat n) * Z.of_nat n <= 2 ^ 63) as Hq' by (rewrite Z.mul_comm; apply Z.mul_div_le; lia).
  assert (2 ^ 63 / 4 <= 2 ^ 63 / Z.of_nat n) as Hq0 by (apply Z.div_le_compat_l; lia). change (2 ^ 63 / 4) with 2305843009213693952 in Hq0.
  revert HB Hq Hq' Hq0. generalize (2 ^ 63 / Z.of_nat n). intros q HB Hq Hq' Hq0.
  destruct (Z.eqb_spec r 0).
  - split; [done|]. split; [|done]. apply zsum_le in HB. rewrite HLo in HB. unfold MinFragment in HB. rewrite Z.mul_add_distr_r in HB. lia.
  - split; [by rewrite length_alter|]. assert (out <> []) as Hne by (intros E; rewrite E in HLo; cbn in HLo; lia). split.
    + apply (zsum_alter out (largest_index out) (fun x => wrap_i64 (x + r)) _ (2 ^ 63)) in HB;
        [|by apply largest_index_lt|intros x; pose proof (wrap_s_range 64 (x + r) ltac:(lia)) as Hw; unfold s_range in Hw; change (2 ^ (64 - 1)) with (2 ^ 63) in Hw; lia].
      rewrite HLo in HB. unfold MinFragment in HB. rewrite Z.mul_sub_distr_l, Z.mul_add_distr_r in HB. lia.
    + apply Forall_alter; [done|]. intros x _ _. by apply wrap_s_range.
Qed.

(** ** What a verified plan is *)

Definition hops_of (fs : list Fragment) : list string := concat (map (fun f => ca_Operator <$> fg_Route f) fs).

Lemma verify_route_ok (route : list Candidate) (seen seen' : gset string) :
  verify_route seen route = Ok seen' <->
  NoDup (ca_Operator <$> route) /\ (forall o, o ∈ ca_Operator <$> route -> o ∉ seen) /\ seen' = operators_of route ∪ seen.
Proof.
  revert seen. induction route as [|hop route IH]; intros seen; cbn [verify_route].
  - change (operators_of []) with (∅ : gset string). rewrite union_empty_l_L. split; [intros H; apply Ok_inj in H as ->|intros (_ & _ & ->)]; [|done].
    split; [constructor|]. split; [|done]. intros o Ho. by apply elem_of_nil in Ho.
  - rewrite guard_err_ok, bool_decide_eq_false, IH, operators_of_cons. cbn [fmap list_fmap]. rewrite NoDup_cons.
    assert (operators_of route ∪ ({[ca_Operator hop]} ∪ seen) = {[ca_Operator hop]} ∪ operators_of route ∪ seen) as -> by set_solver.
    split.
    + intros (H1 & H2 & H3 & H4). split; [split; [|done]|].
      * intros Hin. apply (H3 _ Hin). set_solver.
      * split; [|done]. intros o [->|Ho]%elem_of_cons; [done|]. intros Hs. apply (H3 o Ho). set_solver.
    + intros ((H1 & H2) & H3 & H4). split; [apply H3; by left|]. split; [done|]. split; [|done].
      intros o Ho [->%elem_of_singleton|Hs]%elem_of_union; [done|]. by apply (H3 o); [right|].
Qed.

Lemma verify_fragments_ok (fs : list Fragment) (seen : gset string) (sum s : Z) :
  verify_fragments seen sum fs = Ok s <->
  Forall (fun f => MinFragment <= fg_Amount f) fs /\ NoDup (hops_of fs) /\ (forall o, o ∈ hops_of fs -> o ∉ seen) /\
  s = foldl (fun acc x => wrap_i64 (acc + x)) sum (map fg_Amount fs).
Proof.
  revert seen sum. induction fs as [|f fs IH]; intros seen sum; cbn [verify_fragments].
  - split; [intros H; apply Ok_inj in H as ->|intros (_ & _ & _ & ->); done]. split; [constructor|]. split; [constructor|]. split; [|done].
    intros o Ho. by apply elem_of_nil in Ho.
  - rewrite guard_err_ok, Z.ltb_ge, obind_ok. unfold hops_of. cbn [map concat foldl]. fold (hops_of fs). rewrite Forall_cons, NoDup_app. split.
    + intros (H1 & seen' & (H2 & H3 & ->)%verify_route_ok & (H4 & H5 & H6 & ->)%IH). split; [done|]. split; [|split; [|done]].
      * split; [done|]. split; [|done]. intros o Ho Ho'. apply (H6 o Ho'). apply elem_of_union_l, elem_of_list_to_set, Ho.
      * intros o [Ho|Ho]%elem_of_app; [by apply H3|]. intros Hs. apply (H6 o Ho). set_solver.
    + intros ((H1 & H2) & (H3 & H4 & H5) & H6 & ->). split; [done|]. exists (operators_of (fg_Route f) ∪ seen). rewrite verify_route_ok, IH.
      split; [split; [done|split; [|done]]; intros o Ho; apply H6; set_solver|]. split; [done|]. split; [done|]. split; [|done].
      intros o Ho [Hs%elem_of_list_to_set|Hs]%elem_of_union; [by apply (H4 o)|]. apply (H6 o); [set_solver|done].
Qed.

Lemma Verify_ok (p : SplitPlan) :
  Verify (Some p) = Ok tt <->
  (2 <= length (sl_Fragments p))%nat /\ Forall (fun f => MinFragment <= fg_Amount f) (sl_Fragments p) /\
  NoDup (hops_of (sl_Fragments p)) /\ sum_i64 (map fg_Amount (sl_Fragments p)) = sl_Total p.
Proof.
  unfold Verify. rewrite guard_err_ok, Nat.ltb_ge, obind_ok. split.
  - intros (H1 & s & (H2 & H3 & _ & ->)%verify_fragments_ok & [H4 _]%guard_err_ok). apply negb_false_iff, Z.eqb_eq in H4. done.
  - intros (H1 & H2 & H3 & H4). split; [done|]. exists (sum_i64 (map fg_Amount (sl_Fragments p))). rewrite verify_fragments_ok, guard_err_ok, negb_false_iff, Z.eqb_eq.
    split; [|done]. split; [done|]. split; [done|]. split; [|done]. intros o _. apply not_elem_of_empty.
Qed.

Lemma length_independent_from (used : gset string) (routes : list (list Candidate)) :
  (length (independent_from used routes) <= length routes)%nat.
Proof.
  revert used. induction routes as [|r l IH]; intros used; cbn [independent_from length]; [lia|].
  destruct (route_clashes used r); [specialize (IH used); lia|]. cbn [length]. specialize (IH (operators_of r ∪ used)). lia.
Qed.
Lemma length_draw_weights (draw : nat -> option Z) (i n : nat) (ws : list Z) : draw_weights draw i n = Ok ws -> length ws = n.
Proof.
  revert i ws. induction n as [|m IH]; intros i ws Hws; cbn [draw_weights] in Hws; [by apply Ok_inj in Hws as <-|].
  apply obind_ok in Hws as (w & _ & Hws). apply obind_ok in Hws as (r & Hr & Hws). apply Ok_inj in Hws as <-. cbn. f_equal. by eapply IH.
Qed.

Section Splits.
Context `{C : Curve}.

Lemma make_fragments_spec (lockDraw : nat -> nat -> option Z) (recipient : Point) (i : nat) (routes : list (list Candidate)) (amounts : list Z) (fs : list Fragment) :
  make_fragments lockDraw recipient i routes amounts = Ok fs ->
  map fg_Route fs = routes /\ map fg_Amount fs = take (length routes) amounts /\
  forall k f, fs !! k = Some f -> BuildLocks (lockDraw (i + k)%nat) recipient (Z.of_nat (length (fg_Route f))) = Ok (fg_Locks f).
Proof.
  revert i amounts fs. induction routes as [|route routes IH]; intros i amounts fs H; cbn [make_fragments] in H.
  { apply Ok_inj in H as <-. split; [done|]. split; [done|]. intros k f Hk. by rewrite lookup_nil in Hk. }
  destruct amounts as [|a amounts]; [discriminate|]. destruct (BuildLocks _ _ _) as [locks| |] eqn:E; [|discriminate..].
  apply obind_ok in H as (rest & Hr & H). apply Ok_inj in H as <-. apply IH in Hr as (H1 & H2 & H3). cbn [map length take fg_Route fg_Amount].
  split; [by rewrite H1|]. split; [by rewrite H2|]. intros [|k] f Hk; cbn in Hk.
  - injection Hk as <-. rewrite Nat.add_0_r. exact E.
  - rewrite Nat.add_succ_r. by apply H3.
Qed.

Lemma Split_inv (draw : nat -> option Z) (lockDraw : nat -> nat -> option Z) (recipient : Point) (total : Z) (routes : list (list Candidate)) (plan : SplitPlan) :
  Split draw lockDraw recipient total routes = Ok plan ->
  exists n amounts, (2 <= n <= 4)%nat /\ 2 * MinFragment <= total /\ unevenSplit draw total n = Ok amounts /\
    map fg_Amount (sl_Fragments plan) = amounts /\ length amounts = n /\ sl_Total plan = total /\
    map fg_Route (sl_Fragments plan) = take n (independentRoutes (take MaxFragments routes)) /\ Verify (Some plan) = Ok tt /\
    forall k f, sl_Fragments plan !! k = Some f -> BuildLocks (lockDraw k) recipient (Z.of_nat (length (fg_Route f))) = Ok (fg_Locks f).
Proof.
  unfold Split. intros H. apply guard_err_ok in H as [H1 H]. apply guard_err_ok in H as [H2 H].
  assert (length (independentRoutes (take MaxFragments routes)) <= MaxFragments)%nat as HM.
  { unfold independentRoutes. etransitivity; [apply length_independent_from|rewrite length_take; lia]. }
  set (usable := independentRoutes (take MaxFragments routes)) in *. unfold MaxFragments in HM.
  apply guard_err_ok in H as [H3 H]. cbv zeta in H. set (n := if go_quot total MinFragment <? Z.of_nat (length usable) then go_quot total MinFragment else Z.of_nat (length usable)) in H. apply guard_err_ok in H as [H4 H].
  apply obind_ok in H as (amounts & Hu & H). apply obind_ok in H as (fs & Hf & H). apply obind_ok in H as ([] & Hv & H). apply Ok_inj in H as <-.
  apply Nat.ltb_ge in H3. apply Z.ltb_ge in H4. apply negb_false_iff in H1.
  assert (2 * MinFragment <= total) as Ht by (unfold ShouldSplit in H1; destruct (Z.ltb_spec total (2 * MinFragment)); [discriminate|lia]).
  assert (n <= Z.of_nat (length usable)) as Hn by (unfold n; destruct (Z.ltb_spec (go_quot total MinFragment) (Z.of_nat (length usable))); lia).
  exists (Z.to_nat n), amounts. cbn [sl_Fragments sl_Total].
  assert (length amounts = Z.to_nat n) as HLA.
  { apply guard_err_ok in Hu as [_ Hu]. apply guard_err_ok in Hu as [_ Hu]. apply obind_ok in Hu as (ws & Hws & Hu). apply Ok_inj in Hu as <-.
    unfold settle_remainder. rewrite <- (length_draw_weights _ _ _ _ Hws).
    destruct (_ =? 0); by rewrite ?length_alter, length_map. }
  apply make_fragments_spec in Hf as (F1 & F2 & F3). rewrite length_take, Nat.min_l in F2 by lia. rewrite take_ge in F2 by lia.
  split; [lia|]. split; [done|]. split; [done|]. split; [done|]. split; [done|]. split; [done|]. split; [done|]. split; [done|]. exact F3.
Qed.

(** C20. A split pays exactly what was asked: whatever the weights drawn, and even where
    the 64-bit products of the division overflow, the fragments of a plan that is
    returned add up to the total - as integers, not modulo 2^64 - none is below the
    floor, and no operator is on two of them or twice on one. *)
Theorem split_pays_exactly (draw : nat -> option Z) (lockDraw : nat -> nat -> option Z) (recipient : Point) (total : Z)
    (routes : list (list Candidate)) (plan : SplitPlan) (Hd : draws_weights draw) (Ht : s_range 64 total)
    (H : Split draw lockDraw recipient total routes = Ok plan) :
  sl_Total plan = total /\ zsum (map fg_Amount (sl_Fragments plan)) = total /\
  Forall (fun f => MinFragment <= fg_Amount f) (sl_Fragments plan) /\ NoDup (hops_of (sl_Fragments plan)) /\
  (2 <= length (sl_Fragments plan) <= MaxFragments)%nat.
Proof.
  apply Split_inv in H as (n & amounts & Hn & Hmin & Hu & Ha & HL & HT & _ & HV & _).
  apply Verify_ok in HV as (H2 & HF & HN & HS). split; [done|]. split; [|split; [done|]; split; [done|]].
  - apply unevenSplit_bound in Hu as (_ & HB & HR); [|done|lia]. rewrite Ha in *. rewrite HT in HS. pose proof (sum_i64_acc amounts 0) as HM.
    unfold sum_i64 in HS. rewrite HS, Z.add_0_l in HM. apply Z.mod_divide in HM; [|lia]. destruct HM as [q Hq].
    assert (2000 <= zsum amounts) as Hlow.
    { rewrite <- Ha. clear -HF H2. unfold MinFragment in HF. destruct (sl_Fragments plan) as [|f [|g fs]]; cbn in H2; [lia|lia|].
      apply Forall_cons in HF as [Hf HF]. apply Forall_cons in HF as [Hg HF]. cbn [map zsum foldr].
      assert (0 <= foldr Z.add 0 (map fg_Amount fs)); [|lia]. apply zsum_nonneg, Forall_fmap. eapply Forall_impl; [exact HF|]. cbn. lia. }
    unfold s_range in Ht. unfold MinFragment in Hmin. change (2 ^ (64 - 1)) with 9223372036854775808 in *. change (2 ^ 64) with 18446744073709551616 in *. lia.
  - rewrite <- Ha, length_map in HL. unfold MaxFragments. lia.
Qed.
End Splits.

(** ** When a split succeeds *)

Lemma fragment_share_exact (spare sum w : Z) : 0 <= spare -> spare * 1000 < 2 ^ 63 -> 1 <= w <= 1000 -> w <= sum ->
  fragment_share spare sum w = MinFragment + spare * w / sum /\ 0 <= spare * w / sum <= spare /\ spare * w / sum * sum <= spare * w.
Proof.
  intros Hs Ho Hw Hp. assert (0 <= spare * w <= spare * 1000) as Hm by nia.
  assert (0 <= spare * w / sum <= spare) as Hq by (split; [apply Z.div_pos; lia|apply Z.div_le_upper_bound; nia]).
  split; [|split; [done|rewrite Z.mul_comm; apply Z.mul_div_le; lia]].
  unfold fragment_share, go_quot. rewrite (wrap_s_small 64 (spare * w)) by (unfold s_range; change (2 ^ (64 - 1)) with (2 ^ 63); lia).
  rewrite Z.quot_div_nonneg by lia. apply wrap_s_small; [lia|]. unfold s_range, MinFragment. change (2 ^ (64 - 1)) with (2 ^ 63). lia.
Qed.

Lemma shares_fit (spare sum : Z) (ws : list Z) : 0 <= spare -> spare * 1000 < 2 ^ 63 -> 0 < sum ->
  Forall (fun w => 1 <= w <= 1000 /\ w <= sum) ws ->
  (zsum (map (fragment_share spare sum) ws) - MinFragment * Z.of_nat (length ws)) * sum <= spare * zsum ws /\
  Forall (fun x => MinFragment <= x <= MinFragment + spare) (map (fragment_share spare sum) ws).
Proof.
  intros Hs Ho Hp HF. induction HF as [|w ws [Hw Hws] HF [IH1 IH2]]; [split; [cbn; lia|constructor]|].
  destruct (fragment_share_exact spare sum w Hs Ho Hw Hws) as (E & H1 & H2). cbn [map]. rewrite !zsum_cons, E. cbn [length].
  split; [rewrite Nat2Z.inj_succ; nia|]. constructor; [lia|done].
Qed.

Lemma zsum_alter_add (l : list Z) (j : nat) (f : Z -> Z) (r : Z) : (j < length l)%nat -> (forall x, x ∈ l -> f x = x + r) ->
  zsum (alter f j l) = zsum l + r.
Proof.
  revert j. induction l as [|x l IH]; intros [|j] Hj Hf; cbn [length] in Hj; [lia|lia| |].
  - change (alter f 0%nat (x :: l)) with (f x :: l). rewrite !zsum_cons, Hf by set_solver. lia.
  - change (alter f (S j) (x :: l)) with (x :: alter f j l). rewrite !zsum_cons, IH; [lia|lia|]. intros y Hy. apply Hf. set_solver.
Qed.

Lemma draw_weights_ok (draw : nat -> option Z) (i n : nat) : (forall k, is_Some (draw k)) -> exists ws, draw_weights draw i n = Ok ws.
Proof.
  intros Hd. revert i. induction n as [|n IH]; intros i; cbn [draw_weights]; [eauto|].
  destruct (Hd i) as [w ->]. cbn [of_option obind]. destruct (IH (S i)) as [ws ->]. cbn. eauto.
Qed.

Lemma elem_le_zsum (w : Z) (ws : list Z) : w ∈ ws -> Forall (fun x => 0 <= x) ws -> w <= zsum ws.
Proof.
  intros Hw HF. induction HF as [|x ws Hx HF IH]; [by apply elem_of_nil in Hw|]. rewrite zsum_cons. pose proof (zsum_nonneg ws HF).
  apply elem_of_cons in Hw as [->|Hw]; [lia|]. specialize (IH Hw). lia.
Qed.

(** While the products fit in 64 bits the division is exact and keeps the floor. *)
Lemma unevenSplit_exact (draw : nat -> option Z) (total : Z) (n : nat) : (forall k, is_Some (draw k)) -> draws_weights draw ->
  (2 <= n <= 4)%nat -> MinFragment * Z.of_nat n <= total -> (total - MinFragment * Z.of_nat n) * 1000 < 2 ^ 63 ->
  exists out, unevenSplit draw total n = Ok out /\ length out = n /\ zsum out = total /\ Forall (fun x => MinFragment <= x <= total) out.
Proof.
  intros Hs Hd Hn Hf Ho. unfold unevenSplit. rewrite (proj2 (Nat.ltb_ge _ _)) by lia. cbn [guard_err].
  assert (wrap_i64 (MinFragment * Z.of_nat n) = MinFragment * Z.of_nat n) as -> by (apply wrap_s_small; unfold MinFragment, s_range; lia).
  rewrite (proj2 (Z.ltb_ge _ _)) by lia. cbn [guard_err]. set (spare := total - MinFragment * Z.of_nat n) in *.
  assert (wrap_i64 spare = spare) as -> by (apply wrap_s_small; unfold s_range; change (2 ^ (64 - 1)) with (2 ^ 63); lia).
  destruct (draw_weights_ok draw 0 n Hs) as [ws Hws]. rewrite Hws. cbn [obind]. apply draw_weights_spec in Hws as [HL HF]; [|done].
  destruct (weights_sum ws n HL ltac:(lia) HF) as [-> HS].
  assert (Forall (fun w => 1 <= w <= 1000 /\ w <= zsum ws) ws) as HF'.
  { apply Forall_forall. intros w Hw. rewrite Forall_forall in HF. split; [by apply HF|]. apply elem_le_zsum; [done|]. apply Forall_forall. intros x Hx. specialize (HF x Hx). lia. }
  destruct (shares_fit spare (zsum ws) ws ltac:(lia) ltac:(lia) ltac:(lia) HF') as [H1 H2]. set (out := map _ ws) in *.
  assert (length out = n) as HLo by (unfold out; by rewrite length_map).
  assert (MinFragment * Z.of_nat n <= zsum out <= total) as HZ.
  { split; [|nia]. rewrite <- HLo. clear -H2. induction H2 as [|x l Hx H2 IH]; [cbn; lia|]. rewrite zsum_cons. cbn [length]. lia. }
  assert (sum_i64 out = zsum out) as Hsum.
  { apply sum_i64_small; [|unfold MinFragment in *; lia]. eapply Forall_impl; [exact H2|]. unfold MinFragment. cbn. lia. }
  unfold settle_remainder. rewrite Hsum. assert (wrap_i64 (total - zsum out) = total - zsum out) as ->
    by (apply wrap_s_small; unfold s_range, MinFragment in *; change (2 ^ (64 - 1)) with (2 ^ 63); lia).
  eexists. split; [done|]. destruct (Z.eqb_spec (total - zsum out) 0) as [E|E].
  - split; [done|]. split; [lia|]. eapply Forall_impl; [exact H2|]. unfold MinFragment in *. cbn. lia.
  - assert (forall x, x ∈ out -> wrap_i64 (x + (total - zsum out)) = x + (total - zsum out) /\ MinFragment <= x + (total - zsum out) <= total) as HW.
    { intros x Hx. assert (x <= zsum out) by (apply elem_le_zsum; [done|]; eapply Forall_impl; [exact H2|]; unfold MinFragment; cbn; lia).
      rewrite Forall_forall in H2. specialize (H2 x Hx). cbn in H2. unfold MinFragment in *. split; [|lia].
      apply wrap_s_small; [lia|]. unfold s_range. change (2 ^ (64 - 1)) with (2 ^ 63). lia. }
    split; [by rewrite length_alter|]. assert (out <> []) as Hne by (intros E'; rewrite E' in HLo; cbn in HLo; lia). split.
    + rewrite (zsum_alter_add out (largest_index out) _ (total - zsum out)); [lia|by apply largest_index_lt|]. intros x Hx. by apply HW.
    + apply Forall_lookup. intros k y Hy. destruct (decide (largest_index out = k)) as [Hk|Hk].
      * rewrite Hk, list_lookup_alter_eq in Hy. destruct (out !! k) as [x|] eqn:Hx; [|discriminate]. injection Hy as <-.
        apply list_elem_of_lookup_2, HW in Hx as [-> Hx]. exact Hx.
      * rewrite list_lookup_alter_ne in Hy by done. rewrite Forall_lookup in H2. specialize (H2 k y Hy). unfold MinFragment in *. cbn in *. lia.
Qed.

(** With nothing to spare above the floors every fragment is the floor. *)
Lemma unevenSplit_floor_only (draw : nat -> option Z) (n : nat) (out : list Z) : draws_weights draw -> (2 <= n <= 4)%nat ->
  unevenSplit draw (MinFragment * Z.of_nat n) n = Ok out -> Forall (fun x => x = MinFragment) out.
Proof.
  intros Hd Hn H. apply guard_err_ok in H as [_ H]. apply guard_err_ok in H as [_ H]. cbv zeta in H.
  assert (wrap_i64 (MinFragment * Z.of_nat n) = MinFragment * Z.of_nat n) as EW by (apply wrap_s_small; unfold MinFragment, s_range; lia).
  rewrite EW, Z.sub_diag in H. change (wrap_i64 0) with 0 in H. apply obind_ok in H as (ws & Hws & H). apply Ok_inj in H as <-.
  apply draw_weights_spec in Hws as [HL HF]; [|done]. destruct (weights_sum ws n HL ltac:(lia) HF) as [-> HS].
  assert (map (fragment_share 0 (zsum ws)) ws = replicate n MinFragment) as ->.
  { assert (zsum ws <> 0) as Hz by lia. clear -HL HF Hz. revert Hz. generalize (zsum ws). intros s Hz. subst n.
    induction HF as [|w ws Hw HF IH]; [done|]. cbn [map length replicate]. by rewrite IH. }
  assert (sum_i64 (replicate n MinFragment) = MinFragment * Z.of_nat n) as Es by (assert (n = 2 \/ n = 3 \/ n = 4)%nat as [-> | [-> | ->]] by lia; reflexivity).
  unfold settle_remainder. rewrite Es, Z.sub_diag. change (wrap_i64 0) with 0. cbn [Z.eqb]. by apply Forall_replicate.
Qed.

Lemma independent_all (routes : list (list Candidate)) (used : gset string) :
  Forall (fun r => Forall (fun h => ca_Operator h <> ""%string) r) routes -> NoDup (concat (map (fun r => ca_Operator <$> r) routes)) ->
  (forall o, o ∈ concat (map (fun r => ca_Operator <$> r) routes) -> o ∉ used) -> independent_from used routes = routes.
Proof.
  intros HF. revert used. induction HF as [|r routes Hr HF IH]; intros used HN Hu; [done|]. cbn [map concat independent_from] in *.
  apply NoDup_app in HN as (_ & HX & HN).
  assert (route_clashes used r = false) as ->.
  { unfold route_clashes. apply not_true_is_false. rewrite existsb_exists. intros (h & Hh & Hc). apply list_elem_of_In in Hh.
    apply orb_true_iff in Hc as [Hc|Hc]; [apply String.eqb_eq in Hc; rewrite Forall_forall in Hr; by apply (Hr h)|].
    apply bool_decide_eq_true in Hc. apply (Hu (ca_Operator h)); [|done]. apply elem_of_app. left. by apply list_elem_of_fmap_2. }
  f_equal. apply IH; [done|]. intros o Ho [Hin%elem_of_list_to_set|Hin]%elem_of_union; [by apply (HX o)|].
  apply (Hu o); [|done]. apply elem_of_app. by right.
Qed.

Section Succeeds.
Context `{C : Curve}.

Lemma build_locks_ok (n k : nat) (draw : nat -> option Z) (r : Z * Z) (acc : Z) (chain : LockChain) :
  (forall k, is_Some (draw k)) -> exists chain', build_locks n k draw r acc chain = Ok chain'.
Proof.
  intros Hd. revert k acc chain. induction n as [|n IH]; intros k acc chain; cbn [build_locks]; [eauto|].
  destruct (Hd k) as [b ->]. cbn [of_option obind]. apply IH.
Qed.

Lemma make_fragments_ok (lockDraw : nat -> nat -> option Z) (r : Z * Z) (i : nat) (routes : list (list Candidate)) (amounts : list Z) :
  (forall i k, is_Some (lockDraw i k)) -> Forall (fun r => 1 <= length r <= MaxHops)%nat routes -> length routes = length amounts ->
  exists fs, make_fragments lockDraw (point_of r) i routes amounts = Ok fs.
Proof.
  intros Hd HF. revert i amounts. induction HF as [|rt routes Hr HF IH]; intros i [|a amounts] HL; try discriminate; cbn [make_fragments]; [eauto|].
  assert (exists locks, BuildLocks (lockDraw i) (point_of r) (Z.of_nat (length rt)) = Ok locks) as [locks ->].
  { unfold BuildLocks. unfold MaxHops in *. rewrite (proj2 (Z.leb_gt _ _)), (proj2 (Z.ltb_ge _ _)) by lia. cbn [orb guard_err point_of].
    apply build_locks_ok, Hd. }
  destruct (IH (S i) amounts) as [fs ->]; [by injection HL|]. cbn. eauto.
Qed.

(** A payment that can be split is: two to four routes of one to three hops, all
    operators named and no two the same, and a total of at least two floors whose
    thousandfold fits in 64 bits.  The fragments are the floor at least and add up. *)
Theorem Split_succeeds (draw : nat -> option Z) (lockDraw : nat -> nat -> option Z) (recipient : Z * Z) (total : Z) (routes : list (list Candidate))
    (Hs : forall k, is_Some (draw k)) (Hd : draws_weights draw) (Hl : forall i k, is_Some (lockDraw i k))
    (Hn : (2 <= length routes <= MaxFragments)%nat) (Hlen : Forall (fun r => 1 <= length r <= MaxHops)%nat routes)
    (Hnamed : Forall (fun r => Forall (fun h => ca_Operator h <> ""%string) r) routes)
    (Hdistinct : NoDup (concat (map (fun r => ca_Operator <$> r) routes))) (Ht : 2 * MinFragment <= total) (Hfit : total * 1000 < 2 ^ 63) :
  exists plan, Split draw lockDraw (point_of recipient) total routes = Ok plan /\ zsum (map fg_Amount (sl_Fragments plan)) = total /\
    map fg_Route (sl_Fragments plan) = take (Z.to_nat (total / MinFragment)) routes.
Proof.
  unfold Split, ShouldSplit, MaxFragments in *. rewrite (proj2 (Z.ltb_ge _ _)) by lia. rewrite (proj2 (Nat.ltb_ge _ _)) by lia. cbn [fst negb guard_err].
  assert (independentRoutes (take 4 routes) = routes) as ->.
  { rewrite take_ge by lia. apply independent_all; [done|done|]. intros o _. apply not_elem_of_empty. }
  rewrite (proj2 (Nat.ltb_ge _ _)) by lia. cbn [guard_err]. unfold go_quot. rewrite Z.quot_div_nonneg by (unfold MinFragment in *; lia).
  set (q := total / MinFragment). assert (2 <= q /\ q * MinFragment <= total) as [Hq Hq'].
  { unfold q, MinFragment in *. split; [apply Z.div_le_lower_bound; lia|]. rewrite Z.mul_comm. apply Z.mul_div_le. lia. }
  set (n := if q <? Z.of_nat (length routes) then q else Z.of_nat (length routes)).
  assert (2 <= n <= 4 /\ n <= q /\ n <= Z.of_nat (length routes) /\ take (Z.to_nat n) routes = take (Z.to_nat q) routes) as (Hn1 & Hn2 & Hn3 & Htk).
  { unfold n. destruct (Z.ltb_spec q (Z.of_nat (length routes))); [split; [lia|]; split; [lia|]; split; [lia|done]|].
    split; [lia|]. split; [lia|]. split; [lia|]. rewrite !take_ge by lia. done. }
  rewrite (proj2 (Z.ltb_ge n 2)) by lia. cbn [guard_err].
  destruct (unevenSplit_exact draw total (Z.to_nat n) Hs Hd) as (out & -> & HLo & HZ & HF); [lia|unfold MinFragment in *; nia|unfold MinFragment in *; lia|].
  cbn [obind]. destruct (make_fragments_ok lockDraw recipient 0 (take (Z.to_nat n) routes) out Hl) as [fs Hfs].
  { by apply Forall_take. }
  { rewrite length_take. lia. }
  rewrite Hfs. cbn [obind]. apply make_fragments_spec in Hfs as (F1 & F2 & _). rewrite length_take, Nat.min_l, take_ge in F2 by lia.
  assert (Verify (Some (mkSplitPlan total fs)) = Ok tt) as ->.
  { apply Verify_ok. cbn [sl_Fragments sl_Total]. split; [apply (f_equal length) in F2; rewrite length_map in F2; lia|]. split; [|split].
    - assert (Forall (fun x => MinFragment <= x) (fg_Amount <$> fs)) as HA; [|rewrite Forall_fmap in HA; exact HA].
      change (fg_Amount <$> fs) with (map fg_Amount fs). rewrite F2. eapply Forall_impl; [exact HF|]. cbn. lia.
    - unfold hops_of. rewrite <- (map_map fg_Route (fun r => ca_Operator <$> r)), F1. rewrite <- (take_drop (Z.to_nat n) routes), map_app, concat_app in Hdistinct.
      by apply NoDup_app in Hdistinct as [? _].
    - rewrite F2. rewrite sum_i64_small; [done| |lia]. eapply Forall_impl; [exact HF|]. unfold MinFragment. cbn. lia. }
  cbn [obind]. eexists. split; [done|]. cbn [sl_Fragments]. rewrite F2, F1. split; [done|]. exact Htk.
Qed.
End Succeeds.

(** ** What a payment is *)

Section Built.
Context `{Hmac : HmacSha256} `{Crypto : ChannelCrypto}.

(** The legs of parallel lists. *)
Fixpoint legs_of (id secret : bytes) (i : nat) (channels : list bytes) (amounts expiries : list Z) : list MultipathLeg :=
  match channels, amounts, expiries with
  | channel :: channels, amt :: amounts, expiry :: expiries => make_leg id secret i channel amt expiry :: legs_of id secret (S i) channels amounts expiries
  | _, _, _ => []
  end.

Lemma make_legs_ok (id secret : bytes) (deadline : Z) (i : nat) (seen : gset bytes) (channels : list bytes) (amounts : list (option Z))
    (expiries : list Z) (legs : list MultipathLeg) (sum : Z) :
  length channels = length amounts -> length channels = length expiries ->
  make_legs id secret deadline i seen channels amounts expiries = Ok (legs, sum) <->
  Forall (fun a => 0 < orZero a) amounts /\ NoDup channels /\ (forall c, c ∈ channels -> c ∉ seen) /\ Forall (fun e => 0 < e <= deadline) expiries /\
  legs = legs_of id secret i channels (map orZero amounts) expiries /\ sum = zsum (map orZero amounts).
Proof.
  revert i seen amounts expiries legs sum. induction channels as [|c channels IH]; intros i seen [|a amounts] [|e expiries] legs sum HA HE; try discriminate.
  - cbn [make_legs map legs_of zsum foldr]. split; [intros H; apply Ok_inj in H as [= -> ->]|intros (_ & _ & _ & _ & -> & ->); done].
    split; [constructor|]. split; [constructor|]. split; [intros c Hc; by apply elem_of_nil in Hc|]. split; [constructor|done].
  - injection HA as HA. injection HE as HE. cbn [make_legs map legs_of]. rewrite zsum_cons, !guard_err_ok, Z.leb_gt, bool_decide_eq_false, orb_false_iff, Z.leb_gt, Z.ltb_ge, obind_ok.
    rewrite !Forall_cons, NoDup_cons. split.
    + intros (H1 & H2 & H3 & [legs' sum'] & (H4 & H5 & H6 & H7 & -> & ->)%IH & H8); [|done|done]. apply Ok_inj in H8 as [= <- <-].
      split; [done|]. split; [split; [intros Hin; apply (H6 c Hin); set_solver|done]|]. split; [|done].
      intros x [->|Hx]%elem_of_cons; [done|]. intros Hs. apply (H6 x Hx). set_solver.
    + intros ((H1 & H4) & (H2 & H5) & H6 & (H3 & H7) & -> & ->). split; [done|]. split; [apply H6; by left|]. split; [lia|].
      exists (legs_of id secret (S i) channels (map orZero amounts) expiries, zsum (map orZero amounts)). split; [|done]. apply IH; [done|done|].
      split; [done|]. split; [done|]. split; [|done]. intros x Hx [->%elem_of_singleton|Hs]%elem_of_union; [done|]. apply (H6 x); [by right|done].
Qed.

Lemma BuildPayment_inv (id secret : bytes) (total : option Z) (deadline : Z) (channels : list bytes) (amounts : list (option Z))
    (expiries : list Z) (pay : MultipathPayment) :
  BuildPayment id secret total deadline channels amounts expiries = Ok pay ->
  (2 <= length channels)%nat /\ length channels = length amounts /\ length channels = length expiries /\
  Forall (fun a => 0 < orZero a) amounts /\ NoDup channels /\ Forall (fun e => 0 < e <= deadline) expiries /\
  zsum (map orZero amounts) = orZero total /\
  pay = mkPayment id (Some (orZero total)) deadline (legs_of id secret 0 channels (map orZero amounts) expiries).
Proof.
  unfold BuildPayment. rewrite guard_err_ok, !orb_false_iff, !negb_false_iff, !Nat.eqb_eq, Nat.ltb_ge, obind_ok.
  intros (((H1 & H2) & H3) & [legs sum] & (H4 & H5 & _ & H6 & -> & ->)%make_legs_ok & [H7 H8]%guard_err_ok); [|done|done].
  apply Ok_inj in H8 as <-. apply negb_false_iff, Z.eqb_eq in H7. done.
Qed.

(** A payment is built exactly when it is sound: at least two fragments, as many
    amounts and expiries as channels, every amount positive, no channel twice, every
    expiry set and within the deadline, and the amounts adding up to the total; its
    legs are then the fragments, each under its derived identifiers. *)
Theorem BuildPayment_exact (id secret : bytes) (total : option Z) (deadline : Z) (channels : list bytes) (amounts : list (option Z))
    (expiries : list Z) (pay : MultipathPayment) :
  BuildPayment id secret total deadline channels amounts expiries = Ok pay <->
  (2 <= length channels)%nat /\ length channels = length amounts /\ length channels = length expiries /\
  Forall (fun a => 0 < orZero a) amounts /\ NoDup channels /\ Forall (fun e => 0 < e <= deadline) expiries /\
  zsum (map orZero amounts) = orZero total /\
  pay = mkPayment id (Some (orZero total)) deadline (legs_of id secret 0 channels (map orZero amounts) expiries).
Proof.
  split; [apply BuildPayment_inv|]. unfold BuildPayment. rewrite guard_err_ok, !orb_false_iff, !negb_false_iff, !Nat.eqb_eq, Nat.ltb_ge, obind_ok.
  intros (H1 & H2 & H3 & H4 & H5 & H6 & H7 & ->). split; [done|].
  exists (legs_of id secret 0 channels (map orZero amounts) expiries, zsum (map orZero amounts)). split.
  - apply make_legs_ok; [done|done|]. split; [done|]. split; [done|]. split; [|done]. intros c _. apply not_elem_of_empty.
  - rewrite H7, Z.eqb_refl. done.
Qed.

Lemma legs_of_fields (id secret : bytes) (i : nat) (channels : list bytes) (amounts expiries : list Z) :
  length channels = length amounts -> length channels = length expiries ->
  map lg_Channel (legs_of id secret i channels amounts expiries) = channels /\
  map lg_Amount (legs_of id secret i channels amounts expiries) = map Some amounts /\
  map lg_Expiry (legs_of id secret i channels amounts expiries) = expiries /\
  map lg_Index (legs_of id secret i channels amounts expiries) = seqZ (Z.of_nat i) (Z.of_nat (length channels)).
Proof.
  revert i amounts expiries. induction channels as [|c channels IH]; intros i [|a amounts] [|e expiries] HA HE; try discriminate; [done|].
  injection HA as HA. injection HE as HE. destruct (IH (S i) amounts expiries HA HE) as (H1 & H2 & H3 & H4). cbn [legs_of map length].
  rewrite H1, H2, H3, H4. split; [done|]. split; [done|]. split; [done|]. rewrite Nat2Z.inj_succ, (seqZ_cons (Z.of_nat i)) by lia.
  cbn [make_leg lg_Index]. f_equal. f_equal; lia.
Qed.

Lemma plan_windows_spec (now perHop : Z) (fs : list Fragment) (es : list Z) : plan_windows now perHop fs = Ok es ->
  es = map (fun f => wrap_i64 (now + wrap_i64 (perHop * (Z.of_nat (length (fg_Route f)) + 1)))) fs.
Proof.
  revert es. induction fs as [|f fs IH]; intros es H; cbn [plan_windows] in H; [by apply Ok_inj in H as <-|].
  apply guard_err_ok in H as [_ H]. apply obind_ok in H as (r & Hr & H). apply Ok_inj in H as <-. apply IH in Hr as ->. done.
Qed.

(** The legs of a built payment are numbered in order, their amounts set, positive
    and adding up to the total. *)
Record payment_ok (p : MultipathPayment) : Prop := {
  po_index : map lg_Index (mp_Legs p) = seqZ 0 (Z.of_nat (length (mp_Legs p)));
  po_amounts : exists amounts, map lg_Amount (mp_Legs p) = map Some amounts /\ Forall (fun a => 0 < a) amounts /\ mp_Total p = Some (zsum amounts)
}.
Lemma BuildPayment_ok (id secret : bytes) (total : option Z) (deadline : Z) (channels : list bytes) (amounts : list (option Z))
    (expiries : list Z) (pay : MultipathPayment) :
  BuildPayment id secret total deadline channels amounts expiries = Ok pay -> payment_ok pay /\ NoDup (map lg_Channel (mp_Legs pay)).
Proof.
  intros (H1 & H2 & H3 & H4 & H5 & H6 & H7 & ->)%BuildPayment_inv.
  destruct (legs_of_fields id secret 0 channels (map orZero amounts) expiries) as (F1 & F2 & F3 & F4); [by rewrite length_map|done|].
  split; [|cbn [mp_Legs]; by rewrite F1]. split; cbn [mp_Legs mp_Total].
  - rewrite F4. f_equal. f_equal. apply (f_equal length) in F1. rewrite length_map in F1. by rewrite F1.
  - exists (map orZero amounts). split; [exact F2|]. split; [by apply Forall_fmap|]. by rewrite H7.
Qed.

(** A split plan becomes a payment without changing a number: the payment made of
    a plan has the plan's total, one leg per fragment with the fragment's amount, on
    the channels given, no two alike, and no leg outlives the deadline. *)
Theorem split_payment_conserves (plan : SplitPlan) (id secret : bytes) (channels : list bytes) (now perHop deadline : Z) (pay : MultipathPayment)
    (Hsum : zsum (map fg_Amount (sl_Fragments plan)) = sl_Total plan)
    (H : PaymentFromSplitPlan (Some plan) id secret channels now perHop deadline = Ok pay) :
  mp_Total pay = Some (sl_Total plan) /\ map lg_Amount (mp_Legs pay) = map (fun f => Some (fg_Amount f)) (sl_Fragments plan) /\
  map lg_Channel (mp_Legs pay) = channels /\ NoDup channels /\ Forall (fun leg => 0 < lg_Expiry leg <= mp_Deadline pay) (mp_Legs pay) /\
  mp_Deadline pay = deadline.
Proof.
  unfold PaymentFromSplitPlan in H. destruct (Verify (Some plan)) as [[]| |]; [|discriminate..].
  apply guard_err_ok in H as [_ H]. apply guard_err_ok in H as [_ H]. apply obind_ok in H as (es & Hes & H). cbv zeta in H.
  unfold BuildPayment in H. apply guard_err_ok in H as [HL H]. apply orb_false_iff in HL as [HL HL3]. apply orb_false_iff in HL as [_ HL2].
  apply negb_false_iff, Nat.eqb_eq in HL2, HL3. apply obind_ok in H as ([legs sum] & Hm & H). apply guard_err_ok in H as [_ H]. apply Ok_inj in H as <-.
  apply make_legs_ok in Hm as (_ & HN & _ & HE & -> & _); [|done|done]. cbn [mp_Total mp_Legs mp_Deadline].
  assert (map orZero (map Some (map fg_Amount (sl_Fragments plan))) = map fg_Amount (sl_Fragments plan)) as Em by (rewrite map_map; apply map_id).
  rewrite Em. destruct (legs_of_fields id secret 0 channels (map fg_Amount (sl_Fragments plan)) es) as (F1 & F2 & F3 & _); [by rewrite !length_map in *|done|].
  rewrite F1, F2. cbn [orZero default]. rewrite Hsum. split; [done|]. split; [by rewrite map_map|]. split; [done|]. split; [done|]. split; [|done].
  apply Forall_forall. intros leg Hleg. rewrite Forall_forall in HE. apply HE. rewrite <- F3. change (lg_Expiry leg ∈ lg_Expiry <$> legs_of id secret 0 channels (map fg_Amount (sl_Fragments plan)) es).
  by apply list_elem_of_fmap_2.
Qed.

(** The widths Go gives what a leg is derived from. *)
Record leg_typed (id : bytes) (i : Z) (ch : bytes) (amt : Z) : Prop := {
  lt_id : length id = 32%nat;
  lt_index : 0 <= i < 2 ^ 63;
  lt_channel : length ch = 32%nat;
  lt_amount : 0 <= amt < 256 ^ 32
}.

Lemma short_parts2 (a b : bytes) : length a = 32%nat -> length b = 32%nat -> short_parts [a; b].
Proof. intros Ha Hb. unfold short_parts. rewrite !Forall_cons, Ha, Hb. split; [lia|]. split; [lia|constructor]. Qed.

Lemma leg_parts_short (id ch : bytes) (i amt : Z) : leg_typed id i ch amt ->
  short_parts [id; u64 (wrap_u64 i); ch; big_bytes (orZero (Some amt))].
Proof.
  intros [H1 H2 H3 H4]. unfold short_parts. rewrite !Forall_cons, H1, H3. unfold u64. rewrite length_word. change (orZero (Some amt)) with amt.
  assert (length (big_bytes amt) <= 32)%nat by (unfold big_bytes; rewrite length_be_encode; apply byte_len_le; change (Z.of_nat 32) with 32; lia).
  split; [lia|]. split; [lia|]. split; [lia|]. split; [lia|constructor].
Qed.

(** What the intent of a leg is derived from. *)
Definition intent_parts (id : bytes) (i : Z) (ch : bytes) (amt : Z) : list bytes := [id; u64 (wrap_u64 i); ch; big_bytes (orZero (Some amt))].
Definition intent_collide (id : bytes) (i : Z) (ch : bytes) (amt : Z) (id' : bytes) (i' : Z) (ch' : bytes) (amt' : Z) : Prop :=
  derive_collide "rabbiit/multipath/intent/v1" (intent_parts id i ch amt) "rabbiit/multipath/intent/v1" (intent_parts id' i' ch' amt').

Lemma FragmentIntent_inj (id id' : bytes) (i i' : Z) (ch ch' : bytes) (amt amt' : Z) : leg_typed id i ch amt -> leg_typed id' i' ch' amt' ->
  FragmentIntent id i ch (Some amt) = FragmentIntent id' i' ch' (Some amt') ->
  (id = id' /\ i = i' /\ ch = ch' /\ amt = amt') \/ intent_collide id i ch amt id' i' ch' amt'.
Proof.
  intros Ht Ht' H. apply derive_inj in H as [[_ H]|?]; [left|by right|by apply leg_parts_short..]. destruct Ht, Ht'.
  injection H as -> Hi -> Ha. split; [done|]. split; [|split; [done|]].
  - apply u64_inj in Hi; [|by apply wrap_u_range..]. rewrite !wrap_u_small in Hi by (unfold u_range; lia). done.
  - apply big_bytes_inj in Ha; [exact Ha|cbn; lia..].
Qed.

(** A preimage opens one fragment of one payment: two fragments of payments under
    one secret that lock the same hash are the same fragment - same payment, index,
    channel and amount - or the derivations or keccak collide on
    the very inputs compared. *)
Theorem fragment_hashes_apart {CL : ChannelCryptoLaws Crypto} (secret id id' : bytes) (i i' : Z) (ch ch' : bytes) (amt amt' : Z)
    (Hs : length secret = 32%nat) (Ht : leg_typed id i ch amt) (Ht' : leg_typed id' i' ch' amt')
    (H : FragmentHash secret (FragmentIntent id i ch (Some amt)) = FragmentHash secret (FragmentIntent id' i' ch' (Some amt'))) :
  let intent := FragmentIntent id i ch (Some amt) in let intent' := FragmentIntent id' i' ch' (Some amt') in
  (id = id' /\ i = i' /\ ch = ch' /\ amt = amt') \/ intent_collide id i ch amt id' i' ch' amt' \/
  derive_collide "rabbiit/multipath/preimage/v2" [secret; intent] "rabbiit/multipath/preimage/v2" [secret; intent'] \/
  collide (FragmentPreimage secret intent) (FragmentPreimage secret intent').
Proof.
  unfold FragmentHash in H. pose proof (length_keccak [FragmentPreimage secret (FragmentIntent id i ch (Some amt))]) as L1.
  pose proof (length_keccak [FragmentPreimage secret (FragmentIntent id' i' ch' (Some amt'))]) as L2.
  rewrite !take_ge in H by lia. rewrite L1, L2 in H. change (zeros (32 - 32)) with (@nil Z) in H. rewrite !app_nil_r in H.
  destruct (decide (FragmentPreimage secret (FragmentIntent id i ch (Some amt)) = FragmentPreimage secret (FragmentIntent id' i' ch' (Some amt')))) as [E|E].
  - apply derive_inj in E as [[_ E]|?]; [|by right; right; left|by apply short_parts2, length_derive..].
    apply (f_equal (fun l => nth 1 l [])) in E. cbn [nth] in E. apply FragmentIntent_inj in E as [?|?]; [by left|by right; left|done|done].
  - right. right. right. split; [exact E|]. unfold keccak in H. cbn [concat] in H. rewrite !app_nil_r in H. exact H.
Qed.

(** Locking, settling and refunding one fragment go under three different intents. *)
Lemma fragment_intents_apart (id ch intent : bytes) (i : Z) (amt : Z) : leg_typed id i ch amt -> length intent = 32%nat ->
  let lock := "rabbiit/multipath/intent/v1"%string in let settle := "rabbiit/multipath/settle/v1"%string in let refund := "rabbiit/multipath/refund/v1"%string in
  (FragmentIntent id i ch (Some amt) = settleIntent intent -> derive_collide lock (intent_parts id i ch amt) settle [intent]) /\
  (FragmentIntent id i ch (Some amt) = refundIntent intent -> derive_collide lock (intent_parts id i ch amt) refund [intent]) /\
  (settleIntent intent = refundIntent intent -> derive_collide settle [intent] refund [intent]).
Proof.
  intros Ht Hi. pose proof (leg_parts_short _ _ _ _ Ht) as HS.
  assert (short_parts [intent]) as HI by (unfold short_parts; rewrite Forall_cons, Hi; split; [lia|constructor]).
  cbv zeta. split; [|split]; intros H; apply derive_inj in H as [[H _]|?]; try done; vm_compute in H; discriminate H.
Qed.
End Built.

(** The smallest payment that is split at all arrives in equal parts. *)
Lemma smallest_split_is_equal `{C : Curve} (draw : nat -> option Z) (lockDraw : nat -> nat -> option Z) (recipient : Point)
    (routes : list (list Candidate)) (plan : SplitPlan) :
  draws_weights draw -> Split draw lockDraw recipient (2 * MinFragment) routes = Ok plan -> AllEqual (Some plan) = true.
Proof.
  intros Hd H. pose proof H as H'. apply Split_inv in H as (n & amounts & Hn & _ & Hu & Ha & HL & _ & _ & HV & _).
  apply Verify_ok in HV as (H2 & HF & _ & _). pose proof Hu as Hu'. apply guard_err_ok in Hu' as [_ Hu']. apply guard_err_ok in Hu' as [Hr _].
  assert (n = 2%nat) as ->.
  { apply Z.ltb_ge in Hr. assert (n = 2 \/ n = 3 \/ n = 4)%nat as [-> | [-> | ->]] by lia; [done| |]; vm_compute in Hr; exfalso; by apply Hr. }
  apply (unevenSplit_floor_only draw 2) in Hu; [|done|lia]. rewrite <- Ha in Hu.
  destruct plan as [t [|f [|g fs]]]; cbn in H2; [lia|lia|]. cbn [sl_Fragments] in *.
  change (map fg_Amount (f :: g :: fs)) with (fg_Amount <$> f :: g :: fs) in Hu. rewrite Forall_fmap, Forall_forall in Hu. cbn [compose] in Hu.
  unfold AllEqual. apply forallb_forall. intros x Hx. apply Z.eqb_eq. apply list_elem_of_In in Hx. rewrite (Hu x), (Hu f); [done|by left|by right].
Qed.

(** ** Witnesses *)

Definition toy_weights (k : nat) : option Z := Some (Z.of_nat (k * 37 + 5)%nat mod 1000).
Lemma toy_weights_ok : draws_weights toy_weights.
Proof. intros k w [= <-]. apply Z.mod_pos_bound. reflexivity. Qed.
Lemma toy_weights_total (k : nat) : is_Some (toy_weights k).
Proof. by eexists. Qed.
Definition toy_lock_draw (i k : nat) : option Z := toy_draw (10 * i + k).
Lemma toy_lock_draw_total (i k : nat) : is_Some (toy_lock_draw i k).
Proof. by eexists. Qed.
Definition toy_leg_route (a b c : string) : list Candidate :=
  [toy_candidate a a "" 9; toy_candidate b b "" 9; toy_candidate c c "" 9].
Definition toy_leg_routes : list (list Candidate) := [toy_leg_route "a" "b" "c"; toy_leg_route "d" "e" "f"].
Definition toy_recipient : Z * Z := ScalarBaseMult (big_bytes 4321).
Definition toy_split : SplitPlan :=
  match Split toy_weights toy_lock_draw (point_of toy_recipient) 50000 toy_leg_routes with Ok p => p | _ => mkSplitPlan 0 [] end.
Lemma toy_split_made : Split toy_weights toy_lock_draw (point_of toy_recipient) 50000 toy_leg_routes = Ok toy_split.
Proof. vm_compute. reflexivity. Qed.

Lemma split_pays_exactly_witness : zsum (map fg_Amount (sl_Fragments toy_split)) = 50000.
Proof.
  refine (proj1 (proj2 (split_pays_exactly toy_weights toy_lock_draw (point_of toy_recipient) 50000 toy_leg_routes toy_split toy_weights_ok _ toy_split_made))).
  split; vm_compute; congruence.
Defined.

Lemma Split_succeeds_witness : exists plan, Split toy_weights toy_lock_draw (point_of toy_recipient) 50000 toy_leg_routes = Ok plan /\
  zsum (map fg_Amount (sl_Fragments plan)) = 50000.
Proof.
  destruct (Split_succeeds toy_weights toy_lock_draw toy_recipient 50000 toy_leg_routes toy_weights_total toy_weights_ok toy_lock_draw_total)
    as (plan & H1 & H2 & _); [split; cbn; unfold MaxFragments; lia| | | |vm_compute; congruence|reflexivity|].
  - repeat constructor; cbn; unfold MaxHops; lia.
  - repeat constructor; intros E; discriminate E.
  - apply (bool_decide_unpack _). vm_compute. exact I.
  - exists plan. split; [exact H1|exact H2].
Defined.

(** Where the products overflow a large payment can be refused as too small. *)
Example large_payment_too_small :
  Split (fun k => Some (if Nat.eqb k 0 then 999 else 0)) toy_lock_draw (point_of toy_recipient) (2 ^ 62) toy_leg_routes = Err ErrTooSmallToSplit.
Proof. vm_compute. reflexivity. Qed.

Definition toy_channels : list bytes := [be_encode 32 71; be_encode 32 72].
Definition toy_payment : MultipathPayment :=
  match PaymentFromSplitPlan (Crypto := toy_crypto) (Some toy_split) (be_encode 32 5) (be_encode 32 6) toy_channels 1000 60 9000 with
  | Ok p => p | _ => mkPayment [] None 0 [] end.
Lemma toy_payment_made : PaymentFromSplitPlan (Crypto := toy_crypto) (Some toy_split) (be_encode 32 5) (be_encode 32 6) toy_channels 1000 60 9000 = Ok toy_payment.
Proof. vm_compute. reflexivity. Qed.
Lemma toy_split_total : zsum (map fg_Amount (sl_Fragments toy_split)) = sl_Total toy_split.
Proof. vm_compute. reflexivity. Qed.
Lemma split_payment_conserves_witness : mp_Total toy_payment = Some (sl_Total toy_split) /\ map lg_Channel (mp_Legs toy_payment) = toy_channels.
Proof.
  destruct (split_payment_conserves (Crypto := toy_crypto) toy_split (be_encode 32 5) (be_encode 32 6) toy_channels 1000 60 9000 toy_payment toy_split_total toy_payment_made)
    as (H1 & _ & H2 & _). split; [exact H1|exact H2].
Defined.

Lemma toy_leg_typed (i : Z) (ch amt : Z) : 0 <= i < 2 ^ 63 -> 0 <= amt < 256 ^ 32 -> leg_typed (be_encode 32 5) i (be_encode 32 ch) amt.
Proof. intros Hi Ha. split; [apply length_be_encode|exact Hi|apply length_be_encode|exact Ha]. Qed.
Lemma fragment_hashes_apart_witness :
  let id := be_encode 32 5 in let ch := be_encode 32 71 in let intent := FragmentIntent id 0 ch (Some 400) in
  (id = id /\ 0 = 0 /\ ch = ch /\ 400 = 400) \/ intent_collide id 0 ch 400 id 0 ch 400 \/
  derive_collide "rabbiit/multipath/preimage/v2" [be_encode 32 6; intent] "rabbiit/multipath/preimage/v2" [be_encode 32 6; intent] \/
  collide (Crypto := toy_crypto) (FragmentPreimage (be_encode 32 6) intent) (FragmentPreimage (be_encode 32 6) intent).
Proof.
  apply (fragment_hashes_apart (Crypto := toy_crypto) (be_encode 32 6) (be_encode 32 5) (be_encode 32 5) 0 0 (be_encode 32 71) (be_encode 32 71) 400 400
    (length_be_encode 32 6)); [apply toy_leg_typed; [split; vm_compute; congruence|split; vm_compute; congruence]..|reflexivity].
Defined.
