(* ===== verification/ChannelTransition.v ===== *)
(** * Payment channels: transitions ([internal/channel/transition.go])

    [Apply] turns a payment intent into the next state; [Equal] and [Matches]
    compare a proposed state with it.  The theorems say that no transition
    creates or destroys value, that a proposer can only spend its own balance,
    and that what [Apply] proposes is exactly what [Accept] admits. *)
From S2P Require Import Prelude.
From S2P Require Import GoBytes.
From S2P Require Import ChannelTypes.
From S2P Require Import ChannelCrypto.
From S2P Require Import ChannelState.

(** ** Balance helpers *)

Definition requirePositive (n : option Z) : outcome chan_err Z :=
  match n with
  | Some n => if n <=? 0 then Err ErrAmountNotPositive else Ok n
  | None => Err ErrAmountNotPositive
  end.

(** A method call on a nil [*big.Int] panics. *)
Definition deref (n : option Z) : outcome chan_err Z :=
  match n with
  | Some n => Ok n
  | None => Panic
  end.

(** [t]ake, [g]ive and [m]ove work in place on one of the two balances. *)
Definition take_from (s : State) (fromA : bool) (amount : Z) : outcome chan_err State :=
  let? from := deref (if fromA then st_BalanceA s else st_BalanceB s) in
  fail? from <? amount with ErrInsufficient ;;
  Ok (if fromA then set_BalanceA (Some (from - amount)) s else set_BalanceB (Some (from - amount)) s).

Definition give (s : State) (toA : bool) (amount : option Z) : outcome chan_err State :=
  let? amount := deref amount in
  if toA then let? b := deref (st_BalanceA s) in Ok (set_BalanceA (Some (b + amount)) s)
  else let? b := deref (st_BalanceB s) in Ok (set_BalanceB (Some (b + amount)) s).

Definition move (s : State) (fromA : bool) (amount : Z) : outcome chan_err State :=
  let? s := take_from s fromA amount in give s (negb fromA) (Some amount).

(** ** Lock-set helpers *)

Definition lessID (a b : bytes) : bool := bytes_ltb a b.

(** The index of the lock with this id; [None] is the [-1] of the source. *)
Fixpoint findLock (locks : list HTLC) (id : bytes) : option nat :=
  match locks with
  | [] => None
  | h :: locks => if bool_decide (h_ID h = id) then Some O else S <$> findLock locks id
  end.

Fixpoint insertLock (locks : list HTLC) (add : HTLC) : list HTLC :=
  match locks with
  | [] => [add]
  | h :: r => if lessID (h_ID add) (h_ID h) then add :: h :: r else h :: insertLock r add
  end.

Definition removeAt (locks : list HTLC) (i : nat) : list HTLC := take i locks ++ drop (S i) locks.

(** ** Apply *)

Definition opForKind (kind : TransitionKind) : Z :=
  match kind with
  | KindCheckpoint => OpCheckpoint
  | KindClose => OpCoopClose
  | _ => OpState
  end.

Definition fresh_channel (c : Channel) : bool :=
  (st_Nonce (ss_State (ch_Latest c)) =? 0) && negb (Complete (ch_Latest c)).

(** The state [Apply] starts from: the latest one without its withdrawals, or the
    deposits when nothing was signed yet. *)
Definition base_state (c : Channel) : State :=
  let prev := ss_State (ch_Latest c) in
  mkState (ch_ID c) (wrap_u64 (st_Nonce prev + 1))
    (Some (orZero (if fresh_channel c then ch_DepositA c else st_BalanceA prev)))
    (Some (orZero (if fresh_channel c then ch_DepositB c else st_BalanceB prev)))
    (clonePending (st_Pending prev)) None None 0.

Section Apply.
Context `{Crypto : ChannelCrypto}.

Definition lock_at (next : State) (id : bytes) : outcome chan_err (nat * HTLC) :=
  let? i := of_option ErrNoSuchLock (findLock (st_Pending next) id) in
  match st_Pending next !! i with
  | Some lock => Ok (i, lock)
  | None => Panic
  end.

(** The [switch t.Kind] of the source. *)
Definition apply_kind (t : StateTransition) (next : State) (proposerIsA : bool) : outcome chan_err State :=
  match t_Kind t with
  | KindPay =>
      let? amount := requirePositive (t_Amount t) in
      move next proposerIsA amount
  | KindLockAdd =>
      let? amount := requirePositive (t_Amount t) in
      fail? t_Expiry t <=? 0 with ErrHTLCExpiryPast ;;
      fail? bool_decide (is_Some (findLock (st_Pending next) (t_LockID t))) with ErrLockExists ;;
      let? next := take_from next proposerIsA amount in
      Ok (set_Pending (insertLock (st_Pending next)
            (mkHTLC (t_LockID t) (t_Hash t) (Some amount) (t_Expiry t) proposerIsA)) next)
  | KindLockSettle =>
      let? (i, lock) := lock_at next (t_LockID t) in
      fail? negb (h_Matches lock (t_Preimage t)) with ErrPreimageBad ;;
      let? next := give next (negb (h_PayerIsA lock)) (h_Amount lock) in
      Ok (set_Pending (removeAt (st_Pending next) i) next)
  | KindLockRefund =>
      let? (i, lock) := lock_at next (t_LockID t) in
      let? next := give next (h_PayerIsA lock) (h_Amount lock) in
      Ok (set_Pending (removeAt (st_Pending next) i) next)
  | KindCheckpoint =>
      let? amount := requirePositive (t_Amount t) in
      let? next := take_from next proposerIsA amount in
      Ok (if proposerIsA then set_WithdrawA (Some amount) next else set_WithdrawB (Some amount) next)
  | KindClose =>
      fail? negb (bool_decide (st_Pending next = [])) with ErrLocksRemain ;;
      Ok next
  | KindOther _ => Err ErrUnknownKind
  end.

Definition Apply (t : StateTransition) (ch : option Channel) (proposer : bytes) : outcome chan_err State :=
  match ch with
  | None => Err ErrNoSuchChannel
  | Some c =>
      fail? negb (bool_decide (proposer = ch_PartyA c)) && negb (bool_decide (proposer = ch_PartyB c))
        with ErrNotAParty ;;
      let? next := apply_kind t (base_state c) (IsA c proposer) in
      Ok (set_Op (opForKind (t_Kind t)) next)
  end.

(** ** Comparison *)

Fixpoint equal_locks (l k : list HTLC) : outcome chan_err unit :=
  match l, k with
  | a :: l, b :: k =>
      fail? negb (bool_decide (h_ID a = h_ID b)) with ErrDiffers "lock id" ;;
      fail? negb (bool_decide (h_Hash a = h_Hash b)) with ErrDiffers "lock hash" ;;
      fail? negb (orZero (h_Amount a) =? orZero (h_Amount b)) with ErrDiffers "lock amount" ;;
      fail? negb (h_Expiry a =? h_Expiry b) with ErrDiffers "lock expiry" ;;
      fail? negb (Bool.eqb (h_PayerIsA a) (h_PayerIsA b)) with ErrDiffers "lock payer" ;;
      equal_locks l k
  | _, _ => Ok tt
  end.

Definition Equal (s other : State) : outcome chan_err unit :=
  fail? negb (bool_decide (st_Channel s = st_Channel other)) with ErrDiffers "channel" ;;
  fail? negb (st_Nonce s =? st_Nonce other) with ErrDiffers "nonce" ;;
  fail? negb (orZero (st_BalanceA s) =? orZero (st_BalanceA other)) with ErrDiffers "balanceA" ;;
  fail? negb (orZero (st_BalanceB s) =? orZero (st_BalanceB other)) with ErrDiffers "balanceB" ;;
  fail? negb (orZero (st_WithdrawA s) =? orZero (st_WithdrawA other)) with ErrDiffers "withdrawA" ;;
  fail? negb (orZero (st_WithdrawB s) =? orZero (st_WithdrawB other)) with ErrDiffers "withdrawB" ;;
  fail? negb (Nat.eqb (length (st_Pending s)) (length (st_Pending other))) with ErrDiffers "lock count" ;;
  equal_locks (st_Pending s) (st_Pending other).

Definition Matches (t : StateTransition) (ch : option Channel) (proposer : bytes) (state : State)
    : outcome chan_err unit :=
  let? want := Apply t ch proposer in Equal want state.
End Apply.

(** ** What a state is worth, and well-formed lock sets *)

Definition bal (s : State) (isA : bool) : Z := orZero (if isA then st_BalanceA s else st_BalanceB s).
Definition value (s : State) : Z :=
  orZero (st_BalanceA s) + orZero (st_BalanceB s) + lockedTotal s
  + orZero (st_WithdrawA s) + orZero (st_WithdrawB s).
(** What the next state has to account for. *)
Definition base_value (c : Channel) : Z :=
  if fresh_channel c then orZero (ch_DepositA c) + orZero (ch_DepositB c)
    + lockedTotal (ss_State (ch_Latest c))
  else orZero (st_BalanceA (ss_State (ch_Latest c))) + orZero (st_BalanceB (ss_State (ch_Latest c)))
    + lockedTotal (ss_State (ch_Latest c)).

Definition lock_lt (a b : HTLC) : Prop := lessID (h_ID a) (h_ID b) = true.
Record locks_ok (l : list HTLC) : Prop := {
  lk_amounts : Forall (fun h => exists a, h_Amount h = Some a /\ 0 < a) l;
  lk_expiries : Forall (fun h => 0 < h_Expiry h) l;
  lk_sorted : StronglySorted lock_lt l
}.

(** ** Lock-set lemmas *)

Lemma findLock_some (l : list HTLC) (id : bytes) (i : nat) :
  findLock l id = Some i -> exists h, l !! i = Some h /\ h_ID h = id.
Proof.
  revert i; induction l as [|h l IH]; intros i; cbn; [discriminate|].
  case_bool_decide as Hh; [intros [= <-]; by exists h|].
  destruct (findLock l id) as [j|]; cbn; [|discriminate]. intros [= <-]. by apply IH.
Qed.

Lemma findLock_none (l : list HTLC) (id : bytes) :
  findLock l id = None -> Forall (fun h => h_ID h <> id) l.
Proof.
  induction l as [|h l IH]; cbn; [constructor|].
  case_bool_decide as Hh; [discriminate|]. destruct (findLock l id); [discriminate|].
  constructor; auto.
Qed.

Lemma removeAt_cons (h : HTLC) (l : list HTLC) (i : nat) :
  removeAt (h :: l) (S i) = h :: removeAt l i.
Proof. done. Qed.

Lemma insert_find_remove (ps : list HTLC) (L h : HTLC) (i : nat) :
  findLock ps (h_ID L) = None -> findLock (insertLock ps L) (h_ID L) = Some i ->
  insertLock ps L !! i = Some h -> h = L /\ removeAt (insertLock ps L) i = ps.
Proof.
  intros Hn%findLock_none. revert i.
  induction Hn as [|x ps Hx Hps IH]; intros i; cbn [insertLock].
  - cbn [findLock]. rewrite bool_decide_true by done. intros [= <-] [= <-]. done.
  - destruct (lessID (h_ID L) (h_ID x)) eqn:E; cbn [findLock].
    + rewrite bool_decide_true by done. intros [= <-] [= <-]. done.
    + rewrite bool_decide_false by done.
      destruct (findLock (insertLock ps L) (h_ID L)) as [j|]; [|discriminate].
      intros [= <-] Hi. destruct (IH j) as [-> Er]; [done|exact Hi|].
      split; [done|]. rewrite removeAt_cons. by f_equal.
Qed.

Lemma removeAt_Forall (P : HTLC -> Prop) (l : list HTLC) (i : nat) :
  Forall P l -> Forall P (removeAt l i).
Proof. intros H. apply Forall_app. split; [by apply Forall_take|by apply Forall_drop]. Qed.

Lemma removeAt_sorted (l : list HTLC) (i : nat) :
  StronglySorted lock_lt l -> StronglySorted lock_lt (removeAt l i).
Proof.
  intros H. revert i. induction H as [|h l Hl IH Hh]; intros i.
  - unfold removeAt. rewrite take_nil, drop_nil. constructor.
  - destruct i as [|i]; [unfold removeAt; cbn; by rewrite drop_0|].
    rewrite removeAt_cons. constructor; [apply IH|by apply removeAt_Forall].
Qed.

Lemma insertLock_Forall (P : HTLC -> Prop) (l : list HTLC) (add : HTLC) :
  Forall P l -> P add -> Forall P (insertLock l add).
Proof.
  intros H Ha. induction H as [|h l Hh Hl IH]; cbn; [by repeat constructor|].
  destruct (lessID _ _); repeat constructor; done.
Qed.

Lemma lock_lt_trans (a b c : HTLC) : lock_lt a b -> lock_lt b c -> lock_lt a c.
Proof. apply bytes_ltb_trans. Qed.

Lemma insertLock_sorted (l : list HTLC) (add : HTLC) :
  StronglySorted lock_lt l -> Forall (fun h => h_ID h <> h_ID add) l ->
  StronglySorted lock_lt (insertLock l add).
Proof.
  induction 1 as [|h l Hl IH Hh]; intros Hne; cbn; [by repeat constructor|].
  apply Forall_cons in Hne as [Hneh Hne].
  destruct (lessID (h_ID add) (h_ID h)) eqn:E.
  - constructor; [by constructor|]. constructor; [exact E|].
    eapply Forall_impl; [exact Hh|]. intros x Hx. by eapply lock_lt_trans.
  - constructor; [by apply IH|]. apply insertLock_Forall; [done|].
    unfold lock_lt, lessID in *. destruct (bytes_ltb (h_ID h) (h_ID add)) eqn:E2; [done|].
    exfalso. apply Hneh. by apply bytes_ltb_total.
Qed.

Lemma sorted_ids_NoDup (l : list HTLC) : StronglySorted lock_lt l -> NoDup (map h_ID l).
Proof.
  induction 1 as [|h l Hl IH Hh]; cbn; constructor; [|done].
  intros Hin. apply list_elem_of_fmap in Hin as (x & E & Hx).
  rewrite Forall_forall in Hh. specialize (Hh x Hx). unfold lock_lt, lessID in Hh.
  by rewrite E, bytes_ltb_irrefl in Hh.
Qed.

Lemma locked_clone (l : list HTLC) :
  zsum (map (fun h => orZero (h_Amount h)) (clonePending l)) =
  zsum (map (fun h => orZero (h_Amount h)) l).
Proof. unfold clonePending. by rewrite map_map. Qed.

Definition locked (l : list HTLC) : Z := zsum (map (fun h => orZero (h_Amount h)) l).

Lemma locked_cons (h : HTLC) (l : list HTLC) : locked (h :: l) = orZero (h_Amount h) + locked l.
Proof. done. Qed.

Lemma locked_insert (l : list HTLC) (add : HTLC) :
  locked (insertLock l add) = locked l + orZero (h_Amount add).
Proof.
  induction l as [|h l IH]; cbn [insertLock]; [rewrite locked_cons; lia|].
  destruct (lessID _ _); rewrite !locked_cons; lia.
Qed.

Lemma locked_removeAt (l : list HTLC) (i : nat) (h : HTLC) :
  l !! i = Some h -> locked (removeAt l i) = locked l - orZero (h_Amount h).
Proof.
  revert i; induction l as [|x l IH]; intros i; [discriminate|]. destruct i as [|i]; cbn [lookup list_lookup].
  - intros [= ->]. rewrite locked_cons. change (removeAt (h :: l) 0) with (drop 0 l).
    rewrite drop_0. lia.
  - intros Hi. rewrite removeAt_cons, !locked_cons, (IH i Hi). lia.
Qed.

Lemma clonePending_id (l : list HTLC) :
  Forall (fun h => exists a, h_Amount h = Some a /\ 0 < a) l -> clonePending l = l.
Proof.
  induction 1 as [|h l (a & Ha & _) Hl IH]; cbn; [done|]. rewrite Ha. cbn. f_equal; [|done].
  destruct h; cbn in *; congruence.
Qed.

(** ** The abstract specification of one transition

    [effect t pA a b ps a' b' ps' wA wB]: under [t], proposed by party A when
    [pA], balances [a], [b] and locks [ps] become [a'], [b'] and [ps'], and
    [wA], [wB] leave the channel. *)
Section Effect.
Context `{Crypto : ChannelCrypto}.

Inductive effect (t : StateTransition) (pA : bool) (a b : Z) (ps : list HTLC)
    : Z -> Z -> list HTLC -> option Z -> option Z -> Prop :=
| eff_pay n :
    t_Kind t = KindPay -> t_Amount t = Some n -> 0 < n -> n <= (if pA then a else b) ->
    effect t pA a b ps (if pA then a - n else a + n) (if pA then b + n else b - n) ps None None
| eff_lock_add n :
    t_Kind t = KindLockAdd -> t_Amount t = Some n -> 0 < n -> 0 < t_Expiry t ->
    findLock ps (t_LockID t) = None -> n <= (if pA then a else b) ->
    effect t pA a b ps (if pA then a - n else a) (if pA then b else b - n)
      (insertLock ps (mkHTLC (t_LockID t) (t_Hash t) (Some n) (t_Expiry t) pA)) None None
| eff_lock_settle i h n :
    t_Kind t = KindLockSettle -> findLock ps (t_LockID t) = Some i -> ps !! i = Some h ->
    h_Matches h (t_Preimage t) = true -> h_Amount h = Some n ->
    effect t pA a b ps (if h_PayerIsA h then a else a + n) (if h_PayerIsA h then b + n else b)
      (removeAt ps i) None None
| eff_lock_refund i h n :
    t_Kind t = KindLockRefund -> findLock ps (t_LockID t) = Some i -> ps !! i = Some h ->
    h_Amount h = Some n ->
    effect t pA a b ps (if h_PayerIsA h then a + n else a) (if h_PayerIsA h then b else b + n)
      (removeAt ps i) None None
| eff_checkpoint n :
    t_Kind t = KindCheckpoint -> t_Amount t = Some n -> 0 < n -> n <= (if pA then a else b) ->
    effect t pA a b ps (if pA then a - n else a) (if pA then b else b - n) ps
      (if pA then Some n else None) (if pA then None else Some n)
| eff_close :
    t_Kind t = KindClose -> ps = [] -> effect t pA a b ps a b ps None None.

Lemma requirePositive_ok (n : option Z) (m : Z) :
  requirePositive n = Ok m -> n = Some m /\ 0 < m.
Proof.
  destruct n as [n|]; cbn; [|discriminate]. zcase; [discriminate|]. intros [= ->]. split; [done|lia].
Qed.

Lemma lock_at_ok (s : State) (id : bytes) (i : nat) (h : HTLC) :
  lock_at s id = Ok (i, h) -> findLock (st_Pending s) id = Some i /\ st_Pending s !! i = Some h.
Proof.
  unfold lock_at. intros H. outcome_inv. destruct (st_Pending s !! a) as [x|] eqn:E2; [|discriminate].
  injection H as -> ->. done.
Qed.

Definition kind_state (s : State) (a b : Z) (ps : list HTLC) (wA wB : option Z) : State :=
  mkState (st_Channel s) (st_Nonce s) (Some a) (Some b) ps wA wB (st_Op s).

Lemma take_from_ok (s s' : State) (a b : Z) (pA : bool) (n : Z) :
  st_BalanceA s = Some a -> st_BalanceB s = Some b -> take_from s pA n = Ok s' ->
  n <= (if pA then a else b) /\
  s' = mkState (st_Channel s) (st_Nonce s) (Some (if pA then a - n else a))
    (Some (if pA then b else b - n)) (st_Pending s) (st_WithdrawA s) (st_WithdrawB s) (st_Op s).
Proof.
  intros HA HB H. unfold take_from in H. rewrite HA, HB in H. destruct pA; cbn in H;
    outcome_inv; zbool; (split; [lia|]).
  - unfold set_BalanceA. by rewrite HB.
  - unfold set_BalanceB. by rewrite HA.
Qed.

Lemma give_ok (s s' : State) (a b : Z) (toA : bool) (n : option Z) :
  st_BalanceA s = Some a -> st_BalanceB s = Some b -> give s toA n = Ok s' ->
  exists m, n = Some m /\
  s' = mkState (st_Channel s) (st_Nonce s) (Some (if toA then a + m else a))
    (Some (if toA then b else b + m)) (st_Pending s) (st_WithdrawA s) (st_WithdrawB s) (st_Op s).
Proof.
  intros HA HB H. unfold give in H. rewrite HA, HB in H.
  destruct n as [m|]; [|discriminate]. exists m. split; [done|].
  destruct toA; cbn in H; injection H as <-.
  - unfold set_BalanceA. by rewrite HB.
  - unfold set_BalanceB. by rewrite HA.
Qed.

Lemma apply_kind_effect (t : StateTransition) (s s' : State) (pA : bool) (a b : Z) :
  st_BalanceA s = Some a -> st_BalanceB s = Some b -> st_WithdrawA s = None -> st_WithdrawB s = None ->
  apply_kind t s pA = Ok s' ->
  exists a' b' ps' wA wB, effect t pA a b (st_Pending s) a' b' ps' wA wB /\
    s' = kind_state s a' b' ps' wA wB.
Proof.
  intros HA HB HWA HWB H. unfold apply_kind in H. unfold kind_state.
  destruct (t_Kind t) eqn:K; try discriminate H.
  - apply obind_ok in H as (n & [Hn Hp]%requirePositive_ok & H).
    apply obind_ok in H as (s1 & H1 & H).
    apply (take_from_ok s s1 a b) in H1 as [Hle ->]; [|done|done].
    eapply give_ok in H as (m & [= <-] & ->); [|reflexivity|reflexivity].
    do 5 eexists. split; [by eapply eff_pay|]. cbn. destruct pA; cbn; by rewrite HWA, HWB.
  - apply obind_ok in H as (n & [Hn Hp]%requirePositive_ok & H).
    apply guard_err_ok in H as [He H]. apply guard_err_ok in H as [Hf H].
    apply obind_ok in H as (s1 & H1 & [= <-]).
    apply (take_from_ok s s1 a b) in H1 as [Hle ->]; [|done|done]. zbool.
    do 5 eexists. split; [eapply eff_lock_add; try done|].
    + destruct (findLock (st_Pending s) (t_LockID t)); [|done]. exfalso. eauto.
    + cbn. unfold set_Pending. cbn. by rewrite HWA, HWB.
  - apply obind_ok in H as ([i h] & [Hf Hi]%lock_at_ok & H). apply guard_err_ok in H as [Hm H].
    apply obind_ok in H as (s1 & H1 & [= <-]). apply negb_false_iff in Hm.
    apply (give_ok s s1 a b) in H1 as (n & Hn & ->); [|done|done].
    do 5 eexists. split; [by eapply eff_lock_settle|]. unfold set_Pending. cbn.
    rewrite HWA, HWB. by destruct (h_PayerIsA h).
  - apply obind_ok in H as ([i h] & [Hf Hi]%lock_at_ok & H).
    apply obind_ok in H as (s1 & H1 & [= <-]).
    apply (give_ok s s1 a b) in H1 as (n & Hn & ->); [|done|done].
    do 5 eexists. split; [by eapply eff_lock_refund|]. unfold set_Pending. cbn. by rewrite HWA, HWB.
  - apply guard_err_ok in H as [Hp [= <-]]. zbool.
    do 5 eexists. split; [by eapply eff_close|]. destruct s; cbn in *; congruence.
  - apply obind_ok in H as (n & [Hn Hp]%requirePositive_ok & H).
    apply obind_ok in H as (s1 & H1 & [= <-]).
    apply (take_from_ok s s1 a b) in H1 as [Hle ->]; [|done|done].
    do 5 eexists. split; [by eapply eff_checkpoint|].
    destruct pA; unfold set_WithdrawA, set_WithdrawB; cbn; by rewrite ?HWA, ?HWB.
Qed.

Lemma effect_apply_kind (t : StateTransition) (s : State) (pA : bool) (a b a' b' : Z)
    (ps' : list HTLC) (wA wB : option Z) :
  st_BalanceA s = Some a -> st_BalanceB s = Some b -> st_WithdrawA s = None -> st_WithdrawB s = None ->
  effect t pA a b (st_Pending s) a' b' ps' wA wB ->
  apply_kind t s pA = Ok (kind_state s a' b' ps' wA wB).
Proof.
  intros HA HB HWA HWB H. unfold apply_kind, kind_state.
  inversion H; subst; clear H;
    match goal with K : t_Kind t = _ |- _ => rewrite K end;
    repeat match goal with
    | E : t_Amount t = Some ?n |- _ => rewrite E; clear E
    | P : 0 < ?n |- context [?n <=? 0] => rewrite (proj2 (Z.leb_gt n 0) P); cbn [guard_err obind requirePositive]
    | P : 0 < ?n |- context [requirePositive (Some ?n)] => unfold requirePositive
    end.
  - unfold move, take_from, give. rewrite HA, HB. cbn. destruct pA; cbn;
      (rewrite (proj2 (Z.ltb_ge _ _)) by done); cbn; rewrite ?HA, ?HB; unfold set_BalanceA, set_BalanceB;
      cbn; by rewrite ?HA, ?HB, ?HWA, ?HWB.
  - rewrite bool_decide_false by (rewrite H4; intros [? ?]; discriminate). cbn [guard_err].
    unfold take_from. rewrite HA, HB. destruct pA; cbn; (rewrite (proj2 (Z.ltb_ge _ _)) by done); cbn;
      unfold set_Pending; cbn; by rewrite ?HA, ?HB, ?HWA, ?HWB.
  - unfold lock_at. rewrite H1. cbn. rewrite H2. cbn. rewrite H3. cbn. unfold give. rewrite H4, HA, HB. cbn.
    destruct (h_PayerIsA h); cbn; unfold set_Pending; cbn; by rewrite ?HA, ?HB, ?HWA, ?HWB.
  - unfold lock_at. rewrite H1. cbn. rewrite H2. cbn. unfold give. rewrite H3, HA, HB. cbn.
    destruct (h_PayerIsA h); cbn; unfold set_Pending; cbn; by rewrite ?HA, ?HB, ?HWA, ?HWB.
  - unfold take_from. rewrite HA, HB. destruct pA; cbn; (rewrite (proj2 (Z.ltb_ge _ _)) by done); cbn;
      unfold set_WithdrawA, set_WithdrawB; cbn; by rewrite ?HA, ?HB, ?HWA, ?HWB.
  - rewrite bool_decide_true by done. cbn. f_equal. destruct s; cbn in *; congruence.
Qed.
End Effect.

Section ApplyLemmas.
Context `{Crypto : ChannelCrypto}.

Definition baseA (c : Channel) : Z :=
  orZero (if fresh_channel c then ch_DepositA c else st_BalanceA (ss_State (ch_Latest c))).
Definition baseB (c : Channel) : Z :=
  orZero (if fresh_channel c then ch_DepositB c else st_BalanceB (ss_State (ch_Latest c))).
Definition base_locks (c : Channel) : list HTLC := clonePending (st_Pending (ss_State (ch_Latest c))).
Definition next_nonce (c : Channel) : Z := wrap_u64 (st_Nonce (ss_State (ch_Latest c)) + 1).

Lemma Apply_ok (t : StateTransition) (c : Channel) (p : bytes) (s : State) :
  Apply t (Some c) p = Ok s <->
  (p = ch_PartyA c \/ p = ch_PartyB c) /\
  exists a b ps wA wB, effect t (IsA c p) (baseA c) (baseB c) (base_locks c) a b ps wA wB /\
    s = mkState (ch_ID c) (next_nonce c) (Some a) (Some b) ps wA wB (opForKind (t_Kind t)).
Proof.
  cbn [Apply]. rewrite guard_err_ok, andb_false_iff, !negb_false_iff, !bool_decide_eq_true.
  split; intros [Hp H]; (split; [done|]).
  - apply obind_ok in H as (s1 & H1 & [= <-]).
    apply (apply_kind_effect t (base_state c) s1 (IsA c p) (baseA c) (baseB c)) in H1
      as (a & b & ps & wA & wB & He & ->); try done.
    by exists a, b, ps, wA, wB.
  - destruct H as (a & b & ps & wA & wB & He & ->).
    apply (effect_apply_kind t (base_state c)) in He; try done. by rewrite He.
Qed.

Lemma effect_value (t : StateTransition) (pA : bool) (a b a' b' : Z) (ps ps' : list HTLC) (wA wB : option Z) :
  effect t pA a b ps a' b' ps' wA wB ->
  a' + b' + locked ps' + orZero wA + orZero wB = a + b + locked ps.
Proof.
  intros H. inversion H; subst; cbn [orZero default]; rewrite ?locked_insert; cbn [h_Amount orZero default].
  - destruct pA; lia.
  - unfold orZero. cbn. destruct pA; lia.
  - rewrite (locked_removeAt _ _ _ H2), H4. unfold orZero. cbn. destruct (h_PayerIsA h); lia.
  - rewrite (locked_removeAt _ _ _ H2), H3. unfold orZero. cbn. destruct (h_PayerIsA h); lia.
  - unfold orZero. destruct pA; cbn; lia.
  - lia.
Qed.

(** No party is debited by a transition the other one proposes. *)
Lemma effect_other_side (t : StateTransition) (pA : bool) (a b a' b' : Z) (ps ps' : list HTLC) (wA wB : option Z) :
  Forall (fun h => 0 <= orZero (h_Amount h)) ps -> 0 <= a -> 0 <= b ->
  effect t pA a b ps a' b' ps' wA wB ->
  (if pA then b <= b' /\ 0 <= a' else a <= a' /\ 0 <= b').
Proof.
  intros Hps Ha Hb H. inversion H; subst; try (destruct pA; cbn in *; lia);
    match goal with
    | Hi : ps !! _ = Some ?h, Hn : h_Amount ?h = Some ?m |- _ =>
        pose proof (Forall_lookup_1 _ _ _ _ Hps Hi) as Hp; cbn beta in Hp; rewrite Hn in Hp;
        change (0 <= m) in Hp; destruct pA, (h_PayerIsA h); cbn; lia
    end.
Qed.

Lemma effect_locks_ok (t : StateTransition) (pA : bool) (a b a' b' : Z) (ps ps' : list HTLC) (wA wB : option Z) :
  locks_ok ps -> effect t pA a b ps a' b' ps' wA wB -> locks_ok ps'.
Proof.
  intros [H1 H2 H3] H. inversion H; subst; try (by constructor).
  - constructor.
    + apply insertLock_Forall; [done|]. by exists n.
    + by apply insertLock_Forall.
    + apply insertLock_sorted; [done|]. by apply findLock_none.
  - constructor; [by apply removeAt_Forall|by apply removeAt_Forall|by apply removeAt_sorted].
  - constructor; [by apply removeAt_Forall|by apply removeAt_Forall|by apply removeAt_sorted].
Qed.

Lemma lockedTotal_locked (s : State) : lockedTotal s = locked (st_Pending s).
Proof. done. Qed.

Lemma Apply_value (t : StateTransition) (c : Channel) (p : bytes) (s : State) :
  Apply t (Some c) p = Ok s -> value s = base_value c.
Proof.
  intros (_ & a & b & ps & wA & wB & He & ->)%Apply_ok. apply effect_value in He.
  unfold value, base_value. rewrite !lockedTotal_locked. cbn [st_BalanceA st_BalanceB st_Pending st_WithdrawA st_WithdrawB].
  change (orZero (Some a)) with a. change (orZero (Some b)) with b. rewrite He.
  unfold baseA, baseB, base_locks. unfold locked at 1. rewrite locked_clone.
  unfold locked. destruct (fresh_channel c); lia.
Qed.

Lemma give_not_panic (s : State) (toA : bool) (n : option Z) :
  n <> None -> st_BalanceA s <> None -> st_BalanceB s <> None -> give s toA n <> Panic.
Proof.
  intros Hn HA HB. unfold give. destruct n; [|done]. destruct toA; cbn.
  - by destruct (st_BalanceA s).
  - by destruct (st_BalanceB s).
Qed.

Lemma take_from_not_panic (s : State) (fromA : bool) (n : Z) :
  st_BalanceA s <> None -> st_BalanceB s <> None -> take_from s fromA n <> Panic.
Proof.
  intros HA HB. unfold take_from. apply obind_not_panic.
  - destruct fromA; [by destruct (st_BalanceA s)|by destruct (st_BalanceB s)].
  - intros v _. unfold guard_err. by destruct (v <? n).
Qed.

Lemma lock_at_not_panic (s : State) (id : bytes) : lock_at s id <> Panic.
Proof.
  unfold lock_at. destruct (findLock (st_Pending s) id) as [i|] eqn:E; cbn; [|discriminate].
  apply findLock_some in E as (h & -> & _). discriminate.
Qed.

Lemma requirePositive_not_panic (n : option Z) : requirePositive n <> Panic.
Proof. destruct n as [n|]; cbn; [by destruct (n <=? 0)|discriminate]. Qed.

Lemma Apply_not_panic (t : StateTransition) (ch : option Channel) (p : bytes) : Apply t ch p <> Panic.
Proof.
  destruct ch as [c|]; cbn; [|discriminate]. apply guard_err_not_panic.
  apply obind_not_panic; [|intros; discriminate].
  assert (Forall (fun h => h_Amount h <> None) (st_Pending (base_state c))) as HL.
  { cbn. unfold clonePending. apply Forall_fmap, Forall_forall. intros h _. discriminate. }
  unfold apply_kind. destruct (t_Kind t); try discriminate.
  - apply obind_not_panic; [apply requirePositive_not_panic|intros n _]. unfold move.
    apply obind_not_panic; [by apply take_from_not_panic|]. intros s1 H1.
    apply (take_from_ok (base_state c) s1 (baseA c) (baseB c)) in H1 as [_ ->]; [|done|done].
    by apply give_not_panic.
  - apply obind_not_panic; [apply requirePositive_not_panic|intros n _].
    do 2 apply guard_err_not_panic.
    apply obind_not_panic; [by apply take_from_not_panic|]. discriminate.
  - apply obind_not_panic; [apply lock_at_not_panic|]. intros [i h] [_ Hi]%lock_at_ok.
    apply guard_err_not_panic. apply obind_not_panic; [|discriminate].
    apply give_not_panic; [|done|done]. exact (Forall_lookup_1 _ _ _ _ HL Hi).
  - apply obind_not_panic; [apply lock_at_not_panic|]. intros [i h] [_ Hi]%lock_at_ok.
    apply obind_not_panic; [|discriminate].
    apply give_not_panic; [|done|done]. exact (Forall_lookup_1 _ _ _ _ HL Hi).
  - by apply guard_err_not_panic.
  - apply obind_not_panic; [apply requirePositive_not_panic|intros n _].
    apply obind_not_panic; [by apply take_from_not_panic|]. discriminate.
Qed.
End ApplyLemmas.
#[export] Hint Resolve Apply_not_panic requirePositive_not_panic lock_at_not_panic : no_panic.

(** ** Channels whose record agrees with the chain *)
Section Ledger.
Context `{Crypto : ChannelCrypto}.

(** The invariant of a channel between payments. *)
Record ledger_ok (c : Channel) : Prop := {
  lo_open : ch_Status c = StatusOpen;
  lo_nonce : u_range 64 (st_Nonce (ss_State (ch_Latest c)));
  lo_balA : 0 <= baseA c;
  lo_balB : 0 <= baseB c;
  lo_locks : locks_ok (st_Pending (ss_State (ch_Latest c)));
  lo_value : base_value c = orZero (ch_DepositA c) + orZero (ch_DepositB c)
}.

(** Both parties have signed the digest of [ss]. *)
Definition signed_by_both (c : Channel) (ss : SignedState) : Prop :=
  length (ss_SigA ss) = 65%nat /\ length (ss_SigB ss) = 65%nat /\
  RecoverSigner (Digest (ss_State ss) (ch_ChainID c) (ch_Contract c)) (ss_SigA ss) = Ok (ch_PartyA c) /\
  RecoverSigner (Digest (ss_State ss) (ch_ChainID c) (ch_Contract c)) (ss_SigB ss) = Ok (ch_PartyB c).

Lemma effect_nonneg (t : StateTransition) (pA : bool) (a b a' b' : Z) (ps ps' : list HTLC) (wA wB : option Z) :
  locks_ok ps -> 0 <= a -> 0 <= b -> effect t pA a b ps a' b' ps' wA wB ->
  0 <= a' /\ 0 <= b' /\ 0 <= orZero wA /\ 0 <= orZero wB.
Proof.
  intros Hps Ha Hb He.
  assert (Forall (fun h => 0 <= orZero (h_Amount h)) ps) as Hn.
  { eapply Forall_impl; [apply Hps|]. intros h (n & -> & Hn). cbn. lia. }
  pose proof (effect_other_side _ _ _ _ _ _ _ _ _ _ Hn Ha Hb He) as Ho.
  assert (0 <= orZero wA /\ 0 <= orZero wB) as Hw.
  { inversion He; subst; try done. destruct pA; cbn; lia. }
  destruct pA; lia.
Qed.

Lemma base_locks_id (c : Channel) :
  locks_ok (st_Pending (ss_State (ch_Latest c))) -> base_locks c = st_Pending (ss_State (ch_Latest c)).
Proof. intros H. apply clonePending_id, H. Qed.

Lemma next_nonce_small (c : Channel) :
  u_range 64 (st_Nonce (ss_State (ch_Latest c)) + 1) ->
  next_nonce c = st_Nonce (ss_State (ch_Latest c)) + 1.
Proof. intros H. by apply wrap_u_small. Qed.

Lemma Apply_acceptable (t : StateTransition) (c : Channel) (p : bytes) (ss : SignedState) :
  ledger_ok c -> u_range 64 (st_Nonce (ss_State (ch_Latest c)) + 1) ->
  Apply t (Some c) p = Ok (ss_State ss) -> signed_by_both c ss -> acceptable c ss.
Proof.
  intros L Hn HA (LA & LB & SA & SB). pose proof (Apply_value _ _ _ _ HA) as HV.
  apply Apply_ok in HA as (_ & a & b & ps & wA & wB & He & Es).
  rewrite base_locks_id in He by apply L.
  pose proof (effect_locks_ok _ _ _ _ _ _ _ _ _ _ (lo_locks _ L) He) as [K1 K2 K3].
  pose proof (effect_nonneg _ _ _ _ _ _ _ _ _ _ (lo_locks _ L) (lo_balA _ L) (lo_balB _ L) He)
    as (Na & Nb & _).
  rewrite (lo_value _ L) in HV. unfold value in HV.
  constructor; try done; rewrite ?Es in *; cbn [st_Channel st_Nonce st_BalanceA st_BalanceB st_Pending
    st_WithdrawA st_WithdrawB]; try done.
  - apply L.
  - left. rewrite next_nonce_small by done. lia.
  - by apply sorted_ids_NoDup.
Qed.

(** Everything that leads from a funded channel to the next: a transition one
    party proposes and both sign, followed, when it was a checkpoint, by the
    refresh from the chain that shrinks the deposits by what left. *)
Inductive reachable : Channel -> Prop :=
| reach_new c : ch_Status c = StatusOpen -> ch_Latest c = zero_signed ->
    0 <= orZero (ch_DepositA c) -> 0 <= orZero (ch_DepositB c) -> reachable c
| reach_pay c c' t p ss : reachable c -> t_Kind t <> KindCheckpoint ->
    Apply t (Some c) p = Ok (ss_State ss) -> Accept c ss = Ok c' -> reachable c'
| reach_checkpoint c c' t p ss dA dB : reachable c -> t_Kind t = KindCheckpoint ->
    Apply t (Some c) p = Ok (ss_State ss) -> Accept c ss = Ok c' ->
    orZero dA + orZero dB = orZero (ch_DepositA c) + orZero (ch_DepositB c)
      - orZero (st_WithdrawA (ss_State ss)) - orZero (st_WithdrawB (ss_State ss)) ->
    reachable (set_Chain dA dB StatusOpen c').

Lemma effect_no_withdrawal (t : StateTransition) (pA : bool) (a b a' b' : Z) (ps ps' : list HTLC) (wA wB : option Z) :
  effect t pA a b ps a' b' ps' wA wB -> t_Kind t <> KindCheckpoint -> wA = None /\ wB = None.
Proof. intros H HK. by inversion H. Qed.

Lemma complete_not_fresh (c : Channel) : Complete (ch_Latest c) = true -> fresh_channel c = false.
Proof. intros H. unfold fresh_channel. rewrite H. apply andb_false_r. Qed.

(** One signed step keeps the invariant, up to the deposits the chain reports. *)
Lemma ledger_ok_step (c c' : Channel) (t : StateTransition) (p : bytes) (ss : SignedState) (dA dB : option Z) :
  ledger_ok c -> Apply t (Some c) p = Ok (ss_State ss) -> Accept c ss = Ok c' ->
  orZero dA + orZero dB = orZero (ch_DepositA c) + orZero (ch_DepositB c)
      - orZero (st_WithdrawA (ss_State ss)) - orZero (st_WithdrawB (ss_State ss)) ->
  ledger_ok (set_Chain dA dB StatusOpen c').
Proof.
  intros L HA Hacc Hd. pose proof (Apply_value _ _ _ _ HA) as HV.
  pose proof (accepted_complete _ _ _ Hacc) as Hc. apply Accept_iff in Hacc as [Hac ->].
  assert (fresh_channel (set_Chain dA dB StatusOpen (adopted c ss)) = false) as Hf
    by (by apply complete_not_fresh).
  rewrite (lo_value _ L) in HV. unfold value in HV.
  apply Apply_ok in HA as (_ & a & b & ps & wA & wB & He & Es).
  rewrite base_locks_id in He by apply L.
  pose proof (effect_locks_ok _ _ _ _ _ _ _ _ _ _ (lo_locks _ L) He) as Hk.
  pose proof (acc_balanceA _ _ Hac) as NA. pose proof (acc_balanceB _ _ Hac) as NB.
  rewrite !Es in *. cbn [st_WithdrawA st_WithdrawB st_BalanceA st_BalanceB st_Pending] in *.
  constructor.
  - done.
  - cbn. rewrite Es. apply wrap_u_range. lia.
  - unfold baseA. rewrite Hf. cbn. by rewrite Es.
  - unfold baseB. rewrite Hf. cbn. by rewrite Es.
  - cbn. rewrite Es. exact Hk.
  - unfold base_value. rewrite Hf. cbn. rewrite Es. cbn. cbn in HV, Hd. lia.
Qed.

Lemma set_Chain_id (c : Channel) : ch_Status c = StatusOpen ->
  set_Chain (ch_DepositA c) (ch_DepositB c) StatusOpen c = c.
Proof. destruct c; cbn. by intros ->. Qed.

Lemma reachable_ledger_ok (c : Channel) : reachable c -> ledger_ok c.
Proof.
  induction 1 as [c Ho Hl HA HB|c c' t p ss Hr IH HK HA Hacc|c c' t p ss dA dB Hr IH HK HA Hacc Hd].
  - assert (fresh_channel c = true) as Hf by (unfold fresh_channel; by rewrite Hl).
    constructor; unfold baseA, baseB, base_value; rewrite ?Hf, ?Hl; try done.
    + constructor; constructor.
    + cbn. lia.
  - rewrite <- (set_Chain_id c') by (apply Accept_iff in Hacc as [? ->]; apply IH).
    eapply ledger_ok_step; [exact IH|exact HA|exact Hacc|].
    pose proof HA as HA'. apply Apply_ok in HA' as (_ & a & b & ps & wA & wB & He & Es).
    apply effect_no_withdrawal in He as [-> ->]; [|done]. rewrite Es. cbn.
    apply Accept_iff in Hacc as [_ ->]. cbn. lia.
  - by eapply ledger_ok_step.
Qed.
End Ledger.

Section MatchLemmas.
Context `{Crypto : ChannelCrypto}.

Lemma equal_locks_ok (l k : list HTLC) :
  length l = length k -> equal_locks l k = Ok tt <-> Forall2 htlc_agree l k.
Proof.
  revert k; induction l as [|a l IH]; intros [|b k] Hl; try discriminate; cbn [equal_locks].
  { split; [constructor|done]. }
  injection Hl as Hl. rewrite !guard_err_ok, !negb_false_iff, !bool_decide_eq_true, !Z.eqb_eq, (IH k Hl).
  rewrite eqb_true_iff. split.
  - intros (? & ? & ? & ? & ? & ?). by repeat constructor.
  - intros H. inversion H as [|? ? ? ? (? & ? & ? & ? & ?) ?]; subst. by repeat split.
Qed.

(** Everything [Equal] compares: all the fields but the operation domain. *)
Definition same_state (s o : State) : Prop :=
  st_Channel s = st_Channel o /\ st_Nonce s = st_Nonce o /\ balances_agree s o /\
  Forall2 htlc_agree (st_Pending s) (st_Pending o).

Lemma Equal_ok (s o : State) : Equal s o = Ok tt <-> same_state s o.
Proof.
  unfold Equal, same_state, balances_agree.
  rewrite !guard_err_ok, !negb_false_iff, !bool_decide_eq_true, !Z.eqb_eq, Nat.eqb_eq.
  split.
  - intros (? & ? & ? & ? & ? & ? & Hl & HF). apply equal_locks_ok in HF; [|done]. done.
  - intros (? & ? & (? & ? & ? & ?) & HF). pose proof (Forall2_length _ _ _ HF) as Hl.
    repeat split; try done. by apply equal_locks_ok.
Qed.
End MatchLemmas.

(** ** Theorems *)

(** C13. [Apply] implements the abstract transition relation [effect], in both
    directions: it succeeds exactly when the proposer is a party and the kind's
    guards hold, and the next state then has the channel's id, the next nonce, the
    balances, locks and withdrawals of the relation and the domain of its kind. *)
Theorem Apply_refines_effect `{ChannelCrypto} (t : StateTransition) (c : Channel) (p : bytes) (s : State) :
  Apply t (Some c) p = Ok s <->
  (p = ch_PartyA c \/ p = ch_PartyB c) /\
  exists a b ps wA wB, effect t (IsA c p) (baseA c) (baseB c) (base_locks c) a b ps wA wB /\
    s = mkState (ch_ID c) (next_nonce c) (Some a) (Some b) ps wA wB (opForKind (t_Kind t)).
Proof. apply Apply_ok. Qed.

(** C12. No transition creates or destroys value: balances, locks and what leaves
    add up to the previous balances and locks (the deposits at the first payment). *)
Theorem Apply_conserves_value `{ChannelCrypto} (t : StateTransition) (c : Channel) (p : bytes) (s : State)
    (HA : Apply t (Some c) p = Ok s) :
  value s = base_value c.
Proof. by eapply Apply_value. Qed.

(** A proposal can only be paid for by the party who makes it: whatever the
    kind, the other party's balance does not go down and the proposer's does not
    go below zero. *)
Theorem proposer_pays `{ChannelCrypto} (t : StateTransition) (c : Channel) (p : bytes) (s : State)
    (Hlocks : Forall (fun h => 0 <= orZero (h_Amount h)) (st_Pending (ss_State (ch_Latest c))))
    (HbA : 0 <= baseA c) (HbB : 0 <= baseB c)
    (HA : Apply t (Some c) p = Ok s) :
  if IsA c p then baseB c <= bal s false /\ 0 <= bal s true
  else baseA c <= bal s true /\ 0 <= bal s false.
Proof.
  apply Apply_ok in HA as (_ & a & b & ps & wA & wB & He & ->).
  eapply effect_other_side in He; [exact He| |done|done].
  unfold base_locks, clonePending. apply Forall_fmap. eapply Forall_impl; [exact Hlocks|]. done.
Qed.

(** [Apply] never panics: no nil balance, no nil lock amount and no lock index
    out of range is reachable, whatever the transition and the stored state. *)
Theorem Apply_never_panics `{ChannelCrypto} (t : StateTransition) (ch : option Channel) (p : bytes) :
  Apply t ch p <> Panic.
Proof. apply Apply_not_panic. Qed.

(** In every channel reached by signed transitions from its deposits (a
    checkpoint being followed by the refresh of the deposits), whatever [Apply]
    produces is admitted by [Accept] once both parties have signed it: the two
    halves of the protocol agree, and an honest payment is never refused. *)
Theorem reachable_transitions_accepted `{ChannelCrypto} (t : StateTransition) (c : Channel) (p : bytes)
    (ss : SignedState) (Hr : reachable c)
    (Hn : u_range 64 (st_Nonce (ss_State (ch_Latest c)) + 1))
    (HA : Apply t (Some c) p = Ok (ss_State ss)) (Hs : signed_by_both c ss) :
  Accept c ss = Ok (adopted c ss).
Proof.
  apply Accept_complete. eapply Apply_acceptable; try done. by apply reachable_ledger_ok.
Qed.

(** Once a fully signed state no longer adds up to the deposits on record, no
    transition at all is accepted any more, a close included: a checkpoint that
    was not followed by a refresh, but also a refresh after a further deposit. *)
Theorem stale_collateral_blocks `{ChannelCrypto} (t : StateTransition) (c c' : Channel) (p : bytes)
    (ss : SignedState) (Hv : base_value c <> orZero (ch_DepositA c) + orZero (ch_DepositB c))
    (HA : Apply t (Some c) p = Ok (ss_State ss)) :
  Accept c ss <> Ok c'.
Proof.
  intros [Hac _]%Accept_iff. apply Apply_value in HA. apply acc_conserved in Hac.
  unfold value in HA. lia.
Qed.

(** A further deposit freezes a channel that already holds a signed state: from
    any reachable channel with a complete latest state, after the chain refresh
    that raises the deposits, every transition [Apply] can produce is refused. *)
Theorem topup_freezes_channel `{ChannelCrypto} (t : StateTransition) (c c' : Channel) (p : bytes)
    (ss : SignedState) (dA dB : option Z) (Hr : reachable c) (Hc : Complete (ch_Latest c) = true)
    (Hd : orZero (ch_DepositA c) + orZero (ch_DepositB c) < orZero dA + orZero dB)
    (HA : Apply t (Some (set_Chain dA dB StatusOpen c)) p = Ok (ss_State ss)) :
  Accept (set_Chain dA dB StatusOpen c) ss <> Ok c'.
Proof.
  intros [Hac _]%Accept_iff. apply Apply_value in HA. apply acc_conserved in Hac.
  pose proof (lo_value _ (reachable_ledger_ok _ Hr)) as Hv.
  assert (base_value (set_Chain dA dB StatusOpen c) = base_value c) as E.
  { unfold base_value. rewrite !complete_not_fresh by done. done. }
  unfold value in HA. cbn in Hac. rewrite E in HA. lia.
Qed.

(** A lock that is added and then refunded leaves the channel as it was: the
    balances and the lock set come back, whoever proposes the refund. *)
Theorem lock_add_refund_roundtrip `{ChannelCrypto} (t r : StateTransition) (pA qA : bool) (a b : Z)
    (ps : list HTLC) (a1 b1 a2 b2 : Z) (ps1 ps2 : list HTLC) (wA wB vA vB : option Z)
    (Hok : locks_ok ps) (Ht : t_Kind t = KindLockAdd) (Hrk : t_Kind r = KindLockRefund)
    (Hid : t_LockID r = t_LockID t)
    (H1 : effect t pA a b ps a1 b1 ps1 wA wB) (H2 : effect r qA a1 b1 ps1 a2 b2 ps2 vA vB) :
  a2 = a /\ b2 = b /\ ps2 = ps.
Proof.
  inversion H1; subst; try congruence. inversion H2; subst; try congruence.
  rewrite Hid in *.
  match goal with
  | Hf : findLock (insertLock ps ?l) _ = Some ?i, Hi : insertLock ps ?l !! ?i = Some ?h |- _ =>
      destruct (insert_find_remove ps l h i) as [-> ->]; [done|exact Hf|exact Hi|]
  end.
  cbn in *. simplify_eq. destruct pA; (split; [|split]); lia || done.
Qed.

(** [Matches] accepts a proposed state exactly when it agrees with what the
    transition produces on the channel, the nonce, balances, withdrawals and the
    locks in order. *)
Theorem Matches_decides `{ChannelCrypto} (t : StateTransition) (c : Channel) (p : bytes) (s : State) :
  Matches t (Some c) p s = Ok tt <->
  exists want, Apply t (Some c) p = Ok want /\ same_state want s.
Proof.
  unfold Matches. rewrite obind_ok. split; intros (w & HA & HE); exists w; (split; [done|]);
    by apply Equal_ok.
Qed.

(** The operation domain is not part of the comparison: a peer may put any
    domain on a proposed state, that of a cooperative close for example, and
    [Matches] gives the same verdict. *)
Theorem Matches_ignores_domain `{ChannelCrypto} (t : StateTransition) (c : Channel) (p : bytes) (s : State) (o : Z) :
  Matches t (Some c) p (set_Op o s) = Matches t (Some c) p s.
Proof. reflexivity. Qed.

(** ** Witnesses *)

Definition toy_tr (k : TransitionKind) (n : Z) : StateTransition :=
  mkTransition k (Some n) (be_encode 32 9) (keccak [zeros 32]) 5000 (zeros 32).
Definition toy_paid : Channel := adopted toy_channel toy_pay1.

Lemma toy_pay_applies : Apply (toy_tr KindPay 10) (Some toy_channel) toy_A = Ok (ss_State toy_pay1).
Proof. vm_compute. reflexivity. Qed.
Lemma toy_reachable : reachable toy_channel.
Proof. apply reach_new; done. Qed.
Lemma toy_paid_reachable : reachable toy_paid.
Proof.
  eapply (reach_pay toy_channel _ (toy_tr KindPay 10) toy_A toy_pay1);
    [exact toy_reachable|discriminate|exact toy_pay_applies|].
  apply (Accept_adopted (Crypto := toy_crypto)). vm_compute. reflexivity.
Qed.
Lemma toy_pay1_signed : signed_by_both toy_channel toy_pay1.
Proof. repeat split; vm_compute; reflexivity. Qed.

(** PAY 10 on the paid channel after its deposits were raised to 160. *)
Definition toy_topped : Channel := set_Chain (Some 120) (Some 40) StatusOpen toy_paid.
Definition toy_pay2 : SignedState := toy_signed (toy_pay_state 2 40 60).
Lemma toy_topped_applies : Apply (toy_tr KindPay 10) (Some toy_topped) toy_A = Ok (ss_State toy_pay2).
Proof. vm_compute. reflexivity. Qed.

Lemma Apply_conserves_value_witness : value (ss_State toy_pay1) = 100.
Proof. rewrite (Apply_conserves_value _ _ _ _ toy_pay_applies). reflexivity. Defined.

Lemma toy_A_is_A : IsA toy_channel toy_A = true.
Proof. vm_compute. reflexivity. Qed.

Lemma proposer_pays_witness : baseB toy_channel <= bal (ss_State toy_pay1) false /\ 0 <= bal (ss_State toy_pay1) true.
Proof.
  assert (0 <= baseA toy_channel /\ 0 <= baseB toy_channel) as [HA HB] by (vm_compute; split; discriminate).
  pose proof (@proposer_pays toy_crypto (toy_tr KindPay 10) toy_channel toy_A (ss_State toy_pay1)
    (Forall_nil_2 _) HA HB toy_pay_applies) as W.
  rewrite toy_A_is_A in W. exact W.
Defined.

Lemma toy_nonce_fits : u_range 64 (st_Nonce (ss_State (ch_Latest toy_channel)) + 1).
Proof. split; [vm_compute; discriminate|vm_compute; reflexivity]. Qed.

Lemma reachable_transitions_accepted_witness : Accept toy_channel toy_pay1 = Ok (adopted toy_channel toy_pay1).
Proof.
  exact (@reachable_transitions_accepted toy_crypto (toy_tr KindPay 10) toy_channel toy_A toy_pay1
    toy_reachable toy_nonce_fits toy_pay_applies toy_pay1_signed).
Defined.

Lemma toy_topped_stale : base_value toy_topped <> orZero (ch_DepositA toy_topped) + orZero (ch_DepositB toy_topped).
Proof. vm_compute. discriminate. Qed.

Lemma stale_collateral_blocks_witness : Accept toy_topped toy_pay2 <> Ok toy_paid.
Proof.
  exact (@stale_collateral_blocks toy_crypto (toy_tr KindPay 10) toy_topped toy_paid toy_A toy_pay2
    toy_topped_stale toy_topped_applies).
Defined.

Lemma toy_paid_complete : Complete (ch_Latest toy_paid) = true.
Proof. vm_compute. reflexivity. Qed.

Lemma toy_topped_above :
  orZero (ch_DepositA toy_paid) + orZero (ch_DepositB toy_paid) < orZero (Some 120) + orZero (Some 40).
Proof. vm_compute. reflexivity. Qed.

Lemma topup_freezes_channel_witness : Accept toy_topped toy_pay2 <> Ok toy_paid.
Proof.
  exact (@topup_freezes_channel toy_crypto (toy_tr KindPay 10) toy_paid toy_paid toy_A toy_pay2 (Some 120) (Some 40)
    toy_paid_reachable toy_paid_complete toy_topped_above toy_topped_applies).
Defined.

Lemma lock_add_refund_roundtrip_witness :
  apply_kind (toy_tr KindLockRefund 0) (set_Pending
    [mkHTLC (be_encode 32 9) (keccak [zeros 32]) (Some 7) 5000 true] (toy_pay_state 1 53 40)) false
  = Ok (toy_pay_state 1 60 40).
Proof.
  pose (lock := mkHTLC (be_encode 32 9) (keccak [zeros 32]) (Some 7) 5000 true).
  assert (effect (toy_tr KindLockAdd 7) true 60 40 [] 53 40 [lock] None None) as H1
    by (apply (eff_lock_add (toy_tr KindLockAdd 7) true 60 40 [] 7); done).
  assert (effect (toy_tr KindLockRefund 0) false 53 40 [lock] (53 + 7) 40 (removeAt [lock] 0) None None) as H2
    by (apply (eff_lock_refund (toy_tr KindLockRefund 0) false 53 40 [lock] 0 lock 7); vm_compute; reflexivity).
  destruct (lock_add_refund_roundtrip (toy_tr KindLockAdd 7) (toy_tr KindLockRefund 0) true false 60 40 []
    _ _ _ _ _ _ _ _ _ _ ltac:(constructor; constructor) eq_refl eq_refl eq_refl H1 H2) as (_ & _ & _).
  vm_compute. reflexivity.
Defined.
