(* ===== verification/ChannelHistory.v ===== *)
(** * Payment channels: the payment log ([internal/channel/history.go])

    An append-or-update log of at most [historyCap] records, keyed by payment
    intent.  It is observability only: no balance is computed from it. *)
From S2P Require Import Prelude.
From S2P Require Import GoBytes.
From S2P Require Import ChannelTypes.
From S2P Require Import ChannelCrypto.
From S2P Require Import ChannelState.

Definition Resolved (r : PaymentRecord) : bool :=
  match pr_Status r with
  | PayCompleted | PayRefunded | PayRejected => true
  | _ => false
  end.

Definition IntentHex (r : PaymentRecord) : string := hex_encode (pr_Intent r).

Definition historyCap : nat := 256.

(** The merge of [rec] into the record it updates. *)
Definition merge_record (existing rec : PaymentRecord) : PaymentRecord :=
  mkPaymentRecord (pr_Intent rec) (pr_Kind rec)
    (if bool_decide (pr_Route rec = RouteNone) then pr_Route existing else pr_Route rec)
    (pr_Incoming rec)
    (if bool_decide (pr_Amount rec = ""%string) || bool_decide (pr_Amount rec = "0"%string)
     then pr_Amount existing else pr_Amount rec)
    (pr_Status rec) (pr_LockID rec) (pr_Nonce rec) (pr_CreatedAt existing)
    (pr_ResolvedAt rec) (pr_Detail rec).

(** The loop over the log: [None] when no record has the intent. *)
Fixpoint note_existing (rec : PaymentRecord) (l : list PaymentRecord) : option (list PaymentRecord) :=
  match l with
  | [] => None
  | e :: l =>
      if bool_decide (pr_Intent e = pr_Intent rec)
      then Some ((if Resolved e then e else merge_record e rec) :: l)
      else cons e <$> note_existing rec l
  end.

Definition note_history (rec : PaymentRecord) (l : list PaymentRecord) : list PaymentRecord :=
  match note_existing rec l with
  | Some l => l
  | None => let l := l ++ [rec] in drop (length l - historyCap) l
  end.

Definition NotePayment (rec : PaymentRecord) (c : Channel) : Channel :=
  set_History (note_history rec (ch_History c)) c.

Fixpoint payment_at (intent : bytes) (l : list PaymentRecord) : option PaymentRecord :=
  match l with
  | [] => None
  | r :: l => if bool_decide (pr_Intent r = intent) then Some r else payment_at intent l
  end.
Definition PaymentAt (c : Channel) (intent : bytes) : option PaymentRecord :=
  payment_at intent (ch_History c).

Definition route_of (k : TransitionKind) : PayRoute :=
  match k with
  | KindLockAdd | KindLockSettle | KindLockRefund => RouteRouted
  | _ => RouteDirect
  end.

Definition recordFor (intent : bytes) (tr : StateTransition) (incoming : bool) (status : PayStatus)
    (now : Z) : PaymentRecord :=
  mkPaymentRecord intent (t_Kind tr) (route_of (t_Kind tr)) incoming
    (match t_Amount tr with Some a => dec_text a | None => ""%string end)
    status (t_LockID tr) 0 now 0 ""%string.

Definition outcome_status (k : TransitionKind) : PayStatus :=
  match k with
  | KindLockAdd => PayInFlight
  | KindLockRefund => PayRefunded
  | _ => PayCompleted
  end.

Definition outcomeRecord (intent : bytes) (tr : StateTransition) (incoming : bool) (nonce now : Z)
    : PaymentRecord :=
  let status := outcome_status (t_Kind tr) in
  let r := recordFor intent tr incoming status now in
  mkPaymentRecord (pr_Intent r) (pr_Kind r) (pr_Route r) (pr_Incoming r) (pr_Amount r) (pr_Status r)
    (pr_LockID r) nonce (pr_CreatedAt r)
    (if bool_decide (status = PayInFlight) then 0 else now) (pr_Detail r).

(** ** Lemmas *)

Definition intents (l : list PaymentRecord) : list bytes := map pr_Intent l.

(** The log of a well-formed channel: bounded, one record per intent. *)
Definition log_ok (l : list PaymentRecord) : Prop :=
  (length l <= historyCap)%nat /\ NoDup (intents l).

Lemma note_existing_intents (rec : PaymentRecord) (l l' : list PaymentRecord) :
  note_existing rec l = Some l' -> intents l' = intents l.
Proof.
  revert l'; induction l as [|e l IH]; intros l'; cbn; [discriminate|].
  case_bool_decide as Hi.
  - intros [= <-]. destruct (Resolved e); cbn; congruence.
  - destruct (note_existing rec l) as [k|]; cbn; [|discriminate]. intros [= <-].
    cbn. f_equal. by apply IH.
Qed.

Lemma note_existing_none (rec : PaymentRecord) (l : list PaymentRecord) :
  note_existing rec l = None -> pr_Intent rec ∉ intents l.
Proof.
  induction l as [|e l IH]; cbn; [intros _; apply not_elem_of_nil|].
  case_bool_decide as Hi; [discriminate|].
  destruct (note_existing rec l); cbn; [discriminate|]. intros _ [E|Hin]%elem_of_cons; [congruence|].
  by apply IH.
Qed.

Lemma intents_drop (n : nat) (l : list PaymentRecord) : intents (drop n l) = drop n (intents l).
Proof. unfold intents. by rewrite skipn_map. Qed.

Lemma log_ok_note (rec : PaymentRecord) (l : list PaymentRecord) :
  log_ok l -> log_ok (note_history rec l).
Proof.
  intros [Hl Hn]. unfold note_history, log_ok. destruct (note_existing rec l) as [l'|] eqn:E.
  - rewrite (note_existing_intents _ _ _ E). split; [|done].
    pose proof (note_existing_intents _ _ _ E) as I.
    apply (f_equal (@length bytes)) in I. unfold intents in I. rewrite !length_map in I. lia.
  - apply note_existing_none in E. rewrite length_drop, length_app, intents_drop. cbn [length]. split; [lia|].
    assert (NoDup (intents (l ++ [rec]))) as Hn'.
    { unfold intents. rewrite map_app. apply NoDup_app. split; [done|]. split.
      - intros x Hx Hx'. apply list_elem_of_singleton in Hx' as ->. by apply E.
      - apply NoDup_singleton. }
    rewrite <- (take_drop (length l + 1 - historyCap) (intents (l ++ [rec]))) in Hn'.
    by apply NoDup_app in Hn' as (_ & _ & ?).
Qed.

Lemma payment_at_note_existing (rec r : PaymentRecord) (l l' : list PaymentRecord) :
  note_existing rec l = Some l' -> payment_at (pr_Intent r) l = Some r ->
  Resolved r = true \/ pr_Intent r <> pr_Intent rec -> payment_at (pr_Intent r) l' = Some r.
Proof.
  revert l'; induction l as [|e l IH]; intros l' E; cbn in *; [discriminate|].
  case_bool_decide as Hi.
  - injection E as <-. case_bool_decide as He.
    + intros [= ->] [Hr|Hr]; [|congruence]. rewrite Hr. cbn. by rewrite bool_decide_true.
    + intros Hp _. cbn. rewrite bool_decide_false; [done|].
      destruct (Resolved e); cbn; congruence.
  - destruct (note_existing rec l) as [k|]; [|discriminate]. injection E as <-.
    case_bool_decide as He; cbn.
    + intros [= ->] _. by rewrite bool_decide_true.
    + rewrite bool_decide_false by done. by apply IH.
Qed.

Lemma payment_at_app (i : bytes) (l k : list PaymentRecord) (r : PaymentRecord) :
  payment_at i l = Some r -> payment_at i (l ++ k) = Some r.
Proof. induction l as [|e l IH]; cbn; [discriminate|]. by case_bool_decide. Qed.

(** The payment log keeps at most 256 records and one per intent whatever is
    noted, and while it has room, a settled record ([completed], [refunded] or
    [rejected]) and the records of other payments read back unchanged: a late
    write never reopens a finished payment. *)
Theorem NotePayment_log (rec : PaymentRecord) (c : Channel) (Hok : log_ok (ch_History c)) :
  log_ok (ch_History (NotePayment rec c)) /\
  (forall r, (length (ch_History c) < historyCap)%nat -> PaymentAt c (pr_Intent r) = Some r ->
     Resolved r = true \/ pr_Intent r <> pr_Intent rec ->
     PaymentAt (NotePayment rec c) (pr_Intent r) = Some r).
Proof.
  split; [by apply log_ok_note|]. intros r Hlen Hr Hd.
  unfold PaymentAt, NotePayment, note_history in *. cbn [ch_History set_History].
  destruct (note_existing rec (ch_History c)) as [l'|] eqn:E.
  - by eapply payment_at_note_existing.
  - rewrite length_app. cbn [length].
    replace (length (ch_History c) + 1 - historyCap)%nat with O by lia.
    by apply payment_at_app.
Qed.

Lemma NotePayment_log_witness :
  let tr := mkTransition KindPay (Some 5) (zeros 32) (zeros 32) 0 (zeros 32) in
  let done_rec := outcomeRecord (be_encode 32 1) tr true 1 100 in
  PaymentAt (NotePayment (recordFor (be_encode 32 1) tr true PayUnknown 200)
    (NotePayment done_rec toy_channel)) (be_encode 32 1) = Some done_rec.
Proof.
  intros tr done_rec.
  refine (proj2 (NotePayment_log (recordFor (be_encode 32 1) tr true PayUnknown 200)
    (NotePayment done_rec toy_channel) _) done_rec _ _ _).
  - split; [vm_compute; lia|]. apply (NoDup_singleton (be_encode 32 1)).
  - vm_compute. lia.
  - reflexivity.
  - by left.
Defined.
