(* ===== verification/ChannelWire.v ===== *)
(** * Payment channels: the wire ([internal/channel/scpp.go], codecs of [store.go])

    The one encoding of a state used on disk and on the wire (decimal amounts,
    lowercase hex), the transition encoding, reject codes, and the 4-byte length
    framing.  [encoding/json] itself is a parameter of the framing. *)
From S2P Require Import Prelude.
From S2P Require Import GoBytes.
From S2P Require Import ChannelTypes.
From S2P Require Import ChannelCrypto.
From S2P Require Import ChannelState.
From S2P Require Import ChannelTransition.

(** ** Stored records *)
Record storedHTLC : Type := mkStoredHTLC {
  sh_ID : string;
  sh_Hash : string;
  sh_Amount : string;
  sh_Expiry : Z;
  sh_PayerIsA : bool
}.
Record storedState : Type := mkStoredState {
  sst_Channel : string;
  sst_Nonce : Z;
  sst_BalanceA : string;
  sst_BalanceB : string;
  sst_Pending : list storedHTLC;
  sst_WithdrawA : string;
  sst_WithdrawB : string;
  sst_Op : Z
}.
Record wireTransition : Type := mkWireTransition {
  wt_Kind : string;
  wt_Amount : string;
  wt_LockID : string;
  wt_Hash : string;
  wt_Expiry : Z;
  wt_Preimage : string
}.

(** The wire strings of the kinds. *)
Definition kind_text (k : TransitionKind) : string :=
  match k with
  | KindPay => "PAY" | KindLockAdd => "LOCK_ADD" | KindLockSettle => "LOCK_SETTLE"
  | KindLockRefund => "LOCK_REFUND" | KindClose => "CLOSE" | KindCheckpoint => "CHECKPOINT"
  | KindOther s => s
  end.
Definition kind_of_text (s : string) : TransitionKind :=
  if String.eqb s "PAY" then KindPay
  else if String.eqb s "LOCK_ADD" then KindLockAdd
  else if String.eqb s "LOCK_SETTLE" then KindLockSettle
  else if String.eqb s "LOCK_REFUND" then KindLockRefund
  else if String.eqb s "CLOSE" then KindClose
  else if String.eqb s "CHECKPOINT" then KindCheckpoint
  else KindOther s.

(** ** Scalars *)
Definition decString (n : option Z) : string :=
  match n with
  | None => "0"
  | Some n => dec_text n
  end.
Definition parseDec (s : string) : outcome chan_err Z :=
  if String.eqb s "" then Ok 0 else of_option ErrNotDecimal (dec_parse s).
Definition parseUnsignedDec (s : string) : outcome chan_err Z :=
  let? n := parseDec s in
  fail? n <? 0 with ErrNegativeField ;;
  Ok n.
Definition parseBytes32 (s : string) : outcome chan_err bytes :=
  match hex_decode s with
  | Some raw => if Nat.eqb (length raw) 32 then Ok raw else Err ErrNotBytes32
  | None => Err ErrNotBytes32
  end.
Definition parseSig (s : string) : outcome chan_err bytes :=
  match hex_decode s with
  | Some raw => if Nat.eqb (length raw) 65 then Ok raw else Err ErrMalformed
  | None => Err ErrMalformed
  end.

(** ** States *)
Definition encodeHTLC (h : HTLC) : storedHTLC :=
  mkStoredHTLC (hex_encode (h_ID h)) (hex_encode (h_Hash h)) (decString (h_Amount h))
    (h_Expiry h) (h_PayerIsA h).

Definition encodeStateWire (s : State) : storedState :=
  mkStoredState (hex_encode (st_Channel s)) (st_Nonce s)
    (decString (st_BalanceA s)) (decString (st_BalanceB s))
    (map encodeHTLC (st_Pending s))
    (if 0 <? orZero (st_WithdrawA s) then decString (st_WithdrawA s) else "")
    (if 0 <? orZero (st_WithdrawB s) then decString (st_WithdrawB s) else "")
    (if negb (st_Op s =? 0) && negb (st_Op s =? OpState) then st_Op s else 0).

(** The loop over the locks; [previous] is [None] at index 0. *)
Fixpoint decode_locks (previous : option bytes) (l : list storedHTLC) : outcome chan_err (list HTLC) :=
  match l with
  | [] => Ok []
  | w :: l =>
      let? id := parseBytes32 (sh_ID w) in
      fail? match previous with Some p => negb (lessID p id) | None => false end with ErrLocksUnsorted ;;
      let? hash := parseBytes32 (sh_Hash w) in
      let? amount := parseDec (sh_Amount w) in
      let? rest := decode_locks (Some id) l in
      Ok (mkHTLC id hash (Some amount) (sh_Expiry w) (sh_PayerIsA w) :: rest)
  end.

Definition known_op (o : Z) : bool := (o =? OpState) || (o =? OpCoopClose) || (o =? OpCheckpoint).

Definition decodeStateWire (w : storedState) : outcome chan_err State :=
  let? channel := parseBytes32 (sst_Channel w) in
  let? balanceA := parseDec (sst_BalanceA w) in
  let? balanceB := parseDec (sst_BalanceB w) in
  let? withdrawA := parseUnsignedDec (sst_WithdrawA w) in
  let? withdrawB := parseUnsignedDec (sst_WithdrawB w) in
  let o := if sst_Op w =? 0 then OpState else sst_Op w in
  fail? negb (known_op o) with ErrUnknownDomain ;;
  let? pending := decode_locks None (sst_Pending w) in
  Ok (mkState channel (sst_Nonce w) (Some balanceA) (Some balanceB) pending
        (Some withdrawA) (Some withdrawB) o).

Definition decodeHex (s : string) : outcome chan_err bytes := of_option ErrHexInvalid (hex_decode s).

Definition decodeSignedWire (w : storedState) (sigA sigB : string) : outcome chan_err SignedState :=
  let? state := decodeStateWire w in
  let? a := decodeHex sigA in
  let? b := decodeHex sigB in
  Ok (mkSignedState state a b).

(** ** Transitions *)
Definition encode_nonzero (b : bytes) : string := if bool_decide (b = zeros 32) then "" else hex_encode b.

Definition encodeTransitionWire (t : StateTransition) : wireTransition :=
  mkWireTransition (kind_text (t_Kind t))
    (match t_Amount t with Some n => if n =? 0 then "" else dec_text n | None => "" end)
    (encode_nonzero (t_LockID t)) (encode_nonzero (t_Hash t)) (t_Expiry t) (encode_nonzero (t_Preimage t)).

Definition decode_field (s : string) : outcome chan_err bytes :=
  if String.eqb s "" then Ok (zeros 32) else parseBytes32 s.

Definition decodeTransitionWire (w : wireTransition) : outcome chan_err StateTransition :=
  let? amount := (if String.eqb (wt_Amount w) "" then Ok 0 else parseDec (wt_Amount w)) in
  let? lockID := decode_field (wt_LockID w) in
  let? hash := decode_field (wt_Hash w) in
  let? preimage := decode_field (wt_Preimage w) in
  Ok (mkTransition (kind_of_text (wt_Kind w)) (Some amount) lockID hash (wt_Expiry w) preimage).

(** ** Reject codes *)
Inductive RejectCode : Type :=
| RejectNonceStale | RejectAlreadySignedNonce | RejectNotConserved | RejectBadSignature
| RejectLocksMalformed | RejectTransitionMismatch | RejectPreimageBad | RejectLockNotExpired
| RejectLockExpired | RejectInsufficient | RejectConflicted | RejectClosing | RejectUnknownChannel.

Definition Retryable (c : RejectCode) : bool :=
  match c with
  | RejectNonceStale | RejectLockNotExpired | RejectInsufficient => true
  | _ => false
  end.

(** ** Framing *)
Definition MaxFrameBytes : Z := Z.shiftl 1 20.
Definition ProtocolVersion : Z := 1.

Inductive frame_err : Type :=
| ErrSCPPFrameTooLarge | ErrBadVersion | ErrFrameMalformed | ErrMarshal | ErrUnexpectedEOF.

Record Envelope : Type := mkEnvelope {
  e_V : Z;
  e_Type : string;
  e_Channel : string;
  e_Body : bytes
}.

(** [io.ReadFull] of [n] bytes from a stream. *)
Definition read_full (n : nat) (stream : bytes) : outcome frame_err (bytes * bytes) :=
  if (length stream <? n)%nat then Err ErrUnexpectedEOF else Ok (take n stream, drop n stream).

Section Framing.
Context (json_marshal : Envelope -> option bytes) (json_unmarshal : bytes -> option Envelope).

(** The bytes [WriteFrame] writes. *)
Definition WriteFrame (msg : Envelope) : outcome frame_err bytes :=
  let msg := if e_V msg =? 0 then mkEnvelope ProtocolVersion (e_Type msg) (e_Channel msg) (e_Body msg)
             else msg in
  let? raw := of_option ErrMarshal (json_marshal msg) in
  fail? MaxFrameBytes <? Z.of_nat (length raw) with ErrSCPPFrameTooLarge ;;
  Ok (be_encode 4 (Z.of_nat (length raw)) ++ raw).

(** The message, and what is left of the stream. *)
Definition ReadFrame (stream : bytes) : outcome frame_err (Envelope * bytes) :=
  let? (header, stream) := read_full 4 stream in
  let size := be_decode header in
  fail? MaxFrameBytes <? size with ErrSCPPFrameTooLarge ;;
  let? (raw, stream) := read_full (Z.to_nat size) stream in
  let? msg := of_option ErrFrameMalformed (json_unmarshal raw) in
  fail? negb (e_V msg =? ProtocolVersion) with ErrBadVersion ;;
  Ok (msg, stream).
End Framing.

(** ** Lemmas *)

Lemma parseBytes32_encode (b : bytes) : array_ok 32 b -> parseBytes32 (hex_encode b) = Ok b.
Proof. intros [Hl Hb]. unfold parseBytes32. by rewrite hex_decode_encode, Hl. Qed.

Lemma parseBytes32_ok (s : string) (b : bytes) : parseBytes32 s = Ok b -> array_ok 32 b.
Proof.
  unfold parseBytes32. destruct (hex_decode s) as [raw|] eqn:E; [|discriminate].
  destruct (Nat.eqb_spec (length raw) 32); [|discriminate]. intros [= <-].
  split; [done|]. by eapply hex_decode_ok.
Qed.

Lemma dec_text_nonempty (n : Z) : String.eqb (dec_text n) "" = false.
Proof.
  unfold dec_text. destruct (Z.ltb_spec n 0); [done|].
  destruct (dec_nat_text_scan n) as (d & r & -> & _); [lia|done].
Qed.

Lemma parseDec_text (n : Z) : parseDec (dec_text n) = Ok n.
Proof. unfold parseDec. by rewrite dec_text_nonempty, dec_parse_text. Qed.

Lemma parseDec_decString (n : option Z) : parseDec (decString n) = Ok (orZero n).
Proof. destruct n as [n|]; [apply parseDec_text|done]. Qed.

Lemma parseUnsignedDec_withdraw (n : option Z) :
  0 <= orZero n -> parseUnsignedDec (if 0 <? orZero n then decString n else "") = Ok (orZero n).
Proof.
  intros Hn. unfold parseUnsignedDec. destruct (Z.ltb_spec 0 (orZero n)).
  - rewrite parseDec_decString. cbn. by rewrite (proj2 (Z.ltb_ge _ _)) by lia.
  - cbn. f_equal. lia.
Qed.

(** What a state looks like after a round trip: nil is zero, no domain is the ordinary one. *)
Definition norm_htlc (h : HTLC) : HTLC :=
  mkHTLC (h_ID h) (h_Hash h) (Some (orZero (h_Amount h))) (h_Expiry h) (h_PayerIsA h).
Definition norm_state (s : State) : State :=
  mkState (st_Channel s) (st_Nonce s) (Some (orZero (st_BalanceA s))) (Some (orZero (st_BalanceB s)))
    (map norm_htlc (st_Pending s)) (Some (orZero (st_WithdrawA s))) (Some (orZero (st_WithdrawB s))) (op s).

Definition htlc_encodable (h : HTLC) : Prop := array_ok 32 (h_ID h) /\ array_ok 32 (h_Hash h).
Record encodable (s : State) : Prop := {
  en_channel : array_ok 32 (st_Channel s);
  en_locks : Forall htlc_encodable (st_Pending s);
  en_sorted : StronglySorted lock_lt (st_Pending s);
  en_withdrawA : 0 <= orZero (st_WithdrawA s);
  en_withdrawB : 0 <= orZero (st_WithdrawB s);
  en_op : known_op (op s) = true
}.

Lemma decode_locks_encode (l : list HTLC) (prev : option bytes) :
  Forall htlc_encodable l -> StronglySorted lock_lt l ->
  (forall p h, prev = Some p -> head l = Some h -> lessID p (h_ID h) = true) ->
  decode_locks prev (map encodeHTLC l) = Ok (map norm_htlc l).
Proof.
  intros He Hs. revert prev. induction Hs as [|h l Hs IH Hh]; intros prev Hp; [done|].
  apply Forall_cons in He as [[Hi Hx] He]. cbn [map decode_locks encodeHTLC sh_ID sh_Hash sh_Amount].
  rewrite parseBytes32_encode by done. cbn [obind].
  assert (match prev with Some p => negb (lessID p (h_ID h)) | None => false end = false) as ->.
  { destruct prev as [p|]; [|done]. by rewrite (Hp p h). }
  cbn [guard_err]. rewrite parseBytes32_encode, parseDec_decString by done. cbn [obind].
  rewrite IH; [done|done|]. intros p k [= <-] Hk. destruct l as [|x l]; [done|]. injection Hk as <-.
  by inversion Hh.
Qed.

Lemma decode_encode_state (s : State) : encodable s -> decodeStateWire (encodeStateWire s) = Ok (norm_state s).
Proof.
  intros []. unfold decodeStateWire, encodeStateWire.
  cbn [sst_Channel sst_Nonce sst_BalanceA sst_BalanceB sst_Pending sst_WithdrawA sst_WithdrawB sst_Op].
  rewrite parseBytes32_encode, !parseDec_decString, !parseUnsignedDec_withdraw by done. cbn [obind].
  assert ((if (if negb (st_Op s =? 0) && negb (st_Op s =? OpState) then st_Op s else 0) =? 0
           then OpState else (if negb (st_Op s =? 0) && negb (st_Op s =? OpState) then st_Op s else 0)) = op s) as ->.
  { unfold op. destruct (Z.eqb_spec (st_Op s) 0); [done|].
    destruct (Z.eqb_spec (st_Op s) OpState) as [->|]; [done|]. cbn.
    by rewrite (proj2 (Z.eqb_neq _ _)). }
  rewrite en_op0. cbn [negb guard_err]. rewrite decode_locks_encode by (done || intros ? ? [=]). done.
Qed.

(** *** Canonical order: a sorted lock set is hashed as it is stored *)

#[export] Instance id_le_trans : Transitive id_le.
Proof.
  intros a b c. unfold id_le. intros H1 H2.
  destruct (bytes_ltb (h_ID c) (h_ID a)) eqn:E; [|done].
  destruct (bytes_ltb (h_ID c) (h_ID b)) eqn:F; [congruence|].
  destruct (bytes_ltb (h_ID b) (h_ID c)) eqn:G.
  - pose proof (bytes_ltb_trans _ _ _ G E). congruence.
  - pose proof (bytes_ltb_total _ _ G F) as K. congruence.
Qed.
#[export] Instance id_le_total : Total id_le.
Proof.
  intros a b. unfold id_le. destruct (bytes_ltb (h_ID b) (h_ID a)) eqn:E; [right|by left].
  by apply bytes_ltb_asym.
Qed.

Lemma lock_lt_sorted_le (l : list HTLC) : StronglySorted lock_lt l -> StronglySorted id_le l.
Proof.
  induction 1 as [|h l Hl IH Hh]; constructor; [done|].
  eapply Forall_impl; [exact Hh|]. intros x Hx. by apply bytes_ltb_asym.
Qed.

Lemma NoDup_ids_inj (l : list HTLC) (x y : HTLC) :
  NoDup (map h_ID l) -> x ∈ l -> y ∈ l -> h_ID x = h_ID y -> x = y.
Proof.
  induction l as [|h l IH]; cbn; [intros _ []%not_elem_of_nil|].
  intros [Hh Hn]%NoDup_cons [->|Hx]%elem_of_cons [->|Hy]%elem_of_cons E; try done.
  - exfalso. apply Hh. rewrite E. by apply list_elem_of_fmap_2.
  - exfalso. apply Hh. rewrite <- E. by apply list_elem_of_fmap_2.
  - by apply IH.
Qed.

Lemma sort_locks_sorted (l : list HTLC) : StronglySorted lock_lt l -> sort_locks l = l.
Proof.
  intros H. apply (StronglySorted_unique_strong id_le).
  - intros x y Hx Hy Hxy Hyx. rewrite (sort_locks_perm l) in Hx.
    apply (NoDup_ids_inj l); [by apply sorted_ids_NoDup|done|done|]. by apply bytes_ltb_total.
  - apply (StronglySorted_merge_sort id_le).
  - by apply lock_lt_sorted_le.
  - apply sort_locks_perm.
Qed.

Lemma norm_locks_sorted (l : list HTLC) : StronglySorted lock_lt l -> StronglySorted lock_lt (map norm_htlc l).
Proof.
  induction 1 as [|h l Hl IH Hh]; cbn; constructor; [done|]. by apply Forall_fmap.
Qed.

Section NormDigest.
Context `{Crypto : ChannelCrypto}.

Lemma htlc_word_norm (h : HTLC) : htlc_word (norm_htlc h) = htlc_word h.
Proof. unfold htlc_word. cbn. by rewrite u256_word. Qed.

Lemma HTLCRoot_norm (s : State) : StronglySorted lock_lt (st_Pending s) -> HTLCRoot (norm_state s) = HTLCRoot s.
Proof.
  intros H. unfold HTLCRoot. cbn [norm_state st_Pending]. destruct (st_Pending s) as [|h l]; [done|].
  change (keccak (map htlc_word (sort_locks (map norm_htlc (h :: l)))) = keccak (map htlc_word (sort_locks (h :: l)))).
  rewrite !sort_locks_sorted by (done || by apply norm_locks_sorted).
  rewrite map_map. f_equal. apply map_ext. apply htlc_word_norm.
Qed.

Lemma Digest_norm (s : State) (chain : option Z) (k : bytes) :
  encodable s -> Digest (norm_state s) chain k = Digest s chain k.
Proof.
  intros []. unfold Digest. rewrite HTLCRoot_norm by done.
  assert (op (norm_state s) = op s) as ->.
  { unfold op at 1. cbn [norm_state st_Op]. destruct (Z.eqb_spec (op s) 0) as [E|]; [|done].
    rewrite E in en_op0. done. }
  unfold StateDigest. cbn [norm_state st_Channel st_Nonce st_BalanceA st_BalanceB st_WithdrawA st_WithdrawB].
  rewrite !(u256_word (st_BalanceA s)), !(u256_word (st_BalanceB s)), !(u256_word (st_WithdrawA s)),
    !(u256_word (st_WithdrawB s)). done.
Qed.
End NormDigest.

(** ** Transitions over the wire *)

Definition norm_transition (t : StateTransition) : StateTransition :=
  mkTransition (t_Kind t) (Some (orZero (t_Amount t))) (t_LockID t) (t_Hash t) (t_Expiry t) (t_Preimage t).

(** A kind that is not one of the named ones is none of their strings. *)
Definition kind_ok (k : TransitionKind) : Prop := kind_of_text (kind_text k) = k.

Record transition_encodable (t : StateTransition) : Prop := {
  te_kind : kind_ok (t_Kind t);
  te_lock : array_ok 32 (t_LockID t);
  te_hash : array_ok 32 (t_Hash t);
  te_preimage : array_ok 32 (t_Preimage t)
}.

Lemma hex_encode_nonempty (b : bytes) : array_ok 32 b -> String.eqb (hex_encode b) "" = false.
Proof. intros [Hl _]. destruct b; [discriminate|done]. Qed.

Lemma decode_field_encode (b : bytes) : array_ok 32 b -> decode_field (encode_nonzero b) = Ok b.
Proof.
  intros Hb. unfold decode_field, encode_nonzero. case_bool_decide as E; [by subst|].
  rewrite hex_encode_nonempty by done. by apply parseBytes32_encode.
Qed.

Lemma decode_encode_transition (t : StateTransition) :
  transition_encodable t -> decodeTransitionWire (encodeTransitionWire t) = Ok (norm_transition t).
Proof.
  intros []. unfold decodeTransitionWire, encodeTransitionWire.
  cbn [wt_Kind wt_Amount wt_LockID wt_Hash wt_Expiry wt_Preimage].
  rewrite !decode_field_encode, te_kind0 by done. unfold norm_transition.
  destruct (t_Amount t) as [n|]; [|done]. destruct (Z.eqb_spec n 0) as [->|]; [done|].
  rewrite dec_text_nonempty, parseDec_text. done.
Qed.

Lemma Apply_norm `{ChannelCrypto} (t : StateTransition) (ch : option Channel) (p : bytes) :
  Apply (norm_transition t) ch p = Apply t ch p.
Proof.
  destruct ch as [c|]; [|done]. cbn [Apply norm_transition t_Kind]. f_equal. f_equal.
  unfold apply_kind, norm_transition; cbn [t_Kind t_Amount t_LockID t_Hash t_Expiry t_Preimage].
  assert (requirePositive (Some (orZero (t_Amount t))) = requirePositive (t_Amount t)) as ->
    by (by destruct (t_Amount t)).
  done.
Qed.

Lemma WriteFrame_ok (marshal : Envelope -> option bytes) (msg : Envelope) (frame : bytes) :
  e_V msg = ProtocolVersion -> WriteFrame marshal msg = Ok frame ->
  exists raw, marshal msg = Some raw /\ Z.of_nat (length raw) <= MaxFrameBytes /\
    frame = be_encode 4 (Z.of_nat (length raw)) ++ raw.
Proof.
  intros Hv. unfold WriteFrame. rewrite Hv. change (ProtocolVersion =? 0) with false. cbv iota.
  destruct (marshal msg) as [raw|]; [|done]. cbn [of_option obind].
  destruct (Z.ltb_spec MaxFrameBytes (Z.of_nat (length raw))); [done|]. cbn [guard_err].
  intros [= <-]. by exists raw.
Qed.

(** ** Theorems *)

(** Wire and disk keep a state: encoding then decoding gives the state back
    (nil amounts as zero, a missing domain as the ordinary one), and the digest
    both parties signed is unchanged, so the signatures survive the trip. *)
Theorem state_wire_roundtrip `{ChannelCrypto} (s : State) (chain : option Z) (contract : bytes)
    (He : encodable s) :
  decodeStateWire (encodeStateWire s) = Ok (norm_state s) /\
  Digest (norm_state s) chain contract = Digest s chain contract /\ same_state s (norm_state s).
Proof.
  split; [by apply decode_encode_state|]. split; [by apply Digest_norm|].
  unfold same_state, balances_agree. cbn. repeat split.
  apply Forall2_fmap_r, Forall_Forall2_diag, Forall_forall. intros h _. by repeat split.
Qed.

Lemma decode_locks_sorted (l : list storedHTLC) (prev : option bytes) (ls : list HTLC) :
  decode_locks prev l = Ok ls -> StronglySorted lock_lt ls /\ Forall htlc_encodable ls /\
  Forall (fun h => match prev with Some p => lessID p (h_ID h) = true | None => True end) ls.
Proof.
  revert prev ls. induction l as [|x l IH]; intros prev ls H; cbn in H; [injection H as <-; split; [|split]; constructor|].
  outcome_inv. apply IH in E3 as (Hs & He & Hf). split; [constructor; [exact Hs|exact Hf]|].
  split; [constructor; [split; by eapply parseBytes32_ok|exact He]|].
  assert (match prev with Some p => lessID p a = true | None => True end) as Hp
    by (destruct prev; [by apply negb_false_iff in E0|done]).
  constructor; [done|]. destruct prev as [p|]; [|by apply Forall_true].
  eapply Forall_impl; [exact Hf|]. cbn. intros h Hh. exact (bytes_ltb_trans _ _ _ Hp Hh).
Qed.

Lemma decoded_encodable (w : storedState) (s : State) :
  decodeStateWire w = Ok s -> encodable s /\ known_op (st_Op s) = true.
Proof.
  unfold decodeStateWire. intros Hd.
  assert (forall x n, parseUnsignedDec x = Ok n -> 0 <= n) as HU.
  { intros x n H. unfold parseUnsignedDec in H. outcome_inv. zbool. lia. }
  outcome_inv. apply decode_locks_sorted in E5 as (Hs & He & _). apply negb_false_iff in E4.
  split; [|exact E4].
  split; cbn [st_Channel st_WithdrawA st_WithdrawB st_Pending orZero];
    [by eapply parseBytes32_ok|exact He|exact Hs|by eapply HU|by eapply HU|].
  unfold op. cbn [st_Op]. set (o := if sst_Op w =? 0 then OpState else sst_Op w) in *. by destruct (o =? 0).
Qed.

(** Whatever a peer sends, a decoded state has a 32-byte channel id, no negative
    withdrawal, a known domain, and its locks in strictly increasing id order: an
    unsorted set or a repeated id is refused, never sorted. *)
Theorem decoded_state_canonical (w : storedState) (s : State) (Hd : decodeStateWire w = Ok s) :
  array_ok 32 (st_Channel s) /\ 0 <= orZero (st_WithdrawA s) /\ 0 <= orZero (st_WithdrawB s) /\
  known_op (st_Op s) = true /\ StronglySorted lock_lt (st_Pending s) /\
  sort_locks (st_Pending s) = st_Pending s.
Proof.
  destruct (decoded_encodable w s Hd) as [[H1 _ H3 H4 H5 _] Ho].
  split; [exact H1|]. split; [exact H4|]. split; [exact H5|]. split; [exact Ho|]. split; [exact H3|].
  by apply sort_locks_sorted.
Qed.

(** The transition a peer receives is the transition that was proposed: it
    decodes, and produces the same next state or error on every channel. *)
Theorem transition_wire_roundtrip `{ChannelCrypto} (t : StateTransition) (He : transition_encodable t) :
  exists t', decodeTransitionWire (encodeTransitionWire t) = Ok t' /\
    forall ch p, Apply t' ch p = Apply t ch p.
Proof.
  exists (norm_transition t). split; [by apply decode_encode_transition|]. intros. apply Apply_norm.
Qed.

(** A written frame reads back as the message, with the rest of the stream
    untouched, for any marshaller that unmarshals what it marshals. *)
Theorem frame_roundtrip (marshal : Envelope -> option bytes) (unmarshal : bytes -> option Envelope)
    (msg : Envelope) (frame rest : bytes)
    (Hjson : forall m raw, marshal m = Some raw -> unmarshal raw = Some m)
    (Hv : e_V msg = ProtocolVersion) (Hw : WriteFrame marshal msg = Ok frame) :
  ReadFrame unmarshal (frame ++ rest) = Ok (msg, rest).
Proof.
  destruct (WriteFrame_ok _ _ _ Hv Hw) as (a & E & E0 & ->).
  unfold ReadFrame, read_full. rewrite <- app_assoc.
  assert (length (be_encode 4 (Z.of_nat (length a))) = 4%nat) as L4 by apply length_be_encode.
  rewrite !length_app, L4. destruct (Nat.ltb_spec (4 + (length a + length rest)) 4); [lia|]. cbn [obind].
  rewrite take_app_length' by done. rewrite drop_app_length' by done.
  rewrite be_decode_encode_small by (change MaxFrameBytes with 1048576 in E0; change (256 ^ Z.of_nat 4) with 4294967296; lia).
  rewrite (proj2 (Z.ltb_ge _ _)) by done. cbn [guard_err]. rewrite Nat2Z.id, length_app.
  destruct (Nat.ltb_spec (length a + length rest) (length a)); [lia|]. cbn [obind].
  rewrite take_app_length, drop_app_length, (Hjson _ _ E). cbn. by rewrite Hv.
Qed.

(** A header announcing more than 1 MiB is refused before anything else is read
    or allocated, and a frame that is read never exceeds the limit. *)
Theorem frame_bound (unmarshal : bytes -> option Envelope) (header stream : bytes) (Hh : array_ok 4 header) :
  (MaxFrameBytes < be_decode header -> ReadFrame unmarshal (header ++ stream) = Err ErrSCPPFrameTooLarge) /\
  (forall msg rest, ReadFrame unmarshal (header ++ stream) = Ok (msg, rest) ->
     length stream = (Z.to_nat (be_decode header) + length rest)%nat /\ be_decode header <= MaxFrameBytes).
Proof.
  destruct Hh as [Hl Hb]. unfold ReadFrame, read_full. rewrite length_app, Hl.
  destruct (Nat.ltb_spec (4 + length stream) 4); [lia|]. cbn [obind].
  rewrite take_app_length' by done. rewrite drop_app_length' by done. split.
  - intros Hm. by rewrite (proj2 (Z.ltb_lt _ _)).
  - intros msg rest HR. outcome_inv. zbool. destruct (Nat.ltb_spec (length stream) (Z.to_nat (be_decode header))); [discriminate|].
    cbn [obind] in HR. outcome_inv. rewrite length_drop. split; lia.
Qed.

(** ** Concrete inputs *)

Definition toy_lock (i amount : Z) : HTLC :=
  mkHTLC (be_encode 32 i) (be_encode 32 (1000 + i)) (Some amount) 5000 true.
Definition toy_locked_state : State :=
  mkState (ch_ID toy_channel) 1 (Some 50) (Some 40) [toy_lock 1 7; toy_lock 2 3] None None 0.
Definition toy_lock_transition : StateTransition :=
  mkTransition KindLockAdd (Some 7) (be_encode 32 1) (be_encode 32 1001) 5000 (zeros 32).
Definition toy_envelope : Envelope := mkEnvelope 1 "ACCEPT" "" [1; 2; 3].
#[export] Instance Envelope_eq_dec : EqDecision Envelope.
Proof. solve_decision. Defined.
Definition toy_marshal (m : Envelope) : option bytes :=
  if bool_decide (m = toy_envelope) then Some [7; 8] else None.
Definition toy_unmarshal (raw : bytes) : option Envelope :=
  if bool_decide (raw = [7; 8]) then Some toy_envelope else None.

Lemma toy_locked_encodable : encodable toy_locked_state.
Proof.
  split; try (cbn; lia); try (apply array_okb_spec; vm_compute; reflexivity).
  - apply Forall_cons; split; [|apply Forall_cons; split; [|done]];
      split; apply array_okb_spec; vm_compute; reflexivity.
  - repeat constructor.
Qed.

Lemma toy_lock_transition_encodable : transition_encodable toy_lock_transition.
Proof. split; try (apply array_okb_spec; vm_compute; reflexivity). reflexivity. Qed.

Lemma state_wire_roundtrip_witness : decodeStateWire (encodeStateWire toy_locked_state) = Ok (norm_state toy_locked_state).
Proof. exact (proj1 (@state_wire_roundtrip toy_crypto toy_locked_state (Some 1) toy_contract toy_locked_encodable)). Defined.

Lemma decoded_state_canonical_witness : StronglySorted lock_lt (st_Pending (norm_state toy_locked_state)).
Proof.
  destruct (decoded_state_canonical (encodeStateWire toy_locked_state) (norm_state toy_locked_state)
    (decode_encode_state _ toy_locked_encodable)) as (_ & _ & _ & _ & H & _). exact H.
Defined.

Lemma transition_wire_roundtrip_witness :
  exists t', decodeTransitionWire (encodeTransitionWire toy_lock_transition) = Ok t' /\
    forall ch p, @Apply toy_crypto t' ch p = @Apply toy_crypto toy_lock_transition ch p.
Proof. exact (@transition_wire_roundtrip toy_crypto _ toy_lock_transition_encodable). Defined.

Lemma toy_json (m : Envelope) (raw : bytes) : toy_marshal m = Some raw -> toy_unmarshal raw = Some m.
Proof. unfold toy_marshal. case_bool_decide; [|done]. intros [= <-]. by subst. Qed.

Lemma frame_roundtrip_witness : ReadFrame toy_unmarshal ([0; 0; 0; 2; 7; 8] ++ [9]) = Ok (toy_envelope, [9]).
Proof. exact (frame_roundtrip toy_marshal toy_unmarshal toy_envelope _ [9] toy_json eq_refl eq_refl). Defined.

Lemma frame_bound_witness : ReadFrame toy_unmarshal ([0; 16; 0; 1] ++ [7; 8]) = Err ErrSCPPFrameTooLarge.
Proof.
  exact (proj1 (frame_bound toy_unmarshal [0; 16; 0; 1] [7; 8] (proj1 (array_okb_spec 4 [0; 16; 0; 1]) eq_refl)) eq_refl).
Defined.
