(* ===== verification/ChannelCommitter.v ===== *)
(** * Payment channels: the door to persisted state (the [Committer] interface
    of [internal/channel/session.go])

    The protocol engine reaches channel records through two methods only: a
    snapshot, and an atomic commit.  The class states them, and the laws state
    what the engine's theorems rely on, crashes included: [cm_possible] is what
    a restart may find.  [ChannelStore] discharges the laws for the store. *)
From S2P Require Import Prelude.
From S2P Require Import GoBytes.
From S2P Require Import ChannelTypes.
From S2P Require Import ChannelState.
From S2P Require Import ChannelTransition.
From S2P Require Import ChannelWire.

Class Committer (S : Type) : Type := {
  cm_channel : S -> bytes -> option Channel;
  cm_commit : S -> bytes -> (Channel -> outcome chan_err Channel) -> S * outcome chan_err unit;
  (** The records a channel may come back with: the live one, and whatever is on disk. *)
  cm_possible : S -> bytes -> Channel -> Prop;
  (** The channel has a file, so a restart finds some record of it. *)
  cm_kept : S -> bytes -> Prop
}.

Definition pending_nonce (c : Channel) : option Z := (fun p => st_Nonce (pp_State p)) <$> ch_Pending c.

(** ** The signatures in a record *)

Definition norm_signed (ss : SignedState) : SignedState :=
  mkSignedState (norm_state (ss_State ss)) (ss_SigA ss) (ss_SigB ss).
Definition signed_encodable (ss : SignedState) : Prop :=
  encodable (ss_State ss) /\ bytes_ok (ss_SigA ss) /\ bytes_ok (ss_SigB ss).
Definition on_option {A : Type} (P : A -> Prop) (m : option A) : Prop :=
  match m with Some a => P a | None => True end.

(** Everything of a record that bears a signature, and what it is checked
    against; [ho_Unapplied]: no intent was ever applied. *)
Record Holding : Type := mkHolding {
  ho_ID : bytes;
  ho_PartyA : bytes;
  ho_PartyB : bytes;
  ho_Contract : bytes;
  ho_Chain : Z;
  ho_Unapplied : bool;
  ho_Latest : SignedState;
  ho_Pending : option (State * bytes);
  ho_Conflict : option (SignedState * SignedState)
}.
Definition held_pending (p : PendingProposal) : State * bytes := (norm_state (pp_State p), pp_Sig p).
Definition held_conflict (k : ConflictRecord) : SignedState * SignedState :=
  (norm_signed (cr_Mine k), norm_signed (cr_Theirs k)).
Definition held (c : Channel) : Holding :=
  mkHolding (ch_ID c) (ch_PartyA c) (ch_PartyB c) (ch_Contract c) (orZero (ch_ChainID c)) (bool_decide (ch_Applied c = ∅))
    (norm_signed (ch_Latest c)) (held_pending <$> ch_Pending c) (held_conflict <$> ch_Conflict c).

(** Its fields are of their Go types, its states what [encodeStateWire] can print. *)
Record holding_typed (h : Holding) : Prop := {
  ht_id : array_ok 32 (ho_ID h);
  ht_partyA : array_ok 20 (ho_PartyA h);
  ht_partyB : array_ok 20 (ho_PartyB h);
  ht_contract : array_ok 20 (ho_Contract h);
  ht_latest : signed_encodable (ho_Latest h);
  ht_pending : on_option (fun p => encodable p.1 /\ bytes_ok p.2) (ho_Pending h);
  ht_conflict : on_option (fun k => signed_encodable k.1 /\ signed_encodable k.2) (ho_Conflict h)
}.

(** What matters of a record for never signing twice. *)
Definition same_ledger (c c' : Channel) : Prop :=
  ch_ID c = ch_ID c' /\ ch_Signed c = ch_Signed c' /\
  st_Nonce (ss_State (ch_Latest c)) = st_Nonce (ss_State (ch_Latest c')) /\
  pending_nonce c = pending_nonce c'.

(** The signed-nonce ledger of a typed record: uint64 nonces, 32-byte digests. *)
Definition ledger_typed (m : gmap Z bytes) : Prop :=
  map_Forall (fun n d => u_range 64 n /\ array_ok 32 d) m.

(** A record filed under the id it carries, with its fields in their Go types. *)
Record record_typed (id : bytes) (c : Channel) : Prop := {
  rt_id : ch_ID c = id;
  rt_width : array_ok 32 id;
  rt_ledger : ledger_typed (ch_Signed c);
  rt_pending : forall n, pending_nonce c = Some n -> 0 <= n
}.

Class CommitterLaws (S : Type) `{Committer S} : Prop := {
  cm_live : forall s id c, cm_channel s id = Some c -> cm_possible s id c;
  (** A commit that reports success replaced exactly that record, in memory and on disk. *)
  cm_commit_done : forall s s' id f, cm_commit s id f = (s', Ok tt) ->
    exists c c' b, cm_channel s id = Some c /\ f (set_NeedsReconcile b c) = Ok c' /\
      (ch_ID c' = id -> cm_channel s' id = Some (set_NeedsReconcile (ch_NeedsReconcile c) (Clone c'))) /\
      (record_typed id c' -> forall x, cm_possible s' id x -> same_ledger x c' /\ (holding_typed (held c') -> held x = held c')) /\
      (ch_ID c' = id -> forall j, j <> id -> cm_channel s' j = cm_channel s j /\
         forall x, cm_possible s' j x -> cm_possible s j x) /\
      (ch_ID c' = id -> cm_kept s' id) /\ (forall j, cm_kept s j -> cm_kept s' j);
  (** A commit that reports anything else left memory alone; the disk may hold
      the refused record only when the mutation itself succeeded. *)
  cm_commit_failed : forall s s' id f r, cm_commit s id f = (s', r) -> r <> Ok tt ->
    (forall j, cm_channel s' j = cm_channel s j) /\ (forall j, cm_kept s j -> cm_kept s' j) /\
    (forall j x, cm_possible s' j x -> cm_possible s j x \/
       exists c c' b, cm_channel s id = Some c /\ f (set_NeedsReconcile b c) = Ok c' /\
         (record_typed id c' -> j = id /\ same_ledger x c' /\ (holding_typed (held c') -> held x = held c')))
}.
