(* ===== verification/ChannelStore.v ===== *)
(** * Payment channels: durable state ([internal/channel/store.go], the
    quarantine of [reconcile.go])

    The on-disk record and its codec, the check at load, and the store whose
    every write is a mutation of a clone that is persisted before it replaces
    the live record.  A file holds the record itself ([encoding/json] and the
    file system are outside); each write draws its fate from [s_io]. *)
From S2P Require Import Prelude.
From S2P Require Import GoBytes.
From S2P Require Import ChannelTypes.
From S2P Require Import ChannelCrypto.
From S2P Require Import ChannelState.
From S2P Require Import ChannelTransition.
From S2P Require Import ChannelHistory.
From S2P Require Import ChannelWire.
From S2P Require Import ChannelCommitter.
From Stdlib Require Import Ascii.

(** ** The on-disk form *)
Record storedPending : Type := mkStoredPending {
  sp_Intent : string;
  sp_Transition : wireTransition;
  sp_State : storedState;
  sp_Sig : string
}.
Record storedConflict : Type := mkStoredConflict {
  sc_Nonce : Z;
  sc_Mine : storedState;
  sc_MineA : string;
  sc_MineB : string;
  sc_Theirs : storedState;
  sc_TheirsA : string;
  sc_TheirsB : string
}.
Record storedPayment : Type := mkStoredPayment {
  spy_Intent : string;
  spy_Kind : string;
  spy_Route : string;
  spy_Incoming : bool;
  spy_Amount : string;
  spy_Status : string;
  spy_LockID : string;
  spy_Nonce : Z;
  spy_CreatedAt : Z;
  spy_ResolvedAt : Z;
  spy_Detail : string
}.
(** A Go map is the list of its entries in the order an iteration yields them. *)
Record storedChannel : Type := mkStoredChannel {
  sch_Version : Z;
  sch_ID : string;
  sch_PartyA : string;
  sch_PartyB : string;
  sch_DepositA : string;
  sch_DepositB : string;
  sch_Status : Z;
  sch_ChainID : string;
  sch_Contract : string;
  sch_State : storedState;
  sch_SigA : string;
  sch_SigB : string;
  sch_Signed : list (string * string);
  sch_Applied : list (string * Z);
  sch_Pending : option storedPending;
  sch_Conflict : option storedConflict;
  sch_History : list storedPayment
}.

Definition status_text (s : PayStatus) : string :=
  match s with
  | PayInitiated => "initiated" | PayInFlight => "in_flight" | PayCompleted => "completed"
  | PayRefunded => "refunded" | PayRejected => "rejected" | PayUnknown => "unknown" | PayOther s => s
  end.
Definition status_of_text (s : string) : PayStatus :=
  if String.eqb s "initiated" then PayInitiated
  else if String.eqb s "in_flight" then PayInFlight
  else if String.eqb s "completed" then PayCompleted
  else if String.eqb s "refunded" then PayRefunded
  else if String.eqb s "rejected" then PayRejected
  else if String.eqb s "unknown" then PayUnknown
  else PayOther s.
Definition route_text (r : PayRoute) : string :=
  match r with
  | RouteNone => "" | RouteDirect => "direct" | RouteRouted => "routed" | RouteOther s => s
  end.
Definition route_of_text (s : string) : PayRoute :=
  if String.eqb s "" then RouteNone
  else if String.eqb s "direct" then RouteDirect
  else if String.eqb s "routed" then RouteRouted
  else RouteOther s.

Definition encode_payment (h : PaymentRecord) : storedPayment :=
  mkStoredPayment (hex_encode (pr_Intent h)) (kind_text (pr_Kind h)) (route_text (pr_Route h))
    (pr_Incoming h) (pr_Amount h) (status_text (pr_Status h)) (hex_encode (pr_LockID h))
    (pr_Nonce h) (pr_CreatedAt h) (pr_ResolvedAt h) (pr_Detail h).
Definition encode_pending (p : PendingProposal) : storedPending :=
  mkStoredPending (hex_encode (pp_Intent p)) (encodeTransitionWire (pp_Transition p))
    (encodeStateWire (pp_State p)) (hex_encode (pp_Sig p)).
Definition encode_conflict (c : ConflictRecord) : storedConflict :=
  mkStoredConflict (cr_Nonce c)
    (encodeStateWire (ss_State (cr_Mine c))) (hex_encode (ss_SigA (cr_Mine c))) (hex_encode (ss_SigB (cr_Mine c)))
    (encodeStateWire (ss_State (cr_Theirs c))) (hex_encode (ss_SigA (cr_Theirs c)))
    (hex_encode (ss_SigB (cr_Theirs c))).
Definition encode_signed_entry (e : Z * bytes) : string * string := (dec_text e.1, hex_encode e.2).
Definition encode_applied_entry (e : bytes * Z) : string * Z := (hex_encode e.1, e.2).

Definition encodeChannel (c : Channel) : storedChannel :=
  mkStoredChannel 2 (hex_encode (ch_ID c)) (Hex (ch_PartyA c)) (Hex (ch_PartyB c))
    (decString (ch_DepositA c)) (decString (ch_DepositB c)) (ch_Status c) (decString (ch_ChainID c))
    (Hex (ch_Contract c)) (encodeStateWire (ss_State (ch_Latest c)))
    (hex_encode (ss_SigA (ch_Latest c))) (hex_encode (ss_SigB (ch_Latest c)))
    (map encode_signed_entry (map_to_list (ch_Signed c)))
    (map encode_applied_entry (map_to_list (ch_Applied c)))
    (encode_pending <$> ch_Pending c) (encode_conflict <$> ch_Conflict c)
    (map encode_payment (ch_History c)).

(** [fmt.Sscanf(k, "%d", &nonce)] into a uint64: leading spaces, then the
    longest run of digits, which must be non-empty and fit; the rest is ignored. *)
Definition is_space (c : ascii) : bool :=
  match N_of_ascii c with 9%N | 11%N | 12%N | 32%N => true | _ => false end.
Fixpoint skip_space (s : string) : string :=
  match s with
  | String.String c r => if is_space c then skip_space r else s
  | String.EmptyString => s
  end.
Fixpoint scan_digits (acc : option Z) (s : string) : option Z :=
  match s with
  | String.EmptyString => acc
  | String.String c r =>
      match dec_value c with
      | Some d => scan_digits (Some (default 0 acc * 10 + d)) r
      | None => acc
      end
  end.
Definition scan_u64 (s : string) : option Z :=
  match scan_digits None (skip_space s) with
  | Some n => if n <? 2 ^ 64 then Some n else None
  | None => None
  end.

Fixpoint decode_signed (m : gmap Z bytes) (l : list (string * string)) : outcome chan_err (gmap Z bytes) :=
  match l with
  | [] => Ok m
  | (k, v) :: l =>
      let? nonce := of_option (ErrText "bad signed-nonce key") (scan_u64 k) in
      let? digest := parseBytes32 v in
      decode_signed (<[nonce := digest]> m) l
  end.
Fixpoint decode_applied (m : gmap bytes Z) (l : list (string * Z)) : outcome chan_err (gmap bytes Z) :=
  match l with
  | [] => Ok m
  | (k, v) :: l =>
      let? intent := parseBytes32 k in
      decode_applied (<[intent := v]> m) l
  end.
Definition decode_pending (p : storedPending) : outcome chan_err PendingProposal :=
  let? intent := parseBytes32 (sp_Intent p) in
  let? tr := decodeTransitionWire (sp_Transition p) in
  let? state := decodeStateWire (sp_State p) in
  let? sig := decodeHex (sp_Sig p) in
  Ok (mkPendingProposal intent tr state sig).
Definition decode_payment (h : storedPayment) : outcome chan_err PaymentRecord :=
  let? intent := parseBytes32 (spy_Intent h) in
  let? lockID := parseBytes32 (spy_LockID h) in
  Ok (mkPaymentRecord intent (kind_of_text (spy_Kind h)) (route_of_text (spy_Route h)) (spy_Incoming h)
        (spy_Amount h) (status_of_text (spy_Status h)) lockID (spy_Nonce h) (spy_CreatedAt h)
        (spy_ResolvedAt h) (spy_Detail h)).
Fixpoint decode_history (l : list storedPayment) : outcome chan_err (list PaymentRecord) :=
  match l with
  | [] => Ok []
  | h :: l =>
      let? r := decode_payment h in
      let? rs := decode_history l in
      Ok (r :: rs)
  end.
Definition decode_conflict (c : storedConflict) : outcome chan_err ConflictRecord :=
  let? mine := decodeSignedWire (sc_Mine c) (sc_MineA c) (sc_MineB c) in
  let? theirs := decodeSignedWire (sc_Theirs c) (sc_TheirsA c) (sc_TheirsB c) in
  Ok (mkConflictRecord (sc_Nonce c) mine theirs).

(** [if p := rec.X; p != nil { ... }] *)
Definition decode_opt {A B : Type} (f : A -> outcome chan_err B) (m : option A) : outcome chan_err (option B) :=
  match m with
  | None => Ok None
  | Some a => let? b := f a in Ok (Some b)
  end.

Definition decodeChannel (rec : storedChannel) : outcome chan_err Channel :=
  fail? negb (sch_Version rec =? 2) with ErrText "unknown record version" ;;
  let? id := parseBytes32 (sch_ID rec) in
  let? partyA := ParseAddress (sch_PartyA rec) in
  let? partyB := ParseAddress (sch_PartyB rec) in
  let? contract := ParseAddress (sch_Contract rec) in
  let? depositA := parseDec (sch_DepositA rec) in
  let? depositB := parseDec (sch_DepositB rec) in
  let? chainID := parseDec (sch_ChainID rec) in
  let? sigA := decodeHex (sch_SigA rec) in
  let? sigB := decodeHex (sch_SigB rec) in
  let? latest := decodeStateWire (sch_State rec) in
  let? signed := decode_signed ∅ (sch_Signed rec) in
  let? applied := decode_applied ∅ (sch_Applied rec) in
  let? pending := decode_opt decode_pending (sch_Pending rec) in
  let? history := decode_history (sch_History rec) in
  let? conflict := decode_opt decode_conflict (sch_Conflict rec) in
  Ok (mkChannel id partyA partyB (Some depositA) (Some depositB) (sch_Status rec) (Some chainID) contract
        (mkSignedState latest sigA sigB) signed applied pending conflict history None false).

(** ** The store *)

(** What the chain said ([chain.go]). *)
Record OnChainChannel : Type := mkOnChain {
  oc_ID : bytes;
  oc_PartyA : bytes;
  oc_PartyB : bytes;
  oc_DepositA : option Z;
  oc_DepositB : option Z;
  oc_Status : Z;
  oc_Nonce : Z;
  oc_ChallengeEnds : Z;
  oc_BalanceA : option Z;
  oc_BalanceB : option Z;
  oc_LockedTotal : option Z;
  oc_fromChain : bool
}.

(** The fate of one [persist]: written; failed with the old file in place; or
    failed after the rename, with the new file in place. *)
Inductive disk_result : Type := DiskOk | DiskFailed | DiskFailedVisible.

Record Store : Type := mkStore {
  s_channels : gmap bytes Channel;
  s_unreconciled : gset bytes;
  s_disk : gmap bytes storedChannel;
  s_marker : bool;
  s_io : list disk_result
}.
Definition with_channels (m : gmap bytes Channel) (s : Store) : Store :=
  mkStore m (s_unreconciled s) (s_disk s) (s_marker s) (s_io s).

Definition persist (s : Store) (c : Channel) : Store * bool :=
  let written := <[ch_ID c := encodeChannel c]> (s_disk s) in
  let rest := tail (s_io s) in
  match head (s_io s) with
  | None | Some DiskOk => (mkStore (s_channels s) (s_unreconciled s) written (s_marker s) rest, true)
  | Some DiskFailed => (mkStore (s_channels s) (s_unreconciled s) (s_disk s) (s_marker s) rest, false)
  | Some DiskFailedVisible => (mkStore (s_channels s) (s_unreconciled s) written (s_marker s) rest, false)
  end.

Definition Get (s : Store) (id : bytes) : option Channel :=
  (fun c => set_NeedsReconcile (bool_decide (id ∈ s_unreconciled s)) (Clone c)) <$> s_channels s !! id.

Definition Update (s : Store) (id : bytes) (mutate : Channel -> outcome chan_err Channel)
    : Store * outcome chan_err unit :=
  match s_channels s !! id with
  | None => (s, Err ErrNoSuchChannel)
  | Some c =>
      match mutate (Clone c) with
      | Err e => (s, Err e)
      | Panic => (s, Panic)
      | Ok trial =>
          let (s', ok) := persist s trial in
          if ok then (with_channels (<[id := trial]> (s_channels s')) s', Ok tt)
          else (s', Err ErrPersist)
      end
  end.

Definition refresh_record (occ : OnChainChannel) (c : Channel) : outcome chan_err Channel :=
  fail? negb (bool_decide (oc_PartyA occ = ch_PartyA c) && bool_decide (oc_PartyB occ = ch_PartyB c))
    with ErrText "on-chain parties do not match the stored record" ;;
  Ok (set_Chain (Some (orZero (oc_DepositA occ))) (Some (orZero (oc_DepositB occ))) (oc_Status occ) c).
Definition RefreshFromChain (s : Store) (occ : OnChainChannel) : Store * outcome chan_err unit :=
  if negb (oc_fromChain occ) then (s, Err ErrNotFromChain)
  else Update s (oc_ID occ) (refresh_record occ).

(** [reconcile.go] *)
Definition NeedsReconcile (s : Store) (id : bytes) : bool := bool_decide (id ∈ s_unreconciled s).
Definition clearReconcile (s : Store) (id : bytes) : Store :=
  let left := s_unreconciled s ∖ {[ id ]} in
  mkStore (s_channels s) left (s_disk s) (if bool_decide (left = ∅) then false else s_marker s) (s_io s).

Section Store.
Context `{Crypto : ChannelCrypto}.

Definition verifyLoaded (c : Channel) : outcome chan_err unit :=
  if negb (Complete (ch_Latest c)) then Ok tt
  else
    let raw := Digest (ss_State (ch_Latest c)) (ch_ChainID c) (ch_Contract c) in
    match RecoverSigner raw (ss_SigA (ch_Latest c)), RecoverSigner raw (ss_SigB (ch_Latest c)) with
    | Ok a, Ok b =>
        fail? negb (bool_decide (a = ch_PartyA c) && bool_decide (b = ch_PartyB c)) with ErrStateUnreadable ;;
        Ok tt
    | _, _ => Err ErrStateUnreadable
    end.

(** The loop of [OpenStore] over the files of [channels/]; [None] is a file
    that cannot be read or is not JSON. *)
Fixpoint load_files (restored : bool) (files : list (option storedChannel)) (m : gmap bytes Channel)
    (u : gset bytes) : outcome chan_err (gmap bytes Channel * gset bytes) :=
  match files with
  | [] => Ok (m, u)
  | f :: files =>
      let? rec := of_option (ErrText "unreadable, refusing to start") f in
      let? c := decodeChannel rec in
      let? _ := verifyLoaded c in
      load_files restored files (<[ch_ID c := c]> m) (if restored then {[ ch_ID c ]} ∪ u else u)
  end.
Definition OpenStore (disk : gmap bytes storedChannel) (restored : bool) (files : list (option storedChannel))
    (io : list disk_result) : outcome chan_err Store :=
  let? (m, u) := load_files restored files ∅ ∅ in
  Ok (mkStore m u disk (restored && negb (bool_decide (u = ∅))) io).

Definition tracked (chainID : option Z) (contract : bytes) (occ : OnChainChannel) : Channel :=
  mkChannel (oc_ID occ) (oc_PartyA occ) (oc_PartyB occ)
    (Some (orZero (oc_DepositA occ))) (Some (orZero (oc_DepositB occ))) StatusOpen
    (Some (orZero chainID)) contract zero_signed ∅ ∅ None None [] None false.
Definition TrackFromChain (s : Store) (chainID : option Z) (contract : bytes) (occ : OnChainChannel)
    : Store * outcome chan_err unit :=
  if negb (oc_fromChain occ) then (s, Err ErrNotFromChain)
  else if negb (oc_Status occ =? StatusOpen) then (s, Err (ErrText "on-chain status is not open"))
  else if negb (bool_decide (DeriveChannelID (oc_PartyA occ) (oc_PartyB occ) = oc_ID occ))
       then (s, Err (ErrText "on-chain parties do not derive the channel id"))
  else match s_channels s !! oc_ID occ with
       | Some _ => (s, Err ErrChannelExists)
       | None =>
           let c := tracked chainID contract occ in
           let (s', ok) := persist s c in
           if ok then (with_channels (<[oc_ID occ := c]> (s_channels s')) s', Ok tt)
           else (s', Err ErrPersist)
       end.

(** [Store.Accept]: [Channel.Accept] on a clone, then the disk, then memory. *)
Definition StoreAccept (s : Store) (id : bytes) (candidate : SignedState) : Store * outcome chan_err unit :=
  Update s id (fun c => Accept c candidate).
End Store.

(** ** The codec: what comes back *)

Definition norm_proposal (p : PendingProposal) : PendingProposal :=
  mkPendingProposal (pp_Intent p) (norm_transition (pp_Transition p)) (norm_state (pp_State p)) (pp_Sig p).
Definition norm_conflict (c : ConflictRecord) : ConflictRecord :=
  mkConflictRecord (cr_Nonce c) (norm_signed (cr_Mine c)) (norm_signed (cr_Theirs c)).

(** A record as a restart sees it: nil amounts are zero, a missing domain is the
    ordinary one, and neither the payout record nor the quarantine stamp is kept. *)
Definition norm_channel (c : Channel) : Channel :=
  mkChannel (ch_ID c) (ch_PartyA c) (ch_PartyB c)
    (Some (orZero (ch_DepositA c))) (Some (orZero (ch_DepositB c))) (ch_Status c)
    (Some (orZero (ch_ChainID c))) (ch_Contract c) (norm_signed (ch_Latest c))
    (ch_Signed c) (ch_Applied c) (norm_proposal <$> ch_Pending c) (norm_conflict <$> ch_Conflict c)
    (ch_History c) None false.

Definition proposal_encodable (p : PendingProposal) : Prop :=
  array_ok 32 (pp_Intent p) /\ transition_encodable (pp_Transition p) /\ encodable (pp_State p) /\
  bytes_ok (pp_Sig p).
Definition conflict_encodable (c : ConflictRecord) : Prop :=
  signed_encodable (cr_Mine c) /\ signed_encodable (cr_Theirs c).
Definition payment_encodable (h : PaymentRecord) : Prop :=
  array_ok 32 (pr_Intent h) /\ array_ok 32 (pr_LockID h) /\ kind_ok (pr_Kind h) /\
  route_of_text (route_text (pr_Route h)) = pr_Route h /\
  status_of_text (status_text (pr_Status h)) = pr_Status h.

Record channel_encodable (c : Channel) : Prop := {
  ce_id : array_ok 32 (ch_ID c);
  ce_partyA : array_ok 20 (ch_PartyA c);
  ce_partyB : array_ok 20 (ch_PartyB c);
  ce_contract : array_ok 20 (ch_Contract c);
  ce_latest : signed_encodable (ch_Latest c);
  ce_signed : ledger_typed (ch_Signed c);
  ce_applied : map_Forall (fun i _ => array_ok 32 i) (ch_Applied c);
  ce_pending : on_option proposal_encodable (ch_Pending c);
  ce_conflict : on_option conflict_encodable (ch_Conflict c);
  ce_history : Forall payment_encodable (ch_History c)
}.

Lemma decodeHex_encode (b : bytes) : bytes_ok b -> decodeHex (hex_encode b) = Ok b.
Proof. intros. unfold decodeHex. by rewrite hex_decode_encode. Qed.

Lemma ParseAddress_Hex (a : bytes) : array_ok 20 a -> ParseAddress (Hex a) = Ok a.
Proof. intros [Hl Hb]. unfold ParseAddress, Hex. cbn [strip_0x]. by rewrite hex_decode_encode, Hl. Qed.

Lemma decode_signed_wire_encode (ss : SignedState) :
  signed_encodable ss ->
  decodeSignedWire (encodeStateWire (ss_State ss)) (hex_encode (ss_SigA ss)) (hex_encode (ss_SigB ss))
  = Ok (norm_signed ss).
Proof.
  intros (Hs & Ha & Hb). unfold decodeSignedWire. by rewrite decode_encode_state, !decodeHex_encode.
Qed.

Lemma decode_pending_encode (p : PendingProposal) :
  proposal_encodable p -> decode_pending (encode_pending p) = Ok (norm_proposal p).
Proof.
  intros (Hi & Ht & Hs & Hg). unfold decode_pending, encode_pending. cbn.
  by rewrite parseBytes32_encode, decode_encode_transition, decode_encode_state, decodeHex_encode.
Qed.

Lemma decode_conflict_encode (c : ConflictRecord) :
  conflict_encodable c -> decode_conflict (encode_conflict c) = Ok (norm_conflict c).
Proof.
  intros [Hm Ht]. unfold decode_conflict, encode_conflict. cbn. by rewrite !decode_signed_wire_encode.
Qed.

Lemma decode_opt_map {A B C : Type} (f : B -> outcome chan_err C) (g : A -> B) (h : A -> C) (P : A -> Prop)
    (m : option A) :
  (forall a, P a -> f (g a) = Ok (h a)) -> on_option P m -> decode_opt f (g <$> m) = Ok (h <$> m).
Proof. intros H Hm. destruct m as [a|]; [|done]. cbn. by rewrite H. Qed.

Lemma decode_history_encode (l : list PaymentRecord) :
  Forall payment_encodable l -> decode_history (map encode_payment l) = Ok l.
Proof.
  induction 1 as [|h l (Hi & Hk & Hkind & Hr & Hs) _ IH]; [done|]. cbn.
  unfold decode_payment. cbn. rewrite !parseBytes32_encode by done. cbn. rewrite IH. cbn.
  unfold kind_ok in Hkind. rewrite Hkind, Hr, Hs. by destruct h.
Qed.

Lemma scan_digits_all (s : string) (acc n : Z) : dec_scan s acc = Some n -> scan_digits (Some acc) s = Some n.
Proof.
  revert acc; induction s as [|c s IH]; intros acc; cbn; [done|].
  destruct (dec_value c); [|done]. apply IH.
Qed.

Lemma dec_digit_not_space (n : Z) : 0 <= n < 10 -> is_space (dec_digit n) = false.
Proof.
  intros Hn. each_below n.
Qed.

Lemma scan_u64_text (n : Z) : u_range 64 n -> scan_u64 (dec_text n) = Some n.
Proof.
  intros [H0 H1]. unfold dec_text, scan_u64. rewrite (proj2 (Z.ltb_ge n 0)) by done.
  destruct (dec_nat_text_scan n H0) as (d & r & E & Hd & HS). rewrite E in *. cbn [skip_space].
  rewrite dec_digit_not_space by done. cbn [scan_digits]. cbn [dec_scan] in HS.
  rewrite dec_value_digit in * by done. cbn [default] in *. rewrite (scan_digits_all _ _ _ HS).
  by rewrite (proj2 (Z.ltb_lt _ _)).
Qed.

(** Rebuilding a map from its entries gives the map. *)
Lemma insert_union_step {K V : Type} `{Countable K} (m : gmap K V) (k : K) (v : V) (l : list (K * V)) :
  k ∉ l.*1 -> list_to_map l ∪ <[k := v]> m = list_to_map ((k, v) :: l) ∪ m.
Proof.
  intros Hk. cbn. rewrite <- insert_union_l. symmetry. apply insert_union_r. by apply not_elem_of_list_to_map_1.
Qed.

Lemma decode_signed_encode (l : list (Z * bytes)) (m : gmap Z bytes) :
  NoDup l.*1 -> Forall (fun e => u_range 64 e.1 /\ array_ok 32 e.2) l ->
  decode_signed m (map encode_signed_entry l) = Ok (list_to_map l ∪ m).
Proof.
  revert m; induction l as [|[k v] l IH]; intros m Hn Hf; cbn; [by rewrite (left_id_L ∅ (∪))|].
  cbn in Hn. apply NoDup_cons in Hn as [Hk Hn]. apply Forall_cons in Hf as [[Hu Ha] Hf]. cbn in *.
  rewrite scan_u64_text by done. cbn. rewrite parseBytes32_encode by done. cbn.
  rewrite IH by done. f_equal. by apply insert_union_step.
Qed.

Lemma decode_applied_encode (l : list (bytes * Z)) (m : gmap bytes Z) :
  NoDup l.*1 -> Forall (fun e => array_ok 32 e.1) l ->
  decode_applied m (map encode_applied_entry l) = Ok (list_to_map l ∪ m).
Proof.
  revert m; induction l as [|[k v] l IH]; intros m Hn Hf; cbn; [by rewrite (left_id_L ∅ (∪))|].
  cbn in Hn. apply NoDup_cons in Hn as [Hk Hn]. apply Forall_cons in Hf as [Ha Hf]. cbn in *.
  rewrite parseBytes32_encode by done. cbn.
  rewrite IH by done. f_equal. by apply insert_union_step.
Qed.

Lemma decode_signed_map (m : gmap Z bytes) :
  ledger_typed m -> decode_signed ∅ (map encode_signed_entry (map_to_list m)) = Ok m.
Proof.
  intros Hm. rewrite decode_signed_encode.
  - by rewrite list_to_map_to_list, (right_id_L ∅ (∪)).
  - apply NoDup_fst_map_to_list.
  - apply Forall_forall. intros [k v] Hin. apply elem_of_map_to_list in Hin. by apply (Hm k v).
Qed.

Lemma decode_applied_map (m : gmap bytes Z) :
  map_Forall (fun i _ => array_ok 32 i) m ->
  decode_applied ∅ (map encode_applied_entry (map_to_list m)) = Ok m.
Proof.
  intros Hm. rewrite decode_applied_encode.
  - by rewrite list_to_map_to_list, (right_id_L ∅ (∪)).
  - apply NoDup_fst_map_to_list.
  - apply Forall_forall. intros [k v] Hin. apply elem_of_map_to_list in Hin. by apply (Hm k v).
Qed.

Lemma decode_encode_channel (c : Channel) :
  channel_encodable c -> decodeChannel (encodeChannel c) = Ok (norm_channel c).
Proof.
  intros []. destruct ce_latest0 as (Hs & Ha & Hb). unfold decodeChannel.
  cbn [encodeChannel sch_Version sch_ID sch_PartyA sch_PartyB sch_Contract sch_DepositA sch_DepositB
    sch_ChainID sch_SigA sch_SigB sch_State sch_Signed sch_Applied sch_Pending sch_History sch_Conflict sch_Status].
  rewrite parseBytes32_encode, !ParseAddress_Hex, !parseDec_decString, !decodeHex_encode,
    decode_encode_state, decode_signed_map, decode_applied_map, decode_history_encode by done.
  cbn [negb Z.eqb Pos.eqb guard_err obind].
  rewrite (decode_opt_map _ _ norm_proposal proposal_encodable) by eauto using decode_pending_encode.
  cbn [obind].
  rewrite (decode_opt_map _ _ norm_conflict conflict_encodable) by eauto using decode_conflict_encode.
  done.
Qed.

Lemma decode_encode_nonce (st st' : State) : decodeStateWire (encodeStateWire st) = Ok st' -> st_Nonce st' = st_Nonce st.
Proof. unfold decodeStateWire. intros HS. cbn [encodeStateWire sst_Nonce] in HS. repeat outcome_step. by subst. Qed.

Lemma decode_encode_pending_nonce (m m' : option PendingProposal) :
  decode_opt decode_pending (encode_pending <$> m) = Ok m' ->
  (fun p => st_Nonce (pp_State p)) <$> m' = (fun p => st_Nonce (pp_State p)) <$> m.
Proof.
  destruct m as [p|]; cbn; intros HD; repeat outcome_step; subst; [|done].
  match goal with H : decode_pending _ = Ok _ |- _ => unfold decode_pending in H; repeat outcome_step; subst end.
  cbn. f_equal. by eapply decode_encode_nonce.
Qed.

(** Whatever a record holds, its channel id, nonce and ledger survive when they are typed. *)
Lemma decode_encode_ledger (c c' : Channel) :
  array_ok 32 (ch_ID c) -> ledger_typed (ch_Signed c) -> decodeChannel (encodeChannel c) = Ok c' ->
  ch_ID c' = ch_ID c /\ ch_Signed c' = ch_Signed c /\
  st_Nonce (ss_State (ch_Latest c')) = st_Nonce (ss_State (ch_Latest c)) /\
  pending_nonce c' = pending_nonce c.
Proof.
  intros Hi Hl. unfold decodeChannel.
  cbn [encodeChannel sch_Version sch_ID sch_Signed sch_State negb Z.eqb Pos.eqb guard_err].
  rewrite parseBytes32_encode, decode_signed_map by done. cbn [obind]. intros HD.
  repeat outcome_step. subst. cbn. repeat split.
  - by eapply decode_encode_nonce.
  - by eapply decode_encode_pending_nonce.
Qed.

(** *** The signatures in a record come back *)

Lemma op_norm (s : State) : op (norm_state s) = op s.
Proof.
  unfold op at 1. cbn [norm_state st_Op]. destruct (Z.eqb_spec (op s) 0) as [E|]; [|done].
  unfold op in E. destruct (Z.eqb_spec (st_Op s) 0); [discriminate|done].
Qed.
Lemma norm_state_idem (s : State) : norm_state (norm_state s) = norm_state s.
Proof.
  unfold norm_state at 1. rewrite op_norm. cbn. unfold norm_state. f_equal. rewrite map_map. by apply map_ext.
Qed.
Lemma encodable_norm (s : State) : encodable (norm_state s) <-> encodable s.
Proof.
  assert (forall l, StronglySorted lock_lt (map norm_htlc l) -> StronglySorted lock_lt l) as HS.
  { induction l as [|h l IH]; cbn; intros H; [constructor|]. apply StronglySorted_inv in H as [H1 H2].
    constructor; [by apply IH|]. apply (proj1 (Forall_fmap _ _ _)) in H2. exact H2. }
  split; intros [h1 h2 h3 h4 h5 h6]; split; rewrite ?op_norm in *; try done; cbn in *.
  - exact (proj1 (Forall_fmap _ _ _) h2).
  - by apply HS.
  - apply (proj2 (Forall_fmap norm_htlc htlc_encodable _)). exact h2.
  - by apply norm_locks_sorted.
Qed.
Lemma signed_encodable_norm (ss : SignedState) : signed_encodable (norm_signed ss) <-> signed_encodable ss.
Proof. unfold signed_encodable, norm_signed. cbn. by rewrite encodable_norm. Qed.

Lemma held_Clone (c : Channel) : held (Clone c) = held c.
Proof.
  assert (forall s, norm_state (cloneState s) = norm_state s) as HN.
  { intros s. unfold norm_state, cloneState, clonePending. cbn. f_equal. rewrite map_map. by apply map_ext. }
  destruct c as []; unfold held; cbn. f_equal.
  - destruct ch_Pending as [p|]; [|done]. cbn. f_equal. unfold held_pending. cbn. by rewrite HN.
  - by destruct ch_Conflict.
Qed.
Lemma held_stamp (b : bool) (c : Channel) : held (set_NeedsReconcile b c) = held c.
Proof. done. Qed.

Lemma decode_applied_nonempty (l : list (string * Z)) (m m' : gmap bytes Z) :
  decode_applied m l = Ok m' -> m' = ∅ -> m = ∅ /\ l = [].
Proof.
  revert m. induction l as [|[k v] l IH]; intros m; cbn; [by intros [= ->]|]. intros H HE. repeat outcome_step.
  destruct (IH _ H HE) as [HI _]. by apply insert_non_empty in HI.
Qed.

Lemma decode_encode_held (c c' : Channel) :
  holding_typed (held c) -> ledger_typed (ch_Signed c) -> decodeChannel (encodeChannel c) = Ok c' -> held c' = held c.
Proof.
  intros [Hi HA HB HC HL HP HK] Hg. cbn in *. destruct (proj1 (signed_encodable_norm _) HL) as (HL' & HsA & HsB). unfold decodeChannel.
  cbn [encodeChannel sch_Version sch_ID sch_Signed sch_State sch_PartyA sch_PartyB sch_Contract sch_ChainID sch_DepositA sch_DepositB
    sch_SigA sch_SigB sch_Applied sch_Pending sch_Conflict negb Z.eqb Pos.eqb guard_err].
  rewrite parseBytes32_encode by done. rewrite decode_signed_map by done. rewrite !ParseAddress_Hex by done. rewrite !parseDec_decString.
  rewrite decode_encode_state by done. rewrite !decodeHex_encode by done.
  cbn [obind]. intros HD. destruct (decode_applied _ _) as [applied| |] eqn:EA; try discriminate. cbn [obind] in HD.
  destruct (decode_opt decode_pending _) as [pending| |] eqn:EP; try discriminate. cbn [obind] in HD.
  destruct (decode_history _) as [history| |]; try discriminate. cbn [obind] in HD.
  destruct (decode_opt decode_conflict _) as [conflict| |] eqn:EK; try discriminate. injection HD as <-.
  unfold held. cbn. f_equal.
  - apply bool_decide_ext. split; [|intros E; rewrite E, map_to_list_empty in EA; by injection EA as <-].
    intros E. destruct (decode_applied_nonempty _ _ _ EA E) as [_ E']. apply map_to_list_empty_iff.
    by destruct (map_to_list (ch_Applied c)).
  - unfold norm_signed. cbn. by rewrite norm_state_idem.
  - destruct (ch_Pending c) as [p|]; cbn in *; repeat outcome_step; subst; [|done]. destruct HP as [HP HG]. apply (proj1 (encodable_norm _)) in HP.
    match goal with H : decode_pending _ = Ok _ |- _ => unfold decode_pending, encode_pending in H; cbn in H;
      rewrite decode_encode_state, decodeHex_encode in H by done; repeat outcome_step; subst end.
    cbn. unfold held_pending. cbn. by rewrite norm_state_idem.
  - destruct (ch_Conflict c) as [k|]; cbn in *; [|by injection EK as <-]. destruct HK as [H1 H2]. apply (proj1 (signed_encodable_norm _)) in H1, H2.
    rewrite decode_conflict_encode in EK by done. injection EK as <-. cbn. unfold held_conflict, norm_conflict. cbn.
    unfold norm_signed. cbn. by rewrite !norm_state_idem.
Qed.

(** ** The store as the engine's door *)

Lemma cloneState_idem (s : State) : cloneState (cloneState s) = cloneState s.
Proof. unfold cloneState, clonePending. cbn. by rewrite map_map. Qed.

Lemma Clone_idem (c : Channel) : Clone (Clone c) = Clone c.
Proof.
  unfold Clone. cbn. destruct (ch_Pending c) as [p|], (ch_Conflict c) as [k|]; cbn; try done;
    unfold cloneProposal; cbn; by rewrite cloneState_idem.
Qed.

Lemma Clone_stamp (b : bool) (c : Channel) : Clone (set_NeedsReconcile b c) = set_NeedsReconcile b (Clone c).
Proof. done. Qed.

Lemma Clone_ledger (c : Channel) : same_ledger (Clone c) c.
Proof. repeat split. unfold pending_nonce. cbn. by destruct (ch_Pending c). Qed.

Definition stored_as (s : Store) (id : bytes) (x : Channel) : Prop :=
  exists rec, s_disk s !! id = Some rec /\ decodeChannel rec = Ok x.

#[export] Instance Store_Committer : Committer Store := {
  cm_channel := Get;
  cm_commit := Update;
  cm_possible s id x := Get s id = Some x \/ stored_as s id x;
  cm_kept s id := is_Some (s_disk s !! id)
}.

Lemma Get_with_channels (s : Store) (m : gmap bytes Channel) (j : bytes) :
  m !! j = s_channels s !! j -> Get (with_channels m s) j = Get s j.
Proof. unfold Get. cbn. by intros ->. Qed.

(** The four fates of a persist. *)
Lemma persist_spec (s s' : Store) (c : Channel) (ok : bool) :
  persist s c = (s', ok) ->
  s_channels s' = s_channels s /\ s_unreconciled s' = s_unreconciled s /\ s_marker s' = s_marker s /\
  (s_disk s' = <[ch_ID c := encodeChannel c]> (s_disk s) \/ (s_disk s' = s_disk s /\ ok = false)).
Proof.
  unfold persist. destruct (head (s_io s)) as [[]|]; intros [= <- <-]; cbn; auto 10.
Qed.

Lemma typed_stored_ledger (s : Store) (id : bytes) (c x : Channel) :
  s_disk s !! id = Some (encodeChannel c) -> record_typed id c -> stored_as s id x ->
  same_ledger x c /\ (holding_typed (held c) -> held x = held c).
Proof.
  intros Hd [] (rec & Hr & HD). rewrite Hd in Hr. injection Hr as <-. subst id.
  split; [by apply decode_encode_ledger|]. intros Ht. by apply decode_encode_held.
Qed.

Lemma Update_unfold (s s' : Store) (id : bytes) (f : Channel -> outcome chan_err Channel) (r : outcome chan_err unit) :
  Update s id f = (s', r) ->
  (s' = s /\ r <> Ok tt) \/
  exists live c' s1 ok, s_channels s !! id = Some live /\ f (Clone live) = Ok c' /\ persist s c' = (s1, ok) /\
    if ok then s' = with_channels (<[id := c']> (s_channels s1)) s1 /\ r = Ok tt
    else s' = s1 /\ r = Err ErrPersist.
Proof.
  unfold Update. destruct (s_channels s !! id) as [live|] eqn:El; [|intros [= <- <-]; by left].
  destruct (f (Clone live)) as [c'| |] eqn:Ef; [|intros [= <- <-]; by left..].
  destruct (persist s c') as [s1 ok] eqn:Ep. intros H. right. exists live, c', s1, ok.
  repeat split; [done..|]. destruct ok; injection H as <- <-; done.
Qed.

Lemma Get_live (s : Store) (id : bytes) (live : Channel) :
  s_channels s !! id = Some live ->
  Get s id = Some (set_NeedsReconcile (bool_decide (id ∈ s_unreconciled s)) (Clone live)) /\
  Clone live = set_NeedsReconcile (ch_NeedsReconcile live)
    (set_NeedsReconcile (bool_decide (id ∈ s_unreconciled s)) (Clone live)).
Proof. intros H. unfold Get. rewrite H. split; [done|]. by destruct live. Qed.

Lemma persist_other (s s' : Store) (c : Channel) (ok : bool) (j : bytes) (x : Channel) :
  persist s c = (s', ok) -> ch_ID c <> j -> stored_as s' j x -> stored_as s j x.
Proof.
  intros (_ & _ & _ & [E|[E _]])%persist_spec Hj (rec & Hr & HD); exists rec; split; try done.
  - by rewrite E, lookup_insert_ne in Hr.
  - by rewrite E in Hr.
Qed.

Lemma persist_kept (s s' : Store) (c : Channel) (ok : bool) (j : bytes) :
  persist s c = (s', ok) -> is_Some (s_disk s !! j) -> is_Some (s_disk s' !! j).
Proof.
  intros (_ & _ & _ & [E|[E _]])%persist_spec Hj; rewrite E; [|done]. by apply lookup_insert_is_Some'; right.
Qed.

#[export] Instance Store_CommitterLaws : CommitterLaws Store.
Proof.
  split.
  - intros s id c H. by left.
  - intros s s' id f HU. apply Update_unfold in HU as [[_ ?]|(live & c' & s1 & ok & Hl & Hf & Hp & HR)]; [done|].
    destruct ok; destruct HR as [-> HR]; [|discriminate]. destruct (Get_live s id live Hl) as [HG HC].
    pose proof (persist_spec _ _ _ _ Hp) as (E1 & E2 & _ & [E3|[_ ?]]); [|done].
    exists (set_NeedsReconcile (bool_decide (id ∈ s_unreconciled s)) (Clone live)), c', (ch_NeedsReconcile live).
    split; [done|]. split; [by rewrite <- HC|].
    assert (Get (with_channels (<[id := c']> (s_channels s1)) s1) id =
      Some (set_NeedsReconcile (bool_decide (id ∈ s_unreconciled s)) (Clone c'))) as HG'
      by (unfold Get; cbn; by rewrite lookup_insert_eq, E2).
    split; [done|]. split.
    + intros Ht x [HX|HX]; cbn in HX.
      * change (Get (with_channels (<[id := c']> (s_channels s1)) s1) id = Some x) in HX.
        rewrite HG' in HX. injection HX as <-. split; [exact (Clone_ledger c')|]. intros _. exact (held_Clone c').
      * eapply (typed_stored_ledger _ id); [|done|exact HX]. cbn.
        rewrite E3. destruct Ht. subst id. apply lookup_insert_eq.
    + split; [|split; [|by intros j; apply (persist_kept _ _ _ _ j Hp)]].
      2: { intros Hi. cbn. rewrite E3. subst id. by rewrite lookup_insert_eq. }
      intros Hi j Hj.
      assert (Get (with_channels (<[id := c']> (s_channels s1)) s1) j = Get s j) as HGj
        by (unfold Get; cbn; by rewrite lookup_insert_ne, E1, E2).
      split; [done|]. intros x [HX|HX]; [left; by rewrite <- HGj|right].
      eapply persist_other; [exact Hp| |exact HX]. congruence.
  - intros s s' id f r HU Hr. apply Update_unfold in HU as [[-> _]|(live & c' & s1 & ok & Hl & Hf & Hp & HR)];
      [by split; auto|].
    destruct ok; destruct HR as [-> HR]; [done|]. destruct (Get_live s id live Hl) as [HG HC].
    pose proof (persist_spec _ _ _ _ Hp) as (E1 & E2 & _ & E3).
    assert (forall j, Get s1 j = Get s j) as HGj by (intros; unfold Get; by rewrite E1, E2).
    split; [done|]. split; [by intros j; apply (persist_kept _ _ _ _ j Hp)|].
    intros j x [HX|HX]; [left; left; by rewrite <- HGj|].
    destruct (decide (ch_ID c' = j)) as [Hj|Hj]; [|left; right; by eapply persist_other].
    destruct E3 as [E3|[E3 _]]; [|left; right; unfold stored_as in *; by rewrite E3 in HX].
    right. exists (set_NeedsReconcile (bool_decide (id ∈ s_unreconciled s)) (Clone live)), c', (ch_NeedsReconcile live).
    split; [done|]. split; [by rewrite <- HC|]. intros Ht. pose proof (rt_id _ _ Ht).
    split; [congruence|]. eapply (typed_stored_ledger s1 id); [|done|by replace id with j by congruence].
    rewrite E3. replace id with (ch_ID c') by congruence. apply lookup_insert_eq.
Qed.

(** ** Runs of the store *)

Section Runs.
Context `{Crypto : ChannelCrypto}.

Inductive store_op : Type :=
| OpUpdate (id : bytes) (f : Channel -> outcome chan_err Channel)
| OpAccept (id : bytes) (ss : SignedState)
| OpTrack (chainID : option Z) (contract : bytes) (occ : OnChainChannel)
| OpRefresh (occ : OnChainChannel)
| OpRelease (id : bytes).

Definition store_step (s : Store) (o : store_op) : Store :=
  match o with
  | OpUpdate id f => (Update s id f).1
  | OpAccept id ss => (StoreAccept s id ss).1
  | OpTrack chainID contract occ => (TrackFromChain s chainID contract occ).1
  | OpRefresh occ => (RefreshFromChain s occ).1
  | OpRelease id => clearReconcile s id
  end.
Definition store_run (s : Store) (ops : list store_op) : Store := foldl store_step s ops.

(** A mutation never moves a record to another id. *)
Definition keeps_id (f : Channel -> outcome chan_err Channel) : Prop :=
  forall c c', f c = Ok c' -> ch_ID c' = ch_ID c.
Definition op_keeps_id (o : store_op) : Prop :=
  match o with OpUpdate _ f => keeps_id f | _ => True end.

(** Memory and disk agree: every live record is the one on disk, and nothing else is there. *)
Record on_disk (s : Store) : Prop := {
  od_disk : s_disk s = encodeChannel <$> s_channels s;
  od_ids : map_Forall (fun id c => ch_ID c = id) (s_channels s);
  od_io : Forall (fun r => r <> DiskFailedVisible) (s_io s)
}.

Lemma persist_on_disk (s s' : Store) (id : bytes) (c : Channel) (ok : bool) :
  on_disk s -> ch_ID c = id -> persist s c = (s', ok) ->
  if ok then on_disk (with_channels (<[id := c]> (s_channels s')) s') else on_disk s'.
Proof.
  intros [] Hi Hp. assert (Forall (fun r => r <> DiskFailedVisible) (tail (s_io s))) as Hio
    by (destruct (s_io s); [done|by apply Forall_cons in od_io0 as [_ ?]]).
  unfold persist in Hp. destruct (s_io s) as [|[] io] eqn:Eio; cbn in Hp; injection Hp as <- <-; split; cbn;
    try done; subst id; try (by rewrite fmap_insert, <- od_disk0); try (by apply map_Forall_insert_2).
  exfalso. by apply Forall_cons in od_io0 as [? _].
Qed.

Lemma Update_on_disk (s s' : Store) (id : bytes) (f : Channel -> outcome chan_err Channel) r :
  on_disk s -> keeps_id f -> Update s id f = (s', r) -> on_disk s'.
Proof.
  intros Hs Hf [[-> _]|(live & c' & s1 & ok & Hl & Hc & Hp & HR)]%Update_unfold; [done|].
  assert (ch_ID c' = id) as Hi.
  { rewrite (Hf _ _ Hc). change (ch_ID (Clone live)) with (ch_ID live). by apply (od_ids _ Hs). }
  pose proof (persist_on_disk _ _ _ _ _ Hs Hi Hp). destruct ok; by destruct HR as [-> _].
Qed.

Lemma store_step_on_disk (s : Store) (o : store_op) :
  on_disk s -> op_keeps_id o -> on_disk (store_step s o).
Proof.
  intros Hs Ho. destruct o as [id f|id ss|chainID contract occ|occ|id]; cbn.
  - destruct (Update s id f) eqn:E. by eapply Update_on_disk.
  - unfold StoreAccept. destruct (Update s id _) eqn:E. eapply Update_on_disk; [done| |exact E].
    intros c c' [_ ->]%Accept_iff. done.
  - unfold TrackFromChain. destruct (negb (oc_fromChain occ)); [done|].
    destruct (negb (oc_Status occ =? StatusOpen)); [done|]. destruct (negb (bool_decide _)); [done|].
    destruct (s_channels s !! oc_ID occ); [done|]. destruct (persist s _) as [s1 ok] eqn:Hp.
    pose proof (persist_on_disk s s1 (oc_ID occ) (tracked chainID contract occ) ok Hs eq_refl Hp). by destruct ok.
  - unfold RefreshFromChain. destruct (negb _); [done|]. destruct (Update s _ _) eqn:E.
    eapply Update_on_disk; [done| |exact E]. intros c c'. unfold refresh_record. intros H. by repeat outcome_step; subst.
  - destruct Hs. by split.
Qed.

Lemma verifyLoaded_norm (c : Channel) :
  encodable (ss_State (ch_Latest c)) -> verifyLoaded (norm_channel c) = verifyLoaded c.
Proof.
  intros He. unfold verifyLoaded. cbn [norm_channel ch_Latest norm_signed ss_SigA ss_SigB ss_State ch_ChainID ch_Contract ch_PartyA ch_PartyB].
  change (Complete (norm_signed (ch_Latest c))) with (Complete (ch_Latest c)).
  rewrite Digest_norm by done.
  assert (Digest (ss_State (ch_Latest c)) (Some (orZero (ch_ChainID c))) (ch_Contract c) =
    Digest (ss_State (ch_Latest c)) (ch_ChainID c) (ch_Contract c)) as -> by (unfold Digest, StateDigest; by rewrite (u256_word (ch_ChainID c))).
  done.
Qed.

(** What a node keeps of a record it can restart from. *)
Definition storable (id : bytes) (c : Channel) : Prop :=
  ch_ID c = id /\ channel_encodable c /\ verifyLoaded c = Ok tt.

Lemma load_files_encoded (restored : bool) (l : list (bytes * Channel)) (m : gmap bytes Channel) (u : gset bytes) :
  NoDup l.*1 -> Forall (fun e => storable e.1 e.2) l ->
  load_files restored (map (fun e => Some (encodeChannel e.2)) l) m u =
  Ok (list_to_map (prod_map id norm_channel <$> l) ∪ m, (if restored then list_to_set l.*1 else ∅) ∪ u).
Proof.
  revert m u; induction l as [|[k c] l IH]; intros m u Hn Hf; cbn [map load_files].
  - cbn. rewrite (left_id_L ∅ (∪)). destruct restored; cbn; by rewrite (left_id_L ∅ (∪)).
  - cbn in Hn. apply NoDup_cons in Hn as [Hk Hn]. apply Forall_cons in Hf as [(Hi & He & Hv) Hf]. cbn in Hi, He, Hv.
    cbn [of_option obind snd]. rewrite decode_encode_channel by done. cbn [obind].
    rewrite verifyLoaded_norm by apply He. rewrite Hv. cbn [obind]. change (ch_ID (norm_channel c)) with (ch_ID c).
    rewrite IH, Hi by done. f_equal. f_equal.
    + rewrite insert_union_step; [done|]. by rewrite <- list_fmap_compose.
    + destruct restored; [|done]. cbn. by rewrite (assoc_L (∪)), (comm_L (∪) (list_to_set _) {[k]}).
Qed.
End Runs.

(** ** Theorems *)

(** The record on disk loses nothing a digest covers: a typed record decodes to
    itself up to nil amounts and unset domains, and the check at load gives the
    same verdict on what was read back as on what was written. *)
Theorem channel_record_roundtrip `{ChannelCrypto} (c : Channel) (He : channel_encodable c) :
  decodeChannel (encodeChannel c) = Ok (norm_channel c) /\ verifyLoaded (norm_channel c) = verifyLoaded c.
Proof. split; [by apply decode_encode_channel|]. apply verifyLoaded_norm. by destruct (ce_latest c He). Qed.

(** C36. Memory is never ahead of the disk: along any run of updates by functions that keep the id
    of the channel, acceptances, trackings, refreshes and releases, whichever writes fail (short of
    failing after the rename), from a store in step with its disk, the disk holds exactly the live
    records. *)
Theorem store_never_ahead_of_disk `{ChannelCrypto} (s : Store) (ops : list store_op)
    (Hs : on_disk s) (Hops : Forall op_keeps_id ops) :
  s_disk (store_run s ops) = encodeChannel <$> s_channels (store_run s ops).
Proof.
  enough (on_disk (store_run s ops)) as [] by done. revert s Hs.
  induction Hops as [|o ops Ho _ IH]; intros s Hs; [done|]. apply IH. by apply store_step_on_disk.
Qed.

(** A restart gives the same channels: reopening what is on disk succeeds, with
    every live record back, and all of them quarantined exactly when the store was
    restored from a backup. *)
Theorem reopen_restores_channels `{ChannelCrypto} (s : Store) (restored : bool)
    (Hs : on_disk s) (Hst : map_Forall storable (s_channels s)) :
  exists s', OpenStore (s_disk s) restored (map (fun e => Some e.2) (map_to_list (s_disk s))) [] = Ok s' /\
    s_channels s' = norm_channel <$> s_channels s /\
    forall id, NeedsReconcile s' id = restored && bool_decide (is_Some (s_channels s !! id)).
Proof.
  unfold OpenStore. rewrite (od_disk _ Hs). rewrite map_to_list_fmap.
  assert (map (fun e : bytes * storedChannel => Some e.2) (prod_map id encodeChannel <$> map_to_list (s_channels s))
    = map (fun e => Some (encodeChannel e.2)) (map_to_list (s_channels s))) as ->
    by (generalize (map_to_list (s_channels s)); intros l; induction l as [|e l IH]; [done|cbn; by f_equal]).
  rewrite load_files_encoded.
  - cbn [obind]. eexists. split; [done|]. cbn. rewrite !(right_id_L ∅ (∪)), list_to_map_fmap, list_to_map_to_list.
    split; [done|]. intros id. unfold NeedsReconcile. cbn. destruct restored; cbn.
    + apply bool_decide_ext. rewrite elem_of_list_to_set. split.
      * intros ([k c] & -> & Hin)%list_elem_of_fmap. apply elem_of_map_to_list in Hin. by exists c.
      * intros [c Hc]. apply list_elem_of_fmap. exists (id, c). split; [done|]. by apply elem_of_map_to_list.
    + by apply bool_decide_eq_false, not_elem_of_empty.
  - apply NoDup_fst_map_to_list.
  - apply Forall_forall. intros [k c] Hin. apply elem_of_map_to_list in Hin. by apply Hst.
Qed.

(** An update is atomic: it either replaces that one record by the mutation of
    its clone, in memory, or changes no live record at all. *)
Theorem Update_atomic (s s' : Store) (id : bytes) (f : Channel -> outcome chan_err Channel)
    (r : outcome chan_err unit) (HU : Update s id f = (s', r)) :
  (r = Ok tt /\ exists c c', s_channels s !! id = Some c /\ f (Clone c) = Ok c' /\
     s_channels s' = <[id := c']> (s_channels s)) \/
  (r <> Ok tt /\ s_channels s' = s_channels s /\ s_unreconciled s' = s_unreconciled s).
Proof.
  apply Update_unfold in HU as [[-> ?]|(c & c' & s1 & ok & Hl & Hf & Hp & HR)]; [by right|].
  destruct (persist_spec _ _ _ _ Hp) as (E1 & E2 & _).
  destruct ok; destruct HR as [-> ->]; [left|right]; cbn; rewrite ?E1, ?E2; eauto 10.
Qed.

(** Collateral comes from the chain alone: a tracked record has the id its
    parties derive, is open, holds the deposits the chain reported and no signed
    state, and never replaces a record already held. *)
Theorem TrackFromChain_trusts_only_chain `{ChannelCrypto} (s s' : Store) (chainID : option Z)
    (contract : bytes) (occ : OnChainChannel) (HT : TrackFromChain s chainID contract occ = (s', Ok tt)) :
  oc_fromChain occ = true /\ oc_Status occ = StatusOpen /\
  oc_ID occ = DeriveChannelID (oc_PartyA occ) (oc_PartyB occ) /\
  s_channels s !! oc_ID occ = None /\
  s_channels s' = <[oc_ID occ := tracked chainID contract occ]> (s_channels s).
Proof.
  unfold TrackFromChain in HT. destruct (oc_fromChain occ); [|discriminate]. cbn [negb] in HT.
  destruct (Z.eqb_spec (oc_Status occ) StatusOpen); [|discriminate]. cbn [negb] in HT.
  case_bool_decide as HD; [|discriminate]. cbn [negb] in HT.
  destruct (s_channels s !! oc_ID occ) eqn:El; [discriminate|].
  destruct (persist s _) as [s1 ok] eqn:Hp. destruct (persist_spec _ _ _ _ Hp) as (E1 & E2 & _).
  destruct ok; [|discriminate]. injection HT as <-. cbn. rewrite E1. repeat split; done.
Qed.

(** A write that fails after the rename is reported as a failed payment, and
    memory keeps the old state; but the refused state is what a restart finds. *)
Theorem failed_sync_survives_restart `{ChannelCrypto} (s : Store) (id : bytes) (c c' : Channel) (ss : SignedState)
    (io : list disk_result) (Hio : s_io s = DiskFailedVisible :: io) (Hc : s_channels s !! id = Some c)
    (Ha : Accept (Clone c) ss = Ok c') (He : channel_encodable c') :
  let (s', r) := StoreAccept s id ss in
  r = Err ErrPersist /\ s_channels s' = s_channels s /\
  exists rec, s_disk s' !! ch_ID c = Some rec /\ decodeChannel rec = Ok (norm_channel c') /\
    ch_Latest (norm_channel c') = norm_signed ss.
Proof.
  unfold StoreAccept, Update. rewrite Hc, Ha. unfold persist. rewrite Hio. cbn. repeat split.
  exists (encodeChannel c'). apply Accept_iff in Ha as [_ ->].
  change (ch_ID (adopted (Clone c) ss)) with (ch_ID c). rewrite lookup_insert_eq. split; [done|].
  split; [by apply decode_encode_channel|done].
Qed.

(** A chain read moves the deposits and the status of the record it names and
    nothing else: the newest signed state, the ledger of signed nonces and every
    other channel are as they were. *)
Theorem RefreshFromChain_keeps_signed_state (s s' : Store) (occ : OnChainChannel)
    (HR : RefreshFromChain s occ = (s', Ok tt)) :
  exists c c', s_channels s !! oc_ID occ = Some c /\ s_channels s' = <[oc_ID occ := c']> (s_channels s) /\
    ch_Latest c' = ch_Latest c /\ ch_Signed c' = ch_Signed c /\ ch_Applied c' = ch_Applied c /\
    orZero (ch_DepositA c') = orZero (oc_DepositA occ) /\ orZero (ch_DepositB c') = orZero (oc_DepositB occ) /\
    ch_Status c' = oc_Status occ.
Proof.
  unfold RefreshFromChain in HR. destruct (oc_fromChain occ); [|discriminate]. cbn [negb] in HR.
  apply Update_unfold in HR as [[_ ?]|(c & c' & s1 & ok & Hl & Hf & Hp & HR)]; [done|].
  destruct ok; destruct HR as [-> ?]; [|discriminate]. destruct (persist_spec _ _ _ _ Hp) as (E1 & _).
  unfold refresh_record in Hf. repeat outcome_step. subst. exists c. eexists. split; [done|]. cbn. rewrite E1.
  repeat split; try done. cbn. unfold cloneSigned. by destruct (ch_Latest c).
Qed.

(** ** Concrete inputs *)

Definition toy_store (io : list disk_result) : Store :=
  mkStore {[ ch_ID toy_channel := toy_channel ]} ∅ {[ ch_ID toy_channel := encodeChannel toy_channel ]} false io.

Lemma toy_arrays : array_ok 32 (ch_ID toy_channel) /\ array_ok 20 (ch_PartyA toy_channel) /\
  array_ok 20 (ch_PartyB toy_channel) /\ array_ok 20 (ch_Contract toy_channel).
Proof. repeat split_and; apply array_okb_spec; vm_compute; reflexivity. Qed.

Lemma zero_signed_encodable : signed_encodable zero_signed.
Proof. split; [|by split; constructor]. split; try done; [apply zeros_ok|constructor]. Qed.

Lemma fresh_encodable `{ChannelCrypto} (chainID : option Z) (contract x y : bytes) (dA dB : option Z) (st : Z) :
  let c := set_Chain dA dB st (NewChannel chainID contract x y) in
  array_ok 32 (ch_ID c) -> array_ok 20 (ch_PartyA c) -> array_ok 20 (ch_PartyB c) ->
  array_ok 20 (ch_Contract c) -> channel_encodable c.
Proof.
  unfold NewChannel. destruct (SortParties x y) as [a b]. cbn. intros H1 H2 H3 H4.
  split; cbn; try done. exact zero_signed_encodable.
Qed.

Lemma toy_channel_encodable : channel_encodable toy_channel.
Proof.
  destruct toy_arrays as (H1 & H2 & H3 & H4).
  exact (fresh_encodable (Some 1) toy_contract toy_A toy_B (Some 60) (Some 40) StatusOpen H1 H2 H3 H4).
Qed.

Lemma cloneState_encodable (s : State) : encodable s -> encodable (cloneState s).
Proof.
  intros [? Hl Hs ? ? ?]. split; cbn; try done.
  - clear Hs. induction Hl; cbn; by constructor.
  - clear Hl. induction Hs as [|h l Hs IH Hh]; cbn; constructor; [done|]. by apply Forall_fmap.
Qed.

Lemma adopted_encodable (c : Channel) (ss : SignedState) :
  channel_encodable c -> signed_encodable ss -> channel_encodable (adopted (Clone c) ss).
Proof.
  intros [] Hs. destruct c as [id pa pb da db st ci co la si ap pe cf hi po nr]; cbn in *.
  split; cbn; try done.
  - intros n d Hn. apply map_lookup_filter_Some in Hn as [Hn _]. by apply (ce_signed0 n d).
  - destruct pe as [p|]; [|done]. destruct ce_pending0 as (? & ? & He & ?).
    split; [done|]. split; [done|]. split; [by apply cloneState_encodable|done].
  - destruct cf as [k|]; [|done]. by destruct ce_conflict0.
Qed.

Lemma toy_storable : storable (Crypto := toy_crypto) (ch_ID toy_channel) toy_channel.
Proof. split; [reflexivity|]. split; [exact toy_channel_encodable|reflexivity]. Qed.

Lemma toy_on_disk (io : list disk_result) : Forall (fun r => r <> DiskFailedVisible) io -> on_disk (toy_store io).
Proof.
  intros. split; cbn; [by rewrite map_fmap_singleton| |done]. by apply map_Forall_singleton.
Qed.

Lemma channel_record_roundtrip_witness :
  decodeChannel (encodeChannel toy_channel) = Ok (norm_channel toy_channel).
Proof. exact (proj1 (@channel_record_roundtrip toy_crypto toy_channel (proj1 (proj2 toy_storable)))). Defined.

Lemma toy_refusing : op_keeps_id (OpUpdate (ch_ID toy_channel) (fun _ => Err ErrNegative)).
Proof. by intros c c'. Qed.

Lemma store_never_ahead_of_disk_witness :
  let s := @store_run toy_crypto (toy_store [DiskFailed]) [OpAccept (ch_ID toy_channel) toy_pay1; OpRelease []] in
  s_disk s = encodeChannel <$> s_channels s.
Proof.
  apply (@store_never_ahead_of_disk toy_crypto).
  - apply toy_on_disk. by constructor.
  - by repeat constructor.
Defined.

Lemma reopen_restores_channels_witness :
  exists s', @OpenStore toy_crypto (s_disk (toy_store [])) true
    (map (fun e => Some e.2) (map_to_list (s_disk (toy_store [])))) [] = Ok s' /\
    s_channels s' = norm_channel <$> s_channels (toy_store []).
Proof.
  destruct (@reopen_restores_channels toy_crypto (toy_store []) true (toy_on_disk [] (Forall_nil_2 _))
    (proj2 (map_Forall_singleton _ _ _) toy_storable)) as (s' & H1 & H2 & _).
  exists s'. split; [exact H1|exact H2].
Defined.

Lemma Update_atomic_witness :
  s_channels (Update (toy_store [DiskFailed]) (ch_ID toy_channel) (fun c => Ok c)).1 = s_channels (toy_store []).
Proof.
  assert (Update (toy_store [DiskFailed]) (ch_ID toy_channel) (fun c => Ok c) = (toy_store [], Err ErrPersist)) as HU
    by (unfold Update, toy_store; cbn [s_channels]; by rewrite lookup_singleton_eq).
  destruct (Update_atomic _ _ _ _ _ HU) as [[? _]|(_ & H & _)]; [discriminate|]. rewrite HU. reflexivity.
Defined.

Definition toy_occ : OnChainChannel :=
  mkOnChain (ch_ID toy_channel) toy_A toy_B (Some 60) (Some 40) StatusOpen 0 0 (Some 0) (Some 0) (Some 0) true.
Definition empty_store : Store := mkStore ∅ ∅ ∅ false [].

Lemma toy_occ_derives : @DeriveChannelID toy_crypto (oc_PartyA toy_occ) (oc_PartyB toy_occ) = oc_ID toy_occ.
Proof. vm_compute. reflexivity. Qed.

Lemma toy_track : @TrackFromChain toy_crypto empty_store (Some 1) toy_contract toy_occ =
  (mkStore {[ oc_ID toy_occ := tracked (Some 1) toy_contract toy_occ ]} ∅
    {[ oc_ID toy_occ := encodeChannel (tracked (Some 1) toy_contract toy_occ) ]} false [], Ok tt).
Proof.
  unfold TrackFromChain. change (negb (oc_fromChain toy_occ)) with false.
  change (negb (oc_Status toy_occ =? StatusOpen)) with false. cbv iota.
  rewrite (bool_decide_eq_true_2 _ toy_occ_derives). cbn [negb]. unfold empty_store. cbn [s_channels].
  rewrite lookup_empty. reflexivity.
Qed.

Lemma TrackFromChain_trusts_only_chain_witness : oc_ID toy_occ = @DeriveChannelID toy_crypto toy_A toy_B.
Proof.
  destruct (@TrackFromChain_trusts_only_chain toy_crypto _ _ _ _ _ toy_track) as (_ & _ & H & _). exact H.
Defined.

Lemma toy_pay1_encodable : signed_encodable toy_pay1.
Proof.
  destruct toy_arrays as (? & _). split.
  { split; [assumption|exact (Forall_nil_2 _)|exact (SSorted_nil _)|discriminate|discriminate|reflexivity]. }
  split.
  - assert (array_ok 65 (ss_SigA toy_pay1)) as [_ HB] by (apply array_okb_spec; vm_compute; reflexivity). exact HB.
  - assert (array_ok 65 (ss_SigB toy_pay1)) as [_ HB] by (apply array_okb_spec; vm_compute; reflexivity). exact HB.
Qed.

Lemma failed_sync_survives_restart_witness :
  let (s', r) := @StoreAccept toy_crypto (toy_store [DiskFailedVisible]) (ch_ID toy_channel) toy_pay1 in
  r = Err ErrPersist /\ s_channels s' = s_channels (toy_store [DiskFailedVisible]).
Proof.
  pose proof (@failed_sync_survives_restart toy_crypto (toy_store [DiskFailedVisible]) (ch_ID toy_channel)
    toy_channel (adopted (Clone toy_channel) toy_pay1) toy_pay1 [] eq_refl (lookup_singleton_eq _ _)
    (Accept_adopted (Crypto := toy_crypto) (Clone toy_channel) toy_pay1 ltac:(vm_compute; reflexivity))) as W.
  destruct (StoreAccept _ _ _) as [s' r]. destruct W as (W1 & W2 & _); [|split; [exact W1|exact W2]].
  exact (adopted_encodable toy_channel toy_pay1 toy_channel_encodable toy_pay1_encodable).
Defined.

Lemma toy_refresh : exists c', refresh_record toy_occ (Clone toy_channel) = Ok c'.
Proof.
  assert (is_ok (refresh_record toy_occ (Clone toy_channel)) = true) as E by (vm_compute; reflexivity).
  destruct (refresh_record toy_occ (Clone toy_channel)) as [c'| |]; [by exists c'|discriminate E|discriminate E].
Qed.

Lemma RefreshFromChain_keeps_signed_state_witness :
  exists c c', s_channels (toy_store []) !! oc_ID toy_occ = Some c /\
    s_channels (RefreshFromChain (toy_store []) toy_occ).1 = <[oc_ID toy_occ := c']> (s_channels (toy_store [])) /\
    ch_Latest c' = ch_Latest c.
Proof.
  assert (exists s', RefreshFromChain (toy_store []) toy_occ = (s', Ok tt)) as [s' HR].
  { unfold RefreshFromChain. change (negb (oc_fromChain toy_occ)) with false. cbv iota.
    unfold Update, toy_store. cbn [s_channels]. change (oc_ID toy_occ) with (ch_ID toy_channel).
    rewrite lookup_singleton_eq. destruct toy_refresh as [c' ->]. eexists. reflexivity. }
  destruct (RefreshFromChain_keeps_signed_state _ _ _ HR) as (c & c' & H1 & H2 & H3 & _).
  exists c, c'. rewrite HR. split; [exact H1|]. split; [exact H2|exact H3].
Defined.
