(* ===== verification/ChannelPreimages.v ===== *)
(** * Payment channels: the preimage vault ([internal/channel/preimages.go])

    Durable memory of the secrets this node has learned, keyed by hash.  A
    write either lands whole or leaves the previous file. *)
From S2P Require Import Prelude.
From S2P Require Import GoBytes.
From S2P Require Import ChannelTypes.
From S2P Require Import ChannelCrypto.
From S2P Require Import ChannelState.
From S2P Require Import ChannelWire.

(** The file is the JSON object written last; [pv_io] says which writes succeed. *)
Record PreimageVault : Type := mkVault {
  pv_known : gmap bytes bytes;
  pv_file : list (string * string);
  pv_io : list bool
}.

Section Vault.
Context `{Crypto : ChannelCrypto}.

Fixpoint load_preimages (stored : list (string * string)) (known : gmap bytes bytes)
    : outcome chan_err (gmap bytes bytes) :=
  match stored with
  | [] => Ok known
  | (hashHex, preimageHex) :: stored =>
      let? hash := parseBytes32 hashHex in
      let? preimage := parseBytes32 preimageHex in
      fail? negb (h_Matches (mkHTLC (zeros 32) hash None 0 false) preimage)
        with ErrText "preimage vault entry does not match its hash" ;;
      load_preimages stored (<[hash := preimage]> known)
  end.
Definition OpenPreimageVault (file : list (string * string)) (io : list bool) : outcome chan_err PreimageVault :=
  let? known := load_preimages file ∅ in
  Ok (mkVault known file io).

Definition persist_vault (known : gmap bytes bytes) (v : PreimageVault) : PreimageVault * bool :=
  let file := map (fun e => (hex_encode e.1, hex_encode e.2)) (map_to_list known) in
  match head (pv_io v) with
  | None | Some true => (mkVault (pv_known v) file (tail (pv_io v)), true)
  | Some false => (mkVault (pv_known v) (pv_file v) (tail (pv_io v)), false)
  end.

(** [copy(hash[:], keccak(preimage[:]))] *)
Definition Learn (preimage : bytes) (v : PreimageVault) : PreimageVault * outcome chan_err unit :=
  let hash := keccak [preimage] in
  if bool_decide (pv_known v !! hash = Some preimage) then (v, Ok tt)
  else
    let next := <[hash := preimage]> (pv_known v) in
    let (v', ok) := persist_vault next v in
    if ok then (mkVault next (pv_file v') (pv_io v'), Ok tt) else (v', Err ErrPersist).

Definition Lookup (v : PreimageVault) (hash : bytes) : option bytes := pv_known v !! hash.

(** Every entry is a 32-byte secret filed under its hash, and the file holds exactly the entries. *)
Record vault_ok (v : PreimageVault) : Prop := {
  vo_entries : map_Forall (fun h p => array_ok 32 p /\ array_ok 32 h /\ keccak [p] = h) (pv_known v);
  vo_file : load_preimages (pv_file v) ∅ = Ok (pv_known v)
}.

Lemma load_preimages_encode (l : list (bytes * bytes)) (m : gmap bytes bytes) :
  NoDup l.*1 -> Forall (fun e => array_ok 32 e.2 /\ array_ok 32 e.1 /\ keccak [e.2] = e.1) l ->
  load_preimages (map (fun e => (hex_encode e.1, hex_encode e.2)) l) m = Ok (list_to_map l ∪ m).
Proof.
  revert m; induction l as [|[h p] l IH]; intros m Hn Hf; cbn; [by rewrite (left_id_L ∅ (∪))|].
  cbn in Hn. apply NoDup_cons in Hn as [Hk Hn]. apply Forall_cons in Hf as [(Hp & Hh & E) Hf]. cbn in *.
  rewrite !parseBytes32_encode by done. cbn. unfold h_Matches. cbn.
  rewrite bool_decide_eq_true_2 by done. cbn. rewrite IH by done. f_equal.
  rewrite <- insert_union_l. symmetry. apply insert_union_r. by apply not_elem_of_list_to_map_1.
Qed.

Lemma load_preimages_map (m : gmap bytes bytes) :
  map_Forall (fun h p => array_ok 32 p /\ array_ok 32 h /\ keccak [p] = h) m ->
  load_preimages (map (fun e => (hex_encode e.1, hex_encode e.2)) (map_to_list m)) ∅ = Ok m.
Proof.
  intros Hm. rewrite load_preimages_encode.
  - by rewrite list_to_map_to_list, (right_id_L ∅ (∪)).
  - apply NoDup_fst_map_to_list.
  - apply Forall_forall. intros [h p] Hin. apply elem_of_map_to_list in Hin. by apply (Hm h p).
Qed.

Lemma Learn_ok `{!ChannelCryptoLaws Crypto} (v v' : PreimageVault) (p : bytes) r :
  vault_ok v -> array_ok 32 p -> Learn p v = (v', r) ->
  vault_ok v' /\ (r = Ok tt -> pv_known v' = <[keccak [p] := p]> (pv_known v)) /\
  (r <> Ok tt -> pv_known v' = pv_known v).
Proof.
  intros [He Hf] Hp. unfold Learn, persist_vault. case_bool_decide as Hk.
  { intros [= <- <-]. split; [by split|]. split; [|done]. intros _. symmetry. by apply insert_id. }
  assert (map_Forall (fun h p => array_ok 32 p /\ array_ok 32 h /\ keccak [p] = h) (<[keccak [p] := p]> (pv_known v))) as He'.
  { apply map_Forall_insert_2; [|done]. split; [done|]. split; [|done]. apply keccak256_array. }
  destruct (head (pv_io v)) as [[]|]; intros [= <- <-]; (split; [split; cbn; try done|split; done]);
    by apply load_preimages_map.
Qed.
End Vault.

(** A learned secret is durable before [Learn] returns: after success the vault,
    and a vault reopened from its file, give exactly the old secrets and the new
    one under its hash; after a failed write nothing was lost or changed. *)
Theorem Learn_is_durable `{ChannelCryptoLaws} (v v' : PreimageVault) (p : bytes) (r : outcome chan_err unit)
    (Hv : vault_ok v) (Hp : array_ok 32 p) (HL : Learn p v = (v', r)) :
  exists v'', OpenPreimageVault (pv_file v') [] = Ok v'' /\ pv_known v'' = pv_known v' /\
  (r = Ok tt -> forall h, Lookup v'' h = if decide (h = keccak [p]) then Some p else Lookup v h) /\
  (r <> Ok tt -> forall h, Lookup v'' h = Lookup v h).
Proof.
  destruct (Learn_ok v v' p r Hv Hp HL) as ([He Hf] & Hok & Hbad).
  unfold OpenPreimageVault. rewrite Hf. cbn. eexists. split; [done|]. split; [done|]. unfold Lookup. cbn. split.
  - intros Hr h. rewrite (Hok Hr). destruct (decide (h = keccak [p])) as [->|]; [apply lookup_insert_eq|].
    by apply lookup_insert_ne.
  - intros Hr h. by rewrite (Hbad Hr).
Qed.

Definition toy_vault : PreimageVault := mkVault ∅ [] [].

Lemma toy_vault_ok : vault_ok (Crypto := toy_crypto) toy_vault.
Proof. split; [apply map_Forall_empty|reflexivity]. Qed.

Lemma Learn_is_durable_witness :
  exists v'', @OpenPreimageVault toy_crypto (pv_file (@Learn toy_crypto (zeros 32) toy_vault).1) [] = Ok v'' /\
    Lookup v'' (@keccak toy_crypto [zeros 32]) = Some (zeros 32).
Proof.
  destruct (@Learn_is_durable toy_crypto toy_laws toy_vault _ (zeros 32) _ toy_vault_ok (zeros_ok 32)
    (surjective_pairing _)) as (v'' & H1 & _ & H2 & _).
  exists v''. split; [exact H1|]. rewrite H2; [|vm_compute; reflexivity].
  destruct (decide _) as [|n]; [reflexivity|]. destruct n. reflexivity.
Defined.
