(* ===== verification/ChannelSession.v ===== *)
(** * Payment channels: the SCPP/1 engine ([internal/channel/session.go])

    [PeerSession]: proposing, answering, accepting, rejecting, resynchronising
    and stopping a channel on a conflict.  Handlers take the channel field and
    the decoded JSON body of an envelope and return the node's next state with
    the reply or error.  The clock is read once per handler. *)
From S2P Require Import Prelude.
From S2P Require Import GoBytes.
From S2P Require Import ChannelTypes.
From S2P Require Import ChannelCrypto.
From S2P Require Import ChannelState.
From S2P Require Import ChannelTransition.
From S2P Require Import ChannelHistory.
From S2P Require Import ChannelWire.
From S2P Require Import ChannelCommitter.
From S2P Require Import ChannelPreimages.

(** ** Messages *)
Record StateProposeBody : Type := mkPropose {
  spb_Intent : string;
  spb_Transition : wireTransition;
  spb_State : storedState;
  spb_Sig : string
}.
Record StateAcceptBody : Type := mkAccept {
  sab_Intent : string;
  sab_Nonce : Z;
  sab_Sig : string
}.
Record StateRejectBody : Type := mkReject {
  srb_Intent : string;
  srb_Code : string;
  srb_Detail : string
}.
Record StateResponseBody : Type := mkResponse {
  srs_Have : bool;
  srs_State : storedState;
  srs_SigA : string;
  srs_SigB : string
}.
Record ConflictBody : Type := mkConflict {
  cb_Nonce : Z;
  cb_Mine : storedState;
  cb_MineA : string;
  cb_MineB : string;
  cb_Yours : storedState;
  cb_YoursA : string;
  cb_YoursB : string
}.
Inductive Body : Type :=
| MsgHello | MsgChannelAnnounce
| MsgStatePropose (b : StateProposeBody)
| MsgStateAccept (b : StateAcceptBody)
| MsgStateReject (b : StateRejectBody)
| MsgStateRequest
| MsgStateResponse (b : StateResponseBody)
| MsgConflict (b : ConflictBody)
| MsgClosing | MsgError.
Record Message : Type := mkMessage {
  m_Channel : string;
  m_Body : Body
}.

Definition code_text (c : RejectCode) : string :=
  match c with
  | RejectNonceStale => "NONCE_STALE" | RejectAlreadySignedNonce => "ALREADY_SIGNED_NONCE"
  | RejectNotConserved => "NOT_CONSERVED" | RejectBadSignature => "BAD_SIGNATURE"
  | RejectLocksMalformed => "LOCKS_MALFORMED" | RejectTransitionMismatch => "TRANSITION_MISMATCH"
  | RejectPreimageBad => "PREIMAGE_BAD" | RejectLockNotExpired => "LOCK_NOT_EXPIRED"
  | RejectLockExpired => "LOCK_EXPIRED" | RejectInsufficient => "INSUFFICIENT_CAPACITY"
  | RejectConflicted => "CHANNEL_CONFLICTED" | RejectClosing => "CHANNEL_CLOSING"
  | RejectUnknownChannel => "UNKNOWN_CHANNEL"
  end.

Definition zero_stored_state : storedState := mkStoredState "" 0 "" "" [] "" "" 0.

Definition newEnvelope (channel : bytes) (b : Body) : Message := mkMessage (hex_encode channel) b.

(** A malformed intent is the zero intent. *)
Definition intentOf (s : string) : bytes :=
  match hex_decode s with
  | Some raw => if Nat.eqb (length raw) 32 then raw else zeros 32
  | None => zeros 32
  end.

(** Signatures are put in the A and B slots by address. *)
Definition assemble (c : Channel) (state : State) (sig signer otherSig : bytes) : SignedState :=
  if IsA c signer then mkSignedState state sig otherSig else mkSignedState state otherSig sig.

Definition codeFor (e : chan_err) : RejectCode :=
  match e with
  | ErrNonceRegressed => RejectNonceStale
  | ErrNotConserved => RejectNotConserved
  | ErrBadStateSignature | ErrHighS => RejectBadSignature
  | ErrDuplicateHTLC | ErrHTLCExpiryPast | ErrNegative => RejectLocksMalformed
  | ErrInsufficient => RejectInsufficient
  | ErrPreimageBad => RejectPreimageBad
  | _ => RejectTransitionMismatch
  end.

Inductive ResyncOutcome : Type :=
| ResyncAdopted | ResyncStale | ResyncSame | ResyncNone | ResyncConflict | ResyncRejected.

(** The session's configuration. *)
Record PeerSession : Type := mkPeerSession {
  ps_self : bytes;
  ps_skew : Z;
  ps_minLockWindow : Z
}.
Definition NewPeerSession (self : bytes) : PeerSession := mkPeerSession self 30 600.

(** The store the session commits through, and its optional vault. *)
Record Node (S : Type) : Type := mkNode {
  n_store : S;
  n_vault : option PreimageVault
}.
Arguments mkNode {S}.
Arguments n_store {S}.
Arguments n_vault {S}.
Definition with_store {S : Type} (n : Node S) (s : S) : Node S := mkNode s (n_vault n).

Section Session.
Context `{Crypto : ChannelCrypto} {S : Type} `{Com : Committer S}.
(** The wallet, and [err.Error()]; the text of an error is for a human. *)
Context (sign : bytes -> option bytes) (err_text : chan_err -> string).

Definition signFor (c : Channel) (raw : bytes) : outcome chan_err bytes :=
  fail? ch_NeedsReconcile c with ErrNeedsReconcile ;;
  of_option ErrSigner (sign raw).

Definition checkTiming (cfg : PeerSession) (now : Z) (c : Channel) (tr : StateTransition)
    : option (RejectCode * string) :=
  let pending := st_Pending (ss_State (ch_Latest c)) in
  match t_Kind tr with
  | KindLockAdd =>
      if t_Expiry tr <? wrap_i64 (now + ps_minLockWindow cfg)
      then Some (RejectLocksMalformed,
             String.concat "" ["lock expires in "; dec_text (wrap_i64 (t_Expiry tr - now));
               "s; this node requires at least "; dec_text (ps_minLockWindow cfg); "s"])
      else None
  | KindLockSettle =>
      match findLock pending (t_LockID tr) ≫= (pending !!.) with
      | None => Some (RejectTransitionMismatch, "no such lock")
      | Some h =>
          if h_Expiry h <=? wrap_i64 (now + ps_skew cfg)
          then Some (RejectLockExpired,
                 String.concat "" ["lock expired "; dec_text (wrap_i64 (now - h_Expiry h));
                   "s ago; it is refund-only"])
          else None
      end
  | KindLockRefund =>
      match findLock pending (t_LockID tr) ≫= (pending !!.) with
      | None => Some (RejectTransitionMismatch, "no such lock")
      | Some h =>
          if wrap_i64 (now - ps_skew cfg) <? h_Expiry h
          then Some (RejectLockNotExpired, "the lock has not expired yet")
          else None
      end
  | _ => None
  end.

(** ** Payer *)

Definition proposalEnvelope (c : Channel) (p : PendingProposal) : Message :=
  newEnvelope (ch_ID c) (MsgStatePropose
    (mkPropose (hex_encode (pp_Intent p)) (encodeTransitionWire (pp_Transition p))
      (encodeStateWire (pp_State p)) (hex_encode (pp_Sig p)))).

(** The mutation [Propose] commits. *)
Definition note_proposal (now : Z) (pending : PendingProposal) (raw : bytes) (c : Channel)
    : outcome chan_err Channel :=
  let c := set_PendingProposal (Some pending) c in
  let c := NoteSigned (st_Nonce (pp_State pending)) raw c in
  Ok (NotePayment (recordFor (pp_Intent pending) (pp_Transition pending) false PayInitiated now) c).

(** The half of [Propose] that works on the snapshot: apply, the settlement's
    timing rule, I4, sign. *)
Definition prepare_proposal (cfg : PeerSession) (now : Z) (c : Channel) (intent : bytes) (tr : StateTransition)
    : outcome chan_err (PendingProposal * bytes) :=
  let? next := Apply tr (Some c) (ps_self cfg) in
  let? _ := match (if bool_decide (t_Kind tr = KindLockSettle) then checkTiming cfg now c tr else None) with
            | Some (code, _) => Err (ErrRefusing (code_text code))
            | None => Ok tt
            end in
  let raw := Digest next (ch_ChainID c) (ch_Contract c) in
  fail? match HasSigned c (st_Nonce next) with
        | Some digest => negb (bool_decide (digest = raw))
        | None => false
        end with ErrAlreadySigned ;;
  let? sig := signFor c raw in
  Ok (mkPendingProposal intent tr next sig, raw).

(** The half that writes and sends. *)
Definition commit_proposal (now : Z) (n : Node S) (id : bytes) (c : Channel) (pending : PendingProposal)
    (raw : bytes) : Node S * outcome chan_err Message :=
  let (s', r) := cm_commit (n_store n) id (note_proposal now pending raw) in
  (with_store n s', let? _ := r in Ok (proposalEnvelope c pending)).

Definition Propose (cfg : PeerSession) (now : Z) (n : Node S) (id intent : bytes) (tr : StateTransition)
    : Node S * outcome chan_err Message :=
  match cm_channel (n_store n) id with
  | None => (n, Err ErrNoSuchChannel)
  | Some c =>
      if bool_decide (is_Some (ch_Conflict c)) then (n, Err ErrConflicted) else
      match ch_Pending c with
      | Some p =>
          if bool_decide (pp_Intent p = intent) then (n, Ok (proposalEnvelope c p))
          else (n, Err ErrOtherPending)
      | None =>
          match prepare_proposal cfg now c intent tr with
          | Err e => (n, Err e)
          | Panic => (n, Panic)
          | Ok (pending, raw) => commit_proposal now n id c pending raw
          end
      end
  end.

(** The mutation [HandleAccept] commits. *)
Definition complete_proposal (now : Z) (p : PendingProposal) (complete : SignedState) (c : Channel)
    : outcome chan_err Channel :=
  let? c := Accept c complete in
  let c := NoteApplied (pp_Intent p) (st_Nonce (pp_State p)) c in
  let c := set_PendingProposal None c in
  Ok (NotePayment (outcomeRecord (pp_Intent p) (pp_Transition p) false (st_Nonce (pp_State p)) now) c).

Definition HandleAccept (cfg : PeerSession) (now : Z) (n : Node S) (channel : string) (body : StateAcceptBody)
    : Node S * outcome chan_err unit :=
  match parseBytes32 channel with
  | Err e => (n, Err e)
  | Panic => (n, Panic)
  | Ok id =>
      match cm_channel (n_store n) id with
      | None => (n, Err ErrNoSuchChannel)
      | Some c =>
          match ch_Pending c with
          | None =>
              if bool_decide (is_Some (AppliedAt c (intentOf (sab_Intent body)))) then (n, Ok tt)
              else (n, Err ErrNoPending)
          | Some p =>
              if negb (String.eqb (hex_encode (pp_Intent p)) (sab_Intent body)) then (n, Err ErrIntentMismatch)
              else
                match parseSig (sab_Sig body) with
                | Err e => (n, Err e)
                | Panic => (n, Panic)
                | Ok theirs =>
                    let complete := assemble c (pp_State p) (pp_Sig p) (ps_self cfg) theirs in
                    let (s', r) := cm_commit (n_store n) id (complete_proposal now p complete) in
                    (with_store n s', r)
                end
          end
      end
  end.

(** The mutation [HandleReject] commits: the signed-nonce record survives. *)
Definition drop_proposal (now : Z) (body : StateRejectBody) (c : Channel) : outcome chan_err Channel :=
  match ch_Pending c with
  | Some p =>
      if String.eqb (hex_encode (pp_Intent p)) (srb_Intent body) then
        let r := recordFor (pp_Intent p) (pp_Transition p) false PayRejected now in
        let r := mkPaymentRecord (pr_Intent r) (pr_Kind r) (pr_Route r) (pr_Incoming r) (pr_Amount r)
                   (pr_Status r) (pr_LockID r) (pr_Nonce r) (pr_CreatedAt r) now (srb_Code body) in
        Ok (set_PendingProposal None (NotePayment r c))
      else Ok c
  | None => Ok c
  end.

Definition HandleReject (now : Z) (n : Node S) (channel : string) (body : StateRejectBody)
    : Node S * outcome chan_err string :=
  match parseBytes32 channel with
  | Err e => (n, Err e)
  | Panic => (n, Panic)
  | Ok id =>
      let (s', r) := cm_commit (n_store n) id (drop_proposal now body) in
      (with_store n s', let? _ := r in Ok (srb_Code body))
  end.

(** ** Payee *)

Definition reject (id : bytes) (intentHex : string) (code : RejectCode) (detail : string) : Message :=
  newEnvelope id (MsgStateReject (mkReject intentHex (code_text code) detail)).

Definition acceptEnvelope (cfg : PeerSession) (c : Channel) (intentHex : string) (nonce : Z) : Message :=
  let sig := if IsA c (ps_self cfg) then ss_SigA (ch_Latest c) else ss_SigB (ch_Latest c) in
  newEnvelope (ch_ID c) (MsgStateAccept (mkAccept intentHex nonce (hex_encode sig))).

Definition stateResponse (c : Channel) : Message :=
  newEnvelope (ch_ID c) (MsgStateResponse
    (if Complete (ch_Latest c)
     then mkResponse true (encodeStateWire (ss_State (ch_Latest c)))
            (hex_encode (ss_SigA (ch_Latest c))) (hex_encode (ss_SigB (ch_Latest c)))
     else mkResponse false zero_stored_state "" "")).

Definition other_party (c : Channel) (self : bytes) : bytes :=
  if bool_decide (ch_PartyA c = self) then ch_PartyB c else ch_PartyA c.

(** [s.vault.Learn], when a settlement reveals a secret and there is a vault. *)
Definition learn_secret (tr : StateTransition) (vault : option PreimageVault)
    : option PreimageVault * outcome chan_err unit :=
  match vault with
  | Some v =>
      if bool_decide (t_Kind tr = KindLockSettle)
      then let (v', r) := Learn (t_Preimage tr) v in (Some v', r)
      else (vault, Ok tt)
  | None => (None, Ok tt)
  end.

(** The mutation [HandlePropose] commits. *)
Definition adopt_proposal (now : Z) (intent : bytes) (tr : StateTransition) (complete : SignedState)
    (raw : bytes) (c : Channel) : outcome chan_err Channel :=
  let nonce := st_Nonce (ss_State complete) in
  let? c := Accept c complete in
  let c := NoteApplied intent nonce c in
  let c := NoteSigned nonce raw c in
  Ok (NotePayment (outcomeRecord intent tr true nonce now) c).

(** What the proposal's checks leave: the decoded state, transition and signature,
    or the code of the refusal. *)
Definition decode_proposal (body : StateProposeBody)
    : (State * StateTransition * bytes) + (RejectCode * string) :=
  match decodeStateWire (spb_State body) with
  | Ok proposed =>
      match decodeTransitionWire (spb_Transition body) with
      | Ok tr =>
          match parseSig (spb_Sig body) with
          | Ok theirSig => inl (proposed, tr, theirSig)
          | Err e => inr (RejectBadSignature, err_text e)
          | Panic => inr (RejectBadSignature, ""%string)
          end
      | Err e => inr (RejectLocksMalformed, err_text e)
      | Panic => inr (RejectLocksMalformed, ""%string)
      end
  | Err e => inr (RejectLocksMalformed, err_text e)
  | Panic => inr (RejectLocksMalformed, ""%string)
  end.

(** The rest of [HandlePropose], past every check that needs no signature: the
    secret to disk, I4, this node's signature, the complete state to disk. *)
Definition answer_proposal (cfg : PeerSession) (now : Z) (n : Node S) (id : bytes) (c : Channel)
    (intent : bytes) (intentHex : string) (proposed : State) (tr : StateTransition) (theirSig : bytes)
    : Node S * outcome chan_err Message :=
  let (vault', learned) := learn_secret tr (n_vault n) in
  let n := mkNode (n_store n) vault' in
  match learned with
  | Ok _ =>
      let raw := Digest proposed (ch_ChainID c) (ch_Contract c) in
      if match HasSigned c (st_Nonce proposed) with
         | Some digest => negb (bool_decide (digest = raw))
         | None => false
         end
      then (n, Ok (reject id intentHex RejectAlreadySignedNonce "already signed a different state at that nonce"))
      else
        match signFor c raw with
        | Err e => (n, Err e)
        | Panic => (n, Panic)
        | Ok mySig =>
            let complete := assemble c proposed theirSig (other_party c (ps_self cfg)) mySig in
            let (s', r) := cm_commit (n_store n) id (adopt_proposal now intent tr complete raw) in
            (with_store n s',
             match r with
             | Ok _ =>
                 match cm_channel s' id with
                 | Some fresh => Ok (acceptEnvelope cfg fresh intentHex (st_Nonce proposed))
                 | None => Panic
                 end
             | Err e => Ok (reject id intentHex (codeFor e) (err_text e))
             | Panic => Panic
             end)
        end
  | Err e => (n, Err ErrVault)
  | Panic => (n, Panic)
  end.

Definition HandlePropose (cfg : PeerSession) (now : Z) (n : Node S) (channel : string) (body : StateProposeBody)
    : Node S * outcome chan_err Message :=
  match parseBytes32 channel with
  | Err e => (n, Err e)
  | Panic => (n, Panic)
  | Ok id =>
      let intent := intentOf (spb_Intent body) in
      let refuse code detail := Ok (reject id (spb_Intent body) code detail) in
      match cm_channel (n_store n) id with
      | None => (n, refuse RejectUnknownChannel "no such channel")
      | Some c =>
          if bool_decide (is_Some (ch_Conflict c))
          then (n, refuse RejectConflicted "channel stopped after a conflict")
          else if negb (ch_Status c =? StatusOpen) then (n, refuse RejectClosing "channel is not open")
          else
            match AppliedAt c intent with
            | Some nonce =>
                if st_Nonce (ss_State (ch_Latest c)) =? nonce
                then (n, Ok (acceptEnvelope cfg c (spb_Intent body) nonce))
                else (n, Ok (stateResponse c))
            | None =>
                match decode_proposal body with
                | inr (code, detail) => (n, refuse code detail)
                | inl (proposed, tr, theirSig) =>
                    let proposer := other_party c (ps_self cfg) in
                    match Matches tr (Some c) proposer proposed with
                    | Err e => (n, refuse RejectTransitionMismatch (err_text e))
                    | Panic => (n, Panic)
                    | Ok _ =>
                        match checkTiming cfg now c tr with
                        | Some (code, detail) => (n, refuse code detail)
                        | None => answer_proposal cfg now n id c intent (spb_Intent body) proposed tr theirSig
                        end
                    end
                end
            end
      end
  end.

(** ** Resynchronisation *)

Definition RequestState (id : bytes) : Message := newEnvelope id MsgStateRequest.

Definition HandleRequest (n : Node S) (channel : string) : Node S * outcome chan_err Message :=
  (n, let? id := parseBytes32 channel in
      let? c := of_option ErrNoSuchChannel (cm_channel (n_store n) id) in
      Ok (stateResponse c)).

(** The mutation that adopts a peer's newer state and settles the pending proposal. *)
Definition adopt_newer (now : Z) (theirs : SignedState) (c : Channel) : outcome chan_err Channel :=
  let? c := Accept c theirs in
  Ok match ch_Pending c with
     | Some p =>
         if st_Nonce (pp_State p) <=? st_Nonce (ss_State theirs) then
           let c := NoteApplied (pp_Intent p) (st_Nonce (pp_State p)) c in
           let c := NotePayment (outcomeRecord (pp_Intent p) (pp_Transition p) false
                                   (st_Nonce (pp_State p)) now) c in
           set_PendingProposal None c
         else c
     | None => c
     end.

(** The mutation that stops a channel on two states at one nonce. *)
Definition record_conflict (nonce : Z) (mine theirs : SignedState) (c : Channel) : outcome chan_err Channel :=
  Ok (set_PendingProposal None (set_Conflict (Some (mkConflictRecord nonce mine theirs)) c)).

Definition HandleResponse (now : Z) (n : Node S) (channel : string) (body : StateResponseBody)
    : Node S * outcome chan_err ResyncOutcome :=
  match parseBytes32 channel with
  | Err e => (n, Err e)
  | Panic => (n, Panic)
  | Ok id =>
      match cm_channel (n_store n) id with
      | None => (n, Err ErrNoSuchChannel)
      | Some c =>
          if negb (srs_Have body) then (n, Ok ResyncNone)
          else
            match decodeSignedWire (srs_State body) (srs_SigA body) (srs_SigB body) with
            | Err e => (n, Err e)
            | Panic => (n, Panic)
            | Ok theirs =>
                let mine := st_Nonce (ss_State (ch_Latest c)) in
                let nonce := st_Nonce (ss_State theirs) in
                if mine <? nonce then
                  let (s', r) := cm_commit (n_store n) id (adopt_newer now theirs) in
                  (with_store n s', let? _ := r in Ok ResyncAdopted)
                else if nonce <? mine then (n, Ok ResyncStale)
                else if is_ok (Equal (ss_State (ch_Latest c)) (ss_State theirs)) then (n, Ok ResyncSame)
                else
                  let (s', r) := cm_commit (n_store n) id (record_conflict nonce (ch_Latest c) theirs) in
                  (with_store n s', let? _ := r in Ok ResyncConflict)
            end
      end
  end.

Definition ConflictMessage (n : Node S) (id : bytes) : outcome chan_err Message :=
  let? c := of_option ErrNoSuchChannel (cm_channel (n_store n) id) in
  let? k := of_option (ErrText "no conflict recorded on that channel") (ch_Conflict c) in
  Ok (newEnvelope id (MsgConflict
        (mkConflict (cr_Nonce k)
          (encodeStateWire (ss_State (cr_Mine k))) (hex_encode (ss_SigA (cr_Mine k))) (hex_encode (ss_SigB (cr_Mine k)))
          (encodeStateWire (ss_State (cr_Theirs k))) (hex_encode (ss_SigA (cr_Theirs k)))
          (hex_encode (ss_SigB (cr_Theirs k)))))).

Definition verifyBothParties (c : Channel) (ss : SignedState) : outcome chan_err unit :=
  fail? negb (Complete ss) with ErrBadStateSignature ;;
  let raw := Digest (ss_State ss) (ch_ChainID c) (ch_Contract c) in
  let? a := RecoverSigner raw (ss_SigA ss) in
  let? b := RecoverSigner raw (ss_SigB ss) in
  fail? negb (bool_decide (a = ch_PartyA c) && bool_decide (b = ch_PartyB c)) with ErrBadStateSignature ;;
  Ok tt.

(** The peer's "mine" is this node's "theirs". *)
Definition decode_evidence (body : ConflictBody) : outcome chan_err (SignedState * SignedState) :=
  let? theirs := decodeSignedWire (cb_Mine body) (cb_MineA body) (cb_MineB body) in
  let? ours := decodeSignedWire (cb_Yours body) (cb_YoursA body) (cb_YoursB body) in
  fail? negb (st_Nonce (ss_State theirs) =? st_Nonce (ss_State ours)) with ErrNotAConflict ;;
  fail? is_ok (Equal (ss_State theirs) (ss_State ours)) with ErrNotAConflict ;;
  Ok (theirs, ours).

Definition HandleConflict (n : Node S) (channel : string) (body : ConflictBody)
    : Node S * outcome chan_err bool :=
  match let? id := parseBytes32 channel in let? e := decode_evidence body in Ok (id, e) with
  | Err e => (n, Err e)
  | Panic => (n, Panic)
  | Ok (id, (theirs, ours)) =>
      match cm_channel (n_store n) id with
      | None => (n, Err ErrNoSuchChannel)
      | Some c =>
          if bool_decide (is_Some (ch_Conflict c)) then (n, Ok true)
          else
            match let? _ := verifyBothParties c theirs in verifyBothParties c ours with
            | Err e => (n, Err e)
            | Panic => (n, Panic)
            | Ok _ =>
                let (s', r) := cm_commit (n_store n) id
                  (record_conflict (st_Nonce (ss_State theirs)) ours theirs) in
                (with_store n s', let? _ := r in Ok true)
            end
      end
  end.

(** ** Restart *)
Definition Resume (n : Node S) (id : bytes) : outcome chan_err (option Message) :=
  let? c := of_option ErrNoSuchChannel (cm_channel (n_store n) id) in
  fail? bool_decide (is_Some (ch_Conflict c)) with ErrConflicted ;;
  match ch_Pending c with
  | None => Ok None
  | Some _ => Ok (Some (RequestState id))
  end.
End Session.
