(* ===== verification/ChannelSafety.v ===== *)
(** * Payment channels: what the engine guarantees

    The theorems about [PeerSession] of [ChannelSession]: persist before
    sending, identical retries, no nonce signed twice even across crashes and
    restarts, quarantine, conflicts, timing. *)
From S2P Require Import Prelude.
From S2P Require Import GoBytes.
From S2P Require Import ChannelTypes.
From S2P Require Import ChannelCrypto.
From S2P Require Import ChannelState.
From S2P Require Import ChannelTransition.
From S2P Require Import ChannelHistory.
From S2P Require Import ChannelWire.
From S2P Require Import ChannelCommitter.
From S2P Require Import ChannelPreimages.
From S2P Require Import ChannelStore.
From S2P Require Import ChannelSession.

(** ** Sorting commutes with a map that keeps the order *)
Section SortMap.
Context {A : Type} (R : relation A) `{forall x y, Decision (R x y)} (f : A -> A).
Hypothesis f_R : forall x y, R (f x) (f y) <-> R x y.

Lemma list_merge_map (l1 l2 : list A) : list_merge R (map f l1) (map f l2) = map f (list_merge R l1 l2).
Proof.
  revert l2. induction l1 as [|x1 l1 IH1]; intros l2; [by destruct l2|].
  induction l2 as [|x2 l2 IH2]; [done|]. cbn in *.
  destruct (decide (R x1 x2)) as [Hr|Hr].
  - rewrite decide_True by (by apply f_R). cbn. f_equal. exact (IH1 (x2 :: l2)).
  - rewrite decide_False by (by rewrite f_R). cbn. f_equal. exact IH2.
Qed.

Lemma merge_list_to_stack_map (st : list (option (list A))) (l : list A) :
  merge_list_to_stack R (map (fmap (map f)) st) (map f l) = map (fmap (map f)) (merge_list_to_stack R st l).
Proof.
  revert l; induction st as [|[k|] st IH]; intros l; cbn; [done| |done].
  f_equal. rewrite list_merge_map. apply IH.
Qed.

Lemma merge_stack_map (st : list (option (list A))) :
  merge_stack R (map (fmap (map f)) st) = map f (merge_stack R st).
Proof. induction st as [|[k|] st IH]; cbn; [done| |done]. by rewrite IH, list_merge_map. Qed.

Lemma merge_sort_map (l : list A) : merge_sort R (map f l) = map f (merge_sort R l).
Proof.
  unfold merge_sort. change (@nil (option (list A))) with (map (fmap (map f)) (@nil (option (list A)))) at 1.
  generalize (@nil (option (list A))). induction l as [|x l IH]; intros st; cbn; [apply merge_stack_map|].
  rewrite <- IH. by rewrite <- merge_list_to_stack_map.
Qed.
End SortMap.

Section Digests.
Context `{Crypto : ChannelCrypto}.

Lemma u256_orZero (n : option Z) : u256 (Some (orZero n)) = u256 n.
Proof. destruct n; [done|]. by rewrite (u256_word None). Qed.

Lemma HTLCRoot_clone (s : State) : HTLCRoot (cloneState s) = HTLCRoot s.
Proof.
  unfold HTLCRoot, cloneState. cbn. destruct (st_Pending s) as [|h l]; [done|].
  change (keccak (map htlc_word (sort_locks (map norm_htlc (h :: l)))) = keccak (map htlc_word (sort_locks (h :: l)))).
  unfold sort_locks. rewrite merge_sort_map by done. rewrite map_map. f_equal. apply map_ext. apply htlc_word_norm.
Qed.

Lemma Digest_clone (s : State) (chain : option Z) (k : bytes) : Digest (cloneState s) chain k = Digest s chain k.
Proof.
  unfold Digest. rewrite HTLCRoot_clone. change (op (cloneState s)) with (op s). unfold StateDigest.
  cbn [cloneState st_Channel st_Nonce st_BalanceA st_BalanceB st_WithdrawA st_WithdrawB].
  by rewrite !u256_orZero.
Qed.

Lemma Digest_chain (s : State) (chain : option Z) (k : bytes) : Digest s (Some (orZero chain)) k = Digest s chain k.
Proof. unfold Digest, StateDigest. by rewrite (u256_orZero chain). Qed.

Lemma encode_clone (s : State) : encodeStateWire (cloneState s) = encodeStateWire s.
Proof.
  unfold encodeStateWire, cloneState, clonePending. cbn. rewrite map_map.
  assert (forall n, dec_text (orZero n) = decString n) as HD by (by intros [n|]).
  rewrite !HD. f_equal. apply map_ext. intros h. unfold encodeHTLC. cbn. by rewrite HD.
Qed.
End Digests.

Lemma parseSig_encode (sig : bytes) : array_ok 65 sig -> parseSig (hex_encode sig) = Ok sig.
Proof. intros [L O]. unfold parseSig. by rewrite hex_decode_encode, L. Qed.

(** ** What a mutation keeps *)

(** A signature at nonce [n] over digest [d] is remembered by the record: either
    the nonce is spent, or the ledger has it. *)
Definition covered (c : Channel) (n : Z) (d : bytes) : Prop :=
  n <= st_Nonce (ss_State (ch_Latest c)) \/ ch_Signed c !! n = Some d.

Record keeps (c c' : Channel) : Prop := {
  kp_id : ch_ID c' = ch_ID c;
  kp_typed : ledger_typed (ch_Signed c) -> ledger_typed (ch_Signed c');
  kp_nonce : st_Nonce (ss_State (ch_Latest c)) <= st_Nonce (ss_State (ch_Latest c'));
  kp_covered : forall n d, covered c n d -> covered c' n d;
  kp_pending : forall n, pending_nonce c' = Some n -> 0 <= n \/ pending_nonce c = Some n
}.

Lemma keeps_refl (c c' : Channel) :
  ch_ID c' = ch_ID c -> ch_Signed c' = ch_Signed c -> ch_Latest c' = ch_Latest c ->
  ch_Pending c' = ch_Pending c \/ ch_Pending c' = None -> keeps c c'.
Proof.
  intros E1 E2 E3 E4. split; unfold covered; rewrite ?E1, ?E2, ?E3; auto; [lia|].
  unfold pending_nonce. intros n. destruct E4 as [-> | ->]; [auto|done].
Qed.

Lemma keeps_trans (c1 c2 c3 : Channel) : keeps c1 c2 -> keeps c2 c3 -> keeps c1 c3.
Proof. intros [] []. split; [congruence|auto|lia|auto|]. intros n Hn. destruct (kp_pending1 n Hn); auto. Qed.

Lemma covered_ledger (c c' : Channel) (n : Z) (d : bytes) : same_ledger c c' -> covered c n d <-> covered c' n d.
Proof. intros (_ & E1 & E2 & _). unfold covered. by rewrite E1, E2. Qed.

Lemma prune_lookup (top n : Z) (m : gmap Z bytes) (d : bytes) :
  prune_signed top m !! n = Some d <-> m !! n = Some d /\ top < n.
Proof. unfold prune_signed. by rewrite map_lookup_filter_Some. Qed.

Lemma prune_typed (top : Z) (m : gmap Z bytes) : ledger_typed m -> ledger_typed (prune_signed top m).
Proof. intros Hm n d [Hn _]%prune_lookup. by apply Hm. Qed.

Section Keeps.
Context `{Crypto : ChannelCrypto}.

Lemma Accept_keeps (c c' : Channel) (ss : SignedState) :
  0 <= st_Nonce (ss_State ss) -> Accept c ss = Ok c' -> keeps c c' /\ ch_Latest c' = ss /\
    (st_Nonce (ss_State (ch_Latest c)) < st_Nonce (ss_State ss) \/
     (st_Nonce (ss_State (ch_Latest c)) = 0 /\ 0 <= st_Nonce (ss_State ss))) /\
    ch_Pending c' = ch_Pending c /\ ch_Conflict c' = ch_Conflict c /\ ch_Applied c' = ch_Applied c.
Proof.
  unfold Accept. intros H0 H. repeat outcome_step.
  assert (st_Nonce (ss_State (ch_Latest c)) < st_Nonce (ss_State ss) \/
     (st_Nonce (ss_State (ch_Latest c)) = 0 /\ 0 <= st_Nonce (ss_State ss))) as Hn.
  { clear -E1 H0. unfold nonce_regressed in E1. apply andb_false_iff in E1 as [E|E].
    - zbool. lia.
    - apply negb_false_iff, andb_true_iff in E as [E _]. zbool. right. lia. }
  subst c'. split; [|done]. split; cbn; [done|apply prune_typed|lia| |auto].
  intros n d [Hc|Hc]; unfold covered; cbn; [left; lia|].
  destruct (Z.ltb_spec (st_Nonce (ss_State ss)) n); [right|left; lia]. by apply prune_lookup.
Qed.

Lemma NoteSigned_keeps (c : Channel) (n : Z) (d : bytes) :
  ch_Signed c !! n = None \/ ch_Signed c !! n = Some d -> u_range 64 n -> array_ok 32 d -> keeps c (NoteSigned n d c).
Proof.
  intros Hs Hn Hd. split; cbn; [done| |lia| |auto].
  - intros Ht. apply prune_typed. by apply map_Forall_insert_2.
  - intros m e [Hc|Hc]; unfold covered; cbn; [by left|].
    destruct (Z.ltb_spec (st_Nonce (ss_State (ch_Latest c))) m); [right|by left].
    apply prune_lookup. split; [|done]. destruct (decide (m = n)) as [->|]; [|by rewrite lookup_insert_ne].
    rewrite lookup_insert_eq. destruct Hs as [Hs|Hs]; congruence.
Qed.

Lemma note_proposal_keeps (c c' : Channel) (now : Z) (p : PendingProposal) (raw : bytes) :
  let n := st_Nonce (pp_State p) in
  ch_Signed c !! n = None \/ ch_Signed c !! n = Some raw -> u_range 64 n -> array_ok 32 raw ->
  note_proposal now p raw c = Ok c' ->
  keeps c c' /\ ch_Latest c' = ch_Latest c /\ ch_Pending c' = Some p /\ ch_Conflict c' = ch_Conflict c /\
  covered c' n raw.
Proof.
  intros n Hs Hn Hd [= <-]. split.
  - apply keeps_trans with (set_PendingProposal (Some p) c).
    { split; cbn; auto; [lia|]. intros m [= <-]. left. apply Hn. }
    apply keeps_trans with (NoteSigned n raw (set_PendingProposal (Some p) c)); [by apply NoteSigned_keeps|].
    apply keeps_refl; auto.
  - repeat split. unfold covered. cbn. fold n.
    destruct (Z.ltb_spec (st_Nonce (ss_State (ch_Latest c))) n); [right|by left].
    apply prune_lookup. split; [apply lookup_insert_eq|done].
Qed.

Lemma complete_proposal_keeps (c c' : Channel) (now : Z) (p : PendingProposal) (ss : SignedState) :
  0 <= st_Nonce (ss_State ss) -> complete_proposal now p ss c = Ok c' -> keeps c c' /\ ch_Latest c' = ss.
Proof.
  unfold complete_proposal. intros H0 H. repeat outcome_step. subst c'.
  match goal with H : Accept _ _ = _ |- _ => destruct (Accept_keeps _ _ _ H0 H) as (K & L & _) end.
  split; [|done]. eapply keeps_trans; [exact K|]. apply keeps_refl; auto.
Qed.

Lemma drop_proposal_keeps (c c' : Channel) (now : Z) (b : StateRejectBody) :
  drop_proposal now b c = Ok c' -> keeps c c' /\ ch_Latest c' = ch_Latest c /\ ch_Signed c' = ch_Signed c.
Proof.
  unfold drop_proposal. destruct (ch_Pending c) as [p|]; [destruct (String.eqb _ _)|]; intros [= <-];
    (split; [apply keeps_refl; auto|done]).
Qed.

Lemma adopt_proposal_keeps (c c' : Channel) (now : Z) (intent : bytes) (tr : StateTransition)
    (ss : SignedState) (raw : bytes) :
  0 <= st_Nonce (ss_State ss) < 2 ^ 64 -> array_ok 32 raw ->
  adopt_proposal now intent tr ss raw c = Ok c' ->
  keeps c c' /\ ch_Latest c' = ss /\ Accept c ss = Ok (adopted c ss) /\
  ch_Applied c' !! intent = Some (st_Nonce (ss_State ss)).
Proof.
  unfold adopt_proposal. intros H0 Hd H. repeat outcome_step. subst c'.
  match goal with H : Accept _ _ = Ok ?a |- _ =>
    destruct (Accept_keeps _ _ _ (proj1 H0) H) as (K & L & _); pose proof (proj1 (Accept_iff _ _ _) H) as [_ ->] end.
  split; [|repeat split; try done; cbn; apply lookup_insert_eq].
  eapply keeps_trans; [exact K|]. eapply keeps_trans; [apply keeps_refl|]; cycle -1.
  - eapply keeps_trans; [apply NoteSigned_keeps|apply keeps_refl]; cycle -1; auto; cbn. left.
    destruct (prune_signed _ _ !! _) eqn:EP; [|done]. apply prune_lookup in EP as [_ EP]. lia.
  - done.
  - done.
  - done.
  - by left.
Qed.

Lemma adopt_newer_keeps (c c' : Channel) (now : Z) (ss : SignedState) :
  0 <= st_Nonce (ss_State ss) -> adopt_newer now ss c = Ok c' -> keeps c c' /\ ch_Latest c' = ss.
Proof.
  unfold adopt_newer. intros H0 H. repeat outcome_step. subst c'.
  match goal with H : Accept _ _ = Ok ?a |- _ => destruct (Accept_keeps _ _ _ H0 H) as (K & L & _) end.
  destruct (ch_Pending a) as [p|]; [destruct (Z.leb_spec (st_Nonce (pp_State p)) (st_Nonce (ss_State ss)))|];
    (split; [|done]); try done. eapply keeps_trans; [exact K|]. apply keeps_refl; auto.
Qed.

Lemma record_conflict_keeps (c c' : Channel) (n : Z) (mine theirs : SignedState) :
  record_conflict n mine theirs c = Ok c' -> keeps c c' /\ ch_Latest c' = ch_Latest c.
Proof. intros [= <-]. split; [apply keeps_refl; auto|done]. Qed.

Lemma refresh_keeps (c c' : Channel) (occ : OnChainChannel) : refresh_record occ c = Ok c' -> keeps c c'.
Proof. unfold refresh_record. intros H. repeat outcome_step. subst. apply keeps_refl; auto. Qed.
End Keeps.

Lemma keeps_record_typed (id : bytes) (c c' : Channel) : keeps c c' -> record_typed id c -> record_typed id c'.
Proof.
  intros [] []. split; [congruence|done|auto|]. intros n Hn. destruct (kp_pending0 n Hn); auto.
Qed.

Lemma ledger_record_typed (id : bytes) (x c : Channel) : same_ledger x c -> record_typed id c -> record_typed id x.
Proof.
  intros (E1 & E2 & E3 & E4) []. split; rewrite ?E1, ?E2, ?E4; auto.
Qed.

(** ** Commits *)

Section Commits.
Context {S : Type} `{Com : Committer S} `{!CommitterLaws S}.

(** Every record the store may come back with is filed under its own id and typed. *)
Definition well_filed (s : S) : Prop := forall id c, cm_possible s id c -> record_typed id c.

(** A signature is remembered when no restart can lose it. *)
Definition remembered (s : S) (id : bytes) (n : Z) (d : bytes) : Prop :=
  is_Some (cm_channel s id) /\ cm_kept s id /\ forall x, cm_possible s id x -> covered x n d.

Definition commit_keeps_at (s : S) (id : bytes) (f : Channel -> outcome chan_err Channel) : Prop :=
  forall c c' b, cm_channel s id = Some c -> f (set_NeedsReconcile b c) = Ok c' ->
    keeps (set_NeedsReconcile b c) c'.

Lemma live_typed (s : S) (id : bytes) (c : Channel) (b : bool) :
  well_filed s -> cm_channel s id = Some c -> record_typed id (set_NeedsReconcile b c).
Proof. intros Hs Hc. apply (ledger_record_typed id _ c); [done|]. by apply Hs, cm_live. Qed.

Lemma commit_done (s s' : S) (id : bytes) (f : Channel -> outcome chan_err Channel) :
  well_filed s -> commit_keeps_at s id f -> cm_commit s id f = (s', Ok tt) ->
  exists c c' b, cm_channel s id = Some c /\ f (set_NeedsReconcile b c) = Ok c' /\ record_typed id c' /\
    cm_channel s' id = Some (set_NeedsReconcile (ch_NeedsReconcile c) (Clone c')) /\
    (forall x, cm_possible s' id x -> same_ledger x c') /\ cm_kept s' id.
Proof.
  intros Hs Hf Hc. destruct (cm_commit_done _ _ _ _ Hc) as (c & c' & b & H1 & H2 & H3 & H4 & _ & H6 & _).
  assert (record_typed id c') as Ht.
  { eapply keeps_record_typed; [exact (Hf _ _ _ H1 H2)|]. by apply live_typed with s. }
  exists c, c', b. split; [done|]. split; [done|]. split; [done|].
  split; [apply H3, Ht|]. split; [by apply H4|]. apply H6, Ht.
Qed.

Lemma commit_well_filed (s s' : S) (id : bytes) (f : Channel -> outcome chan_err Channel) r :
  well_filed s -> commit_keeps_at s id f -> cm_commit s id f = (s', r) ->
  well_filed s' /\ forall j n d, remembered s j n d -> remembered s' j n d.
Proof.
  intros Hs Hf Hc. destruct (decide (is_ok r = true)) as [Hr|Hr].
  - destruct r as [[]| |]; try discriminate Hr. destruct (commit_done _ _ _ _ Hs Hf Hc) as (c & c' & b & H1 & H2 & Ht & H3 & H4 & H6).
    destruct (cm_commit_done _ _ _ _ Hc) as (? & c2 & b2 & H1' & H2' & _ & _ & H5 & _ & H7).
    rewrite H1 in H1'. injection H1' as <-.
    assert (ch_ID c2 = id) as Hi2.
    { pose proof (Hf _ _ _ H1 H2') as K. rewrite (kp_id _ _ K). apply (rt_id id). by apply live_typed with s. }
    specialize (H5 Hi2). split.
    + intros j x Hx. destruct (decide (j = id)) as [->|Hj].
      * eapply ledger_record_typed; [by apply H4|done].
      * apply Hs. by apply (H5 j Hj).
    + intros j n d (M1 & M2 & M3). destruct (decide (j = id)) as [->|Hj].
      * split; [by eexists|]. split; [done|]. intros x Hx. apply (covered_ledger x c'); [by apply H4|].
        apply (kp_covered _ _ (Hf _ _ _ H1 H2)). exact (M3 c (cm_live _ _ _ H1)).
      * destruct (H5 j Hj) as [E HP]. split; [by rewrite E|]. split; [by apply H7|]. intros x Hx. by apply M3, HP.
  - destruct (cm_commit_failed _ _ _ _ _ Hc) as (E & K & HP); [by intros ->|]. split.
    + intros j x Hx. destruct (HP j x Hx) as [?|(c & c' & b & H1 & H2 & H3)]; [by apply Hs|].
      assert (record_typed id c') as Ht
        by (eapply keeps_record_typed; [exact (Hf _ _ _ H1 H2)|by apply live_typed with s]).
      destruct (H3 Ht) as (-> & HL & _). by eapply ledger_record_typed.
    + intros j n d (M1 & M2 & M3). split; [by rewrite E|]. split; [by apply K|]. intros x Hx.
      destruct (HP j x Hx) as [?|(c & c' & b & H1 & H2 & H3)]; [by apply M3|].
      assert (record_typed id c') as Ht
        by (eapply keeps_record_typed; [exact (Hf _ _ _ H1 H2)|by apply live_typed with s]).
      destruct (H3 Ht) as (-> & HL & _). apply (covered_ledger x c'); [done|].
      apply (kp_covered _ _ (Hf _ _ _ H1 H2)). exact (M3 c (cm_live _ _ _ H1)).
Qed.

Lemma commit_remembers (s s' : S) (id : bytes) (f : Channel -> outcome chan_err Channel) (n : Z) (d : bytes) :
  well_filed s -> commit_keeps_at s id f -> cm_commit s id f = (s', Ok tt) ->
  (forall c c' b, cm_channel s id = Some c -> f (set_NeedsReconcile b c) = Ok c' -> covered c' n d) ->
  remembered s' id n d.
Proof.
  intros Hs Hf Hc Hn. destruct (commit_done _ _ _ _ Hs Hf Hc) as (c & c' & b & H1 & H2 & Ht & H3 & H4 & H6).
  split; [by eexists|]. split; [done|]. intros x Hx. apply (covered_ledger x c'); [by apply H4|].
  exact (Hn _ _ _ H1 H2).
Qed.
End Commits.

(** ** Handlers *)

Section Handlers.
Context `{Crypto : ChannelCrypto} `{!ChannelCryptoLaws Crypto}.
Context {S : Type} `{Com : Committer S} `{!CommitterLaws S}.
Context (sign : bytes -> option bytes) (err_text : chan_err -> string).

(** A step that forgets no signature and leaves every record well filed. *)
Definition safe (s s' : S) : Prop :=
  well_filed s' /\ forall j n d, remembered s j n d -> remembered s' j n d.

Lemma safe_refl (s : S) : well_filed s -> safe s s.
Proof. by split. Qed.

Lemma Digest_array (st : State) (chain : option Z) (k : bytes) : array_ok 32 (Digest st chain k).
Proof. apply keccak256_array. Qed.

Lemma Apply_nonce (tr : StateTransition) (c : Channel) (p : bytes) (s : State) :
  Apply tr (Some c) p = Ok s -> st_Nonce s = next_nonce c /\ st_Channel s = ch_ID c.
Proof. by intros (_ & a & b & ps & wA & wB & _ & ->)%Apply_ok. Qed.

Lemma wrap_u64_range (z : Z) : u_range 64 (wrap_u64 z).
Proof. by apply Z.mod_pos_bound. Qed.

Lemma Propose_inv (cfg : PeerSession) (now : Z) (n n' : Node S) (id intent : bytes) (tr : StateTransition)
    (r : outcome chan_err Message) :
  Propose sign cfg now n id intent tr = (n', r) ->
  (n' = n /\ (forall c m, cm_channel (n_store n) id = Some c -> ch_Pending c = None -> r <> Ok m)) \/
  exists c next sig s' rc,
    cm_channel (n_store n) id = Some c /\ ch_Pending c = None /\ ch_Conflict c = None /\
    ch_NeedsReconcile c = false /\
    Apply tr (Some c) (ps_self cfg) = Ok next /\ sign (Digest next (ch_ChainID c) (ch_Contract c)) = Some sig /\
    (t_Kind tr = KindLockSettle -> checkTiming cfg now c tr = None) /\
    (ch_Signed c !! st_Nonce next = None \/
     ch_Signed c !! st_Nonce next = Some (Digest next (ch_ChainID c) (ch_Contract c))) /\
    cm_commit (n_store n) id (note_proposal now (mkPendingProposal intent tr next sig)
      (Digest next (ch_ChainID c) (ch_Contract c))) = (s', rc) /\
    n' = with_store n s' /\
    r = obind rc (fun _ => Ok (proposalEnvelope c (mkPendingProposal intent tr next sig))).
Proof.
  unfold Propose. destruct (cm_channel (n_store n) id) as [c|] eqn:Ec; [|intros [= <- <-]; left; split; [done|by intros]].
  case_bool_decide as Hk; [intros [= <- <-]; left; by split|].
  destruct (ch_Pending c) as [p|] eqn:Ep.
  { case_bool_decide; intros [= <- <-]; left; (split; [done|]); intros ? ? [= <-]; congruence. }
  destruct (prepare_proposal _ _ _ _ _ _) as [[pnd raw]| |] eqn:EP;
    [|intros [= <- <-]; left; split; [done|by intros]..].
  unfold prepare_proposal in EP. repeat outcome_step. subst. unfold commit_proposal.
  destruct (cm_commit _ _ _) as [s' rc] eqn:EC. intros [= <- <-]. right.
  match goal with H : signFor _ _ _ = Ok _ |- _ => unfold signFor in H; repeat outcome_step; subst end.
  match goal with H : Apply _ _ _ = Ok ?a, H' : sign _ = Some ?b |- _ => exists c, a, b, s', rc end.
  assert (ch_Conflict c = None) by (destruct (ch_Conflict c); [destruct Hk; by eexists|done]).
  split; [done|]. do 5 (split; [done|]). split.
  { intros Hset. rewrite bool_decide_eq_true_2 in E0 by done. by destruct (checkTiming _ _ _ _) as [[? ?]|]. }
  split; [|done]. unfold HasSigned in *. destruct (ch_Signed c !! _) as [dg|] eqn:ES; [right|by left].
  zbool. congruence.
Qed.

(** The record the engine reasons about and the record a commit mutates differ
    only in the quarantine stamp. *)
Lemma propose_commit_keeps (s : S) (id : bytes) (c : Channel) (now : Z) (p : PendingProposal) (raw : bytes) :
  cm_channel s id = Some c -> u_range 64 (st_Nonce (pp_State p)) -> array_ok 32 raw ->
  ch_Signed c !! st_Nonce (pp_State p) = None \/ ch_Signed c !! st_Nonce (pp_State p) = Some raw ->
  commit_keeps_at s id (note_proposal now p raw).
Proof.
  intros Hc Hn Hd Hs c0 c' b Hc0 Hf. rewrite Hc in Hc0. injection Hc0 as <-.
  by destruct (note_proposal_keeps (set_NeedsReconcile b c) c' now p raw Hs Hn Hd Hf).
Qed.

Lemma Propose_safe (cfg : PeerSession) (now : Z) (n n' : Node S) (id intent : bytes) (tr : StateTransition) r :
  well_filed (n_store n) -> Propose sign cfg now n id intent tr = (n', r) -> safe (n_store n) (n_store n').
Proof.
  intros Hw [[-> _]|(c & next & sig & s' & rc & Hc & _ & _ & _ & HA & _ & _ & Hs & HC & -> & _)]%Propose_inv;
    [by apply safe_refl|]. destruct (Apply_nonce _ _ _ _ HA) as [Hn _].
  eapply commit_well_filed; [done| |exact HC]. eapply propose_commit_keeps; [exact Hc| |apply Digest_array|exact Hs].
  cbn. rewrite Hn. apply wrap_u64_range.
Qed.

(** A fresh proposal: signed, recorded, and the only digest remembered at its nonce. *)
Lemma Propose_fresh (cfg : PeerSession) (now : Z) (n n' : Node S) (id intent : bytes) (tr : StateTransition)
    (c : Channel) (m : Message) :
  well_filed (n_store n) -> cm_channel (n_store n) id = Some c -> ch_Pending c = None ->
  Propose sign cfg now n id intent tr = (n', Ok m) ->
  exists c' p, cm_channel (n_store n') id = Some c' /\ ch_Pending c' = Some p /\ pp_Intent p = intent /\
    ch_Conflict c' = None /\ ch_ID c' = id /\ m = proposalEnvelope c' p /\
    st_Nonce (pp_State p) = next_nonce c /\
    sign (Digest (pp_State p) (ch_ChainID c') (ch_Contract c')) = Some (pp_Sig p) /\
    remembered (n_store n') id (st_Nonce (pp_State p)) (Digest (pp_State p) (ch_ChainID c') (ch_Contract c')) /\
    (0 <= st_Nonce (ss_State (ch_Latest c)) < 2 ^ 64 - 1 -> forall d,
       remembered (n_store n) id (st_Nonce (pp_State p)) d ->
       d = Digest (pp_State p) (ch_ChainID c') (ch_Contract c')).
Proof.
  intros Hw Hc Hp [[_ Hno]|(c0 & next & sig & s' & rc & Hc0 & _ & Hk & Hq & HA & Hsig & _ & Hs & HC & -> & HR)]%Propose_inv;
    [by destruct (Hno c m Hc Hp)|].
  rewrite Hc in Hc0. injection Hc0 as <-. destruct rc as [[]| |]; try discriminate HR. injection HR as ->.
  destruct (Apply_nonce _ _ _ _ HA) as [Hn _]. set (raw := Digest next (ch_ChainID c) (ch_Contract c)) in *.
  assert (u_range 64 (st_Nonce next)) as Hr by (rewrite Hn; apply wrap_u64_range).
  pose proof (propose_commit_keeps _ _ _ now (mkPendingProposal intent tr next sig) raw Hc Hr (Digest_array _ _ _) Hs) as Hkp.
  destruct (commit_done _ _ _ _ Hw Hkp HC) as (c1 & c' & b & Hc1 & Hf & Ht & HG & _ & _).
  rewrite Hc in Hc1. injection Hc1 as <-.
  destruct (note_proposal_keeps (set_NeedsReconcile b c) c' now (mkPendingProposal intent tr next sig) raw Hs Hr (Digest_array _ _ _) Hf)
    as (K & L & P & F & V).
  pose proof (rt_id _ _ Ht) as Hi. pose proof (rt_id _ _ (live_typed _ _ _ true Hw Hc)) as Hic. cbn in Hic.
  unfold note_proposal in Hf. injection Hf as Ef.
  eexists. exists (cloneProposal (mkPendingProposal intent tr next sig)). cbn [with_store n_store].
  split; [exact HG|]. cbn. rewrite P. split; [done|]. split; [done|]. rewrite F. cbn. rewrite Hk. split; [done|].
  split; [done|]. rewrite <- Ef. cbn [ch_ChainID ch_Contract set_History set_Signed set_PendingProposal set_NeedsReconcile NotePayment NoteSigned].
  rewrite Digest_clone, Digest_chain. fold raw. split; [unfold proposalEnvelope; cbn; by rewrite encode_clone|].
  split; [done|]. split; [done|]. split.
  - eapply (commit_remembers _ _ _ _ _ _ Hw Hkp HC). intros c1 c2 b2 Hc1 Hf2. rewrite Hc in Hc1. injection Hc1 as <-.
    by destruct (note_proposal_keeps (set_NeedsReconcile b2 c) c2 now (mkPendingProposal intent tr next sig) raw Hs Hr (Digest_array _ _ _) Hf2)
      as (_ & _ & _ & _ & ?).
  - intros Hb d (_ & _ & HM). destruct (HM c (cm_live _ _ _ Hc)) as [Hle|HS].
    + exfalso. rewrite Hn in Hle. unfold next_nonce, wrap_u in Hle. rewrite Z.mod_small in Hle by lia. lia.
    + destruct Hs as [Hs|Hs]; congruence.
Qed.

Lemma HandleAccept_safe (cfg : PeerSession) (now : Z) (n n' : Node S) (channel : string) (b : StateAcceptBody) r :
  well_filed (n_store n) -> HandleAccept cfg now n channel b = (n', r) -> safe (n_store n) (n_store n').
Proof.
  intros Hw. unfold HandleAccept. destruct (parseBytes32 channel) as [id| |]; try (intros [= <- <-]; by apply safe_refl).
  destruct (cm_channel (n_store n) id) as [c|] eqn:Hc; [|intros [= <- <-]; by apply safe_refl].
  destruct (ch_Pending c) as [p|] eqn:Hp; [|destruct (bool_decide _); intros [= <- <-]; by apply safe_refl].
  destruct (negb _); [intros [= <- <-]; by apply safe_refl|].
  destruct (parseSig _) as [theirs| |]; try (intros [= <- <-]; by apply safe_refl).
  destruct (cm_commit _ _ _) as [s' rc] eqn:HC. intros [= <- <-].
  eapply commit_well_filed; [done| |exact HC]. intros c0 c' b0 Hc0 Hf.
  eapply complete_proposal_keeps; [|exact Hf].
  assert (st_Nonce (ss_State (assemble c (pp_State p) (pp_Sig p) (ps_self cfg) theirs)) = st_Nonce (pp_State p)) as ->
    by (unfold assemble; by destruct (IsA _ _)).
  apply (rt_pending _ _ (live_typed _ _ _ true Hw Hc)). unfold pending_nonce. cbn. by rewrite Hp.
Qed.

Lemma HandleReject_safe (now : Z) (n n' : Node S) (channel : string) (b : StateRejectBody) r :
  well_filed (n_store n) -> HandleReject now n channel b = (n', r) -> safe (n_store n) (n_store n').
Proof.
  intros Hw. unfold HandleReject. destruct (parseBytes32 channel) as [id| |]; try (intros [= <- <-]; by apply safe_refl).
  destruct (cm_commit _ _ _) as [s' rc] eqn:HC. intros [= <- <-].
  eapply commit_well_filed; [done| |exact HC]. intros c0 c' b0 _ Hf. by eapply drop_proposal_keeps.
Qed.

Lemma HandleResponse_safe (now : Z) (n n' : Node S) (channel : string) (b : StateResponseBody) r :
  well_filed (n_store n) -> 0 <= sst_Nonce (srs_State b) -> HandleResponse now n channel b = (n', r) ->
  safe (n_store n) (n_store n').
Proof.
  intros Hw Hb. unfold HandleResponse. destruct (parseBytes32 channel) as [id| |]; try (intros [= <- <-]; by apply safe_refl).
  destruct (cm_channel (n_store n) id) as [c|] eqn:Hc; [|intros [= <- <-]; by apply safe_refl].
  destruct (negb _); [intros [= <- <-]; by apply safe_refl|].
  destruct (decodeSignedWire _ _ _) as [theirs| |] eqn:ED; try (intros [= <- <-]; by apply safe_refl).
  assert (st_Nonce (ss_State theirs) = sst_Nonce (srs_State b)) as En.
  { unfold decodeSignedWire in ED. repeat outcome_step. subst. cbn.
    match goal with H : decodeStateWire _ = Ok _ |- _ => unfold decodeStateWire in H; repeat outcome_step; by subst end. }
  destruct (_ <? _); [|destruct (_ <? _); [intros [= <- <-]; by apply safe_refl|destruct (is_ok _);
    [intros [= <- <-]; by apply safe_refl|]]];
    destruct (cm_commit _ _ _) as [s' rc] eqn:HC; intros [= <- <-];
    (eapply commit_well_filed; [done| |exact HC]); intros c0 c' b0 _ Hf.
  - eapply adopt_newer_keeps; [|exact Hf]. lia.
  - by eapply record_conflict_keeps.
Qed.

Lemma HandleConflict_safe (n n' : Node S) (channel : string) (b : ConflictBody) r :
  well_filed (n_store n) -> HandleConflict n channel b = (n', r) -> safe (n_store n) (n_store n').
Proof.
  intros Hw. unfold HandleConflict. destruct (obind _ _) as [[id [theirs ours]]| |]; try (intros [= <- <-]; by apply safe_refl).
  destruct (cm_channel (n_store n) id) as [c|] eqn:Hc; [|intros [= <- <-]; by apply safe_refl].
  destruct (bool_decide _); [intros [= <- <-]; by apply safe_refl|].
  destruct (obind _ _) as [[]| |]; try (intros [= <- <-]; by apply safe_refl).
  destruct (cm_commit _ _ _) as [s' rc] eqn:HC. intros [= <- <-].
  eapply commit_well_filed; [done| |exact HC]. intros c0 c' b0 _ Hf. by eapply record_conflict_keeps.
Qed.

(** [HandlePropose] past its checks, or a reply that changed nothing. *)
Lemma HandlePropose_inv (cfg : PeerSession) (now : Z) (n n' : Node S) (channel : string) (body : StateProposeBody)
    (r : outcome chan_err Message) :
  HandlePropose sign err_text cfg now n channel body = (n', r) ->
  (n' = n /\ forall id c ch b, parseBytes32 channel = Ok id -> cm_channel (n_store n) id = Some c ->
     AppliedAt c (intentOf (spb_Intent body)) = None -> r <> Ok (mkMessage ch (MsgStateAccept b))) \/
  exists id c proposed tr theirSig,
    parseBytes32 channel = Ok id /\ cm_channel (n_store n) id = Some c /\ ch_Conflict c = None /\
    ch_Status c = StatusOpen /\ AppliedAt c (intentOf (spb_Intent body)) = None /\
    decode_proposal err_text body = inl (proposed, tr, theirSig) /\
    Matches tr (Some c) (other_party c (ps_self cfg)) proposed = Ok tt /\
    checkTiming cfg now c tr = None /\
    answer_proposal sign err_text cfg now n id c (intentOf (spb_Intent body)) (spb_Intent body) proposed tr theirSig
      = (n', r).
Proof.
  unfold HandlePropose. destruct (parseBytes32 channel) as [id| |]; [|intros [= <- <-]; left; by split..].
  destruct (cm_channel (n_store n) id) as [c|] eqn:Hc; [|intros [= <- <-]; left; by split].
  case_bool_decide as Hk; [intros [= <- <-]; left; by split|].
  assert (ch_Conflict c = None) as Hk' by (destruct (ch_Conflict c); [destruct Hk; by eexists|done]).
  destruct (Z.eqb_spec (ch_Status c) StatusOpen) as [Ho|]; cbn [negb]; [|intros [= <- <-]; left; by split].
  destruct (AppliedAt c _) as [nonce|] eqn:Ha.
  { destruct (_ =? _); intros [= <- <-]; left; (split; [done|]); intros id0 c0 ch0 b0 Hid Hc0 Ha0; injection Hid as <-; rewrite Hc in Hc0; injection Hc0 as <-; congruence. }
  destruct (decode_proposal _ _) as [[[proposed tr] theirSig]|[code detail]] eqn:HD; [|intros [= <- <-]; left; by split].
  destruct (Matches _ _ _ _) as [[]| |] eqn:HM; [|intros [= <- <-]; left; by split..].
  destruct (checkTiming _ _ _ _) as [[code detail]|] eqn:HT; [intros [= <- <-]; left; by split|].
  intros H. right. by exists id, c, proposed, tr, theirSig.
Qed.

Lemma answer_proposal_inv (cfg : PeerSession) (now : Z) (n n' : Node S) (id : bytes) (c : Channel)
    (intent : bytes) (intentHex : string) (proposed : State) (tr : StateTransition) (theirSig : bytes)
    (r : outcome chan_err Message) :
  answer_proposal sign err_text cfg now n id c intent intentHex proposed tr theirSig = (n', r) ->
  let raw := Digest proposed (ch_ChainID c) (ch_Contract c) in
  (n_store n' = n_store n /\ n_vault n' = (learn_secret tr (n_vault n)).1 /\
     forall ch b, r <> Ok (mkMessage ch (MsgStateAccept b))) \/
  exists mySig s' rc, (learn_secret tr (n_vault n)).2 = Ok tt /\ n_vault n' = (learn_secret tr (n_vault n)).1 /\
    (ch_Signed c !! st_Nonce proposed = None \/ ch_Signed c !! st_Nonce proposed = Some raw) /\
    ch_NeedsReconcile c = false /\ sign raw = Some mySig /\
    cm_commit (n_store n) id (adopt_proposal now intent tr
      (assemble c proposed theirSig (other_party c (ps_self cfg)) mySig) raw) = (s', rc) /\
    n_store n' = s' /\
    r = match rc with
        | Ok _ => match cm_channel s' id with
                  | Some fresh => Ok (acceptEnvelope cfg fresh intentHex (st_Nonce proposed))
                  | None => Panic
                  end
        | Err e => Ok (reject id intentHex (codeFor e) (err_text e))
        | Panic => Panic
        end.
Proof.
  unfold answer_proposal. destruct (learn_secret tr (n_vault n)) as [v' lr]. cbn [fst snd].
  destruct lr as [[]| |]; [|intros [= <- <-]; left; by split..].
  destruct (match HasSigned c (st_Nonce proposed) with Some _ => _ | None => _ end) eqn:ES;
    [intros [= <- <-]; left; by split|].
  destruct (signFor sign c _) as [mySig| |] eqn:EG; [|intros [= <- <-]; left; by split..].
  unfold signFor in EG. repeat outcome_step. subst.
  destruct (cm_commit _ _ _) as [s' rc] eqn:HC. intros [= <- <-]. right. exists mySig, s', rc.
  do 2 (split; [done|]). split.
  { unfold HasSigned in ES. destruct (ch_Signed c !! _); [right|by left]. zbool. congruence. }
  by repeat split.
Qed.

Lemma Matches_nonce (tr : StateTransition) (c : Channel) (p : bytes) (st : State) :
  Matches tr (Some c) p st = Ok tt -> st_Nonce st = next_nonce c /\
    exists want, Apply tr (Some c) p = Ok want /\ same_state want st.
Proof.
  unfold Matches. intros H. outcome_step.
  apply Equal_ok in H. destruct (Apply_nonce _ _ _ _ E) as [Hn _]. split; [|by eexists].
  destruct H as (_ & H & _). congruence.
Qed.

Lemma assemble_state (c : Channel) (st : State) (sig signer other : bytes) :
  ss_State (assemble c st sig signer other) = st.
Proof. unfold assemble. by destruct (IsA _ _). Qed.

Lemma adopt_commit_keeps (s : S) (id : bytes) (now : Z) (intent : bytes) (tr : StateTransition) (ss : SignedState)
    (raw : bytes) :
  u_range 64 (st_Nonce (ss_State ss)) -> array_ok 32 raw -> commit_keeps_at s id (adopt_proposal now intent tr ss raw).
Proof. intros Hn Hd c0 c' b _ Hf. by destruct (adopt_proposal_keeps _ _ _ _ _ _ _ Hn Hd Hf). Qed.

Lemma HandlePropose_safe (cfg : PeerSession) (now : Z) (n n' : Node S) (channel : string) (body : StateProposeBody) r :
  well_filed (n_store n) -> HandlePropose sign err_text cfg now n channel body = (n', r) ->
  safe (n_store n) (n_store n').
Proof.
  intros Hw [[-> _]|(id & c & st & tr & sg & _ & Hc & _ & _ & _ & _ & HM & _ & HA)]%HandlePropose_inv; [by apply safe_refl|].
  apply answer_proposal_inv in HA as [[-> _]|(mySig & s' & rc & _ & _ & _ & _ & _ & HC & -> & _)]; [by apply safe_refl|].
  eapply commit_well_filed; [done| |exact HC]. apply adopt_commit_keeps; [|apply Digest_array].
  rewrite assemble_state. destruct (Matches_nonce _ _ _ _ HM) as [-> _]. apply wrap_u64_range.
Qed.

(** A countersignature: exactly the transition's state, persisted, at the next
    nonce, and the only digest remembered there. *)
Lemma HandlePropose_fresh (cfg : PeerSession) (now : Z) (n n' : Node S) (channel : string) (body : StateProposeBody)
    (id : bytes) (c : Channel) (b : StateAcceptBody) (ch' : string) :
  well_filed (n_store n) -> parseBytes32 channel = Ok id -> cm_channel (n_store n) id = Some c ->
  AppliedAt c (intentOf (spb_Intent body)) = None ->
  HandlePropose sign err_text cfg now n channel body = (n', Ok (mkMessage ch' (MsgStateAccept b))) ->
  exists c' tr want mySig theirSig, let ss := ch_Latest c' in let st := ss_State ss in
    let d := Digest st (ch_ChainID c') (ch_Contract c') in
    cm_channel (n_store n') id = Some c' /\ decode_proposal err_text body = inl (st, tr, theirSig) /\
    Apply tr (Some c) (other_party c (ps_self cfg)) = Ok want /\ same_state want st /\
    checkTiming cfg now c tr = None /\ ch_NeedsReconcile c = false /\ ch_Conflict c = None /\
    (learn_secret tr (n_vault n)).2 = Ok tt /\ n_vault n' = (learn_secret tr (n_vault n)).1 /\
    sign d = Some mySig /\ ss = assemble c st theirSig (other_party c (ps_self cfg)) mySig /\
    (exists b0, acceptable (set_NeedsReconcile b0 c) ss) /\
    ch_Applied c' !! intentOf (spb_Intent body) = Some (st_Nonce st) /\
    mkMessage ch' (MsgStateAccept b) = acceptEnvelope cfg c' (spb_Intent body) (st_Nonce st) /\
    st_Nonce st = next_nonce c /\
    remembered (n_store n') id (st_Nonce st) d /\
    (0 <= st_Nonce (ss_State (ch_Latest c)) < 2 ^ 64 - 1 -> forall d0,
       remembered (n_store n) id (st_Nonce st) d0 -> d0 = d) /\
    ch_Conflict c' = None /\ ch_Status c' = StatusOpen.
Proof.
  intros Hw Hid Hc Ha [[_ Hno]|(id0 & c0 & st & tr & sg & Hid0 & Hc0 & Hk & Ho & _ & HD & HM & HT & HA)]%HandlePropose_inv;
    [by destruct (Hno id c ch' b Hid Hc Ha)|].
  rewrite Hid in Hid0. injection Hid0 as <-. rewrite Hc in Hc0. injection Hc0 as <-.
  apply answer_proposal_inv in HA as [(_ & _ & Hno)|(mySig & s' & rc & HL & HV & Hs & Hq & Hsig & HC & Es & HR)];
    [by destruct (Hno ch' b)|].
  destruct rc as [[]| |]; [|discriminate HR..]. subst s'.
  destruct (Matches_nonce _ _ _ _ HM) as [Hn (want & HW & HS)].
  set (raw := Digest st (ch_ChainID c) (ch_Contract c)) in *.
  set (ss := assemble c st sg (other_party c (ps_self cfg)) mySig) in *.
  assert (ss_State ss = st) as Est by apply assemble_state.
  assert (u_range 64 (st_Nonce (ss_State ss))) as Hr by (rewrite Est, Hn; apply wrap_u64_range).
  pose proof (adopt_commit_keeps (n_store n) id now (intentOf (spb_Intent body)) tr ss raw Hr (Digest_array _ _ _)) as Hkp.
  destruct (commit_done _ _ _ _ Hw Hkp HC) as (c1 & c' & b1 & Hc1 & Hf & Ht & HG & _ & _).
  rewrite Hc in Hc1. injection Hc1 as <-. rewrite HG in HR. injection HR as HR1 HR2.
  destruct (adopt_proposal_keeps _ _ _ _ _ _ _ Hr (Digest_array _ _ _) Hf) as (K & L & A & AP).
  assert (ch_ChainID c' = ch_ChainID c /\ ch_Contract c' = ch_Contract c /\ ch_Conflict c' = ch_Conflict c /\
    ch_Status c' = ch_Status c) as (E1 & E2 & E3 & E4).
  { unfold adopt_proposal in Hf. rewrite A in Hf. cbn [obind] in Hf. injection Hf as <-. done. }
  eexists. exists tr, want, mySig, sg. cbn zeta. split; [exact HG|].
  cbn [set_NeedsReconcile Clone ch_Latest ch_ChainID ch_Contract ch_Applied ch_Conflict ch_Status].
  rewrite E3, E4.
  assert (cloneSigned (ch_Latest c') = ss) as -> by (rewrite L; by destruct ss). rewrite Est, Digest_chain, E1, E2. fold raw.
  do 9 (split; [done|]). split; [done|]. split; [by exists b1; apply Accept_iff in A as [? _]|].
  split; [by rewrite AP, Est|]. split; [by rewrite HR1, HR2|]. split; [done|]. split; [|split; [|by rewrite Hk]].
  - rewrite <- Est. eapply (commit_remembers _ _ _ _ _ _ Hw Hkp HC). intros c1 c2 b2 Hc1 Hf2.
    destruct (adopt_proposal_keeps _ _ _ _ _ _ _ Hr (Digest_array _ _ _) Hf2) as (_ & L2 & _). left. rewrite L2. lia.
  - intros Hb d (_ & _ & HM'). destruct (HM' c (cm_live _ _ _ Hc)) as [Hle|HS'].
    + exfalso. rewrite Hn in Hle. unfold next_nonce, wrap_u in Hle. rewrite Z.mod_small in Hle by lia. lia.
    + destruct Hs as [Hs|Hs]; congruence.
Qed.
End Handlers.
