(* ===== verification/ChannelProtocol.v ===== *)
(** * Payment channels: the protocol's promises

    What [PeerSession] promises a caller: persist before sending, identical
    retries, exact countersignatures, quarantine, conflicts, timing - and where
    the code falls short of what it says. *)
From S2P Require Import Prelude.
From S2P Require Import GoBytes.
From S2P Require Import ChannelTypes.
From S2P Require Import ChannelCrypto.
From S2P Require Import ChannelState.
From S2P Require Import ChannelTransition.
From S2P Require Import ChannelHistory.
From S2P Require Import ChannelWire.
From S2P Require Import ChannelCommitter.
From S2P Require Import ChannelPreimages.
From S2P Require Import ChannelStore.
From S2P Require Import ChannelSession.
From S2P Require Import ChannelSafety.

(** ** Timing *)

Definition lock_of (c : Channel) (id : bytes) : option HTLC :=
  findLock (st_Pending (ss_State (ch_Latest c))) id ≫= (st_Pending (ss_State (ch_Latest c)) !!.).

Lemma settle_timing (cfg : PeerSession) (now : Z) (c : Channel) (tr : StateTransition) :
  t_Kind tr = KindLockSettle -> - 2 ^ 63 <= now + ps_skew cfg < 2 ^ 63 ->
  checkTiming cfg now c tr = None <-> exists h, lock_of c (t_LockID tr) = Some h /\ now + ps_skew cfg < h_Expiry h.
Proof.
  intros Hk Hn. unfold checkTiming, lock_of. rewrite Hk. destruct (_ ≫= _) as [h|]; [|split; [discriminate|by intros (h & ? & _)]].
  rewrite (wrap_s_small 64) by done. destruct (Z.leb_spec (h_Expiry h) (now + ps_skew cfg)); split; try discriminate.
  - intros (h' & [= <-] & ?). lia.
  - intros _. by exists h.
  - done.
Qed.

Lemma refund_timing (cfg : PeerSession) (now : Z) (c : Channel) (tr : StateTransition) :
  t_Kind tr = KindLockRefund -> - 2 ^ 63 <= now - ps_skew cfg < 2 ^ 63 ->
  checkTiming cfg now c tr = None <-> exists h, lock_of c (t_LockID tr) = Some h /\ h_Expiry h <= now - ps_skew cfg.
Proof.
  intros Hk Hn. unfold checkTiming, lock_of. rewrite Hk. destruct (_ ≫= _) as [h|]; [|split; [discriminate|by intros (h & ? & _)]].
  rewrite (wrap_s_small 64) by done. destruct (Z.ltb_spec (now - ps_skew cfg) (h_Expiry h)); split; try discriminate.
  - intros (h' & [= <-] & ?). lia.
  - intros _. by exists h.
  - done.
Qed.

Lemma decodeSignedWire_nonce (w : storedState) (a b : string) (ss : SignedState) :
  decodeSignedWire w a b = Ok ss -> st_Nonce (ss_State ss) = sst_Nonce w.
Proof.
  unfold decodeSignedWire. intros H. repeat outcome_step. subst. cbn.
  match goal with H : decodeStateWire _ = Ok _ |- _ => unfold decodeStateWire in H; repeat outcome_step; by subst end.
Qed.

Lemma adopt_newer_accepts `{ChannelCrypto} (c c' : Channel) (now : Z) (ss : SignedState) :
  adopt_newer now ss c = Ok c' ->
  acceptable c ss /\ forall p, ch_Pending c' = Some p -> st_Nonce (ss_State ss) < st_Nonce (pp_State p).
Proof.
  unfold adopt_newer. intros HA. repeat outcome_step. apply Accept_iff in E as [HE _]. split; [done|].
  subst c'. destruct (ch_Pending a) as [p|] eqn:Hp.
  - destruct (Z.leb_spec (st_Nonce (pp_State p)) (st_Nonce (ss_State ss))); [done|].
    intros q. rewrite Hp. by intros [= <-].
  - intros q. by rewrite Hp.
Qed.

(** After a settlement taught the vault its secret, the vault knows it. *)
Lemma learn_secret_known `{ChannelCrypto} (tr : StateTransition) (v : PreimageVault) :
  t_Kind tr = KindLockSettle -> (learn_secret tr (Some v)).2 = Ok tt ->
  exists v', (learn_secret tr (Some v)).1 = Some v' /\ Lookup v' (keccak [t_Preimage tr]) = Some (t_Preimage tr).
Proof.
  intros Hk. unfold learn_secret. rewrite bool_decide_eq_true_2 by done.
  destruct (Learn (t_Preimage tr) v) as [v' r] eqn:EL. cbn. intros ->. exists v'. split; [done|].
  unfold Learn in EL. case_bool_decide as Hkn; [by injection EL as <-|].
  destruct (persist_vault _ _) as [v1 ok]. destruct ok; [|discriminate]. injection EL as <-. unfold Lookup. cbn.
  apply lookup_insert_eq.
Qed.

Section Protocol.
Context `{Crypto : ChannelCrypto} `{!ChannelCryptoLaws Crypto}.
Context {S : Type} `{Com : Committer S} `{!CommitterLaws S}.
Context (sign : bytes -> option bytes) (err_text : chan_err -> string) (cfg : PeerSession).

(** The channel a node would work on. *)
Definition channel_of (n : Node S) (id : bytes) : option Channel := cm_channel (n_store n) id.

(** Persist before transmitting: when [Propose] hands out a new proposal, the
    store already holds it as pending under its intent, the message is built
    from that record, its signature is this node's over the proposed state, and
    no restart can lose the memory of having signed it. *)
Theorem Propose_persists_before_sending (now : Z) (n n' : Node S) (id intent : bytes) (tr : StateTransition)
    (c : Channel) (m : Message) (Hw : well_filed (n_store n)) (Hc : channel_of n id = Some c)
    (Hp : ch_Pending c = None) (HP : Propose sign cfg now n id intent tr = (n', Ok m)) :
  exists c' p, channel_of n' id = Some c' /\ ch_Pending c' = Some p /\ pp_Intent p = intent /\
    m = proposalEnvelope c' p /\ st_Nonce (pp_State p) = next_nonce c /\
    let d := Digest (pp_State p) (ch_ChainID c') (ch_Contract c') in
    sign d = Some (pp_Sig p) /\ remembered (n_store n') id (st_Nonce (pp_State p)) d.
Proof.
  unfold channel_of in *.
  destruct (Propose_fresh sign cfg now n n' id intent tr c m Hw Hc Hp HP)
    as (c' & p & H1 & H2 & H3 & _ & _ & H4 & H5 & H6 & H7 & _). eauto 10.
Qed.

(** A retry is a retry: after a successful [Propose], proposing the same intent
    again, whatever the transition and whenever, returns the identical message
    and changes nothing. *)
Theorem Propose_retry_identical (now now' : Z) (n n' : Node S) (id intent : bytes) (tr tr' : StateTransition)
    (m : Message) (Hw : well_filed (n_store n)) (HP : Propose sign cfg now n id intent tr = (n', Ok m)) :
  Propose sign cfg now' n' id intent tr' = (n', Ok m).
Proof.
  destruct (cm_channel (n_store n) id) as [c|] eqn:Hc; [|by unfold Propose in HP; rewrite Hc in HP].
  destruct (ch_Pending c) as [p|] eqn:Hp.
  - unfold Propose in *. rewrite Hc, Hp in HP.
    destruct (bool_decide (is_Some (ch_Conflict c))) eqn:Hk; [done|].
    destruct (bool_decide (pp_Intent p = intent)) eqn:Hi; [|done]. injection HP as <- <-.
    by rewrite Hc, Hk, Hp, Hi.
  - destruct (Propose_fresh sign cfg now n n' id intent tr c m Hw Hc Hp HP)
      as (c' & p & H1 & H2 & H3 & H4 & _ & -> & _).
    unfold Propose. rewrite H1, H4, H2. by rewrite bool_decide_eq_false_2, bool_decide_eq_true_2 by (done || by intros []).
Qed.

(** A countersignature is exact and already on disk: when a new proposal is
    answered with STATE_ACCEPT, the store holds as latest a state signed by both
    parties, acceptable to the state machine, equal in everything but the domain
    to what the named transition produces for the proposer, with the intent
    marked applied, and the reply carries this node's signature of that record. *)
Theorem HandlePropose_accept_exact (now : Z) (n n' : Node S) (channel ch' : string) (body : StateProposeBody)
    (id : bytes) (c : Channel) (b : StateAcceptBody) (Hw : well_filed (n_store n))
    (Hid : parseBytes32 channel = Ok id) (Hc : channel_of n id = Some c)
    (Ha : AppliedAt c (intentOf (spb_Intent body)) = None)
    (HP : HandlePropose sign err_text cfg now n channel body = (n', Ok (mkMessage ch' (MsgStateAccept b)))) :
  exists c' tr want b0, channel_of n' id = Some c' /\
    acceptable (set_NeedsReconcile b0 c) (ch_Latest c') /\
    Apply tr (Some c) (other_party c (ps_self cfg)) = Ok want /\ same_state want (ss_State (ch_Latest c')) /\
    AppliedAt c' (intentOf (spb_Intent body)) = Some (st_Nonce (ss_State (ch_Latest c'))) /\
    remembered (n_store n') id (next_nonce c) (Digest (ss_State (ch_Latest c')) (ch_ChainID c') (ch_Contract c')) /\
    mkMessage ch' (MsgStateAccept b) = acceptEnvelope cfg c' (spb_Intent body) (next_nonce c).
Proof.
  unfold channel_of in *.
  destruct (HandlePropose_fresh sign err_text cfg now n n' channel body id c b ch' Hw Hid Hc Ha HP)
    as (c' & tr & want & g1 & g2 & H1 & H). cbn zeta in H.
  destruct H as (_ & H2 & H3 & _ & _ & _ & _ & _ & _ & _ & (b0 & H4) & H5 & H6 & H7 & H8 & _).
  exists c', tr, want, b0. unfold AppliedAt. rewrite <- H7. auto 10.
Qed.

(** A new proposal that is answered with STATE_ACCEPT passed the clock rule. *)
Lemma accepted_in_time (now : Z) (n n' : Node S) (channel ch' : string) (body : StateProposeBody) (id : bytes) (c : Channel) (b : StateAcceptBody)
    (st : State) (tr : StateTransition) (sig : bytes) : well_filed (n_store n) -> parseBytes32 channel = Ok id -> channel_of n id = Some c ->
  AppliedAt c (intentOf (spb_Intent body)) = None -> HandlePropose sign err_text cfg now n channel body = (n', Ok (mkMessage ch' (MsgStateAccept b))) ->
  decode_proposal err_text body = inl (st, tr, sig) -> checkTiming cfg now c tr = None.
Proof.
  unfold channel_of. intros Hw Hid Hc Ha HP HD. destruct (HandlePropose_fresh sign err_text cfg now n n' channel body id c b ch' Hw Hid Hc Ha HP)
    as (c' & tr0 & want & g1 & g2 & H1 & H). cbn zeta in H. destruct H as (HD' & _ & _ & HT & _). rewrite HD in HD'. by injection HD' as _ <- _.
Qed.

(** The secret first: when the proposal settled a lock and this node has a
    preimage vault, the vault knows the revealed secret by the time the
    acceptance leaves. *)
Theorem settlement_learns_secret (now : Z) (n n' : Node S) (channel ch' : string) (body : StateProposeBody)
    (id : bytes) (c : Channel) (b : StateAcceptBody) (st : State) (tr : StateTransition) (sig : bytes) (v : PreimageVault)
    (Hw : well_filed (n_store n))
    (Hid : parseBytes32 channel = Ok id) (Hc : channel_of n id = Some c)
    (Ha : AppliedAt c (intentOf (spb_Intent body)) = None)
    (HP : HandlePropose sign err_text cfg now n channel body = (n', Ok (mkMessage ch' (MsgStateAccept b))))
    (HD : decode_proposal err_text body = inl (st, tr, sig)) (Hk : t_Kind tr = KindLockSettle)
    (Hv : n_vault n = Some v) :
  exists v', n_vault n' = Some v' /\ Lookup v' (keccak [t_Preimage tr]) = Some (t_Preimage tr).
Proof.
  unfold channel_of in *.
  destruct (HandlePropose_fresh sign err_text cfg now n n' channel body id c b ch' Hw Hid Hc Ha HP)
    as (c' & tr0 & want & g1 & g2 & H1 & H). cbn zeta in H.
  destruct H as (HD' & _ & _ & _ & _ & _ & HL & HV & _). rewrite HD in HD'. injection HD' as _ <- _.
  rewrite Hv in HL, HV. destruct (learn_secret_known tr v Hk HL) as (v' & E & HK). exists v'. by rewrite HV.
Qed.

(** An answered intent is answered the same way again: after the acceptance of a
    proposal, the same proposal arriving again gets the identical reply and
    changes nothing, so a payment is never applied twice. *)
Theorem HandlePropose_idempotent (now now' : Z) (n n' : Node S) (channel ch' : string) (body : StateProposeBody)
    (id : bytes) (c : Channel) (b : StateAcceptBody) (Hw : well_filed (n_store n))
    (Hid : parseBytes32 channel = Ok id) (Hc : channel_of n id = Some c)
    (Ha : AppliedAt c (intentOf (spb_Intent body)) = None)
    (HP : HandlePropose sign err_text cfg now n channel body = (n', Ok (mkMessage ch' (MsgStateAccept b)))) :
  HandlePropose sign err_text cfg now' n' channel body = (n', Ok (mkMessage ch' (MsgStateAccept b))).
Proof.
  unfold channel_of in *.
  destruct (HandlePropose_fresh sign err_text cfg now n n' channel body id c b ch' Hw Hid Hc Ha HP)
    as (c' & tr & want & g1 & g2 & H1 & H). cbn zeta in H.
  destruct H as (_ & _ & _ & _ & _ & _ & _ & _ & _ & _ & (b0 & H4) & H5 & H6 & _ & _ & _ & Hk & Ho).
  unfold HandlePropose. rewrite Hid, H1. rewrite bool_decide_eq_false_2 by (rewrite Hk; by intros []).
  rewrite Ho. change (negb (StatusOpen =? StatusOpen)) with false. cbv iota. unfold AppliedAt. rewrite H5, Z.eqb_refl.
  by rewrite H6.
Qed.

(** A quarantined channel signs nothing: until a channel restored from a backup
    is reconciled, no new proposal is made and no new proposal is countersigned,
    and its record is left alone. *)
Theorem quarantine_signs_nothing (now : Z) (n : Node S) (id intent : bytes) (tr : StateTransition)
    (channel : string) (body : StateProposeBody) (c : Channel)
    (Hc : cm_channel (n_store n) id = Some c) (Hq : ch_NeedsReconcile c = true) (Hp : ch_Pending c = None)
    (Hid : parseBytes32 channel = Ok id) (Ha : AppliedAt c (intentOf (spb_Intent body)) = None) :
  (forall m, (Propose sign cfg now n id intent tr).2 <> Ok m) /\ (Propose sign cfg now n id intent tr).1 = n /\
  (forall ch b, (HandlePropose sign err_text cfg now n channel body).2 <> Ok (mkMessage ch (MsgStateAccept b))) /\
  n_store (HandlePropose sign err_text cfg now n channel body).1 = n_store n.
Proof.
  destruct (Propose sign cfg now n id intent tr) as [n1 r1] eqn:E1.
  destruct (HandlePropose sign err_text cfg now n channel body) as [n2 r2] eqn:E2. cbn.
  apply Propose_inv in E1 as [[-> H]|(c0 & ? & ? & ? & ? & Hc0 & _ & _ & Hq0 & _)];
    [|rewrite Hc in Hc0; injection Hc0 as <-; congruence].
  apply HandlePropose_inv in E2 as [[-> H2]|(id0 & c0 & st & tr0 & sg & Hid0 & Hc0 & _ & _ & _ & _ & _ & _ & E2)].
  - split; [by intros m; apply (H c)|]. split; [done|]. split; [|done]. intros ch b. by apply (H2 id c).
  - rewrite Hid in Hid0. injection Hid0 as <-. rewrite Hc in Hc0. injection Hc0 as <-.
    apply answer_proposal_inv in E2 as [(HS & _ & H2)|(? & ? & ? & _ & _ & _ & Hq0 & _)]; [|congruence].
    split; [by intros m; apply (H c)|]. by split.
Qed.

(** A stopped channel stays quiet: with a conflict recorded, every proposal fails
    and every incoming proposal is refused as conflicted, with no effect. *)
Theorem conflict_stops_channel (now : Z) (n : Node S) (id intent : bytes) (tr : StateTransition)
    (channel : string) (body : StateProposeBody) (c : Channel)
    (Hc : channel_of n id = Some c) (Hk : is_Some (ch_Conflict c)) (Hid : parseBytes32 channel = Ok id) :
  Propose sign cfg now n id intent tr = (n, Err ErrConflicted) /\
  HandlePropose sign err_text cfg now n channel body =
    (n, Ok (reject id (spb_Intent body) RejectConflicted "channel stopped after a conflict")) /\
  Resume n id = Err ErrConflicted.
Proof.
  unfold channel_of in *.
  unfold Propose, HandlePropose, Resume. rewrite Hid, Hc. cbn [of_option obind].
  rewrite !(bool_decide_eq_true_2 (is_Some (ch_Conflict c))) by done. done.
Qed.

(** Resynchronisation only moves forward: a peer's state is adopted only when its
    nonce is strictly higher and the whole state machine accepts it; a lower nonce,
    an absent state or an equal one changes nothing. *)
Theorem HandleResponse_moves_forward (now : Z) (n n' : Node S) (channel : string) (body : StateResponseBody)
    (id : bytes) (c : Channel) (r : outcome chan_err ResyncOutcome) (Hw : well_filed (n_store n))
    (Hn : 0 <= sst_Nonce (srs_State body))
    (Hid : parseBytes32 channel = Ok id) (Hc : channel_of n id = Some c)
    (HR : HandleResponse now n channel body = (n', r)) :
  match r with
  | Ok ResyncAdopted => exists c' b0, channel_of n' id = Some c' /\
      acceptable (set_NeedsReconcile b0 c) (ch_Latest c') /\
      st_Nonce (ss_State (ch_Latest c)) < st_Nonce (ss_State (ch_Latest c')) /\
      (forall p, ch_Pending c' = Some p -> st_Nonce (ss_State (ch_Latest c')) < st_Nonce (pp_State p))
  | Ok ResyncConflict => exists c', channel_of n' id = Some c' /\ ch_Latest c' = ch_Latest c /\
      is_Some (ch_Conflict c')
  | Ok _ => n' = n
  | _ => channel_of n' id = Some c
  end.
Proof.
  unfold channel_of in *.
  unfold HandleResponse in HR. rewrite Hid, Hc in HR. destruct (negb _); [by injection HR as <- <-|].
  destruct (decodeSignedWire _ _ _) as [theirs| |] eqn:ED; try (by injection HR as <- <-).
  assert (st_Nonce (ss_State theirs) = sst_Nonce (srs_State body)) as En by (by eapply decodeSignedWire_nonce).
  assert (0 <= st_Nonce (ss_State theirs)) as H0 by lia.
  destruct (Z.ltb_spec (st_Nonce (ss_State (ch_Latest c))) (st_Nonce (ss_State theirs))) as [Hlt|Hge].
  - destruct (cm_commit _ _ _) as [s' rc] eqn:HC. injection HR as <- <-. cbn.
    assert (commit_keeps_at (n_store n) id (adopt_newer now theirs)) as Hkp.
    { intros c0 c1 b0 _ Hf. by destruct (adopt_newer_keeps _ _ _ _ H0 Hf). }
    destruct rc as [[]|e|]; cbn [obind].
    + destruct (commit_done _ _ _ _ Hw Hkp HC) as (c0 & c' & b & Hc0 & Hf & _ & HG & _).
      rewrite Hc in Hc0. injection Hc0 as <-. destruct (adopt_newer_keeps _ _ _ _ H0 Hf) as [_ L].
      eexists. exists b. split; [exact HG|].
      cbn [set_NeedsReconcile Clone ch_Latest ch_Pending].
      assert (cloneSigned (ch_Latest c') = theirs) as -> by (rewrite L; by destruct theirs).
      pose proof (adopt_newer_accepts _ _ _ _ Hf) as [HA HP].
      split; [exact HA|]. split; [exact Hlt|].
      intros p Hp. destruct (ch_Pending c') as [p0|]; [|done]. cbn in Hp. injection Hp as <-. cbn. by apply HP.
    + destruct (cm_commit_failed _ _ _ _ _ HC) as [HF _]; [done|]. by rewrite HF.
    + destruct (cm_commit_failed _ _ _ _ _ HC) as [HF _]; [done|]. by rewrite HF.
  - destruct (_ <? _); [by injection HR as <- <-|]. destruct (is_ok _); [by injection HR as <- <-|].
    destruct (cm_commit _ _ _) as [s' rc] eqn:HC. injection HR as <- <-. cbn.
    assert (commit_keeps_at (n_store n) id (record_conflict (st_Nonce (ss_State theirs)) (ch_Latest c) theirs)) as Hkp.
    { intros c0 c1 b0 _ Hf. by destruct (record_conflict_keeps _ _ _ _ _ Hf). }
    destruct rc as [[]|e|]; cbn [obind].
    + destruct (commit_done _ _ _ _ Hw Hkp HC) as (c0 & c' & b & Hc0 & Hf & _ & HG & _).
      rewrite Hc in Hc0. injection Hc0 as <-. injection Hf as <-. eexists. split; [exact HG|]. cbn.
      split; [by destruct (ch_Latest c)|by eexists].
    + destruct (cm_commit_failed _ _ _ _ _ HC) as [HF _]; [done|]. by rewrite HF.
    + destruct (cm_commit_failed _ _ _ _ _ HC) as [HF _]; [done|]. by rewrite HF.
Qed.
End Protocol.

Section Overlap.
Context `{Crypto : ChannelCrypto} `{!ChannelCryptoLaws Crypto}.

(** One node's answer with STATE_ACCEPT, at its clock reading [an_now], to a proposal it had not
    applied before, that decodes to the transition [an_tr]. *)
Record answer {S : Type} `{Committer S} (sign : bytes -> option bytes) (err_text : chan_err -> string) (cfg : PeerSession)
    (now : Z) (c : Channel) (tr : StateTransition) : Prop := mkAnswer {
  an_accepts : exists (n n' : Node S) channel ch' body b id st sig, well_filed (n_store n) /\ parseBytes32 channel = Ok id /\ channel_of n id = Some c /\
    AppliedAt c (intentOf (spb_Intent body)) = None /\ decode_proposal err_text body = inl (st, tr, sig) /\
    HandlePropose sign err_text cfg now n channel body = (n', Ok (mkMessage ch' (MsgStateAccept b)))
}.

Lemma answer_in_time {S : Type} `{Com : Committer S} `{!CommitterLaws S} (sign : bytes -> option bytes) (err_text : chan_err -> string) (cfg : PeerSession)
    (now : Z) (c : Channel) (tr : StateTransition) : answer (S := S) sign err_text cfg now c tr -> checkTiming cfg now c tr = None.
Proof.
  intros [(n & n' & channel & ch' & body & b & id & st & sig & Hw & Hid & Hc & Ha & HD & HP)].
  exact (accepted_in_time sign err_text cfg now n n' channel ch' body id c b st tr sig Hw Hid Hc Ha HP HD).
Qed.

(** C7. A lock is never both settleable and refundable: when one node has answered a new
    LOCK_SETTLE proposal with STATE_ACCEPT and a node - the same or the peer - a new LOCK_REFUND
    proposal, each found the lock it names in its own latest state, the first before its expiry
    and the second after it by more than their clock skews, so that when the two locks have one
    expiry - as two records of one lock do - the two answers lie more than both skews apart.  A proposal already applied is
    answered again at any time.  For clock readings whose sum with the skew fits an [int64]. *)
Theorem settle_and_refund_never_overlap {S1 S2 : Type} `{Com1 : Committer S1} `{!CommitterLaws S1} `{Com2 : Committer S2} `{!CommitterLaws S2}
    (sign1 sign2 : bytes -> option bytes) (text1 text2 : chan_err -> string) (cfg1 cfg2 : PeerSession) (now1 now2 : Z) (c1 c2 : Channel) (t1 t2 : StateTransition)
    (Hs : t_Kind t1 = KindLockSettle) (Hr : t_Kind t2 = KindLockRefund)
    (Hb1 : - 2 ^ 63 <= now1 + ps_skew cfg1 < 2 ^ 63) (Hb2 : - 2 ^ 63 <= now2 - ps_skew cfg2 < 2 ^ 63)
    (H1 : answer (S := S1) sign1 text1 cfg1 now1 c1 t1) (H2 : answer (S := S2) sign2 text2 cfg2 now2 c2 t2) :
  exists h1 h2, lock_of c1 (t_LockID t1) = Some h1 /\ lock_of c2 (t_LockID t2) = Some h2 /\
    now1 + ps_skew cfg1 < h_Expiry h1 /\ h_Expiry h2 <= now2 - ps_skew cfg2 /\
    (h_Expiry h1 = h_Expiry h2 -> now1 + ps_skew cfg1 + ps_skew cfg2 < now2).
Proof.
  apply answer_in_time in H1. apply answer_in_time in H2.
  apply settle_timing in H1 as (h1 & E1 & ?); [|done..]. apply refund_timing in H2 as (h2 & E2 & ?); [|done..].
  exists h1, h2. repeat split; try done. lia.
Qed.
End Overlap.

(** ** Conflicts *)

Section Conflicts.
Context `{Crypto : ChannelCrypto} {S : Type} `{Com : Committer S} `{!CommitterLaws S}.

(** Evidence that a conflict is real. *)
Definition double_signed (c : Channel) (x y : SignedState) : Prop :=
  verifyBothParties c x = Ok tt /\ verifyBothParties c y = Ok tt /\
  st_Nonce (ss_State x) = st_Nonce (ss_State y) /\ ~ same_state (ss_State x) (ss_State y).

(** A CONFLICT message stops a channel only by demonstrating one: if it changed
    anything, it carried two different states at one nonce, each signed by both
    parties of the channel. *)
Theorem HandleConflict_needs_evidence (n n' : Node S) (channel : string) (id : bytes) (c : Channel)
    (body : ConflictBody) (r : outcome chan_err bool)
    (Hid : parseBytes32 channel = Ok id) (Hc : cm_channel (n_store n) id = Some c)
    (HR : HandleConflict n channel body = (n', r)) :
  n' = n \/ exists theirs ours, decode_evidence body = Ok (theirs, ours) /\ double_signed c theirs ours.
Proof.
  unfold HandleConflict in HR. rewrite Hid in HR. cbn [obind] in HR.
  destruct (decode_evidence body) as [[theirs ours]| |] eqn:ED; cbn [obind] in HR; try (left; by injection HR as <- _).
  rewrite Hc in HR. destruct (bool_decide _); [left; by injection HR as <- _|].
  destruct (verifyBothParties c theirs) as [[]| |] eqn:V1; cbn [obind] in HR; try (left; by injection HR as <- _).
  destruct (verifyBothParties c ours) as [[]| |] eqn:V2; try (left; by injection HR as <- _).
  right. exists theirs, ours. split; [done|]. unfold decode_evidence in ED. repeat outcome_step. simplify_eq.
  zbool. repeat split; [done..|]. intros HS%Equal_ok. by rewrite HS in *.
Qed.
End Conflicts.

Lemma Store_commit_ok (s : Store) (id : bytes) (live c' : Channel) (f : Channel -> outcome chan_err Channel) :
  s_io s = [] -> s_channels s !! id = Some live -> f (Clone live) = Ok c' ->
  exists s', cm_commit s id f = (s', Ok tt) /\ s_io s' = [] /\ s_channels s' !! id = Some c'.
Proof.
  intros Hio Hl Hf. cbn. unfold Update. rewrite Hl, Hf. unfold persist. rewrite Hio. cbn.
  eexists. split; [done|]. split; [done|]. cbn. apply lookup_insert_eq.
Qed.

Section StoreFindings.
Context `{Crypto : ChannelCrypto} (sign : bytes -> option bytes) (cfg : PeerSession).

(** The body in which a peer reports a state. *)
Definition report (st : State) (sigA sigB : bytes) : StateResponseBody :=
  mkResponse true (encodeStateWire st) (hex_encode sigA) (hex_encode sigB).

(** A STATE_RESPONSE needs no evidence to stop a channel: a peer's state at the
    current nonce that differs from ours records a conflict whatever its
    signatures are, empty ones included. *)
Theorem HandleResponse_trusts_unsigned_conflict (now : Z) (n : Node Store) (id sigA sigB : bytes) (live : Channel)
    (st : State) (Hid : array_ok 32 id) (Hio : s_io (n_store n) = []) (Hl : s_channels (n_store n) !! id = Some live)
    (He : encodable st) (Hb : bytes_ok sigA /\ bytes_ok sigB)
    (Hn : st_Nonce st = st_Nonce (ss_State (ch_Latest live)))
    (Hd : orZero (st_BalanceA st) <> orZero (st_BalanceA (ss_State (ch_Latest live)))) :
  exists n' c', HandleResponse now n (hex_encode id)
      (report st sigA sigB) = (n', Ok ResyncConflict) /\
    Get (n_store n') id = Some c' /\ is_Some (ch_Conflict c').
Proof.
  unfold report, HandleResponse. rewrite parseBytes32_encode by done. cbn [cm_channel Store_Committer].
  destruct (Get_live _ _ _ Hl) as [-> _]. cbn [srs_Have srs_State srs_SigA srs_SigB negb].
  assert (decodeSignedWire (encodeStateWire st) (hex_encode sigA) (hex_encode sigB) =
    Ok (norm_signed (mkSignedState st sigA sigB))) as ->
    by (apply (decode_signed_wire_encode (mkSignedState st sigA sigB)); split; [done|exact Hb]).
  cbn [norm_signed ss_State set_NeedsReconcile Clone ch_Latest cloneSigned norm_state st_Nonce].
  rewrite Hn, Z.ltb_irrefl.
  assert (is_ok (Equal (ss_State (ch_Latest live)) (norm_state st)) = false) as ->.
  { destruct (Equal _ _) as [[]| |] eqn:E; try done. apply Equal_ok in E as (_ & _ & (HA & _) & _).
    cbn in HA. congruence. }
  edestruct (Store_commit_ok (n_store n) id live) as (s' & -> & _ & Hs'); [done|done|done|].
  eexists _, _. split; [done|]. split; [exact (proj1 (Get_live _ _ _ Hs'))|]. cbn. by eexists.
Qed.

Lemma prepare_facts (now : Z) (c : Channel) (intent : bytes) (tr : StateTransition) (p : PendingProposal) (raw : bytes) :
  prepare_proposal sign cfg now c intent tr = Ok (p, raw) ->
  st_Nonce (pp_State p) = next_nonce c /\ sign raw = Some (pp_Sig p).
Proof.
  unfold prepare_proposal. intros H. repeat outcome_step. simplify_eq. cbn.
  match goal with H : signFor _ _ _ = Ok _ |- _ => unfold signFor in H; repeat outcome_step; subst end.
  match goal with H : Apply _ _ _ = Ok _ |- _ => apply Apply_nonce in H as [? _] end. done.
Qed.

(** The second half of [Propose] commits, and its envelope leaves. *)
Definition leaves (now : Z) (n : Node Store) (id : bytes) (c : Channel) (p : PendingProposal) (raw : bytes) (n' : Node Store) : Prop :=
  commit_proposal now n id c p raw = (n', Ok (proposalEnvelope c p)).

(** The check against signing twice is made on a snapshot and the commit does
    not repeat it: two proposals prepared from the same snapshot both commit and
    both leave, signed, at the same nonce. *)
Theorem racing_proposals_both_leave (now : Z) (n : Node Store) (id i1 i2 : bytes) (live c : Channel)
    (t1 t2 : StateTransition) (p1 p2 : PendingProposal) (raw1 raw2 : bytes)
    (Hio : s_io (n_store n) = []) (Hl : s_channels (n_store n) !! id = Some live) (Hc : Get (n_store n) id = Some c)
    (H1 : prepare_proposal sign cfg now c i1 t1 = Ok (p1, raw1))
    (H2 : prepare_proposal sign cfg now c i2 t2 = Ok (p2, raw2)) :
  exists n1 n2, leaves now n id c p1 raw1 n1 /\ leaves now n1 id c p2 raw2 n2 /\
    st_Nonce (pp_State p1) = st_Nonce (pp_State p2) /\
    sign raw1 = Some (pp_Sig p1) /\ sign raw2 = Some (pp_Sig p2).
Proof.
  apply prepare_facts in H1 as [E1 S1]. apply prepare_facts in H2 as [E2 S2]. unfold leaves, commit_proposal.
  edestruct (Store_commit_ok (n_store n) id live) as (s1 & -> & Hio1 & Hl1); [done|done|done|].
  eexists. destruct (Store_commit_ok s1 id _ _ (note_proposal now p2 raw2) Hio1 Hl1 eq_refl) as (s2 & HC2 & _ & _).
  eexists. split; [done|]. cbn [with_store n_store]. rewrite HC2. split; [done|]. split; [congruence|done].
Qed.
End StoreFindings.

(** ** Concrete inputs *)

Definition toy_id : bytes := ch_ID toy_channel.
Definition toy_node : Node Store := mkNode (toy_store []) None.
Definition toy_signer (k : Z) (raw : bytes) : option bytes := Some (toy_sign k raw).
Definition toy_text (_ : chan_err) : string := "".

(** *** A toy wallet's signature recovers its address *)

Lemma toy_sign_parts (k : Z) (raw : bytes) : let d := @PersonalDigest toy_crypto raw in
  take 32 (toy_sign k raw) = be_encode 32 k /\ take 32 (drop 32 (toy_sign k raw)) = toy_s d /\
  drop 64 (toy_sign k raw) = [27] /\ array_ok 65 (toy_sign k raw).
Proof.
  intros d. assert (array_ok 32 d) as [Ld Od] by apply be_encode_array.
  assert (length (toy_s d) = 32%nat) as Ls by (unfold toy_s, zeros; rewrite length_app, length_replicate, length_drop; lia).
  unfold toy_sign. fold d. pose proof (length_be_encode 32 k) as Lk. pose proof (be_encode_ok 32 k) as Hk.
  generalize dependent (be_encode 32 k). intros rk Lk Hk.
  split; [by rewrite take_app_le, take_ge by lia|]. rewrite !drop_app, Lk, Ls.
  split; [rewrite (drop_ge rk), drop_0 by lia; cbn [app]; by rewrite take_app_le, take_ge by (cbn; lia)|].
  split; [by rewrite (drop_ge rk), (drop_ge (toy_s d)) by lia|].
  split; [rewrite !length_app, Lk, Ls; done|]. apply Forall_app. split; [done|]. apply Forall_app.
  split; [|by repeat constructor]. apply Forall_app. split; [apply zeros_ok|]. by apply Forall_drop.
Qed.

Lemma toy_s_small (d : bytes) : array_ok 32 d -> be_decode (toy_s d) <= halfOrder.
Proof.
  intros [L O]. unfold toy_s. rewrite be_decode_app, be_decode_zeros.
  pose proof (be_decode_range (drop 1 d) (Forall_drop _ _ _ O)) as H. rewrite length_drop, L in H.
  change (256 ^ Z.of_nat (32 - 1)) with (2 ^ 248) in H. unfold halfOrder. lia.
Qed.

Lemma toy_recover_sign (v k : Z) (d : bytes) :
  toy_recover (v :: be_encode 32 k ++ toy_s d) d = Some (4 :: be_encode 32 k ++ be_encode 32 k).
Proof.
  unfold toy_recover. pose proof (be_encode_array 32 k) as Hk. pose proof (length_be_encode 32 k) as Lk.
  generalize dependent (be_encode 32 k). intros rk Hk Lk. cbn [skipn].
  rewrite drop_0, take_app_le, take_ge by lia. rewrite (proj2 (array_okb_spec 32 _) Hk).
  rewrite drop_app, drop_ge, Lk by lia. cbn [app Nat.sub skipn]. rewrite ?drop_0, bool_decide_eq_true_2 by done. done.
Qed.

Lemma toy_key_address (k : Z) :
  drop 12 (@keccak toy_crypto [drop 1 (4 :: be_encode 32 k ++ be_encode 32 k)]) = toy_address k.
Proof. unfold keccak. cbn [concat skipn]. by rewrite drop_0, app_nil_r. Qed.

(** What recovery does with a signature, given its parts. *)
Lemma RecoverSigner_parts `{ChannelCrypto} (raw sig r s pub : bytes) :
  length sig = 65%nat -> take 32 sig = r -> take 32 (drop 32 sig) = s -> drop 64 sig = [27] ->
  be_decode s <= halfOrder -> recover_compact (27 :: r ++ s) (PersonalDigest raw) = Some pub ->
  IsZero (drop 12 (keccak [drop 1 pub])) = false -> RecoverSigner raw sig = Ok (drop 12 (keccak [drop 1 pub])).
Proof.
  intros L E1 E2 E3 Hs Hr Hz.
  assert (List.nth 64 sig 0 = 27) as E4.
  { rewrite <- (take_drop 64 sig), E3, app_nth2; rewrite length_take, L; [done|lia]. }
  unfold RecoverSigner. rewrite L, E1, E2, E4. cbn [Nat.eqb negb guard_err].
  rewrite (proj2 (Z.ltb_ge _ _)) by done. change (recovery_byte 27) with (Some 27). cbn [guard_err of_option obind].
  rewrite Hr. cbn [of_option obind]. by rewrite Hz.
Qed.

Lemma toy_sign_recovers (k : Z) (raw : bytes) : IsZero (toy_address k) = false ->
  @RecoverSigner toy_crypto raw (toy_sign k raw) = Ok (toy_address k).
Proof.
  rewrite <- toy_key_address. intros Hz. destruct (toy_sign_parts k raw) as (E1 & E2 & E3 & [L _]).
  refine (RecoverSigner_parts raw _ _ _ _ L E1 E2 E3 _ (toy_recover_sign 27 k _) Hz).
  apply toy_s_small. exact (keccak256_array _).
Qed.

Lemma toy_keys : toy_address toy_keyA = toy_A /\ toy_address toy_keyB = toy_B /\
  IsZero (toy_address toy_keyA) = false /\ IsZero (toy_address toy_keyB) = false.
Proof. repeat split; vm_compute; reflexivity. Qed.

Lemma singleton_well_filed (c : Channel) (io : list disk_result) :
  channel_encodable c -> (forall n, pending_nonce c = Some n -> 0 <= n) ->
  well_filed (mkStore {[ ch_ID c := c ]} ∅ {[ ch_ID c := encodeChannel c ]} false io).
Proof.
  intros He Hp id x Hx. assert (record_typed (ch_ID c) c) as Ht by (by destruct He).
  destruct Hx as [HX|(rec & Hr & HD)].
  - cbn in HX. unfold Get in HX. cbn in HX. destruct ({[ch_ID c := c]} !! id) as [y|] eqn:E; [|done].
    apply lookup_singleton_Some in E as [<- <-]. injection HX as <-.
    apply (ledger_record_typed _ _ c); [exact (Clone_ledger c)|done].
  - cbn in Hr. apply lookup_singleton_Some in Hr as [<- <-]. destruct Ht as [_ Hw Hl _].
    apply decode_encode_ledger in HD; [|done..]. apply (ledger_record_typed _ _ c); [exact HD|by destruct He].
Qed.

Lemma fresh_facts `{ChannelCrypto} (chainID : option Z) (contract x y : bytes) (dA dB : option Z) (st : Z) :
  let c := set_Chain dA dB st (NewChannel chainID contract x y) in
  ch_Pending c = None /\ ch_Conflict c = None /\ ch_Applied c = ∅ /\ ch_Latest c = zero_signed.
Proof. unfold NewChannel. by destruct (SortParties x y). Qed.

Lemma toy_facts : ch_Pending toy_channel = None /\ ch_Conflict toy_channel = None /\
  ch_Applied toy_channel = ∅ /\ ch_Latest toy_channel = zero_signed.
Proof. exact (@fresh_facts toy_crypto (Some 1) toy_contract toy_A toy_B (Some 60) (Some 40) StatusOpen). Qed.

Lemma toy_well_filed : well_filed (n_store toy_node).
Proof.
  apply (singleton_well_filed toy_channel []); [exact toy_channel_encodable|].
  unfold pending_nonce. by rewrite (proj1 toy_facts).
Qed.

Definition toy_snapshot : Channel := set_NeedsReconcile false (Clone toy_channel).
Lemma toy_get : cm_channel (n_store toy_node) toy_id = Some toy_snapshot.
Proof. exact (proj1 (Get_live (toy_store []) toy_id toy_channel (lookup_singleton_eq _ _))). Qed.

Lemma toy_snapshot_pending : ch_Pending toy_snapshot = None.
Proof. change (cloneProposal <$> ch_Pending toy_channel = None). by rewrite (proj1 toy_facts). Qed.
Lemma toy_snapshot_conflict : ch_Conflict toy_snapshot = None.
Proof.
  change ((fun k => mkConflictRecord (cr_Nonce k) (cloneSigned (cr_Mine k)) (cloneSigned (cr_Theirs k))) <$>
    ch_Conflict toy_channel = None). by rewrite (proj1 (proj2 toy_facts)).
Qed.

Lemma toy_id_text : parseBytes32 (hex_encode toy_id) = Ok toy_id.
Proof. apply parseBytes32_encode. exact (proj1 toy_arrays). Qed.

Definition toy_intent : bytes := be_encode 32 7.
Definition toy_propose (tr : StateTransition) : Node Store * outcome chan_err Message :=
  Propose (Crypto := toy_crypto) (toy_signer toy_keyA) (NewPeerSession toy_A) 1000 toy_node toy_id toy_intent tr.

Lemma ok_pair {A B E : Type} (x : A * outcome E B) : is_ok x.2 = true -> exists a b, x = (a, Ok b).
Proof. destruct x as [a [b| |]]; try discriminate. intros _. by exists a, b. Qed.

Lemma toy_proposed : exists n' m, toy_propose (toy_tr KindPay 10) = (n', Ok m).
Proof. apply ok_pair. vm_compute. reflexivity. Qed.

(** The proposal a payer sends for a state, signed by A. *)
Definition toy_body (intent : bytes) (tr : StateTransition) (st : State) : StateProposeBody :=
  mkPropose (hex_encode intent) (encodeTransitionWire tr) (encodeStateWire st)
    (hex_encode (toy_sign toy_keyA (@Digest toy_crypto st (Some 1) toy_contract))).
Definition toy_answer (n : Node Store) (body : StateProposeBody) : Node Store * outcome chan_err Message :=
  HandlePropose (Crypto := toy_crypto) (toy_signer toy_keyB) toy_text (NewPeerSession toy_B) 1000 n (hex_encode toy_id) body.

Definition is_accept (r : outcome chan_err Message) : bool :=
  match r with Ok (mkMessage _ (MsgStateAccept _)) => true | _ => false end.
Lemma accept_pair {A : Type} (x : A * outcome chan_err Message) :
  is_accept x.2 = true -> exists a ch b, x = (a, Ok (mkMessage ch (MsgStateAccept b))).
Proof. destruct x as [a [[ch []]| |]]; try discriminate. intros _. by eexists _, _, _. Qed.

Definition toy_pay_body : StateProposeBody := toy_body toy_intent (toy_tr KindPay 10) (toy_pay_state 1 50 50).
Lemma toy_answered : exists n' ch b, toy_answer toy_node toy_pay_body = (n', Ok (mkMessage ch (MsgStateAccept b))).
Proof. apply accept_pair. vm_compute. reflexivity. Qed.

Lemma toy_not_applied (body : StateProposeBody) : AppliedAt toy_snapshot (intentOf (spb_Intent body)) = None.
Proof.
  change (ch_Applied toy_channel !! intentOf (spb_Intent body) = None).
  by rewrite (proj1 (proj2 (proj2 toy_facts))), lookup_empty.
Qed.

(** A payment can be countersigned as a cooperative close: the payee answers a PAY
    whose state carries the close domain with its signature, over the digest the
    contract takes for closing the channel. *)
Theorem pay_countersigned_as_close :
  exists (body : StateProposeBody) n' ch b c',
    wt_Kind (spb_Transition body) = "PAY"%string /\
    toy_answer toy_node body = (n', Ok (mkMessage ch (MsgStateAccept b))) /\
    Get (n_store n') toy_id = Some c' /\ op (ss_State (ch_Latest c')) = OpCoopClose /\
    orZero (ch_DepositA c') + orZero (ch_DepositB c') = 100.
Proof.
  set (body := toy_body toy_intent (toy_tr KindPay 10) (set_Op OpCoopClose (toy_pay_state 1 50 50))).
  destruct (accept_pair (toy_answer toy_node body)) as (n' & ch & b & E); [vm_compute; reflexivity|].
  assert (match Get (n_store (toy_answer toy_node body).1) toy_id with
          | Some c' => (op (ss_State (ch_Latest c')) =? OpCoopClose) &&
                       (orZero (ch_DepositA c') + orZero (ch_DepositB c') =? 100)
          | None => false end = true) as HG by (vm_compute; reflexivity).
  rewrite E in HG. cbn [fst] in HG. destruct (Get (n_store n') toy_id) as [c'|] eqn:EG; [|discriminate].
  zbool. exists body, n', ch, b, c'. split; [reflexivity|]. split; [exact E|]. split; [exact EG|]. split; assumption.
Qed.

Lemma Propose_persists_before_sending_witness :
  exists p : PendingProposal, pp_Intent p = toy_intent /\ st_Nonce (pp_State p) = next_nonce toy_snapshot.
Proof.
  destruct toy_proposed as (n' & m & E).
  destruct (@Propose_persists_before_sending toy_crypto toy_laws Store _ _ (toy_signer toy_keyA) (NewPeerSession toy_A)
    1000 toy_node n' toy_id toy_intent (toy_tr KindPay 10) toy_snapshot m toy_well_filed toy_get toy_snapshot_pending E)
    as (c' & p & _ & _ & Hi & _ & Hn & _).
  exists p. split; [exact Hi|exact Hn].
Defined.

Lemma Propose_retry_identical_witness :
  exists (n' : Node Store) m, Propose (Crypto := toy_crypto) (toy_signer toy_keyA) (NewPeerSession toy_A) 2000 n'
    toy_id toy_intent (toy_tr KindPay 99) = (n', Ok m).
Proof.
  destruct toy_proposed as (n' & m & E). exists n', m.
  exact (@Propose_retry_identical toy_crypto toy_laws Store _ _ (toy_signer toy_keyA) (NewPeerSession toy_A)
    1000 2000 toy_node n' toy_id toy_intent (toy_tr KindPay 10) (toy_tr KindPay 99) m toy_well_filed E).
Defined.

Lemma HandlePropose_accept_exact_witness :
  exists c', AppliedAt c' (intentOf (spb_Intent toy_pay_body)) = Some (st_Nonce (ss_State (ch_Latest c'))).
Proof.
  destruct toy_answered as (n' & ch & b & E).
  destruct (@HandlePropose_accept_exact toy_crypto toy_laws Store _ _ (toy_signer toy_keyB) toy_text (NewPeerSession toy_B)
    1000 toy_node n' (hex_encode toy_id) ch toy_pay_body toy_id toy_snapshot b toy_well_filed toy_id_text toy_get
    (toy_not_applied toy_pay_body) E) as (c' & tr & want & b0 & _ & _ & _ & _ & HA & _).
  exists c'. exact HA.
Defined.

Lemma HandlePropose_idempotent_witness :
  exists n' ch b, toy_answer n' toy_pay_body = (n', Ok (mkMessage ch (MsgStateAccept b))).
Proof.
  destruct toy_answered as (n' & ch & b & E). exists n', ch, b.
  exact (@HandlePropose_idempotent toy_crypto toy_laws Store _ _ (toy_signer toy_keyB) toy_text (NewPeerSession toy_B)
    1000 1000 toy_node n' (hex_encode toy_id) ch toy_pay_body toy_id toy_snapshot b toy_well_filed toy_id_text toy_get
    (toy_not_applied toy_pay_body) E).
Defined.

(** A record under quarantine. *)
Definition toy_quarantined : Node Store :=
  mkNode (mkStore {[ toy_id := toy_channel ]} {[ toy_id ]} ∅ true []) None.
Lemma Get_quarantined (id : bytes) (c : Channel) (disk : gmap bytes storedChannel) :
  Get (mkStore {[ id := c ]} {[ id ]} disk true []) id = Some (set_NeedsReconcile true (Clone c)).
Proof.
  unfold Get. cbn [s_channels s_unreconciled]. rewrite lookup_singleton_eq. cbn.
  by rewrite bool_decide_eq_true_2 by (by apply elem_of_singleton).
Qed.
Lemma Get_singleton (id : bytes) (c : Channel) (disk : gmap bytes storedChannel) (io : list disk_result) :
  Get (mkStore {[ id := c ]} ∅ disk false io) id = Some (set_NeedsReconcile false (Clone c)).
Proof. unfold Get. cbn [s_channels s_unreconciled]. by rewrite lookup_singleton_eq. Qed.
Lemma toy_get_quarantined : cm_channel (n_store toy_quarantined) toy_id = Some (set_NeedsReconcile true (Clone toy_channel)).
Proof. exact (Get_quarantined toy_id toy_channel ∅). Qed.

Lemma quarantine_signs_nothing_witness :
  n_store (HandlePropose (Crypto := toy_crypto) (toy_signer toy_keyB) toy_text (NewPeerSession toy_B) 1000
    toy_quarantined (hex_encode toy_id) toy_pay_body).1 = n_store toy_quarantined.
Proof.
  destruct (@quarantine_signs_nothing toy_crypto Store _ (toy_signer toy_keyB) toy_text (NewPeerSession toy_B)
    1000 toy_quarantined toy_id toy_intent (toy_tr KindPay 10) (hex_encode toy_id) toy_pay_body
    (set_NeedsReconcile true (Clone toy_channel)) toy_get_quarantined eq_refl toy_snapshot_pending toy_id_text
    (toy_not_applied toy_pay_body)) as (_ & _ & _ & H). exact H.
Defined.

Definition toy_conflicted_channel : Channel :=
  set_Conflict (Some (mkConflictRecord 0 zero_signed zero_signed)) toy_channel.
Definition toy_conflicted : Node Store := mkNode (mkStore {[ toy_id := toy_conflicted_channel ]} ∅ ∅ false []) None.

Lemma toy_get_conflicted : cm_channel (n_store toy_conflicted) toy_id = Some (set_NeedsReconcile false (Clone toy_conflicted_channel)).
Proof. exact (Get_singleton toy_id toy_conflicted_channel ∅ []). Qed.

Lemma conflicted_is_stopped (k : ConflictRecord) (c : Channel) :
  is_Some (ch_Conflict (set_NeedsReconcile false (Clone (set_Conflict (Some k) c)))).
Proof. by eexists. Qed.

Lemma conflict_stops_channel_witness :
  (Propose (Crypto := toy_crypto) (toy_signer toy_keyA) (NewPeerSession toy_A) 1000 toy_conflicted toy_id toy_intent
    (toy_tr KindPay 10)).2 = Err ErrConflicted.
Proof.
  destruct (@conflict_stops_channel toy_crypto Store _ (toy_signer toy_keyA) toy_text (NewPeerSession toy_A)
    1000 toy_conflicted toy_id toy_intent (toy_tr KindPay 10) (hex_encode toy_id) toy_pay_body
    _ toy_get_conflicted (conflicted_is_stopped _ toy_channel) toy_id_text) as (H & _).
  rewrite H. reflexivity.
Defined.

Lemma set_Latest_encodable (c : Channel) (ss : SignedState) :
  channel_encodable c -> signed_encodable ss -> channel_encodable (set_Latest ss c).
Proof. by intros [] Hs; split. Qed.

(** A channel whose latest state locks seven for B on the hash of the zero secret. *)
Definition toy_lock9 : HTLC := mkHTLC (be_encode 32 9) (@keccak toy_crypto [zeros 32]) (Some 7) 5000 true.
Definition toy_lock9_state : State := mkState toy_id 1 (Some 53) (Some 40) [toy_lock9] None None OpState.
Definition toy_lock9_channel : Channel := set_Latest (toy_signed toy_lock9_state) toy_channel.
Definition toy_lock9_node : Node Store :=
  mkNode (mkStore {[ ch_ID toy_lock9_channel := toy_lock9_channel ]} ∅
    {[ ch_ID toy_lock9_channel := encodeChannel toy_lock9_channel ]} false []) (Some toy_vault).
Definition toy_settle_body : StateProposeBody :=
  toy_body toy_intent (toy_tr KindLockSettle 0) (mkState toy_id 2 (Some 53) (Some 47) [] None None OpState).

Lemma toy_lock9_encodable : signed_encodable (toy_signed toy_lock9_state).
Proof.
  split.
  - split; [exact (proj1 toy_arrays)| | |discriminate|discriminate|reflexivity].
    + apply (Forall_cons_2 _ toy_lock9 []); [|apply Forall_nil_2]. split; apply array_okb_spec; vm_compute; reflexivity.
    + constructor; [constructor|apply Forall_nil_2].
  - split.
    + assert (array_ok 65 (ss_SigA (toy_signed toy_lock9_state))) as [_ H] by (apply array_okb_spec; vm_compute; reflexivity).
      exact H.
    + assert (array_ok 65 (ss_SigB (toy_signed toy_lock9_state))) as [_ H] by (apply array_okb_spec; vm_compute; reflexivity).
      exact H.
Qed.

Lemma toy_lock9_well_filed : well_filed (n_store toy_lock9_node).
Proof.
  apply (singleton_well_filed toy_lock9_channel []).
  - exact (set_Latest_encodable _ _ toy_channel_encodable toy_lock9_encodable).
  - intros n Hn. unfold pending_nonce in Hn.
    change (ch_Pending toy_lock9_channel) with (ch_Pending toy_channel) in Hn. by rewrite (proj1 toy_facts) in Hn.
Qed.

Lemma toy_settled : exists n' ch b, toy_answer toy_lock9_node toy_settle_body = (n', Ok (mkMessage ch (MsgStateAccept b))).
Proof. apply accept_pair. vm_compute. reflexivity. Qed.

Lemma toy_settle_decodes : exists st tr sig, decode_proposal toy_text toy_settle_body = inl (st, tr, sig) /\
  t_Kind tr = KindLockSettle.
Proof. eexists _, _, _. split; [vm_compute; reflexivity|reflexivity]. Qed.

Lemma toy_lock9_get : cm_channel (n_store toy_lock9_node) (ch_ID toy_lock9_channel) =
  Some (set_NeedsReconcile false (Clone toy_lock9_channel)).
Proof. exact (Get_singleton (ch_ID toy_lock9_channel) toy_lock9_channel _ []). Qed.

Lemma toy_lock9_not_applied :
  AppliedAt (set_NeedsReconcile false (Clone toy_lock9_channel)) (intentOf (spb_Intent toy_settle_body)) = None.
Proof. exact (toy_not_applied toy_settle_body). Qed.

Lemma settlement_learns_secret_witness :
  exists st tr sig v' n', decode_proposal toy_text toy_settle_body = inl (st, tr, sig) /\
    n_vault (S := Store) n' = Some v' /\ Lookup v' (@keccak toy_crypto [t_Preimage tr]) = Some (t_Preimage tr).
Proof.
  destruct toy_settled as (n' & ch & b & E). destruct toy_settle_decodes as (st & tr & sig & HD & Hk).
  destruct (@settlement_learns_secret toy_crypto toy_laws Store _ _ (toy_signer toy_keyB) toy_text (NewPeerSession toy_B)
    1000 toy_lock9_node n' (hex_encode toy_id) ch toy_settle_body (ch_ID toy_lock9_channel) _ b st tr sig toy_vault
    toy_lock9_well_filed toy_id_text toy_lock9_get toy_lock9_not_applied E HD Hk eq_refl) as (v' & Hv & HL).
  exists st, tr, sig, v', n'. split; [exact HD|]. split; [exact Hv|exact HL].
Defined.

(** The refund of the same lock, an hour and a half later. *)
Definition toy_refund_body : StateProposeBody :=
  toy_body toy_intent (mkTransition KindLockRefund None (be_encode 32 9) (zeros 32) 0 (zeros 32)) (mkState toy_id 2 (Some 60) (Some 40) [] None None OpState).
Lemma toy_refunded : exists n' ch b,
  HandlePropose (Crypto := toy_crypto) (toy_signer toy_keyB) toy_text (NewPeerSession toy_B) 6000 toy_lock9_node (hex_encode toy_id) toy_refund_body =
    (n', Ok (mkMessage ch (MsgStateAccept b))).
Proof. apply accept_pair. vm_compute. reflexivity. Qed.
Lemma toy_refund_decodes : exists st tr sig, decode_proposal toy_text toy_refund_body = inl (st, tr, sig) /\ t_Kind tr = KindLockRefund.
Proof. eexists _, _, _. split; [vm_compute; reflexivity|reflexivity]. Qed.
Definition toy_lock9_snapshot : Channel := set_NeedsReconcile false (Clone toy_lock9_channel).
Lemma toy_lock9_answers (now : Z) (body : StateProposeBody) (st : State) (tr : StateTransition) (sig : bytes) (x : Node Store * string * StateAcceptBody) :
  decode_proposal toy_text body = inl (st, tr, sig) ->
  HandlePropose (Crypto := toy_crypto) (toy_signer toy_keyB) toy_text (NewPeerSession toy_B) now toy_lock9_node (hex_encode toy_id) body =
    (x.1.1, Ok (mkMessage x.1.2 (MsgStateAccept x.2))) ->
  answer (Crypto := toy_crypto) (S := Store) (toy_signer toy_keyB) toy_text (NewPeerSession toy_B) now toy_lock9_snapshot tr.
Proof.
  intros HD E. split. exists toy_lock9_node, x.1.1, (hex_encode toy_id), x.1.2, body, x.2, (ch_ID toy_lock9_channel), st, sig.
  split; [exact toy_lock9_well_filed|]. split; [exact toy_id_text|]. split; [exact toy_lock9_get|]. split; [exact (toy_not_applied body)|]. by split.
Qed.
Lemma settle_and_refund_never_overlap_witness : exists h1 h2,
  lock_of toy_lock9_snapshot (be_encode 32 9) = Some h1 /\ lock_of toy_lock9_snapshot (be_encode 32 9) = Some h2 /\
  1000 + 30 < h_Expiry h1 /\ h_Expiry h2 <= 6000 - 30.
Proof.
  destruct toy_settled as (n1 & ch1 & b1 & E1). destruct toy_refunded as (n2 & ch2 & b2 & E2).
  destruct toy_settle_decodes as (s1 & t1 & g1 & D1 & K1). destruct toy_refund_decodes as (s2 & t2 & g2 & D2 & K2).
  destruct (settle_and_refund_never_overlap (Crypto := toy_crypto) (S1 := Store) (S2 := Store) (toy_signer toy_keyB) (toy_signer toy_keyB) toy_text toy_text
    (NewPeerSession toy_B) (NewPeerSession toy_B) 1000 6000 toy_lock9_snapshot toy_lock9_snapshot t1 t2 K1 K2 ltac:(cbn; lia) ltac:(cbn; lia)
    (toy_lock9_answers 1000 toy_settle_body s1 t1 g1 (n1, ch1, b1) D1 E1) (toy_lock9_answers 6000 toy_refund_body s2 t2 g2 (n2, ch2, b2) D2 E2))
    as (h1 & h2 & L1 & L2 & T1 & T2 & _).
  exists h1, h2. vm_compute in D1, D2. injection D1 as _ <- _. injection D2 as _ <- _.
  split; [exact L1|]. split; [exact L2|]. split; [exact T1|exact T2].
Defined.

(** A peer that answers a state request with the first payment. *)
Definition toy_response : StateResponseBody :=
  mkResponse true (encodeStateWire (ss_State toy_pay1)) (hex_encode (ss_SigA toy_pay1)) (hex_encode (ss_SigB toy_pay1)).

Lemma toy_resync : exists n' r, HandleResponse (Crypto := toy_crypto) 1000 toy_node (hex_encode toy_id) toy_response = (n', r) /\
  r = Ok ResyncAdopted.
Proof.
  assert (match (HandleResponse (Crypto := toy_crypto) 1000 toy_node (hex_encode toy_id) toy_response).2 with
          | Ok ResyncAdopted => true | _ => false end = true) as E by (vm_compute; reflexivity).
  destruct (HandleResponse _ _ _ _) as [n' [[]| |]]; try discriminate. by exists n', (Ok ResyncAdopted).
Qed.

Lemma HandleResponse_moves_forward_witness :
  exists c' : Channel, st_Nonce (ss_State (ch_Latest toy_snapshot)) < st_Nonce (ss_State (ch_Latest c')).
Proof.
  destruct toy_resync as (n' & r & E & ->).
  destruct (@HandleResponse_moves_forward toy_crypto Store _ _ 1000 toy_node n' (hex_encode toy_id) toy_response
    toy_id toy_snapshot (Ok ResyncAdopted) toy_well_filed ltac:(discriminate) toy_id_text toy_get E)
    as (c' & b0 & _ & _ & H & _).
  exists c'. exact H.
Defined.

(** Two states at nonce 1, both signed by both parties. *)
Definition toy_evidence : ConflictBody :=
  let x := toy_pay1 in let y := toy_signed (toy_pay_state 1 20 80) in
  mkConflict 1 (encodeStateWire (ss_State x)) (hex_encode (ss_SigA x)) (hex_encode (ss_SigB x))
    (encodeStateWire (ss_State y)) (hex_encode (ss_SigA y)) (hex_encode (ss_SigB y)).

Lemma toy_conflict_handled : exists n', HandleConflict (Crypto := toy_crypto) toy_node (hex_encode toy_id) toy_evidence = (n', Ok true).
Proof.
  assert (match (HandleConflict (Crypto := toy_crypto) toy_node (hex_encode toy_id) toy_evidence).2 with
          | Ok b => b | _ => false end = true) as E by (vm_compute; reflexivity).
  destruct (HandleConflict _ _ _) as [n' [[]| |]]; try discriminate. by exists n'.
Qed.

Lemma HandleConflict_needs_evidence_witness :
  exists n', n' = toy_node \/ exists theirs ours, decode_evidence toy_evidence = Ok (theirs, ours) /\
    double_signed (Crypto := toy_crypto) toy_snapshot theirs ours.
Proof.
  destruct toy_conflict_handled as (n' & E). exists n'.
  exact (@HandleConflict_needs_evidence toy_crypto Store _ toy_node n' (hex_encode toy_id) toy_id toy_snapshot
    toy_evidence (Ok true) toy_id_text toy_get E).
Defined.

(** The first payment accepted, nothing pending. *)
Definition toy_paid_channel : Channel := set_Latest toy_pay1 toy_channel.
Definition toy_paid_node : Node Store := mkNode (mkStore {[ toy_id := toy_paid_channel ]} ∅ ∅ false []) None.
Lemma toy_other_encodable : encodable (toy_pay_state 1 20 80).
Proof.
  split; [exact (proj1 toy_arrays)|exact (Forall_nil_2 _)|exact (SSorted_nil _)|discriminate|discriminate|reflexivity].
Qed.

Lemma paid_lookup (id : bytes) (c : Channel) : s_channels (n_store (mkNode (mkStore {[ id := c ]} ∅ ∅ false []) None)) !! id = Some c.
Proof. exact (lookup_singleton_eq id c). Qed.

Lemma HandleResponse_trusts_unsigned_conflict_witness :
  exists n' c', HandleResponse (Crypto := toy_crypto) 1000 toy_paid_node (hex_encode toy_id)
      (mkResponse true (encodeStateWire (toy_pay_state 1 20 80)) "" "") = (n', Ok ResyncConflict) /\
    Get (n_store n') toy_id = Some c' /\ is_Some (ch_Conflict c').
Proof.
  exact (@HandleResponse_trusts_unsigned_conflict toy_crypto 1000 toy_paid_node toy_id [] [] toy_paid_channel
    (toy_pay_state 1 20 80) (proj1 toy_arrays) eq_refl (paid_lookup toy_id toy_paid_channel) toy_other_encodable
    (conj (Forall_nil_2 _) (Forall_nil_2 _)) eq_refl ltac:(discriminate)).
Defined.

Definition toy_prepare (n : Z) : outcome chan_err (PendingProposal * bytes) :=
  prepare_proposal (Crypto := toy_crypto) (toy_signer toy_keyA) (NewPeerSession toy_A) 1000 toy_snapshot
    (be_encode 32 n) (toy_tr KindPay n).
Lemma ok_outcome {A E : Type} (x : outcome E A) : is_ok x = true -> exists a, x = Ok a.
Proof. destruct x as [a| |]; try discriminate. intros _. by exists a. Qed.
Lemma toy_prepared (n : Z) : is_ok (toy_prepare n) = true -> exists p raw, toy_prepare n = Ok (p, raw).
Proof. intros [[p raw] E]%ok_outcome. by exists p, raw. Qed.

(** The two digests differ. *)
Lemma toy_race_differs : exists p1 raw1 p2 raw2, toy_prepare 10 = Ok (p1, raw1) /\ toy_prepare 20 = Ok (p2, raw2) /\ raw1 <> raw2.
Proof.
  assert (match toy_prepare 10, toy_prepare 20 with Ok (_, r1), Ok (_, r2) => negb (bool_decide (r1 = r2)) | _, _ => false end
    = true) as E by (vm_compute; reflexivity).
  destruct (toy_prepare 10) as [[p1 raw1]| |], (toy_prepare 20) as [[p2 raw2]| |]; try discriminate.
  exists p1, raw1, p2, raw2. split; [done|]. split; [done|]. by zbool.
Qed.

Lemma racing_proposals_both_leave_witness :
  exists p1 raw1 p2 raw2, raw1 <> raw2 /\ st_Nonce (pp_State p1) = st_Nonce (pp_State p2) /\
    toy_signer toy_keyA raw1 = Some (pp_Sig p1) /\ toy_signer toy_keyA raw2 = Some (pp_Sig p2).
Proof.
  destruct toy_race_differs as (p1 & raw1 & p2 & raw2 & H1 & H2 & Hne).
  destruct (@racing_proposals_both_leave toy_crypto (toy_signer toy_keyA) (NewPeerSession toy_A) 1000 toy_node toy_id
    (be_encode 32 10) (be_encode 32 20) toy_channel toy_snapshot (toy_tr KindPay 10) (toy_tr KindPay 20) p1 p2 raw1 raw2
    eq_refl (lookup_singleton_eq _ _) toy_get H1 H2) as (n1 & n2 & _ & _ & Hn & S1 & S2).
  exists p1, raw1, p2, raw2. split; [exact Hne|]. split; [exact Hn|]. split; [exact S1|exact S2].
Defined.
