(* ===== verification/ChannelCrash.v ===== *)
(** * Payment channels: what a crash keeps

    Reopening the store from its files, tracking a channel from the chain,
    refreshing and releasing one: no signature that was remembered is
    forgotten, and every record a restart may find comes from one file. *)
From S2P Require Import Prelude.
From S2P Require Import GoBytes.
From S2P Require Import ChannelTypes.
From S2P Require Import ChannelCrypto.
From S2P Require Import ChannelState.
From S2P Require Import ChannelTransition.
From S2P Require Import ChannelHistory.
From S2P Require Import ChannelWire.
From S2P Require Import ChannelCommitter.
From S2P Require Import ChannelPreimages.
From S2P Require Import ChannelStore.
From S2P Require Import ChannelSession.
From S2P Require Import ChannelSafety.
From S2P Require Import ChannelProtocol.

(** The files a restart reads. *)
Definition disk_files (s : Store) : list (option storedChannel) := map (fun e => Some e.2) (map_to_list (s_disk s)).

Lemma disk_files_spec (s : Store) (rec : storedChannel) :
  Some rec ∈ disk_files s <-> exists id, s_disk s !! id = Some rec.
Proof.
  unfold disk_files. rewrite list_elem_of_fmap. split.
  - intros ([id r] & [= ->] & Hin). exists id. by apply elem_of_map_to_list in Hin.
  - intros [id Hr]. exists (id, rec). split; [done|]. by apply elem_of_map_to_list.
Qed.

Section Crash.
Context `{Crypto : ChannelCrypto} `{!ChannelCryptoLaws Crypto}.

Lemma load_files_inv (restored : bool) (files : list (option storedChannel)) (m m' : gmap bytes Channel)
    (u u' : gset bytes) :
  load_files restored files m u = Ok (m', u') ->
  (forall id x, m' !! id = Some x -> m !! id = Some x \/
     exists rec, Some rec ∈ files /\ decodeChannel rec = Ok x /\ ch_ID x = id) /\
  (forall rec, Some rec ∈ files -> exists x, decodeChannel rec = Ok x /\ is_Some (m' !! ch_ID x)) /\
  (forall id, is_Some (m !! id) -> is_Some (m' !! id)).
Proof.
  revert m u; induction files as [|f files IH]; intros m u; cbn [load_files].
  - intros [= <- <-]. split; [by left|]. split; [by intros rec Hin; apply elem_of_nil in Hin|done].
  - intros H. destruct f as [rec|]; [|discriminate]. cbn [of_option obind] in H.
    destruct (decodeChannel rec) as [c| |] eqn:ED; try discriminate. cbn [obind] in H.
    destruct (verifyLoaded c) as [[]| |]; try discriminate. cbn [obind] in H.
    destruct (IH _ _ H) as (H1 & H2 & H3). split; [|split].
    + intros id x Hx. destruct (H1 id x Hx) as [Hi|(rec' & Hin & HD & Hi)].
      * apply lookup_insert_Some in Hi as [[<- <-]|[_ Hi]]; [right|by left].
        exists rec. split; [apply elem_of_cons; by left|done].
      * right. exists rec'. split; [apply elem_of_cons; by right|done].
    + intros rec' [[= ->]|Hin]%elem_of_cons; [|by apply H2].
      exists c. split; [done|]. apply H3. rewrite lookup_insert_eq. by eexists.
    + intros id Hi. apply H3. by apply lookup_insert_is_Some'; right.
Qed.

(** A stamp changes nothing that matters here. *)
Lemma stamp_ledger (b : bool) (c : Channel) : same_ledger (set_NeedsReconcile b (Clone c)) c.
Proof. exact (Clone_ledger c). Qed.

(** Whatever the reopened store may come back with is the record of one file. *)
Lemma open_possible (s s' : Store) (restored : bool) (io : list disk_result) :
  well_filed s -> OpenStore (s_disk s) restored (disk_files s) io = Ok s' ->
  s_disk s' = s_disk s /\
  (forall id rec, s_disk s !! id = Some rec -> is_Some (Get s' id)) /\
  forall id x, cm_possible s' id x -> exists rec c, s_disk s !! id = Some rec /\ decodeChannel rec = Ok c /\
    same_ledger x c /\ held x = held c.
Proof.
  intros Hw. unfold OpenStore. destruct (load_files _ _ _ _) as [[m u]| |] eqn:EL; try discriminate.
  cbn [obind]. intros [= <-]. destruct (load_files_inv _ _ _ _ _ _ EL) as (H1 & H2 & _).
  assert (forall id rec c, s_disk s !! id = Some rec -> decodeChannel rec = Ok c -> ch_ID c = id) as Hid.
  { intros id rec c Hr HD. apply (rt_id _ _ (Hw id c (or_intror (ex_intro _ rec (conj Hr HD))))). }
  split; [done|]. split.
  - intros id rec Hr. destruct (H2 rec) as (x & HD & [c Hc]); [by apply disk_files_spec; exists id|].
    rewrite (Hid _ _ _ Hr HD) in Hc. unfold Get. cbn. rewrite Hc. by eexists.
  - intros id x [HX|(rec & Hr & HD)]; [|by exists rec, x]. cbn in HX. unfold Get in HX. cbn in HX.
    destruct (m !! id) as [c|] eqn:Em; [|done]. cbn in HX. injection HX as <-.
    destruct (H1 id c Em) as [?|(rec & Hin & HD & Hi)]; [done|]. apply disk_files_spec in Hin as [k Hk].
    rewrite (Hid _ _ _ Hk HD) in Hi. subst k. exists rec, c. split; [done|]. split; [done|]. split; [apply stamp_ledger|].
    rewrite held_stamp. apply held_Clone.
Qed.

Lemma open_safe (s s' : Store) (restored : bool) (io : list disk_result) :
  well_filed s -> OpenStore (s_disk s) restored (disk_files s) io = Ok s' -> safe s s'.
Proof.
  intros Hw HO. destruct (open_possible _ _ _ _ Hw HO) as (ED & HG & HP).
  assert (forall id x, cm_possible s' id x -> exists y, cm_possible s id y /\ same_ledger x y) as HP'.
  { intros id x (rec & c & Hr & HD & HL & _)%HP. exists c. split; [|done]. right. by exists rec. }
  split.
  - intros id x Hx. destruct (HP' id x Hx) as (y & Hy & HL). eapply ledger_record_typed; [exact HL|by apply Hw].
  - intros j n d (_ & [rec Hr] & M3). split; [by eapply HG|]. split; [by exists rec; cbn; rewrite ED|].
    intros x Hx. destruct (HP' j x Hx) as (y & Hy & HL). apply (covered_ledger x y); [done|by apply M3].
Qed.

Lemma refresh_safe (s s' : Store) (occ : OnChainChannel) r :
  well_filed s -> RefreshFromChain s occ = (s', r) -> safe s s'.
Proof.
  intros Hw. unfold RefreshFromChain. destruct (negb _); [intros [= <- <-]; by apply safe_refl|].
  intros HU. eapply commit_well_filed; [done| |exact HU]. intros c c' b _. apply refresh_keeps.
Qed.

Lemma release_safe (s : Store) (id : bytes) : well_filed s -> safe s (clearReconcile s id).
Proof.
  intros Hw.
  assert (forall j x, cm_possible (clearReconcile s id) j x -> exists y, cm_possible s j y /\ same_ledger x y) as HP.
  { intros j x [HX|HX]; [|exists x; split; [by right|done]]. cbn in HX. unfold Get in HX. cbn in HX.
    destruct (s_channels s !! j) as [c|] eqn:Em; [|done]. cbn in HX. injection HX as <-.
    eexists. split; [left; cbn; unfold Get; rewrite Em; done|]. done. }
  split.
  - intros j x Hx. destruct (HP j x Hx) as (y & Hy & HL). eapply ledger_record_typed; [exact HL|by apply Hw].
  - intros j n d (M1 & M2 & M3). split; [|split; [done|]].
    + cbn in *. unfold Get in *. cbn. by destruct (s_channels s !! j).
    + intros x Hx. destruct (HP j x Hx) as (y & Hy & HL). apply (covered_ledger x y); [done|by apply M3].
Qed.

Lemma tracked_typed (chainID : option Z) (contract : bytes) (occ : OnChainChannel) :
  DeriveChannelID (oc_PartyA occ) (oc_PartyB occ) = oc_ID occ -> record_typed (oc_ID occ) (tracked chainID contract occ).
Proof.
  intros HD. split; [done| |apply map_Forall_empty|done]. rewrite <- HD. unfold DeriveChannelID.
  destruct (SortParties _ _). apply keccak256_array.
Qed.

(** Tracking changes nothing, or adds one record, to memory only when it is on disk. *)
Lemma track_inv (s s' : Store) (chainID : option Z) (contract : bytes) (occ : OnChainChannel) r :
  TrackFromChain s chainID contract occ = (s', r) ->
  s' = s \/
  let c := tracked chainID contract occ in let id := oc_ID occ in
  let new x := same_ledger x c /\ (holding_typed (held c) -> held x = held c) in
  record_typed id c /\ Get s id = None /\ DeriveChannelID (oc_PartyA occ) (oc_PartyB occ) = id /\
  (forall j, j <> id -> Get s' j = Get s j) /\ (forall j, is_Some (s_disk s !! j) -> is_Some (s_disk s' !! j)) /\
  (is_Some (Get s' id) -> is_Some (s_disk s' !! id) /\ forall x, cm_possible s' id x -> new x) /\
  forall j x, cm_possible s' j x -> cm_possible s j x \/ (j = id /\ new x).
Proof.
  unfold TrackFromChain. destruct (negb (oc_fromChain occ)); [intros [= <- <-]; by left|].
  destruct (negb (oc_Status occ =? StatusOpen)); [intros [= <- <-]; by left|].
  destruct (bool_decide_reflect (DeriveChannelID (oc_PartyA occ) (oc_PartyB occ) = oc_ID occ)) as [HD|];
    cbn [negb]; [|intros [= <- <-]; by left].
  destruct (s_channels s !! oc_ID occ) eqn:El; [intros [= <- <-]; by left|].
  set (c := tracked chainID contract occ). pose proof (tracked_typed chainID contract occ HD) as Ht.
  destruct (persist s c) as [s1 ok] eqn:Hp. pose proof (persist_spec _ _ _ _ Hp) as (E1 & E2 & _ & E3).
  intros HR. right. cbn zeta.
  assert (forall x, stored_as s1 (oc_ID occ) x -> s_disk s1 = <[ch_ID c := encodeChannel c]> (s_disk s) ->
    same_ledger x c /\ (holding_typed (held c) -> held x = held c)) as Hnew.
  { intros x HX E. eapply typed_stored_ledger; [|exact Ht|exact HX]. rewrite E. apply lookup_insert_eq. }
  assert (forall j x, j <> oc_ID occ -> stored_as s1 j x -> stored_as s j x) as Hold
    by (intros j x Hj HX; eapply persist_other; [exact Hp| |exact HX]; cbn; congruence).
  split; [done|]. split; [unfold Get; by rewrite El|]. split; [done|].
  destruct ok; injection HR as <- _.
  - destruct E3 as [E3|[_ ?]]; [|done].
    assert (Get (with_channels (<[oc_ID occ:=c]> (s_channels s1)) s1) (oc_ID occ) =
      Some (set_NeedsReconcile (bool_decide (oc_ID occ ∈ s_unreconciled s1)) (Clone c))) as HG
      by (unfold Get; cbn; by rewrite lookup_insert_eq).
    assert (forall j, j <> oc_ID occ -> Get (with_channels (<[oc_ID occ:=c]> (s_channels s1)) s1) j = Get s j) as HGj
      by (intros j Hj; unfold Get; cbn; by rewrite lookup_insert_ne, E1, E2).
    assert (forall x, cm_possible (with_channels (<[oc_ID occ:=c]> (s_channels s1)) s1) (oc_ID occ) x ->
      same_ledger x c /\ (holding_typed (held c) -> held x = held c)) as HN.
    { intros x [HX|HX]; [|by apply Hnew]. cbn in HX. rewrite HG in HX. injection HX as <-.
      split; [apply stamp_ledger|]. intros _. rewrite held_stamp. apply held_Clone. }
    split; [done|]. split; [intros j; by apply (persist_kept _ _ _ _ j Hp)|]. split.
    + intros _. split; [cbn; rewrite E3; by rewrite lookup_insert_eq|exact HN].
    + intros j x HX. destruct (decide (j = oc_ID occ)) as [->|Hj]; [right; auto|left].
      destruct HX as [HX|HX]; [left; cbn in *; by rewrite <- HGj|right; by apply Hold].
  - assert (forall j, Get s1 j = Get s j) as HGj by (intros j; unfold Get; by rewrite E1, E2).
    split; [done|]. split; [intros j; by apply (persist_kept _ _ _ _ j Hp)|]. split.
    + rewrite HGj. unfold Get. rewrite El. by intros [].
    + intros j x [HX|HX]; [left; left; cbn in *; by rewrite <- HGj|].
      destruct (decide (j = oc_ID occ)) as [->|Hj]; [|left; right; by apply Hold].
      destruct E3 as [E3|[E3 _]]; [right; auto|left; right]. unfold stored_as in *. by rewrite E3 in HX.
Qed.

Lemma track_safe (s s' : Store) (chainID : option Z) (contract : bytes) (occ : OnChainChannel) r :
  well_filed s -> TrackFromChain s chainID contract occ = (s', r) -> safe s s'.
Proof.
  intros Hw [->|(Ht & HN & _ & HG & HD & _ & HP)]%track_inv; [by apply safe_refl|]. split.
  - intros j x Hx. destruct (HP j x Hx) as [?|[-> [HL _]]]; [by apply Hw|]. by eapply ledger_record_typed.
  - intros j n d (M1 & M2 & M3). assert (j <> oc_ID occ) as Hj by (intros ->; cbn in M1; rewrite HN in M1; by destruct M1).
    split; [cbn; by rewrite HG|]. split; [by apply HD|]. intros x Hx. destruct (HP j x Hx) as [?|[-> _]]; [by apply M3|done].
Qed.
End Crash.
