(* ===== verification/ChannelSignatures.v ===== *)
(** * Payment channels: every signature that leaves the node

    The whole node over the file-backed store: every handler of the engine,
    chain tracking and refreshes, crashes that come back from disk, with disk
    writes failing at any point - and the log of every message it sent, retries
    and replays included.  The handlers run one at a time: what two goroutines
    do to one snapshot is [racing_proposals_both_leave]. *)
From S2P Require Import Prelude.
From S2P Require Import GoBytes.
From S2P Require Import ChannelTypes.
From S2P Require Import ChannelCrypto.
From S2P Require Import ChannelState.
From S2P Require Import ChannelTransition.
From S2P Require Import ChannelHistory.
From S2P Require Import ChannelWire.
From S2P Require Import ChannelCommitter.
From S2P Require Import ChannelPreimages.
From S2P Require Import ChannelStore.
From S2P Require Import ChannelSession.
From S2P Require Import ChannelSafety.
From S2P Require Import ChannelProtocol.
From S2P Require Import ChannelCrash.

(** A signature: the channel and nonce of the state it is over, and the digest. *)
Definition emission : Type := bytes * Z * bytes.
(** A message that left, and the record of its channel the node then held. *)
Definition entry : Type := option Channel * Message.

Section Said.
Context `{Crypto : ChannelCrypto}.
Context (self : bytes) (chain : option Z) (contract : bytes).

Definition digest_of (st : State) : bytes := Digest st chain contract.
Definition signed_by (st : State) (sig : bytes) : bool :=
  match RecoverSigner (digest_of st) sig with
  | Ok a => bool_decide (a = self)
  | _ => false
  end.
Definition about (st : State) : emission := (st_Channel st, st_Nonce st, digest_of st).

(** What of states and signatures is this node's. *)
Definition claims (l : list (State * bytes)) : list emission :=
  map (fun p => about p.1) (base.filter (fun p => signed_by p.1 p.2 = true) l).
Definition both (ss : SignedState) : list (State * bytes) :=
  [(ss_State ss, ss_SigA ss); (ss_State ss, ss_SigB ss)].
Definition both_of (r : outcome chan_err SignedState) : list (State * bytes) :=
  match r with Ok ss => both ss | _ => [] end.

(** The states and signatures a message shows its reader. *)
Definition carried (m : Message) : list (State * bytes) :=
  match m_Body m with
  | MsgStatePropose b =>
      match decodeStateWire (spb_State b), parseSig (spb_Sig b) with
      | Ok st, Ok sig => [(st, sig)]
      | _, _ => []
      end
  | MsgStateResponse b => both_of (decodeSignedWire (srs_State b) (srs_SigA b) (srs_SigB b))
  | MsgConflict b =>
      both_of (decodeSignedWire (cb_Mine b) (cb_MineA b) (cb_MineB b)) ++
      both_of (decodeSignedWire (cb_Yours b) (cb_YoursA b) (cb_YoursB b))
  | _ => []
  end.
(** An acceptance shows a signature only: it is over the state its sender completed. *)
Definition completed (e : entry) : list (State * bytes) :=
  match m_Body e.2, e.1 with
  | MsgStateAccept b, Some c =>
      match parseSig (sab_Sig b) with
      | Ok sig => [(ss_State (ch_Latest c), sig)]
      | _ => []
      end
  | _, _ => []
  end.
Definition let_out (e : entry) : list emission := claims (carried e.2 ++ completed e).
Definition uttered (log : list entry) : list emission := e ← log; let_out e.

(** Proposals, acceptances and reported states must bear this node's signature
    over the state they are about. *)
Definition meaningful (e : entry) : Prop :=
  match m_Body e.2 with
  | MsgStatePropose _ | MsgStateAccept _ => let_out e <> []
  | MsgStateResponse b => srs_Have b = true -> let_out e <> []
  | _ => True
  end.

(** Nobody else makes this node's signatures: those in a message it receives
    it let out before. *)
Definition authentic (log : list entry) (m : Message) : Prop :=
  forall e, e ∈ claims (carried m) -> e ∈ uttered log.

(** The signatures a record holds; its pending proposal counts as signed. *)
Definition holds (h : Holding) : list emission :=
  claims (both (ho_Latest h)) ++
  match ho_Pending h with Some p => [about p.1] | None => [] end ++
  match ho_Conflict h with Some k => claims (both k.1 ++ both k.2) | None => [] end.

(** ** Lemmas *)

Lemma claims_app (l k : list (State * bytes)) : claims (l ++ k) = claims l ++ claims k.
Proof. unfold claims. by rewrite filter_app, map_app. Qed.
Lemma elem_of_claims (l : list (State * bytes)) (e : emission) :
  e ∈ claims l <-> exists p, p ∈ l /\ signed_by p.1 p.2 = true /\ e = about p.1.
Proof.
  unfold claims. rewrite list_elem_of_fmap. split.
  - intros (p & -> & [Hs Hp]%list_elem_of_filter). by exists p.
  - intros (p & Hp & Hs & ->). exists p. split; [done|]. by apply list_elem_of_filter.
Qed.
Lemma elem_of_uttered (log : list entry) (e : emission) : e ∈ uttered log <-> exists x, x ∈ log /\ e ∈ let_out x.
Proof. unfold uttered. rewrite list_elem_of_bind. naive_solver. Qed.
Lemma uttered_app (l k : list entry) : uttered (l ++ k) = uttered l ++ uttered k.
Proof. apply bind_app. Qed.

Lemma claims_incl (l k : list (State * bytes)) (e : emission) : (forall p, p ∈ l -> p ∈ k) -> e ∈ claims l -> e ∈ claims k.
Proof. intros H. rewrite !elem_of_claims. naive_solver. Qed.

Lemma about_norm (st : State) : encodable st -> about (norm_state st) = about st.
Proof. intros. unfold about, digest_of. by rewrite Digest_norm. Qed.
Lemma signed_by_norm (st : State) (sig : bytes) : encodable st -> signed_by (norm_state st) sig = signed_by st sig.
Proof. intros. unfold signed_by, digest_of. by rewrite Digest_norm. Qed.
Lemma claims_norm (st : State) (sig : bytes) : encodable st -> claims [(norm_state st, sig)] = claims [(st, sig)].
Proof.
  intros He. unfold claims. rewrite !filter_cons. cbn [fst snd]. rewrite signed_by_norm by done.
  destruct (decide _); cbn; [by rewrite about_norm|done].
Qed.
Lemma claims_both_norm (ss : SignedState) : encodable (ss_State ss) -> claims (both (norm_signed ss)) = claims (both ss).
Proof.
  intros He. unfold both, norm_signed. cbn [ss_State ss_SigA ss_SigB].
  change (claims ([(norm_state (ss_State ss), ss_SigA ss)] ++ [(norm_state (ss_State ss), ss_SigB ss)]) =
    claims ([(ss_State ss, ss_SigA ss)] ++ [(ss_State ss, ss_SigB ss)])).
  by rewrite !claims_app, !claims_norm.
Qed.

Lemma signed_by_empty (st : State) : signed_by st [] = false.
Proof. done. Qed.
Lemma claims_unsigned (ss : SignedState) : ss_SigA ss = [] -> ss_SigB ss = [] -> claims (both ss) = [].
Proof. intros E1 E2. unfold both. by rewrite E1, E2. Qed.

(** The domain of a record is the node's own. *)
Definition own_domain (h : Holding) : Prop := ho_Contract h = contract /\ ho_Chain h = orZero chain.
Lemma own_digest (c : Channel) (st : State) : own_domain (held c) -> Digest st (ch_ChainID c) (ch_Contract c) = digest_of st.
Proof. intros [E1 E2]. cbn in *. unfold digest_of. rewrite E1, <- (Digest_chain st (ch_ChainID c)), E2. apply Digest_chain. Qed.

(** What every record satisfies: this node is a party of it, its latest state is
    the unsigned opening one or signed by both parties, and its pending proposal
    is this node's. *)
Record holding_sound (h : Holding) : Prop := {
  hs_typed : holding_typed h;
  hs_domain : own_domain h;
  hs_party : ho_PartyA h = self \/ ho_PartyB h = self;
  hs_latest : (ss_SigA (ho_Latest h) = [] /\ ss_SigB (ho_Latest h) = [] /\ ho_Unapplied h = true) \/
    (st_Channel (ss_State (ho_Latest h)) = ho_ID h /\
     RecoverSigner (digest_of (ss_State (ho_Latest h))) (ss_SigA (ho_Latest h)) = Ok (ho_PartyA h) /\
     RecoverSigner (digest_of (ss_State (ho_Latest h))) (ss_SigB (ho_Latest h)) = Ok (ho_PartyB h));
  hs_pending : forall p, ho_Pending h = Some p -> st_Channel p.1 = ho_ID h /\ signed_by p.1 p.2 = true
}.
End Said.

(** ** The log and the records agree *)

Section Accounted.
Context `{Crypto : ChannelCrypto} {S : Type} `{Com : Committer S} `{!CommitterLaws S}.
Context (self : bytes) (chain : option Z) (contract : bytes).
Abbreviation uttered := (uttered self chain contract).
Abbreviation holds := (holds self chain contract).
Abbreviation sound := (holding_sound self chain contract).

(** Every record a restart may find remembers what was said, and holds nothing
    that contradicts it; what the live record holds, every one agrees with. *)
Record accounted (log : list entry) (s : S) : Prop := {
  ac_filed : well_filed s;
  ac_kept : forall j, is_Some (cm_channel s j) -> cm_kept s j;
  ac_sound : forall j x, cm_possible s j x -> sound (held x);
  ac_covers : forall j c x k d, cm_channel s j = Some c -> cm_possible s j x -> covered c k d -> covered x k d;
  ac_live : forall j c x id k d d', cm_channel s j = Some c -> cm_possible s j x ->
    (id, k, d) ∈ holds (held c) -> (id, k, d') ∈ holds (held x) -> d = d';
  ac_self : forall j x id k d d', cm_possible s j x -> (id, k, d) ∈ holds (held x) -> (id, k, d') ∈ holds (held x) -> d = d';
  ac_said : forall id k d, (id, k, d) ∈ uttered log -> remembered s id k d;
  ac_once : forall id k d d', (id, k, d) ∈ uttered log -> (id, k, d') ∈ uttered log -> d = d';
  ac_held : forall j x id k d, cm_possible s j x -> (id, k, d) ∈ holds (held x) ->
    (id, k, d) ∈ uttered log \/ (id = j /\ covered x k d);
  ac_agree : forall j x id k d d', cm_possible s j x -> (id, k, d) ∈ holds (held x) -> (id, k, d') ∈ uttered log -> d = d'
}.

(** A mutation of the record of [j]: it keeps what must be kept, and adds at most
    one signature of this node that it had not let out before, at a nonce above the latest. *)
Record moved (log : list entry) (j : bytes) (c c' : Channel) : Prop := {
  mv_keeps : keeps c c';
  mv_sound : sound (held c');
  mv_new : exists new : option (Z * bytes),
    (forall k d, new = Some (k, d) -> st_Nonce (ss_State (ch_Latest c)) < k /\
       (ch_Signed c !! k = None \/ ch_Signed c !! k = Some d) /\ covered c' k d) /\
    forall e, e ∈ holds (held c') ->
      e ∈ holds (held c) \/ e ∈ uttered log \/ exists k d, e = (j, k, d) /\ new = Some (k, d)
}.

Lemma moved_same (log : list entry) (j : bytes) (c c' : Channel) :
  keeps c c' -> sound (held c') -> (forall e, e ∈ holds (held c') -> e ∈ holds (held c) \/ e ∈ uttered log) -> moved log j c c'.
Proof. intros HK HS HH. split; [done|done|]. exists None. split; [done|]. intros e He. destruct (HH e He); auto. Qed.

Lemma covered_fresh (c : Channel) (k : Z) (d d' : bytes) :
  st_Nonce (ss_State (ch_Latest c)) < k -> (ch_Signed c !! k = None \/ ch_Signed c !! k = Some d) -> covered c k d' -> d = d'.
Proof. intros Hk Hs [Hc|Hc]; [lia|]. destruct Hs; congruence. Qed.

Section Moved.
Context (log : list entry) (s : S) (j : bytes) (c c' : Channel) (b : bool).
Hypothesis Hac : accounted log s.
Hypothesis Hc : cm_channel s j = Some c.
Hypothesis Hm : moved log j (set_NeedsReconcile b c) c'.

Lemma moved_agree (id : bytes) (k : Z) (d d' : bytes) :
  (id, k, d) ∈ holds (held c') -> (id, k, d') ∈ uttered log -> d = d'.
Proof.
  destruct (mv_new _ _ _ _ Hm) as (new & Hnew & HH). intros [Ho|[Hu|(k0 & d0 & [= -> -> ->] & E)]]%HH Hu'.
  - exact (ac_agree _ _ Hac _ _ _ _ _ _ (cm_live _ _ _ Hc) Ho Hu').
  - exact (ac_once _ _ Hac _ _ _ _ Hu Hu').
  - destruct (Hnew _ _ E) as (Hk & Hs & _). destruct (ac_said _ _ Hac _ _ _ Hu') as (_ & _ & HM).
    exact (covered_fresh c _ _ _ Hk Hs (HM c (cm_live _ _ _ Hc))).
Qed.

Lemma moved_held (id : bytes) (k : Z) (d : bytes) :
  (id, k, d) ∈ holds (held c') -> (id, k, d) ∈ uttered log \/ (id = j /\ covered c' k d).
Proof.
  destruct (mv_new _ _ _ _ Hm) as (new & Hnew & HH). intros [Ho|[Hu|(k0 & d0 & [= -> -> ->] & E)]]%HH.
  - destruct (ac_held _ _ Hac _ _ _ _ _ (cm_live _ _ _ Hc) Ho) as [?|[-> HC]]; [by left|right].
    split; [done|]. by apply (kp_covered _ _ (mv_keeps _ _ _ _ Hm)).
  - by left.
  - right. split; [done|]. by apply (Hnew _ _ E).
Qed.

Lemma moved_live (id : bytes) (k : Z) (d d' : bytes) :
  (id, k, d) ∈ holds (held c) -> (id, k, d') ∈ holds (held c') -> d = d'.
Proof.
  intros Ho Hn. pose proof (moved_agree id k d' d Hn) as HA. destruct (mv_new _ _ _ _ Hm) as (new & Hnew & HH).
  destruct (HH _ Hn) as [Ho'|[Hu|(k0 & d0 & [= -> -> ->] & E)]].
  - exact (ac_live _ _ Hac _ _ _ _ _ _ _ Hc (cm_live _ _ _ Hc) Ho Ho').
  - exact (ac_agree _ _ Hac _ _ _ _ _ _ (cm_live _ _ _ Hc) Ho Hu).
  - destruct (ac_held _ _ Hac _ _ _ _ _ (cm_live _ _ _ Hc) Ho) as [Hu|[_ HC]]; [by rewrite HA|].
    destruct (Hnew _ _ E) as (Hk & Hs & _). symmetry. exact (covered_fresh c _ _ _ Hk Hs HC).
Qed.

Lemma moved_once (id : bytes) (k : Z) (d d' : bytes) :
  (id, k, d) ∈ holds (held c') -> (id, k, d') ∈ holds (held c') -> d = d'.
Proof.
  intros H1 H2. pose proof (moved_agree id k d d' H1) as A1. pose proof (moved_agree id k d' d H2) as A2.
  pose proof (moved_live id k d d') as L1. pose proof (moved_live id k d' d) as L2.
  destruct (mv_new _ _ _ _ Hm) as (new & Hnew & HH).
  destruct (HH _ H1) as [?|[?|(k0 & d0 & [= -> -> ->] & E)]]; [by apply L1|by rewrite A2|].
  destruct (HH _ H2) as [?|[?|(k1 & d1 & [= <- <-] & E')]]; [by rewrite L2|by apply A1|congruence].
Qed.
End Moved.

Lemma commit_accounted (log : list entry) (s s' : S) (j : bytes) (f : Channel -> outcome chan_err Channel) r :
  accounted log s ->
  (forall c c' b, cm_channel s j = Some c -> f (set_NeedsReconcile b c) = Ok c' -> moved log j (set_NeedsReconcile b c) c') ->
  cm_commit s j f = (s', r) -> accounted log s'.
Proof.
  intros Hac Hf HC. pose proof (ac_filed _ _ Hac) as Hw.
  assert (commit_keeps_at s j f) as HK by (intros c c' b Hc E; exact (mv_keeps _ _ _ _ (Hf c c' b Hc E))).
  destruct (commit_well_filed _ _ _ _ _ Hw HK HC) as [Hw' HR].
  assert (forall c c' b, cm_channel s j = Some c -> f (set_NeedsReconcile b c) = Ok c' -> record_typed j c') as Ht
    by (intros c c' b Hc E; eapply keeps_record_typed; [exact (HK _ _ _ Hc E)|by apply live_typed with s]).
  destruct (decide (is_ok r = true)) as [Hr|Hr].
  - destruct r as [[]| |]; try discriminate Hr.
    destruct (cm_commit_done _ _ _ _ HC) as (c & c' & b & Hc & E & HG & HP & HO & HKj & HKm).
    pose proof (Ht _ _ _ Hc E) as Ht'. pose proof (Hf _ _ _ Hc E) as Hm.
    specialize (HG (rt_id _ _ Ht')). specialize (HO (rt_id _ _ Ht')). specialize (HKj (rt_id _ _ Ht')).
    assert (forall x, cm_possible s' j x -> same_ledger x c' /\ held x = held c') as HP'.
    { intros x Hx. destruct (HP Ht' x Hx) as [HL HH]. split; [done|]. apply HH, (mv_sound _ _ _ _ Hm). }
    assert (forall i x, cm_possible s' i x -> (i = j /\ same_ledger x c' /\ held x = held c') \/ (i <> j /\ cm_possible s i x)) as HX.
    { intros i x Hx. destruct (decide (i = j)) as [->|Hi]; [left|right; split; [done|by apply (HO i Hi)]]. split; [done|by apply HP']. }
    assert (forall i x, i <> j -> cm_channel s' i = Some x -> cm_channel s i = Some x) as HX' by (intros i x Hi; by rewrite (proj1 (HO i Hi))).
    split; [done| | | | | |intros; by apply HR, (ac_said _ _ Hac)|exact (ac_once _ _ Hac)| |].
    + intros i Hi. destruct (decide (i = j)) as [->|Hij]; [done|]. apply HKm, Hac. by rewrite <- (proj1 (HO i Hij)).
    + intros i x [(-> & _ & ->)|[_ Hx]]%HX; [by apply Hm|by eapply (ac_sound _ _ Hac)].
    + intros i y x k d Hy [(-> & HL & _)|[Hi Hx]]%HX HCv; [|exact (ac_covers _ _ Hac _ _ _ _ _ (HX' _ _ Hi Hy) Hx HCv)].
      apply (covered_ledger _ _ _ _ HL). apply (covered_ledger _ _ _ _ (proj1 (HP' y (cm_live _ _ _ Hy)))). exact HCv.
    + intros i y x id k d d' Hy [(-> & _ & ->)|[Hi Hx]]%HX; [|exact (ac_live _ _ Hac _ _ _ _ _ _ _ (HX' _ _ Hi Hy) Hx)].
      rewrite (proj2 (HP' y (cm_live _ _ _ Hy))). exact (moved_once log s j c c' b Hac Hc Hm id k d d').
    + intros i x id k d d' [(-> & _ & ->)|[_ Hx]]%HX; [|exact (ac_self _ _ Hac _ _ _ _ _ _ Hx)].
      exact (moved_once log s j c c' b Hac Hc Hm id k d d').
    + intros i x id k d [(-> & HL & ->)|[_ Hx]]%HX; [|exact (ac_held _ _ Hac _ _ _ _ _ Hx)].
      intros [?|[-> HCv]]%(moved_held log s j c c' b Hac Hc Hm); [by left|right; split; [done|by apply (covered_ledger _ _ _ _ HL)]].
    + intros i x id k d d' [(-> & _ & ->)|[_ Hx]]%HX; [|exact (ac_agree _ _ Hac _ _ _ _ _ _ Hx)].
      exact (moved_agree log s j c c' b Hac Hc Hm id k d d').
  - destruct (cm_commit_failed _ _ _ _ _ HC) as (HG & HKm & HP); [by intros ->|].
    assert (forall i x, cm_possible s' i x -> cm_possible s i x \/
      exists c c' b, i = j /\ cm_channel s j = Some c /\ moved log j (set_NeedsReconcile b c) c' /\ same_ledger x c' /\ held x = held c') as HX.
    { intros i x Hx. destruct (HP i x Hx) as [?|(c & c' & b & Hc & E & HL)]; [by left|right].
      pose proof (Hf _ _ _ Hc E) as Hm. destruct (HL (Ht _ _ _ Hc E)) as (-> & HL' & HH). exists c, c', b.
      do 4 (split; [done|]). apply HH, (mv_sound _ _ _ _ Hm). }
    split; [done| | | | | |intros; by apply HR, (ac_said _ _ Hac)|exact (ac_once _ _ Hac)| |].
    + intros i Hi. rewrite HG in Hi. by apply HKm, Hac.
    + intros i x [Hx|(c & c' & b & -> & _ & Hm & _ & ->)]%HX; [by eapply (ac_sound _ _ Hac)|by apply Hm].
    + intros i y x k d Hy. rewrite HG in Hy. intros [Hx|(c & c' & b & -> & Hc & Hm & HL & _)]%HX HCv; [by eapply (ac_covers _ _ Hac)|].
      rewrite Hy in Hc. injection Hc as <-. apply (covered_ledger _ _ _ _ HL). by apply (kp_covered _ _ (mv_keeps _ _ _ _ Hm)).
    + intros i y x id k d d' Hy. rewrite HG in Hy. intros [Hx|(c & c' & b & -> & Hc & Hm & _ & ->)]%HX; [by apply (ac_live _ _ Hac i)|].
      rewrite Hy in Hc. injection Hc as <-. exact (moved_live log s j y c' b Hac Hy Hm id k d d').
    + intros i x id k d d' [Hx|(c & c' & b & -> & Hc & Hm & _ & ->)]%HX; [exact (ac_self _ _ Hac _ _ _ _ _ _ Hx)|].
      exact (moved_once log s j c c' b Hac Hc Hm id k d d').
    + intros i x id k d [Hx|(c & c' & b & -> & Hc & Hm & HL & ->)]%HX; [exact (ac_held _ _ Hac _ _ _ _ _ Hx)|].
      intros [?|[-> HCv]]%(moved_held log s j c c' b Hac Hc Hm); [by left|right; split; [done|by apply (covered_ledger _ _ _ _ HL)]].
    + intros i x id k d d' [Hx|(c & c' & b & -> & Hc & Hm & _ & ->)]%HX; [exact (ac_agree _ _ Hac _ _ _ _ _ _ Hx)|].
      exact (moved_agree log s j c c' b Hac Hc Hm id k d d').
Qed.

(** What is sent is held by a live record, so it contradicts nothing. *)
Lemma send_accounted (log out : list entry) (s : S) :
  accounted log s ->
  (forall e, e ∈ uttered out -> exists j c, cm_channel s j = Some c /\ e ∈ holds (held c)) -> accounted (out ++ log) s.
Proof.
  intros Hac Hout.
  assert (forall id k d, (id, k, d) ∈ uttered (out ++ log) -> (id, k, d) ∈ uttered log \/
    exists c, cm_channel s id = Some c /\ (id, k, d) ∈ holds (held c) /\ covered c k d) as HU.
  { intros id k d. rewrite uttered_app, elem_of_app. intros [Ho|?]; [|by left]. destruct (Hout _ Ho) as (j & c & Hc & Hh).
    destruct (ac_held _ _ Hac _ _ _ _ _ (cm_live _ _ _ Hc) Hh) as [?|[-> HC]]; [by left|right]. by exists c. }
  assert (forall j x id k d d', cm_possible s j x -> (id, k, d) ∈ holds (held x) -> (id, k, d') ∈ uttered (out ++ log) -> d = d') as HA.
  { intros j x id k d d' Hx Hh [Hu|(c & Hc & Hh' & HC)]%HU; [exact (ac_agree _ _ Hac _ _ _ _ _ _ Hx Hh Hu)|].
    destruct (ac_held _ _ Hac _ _ _ _ _ Hx Hh) as [Hu|[-> _]].
    - symmetry. exact (ac_agree _ _ Hac _ _ _ _ _ _ (cm_live _ _ _ Hc) Hh' Hu).
    - symmetry. exact (ac_live _ _ Hac _ _ _ _ _ _ _ Hc Hx Hh' Hh). }
  split; try apply Hac; [| | |exact HA].
  - intros id k d [Hu|(c & Hc & _ & HC)]%HU; [by apply (ac_said _ _ Hac)|]. split; [by eexists|]. split; [apply Hac; by eexists|].
    intros x Hx. exact (ac_covers _ _ Hac _ _ _ _ _ Hc Hx HC).
  - intros id k d d' Hd [Hu|(c & Hc & Hh & _)]%HU.
    + destruct (HU _ _ _ Hd) as [Hu'|(c & Hc & Hh & _)]; [exact (ac_once _ _ Hac _ _ _ _ Hu' Hu)|].
      exact (ac_agree _ _ Hac _ _ _ _ _ _ (cm_live _ _ _ Hc) Hh Hu).
    + symmetry. exact (HA _ _ _ _ _ _ (cm_live _ _ _ Hc) Hh Hd).
  - intros j x id k d Hx Hh. rewrite uttered_app, elem_of_app. destruct (ac_held _ _ Hac _ _ _ _ _ Hx Hh); auto.
Qed.
End Accounted.

(** ** What each mutation adds *)

Lemma Apply_encodable `{ChannelCrypto} (t : StateTransition) (c : Channel) (p : bytes) (s : State) :
  encodable (ss_State (ch_Latest c)) -> array_ok 32 (ch_ID c) -> array_ok 32 (t_LockID t) -> array_ok 32 (t_Hash t) ->
  Apply t (Some c) p = Ok s -> encodable s.
Proof.
  intros [_ HL HS _ _ _] Hi Hl Hh (_ & a & b & ps & wA & wB & He & ->)%Apply_ok.
  assert (Forall htlc_encodable (base_locks c)) as HL' by (apply (proj2 (Forall_fmap norm_htlc htlc_encodable _)); exact HL).
  assert (StronglySorted lock_lt (base_locks c)) as HS' by (by apply norm_locks_sorted).
  assert (Forall htlc_encodable ps /\ StronglySorted lock_lt ps /\ 0 <= orZero wA /\ 0 <= orZero wB) as (H1 & H2 & H3 & H4).
  { inversion He; subst; try (split; [done|]; split; [done|]; split; done).
    - split; [by apply insertLock_Forall|]. split; [|done]. apply insertLock_sorted; [done|]. by apply findLock_none.
    - split; [by apply removeAt_Forall|]. split; [by apply removeAt_sorted|done].
    - split; [by apply removeAt_Forall|]. split; [by apply removeAt_sorted|done].
    - split; [done|]. split; [done|]. destruct (IsA c p); cbn; lia. }
  split; try done. unfold op. cbn. by destruct (t_Kind t).
Qed.

Lemma parseSig_ok (s : string) (b : bytes) : parseSig s = Ok b -> bytes_ok b /\ length b = 65%nat.
Proof.
  unfold parseSig. destruct (hex_decode s) as [raw|] eqn:E; [|done]. destruct (Nat.eqb_spec (length raw) 65); [|done].
  intros [= <-]. split; [by eapply hex_decode_ok|done].
Qed.
Lemma decodeSignedWire_encodable (w : storedState) (a b : string) (ss : SignedState) :
  decodeSignedWire w a b = Ok ss -> signed_encodable ss.
Proof.
  unfold decodeSignedWire, decodeHex. intros H. repeat outcome_step. subst.
  match goal with H : decodeStateWire _ = Ok _ |- _ => destruct (decoded_encodable _ _ H) as [? _] end.
  split; [done|]. split; by eapply hex_decode_ok.
Qed.

Lemma RecoverSigner_length `{ChannelCrypto} (raw sig a : bytes) : RecoverSigner raw sig = Ok a -> length sig = 65%nat.
Proof. unfold RecoverSigner. destruct (Nat.eqb_spec (length sig) 65); [done|discriminate]. Qed.

Section Mutations.
Context `{Crypto : ChannelCrypto} `{!ChannelCryptoLaws Crypto}.
Context (self : bytes) (chain : option Z) (contract : bytes).
Abbreviation uttered := (uttered self chain contract).
Abbreviation holds := (holds self chain contract).
Abbreviation sound := (holding_sound self chain contract).
Abbreviation moved := (moved self chain contract).
Abbreviation claims := (claims self chain contract).
Abbreviation about := (about chain contract).

Lemma elem_of_holds (h : Holding) (e : emission) :
  e ∈ holds h <-> e ∈ claims (both (ho_Latest h)) \/ (exists p, ho_Pending h = Some p /\ e = about p.1) \/
    exists k, ho_Conflict h = Some k /\ e ∈ claims (both k.1 ++ both k.2).
Proof.
  unfold ChannelSignatures.holds. rewrite !elem_of_app. destruct (ho_Pending h) as [p|], (ho_Conflict h) as [k|];
    rewrite ?list_elem_of_singleton, ?elem_of_nil; naive_solver.
Qed.

(** The record after a state was accepted. *)
Definition accepts (c c' : Channel) (ss : SignedState) : Prop :=
  ch_ID c' = ch_ID c /\ ch_PartyA c' = ch_PartyA c /\ ch_PartyB c' = ch_PartyB c /\ ch_Contract c' = ch_Contract c /\
  ch_ChainID c' = ch_ChainID c /\ ch_Latest c' = ss /\ (ch_Pending c' = ch_Pending c \/ ch_Pending c' = None) /\
  ch_Conflict c' = ch_Conflict c.

Lemma accepts_sound (c c' : Channel) (ss : SignedState) :
  sound (held c) -> accepts c c' ss -> acceptable c ss -> signed_encodable ss -> sound (held c').
Proof.
  intros [Ht Hd Hp _ HP] (E1 & E2 & E3 & E4 & E5 & E6 & E7 & E8) Ha Hs.
  assert (forall p, ho_Pending (held c') = Some p -> ho_Pending (held c) = Some p) as HPp
    by (cbn; destruct E7 as [-> | ->]; done).
  split.
  - destruct Ht as [t1 t2 t3 t4 t5 t6 t7]. split; cbn in *; rewrite ?E1, ?E2, ?E3, ?E4, ?E6, ?E8; try done.
    + by apply (proj2 (signed_encodable_norm ss)).
    + destruct E7 as [-> | ->]; done.
  - split; cbn; [rewrite E4|rewrite E5]; apply Hd.
  - cbn. by rewrite E2, E3.
  - right. cbn. rewrite E1, E2, E3, E6. destruct Hs as [Hs _]. unfold norm_signed. cbn [ss_State ss_SigA ss_SigB].
    pose proof (own_digest chain contract c (ss_State ss) Hd) as HO. unfold digest_of in *.
    rewrite !Digest_norm by done. split; [apply Ha|]. rewrite <- HO. split; apply Ha.
  - intros p Hp'. cbn. rewrite E1. by apply HP, HPp.
Qed.

Lemma accepts_holds (c c' : Channel) (ss : SignedState) (e : emission) :
  accepts c c' ss -> encodable (ss_State ss) -> e ∈ holds (held c') -> e ∈ claims (both ss) \/ e ∈ holds (held c).
Proof.
  intros (_ & _ & _ & _ & _ & E6 & E7 & E8) He. rewrite !elem_of_holds. cbn [held ho_Latest ho_Pending ho_Conflict]. rewrite E6, E8, claims_both_norm by done.
  intros [?|[H|?]]; [by left| |right; by right; right]. right. right. left. destruct E7 as [E|E]; rewrite E in H; [done|]. naive_solver.
Qed.

Lemma claims_both_about (ss : SignedState) (e : emission) : e ∈ claims (both ss) -> e = about (ss_State ss).
Proof. rewrite elem_of_claims. intros (p & Hp & _ & ->). unfold both in Hp. set_solver. Qed.

Lemma moved_note_proposal (log : list entry) (j : bytes) (c c' : Channel) (now : Z) (p : PendingProposal) :
  sound (held c) -> ch_ID c = j -> ch_Pending c = None -> st_Channel (pp_State p) = j ->
  encodable (pp_State p) -> bytes_ok (pp_Sig p) -> signed_by self chain contract (pp_State p) (pp_Sig p) = true ->
  let n := st_Nonce (pp_State p) in let raw := digest_of chain contract (pp_State p) in
  st_Nonce (ss_State (ch_Latest c)) < n -> u_range 64 n ->
  ch_Signed c !! n = None \/ ch_Signed c !! n = Some raw ->
  note_proposal now p raw c = Ok c' -> moved log j c c'.
Proof.
  intros [Ht Hd Hp HL HP] Hi Hn Hj He Hb Hsg n raw Hlt Hr Hs Hf.
  destruct (note_proposal_keeps c c' now p raw Hs Hr (Digest_array _ _ _) Hf) as (K & _ & _ & _ & V).
  injection Hf as <-. split; [done| |].
  - split; try done.
    + destruct Ht. split; try done. cbn. split; [by apply (proj2 (encodable_norm _))|done].
    + intros q [= <-]. cbn. split; [congruence|]. by rewrite signed_by_norm.
  - exists (Some (n, raw)). split; [by intros k d [= <- <-]|]. intros e. rewrite !elem_of_holds. cbn.
    intros [?|[(q & [= <-] & ->)|?]]; [left; by left| |left; by right; right].
    right. right. exists n, raw. split; [|done]. cbn. rewrite about_norm by done. by rewrite <- Hj.
Qed.

Lemma moved_complete (log : list entry) (j : bytes) (c c' : Channel) (now : Z) (p : PendingProposal) (ss : SignedState) :
  sound (held c) -> ch_Pending c = Some p -> ss_State ss = pp_State p -> signed_encodable ss -> 0 <= st_Nonce (pp_State p) ->
  complete_proposal now p ss c = Ok c' -> moved log j c c'.
Proof.
  intros HS Hp Est He H0 Hf. rewrite <- Est in H0. destruct (complete_proposal_keeps c c' now p ss H0 Hf) as [K _].
  unfold complete_proposal in Hf. apply obind_ok in Hf as (c1 & HA & [= <-]). apply Accept_iff in HA as [HA ->].
  match goal with |- moved _ _ _ ?x => set (c' := x) end.
  assert (accepts c c' ss) as HX by (repeat split; by right).
  apply moved_same; [done|by eapply accepts_sound|]. intros e [Hc|?]%(accepts_holds c c' ss e HX (proj1 He)); [|by left].
  left. apply claims_both_about in Hc as ->. apply elem_of_holds. right. left. cbn. rewrite Hp. eexists. split; [done|].
  cbn. rewrite Est, about_norm; [done|]. rewrite <- Est. apply He.
Qed.

Lemma moved_adopt (log : list entry) (j : bytes) (c c' : Channel) (now : Z) (intent : bytes) (tr : StateTransition) (ss : SignedState) :
  let n := st_Nonce (ss_State ss) in let raw := digest_of chain contract (ss_State ss) in
  sound (held c) -> ch_ID c = j -> signed_encodable ss -> st_Nonce (ss_State (ch_Latest c)) < n -> u_range 64 n ->
  ch_Signed c !! n = None \/ ch_Signed c !! n = Some raw ->
  adopt_proposal now intent tr ss raw c = Ok c' -> moved log j c c'.
Proof.
  intros n raw HS Hi He Hlt Hr Hs Hf.
  destruct (adopt_proposal_keeps c c' now intent tr ss raw Hr (Digest_array _ _ _) Hf) as (K & L & _).
  unfold adopt_proposal in Hf. apply obind_ok in Hf as (c1 & HA & [= <-]). apply Accept_iff in HA as [HA ->].
  match goal with |- moved _ _ _ ?x => set (c' := x) in * end.
  assert (accepts c c' ss) as HX by (repeat split; by left). split; [done|by eapply accepts_sound|].
  exists (Some (n, raw)). split.
  { intros k d [= <- <-]. do 2 (split; [done|]). left. rewrite L. unfold n. lia. }
  intros e [Hc|?]%(accepts_holds c c' ss e HX (proj1 He)); [|by left]. right. right. exists n, raw. split; [|done].
  apply claims_both_about in Hc as ->. unfold ChannelSignatures.about. rewrite <- Hi. by rewrite (acc_channel _ _ HA).
Qed.

Lemma moved_newer (log : list entry) (j : bytes) (c c' : Channel) (now : Z) (ss : SignedState) :
  sound (held c) -> signed_encodable ss -> 0 <= st_Nonce (ss_State ss) ->
  (forall e, e ∈ claims (both ss) -> e ∈ uttered log) -> adopt_newer now ss c = Ok c' -> moved log j c c'.
Proof.
  intros HS He H0 Hau Hf. destruct (adopt_newer_keeps c c' now ss H0 Hf) as [K _].
  unfold adopt_newer in Hf. apply obind_ok in Hf as (c1 & HA & [= <-]). apply Accept_iff in HA as [HA ->].
  match goal with |- moved _ _ _ ?x => set (c' := x) in * end.
  assert (accepts c c' ss) as HX.
  { unfold c'. change (ch_Pending (adopted c ss)) with (ch_Pending c). destruct (ch_Pending c) as [p|]; [destruct (_ <=? _)|];
      repeat split; (by left) || by right. }
  apply moved_same; [done|by eapply accepts_sound|]. intros e [Hc|?]%(accepts_holds c c' ss e HX (proj1 He)); [|by left]. right. by apply Hau.
Qed.

(** A record with the same identity and latest state, that dropped its proposal or kept it. *)
Lemma moved_conflict (log : list entry) (j : bytes) (c c' : Channel) (k : Z) (mine theirs : SignedState) :
  sound (held c) -> signed_encodable mine -> signed_encodable theirs ->
  (forall e, e ∈ claims (both mine) -> e ∈ holds (held c) \/ e ∈ uttered log) ->
  (forall e, e ∈ claims (both theirs) -> e ∈ uttered log) ->
  record_conflict k mine theirs c = Ok c' -> moved log j c c'.
Proof.
  intros [Ht Hd Hp HL HP] H1 H2 A1 A2 Hf. destruct (record_conflict_keeps c c' k mine theirs Hf) as [K _]. injection Hf as <-.
  apply moved_same; [done| |].
  - split; try done. destruct Ht. split; try done. cbn. split; by apply (proj2 (signed_encodable_norm _)).
  - intros e. rewrite !elem_of_holds. cbn [held ho_Latest ho_Pending ho_Conflict set_PendingProposal set_Conflict ch_Latest ch_Pending ch_Conflict fmap option_fmap option_map].
    intros [?|[(q & [=] & _)|(k' & [= <-] & Hk)]]; [left; by left|].
    cbn [held_conflict cr_Mine cr_Theirs fst snd] in Hk. rewrite claims_app, elem_of_app, !claims_both_norm in Hk by (apply H1 || apply H2).
    destruct Hk as [Hm|?]; [|right; by apply A2].
    destruct (A1 _ Hm) as [Hh|?]; [left|by right]. apply elem_of_holds in Hh. exact Hh.
Qed.

Lemma moved_held_same (log : list entry) (j : bytes) (c c' : Channel) :
  keeps c c' -> sound (held c) -> held c' = held c -> moved log j c c'.
Proof. intros K HS E. apply moved_same; [done|by rewrite E|]. intros e. rewrite E. by left. Qed.

Lemma moved_drop (log : list entry) (j : bytes) (c c' : Channel) (now : Z) (b : StateRejectBody) :
  sound (held c) -> drop_proposal now b c = Ok c' -> moved log j c c'.
Proof.
  intros HS Hf. destruct (drop_proposal_keeps c c' now b Hf) as [K _]. unfold drop_proposal in Hf.
  destruct (ch_Pending c) as [p|]; [|injection Hf as <-; by apply moved_held_same].
  destruct (String.eqb _ _); injection Hf as <-; [|by apply moved_held_same]. destruct HS as [Ht Hd Hp HL HP].
  apply moved_same; [done| |].
  - split; try done. by destruct Ht.
  - intros e. rewrite !elem_of_holds. cbn. intros [?|[(q & [=] & _)|?]]; left; [by left|by right; right].
Qed.

Lemma moved_refresh (log : list entry) (j : bytes) (c c' : Channel) (occ : OnChainChannel) :
  sound (held c) -> refresh_record occ c = Ok c' -> moved log j c c'.
Proof.
  intros HS Hf. pose proof (refresh_keeps c c' occ Hf) as K. unfold refresh_record in Hf. apply guard_err_ok in Hf as [_ [= <-]].
  by apply moved_held_same.
Qed.
End Mutations.

(** ** What each message lets out *)

Section Messages.
Context `{Crypto : ChannelCrypto} `{!ChannelCryptoLaws Crypto}.
Context (cfg : PeerSession) (chain : option Z) (contract : bytes).
Abbreviation self := (ps_self cfg).
Abbreviation holds := (holds self chain contract).
Abbreviation sound := (holding_sound self chain contract).
Abbreviation claims := (claims self chain contract).
Abbreviation about := (about chain contract).
Abbreviation let_out := (let_out self chain contract).
Abbreviation meaningful := (meaningful self chain contract).

(** A message of the node that holds [c]: what it lets out the record holds, and it bears a signature when it should. *)
Definition vouched (c : Channel) (m : Message) : Prop :=
  (forall e, e ∈ let_out (Some c, m) -> e ∈ holds (held c)) /\ meaningful (Some c, m).

Lemma vouched_quiet (oc : option Channel) (m : Message) :
  match m_Body m with MsgStatePropose _ | MsgStateAccept _ | MsgStateResponse _ | MsgConflict _ => False | _ => True end ->
  let_out (oc, m) = [] /\ meaningful (oc, m).
Proof.
  intros H. unfold ChannelSignatures.let_out, ChannelSignatures.meaningful, carried, completed. cbn [fst snd].
  by destruct (m_Body m).
Qed.

Lemma vouched_proposal (c : Channel) (p : PendingProposal) :
  sound (held c) -> ch_Pending c = Some p -> vouched c (proposalEnvelope c p).
Proof.
  intros [Ht _ _ _ HP] Hp. assert (ho_Pending (held c) = Some (held_pending p)) as Hp' by (cbn; by rewrite Hp).
  destruct (HP _ Hp') as [_ Hsg]. pose proof (ht_pending _ Ht) as He. rewrite Hp' in He. destruct He as [He Hb].
  cbn [held_pending fst snd] in *.
  assert (length (pp_Sig p) = 65%nat) as Hl.
  { unfold signed_by in Hsg. destruct (RecoverSigner _ _) eqn:E; try discriminate Hsg. by eapply RecoverSigner_length. }
  assert (let_out (Some c, proposalEnvelope c p) = [about (norm_state (pp_State p))]) as HL.
  { unfold ChannelSignatures.let_out, carried, completed, proposalEnvelope, newEnvelope. cbn [fst snd m_Body spb_State spb_Sig].
    rewrite decode_encode_state by (by apply (proj1 (encodable_norm _))). rewrite parseSig_encode by (by split).
    rewrite app_nil_r. unfold ChannelSignatures.claims. rewrite filter_cons. cbn [fst snd]. by rewrite decide_True. }
  split; [|unfold ChannelSignatures.meaningful; cbn [fst snd proposalEnvelope newEnvelope m_Body]; by rewrite HL].
  intros e. rewrite HL, list_elem_of_singleton. intros ->. apply elem_of_holds. right. left. by exists (held_pending p).
Qed.

(** The slot of this node, of a state both parties signed. *)
Lemma own_slot (c : Channel) :
  sound (held c) -> ss_SigA (ch_Latest c) <> [] \/ ch_Applied c <> ∅ ->
  let sig := if IsA c self then ss_SigA (ch_Latest c) else ss_SigB (ch_Latest c) in
  bytes_ok sig /\ length sig = 65%nat /\ signed_by self chain contract (ss_State (ch_Latest c)) sig = true.
Proof.
  intros [Ht _ Hp HL _] Hn sig. destruct (proj1 (signed_encodable_norm _) (ht_latest _ Ht)) as (He & HbA & HbB).
  destruct HL as [(E1 & _ & EU)|(_ & HA & HB)].
  { cbn in E1, EU. apply bool_decide_eq_true in EU. by destruct Hn. }
  cbn in HA, HB, Hp. unfold digest_of in HA, HB. rewrite Digest_norm in HA, HB by done.
  assert (bytes_ok sig /\ RecoverSigner (digest_of chain contract (ss_State (ch_Latest c))) sig = Ok self) as [Hb HR].
  { unfold sig, IsA, digest_of. case_bool_decide as EA; [by rewrite EA|]. split; [done|]. rewrite HB. destruct Hp; congruence. }
  split; [done|]. split; [by eapply RecoverSigner_length|]. unfold signed_by. rewrite HR. by apply bool_decide_eq_true_2.
Qed.

Lemma own_slot_both (c : Channel) : (ss_State (ch_Latest c), if IsA c self then ss_SigA (ch_Latest c) else ss_SigB (ch_Latest c)) ∈ both (ch_Latest c).
Proof. unfold both. destruct (IsA c self); set_solver. Qed.

Lemma latest_holds (c : Channel) (e : emission) : sound (held c) -> e ∈ claims (both (ch_Latest c)) -> e ∈ holds (held c).
Proof.
  intros [Ht _ _ _ _] He. destruct (proj1 (signed_encodable_norm _) (ht_latest _ Ht)) as (Hs & _).
  apply elem_of_holds. left. cbn [held ho_Latest]. by rewrite claims_both_norm.
Qed.

Lemma vouched_accept (c : Channel) (ih : string) (k : Z) :
  sound (held c) -> ch_Applied c <> ∅ -> vouched c (acceptEnvelope cfg c ih k).
Proof.
  intros HS Ha. destruct (own_slot c HS (or_intror Ha)) as (Hb & Hl & Hsg).
  assert (let_out (Some c, acceptEnvelope cfg c ih k) = [about (ss_State (ch_Latest c))]) as HL.
  { unfold ChannelSignatures.let_out, carried, completed, acceptEnvelope, newEnvelope. cbn [fst snd m_Body sab_Sig app].
    rewrite parseSig_encode by (by split). unfold ChannelSignatures.claims. rewrite filter_cons. cbn [fst snd]. by rewrite decide_True. }
  split; [|unfold ChannelSignatures.meaningful; cbn [fst snd acceptEnvelope newEnvelope m_Body]; by rewrite HL].
  intros e. rewrite HL, list_elem_of_singleton. intros ->. apply latest_holds; [done|]. apply elem_of_claims.
  eexists. split; [apply own_slot_both|done].
Qed.

Lemma vouched_response (c : Channel) : sound (held c) -> vouched c (stateResponse c).
Proof.
  intros HS. pose proof (hs_typed _ _ _ _ HS) as Ht.
  assert (signed_encodable (ch_Latest c)) as He by exact (proj1 (signed_encodable_norm _) (ht_latest _ Ht)).
  unfold vouched, ChannelSignatures.meaningful, ChannelSignatures.let_out, stateResponse, newEnvelope, completed, carried.
  destruct (Complete (ch_Latest c)) eqn:EC; cbn [fst snd m_Body srs_State srs_SigA srs_SigB srs_Have].
  - rewrite decode_signed_wire_encode by done. cbn [both_of]. rewrite app_nil_r, claims_both_norm by apply He.
    split; [intros e; by apply latest_holds|]. intros _ E.
    apply Complete_true in EC as [EA _]. destruct (own_slot c HS) as (_ & _ & Hsg); [left; by intros E'; rewrite E' in EA|].
    assert (about (ss_State (ch_Latest c)) ∈ claims (both (ch_Latest c))) as Hin
      by (apply elem_of_claims; eexists; split; [apply own_slot_both|done]).
    rewrite E in Hin. by apply elem_of_nil in Hin.
  - split; [|done]. intros e He'. by apply elem_of_nil in He'.
Qed.

Lemma vouched_conflict (c : Channel) (k : ConflictRecord) (m : Message) :
  sound (held c) -> ch_Conflict c = Some k ->
  m = newEnvelope (ch_ID c) (MsgConflict (mkConflict (cr_Nonce k)
        (encodeStateWire (ss_State (cr_Mine k))) (hex_encode (ss_SigA (cr_Mine k))) (hex_encode (ss_SigB (cr_Mine k)))
        (encodeStateWire (ss_State (cr_Theirs k))) (hex_encode (ss_SigA (cr_Theirs k))) (hex_encode (ss_SigB (cr_Theirs k))))) ->
  vouched c m.
Proof.
  intros [Ht _ _ _ _] Hk ->. pose proof (ht_conflict _ Ht) as He. cbn in He. rewrite Hk in He. destruct He as [H1 H2].
  apply (proj1 (signed_encodable_norm _)) in H1, H2. split; [|done]. intros e.
  unfold ChannelSignatures.let_out, newEnvelope, completed, carried.
  cbn [fst snd m_Body cb_Mine cb_MineA cb_MineB cb_Yours cb_YoursA cb_YoursB].
  rewrite !decode_signed_wire_encode by done. cbn [both_of]. rewrite app_nil_r. intros Hin. apply elem_of_holds. right. right.
  exists (held_conflict k). cbn. by rewrite Hk.
Qed.
End Messages.

(** ** The handlers *)

Section Handlers.
Context `{Crypto : ChannelCrypto} `{!ChannelCryptoLaws Crypto}.
Context {S : Type} `{Com : Committer S} `{!CommitterLaws S}.
Context (sign : bytes -> option bytes) (err_text : chan_err -> string).
Context (cfg : PeerSession) (chain : option Z) (contract : bytes).
Abbreviation self := (ps_self cfg).
Abbreviation holds := (holds self chain contract).
Abbreviation sound := (holding_sound self chain contract).
Abbreviation accounted := (accounted self chain contract).
Abbreviation vouched := (vouched cfg chain contract).
Abbreviation authentic := (authentic self chain contract).

(** The wallet signs with this node's key. *)
Definition wallet_signs : Prop :=
  forall raw sig, array_ok 32 raw -> sign raw = Some sig -> RecoverSigner raw sig = Ok self /\ bytes_ok sig.
Hypothesis Hsign : wallet_signs.

(** The nonces in use are below the last uint64, where [Apply] would wrap. *)
Definition nonce_left (c : Channel) : Prop := 0 <= st_Nonce (ss_State (ch_Latest c)) < 2 ^ 64 - 1.

Lemma next_nonce_left (c : Channel) : nonce_left c -> next_nonce c = st_Nonce (ss_State (ch_Latest c)) + 1.
Proof. unfold nonce_left, next_nonce, wrap_u. intros H. rewrite Z.mod_small; lia. Qed.

Lemma live_sound (log : list entry) (s : S) (j : bytes) (c : Channel) :
  accounted log s -> cm_channel s j = Some c -> sound (held c) /\ ch_ID c = j.
Proof.
  intros Hac Hc. pose proof (cm_live _ _ _ Hc) as HP. split; [by eapply (ac_sound _ _ _ _ _ Hac)|].
  apply (rt_id _ _ (ac_filed _ _ _ _ _ Hac _ _ HP)).
Qed.

Lemma wallet_signed (c : Channel) (st : State) (sig : bytes) :
  sound (held c) -> sign (Digest st (ch_ChainID c) (ch_Contract c)) = Some sig ->
  signed_by self chain contract st sig = true /\ bytes_ok sig.
Proof.
  intros HS E. destruct (Hsign _ _ (Digest_array _ _ _) E) as [HR Hb]. split; [|done].
  rewrite (own_digest chain contract) in HR by apply HS. unfold signed_by. rewrite HR. by apply bool_decide_eq_true_2.
Qed.

Lemma Propose_accounted (log : list entry) (now : Z) (n n' : Node S) (id intent : bytes) (tr : StateTransition) r :
  accounted log (n_store n) -> (forall c, cm_channel (n_store n) id = Some c -> nonce_left c) ->
  array_ok 32 (t_LockID tr) -> array_ok 32 (t_Hash tr) ->
  Propose sign cfg now n id intent tr = (n', r) -> accounted log (n_store n').
Proof.
  intros Hac Hn Hl Hh [[-> _]|(c & next & sig & s' & rc & Hc & Hp & _ & _ & HA & Hsig & _ & Hs & HC & -> & _)]%Propose_inv; [done|].
  destruct (live_sound _ _ _ _ Hac Hc) as [HS Hi]. destruct (wallet_signed c next sig HS Hsig) as [Hsg Hb].
  destruct (Apply_nonce _ _ _ _ HA) as [En Ech]. rewrite next_nonce_left in En by auto. pose proof (Hn _ Hc) as HN.
  rewrite (own_digest chain contract) in HC, Hs by apply HS.
  eapply commit_accounted; [exact Hac| |exact HC]. intros c0 c' b Hc0. rewrite Hc in Hc0. injection Hc0 as <-.
  apply moved_note_proposal; cbn; try done; [congruence| |unfold nonce_left in HN; lia|unfold u_range, nonce_left in *; lia].
  eapply Apply_encodable; [| |exact Hl|exact Hh|exact HA].
  - apply (proj1 (signed_encodable_norm _) (ht_latest _ (hs_typed _ _ _ _ HS))).
  - exact (ht_id _ (hs_typed _ _ _ _ HS)).
Qed.

Lemma Propose_sends_pending (now : Z) (n n' : Node S) (id intent : bytes) (tr : StateTransition) (m : Message) :
  well_filed (n_store n) -> Propose sign cfg now n id intent tr = (n', Ok m) ->
  exists c p, cm_channel (n_store n') id = Some c /\ ch_Pending c = Some p /\ m = proposalEnvelope c p.
Proof.
  intros Hw HP. destruct (cm_channel (n_store n) id) as [c|] eqn:Hc; [|unfold Propose in HP; by rewrite Hc in HP].
  destruct (ch_Pending c) as [p|] eqn:Hp.
  - unfold Propose in HP. rewrite Hc, Hp in HP. case_bool_decide; [done|]. case_bool_decide; [|done].
    injection HP as <- <-. by exists c, p.
  - destruct (Propose_fresh sign cfg now n n' id intent tr c m Hw Hc Hp HP) as (c' & p & Hc' & Hp' & _ & _ & _ & Hm & _).
    by exists c', p.
Qed.

Lemma HandleAccept_accounted (log : list entry) (now : Z) (n n' : Node S) (channel : string) (b : StateAcceptBody) r :
  accounted log (n_store n) -> HandleAccept cfg now n channel b = (n', r) -> accounted log (n_store n').
Proof.
  intros Hac. unfold HandleAccept. destruct (parseBytes32 channel) as [id| |]; try (by intros [= <- <-]).
  destruct (cm_channel (n_store n) id) as [c|] eqn:Hc; [|by intros [= <- <-]].
  destruct (ch_Pending c) as [p|] eqn:Hp; [|destruct (bool_decide _); by intros [= <- <-]].
  destruct (negb _); [by intros [= <- <-]|].
  destruct (parseSig _) as [theirs| |] eqn:EG; try (by intros [= <- <-]). destruct (parseSig_ok _ _ EG) as [Hb _].
  destruct (cm_commit _ _ _) as [s' rc] eqn:HC. intros [= <- <-]. destruct (live_sound _ _ _ _ Hac Hc) as [HS Hi].
  pose proof (ht_pending _ (hs_typed _ _ _ _ HS)) as He. cbn in He. rewrite Hp in He. destruct He as [He HbP]. cbn in He, HbP.
  apply (proj1 (encodable_norm _)) in He.
  assert (0 <= st_Nonce (pp_State p)) as H0.
  { apply (rt_pending _ _ (ac_filed _ _ _ _ _ Hac _ _ (cm_live _ _ _ Hc))). unfold pending_nonce. by rewrite Hp. }
  eapply commit_accounted; [exact Hac| |exact HC]. intros c0 c' b0 Hc0. rewrite Hc in Hc0. injection Hc0 as <-.
  apply moved_complete; [done|done|by apply assemble_state| |done].
  unfold signed_encodable, assemble. by destruct (IsA c self).
Qed.

Lemma HandleReject_accounted (log : list entry) (now : Z) (n n' : Node S) (channel : string) (b : StateRejectBody) r :
  accounted log (n_store n) -> HandleReject now n channel b = (n', r) -> accounted log (n_store n').
Proof.
  intros Hac. unfold HandleReject. destruct (parseBytes32 channel) as [id| |]; try (by intros [= <- <-]).
  destruct (cm_commit _ _ _) as [s' rc] eqn:HC. intros [= <- <-]. eapply commit_accounted; [exact Hac| |exact HC].
  intros c c' b0 Hc. apply moved_drop. by destruct (live_sound _ _ _ _ Hac Hc).
Qed.

Lemma decoded_nonce (w : storedState) (a b : string) (ss : SignedState) :
  decodeSignedWire w a b = Ok ss -> st_Nonce (ss_State ss) = sst_Nonce w.
Proof.
  unfold decodeSignedWire. intros H. repeat outcome_step. subst. cbn.
  match goal with H : decodeStateWire _ = Ok _ |- _ => unfold decodeStateWire in H; repeat outcome_step; by subst end.
Qed.

Lemma HandleResponse_accounted (log : list entry) (now : Z) (n n' : Node S) (channel : string) (b : StateResponseBody) r :
  accounted log (n_store n) -> 0 <= sst_Nonce (srs_State b) -> authentic log (mkMessage channel (MsgStateResponse b)) ->
  HandleResponse now n channel b = (n', r) -> accounted log (n_store n').
Proof.
  intros Hac Hb Hau. unfold HandleResponse. destruct (parseBytes32 channel) as [id| |]; try (by intros [= <- <-]).
  destruct (cm_channel (n_store n) id) as [c|] eqn:Hc; [|by intros [= <- <-]]. destruct (negb _); [by intros [= <- <-]|].
  unfold ChannelSignatures.authentic, carried in Hau. cbn [m_Body] in Hau.
  destruct (decodeSignedWire _ _ _) as [theirs| |] eqn:ED; try (by intros [= <- <-]).
  pose proof (decodeSignedWire_encodable _ _ _ _ ED) as He. pose proof (decoded_nonce _ _ _ _ ED) as En.
  destruct (live_sound _ _ _ _ Hac Hc) as [HS _].
  destruct (_ <? _); [|destruct (_ <? _); [by intros [= <- <-]|destruct (is_ok _); [by intros [= <- <-]|]]];
    destruct (cm_commit _ _ _) as [s' rc] eqn:HC; intros [= <- <-];
    (eapply commit_accounted; [exact Hac| |exact HC]); intros c0 c' b0 Hc0; rewrite Hc in Hc0; injection Hc0 as <-.
  - apply moved_newer; [done|done|lia|done].
  - apply moved_conflict; [done| |done| |done].
    + exact (proj1 (signed_encodable_norm _) (ht_latest _ (hs_typed _ _ _ _ HS))).
    + intros e Hx. left. by apply (latest_holds cfg chain contract c e HS).
Qed.

Lemma decode_evidence_ok (body : ConflictBody) (theirs ours : SignedState) :
  decode_evidence body = Ok (theirs, ours) ->
  decodeSignedWire (cb_Mine body) (cb_MineA body) (cb_MineB body) = Ok theirs /\
  decodeSignedWire (cb_Yours body) (cb_YoursA body) (cb_YoursB body) = Ok ours.
Proof.
  unfold decode_evidence. intros (t & Ht & H)%obind_ok. apply obind_ok in H as (o & Ho & H).
  apply guard_err_ok in H as [_ H]. by apply guard_err_ok in H as [_ [= <- <-]].
Qed.

Lemma HandleConflict_accounted (log : list entry) (n n' : Node S) (channel : string) (b : ConflictBody) r :
  accounted log (n_store n) -> authentic log (mkMessage channel (MsgConflict b)) ->
  HandleConflict n channel b = (n', r) -> accounted log (n_store n').
Proof.
  intros Hac Hau. unfold HandleConflict.
  destruct (obind (parseBytes32 channel) _) as [[id [theirs ours]]| |] eqn:ED; try (by intros [= <- <-]).
  destruct (cm_channel (n_store n) id) as [c|] eqn:Hc; [|by intros [= <- <-]]. destruct (bool_decide _); [by intros [= <- <-]|].
  destruct (obind (verifyBothParties c theirs) _) as [[]| |]; try (by intros [= <- <-]).
  destruct (cm_commit _ _ _) as [s' rc] eqn:HC. intros [= <- <-].
  apply obind_ok in ED as (id' & _ & ED). apply obind_ok in ED as ([t o] & ED & [= -> -> ->]). apply decode_evidence_ok in ED as [D1 D2].
  pose proof (decodeSignedWire_encodable _ _ _ _ D1). pose proof (decodeSignedWire_encodable _ _ _ _ D2).
  unfold ChannelSignatures.authentic, carried in Hau. cbn [m_Body] in Hau. rewrite D1, D2 in Hau. cbn [both_of] in Hau.
  rewrite claims_app in Hau.
  eapply commit_accounted; [exact Hac| |exact HC]. intros c0 c' b0 Hc0. rewrite Hc in Hc0. injection Hc0 as <-.
  apply moved_conflict; [by destruct (live_sound _ _ _ _ Hac Hc)|done|done| |]; intros e He; [right|]; apply Hau, elem_of_app; auto.
Qed.

Lemma decode_proposal_ok (body : StateProposeBody) (st : State) (tr : StateTransition) (sig : bytes) :
  decode_proposal err_text body = inl (st, tr, sig) ->
  encodable st /\ bytes_ok sig.
Proof.
  unfold decode_proposal. destruct (decodeStateWire _) as [s| |] eqn:E1; try discriminate.
  destruct (decodeTransitionWire _); try discriminate. destruct (parseSig _) as [g| |] eqn:E2; try discriminate.
  intros [= <- _ <-]. split; [by apply (decoded_encodable _ _ E1)|by apply (parseSig_ok _ _ E2)].
Qed.

Lemma HandlePropose_accounted (log : list entry) (now : Z) (n n' : Node S) (channel : string) (body : StateProposeBody) r :
  accounted log (n_store n) -> (forall id c, cm_channel (n_store n) id = Some c -> nonce_left c) ->
  HandlePropose sign err_text cfg now n channel body = (n', r) -> accounted log (n_store n').
Proof.
  intros Hac Hn [[-> _]|(id & c & st & tr & sg & _ & Hc & _ & _ & _ & HD & HM & _ & HA)]%HandlePropose_inv; [done|].
  apply answer_proposal_inv in HA as [[-> _]|(mySig & s' & rc & _ & _ & Hs & _ & Hsig & HC & -> & _)]; [done|].
  destruct (live_sound _ _ _ _ Hac Hc) as [HS Hi]. destruct (wallet_signed c st mySig HS Hsig) as [_ Hb].
  destruct (decode_proposal_ok _ _ _ _ HD) as [He Hbt]. destruct (Matches_nonce _ _ _ _ HM) as [En _].
  pose proof (Hn _ _ Hc) as HN. rewrite next_nonce_left in En by done. unfold nonce_left in HN.
  rewrite (own_digest chain contract) in HC, Hs by apply HS.
  set (ss := assemble c st sg (other_party c self) mySig) in *. assert (ss_State ss = st) as Est by apply assemble_state.
  rewrite <- Est in HC, Hs, En, He. eapply commit_accounted; [exact Hac| |exact HC].
  intros c0 c' b Hc0. rewrite Hc in Hc0. injection Hc0 as <-.
  apply moved_adopt; [done|done| |cbn; lia|unfold u_range; lia|done].
  split; [done|]. unfold ss, assemble. by destruct (IsA c _).
Qed.

(** The reply to a proposal: a refusal, the latest state, or the acceptance of a
    state some intent of which is applied - fresh or replayed. *)
Lemma HandlePropose_reply (now : Z) (n n' : Node S) (channel : string) (body : StateProposeBody) (m : Message) :
  well_filed (n_store n) -> HandlePropose sign err_text cfg now n channel body = (n', Ok m) ->
  exists id, parseBytes32 channel = Ok id /\
  ((exists code detail, m = reject id (spb_Intent body) code detail) \/
   exists c, cm_channel (n_store n') id = Some c /\
     (m = stateResponse c \/ (ch_Applied c <> ∅ /\ exists k, m = acceptEnvelope cfg c (spb_Intent body) k))).
Proof.
  intros Hw. unfold HandlePropose. destruct (parseBytes32 channel) as [id| |]; [|done..]. intros H. exists id. split; [done|]. revert H.
  destruct (cm_channel (n_store n) id) as [c|] eqn:Hc; [|intros [= <- <-]; left; by eexists _, _].
  case_bool_decide as Hk; [intros [= <- <-]; left; by eexists _, _|].
  destruct (negb (ch_Status c =? StatusOpen)); [intros [= <- <-]; left; by eexists _, _|].
  destruct (AppliedAt c _) as [nonce|] eqn:Ha.
  { intros H. right. exists c. destruct (_ =? _); injection H as <- <-; (split; [done|]); [right|by left].
    split; [|by eexists]. intros E. unfold AppliedAt in Ha. by rewrite E, lookup_empty in Ha. }
  destruct (decode_proposal _ _) as [[[st tr] sg]|[code detail]] eqn:HD; [|intros [= <- <-]; left; by eexists _, _].
  destruct (Matches _ _ _ _) as [[]| |] eqn:HM; [|intros [= <- <-]; left; by eexists _, _|done].
  destruct (checkTiming _ _ _ _) as [[code detail]|]; [intros [= <- <-]; left; by eexists _, _|].
  unfold answer_proposal. destruct (learn_secret tr (n_vault n)) as [v' [[]| |]]; [|done..].
  destruct (match HasSigned c _ with Some _ => _ | None => _ end); [intros [= <- <-]; left; by eexists _, _|].
  destruct (signFor sign c _) as [mySig| |]; [|done..]. destruct (cm_commit _ _ _) as [s' rc] eqn:HC. intros [= <- HR].
  destruct rc as [[]| |]; [|injection HR as <-; left; by eexists _, _|done].
  destruct (cm_channel s' id) as [fresh|] eqn:Hf; [|done]. injection HR as <-. right. exists fresh. split; [done|]. right. split; [|by eexists].
  assert (st_Nonce (ss_State (assemble c st sg (other_party c self) mySig)) = next_nonce c) as En
    by (rewrite assemble_state; apply (Matches_nonce _ _ _ _ HM)).
  assert (u_range 64 (st_Nonce (ss_State (assemble c st sg (other_party c self) mySig)))) as Hr by (rewrite En; apply wrap_u64_range).
  cbn [n_store] in HC. pose proof (adopt_commit_keeps (n_store n) id now (intentOf (spb_Intent body)) tr _ _ Hr (Digest_array st (ch_ChainID c) (ch_Contract c))) as Hkp.
  destruct (commit_done _ _ _ _ Hw Hkp HC) as (c1 & c' & b1 & Hc1 & Hff & _ & HG & _). rewrite HG in Hf. injection Hf as <-.
  destruct (adopt_proposal_keeps _ _ _ _ _ _ _ Hr (Digest_array _ _ _) Hff) as (_ & _ & _ & HA).
  cbn. intros E. by rewrite E, lookup_empty in HA.
Qed.

Lemma HandlePropose_vouched (log : list entry) (now : Z) (n n' : Node S) (channel : string) (body : StateProposeBody) (m : Message) :
  well_filed (n_store n) -> accounted log (n_store n') -> HandlePropose sign err_text cfg now n channel body = (n', Ok m) ->
  exists id, parseBytes32 channel = Ok id /\
  ((let_out self chain contract (cm_channel (n_store n') id, m) = [] /\ meaningful self chain contract (cm_channel (n_store n') id, m)) \/
   exists c, cm_channel (n_store n') id = Some c /\ vouched c m).
Proof.
  intros Hw Hac (id & Hid & H)%HandlePropose_reply; [|done]. exists id. split; [done|].
  destruct H as [(code & detail & ->)|(c & Hc & H)]; [left; by apply vouched_quiet|right]. exists c. split; [done|].
  destruct (live_sound _ _ _ _ Hac Hc) as [HS _].
  destruct H as [->|(Ha & k & ->)]; [by apply vouched_response|by apply vouched_accept].
Qed.
End Handlers.

(** ** Runs of a node *)

Lemma of_option_ok {E A : Type} (e : E) (m : option A) (a : A) : of_option e m = Ok a -> m = Some a.
Proof. destruct m; [by intros [= ->]|done]. Qed.

Section Node.
Context `{Crypto : ChannelCrypto} `{!ChannelCryptoLaws Crypto}.
Context (sign : bytes -> option bytes) (err_text : chan_err -> string).
Context (cfg : PeerSession) (chain : option Z) (contract : bytes).
Abbreviation self := (ps_self cfg).
Abbreviation accounted := (accounted self chain contract).
Abbreviation authentic := (authentic self chain contract).

(** A reply with the record of its channel at the moment it leaves. *)
Definition sent (n' : Node Store) (id : bytes) (r : outcome chan_err Message) : list entry :=
  match r with Ok m => [(Get (n_store n') id, m)] | _ => [] end.
Definition id_of (channel : string) : bytes := match parseBytes32 channel with Ok id => id | _ => [] end.

(** One step of the node, given what it sent so far, and what it sends: the
    caller proposes, the peer's message is handled, the state or a conflict is
    reported, the chain is read ([Coordinator.Adopt] tracks its own channels
    only), or the process dies and restarts from the files with any vault. *)
Inductive node_step (log : list entry) (n : Node Store) : list entry -> Node Store -> Prop :=
| step_propose now id intent tr n' r :
    array_ok 32 (t_LockID tr) -> array_ok 32 (t_Hash tr) ->
    Propose sign cfg now n id intent tr = (n', r) -> node_step log n (sent n' id r) n'
| step_answer now channel body n' r :
    HandlePropose sign err_text cfg now n channel body = (n', r) -> node_step log n (sent n' (id_of channel) r) n'
| step_accept now channel body n' r : HandleAccept cfg now n channel body = (n', r) -> node_step log n [] n'
| step_reject now channel body n' r : HandleReject now n channel body = (n', r) -> node_step log n [] n'
| step_request channel n' r : HandleRequest n channel = (n', r) -> node_step log n (sent n' (id_of channel) r) n'
| step_response now channel body n' r :
    0 <= sst_Nonce (srs_State body) -> authentic log (mkMessage channel (MsgStateResponse body)) ->
    HandleResponse now n channel body = (n', r) -> node_step log n [] n'
| step_conflict channel body n' r :
    authentic log (mkMessage channel (MsgConflict body)) ->
    HandleConflict n channel body = (n', r) -> node_step log n [] n'
| step_report id : node_step log n (sent n id (ConflictMessage n id)) n
| step_track occ s' r :
    array_ok 20 (oc_PartyA occ) -> array_ok 20 (oc_PartyB occ) -> oc_PartyA occ = self \/ oc_PartyB occ = self ->
    TrackFromChain (n_store n) chain contract occ = (s', r) -> node_step log n [] (with_store n s')
| step_refresh occ s' r :
    RefreshFromChain (n_store n) occ = (s', r) -> node_step log n [] (with_store n s')
| step_release id : node_step log n [] (with_store n (clearReconcile (n_store n) id))
| step_crash restored io s' vault :
    OpenStore (s_disk (n_store n)) restored (disk_files (n_store n)) io = Ok s' -> node_step log n [] (mkNode s' vault).

(** Every record still has nonces left. *)
Definition roomy (n : Node Store) : Prop := forall id c, Get (n_store n) id = Some c -> nonce_left c.

(** What left the node, newest first, along a run from [n0]. *)
Inductive node_run (n0 : Node Store) : list entry -> Node Store -> Prop :=
| run_nil : node_run n0 [] n0
| run_cons log n out n' :
    node_run n0 log n -> roomy n -> node_step log n out n' -> node_run n0 (out ++ log) n'.

(** The node as it is first started, with no channel. *)
Definition first_started (n : Node Store) : Prop := s_channels (n_store n) = ∅ /\ s_disk (n_store n) = ∅.

Lemma first_accounted (n : Node Store) : first_started n -> accounted [] (n_store n).
Proof.
  intros [E1 E2].
  assert (forall j, Get (n_store n) j = None) as HG by (intros j; unfold Get; by rewrite E1, lookup_empty).
  assert (forall j x, ~ cm_possible (n_store n) j x) as HP.
  { intros j x [HX|(rec & Hr & _)]; [cbn in HX; by rewrite HG in HX|by rewrite E2, lookup_empty in Hr]. }
  split; try (intros; by (exfalso; eapply HP)).
  - intros j x Hx. by destruct (HP j x).
  - intros j [c Hc]. cbn in Hc. by rewrite HG in Hc.
  - intros id k d Hd. by apply elem_of_nil in Hd.
  - intros id k d d' Hd. by apply elem_of_nil in Hd.
Qed.

(** Nothing is added, and the live record and the others come from one. *)
Lemma release_accounted (log : list entry) (s : Store) (id : bytes) : accounted log s -> accounted log (clearReconcile s id).
Proof.
  intros Hac. pose proof (ac_filed _ _ _ _ _ Hac) as Hw. destruct (release_safe s id Hw) as [Hw' HR].
  assert (forall j c, Get (clearReconcile s id) j = Some c -> exists c0, Get s j = Some c0 /\ same_ledger c c0 /\ held c = held c0) as HG.
  { intros j c. unfold Get. cbn. destruct (s_channels s !! j) as [x|]; [|done]. intros [= <-]. by eexists. }
  assert (forall j x, cm_possible (clearReconcile s id) j x -> exists y, cm_possible s j y /\ same_ledger x y /\ held x = held y) as HP.
  { intros j x [HX|HX]; [|exists x; split; [by right|done]]. destruct (HG j x HX) as (c0 & ? & ?). exists c0. split; [by left|done]. }
  split; [done| | | | | |intros; by apply HR, (ac_said _ _ _ _ _ Hac)|exact (ac_once _ _ _ _ _ Hac)| |].
  - intros j [c Hc]. destruct (HG j c Hc) as (c0 & H0 & _). apply (ac_kept _ _ _ _ _ Hac). by exists c0.
  - intros j x (y & Hy & _ & ->)%HP. by eapply (ac_sound _ _ _ _ _ Hac).
  - intros j c x k d (c0 & H0 & HL0 & _)%HG (y & Hy & HL & _)%HP HC. apply (covered_ledger _ _ _ _ HL).
    apply (covered_ledger _ _ _ _ HL0) in HC. exact (ac_covers _ _ _ _ _ Hac _ _ _ _ _ H0 Hy HC).
  - intros j c x i k d d' (c0 & H0 & _ & ->)%HG (y & Hy & _ & ->)%HP. exact (ac_live _ _ _ _ _ Hac _ _ _ _ _ _ _ H0 Hy).
  - intros j x i k d d' (y & Hy & _ & ->)%HP. exact (ac_self _ _ _ _ _ Hac _ _ _ _ _ _ Hy).
  - intros j x i k d (y & Hy & HL & ->)%HP Hh. destruct (ac_held _ _ _ _ _ Hac _ _ _ _ _ Hy Hh) as [?|[? ?]]; [by left|right].
    split; [done|]. by apply (covered_ledger _ _ _ _ HL).
  - intros j x i k d d' (y & Hy & _ & ->)%HP. exact (ac_agree _ _ _ _ _ Hac _ _ _ _ _ _ Hy).
Qed.

Lemma open_accounted (log : list entry) (s s' : Store) (restored : bool) (io : list disk_result) :
  accounted log s -> OpenStore (s_disk s) restored (disk_files s) io = Ok s' -> accounted log s'.
Proof.
  intros Hac HO. pose proof (ac_filed _ _ _ _ _ Hac) as Hw. destruct (open_safe s s' restored io Hw HO) as [Hw' HR].
  destruct (open_possible s s' restored io Hw HO) as (ED & _ & HP).
  assert (forall j x, cm_possible s' j x -> exists rec y, s_disk s !! j = Some rec /\ decodeChannel rec = Ok y /\
    cm_possible s j y /\ same_ledger x y /\ held x = held y) as HP'.
  { intros j x (rec & y & Hr & HD & HL & HH)%HP. exists rec, y. do 2 (split; [done|]). split; [right; by exists rec|done]. }
  assert (forall j x x', cm_possible s' j x -> cm_possible s' j x' -> exists y, cm_possible s j y /\
    same_ledger x y /\ held x = held y /\ same_ledger x' y /\ held x' = held y) as HT.
  { intros j x x' (rec & y & Hr & HD & Hy & HL & HH)%HP' (rec' & y' & Hr' & HD' & _ & HL' & HH')%HP'. exists y.
    assert (y' = y) as -> by congruence. done. }
  split; [done| | | | | |intros; by apply HR, (ac_said _ _ _ _ _ Hac)|exact (ac_once _ _ _ _ _ Hac)| |].
  - intros j [c Hc]. destruct (HP' j c (cm_live _ _ _ Hc)) as (rec & _ & Hr & _). cbn. rewrite ED. by exists rec.
  - intros j x (_ & y & _ & _ & Hy & _ & ->)%HP'. by eapply (ac_sound _ _ _ _ _ Hac).
  - intros j c x k d Hc%cm_live Hx HC. destruct (HT _ _ _ Hc Hx) as (y & Hy & HL & _ & HL' & _).
    apply (covered_ledger _ _ _ _ HL'). by apply (covered_ledger _ _ _ _ HL).
  - intros j c x i k d d' Hc%cm_live Hx. destruct (HT _ _ _ Hc Hx) as (y & Hy & _ & -> & _ & ->).
    exact (ac_self _ _ _ _ _ Hac _ _ _ _ _ _ Hy).
  - intros j x i k d d' (_ & y & _ & _ & Hy & _ & ->)%HP'. exact (ac_self _ _ _ _ _ Hac _ _ _ _ _ _ Hy).
  - intros j x i k d (_ & y & _ & _ & Hy & HL & ->)%HP' Hh. destruct (ac_held _ _ _ _ _ Hac _ _ _ _ _ Hy Hh) as [?|[? ?]]; [by left|right].
    split; [done|]. by apply (covered_ledger _ _ _ _ HL).
  - intros j x i k d d' (_ & y & _ & _ & Hy & _ & ->)%HP'. exact (ac_agree _ _ _ _ _ Hac _ _ _ _ _ _ Hy).
Qed.

Context (Hcontract : array_ok 20 contract) (Hsign : wallet_signs sign cfg).

Lemma tracked_sound (occ : OnChainChannel) :
  array_ok 32 (oc_ID occ) -> array_ok 20 (oc_PartyA occ) -> array_ok 20 (oc_PartyB occ) ->
  oc_PartyA occ = self \/ oc_PartyB occ = self ->
  holding_sound self chain contract (held (tracked chain contract occ)) /\
  holds self chain contract (held (tracked chain contract occ)) = [].
Proof.
  intros Hi HA HB Hp. split; [|done]. split; try done.
  - split; try done. by apply (proj2 (signed_encodable_norm zero_signed)), zero_signed_encodable.
  - by left.
Qed.

Lemma track_accounted (log : list entry) (s s' : Store) (occ : OnChainChannel) r :
  array_ok 20 (oc_PartyA occ) -> array_ok 20 (oc_PartyB occ) -> oc_PartyA occ = self \/ oc_PartyB occ = self ->
  accounted log s -> TrackFromChain s chain contract occ = (s', r) -> accounted log s'.
Proof.
  intros HA HB Hp Hac HT. pose proof (ac_filed _ _ _ _ _ Hac) as Hw. destruct (track_safe _ _ _ _ _ _ Hw HT) as [Hw' HR].
  destruct (track_inv _ _ _ _ _ _ HT) as [->|(Ht & HN & _ & HG & HD & HL & HP)]; [done|].
  pose proof (rt_width _ _ Ht) as Hi. destruct (tracked_sound occ Hi HA HB Hp) as [HS HE].
  set (c0 := tracked chain contract occ) in *.
  assert (forall j x, cm_possible s' j x -> cm_possible s j x \/ (j = oc_ID occ /\ same_ledger x c0 /\ held x = held c0)) as HX.
  { intros j x [?|(-> & Hl & Hh)]%HP; [by left|right]. do 2 (split; [done|]). apply Hh, HS. }
  assert (forall j c x, Get s' j = Some c -> cm_possible s' j x ->
    (Get s j = Some c /\ cm_possible s j x) \/ (same_ledger c c0 /\ held c = held c0 /\ same_ledger x c0 /\ held x = held c0)) as HLv.
  { intros j c x Hc Hx. destruct (decide (j = oc_ID occ)) as [->|Hj].
    - right. destruct HL as [_ Hnew]; [by eexists|]. destruct (Hnew c (or_introl Hc)) as [? Hh1]. destruct (Hnew x Hx) as [? Hh2].
      split; [done|]. split; [apply Hh1, HS|]. split; [done|apply Hh2, HS].
    - left. split; [by rewrite <- HG|]. by destruct (HX j x Hx) as [?|[-> _]]. }
  split; [done| | | | | |intros; by apply HR, (ac_said _ _ _ _ _ Hac)|exact (ac_once _ _ _ _ _ Hac)| |].
  - intros j Hj. destruct (decide (j = oc_ID occ)) as [->|Hne]; [by apply HL|]. cbn in *. apply HD, (ac_kept _ _ _ _ _ Hac). cbn. by rewrite <- HG.
  - intros j x [Hx|(_ & _ & ->)]%HX; [by eapply (ac_sound _ _ _ _ _ Hac)|done].
  - intros j c x k d Hc Hx HC. destruct (HLv j c x Hc Hx) as [[H1 H2]|(L1 & _ & L2 & _)]; [by eapply (ac_covers _ _ _ _ _ Hac)|].
    apply (covered_ledger _ _ _ _ L2). by apply (covered_ledger _ _ _ _ L1).
  - intros j c x i k d d' Hc Hx. destruct (HLv j c x Hc Hx) as [[H1 H2]|(_ & -> & _)]; [exact (ac_live _ _ _ _ _ Hac _ _ _ _ _ _ _ H1 H2)|].
    rewrite HE. by intros ?%elem_of_nil.
  - intros j x i k d d' [Hx|(_ & _ & ->)]%HX; [exact (ac_self _ _ _ _ _ Hac _ _ _ _ _ _ Hx)|]. rewrite HE. by intros ?%elem_of_nil.
  - intros j x i k d [Hx|(_ & _ & ->)]%HX; [exact (ac_held _ _ _ _ _ Hac _ _ _ _ _ Hx)|]. rewrite HE. by intros ?%elem_of_nil.
  - intros j x i k d d' [Hx|(_ & _ & ->)]%HX; [exact (ac_agree _ _ _ _ _ Hac _ _ _ _ _ _ Hx)|]. rewrite HE. by intros ?%elem_of_nil.
Qed.

Lemma refresh_accounted (log : list entry) (s s' : Store) (occ : OnChainChannel) r :
  accounted log s -> RefreshFromChain s occ = (s', r) -> accounted log s'.
Proof.
  intros Hac. unfold RefreshFromChain. destruct (negb _); [by intros [= <- <-]|]. intros HU.
  eapply commit_accounted; [exact Hac| |exact HU]. intros c c' b Hc. apply moved_refresh. by destruct (live_sound _ _ _ _ _ _ _ Hac Hc).
Qed.

(** A reply that a live record vouches for, or that bears no signature. *)
Lemma sent_accounted (log : list entry) (n' : Node Store) (id : bytes) (r : outcome chan_err Message) :
  accounted log (n_store n') ->
  (forall m, r = Ok m ->
     (let_out self chain contract (Get (n_store n') id, m) = [] /\ meaningful self chain contract (Get (n_store n') id, m)) \/
     exists c, Get (n_store n') id = Some c /\ vouched cfg chain contract c m) ->
  accounted (sent n' id r ++ log) (n_store n') /\ Forall (meaningful self chain contract) (sent n' id r).
Proof.
  intros Hac Hr. destruct r as [m| |]; cbn [sent]; [|by split..]. destruct (Hr m eq_refl) as [[HL HM]|(c & Hc & HV & HM)].
  - split; [|by constructor]. apply send_accounted; [done|]. intros e. unfold uttered. cbn. rewrite HL. by intros ?%elem_of_nil.
  - rewrite Hc. split; [|by constructor]. apply send_accounted; [done|]. intros e. unfold uttered. cbn. rewrite app_nil_r.
    intros He. exists id, c. split; [done|]. by apply HV.
Qed.

Lemma node_step_accounted (log out : list entry) (n n' : Node Store) :
  accounted log (n_store n) -> roomy n -> node_step log n out n' ->
  accounted (out ++ log) (n_store n') /\ Forall (meaningful self chain contract) out.
Proof.
  intros Hac Hn HS. pose proof (ac_filed _ _ _ _ _ Hac) as Hw. destruct HS; try (split; [|by constructor]; cbn [app]).
  - match goal with H : Propose _ _ _ _ _ _ _ = _ |- _ => rename H into HP end.
    assert (accounted log (n_store n')) as Hac' by (eapply Propose_accounted; [exact Hsign|exact Hac|by apply Hn|..|exact HP]; done).
    apply sent_accounted; [done|]. intros m ->. right. destruct (Propose_sends_pending _ _ _ _ _ _ _ _ _ Hw HP) as (c & p & Hc & Hp & ->).
    exists c. split; [done|]. apply vouched_proposal; [|done]. by destruct (live_sound _ _ _ _ _ _ _ Hac' Hc).
  - match goal with H : HandlePropose _ _ _ _ _ _ _ = _ |- _ => rename H into HP end.
    assert (accounted log (n_store n')) as Hac' by (eapply HandlePropose_accounted; [exact Hsign|exact Hac|exact Hn|exact HP]).
    apply sent_accounted; [done|]. intros m ->. destruct (HandlePropose_vouched _ _ _ _ _ _ _ _ _ _ _ _ Hw Hac' HP) as (id & Hid & H).
    unfold id_of. by rewrite Hid.
  - by eapply HandleAccept_accounted.
  - by eapply HandleReject_accounted.
  - match goal with H : HandleRequest _ _ = _ |- _ => injection H as <- <- end. apply sent_accounted; [done|]. intros m Hm.
    apply obind_ok in Hm as (id & Hid & Hm). apply obind_ok in Hm as (c & E%of_option_ok & [= <-]). unfold id_of. rewrite Hid. right. exists c. split; [done|]. apply vouched_response.
    by destruct (live_sound _ _ _ _ _ _ _ Hac E).
  - by eapply HandleResponse_accounted.
  - by eapply HandleConflict_accounted.
  - apply sent_accounted; [done|]. intros m Hm. apply obind_ok in Hm as (c & E%of_option_ok & Hm).
    apply obind_ok in Hm as (k & EK%of_option_ok & [= Hm]). right. exists c. split; [done|].
    destruct (live_sound _ _ _ _ _ _ _ Hac E) as [HSd Hi].
    eapply vouched_conflict; [done|exact EK|]. by rewrite <- Hm, Hi.
  - by eapply track_accounted.
  - by eapply refresh_accounted.
  - by apply release_accounted.
  - by eapply open_accounted.
Qed.

Lemma node_run_accounted (n0 n : Node Store) (log : list entry) :
  first_started n0 -> node_run n0 log n ->
  accounted log (n_store n) /\ Forall (meaningful self chain contract) log.
Proof.
  intros H0. induction 1 as [|log n out n' _ [IA IM] Hn HS]; [split; [by apply first_accounted|constructor]|].
  destruct (node_step_accounted log out n n' IA Hn HS) as [HA HM]. split; [done|]. by apply Forall_app.
Qed.
End Node.

(** C1. Whatever the peer sends, whatever the disk does and however often the node crashes and
    restarts, the messages of the engine (session.go) never let out its signatures over two
    different digests for one channel and nonce: not a proposal or its retries, an acceptance or its
    replays, a reported state or conflict. And every proposal, acceptance and reported state it
    sends bears its signature over the state it is about. The run starts from a node without
    channels, its handlers run one at a time (two goroutines on one snapshot can do worse:
    [racing_proposals_both_leave]), and it tracks its own channels only; its wallet signs with its
    key; no state response or conflict message it receives shows a signature of its own that it had
    not let out (nobody forges one); every nonce in use is below the last uint64, where the next
    would wrap to zero; fields have their Go widths. *)
Theorem never_signs_twice `{ChannelCryptoLaws} (sign : bytes -> option bytes) (err_text : chan_err -> string)
    (cfg : PeerSession) (chain : option Z) (contract : bytes) (n0 n : Node Store) (log : list entry)
    (Hcontract : array_ok 20 contract) (Hsign : wallet_signs sign cfg) (H0 : first_started n0)
    (Hrun : node_run sign err_text cfg chain contract n0 log n) :
  Forall (meaningful (ps_self cfg) chain contract) log /\
  forall id k d1 d2, (id, k, d1) ∈ uttered (ps_self cfg) chain contract log ->
    (id, k, d2) ∈ uttered (ps_self cfg) chain contract log -> d1 = d2.
Proof.
  destruct (node_run_accounted sign err_text cfg chain contract Hcontract Hsign n0 n log H0 Hrun) as [HA HM].
  split; [done|]. exact (ac_once _ _ _ _ _ HA).
Qed.

(** ** A concrete run: track, propose, retry, crash, retry, adopt, report *)

Abbreviation toy_session := (NewPeerSession toy_A).
Definition toy_offer_pay (now : Z) (n : Node Store) : Node Store * outcome chan_err Message :=
  Propose (Crypto := toy_crypto) (toy_signer toy_keyA) toy_session now n toy_id toy_intent (toy_tr KindPay 10).
Definition toy_restart (n : Node Store) : outcome chan_err Store :=
  OpenStore (Crypto := toy_crypto) (s_disk (n_store n)) false (disk_files (n_store n)) [].
Definition toy_countersigned : StateAcceptBody :=
  mkAccept (hex_encode toy_intent) 1
    (hex_encode (toy_sign toy_keyB (@Digest toy_crypto (toy_pay_state 1 50 50) (Some 1) toy_contract))).

Definition toy_n0 : Node Store := mkNode empty_store None.
Definition toy_n1 : Node Store := with_store toy_n0 (TrackFromChain (Crypto := toy_crypto) empty_store (Some 1) toy_contract toy_occ).1.
Definition toy_n2 : Node Store := (toy_offer_pay 1000 toy_n1).1.
Definition toy_n3 : Node Store := (toy_offer_pay 1001 toy_n2).1.
Definition toy_n4 : Node Store := match toy_restart toy_n3 with Ok s => mkNode s None | _ => toy_n0 end.
Definition toy_n5 : Node Store := (toy_offer_pay 1002 toy_n4).1.
Definition toy_n6 : Node Store := (HandleAccept (Crypto := toy_crypto) toy_session 1003 toy_n5 (hex_encode toy_id) toy_countersigned).1.
Definition toy_sent : list entry :=
  sent toy_n6 (id_of (hex_encode toy_id)) (HandleRequest toy_n6 (hex_encode toy_id)).2 ++
  sent toy_n5 toy_id (toy_offer_pay 1002 toy_n4).2 ++ sent toy_n3 toy_id (toy_offer_pay 1001 toy_n2).2 ++
  sent toy_n2 toy_id (toy_offer_pay 1000 toy_n1).2 ++ [].

Definition roomyb (n : Node Store) : bool :=
  forallb (fun e => (0 <=? st_Nonce (ss_State (ch_Latest e.2))) && (st_Nonce (ss_State (ch_Latest e.2)) <? 2 ^ 64 - 1))
    (map_to_list (s_channels (n_store n))).
Lemma roomyb_ok (n : Node Store) : roomyb n = true -> roomy n.
Proof.
  unfold roomyb, roomy, Get. rewrite forallb_forall. intros H id c HG. destruct (s_channels (n_store n) !! id) as [x|] eqn:E; [|done].
  injection HG as <-. apply elem_of_map_to_list, list_elem_of_In in E. specialize (H _ E). cbn in H. zbool. unfold nonce_left. cbn. lia.
Qed.

Lemma toy_wallet_signs : @wallet_signs toy_crypto (toy_signer toy_keyA) toy_session.
Proof.
  intros raw sig _ [= <-]. destruct toy_keys as (E & _ & Hz & _). split; [cbn [ps_self NewPeerSession]; rewrite <- E; by apply toy_sign_recovers|].
  by apply toy_sign_parts.
Qed.

Lemma toy_tr_arrays (n : Z) : array_ok 32 (t_LockID (toy_tr KindPay n)) /\ array_ok 32 (t_Hash (toy_tr KindPay n)).
Proof. split; [apply be_encode_array|exact (keccak256_array _)]. Qed.

Section ToyRun.
Abbreviation toy_run := (@node_run toy_crypto (toy_signer toy_keyA) toy_text toy_session (Some 1) toy_contract toy_n0).
Context (log : list entry) (n : Node Store) (Hrun : toy_run log n) (Hroom : roomyb n = true).

Lemma run_offer (now : Z) : toy_run (sent (toy_offer_pay now n).1 toy_id (toy_offer_pay now n).2 ++ log) (toy_offer_pay now n).1.
Proof.
  destruct (toy_tr_arrays 10) as [T1 T2]. eapply run_cons; [exact Hrun|by apply roomyb_ok|].
  eapply step_propose; [exact T1|exact T2|]. apply surjective_pairing.
Qed.
Lemma run_restart : is_ok (toy_restart n) = true -> toy_run log (match toy_restart n with Ok s => mkNode s None | _ => toy_n0 end).
Proof.
  destruct (toy_restart n) as [s| |] eqn:E; [intros _|done..]. change log with ([] ++ log).
  eapply run_cons; [exact Hrun|by apply roomyb_ok|]. eapply step_crash. exact E.
Qed.
Lemma run_accept (now : Z) (b : StateAcceptBody) : toy_run log (HandleAccept (Crypto := toy_crypto) toy_session now n (hex_encode toy_id) b).1.
Proof.
  change log with ([] ++ log). eapply run_cons; [exact Hrun|by apply roomyb_ok|]. eapply step_accept. apply surjective_pairing.
Qed.
Lemma run_report : toy_run (sent n (id_of (hex_encode toy_id)) (HandleRequest n (hex_encode toy_id)).2 ++ log) n.
Proof. eapply run_cons; [exact Hrun|by apply roomyb_ok|]. by eapply step_request. Qed.
End ToyRun.

Lemma toy_sent_run : @node_run toy_crypto (toy_signer toy_keyA) toy_text toy_session (Some 1) toy_contract toy_n0 toy_sent toy_n6.
Proof.
  assert (@node_run toy_crypto (toy_signer toy_keyA) toy_text toy_session (Some 1) toy_contract toy_n0 [] toy_n1) as R1.
  { change (@nil entry) with (@nil entry ++ []). eapply run_cons; [apply run_nil|apply roomyb_ok; vm_compute; reflexivity|].
    eapply (step_track _ _ _ _ _ [] toy_n0 toy_occ); [apply array_okb_spec; vm_compute; reflexivity..|by left|]. apply surjective_pairing. }
  assert (roomyb toy_n1 = true /\ roomyb toy_n2 = true /\ roomyb toy_n3 = true /\ roomyb toy_n4 = true /\ roomyb toy_n5 = true /\
    roomyb toy_n6 = true /\ is_ok (toy_restart toy_n3) = true) as (B1 & B2 & B3 & B4 & B5 & B6 & BO).
  { repeat split; vm_compute; reflexivity. }
  pose proof (run_offer [] toy_n1 R1 B1 1000) as R2. fold toy_n2 in R2.
  pose proof (run_offer _ toy_n2 R2 B2 1001) as R3. fold toy_n3 in R3.
  pose proof (run_restart _ toy_n3 R3 B3 BO) as R4. fold toy_n4 in R4.
  pose proof (run_offer _ toy_n4 R4 B4 1002) as R5. fold toy_n5 in R5.
  pose proof (run_accept _ toy_n5 R5 B5 1003 toy_countersigned) as R6. fold toy_n6 in R6.
  exact (run_report _ toy_n6 R6 B6).
Qed.

Lemma toy_sent_about : head (@uttered toy_crypto toy_A (Some 1) toy_contract toy_sent) =
    Some (toy_id, 1, @Digest toy_crypto (toy_pay_state 1 50 50) (Some 1) toy_contract) /\
  forallb (fun e => bool_decide (e.1.1 = toy_id) && (e.1.2 =? 1)) (@uttered toy_crypto toy_A (Some 1) toy_contract toy_sent) = true.
Proof. split; vm_compute; reflexivity. Qed.

(** A proposal, a retry, a retry after a crash and the reported state: four
    messages with one signature each, all of them over one digest. *)
Lemma never_signs_twice_witness :
  length toy_sent = 4%nat /\ length (@uttered toy_crypto toy_A (Some 1) toy_contract toy_sent) = 4%nat /\
  forall e, e ∈ @uttered toy_crypto toy_A (Some 1) toy_contract toy_sent ->
    e = (toy_id, 1, @Digest toy_crypto (toy_pay_state 1 50 50) (Some 1) toy_contract).
Proof.
  split; [vm_compute; reflexivity|]. split; [vm_compute; reflexivity|].
  destruct (@never_signs_twice toy_crypto toy_laws (toy_signer toy_keyA) toy_text toy_session (Some 1) toy_contract toy_n0 toy_n6 toy_sent
    (be_encode_array 20 99) toy_wallet_signs (conj eq_refl eq_refl) toy_sent_run) as [_ HU]. cbn [ps_self NewPeerSession] in HU.
  destruct toy_sent_about as [HH HB]. rewrite forallb_forall in HB. intros [[id k] d] He.
  specialize (HB _ (proj1 (list_elem_of_In _ _) He)). apply andb_true_iff in HB as [E1%bool_decide_eq_true E2%Z.eqb_eq].
  cbn [fst snd] in E1, E2. subst id k. f_equal. apply (HU _ _ _ _ He). by apply head_Some_elem_of.
Defined.
