(* ===== verification/ChannelCoordinator.v ===== *)
(** * Payment channels: the coordinator ([internal/channel/coordinator.go],
    [locks.go], the reconciliation of [reconcile.go])

    The single entry point for money: adoption from the chain, payments, the
    dispatch of SCPP messages, recovery, balances, and the release of channels
    restored from a backup.  The chain reader, the peer's [Exchange], the wallet
    and the state sources are arguments.  One operation reads the clock once.
    The aggregate counters are the list of the collector's methods called. *)
From S2P Require Import Prelude.
From S2P Require Import GoBytes.
From S2P Require Import RecordUpdate.
From S2P Require Import ChannelTypes.
From S2P Require Import ChannelCrypto.
From S2P Require Import ChannelState.
From S2P Require Import ChannelTransition.
From S2P Require Import ChannelHistory.
From S2P Require Import ChannelWire.
From S2P Require Import ChannelCommitter.
From S2P Require Import ChannelPreimages.
From S2P Require Import ChannelStore.
From S2P Require Import ChannelSession.
From S2P Require Import ChannelSafety.
From S2P Require Import ChannelProtocol.
From S2P Require Import ChannelCrash.

(** ** Data *)

(** [metrics.go]: the calls the payment path makes. *)
Inductive MetricCall : Type :=
| TipAttempted | TipFailed | TipCompleted (amount : option Z)
| HTLCCreated | HTLCSettled | HTLCRefunded | RoutedPayment.

Record PaymentResult : Type := mkResult {
  r_Done : bool;
  r_Nonce : Z;
  r_Route : string;
  r_Rejected : string;
  r_Detail : string
}.
Definition no_result : PaymentResult := mkResult false 0 "" "" "".
Definition done_result (nonce : Z) : PaymentResult := mkResult true nonce "direct" "" "".

(** The vault is one object; [co_vault] says whether [SetPreimageVault] gave it
    to the coordinator too. *)
Record Coordinator : Type := mkCoordinator {
  co_node : Node Store;
  co_vault : bool;
  co_metrics : list MetricCall
}.
#[export] Instance Coordinator_eta : Eta Coordinator :=
  fun c => mkCoordinator (co_node c) (co_vault c) (co_metrics c).

Definition co_store (co : Coordinator) : Store := n_store (co_node co).
Definition set_store (s : Store) (co : Coordinator) : Coordinator := co <| co_node ::= fun n => with_store n s |>.
Definition metric (m : MetricCall) (co : Coordinator) : Coordinator := co <| co_metrics ::= fun l => l ++ [m] |>.

(** [Store.IDs]: the keys in byte order. *)
Definition key_le (a b : bytes) : Prop := bytes_ltb b a = false.
#[export] Instance key_le_dec (a b : bytes) : Decision (key_le a b).
Proof. unfold key_le. apply _. Defined.
Definition IDs (s : Store) : list bytes := merge_sort key_le (map fst (map_to_list (s_channels s))).

Inductive LockStatus : Type :=
| LockWaiting | LockClaimable | LockLapsed | LockOffered | LockRefundable | LockSettling.
Record LockView : Type := mkLockView {
  lv_Channel : bytes;
  lv_ID : bytes;
  lv_Amount : string;
  lv_Expiry : Z;
  lv_Incoming : bool;
  lv_Status : LockStatus;
  lv_ExpiresIn : Z
}.
Record ExposureView : Type := mkExposure {
  ex_Available : string;
  ex_Incoming : string;
  ex_Outgoing : string;
  ex_Total : string
}.
Record BalancesView : Type := mkBalances {
  bv_ChannelID : bytes;
  bv_PartyA : bytes;
  bv_PartyB : bytes;
  bv_Mine : Z;
  bv_Theirs : Z;
  bv_Locked : Z;
  bv_Nonce : Z;
  bv_Conflicted : bool
}.

(** [locks.go] *)
Definition lockStatus (incoming secretKnown expired : bool) : LockStatus :=
  if incoming then
    if expired then LockLapsed else if secretKnown then LockClaimable else LockWaiting
  else if secretKnown then LockSettling else if expired then LockRefundable else LockOffered.

Definition lockTotals (ch : Channel) (self : bytes) : Z * Z :=
  foldl (fun '(incoming, outgoing) h =>
      if bool_decide (Party ch (h_PayerIsA h) = self)
      then (incoming, outgoing + orZero (h_Amount h))
      else (incoming + orZero (h_Amount h), outgoing))
    (0, 0) (st_Pending (ss_State (ch_Latest ch))).

Section Coordinator.
Context `{Crypto : ChannelCrypto}.
Context (sign : bytes -> option bytes) (err_text : chan_err -> string) (cfg : PeerSession).
Context (chainID : option Z) (contract : bytes).
(** [ChainReader.ReadChannel] on the contract. *)
Context (chain : bytes -> outcome chan_err OnChainChannel).

(** ** Adoption *)

Definition Adopt (s : Store) (id : bytes) : Store * outcome chan_err unit :=
  match Get s id with
  | Some _ => (s, Ok tt)
  | None =>
      match chain id with
      | Err e => (s, Err e)
      | Panic => (s, Panic)
      | Ok occ =>
          if negb (bool_decide (oc_PartyA occ = ps_self cfg)) && negb (bool_decide (oc_PartyB occ = ps_self cfg))
          then (s, Err ErrNotAParticipant)
          else
            let (s', r) := TrackFromChain s (Some (orZero chainID)) contract occ in
            (s', match r with Err ErrChannelExists => Ok tt | r => r end)
      end
  end.

Definition Refresh (s : Store) (id : bytes) : Store * outcome chan_err unit :=
  match Get s id with
  | None => (s, Err ErrChannelNotAdopted)
  | Some _ =>
      match chain id with
      | Err e => (s, Err e)
      | Panic => (s, Panic)
      | Ok occ => RefreshFromChain s occ
      end
  end.

Definition AdoptAnnounced (s : Store) (channel : string) : Store * outcome chan_err unit :=
  match parseBytes32 channel with
  | Err e => (s, Err e)
  | Panic => (s, Panic)
  | Ok id => Adopt s id
  end.

(** ** Outgoing payments *)

Definition recordCompletion (tr : StateTransition) (co : Coordinator) : Coordinator :=
  match t_Kind tr with
  | KindPay => metric (TipCompleted (t_Amount tr)) co
  | KindLockAdd => metric HTLCCreated co
  | KindLockSettle => metric HTLCSettled co
  | KindLockRefund => metric HTLCRefunded co
  | _ => co
  end.

(** The record of a payment whose message may or may not have arrived. *)
Definition unknown_record (now : Z) (intent : bytes) (tr : StateTransition) (e : chan_err) : PaymentRecord :=
  let r := recordFor intent tr false PayUnknown now in
  mkPaymentRecord (pr_Intent r) (pr_Kind r) (pr_Route r) (pr_Incoming r) (pr_Amount r)
    (pr_Status r) (pr_LockID r) (pr_Nonce r) (pr_CreatedAt r) (pr_ResolvedAt r) (err_text e).
Definition note_unknown (now : Z) (intent : bytes) (tr : StateTransition) (e : chan_err) (c : Channel)
    : outcome chan_err Channel :=
  Ok (NotePayment (unknown_record now intent tr e) c).

(** [fresh, _ := c.store.Get(id)], then a field of [fresh]. *)
Definition fresh_nonce (s : Store) (id : bytes) : outcome chan_err Z :=
  match Get s id with
  | Some fresh => Ok (st_Nonce (ss_State (ch_Latest fresh)))
  | None => Panic
  end.

(** The [switch] on the peer's reply. *)
Definition settle_reply (now : Z) (co : Coordinator) (id intent : bytes) (tr : StateTransition) (reply : Message)
    : Coordinator * outcome chan_err PaymentResult :=
  let n := co_node co in
  match m_Body reply with
  | MsgStateAccept b =>
      let (n', r) := HandleAccept cfg now n (m_Channel reply) b in
      let co := co <| co_node := n' |> in
      match r with
      | Err e => (co, Err e)
      | Panic => (co, Panic)
      | Ok _ => (recordCompletion tr co, let? nonce := fresh_nonce (n_store n') id in Ok (done_result nonce))
      end
  | MsgStateReject b =>
      let (n', r) := HandleReject now n (m_Channel reply) b in
      let co := co <| co_node := n' |> in
      match r with
      | Err e => (co, Err e)
      | Panic => (co, Panic)
      | Ok code => (metric TipFailed co, Ok (mkResult false 0 "" code (srb_Detail b)))
      end
  | MsgStateResponse b =>
      let (n', r) := HandleResponse now n (m_Channel reply) b in
      let co := co <| co_node := n' |> in
      match r with
      | Err e => (co, Err e)
      | Panic => (co, Panic)
      | Ok _ =>
          (co, match Get (n_store n') id with
               | None => Panic
               | Some fresh =>
                   match AppliedAt fresh intent with
                   | Some nonce => Ok (done_result nonce)
                   | None => Ok no_result
                   end
               end)
      end
  | _ => (co, Err (ErrText "coordinator: unexpected reply"))
  end.

Section Peer.
(** The other node, as [Peer.Exchange] reaches it. *)
Context {P : Type} (exchange : Message -> P -> P * outcome chan_err Message).

(** [Pay] past the checks that need no message: propose, exchange, settle. *)
Definition attempt (now : Z) (co : Coordinator) (peer : P) (id intent : bytes) (tr : StateTransition)
    : Coordinator * P * outcome chan_err PaymentResult :=
  let co := metric TipAttempted co in
  let (n', r) := Propose sign cfg now (co_node co) id intent tr in
  let co := co <| co_node := n' |> in
  match r with
  | Err e => (metric TipFailed co, peer, Err e)
  | Panic => (co, peer, Panic)
  | Ok propose =>
      let (peer', reply) := exchange propose peer in
      match reply with
      | Err e =>
          let (s', _) := Update (co_store co) id (note_unknown now intent tr e) in
          (metric TipFailed (set_store s' co), peer', Err e)
      | Panic => (co, peer', Panic)
      | Ok reply => let (co', r) := settle_reply now co id intent tr reply in (co', peer', r)
      end
  end.

Definition Pay (now : Z) (co : Coordinator) (peer : P) (id intent : bytes) (tr : StateTransition)
    : Coordinator * P * outcome chan_err PaymentResult :=
  let (s', r) := Adopt (co_store co) id in
  let co := set_store s' co in
  match r with
  | Err e => (co, peer, Err e)
  | Panic => (co, peer, Panic)
  | Ok _ =>
      match Get s' id with
      | None => (co, peer, Err ErrChannelNotAdopted)
      | Some ch =>
          if bool_decide (is_Some (ch_Conflict ch)) then (co, peer, Err ErrConflicted)
          else
            match AppliedAt ch intent with
            | Some nonce => (co, peer, Ok (done_result nonce))
            | None => attempt now co peer id intent tr
            end
      end
  end.

(** ** Recovery *)

Definition Recover (now : Z) (co : Coordinator) (peer : P) (id : bytes)
    : Coordinator * P * outcome chan_err ResyncOutcome :=
  match Resume (co_node co) id with
  | Err e => (co, peer, Err e)
  | Panic => (co, peer, Panic)
  | Ok None => (co, peer, Ok ResyncSame)
  | Ok (Some request) =>
      let (peer', reply) := exchange request peer in
      match reply with
      | Err e => (co, peer', Err e)
      | Panic => (co, peer', Panic)
      | Ok reply =>
          match m_Body reply with
          | MsgStateResponse b =>
              let (n', r) := HandleResponse now (co_node co) (m_Channel reply) b in
              (co <| co_node := n' |>, peer', r)
          | _ => (co, peer', Err (ErrText "coordinator: peer answered a state request with another message"))
          end
      end
  end.

(** The loop of [RecoverAll]; an entry holds the outcome or the error. *)
Fixpoint recover_each (now : Z) (ids : list bytes) (co : Coordinator) (peer : P)
    : Coordinator * P * list (bytes * outcome chan_err ResyncOutcome) :=
  match ids with
  | [] => (co, peer, [])
  | id :: ids =>
      let '(co, peer, r) := Recover now co peer id in
      let '(co, peer, out) := recover_each now ids co peer in
      (co, peer, (id, r) :: out)
  end.
Definition RecoverAll (now : Z) (co : Coordinator) (peer : P) :=
  recover_each now (IDs (co_store co)) co peer.
End Peer.

(** ** Incoming messages *)

(** [parseBytes32] and [Adopt], then a handler that replies. *)
Definition adopt_then (co : Coordinator) (channel : string)
    (k : Node Store -> Node Store * outcome chan_err Message) : Coordinator * outcome chan_err (option Message) :=
  let (s', r) := AdoptAnnounced (co_store co) channel in
  let co := set_store s' co in
  match r with
  | Err e => (co, Err e)
  | Panic => (co, Panic)
  | Ok _ => let (n', reply) := k (co_node co) in (co <| co_node := n' |>, let? m := reply in Ok (Some m))
  end.
(** A handler that does not. *)
Definition silently {A : Type} (co : Coordinator) (x : Node Store * outcome chan_err A)
    : Coordinator * outcome chan_err (option Message) :=
  (co <| co_node := x.1 |>, let? _ := x.2 in Ok None).

Definition Handle (now : Z) (co : Coordinator) (env : Message) : Coordinator * outcome chan_err (option Message) :=
  let ch := m_Channel env in
  match m_Body env with
  | MsgChannelAnnounce =>
      let (s', r) := AdoptAnnounced (co_store co) ch in (set_store s' co, let? _ := r in Ok None)
  | MsgStatePropose b => adopt_then co ch (fun n => HandlePropose sign err_text cfg now n ch b)
  | MsgStateRequest => adopt_then co ch (fun n => HandleRequest n ch)
  | MsgStateResponse b => silently co (HandleResponse now (co_node co) ch b)
  | MsgStateAccept b => silently co (HandleAccept cfg now (co_node co) ch b)
  | MsgStateReject b => silently co (HandleReject now (co_node co) ch b)
  | MsgConflict b => silently co (HandleConflict (co_node co) ch b)
  | MsgHello | MsgClosing | MsgError => (co, Ok None)
  end.

(** ** Observation *)

Definition BalancesOf (co : Coordinator) (id : bytes) : outcome chan_err BalancesView :=
  let? ch := of_option ErrChannelNotAdopted (Get (co_store co) id) in
  let other := if bool_decide (ch_PartyA ch = ps_self cfg) then ch_PartyB ch else ch_PartyA ch in
  let st := ss_State (ch_Latest ch) in
  Ok (mkBalances id (ch_PartyA ch) (ch_PartyB ch) (BalanceOf ch (ps_self cfg)) (BalanceOf ch other)
        (lockedTotal st) (st_Nonce st) (bool_decide (is_Some (ch_Conflict ch)))).

(** [c.vault != nil && c.vault.Lookup(hash)] *)
Definition secret_known (co : Coordinator) (hash : bytes) : bool :=
  co_vault co && match n_vault (co_node co) with
                 | Some v => bool_decide (is_Some (Lookup v hash))
                 | None => false
                 end.

Definition Locks (now : Z) (co : Coordinator) (id : bytes) : outcome chan_err (list LockView) :=
  let? ch := of_option ErrChannelNotAdopted (Get (co_store co) id) in
  Ok (map (fun lock =>
      let incoming := negb (bool_decide (Party ch (h_PayerIsA lock) = ps_self cfg)) in
      mkLockView id (h_ID lock) (decString (h_Amount lock)) (h_Expiry lock) incoming
        (lockStatus incoming (secret_known co (h_Hash lock)) (h_Expiry lock <=? now))
        (wrap_i64 (h_Expiry lock - now)))
    (st_Pending (ss_State (ch_Latest ch)))).

Definition Exposure (co : Coordinator) (id : bytes) : outcome chan_err ExposureView :=
  let? ch := of_option ErrChannelNotAdopted (Get (co_store co) id) in
  let available := BalanceOf ch (ps_self cfg) in
  let '(incoming, outward) := lockTotals ch (ps_self cfg) in
  Ok (mkExposure (dec_text available) (dec_text incoming) (dec_text outward) (dec_text (available + incoming))).

(** ** Reconciliation of a restored channel *)

(** [vault.go] *)
Definition requireBothParties (digest : bytes) (signed : SignedState) (partyA partyB : bytes)
    : outcome chan_err unit :=
  let? gotA := RecoverSigner digest (ss_SigA signed) in
  let? gotB := RecoverSigner digest (ss_SigB signed) in
  fail? negb (bool_decide (gotA = partyA)) with ErrText "vault: signature A is not party A" ;;
  fail? negb (bool_decide (gotB = partyB)) with ErrText "vault: signature B is not party B" ;;
  Ok tt.

Definition usable (ch : Channel) (candidate : SignedState) : outcome chan_err unit :=
  fail? negb (Conserved (ss_State candidate) (ch_DepositA ch) (ch_DepositB ch))
    with ErrText "candidate does not conserve the deposits" ;;
  let digest := Digest (ss_State candidate) (ch_ChainID ch) (ch_Contract ch) in
  let? _ := requireBothParties digest candidate (ch_PartyA ch) (ch_PartyB ch) in
  let mine := if bool_decide (ch_PartyB ch = ps_self cfg) then ss_SigB candidate else ss_SigA candidate in
  let? signer := RecoverSigner digest mine in
  fail? negb (bool_decide (signer = ps_self cfg)) with ErrText "this node did not sign the candidate" ;;
  Ok tt.

(** [StateSource.Best]; the answer of one source for one channel. *)
Abbreviation StateSource := (bytes -> option SignedState).

(** The loop of [Reconcile] over the sources. *)
Definition consider (ch : Channel) (best : SignedState) (answer : option SignedState) : SignedState :=
  match answer with
  | None => best
  | Some candidate =>
      if negb (Complete candidate) then best
      else if Complete best && (st_Nonce (ss_State candidate) <=? st_Nonce (ss_State best)) then best
      else if is_ok (usable ch candidate) then candidate else best
  end.
Definition best_of (ch : Channel) (id : bytes) (sources : list StateSource) : SignedState :=
  foldl (fun best source => consider ch best (source id)) (ch_Latest ch) sources.

Definition Reconcile (s : Store) (id : bytes) (sources : list StateSource) : Store * outcome chan_err unit :=
  if negb (NeedsReconcile s id) then (s, Ok tt)
  else
    let (s, r) := Adopt s id in
    match r with
    | Err e => (s, Err e)
    | Panic => (s, Panic)
    | Ok _ =>
        match Get s id with
        | None => (s, Err ErrChannelNotAdopted)
        | Some ch =>
            let best := best_of ch id sources in
            if Complete best &&
               (negb (Complete (ch_Latest ch)) || (st_Nonce (ss_State (ch_Latest ch)) <? st_Nonce (ss_State best)))
            then
              let (s', r) := Update s id (fun live => Accept live best) in
              match r with
              | Ok _ => (clearReconcile s' id, Ok tt)
              | r => (s', r)
              end
            else (clearReconcile s id, Ok tt)
        end
    end.

(** [ReconcileAll]: the first error, every channel attempted; the ids in the
    order the iteration yields them. *)
Fixpoint reconcile_each (ids : list bytes) (s : Store) (sources : list StateSource)
    : Store * outcome chan_err unit :=
  match ids with
  | [] => (s, Ok tt)
  | id :: ids =>
      let (s, r) := Reconcile s id sources in
      let (s, rest) := reconcile_each ids s sources in
      (s, match r with Ok _ => rest | r => r end)
  end.
Definition Unreconciled (s : Store) : list bytes := elements (s_unreconciled s).
Definition ReconcileAll (s : Store) (sources : list StateSource) : Store * outcome chan_err unit :=
  reconcile_each (Unreconciled s) s sources.

(** ** Opening a channel *)

(** The transactions a call broadcasts, in order. *)
Inductive ChainTx : Type :=
| TxApprove (token : bytes) (amount : Z)
| TxOpen (partner : bytes) (deposit : Z)
| TxDeposit (id : bytes) (amount : Z).
(** The wallet's writer, and the token's allowance when it can be read. *)
Record ChainWriter : Type := mkWriter {
  w_allowance : option (bytes -> outcome chan_err Z);
  w_send : ChainTx -> outcome chan_err string
}.
Record OpenResult : Type := mkOpenResult {
  or_ChannelID : bytes;
  or_ApprovalTx : string;
  or_OpenTx : string;
  or_AlreadyOpen : bool
}.

(** The approval, when the current allowance does not cover the amount. *)
Definition ensure_allowance (w : ChainWriter) (token : bytes) (amount : Z)
    : list ChainTx * outcome chan_err string :=
  match w_allowance w with
  | None => ([], Ok ""%string)
  | Some allowance =>
      match allowance token with
      | Err e => ([], Err e)
      | Panic => ([], Panic)
      | Ok current =>
          if current <? amount then ([TxApprove token amount], w_send w (TxApprove token amount))
          else ([], Ok ""%string)
      end
  end.

Definition OpenChannel (s : Store) (w : ChainWriter) (token partner : bytes) (deposit : option Z)
    : Store * list ChainTx * outcome chan_err OpenResult :=
  if bool_decide (partner = ps_self cfg)
  then (s, [], Err (ErrText "coordinator: cannot open a channel with yourself"))
  else
    match deposit with
    | None => (s, [], Err ErrAmountNotPositive)
    | Some deposit =>
        if deposit <? 0 then (s, [], Err ErrAmountNotPositive)
        else
          let id := DeriveChannelID (ps_self cfg) partner in
          match chain id with
          | Ok _ => let (s', r) := Adopt s id in (s', [], let? _ := r in Ok (mkOpenResult id "" "" true))
          | Panic => (s, [], Panic)
          | Err e =>
              if negb (bool_decide (e = ErrChannelNotOnChain)) then (s, [], Err e)
              else
                let (txs, approval) := if 0 <? deposit then ensure_allowance w token deposit else ([], Ok ""%string) in
                match approval with
                | Err e => (s, txs, Err e)
                | Panic => (s, txs, Panic)
                | Ok approvalTx =>
                    (s, txs ++ [TxOpen partner deposit],
                     let? tx := w_send w (TxOpen partner deposit) in Ok (mkOpenResult id approvalTx tx false))
                end
          end
    end.

Definition Deposit (s : Store) (w : ChainWriter) (token id : bytes) (amount : option Z)
    : list ChainTx * outcome chan_err string :=
  match amount with
  | None => ([], Err ErrAmountNotPositive)
  | Some amount =>
      if amount <=? 0 then ([], Err ErrAmountNotPositive)
      else
        match Get s id with
        | None => ([], Err ErrChannelNotAdopted)
        | Some _ =>
            let (txs, approval) := ensure_allowance w token amount in
            match approval with
            | Err e => (txs, Err e)
            | Panic => (txs, Panic)
            | Ok _ => (txs ++ [TxDeposit id amount], w_send w (TxDeposit id amount))
            end
        end
  end.
End Coordinator.

(** ** What the engine's updates keep *)

(** A relation on records that holds across every primitive of the engine's and the
    coordinator's commits. *)
Class Kept {Crypto : ChannelCrypto} (R : Channel -> Channel -> Prop) : Prop := {
  kept_preorder :: PreOrder R;
  kept_Clone : forall c, R c (Clone c);
  kept_NotePayment : forall r c, R c (NotePayment r c);
  kept_NoteApplied : forall i n c, R c (NoteApplied i n c);
  kept_NoteSigned : forall n d c, R c (NoteSigned n d c);
  kept_Proposal : forall p c, R c (set_PendingProposal p c);
  kept_Conflict : forall k c, R c (set_Conflict k c);
  kept_Accept : forall c c' ss, Accept c ss = Ok c' -> R c c'
}.
Definition respects (R : Channel -> Channel -> Prop) (f : Channel -> outcome chan_err Channel) : Prop :=
  forall c c', f c = Ok c' -> R c c'.
(** The live records correspond. *)
Definition related (R : Channel -> Channel -> Prop) (s s' : Store) : Prop :=
  forall id, option_Forall2 R (s_channels s !! id) (s_channels s' !! id).

#[export] Instance related_preorder (R : Channel -> Channel -> Prop) : PreOrder R -> PreOrder (related R).
Proof.
  intros HR. split; [by intros s id|]. intros s1 s2 s3 H1 H2 id. by transitivity (s_channels s2 !! id).
Qed.

Create HintDb kept discriminated.

Section Frames.
Context {Crypto : ChannelCrypto} (sign : bytes -> option bytes) (err_text : chan_err -> string) (cfg : PeerSession).
Context (R : Channel -> Channel -> Prop) {HR : Kept R}.

(** Peel the primitives off the new record. *)
Ltac keeps :=
  intros c c' Hf; repeat outcome_step; subst; repeat case_match; repeat outcome_step; subst;
  repeat first
    [ reflexivity | by eapply kept_Accept
    | etransitivity; [|apply kept_NotePayment] | etransitivity; [|apply kept_Proposal]
    | etransitivity; [|apply kept_NoteApplied] | etransitivity; [|apply kept_NoteSigned]
    | etransitivity; [|apply kept_Conflict] ].

Lemma note_proposal_kept now p raw : respects R (note_proposal now p raw).
Proof. unfold note_proposal. keeps. Qed.
Lemma complete_proposal_kept now p ss : respects R (complete_proposal now p ss).
Proof. unfold complete_proposal. keeps. Qed.
Lemma drop_proposal_kept now b : respects R (drop_proposal now b).
Proof. unfold drop_proposal. keeps. Qed.
Lemma adopt_proposal_kept now i tr ss raw : respects R (adopt_proposal now i tr ss raw).
Proof. unfold adopt_proposal. keeps. Qed.
Lemma adopt_newer_kept now ss : respects R (adopt_newer now ss).
Proof. unfold adopt_newer. keeps. Qed.
Lemma record_conflict_kept n mine theirs : respects R (record_conflict n mine theirs).
Proof. unfold record_conflict. keeps. Qed.
Lemma note_unknown_kept now i tr e : respects R (note_unknown err_text now i tr e).
Proof. unfold note_unknown. keeps. Qed.
Lemma Accept_kept ss : respects R (fun live => Accept live ss).
Proof. intros c c'. apply kept_Accept. Qed.
#[local] Hint Resolve note_proposal_kept complete_proposal_kept drop_proposal_kept adopt_proposal_kept
  adopt_newer_kept record_conflict_kept note_unknown_kept Accept_kept : kept.

Lemma Update_kept (s s' : Store) (id : bytes) (f : Channel -> outcome chan_err Channel) r :
  respects R f -> Update s id f = (s', r) -> related R s s'.
Proof.
  intros Hf [[-> _]|(live & c' & s1 & ok & Hl & Hc & Hp & Hr)]%Update_unfold; [reflexivity|].
  destruct (persist_spec _ _ _ _ Hp) as (E & _). intros j.
  destruct ok; destruct Hr as [-> _]; cbn; rewrite E; [|reflexivity].
  destruct (decide (j = id)) as [->|Hj]; [|by rewrite lookup_insert_ne].
  rewrite lookup_insert_eq, Hl. constructor. etransitivity; [apply kept_Clone|exact (Hf _ _ Hc)].
Qed.

(** Follow a handler to the commit it ends in, if any. *)
Ltac frame_step :=
  match goal with
  | |- _ -> _ => let H := fresh "H" in intros H
  | H : (_, _) = (_, _) |- _ => injection H as <- <-
  | H : context [match ?x with _ => _ end] |- _ =>
      lazymatch x with context [match _ with _ => _ end] => fail | _ => destruct x eqn:? end
  | H : cm_commit _ _ _ = (_, _) |- _ => eapply Update_kept; [|exact H]; solve [auto with kept nocore]
  | |- related R ?s ?s => reflexivity
  end.

Lemma Propose_kept now n n' id intent tr r :
  Propose sign cfg now n id intent tr = (n', r) -> related R (n_store n) (n_store n').
Proof. unfold Propose, commit_proposal. repeat (frame_step; cbn [n_store with_store] in *). Qed.
Lemma HandleAccept_kept now n n' ch b r :
  HandleAccept cfg now n ch b = (n', r) -> related R (n_store n) (n_store n').
Proof. unfold HandleAccept. repeat (frame_step; cbn [n_store with_store] in *). Qed.
Lemma HandleReject_kept now n n' ch b r :
  HandleReject now n ch b = (n', r) -> related R (n_store n) (n_store n').
Proof. unfold HandleReject. repeat (frame_step; cbn [n_store with_store] in *). Qed.
Lemma HandleResponse_kept now n n' ch b r :
  HandleResponse now n ch b = (n', r) -> related R (n_store n) (n_store n').
Proof. unfold HandleResponse. repeat (frame_step; cbn [n_store with_store] in *). Qed.
Lemma HandleConflict_kept n n' ch b r :
  HandleConflict n ch b = (n', r) -> related R (n_store n) (n_store n').
Proof. unfold HandleConflict. repeat (frame_step; cbn [n_store with_store] in *). Qed.
Lemma HandlePropose_kept now n n' ch b r :
  HandlePropose sign err_text cfg now n ch b = (n', r) -> related R (n_store n) (n_store n').
Proof. unfold HandlePropose, answer_proposal. repeat (frame_step; cbn [n_store with_store] in *). Qed.

Lemma recordCompletion_store (tr : StateTransition) (co : Coordinator) :
  co_node (recordCompletion tr co) = co_node co.
Proof. unfold recordCompletion. by destruct (t_Kind tr). Qed.

Lemma settle_reply_kept (now : Z) (co co' : Coordinator) (id intent : bytes) (tr : StateTransition) (reply : Message) r :
  settle_reply cfg now co id intent tr reply = (co', r) -> related R (co_store co) (co_store co').
Proof.
  unfold settle_reply. destruct (m_Body reply) as [| |b|b|b| |b|b| |]; try (intros [= <- _]; reflexivity).
  - destruct (HandleAccept _ _ _ _ b) as [n' ra] eqn:E. apply HandleAccept_kept in E.
    destruct ra; intros [= <- _]; unfold co_store; by rewrite ?recordCompletion_store.
  - destruct (HandleReject _ _ _ b) as [n' ra] eqn:E. apply HandleReject_kept in E. by destruct ra; intros [= <- _].
  - destruct (HandleResponse _ _ _ b) as [n' ra] eqn:E. apply HandleResponse_kept in E. by destruct ra; intros [= <- _].
Qed.

Lemma attempt_kept {P : Type} (exchange : Message -> P -> P * outcome chan_err Message) (now : Z)
    (co co' : Coordinator) (peer peer' : P) (id intent : bytes) (tr : StateTransition) r :
  attempt sign err_text cfg exchange now co peer id intent tr = (co', peer', r) ->
  related R (co_store co) (co_store co').
Proof.
  unfold attempt. destruct (Propose _ _ _ _ _ _ _) as [n' rp] eqn:EP. apply Propose_kept in EP. cbn in EP.
  destruct rp as [m|e|]; try by intros [= <- _].
  destruct (exchange m peer) as [p1 [reply|e|]]; [|destruct (Update _ id _) as [s' ru] eqn:EU|by intros [= <- _]].
  - destruct (settle_reply _ _ _ _ _ _ reply) as [c2 r2] eqn:ES. apply settle_reply_kept in ES.
    intros [= <- _]. by etransitivity; [exact EP|exact ES].
  - apply Update_kept in EU; [|auto with kept nocore]. intros [= <- _]. by etransitivity; [exact EP|exact EU].
Qed.
End Frames.

(** ** What a channel is: never a peer's word *)

(** What decides what a channel is and what it is worth. *)
Definition chain_facts (c : Channel) :=
  (ch_ID c, ch_PartyA c, ch_PartyB c, orZero (ch_DepositA c), orZero (ch_DepositB c), ch_Status c,
   orZero (ch_ChainID c), ch_Contract c).
Definition same_facts (c c' : Channel) : Prop := chain_facts c' = chain_facts c.

#[export] Instance same_facts_kept `{ChannelCrypto} : Kept same_facts.
Proof.
  split; [split; [done|unfold same_facts; congruence]|done| |done|done|done|done|].
  - intros r c. unfold same_facts, NotePayment. by repeat case_match.
  - by intros c c' ss [_ ->]%Accept_iff.
Qed.

(** The live records stand for the same channels. *)
Definition same_channels : Store -> Store -> Prop := related same_facts.
#[export] Instance same_channels_preorder `{ChannelCrypto} : PreOrder same_channels.
Proof. apply _. Qed.

Section Collateral.
Context `{Crypto : ChannelCrypto} (sign : bytes -> option bytes) (err_text : chan_err -> string) (cfg : PeerSession).
Context (chainID : option Z) (contract : bytes).

Abbreviation reader := (bytes -> outcome chan_err OnChainChannel).

(** Whatever can happen to a coordinator: messages from anyone, payments and
    recoveries against any peer, refreshes, reconciliation from any sources. *)
Inductive event : Type :=
| EvHandle (now : Z) (env : Message)
| EvPay (now : Z) (id intent : bytes) (tr : StateTransition) (answer : Message -> outcome chan_err Message)
| EvRecover (now : Z) (id : bytes) (answer : Message -> outcome chan_err Message)
| EvRefresh (id : bytes)
| EvReconcile (id : bytes) (sources : list (bytes -> option SignedState)).

Definition answering (answer : Message -> outcome chan_err Message) (m : Message) (u : unit) := (u, answer m).

Definition event_step (co : Coordinator) (e : reader * event) : Coordinator :=
  let chain := e.1 in
  match e.2 with
  | EvHandle now env => (Handle sign err_text cfg chainID contract chain now co env).1
  | EvPay now id intent tr answer =>
      (Pay sign err_text cfg chainID contract chain (answering answer) now co tt id intent tr).1.1
  | EvRecover now id answer => (Recover (answering answer) now co tt id).1.1
  | EvRefresh id => set_store (Refresh chain (co_store co) id).1 co
  | EvReconcile id sources => set_store (Reconcile cfg chainID contract chain (co_store co) id sources).1 co
  end.
Definition event_run (co : Coordinator) (es : list (reader * event)) : Coordinator := foldl event_step co es.

(** The record under [id] says of the channel what one of these chain reads said. *)
Definition from_chain (chains : list reader) (id : bytes) (c : Channel) : Prop :=
  exists (chain : reader) asked occ, In chain chains /\ chain asked = Ok occ /\ oc_fromChain occ = true /\
    oc_ID occ = id /\ ch_PartyA c = oc_PartyA occ /\ ch_PartyB c = oc_PartyB occ /\
    orZero (ch_DepositA c) = orZero (oc_DepositA occ) /\ orZero (ch_DepositB c) = orZero (oc_DepositB occ) /\
    ch_Status c = oc_Status occ.

Definition backed (chains : list reader) (s s' : Store) : Prop :=
  forall id c', s_channels s' !! id = Some c' ->
    (exists c, s_channels s !! id = Some c /\ chain_facts c' = chain_facts c) \/ from_chain chains id c'.

Lemma same_backed (chains : list reader) (s s' : Store) : same_channels s s' -> backed chains s s'.
Proof.
  intros H id c' Hc. specialize (H id). rewrite Hc in H. inversion H as [c x HF Hl|]; subst. left. by exists c.
Qed.

Lemma from_chain_facts (chains : list reader) (id : bytes) (c c' : Channel) :
  chain_facts c' = chain_facts c -> from_chain chains id c -> from_chain chains id c'.
Proof.
  unfold chain_facts. intros [= H1 H2 H3 H4 H5 H6 H7 H8] (chain & asked & occ & ? & ? & ? & ? & ? & ? & ? & ? & ?).
  exists chain, asked, occ. repeat split; congruence.
Qed.

Lemma backed_trans (chains1 chains2 : list reader) (s1 s2 s3 : Store) :
  backed chains1 s1 s2 -> backed chains2 s2 s3 -> backed (chains1 ++ chains2) s1 s3.
Proof.
  assert (forall l k id c, from_chain l id c -> from_chain (l ++ k) id c /\ from_chain (k ++ l) id c) as Happ.
  { intros l k id c (chain & asked & occ & Hin & H). split; exists chain, asked, occ; rewrite in_app_iff; tauto. }
  intros H1 H2 id c3 Hc. destruct (H2 id c3 Hc) as [(c2 & Hc2 & E)|HF]; [|right; by apply Happ].
  destruct (H1 id c2 Hc2) as [(c1 & Hc1 & E')|HF]; [left; exists c1; split; [done|congruence]|right].
  exact (proj1 (Happ _ _ _ _ (from_chain_facts _ _ _ _ E HF))).
Qed.

Lemma Adopt_backed (chain : reader) (s s' : Store) (id : bytes) r :
  Adopt cfg chainID contract chain s id = (s', r) -> backed [chain] s s'.
Proof.
  unfold Adopt. destruct (Get s id); [intros [= <- _]; by apply same_backed|].
  destruct (chain id) as [occ| |] eqn:Ech; try (intros [= <- _]; by apply same_backed).
  destruct (_ && _); [intros [= <- _]; by apply same_backed|].
  destruct (TrackFromChain s _ contract occ) as [s1 rt] eqn:ET. intros [= <- _].
  unfold TrackFromChain in ET. destruct (oc_fromChain occ) eqn:Ef; cbn [negb] in ET; [|injection ET as <- _; by apply same_backed].
  destruct (Z.eqb_spec (oc_Status occ) StatusOpen) as [Eo|]; cbn [negb] in ET; [|injection ET as <- _; by apply same_backed].
  destruct (negb _); [injection ET as <- _; by apply same_backed|].
  destruct (s_channels s !! oc_ID occ) eqn:El; [injection ET as <- _; by apply same_backed|].
  destruct (persist s _) as [s2 ok] eqn:Hp. destruct (persist_spec _ _ _ _ Hp) as (E1 & _).
  destruct ok; injection ET as <- _; [|apply same_backed; intros j; by rewrite E1].
  intros j c'. cbn. rewrite E1. intros [[<- <-]|[_ Hj]]%lookup_insert_Some; [right|left; eauto].
  exists chain, id, occ. cbn. repeat split; auto.
Qed.

Lemma Refresh_backed (chain : reader) (s s' : Store) (id : bytes) r :
  Refresh chain s id = (s', r) -> backed [chain] s s'.
Proof.
  unfold Refresh. destruct (Get s id); [|intros [= <- _]; by apply same_backed].
  destruct (chain id) as [occ| |] eqn:Ech; try (intros [= <- _]; by apply same_backed).
  unfold RefreshFromChain. destruct (oc_fromChain occ) eqn:Ef; cbn [negb]; [|intros [= <- _]; by apply same_backed].
  intros [[-> _]|(live & c1 & s1 & ok & Hl & Hf & Hp & HR)]%Update_unfold; [by apply same_backed|].
  destruct (persist_spec _ _ _ _ Hp) as (E1 & _).
  destruct ok; destruct HR as [-> _]; [|apply same_backed; intros j; by rewrite E1].
  intros j c'. cbn. rewrite E1. intros [[<- <-]|[_ Hj]]%lookup_insert_Some; [right|left; eauto].
  unfold refresh_record in Hf. repeat outcome_step. subst. zbool.
  exists chain, id, occ. cbn. repeat split; auto; try congruence.
Qed.

Lemma Reconcile_backed (chain : reader) (s s' : Store) (id : bytes) sources r :
  Reconcile cfg chainID contract chain s id sources = (s', r) -> backed [chain] s s'.
Proof.
  unfold Reconcile. destruct (negb _); [intros [= <- _]; by apply same_backed|].
  destruct (Adopt _ _ _ _ s id) as [s1 r1] eqn:EA. apply Adopt_backed in EA.
  destruct r1 as [[]|e|]; try (by intros [= <- _]).
  destruct (Get s1 id) as [ch|]; [|by intros [= <- _]].
  destruct (_ && _); [|intros [= <- _]; exact EA].
  destruct (Update s1 id _) as [s2 r2] eqn:EU. apply (Update_kept same_facts) in EU; [|apply Accept_kept, _].
  assert (backed [chain] s s2) as H2 by (exact (backed_trans [chain] [] _ _ _ EA (same_backed [] _ _ EU))).
  destruct r2 as [[]|e|]; by intros [= <- _].
Qed.

Lemma backed_same (chains : list reader) (s1 s2 s3 : Store) :
  backed chains s1 s2 -> same_channels s2 s3 -> backed chains s1 s3.
Proof.
  intros H1 H2. pose proof (backed_trans chains [] _ _ _ H1 (same_backed [] _ _ H2)) as H.
  by rewrite app_nil_r in H.
Qed.

Lemma adopt_then_backed (chain : reader) (co co' : Coordinator) (channel : string) k r :
  (forall n n' r, k n = (n', r) -> same_channels (n_store n) (n_store n')) ->
  adopt_then cfg chainID contract chain co channel k = (co', r) -> backed [chain] (co_store co) (co_store co').
Proof.
  intros Hk. unfold adopt_then, AdoptAnnounced.
  destruct (parseBytes32 channel) as [id| |]; try (intros [= <- _]; by apply same_backed).
  destruct (Adopt _ _ _ _ (co_store co) id) as [s1 r1] eqn:EA. apply Adopt_backed in EA.
  destruct r1 as [[]|e|]; try (intros [= <- _]; exact EA).
  destruct (k _) as [n' rk] eqn:Ek. intros [= <- _]. apply Hk in Ek. by eapply backed_same.
Qed.

Lemma Handle_backed (chain : reader) (now : Z) (co : Coordinator) (env : Message) :
  backed [chain] (co_store co) (co_store (Handle sign err_text cfg chainID contract chain now co env).1).
Proof.
  destruct (Handle _ _ _ _ _ _ now co env) as [co' r] eqn:EH. cbn [fst]. unfold Handle, silently in EH.
  destruct (m_Body env); try (injection EH as <- _; by apply same_backed).
  - unfold AdoptAnnounced in EH. destruct (parseBytes32 _) as [id| |]; try (injection EH as <- _; by apply same_backed).
    destruct (Adopt _ _ _ _ (co_store co) id) as [s1 r1] eqn:EA. injection EH as <- _. by eapply Adopt_backed.
  - eapply adopt_then_backed; [|exact EH]. intros n n' r0. apply (HandlePropose_kept _ _ _ same_facts).
  - injection EH as <- _. apply same_backed. eapply (HandleAccept_kept _ same_facts). apply surjective_pairing.
  - injection EH as <- _. apply same_backed. eapply (HandleReject_kept same_facts). apply surjective_pairing.
  - eapply adopt_then_backed; [|exact EH]. by intros n n' r0 [= <- _].
  - injection EH as <- _. apply same_backed. eapply (HandleResponse_kept same_facts). apply surjective_pairing.
  - injection EH as <- _. apply same_backed. eapply (HandleConflict_kept same_facts). apply surjective_pairing.
Qed.

Lemma Pay_backed {P : Type} (exchange : Message -> P -> P * outcome chan_err Message) (chain : reader) (now : Z)
    (co : Coordinator) (peer : P) (id intent : bytes) (tr : StateTransition) :
  backed [chain] (co_store co)
    (co_store (Pay sign err_text cfg chainID contract chain exchange now co peer id intent tr).1.1).
Proof.
  unfold Pay. destruct (Adopt _ _ _ _ (co_store co) id) as [s1 r1] eqn:EA. apply Adopt_backed in EA.
  destruct r1 as [[]|e|]; try exact EA. destruct (Get s1 id) as [ch|]; [|exact EA].
  destruct (bool_decide _); [exact EA|]. destruct (AppliedAt ch intent); [exact EA|].
  destruct (attempt _ _ _ _ _ _ _ _ _ _) as [[c2 p2] r2] eqn:E. apply (attempt_kept _ _ _ same_facts) in E. by eapply backed_same.
Qed.

Lemma event_step_backed (co : Coordinator) (e : reader * event) :
  backed [e.1] (co_store co) (co_store (event_step co e)).
Proof.
  destruct e as [chain [now env|now id intent tr answer|now id answer|id|id sources]]; unfold event_step; cbn [fst snd].
  - apply Handle_backed.
  - apply Pay_backed.
  - apply same_backed. unfold Recover, answering. destruct (Resume _ _) as [[m|]| |]; try done.
    destruct (answer m) as [reply| |]; try done. destruct (m_Body reply); try done.
    destruct (HandleResponse _ _ _ _) as [n' r] eqn:E. by apply (HandleResponse_kept same_facts) in E.
  - eapply Refresh_backed. apply surjective_pairing.
  - eapply Reconcile_backed. apply surjective_pairing.
Qed.

Lemma event_run_backed (es : list (reader * event)) (co : Coordinator) :
  backed (map fst es) (co_store co) (co_store (event_run co es)).
Proof.
  revert co; induction es as [|e es IH]; intros co; [by apply same_backed|].
  exact (backed_trans [e.1] (map fst es) _ _ _ (event_step_backed co e) (IH _)).
Qed.
End Collateral.

(** A channel is what the chain says it is: along any run of messages from
    anyone, payments and recoveries against any peer, refreshes and
    reconciliations from any sources, a live record keeps the parties, deposits,
    status, chain and contract it had, or has the parties, deposits and status
    some chain read of the run returned for that id. *)
Theorem collateral_only_from_chain `{ChannelCrypto} (sign : bytes -> option bytes) (err_text : chan_err -> string)
    (cfg : PeerSession) (chainID : option Z) (contract : bytes) (co : Coordinator)
    (es : list ((bytes -> outcome chan_err OnChainChannel) * event)) (id : bytes) (c' : Channel)
    (Hc : s_channels (co_store (event_run sign err_text cfg chainID contract co es)) !! id = Some c') :
  (exists c, s_channels (co_store co) !! id = Some c /\ chain_facts c' = chain_facts c) \/
  from_chain (map fst es) id c'.
Proof. exact (event_run_backed sign err_text cfg chainID contract es co id c' Hc). Qed.

Definition toy_chain (id : bytes) : outcome chan_err OnChainChannel :=
  if bool_decide (id = oc_ID toy_occ) then Ok toy_occ else Err ErrChannelNotOnChain.
Definition empty_coordinator : Coordinator := mkCoordinator (mkNode empty_store None) false [].
Definition toy_announce : Message := newEnvelope (oc_ID toy_occ) MsgChannelAnnounce.

Lemma toy_id_array : array_ok 32 (oc_ID toy_occ).
Proof. apply array_okb_spec. vm_compute. reflexivity. Qed.

Lemma toy_not_stranger : negb (bool_decide (oc_PartyA toy_occ = ps_self (NewPeerSession toy_A))) &&
  negb (bool_decide (oc_PartyB toy_occ = ps_self (NewPeerSession toy_A))) = false.
Proof. change (oc_PartyA toy_occ) with toy_A. change (ps_self (NewPeerSession toy_A)) with toy_A.
  by rewrite bool_decide_eq_true_2. Qed.

Lemma toy_adopts : Adopt (Crypto := toy_crypto) (NewPeerSession toy_A) (Some 1) toy_contract toy_chain empty_store (oc_ID toy_occ) =
  (mkStore {[ oc_ID toy_occ := tracked (Some 1) toy_contract toy_occ ]} ∅
    {[ oc_ID toy_occ := encodeChannel (tracked (Some 1) toy_contract toy_occ) ]} false [], Ok tt).
Proof.
  unfold Adopt. assert (Get empty_store (oc_ID toy_occ) = None) as -> by reflexivity.
  unfold toy_chain. rewrite bool_decide_eq_true_2 by reflexivity. rewrite toy_not_stranger.
  change (Some (orZero (Some 1))) with (Some 1). rewrite toy_track. reflexivity.
Qed.

Lemma collateral_only_from_chain_witness :
  from_chain [toy_chain] (oc_ID toy_occ) (tracked (Some 1) toy_contract toy_occ).
Proof.
  destruct (@collateral_only_from_chain toy_crypto (toy_signer toy_keyA) toy_text (NewPeerSession toy_A) (Some 1)
    toy_contract empty_coordinator [(toy_chain, EvHandle 1000 toy_announce)] (oc_ID toy_occ)
    (tracked (Some 1) toy_contract toy_occ)) as [(c & Hc & _)|H].
  - cbn [event_run foldl event_step fst snd Handle m_Body toy_announce newEnvelope m_Channel]. unfold AdoptAnnounced.
    rewrite parseBytes32_encode by exact toy_id_array. change (co_store empty_coordinator) with empty_store.
    rewrite toy_adopts. cbn [fst]. apply lookup_singleton_eq.
  - cbn in Hc. rewrite lookup_empty in Hc. discriminate.
  - exact H.
Defined.

(** ** Payments *)

(** A commit that succeeded, seen through [Get]. *)
Lemma Update_Get (s s' : Store) (id : bytes) (f : Channel -> outcome chan_err Channel) :
  Update s id f = (s', Ok tt) ->
  exists live c' b, s_channels s !! id = Some live /\ f (Clone live) = Ok c' /\
    Get s' id = Some (set_NeedsReconcile b (Clone c')).
Proof.
  intros [[_ ?]|(live & c' & s1 & ok & Hl & Hf & Hp & HR)]%Update_unfold; [done|].
  destruct ok; destruct HR as [-> ?]; [|discriminate]. exists live, c', (bool_decide (id ∈ s_unreconciled s1)).
  split; [done|]. split; [done|]. unfold Get. cbn. by rewrite lookup_insert_eq.
Qed.

Lemma Get_Some (s : Store) (id : bytes) (c : Channel) :
  Get s id = Some c -> exists live b, s_channels s !! id = Some live /\ c = set_NeedsReconcile b (Clone live).
Proof. unfold Get. destruct (s_channels s !! id) as [live|]; [|done]. intros [= <-]. eauto. Qed.

Lemma NotePayment_fields (r : PaymentRecord) (c : Channel) :
  ch_Applied (NotePayment r c) = ch_Applied c /\ ch_Conflict (NotePayment r c) = ch_Conflict c /\
  ch_Latest (NotePayment r c) = ch_Latest c /\ ch_Pending (NotePayment r c) = ch_Pending c.
Proof. unfold NotePayment. by repeat case_match. Qed.

Lemma Clone_applied (b : bool) (c : Channel) : ch_Applied (set_NeedsReconcile b (Clone c)) = ch_Applied c.
Proof. done. Qed.

Section Payments.
Context `{Crypto : ChannelCrypto} `{!ChannelCryptoLaws Crypto}.
Context (sign : bytes -> option bytes) (err_text : chan_err -> string) (cfg : PeerSession).
Context (chainID : option Z) (contract : bytes).

Lemma HandleAccept_applies (now : Z) (n n' : Node Store) (id : bytes) (b : StateAcceptBody) (c : Channel)
    (p : PendingProposal) :
  array_ok 32 id -> Get (n_store n) id = Some c -> ch_Pending c = Some p -> ch_Conflict c = None ->
  HandleAccept cfg now n (hex_encode id) b = (n', Ok tt) ->
  exists c', Get (n_store n') id = Some c' /\ ch_Conflict c' = None /\
    AppliedAt c' (pp_Intent p) = Some (st_Nonce (pp_State p)) /\
    st_Nonce (ss_State (ch_Latest c')) = st_Nonce (pp_State p) /\ Complete (ch_Latest c') = true.
Proof.
  intros Hid Hc Hp Hk. unfold HandleAccept. rewrite parseBytes32_encode by done. cbn [cm_channel Store_Committer].
  rewrite Hc, Hp. destruct (negb _); [done|]. destruct (parseSig _) as [theirs| |]; try done.
  destruct (cm_commit _ _ _) as [s' r] eqn:EU. intros [= <- ->]. cbn [n_store with_store].
  apply Update_Get in EU as (live & c' & nr & Hl & Hf & HG). destruct (Get_Some _ _ _ Hc) as (live' & b' & Hl' & ->).
  rewrite Hl in Hl'. injection Hl' as <-. cbn in Hk. unfold complete_proposal in Hf. repeat outcome_step. subst c'.
  pose proof (accepted_complete _ _ _ E) as HC. apply Accept_iff in E as [_ ->].
  eexists. split; [exact HG|].
  match goal with |- context [NotePayment ?r ?x] =>
    destruct (NotePayment_fields r x) as (F1 & F2 & F3 & _); set (y := NotePayment r x) in * end.
  unfold AppliedAt. cbn [set_NeedsReconcile Clone ch_Conflict ch_Applied ch_Latest cloneSigned ss_State].
  rewrite F1, F2, F3. cbn. split; [by destruct (ch_Conflict live)|].
  split; [apply lookup_insert_eq|]. split; [by rewrite assemble_state|exact HC].
Qed.

(** After a successful [Propose] the channel holds the proposal under its intent. *)
Lemma Propose_pending (now : Z) (n n' : Node Store) (id intent : bytes) (tr : StateTransition) (m : Message) :
  well_filed (n_store n) -> Propose sign cfg now n id intent tr = (n', Ok m) ->
  exists c p, Get (n_store n') id = Some c /\ ch_Pending c = Some p /\ pp_Intent p = intent /\
    ch_Conflict c = None /\ m_Channel m = hex_encode id /\ array_ok 32 id /\
    forall c0, Get (n_store n) id = Some c0 -> ch_Applied c = ch_Applied c0.
Proof.
  intros Hw HP. destruct (cm_channel (n_store n) id) as [c|] eqn:Hc; [|by unfold Propose in HP; rewrite Hc in HP].
  pose proof (Hw id c (cm_live _ _ _ Hc)) as [Hi Ha _ _].
  destruct (ch_Pending c) as [p|] eqn:Hp.
  - unfold Propose in HP. rewrite Hc, Hp in HP.
    destruct (bool_decide_reflect (is_Some (ch_Conflict c))) as [|Hk]; [done|].
    destruct (bool_decide_reflect (pp_Intent p = intent)) as [Hi'|]; [|done]. injection HP as <- <-.
    exists c, p. repeat (split; [done|]). split; [by destruct (ch_Conflict c); [exfalso; apply Hk|]|].
    split; [cbn; by rewrite Hi|]. split; [done|]. intros c0 Hc0. change (Get (n_store n) id = Some c) in Hc. congruence.
  - destruct (Propose_fresh sign cfg now n n' id intent tr c m Hw Hc Hp HP)
      as (c' & p & H1 & H2 & H3 & H4 & H5 & -> & _).
    exists c', p. repeat (split; [done|]). split; [cbn; by rewrite H5|]. split; [done|]. intros c0 Hc0.
    apply Propose_inv in HP as [[_ HP]|(x & nx & sig & s' & rc & _ & _ & _ & _ & _ & _ & _ & _ & HC & -> & HR)];
      [by edestruct (HP c); [exact Hc|exact Hp|reflexivity]|].
    destruct rc as [[]|e|]; [|done|done]. change (Get s' id = Some c') in H1.
    destruct (Update_Get _ _ _ _ HC) as (live & c1 & b1 & Hl & Hf & HG). rewrite HG in H1. injection H1 as <-.
    destruct (Get_Some _ _ _ Hc0) as (live' & b0 & Hl' & ->). rewrite Hl in Hl'. injection Hl' as <-.
    unfold note_proposal in Hf. injection Hf as <-. by rewrite Clone_applied, (proj1 (NotePayment_fields _ _)).
Qed.

(** The same door again: an applied intent is answered from the record. *)
Lemma Pay_applied {P : Type} (exchange : Message -> P -> P * outcome chan_err Message) chain (now : Z)
    (co : Coordinator) (peer : P) (id intent : bytes) (tr : StateTransition) (c : Channel) (k : Z) :
  Get (co_store co) id = Some c -> ch_Conflict c = None -> AppliedAt c intent = Some k ->
  Pay sign err_text cfg chainID contract chain exchange now co peer id intent tr = (co, peer, Ok (done_result k)).
Proof.
  intros Hc Hk Ha. unfold Pay.
  assert (Adopt cfg chainID contract chain (co_store co) id = (co_store co, Ok tt)) as -> by (unfold Adopt; by rewrite Hc).
  cbv iota beta zeta. rewrite Hc.
  rewrite bool_decide_eq_false_2 by (rewrite Hk; by intros []). rewrite Ha. by destruct co as [[]].
Qed.

Lemma Adopt_well_filed chain (s s' : Store) (id : bytes) r :
  well_filed s -> Adopt cfg chainID contract chain s id = (s', r) -> well_filed s'.
Proof.
  intros Hw. unfold Adopt. destruct (Get s id); [by intros [= <- _]|].
  destruct (chain id) as [occ| |]; try by intros [= <- _]. destruct (_ && _); [by intros [= <- _]|].
  destruct (TrackFromChain s _ contract occ) as [s1 rt] eqn:ET. intros [= <- _].
  by apply (track_safe _ _ _ _ _ _ Hw) in ET as [? _].
Qed.

Lemma adopt_newer_conflict (now : Z) (ss : SignedState) (c c' : Channel) :
  adopt_newer now ss c = Ok c' -> ch_Conflict c' = ch_Conflict c.
Proof.
  unfold adopt_newer. intros H. repeat outcome_step. subst. apply Accept_iff in E as [_ ->].
  repeat case_match; try done; cbn [set_PendingProposal ch_Conflict];
    by rewrite (proj1 (proj2 (NotePayment_fields _ _))).
Qed.

(** A resynchronisation that leaves an intent applied that was not either
    adopted a newer state, without a conflict. *)
Lemma HandleResponse_applies (now : Z) (n n' : Node Store) (id intent : bytes) (b : StateResponseBody) (c c' : Channel) o :
  array_ok 32 id -> Get (n_store n) id = Some c -> ch_Conflict c = None -> AppliedAt c intent = None ->
  HandleResponse now n (hex_encode id) b = (n', Ok o) -> Get (n_store n') id = Some c' ->
  is_Some (AppliedAt c' intent) -> ch_Conflict c' = None.
Proof.
  intros Hid Hc Hk Ha. unfold HandleResponse. rewrite parseBytes32_encode by done. cbn [cm_channel Store_Committer].
  rewrite Hc. destruct (negb _); [intros [= <- _]; congruence|].
  destruct (decodeSignedWire _ _ _) as [theirs| |]; try done. destruct (Get_Some _ _ _ Hc) as (live & b0 & Hl & ->).
  destruct (_ <? _).
  - destruct (cm_commit _ _ _) as [s' [[]|e|]] eqn:EU; try done. intros [= <- _] Hc' _. cbn in Hc'.
    apply Update_Get in EU as (live' & c1 & b1 & Hl' & Hf & HG). rewrite Hl in Hl'. injection Hl' as <-.
    rewrite HG in Hc'. injection Hc' as <-. apply adopt_newer_conflict in Hf. cbn in *. rewrite Hf.
    by destruct (ch_Conflict live).
  - destruct (_ <? _); [intros [= <- _]; congruence|]. destruct (is_ok _); [intros [= <- _]; congruence|].
    destruct (cm_commit _ _ _) as [s' [[]|e|]] eqn:EU; try done. intros [= <- _] Hc' [k Hk']. cbn in Hc'.
    apply Update_Get in EU as (live' & c1 & b1 & Hl' & Hf & HG). rewrite Hl in Hl'. injection Hl' as <-.
    rewrite HG in Hc'. injection Hc' as <-. injection Hf as <-. unfold AppliedAt in *. cbn in *. congruence.
Qed.
End Payments.

(** A peer that answers about the channel it was asked about. *)
Definition answers_about {P : Type} (exchange : Message -> P -> P * outcome chan_err Message) (peer : P) (id : bytes)
    : Prop :=
  forall m peer' reply, m_Channel m = hex_encode id -> exchange m peer = (peer', Ok reply) ->
    m_Channel reply = hex_encode id.

Section Done.
Context `{Crypto : ChannelCrypto} `{!ChannelCryptoLaws Crypto}.
Context (sign : bytes -> option bytes) (err_text : chan_err -> string) (cfg : PeerSession).
Context (chainID : option Z) (contract : bytes).
Context {P : Type} (exchange : Message -> P -> P * outcome chan_err Message).

Lemma attempt_done (now : Z) (co co' : Coordinator) (peer peer' : P) (id intent : bytes) (tr : StateTransition)
    (c : Channel) (r : PaymentResult) :
  well_filed (co_store co) -> answers_about exchange peer id -> Get (co_store co) id = Some c -> AppliedAt c intent = None ->
  attempt sign err_text cfg exchange now co peer id intent tr = (co', peer', Ok r) -> r_Done r = true ->
  exists c', Get (co_store co') id = Some c' /\ ch_Conflict c' = None /\ r = done_result (r_Nonce r) /\
    AppliedAt c' intent = Some (r_Nonce r).
Proof.
  intros Hw Hx Hc Ha. unfold attempt. destruct (Propose _ _ _ _ _ _ _) as [n1 rp] eqn:EP.
  destruct rp as [m|e|]; try done. destruct (exchange m peer) as [p1 [reply|e|]] eqn:EX;
    [|destruct (Update _ _ _); done|done].
  destruct (settle_reply _ _ _ _ _ _ reply) as [c2 r2] eqn:ES. intros [= <- _ ->] Hd.
  destruct (Propose_pending sign cfg now _ _ _ _ _ _ Hw EP) as (c1 & p & Hc1 & Hp & Hpi & Hk & Hm & Hid & Hap).
  pose proof (Hx _ _ _ Hm EX) as Hr. unfold settle_reply in ES. rewrite Hr in ES.
  destruct (m_Body reply) as [| |b|b|b| |b|b| |]; try discriminate ES.
  - change (co_node (metric TipAttempted co <| co_node := n1 |>)) with n1 in ES. destruct (HandleAccept _ _ _ _ b) as [n2 [[]|e|]] eqn:EA; try discriminate ES.
    destruct (HandleAccept_applies cfg now _ _ id b c1 p Hid Hc1 Hp Hk EA) as (c' & Hc' & Hk' & Ha' & Hn' & _).
    unfold fresh_nonce in ES. rewrite Hc' in ES. injection ES as <- <-. exists c'.
    unfold co_store. rewrite recordCompletion_store. rewrite Hpi in Ha'. cbn. rewrite Hn'. auto.
  - destruct (HandleReject _ _ _ b) as [n2 [[]|e|]]; try discriminate ES; injection ES as <- <-; discriminate Hd.
  - change (co_node (metric TipAttempted co <| co_node := n1 |>)) with n1 in ES. destruct (HandleResponse _ _ _ b) as [n2 [o|e|]] eqn:EA; try discriminate ES.
    injection ES as <- ES. destruct (Get (n_store n2) id) as [c'|] eqn:Hc'; [|discriminate ES].
    destruct (AppliedAt c' intent) as [k|] eqn:Hk'; injection ES as <-; [|discriminate Hd].
    exists c'. split; [exact Hc'|]. split; [|by split].
    eapply (HandleResponse_applies now _ n2 id intent b c1 c' o); eauto.
    unfold AppliedAt in *. by rewrite (Hap c Hc).
Qed.
End Done.

(** C38. Paying twice is paying once: when [Pay] reports a payment done, against a peer
    that answers about the channel it was asked about, the intent is recorded as
    applied at the reported nonce, and paying that intent again, whenever, with
    any transition and any peer, gives the same answer, sends nothing and changes
    nothing. *)
Theorem Pay_done_once `{ChannelCryptoLaws} (sign : bytes -> option bytes) (err_text : chan_err -> string)
    (cfg : PeerSession) (chainID : option Z) (contract : bytes) {P : Type}
    (exchange exchange2 : Message -> P -> P * outcome chan_err Message)
    (chain chain2 : bytes -> outcome chan_err OnChainChannel)
    (now now2 : Z) (co co' : Coordinator) (peer peer' peer2 : P) (id intent : bytes) (tr tr2 : StateTransition)
    (r : PaymentResult) (Hw : well_filed (co_store co)) (Hx : answers_about exchange peer id)
    (HP : Pay sign err_text cfg chainID contract chain exchange now co peer id intent tr = (co', peer', Ok r))
    (Hd : r_Done r = true) :
  (exists c', Get (co_store co') id = Some c' /\ AppliedAt c' intent = Some (r_Nonce r)) /\
  Pay sign err_text cfg chainID contract chain2 exchange2 now2 co' peer2 id intent tr2 = (co', peer2, Ok r).
Proof.
  assert (exists c', Get (co_store co') id = Some c' /\ ch_Conflict c' = None /\ r = done_result (r_Nonce r) /\
    AppliedAt c' intent = Some (r_Nonce r)) as (c' & Hc' & Hk & Hr & Ha).
  - unfold Pay in HP. destruct (Adopt _ _ _ _ _ id) as [s1 ra] eqn:EA.
    apply (Adopt_well_filed cfg chainID contract chain _ _ _ _ Hw) in EA.
    destruct ra as [[]|e|]; try done. destruct (Get s1 id) as [c|] eqn:Hc; [|done].
    destruct (bool_decide_reflect (is_Some (ch_Conflict c))) as [|Hk]; [done|].
    destruct (AppliedAt c intent) as [k|] eqn:Ha.
    + injection HP as <- _ <-. exists c. split; [exact Hc|].
      split; [by destruct (ch_Conflict c); [exfalso; apply Hk|]|done].
    + by eapply attempt_done in HP.
  - split; [eauto|]. rewrite Hr. by eapply Pay_applied.
Qed.

(** The hypothesis on the peer is needed.  The reply's own channel field decides
    which record it is checked against: a peer that answers a proposal with the
    acceptance of an old intent on another channel this node tracks makes [Pay]
    report the payment done, although nothing was countersigned and the intent
    is not recorded. *)
Theorem Pay_done_without_state `{ChannelCryptoLaws} (sign : bytes -> option bytes) (err_text : chan_err -> string)
    (cfg : PeerSession) (chainID : option Z) (contract : bytes) (chain : bytes -> outcome chan_err OnChainChannel)
    (now : Z) (co : Coordinator) (n1 : Node Store) (id id2 intent i2 : bytes) (tr : StateTransition) (m : Message)
    (c c2 : Channel) (k : Z) (sig : string) (Hw : well_filed (co_store co)) (Hne : id2 <> id)
    (Hc : Get (co_store co) id = Some c) (Hk : ch_Conflict c = None) (Ha : AppliedAt c intent = None)
    (HP : Propose sign cfg now (co_node co) id intent tr = (n1, Ok m))
    (Hc2 : Get (n_store n1) id2 = Some c2) (Hi2 : array_ok 32 id2 /\ array_ok 32 i2)
    (Hp2 : ch_Pending c2 = None) (Ha2 : AppliedAt c2 i2 = Some k) :
  let reply := newEnvelope id2 (MsgStateAccept (mkAccept (hex_encode i2) 0 sig)) in
  exists co' nonce, Pay sign err_text cfg chainID contract chain (fun _ u => (u, Ok reply)) now co tt id intent tr
      = (co', tt, Ok (done_result nonce)) /\
    co_store co' = n_store n1 /\
    forall c', Get (co_store co') id = Some c' -> AppliedAt c' intent = None /\ is_Some (ch_Pending c').
Proof.
  intros reply. destruct Hi2 as [Hi2 Hin].
  destruct (Propose_pending sign cfg now _ _ _ _ _ _ Hw HP) as (c1 & p & Hc1 & Hp & _ & _ & _ & _ & Hap).
  unfold Pay. assert (Adopt cfg chainID contract chain (co_store co) id = (co_store co, Ok tt)) as ->
    by (unfold Adopt; by rewrite Hc). cbv iota beta zeta. rewrite Hc.
  rewrite bool_decide_eq_false_2 by (rewrite Hk; by intros []). rewrite Ha. unfold attempt.
  assert (co_node (metric TipAttempted (set_store (co_store co) co)) = co_node co) as -> by (by destruct co as [[]]).
  rewrite HP. unfold settle_reply, HandleAccept. cbn [reply newEnvelope m_Body m_Channel]. rewrite parseBytes32_encode by done.
  match goal with |- context [cm_channel ?x id2] => change (cm_channel x id2) with (Get (n_store n1) id2) end.
  rewrite Hc2, Hp2.
  assert (intentOf (sab_Intent (mkAccept (hex_encode i2) 0 sig)) = i2) as -> by
    (cbn; unfold intentOf; rewrite hex_decode_encode by apply Hin; by rewrite (proj1 Hin)).
  rewrite Ha2. rewrite bool_decide_eq_true_2 by by eexists. unfold fresh_nonce.
  match goal with |- context [Get ?x id] => change (Get x id) with (Get (n_store n1) id) end.
  rewrite Hc1. cbn [obind].
  eexists _, _. split; [reflexivity|]. unfold co_store. rewrite recordCompletion_store. split; [done|].
  intros c' Hc'. change (Get (n_store n1) id = Some c') in Hc'. rewrite Hc1 in Hc'. injection Hc' as <-.
  unfold AppliedAt in *. rewrite (Hap c Hc). split; [done|by eexists].
Qed.

(** ** Concrete payments *)

Lemma live_well_filed (m : gmap bytes Channel) :
  map_Forall record_typed m -> well_filed (mkStore m ∅ ∅ false []).
Proof.
  intros Hm id x [HX|(rec & Hr & _)]; [|cbn in Hr; by rewrite lookup_empty in Hr].
  cbn in HX. unfold Get in HX. cbn in HX. destruct (m !! id) as [y|] eqn:E; [|done]. injection HX as <-.
  apply (ledger_record_typed _ _ y); [exact (Clone_ledger y)|exact (Hm _ _ E)].
Qed.

Lemma pay_triple {A B E : Type} (x : A * B * outcome E PaymentResult) :
  (match x.2 with Ok r => r_Done r | _ => false end) = true -> exists a b r, x = (a, b, Ok r) /\ r_Done r = true.
Proof. destruct x as [[a b] [r| |]]; try discriminate. intros H. by exists a, b, r. Qed.

Definition toy_coordinator : Coordinator := mkCoordinator toy_node false [].
(** A peer with one answer. *)
Definition answering_always (reply : Message) (m : Message) (u : unit) : unit * outcome chan_err Message := (u, Ok reply).
Lemma answering_always_about (reply : Message) (u : unit) (id : bytes) :
  m_Channel reply = hex_encode id -> answers_about (answering_always reply) u id.
Proof. intros E m u' r _ [= _ <-]. exact E. Qed.

Definition toy_accept : Message -> unit -> unit * outcome chan_err Message :=
  answering_always (newEnvelope toy_id (MsgStateAccept (mkAccept (hex_encode toy_intent) 1
    (hex_encode (toy_sign toy_keyB (@Digest toy_crypto (toy_pay_state 1 50 50) (Some 1) toy_contract)))))).
Definition toy_pay (exchange : Message -> unit -> unit * outcome chan_err Message) (now : Z) (co : Coordinator) :=
  Pay (Crypto := toy_crypto) (toy_signer toy_keyA) toy_text (NewPeerSession toy_A) (Some 1) toy_contract toy_chain
    exchange now co tt toy_id toy_intent (toy_tr KindPay 10).

Lemma Pay_done_once_witness : exists co' r, r_Done r = true /\ toy_pay toy_accept 1000 toy_coordinator = (co', tt, Ok r) /\
  toy_pay toy_accept 2000 co' = (co', tt, Ok r).
Proof.
  destruct (pay_triple (toy_pay toy_accept 1000 toy_coordinator)) as (co' & [] & r & HP & Hd);
    [vm_compute; reflexivity|].
  exists co', r. split; [exact Hd|]. split; [exact HP|].
  apply (@Pay_done_once toy_crypto toy_laws (toy_signer toy_keyA) toy_text (NewPeerSession toy_A) (Some 1) toy_contract
    unit toy_accept toy_accept toy_chain toy_chain 1000 2000 toy_coordinator co' tt tt tt toy_id toy_intent
    (toy_tr KindPay 10) (toy_tr KindPay 10) r toy_well_filed); [|exact HP|exact Hd].
  apply answering_always_about. reflexivity.
Defined.

(** A second channel of A, on which an intent was applied before. *)
Definition toy_old_intent : bytes := be_encode 32 8.
Definition toy_second : Channel :=
  NoteApplied toy_old_intent 1
    (set_Chain (Some 5) (Some 5) StatusOpen (NewChannel (Crypto := toy_crypto) (Some 1) toy_contract toy_A toy_contract)).
Definition toy_id2 : bytes := ch_ID toy_second.
Definition toy_two : Coordinator :=
  mkCoordinator (mkNode (mkStore (<[ toy_id2 := toy_second ]> {[ toy_id := toy_channel ]}) ∅ ∅ false []) None) false [].

Lemma fresh_typed `{ChannelCrypto} (chainID : option Z) (contract x y : bytes) (dA dB : option Z) (st : Z) :
  let c := set_Chain dA dB st (NewChannel chainID contract x y) in
  array_ok 32 (ch_ID c) -> record_typed (ch_ID c) c.
Proof.
  unfold NewChannel. destruct (SortParties x y) as [a b]. cbn. intros Ha. by split.
Qed.

Lemma toy_two_well_filed : well_filed (co_store toy_two).
Proof.
  apply live_well_filed, map_Forall_insert_2; [|apply map_Forall_singleton].
  - destruct (@fresh_typed toy_crypto (Some 1) toy_contract toy_A toy_contract (Some 5) (Some 5) StatusOpen) as [];
      [apply array_okb_spec; vm_compute; reflexivity|by split].
  - exact (@fresh_typed toy_crypto (Some 1) toy_contract toy_A toy_B (Some 60) (Some 40) StatusOpen (proj1 toy_arrays)).
Qed.

Lemma toy_two_get : toy_id2 <> toy_id /\ Get (co_store toy_two) toy_id = Some toy_snapshot /\
  Get (co_store toy_two) toy_id2 = Some (set_NeedsReconcile false (Clone toy_second)).
Proof.
  assert (toy_id2 <> toy_id) as Hne by (vm_compute; discriminate). split; [done|]. unfold Get, co_store, toy_two. cbn [co_node n_store s_channels s_unreconciled].
  by rewrite lookup_insert_ne, lookup_singleton_eq, lookup_insert_eq by done.
Qed.

Lemma fmap_at {A B : Type} (f : A -> B) (o : option A) (x : A) (b : B) : o = Some x -> f <$> o = Some b -> f x = b.
Proof. by intros -> [= ->]. Qed.
Lemma is_Some_at {A : Type} (o : option A) : o = None -> bool_decide (is_Some o) = true -> False.
Proof. intros ->. by vm_compute. Qed.

Lemma toy_two_proposes : exists n1 m c2,
  Propose (Crypto := toy_crypto) (toy_signer toy_keyA) (NewPeerSession toy_A) 1000 (co_node toy_two) toy_id toy_intent
    (toy_tr KindPay 10) = (n1, Ok m) /\ Get (n_store n1) toy_id2 = Some c2 /\
  ch_Pending c2 = None /\ AppliedAt c2 toy_old_intent = Some 1.
Proof.
  set (x := Propose _ _ _ _ _ _ _).
  destruct (ok_pair x) as (n1 & m & E); [vm_compute; reflexivity|]. exists n1, m. rewrite E.
  assert (n_store x.1 = n_store n1) as <- by (by rewrite E).
  destruct (Get (n_store x.1) toy_id2) as [c2|] eqn:E2.
  - exists c2. split; [reflexivity|]. split; [reflexivity|].
    split; [apply (fmap_at ch_Pending _ _ _ E2)|apply (fmap_at (fun c => AppliedAt c toy_old_intent) _ _ _ E2)];
      vm_compute; reflexivity.
  - exfalso. refine (is_Some_at _ E2 _). vm_compute. reflexivity.
Qed.

Lemma Pay_done_without_state_witness : exists co' nonce reply,
  toy_pay (fun _ u => (u, Ok reply)) 1000 toy_two = (co', tt, Ok (done_result nonce)) /\
  forall c', Get (co_store co') toy_id = Some c' -> AppliedAt c' toy_intent = None.
Proof.
  destruct toy_two_proposes as (n1 & m & c2 & HP & H2 & HN & HA). destruct toy_two_get as (Hne & HG & _).
  destruct (@Pay_done_without_state toy_crypto toy_laws (toy_signer toy_keyA) toy_text (NewPeerSession toy_A) (Some 1)
    toy_contract toy_chain 1000 toy_two n1 toy_id toy_id2 toy_intent toy_old_intent (toy_tr KindPay 10) m toy_snapshot c2 1
    "" toy_two_well_filed Hne HG toy_snapshot_conflict) as (co' & nonce & HPay & _ & Hno).
  - vm_compute. reflexivity.
  - exact HP.
  - exact H2.
  - split; apply array_okb_spec; vm_compute; reflexivity.
  - exact HN.
  - exact HA.
  - eexists co', nonce, _. split; [exact HPay|]. intros c' Hc'. exact (proj1 (Hno c' Hc')).
Defined.
