(* ===== verification/ChannelReconcile.v ===== *)
(** * Payment channels: releasing a restored channel

    What [Reconcile] ([internal/channel/reconcile.go], modelled in
    [ChannelCoordinator]) promises a node restored from a backup: the best state
    it really signed among everything the sources answered; and the two ways it
    falls short of not signing a nonce twice. *)
From S2P Require Import Prelude.
From S2P Require Import GoBytes.
From S2P Require Import ChannelTypes.
From S2P Require Import ChannelCrypto.
From S2P Require Import ChannelState.
From S2P Require Import ChannelTransition.
From S2P Require Import ChannelHistory.
From S2P Require Import ChannelWire.
From S2P Require Import ChannelCommitter.
From S2P Require Import ChannelPreimages.
From S2P Require Import ChannelStore.
From S2P Require Import ChannelSession.
From S2P Require Import ChannelSafety.
From S2P Require Import ChannelProtocol.
From S2P Require Import ChannelCoordinator.

(** The nonce of a signed state. *)
Definition nonce_of (ss : SignedState) : Z := st_Nonce (ss_State ss).

(** A store holding a backup: these records, every one of them quarantined. *)
Definition restored_from (s : Store) : Store :=
  mkStore (s_channels s) (dom (s_channels s)) (s_disk s) true (s_io s).

Section Reconcile.
Context `{Crypto : ChannelCrypto} (cfg : PeerSession) (chainID : option Z) (contract : bytes).

(** One answer worth adopting: complete, and usable against the record. *)
Definition worthy (ch : Channel) (cand : SignedState) : Prop := Complete cand = true /\ usable cfg ch cand = Ok tt.

(** [best] is at least as good as [cand]. *)
Definition covers (best cand : SignedState) : Prop := Complete best = true /\ nonce_of cand <= nonce_of best.

Lemma consider_covers (ch : Channel) (best cand : SignedState) (a : option SignedState) :
  covers best cand -> covers (consider cfg ch best a) cand.
Proof.
  intros [HC Hn]. unfold consider. destruct a as [x|]; [|done]. destruct (Complete x) eqn:Hx; cbn [negb]; [|done].
  rewrite HC. cbn [andb]. destruct (Z.leb_spec (nonce_of x) (nonce_of best)) as [Hle|Hlt];
    unfold nonce_of in *; [rewrite (proj2 (Z.leb_le _ _) Hle); done|].
  rewrite (proj2 (Z.leb_gt _ _) Hlt). destruct (is_ok _); [|done]. split; [done|]. unfold nonce_of. lia.
Qed.

Lemma consider_worthy (ch : Channel) (best cand : SignedState) :
  worthy ch cand -> covers (consider cfg ch best (Some cand)) cand.
Proof.
  intros [HC HU]. unfold consider. rewrite HC, HU. cbn [negb is_ok].
  destruct (Complete best) eqn:Hb; cbn [andb]; [|split; [done|unfold nonce_of; lia]].
  destruct (Z.leb_spec (st_Nonce (ss_State cand)) (st_Nonce (ss_State best))); split; (done || unfold nonce_of; lia).
Qed.

(** The fold returns the record's own state or a worthy answer, and covers every
    worthy answer. *)
Lemma best_of_spec (ch : Channel) (id : bytes) (sources : list (bytes -> option SignedState)) :
  let best := best_of cfg ch id sources in
  (best = ch_Latest ch \/ worthy ch best) /\
  (forall cand, covers (ch_Latest ch) cand -> covers best cand) /\
  (forall source cand, In source sources -> source id = Some cand -> worthy ch cand -> covers best cand).
Proof.
  unfold best_of.
  enough (forall init, (init = ch_Latest ch \/ worthy ch init) ->
    let best := foldl (fun best source => consider cfg ch best (source id)) init sources in
    (best = ch_Latest ch \/ worthy ch best) /\ (forall cand, covers init cand -> covers best cand) /\
    (forall source cand, In source sources -> source id = Some cand -> worthy ch cand -> covers best cand)) as H.
  { apply (H (ch_Latest ch)). by left. }
  induction sources as [|src sources IH]; intros init Hi; cbn [foldl]; [split; [done|]; split; [done|by intros]|].
  destruct (IH (consider cfg ch init (src id))) as (H1 & H2 & H3).
  - unfold consider. destruct (src id) as [x|]; [|done]. destruct (Complete x) eqn:Hx; cbn [negb]; [|done].
    destruct (_ && _); [done|]. destruct (usable cfg ch x) as [[]| |] eqn:HU; cbn; try done. right. by split.
  - split; [done|]. split; [intros cand Hc; by apply H2, consider_covers|].
    intros source cand [<-|Hin] Hs Hw; [|by eapply H3]. apply H2. rewrite Hs. by apply consider_worthy.
Qed.

(** The channel is released holding the best state there is proof of: when a
    quarantined channel is reconciled, its latest state is complete and at least
    as new as every complete answer that conserves the recorded deposits, is
    signed by both parties and by this node's own key; and it is either the state
    the backup held or such an answer, accepted by the state machine. *)
Theorem Reconcile_adopts_highest (chain : bytes -> outcome chan_err OnChainChannel) (s s' : Store) (id : bytes)
    (sources : list (bytes -> option SignedState)) (ch : Channel) (Hq : NeedsReconcile s id = true)
    (Hc : Get s id = Some ch) (HR : Reconcile cfg chainID contract chain s id sources = (s', Ok tt)) :
  NeedsReconcile s' id = false /\ exists c', Get s' id = Some c' /\ ch_NeedsReconcile c' = false /\
    (forall source cand, In source sources -> source id = Some cand -> worthy ch cand -> covers (ch_Latest c') cand) /\
    (ch_Latest c' = ch_Latest ch \/ (worthy ch (ch_Latest c') /\ exists b, acceptable (set_NeedsReconcile b ch) (ch_Latest c'))).
Proof.
  unfold Reconcile in HR. rewrite Hq in HR. cbn [negb] in HR.
  assert (Adopt cfg chainID contract chain s id = (s, Ok tt)) as E by (unfold Adopt; by rewrite Hc).
  rewrite E, Hc in HR. destruct (best_of_spec ch id sources) as (H1 & H2 & H3).
  set (best := best_of cfg ch id sources) in *.
  assert (forall t, NeedsReconcile (clearReconcile t id) id = false) as Hclear.
  { intros t. unfold NeedsReconcile, clearReconcile. cbn. apply bool_decide_eq_false. set_solver. }
  assert (forall t, Get (clearReconcile t id) id = set_NeedsReconcile false <$> Get t id) as HG.
  { intros t. unfold Get. cbn. rewrite bool_decide_eq_false_2 by set_solver. by destruct (s_channels t !! id). }
  destruct (Complete best && _) eqn:EB.
  - destruct (Update s id _) as [s1 [[]|e|]] eqn:EU; try done. injection HR as <-. split; [apply Hclear|].
    apply Update_Get in EU as (live & c' & b & Hl & HA & HGs). destruct (Get_Some _ _ _ Hc) as (live' & b' & Hl' & ->).
    rewrite Hl in Hl'. injection Hl' as <-. apply Accept_iff in HA as [HA ->].
    eexists. rewrite HG, HGs. cbn [fmap option_fmap option_map]. split; [done|]. split; [done|].
    assert (ch_Latest (set_NeedsReconcile false (set_NeedsReconcile b (Clone (adopted (Clone live) best)))) = best) as ->
      by (cbn; by destruct best).
    split; [done|]. destruct H1 as [->|H1]; [by left|right]. split; [done|]. exists (ch_NeedsReconcile live). by destruct live.
  - injection HR as <-. split; [apply Hclear|]. eexists. rewrite HG, Hc. split; [done|]. split; [done|].
    split; [|by left]. intros source cand Hin Hs Hw. destruct (H3 _ _ Hin Hs Hw) as [HC Hn]. rewrite HC in EB. cbn [andb] in EB.
    apply orb_false_iff in EB as [E1 E2]. apply negb_false_iff in E1. apply Z.ltb_ge in E2.
    change (covers (ch_Latest ch) cand). split; [done|]. unfold nonce_of in *. lia.
Qed.

(** Collateral that moved after the backup hides the newest state.  The record is
    already tracked, so [Adopt] asks the chain nothing; a counterparty's state
    that is valid for the channel as the chain now has it, at a higher nonce, does
    not conserve the old deposits, is passed over, and the channel is released for
    signing at its old nonce. *)
Theorem Reconcile_skips_moved_collateral (chain : bytes -> outcome chan_err OnChainChannel) (s : Store) (id : bytes)
    (ch : Channel) (cand : SignedState) (dA dB : option Z) (Hq : NeedsReconcile s id = true) (Hc : Get s id = Some ch)
    (Hv : acceptable (set_Chain dA dB StatusOpen ch) cand)
    (Hd : orZero dA + orZero dB <> orZero (ch_DepositA ch) + orZero (ch_DepositB ch)) :
  Reconcile cfg chainID contract chain s id [fun _ => Some cand] = (clearReconcile s id, Ok tt) /\
  exists c', Get (clearReconcile s id) id = Some c' /\ ch_NeedsReconcile c' = false /\ ch_Latest c' = ch_Latest ch.
Proof.
  assert (is_ok (usable cfg ch cand) = false) as HU.
  { unfold usable. replace (Conserved (ss_State cand) (ch_DepositA ch) (ch_DepositB ch)) with false; [done|].
    symmetry. apply not_true_iff_false. intros HC%Conserved_true. pose proof (acc_conserved _ _ Hv) as HV. cbn in HV. lia. }
  split.
  - unfold Reconcile. rewrite Hq. cbn [negb].
    assert (Adopt cfg chainID contract chain s id = (s, Ok tt)) as -> by (unfold Adopt; by rewrite Hc).
    rewrite Hc. unfold best_of, consider. cbn [foldl]. rewrite HU.
    assert ((if negb (Complete cand) then ch_Latest ch
      else if Complete (ch_Latest ch) && (st_Nonce (ss_State cand) <=? st_Nonce (ss_State (ch_Latest ch)))
           then ch_Latest ch else ch_Latest ch) = ch_Latest ch) as -> by (by repeat case_match).
    destruct (Complete (ch_Latest ch)); cbn [negb andb orb]; [by rewrite Z.ltb_irrefl|done].
  - unfold Get in *. cbn. rewrite bool_decide_eq_false_2 by set_solver.
    destruct (s_channels s !! id) as [live|]; [|done]. injection Hc as <-. eexists. split; [done|]. by split.
Qed.
End Reconcile.

(** Nothing the source answers is newer than what the record holds. *)
Definition not_newer (ch : Channel) (id : bytes) (source : bytes -> option SignedState) : Prop :=
  forall cand, source id = Some cand -> Complete cand = true -> covers (ch_Latest ch) cand.

Section Rollback.
Context `{Crypto : ChannelCrypto} (sign : bytes -> option bytes) (cfg : PeerSession).
Context (chainID : option Z) (contract : bytes) (chain : bytes -> outcome chan_err OnChainChannel).

Lemma best_of_not_newer (ch : Channel) (id : bytes) (sources : list (bytes -> option SignedState)) :
  Forall (not_newer ch id) sources -> best_of cfg ch id sources = ch_Latest ch.
Proof.
  unfold best_of. induction 1 as [|src sources Hs _ IH]; [done|]. cbn [foldl].
  assert (consider cfg ch (ch_Latest ch) (src id) = ch_Latest ch) as ->; [|done].
  unfold consider. destruct (src id) as [x|] eqn:Ex; [|done]. destruct (Complete x) eqn:Hx; cbn [negb]; [|done].
  destruct (Hs x Ex Hx) as [HC Hn]. rewrite HC. unfold nonce_of in Hn. by rewrite (proj2 (Z.leb_le _ _) Hn).
Qed.

Lemma Reconcile_current (s : Store) (id : bytes) (ch : Channel) (sources : list (bytes -> option SignedState)) :
  NeedsReconcile s id = true -> Get s id = Some ch -> Forall (not_newer ch id) sources ->
  Reconcile cfg chainID contract chain s id sources = (clearReconcile s id, Ok tt).
Proof.
  intros Hq Hc Hs. unfold Reconcile. rewrite Hq. cbn [negb].
  assert (Adopt cfg chainID contract chain s id = (s, Ok tt)) as -> by (unfold Adopt; by rewrite Hc).
  rewrite Hc, (best_of_not_newer _ _ _ Hs).
  destruct (Complete (ch_Latest ch)); cbn [negb andb orb]; [by rewrite Z.ltb_irrefl|done].
Qed.

Lemma Propose_fresh_ok (now : Z) (n : Node Store) (id intent : bytes) (tr : StateTransition) (live c : Channel)
    (p : PendingProposal) (raw : bytes) :
  s_io (n_store n) = [] -> s_channels (n_store n) !! id = Some live -> Get (n_store n) id = Some c ->
  ch_Pending c = None -> ch_Conflict c = None -> prepare_proposal sign cfg now c intent tr = Ok (p, raw) ->
  exists n', Propose sign cfg now n id intent tr = (n', Ok (proposalEnvelope c p)).
Proof.
  intros Hio Hl Hc Hp Hk HP. unfold Propose. change (cm_channel (n_store n) id) with (Get (n_store n) id). rewrite Hc.
  rewrite bool_decide_eq_false_2 by (rewrite Hk; by intros []). rewrite Hp, HP. unfold commit_proposal.
  edestruct (Store_commit_ok (n_store n) id live (NotePayment _ _) (note_proposal now p raw) Hio Hl eq_refl)
    as (s' & -> & _). by eexists.
Qed.

(** A proposal the peer never countersigned is forgotten by a restore.  Whatever
    honest and fully informed sources a backup taken before it is reconciled
    with, they hold complete states only, so the channel is released knowing
    nothing of the proposal that left, and the next one is signed at the same
    nonce. *)
Theorem Reconcile_forgets_sent_proposal (now1 now2 : Z) (n : Node Store) (id i1 i2 : bytes) (live c : Channel)
    (t1 t2 : StateTransition) (p1 p2 : PendingProposal) (raw1 raw2 : bytes)
    (sources : list (bytes -> option SignedState))
    (Hio : s_io (n_store n) = []) (Hl : s_channels (n_store n) !! id = Some live) (Hc : Get (n_store n) id = Some c)
    (Hp : ch_Pending c = None) (Hk : ch_Conflict c = None)
    (H1 : prepare_proposal sign cfg now1 c i1 t1 = Ok (p1, raw1))
    (H2 : prepare_proposal sign cfg now2 c i2 t2 = Ok (p2, raw2))
    (Hs : Forall (not_newer c id) sources) :
  exists n1 s n2,
    Propose sign cfg now1 n id i1 t1 = (n1, Ok (proposalEnvelope c p1)) /\
    Reconcile cfg chainID contract chain (restored_from (n_store n)) id sources = (s, Ok tt) /\
    Propose sign cfg now2 (with_store n s) id i2 t2 = (n2, Ok (proposalEnvelope c p2)) /\
    st_Nonce (pp_State p1) = st_Nonce (pp_State p2) /\
    sign raw1 = Some (pp_Sig p1) /\ sign raw2 = Some (pp_Sig p2).
Proof.
  destruct (Propose_fresh_ok now1 n id i1 t1 live c p1 raw1 Hio Hl Hc Hp Hk H1) as [n1 E1].
  assert (ch_NeedsReconcile c = false) as Hn.
  { unfold prepare_proposal in H1. repeat outcome_step. match goal with H : signFor _ _ _ = Ok _ |- _ =>
      unfold signFor in H; repeat outcome_step end. done. }
  assert (Get (restored_from (n_store n)) id = Some (set_NeedsReconcile true c)) as HR.
  { unfold Get in *. cbn. rewrite Hl in *. cbn in *. injection Hc as <-.
    rewrite bool_decide_eq_true_2; [done|]. apply elem_of_dom. by rewrite Hl. }
  assert (Get (clearReconcile (restored_from (n_store n)) id) id = Some c) as HG.
  { unfold Get in *. cbn. rewrite Hl in *. cbn in *. injection Hc as <-. cbn in Hn. rewrite Hn.
    rewrite bool_decide_eq_false_2; [done|set_solver]. }
  destruct (Propose_fresh_ok now2 (with_store n (clearReconcile (restored_from (n_store n)) id)) id i2 t2 live c p2 raw2
    Hio Hl HG Hp Hk H2) as [n2 E2].
  exists n1, (clearReconcile (restored_from (n_store n)) id), n2. split; [exact E1|]. split.
  - apply (Reconcile_current _ _ (set_NeedsReconcile true c)); [|exact HR|exact Hs].
    unfold NeedsReconcile. cbn. apply bool_decide_eq_true. apply elem_of_dom. by rewrite Hl.
  - split; [exact E2|]. apply prepare_facts in H1 as [-> ?]. apply prepare_facts in H2 as [-> ?]. done.
Qed.
End Rollback.

(** ** Concrete inputs *)

Lemma Reconcile_forgets_sent_proposal_witness :
  exists p1 raw1 p2 raw2, raw1 <> raw2 /\ st_Nonce (pp_State p1) = st_Nonce (pp_State p2) /\
    toy_signer toy_keyA raw1 = Some (pp_Sig p1) /\ toy_signer toy_keyA raw2 = Some (pp_Sig p2).
Proof.
  destruct toy_race_differs as (p1 & raw1 & p2 & raw2 & H1 & H2 & Hne).
  destruct (@Reconcile_forgets_sent_proposal toy_crypto (toy_signer toy_keyA) (NewPeerSession toy_A) (Some 1) toy_contract
    toy_chain 1000 1000 toy_node toy_id (be_encode 32 10) (be_encode 32 20) toy_channel toy_snapshot
    (toy_tr KindPay 10) (toy_tr KindPay 20) p1 p2 raw1 raw2 [fun _ => None]
    eq_refl (lookup_singleton_eq _ _) toy_get toy_snapshot_pending toy_snapshot_conflict H1 H2)
    as (n1 & s & n2 & _ & _ & _ & Hn & S1 & S2); [by constructor|].
  exists p1, raw1, p2, raw2. split; [exact Hne|]. split; [exact Hn|]. split; [exact S1|exact S2].
Defined.

Definition toy_restored : Store := restored_from (toy_store []).
Definition toy_quarantined_record : Channel := set_NeedsReconcile true (Clone toy_channel).

Lemma toy_restored_get : Get toy_restored toy_id = Some toy_quarantined_record /\ NeedsReconcile toy_restored toy_id = true.
Proof.
  unfold toy_restored, restored_from, toy_store, Get, NeedsReconcile. cbn [s_channels s_unreconciled].
  rewrite dom_singleton_L, bool_decide_eq_true_2 by (apply elem_of_singleton; reflexivity).
  change toy_id with (ch_ID toy_channel). rewrite lookup_singleton_eq. split; reflexivity.
Qed.

Lemma toy_reconciled : exists s', Reconcile (Crypto := toy_crypto) (NewPeerSession toy_A) (Some 1) toy_contract toy_chain
  toy_restored toy_id [fun _ => Some toy_pay1] = (s', Ok tt).
Proof.
  destruct (ok_pair (Reconcile (Crypto := toy_crypto) (NewPeerSession toy_A) (Some 1) toy_contract toy_chain
    toy_restored toy_id [fun _ => Some toy_pay1])) as (s' & [] & E); [vm_compute; reflexivity|by exists s'].
Qed.

Lemma toy_pay1_worthy : worthy (Crypto := toy_crypto) (NewPeerSession toy_A) toy_quarantined_record toy_pay1.
Proof.
  split; [vm_compute; reflexivity|].
  destruct (usable _ _ _) as [[]| |] eqn:E; [reflexivity|exfalso|exfalso];
    assert (is_ok (usable (Crypto := toy_crypto) (NewPeerSession toy_A) toy_quarantined_record toy_pay1) = true) as H
      by (vm_compute; reflexivity); rewrite E in H; discriminate H.
Qed.

Lemma Reconcile_adopts_highest_witness : exists c', covers (ch_Latest c') toy_pay1.
Proof.
  destruct toy_reconciled as [s' HR]. destruct toy_restored_get as [Hc Hq].
  destruct (@Reconcile_adopts_highest toy_crypto (NewPeerSession toy_A) (Some 1) toy_contract toy_chain toy_restored s'
    toy_id [fun _ => Some toy_pay1] toy_quarantined_record Hq Hc HR) as (_ & c' & _ & _ & H & _).
  exists c'. apply (H (fun _ => Some toy_pay1) toy_pay1); [left; reflexivity|reflexivity|exact toy_pay1_worthy].
Defined.

(** After a checkpoint of 10: the state a counterparty holds conserves 90. *)
Definition toy_after_checkpoint : SignedState := toy_signed (toy_pay_state 1 45 45).
Lemma toy_after_checkpoint_valid :
  acceptable (Crypto := toy_crypto) (set_Chain (Some 50) (Some 40) StatusOpen toy_quarantined_record) toy_after_checkpoint.
Proof.
  apply (Accept_iff (Crypto := toy_crypto) _ (adopted (set_Chain (Some 50) (Some 40) StatusOpen toy_quarantined_record) toy_after_checkpoint)).
  apply Accept_adopted. vm_compute. reflexivity.
Qed.

Lemma toy_collateral_moved :
  orZero (Some 50) + orZero (Some 40) <> orZero (ch_DepositA toy_quarantined_record) + orZero (ch_DepositB toy_quarantined_record).
Proof. vm_compute. discriminate. Qed.

Lemma Reconcile_skips_moved_collateral_witness :
  exists c', Get (clearReconcile toy_restored toy_id) toy_id = Some c' /\ ch_NeedsReconcile c' = false /\
    ch_Latest c' = ch_Latest toy_quarantined_record.
Proof.
  destruct toy_restored_get as [Hc Hq].
  exact (proj2 (@Reconcile_skips_moved_collateral toy_crypto (NewPeerSession toy_A) (Some 1) toy_contract toy_chain
    toy_restored toy_id toy_quarantined_record toy_after_checkpoint (Some 50) (Some 40) Hq Hc
    toy_after_checkpoint_valid toy_collateral_moved)).
Defined.
