(* ===== verification/ChannelPayment.v ===== *)
(** * Payment channels: an honest payment completes

    Two coordinators in step about a channel, the payer's [Pay] driven against
    the payee's [Handle]: propose, answer and accept compose into one finished
    payment, recorded on both sides, that leaves them in step for the next. *)
From S2P Require Import Prelude.
From S2P Require Import GoBytes.
From S2P Require Import RecordUpdate.
From S2P Require Import ChannelTypes.
From S2P Require Import ChannelCrypto.
From S2P Require Import ChannelState.
From S2P Require Import ChannelTransition.
From S2P Require Import ChannelHistory.
From S2P Require Import ChannelWire.
From S2P Require Import ChannelCommitter.
From S2P Require Import ChannelPreimages.
From S2P Require Import ChannelStore.
From S2P Require Import ChannelSession.
From S2P Require Import ChannelSafety.
From S2P Require Import ChannelProtocol.
From S2P Require Import ChannelCoordinator.

Section Payment.
Context `{Crypto : ChannelCrypto} `{!ChannelCryptoLaws Crypto}.

(** ** What two parties in step agree on *)

(** The wallet of [self] signs this digest. *)
Definition signs (sign : bytes -> option bytes) (self digest : bytes) : Prop :=
  exists sig, sign digest = Some sig /\ array_ok 65 sig /\ RecoverSigner digest sig = Ok self.

(** A channel with nothing in flight on this side. *)
Record settled (c : Channel) : Prop := {
  sd_pending : ch_Pending c = None;
  sd_conflict : ch_Conflict c = None;
  sd_released : ch_NeedsReconcile c = false;
  sd_signed : map_Forall (fun n _ => n <= st_Nonce (ss_State (ch_Latest c))) (ch_Signed c);
  sd_ledger : ledger_ok c
}.

(** Two records of one channel from which the same next states follow. *)
Record in_step (a b : Channel) : Prop := {
  is_facts : chain_facts a = chain_facts b;
  is_base : base_state a = base_state b;
  is_settledA : settled a;
  is_settledB : settled b
}.

(** ** Only the facts and the latest state matter *)

Lemma Digest_facts (s : State) (c c' : Channel) :
  chain_facts c' = chain_facts c ->
  Digest s (ch_ChainID c') (ch_Contract c') = Digest s (ch_ChainID c) (ch_Contract c).
Proof.
  unfold chain_facts. intros [= _ _ _ _ _ _ E7 E8].
  by rewrite <- (Digest_chain s (ch_ChainID c')), <- (Digest_chain s (ch_ChainID c)), E7, E8.
Qed.

Lemma acceptable_view (c c' : Channel) (ss : SignedState) :
  chain_facts c' = chain_facts c -> ch_Latest c' = ch_Latest c -> acceptable c ss -> acceptable c' ss.
Proof.
  intros Hf Hl []. pose proof (Digest_facts (ss_State ss) _ _ Hf) as HD. unfold chain_facts in Hf.
  injection Hf as E1 E2 E3 E4 E5 E6 E7 E8. constructor; rewrite ?Hl, ?HD; try done; congruence.
Qed.

Lemma ledger_ok_view (c c' : Channel) :
  chain_facts c' = chain_facts c -> ch_Latest c' = ch_Latest c -> ledger_ok c -> ledger_ok c'.
Proof.
  unfold chain_facts. intros [= E1 E2 E3 E4 E5 E6 E7 E8] Hl [].
  assert (fresh_channel c' = fresh_channel c) as Hf by (unfold fresh_channel; by rewrite Hl).
  unfold baseA, baseB, base_value in *.
  constructor; unfold baseA, baseB, base_value; rewrite ?Hf, ?Hl; try congruence; destruct (fresh_channel c); congruence.
Qed.

Lemma Apply_view (t : StateTransition) (c c' : Channel) (p : bytes) :
  chain_facts c' = chain_facts c -> base_state c' = base_state c ->
  Apply t (Some c') p = Apply t (Some c) p.
Proof. unfold chain_facts. intros [= E1 E2 E3 E4 E5 E6 E7 E8] HB. unfold Apply, IsA. by rewrite E2, E3, HB. Qed.

(** ** The next state, on each side *)

Lemma Apply_locks_ok (t : StateTransition) (c : Channel) (p : bytes) (s : State) :
  ledger_ok c -> Apply t (Some c) p = Ok s -> locks_ok (st_Pending s).
Proof.
  intros L HA. apply Apply_ok in HA as (_ & a & b & ps & wA & wB & He & ->).
  rewrite base_locks_id in He by apply L. exact (effect_locks_ok _ _ _ _ _ _ _ _ _ _ (lo_locks _ L) He).
Qed.

Lemma norm_locks_id (l : list HTLC) :
  Forall (fun h => exists a, h_Amount h = Some a /\ 0 < a) l -> map norm_htlc l = l.
Proof. induction 1 as [|h l (a & E & _) _ IH]; [done|]. cbn. rewrite IH. f_equal. destruct h; cbn in *. by subst. Qed.

Lemma cloneSigned_id (ss : SignedState) : cloneSigned ss = ss.
Proof. by destruct ss. Qed.

Lemma same_state_norm (s : State) : same_state s (norm_state s).
Proof.
  unfold same_state, balances_agree. cbn. repeat split.
  apply Forall2_fmap_r, Forall_Forall2_diag, Forall_forall. intros h _. by repeat split.
Qed.

Lemma Apply_clone (t : StateTransition) (c : Channel) (p : bytes) (s : State) :
  ledger_ok c -> Apply t (Some c) p = Ok s -> cloneState s = s.
Proof.
  intros L HA. pose proof (Apply_locks_ok _ _ _ _ L HA) as [K _ _].
  apply Apply_ok in HA as (_ & a & b & ps & wA & wB & He & ->). unfold cloneState. cbn in *. by rewrite clonePending_id.
Qed.

(** The decoded state of the wire is as good as the state itself. *)
Lemma acceptable_norm (c : Channel) (s : State) (sigA sigB : bytes) :
  encodable s -> locks_ok (st_Pending s) ->
  acceptable c (mkSignedState s sigA sigB) -> acceptable c (mkSignedState (norm_state s) sigA sigB).
Proof.
  intros He [K _ _] []. pose proof (Digest_norm s (ch_ChainID c) (ch_Contract c) He) as HD.
  constructor; cbn in *; rewrite ?HD, ?norm_locks_id by done; done.
Qed.

(** The two signatures land in the slots of the two parties. *)
Definition the_parties (c : Channel) (x y : bytes) : Prop :=
  ch_PartyA c <> ch_PartyB c /\ ((x = ch_PartyA c /\ y = ch_PartyB c) \/ (x = ch_PartyB c /\ y = ch_PartyA c)).

Lemma assemble_signed (c : Channel) (s : State) (x y sigX sigY : bytes) :
  the_parties c x y -> array_ok 65 sigX -> array_ok 65 sigY ->
  RecoverSigner (Digest s (ch_ChainID c) (ch_Contract c)) sigX = Ok x ->
  RecoverSigner (Digest s (ch_ChainID c) (ch_Contract c)) sigY = Ok y ->
  signed_by_both c (assemble c s sigX x sigY) /\ signed_by_both c (assemble c s sigY y sigX) /\
  assemble c s sigY y sigX = assemble c s sigX x sigY.
Proof.
  intros [Hne HP] [LX _] [LY _] RX RY. unfold assemble, IsA, signed_by_both.
  destruct HP as [[-> ->]|[-> ->]].
  - rewrite bool_decide_eq_true_2, bool_decide_eq_false_2 by done. by repeat split.
  - rewrite bool_decide_eq_false_2, bool_decide_eq_true_2 by done. by repeat split.
Qed.

Lemma other_party_of (c : Channel) (x y : bytes) : the_parties c x y -> other_party c y = x.
Proof.
  intros [Hne [[-> ->]|[-> ->]]]; unfold other_party; [by rewrite bool_decide_eq_false_2|by rewrite bool_decide_eq_true_2].
Qed.

Lemma Update_ok (s : Store) (id : bytes) (live c' : Channel) (f : Channel -> outcome chan_err Channel) :
  s_io s = [] -> s_channels s !! id = Some live -> f (Clone live) = Ok c' ->
  exists s', Update s id f = (s', Ok tt) /\ s_io s' = [] /\ s_channels s' !! id = Some c' /\
    s_unreconciled s' = s_unreconciled s.
Proof.
  intros Hio Hl Hf. unfold Update. rewrite Hl, Hf. unfold persist. rewrite Hio. cbn.
  eexists. split; [done|]. split; [done|]. split; [apply lookup_insert_eq|done].
Qed.

(** ** The three steps of a payment *)
Context (err_text : chan_err -> string).

(** A side's store: the disk works, and [c] is its record of [id]. *)
Definition holds (s : Store) (id : bytes) (c : Channel) : Prop :=
  s_io s = [] /\ Get s id = Some c /\ ch_ID c = id /\ array_ok 32 id.

Lemma holds_after (s s' : Store) (id : bytes) (c live' : Channel) :
  holds s id c -> ch_NeedsReconcile c = false -> s_io s' = [] -> s_channels s' !! id = Some live' ->
  s_unreconciled s' = s_unreconciled s -> ch_ID live' = id ->
  holds s' id (set_NeedsReconcile false (Clone live')).
Proof.
  intros (_ & HG & _ & Ha) Hn Hio Hl Hu Hi. split; [done|]. split; [|done].
  unfold Get in *. rewrite Hl, Hu. cbn. destruct (s_channels s !! id); [|done]. injection HG as <-. cbn in Hn. by rewrite Hn.
Qed.

Lemma propose_step (sign : bytes -> option bytes) (cfg : PeerSession) (now : Z) (n : Node Store)
    (id intent sig : bytes) (tr : StateTransition) (c : Channel) (next : State) :
  holds (n_store n) id c -> settled c -> u_range 64 (st_Nonce (ss_State (ch_Latest c)) + 1) ->
  Apply tr (Some c) (ps_self cfg) = Ok next ->
  (t_Kind tr = KindLockSettle -> checkTiming cfg now c tr = None) ->
  sign (Digest next (ch_ChainID c) (ch_Contract c)) = Some sig ->
  let p := mkPendingProposal intent tr next sig in
  exists n1 c1, Propose sign cfg now n id intent tr = (n1, Ok (proposalEnvelope c p)) /\
    holds (n_store n1) id c1 /\ ch_NeedsReconcile c1 = false /\ chain_facts c1 = chain_facts c /\
    ch_Latest c1 = ch_Latest c /\ ch_Pending c1 = Some p /\ ch_Conflict c1 = None /\
    map_Forall (fun k _ => k <= st_Nonce next) (ch_Signed c1).
Proof.
  intros Hh [Hp Hk Hr Hs L] Hn HA Ht Hsig p. pose proof Hh as (Hio & HG & Hi & Ha).
  destruct (Get_Some _ _ _ HG) as (live & b & Hl & E). pose proof (Apply_nonce _ _ _ _ HA) as [En _].
  rewrite next_nonce_small in En by done.
  set (raw := Digest next (ch_ChainID c) (ch_Contract c)) in *.
  destruct (Update_ok (n_store n) id live _ (note_proposal now p raw) Hio Hl eq_refl) as (s' & HU & Hio' & Hl' & Hu').
  pose proof (holds_after _ _ _ _ _ Hh Hr Hio' Hl' Hu') as Hh'.
  eexists (with_store n s'), _. split; [|split; [apply Hh'; rewrite E in Hi; exact Hi|]].
  - unfold Propose. change (cm_channel (n_store n) id) with (Get (n_store n) id). rewrite HG.
    rewrite bool_decide_eq_false_2 by (rewrite Hk; by intros []). rewrite Hp. unfold prepare_proposal. rewrite HA. cbn [obind].
    assert ((match (if bool_decide (t_Kind tr = KindLockSettle) then checkTiming cfg now c tr else None) with
             | Some (code, _) => Err (ErrRefusing (code_text code)) | None => Ok tt end : outcome chan_err unit) = Ok tt) as ->
      by (case_bool_decide as HK; [by rewrite (Ht HK)|done]). cbn [obind].
    assert (HasSigned c (st_Nonce next) = None) as ->.
    { unfold HasSigned. destruct (ch_Signed c !! st_Nonce next) eqn:E1; [|done]. apply Hs in E1. cbn in E1. lia. }
    cbn [guard_err]. unfold signFor. rewrite Hr. cbn [guard_err]. fold raw. rewrite Hsig. cbn [of_option obind].
    unfold commit_proposal. match goal with |- context [cm_commit ?x ?y ?f] =>
      change (cm_commit x y f) with (Update (n_store n) id (note_proposal now p raw)) end.
    by rewrite HU.
  - subst c. cbn [set_NeedsReconcile Clone ch_Pending ch_Conflict ch_Signed NotePayment set_History NoteSigned set_PendingProposal set_Signed
      fmap option_fmap option_map cloneProposal pp_State pp_Intent pp_Transition pp_Sig ch_Latest].
    split; [done|]. split; [done|]. split; [by destruct (ch_Latest live)|].
    split; [change (Some (mkPendingProposal intent tr (cloneState next) sig) = Some p); by rewrite (Apply_clone _ _ _ _ L HA)|]. split; [by cbn in Hk |- *; destruct (ch_Conflict live)|].
    intros k d Hkd. cbn in Hkd. apply prune_lookup in Hkd as [Hkd _].
    apply lookup_insert_Some in Hkd as [[<- _]|[_ Hkd]]; [lia|]. apply Hs in Hkd. cbn in Hkd, En. lia.
Qed.

Lemma hex_pair_text (b : bytes) : String.eqb (hex_encode b) (hex_encode b) = true.
Proof. apply String.eqb_refl. Qed.

Lemma intentOf_encode (i : bytes) : array_ok 32 i -> intentOf (hex_encode i) = i.
Proof. intros [L O]. unfold intentOf. by rewrite hex_decode_encode, L. Qed.

(** The acceptance arrives: the proposal is completed with both signatures. *)
Lemma accept_step (cfg : PeerSession) (now : Z) (n : Node Store) (id other sigX sigY : bytes) (intent : bytes)
    (tr : StateTransition) (next : State) (c c1 : Channel) (k : Z) :
  holds (n_store n) id c1 -> ch_NeedsReconcile c1 = false -> chain_facts c1 = chain_facts c ->
  ch_Latest c1 = ch_Latest c -> ch_Pending c1 = Some (mkPendingProposal intent tr next sigX) ->
  ch_Conflict c1 = None -> array_ok 65 sigY ->
  acceptable c (assemble c next sigX (ps_self cfg) sigY) ->
  map_Forall (fun j _ => j <= st_Nonce next) (ch_Signed c1) ->
  exists n2 c2, HandleAccept cfg now n (hex_encode id) (mkAccept (hex_encode intent) k (hex_encode sigY)) = (n2, Ok tt) /\
    holds (n_store n2) id c2 /\ chain_facts c2 = chain_facts c /\
    ch_Latest c2 = assemble c next sigX (ps_self cfg) sigY /\
    ch_Applied c2 !! intent = Some (st_Nonce next) /\
    ch_Pending c2 = None /\ ch_Conflict c2 = None /\ ch_NeedsReconcile c2 = false /\
    ch_Signed c2 = ∅.
Proof.
  intros Hh Hr Hf Hl Hp Hk HY HA Hs. pose proof Hh as (Hio & HG & Hi & Ha).
  destruct (Get_Some _ _ _ HG) as (live & b & Hlive & E).
  set (complete := assemble c next sigX (ps_self cfg) sigY) in *.
  assert (assemble c1 next sigX (ps_self cfg) sigY = complete) as EC.
  { unfold complete, assemble, IsA. unfold chain_facts in Hf. injection Hf as _ -> _ _ _ _ _ _. done. }
  assert (acceptable (Clone live) complete) as HA'.
  { apply (acceptable_view c); [|by rewrite <- Hl, E|done]. rewrite <- Hf, E. done. }
  set (p := mkPendingProposal intent tr next sigX) in *.
  assert (exists c', complete_proposal now p complete (Clone live) = Ok c') as [c' Hc'].
  { unfold complete_proposal. rewrite (Accept_complete _ _ HA'). cbn [obind]. by eexists. }
  destruct (Update_ok (n_store n) id live c' (complete_proposal now p complete) Hio Hlive Hc') as (s' & HU & Hio' & Hl' & Hu').
  unfold complete_proposal in Hc'. rewrite (Accept_complete _ _ HA') in Hc'. cbn [obind] in Hc'. injection Hc' as <-.
  pose proof (holds_after _ _ _ _ _ Hh Hr Hio' Hl' Hu') as Hh'.
  eexists (with_store n s'), _. split; [|split; [apply Hh'; rewrite E in Hi; exact Hi|]].
  - unfold HandleAccept. rewrite parseBytes32_encode by done. change (cm_channel (n_store n) id) with (Get (n_store n) id).
    rewrite HG, Hp. cbn [p pp_Intent sab_Intent sab_Sig]. rewrite hex_pair_text. cbn [negb]. rewrite parseSig_encode by done.
    change (assemble c1 (pp_State p) (pp_Sig p) (ps_self cfg) sigY) with (assemble c1 next sigX (ps_self cfg) sigY).
    rewrite EC. match goal with |- context [cm_commit ?x ?y ?f] =>
      change (cm_commit x y f) with (Update (n_store n) id (complete_proposal now p complete)) end. by rewrite HU.
  - split; [rewrite <- Hf, E; done|]. split; [by destruct complete|]. split; [apply lookup_insert_eq|].
    split; [done|]. split; [subst c1; cbn in Hk |- *; by destruct (ch_Conflict live)|]. split; [done|].
    apply map_empty. intros j. destruct (ch_Signed _ !! j) as [d|] eqn:Ej; [exfalso|done].
    apply prune_lookup in Ej as [Ej Hlt]. subst c1. apply Hs in Ej. cbn in Ej.
    assert (st_Nonce (ss_State complete) = st_Nonce next) as EN by (unfold complete; by rewrite assemble_state).
    change (st_Nonce (ss_State complete) < j) in Hlt. lia.
Qed.

Definition proposal_body (intent : bytes) (tr : StateTransition) (next : State) (sig : bytes) : StateProposeBody :=
  mkPropose (hex_encode intent) (encodeTransitionWire tr) (encodeStateWire next) (hex_encode sig).

Lemma assemble_slot (c : Channel) (s : State) (x y sigX sigY : bytes) :
  the_parties c x y ->
  (if bool_decide (y = ch_PartyA c) then ss_SigA (assemble c s sigX x sigY) else ss_SigB (assemble c s sigX x sigY)) = sigY.
Proof.
  intros [Hne [[-> ->]|[-> ->]]]; unfold assemble, IsA.
  - by rewrite bool_decide_eq_false_2, bool_decide_eq_true_2 by done.
  - by rewrite bool_decide_eq_true_2, bool_decide_eq_false_2 by done.
Qed.

(** What both sides end up holding is acceptable on both. *)
Lemma both_acceptable (c : Channel) (tr : StateTransition) (next : State) (x y sigX sigY : bytes) :
  ledger_ok c -> u_range 64 (st_Nonce (ss_State (ch_Latest c)) + 1) -> the_parties c x y ->
  Apply tr (Some c) x = Ok next -> encodable next -> array_ok 65 sigX -> array_ok 65 sigY ->
  RecoverSigner (Digest next (ch_ChainID c) (ch_Contract c)) sigX = Ok x ->
  RecoverSigner (Digest next (ch_ChainID c) (ch_Contract c)) sigY = Ok y ->
  acceptable c (assemble c next sigX x sigY) /\ acceptable c (assemble c (norm_state next) sigX x sigY).
Proof.
  intros L Hn HP HA He HX HY RX RY. destruct (assemble_signed c next x y sigX sigY HP HX HY RX RY) as (HS & _).
  assert (acceptable c (assemble c next sigX x sigY)) as H1
    by (eapply Apply_acceptable; [done|done|by rewrite assemble_state|done]).
  split; [done|]. pose proof (Apply_locks_ok _ _ _ _ L HA) as HK. unfold assemble in *.
  destruct (IsA c x); by apply acceptable_norm.
Qed.

Lemma answer_step (sign : bytes -> option bytes) (cfg : PeerSession) (now : Z) (n : Node Store)
    (id intent x sigX sigY : bytes) (tr : StateTransition) (c : Channel) (next : State) :
  holds (n_store n) id c -> settled c -> u_range 64 (st_Nonce (ss_State (ch_Latest c)) + 1) ->
  the_parties c x (ps_self cfg) -> Apply tr (Some c) x = Ok next -> encodable next -> transition_encodable tr ->
  checkTiming cfg now c tr = None -> (learn_secret tr (n_vault n)).2 = Ok tt ->
  array_ok 32 intent -> AppliedAt c intent = None -> array_ok 65 sigX -> array_ok 65 sigY ->
  RecoverSigner (Digest next (ch_ChainID c) (ch_Contract c)) sigX = Ok x ->
  RecoverSigner (Digest next (ch_ChainID c) (ch_Contract c)) sigY = Ok (ps_self cfg) ->
  sign (Digest next (ch_ChainID c) (ch_Contract c)) = Some sigY ->
  exists n2 c2, HandlePropose sign err_text cfg now n (hex_encode id) (proposal_body intent tr next sigX) =
      (n2, Ok (newEnvelope id (MsgStateAccept (mkAccept (hex_encode intent) (st_Nonce next) (hex_encode sigY))))) /\
    holds (n_store n2) id c2 /\ chain_facts c2 = chain_facts c /\
    ch_Latest c2 = assemble c (norm_state next) sigX x sigY /\ ch_Applied c2 !! intent = Some (st_Nonce next) /\
    ch_Pending c2 = None /\ ch_Conflict c2 = None /\ ch_NeedsReconcile c2 = false /\ ch_Signed c2 = ∅.
Proof.
  intros Hh [Hp Hk Hr Hs L] Hn HP HA He Ht HT Hv Hint Hap HX HY RX RY HS. pose proof Hh as (Hio & HG & Hi & Ha).
  destruct (Get_Some _ _ _ HG) as (live & b & Hlive & E). pose proof (Apply_nonce _ _ _ _ HA) as [En _].
  rewrite next_nonce_small in En by done.
  destruct (both_acceptable c tr next x _ sigX sigY L Hn HP HA He HX HY RX RY) as [_ HAcc].
  set (complete := assemble c (norm_state next) sigX x sigY) in *.
  set (raw := Digest next (ch_ChainID c) (ch_Contract c)) in *.
  assert (ss_State complete = norm_state next) as ES by apply assemble_state.
  assert (acceptable (Clone live) complete) as HA' by (apply (acceptable_view c); [by rewrite E..|done]).
  assert (exists c', adopt_proposal now intent (norm_transition tr) complete raw (Clone live) = Ok c') as [c' Hc'].
  { unfold adopt_proposal. rewrite (Accept_complete _ _ HA'). cbn [obind]. by eexists. }
  destruct (Update_ok (n_store n) id live c' _ Hio Hlive Hc') as (s' & HU & Hio' & Hl' & Hu').
  unfold adopt_proposal in Hc'. rewrite (Accept_complete _ _ HA') in Hc'. cbn [obind] in Hc'. injection Hc' as Ec.
  assert (ch_ID c' = id) as Hi' by (rewrite <- Ec; rewrite E in Hi; exact Hi).
  pose proof (holds_after _ _ _ _ _ Hh Hr Hio' Hl' Hu' Hi') as Hh'.
  assert (ch_Latest c' = complete /\ chain_facts c' = chain_facts c /\ ch_Applied c' !! intent = Some (st_Nonce next) /\
    ch_Pending c' = None /\ ch_Conflict c' = None /\ ch_Signed c' = ∅) as (F1 & F2 & F3 & F4 & F5 & F6).
  { rewrite <- Ec. subst c. split; [done|]. split; [done|].
    split; [rewrite ES; apply lookup_insert_eq|]. split; [exact Hp|]. split; [exact Hk|].
    apply map_empty. intros j. destruct (ch_Signed _ !! j) as [d|] eqn:Ej; [exfalso|done].
    apply prune_lookup in Ej as [Ej Hlt]. change (st_Nonce (ss_State complete) < j) in Hlt.
    apply lookup_insert_Some in Ej as [[Ej _]|[_ Ej]]; [lia|]. apply prune_lookup in Ej as [Ej _].
    apply Hs in Ej. cbn in Ej, En. rewrite ES in Hlt. cbn in Hlt. lia. }
  exists (mkNode s' (learn_secret (norm_transition tr) (n_vault n)).1), (set_NeedsReconcile false (Clone c')).
  split; [|split; [exact Hh'|]].
  - unfold HandlePropose. rewrite parseBytes32_encode by done. change (cm_channel (n_store n) id) with (Get (n_store n) id).
    rewrite HG, bool_decide_eq_false_2 by (rewrite Hk; by intros []).
    rewrite (lo_open _ L). change (negb (StatusOpen =? StatusOpen)) with false. cbv iota.
    cbn [proposal_body spb_Intent]. rewrite intentOf_encode, Hap by done.
    unfold decode_proposal. cbn [proposal_body spb_State spb_Transition spb_Sig].
    rewrite decode_encode_state, decode_encode_transition, parseSig_encode by done.
    rewrite (other_party_of _ _ _ HP). unfold Matches. rewrite Apply_norm, HA. cbn [obind].
    rewrite (proj2 (Equal_ok _ _) (same_state_norm next)).
    change (checkTiming cfg now c (norm_transition tr)) with (checkTiming cfg now c tr). rewrite HT.
    unfold answer_proposal. change (learn_secret (norm_transition tr) (n_vault n)) with (learn_secret tr (n_vault n)).
    destruct (learn_secret tr (n_vault n)) as [v' lr]. cbn [snd] in Hv. subst lr. cbn [n_store fst].
    rewrite Digest_norm by done. fold raw.
    assert (HasSigned c (st_Nonce (norm_state next)) = None) as ->.
    { unfold HasSigned. destruct (ch_Signed c !! _) eqn:E1; [|done]. apply Hs in E1. cbn in E1. lia. }
    unfold signFor. rewrite Hr. cbn [guard_err]. rewrite HS. cbn [of_option]. rewrite (other_party_of _ _ _ HP).
    fold complete. match goal with |- context [cm_commit ?a ?d ?f] => change (cm_commit a d f) with
      (Update (n_store n) id (adopt_proposal now intent (norm_transition tr) complete raw)) end.
    rewrite HU. change (cm_channel s' id) with (Get s' id). rewrite (proj1 (proj2 Hh')).
    f_equal. f_equal. unfold acceptEnvelope, newEnvelope. cbn [set_NeedsReconcile Clone ch_ID ch_Latest].
    rewrite Hi', F1. do 4 f_equal. unfold IsA. cbn [set_NeedsReconcile Clone ch_PartyA].
    unfold chain_facts in F2. injection F2 as _ -> _ _ _ _ _ _. rewrite cloneSigned_id.
    rewrite <- (assemble_slot c (norm_state next) x (ps_self cfg) sigX sigY HP). done.
  - rewrite <- F2. split; [done|]. split; [cbn; rewrite F1; by destruct complete|]. split; [exact F3|].
    split; [cbn; by rewrite F4|]. split; [cbn; by rewrite F5|]. split; [done|exact F6].
Qed.

(** ** In step again *)

Lemma base_state_norm (a b : Channel) (s : State) (x1 y1 x2 y2 : bytes) :
  ch_ID a = ch_ID b -> ch_Latest a = mkSignedState s x1 y1 -> ch_Latest b = mkSignedState (norm_state s) x2 y2 ->
  fresh_channel a = false -> fresh_channel b = false -> base_state a = base_state b.
Proof.
  intros Hi Ha Hb Fa Fb. unfold base_state. rewrite Fa, Fb, Ha, Hb, Hi. cbn.
  f_equal; try (by destruct (st_BalanceA s)); try (by destruct (st_BalanceB s)).
  unfold clonePending. rewrite map_map. apply map_ext. done.
Qed.

Lemma ledger_ok_norm (c c' : Channel) (s : State) (x1 y1 x2 y2 : bytes) :
  chain_facts c' = chain_facts c -> ch_Latest c = mkSignedState s x1 y1 ->
  ch_Latest c' = mkSignedState (norm_state s) x2 y2 -> fresh_channel c = false -> fresh_channel c' = false ->
  ledger_ok c -> ledger_ok c'.
Proof.
  unfold chain_facts. intros [= E1 E2 E3 E4 E5 E6 E7 E8] Hl Hl' F F' [L1 L2 L3 L4 L5 L6].
  unfold baseA, baseB, base_value in *. rewrite F, Hl in *. cbn in *.
  assert (map norm_htlc (st_Pending s) = st_Pending s) as EN by (apply norm_locks_id, L5).
  constructor; unfold baseA, baseB, base_value; rewrite ?F', ?Hl'; cbn; rewrite ?EN; try done; try congruence.
  unfold lockedTotal in L6. unfold zsum in L6. lia.
Qed.

Lemma settled_after (c c' : Channel) (tr : StateTransition) (p : bytes) (ss : SignedState) :
  settled c -> u_range 64 (st_Nonce (ss_State (ch_Latest c)) + 1) -> Apply tr (Some c) p = Ok (ss_State ss) ->
  acceptable c ss -> t_Kind tr <> KindCheckpoint -> chain_facts c' = chain_facts c -> ch_Latest c' = ss ->
  ledger_ok c' /\ fresh_channel c' = false.
Proof.
  intros [_ _ _ _ L] Hn HA HAcc Hk Hf Hl. pose proof (Accept_complete _ _ HAcc) as HE.
  pose proof HA as HA'. apply Apply_ok in HA' as (_ & a & b & ps & wA & wB & He & Es).
  apply effect_no_withdrawal in He as [-> ->]; [|done].
  assert (ledger_ok (set_Chain (ch_DepositA c) (ch_DepositB c) StatusOpen (adopted c ss))) as HL.
  { eapply ledger_ok_step; [exact L|exact HA|exact HE|]. rewrite Es. cbn. lia. }
  split.
  - eapply (ledger_ok_view (set_Chain (ch_DepositA c) (ch_DepositB c) StatusOpen (adopted c ss))); [|rewrite Hl; by destruct ss|exact HL]. rewrite Hf. unfold chain_facts. cbn. by rewrite (lo_open _ L).
  - apply complete_not_fresh. rewrite Hl. apply Complete_true, HAcc.
Qed.

Lemma in_step_after (a b a' b' : Channel) (tr : StateTransition) (x y sigX sigY : bytes) (next : State) :
  in_step a b -> u_range 64 (st_Nonce (ss_State (ch_Latest a)) + 1) -> u_range 64 (st_Nonce (ss_State (ch_Latest b)) + 1) ->
  Apply tr (Some a) x = Ok next -> t_Kind tr <> KindCheckpoint ->
  acceptable a (assemble a next sigX x sigY) -> acceptable b (assemble b next sigX x sigY) ->
  acceptable b (assemble b (norm_state next) sigX x sigY) ->
  chain_facts a' = chain_facts a -> ch_Latest a' = assemble a next sigX x sigY ->
  chain_facts b' = chain_facts b -> ch_Latest b' = assemble b (norm_state next) sigX x sigY ->
  ch_Pending a' = None -> ch_Conflict a' = None -> ch_NeedsReconcile a' = false -> ch_Signed a' = ∅ ->
  ch_Pending b' = None -> ch_Conflict b' = None -> ch_NeedsReconcile b' = false -> ch_Signed b' = ∅ ->
  in_step a' b'.
Proof.
  intros [HF HB SA SB] Hna Hnb HA Hk Aa Ab Abn Fa La Fb Lb Pa Ka Ra Ga Pb Kb Rb Gb.
  assert (Apply tr (Some b) x = Ok next) as HAb by (by rewrite (Apply_view tr a b)).
  destruct (settled_after a a' tr x _ SA Hna ltac:(by rewrite assemble_state) Aa Hk Fa La) as [LA FrA].
  assert (ledger_ok (set_Latest (assemble b next sigX x sigY) b) /\
    fresh_channel (set_Latest (assemble b next sigX x sigY) b) = false) as [LB0 FrB0]
    by (eapply (settled_after b); [exact SB|done|by rewrite assemble_state|done|done|done|done]).
  assert (fresh_channel b' = false) as FrB by (apply complete_not_fresh; rewrite Lb; apply Complete_true, Abn).
  assert (exists x1 y1, assemble a next sigX x sigY = mkSignedState next x1 y1) as (x1 & y1 & EA)
    by (unfold assemble; destruct (IsA a x); by eexists _, _).
  assert (exists x2 y2, assemble b next sigX x sigY = mkSignedState next x2 y2 /\
    assemble b (norm_state next) sigX x sigY = mkSignedState (norm_state next) x2 y2) as (x2 & y2 & EB & EBn)
    by (unfold assemble; destruct (IsA b x); eexists _, _; by split).
  rewrite EA in La. rewrite EBn in Lb. rewrite EB in *.
  assert (ledger_ok b') as LB by (eapply (ledger_ok_norm (set_Latest (mkSignedState next x2 y2) b)); eauto).
  split; [congruence| | |].
  - eapply base_state_norm; eauto. unfold chain_facts in *. congruence.
  - split; try done. rewrite Ga. apply map_Forall_empty.
  - split; try done. rewrite Gb. apply map_Forall_empty.
Qed.
End Payment.

(** ** The whole exchange *)

Section Complete.
Context `{Crypto : ChannelCrypto} `{!ChannelCryptoLaws Crypto}.
(** Each side's wallet, configuration and view of the chain. *)
Record Side : Type := mkSide {
  sd_sign : bytes -> option bytes;
  sd_text : chan_err -> string;
  sd_cfg : PeerSession;
  sd_chainID : option Z;
  sd_contract : bytes;
  sd_chain : bytes -> outcome chan_err OnChainChannel
}.
Definition side_self (x : Side) : bytes := ps_self (sd_cfg x).
Definition side_handle (x : Side) (now : Z) : Coordinator -> Message -> Coordinator * outcome chan_err (option Message) :=
  Handle (sd_sign x) (sd_text x) (sd_cfg x) (sd_chainID x) (sd_contract x) (sd_chain x) now.
(** The peer at the end of a link that delivers: its coordinator, and what it answers. *)
Definition honest_peer (x : Side) (now : Z) (m : Message) (co : Coordinator) : Coordinator * outcome chan_err Message :=
  let (co', r) := side_handle x now co m in
  (co', match r with
        | Ok (Some reply) => Ok reply
        | Ok None => Err (ErrText "no reply")
        | Err e => Err e
        | Panic => Panic
        end).
Definition side_pay (x y : Side) (now : Z) (a b : Coordinator) (id intent : bytes) (tr : StateTransition)
    : Coordinator * Coordinator * outcome chan_err PaymentResult :=
  Pay (sd_sign x) (sd_text x) (sd_cfg x) (sd_chainID x) (sd_contract x) (sd_chain x) (honest_peer y now) now a b id intent tr.

(** A payment both sides can agree on: valid for the payer, in time for both,
    representable, new, and both wallets sign. *)
Record payable (x y : Side) (now : Z) (b : Coordinator) (cA cB : Channel) (intent : bytes) (tr : StateTransition)
    (next : State) : Prop := {
  py_step : in_step cA cB;
  py_parties : the_parties cA (side_self x) (side_self y);
  py_nonceA : u_range 64 (st_Nonce (ss_State (ch_Latest cA)) + 1);
  py_nonceB : u_range 64 (st_Nonce (ss_State (ch_Latest cB)) + 1);
  py_intent : array_ok 32 intent;
  py_newA : AppliedAt cA intent = None;
  py_newB : AppliedAt cB intent = None;
  py_kind : t_Kind tr <> KindCheckpoint;
  py_apply : Apply tr (Some cA) (side_self x) = Ok next;
  py_next : encodable next;
  py_tr : transition_encodable tr;
  py_timeA : t_Kind tr = KindLockSettle -> checkTiming (sd_cfg x) now cA tr = None;
  py_timeB : checkTiming (sd_cfg y) now cB tr = None;
  py_secret : (learn_secret tr (n_vault (co_node b))).2 = Ok tt;
  py_signA : signs (sd_sign x) (side_self x) (Digest next (ch_ChainID cA) (ch_Contract cA));
  py_signB : signs (sd_sign y) (side_self y) (Digest next (ch_ChainID cA) (ch_Contract cA))
}.

Lemma the_parties_view (c c' : Channel) (x y : bytes) :
  chain_facts c' = chain_facts c -> the_parties c x y -> the_parties c' x y.
Proof. unfold chain_facts, the_parties. by intros [= _ -> -> _ _ _ _ _]. Qed.

Lemma Adopt_held (x : Side) (s : Store) (id : bytes) (c : Channel) :
  Get s id = Some c -> Adopt (sd_cfg x) (sd_chainID x) (sd_contract x) (sd_chain x) s id = (s, Ok tt).
Proof. intros H. unfold Adopt. by rewrite H. Qed.

Lemma set_store_node (s : Store) (co : Coordinator) : co_node (set_store s co) = with_store (co_node co) s.
Proof. done. Qed.
Lemma with_own_store (co : Coordinator) : with_store (co_node co) (co_store co) = co_node co.
Proof. by destruct co as [[]]. Qed.

Lemma signed_by_both_view (c c' : Channel) (ss : SignedState) :
  chain_facts c' = chain_facts c -> signed_by_both c ss -> signed_by_both c' ss.
Proof.
  unfold signed_by_both, chain_facts. intros [= _ -> -> _ _ _ E7 ->] HS.
  by rewrite <- (Digest_chain _ (ch_ChainID c')), E7, Digest_chain.
Qed.

(** The payee's side of the exchange. *)
Lemma honest_answer (y : Side) (now : Z) (b : Coordinator) (id intent x sigX sigY : bytes) (tr : StateTransition)
    (c cB : Channel) (next : State) :
  holds (co_store b) id cB -> settled cB -> u_range 64 (st_Nonce (ss_State (ch_Latest cB)) + 1) ->
  the_parties cB x (side_self y) -> Apply tr (Some cB) x = Ok next -> encodable next -> transition_encodable tr ->
  checkTiming (sd_cfg y) now cB tr = None -> (learn_secret tr (n_vault (co_node b))).2 = Ok tt ->
  array_ok 32 intent -> AppliedAt cB intent = None -> array_ok 65 sigX -> array_ok 65 sigY ->
  RecoverSigner (Digest next (ch_ChainID cB) (ch_Contract cB)) sigX = Ok x ->
  RecoverSigner (Digest next (ch_ChainID cB) (ch_Contract cB)) sigY = Ok (side_self y) ->
  sd_sign y (Digest next (ch_ChainID cB) (ch_Contract cB)) = Some sigY -> ch_ID c = id ->
  exists b' cB', honest_peer y now (proposalEnvelope c (mkPendingProposal intent tr next sigX)) b =
      (b', Ok (newEnvelope id (MsgStateAccept (mkAccept (hex_encode intent) (st_Nonce next) (hex_encode sigY))))) /\
    holds (co_store b') id cB' /\ chain_facts cB' = chain_facts cB /\
    ch_Latest cB' = assemble cB (norm_state next) sigX x sigY /\ ch_Applied cB' !! intent = Some (st_Nonce next) /\
    ch_Pending cB' = None /\ ch_Conflict cB' = None /\ ch_NeedsReconcile cB' = false /\ ch_Signed cB' = ∅.
Proof.
  intros Hh HS Hn HP HA He Ht HT Hv Hi Hap HX HY RX RY Hsg Hid. pose proof Hh as (_ & HG & _ & Har).
  destruct (answer_step (sd_text y) (sd_sign y) (sd_cfg y) now (co_node b) id intent x sigX sigY tr cB next)
    as (n2 & cB' & HH & Hr); try done.
  eexists ((set_store (co_store b) b) <| co_node := n2 |>), cB'. split; [|exact Hr].
  unfold honest_peer, side_handle, Handle, adopt_then, AdoptAnnounced, proposalEnvelope. cbn [newEnvelope m_Body m_Channel].
  rewrite Hid, parseBytes32_encode, (Adopt_held y _ _ _ HG), set_store_node, with_own_store by done.
  cbn [pp_Intent pp_Transition pp_State pp_Sig]. unfold proposal_body in HH. by rewrite HH.
Qed.

(** The payer's side: propose, exchange, complete. *)
Lemma honest_attempt (x y : Side) (now : Z) (a b : Coordinator) (id intent : bytes) (tr : StateTransition)
    (cA cB : Channel) (next : State) :
  holds (co_store a) id cA -> holds (co_store b) id cB -> payable x y now b cA cB intent tr next ->
  exists a' b' cA' cB', attempt (sd_sign x) (sd_text x) (sd_cfg x) (honest_peer y now) now a b id intent tr =
      (a', b', Ok (done_result (st_Nonce next))) /\
    holds (co_store a') id cA' /\ holds (co_store b') id cB' /\ in_step cA' cB' /\
    chain_facts cA' = chain_facts cA /\
    ss_State (ch_Latest cA') = next /\ signed_by_both cA' (ch_Latest cA') /\
    ss_State (ch_Latest cB') = norm_state next /\ signed_by_both cB' (ch_Latest cB') /\
    AppliedAt cA' intent = Some (st_Nonce next) /\ AppliedAt cB' intent = Some (st_Nonce next).
Proof.
  intros Ha Hb [HI HP HnA HnB Hi NA NB Hk HA He Ht TA TB Hv (sigX & SX & LX & RX) (sigY & SY & LY & RY)].
  pose proof HI as [HF HB SA SB]. symmetry in HF. symmetry in HB.
  pose proof (Apply_view tr cA cB (side_self x) HF HB) as HAB. rewrite HA in HAB.
  pose proof (Digest_facts next cA cB HF) as HD. pose proof (the_parties_view _ _ _ _ HF HP) as HPB.
  destruct (both_acceptable cA tr next _ _ sigX sigY (sd_ledger _ SA) HnA HP HA He LX LY RX RY) as [AA _].
  rewrite <- HD in RX, RY, SY.
  destruct (both_acceptable cB tr next _ _ sigX sigY (sd_ledger _ SB) HnB HPB HAB He LX LY RX RY) as [AB ABn].
  destruct (propose_step (sd_sign x) (sd_cfg x) now (co_node a) id intent sigX tr cA next Ha SA HnA HA TA SX)
    as (n1 & c1 & HPr & H1 & R1 & F1 & L1 & P1 & K1 & S1).
  destruct (honest_answer y now b id intent (side_self x) sigX sigY tr cA cB next)
    as (b' & cB' & HX & Hb' & FB & LB & IB & PB & KB & RB & SgB); try done; [apply Ha|].
  destruct (accept_step (sd_cfg x) now n1 id (side_self y) sigX sigY intent tr next cA c1 (st_Nonce next))
    as (n2 & c2 & HH & H2 & F2 & L2 & I2 & P2 & K2 & R2 & S2); try done.
  eexists _, b', c2, cB'. split; [|split; [|split; [exact Hb'|]]].
  - unfold attempt. change (co_node (metric TipAttempted a)) with (co_node a). rewrite HPr, HX.
    unfold settle_reply. cbn [newEnvelope m_Body m_Channel].
    change (co_node ((metric TipAttempted a) <| co_node := n1 |>)) with n1. rewrite HH. unfold fresh_nonce.
    rewrite (proj1 (proj2 H2)), L2, assemble_state. reflexivity.
  - unfold co_store. rewrite recordCompletion_store. exact H2.
  - split; [eapply in_step_after with (a := cA) (b := cB); try done; exact HI|].
    rewrite L2, LB. split; [exact F2|]. split; [apply assemble_state|].
    split; [|split; [apply assemble_state|split; [|done]]].
    + destruct (assemble_signed cA next _ _ sigX sigY HP LX LY) as (HS & _); try (by rewrite <- HD).
      by apply (signed_by_both_view _ _ _ F2).
    + pose proof (Digest_norm next (ch_ChainID cB) (ch_Contract cB) He) as HDn.
      destruct (assemble_signed cB (norm_state next) _ _ sigX sigY HPB LX LY) as (HS & _); try (by rewrite HDn).
      by apply (signed_by_both_view _ _ _ FB).
Qed.

Lemma honest_pay (x y : Side) (now : Z) (a b : Coordinator) (id intent : bytes) (tr : StateTransition)
    (cA cB : Channel) (next : State) :
  holds (co_store a) id cA -> holds (co_store b) id cB -> payable x y now b cA cB intent tr next ->
  exists a' b' cA' cB', side_pay x y now a b id intent tr = (a', b', Ok (done_result (st_Nonce next))) /\
    holds (co_store a') id cA' /\ holds (co_store b') id cB' /\ in_step cA' cB' /\
    chain_facts cA' = chain_facts cA /\
    ss_State (ch_Latest cA') = next /\ signed_by_both cA' (ch_Latest cA') /\
    ss_State (ch_Latest cB') = norm_state next /\ signed_by_both cB' (ch_Latest cB') /\
    AppliedAt cA' intent = Some (st_Nonce next) /\ AppliedAt cB' intent = Some (st_Nonce next).
Proof.
  intros Ha Hb Hp.
  destruct (honest_attempt x y now (set_store (co_store a) a) b id intent tr cA cB next Ha Hb Hp)
    as (a' & b' & cA' & cB' & HA & Hr).
  exists a', b', cA', cB'. split; [|exact Hr]. unfold side_pay, Pay. pose proof Ha as (_ & HG & _).
  rewrite (Adopt_held x _ _ _ HG), HG, bool_decide_eq_false_2, (py_newA _ _ _ _ _ _ _ _ _ Hp); [exact HA|].
  rewrite (sd_conflict _ (is_settledA _ _ (py_step _ _ _ _ _ _ _ _ _ Hp))). by intros [].
Qed.
End Complete.


Definition toy_side (self : bytes) (key : Z) : Side :=
  mkSide (toy_signer key) toy_text (NewPeerSession self) (Some 1) toy_contract toy_chain.

Lemma toy_holds : holds (co_store toy_coordinator) toy_id toy_snapshot.
Proof. split; [done|]. split; [exact toy_get|]. split; [done|exact (proj1 toy_arrays)]. Qed.

Lemma toy_settled_side : settled toy_snapshot.
Proof.
  split; [exact toy_snapshot_pending|exact toy_snapshot_conflict|done| |].
  - assert (ch_Signed toy_snapshot = ∅) as -> by (vm_compute; reflexivity). apply map_Forall_empty.
  - apply (ledger_ok_view toy_channel); [done|by vm_compute|]. apply reachable_ledger_ok, toy_reachable.
Qed.


Lemma toy_transition_encodable : transition_encodable (toy_tr KindPay 10).
Proof. split; [vm_compute; tauto|apply array_okb_spec; vm_compute; reflexivity..]. Qed.

Lemma toy_payable : payable (Crypto := toy_crypto) (toy_side toy_A toy_keyA) (toy_side toy_B toy_keyB) 1000
  toy_coordinator toy_snapshot toy_snapshot toy_intent (toy_tr KindPay 10) (toy_pay_state 1 50 50).
Proof.
  split.
  - split; [reflexivity|reflexivity|exact toy_settled_side|exact toy_settled_side].
  - split; [by vm_compute|left; split; vm_compute; reflexivity].
  - exact toy_nonce_fits.
  - exact toy_nonce_fits.
  - apply array_okb_spec. vm_compute. reflexivity.
  - vm_compute. reflexivity.
  - vm_compute. reflexivity.
  - discriminate.
  - exact toy_pay_applies.
  - exact (proj1 toy_pay1_encodable).
  - exact toy_transition_encodable.
  - discriminate.
  - reflexivity.
  - reflexivity.
  - exists (toy_sign toy_keyA (@Digest toy_crypto (toy_pay_state 1 50 50) (Some 1) toy_contract)).
    split; [reflexivity|]. split; [apply array_okb_spec|]; vm_compute; reflexivity.
  - exists (toy_sign toy_keyB (@Digest toy_crypto (toy_pay_state 1 50 50) (Some 1) toy_contract)).
    split; [reflexivity|]. split; [apply array_okb_spec|]; vm_compute; reflexivity.
Qed.

