(* ===== verification/ChannelExecutor.v ===== *)
(** * Executing a split payment ([internal/channel/multipath_exec.go])

    The executor keeps no account of the money: it writes down what it attempts, drives
    each leg through the payment engine and asks the engine what happened.  The engine
    is an interface, implemented by the coordinator; the theorems about the executor
    need only its laws.  [ExecDisk] is the outcome of writing the journal. *)
From S2P Require Import Prelude.
From S2P Require Import GoBytes.
From S2P Require Import RecordUpdate.
From S2P Require Import ChannelTypes.
From S2P Require Import ChannelNote.
From S2P Require Import ChannelMultipath.
From S2P Require Import ChannelCrypto.
From S2P Require Import ChannelState.
From S2P Require Import ChannelTransition.
From S2P Require Import ChannelHistory.
From S2P Require Import ChannelWire.
From S2P Require Import ChannelCommitter.
From S2P Require Import ChannelPreimages.
From S2P Require Import ChannelStore.
From S2P Require Import ChannelSession.
From S2P Require Import ChannelSafety.
From S2P Require Import ChannelProtocol.
From S2P Require Import ChannelCoordinator.

(** ** The engine *)

(** What the executor calls: the nonce at which a channel applied an intent, and a
    payment on a channel through a peer handle.  [S] is the engine's state, [P] the
    rest of the world, [X] a peer. *)
Class Engine (S P X : Type) : Type := {
  en_applied : S -> bytes -> bytes -> option Z;
  en_pay : Z -> X -> S -> P -> bytes -> bytes -> StateTransition -> S * P * outcome chan_err PaymentResult
}.
(** An applied intent is answered from the record, and stays applied. *)
Class EngineLaws {S P X : Type} (E : Engine S P X) (ok : S -> Prop) : Prop := {
  en_pay_ok : forall now x s p ch i tr, ok s -> ok (en_pay now x s p ch i tr).1.1;
  en_pay_applied : forall now x s p ch i tr, is_Some (en_applied s ch i) -> (en_pay now x s p ch i tr).1 = (s, p);
  en_pay_keeps : forall now x s p ch i tr ch' i', ok s -> is_Some (en_applied s ch' i') ->
    is_Some (en_applied (en_pay now x s p ch i tr).1.1 ch' i')
}.

(** ** Data *)

Inductive leg_err : Type := LegPeer (e : chan_err) | LegPay (e : chan_err) | LegRefused (code detail : string).
Inductive exec_err : Type := ErrNoJournal | ErrJournalUnreadable | ErrJournalWrite | ErrJournalAmount (e : chan_err).
Inductive ExecMetric : Type := MultipathAttempt (legs : nat) | ExecutorFailure | TipDelivered (amount : Z).

Record LegState : Type := mkLegState { ls_Index : Z; ls_Locked : bool; ls_Settled : bool; ls_Refunded : bool; ls_Nonce : Z }.
Definition Terminal (l : LegState) : bool := ls_Settled l || ls_Refunded l.
(** [sort.Slice] by index. *)
Definition index_le (a b : LegState) : Prop := ls_Index a <= ls_Index b.
#[export] Instance index_le_dec (a b : LegState) : Decision (index_le a b) := Z.le_dec (ls_Index a) (ls_Index b).
#[export] Instance index_le_total : Total index_le.
Proof. intros a b. unfold index_le. lia. Qed.
Record Outcome : Type := mkOutcome {
  ou_Locked : nat; ou_Settled : nat; ou_Refunded : nat; ou_Pending : nat; ou_SettledAmount : Z; ou_Legs : list LegState
}.
Definition Outcome_Complete (o : Outcome) (pay : MultipathPayment) : outcome exec_err bool :=
  if (ou_Settled o =? length (mp_Legs pay))%nat then match mp_Total pay with Some t => Ok (ou_SettledAmount o =? t) | None => Panic end
  else Ok false.

(** The payment without what JSON leaves out, and the two texts beside it. *)
Record journal_wire : Type := mkJournalWire { jw_Payment : MultipathPayment; jw_Total : string; jw_Amounts : list string }.
Definition strip_leg (l : MultipathLeg) : MultipathLeg := mkLeg (lg_Index l) (lg_Channel l) None (lg_Expiry l) (lg_Intent l) (lg_Hash l) (lg_LockID l).
Definition strip_payment (p : MultipathPayment) : MultipathPayment := mkPayment (mp_ID p) None (mp_Deadline p) (map strip_leg (mp_Legs p)).
(** The widths Go gives the fields. *)
Record leg_wire_ok (l : MultipathLeg) : Prop := {
  lw_index : s_range 64 (lg_Index l);
  lw_channel : array_ok 32 (lg_Channel l);
  lw_expiry : s_range 64 (lg_Expiry l);
  lw_intent : array_ok 32 (lg_Intent l);
  lw_hash : array_ok 32 (lg_Hash l);
  lw_lock : array_ok 32 (lg_LockID l)
}.
Record payment_wire_ok (p : MultipathPayment) : Prop := {
  pw_id : array_ok 32 (mp_ID p);
  pw_deadline : s_range 64 (mp_Deadline p);
  pw_legs : Forall leg_wire_ok (mp_Legs p)
}.
(** [encoding/json] on the journal. *)
Class JournalCodec : Type := { journal_marshal : journal_wire -> bytes; journal_unmarshal : bytes -> option journal_wire }.
Class JournalCodecLaws (K : JournalCodec) : Prop :=
  journal_unmarshal_marshal : forall w, payment_wire_ok (jw_Payment w) ->
    journal_unmarshal (journal_marshal w) = Some (mkJournalWire (strip_payment (jw_Payment w)) (jw_Total w) (jw_Amounts w)).

(** [os.WriteFile] of the temporary file fails, leaving something or nothing of it;
    [os.Rename] fails; or both succeed. *)
Inductive ExecDisk : Type := WriteFails (left : option bytes) | RenameFails | WriteSucceeds.

(** ** The executor *)

Definition asLegError (r : outcome chan_err PaymentResult) : option leg_err :=
  match r with
  | Err e => Some (LegPay e)
  | Ok res => if String.eqb (r_Rejected res) "" then None else Some (LegRefused (r_Rejected res) (r_Detail res))
  | Panic => None
  end.

Record Executor (S P : Type) : Type := mkExecutor { xe_engine : S; xe_world : P; xe_metrics : list ExecMetric; xe_files : gmap string bytes }.
Arguments mkExecutor {S P}.
Arguments xe_engine {S P}.
Arguments xe_world {S P}.
Arguments xe_metrics {S P}.
Arguments xe_files {S P}.

Section Executor.
Context {S P X : Type} {E : Engine S P X} `{Hmac : HmacSha256} `{Crypto : ChannelCrypto} `{K : JournalCodec}.
(** [e.dir != ""] *)
Context (dir : bool).
(** [PeerFor] *)
Context (peers : bytes -> outcome chan_err X).

Definition emit (m : ExecMetric) (e : Executor S P) : Executor S P := mkExecutor (xe_engine e) (xe_world e) (xe_metrics e ++ [m]) (xe_files e).
Definition with_engine (s : S) (p : P) (e : Executor S P) : Executor S P := mkExecutor s p (xe_metrics e) (xe_files e).
Definition with_files (f : gmap string bytes) (e : Executor S P) : Executor S P := mkExecutor (xe_engine e) (xe_world e) (xe_metrics e) f.

(** [journalPath], within the directory. *)
Definition journal_name (id : bytes) : string := String.append (hex_encode id) ".json".
Definition wire_of (pay : MultipathPayment) : journal_wire :=
  mkJournalWire pay (decString (mp_Total pay)) (map (fun l => decString (lg_Amount l)) (mp_Legs pay)).
Definition Journal (disk : ExecDisk) (pay : MultipathPayment) (files : gmap string bytes) : gmap string bytes * outcome exec_err unit :=
  if negb dir then (files, Ok tt)
  else
    let b := journal_marshal (wire_of pay) in
    let tmp := String.append (journal_name (mp_ID pay)) ".tmp" in
    match disk with
    | WriteFails None => (files, Err ErrJournalWrite)
    | WriteFails (Some part) => (<[tmp := part]> files, Err ErrJournalWrite)
    | RenameFails => (<[tmp := b]> files, Err ErrJournalWrite)
    | WriteSucceeds => (<[journal_name (mp_ID pay) := b]> (delete tmp files), Ok tt)
    end.
Fixpoint load_amounts (legs : list MultipathLeg) (decs : list string) : outcome exec_err (list MultipathLeg) :=
  match legs, decs with
  | leg :: legs, d :: decs =>
      match parseDec d with
      | Ok amt =>
          let? legs := load_amounts legs decs in
          Ok (mkLeg (lg_Index leg) (lg_Channel leg) (Some amt) (lg_Expiry leg) (lg_Intent leg) (lg_Hash leg) (lg_LockID leg) :: legs)
      | Err e => Err (ErrJournalAmount e)
      | Panic => Panic
      end
  | legs, _ => Ok legs
  end.
Definition LoadJournal (id : bytes) (files : gmap string bytes) : outcome exec_err MultipathPayment :=
  let? b := of_option ErrNoJournal (files !! journal_name id) in
  let? w := of_option ErrJournalUnreadable (journal_unmarshal b) in
  match parseDec (jw_Total w) with
  | Ok total =>
      let? legs := load_amounts (mp_Legs (jw_Payment w)) (jw_Amounts w) in
      Ok (mkPayment (mp_ID (jw_Payment w)) (Some total) (mp_Deadline (jw_Payment w)) legs)
  | Err e => Err (ErrJournalAmount e)
  | Panic => Panic
  end.

(** ** What the channels say *)

Definition applied (s : S) (ch i : bytes) : bool := bool_decide (is_Some (en_applied (X := X) (P := P) s ch i)).
Definition leg_state (s : S) (leg : MultipathLeg) : LegState :=
  mkLegState (lg_Index leg) (applied s (lg_Channel leg) (lg_Intent leg))
    (applied s (lg_Channel leg) (settleIntent (lg_Intent leg))) (applied s (lg_Channel leg) (refundIntent (lg_Intent leg)))
    (default 0 (en_applied (X := X) (P := P) s (lg_Channel leg) (lg_Intent leg))).
Definition Status (s : S) (pay : MultipathPayment) : list LegState := merge_sort index_le (map (leg_state s) (mp_Legs pay)).

(** One state, against the leg at its place. *)
Definition tally (o : outcome exec_err Outcome) (sl : LegState * MultipathLeg) : outcome exec_err Outcome :=
  let? o := o in
  let '(st, leg) := sl in
  if ls_Settled st then
    match lg_Amount leg with
    | Some a => Ok (mkOutcome (ou_Locked o) (ou_Settled o + 1) (ou_Refunded o) (ou_Pending o) (ou_SettledAmount o + a) (ou_Legs o))
    | None => Panic
    end
  else if ls_Refunded st then Ok (mkOutcome (ou_Locked o) (ou_Settled o) (ou_Refunded o + 1) (ou_Pending o) (ou_SettledAmount o) (ou_Legs o))
  else if ls_Locked st then Ok (mkOutcome (ou_Locked o + 1) (ou_Settled o) (ou_Refunded o) (ou_Pending o) (ou_SettledAmount o) (ou_Legs o))
  else Ok (mkOutcome (ou_Locked o) (ou_Settled o) (ou_Refunded o) (ou_Pending o + 1) (ou_SettledAmount o) (ou_Legs o)).
Definition Summarise (s : S) (pay : MultipathPayment) : outcome exec_err Outcome :=
  let legs := Status s pay in
  foldl tally (Ok (mkOutcome 0 0 0 0 0 legs)) (zip legs (mp_Legs pay)).

(** ** Driving the legs *)

(** One leg: find the peer, pay, turn the result into the leg's error.  [loud] says
    whether a missing peer is counted. *)
Definition drive_leg (now : Z) (loud : bool) (e : Executor S P) (ch intent : bytes) (tr : outcome exec_err StateTransition)
    : Executor S P * outcome exec_err (option leg_err) :=
  match peers ch with
  | Err err => (if loud then emit ExecutorFailure e else e, Ok (Some (LegPeer err)))
  | Panic => (e, Panic)
  | Ok x =>
      match tr with
      | Ok tr =>
          let '(s, p, r) := en_pay now x (xe_engine e) (xe_world e) ch intent tr in
          let e := with_engine s p e in
          match r with
          | Panic => (e, Panic)
          | r => match asLegError r with None => (e, Ok None) | Some err => (emit ExecutorFailure e, Ok (Some err)) end
          end
      | Err err => (e, Err err)
      | Panic => (e, Panic)
      end
  end.
(** The legs in order; [None] is a leg passed over. *)
Fixpoint drive (now : Z) (loud : bool) (e : Executor S P) (jobs : list (option (bytes * bytes * outcome exec_err StateTransition)))
    : Executor S P * outcome exec_err (list (option leg_err)) :=
  match jobs with
  | [] => (e, Ok [])
  | None :: jobs => let (e, r) := drive now loud e jobs in (e, let? errs := r in Ok (None :: errs))
  | Some (ch, intent, tr) :: jobs =>
      let (e, r) := drive_leg now loud e ch intent tr in
      match r with
      | Ok err => let (e, r) := drive now loud e jobs in (e, let? errs := r in Ok (err :: errs))
      | Err x => (e, Err x)
      | Panic => (e, Panic)
      end
  end.

(** [new(big.Int).Set(leg.Amount)] panics on nil. *)
Definition lock_transition (leg : MultipathLeg) : outcome exec_err StateTransition :=
  match lg_Amount leg with
  | None => Panic
  | Some a => Ok (mkTransition KindLockAdd (Some a) (lg_LockID leg) (lg_Hash leg) (lg_Expiry leg) (zeros 32))
  end.
Definition lock_job (leg : MultipathLeg) := Some (lg_Channel leg, lg_Intent leg, lock_transition leg).
Definition Lock (disk : ExecDisk) (now : Z) (e : Executor S P) (pay : MultipathPayment) : Executor S P * outcome exec_err (list (option leg_err)) :=
  let (files, r) := Journal disk pay (xe_files e) in
  let e := with_files files e in
  match r with
  | Ok _ => drive now true (emit (MultipathAttempt (length (mp_Legs pay))) e) (map lock_job (mp_Legs pay))
  | Err err => (e, Err err)
  | Panic => (e, Panic)
  end.

Definition settle_transition (secret : bytes) (leg : MultipathLeg) : StateTransition :=
  mkTransition KindLockSettle None (lg_LockID leg) (zeros 32) 0 (FragmentPreimage secret (lg_Intent leg)).
Definition settle_job (secret : bytes) (sl : LegState * MultipathLeg) : option (bytes * bytes * outcome exec_err StateTransition) :=
  let '(st, leg) := sl in
  if negb (ls_Locked st) || Terminal st then None
  else Some (lg_Channel leg, settleIntent (lg_Intent leg), Ok (settle_transition secret leg)).
Definition Settle (now : Z) (e : Executor S P) (pay : MultipathPayment) (secret : bytes) : Executor S P * outcome exec_err (list (option leg_err)) :=
  let (e, r) := drive now false e (map (settle_job secret) (zip (Status (xe_engine e) pay) (mp_Legs pay))) in
  match r with
  | Ok errs =>
      match Summarise (xe_engine e) pay with
      | Ok out => (if (0 <? ou_Settled out)%nat then emit (TipDelivered (ou_SettledAmount out)) e else e, Ok errs)
      | Err x => (e, Err x)
      | Panic => (e, Panic)
      end
  | r => (e, r)
  end.

Definition refund_transition (leg : MultipathLeg) : StateTransition := mkTransition KindLockRefund None (lg_LockID leg) (zeros 32) 0 (zeros 32).
Definition refund_job (sl : LegState * MultipathLeg) : option (bytes * bytes * outcome exec_err StateTransition) :=
  let '(st, leg) := sl in
  if negb (ls_Locked st) || Terminal st then None
  else Some (lg_Channel leg, refundIntent (lg_Intent leg), Ok (refund_transition leg)).
Definition Refund (now : Z) (e : Executor S P) (pay : MultipathPayment) : Executor S P * outcome exec_err (list (option leg_err)) :=
  drive now false e (map refund_job (zip (Status (xe_engine e) pay) (mp_Legs pay))).

(** With the secret forward, without it back. *)
Definition exec_Resume (disk : ExecDisk) (now : Z) (e : Executor S P) (id : bytes) (secret : option bytes)
    : Executor S P * outcome exec_err (Outcome * list (option leg_err)) :=
  match LoadJournal id (xe_files e) with
  | Err x => (e, Err x)
  | Panic => (e, Panic)
  | Ok pay =>
      let (e, r) :=
        match secret with
        | Some secret =>
            let (e, r) := Lock disk now e pay in
            match r with
            | Ok errs => let (e, r') := Settle now e pay secret in (e, let? errs' := r' in Ok (errs ++ errs'))
            | r => (e, r)
            end
        | None => Refund now e pay
        end in
      (e, let? errs := r in let? out := Summarise (xe_engine e) pay in Ok (out, errs))
  end.
End Executor.

(** ** The order of the states *)

(** A list sorted by a key that its permutation holds in strictly rising order is that
    permutation. *)
Lemma sorted_by_key {A} (key : A -> Z) (l k : list A) (i : Z) :
  l ≡ₚ k -> Sorted (fun a b => key a <= key b) l -> map key k = seqZ i (Z.of_nat (length k)) -> l = k.
Proof.
  revert l i. induction k as [|y k IH]; intros l i HP HS HK; [by apply Permutation_nil_r in HP|].
  cbn [length map] in HK. rewrite Nat2Z.inj_succ, seqZ_cons, Z.pred_succ in HK by lia. injection HK as Hy HK.
  destruct l as [|x l]; [by apply Permutation_nil_l in HP|].
  assert (StronglySorted (fun a b => key a <= key b) (x :: l)) as HSS.
  { apply Sorted_StronglySorted; [|done]. intros a b c. lia. }
  apply StronglySorted_inv in HSS as [HSS HX].
  assert (forall z, z ∈ k -> i < key z) as HR.
  { intros z Hz. assert (key z ∈ map key k) as Hin by (by apply list_elem_of_fmap_2). rewrite HK, elem_of_seqZ in Hin. lia. }
  assert (x = y) as ->.
  { assert (x ∈ y :: k) as [->|Hx]%elem_of_cons by (rewrite <- HP; by left); [done|]. exfalso. specialize (HR x Hx).
    assert (y ∈ x :: l) as [->|Hyl]%elem_of_cons by (rewrite HP; by left); [lia|]. rewrite Forall_forall in HX. specialize (HX y Hyl). cbn in HX. lia. }
  f_equal. apply (IH l (Z.succ i)); [by apply Permutation_cons_inv in HP|by apply Sorted_inv in HS as [? _]|exact HK].
Qed.

Section Execution.
Context {S P X : Type} {E : Engine S P X} {okS : S -> Prop} {EL : EngineLaws E okS}.
Context `{Hmac : HmacSha256} `{Crypto : ChannelCrypto} `{K : JournalCodec}.
Context (dir : bool) (peers : bytes -> outcome chan_err X).

Abbreviation applied_in := (applied (X := X) (P := P)).
Abbreviation state_in := (leg_state (X := X) (P := P)).

Lemma applied_true (s : S) (ch i : bytes) : applied_in s ch i = true <-> is_Some (en_applied s ch i).
Proof. apply bool_decide_eq_true. Qed.

Lemma Status_in_order (s : S) (pay : MultipathPayment) : payment_ok pay -> Status (X := X) (P := P) s pay = map (state_in s) (mp_Legs pay).
Proof.
  intros [HI _]. unfold Status. apply (sorted_by_key ls_Index _ _ 0).
  - apply merge_sort_Permutation.
  - apply (Sorted_merge_sort index_le).
  - by rewrite map_map, length_map.
Qed.

(** ** Driving *)

Abbreviation job := (bytes * bytes * outcome exec_err StateTransition)%type.

Lemma drive_leg_step (now : Z) (loud : bool) (e e' : Executor S P) (ch intent : bytes) (tr : outcome exec_err StateTransition) r :
  drive_leg peers now loud e ch intent tr = (e', r) -> okS (xe_engine e) ->
  okS (xe_engine e') /\ xe_files e' = xe_files e /\
  (forall c i, is_Some (en_applied (xe_engine e) c i) -> is_Some (en_applied (xe_engine e') c i)) /\
  (is_Some (en_applied (xe_engine e) ch intent) -> xe_engine e' = xe_engine e /\ xe_world e' = xe_world e).
Proof.
  intros H Hok. unfold drive_leg in H. destruct (peers ch) as [x|err|].
  - destruct tr as [tr|err|]; try (injection H as <- _; done).
    destruct (en_pay now x (xe_engine e) (xe_world e) ch intent tr) as [[s p] r0] eqn:EP.
    assert (okS s) as Hs by (pose proof (en_pay_ok now x (xe_engine e) (xe_world e) ch intent tr Hok) as H0; by rewrite EP in H0).
    assert (forall c i, is_Some (en_applied (xe_engine e) c i) -> is_Some (en_applied s c i)) as HK
      by (intros c i Hc; pose proof (en_pay_keeps now x (xe_engine e) (xe_world e) ch intent tr c i Hok Hc) as H0; by rewrite EP in H0).
    assert (is_Some (en_applied (xe_engine e) ch intent) -> s = xe_engine e /\ p = xe_world e) as HA.
    { intros Hc. pose proof (en_pay_applied now x (xe_engine e) (xe_world e) ch intent tr Hc) as H0. rewrite EP in H0. cbn in H0. by injection H0 as -> ->. }
    destruct r0 as [res|err|]; [destruct (asLegError (Ok res))|destruct (asLegError (Err err))|]; injection H as <- _; done.
  - destruct loud; injection H as <- _; done.
  - injection H as <- _. done.
Qed.

Lemma drive_step (now : Z) (loud : bool) (jobs : list (option job)) (e e' : Executor S P) r :
  drive peers now loud e jobs = (e', r) -> okS (xe_engine e) ->
  okS (xe_engine e') /\ xe_files e' = xe_files e /\
  (forall c i, is_Some (en_applied (xe_engine e) c i) -> is_Some (en_applied (xe_engine e') c i)) /\
  ((forall ch i tr, Some (ch, i, tr) ∈ jobs -> is_Some (en_applied (xe_engine e) ch i)) -> xe_engine e' = xe_engine e /\ xe_world e' = xe_world e).
Proof.
  revert e r. induction jobs as [|[[[ch i] tr]|] jobs IH]; intros e r H Hok; cbn [drive] in H.
  - injection H as <- _. done.
  - destruct (drive_leg peers now loud e ch i tr) as [e1 r1] eqn:E1. apply drive_leg_step in E1 as (A1 & A2 & A3 & A4); [|done].
    destruct r1 as [err|err|].
    + destruct (drive peers now loud e1 jobs) as [e2 r2] eqn:E2. injection H as <- _. apply IH in E2 as (B1 & B2 & B3 & B4); [|done].
      split; [done|]. split; [congruence|]. split; [auto|]. intros HJ. destruct A4 as [A4 A5]; [by apply (HJ ch i tr); left|]. rewrite A4, A5 in *.
      apply B4. intros c j t Hj. apply (HJ c j t). by right.
    + injection H as <- _. split; [done|]. split; [done|]. split; [done|]. intros HJ. apply A4, (HJ ch i tr). by left.
    + injection H as <- _. split; [done|]. split; [done|]. split; [done|]. intros HJ. apply A4, (HJ ch i tr). by left.
  - destruct (drive peers now loud e jobs) as [e2 r2] eqn:E2. injection H as <- _. apply IH in E2 as (B1 & B2 & B3 & B4); [|done].
    split; [done|]. split; [done|]. split; [done|]. intros HJ. apply B4. intros c j t Hj. apply (HJ c j t). by right.
Qed.

(** A peer that is reached and applies what it is asked to. *)
Definition willing (now : Z) (ch intent : bytes) (tr : StateTransition) : Prop :=
  exists x, peers ch = Ok x /\ forall s p, okS s ->
    is_Some (en_applied (en_pay now x s p ch intent tr).1.1 ch intent) /\ (en_pay now x s p ch intent tr).2 <> Panic.

Definition job_willing (now : Z) (j : option job) : Prop :=
  match j with Some (ch, i, tr) => exists t, tr = Ok t /\ willing now ch i t | None => True end.

Lemma drive_willing (now : Z) (loud : bool) (jobs : list (option job)) (e : Executor S P) :
  okS (xe_engine e) -> Forall (job_willing now) jobs ->
  exists e' errs, drive peers now loud e jobs = (e', Ok errs) /\ forall ch i tr, Some (ch, i, tr) ∈ jobs -> is_Some (en_applied (xe_engine e') ch i).
Proof.
  intros Hok HF. revert e Hok. induction HF as [|[[[ch i] tr]|] jobs HW HF IH]; intros e Hok; cbn [drive].
  - exists e, []. split; [done|]. intros ch i tr Hj. by apply elem_of_nil in Hj.
  - destruct HW as (t & -> & x & Hx & HW). destruct (HW (xe_engine e) (xe_world e) Hok) as [HA HP].
    assert (exists e1 err, drive_leg peers now loud e ch i (Ok t) = (e1, Ok err) /\ xe_engine e1 = (en_pay now x (xe_engine e) (xe_world e) ch i t).1.1) as (e1 & err & E1 & EE).
    { unfold drive_leg. rewrite Hx. destruct (en_pay now x (xe_engine e) (xe_world e) ch i t) as [[s p] [res|er|]]; [|by eexists _, _|done].
      destruct (asLegError (Ok res)); by eexists _, _. }
    rewrite E1. destruct (drive_leg_step now loud e e1 ch i (Ok t) _ E1 Hok) as (Hok1 & _).
    destruct (IH e1 Hok1) as (e2 & errs & E2 & HI). rewrite E2. exists e2, (err :: errs). split; [done|].
    intros ch' i' tr' [Heq|Hj]%elem_of_cons; [|by eapply HI]. injection Heq as -> -> ->.
    destruct (drive_step now loud jobs e1 e2 _ E2 Hok1) as (_ & _ & HK & _). apply HK. by rewrite EE.
  - destruct (IH e Hok) as (e2 & errs & E2 & HI). rewrite E2. exists e2, (None :: errs). split; [done|].
    intros ch' i' tr' [Heq|Hj]%elem_of_cons; [done|]. by eapply HI.
Qed.

(** ** What the executor promises *)

(** A leg that is settled or refunded, or not locked. *)
Definition resolved (s : S) (leg : MultipathLeg) : Prop :=
  applied_in s (lg_Channel leg) (lg_Intent leg) = false \/
  applied_in s (lg_Channel leg) (settleIntent (lg_Intent leg)) = true \/ applied_in s (lg_Channel leg) (refundIntent (lg_Intent leg)) = true.

Lemma zip_map_l {A B} (f : A -> B) (l : list A) : zip (map f l) l = map (fun x => (f x, x)) l.
Proof. induction l as [|x l IH]; cbn; [done|]. by rewrite IH. Qed.

Lemma passed_over (s : S) (leg : MultipathLeg) : resolved s leg <-> negb (ls_Locked (state_in s leg)) || Terminal (state_in s leg) = true.
Proof.
  unfold resolved, Terminal, leg_state. cbn [ls_Locked ls_Settled ls_Refunded]. rewrite !orb_true_iff, negb_true_iff. tauto.
Qed.

Lemma settle_job_none (s : S) (secret : bytes) (leg : MultipathLeg) : resolved s leg -> settle_job secret (state_in s leg, leg) = None.
Proof. intros Hl%passed_over. unfold settle_job. cbv beta iota. by rewrite Hl. Qed.

Lemma no_jobs (jobs : list (option job)) : Forall (fun j => j = None) jobs -> forall now loud e, (drive peers now loud e jobs).1 = e.
Proof.
  intros HF now loud. induction HF as [|j jobs -> HF IH]; intros e; cbn [drive]; [done|]. specialize (IH e).
  destruct (drive peers now loud e jobs) as [e2 r2]. exact IH.
Qed.

(** A leg that is resolved is never touched again: when every leg of a payment is
    settled, refunded or was never locked, neither settling nor refunding reaches a
    peer or changes the engine, whatever secret is used. *)
Theorem resolved_legs_untouched (now : Z) (e : Executor S P) (pay : MultipathPayment) (secret : bytes)
    (Hpay : payment_ok pay) (Hres : Forall (resolved (xe_engine e)) (mp_Legs pay)) :
  (Refund peers now e pay).1 = e /\
  xe_engine (Settle peers now e pay secret).1 = xe_engine e /\ xe_world (Settle peers now e pay secret).1 = xe_world e.
Proof.
  assert (forall j : LegState * MultipathLeg -> option job, (forall leg, resolved (xe_engine e) leg -> j (state_in (xe_engine e) leg, leg) = None) ->
    Forall (fun x => x = None) (map j (zip (Status (X := X) (P := P) (xe_engine e) pay) (mp_Legs pay)))) as HJ.
  { intros j Hj. rewrite Status_in_order, zip_map_l, map_map by done. apply Forall_fmap. eapply Forall_impl; [exact Hres|]. exact Hj. }
  split; [|].
  - unfold Refund. apply no_jobs, HJ. intros leg Hl%passed_over. unfold refund_job. cbv beta iota. by rewrite Hl.
  - unfold Settle. pose proof (no_jobs (map (settle_job secret) (zip (Status (X := X) (P := P) (xe_engine e) pay) (mp_Legs pay)))) as HN.
    specialize (HN (HJ _ (fun leg Hl => settle_job_none _ secret leg Hl)) now false e).
    destruct (drive peers now false e _) as [e1 r1]. cbn in HN. subst e1. destruct r1 as [errs|err|]; [|done..].
    destruct (Summarise _ pay) as [out|err|]; [|done..]. by destruct (0 <? ou_Settled out)%nat.
Qed.

(** Locking a payment whose legs are all locked reaches no peer and changes no channel. *)
Lemma lock_once (disk : ExecDisk) (now : Z) (e : Executor S P) (pay : MultipathPayment) : okS (xe_engine e) ->
  Forall (fun leg => is_Some (en_applied (xe_engine e) (lg_Channel leg) (lg_Intent leg))) (mp_Legs pay) ->
  xe_engine (Lock dir peers disk now e pay).1 = xe_engine e /\ xe_world (Lock dir peers disk now e pay).1 = xe_world e.
Proof.
  intros Hok HL. unfold Lock. destruct (Journal dir disk pay (xe_files e)) as [files [[]|x|]]; [|done..].
  destruct (drive peers now true _ (map lock_job (mp_Legs pay))) as [e1 r1] eqn:ED. apply drive_step in ED as (_ & _ & _ & HA); [|done].
  apply HA. intros ch i tr Hj. apply list_elem_of_fmap in Hj as (leg & Hj & Hin). injection Hj as -> -> _.
  rewrite Forall_forall in HL. exact (HL _ Hin).
Qed.

(** *** The summary *)

Definition settled_in (s : S) (leg : MultipathLeg) : bool := applied_in s (lg_Channel leg) (settleIntent (lg_Intent leg)).
Definition refunded_in (s : S) (leg : MultipathLeg) : bool := applied_in s (lg_Channel leg) (refundIntent (lg_Intent leg)).
Definition locked_in (s : S) (leg : MultipathLeg) : bool := applied_in s (lg_Channel leg) (lg_Intent leg).
(** What the settled legs carry. *)
Definition delivered (s : S) (legs : list MultipathLeg) : Z := zsum (map (fun l => if settled_in s l then orZero (lg_Amount l) else 0) legs).
Definition count (f : MultipathLeg -> bool) (legs : list MultipathLeg) : nat := length (filter (fun l => f l = true) legs).
Definition is_refund (s : S) (l : MultipathLeg) : bool := negb (settled_in s l) && refunded_in s l.
Definition is_locked (s : S) (l : MultipathLeg) : bool := negb (settled_in s l) && negb (refunded_in s l) && locked_in s l.
Definition is_pending (s : S) (l : MultipathLeg) : bool := negb (settled_in s l) && negb (refunded_in s l) && negb (locked_in s l).

Lemma count_cons (f : MultipathLeg -> bool) (l : MultipathLeg) (legs : list MultipathLeg) :
  count f (l :: legs) = ((if f l then 1 else 0) + count f legs)%nat.
Proof. unfold count. rewrite filter_cons. destruct (f l); [by rewrite decide_True|by rewrite decide_False]. Qed.

Lemma count_all (f : MultipathLeg -> bool) (legs : list MultipathLeg) : count f legs = length legs <-> Forall (fun l => f l = true) legs.
Proof.
  induction legs as [|l legs IH]; [by split|]. rewrite count_cons, Forall_cons, <- IH. cbn [length].
  assert (count f legs <= length legs)%nat by (unfold count; apply length_filter). destruct (f l); [intuition lia|]. split; [lia|intros [? _]; done].
Qed.
Lemma count_none (f : MultipathLeg -> bool) (legs : list MultipathLeg) : Forall (fun l => f l = false) legs -> count f legs = 0%nat.
Proof. intros HF. induction HF as [|l legs Hl HF IH]; [done|]. by rewrite count_cons, Hl, IH. Qed.

Lemma tally_all (s : S) (legs : list MultipathLeg) (amounts : list Z) (o : Outcome) : map lg_Amount legs = map Some amounts ->
  foldl tally (Ok o) (map (fun l => (state_in s l, l)) legs) =
  Ok (mkOutcome (ou_Locked o + count (is_locked s) legs) (ou_Settled o + count (settled_in s) legs) (ou_Refunded o + count (is_refund s) legs)
        (ou_Pending o + count (is_pending s) legs) (ou_SettledAmount o + delivered s legs) (ou_Legs o)).
Proof.
  revert amounts o. induction legs as [|l legs IH]; intros amounts o HA.
  { cbn. rewrite !Nat.add_0_r, Z.add_0_r. by destruct o. }
  destruct amounts as [|a amounts]; [discriminate|]. cbn [map] in HA. injection HA as Ha HA. cbn [map foldl].
  assert (tally (Ok o) (state_in s l, l) = Ok (mkOutcome (ou_Locked o + if is_locked s l then 1 else 0)%nat (ou_Settled o + if settled_in s l then 1 else 0)%nat
    (ou_Refunded o + if is_refund s l then 1 else 0)%nat (ou_Pending o + if is_pending s l then 1 else 0)%nat (ou_SettledAmount o + if settled_in s l then a else 0) (ou_Legs o))) as ->.
  { cbn [tally obind leg_state ls_Settled ls_Refunded ls_Locked]. rewrite Ha. unfold is_locked, is_refund, is_pending, settled_in, refunded_in, locked_in.
    destruct (applied_in s _ (settleIntent _)), (applied_in s _ (refundIntent _)), (applied_in s _ (lg_Intent l)); cbn; by rewrite ?Nat.add_0_r, ?Z.add_0_r. }
  rewrite (IH amounts _ HA). cbn [ou_Locked ou_Settled ou_Refunded ou_Pending ou_SettledAmount ou_Legs]. rewrite !count_cons.
  unfold delivered. cbn [map]. change (zsum (?x :: ?l)) with (x + zsum l). rewrite Ha. cbn [orZero default]. by rewrite !Nat.add_assoc, Z.add_assoc.
Qed.

Lemma Summarise_exact (s : S) (pay : MultipathPayment) : payment_ok pay ->
  Summarise (X := X) (P := P) s pay =
  Ok (mkOutcome (count (is_locked s) (mp_Legs pay)) (count (settled_in s) (mp_Legs pay)) (count (is_refund s) (mp_Legs pay))
        (count (is_pending s) (mp_Legs pay)) (delivered s (mp_Legs pay)) (map (state_in s) (mp_Legs pay))).
Proof.
  intros Hp. pose proof Hp as [_ (amounts & HA & _ & _)]. unfold Summarise. rewrite Status_in_order, zip_map_l by done.
  rewrite (tally_all s (mp_Legs pay) amounts _ HA). done.
Qed.

Lemma delivered_bounds (s : S) (legs : list MultipathLeg) (amounts : list Z) : map lg_Amount legs = map Some amounts -> Forall (fun a => 0 < a) amounts ->
  0 <= delivered s legs <= zsum amounts /\ (Forall (fun l => settled_in s l = true) legs <-> delivered s legs = zsum amounts).
Proof.
  revert amounts. induction legs as [|l legs IH]; intros [|a amounts] HA HF; try discriminate; [cbn; split; [lia|by split]|].
  cbn [map] in HA. injection HA as Ha HA. apply Forall_cons in HF as [Hp HF]. destruct (IH amounts HA HF) as [H1 H2].
  unfold delivered in *. cbn [map]. rewrite !zsum_cons. rewrite Ha. change (orZero (Some a)) with a. rewrite Forall_cons, H2.
  destruct (settled_in s l); (split; [lia|]).
  - split; [intros [_ ?]; lia|]. intros ?. split; [done|lia].
  - split; [intros [? _]; done|lia].
Qed.

(** The summary of a payment is what the channels confirm: it is always produced,
    every leg is counted once, the settled amount is the sum of the legs whose
    channel applied the settlement, between nothing and the total, and the payment is
    complete exactly when every leg has settled. *)
Theorem settled_amount_exact (s : S) (pay : MultipathPayment) (Hpay : payment_ok pay) :
  exists o, Summarise (X := X) (P := P) s pay = Ok o /\ ou_SettledAmount o = delivered s (mp_Legs pay) /\
    0 <= ou_SettledAmount o <= orZero (mp_Total pay) /\
    (ou_Locked o + ou_Settled o + ou_Refunded o + ou_Pending o = length (mp_Legs pay))%nat /\
    (Outcome_Complete o pay = Ok true <-> Forall (fun l => settled_in s l = true) (mp_Legs pay)).
Proof.
  eexists. split; [by apply Summarise_exact|]. destruct Hpay as [_ (amounts & HA & HF & HT)].
  destruct (delivered_bounds s _ _ HA HF) as [HB HC]. unfold Outcome_Complete.
  cbn [ou_Locked ou_Settled ou_Refunded ou_Pending ou_SettledAmount]. rewrite HT. change (orZero (Some (zsum amounts))) with (zsum amounts).
  split; [done|]. split; [done|]. split.
  - generalize (mp_Legs pay). intros legs. induction legs as [|l legs IH]; [done|]. rewrite !count_cons. cbn [length].
    unfold is_locked, is_refund, is_pending in *. destruct (settled_in s l), (refunded_in s l), (locked_in s l); cbn [negb andb]; lia.
  - rewrite HC. destruct (Nat.eqb_spec (count (settled_in s) (mp_Legs pay)) (length (mp_Legs pay))) as [Ec|Ec].
    + split; [intros H; by apply Ok_inj, Z.eqb_eq in H|intros ->; by rewrite Z.eqb_refl].
    + split; [discriminate|]. intros H. by apply HC, count_all in H.
Qed.
End Execution.

(** ** Finishing what was begun *)

Section Recovery.
Context {S P X : Type} {E : Engine S P X} {okS : S -> Prop} {EL : EngineLaws E okS}.
Context `{Hmac : HmacSha256} `{Crypto : ChannelCrypto} `{K : JournalCodec}.
Context (dir : bool) (peers : bytes -> outcome chan_err X).

Abbreviation settled_at := (settled_in (X := X) (P := P)).
Abbreviation refunded_at := (refunded_in (X := X) (P := P)).
Abbreviation locked_at := (locked_in (X := X) (P := P)).

(** Driving the unresolved legs of a payment resolves every leg that was locked. *)
Lemma drive_resolves (now : Z) (e : Executor S P) (pay : MultipathPayment) (second : bytes -> bytes) (tr : MultipathLeg -> StateTransition) :
  payment_ok pay -> okS (xe_engine e) ->
  Forall (fun leg => willing (S := S) (P := P) (okS := okS) peers now (lg_Channel leg) (second (lg_Intent leg)) (tr leg)) (mp_Legs pay) ->
  (second = settleIntent \/ second = refundIntent) ->
  exists e' errs, drive peers now false e (map (fun sl : LegState * MultipathLeg => if negb (ls_Locked sl.1) || Terminal sl.1 then None
      else Some (lg_Channel sl.2, second (lg_Intent sl.2), Ok (tr sl.2))) (zip (Status (X := X) (P := P) (xe_engine e) pay) (mp_Legs pay))) = (e', Ok errs) /\
    okS (xe_engine e') /\ xe_files e' = xe_files e /\
    Forall (fun leg => locked_at (xe_engine e) leg = true -> settled_at (xe_engine e') leg = true \/ refunded_at (xe_engine e') leg = true) (mp_Legs pay).
Proof.
  intros Hp Hok HW Hsec. rewrite Status_in_order, zip_map_l, map_map by done. set (jobs := map _ (mp_Legs pay)).
  destruct (drive_willing peers now false jobs e Hok) as (e' & errs & HD & HA).
  { apply Forall_fmap. eapply Forall_impl; [exact HW|]. intros leg Hl. unfold compose, job_willing. cbn [fst snd].
    destruct (negb _ || _); [done|]. by eexists. }
  destruct (drive_step peers now false jobs e e' _ HD Hok) as (H1 & H2 & H3 & _).
  exists e', errs. split; [exact HD|]. split; [done|]. split; [done|]. apply Forall_forall. intros leg Hin HL.
  destruct (Terminal (leg_state (X := X) (P := P) (xe_engine e) leg)) eqn:ET.
  - unfold Terminal, leg_state in ET. cbn [ls_Settled ls_Refunded] in ET. apply orb_true_iff in ET as [HT|HT]; [left|right];
      apply applied_true; apply applied_true in HT; by apply H3.
  - assert (is_Some (en_applied (xe_engine e') (lg_Channel leg) (second (lg_Intent leg)))) as Hs.
    { apply (HA _ _ (Ok (tr leg))). apply list_elem_of_fmap. exists leg. split; [|done]. cbn [fst snd]. rewrite ET.
      unfold leg_state. cbn [ls_Locked]. unfold locked_in in HL. by rewrite HL. }
    destruct Hsec as [-> | ->]; [left|right]; by apply applied_true.
Qed.

Lemma Settle_resolves (now : Z) (e : Executor S P) (pay : MultipathPayment) (secret : bytes) : payment_ok pay -> okS (xe_engine e) ->
  Forall (fun leg => willing (S := S) (P := P) (okS := okS) peers now (lg_Channel leg) (settleIntent (lg_Intent leg)) (settle_transition secret leg)) (mp_Legs pay) ->
  exists e' errs, Settle peers now e pay secret = (e', Ok errs) /\ okS (xe_engine e') /\
    Forall (fun leg => locked_at (xe_engine e) leg = true -> settled_at (xe_engine e') leg = true \/ refunded_at (xe_engine e') leg = true) (mp_Legs pay).
Proof.
  intros Hp Hok HW. destruct (drive_resolves now e pay settleIntent (settle_transition secret) Hp Hok HW) as (e' & errs & HD & Hok' & _ & HR); [by left|].
  unfold Settle. rewrite (map_ext (settle_job secret) (fun sl : LegState * MultipathLeg => if negb (ls_Locked sl.1) || Terminal sl.1 then None
      else Some (lg_Channel sl.2, settleIntent (lg_Intent sl.2), Ok (settle_transition secret sl.2)))), HD by (by intros [st leg]).
  rewrite (Summarise_exact (xe_engine e') pay Hp). cbn [ou_Settled]. eexists _, errs. split; [reflexivity|].
  by destruct (0 <? _)%nat.
Qed.

Lemma Refund_resolves (now : Z) (e : Executor S P) (pay : MultipathPayment) : payment_ok pay -> okS (xe_engine e) ->
  Forall (fun leg => willing (S := S) (P := P) (okS := okS) peers now (lg_Channel leg) (refundIntent (lg_Intent leg)) (refund_transition leg)) (mp_Legs pay) ->
  exists e' errs, Refund peers now e pay = (e', Ok errs) /\ okS (xe_engine e') /\
    Forall (fun leg => locked_at (xe_engine e) leg = true -> settled_at (xe_engine e') leg = true \/ refunded_at (xe_engine e') leg = true) (mp_Legs pay).
Proof.
  intros Hp Hok HW. destruct (drive_resolves now e pay refundIntent refund_transition Hp Hok HW) as (e' & errs & HD & Hok' & _ & HR); [by right|].
  unfold Refund. rewrite (map_ext refund_job (fun sl : LegState * MultipathLeg => if negb (ls_Locked sl.1) || Terminal sl.1 then None
      else Some (lg_Channel sl.2, refundIntent (lg_Intent sl.2), Ok (refund_transition sl.2)))), HD by (by intros [st leg]).
  by exists e', errs.
Qed.

Lemma Lock_locks (disk : ExecDisk) (now : Z) (e : Executor S P) (pay : MultipathPayment) : payment_ok pay -> okS (xe_engine e) ->
  (dir = true -> disk = WriteSucceeds) ->
  Forall (fun leg => willing (S := S) (P := P) (okS := okS) peers now (lg_Channel leg) (lg_Intent leg)
    (mkTransition KindLockAdd (lg_Amount leg) (lg_LockID leg) (lg_Hash leg) (lg_Expiry leg) (zeros 32))) (mp_Legs pay) ->
  exists e' errs, Lock dir peers disk now e pay = (e', Ok errs) /\ okS (xe_engine e') /\ Forall (fun leg => locked_at (xe_engine e') leg = true) (mp_Legs pay).
Proof.
  intros [_ (amounts & HA & _)] Hok Hdisk HW.
  assert (exists files, Journal dir disk pay (xe_files e) = (files, Ok tt)) as [files HJ].
  { unfold Journal. destruct dir; [rewrite (Hdisk eq_refl)|]; by eexists. }
  unfold Lock. rewrite HJ. set (e0 := emit _ _). assert (okS (xe_engine e0)) as Hok0 by exact Hok.
  assert (forall leg, leg ∈ mp_Legs pay -> exists a, lg_Amount leg = Some a) as HAm.
  { intros leg Hin. assert (lg_Amount leg ∈ lg_Amount <$> mp_Legs pay) as Hl by (by apply list_elem_of_fmap_2).
    change (lg_Amount <$> mp_Legs pay) with (map lg_Amount (mp_Legs pay)) in Hl. rewrite HA in Hl. apply list_elem_of_fmap in Hl as (a & -> & _). by exists a. }
  destruct (drive_willing peers now true (map lock_job (mp_Legs pay)) e0 Hok0) as (e' & errs & HD & HL).
  { apply Forall_fmap, Forall_forall. intros leg Hin. rewrite Forall_forall in HW. specialize (HW leg Hin). destruct (HAm leg Hin) as [a Ha].
    unfold compose, lock_job, job_willing, lock_transition. rewrite Ha in *. by eexists. }
  destruct (drive_step peers now true _ e0 e' _ HD Hok0) as (H1 & _).
  exists e', errs. split; [exact HD|]. split; [done|]. apply Forall_forall. intros leg Hin. apply applied_true.
  apply (HL _ _ (lock_transition leg)). apply list_elem_of_fmap. by exists leg.
Qed.

(** A payment interrupted anywhere is finished by resuming it, over an engine whose legs can all be
    reached and apply what they are asked: if the journal can be read and written, resuming with the
    secret leaves every leg settled or refunded and, when none was refunded, the whole payment
    delivered. *)
Theorem resume_completes (disk : ExecDisk) (now : Z) (e : Executor S P) (pay : MultipathPayment) (id secret : bytes)
    (HJ : LoadJournal id (xe_files e) = Ok pay) (Hpay : payment_ok pay) (Hok : okS (xe_engine e)) (Hdisk : dir = true -> disk = WriteSucceeds)
    (HL : Forall (fun leg => willing (S := S) (P := P) (okS := okS) peers now (lg_Channel leg) (lg_Intent leg)
      (mkTransition KindLockAdd (lg_Amount leg) (lg_LockID leg) (lg_Hash leg) (lg_Expiry leg) (zeros 32))) (mp_Legs pay))
    (HS : Forall (fun leg => willing (S := S) (P := P) (okS := okS) peers now (lg_Channel leg) (settleIntent (lg_Intent leg)) (settle_transition secret leg)) (mp_Legs pay)) :
  exists e' out errs, exec_Resume dir peers disk now e id (Some secret) = (e', Ok (out, errs)) /\
    (ou_Settled out + ou_Refunded out = length (mp_Legs pay))%nat /\
    (ou_Refunded out = 0%nat -> Outcome_Complete out pay = Ok true /\ Some (ou_SettledAmount out) = mp_Total pay).
Proof.
  unfold exec_Resume. rewrite HJ. destruct (Lock_locks disk now e pay Hpay Hok Hdisk HL) as (e1 & errs1 & -> & Hok1 & HL1).
  destruct (Settle_resolves now e1 pay secret Hpay Hok1 HS) as (e2 & errs2 & -> & _ & HR). cbn [obind].
  rewrite (Summarise_exact (xe_engine e2) pay Hpay). cbn [obind]. eexists e2, _, _. split; [reflexivity|].
  cbn [ou_Settled ou_Refunded ou_SettledAmount].
  assert (Forall (fun leg => settled_at (xe_engine e2) leg = true \/ refunded_at (xe_engine e2) leg = true) (mp_Legs pay)) as HT.
  { apply Forall_forall. intros leg Hin. rewrite Forall_forall in HL1, HR. by apply HR, HL1. }
  assert (count (settled_at (xe_engine e2)) (mp_Legs pay) + count (is_refund (X := X) (P := P) (xe_engine e2)) (mp_Legs pay) = length (mp_Legs pay))%nat as HN.
  { clear -HT. induction HT as [|leg legs Hl HT IH]; [done|]. rewrite !count_cons. cbn [length]. unfold is_refund in *.
    destruct (settled_at (xe_engine e2) leg), (refunded_at (xe_engine e2) leg); cbn [negb andb]; [lia|lia|lia|]. by destruct Hl. }
  split; [exact HN|]. intros H0. rewrite H0, Nat.add_0_r in HN. unfold Outcome_Complete. cbn [ou_Settled ou_SettledAmount]. rewrite HN, Nat.eqb_refl.
  destruct Hpay as [_ (amounts & HA & HF & ->)]. destruct (delivered_bounds (X := X) (P := P) (xe_engine e2) _ _ HA HF) as [_ HD].
  apply count_all in HN. apply HD in HN. rewrite HN, Z.eqb_refl. done.
Qed.

(** Without the secret the payment is unwound: if every leg's peer can be reached and
    applies the refund, resuming leaves no leg locked, and sends nothing for a leg that
    was never locked. *)
Theorem resume_unwinds (disk : ExecDisk) (now : Z) (e : Executor S P) (pay : MultipathPayment) (id : bytes)
    (HJ : LoadJournal id (xe_files e) = Ok pay) (Hpay : payment_ok pay) (Hok : okS (xe_engine e))
    (HR : Forall (fun leg => willing (S := S) (P := P) (okS := okS) peers now (lg_Channel leg) (refundIntent (lg_Intent leg)) (refund_transition leg)) (mp_Legs pay)) :
  exists e' out errs, exec_Resume dir peers disk now e id None = (e', Ok (out, errs)) /\
    Forall (fun leg => locked_at (xe_engine e) leg = true -> settled_at (xe_engine e') leg = true \/ refunded_at (xe_engine e') leg = true) (mp_Legs pay) /\
    (Forall (fun leg => locked_at (xe_engine e) leg = false) (mp_Legs pay) -> e' = e).
Proof.
  unfold exec_Resume. rewrite HJ. destruct (Refund_resolves now e pay Hpay Hok HR) as (e1 & errs1 & ER & _ & H1). rewrite ER. cbn [obind].
  rewrite (Summarise_exact (xe_engine e1) pay Hpay). cbn [obind]. eexists e1, _, _. split; [reflexivity|]. split; [exact H1|].
  intros HN. unfold Refund in ER. pose proof (no_jobs peers (map refund_job (zip (Status (X := X) (P := P) (xe_engine e) pay) (mp_Legs pay)))) as HJobs.
  specialize (fun H => HJobs H now false e). rewrite ER in HJobs. apply HJobs.
  rewrite Status_in_order, zip_map_l, map_map by done. apply Forall_fmap. eapply Forall_impl; [exact HN|]. intros leg Hl.
  unfold compose, refund_job, leg_state, locked_in in *. cbn [ls_Locked]. by rewrite Hl.
Qed.

(** A payment that is complete is counted again, in full, every time it is settled:
    nothing else changes. *)
Lemma resettle_counts_again (now : Z) (e : Executor S P) (pay : MultipathPayment) (secret : bytes) : payment_ok pay -> mp_Legs pay <> [] ->
  Forall (fun leg => settled_at (xe_engine e) leg = true) (mp_Legs pay) ->
  exists errs, Settle peers now e pay secret = (emit (TipDelivered (orZero (mp_Total pay))) e, Ok errs).
Proof.
  intros Hp Hne HS. unfold Settle.
  set (jobs := map (settle_job secret) _). assert (Forall (fun j => j = None) jobs) as HJ.
  { unfold jobs. rewrite Status_in_order, zip_map_l, map_map by done. apply Forall_fmap. eapply Forall_impl; [exact HS|]. intros leg Hl.
    unfold compose. apply settle_job_none. right. by left. }
  assert (forall e0, exists errs, drive peers now false e0 jobs = (e0, Ok errs)) as HD.
  { clear -HJ. induction HJ as [|j jobs -> HJ IH]; intros e0; cbn [drive]; [by eexists|]. destruct (IH e0) as [errs ->]. by eexists. }
  destruct (HD e) as [errs ->]. exists errs. rewrite (Summarise_exact (xe_engine e) pay Hp). cbn [ou_Settled ou_SettledAmount].
  rewrite (proj2 (count_all _ _) HS). destruct Hp as [_ (amounts & HA & HF & ->)].
  destruct (delivered_bounds (X := X) (P := P) (xe_engine e) _ _ HA HF) as [_ HDl]. rewrite (proj1 HDl HS).
  destruct (mp_Legs pay); [done|]. reflexivity.
Qed.
End Recovery.

(** ** The journal *)

Section Journals.
Context `{K : JournalCodec} {KL : JournalCodecLaws K}.

Lemma load_amounts_strip (legs : list MultipathLeg) (amounts : list Z) : map lg_Amount legs = map Some amounts ->
  load_amounts (map strip_leg legs) (map (fun l => decString (lg_Amount l)) legs) = Ok legs.
Proof.
  revert amounts. induction legs as [|[i c a x n h l] legs IH]; intros [|b amounts] HA; try discriminate; [done|].
  cbn [map lg_Amount] in HA. injection HA as -> HA. cbn [map load_amounts strip_leg lg_Amount lg_Index lg_Channel lg_Expiry lg_Intent lg_Hash lg_LockID].
  rewrite parseDec_decString, (IH amounts HA). done.
Qed.

Lemma tmp_name_apart (a b : string) : String.append (String.append a ".json") ".tmp" <> String.append b ".json".
Proof.
  intros H. change ".json" with (String.append "." "json") in H at 2. rewrite <- append_assoc in H.
  by apply append_inj_r in H as [_ ?].
Qed.

Lemma journal_name_inj (a b : bytes) : array_ok 32 a -> array_ok 32 b -> journal_name a = journal_name b -> a = b.
Proof. intros [_ Ha] [_ Hb] H. apply append_inj_r in H as [H _]; [|done]. by apply hex_encode_inj in H. Qed.

Lemma journal_roundtrip (pay : MultipathPayment) (files : gmap string bytes) : payment_wire_ok pay -> payment_ok pay ->
  LoadJournal (mp_ID pay) (<[journal_name (mp_ID pay) := journal_marshal (wire_of pay)]> files) = Ok pay.
Proof.
  intros Hw Hp. unfold LoadJournal. rewrite lookup_insert_eq. cbn [of_option obind]. rewrite (journal_unmarshal_marshal (wire_of pay)) by exact Hw.
  cbn [of_option obind wire_of jw_Payment jw_Total jw_Amounts strip_payment mp_ID mp_Deadline mp_Legs]. destruct Hp as [_ (amounts & HA & _ & HT)].
  rewrite HT, parseDec_decString, (load_amounts_strip _ _ HA). cbn [obind]. change (orZero (Some (zsum amounts))) with (zsum amounts). rewrite <- HT. by destruct pay.
Qed.

(** The journal of a payment survives: written without an error it reads back as the
    payment, amounts included, and leaves every other payment's journal as it was; when
    writing or renaming fails the payment is not attempted and every journal, its own
    earlier one too, reads as before. *)
Theorem journal_survives (disk : ExecDisk) (pay : MultipathPayment) (files files' : gmap string bytes) (r : outcome exec_err unit)
    (Hw : payment_wire_ok pay) (Hp : payment_ok pay) (H : Journal true disk pay files = (files', r)) :
  match disk with
  | WriteSucceeds => r = Ok tt /\ LoadJournal (mp_ID pay) files' = Ok pay /\
      forall id, array_ok 32 id -> id <> mp_ID pay -> LoadJournal id files' = LoadJournal id files
  | _ => r = Err ErrJournalWrite /\ forall id, LoadJournal id files' = LoadJournal id files
  end.
Proof.
  unfold Journal in H. cbn [negb] in H. fold (journal_name (mp_ID pay)) in H.
  assert (forall f f' id, f !! journal_name id = f' !! journal_name id -> LoadJournal id f = LoadJournal id f') as HL
    by (intros f f' id E; unfold LoadJournal; by rewrite E).
  assert (forall x id, LoadJournal id (<[String.append (journal_name (mp_ID pay)) ".tmp" := x]> files) = LoadJournal id files) as HT
    by (intros x id; apply HL, lookup_insert_ne, tmp_name_apart).
  destruct disk as [[part|]| |]; injection H as <- <-; [split; [done|]; intros id; apply HT|done|split; [done|]; intros id; apply HT|].
  split; [done|]. split.
  - by apply journal_roundtrip.
  - intros id Hid Hne. apply HL. rewrite lookup_insert_ne, lookup_delete_ne; [done|apply tmp_name_apart|].
    intros E. apply journal_name_inj in E; [done| |done]. apply Hw.
Qed.
End Journals.

(** ** Witnesses *)

(** A ledger of applied intents; a peer that applies what it is asked. *)
Definition toy_ledger : Type := gmap (bytes * bytes) Z.
#[export] Instance toy_engine : Engine toy_ledger unit unit := {|
  en_applied s ch i := s !! (ch, i);
  en_pay now x s p ch i tr := match s !! (ch, i) with Some n => (s, p, Ok (done_result n)) | None => (<[(ch, i) := 1]> s, p, Ok (done_result 1)) end
|}.
#[export] Instance toy_engine_laws : EngineLaws toy_engine (fun _ => True).
Proof.
  split; [done| |].
  - intros now x s p ch i tr [n Hn]. cbn in *. by rewrite Hn.
  - intros now x s p ch i tr ch' i' _ H. unfold en_pay, toy_engine. destruct (s !! (ch, i)); [done|]. unfold en_applied in *. cbn [fst].
    apply lookup_insert_is_Some'. by right.
Qed.

(** The journal as one number that names it. *)
Definition leg_rep (l : MultipathLeg) := (lg_Index l, lg_Channel l, lg_Expiry l, lg_Intent l, lg_Hash l, lg_LockID l).
Definition leg_of_rep (t : Z * bytes * Z * bytes * bytes * bytes) : MultipathLeg :=
  let '(i, c, x, n, h, l) := t in mkLeg i c None x n h l.
Definition journal_rep (w : journal_wire) :=
  (mp_ID (jw_Payment w), mp_Deadline (jw_Payment w), map leg_rep (mp_Legs (jw_Payment w)), jw_Total w, jw_Amounts w).
Definition journal_of_rep (t : bytes * Z * list (Z * bytes * Z * bytes * bytes * bytes) * string * list string) : journal_wire :=
  let '(id, d, legs, total, amounts) := t in mkJournalWire (mkPayment id None d (map leg_of_rep legs)) total amounts.
#[export] Instance toy_journal : JournalCodec := {|
  journal_marshal w := [Z.pos (encode (journal_rep w))];
  journal_unmarshal b := match b with [Z.pos p] => journal_of_rep <$> decode p | _ => None end
|}.
#[export] Instance toy_journal_laws : JournalCodecLaws toy_journal.
Proof.
  intros w _. cbn [journal_unmarshal journal_marshal toy_journal]. rewrite decode_encode. cbn. destruct w as [[id t d legs] total amounts].
  cbn. unfold strip_payment. cbn. do 2 f_equal. f_equal. rewrite map_map. apply map_ext. by intros [].
Qed.

Definition reach_all (ch : bytes) : outcome chan_err unit := Ok tt.
Lemma toy_willing (now : Z) (ch i : bytes) (tr : StateTransition) :
  willing (S := toy_ledger) (P := unit) (okS := fun _ => True) reach_all now ch i tr.
Proof.
  exists tt. split; [done|]. intros s p _. unfold en_pay, en_applied, toy_engine. destruct (s !! (ch, i)) as [n|] eqn:Hn; cbn [fst snd]; [split; [by exists n|done]|].
  split; [exists 1; apply lookup_insert_eq|done].
Qed.

Lemma split_payment_ok `{Hmac : HmacSha256} `{Crypto : ChannelCrypto} (plan : SplitPlan) (id secret : bytes) (channels : list bytes) (now perHop deadline : Z) (pay : MultipathPayment) :
  PaymentFromSplitPlan (Some plan) id secret channels now perHop deadline = Ok pay -> payment_ok pay.
Proof.
  intros H. unfold PaymentFromSplitPlan in H. destruct (Verify (Some plan)) as [[]| |]; [|discriminate..].
  apply guard_err_ok in H as [_ H]. apply guard_err_ok in H as [_ H]. apply obind_ok in H as (es & _ & H). cbv zeta in H.
  by apply BuildPayment_ok in H as [H _].
Qed.
Lemma toy_payment_ok : payment_ok toy_payment.
Proof. exact (split_payment_ok (Crypto := toy_crypto) _ _ _ _ _ _ _ _ toy_payment_made). Qed.
Lemma toy_payment_wire : payment_wire_ok toy_payment.
Proof.
  assert (forall b, array_okb 32 b = true -> array_ok 32 b) as HA by (intros b; apply array_okb_spec).
  split; [apply HA; vm_compute; reflexivity|split; vm_compute; congruence|].
  assert (forallb (fun l => array_okb 32 (lg_Channel l) && array_okb 32 (lg_Intent l) && array_okb 32 (lg_Hash l) && array_okb 32 (lg_LockID l) &&
    bool_decide (s_range 64 (lg_Index l)) && bool_decide (s_range 64 (lg_Expiry l))) (mp_Legs toy_payment) = true) as HB by (vm_compute; reflexivity).
  rewrite forallb_forall in HB. apply Forall_forall. intros l Hl%list_elem_of_In%HB. rewrite !andb_true_iff, !bool_decide_eq_true in Hl.
  destruct Hl as (((((H1 & H2) & H3) & H4) & H5) & H6). split; auto.
Qed.

Definition toy_executor : Executor toy_ledger unit :=
  with_files (Journal true WriteSucceeds toy_payment ∅).1 (mkExecutor ∅ tt [] ∅).
Lemma toy_executor_journal : LoadJournal (mp_ID toy_payment) (xe_files toy_executor) = Ok toy_payment.
Proof. exact (journal_roundtrip _ _ toy_payment_wire toy_payment_ok). Qed.
Lemma toy_all_willing (now : Z) (i : MultipathLeg -> bytes) (tr : MultipathLeg -> StateTransition) :
  Forall (fun leg => willing (S := toy_ledger) (P := unit) (okS := fun _ => True) reach_all now (lg_Channel leg) (i leg) (tr leg)) (mp_Legs toy_payment).
Proof. apply Forall_forall. intros leg _. apply toy_willing. Qed.

Lemma resume_completes_witness : exists e' out errs,
  exec_Resume true reach_all WriteSucceeds 1000 toy_executor (mp_ID toy_payment) (Some (be_encode 32 6)) = (e', Ok (out, errs)) /\
  (ou_Settled out + ou_Refunded out = length (mp_Legs toy_payment))%nat.
Proof.
  destruct (resume_completes (okS := fun _ => True) true reach_all WriteSucceeds 1000 toy_executor toy_payment (mp_ID toy_payment) (be_encode 32 6)
    toy_executor_journal toy_payment_ok I (fun _ => eq_refl) (toy_all_willing _ _ _) (toy_all_willing _ _ _)) as (e' & out & errs & H1 & H2 & _).
  exists e', out, errs. split; [exact H1|exact H2].
Defined.

Lemma resume_unwinds_witness : exists e' out errs,
  exec_Resume true reach_all WriteSucceeds 1000 toy_executor (mp_ID toy_payment) None = (e', Ok (out, errs)) /\ e' = toy_executor.
Proof.
  destruct (resume_unwinds (okS := fun _ => True) true reach_all WriteSucceeds 1000 toy_executor toy_payment (mp_ID toy_payment)
    toy_executor_journal toy_payment_ok I (toy_all_willing _ _ _)) as (e' & out & errs & H1 & _ & H2).
  exists e', out, errs. split; [exact H1|]. apply H2. apply Forall_forall. intros leg _. reflexivity.
Defined.

Lemma resolved_legs_untouched_witness : (Refund reach_all 1000 toy_executor toy_payment).1 = toy_executor.
Proof.
  refine (proj1 (resolved_legs_untouched reach_all 1000 toy_executor toy_payment (be_encode 32 6) toy_payment_ok _)).
  apply Forall_forall. intros leg _. left. reflexivity.
Defined.

Lemma settled_amount_exact_witness : exists o, Summarise (X := unit) (P := unit) (xe_engine toy_executor) toy_payment = Ok o /\
  (ou_Locked o + ou_Settled o + ou_Refunded o + ou_Pending o = length (mp_Legs toy_payment))%nat.
Proof.
  destruct (settled_amount_exact (E := toy_engine) (xe_engine toy_executor) toy_payment toy_payment_ok) as (o & H1 & _ & _ & H2 & _).
  exists o. split; [exact H1|exact H2].
Defined.

Lemma journal_survives_witness : LoadJournal (mp_ID toy_payment) (Journal true WriteSucceeds toy_payment ∅).1 = Ok toy_payment.
Proof.
  exact (proj1 (proj2 (journal_survives WriteSucceeds toy_payment ∅ _ _ toy_payment_wire toy_payment_ok (surjective_pairing _)))).
Defined.
