(* ===== verification/ChannelLegs.v ===== *)
(** * The coordinator drives the legs ([internal/channel/multipath_exec.go] over [coordinator.go])

    The executor's engine is the coordinator: [en_pay] is [Pay], [en_applied] is
    [Channel] followed by [AppliedAt].  The coordinator keeps the laws the executor's
    theorems need; and what it answers for a leg that was neither applied nor refused
    is read by the executor as success. *)
From S2P Require Import Prelude.
From S2P Require Import GoBytes.
From S2P Require Import RecordUpdate.
From S2P Require Import ChannelTypes.
From S2P Require Import ChannelNote.
From S2P Require Import ChannelMultipath.
From S2P Require Import ChannelCrypto.
From S2P Require Import ChannelState.
From S2P Require Import ChannelTransition.
From S2P Require Import ChannelHistory.
From S2P Require Import ChannelWire.
From S2P Require Import ChannelCommitter.
From S2P Require Import ChannelPreimages.
From S2P Require Import ChannelStore.
From S2P Require Import ChannelSession.
From S2P Require Import ChannelSafety.
From S2P Require Import ChannelProtocol.
From S2P Require Import ChannelCoordinator.
From S2P Require Import ChannelExecutor.

Section Legs.
Context `{Crypto : ChannelCrypto}.
Context (sign : bytes -> option bytes) (err_text : chan_err -> string) (cfg : PeerSession).
Context (chainID : option Z) (contract : bytes).
(** The chain as each payment finds it. *)
Context (chain : Z -> bytes -> outcome chan_err OnChainChannel).
Context {P : Type}.

Abbreviation Peer := (Message -> P -> P * outcome chan_err Message).

(** [e.coord.Channel], [ch.AppliedAt] and [e.coord.Pay] *)
Definition coord_applied (co : Coordinator) (id intent : bytes) : option Z :=
  match Get (co_store co) id with Some ch => AppliedAt ch intent | None => None end.
#[local] Instance coordinator_engine : Engine Coordinator P Peer := {|
  en_applied := coord_applied;
  en_pay now x co p id intent tr := Pay sign err_text cfg chainID contract (chain now) x now co p id intent tr
|}.

(** ** Applied intents stay applied *)

Definition keeps_applied (c c' : Channel) : Prop := forall i, is_Some (ch_Applied c !! i) -> is_Some (ch_Applied c' !! i).
#[local] Instance keeps_applied_kept : Kept keeps_applied.
Proof.
  split; [split; [by intros c i|intros c1 c2 c3 H1 H2 i Hi; by apply H2, H1]|by intros c i| | |by intros n d c i|by intros q c i|by intros k c i|].
  - intros r c i. rewrite (proj1 (NotePayment_fields r c)). by intros ?.
  - intros i n c j Hj. change (is_Some (<[i := n]> (ch_Applied c) !! j)). apply lookup_insert_is_Some'. by right.
  - intros c c' ss [_ ->]%Accept_iff i Hi. exact Hi.
Qed.

(** Nothing live is lost, and what is live keeps its applied intents. *)
Definition grows (s s' : Store) : Prop :=
  forall id c, s_channels s !! id = Some c -> exists c', s_channels s' !! id = Some c' /\ keeps_applied c c'.

Lemma related_grows (s s' : Store) : related keeps_applied s s' -> grows s s'.
Proof. intros H id c Hc. specialize (H id). rewrite Hc in H. inversion H as [? c' HR E E'|]; subst. by exists c'. Qed.
Lemma store_grows_trans (s1 s2 s3 : Store) : grows s1 s2 -> grows s2 s3 -> grows s1 s3.
Proof.
  intros H1 H2 id c Hc. destruct (H1 id c Hc) as (c2 & Hc2 & R1). destruct (H2 id c2 Hc2) as (c3 & Hc3 & R2).
  exists c3. split; [done|]. intros i Hi. by apply R2, R1.
Qed.

Lemma Adopt_grows (ch : bytes -> outcome chan_err OnChainChannel) (s s' : Store) (id : bytes) r :
  Adopt cfg chainID contract ch s id = (s', r) -> grows s s'.
Proof.
  assert (forall s s', s_channels s' = s_channels s -> grows s s') as HE by (intros x y E j c Hc; exists c; rewrite E; by split).
  unfold Adopt. destruct (Get s id); [intros [= <- _]; by apply HE|]. destruct (ch id) as [occ| |]; try (intros [= <- _]; by apply HE).
  destruct (_ && _); [intros [= <- _]; by apply HE|]. destruct (TrackFromChain s _ contract occ) as [s1 rt] eqn:ET. intros [= <- _].
  unfold TrackFromChain in ET. destruct (negb _); [injection ET as <- _; by apply HE|]. destruct (negb _); [injection ET as <- _; by apply HE|].
  destruct (negb _); [injection ET as <- _; by apply HE|]. destruct (s_channels s !! oc_ID occ) eqn:El; [injection ET as <- _; by apply HE|].
  destruct (persist s _) as [s2 ok] eqn:Hp. destruct (persist_spec _ _ _ _ Hp) as (E1 & _).
  destruct ok; injection ET as <- _; [|by apply HE]. intros j c Hc. exists c. cbn. rewrite E1. rewrite lookup_insert_ne by congruence. by split.
Qed.

Lemma coord_applied_live (co : Coordinator) (id intent : bytes) : is_Some (coord_applied co id intent) <->
  exists c, s_channels (co_store co) !! id = Some c /\ is_Some (ch_Applied c !! intent).
Proof.
  unfold coord_applied, Get. destruct (s_channels (co_store co) !! id) as [c|]; cbn.
  - split; [intros H; by exists c|]. by intros (c' & [= <-] & H).
  - split; [by intros []|]. by intros (c & ? & _).
Qed.

Lemma Pay_grows (ch : bytes -> outcome chan_err OnChainChannel) (x : Peer) (now : Z) (co : Coordinator) (p : P) (id intent : bytes) (tr : StateTransition) :
  grows (co_store co) (co_store (Pay sign err_text cfg chainID contract ch x now co p id intent tr).1.1).
Proof.
  unfold Pay. destruct (Adopt _ _ _ _ (co_store co) id) as [s1 r1] eqn:EA. apply Adopt_grows in EA.
  destruct r1 as [[]|e|]; try exact EA. destruct (Get s1 id) as [c|]; [|exact EA]. destruct (bool_decide _); [exact EA|].
  destruct (AppliedAt c intent); [exact EA|]. destruct (attempt _ _ _ _ _ _ _ _ _ _) as [[c2 p2] r2] eqn:E.
  apply (attempt_kept _ _ _ keeps_applied) in E. eapply store_grows_trans; [exact EA|]. by apply related_grows in E.
Qed.

(** The coordinator is an engine the executor can rely on: an intent a channel has
    applied is answered without touching the coordinator or the peer, even when the
    channel is in conflict; and no payment, on any channel, through any peer, whatever
    the chain says, makes any channel forget an intent it applied. *)
Lemma coordinator_laws : EngineLaws coordinator_engine (fun _ => True).
Proof.
  split; [done| |].
  - intros now x co p id intent tr Hi. cbn in *. unfold coord_applied in Hi. destruct (Get (co_store co) id) as [c|] eqn:Hc; [|by destruct Hi].
    destruct Hi as [k Hk]. unfold Pay.
    assert (Adopt cfg chainID contract (chain now) (co_store co) id = (co_store co, Ok tt)) as -> by (unfold Adopt; by rewrite Hc).
    cbv iota beta zeta. rewrite Hc. assert (set_store (co_store co) co = co) as -> by (by destruct co as [[]]).
    destruct (bool_decide _); [done|]. by rewrite Hk.
  - intros now x co p id intent tr id' i' _ (c & Hc & Hi)%coord_applied_live. apply coord_applied_live. cbn.
    destruct (Pay_grows (chain now) x now co p id intent tr id' c Hc) as (c' & Hc' & HR). exists c'. split; [exact Hc'|]. by apply HR.
Qed.

Context `{Hmac : HmacSha256} `{K : JournalCodec} (dir : bool) (peers : bytes -> outcome chan_err Peer).

(** The executor's operations on a payment. *)
Inductive leg_step : Type := StepLock (disk : ExecDisk) | StepSettle (secret : bytes) | StepRefund.
Definition run_step (now : Z) (pay : MultipathPayment) (st : leg_step) (e : Executor Coordinator P) : Executor Coordinator P :=
  match st with
  | StepLock disk => (Lock dir peers disk now e pay).1
  | StepSettle secret => (Settle peers now e pay secret).1
  | StepRefund => (Refund peers now e pay).1
  end.
Definition run_steps (pay : MultipathPayment) (steps : list (Z * leg_step)) (e : Executor Coordinator P) : Executor Coordinator P :=
  foldl (fun e st => run_step st.1 pay st.2 e) e steps.

(** No peer was reached and the coordinator is as it was. *)
Definition undisturbed (e1 e : Executor Coordinator P) : Prop := xe_engine e1 = xe_engine e /\ xe_world e1 = xe_world e.
(** The settlement or the refund of the leg is applied. *)
Definition leg_done (co : Coordinator) (leg : MultipathLeg) : Prop :=
  is_Some (coord_applied co (lg_Channel leg) (settleIntent (lg_Intent leg))) \/
  is_Some (coord_applied co (lg_Channel leg) (refundIntent (lg_Intent leg))).

Lemma run_step_keeps (now : Z) (pay : MultipathPayment) (st : leg_step) (e : Executor Coordinator P) (id i : bytes) :
  is_Some (coord_applied (xe_engine e) id i) -> is_Some (coord_applied (xe_engine (run_step now pay st e)) id i).
Proof.
  pose proof coordinator_laws as EL. intros Hi.
  assert (forall loud jobs e0, xe_engine e0 = xe_engine e -> is_Some (coord_applied (xe_engine (drive peers now loud e0 jobs).1) id i)) as HD.
  { intros loud jobs e0 E0. destruct (drive peers now loud e0 jobs) as [e1 r1] eqn:ED. apply (drive_step (okS := fun _ => True)) in ED as (_ & _ & HK & _); [|done].
    apply HK. by rewrite E0. }
  destruct st as [disk|secret|]; unfold run_step.
  - unfold Lock. destruct (Journal dir disk pay (xe_files e)) as [files [[]|x|]]; [|exact Hi..]. by apply HD.
  - unfold Settle. specialize (HD false (map (settle_job secret) (zip (Status (xe_engine e) pay) (mp_Legs pay))) e eq_refl).
    destruct (drive _ _ _ e _) as [e1 [errs|x|]]; [|exact HD..]. cbn [fst] in HD. destruct (Summarise _ pay) as [out|x|]; [|exact HD..].
    by destruct (0 <? ou_Settled out)%nat.
  - unfold Refund. by apply HD.
Qed.

(** C24. However often a payment is locked, settled or refunded again over the real coordinator,
    whatever the peers answer and the chain says: every intent a channel has applied - the lock, the
    settlement or the refund of any leg - stays applied, and paying it once more, with any
    transition, at any time, reaches no peer and changes nothing in the coordinator; locking once
    more a payment all of whose legs are locked, and settling or refunding once more a well-formed
    payment (legs numbered in order, positive amounts that add up) all of whose legs are settled or
    refunded, reach no peer and leave the coordinator as it is, even when a channel is in conflict. *)
Theorem legs_paid_once (now : Z) (disk : ExecDisk) (secret : bytes) (pay : MultipathPayment) (steps : list (Z * leg_step)) (e : Executor Coordinator P) :
  let e' := run_steps pay steps e in
  (forall id i, is_Some (coord_applied (xe_engine e) id i) ->
    is_Some (coord_applied (xe_engine e') id i) /\
    forall (x : Peer) (p : P) tr, (Pay sign err_text cfg chainID contract (chain now) x now (xe_engine e') p id i tr).1 = (xe_engine e', p)) /\
  (Forall (fun leg => is_Some (coord_applied (xe_engine e) (lg_Channel leg) (lg_Intent leg))) (mp_Legs pay) ->
    undisturbed (Lock dir peers disk now e' pay).1 e') /\
  (payment_ok pay -> Forall (leg_done (xe_engine e)) (mp_Legs pay) ->
    undisturbed (Settle peers now e' pay secret).1 e' /\ undisturbed (Refund peers now e' pay).1 e').
Proof.
  pose proof coordinator_laws as EL. intros e'.
  assert (forall id i, is_Some (coord_applied (xe_engine e) id i) -> is_Some (coord_applied (xe_engine e') id i)) as HF.
  { intros id i. subst e'. revert e. unfold run_steps. induction steps as [|st steps IH]; intros e Happ; cbn [foldl]; [done|]. by apply IH, run_step_keeps. }
  split; [|split].
  - intros id i Hi%HF. split; [exact Hi|]. intros x p tr. exact (en_pay_applied now x (xe_engine e') p id i tr Hi).
  - intros HA. apply (lock_once (okS := fun _ => True)); [done|]. eapply Forall_impl; [exact HA|]. intros leg. apply HF.
  - intros Hp HD. destruct (resolved_legs_untouched peers now e' pay secret Hp) as (HR & HS & HW).
    { eapply Forall_impl; [exact HD|]. intros leg [Hl|Hl]; right; [left|right]; apply (applied_true (E := coordinator_engine)), HF, Hl. }
    split; [by split|]. by rewrite HR.
Qed.
End Legs.

(** ** A leg without an error *)

(** The peer answers a payment with its own state, or refuses it without naming a
    reason. *)
Definition silent_answers : list Body :=
  [MsgStateResponse (mkResponse false zero_stored_state "" ""); MsgStateReject (mkReject (hex_encode toy_intent) "" "")].
Definition toy_leg (answer : Body) := toy_pay (answering_always (newEnvelope toy_id answer)) 1000 toy_coordinator.

(** The leg then has no error and nothing is applied: what the executor reports is not
    what the channels confirm. *)
Example leg_unapplied_without_error :
  forallb (fun answer => let '(co, _, r) := toy_leg answer in
    bool_decide (asLegError r = None) && bool_decide (coord_applied co toy_id toy_intent = None)) silent_answers = true.
Proof. vm_compute. reflexivity. Qed.

(** A payment of two legs on two channels, both locked already. *)
Definition toy_applied_channel (i : bytes) (c : Channel) : Channel := NoteApplied i 1 c.
Definition toy_locked : Coordinator :=
  mkCoordinator (mkNode (mkStore {[ toy_id := toy_applied_channel toy_intent toy_channel; toy_id2 := toy_second ]} ∅ ∅ false []) None) false [].
Definition toy_locked_payment : MultipathPayment :=
  mkPayment (be_encode 32 5) (Some 12) 9000
    [mkLeg 0 toy_id (Some 5) 8000 toy_intent (zeros 32) (zeros 32); mkLeg 1 toy_id2 (Some 7) 8000 toy_old_intent (zeros 32) (zeros 32)].
Definition unreachable (ch : bytes) : outcome chan_err (Message -> unit -> unit * outcome chan_err Message) := Err ErrChainUnreachable.

Definition toy_executor_of (co : Coordinator) : Executor Coordinator unit := mkExecutor co tt [] ∅.
(** The first leg settled, the second refunded. *)
Definition toy_resolved : Coordinator :=
  mkCoordinator (mkNode (mkStore {[ toy_id := toy_applied_channel (settleIntent toy_intent) (toy_applied_channel toy_intent toy_channel);
    toy_id2 := toy_applied_channel (refundIntent toy_old_intent) toy_second ]} ∅ ∅ false []) None) false [].
Definition toy_steps : list (Z * leg_step) := [(1000, StepRefund); (1001, StepSettle (be_encode 32 6))].
Lemma legs_paid_once_witness :
  let E := coordinator_engine (Crypto := toy_crypto) (toy_signer toy_keyA) toy_text (NewPeerSession toy_A) (Some 1) toy_contract (fun _ => toy_chain) in
  let after co := run_steps (Crypto := toy_crypto) (toy_signer toy_keyA) toy_text (NewPeerSession toy_A) (Some 1) toy_contract (fun _ => toy_chain)
    false unreachable toy_locked_payment toy_steps (toy_executor_of co) in
  undisturbed (Lock (E := E) false unreachable WriteSucceeds 2000 (after toy_locked) toy_locked_payment).1 (after toy_locked) /\
  undisturbed (Settle (E := E) unreachable 2000 (after toy_resolved) toy_locked_payment (be_encode 32 6)).1 (after toy_resolved).
Proof.
  intros E after. subst E after.
  pose proof (fun co => legs_paid_once (Crypto := toy_crypto) (toy_signer toy_keyA) toy_text (NewPeerSession toy_A) (Some 1) toy_contract (fun _ => toy_chain)
    false unreachable 2000 WriteSucceeds (be_encode 32 6) toy_locked_payment toy_steps (toy_executor_of co)) as H.
  split.
  - apply (proj1 (proj2 (H toy_locked))). repeat constructor; apply (bool_decide_unpack _); vm_compute; exact I.
  - refine (proj1 (proj2 (proj2 (H toy_resolved)) _ _)).
    + split; [reflexivity|]. exists [5; 7]. split; [reflexivity|]. split; [repeat constructor|reflexivity].
    + constructor; [left|constructor; [right|constructor]]; apply (bool_decide_unpack _); vm_compute; exact I.
Defined.
