(* ===== verification/ChannelRouting.v ===== *)
(** * Payment channels: forwarding

    [routing.go]: the locks a hub is offered, the matching lock it puts up
    downstream, the claim it makes upstream, and the two sweeps that finish what
    a crash or an expiry left open - with the promise that a hub that paid can
    collect, and the lock whose refund is reported but never made. *)
From S2P Require Import Prelude.
From S2P Require Import GoBytes.
From S2P Require Import RecordUpdate.
From S2P Require Import ChannelTypes.
From S2P Require Import ChannelNote.
From S2P Require Import ChannelCrypto.
From S2P Require Import ChannelState.
From S2P Require Import ChannelTransition.
From S2P Require Import ChannelHistory.
From S2P Require Import ChannelWire.
From S2P Require Import ChannelCommitter.
From S2P Require Import ChannelPreimages.
From S2P Require Import ChannelStore.
From S2P Require Import ChannelSession.
From S2P Require Import ChannelSafety.
From S2P Require Import ChannelProtocol.
From S2P Require Import ChannelCoordinator.
From S2P Require Import ChannelPayment.

(** ** Data *)

Definition DefaultHopMargin : Z := 7200.
Definition refundSkewMargin : Z := 120.

Record Forwarder : Type := mkForwarder {
  f_self : bytes;
  f_margin : Z
}.
Definition NewForwarder (self : bytes) : Forwarder := mkForwarder self DefaultHopMargin.

Record Incoming : Type := mkIncoming {
  in_Channel : bytes;
  in_Lock : HTLC
}.

(** What a sweep could not do: an error of the peer lookup, an error of the
    payment, or a refusal, the latter two with the start of the lock's id. *)
Inductive problem : Type :=
| NoPeer (e : chan_err)
| Failed (what : string) (lock : bytes) (e : chan_err)
| Refused (what : string) (lock : bytes) (code detail : string).

(** The transitions a forwarder proposes. *)
Definition lock_transition (lock : HTLC) (expiry : Z) : StateTransition :=
  mkTransition KindLockAdd (Some (orZero (h_Amount lock))) (h_ID lock) (h_Hash lock) expiry (zeros 32).
Definition settle_transition (lock : HTLC) (preimage : bytes) : StateTransition :=
  mkTransition KindLockSettle None (h_ID lock) (zeros 32) 0 preimage.
Definition refund_transition (lock : HTLC) : StateTransition :=
  mkTransition KindLockRefund None (h_ID lock) (zeros 32) 0 (zeros 32).

Section Routing.
Context `{Crypto : ChannelCrypto} `{Hmac : HmacSha256}.
Context (x : Side) (f : Forwarder).
(** [peer(channel)], and the node it reaches. *)
Context {P : Type} (peer : bytes -> outcome chan_err unit).
Context (exchange : bytes -> Message -> P -> P * outcome chan_err Message).

Definition pay (now : Z) (co : Coordinator) (p : P) (id intent : bytes) (tr : StateTransition)
    : Coordinator * P * outcome chan_err PaymentResult :=
  Pay (sd_sign x) (sd_text x) (sd_cfg x) (sd_chainID x) (sd_contract x) (sd_chain x) (exchange id) now co p id intent tr.

(** [f.vault.Lookup]; the constructor requires a vault, a nil one panics. *)
Definition vault_lookup (co : Coordinator) (hash : bytes) : outcome chan_err (option bytes) :=
  match n_vault (co_node co) with
  | Some v => Ok (Lookup v hash)
  | None => Panic
  end.

(** ** Offers *)

Definition pending_on (co : Coordinator) (id : bytes) : list Incoming :=
  match Get (co_store co) id with
  | None => []
  | Some ch =>
      map (mkIncoming id) (filter (fun lock => Party ch (h_PayerIsA lock) <> f_self f)
        (st_Pending (ss_State (ch_Latest ch))))
  end.
Definition Pending (co : Coordinator) : list Incoming := concat (map (pending_on co) (IDs (co_store co))).

Definition Forward (now : Z) (co : Coordinator) (p : P) (inc : Incoming) (outChannel intent : bytes)
    : Coordinator * P * outcome chan_err PaymentResult :=
  let lock := in_Lock inc in
  match Get (co_store co) (in_Channel inc) with
  | None => (co, p, Err ErrChannelNotAdopted)
  | Some upstream =>
      if bool_decide (Party upstream (h_PayerIsA lock) = f_self f) then (co, p, Err ErrNotTheForwarder)
      else if negb (bool_decide (is_Some (findLock (st_Pending (ss_State (ch_Latest upstream))) (h_ID lock))))
      then (co, p, Err ErrNoSuchIncoming)
      else
        let outExpiry := wrap_i64 (h_Expiry lock - f_margin f) in
        if outExpiry <=? now then (co, p, Err ErrNoMargin)
        else pay now (metric RoutedPayment co) p outChannel intent (lock_transition lock outExpiry)
  end.

(** ** Claims *)

Definition ClaimUpstream (now : Z) (co : Coordinator) (p : P) (inc : Incoming) (intent : bytes)
    : Coordinator * P * outcome chan_err PaymentResult :=
  match vault_lookup co (h_Hash (in_Lock inc)) with
  | Ok (Some preimage) => pay now co p (in_Channel inc) intent (settle_transition (in_Lock inc) preimage)
  | Ok None => (co, p, Err ErrSecretUnknown)
  | Err e => (co, p, Err e)
  | Panic => (co, p, Panic)
  end.

Definition claim_parts (inc : Incoming) : list bytes :=
  let lock := in_Lock inc in
  [in_Channel inc; h_ID lock; h_Hash lock; big_bytes (orZero (h_Amount lock)); u64 (wrap_u64 (h_Expiry lock))].
Definition claimUpstreamIntent (inc : Incoming) : bytes :=
  derive "rabbiit/routing/claim-upstream/v2" (claim_parts inc).

(** A sweep's bookkeeping of one payment: a refusal is a problem too. *)
Definition noted (what : string) (lock : HTLC) (r : Coordinator * P * outcome chan_err PaymentResult)
    : Coordinator * P * outcome chan_err (list problem) :=
  let '(co, p, r) := r in
  (co, p, match r with
          | Err e => Ok [Failed what (take 4 (h_ID lock)) e]
          | Panic => Panic
          | Ok res => Ok (if r_Done res then []
                          else [Refused what (take 4 (h_ID lock)) (r_Rejected res) (r_Detail res)])
          end).
Definition with_peer (co : Coordinator) (p : P) (id : bytes)
    (k : Coordinator * P * outcome chan_err (list problem)) : Coordinator * P * outcome chan_err (list problem) :=
  match peer id with
  | Ok _ => k
  | Err e => (co, p, Ok [NoPeer e])
  | Panic => (co, p, Panic)
  end.
(** A [for] loop that collects problems. *)
Fixpoint each {A : Type} (body : Coordinator -> P -> A -> Coordinator * P * outcome chan_err (list problem))
    (l : list A) (co : Coordinator) (p : P) : Coordinator * P * outcome chan_err (list problem) :=
  match l with
  | [] => (co, p, Ok [])
  | a :: l =>
      let '(co, p, r) := body co p a in
      match r with
      | Ok found => let '(co, p, r) := each body l co p in (co, p, let? more := r in Ok (found ++ more))
      | r => (co, p, r)
      end
  end.

Definition claim_one (now : Z) (co : Coordinator) (p : P) (inc : Incoming)
    : Coordinator * P * outcome chan_err (list problem) :=
  match vault_lookup co (h_Hash (in_Lock inc)) with
  | Ok None => (co, p, Ok [])
  | Ok (Some _) =>
      with_peer co p (in_Channel inc)
        (noted "claiming" (in_Lock inc) (ClaimUpstream now co p inc (claimUpstreamIntent inc)))
  | Err e => (co, p, Err e)
  | Panic => (co, p, Panic)
  end.
Definition SweepClaimable (now : Z) (co : Coordinator) (p : P) : Coordinator * P * outcome chan_err (list problem) :=
  each (claim_one now) (Pending co) co p.

(** ** Refunds *)

Definition refund_intent (lock : HTLC) : bytes := keccak [text_bytes "refund-expired"; h_ID lock].

Definition refund_lock (now : Z) (id : bytes) (ch : Channel) (co : Coordinator) (p : P) (lock : HTLC)
    : Coordinator * P * outcome chan_err (list problem) :=
  if negb (bool_decide (Party ch (h_PayerIsA lock) = f_self f)) then (co, p, Ok [])
  else if wrap_i64 (now - refundSkewMargin) <? h_Expiry lock then (co, p, Ok [])
  else
    match vault_lookup co (h_Hash lock) with
    | Ok (Some _) => (co, p, Ok [])
    | Ok None =>
        with_peer co p id (noted "refunding" lock (pay now co p id (refund_intent lock) (refund_transition lock)))
    | Err e => (co, p, Err e)
    | Panic => (co, p, Panic)
    end.
Definition refund_channel (now : Z) (co : Coordinator) (p : P) (id : bytes)
    : Coordinator * P * outcome chan_err (list problem) :=
  match Get (co_store co) id with
  | None => (co, p, Ok [])
  | Some ch => each (refund_lock now id ch) (st_Pending (ss_State (ch_Latest ch))) co p
  end.
Definition RefundExpired (now : Z) (co : Coordinator) (p : P) : Coordinator * P * outcome chan_err (list problem) :=
  each (refund_channel now) (IDs (co_store co)) co p.
End Routing.

(** ** Derived identifiers are unambiguous *)

(** A lock the code can hold. *)
Record incoming_ok (inc : Incoming) : Prop := {
  io_channel : array_ok 32 (in_Channel inc);
  io_id : array_ok 32 (h_ID (in_Lock inc));
  io_hash : array_ok 32 (h_Hash (in_Lock inc));
  io_amount : 0 <= orZero (h_Amount (in_Lock inc)) < 2 ^ 256;
  io_expiry : 0 <= h_Expiry (in_Lock inc) < 2 ^ 63
}.

Lemma big_bytes_length (z : Z) : 0 <= z < 2 ^ 256 -> (length (big_bytes z) <= 32)%nat.
Proof. intros Hz. unfold big_bytes. rewrite length_be_encode. apply byte_len_le. change (256 ^ Z.of_nat 32) with (2 ^ 256). lia. Qed.

Lemma u64_word_inj (x y : Z) : 0 <= x < 2 ^ 256 -> 0 <= y < 2 ^ 256 -> u64 x = u64 y -> x = y.
Proof.
  intros Hx Hy H. apply (f_equal be_decode) in H. unfold u64 in H. rewrite !be_decode_word, !be_decode_big_bytes in H by by apply big_bytes_length.
  lia.
Qed.

Lemma claim_parts_short (inc : Incoming) : incoming_ok inc -> Forall (fun p => Z.of_nat (length p) < 2 ^ 64) (claim_parts inc).
Proof.
  intros [[H1 _] [H2 _] [H3 _] H4%big_bytes_length H5]. repeat constructor; rewrite ?H1, ?H2, ?H3; try lia.
  unfold u64, word, zeros. rewrite length_app, length_replicate, length_drop. lia.
Qed.

Lemma claim_parts_inj (a b : Incoming) : incoming_ok a -> incoming_ok b -> claim_parts a = claim_parts b ->
  in_Channel a = in_Channel b /\ h_ID (in_Lock a) = h_ID (in_Lock b) /\ h_Hash (in_Lock a) = h_Hash (in_Lock b) /\
  orZero (h_Amount (in_Lock a)) = orZero (h_Amount (in_Lock b)) /\ h_Expiry (in_Lock a) = h_Expiry (in_Lock b).
Proof.
  intros [] [] [= E1 E2 E3 E4 E5]. split; [done|]. split; [done|]. split; [done|].
  split; [apply big_bytes_inj in E4; lia|]. unfold wrap_u in E5. rewrite !Z.mod_small in E5 by lia.
  apply u64_word_inj in E5; lia.
Qed.

(** ** Settling and refunding a lock that is there *)

Lemma findLock_in (l : list HTLC) (lock : HTLC) :
  StronglySorted lock_lt l -> lock ∈ l -> exists i, findLock l (h_ID lock) = Some i /\ l !! i = Some lock.
Proof.
  intros Hs Hin. induction Hs as [|h l Hs IH Hh]; [by apply elem_of_nil in Hin|]. cbn.
  apply elem_of_cons in Hin as [->|Hin].
  - rewrite bool_decide_eq_true_2 by done. by exists 0%nat.
  - case_bool_decide as Hid.
    + rewrite Forall_forall in Hh. apply Hh in Hin. unfold lock_lt, lessID in Hin.
      by rewrite Hid, bytes_ltb_irrefl in Hin.
    + destruct (IH Hin) as (i & -> & E). by exists (S i).
Qed.

Lemma findLock_gone (l : list HTLC) (id : bytes) (i : nat) :
  StronglySorted lock_lt l -> findLock l id = Some i -> findLock (removeAt l i) id = None.
Proof.
  intros Hs. revert i. induction Hs as [|h l Hs IH Hh]; intros i; cbn [findLock]; [done|]. case_bool_decide as Hid.
  - intros [= <-]. unfold removeAt. cbn. rewrite drop_0. destruct (findLock l id) as [j|] eqn:Ej; [|done].
    apply findLock_some in Ej as (k & Hk & E). apply list_elem_of_lookup_2 in Hk.
    rewrite Forall_forall in Hh. apply Hh in Hk. unfold lock_lt, lessID in Hk. by rewrite Hid, E, bytes_ltb_irrefl in Hk.
  - destruct (findLock l id) as [j|] eqn:Ej; [|done]. intros [= <-]. rewrite removeAt_cons. cbn.
    by rewrite bool_decide_eq_false_2, IH.
Qed.

Section Resolve.
Context `{Crypto : ChannelCrypto}.

(** Whom a transition on [lock] pays: the payee of a settlement, the payer of a refund. *)
Definition pays_to (lock : HTLC) (tr : StateTransition) : bool :=
  if bool_decide (t_Kind tr = KindLockSettle) then negb (h_PayerIsA lock) else h_PayerIsA lock.

(** [tr] may resolve [lock]: a settlement with its secret, or a refund. *)
Definition resolves (lock : HTLC) (tr : StateTransition) : Prop :=
  t_LockID tr = h_ID lock /\
  ((t_Kind tr = KindLockSettle /\ h_Matches lock (t_Preimage tr) = true) \/ t_Kind tr = KindLockRefund).

(** The channel the resolution starts from can be put on the wire. *)
Definition resolvable (c : Channel) : Prop :=
  array_ok 32 (ch_ID c) /\ Forall htlc_encodable (st_Pending (ss_State (ch_Latest c))) /\ Complete (ch_Latest c) = true.

Lemma resolve_applies (c : Channel) (lock : HTLC) (tr : StateTransition) (p : bytes) :
  ledger_ok c -> resolvable c -> lock ∈ st_Pending (ss_State (ch_Latest c)) -> resolves lock tr ->
  p = ch_PartyA c \/ p = ch_PartyB c ->
  exists next, Apply tr (Some c) p = Ok next /\ encodable next /\ lock_of c (t_LockID tr) = Some lock /\
    orZero (st_BalanceA next) = baseA c + (if pays_to lock tr then orZero (h_Amount lock) else 0) /\
    orZero (st_BalanceB next) = baseB c + (if pays_to lock tr then 0 else orZero (h_Amount lock)) /\
    findLock (st_Pending next) (h_ID lock) = None.
Proof.
  intros L (Hid & He & _) Hin [Ht Hk] Hp. pose proof (lo_locks _ L) as [LA _ LS].
  destruct (findLock_in _ _ LS Hin) as (i & Hf & Hi).
  destruct (proj1 (Forall_forall _ _) LA _ Hin) as (n & Hn & _).
  assert (exists a b, effect tr (IsA c p) (baseA c) (baseB c) (base_locks c) a b
      (removeAt (st_Pending (ss_State (ch_Latest c))) i) None None /\
    a = baseA c + (if pays_to lock tr then n else 0) /\ b = baseB c + (if pays_to lock tr then 0 else n))
    as (a & b & HE & Ea & Eb).
  { rewrite base_locks_id by apply L. unfold pays_to. destruct Hk as [[Hk HM]|Hk].
    - rewrite bool_decide_eq_true_2 by done. eexists _, _.
      split; [by eapply eff_lock_settle with (h := lock); rewrite ?Ht|]. destruct (h_PayerIsA lock); cbn; lia.
    - rewrite bool_decide_eq_false_2 by (by rewrite Hk). eexists _, _.
      split; [by eapply eff_lock_refund with (h := lock); rewrite ?Ht|]. destruct (h_PayerIsA lock); cbn; lia. }
  eexists. split; [apply Apply_ok; split; [exact Hp|]; by do 5 eexists|]. cbn. rewrite Hn. cbn.
  split; [|split; [|split; [exact Ea|split; [exact Eb|by apply findLock_gone]]]].
  - split; cbn; try done; [by apply removeAt_Forall|by apply removeAt_sorted|].
    destruct Hk as [[-> _]| ->]; by vm_compute.
  - unfold lock_of. rewrite Ht, Hf. exact Hi.
Qed.

Lemma the_parties_in (c : Channel) (a b : bytes) : the_parties c a b -> a = ch_PartyA c \/ a = ch_PartyB c.
Proof. intros [_ [[-> _]|[-> _]]]; auto. Qed.

Lemma BalanceOf_party (c : Channel) (isA : bool) :
  ch_PartyA c <> ch_PartyB c ->
  BalanceOf c (Party c isA) = orZero (if isA then st_BalanceA (ss_State (ch_Latest c)) else st_BalanceB (ss_State (ch_Latest c))).
Proof.
  intros Hne. unfold BalanceOf, IsA, Party. destruct isA; [by rewrite bool_decide_eq_true_2|].
  by rewrite bool_decide_eq_false_2 by congruence.
Qed.

Lemma in_step_pending (a b : Channel) :
  in_step a b -> st_Pending (ss_State (ch_Latest b)) = st_Pending (ss_State (ch_Latest a)).
Proof.
  intros [_ HB SA SB]. apply (f_equal st_Pending) in HB. cbn in HB.
  pose proof (lo_locks _ (sd_ledger _ SA)) as [LA _ _]. pose proof (lo_locks _ (sd_ledger _ SB)) as [LB _ _].
  by rewrite !clonePending_id in HB.
Qed.
End Resolve.

Section HonestResolve.
Context `{Crypto : ChannelCrypto} `{!ChannelCryptoLaws Crypto}.

(** Two sides in step about a channel, with a new intent and working wallets. *)
Record ready (x y : Side) (cA cB : Channel) (intent : bytes) : Prop := {
  rd_step : in_step cA cB;
  rd_parties : the_parties cA (side_self x) (side_self y);
  rd_nonceA : u_range 64 (st_Nonce (ss_State (ch_Latest cA)) + 1);
  rd_nonceB : u_range 64 (st_Nonce (ss_State (ch_Latest cB)) + 1);
  rd_intent : array_ok 32 intent;
  rd_newA : AppliedAt cA intent = None;
  rd_newB : AppliedAt cB intent = None;
  rd_signA : forall s, signs (sd_sign x) (side_self x) (Digest s (ch_ChainID cA) (ch_Contract cA));
  rd_signB : forall s, signs (sd_sign y) (side_self y) (Digest s (ch_ChainID cA) (ch_Contract cA))
}.

(** A resolution both clocks allow is carried out: the payee is richer by the
    lock's amount and the lock is gone. *)
Lemma resolve_done (x y : Side) (now : Z) (a b : Coordinator) (id intent : bytes) (cA cB : Channel) (lock : HTLC)
    (tr : StateTransition) :
  holds (co_store a) id cA -> holds (co_store b) id cB -> ready x y cA cB intent -> resolvable cA ->
  lock ∈ st_Pending (ss_State (ch_Latest cA)) -> resolves lock tr -> transition_encodable tr ->
  (t_Kind tr = KindLockSettle -> checkTiming (sd_cfg x) now cA tr = None) -> checkTiming (sd_cfg y) now cB tr = None ->
  (learn_secret tr (n_vault (co_node b))).2 = Ok tt ->
  exists a' b' cA' k, side_pay x y now a b id intent tr = (a', b', Ok (done_result k)) /\
    holds (co_store a') id cA' /\ AppliedAt cA' intent = Some k /\
    BalanceOf cA' (Party cA (pays_to lock tr)) = BalanceOf cA (Party cA (pays_to lock tr)) + orZero (h_Amount lock) /\
    lock_of cA' (h_ID lock) = None.
Proof.
  intros Ha Hb [] HR Hin Hres Ht TA TB Hv. pose proof rd_step0 as [HF HB SA SB].
  destruct (resolve_applies cA lock tr (side_self x) (sd_ledger _ SA) HR Hin Hres (the_parties_in _ _ _ rd_parties0))
    as (next & HA & He & _ & EA & EB & Hg).
  destruct (honest_pay x y now a b id intent tr cA cB next Ha Hb) as (a' & b' & cA' & cB' & HP & Ha' & _ & _ & F & EN & _ & _ & _ & I & _).
  { split; try done. destruct Hres as [_ [[-> _]| ->]]; discriminate. }
  exists a', b', cA', (st_Nonce next). split; [exact HP|]. split; [exact Ha'|]. split; [exact I|].
  pose proof (proj1 rd_parties0) as Hne. unfold chain_facts in F. injection F as _ FA FB _ _ _ _ _.
  assert (Party cA (pays_to lock tr) = Party cA' (pays_to lock tr)) as EP by (unfold Party; by rewrite FA, FB).
  split; [|unfold lock_of; rewrite EN; by rewrite Hg].
  rewrite BalanceOf_party by done. rewrite EP, BalanceOf_party by congruence. rewrite EN.
  assert (fresh_channel cA = false) as Fr by (apply complete_not_fresh, HR). unfold baseA, baseB in *. rewrite Fr in *.
  destruct (pays_to lock tr); lia.
Qed.
End HonestResolve.

(** ** A hub that paid can collect *)

Lemma decode_field_array (w : string) (b : bytes) : decode_field w = Ok b -> array_ok 32 b.
Proof.
  unfold decode_field. destruct (String.eqb w ""); [|apply parseBytes32_ok].
  intros E. injection E as <-. apply zeros_ok.
Qed.

Lemma decoded_preimage_array (err_text : chan_err -> string) (body : StateProposeBody) (st : State) (tr : StateTransition) (sig : bytes) :
  decode_proposal err_text body = inl (st, tr, sig) -> array_ok 32 (t_Preimage tr).
Proof.
  unfold decode_proposal. destruct (decodeStateWire _); try done. destruct (decodeTransitionWire _) as [t| |] eqn:E; try done.
  destruct (parseSig _); try done. intros [= _ <- _]. unfold decodeTransitionWire in E. repeat outcome_step. subst. cbn.
  by eapply decode_field_array.
Qed.

Lemma settle_encodable (lock : HTLC) (p : bytes) :
  array_ok 32 (h_ID lock) -> array_ok 32 p -> transition_encodable (settle_transition lock p).
Proof. intros Hi Hp. split; [by vm_compute|exact Hi|apply zeros_ok|exact Hp]. Qed.
Lemma refund_encodable (lock : HTLC) : array_ok 32 (h_ID lock) -> transition_encodable (refund_transition lock).
Proof. intros Hi. split; [by vm_compute|exact Hi|apply zeros_ok|apply zeros_ok]. Qed.

Lemma findLock_clone (l : list HTLC) (id : bytes) : findLock (clonePending l) id = findLock l id.
Proof. unfold clonePending. induction l as [|h l IH]; [done|]. cbn. by rewrite IH. Qed.

Lemma Apply_settle_secret `{ChannelCrypto} (tr : StateTransition) (c : Channel) (p : bytes) (s : State) (lock : HTLC) :
  Apply tr (Some c) p = Ok s -> t_Kind tr = KindLockSettle -> lock_of c (t_LockID tr) = Some lock ->
  h_Matches lock (t_Preimage tr) = true.
Proof.
  intros (_ & a & b & ps & wA & wB & He & _)%Apply_ok Hk Hl. inversion He as [| |i h n _ Hf Hi HM _| | |]; try congruence.
  unfold base_locks in *. rewrite findLock_clone in Hf. unfold lock_of in Hl. rewrite Hf in Hl. cbn in Hl.
  unfold clonePending in Hi. rewrite list_lookup_fmap, Hl in Hi. by injection Hi as <-.
Qed.

Section Hub.
Context `{Crypto : ChannelCrypto} `{!ChannelCryptoLaws Crypto}.

(** The lock [Forward] puts up against an incoming one. *)
Definition matching_lock (f : Forwarder) (up : HTLC) (payerIsA : bool) : HTLC :=
  mkHTLC (h_ID up) (h_Hash up) (Some (orZero (h_Amount up))) (wrap_i64 (h_Expiry up - f_margin f)) payerIsA.

(** This node answered the settlement of [down] on channel [idD] at time [now]. *)
Record settled_downstream (x : Side) (now : Z) (n n' : Node Store) (cD : Channel) (down : HTLC) (p : bytes) : Prop := {
  sdn_time : exists tr, t_Kind tr = KindLockSettle /\ checkTiming (sd_cfg x) now cD tr = None /\
    lock_of cD (t_LockID tr) = Some down /\ t_Preimage tr = p;
  sdn_secret : h_Matches down p = true;
  sdn_array : array_ok 32 p;
  sdn_vault : exists v, n_vault n' = Some v /\ Lookup v (keccak [p]) = Some p
}.

Lemma answered_settlement (x : Side) (now : Z) (n n' : Node Store) (channel ch' : string) (body : StateProposeBody)
    (idD : bytes) (cD : Channel) (b : StateAcceptBody) (st : State) (tr : StateTransition) (sig : bytes) (down : HTLC) :
  well_filed (n_store n) -> parseBytes32 channel = Ok idD -> Get (n_store n) idD = Some cD ->
  AppliedAt cD (intentOf (spb_Intent body)) = None ->
  HandlePropose (sd_sign x) (sd_text x) (sd_cfg x) now n channel body = (n', Ok (mkMessage ch' (MsgStateAccept b))) ->
  decode_proposal (sd_text x) body = inl (st, tr, sig) -> t_Kind tr = KindLockSettle ->
  lock_of cD (t_LockID tr) = Some down -> is_Some (n_vault n) ->
  settled_downstream x now n n' cD down (t_Preimage tr).
Proof.
  intros Hw Hid Hc Ha HP HD Hk Hl [v Hv].
  destruct (HandlePropose_fresh (sd_sign x) (sd_text x) (sd_cfg x) now n n' channel body idD cD b ch' Hw Hid Hc Ha HP)
    as (c' & tr0 & want & g1 & g2 & _ & H). cbn zeta in H.
  destruct H as (HD' & HA & _ & HT & _ & _ & HL & HV & _). rewrite HD in HD'. injection HD' as _ <- _.
  rewrite Hv in HL, HV. destruct (learn_secret_known tr v Hk HL) as (v' & E & HK).
  split; [by exists tr| |by eapply decoded_preimage_array|exists v'; by rewrite HV].
  by eapply Apply_settle_secret.
Qed.

Lemma settled_secret (x : Side) (now : Z) (n n' : Node Store) (cD : Channel) (f : Forwarder) (up : HTLC) (isA : bool) (p : bytes) :
  settled_downstream x now n n' cD (matching_lock f up isA) p ->
  h_Matches up p = true /\ exists v, n_vault n' = Some v /\ Lookup v (h_Hash up) = Some p.
Proof.
  intros [_ HM _ HV]. unfold h_Matches in *. cbn in HM. split; [done|].
  apply bool_decide_eq_true in HM. by rewrite <- HM.
Qed.

(** The clock of a claim, on both sides of the upstream channel. *)
Lemma claim_in_time (x y : Side) (now now' : Z) (n n' : Node Store) (cD cU cP : Channel) (f : Forwarder)
    (up : HTLC) (isA : bool) (p q : bytes) :
  settled_downstream x now n n' cD (matching_lock f up isA) p ->
  lock_of cU (h_ID up) = Some up -> lock_of cP (h_ID up) = Some up ->
  0 <= f_margin f -> 0 <= ps_skew (sd_cfg y) <= ps_skew (sd_cfg x) -> 0 <= now -> now <= now' <= now + f_margin f ->
  now' + ps_skew (sd_cfg x) < 2 ^ 63 -> 0 <= h_Expiry up < 2 ^ 63 -> f_margin f < 2 ^ 63 ->
  checkTiming (sd_cfg x) now' cU (settle_transition up q) = None /\
  checkTiming (sd_cfg y) now' cP (settle_transition up q) = None.
Proof.
  intros [(tr & Hk & HT & HL & _) _ _ _] HU HP Hm Hs Hn Hn' Hb He Hmb.
  apply settle_timing in HT as (h & Hh & Ht); [|done|lia]. rewrite HL in Hh. injection Hh as <-. cbn in Ht.
  rewrite (wrap_s_small 64) in Ht by (unfold s_range; change (2 ^ (64 - 1)) with (2 ^ 63); lia).
  split; (apply settle_timing; [done|lia|]; exists up; split; [done|lia]).
Qed.

Lemma lock_of_in (c : Channel) (lock : HTLC) :
  locks_ok (st_Pending (ss_State (ch_Latest c))) -> lock ∈ st_Pending (ss_State (ch_Latest c)) -> lock_of c (h_ID lock) = Some lock.
Proof. intros [_ _ Hs] Hin. destruct (findLock_in _ _ Hs Hin) as (i & Hf & Hi). unfold lock_of. by rewrite Hf. Qed.

Lemma other_party_paid (c : Channel) (self other : bytes) (isA : bool) :
  the_parties c self other -> Party c isA <> self -> Party c (negb isA) = self.
Proof. unfold the_parties, Party. intros [_ [[-> _]|[-> _]]]; by destruct isA. Qed.

Lemma claim_done (x y : Side) (now now' : Z) (a b : Coordinator) (n n' : Node Store) (cD cU cP : Channel) (f : Forwarder)
    (up : HTLC) (isA : bool) (p id intent : bytes) :
  settled_downstream x now n n' cD (matching_lock f up isA) p -> n_vault (co_node a) = n_vault n' ->
  holds (co_store a) id cU -> holds (co_store b) id cP -> ready x y cU cP intent -> resolvable cU ->
  up ∈ st_Pending (ss_State (ch_Latest cU)) -> Party cU (h_PayerIsA up) <> side_self x ->
  (forall q, (learn_secret (settle_transition up q) (n_vault (co_node b))).2 = Ok tt) ->
  0 <= f_margin f < 2 ^ 63 -> 0 <= ps_skew (sd_cfg y) <= ps_skew (sd_cfg x) -> 0 <= now -> now <= now' <= now + f_margin f ->
  now' + ps_skew (sd_cfg x) < 2 ^ 63 -> 0 <= h_Expiry up < 2 ^ 63 ->
  exists a' b' cU' k,
    ClaimUpstream x (fun _ => honest_peer y now') now' a b (mkIncoming id up) intent = (a', b', Ok (done_result k)) /\
    holds (co_store a') id cU' /\
    BalanceOf cU' (side_self x) = BalanceOf cU (side_self x) + orZero (h_Amount up) /\ lock_of cU' (h_ID up) = None.
Proof.
  intros HD Hva Ha Hb Hrd HR Hin Hne Hv Hm Hs Hn Hn' Hbd He.
  pose proof (rd_step _ _ _ _ _ Hrd) as HI. pose proof (lo_locks _ (sd_ledger _ (is_settledA _ _ HI))) as LK.
  destruct (settled_secret _ _ _ _ _ _ _ _ _ HD) as (HM & v & Hv' & HL).
  assert (lock_of cP (h_ID up) = Some up) as HP by
    (apply lock_of_in; rewrite (in_step_pending _ _ HI); done).
  destruct (claim_in_time x y now now' n n' cD cU cP f up isA p p) as [T1 T2]; try lia; try done; [by apply lock_of_in|].
  destruct (resolve_done x y now' a b id intent cU cP up (settle_transition up p) Ha Hb Hrd HR Hin)
    as (a' & b' & cU' & k & HPay & Ha' & _ & HB & Hg); try done.
  - split; [done|]. by left.
  - apply settle_encodable; [|by apply (sdn_array _ _ _ _ _ _ _ HD)].
    destruct HR as (_ & HE & _). apply (proj1 (Forall_forall _ _) HE _ Hin).
  - exists a', b', cU', k. split; [|split; [exact Ha'|split; [|exact Hg]]].
    + unfold ClaimUpstream, vault_lookup. cbn [in_Lock in_Channel]. rewrite Hva, Hv', HL. exact HPay.
    + unfold pays_to in HB. rewrite bool_decide_eq_true_2 in HB by done.
      by rewrite (other_party_paid cU _ _ _ (rd_parties _ _ _ _ _ Hrd) Hne) in HB.
Qed.
End Hub.

(** ** Theorems *)


(** An expired lock comes back.  Once the refund margin has passed, and unless the
    secret is known, the sweep's step for a lock this node put up succeeds against
    the honest payee whose skew is within the margin: the balance is restored and
    the lock is gone - provided the lock's refund intent is new on the channel. *)
Theorem expired_lock_refunded `{ChannelCryptoLaws} (x y : Side) (f : Forwarder) (peer : bytes -> outcome chan_err unit)
    (now : Z) (a b : Coordinator) (v : PreimageVault) (cA cB : Channel) (id : bytes) (lock : HTLC)
    (Hf : f_self f = side_self x) (Hpeer : peer id = Ok tt) (Ha : holds (co_store a) id cA) (Hb : holds (co_store b) id cB)
    (Hrd : ready x y cA cB (refund_intent lock)) (HR : resolvable cA)
    (Hin : lock ∈ st_Pending (ss_State (ch_Latest cA))) (Hpayer : Party cA (h_PayerIsA lock) = side_self x)
    (Hva : n_vault (co_node a) = Some v) (Hun : Lookup v (h_Hash lock) = None)
    (Hexp : h_Expiry lock + refundSkewMargin <= now < 2 ^ 63) (He : 0 <= h_Expiry lock)
    (Hs : 0 <= ps_skew (sd_cfg y) <= refundSkewMargin) :
  exists a' b' cA', refund_lock x f peer (fun _ => honest_peer y now) now id cA a b lock = (a', b', Ok []) /\
    holds (co_store a') id cA' /\
    BalanceOf cA' (side_self x) = BalanceOf cA (side_self x) + orZero (h_Amount lock) /\ lock_of cA' (h_ID lock) = None.
Proof.
  pose proof (rd_step _ _ _ _ _ Hrd) as HI. pose proof (lo_locks _ (sd_ledger _ (is_settledA _ _ HI))) as LK.
  unfold refundSkewMargin in *.
  destruct (resolve_done x y now a b id (refund_intent lock) cA cB lock (refund_transition lock) Ha Hb Hrd HR Hin)
    as (a' & b' & cA' & k & HPay & Ha' & _ & HB & Hg).
  - split; [done|]. by right.
  - apply refund_encodable. destruct HR as (_ & HE & _). apply (proj1 (Forall_forall _ _) HE _ Hin).
  - discriminate.
  - apply refund_timing; [done|lia|]. exists lock. split; [|lia].
    apply lock_of_in; rewrite (in_step_pending _ _ HI); done.
  - unfold learn_secret. by destruct (n_vault (co_node b)).
  - exists a', b', cA'. split; [|split; [exact Ha'|split; [|exact Hg]]].
    + unfold refund_lock. rewrite Hf, bool_decide_eq_true_2 by done. cbn [negb].
      unfold refundSkewMargin. rewrite (wrap_s_small 64) by (unfold s_range; change (2 ^ (64 - 1)) with (2 ^ 63); lia).
      rewrite (proj2 (Z.ltb_ge _ _)) by lia. unfold vault_lookup. rewrite Hva, Hun. unfold with_peer. rewrite Hpeer.
      unfold pay. unfold side_pay in HPay. by rewrite HPay.
    + unfold pays_to in HB. rewrite bool_decide_eq_false_2 in HB by done. by rewrite Hpayer in HB.
Qed.

Lemma set_own_store (co : Coordinator) : set_store (co_store co) co = co.
Proof. by destruct co as [[]]. Qed.

(** The refund of a reused lock id is reported and never made.  A lock id is free
    again once its lock is resolved, but the refund intent is derived from the id
    alone: on a channel where a lock with this id was refunded before, the sweep
    finds the intent applied, counts the new lock as refunded, proposes nothing,
    changes nothing and reports no problem - at every pass, so the money stays
    locked. *)
Theorem reused_lock_id_never_refunded `{ChannelCrypto} (x : Side) (f : Forwarder) {P : Type}
    (peer : bytes -> outcome chan_err unit) (exchange : bytes -> Message -> P -> P * outcome chan_err Message)
    (now : Z) (co : Coordinator) (p : P) (v : PreimageVault) (c : Channel) (id : bytes) (lock : HTLC) (k : Z)
    (Hid : IDs (co_store co) = [id]) (Hc : Get (co_store co) id = Some c)
    (Hlocks : st_Pending (ss_State (ch_Latest c)) = [lock])
    (Hk : ch_Conflict c = None) (Hold : AppliedAt c (refund_intent lock) = Some k)
    (Hpeer : peer id = Ok tt) (Hv : n_vault (co_node co) = Some v) :
  RefundExpired x f peer exchange now co p = (co, p, Ok []).
Proof.
  unfold RefundExpired. rewrite Hid. cbn [each]. unfold refund_channel. rewrite Hc, Hlocks. cbn [each].
  assert (refund_lock x f peer exchange now id c co p lock = (co, p, Ok [])) as ->; [|done].
  unfold refund_lock. destruct (negb _); [done|]. destruct (_ <? _); [done|]. unfold vault_lookup. rewrite Hv.
  destruct (Lookup v _); [done|]. unfold with_peer. rewrite Hpeer. unfold pay, Pay, Adopt. rewrite Hc.
  cbv iota beta zeta. rewrite Hc, bool_decide_eq_false_2 by (rewrite Hk; by intros []). rewrite Hold, set_own_store. done.
Qed.

(** A claim's intent names the lock instance.  If two incoming locks have one claim
    intent then they agree on channel, id, hash, amount and expiry, or HMAC-SHA256
    maps two different messages under one key to one 32-byte value: a lock that
    merely reuses an id is claimed for itself. *)
Theorem claim_intent_names_instance `{HmacSha256} (a b : Incoming) (Ha : incoming_ok a) (Hb : incoming_ok b)
    (Hlen : forall k m, length (hmac_sha256 k m) = 32%nat) (E : claimUpstreamIntent a = claimUpstreamIntent b) :
  (in_Channel a = in_Channel b /\ h_ID (in_Lock a) = h_ID (in_Lock b) /\ h_Hash (in_Lock a) = h_Hash (in_Lock b) /\
   orZero (h_Amount (in_Lock a)) = orZero (h_Amount (in_Lock b)) /\ h_Expiry (in_Lock a) = h_Expiry (in_Lock b)) \/
  exists key m1 m2, m1 <> m2 /\ hmac_sha256 key m1 = hmac_sha256 key m2.
Proof.
  unfold claimUpstreamIntent, derive in E. rewrite !take_ge in E by (by rewrite Hlen). rewrite !Hlen in E.
  apply app_inj_2 in E as [E _]; [|done].
  destruct (decide (derive_message (claim_parts a) = derive_message (claim_parts b))) as [Em|Em]; [left|right; eauto].
  apply claim_parts_inj; [done|done|]. apply derive_message_inj; [by apply claim_parts_short..|done].
Qed.

(** ** Concrete inputs *)

Lemma toy_signs (k : Z) (s : State) : IsZero (toy_address k) = false ->
  @signs toy_crypto (toy_signer k) (toy_address k) (@Digest toy_crypto s (Some 1) toy_contract).
Proof.
  intros Hz. eexists. split; [reflexivity|]. split; [apply toy_sign_parts|by apply toy_sign_recovers].
Qed.

(** A channel on which seven are locked on the hash of the zero secret. *)
Definition toy_offer_lock (expiry : Z) (payerIsA : bool) : HTLC :=
  mkHTLC (be_encode 32 9) (@keccak toy_crypto [zeros 32]) (Some 7) expiry payerIsA.
Definition toy_offer (lock : HTLC) (a b : Z) : Channel :=
  set_Latest (mkSignedState (mkState toy_id 1 (Some a) (Some b) [lock] None None OpState) (zeros 65) (zeros 65)) toy_channel.
Definition toy_record (lock : HTLC) (a b : Z) : Channel := set_NeedsReconcile false (Clone (toy_offer lock a b)).
Definition toy_hub (lock : HTLC) (a b : Z) (v : option PreimageVault) : Coordinator :=
  mkCoordinator (mkNode (mkStore {[ toy_id := toy_offer lock a b ]} ∅ ∅ false []) v) true [].

Lemma toy_hub_get (lock : HTLC) (a b : Z) v : Get (co_store (toy_hub lock a b v)) toy_id = Some (toy_record lock a b).
Proof. unfold Get, toy_hub, co_store. cbn [co_node n_store s_channels s_unreconciled]. by rewrite lookup_singleton_eq. Qed.

Lemma toy_hub_holds (lock : HTLC) (a b : Z) v : holds (co_store (toy_hub lock a b v)) toy_id (toy_record lock a b).
Proof. split; [done|]. split; [apply toy_hub_get|]. split; [done|exact (proj1 toy_arrays)]. Qed.

Lemma toy_hub_well_filed (lock : HTLC) (a b : Z) v : well_filed (co_store (toy_hub lock a b v)).
Proof.
  apply live_well_filed, map_Forall_singleton.
  destruct (@fresh_typed toy_crypto (Some 1) toy_contract toy_A toy_B (Some 60) (Some 40) StatusOpen (proj1 toy_arrays)) as [].
  by split.
Qed.

Lemma toy_record_facts (lock : HTLC) (a b : Z) : ch_Applied (toy_record lock a b) = ∅ /\ ch_Signed (toy_record lock a b) = ∅ /\
  ch_Pending (toy_record lock a b) = None /\ ch_Conflict (toy_record lock a b) = None.
Proof.
  destruct toy_facts as (E1 & E2 & E3 & _). assert (ch_Signed toy_channel = ∅) as E4 by (vm_compute; reflexivity).
  split; [exact E3|]. split; [exact E4|]. split; [exact toy_snapshot_pending|exact toy_snapshot_conflict].
Qed.

Lemma toy_record_pending (e a b : Z) (isA : bool) :
  st_Pending (ss_State (ch_Latest (toy_record (toy_offer_lock e isA) a b))) = [toy_offer_lock e isA].
Proof. done. Qed.

Lemma toy_record_settled (e a b : Z) (isA : bool) : 0 < e -> 0 <= a -> 0 <= b -> a + b + 7 = 100 ->
  settled (toy_record (toy_offer_lock e isA) a b).
Proof.
  intros He Ha Hb Hab. destruct (toy_record_facts (toy_offer_lock e isA) a b) as (E1 & E2 & E3 & E4).
  split; [exact E3|exact E4|done|rewrite E2; apply map_Forall_empty|].
  assert (fresh_channel (toy_record (toy_offer_lock e isA) a b) = false) as F by done.
  assert (st_Nonce (ss_State (ch_Latest (toy_record (toy_offer_lock e isA) a b))) = 1) as S2 by reflexivity.
  assert (baseA (toy_record (toy_offer_lock e isA) a b) = a) as SA by (unfold baseA; rewrite F; reflexivity).
  assert (baseB (toy_record (toy_offer_lock e isA) a b) = b) as SB by (unfold baseB; rewrite F; reflexivity).
  split; [reflexivity|rewrite S2; unfold u_range; lia|by rewrite SA|by rewrite SB| |].
  - rewrite toy_record_pending. split.
    + apply Forall_singleton. exists 7. split; [reflexivity|lia].
    + apply Forall_singleton. exact He.
    + constructor; constructor.
  - unfold base_value. rewrite F. cbn. lia.
Qed.

Lemma toy_ready (x y : bytes) (kx ky : Z) (e a b : Z) (isA : bool) (intent : bytes) :
  toy_address kx = x -> toy_address ky = y -> IsZero x = false -> IsZero y = false ->
  the_parties toy_channel x y -> 0 < e -> 0 <= a -> 0 <= b -> a + b + 7 = 100 -> array_ok 32 intent ->
  ready (Crypto := toy_crypto) (toy_side x kx) (toy_side y ky) (toy_record (toy_offer_lock e isA) a b)
    (toy_record (toy_offer_lock e isA) a b) intent.
Proof.
  intros Ex Ey Zx Zy HP He Ha Hb Hab Hi. pose proof (toy_record_settled e a b isA He Ha Hb Hab) as HS.
  destruct (toy_record_facts (toy_offer_lock e isA) a b) as (EA & _).
  assert (forall i, AppliedAt (toy_record (toy_offer_lock e isA) a b) i = None) as HN
    by (intros i; unfold AppliedAt; rewrite EA; apply lookup_empty).
  assert (u_range 64 (st_Nonce (ss_State (ch_Latest (toy_record (toy_offer_lock e isA) a b))) + 1)) as HU.
  { assert (st_Nonce (ss_State (ch_Latest (toy_record (toy_offer_lock e isA) a b))) = 1) as -> by reflexivity. unfold u_range. lia. }
  split; [|exact (the_parties_view toy_channel _ _ _ eq_refl HP)|exact HU|exact HU|exact Hi|apply HN|apply HN| |].
  - split; [reflexivity|reflexivity|exact HS|exact HS].
  - intros s. rewrite <- Ex in *. by apply toy_signs.
  - intros s. rewrite <- Ey in *. by apply toy_signs.
Qed.

Lemma toy_resolvable (e a b : Z) (isA : bool) : resolvable (toy_record (toy_offer_lock e isA) a b).
Proof.
  split; [exact (proj1 toy_arrays)|]. split; [|reflexivity]. rewrite toy_record_pending.
  constructor; [|constructor]. split; [apply be_encode_array|exact (keccak256_array (C := toy_crypto) _)].
Qed.

Lemma toy_payer_A : the_parties toy_channel toy_A toy_B.
Proof. split; [vm_compute; discriminate|left; split; vm_compute; reflexivity]. Qed.
Lemma toy_payer_B : the_parties toy_channel toy_B toy_A.
Proof. split; [vm_compute; discriminate|right; split; vm_compute; reflexivity]. Qed.

(** The hub is B: A offered it [toy_up], it put up [toy_down], and A settled that. *)
Definition toy_up : HTLC := toy_offer_lock 12200 true.
Definition toy_down : HTLC := toy_offer_lock 5000 false.
Definition toy_down_node : Node Store := co_node (toy_hub toy_down 60 33 (Some toy_vault)).
Definition toy_down_body : StateProposeBody :=
  toy_body toy_intent (toy_tr KindLockSettle 0) (mkState toy_id 2 (Some 67) (Some 33) [] None None OpState).

Lemma toy_down_settled : exists n' ch acc, toy_answer toy_down_node toy_down_body = (n', Ok (mkMessage ch (MsgStateAccept acc))).
Proof. apply accept_pair. vm_compute. reflexivity. Qed.
Lemma toy_down_decodes : exists st tr sig, decode_proposal toy_text toy_down_body = inl (st, tr, sig) /\
  t_Kind tr = KindLockSettle /\ t_LockID tr = h_ID toy_down.
Proof. eexists _, _, _. split; [vm_compute; reflexivity|]. split; vm_compute; reflexivity. Qed.

Lemma toy_not_mine : Party (toy_record toy_up 53 40) (h_PayerIsA toy_up) <> side_self (toy_side toy_B toy_keyB).
Proof. vm_compute. discriminate. Qed.


(** The payer is A, and its lock lapsed. *)
Definition toy_lapsed : HTLC := toy_offer_lock 5000 true.
Lemma toy_payer_is_A : Party (toy_record toy_lapsed 53 40) (h_PayerIsA toy_lapsed) = toy_A.
Proof. vm_compute. reflexivity. Qed.

Lemma expired_lock_refunded_witness : exists a' b' cA',
  refund_lock (Crypto := toy_crypto) (toy_side toy_A toy_keyA) (NewForwarder toy_A) (fun _ => Ok tt)
    (fun _ => honest_peer (toy_side toy_B toy_keyB) 5200) 5200 toy_id (toy_record toy_lapsed 53 40)
    (toy_hub toy_lapsed 53 40 (Some toy_vault)) (toy_hub toy_lapsed 53 40 None) toy_lapsed = (a', b', Ok []) /\
  BalanceOf cA' toy_A = BalanceOf (toy_record toy_lapsed 53 40) toy_A + 7.
Proof.
  destruct toy_keys as (KA & KB & ZA & ZB). rewrite KA in ZA. rewrite KB in ZB.
  destruct (@expired_lock_refunded toy_crypto toy_laws (toy_side toy_A toy_keyA) (toy_side toy_B toy_keyB)
    (NewForwarder toy_A) (fun _ => Ok tt) 5200 (toy_hub toy_lapsed 53 40 (Some toy_vault)) (toy_hub toy_lapsed 53 40 None)
    toy_vault (toy_record toy_lapsed 53 40) (toy_record toy_lapsed 53 40) toy_id toy_lapsed)
    as (a' & b' & cA' & HC & _ & HB & _).
  - reflexivity.
  - reflexivity.
  - exact (toy_hub_holds toy_lapsed 53 40 _).
  - exact (toy_hub_holds toy_lapsed 53 40 _).
  - apply (toy_ready toy_A toy_B); [exact KA|exact KB|exact ZA|exact ZB|exact toy_payer_A|lia|lia|lia|lia|].
    exact (keccak256_array (C := toy_crypto) _).
  - apply toy_resolvable.
  - apply list_elem_of_singleton. reflexivity.
  - exact toy_payer_is_A.
  - reflexivity.
  - apply lookup_empty.
  - change (5000 + 120 <= 5200 < 2 ^ 63). lia.
  - change (0 <= 5000). lia.
  - change (0 <= 30 <= 120). lia.
  - exists a', b', cA'. split; [exact HC|exact HB].
Defined.

(** The same lapsed lock, on a channel where a lock with its id was refunded at nonce 3. *)
Definition toy_reused_record : Channel :=
  NoteApplied (@refund_intent toy_crypto toy_lapsed) 3 (toy_offer toy_lapsed 53 40).
Definition toy_reused : Coordinator :=
  mkCoordinator (mkNode (mkStore {[ toy_id := toy_reused_record ]} ∅ ∅ false []) (Some toy_vault)) true [].

Lemma reused_lock_id_never_refunded_witness (* the peer is never asked *) :
  RefundExpired (Crypto := toy_crypto) (toy_side toy_A toy_keyA) (NewForwarder toy_A) (fun _ => Ok tt)
    (fun _ _ u => (u, Err ErrChainUnreachable)) 9000 toy_reused tt = (toy_reused, tt, Ok []).
Proof.
  apply (@reused_lock_id_never_refunded toy_crypto (toy_side toy_A toy_keyA) (NewForwarder toy_A) unit (fun _ => Ok tt)
    (fun _ _ u => (u, Err ErrChainUnreachable)) 9000 toy_reused tt toy_vault
    (set_NeedsReconcile false (Clone toy_reused_record)) toy_id toy_lapsed 3).
  - unfold IDs, toy_reused, co_store. cbn [co_node n_store s_channels]. by rewrite map_to_list_singleton.
  - unfold Get, toy_reused, co_store. cbn [co_node n_store s_channels s_unreconciled]. by rewrite lookup_singleton_eq.
  - reflexivity.
  - exact (proj2 (proj2 (proj2 (toy_record_facts toy_lapsed 53 40)))).
  - apply lookup_insert_eq.
  - reflexivity.
  - reflexivity.
Defined.

#[local] Instance sum_hmac : HmacSha256 := fun k m => be_encode 32 (be_decode k + be_decode m).
Definition toy_incoming (payerIsA : bool) : Incoming := mkIncoming toy_id (toy_offer_lock 12200 payerIsA).

Lemma toy_incoming_ok (payerIsA : bool) : incoming_ok (toy_incoming payerIsA).
Proof.
  split.
  - exact (proj1 toy_arrays).
  - exact (be_encode_array 32 9).
  - exact (keccak256_array (C := toy_crypto) _).
  - change (0 <= 7 < 2 ^ 256). lia.
  - change (0 <= 12200 < 2 ^ 63). lia.
Qed.

Lemma claim_intent_names_instance_witness :
  h_Hash (in_Lock (toy_incoming true)) = h_Hash (in_Lock (toy_incoming false)) \/
  exists key m1 m2 : bytes, m1 <> m2 /\ sum_hmac key m1 = sum_hmac key m2.
Proof.
  destruct (claim_intent_names_instance (toy_incoming true) (toy_incoming false) (toy_incoming_ok true) (toy_incoming_ok false))
    as [(_ & _ & H & _)|H].
  - intros k m. apply length_be_encode.
  - reflexivity.
  - left. exact H.
  - right. exact H.
Defined.
