(* ===== verification/ChannelChain.v ===== *)
(** * Payment channels: what the chain said ([internal/channel/chain.go])

    The call data of [channels(bytes32)] and [canSign(address,address,uint8)],
    and the decoding of their answers: eleven 32-byte words in the order of the
    contract's struct.  The HTTP exchange and its JSON are outside the model. *)
From S2P Require Import Prelude.
From S2P Require Import GoBytes.
From S2P Require Import ChannelTypes.
From S2P Require Import ChannelCrypto.
From S2P Require Import ChannelState.
From S2P Require Import ChannelStore.

(** ** Call data *)

(** [hex.DecodeString(trim0x(result))] accepts a lone prefix too. *)
Definition trim0x (s : string) : string := strip_0x s.

(** [copy(out[32-len(b):], b)]; a longer [b] makes the slice expression panic. *)
Definition leftPad32 {Err : Type} (b : bytes) : outcome Err bytes :=
  if (length b <=? 32)%nat then Ok (zeros (32 - length b) ++ b) else Panic.

Section Chain.
Context `{Crypto : ChannelCrypto}.

Definition channelsSelector : bytes := take 4 (keccak [text_bytes "channels(bytes32)"]).
Definition canSignSelector : bytes := take 4 (keccak [text_bytes "canSign(address,address,uint8)"]).

Definition channels_call (id : bytes) : string :=
  String.append "0x" (String.append (hex_encode channelsSelector) (hex_encode id)).
Definition canSign_call (party signer : bytes) (op : Z) : outcome chan_err string :=
  let? p := leftPad32 party in
  let? s := leftPad32 signer in
  let? o := leftPad32 [op] in
  Ok (String.concat "" ["0x"; hex_encode canSignSelector; hex_encode p; hex_encode s; hex_encode o]).

(** ** Answers *)

Definition wordAt (raw : bytes) (i : nat) : bytes := take 32 (drop (i * 32) raw).
Definition addrAt (raw : bytes) (i : nat) : bytes := drop 12 (wordAt raw i).
Definition uintAt (raw : bytes) (i : nat) : Z := be_decode (wordAt raw i).

Definition decodeChannelsReturn (id : bytes) (result : string) : outcome chan_err OnChainChannel :=
  let? raw := of_option ErrChainUnreachable (hex_decode (trim0x result)) in
  fail? (length raw <? 11 * 32)%nat with ErrNotChannelManagerV2 ;;
  let out := mkOnChain id (addrAt raw 0) (addrAt raw 1) (Some (uintAt raw 2)) (Some (uintAt raw 3))
    (wrap_u 8 (wrap_u64 (uintAt raw 4))) (wrap_u64 (uintAt raw 7)) (wrap_i64 (uintAt raw 8))
    (Some (uintAt raw 5)) (Some (uintAt raw 6)) (Some (uintAt raw 10)) true in
  fail? (oc_Status out =? StatusNone) || (IsZero (oc_PartyA out) && IsZero (oc_PartyB out)) with ErrChannelNotOnChain ;;
  fail? negb (bool_decide (DeriveChannelID (oc_PartyA out) (oc_PartyB out) = id)) with ErrChainUnreachable ;;
  Ok out.

(** [CallCanSign], past the exchange. *)
Definition decode_can_sign (result : string) : outcome chan_err bool :=
  let? raw := of_option ErrChainUnreachable (hex_decode (trim0x result)) in
  fail? negb (Nat.eqb (length raw) 32) with ErrChainUnreachable ;;
  match raw !! 31%nat with
  | None => Panic
  | Some b => if b =? 0 then Ok false else if b =? 1 then Ok true else Err ErrChainUnreachable
  end.

(** ** The contract's encoding *)

(** The getter's return value, as the ABI lays the struct out. *)
Definition channel_words (c : OnChainChannel) (root : bytes) : list bytes :=
  [zeros 12 ++ oc_PartyA c; zeros 12 ++ oc_PartyB c; be_encode 32 (orZero (oc_DepositA c));
   be_encode 32 (orZero (oc_DepositB c)); be_encode 32 (oc_Status c); be_encode 32 (orZero (oc_BalanceA c));
   be_encode 32 (orZero (oc_BalanceB c)); be_encode 32 (oc_Nonce c); be_encode 32 (oc_ChallengeEnds c);
   root; be_encode 32 (orZero (oc_LockedTotal c))].
Definition channels_return (c : OnChainChannel) (root : bytes) : string :=
  String.append "0x" (hex_encode (concat (channel_words c root))).

Definition word_value (n : option Z) : Prop := exists z, n = Some z /\ 0 <= z < 2 ^ 256.

(** A channel struct the contract can hold, and a reader can return. *)
Record on_chain_typed (c : OnChainChannel) : Prop := {
  ot_A : array_ok 20 (oc_PartyA c);
  ot_B : array_ok 20 (oc_PartyB c);
  ot_depositA : word_value (oc_DepositA c);
  ot_depositB : word_value (oc_DepositB c);
  ot_balanceA : word_value (oc_BalanceA c);
  ot_balanceB : word_value (oc_BalanceB c);
  ot_locked : word_value (oc_LockedTotal c);
  ot_status : u_range 8 (oc_Status c) /\ oc_Status c <> StatusNone;
  ot_nonce : u_range 64 (oc_Nonce c);
  ot_ends : s_range 64 (oc_ChallengeEnds c);
  ot_parties : IsZero (oc_PartyA c) && IsZero (oc_PartyB c) = false;
  ot_id : DeriveChannelID (oc_PartyA c) (oc_PartyB c) = oc_ID c;
  ot_fromChain : oc_fromChain c = true
}.

(** ** Words *)

Lemma wordAt_concat (ws : list bytes) (i : nat) (w : bytes) :
  Forall (array_ok 32) ws -> ws !! i = Some w -> wordAt (concat ws) i = w.
Proof.
  intros Hw. revert i. induction Hw as [|x ws [Hl _] Hw IH]; intros i; [done|]. destruct i as [|i]; cbn [concat lookup list_lookup].
  - intros [= ->]. unfold wordAt. cbn. by rewrite drop_0, take_app_le, take_ge by lia.
  - intros Hi. unfold wordAt. change (S i * 32)%nat with (32 + i * 32)%nat.
    rewrite <- drop_drop, (drop_app_length' x (concat ws) 32) by done. by apply IH.
Qed.

Lemma wordAt_array (raw : bytes) (i : nat) : bytes_ok raw -> ((i + 1) * 32 <= length raw)%nat -> array_ok 32 (wordAt raw i).
Proof.
  intros Ho Hl. unfold wordAt. split; [|by apply Forall_take, Forall_drop]. rewrite length_take, length_drop. lia.
Qed.

Lemma uintAt_range (raw : bytes) (i : nat) : bytes_ok raw -> ((i + 1) * 32 <= length raw)%nat -> 0 <= uintAt raw i < 2 ^ 256.
Proof.
  intros Ho Hl. destruct (wordAt_array raw i Ho Hl) as [L O]. pose proof (be_decode_range _ O) as H. rewrite L in H. exact H.
Qed.

Lemma addrAt_array (raw : bytes) (i : nat) : bytes_ok raw -> ((i + 1) * 32 <= length raw)%nat -> array_ok 20 (addrAt raw i).
Proof.
  intros Ho Hl. destruct (wordAt_array raw i Ho Hl) as [L O]. unfold addrAt. split; [|by apply Forall_drop].
  rewrite length_drop, L. done.
Qed.
End Chain.

Lemma channel_words_arrays (c : OnChainChannel) (root : bytes) :
  array_ok 20 (oc_PartyA c) -> array_ok 20 (oc_PartyB c) -> array_ok 32 root ->
  Forall (array_ok 32) (channel_words c root).
Proof.
  intros [LA OA] [LB OB] Hr. unfold channel_words.
  assert (forall a, length a = 20%nat -> bytes_ok a -> array_ok 32 (zeros 12 ++ a)) as HP.
  { intros a L O. split; [unfold zeros; rewrite length_app, length_replicate, L; done|].
    apply Forall_app. split; [apply zeros_ok|done]. }
  repeat (apply Forall_cons; split); try apply be_encode_array; auto.
Qed.

Lemma address_word (a : bytes) : drop 12 (zeros 12 ++ a) = a.
Proof. done. Qed.

Lemma decode_word (z : Z) : 0 <= z < 2 ^ 256 -> be_decode (be_encode 32 z) = z.
Proof. intros Hz. apply be_decode_encode_small. exact Hz. Qed.

(** ** Theorems *)

(** C39. Whatever the endpoint answers, a channel read from the chain is well typed and
    is the one asked for: addresses of 20 bytes, amounts of 256 bits, a status
    other than None, a nonce and a deadline of 64 bits, parties that are not both
    zero and whose derived id is the id of the question. *)
Theorem chain_read_typed `{ChannelCrypto} (id : bytes) (result : string) (c : OnChainChannel)
    (Hd : decodeChannelsReturn id result = Ok c) : on_chain_typed c /\ oc_ID c = id.
Proof.
  rename Hd into H'. unfold decodeChannelsReturn in H'. destruct (hex_decode _) as [raw|] eqn:E; [|done]. cbn [of_option obind] in H'.
  apply hex_decode_ok in E. apply guard_err_ok in H' as [HL H']. apply Nat.ltb_ge in HL.
  apply guard_err_ok in H' as [HS H']. apply guard_err_ok in H' as [HD [= <-]]. cbn [oc_Status oc_PartyA oc_PartyB] in *.
  apply orb_false_iff in HS as [HS HZ]. apply Z.eqb_neq in HS. apply negb_false_iff, bool_decide_eq_true in HD.
  assert (forall i, (i < 11)%nat -> word_value (Some (uintAt raw i))) as HU
    by (intros i Hi; eexists; split; [done|]; apply uintAt_range; [done|lia]).
  split; [|done].
  split; cbn [oc_PartyA oc_PartyB oc_DepositA oc_DepositB oc_BalanceA oc_BalanceB oc_LockedTotal oc_Status oc_Nonce
    oc_ChallengeEnds oc_ID oc_fromChain]; try (apply HU; lia); try done.
  - apply addrAt_array; [done|lia].
  - apply addrAt_array; [done|lia].
  - split; [by apply wrap_u_range|exact HS].
  - by apply wrap_u_range.
  - by apply wrap_s_range.
Qed.

(** The reader understands the contract: for every struct the contract can hold,
    decoding the getter's ABI encoding under its own id gives back the struct, so
    no field is dropped or read at another's place. *)
Theorem chain_read_roundtrip `{ChannelCrypto} (c : OnChainChannel) (root : bytes)
    (Hc : on_chain_typed c) (He : 0 <= oc_ChallengeEnds c) (Hr : array_ok 32 root) :
  decodeChannelsReturn (oc_ID c) (channels_return c root) = Ok c.
Proof.
  destruct Hc as [A B (dA & EA & DA) (dB & EB & DB) (bA & FA & BA) (bB & FB & BB) (lt & EL & LT) [S1 S2] N E HZ I F].
  pose proof (channel_words_arrays c root A B Hr) as HW. unfold decodeChannelsReturn, channels_return, trim0x.
  change (strip_0x (String.append "0x" ?t)) with t.
  rewrite hex_decode_encode by (apply Forall_concat; eapply Forall_impl; [exact HW|]; by intros w []).
  cbn [of_option obind]. rewrite (length_concat_arrays 32) by (eapply Forall_impl; [exact HW|]; by intros w []).
  change (length (channel_words c root)) with 11%nat. change (Nat.ltb _ _) with false. cbn [guard_err]. unfold addrAt, uintAt.
  rewrite (wordAt_concat _ 0 _ HW eq_refl), (wordAt_concat _ 1 _ HW eq_refl), (wordAt_concat _ 2 _ HW eq_refl),
    (wordAt_concat _ 3 _ HW eq_refl), (wordAt_concat _ 4 _ HW eq_refl), (wordAt_concat _ 5 _ HW eq_refl),
    (wordAt_concat _ 6 _ HW eq_refl), (wordAt_concat _ 7 _ HW eq_refl), (wordAt_concat _ 8 _ HW eq_refl),
    (wordAt_concat _ 10 _ HW eq_refl), !address_word, EA, EB, FA, FB, EL.
  unfold u_range, s_range in *. change (2 ^ (64 - 1)) with (2 ^ 63) in *. repeat change (orZero (Some ?z)) with z.
  rewrite !decode_word by lia. rewrite !(wrap_u_small 64), (wrap_u_small 8), (wrap_s_small 64)
    by (unfold u_range, s_range; change (2 ^ (64 - 1)) with (2 ^ 63); lia).
  cbn [oc_Status oc_PartyA oc_PartyB]. rewrite HZ, orb_false_r, (proj2 (Z.eqb_neq _ _)) by done. cbn [guard_err].
  rewrite I, bool_decide_eq_true_2 by done. cbn [guard_err negb]. f_equal. destruct c; cbn in *. congruence.
Qed.

(** ** A concrete channel *)

Definition toy_closing : OnChainChannel :=
  mkOnChain (@DeriveChannelID toy_crypto toy_A toy_B) toy_A toy_B (Some 60) (Some 40) StatusClosing 3 5000
    (Some 50) (Some 43) (Some 7) true.

Lemma toy_closing_typed : on_chain_typed (Crypto := toy_crypto) toy_closing.
Proof.
  split.
  - apply array_okb_spec. vm_compute. reflexivity.
  - apply array_okb_spec. vm_compute. reflexivity.
  - exists 60. split; [reflexivity|lia].
  - exists 40. split; [reflexivity|lia].
  - exists 50. split; [reflexivity|lia].
  - exists 43. split; [reflexivity|lia].
  - exists 7. split; [reflexivity|lia].
  - change (u_range 8 2 /\ 2 <> 0). unfold u_range. lia.
  - change (u_range 64 3). unfold u_range. lia.
  - change (s_range 64 5000). unfold s_range. change (2 ^ (64 - 1)) with (2 ^ 63). lia.
  - vm_compute. reflexivity.
  - reflexivity.
  - reflexivity.
Qed.

Lemma chain_read_roundtrip_witness :
  decodeChannelsReturn (Crypto := toy_crypto) (oc_ID toy_closing) (channels_return toy_closing (zeros 32)) = Ok toy_closing.
Proof. apply (chain_read_roundtrip toy_closing (zeros 32) toy_closing_typed); [vm_compute; discriminate|apply zeros_ok]. Defined.

Lemma chain_read_typed_witness : on_chain_typed (Crypto := toy_crypto) toy_closing /\ oc_ID toy_closing = oc_ID toy_closing.
Proof.
  apply (chain_read_typed (oc_ID toy_closing) (channels_return toy_closing (zeros 32))). vm_compute. reflexivity.
Defined.
