(* ===== verification/ChannelVault.v ===== *)
(** * Payment channels: the vault of co-signed states

    [vault.go], [vaultstore.go]: states kept on behalf of parties who are not
    watching.  A submission is verified against the chain, persisted under an
    immutable key, then activated; the vault's lock is not held across the three,
    so submissions interleave, and [Load] rebuilds the vault after a crash. *)
From S2P Require Import Prelude.
From S2P Require Import GoBytes.
From S2P Require Import ChannelTypes.
From S2P Require Import ChannelCrypto.
From S2P Require Import ChannelState.
From S2P Require Import ChannelTransition.
From S2P Require Import ChannelWire.
From S2P Require Import ChannelCommitter.
From S2P Require Import ChannelStore.
From S2P Require Import ChannelSession.
From S2P Require Import ChannelCoordinator.

(** ** Data *)

Record VaultEntry : Type := mkVaultEntry {
  ve_Channel : bytes;
  ve_Signed : SignedState;
  ve_PartyA : bytes;
  ve_PartyB : bytes;
  ve_DepositA : option Z;
  ve_DepositB : option Z;
  ve_Accepted : Z;
  ve_Rejected : Z
}.
Definition ve_Nonce (e : VaultEntry) : Z := st_Nonce (ss_State (ve_Signed e)).
(** [VaultEntry{}]. *)
Definition zero_entry : VaultEntry :=
  mkVaultEntry (zeros 32) (mkSignedState (mkState (zeros 32) 0 None None [] None None 0) [] [])
    (zeros 20) (zeros 20) None None 0 0.
Definition reject_one (e : VaultEntry) : VaultEntry :=
  mkVaultEntry (ve_Channel e) (ve_Signed e) (ve_PartyA e) (ve_PartyB e) (ve_DepositA e) (ve_DepositB e)
    (ve_Accepted e) (ve_Rejected e + 1).
Definition accept_one (signed : SignedState) (e : VaultEntry) : VaultEntry :=
  mkVaultEntry (ve_Channel e) (cloneSigned signed) (ve_PartyA e) (ve_PartyB e) (ve_DepositA e) (ve_DepositB e)
    (ve_Accepted e + 1) (ve_Rejected e).

Record vaultRecord : Type := mkVaultRecord {
  vr_Channel : string;
  vr_State : storedState;
  vr_SigA : string;
  vr_SigB : string
}.

Definition record_of (signed : SignedState) : vaultRecord :=
  mkVaultRecord (hex_encode (st_Channel (ss_State signed))) (encodeStateWire (ss_State signed))
    (hex_encode (ss_SigA signed)) (hex_encode (ss_SigB signed)).

(** A state the wire can carry, with its 64-bit nonce. *)
Definition keepable (signed : SignedState) : Prop := signed_encodable signed /\ 0 <= st_Nonce (ss_State signed) < 2 ^ 64.

(** [crypto/cipher]'s GCM under the vault's key, and [encoding/json]. *)
Class VaultCodec : Type := {
  gcm_seal : bytes -> bytes -> bytes;
  gcm_open : bytes -> bytes -> option bytes;
  json_marshal : vaultRecord -> bytes;
  json_unmarshal : bytes -> option vaultRecord
}.
Class VaultCodecLaws (K : VaultCodec) : Prop := {
  gcm_open_seal : forall n p, length n = 12%nat -> gcm_open n (gcm_seal n p) = Some p;
  json_inverse : forall signed, keepable signed -> json_unmarshal (json_marshal (record_of signed)) = Some (record_of signed);
  json_uint64 : forall b r, json_unmarshal b = Some r -> 0 <= sst_Nonce (vr_State r) < 2 ^ 64
}.

(** The backend's objects, and what its next writes do; a failed write may have
    left the object. *)
Inductive put_result : Type := PutOk | PutFailed | PutFailedStored.
Record Backend : Type := mkBackend {
  bk_objects : gmap string bytes;
  bk_io : list put_result
}.
(** [va_rand]: what [rand.Reader] yields; it fails when nothing is left. *)
Record Vault : Type := mkVaultState {
  va_entries : gmap bytes VaultEntry;
  va_backend : option Backend;
  va_rand : list bytes
}.
Definition set_entries (m : gmap bytes VaultEntry) (v : Vault) : Vault := mkVaultState m (va_backend v) (va_rand v).

(** ** Keys *)

Definition VaultKeyPrefix : string := "vault/".
Fixpoint zeros_text (n : nat) : string :=
  match n with O => ""%string | S n => String.String (Ascii.ascii_of_N 48) (zeros_text n) end.
(** [%020d] *)
Definition pad20 (n : Z) : string := String.append (zeros_text (20 - String.length (dec_text n))) (dec_text n).
Definition channelPrefix (id : bytes) : string :=
  String.append VaultKeyPrefix (String.append (hex_encode id) "/").
Definition recordKey (id : bytes) (nonce : Z) (digest : bytes) : string :=
  String.append (channelPrefix id) (String.append (pad20 nonce) (String.append "/" (hex_encode digest))).

Section Vault.
Context `{Crypto : ChannelCrypto} `{Codec : VaultCodec}.
Context (chainID : option Z) (contract : bytes).

(** ** Records *)

(** [seal]: the nonce, then the sealed record. *)
Definition seal (record : vaultRecord) (v : Vault) : Vault * option bytes :=
  match va_rand v with
  | [] => (v, None)
  | n :: rest => (mkVaultState (va_entries v) (va_backend v) rest, Some (n ++ gcm_seal n (json_marshal record)))
  end.
Definition open_blob (blob : bytes) : option vaultRecord :=
  if (length blob <? 12)%nat then None
  else gcm_open (take 12 blob) (drop 12 blob) ≫= json_unmarshal.

Definition key_of (signed : SignedState) : string :=
  recordKey (st_Channel (ss_State signed)) (st_Nonce (ss_State signed)) (Digest (ss_State signed) chainID contract).

Definition ErrVaultNotDurable : chan_err := ErrText "vault: verified but could not be persisted".

(** [backend.Put]. *)
Definition put (key : string) (blob : bytes) (b : Backend) : Backend * bool :=
  match bk_io b with
  | [] => (mkBackend (<[key := blob]> (bk_objects b)) [], true)
  | PutOk :: io => (mkBackend (<[key := blob]> (bk_objects b)) io, true)
  | PutFailed :: io => (mkBackend (bk_objects b) io, false)
  | PutFailedStored :: io => (mkBackend (<[key := blob]> (bk_objects b)) io, false)
  end.

Definition persist_state (v : Vault) (signed : SignedState) : Vault * outcome chan_err unit :=
  match va_backend v with
  | None => (v, Ok tt)
  | Some b =>
      let (v, blob) := seal (record_of signed) v in
      match blob with
      | None => (v, Err ErrVaultNotDurable)
      | Some blob =>
          let (b, ok) := put (key_of signed) blob b in
          (mkVaultState (va_entries v) (Some b) (va_rand v), if ok then Ok tt else Err ErrVaultNotDurable)
      end
  end.

(** ** Submission *)

(** What verification compares against: the chain, or what was read before. *)
Definition facts_for (read : bytes -> outcome chan_err OnChainChannel) (id : bytes) (held : option VaultEntry)
    : outcome chan_err OnChainChannel :=
  match held with
  | None => match read id with Ok occ => Ok occ | Err _ => Err ErrNotVerifiable | Panic => Panic end
  | Some e => Ok (mkOnChain id (ve_PartyA e) (ve_PartyB e) (ve_DepositA e) (ve_DepositB e) 0 0 0 None None None false)
  end.

Definition verify_against (occ : OnChainChannel) (signed : SignedState) : outcome chan_err unit :=
  fail? negb (Conserved (ss_State signed) (oc_DepositA occ) (oc_DepositB occ))
    with ErrText "vault: the state does not conserve the deposited value" ;;
  requireBothParties (Digest (ss_State signed) chainID contract) signed (oc_PartyA occ) (oc_PartyB occ).

(** [submitVerified] up to the write: an error comes with the entry returned beside it. *)
Definition submit_check (chain : option (bytes -> outcome chan_err OnChainChannel)) (v : Vault) (signed : SignedState)
    : Vault * outcome (VaultEntry * chan_err) OnChainChannel :=
  match chain with
  | None => (v, Err (zero_entry, ErrNotVerifiable))
  | Some read =>
      if negb (Complete signed) then (v, Err (zero_entry, ErrText "vault: a state must carry both signatures"))
      else
        let id := st_Channel (ss_State signed) in
        let held := va_entries v !! id in
        match facts_for read id held with
        | Err e => (v, Err (zero_entry, e))
        | Panic => (v, Panic)
        | Ok occ =>
            match (match held with Some e => st_Nonce (ss_State signed) <=? ve_Nonce e | None => false end), held with
            | true, Some e =>
                (set_entries (<[id := reject_one e]> (va_entries v)) v, Err (reject_one e, ErrStaleDeposit))
            | _, _ =>
                (v, match verify_against occ signed with
                    | Ok _ => Ok occ
                    | Err e => Err (zero_entry, e)
                    | Panic => Panic
                    end)
            end
        end
  end.

(** [submitVerified] under the lock, once the state is stored. *)
Definition activate (v : Vault) (occ : OnChainChannel) (signed : SignedState)
    : Vault * outcome (VaultEntry * chan_err) VaultEntry :=
  let id := st_Channel (ss_State signed) in
  let fresh := mkVaultEntry id (ve_Signed zero_entry) (oc_PartyA occ) (oc_PartyB occ) (oc_DepositA occ) (oc_DepositB occ) 0 0 in
  match va_entries v !! id with
  | Some e =>
      if st_Nonce (ss_State signed) <=? ve_Nonce e
      then (set_entries (<[id := reject_one e]> (va_entries v)) v, Err (reject_one e, ErrStaleDeposit))
      else (set_entries (<[id := accept_one signed e]> (va_entries v)) v, Ok (accept_one signed e))
  | None => (set_entries (<[id := accept_one signed fresh]> (va_entries v)) v, Ok (accept_one signed fresh))
  end.

Definition Submit (chain : option (bytes -> outcome chan_err OnChainChannel)) (v : Vault) (signed : SignedState)
    : Vault * outcome (VaultEntry * chan_err) VaultEntry :=
  let (v, r) := submit_check chain v signed in
  match r with
  | Err e => (v, Err e)
  | Panic => (v, Panic)
  | Ok occ =>
      let (v, r) := persist_state v signed in
      match r with
      | Err e => (v, Err (zero_entry, e))
      | Panic => (v, Panic)
      | Ok _ => activate v occ signed
      end
  end.

(** ** Reading *)

Definition Best (v : Vault) (id : bytes) : option SignedState := cloneSigned ∘ ve_Signed <$> va_entries v !! id.
Definition VEntry (v : Vault) (id : bytes) : option VaultEntry := va_entries v !! id.
(** [VaultStore.Get]: only what a watchtower reads is set. *)
Definition VaultStore_Get (v : Vault) (id : bytes) : option Channel :=
  e ← VEntry v id;
  Some (mkChannel id (ve_PartyA e) (ve_PartyB e) (ve_DepositA e) (ve_DepositB e) 0 chainID contract
          (ve_Signed e) ∅ ∅ None None [] None false).

(** ** Recovery *)

Definition objects (v : Vault) : gmap string bytes := default ∅ (bk_objects <$> va_backend v).
Definition loadOne (v : Vault) (key : string) : option SignedState :=
  if negb (String.prefix VaultKeyPrefix key) then None
  else
    blob ← objects v !! key;
    record ← open_blob blob;
    match decodeStateWire (vr_State record) with
    | Ok state =>
        sigA ← hex_decode (vr_SigA record);
        sigB ← hex_decode (vr_SigB record);
        if bool_decide (key = recordKey (st_Channel state) (st_Nonce state) (Digest state chainID contract))
        then Some (mkSignedState state sigA sigB) else None
    | _ => None
    end.

Definition text_le (a b : string) : Prop := String.leb a b = true.
#[local] Instance text_le_dec (a b : string) : Decision (text_le a b).
Proof. unfold text_le. apply _. Defined.
Definition sort_keys (l : list string) : list string := merge_sort text_le l.

(** The loop of [Load]; the number is of records skipped. *)
Fixpoint load_each (chain : option (bytes -> outcome chan_err OnChainChannel)) (keys : list string) (v : Vault) (skipped : Z)
    : Vault * outcome chan_err Z :=
  match keys with
  | [] => (v, Ok skipped)
  | key :: keys =>
      match loadOne v key with
      | None => load_each chain keys v (skipped + 1)
      | Some signed =>
          let (v, r) := Submit chain v signed in
          match r with
          | Ok _ | Err (_, ErrStaleDeposit) => load_each chain keys v skipped
          | Err _ => load_each chain keys v (skipped + 1)
          | Panic => (v, Panic)
          end
      end
  end.
Definition vault_keys (b : Backend) : list string :=
  filter (fun k => String.prefix VaultKeyPrefix k = true) (map fst (map_to_list (bk_objects b))).
Definition Load (chain : option (bytes -> outcome chan_err OnChainChannel)) (v : Vault)
    : Vault * outcome chan_err (Z * Z) :=
  match va_backend v with
  | None => (v, Err (ErrText "vault: no backend to load from"))
  | Some b =>
      let (v, r) := load_each chain (sort_keys (vault_keys b)) v 0 in
      match r with
      | Ok skipped => (v, Ok (Z.of_nat (size (va_entries v)), skipped))
      | Err e => (v, Err e)
      | Panic => (v, Panic)
      end
  end.
End Vault.

(** ** Keys name one state *)

Lemma dec_scan_zeros (n : nat) (s : string) : dec_scan (String.append (zeros_text n) s) 0 = dec_scan s 0.
Proof. induction n as [|n IH]; [done|]. cbn [zeros_text]. rewrite append_cons. exact IH. Qed.

Lemma dec_scan_pad20 (n : Z) : 0 <= n -> dec_scan (pad20 n) 0 = Some n.
Proof.
  intros Hn. unfold pad20. rewrite dec_scan_zeros. unfold dec_text. rewrite (proj2 (Z.ltb_ge _ _)) by done.
  by destruct (dec_nat_text_scan n Hn) as (_ & _ & _ & _ & E).
Qed.

Lemma recordKey_inj (id1 id2 : bytes) (n1 n2 : Z) (d1 d2 : bytes) :
  array_ok 32 id1 -> array_ok 32 id2 -> 0 <= n1 -> 0 <= n2 -> array_ok 32 d1 -> array_ok 32 d2 ->
  recordKey id1 n1 d1 = recordKey id2 n2 d2 -> id1 = id2 /\ n1 = n2 /\ d1 = d2.
Proof.
  intros [L1 O1] [L2 O2] Hn1 Hn2 [M1 P1] [M2 P2] H. unfold recordKey, channelPrefix in H.
  apply append_inj in H as [HI H]; [|by rewrite !length_append, !length_hex_encode, L1, L2].
  apply append_inj in HI as [_ HI]; [|done]. apply append_inj_r in HI as [HI _]; [|done].
  apply append_inj_r in H as [HN HD]; [|by rewrite !length_append, !length_hex_encode, M1, M2].
  apply append_inj in HD as [_ HD]; [|done].
  split; [by apply hex_encode_inj|]. split; [|by apply hex_encode_inj].
  apply (f_equal (fun s => dec_scan s 0)) in HN. rewrite !dec_scan_pad20 in HN by done. by injection HN.
Qed.

Section Records.
Context `{Crypto : ChannelCrypto} `{!ChannelCryptoLaws Crypto} `{Codec : VaultCodec} `{!VaultCodecLaws Codec}.
Context (chainID : option Z) (contract : bytes).

Lemma key_of_inj (s1 s2 : SignedState) :
  array_ok 32 (st_Channel (ss_State s1)) -> array_ok 32 (st_Channel (ss_State s2)) ->
  0 <= st_Nonce (ss_State s1) -> 0 <= st_Nonce (ss_State s2) -> key_of chainID contract s1 = key_of chainID contract s2 ->
  st_Channel (ss_State s1) = st_Channel (ss_State s2) /\ st_Nonce (ss_State s1) = st_Nonce (ss_State s2).
Proof.
  intros A1 A2 H1 H2 H. apply recordKey_inj in H as (-> & -> & _); [done|done..| |]; apply keccak256_array.
Qed.

(** ** Stored records *)

Lemma open_sealed_record (n : bytes) (signed : SignedState) :
  length n = 12%nat -> keepable signed -> open_blob (n ++ gcm_seal n (json_marshal (record_of signed))) = Some (record_of signed).
Proof.
  intros Hn Hk. unfold open_blob. rewrite length_app, Hn. change (Nat.ltb (12 + ?k) 12) with false. cbv iota.
  rewrite take_app_length', drop_app_length', gcm_open_seal by done. cbn. by apply json_inverse.
Qed.

Lemma prefix_append (a s : string) : String.prefix a (String.append a s) = true.
Proof.
  induction a as [|c a IH]; [by destruct s|]. rewrite append_cons. cbn. by destruct (Ascii.ascii_dec c c).
Qed.

Lemma key_prefix (id : bytes) (n : Z) (d : bytes) : String.prefix VaultKeyPrefix (recordKey id n d) = true.
Proof.
  unfold recordKey, channelPrefix. assert (forall a b c : string, String.append (String.append a b) c = String.append a (String.append b c)) as HA
    by (intros a b c; induction a as [|x a IH]; [done|by rewrite !append_cons, IH]).
  rewrite HA. apply prefix_append.
Qed.

Lemma loadOne_stored (v : Vault) (n : bytes) (signed : SignedState) :
  length n = 12%nat -> keepable signed ->
  objects v !! key_of chainID contract signed = Some (n ++ gcm_seal n (json_marshal (record_of signed))) ->
  loadOne chainID contract v (key_of chainID contract signed) = Some (norm_signed signed).
Proof.
  intros Hn Hk HO. pose proof Hk as [(He & Ha & Hb) _]. unfold loadOne. rewrite HO. unfold key_of. rewrite key_prefix.
  cbn [negb mbind option_bind]. rewrite open_sealed_record by done. cbn [mbind option_bind record_of vr_State vr_SigA vr_SigB].
  rewrite decode_encode_state, !hex_decode_encode by done. cbn [mbind option_bind].
  rewrite bool_decide_eq_true_2; [done|]. rewrite Digest_norm by done. done.
Qed.

Lemma loadOne_key (v : Vault) (k : string) (signed : SignedState) :
  loadOne chainID contract v k = Some signed ->
  k = key_of chainID contract signed /\ keepable signed /\ String.prefix VaultKeyPrefix k = true /\ is_Some (objects v !! k).
Proof.
  unfold loadOne. destruct (String.prefix VaultKeyPrefix k) eqn:EP; [|done]. cbn [negb].
  destruct (objects v !! k) as [blob|]; [|done]. cbn [mbind option_bind].
  destruct (open_blob blob) as [r|] eqn:EO; [|done]. cbn [mbind option_bind].
  assert (0 <= sst_Nonce (vr_State r) < 2 ^ 64) as HN.
  { revert EO. unfold open_blob. destruct (_ <? _)%nat; [done|]. destruct (gcm_open _ _) as [p|]; [|done].
    cbn [mbind option_bind]. apply json_uint64. }
  destruct (decodeStateWire (vr_State r)) as [st| |] eqn:ED; [|done..].
  destruct (hex_decode (vr_SigA r)) as [sa|] eqn:EA; [|done]. destruct (hex_decode (vr_SigB r)) as [sb|] eqn:EB; [|done].
  cbn [mbind option_bind]. case_bool_decide as Hk; [|done]. intros [= <-]. split; [exact Hk|]. split; [|by split].
  split; [split; [by eapply decoded_encodable|split; by eapply hex_decode_ok]|].
  revert ED. unfold decodeStateWire. intros ED. by outcome_inv.
Qed.

Lemma loadOne_objects (v v' : Vault) (k : string) :
  objects v' !! k = objects v !! k -> loadOne chainID contract v' k = loadOne chainID contract v k.
Proof. intros H. unfold loadOne. by rewrite H. Qed.

Lemma verify_against_no_panic (occ : OnChainChannel) (signed : SignedState) : verify_against chainID contract occ signed <> Panic.
Proof.
  unfold verify_against, requireBothParties, RecoverSigner. no_panic.
Qed.

Lemma vault_keys_spec (b : Backend) (k : string) :
  k ∈ sort_keys (vault_keys b) <-> String.prefix VaultKeyPrefix k = true /\ is_Some (bk_objects b !! k).
Proof.
  unfold sort_keys, vault_keys. rewrite merge_sort_Permutation, list_elem_of_filter, list_elem_of_fmap. split.
  - intros [HP ([k' x] & -> & HI)]. split; [done|]. apply elem_of_map_to_list in HI. by eexists.
  - intros [HP [x Hx]]. split; [done|]. exists (k, x). split; [done|]. by apply elem_of_map_to_list.
Qed.

Lemma vault_keys_length (b : Backend) : (length (sort_keys (vault_keys b)) <= size (bk_objects b))%nat.
Proof.
  unfold sort_keys, vault_keys. rewrite merge_sort_Permutation.
  etrans; [apply length_filter|]. by rewrite length_map, length_map_to_list.
Qed.


(** ** Collateral that moves *)

(** A vault goes on judging by the deposits it first read: once it holds a
    state of a channel, a newer state both parties signed after collateral was
    added on chain, conserving what the channel is now worth, is refused by
    [Submit] whatever the chain would answer, and the vault is left as it was. *)
Theorem vault_refuses_after_topup (read : bytes -> outcome chan_err OnChainChannel) (v : Vault) (signed : SignedState)
    (e : VaultEntry) (nowA nowB : option Z)
    (Hheld : va_entries v !! st_Channel (ss_State signed) = Some e)
    (Hsigned : Complete signed = true) (Hnewer : ve_Nonce e < st_Nonce (ss_State signed))
    (Hworth : Conserved (ss_State signed) nowA nowB = true)
    (Hmoved : orZero nowA + orZero nowB <> orZero (ve_DepositA e) + orZero (ve_DepositB e)) :
  Submit chainID contract (Some read) v signed =
    (v, Err (zero_entry, ErrText "vault: the state does not conserve the deposited value")).
Proof.
  unfold Submit, submit_check. rewrite Hsigned. cbn [negb]. rewrite Hheld. cbn [facts_for].
  destruct (Z.leb_spec (st_Nonce (ss_State signed)) (ve_Nonce e)); [lia|].
  unfold verify_against. cbn [oc_DepositA oc_DepositB].
  assert (Conserved (ss_State signed) (ve_DepositA e) (ve_DepositB e) = false) as ->; [|done].
  unfold Conserved in *. zbool. apply Z.eqb_neq. lia.
Qed.

(** ** Storage that reads and does not write *)

Lemma submit_check_empty (chain : option (bytes -> outcome chan_err OnChainChannel)) (v : Vault) (signed : SignedState) :
  va_entries v = ∅ -> (submit_check chainID contract chain v signed).1 = v.
Proof.
  intros HE. unfold submit_check. destruct chain as [read|]; [|done]. destruct (Complete signed); cbn [negb]; [|done].
  rewrite HE, lookup_empty. by destruct (facts_for _ _ _).
Qed.

Lemma persist_state_failing (v : Vault) (signed : SignedState) (objs : gmap string bytes) (n : nat) :
  va_backend v = Some (mkBackend objs (repeat PutFailed (S n))) -> exists v',
  persist_state chainID contract v signed = (v', Err ErrVaultNotDurable) /\ va_entries v' = va_entries v /\
  exists m, (n <= m)%nat /\ va_backend v' = Some (mkBackend objs (repeat PutFailed m)).
Proof.
  intros HB. unfold persist_state, seal. rewrite HB. destruct (va_rand v) as [|x rand].
  - eexists. split; [done|]. split; [done|]. exists (S n). split; [lia|done].
  - cbn. eexists. split; [done|]. split; [done|]. by exists n.
Qed.

Lemma load_each_failing (chain : option (bytes -> outcome chan_err OnChainChannel)) (objs : gmap string bytes) (keys : list string) :
  forall v n skipped, (length keys <= n)%nat -> va_entries v = ∅ -> va_backend v = Some (mkBackend objs (repeat PutFailed n)) ->
  va_entries (load_each chainID contract chain keys v skipped).1 = ∅.
Proof.
  induction keys as [|k keys IH]; intros v n skipped Hn HE HB; [done|]. cbn [load_each length] in *.
  destruct (loadOne chainID contract v k) as [signed|]; [|apply (IH _ n); [lia|done|done]].
  destruct n as [|n]; [lia|]. unfold Submit.
  pose proof (submit_check_empty chain v signed HE) as HC.
  destruct (submit_check chainID contract chain v signed) as [v1 r1]. cbn [fst] in HC. subst v1.
  destruct r1 as [occ|[e er]|]; [|destruct er; (apply (IH _ (S n)); [lia|done|done])|done].
  destruct (persist_state_failing v signed objs n HB) as (v' & -> & HE' & m & Hm & HB').
  apply (IH _ m); [lia|by rewrite HE'|done].
Qed.

(** Recovery writes before it believes: [Load] sends each record back
    through [Submit], which stores it again, so a vault restarted over storage
    that can be read but not written recovers no channel, however many good
    records it read. *)
Theorem Load_needs_writes (chain : option (bytes -> outcome chan_err OnChainChannel)) (objs : gmap string bytes)
    (rand : list bytes) (v' : Vault) r
    (Hload : Load chainID contract chain (mkVaultState ∅ (Some (mkBackend objs (repeat PutFailed (size objs)))) rand) = (v', r)) :
  va_entries v' = ∅ /\ forall n skipped, r = Ok (n, skipped) -> n = 0.
Proof.
  revert Hload. unfold Load. cbn [va_backend]. set (b := mkBackend objs _).
  pose proof (load_each_failing chain objs (sort_keys (vault_keys b)) (mkVaultState ∅ (Some b) rand) (size objs) 0
    (vault_keys_length b) eq_refl eq_refl) as HE.
  destruct (load_each _ _ _ _ _ _) as [v1 r1]. cbn [fst] in HE. destruct r1 as [sk|e|]; intros [= <- <-];
    (split; [done|]); intros n skipped H; [|done..]. injection H as <- _. by rewrite HE, map_size_empty.
Qed.
End Records.

(** ** A concrete codec *)

Definition htlc_fields (h : storedHTLC) := (sh_ID h, sh_Hash h, sh_Amount h, sh_Expiry h, sh_PayerIsA h).
Definition htlc_of_fields (f : string * string * string * Z * bool) : storedHTLC :=
  let '(i, k, a, e, p) := f in mkStoredHTLC i k a e p.
#[export] Instance storedHTLC_eq_dec : EqDecision storedHTLC.
Proof. solve_decision. Defined.
#[export] Program Instance storedHTLC_countable : Countable storedHTLC := inj_countable' htlc_fields htlc_of_fields _.
Next Obligation. by intros []. Qed.

Definition state_fields (s : storedState) :=
  (sst_Channel s, sst_Nonce s, sst_BalanceA s, sst_BalanceB s, sst_Pending s, (sst_WithdrawA s, sst_WithdrawB s, sst_Op s)).
Definition state_of_fields (f : string * Z * string * string * list storedHTLC * (string * string * Z)) : storedState :=
  let '(c, n, a, b, l, (wa, wb, o)) := f in mkStoredState c n a b l wa wb o.
#[export] Instance storedState_eq_dec : EqDecision storedState.
Proof. solve_decision. Defined.
#[export] Program Instance storedState_countable : Countable storedState := inj_countable' state_fields state_of_fields _.
Next Obligation. by intros []. Qed.

#[export] Instance vaultRecord_eq_dec : EqDecision vaultRecord.
Proof. solve_decision. Defined.
#[export] Program Instance vaultRecord_countable : Countable vaultRecord :=
  inj_countable' (fun r => (vr_Channel r, vr_State r, vr_SigA r, vr_SigB r))
    (fun f => let '(c, s, a, b) := f in mkVaultRecord c s a b) _.
Next Obligation. by intros []. Qed.

(** The plaintext with the nonce as its tag; a record as its number. *)
Definition toy_open (n c : bytes) : option bytes :=
  let k := (length c - 12)%nat in if bool_decide (drop k c = n) then Some (take k c) else None.
Definition toy_unmarshal (b : bytes) : option vaultRecord :=
  match b with
  | [Z.pos p] =>
      r ← decode p;
      if (0 <=? sst_Nonce (vr_State r)) && (sst_Nonce (vr_State r) <? 2 ^ 64) then Some r else None
  | _ => None
  end.
#[export] Instance toy_codec : VaultCodec := {
  gcm_seal n p := p ++ n;
  gcm_open := toy_open;
  json_marshal r := [Z.pos (encode r)];
  json_unmarshal := toy_unmarshal
}.
#[export] Instance toy_codec_laws : VaultCodecLaws toy_codec.
Proof.
  split.
  - intros n p Hn. change (toy_open n (p ++ n) = Some p). unfold toy_open. rewrite length_app, Hn.
    replace (length p + 12 - 12)%nat with (length p) by lia.
    by rewrite drop_app_length, take_app_length, bool_decide_eq_true_2.
  - intros signed [_ Hn]. change (toy_unmarshal [Z.pos (encode (record_of signed))] = Some (record_of signed)).
    unfold toy_unmarshal. rewrite decode_encode. cbn [mbind option_bind record_of vr_State encodeStateWire sst_Nonce].
    by rewrite (proj2 (Z.leb_le _ _)), (proj2 (Z.ltb_lt _ _)) by lia.
  - intros b r. change (toy_unmarshal b = Some r -> 0 <= sst_Nonce (vr_State r) < 2 ^ 64). unfold toy_unmarshal.
    destruct b as [|[|p|p] [|]]; try done. destruct (decode p) as [x|]; [|done]. cbn [mbind option_bind].
    destruct (_ && _) eqn:E; [|done]. intros [= <-]. apply andb_true_iff in E as [E1 E2]. apply Z.leb_le in E1. apply Z.ltb_lt in E2. done.
Qed.

(** ** Witnesses *)

Definition toy_reader (id : bytes) : outcome chan_err OnChainChannel :=
  if bool_decide (id = oc_ID toy_occ) then Ok toy_occ else Err ErrChannelNotOnChain.
Definition toy_held : VaultEntry :=
  accept_one toy_pay1 (mkVaultEntry (ch_ID toy_channel) (ve_Signed zero_entry) toy_A toy_B (Some 60) (Some 40) 0 0).
Definition toy_vault : Vault := mkVaultState {[ ch_ID toy_channel := toy_held ]} None [].
(** Party A has added 20 on chain; the parties have moved on. *)
Definition toy_richer : SignedState := toy_signed (toy_pay_state 2 60 60).

Lemma vault_refuses_after_topup_witness :
  Submit (Crypto := toy_crypto) (Some 1) toy_contract (Some toy_reader) toy_vault toy_richer =
    (toy_vault, Err (zero_entry, ErrText "vault: the state does not conserve the deposited value")).
Proof.
  apply (vault_refuses_after_topup (Crypto := toy_crypto) (Some 1) toy_contract toy_reader toy_vault toy_richer toy_held
    (Some 80) (Some 40)).
  - apply lookup_singleton_eq.
  - reflexivity.
  - reflexivity.
  - reflexivity.
  - discriminate.
Defined.

Definition toy_objects : gmap string bytes :=
  {[ key_of (Crypto := toy_crypto) (Some 1) toy_contract toy_pay1 := zeros 12 ++ gcm_seal (zeros 12) (json_marshal (record_of toy_pay1)) ]}.
Definition toy_readonly_load : Vault * outcome chan_err (Z * Z) :=
  Load (Crypto := toy_crypto) (Some 1) toy_contract (Some toy_reader)
    (mkVaultState ∅ (Some (mkBackend toy_objects (repeat PutFailed (size toy_objects)))) [zeros 12]).

Lemma Load_needs_writes_witness : va_entries toy_readonly_load.1 = ∅.
Proof.
  destruct toy_readonly_load as [v' r] eqn:E. unfold toy_readonly_load in E.
  exact (proj1 (Load_needs_writes (Crypto := toy_crypto) (Some 1) toy_contract (Some toy_reader) toy_objects [zeros 12] v' r E)).
Defined.
