(* ===== verification/ChannelCustody.v ===== *)
(** * Payment channels: custody of other people's states

    What [vault.go] and [vaultstore.go] ([ChannelVault]) promise under concurrency
    and crashes: any number of submissions interleave at the points where the
    vault's lock is released; whatever was acknowledged is covered from then on,
    and a vault rebuilt from the store covers it again. *)
From S2P Require Import Prelude.
From S2P Require Import GoBytes.
From S2P Require Import ChannelTypes.
From S2P Require Import ChannelCrypto.
From S2P Require Import ChannelState.
From S2P Require Import ChannelTransition.
From S2P Require Import ChannelWire.
From S2P Require Import ChannelCommitter.
From S2P Require Import ChannelStore.
From S2P Require Import ChannelSession.
From S2P Require Import ChannelCoordinator.
From S2P Require Import ChannelVault.

Section Custody.
Context `{Crypto : ChannelCrypto} `{!ChannelCryptoLaws Crypto} `{Codec : VaultCodec} `{!VaultCodecLaws Codec}.
Context (chainID : option Z) (contract : bytes).

(** ** Concurrent submissions

    A submission is three steps, and any number of them are under way. *)
Record Flight : Type := mkFlight {
  fl_Signed : SignedState;
  fl_Chain : OnChainChannel;
  fl_Stored : bool
}.
Record Custody : Type := mkCustody {
  cu_Vault : Vault;
  cu_Flights : gmap nat Flight;
  cu_Acked : list SignedState
}.
Inductive custody_event : Type :=
| VBegin (n : nat) (read : bytes -> outcome chan_err OnChainChannel) (signed : SignedState)
| VStore (n : nat)
| VActivate (n : nat).

Definition drop_flight (n : nat) (v : Vault) (c : Custody) : Custody := mkCustody v (delete n (cu_Flights c)) (cu_Acked c).

Definition custody_step (c : Custody) (e : custody_event) : Custody :=
  match e with
  | VBegin n read signed =>
      match cu_Flights c !! n with
      | Some _ => c
      | None =>
          let (v, r) := submit_check chainID contract (Some read) (cu_Vault c) signed in
          match r with
          | Ok occ => mkCustody v (<[n := mkFlight signed occ false]> (cu_Flights c)) (cu_Acked c)
          | _ => drop_flight n v c
          end
      end
  | VStore n =>
      match cu_Flights c !! n with
      | Some (mkFlight signed occ false) =>
          let (v, r) := persist_state chainID contract (cu_Vault c) signed in
          match r with
          | Ok _ => mkCustody v (<[n := mkFlight signed occ true]> (cu_Flights c)) (cu_Acked c)
          | _ => drop_flight n v c
          end
      | _ => c
      end
  | VActivate n =>
      match cu_Flights c !! n with
      | Some (mkFlight signed occ true) =>
          let (v, r) := activate (cu_Vault c) occ signed in
          mkCustody v (delete n (cu_Flights c)) (match r with Ok _ => signed :: cu_Acked c | _ => cu_Acked c end)
      | _ => c
      end
  end.
Definition custody_run (c : Custody) (es : list custody_event) : Custody := foldl custody_step c es.
Definition fresh_custody (backend : option Backend) (rand : list bytes) : Custody :=
  mkCustody (mkVaultState ∅ backend rand) ∅ [].

(** What the chain has ever reported. *)
Definition reading : Type := bytes -> OnChainChannel -> Prop.
Definition occ_facts (o : OnChainChannel) := (oc_PartyA o, oc_PartyB o, oc_DepositA o, oc_DepositB o).
Definition entry_facts (e : VaultEntry) := (ve_PartyA e, ve_PartyB e, ve_DepositA e, ve_DepositB e).

(** A state both parties the chain named have signed, worth what the chain held. *)
Definition vouched (reported : reading) (signed : SignedState) : Prop :=
  Complete signed = true /\
  exists occ, reported (st_Channel (ss_State signed)) occ /\ verify_against chainID contract occ signed = Ok tt.

Record entry_sound (reported : reading) (id : bytes) (e : VaultEntry) : Prop := {
  es_id : st_Channel (ss_State (ve_Signed e)) = id;
  es_vouched : vouched reported (ve_Signed e);
  es_facts : exists occ, reported id occ /\ entry_facts e = occ_facts occ
}.
Record flight_sound (reported : reading) (f : Flight) : Prop := {
  fs_vouched : vouched reported (fl_Signed f);
  fs_facts : exists occ, reported (st_Channel (ss_State (fl_Signed f))) occ /\ occ_facts (fl_Chain f) = occ_facts occ
}.
Definition event_reads (reported : reading) (e : custody_event) : Prop :=
  match e with VBegin _ read _ => forall id occ, read id = Ok occ -> reported id occ | _ => True end.

Lemma verify_against_facts (o o' : OnChainChannel) (signed : SignedState) :
  occ_facts o = occ_facts o' -> verify_against chainID contract o signed = verify_against chainID contract o' signed.
Proof. unfold occ_facts, verify_against. by intros [= -> -> -> ->]. Qed.

Lemma submit_check_sound (reported : reading) (read : bytes -> outcome chan_err OnChainChannel) (v v' : Vault)
    (signed : SignedState) r :
  (forall id occ, read id = Ok occ -> reported id occ) -> map_Forall (entry_sound reported) (va_entries v) ->
  submit_check chainID contract (Some read) v signed = (v', r) ->
  map_Forall (entry_sound reported) (va_entries v') /\ va_backend v' = va_backend v /\ va_rand v' = va_rand v /\
  (forall id, ve_Signed <$> va_entries v' !! id = ve_Signed <$> va_entries v !! id) /\
  (forall occ, r = Ok occ -> flight_sound reported (mkFlight signed occ false)).
Proof.
  intros HR HE. unfold submit_check. destruct (Complete signed) eqn:HC; cbn [negb]; [|intros [= <- <-]; by do 4 (split; [done|])].
  set (id := st_Channel (ss_State signed)). destruct (facts_for read id (va_entries v !! id)) as [occ|e|] eqn:EF;
    [|intros [= <- <-]; by do 4 (split; [done|])..].
  assert (exists o, reported id o /\ occ_facts occ = occ_facts o) as (o & Ho & Hf).
  { unfold facts_for in EF. destruct (va_entries v !! id) as [e|] eqn:Ee.
    - destruct (HE _ _ Ee) as [_ _ (o & Ho & Hf)]. exists o. split; [exact Ho|]. injection EF as <-. exact Hf.
    - destruct (read id) as [o| |] eqn:ER; try done. injection EF as <-. eauto. }
  assert (forall x, verify_against chainID contract occ signed = Ok x -> flight_sound reported (mkFlight signed occ false)) as HF.
  { intros [] HV. split; [split; [done|]; exists o; split; [exact Ho|]|by exists o]. by rewrite <- (verify_against_facts _ _ _ Hf). }
  destruct (va_entries v !! id) as [e|] eqn:Ee; [destruct (_ <=? _)|].
  - intros [= <- <-]. split.
    { apply map_Forall_insert_2; [|done]. destruct (HE _ _ Ee) as [H1 H2 H3]. by split. }
    split; [done|]. split; [done|]. split; [|done]. intros i. cbn. destruct (decide (i = id)) as [->|].
    + by rewrite lookup_insert_eq, Ee.
    + by rewrite lookup_insert_ne.
  - intros [= <- <-]. do 4 (split; [done|]). intros o' Ho'.
    destruct (verify_against chainID contract occ signed) as [u| |] eqn:EV; [|done..]. injection Ho' as <-. by apply (HF u).
  - intros [= <- <-]. do 4 (split; [done|]). intros o' Ho'.
    destruct (verify_against chainID contract occ signed) as [u| |] eqn:EV; [|done..]. injection Ho' as <-. by apply (HF u).
Qed.

(** Nothing held is lost or replaced by an older state. *)
Definition holds_newer (v v' : Vault) : Prop :=
  forall id e, va_entries v !! id = Some e -> exists e', va_entries v' !! id = Some e' /\ ve_Nonce e <= ve_Nonce e'.

Lemma holds_newer_refl (v v' : Vault) : va_entries v' = va_entries v -> holds_newer v v'.
Proof. intros E id e He. rewrite E. eauto with lia. Qed.

Lemma holds_newer_trans (v1 v2 v3 : Vault) : holds_newer v1 v2 -> holds_newer v2 v3 -> holds_newer v1 v3.
Proof. intros H1 H2 id e He. apply H1 in He as (e' & He & ?). apply H2 in He as (e'' & He & ?). exists e''. split; [done|lia]. Qed.

Lemma same_signed_newer (v v' : Vault) :
  (forall id, ve_Signed <$> va_entries v' !! id = ve_Signed <$> va_entries v !! id) -> holds_newer v v'.
Proof.
  intros H id e He. specialize (H id). rewrite He in H. destruct (va_entries v' !! id) as [e'|]; [|done].
  injection H as H. exists e'. split; [done|]. unfold ve_Nonce. rewrite H. lia.
Qed.

(** The vault holds this state, or a newer one of its channel. *)
Definition at_least (v : Vault) (signed : SignedState) : Prop :=
  exists e, va_entries v !! st_Channel (ss_State signed) = Some e /\ st_Nonce (ss_State signed) <= ve_Nonce e.

Lemma at_least_newer (v v' : Vault) (signed : SignedState) : holds_newer v v' -> at_least v signed -> at_least v' signed.
Proof. intros H (e & He & Hn). apply H in He as (e' & He & ?). exists e'. split; [done|lia]. Qed.

Lemma activate_sound (reported : reading) (v v' : Vault) (f : Flight) r :
  map_Forall (entry_sound reported) (va_entries v) -> flight_sound reported f ->
  activate v (fl_Chain f) (fl_Signed f) = (v', r) ->
  map_Forall (entry_sound reported) (va_entries v') /\ va_backend v' = va_backend v /\ va_rand v' = va_rand v /\
  holds_newer v v' /\ at_least v' (fl_Signed f).
Proof.
  intros HE [HV HF]. destruct f as [signed occ st]. cbn [fl_Signed fl_Chain] in *. unfold activate.
  set (id := st_Channel (ss_State signed)) in *.
  assert (forall e, (exists o, reported id o /\ entry_facts e = occ_facts o) -> entry_sound reported id (accept_one signed e)) as HA.
  { intros e He. assert (cloneSigned signed = signed) as EC by (by destruct signed). split; cbn; rewrite ?EC; done. }
  assert (forall e, ve_Nonce (accept_one signed e) = st_Nonce (ss_State signed)) as HN by (intros e; by destruct signed).
  destruct (va_entries v !! id) as [e|] eqn:Ee; [destruct (Z.leb_spec (st_Nonce (ss_State signed)) (ve_Nonce e))|].
  - intros [= <- <-]. destruct (HE _ _ Ee) as [E1 E2 E3]. split; [apply map_Forall_insert_2; [by split|done]|].
    split; [done|]. split; [done|]. split; [|exists (reject_one e); split; [apply lookup_insert_eq|done]].
    apply same_signed_newer. intros i. cbn. destruct (decide (i = id)) as [->|]; [by rewrite lookup_insert_eq, Ee|by rewrite lookup_insert_ne].
  - intros [= <- <-]. destruct (HE _ _ Ee) as [E1 E2 E3]. split; [apply map_Forall_insert_2; [by apply HA|done]|].
    split; [done|]. split; [done|]. split; [|eexists; split; [apply lookup_insert_eq|rewrite HN; fold id; lia]].
    intros i x Hx. cbn. destruct (decide (i = id)) as [->|]; [|rewrite lookup_insert_ne by done; eauto with lia].
    rewrite lookup_insert_eq. rewrite Ee in Hx. injection Hx as <-. eexists. split; [done|]. rewrite HN. lia.
  - intros [= <- <-]. split; [apply map_Forall_insert_2; [apply HA; exact HF|done]|].
    split; [done|]. split; [done|]. split; [|eexists; split; [apply lookup_insert_eq|rewrite HN; fold id; lia]].
    intros i x Hx. cbn. destruct (decide (i = id)) as [->|]; [congruence|rewrite lookup_insert_ne by done; eauto with lia].
Qed.

Lemma persist_entries (v v' : Vault) (signed : SignedState) r :
  persist_state chainID contract v signed = (v', r) -> va_entries v' = va_entries v /\ (is_Some (va_backend v) -> is_Some (va_backend v')).
Proof.
  unfold persist_state. destruct (va_backend v) as [b|] eqn:Eb; [|intros [= <- <-]; done].
  unfold seal. destruct (va_rand v) as [|n rand]; [intros [= <- <-]; by eauto|].
  destruct (put _ _ b) as [b' ok]. intros [= <- <-]. split; [done|by eexists].
Qed.

(** The invariant of custody. *)
Record custody_sound (reported : reading) (c : Custody) : Prop := {
  cs_entries : map_Forall (entry_sound reported) (va_entries (cu_Vault c));
  cs_flights : map_Forall (fun _ => flight_sound reported) (cu_Flights c);
  cs_acked : Forall (at_least (cu_Vault c)) (cu_Acked c)
}.

Lemma acked_newer (v v' : Vault) (l : list SignedState) : holds_newer v v' -> Forall (at_least v) l -> Forall (at_least v') l.
Proof. intros H Hl. eapply Forall_impl; [exact Hl|]. intros ss Hs. by eapply at_least_newer. Qed.

Lemma custody_step_sound (reported : reading) (c : Custody) (e : custody_event) :
  event_reads reported e -> custody_sound reported c ->
  custody_sound reported (custody_step c e) /\ holds_newer (cu_Vault c) (cu_Vault (custody_step c e)).
Proof.
  intros HR [HE HF HA]. destruct e as [n read signed|n|n]; cbn [custody_step].
  - destruct (cu_Flights c !! n) as [f|] eqn:En; [split; [done|by apply holds_newer_refl]|].
    destruct (submit_check _ _ _ _ _) as [v r] eqn:ES.
    destruct (submit_check_sound reported read _ _ _ _ HR HE ES) as (H1 & _ & _ & H2 & H3).
    pose proof (same_signed_newer _ _ H2) as HN.
    destruct r as [occ|e|]; (split; [split; cbn; [exact H1| |by eapply acked_newer]|exact HN]);
      [apply map_Forall_insert_2; [by destruct (H3 occ eq_refl)|done]|by apply map_Forall_delete..].
  - destruct (cu_Flights c !! n) as [[signed occ []]|] eqn:En; try (split; [done|by apply holds_newer_refl]).
    destruct (persist_state _ _ _ _) as [v r] eqn:EP. apply persist_entries in EP as [EE _].
    pose proof (HF _ _ En) as [F1 F2].
    destruct r as [[]|e|]; (split; [split; cbn; [by rewrite EE| |]|by apply holds_newer_refl]);
      try (eapply acked_newer; [|exact HA]; by apply holds_newer_refl);
      [apply map_Forall_insert_2; [by split|done]|by apply map_Forall_delete..].
  - destruct (cu_Flights c !! n) as [[signed occ []]|] eqn:En; try (split; [done|by apply holds_newer_refl]).
    destruct (activate _ _ _) as [v r] eqn:EA.
    destruct (activate_sound reported _ _ (mkFlight signed occ true) _ HE (HF _ _ En) EA) as (H1 & _ & _ & H2 & H3).
    split; [|exact H2]. split; cbn; [exact H1|by apply map_Forall_delete|].
    destruct r; try constructor; try done; by eapply acked_newer.
Qed.

Lemma custody_run_sound (reported : reading) (es : list custody_event) (c : Custody) :
  Forall (event_reads reported) es -> custody_sound reported c ->
  custody_sound reported (custody_run c es) /\ holds_newer (cu_Vault c) (cu_Vault (custody_run c es)).
Proof.
  intros Hes. revert c. induction Hes as [|e es He Hes IH]; intros c Hc; [split; [done|by apply holds_newer_refl]|].
  destruct (custody_step_sound reported c e He Hc) as [H1 H2]. destruct (IH _ H1) as [H3 H4].
  split; [exact H3|]. by eapply holds_newer_trans.
Qed.

Lemma fresh_custody_sound (reported : reading) (b : option Backend) (rand : list bytes) :
  custody_sound reported (fresh_custody b rand).
Proof. split; [apply map_Forall_empty|apply map_Forall_empty|constructor]. Qed.

(** ** What is acknowledged is stored *)

Lemma norm_locked (l : list HTLC) : map (fun h => orZero (h_Amount h)) (map norm_htlc l) = map (fun h => orZero (h_Amount h)) l.
Proof. rewrite map_map. by apply map_ext. Qed.

Lemma verify_against_norm (occ : OnChainChannel) (signed : SignedState) :
  signed_encodable signed ->
  verify_against chainID contract occ (norm_signed signed) = verify_against chainID contract occ signed.
Proof.
  intros (He & _ & _). unfold verify_against. cbn [norm_signed ss_State]. rewrite Digest_norm by done.
  assert (Conserved (norm_state (ss_State signed)) (oc_DepositA occ) (oc_DepositB occ) =
          Conserved (ss_State signed) (oc_DepositA occ) (oc_DepositB occ)) as ->; [|done].
  unfold Conserved, lockedTotal. cbn [norm_state st_BalanceA st_BalanceB st_Pending st_WithdrawA st_WithdrawB].
  rewrite norm_locked. done.
Qed.

Lemma vouched_norm (reported : reading) (signed : SignedState) :
  signed_encodable signed -> vouched reported signed -> vouched reported (norm_signed signed).
Proof.
  intros He [HC (occ & Ho & HV)]. split; [exact HC|]. exists occ. split; [exact Ho|]. by rewrite verify_against_norm.
Qed.

Lemma keepable_norm (signed : SignedState) : keepable signed -> keepable (norm_signed signed) /\
  key_of chainID contract (norm_signed signed) = key_of chainID contract signed.
Proof.
  intros [(He & Ha & Hb) Hn]. unfold key_of. cbn [norm_signed ss_State]. rewrite Digest_norm by done.
  split; [|done]. split; [|done]. split; [|done]. cbn. pose proof (decode_encode_state _ He) as HD. by apply decoded_encodable in HD as [? _].
Qed.

(** The backend gives back, under this state's key, a state that is as good. *)
Definition stored (reported : reading) (v : Vault) (signed : SignedState) : Prop :=
  exists back, loadOne chainID contract v (key_of chainID contract signed) = Some back /\ keepable back /\ vouched reported back /\
    st_Channel (ss_State back) = st_Channel (ss_State signed) /\ st_Nonce (ss_State back) = st_Nonce (ss_State signed).

Lemma put_spec (key : string) (blob : bytes) (b b' : Backend) (ok : bool) :
  put key blob b = (b', ok) ->
  bk_objects b' = <[key := blob]> (bk_objects b) \/ (ok = false /\ bk_objects b' = bk_objects b).
Proof. unfold put. destruct (bk_io b) as [|[] io]; intros [= <- <-]; auto. Qed.

Lemma persist_stored (reported : reading) (v v' : Vault) (signed : SignedState) r :
  is_Some (va_backend v) -> Forall (fun n => length n = 12%nat) (va_rand v) -> keepable signed -> vouched reported signed ->
  persist_state chainID contract v signed = (v', r) ->
  Forall (fun n => length n = 12%nat) (va_rand v') /\
  (forall s, keepable s -> stored reported v s -> stored reported v' s) /\ (r = Ok tt -> stored reported v' signed).
Proof.
  intros [b Hb] HR HK HV. pose proof HK as [He Hn]. unfold persist_state. rewrite Hb. unfold seal.
  destruct (va_rand v) as [|x rand] eqn:ER; [intros [= <- <-]; rewrite ER; by repeat split|].
  apply Forall_cons in HR as [Hx HR]. set (blob := x ++ gcm_seal x (json_marshal (record_of signed))).
  cbn [va_entries va_rand]. destruct (put _ _ b) as [b' ok] eqn:EP.
  intros [= <- <-]. cbn [va_rand]. split; [exact HR|].
  set (v' := mkVaultState (va_entries v) (Some b') rand).
  assert (objects v = bk_objects b) as HO by (unfold objects; by rewrite Hb).
  assert (forall s, key_of chainID contract s = key_of chainID contract signed -> keepable s ->
    objects v' !! key_of chainID contract s = Some blob -> stored reported v' s) as HS.
  { intros s Hk [Hs [Hsn _]] Hl. rewrite Hk in Hl. exists (norm_signed signed).
    split; [rewrite Hk; by apply (loadOne_stored chainID contract _ x)|]. split; [by apply keepable_norm|].
    split; [by apply vouched_norm|]. apply key_of_inj in Hk as [-> ->]; [done|apply Hs|apply He|done|lia]. }
  destruct (put_spec _ _ _ _ _ EP) as [HP|[-> HP]].
  - split; [|intros _; apply HS; [done|done|]; change (bk_objects b' !! key_of chainID contract signed = Some blob);
      rewrite HP; apply lookup_insert_eq].
    intros s Hs (back & HL & Hback). destruct (decide (key_of chainID contract s = key_of chainID contract signed)) as [Hk|Hk].
    + apply HS; [done|done|]. rewrite Hk. change (bk_objects b' !! key_of chainID contract signed = Some blob).
      rewrite HP. apply lookup_insert_eq.
    + exists back. split; [|exact Hback]. rewrite (loadOne_objects chainID contract v); [done|].
      change (bk_objects b' !! key_of chainID contract s = objects v !! key_of chainID contract s).
      rewrite HP, HO. by apply lookup_insert_ne.
  - split; [|done]. intros s Hs (back & HL & Hback). exists back. split; [|exact Hback]. rewrite (loadOne_objects chainID contract v); [done|].
    change (bk_objects b' !! key_of chainID contract s = objects v !! key_of chainID contract s). by rewrite HP, HO.
Qed.

(** Every flight past its write, and everything acknowledged, is stored. *)
Record custody_durable (reported : reading) (c : Custody) : Prop := {
  cd_backend : is_Some (va_backend (cu_Vault c));
  cd_rand : Forall (fun n => length n = 12%nat) (va_rand (cu_Vault c));
  cd_flights : map_Forall (fun _ f => keepable (fl_Signed f) /\
    (fl_Stored f = true -> stored reported (cu_Vault c) (fl_Signed f))) (cu_Flights c);
  cd_acked : Forall (fun s => keepable s /\ stored reported (cu_Vault c) s) (cu_Acked c)
}.
Definition event_keepable (e : custody_event) : Prop := match e with VBegin _ _ signed => keepable signed | _ => True end.

Lemma stored_backend (reported : reading) (v v' : Vault) (s : SignedState) :
  va_backend v' = va_backend v -> stored reported v s -> stored reported v' s.
Proof.
  intros HB (back & HL & Hback). exists back. split; [|exact Hback]. rewrite (loadOne_objects chainID contract v); [done|].
  unfold objects. by rewrite HB.
Qed.

Lemma durable_move (reported : reading) (c : Custody) (v' : Vault) (fs : gmap nat Flight) :
  custody_durable reported c -> is_Some (va_backend v') -> Forall (fun n => length n = 12%nat) (va_rand v') ->
  (forall s, keepable s -> stored reported (cu_Vault c) s -> stored reported v' s) ->
  map_Forall (fun _ f => keepable (fl_Signed f) /\ (fl_Stored f = true -> stored reported v' (fl_Signed f))) fs ->
  custody_durable reported (mkCustody v' fs (cu_Acked c)).
Proof.
  intros [HB HR HF HA] HB' HR' HS Hfs. split; cbn; [done..|].
  eapply Forall_impl; [exact HA|]. intros s [Hk Hs]. split; [done|]. by apply HS.
Qed.

Lemma durable_flights (reported : reading) (c : Custody) (v' : Vault) :
  custody_durable reported c -> (forall s, keepable s -> stored reported (cu_Vault c) s -> stored reported v' s) ->
  map_Forall (fun _ f => keepable (fl_Signed f) /\ (fl_Stored f = true -> stored reported v' (fl_Signed f))) (cu_Flights c).
Proof.
  intros [HB HR HF HA] HS. eapply map_Forall_impl; [exact HF|]. cbn. intros _ f [Hk Hs]. split; [done|].
  intros E. by apply HS, Hs.
Qed.

Lemma activate_backend (v v' : Vault) (occ : OnChainChannel) (signed : SignedState) r :
  activate v occ signed = (v', r) -> va_backend v' = va_backend v /\ va_rand v' = va_rand v.
Proof. unfold activate. destruct (_ !! _); [destruct (_ <=? _)|]; intros [= <- <-]; done. Qed.

Lemma custody_step_durable (reported : reading) (c : Custody) (e : custody_event) :
  event_reads reported e -> event_keepable e -> custody_sound reported c -> custody_durable reported c ->
  custody_durable reported (custody_step c e).
Proof.
  intros HR HK [SE SF SA] HD. pose proof HD as [DB DR DF DA]. destruct e as [n read signed|n|n]; cbn [custody_step].
  - destruct (cu_Flights c !! n) as [f|] eqn:En; [done|].
    destruct (submit_check _ _ _ _ _) as [v r] eqn:ES.
    destruct (submit_check_sound reported read _ _ _ _ HR SE ES) as (_ & H1 & H2 & _).
    assert (forall s, keepable s -> stored reported (cu_Vault c) s -> stored reported v s) as HS by (intros s _; by apply stored_backend).
    pose proof (durable_flights _ _ v HD HS) as HF.
    destruct r as [occ|e|]; (apply durable_move; [done|by rewrite H1|by rewrite H2|done|]);
      [apply map_Forall_insert_2; done|by apply map_Forall_delete..].
  - destruct (cu_Flights c !! n) as [[signed occ []]|] eqn:En; try done.
    destruct (persist_state _ _ _ _) as [v r] eqn:EP. pose proof (DF _ _ En) as [Hk _]. pose proof (SF _ _ En) as [Hv _].
    destruct (persist_stored reported _ _ _ _ DB DR Hk Hv EP) as (H1 & H2 & H3).
    apply persist_entries in EP as [_ HB]. pose proof (durable_flights _ _ v HD H2) as HF.
    destruct r as [[]|e|]; (apply durable_move; [done|by apply HB|done|done|]);
      [apply map_Forall_insert_2; [split; [done|by intros _; apply H3]|done]|by apply map_Forall_delete..].
  - destruct (cu_Flights c !! n) as [[signed occ []]|] eqn:En; try done.
    destruct (activate _ _ _) as [v r] eqn:EA. apply activate_backend in EA as [H1 H2].
    assert (forall s, keepable s -> stored reported (cu_Vault c) s -> stored reported v s) as HS by (intros s _; by apply stored_backend).
    pose proof (durable_flights _ _ v HD HS) as HF. pose proof (DF _ _ En) as [Hk Hst].
    assert (custody_durable reported (mkCustody v (delete n (cu_Flights c)) (cu_Acked c))) as HM.
    { apply durable_move; [done|by rewrite H1|by rewrite H2|done|by apply map_Forall_delete]. }
    destruct r as [x|e|]; [|exact HM..]. destruct HM as [M1 M2 M3 M4]. split; [done..|]. cbn. constructor; [|done].
    split; [done|]. apply HS; [done|]. by apply Hst.
Qed.

Lemma custody_run_durable (reported : reading) (es : list custody_event) (c : Custody) :
  Forall (fun e => event_reads reported e /\ event_keepable e) es -> custody_sound reported c -> custody_durable reported c ->
  custody_durable reported (custody_run c es).
Proof.
  intros Hes. revert c. induction Hes as [|e es [HR HK] Hes IH]; intros c HS HD; [done|].
  cbn. apply IH; [by apply custody_step_sound|by apply custody_step_durable].
Qed.

(** ** Recovery *)

(** What this chain reader now says agrees with. *)
Definition agrees (read : bytes -> outcome chan_err OnChainChannel) : reading :=
  fun id occ => exists now, read id = Ok now /\ occ_facts now = occ_facts occ.

(** The vault between two records of [Load], with storage that works. *)
Record loading (read : bytes -> outcome chan_err OnChainChannel) (n : nat) (v : Vault) : Prop := {
  lo_entries : map_Forall (entry_sound (agrees read)) (va_entries v);
  lo_backend : exists objs, va_backend v = Some (mkBackend objs []);
  lo_rand : Forall (fun x => length x = 12%nat) (va_rand v);
  lo_enough : (n <= length (va_rand v))%nat
}.

Lemma persist_loading (read : bytes -> outcome chan_err OnChainChannel) (n : nat) (v v' : Vault) (signed : SignedState) r :
  loading read (S n) v -> persist_state chainID contract v signed = (v', r) -> loading read n v' /\ r = Ok tt.
Proof.
  intros [HE (objs & HB) HR HN]. unfold persist_state. rewrite HB. unfold seal.
  destruct (va_rand v) as [|x rand] eqn:ER; cbn in HN; [lia|]. cbn. intros [= <- <-]. split; [|done].
  split; cbn; [done|by eexists|by inversion HR|lia].
Qed.

Lemma loading_weaken (read : bytes -> outcome chan_err OnChainChannel) (n m : nat) (v v' : Vault) :
  (m <= n)%nat -> va_backend v' = va_backend v -> va_rand v' = va_rand v -> map_Forall (entry_sound (agrees read)) (va_entries v') ->
  loading read n v -> loading read m v'.
Proof. intros Hm HB HR HE [_ H1 H2 H3]. split; [done|by rewrite HB|by rewrite HR|rewrite HR; lia]. Qed.

(** A vouched state passes every check [Submit] makes, unless what is held is newer. *)
Lemma submit_check_vouched (read : bytes -> outcome chan_err OnChainChannel) (v v' : Vault) (signed : SignedState) r :
  map_Forall (entry_sound (agrees read)) (va_entries v) -> vouched (agrees read) signed ->
  submit_check chainID contract (Some read) v signed = (v', r) ->
  (exists occ, r = Ok occ) \/ (exists e, r = Err (e, ErrStaleDeposit)) /\ at_least v signed.
Proof.
  intros HE [HC (occ & (now & Hnow & Hf) & HV)]. unfold submit_check. rewrite HC. cbn [negb].
  set (id := st_Channel (ss_State signed)) in *.
  assert (forall o, occ_facts o = occ_facts occ -> verify_against chainID contract o signed = Ok tt) as HV'.
  { intros o Ho. by rewrite (verify_against_facts _ _ _ Ho). }
  destruct (va_entries v !! id) as [e|] eqn:Ee; cbn [facts_for].
  - destruct (Z.leb_spec (st_Nonce (ss_State signed)) (ve_Nonce e)).
    + intros [= <- <-]. right. split; [by eexists|]. exists e. done.
    + rewrite HV'; [intros [= <- <-]; left; by eexists|]. destruct (HE _ _ Ee) as [_ _ (o & (w & Hw & Hwf) & Ho)].
      rewrite Hnow in Hw. injection Hw as <-. rewrite <- Hf, Hwf, <- Ho. done.
  - rewrite Hnow. rewrite HV' by done. intros [= <- <-]. left. by eexists.
Qed.

Lemma Submit_loading (read : bytes -> outcome chan_err OnChainChannel) (n : nat) (v v' : Vault) (signed : SignedState) r :
  (forall id, read id <> Panic) -> keepable signed -> loading read (S n) v ->
  Submit chainID contract (Some read) v signed = (v', r) ->
  loading read n v' /\ holds_newer v v' /\ r <> Panic /\
  (forall s, keepable s -> stored (agrees read) v s -> stored (agrees read) v' s) /\
  (vouched (agrees read) signed -> at_least v' signed).
Proof.
  intros HP HK HL. unfold Submit. destruct (submit_check _ _ _ _ _) as [v1 r1] eqn:ES.
  assert (forall id occ, read id = Ok occ -> agrees read id occ) as HA by (intros id occ H; by exists occ).
  pose proof HL as [HE HBk HRd HN]. pose proof (submit_check_vouched read v v1 signed r1 HE) as HV.
  destruct (submit_check_sound _ read _ _ _ _ HA HE ES) as (E1 & E2 & E3 & E4 & E5).
  pose proof (same_signed_newer _ _ E4) as HN1.
  assert (loading read (S n) v1) as HL1 by (by apply (loading_weaken read (S n) (S n) v)).
  assert (forall s, keepable s -> stored (agrees read) v s -> stored (agrees read) v1 s) as HS1 by (intros s _; by apply stored_backend).
  destruct r1 as [occ|[e er]|].
  - destruct (persist_state _ _ v1 signed) as [v2 r2] eqn:EP.
    assert (vouched (agrees read) signed) as HVs by (by destruct (E5 occ eq_refl)).
    destruct HL1 as [L1 L2 L3 L4].
    destruct (persist_stored (agrees read) _ _ _ _ (ltac:(destruct L2 as [? ->]; by eexists)) L3 HK HVs EP) as (_ & HS2 & _).
    pose proof (proj1 (persist_entries _ _ _ _ EP)) as EE.
    destruct (persist_loading read n _ _ _ _ (Build_loading _ _ _ L1 L2 L3 L4) EP) as [HL2 ->].
    intros HAct. destruct (activate_backend _ _ _ _ _ HAct) as [B1 B2].
    destruct (activate_sound (agrees read) v2 v' (mkFlight signed occ true) r ltac:(by rewrite EE) ltac:(destruct (E5 occ eq_refl); by split) HAct)
      as (A1 & _ & _ & A2 & A3).
    split; [by apply (loading_weaken read n n v2)|]. split; [eapply holds_newer_trans; [exact HN1|]; eapply holds_newer_trans; [|exact A2]; by apply holds_newer_refl|].
    split; [revert HAct; unfold activate; destruct (_ !! _); [destruct (_ <=? _)|]; by intros [= <- <-]|].
    split; [|done]. intros s Hs Hst. apply (stored_backend _ v2); [done|]. apply HS2; [done|]. by apply HS1.
  - intros [= <- <-]. split; [by apply (loading_weaken read (S n) n v1); [lia|..]|]. split; [done|]. split; [done|]. split; [done|].
    intros Hv. destruct (HV Hv ES) as [(o & ?)|[_ Hl]]; [done|]. by eapply at_least_newer.
  - exfalso. revert ES. unfold submit_check. destruct (negb (Complete signed)); [done|].
    destruct (facts_for _ _ _) as [occ|e|] eqn:EF; [|done|].
    + assert (forall o, (match verify_against chainID contract o signed with Ok _ => Ok occ | Err e => Err (zero_entry, e) | Panic => Panic end) <> Panic) as HX.
      { intros o. pose proof (verify_against_no_panic chainID contract o signed). by destruct (verify_against _ _ o signed). }
      destruct (va_entries v !! _); [destruct (_ <=? _)|]; intros [= <- H]; by eapply HX.
    + revert EF. unfold facts_for. destruct (va_entries v !! _); [done|]. specialize (HP (st_Channel (ss_State signed))). by destruct (read _).
Qed.

Lemma load_each_recovers (read : bytes -> outcome chan_err OnChainChannel) (keys : list string) (v v' : Vault) (skipped : Z) r :
  (forall id, read id <> Panic) -> loading read (length keys) v ->
  load_each chainID contract (Some read) keys v skipped = (v', r) ->
  (exists m, r = Ok m) /\ map_Forall (entry_sound (agrees read)) (va_entries v') /\ holds_newer v v' /\
  forall s, keepable s -> stored (agrees read) v s -> key_of chainID contract s ∈ keys -> at_least v' s.
Proof.
  intros HP. revert v skipped. induction keys as [|k keys IH]; intros v skipped HL; cbn [load_each].
  { intros [= <- <-]. split; [by eexists|]. split; [by destruct HL|]. split; [by apply holds_newer_refl|]. intros s _ _ HI. by apply not_elem_of_nil in HI. }
  cbn [length] in HL. destruct (loadOne chainID contract v k) as [signed|] eqn:EL.
  2:{ intros HE. assert (loading read (length keys) v) as HL' by (apply (loading_weaken read (S (length keys)) _ v); [lia|done|done|by destruct HL|done]).
    destruct (IH _ _ HL' HE) as (H1 & H2 & H3 & H4). do 3 (split; [done|]).
    intros s Hs Hst HI. apply elem_of_cons in HI as [HI|HI]; [|by apply H4].
    destruct Hst as (back & HB & _). rewrite HI in HB. congruence. }
  destruct (Submit chainID contract (Some read) v signed) as [v1 r1] eqn:ES.
  pose proof (loadOne_key chainID contract _ _ _ EL) as (Hkey & Hkeep & _).
  destruct (Submit_loading _ _ _ _ _ _ HP Hkeep HL ES) as (L1 & L2 & L3 & L4 & L5).
  assert (forall sk, load_each chainID contract (Some read) keys v1 sk = (v', r) ->
    (exists m, r = Ok m) /\ map_Forall (entry_sound (agrees read)) (va_entries v') /\ holds_newer v v' /\
    forall s, keepable s -> stored (agrees read) v s -> key_of chainID contract s ∈ k :: keys -> at_least v' s) as HGo.
  { intros sk HE. destruct (IH _ _ L1 HE) as (H1 & H2 & H3 & H4). split; [done|]. split; [done|].
    split; [by eapply holds_newer_trans|]. intros s Hs Hst HI. apply elem_of_cons in HI as [HI|HI]; [|apply H4; auto].
    destruct Hst as (back & HB & _ & HV & HC & HN). rewrite HI, EL in HB. injection HB as <-.
    apply (at_least_newer v1); [done|]. destruct (L5 HV) as (e & He & Hn). exists e. by rewrite <- HC, <- HN. }
  destruct r1 as [x|[x e]|]; [apply HGo| |done]. destruct e; apply HGo.
Qed.

(** The vault after a crash: what the backend holds, and nothing else. *)
Definition restarted (objs : gmap string bytes) (rand : list bytes) : Vault :=
  mkVaultState ∅ (Some (mkBackend objs [])) rand.

Lemma Load_recovers (read : bytes -> outcome chan_err OnChainChannel) (v : Vault) (rand : list bytes) :
  (forall id, read id <> Panic) -> Forall (fun n => length n = 12%nat) rand -> (size (objects v) <= length rand)%nat ->
  exists v' n skipped, Load chainID contract (Some read) (restarted (objects v) rand) = (v', Ok (n, skipped)) /\
    map_Forall (entry_sound (agrees read)) (va_entries v') /\
    forall s, keepable s -> stored (agrees read) v s -> at_least v' s.
Proof.
  intros HP HR HS. unfold Load. cbn [restarted va_backend]. set (b := mkBackend (objects v) []).
  destruct (load_each _ _ _ _ _ _) as [v' r] eqn:EL. apply load_each_recovers in EL; [|done|].
  2:{ split; [apply map_Forall_empty|by eexists|done|]. cbn. pose proof (vault_keys_length b). cbn in *. lia. }
  destruct EL as ([m ->] & HE & _ & HA). eexists _, _, _. split; [done|]. split; [done|].
  intros s Hs (back & HB & Hback). apply HA; [done| |].
  - exists back. split; [|done]. by rewrite (loadOne_objects chainID contract v).
  - apply vault_keys_spec. apply loadOne_key in HB. cbn. by destruct HB as (_ & _ & ? & ?).
Qed.

(** ** What custody promises *)

(** However submissions interleave, a vault only ever holds, for each
    channel, a state of that channel both parties named by the chain have signed
    and that conserves what the chain reported; every state it acknowledged is
    covered by one at least as new; and going on never loses a channel nor takes
    one back to an older state. *)
Theorem custody_only_moves_forward (reported : reading) (backend : option Backend) (rand : list bytes)
    (es later : list custody_event) (Hes : Forall (event_reads reported) (es ++ later)) :
  let c := custody_run (fresh_custody backend rand) es in
  (forall id e, va_entries (cu_Vault c) !! id = Some e -> st_Channel (ss_State (ve_Signed e)) = id /\ vouched reported (ve_Signed e)) /\
  Forall (at_least (cu_Vault c)) (cu_Acked c) /\
  holds_newer (cu_Vault c) (cu_Vault (custody_run c later)).
Proof.
  intros c. apply Forall_app in Hes as [H1 H2].
  destruct (custody_run_sound reported es _ H1 (fresh_custody_sound reported backend rand)) as [HS _].
  destruct (custody_run_sound reported later _ H2 HS) as [_ HN]. pose proof HS as [SE _ SA].
  split; [|by split]. intros id e He. by destruct (SE _ _ He).
Qed.

End Custody.

(** ** Witnesses *)

(** Two submissions of one channel, the newer one overtaking. *)
Definition toy_custody_events : list custody_event :=
  [VBegin 0 toy_reader toy_pay1; VBegin 1 toy_reader toy_pay4; VStore 1; VStore 0; VActivate 1; VActivate 0].
Definition toy_nonces : list bytes := repeat (zeros 12) 4.
Definition toy_backend : Backend := mkBackend ∅ [].
Definition toy_custody : Custody :=
  custody_run (Crypto := toy_crypto) (Some 1) toy_contract (fresh_custody (Some toy_backend) toy_nonces) toy_custody_events.

Lemma toy_pay4_keepable : keepable toy_pay4.
Proof.
  destruct toy_arrays as (? & _). split; [|split; [discriminate|reflexivity]]. split.
  { split; [assumption|exact (Forall_nil_2 _)|exact (SSorted_nil _)|discriminate|discriminate|reflexivity]. }
  split.
  - assert (array_ok 65 (ss_SigA toy_pay4)) as [_ HB] by (apply array_okb_spec; vm_compute; reflexivity). exact HB.
  - assert (array_ok 65 (ss_SigB toy_pay4)) as [_ HB] by (apply array_okb_spec; vm_compute; reflexivity). exact HB.
Qed.

Lemma toy_events_fit : Forall (fun e => event_reads (agrees toy_reader) e /\ event_keepable e) toy_custody_events.
Proof.
  assert (forall id occ, toy_reader id = Ok occ -> agrees toy_reader id occ) as HA by (intros id occ H; exists occ; auto).
  constructor; [split; [exact HA|split; [exact toy_pay1_encodable|split; [discriminate|reflexivity]]]|].
  constructor; [split; [exact HA|exact toy_pay4_keepable]|].
  do 4 (constructor; [split; exact I|]). constructor.
Qed.

Lemma toy_custody_acks : cu_Acked toy_custody = [toy_pay4].
Proof. vm_compute. reflexivity. Qed.

Lemma custody_only_moves_forward_witness :
  Forall (at_least (cu_Vault toy_custody)) [toy_pay4].
Proof.
  rewrite <- toy_custody_acks.
  refine (proj1 (proj2 (custody_only_moves_forward (Crypto := toy_crypto) (Codec := toy_codec) (Some 1) toy_contract
    (agrees toy_reader) (Some toy_backend) toy_nonces toy_custody_events [] _))).
  rewrite app_nil_r. eapply Forall_impl; [exact toy_events_fit|]. intros e [H _]. exact H.
Defined.

