(* ===== verification/ChannelWatch.v ===== *)
(** * Payment channels: the watchtower and its budget

    [watchtower.go] and [challengebudget.go]: one pass over one channel, a sweep
    over all of them, the loop that sweeps, and the arithmetic that fixes the
    challenge period and the margin.  The watchtower reads its states through the
    class [ChannelSource], which a node's own store and a vault both implement. *)
From S2P Require Import Prelude.
From S2P Require Import GoBytes.
From S2P Require Import RecordUpdate.
From S2P Require Import ChannelTypes.
From S2P Require Import ChannelCrypto.
From S2P Require Import ChannelState.
From S2P Require Import ChannelTransition.
From S2P Require Import ChannelWire.
From S2P Require Import ChannelStore.
From S2P Require Import ChannelCoordinator.
From S2P Require Import ChannelVault.
From S2P Require Import ChannelCustody.

(** ** The budget: durations are 64-bit nanoseconds *)

Definition Second : Z := 1000000000.
Definition Minute : Z := 60 * Second.
Definition Hour : Z := 60 * Minute.

Record ChallengeBudget : Type := mkBudget {
  b_Detection : Z;
  b_Outage : Z;
  b_Local : Z;
  b_Inclusion : Z;
  b_Repricing : Z;
  b_RPCFailure : Z;
  b_Reorg : Z;
  b_Safety : Z
}.

Definition Terms (b : ChallengeBudget) : list (string * Z) :=
  [("detection", b_Detection b); ("watchtower outage", b_Outage b); ("local work", b_Local b);
   ("inclusion", b_Inclusion b); ("repricing", b_Repricing b); ("rpc failure", b_RPCFailure b);
   ("reorg depth", b_Reorg b); ("safety", b_Safety b)]%string.
Definition Total (b : ChallengeBudget) : Z := foldl (fun sum t => wrap_i64 (sum + snd t)) 0 (Terms b).
Definition Recommend (b : ChallengeBudget) : Z :=
  let total := Total b in
  if total <=? 0 then 0
  else
    let hours := Z.quot total Hour in
    let hours := if negb (Z.rem total Hour =? 0) then wrap_i64 (hours + 1) else hours in
    wrap_i64 (hours * Hour).
Definition MainnetChallengeBudget : ChallengeBudget :=
  mkBudget (30 * Minute) (4 * Hour) (1 * Minute) (30 * Minute) (30 * Minute) (30 * Minute) (30 * Minute) (1 * Hour).
(** In seconds. *)
Definition RecommendedChallengePeriod : Z := Z.quot (Recommend MainnetChallengeBudget) Second.
Definition WatchMarginFor (period : Z) : Z :=
  let b := MainnetChallengeBudget in
  let remaining := b_Local b + b_Inclusion b + b_Repricing b + b_RPCFailure b + b_Reorg b in
  if period <=? remaining then period else remaining.
Definition DefaultWatchMargin : Z := WatchMarginFor (Recommend MainnetChallengeBudget).
Definition DefaultWatchInterval : Z := 30 * Second.

(** ** Data *)

Inductive WatchOutcome : Type := WatchQuiet | WatchHonest | WatchChallenged | WatchFailed | WatchSettled.
Inductive watch_err : Type :=
| WErrChain (e : chan_err) | WErrTooLate | WErrMargin | WErrNoSender | WErrSubmit (e : chan_err).

Record Watch : Type := mkWatch {
  wa_Channel : bytes;
  wa_Outcome : WatchOutcome;
  wa_OnChainNonce : Z;
  wa_BestNonce : Z;
  wa_Deadline : Z;
  wa_Remaining : Z;
  wa_TxHash : string;
  wa_Err : option watch_err
}.

Class ChannelSource (S : Type) : Type := {
  source_IDs : S -> list bytes;
  source_Get : S -> bytes -> option Channel
}.
(** [Challenge]: the answer of the broadcast. *)
Abbreviation DisputeSender := (SignedState -> outcome chan_err string).
Abbreviation ChainRead := (bytes -> outcome chan_err OnChainChannel).

Record Watchtower : Type := mkWatchtower {
  w_Sender : option DisputeSender;
  w_Interval : Z;
  w_Margin : Z
}.
Definition interval (w : Watchtower) : Z := if 0 <? w_Interval w then w_Interval w else DefaultWatchInterval.
Definition margin (w : Watchtower) : Z := if 0 <? w_Margin w then w_Margin w else DefaultWatchMargin.

(** What a watchtower has done: the challenges sent and the metrics counted. *)
Inductive watch_metric : Type := WatchtowerObservation | WatchtowerRecovery.
Record Done : Type := mkDone {
  d_sent : list SignedState;
  d_metrics : list watch_metric
}.
Definition nothing_done : Done := mkDone [] [].
Definition count (m : watch_metric) (d : Done) : Done := mkDone (d_sent d) (d_metrics d ++ [m]).
Definition send (s : SignedState) (d : Done) : Done := mkDone (d_sent d ++ [s]) (d_metrics d).

Section Watch.
Context {Src : Type} `{Source : ChannelSource Src}.

(** ** One pass over one channel *)

Definition Watchtower_Check (w : Watchtower) (store : Src) (read : ChainRead) (now : Z) (id : bytes) (d : Done) : Done * outcome chan_err Watch :=
  let result o n best ends rem tx e := Ok (mkWatch id o n best ends rem tx e) in
  match source_Get store id with
  | None => (d, result WatchQuiet 0 0 0 0 EmptyString None)
  | Some ch =>
      let latest := ch_Latest ch in
      let best := if Complete latest then st_Nonce (ss_State latest) else 0 in
      match read id with
      | Err e => (d, result WatchFailed 0 best 0 0 EmptyString (Some (WErrChain e)))
      | Panic => (d, Panic)
      | Ok onChain =>
          let n := oc_Nonce onChain in
          let ends := oc_ChallengeEnds onChain in
          if negb (oc_Status onChain =? StatusClosing) then
            if oc_Status onChain =? StatusSettled then (d, result WatchSettled n best ends 0 EmptyString None)
            else (d, result WatchQuiet n best ends 0 EmptyString None)
          else
            let rem := wrap_i64 (ends - now) in
            if negb (Complete latest) || (st_Nonce (ss_State latest) <=? n) then (d, result WatchHonest n best ends rem EmptyString None)
            else if rem <=? 0 then (d, result WatchFailed n best ends rem EmptyString (Some WErrTooLate))
            else if wrap_i64 (rem * Second) <? margin w then (d, result WatchFailed n best ends rem EmptyString (Some WErrMargin))
            else
              match w_Sender w with
              | None => (d, result WatchFailed n best ends rem EmptyString (Some WErrNoSender))
              | Some challenge =>
                  match challenge latest with
                  | Err e => (send latest d, result WatchFailed n best ends rem EmptyString (Some (WErrSubmit e)))
                  | Panic => (send latest d, Panic)
                  | Ok tx => (count WatchtowerRecovery (send latest d), result WatchChallenged n best ends rem tx None)
                  end
              end
      end
  end.

(** ** Sweeps *)

Fixpoint sweep_ids (w : Watchtower) (store : Src) (read : ChainRead) (now : Z) (ids : list bytes) (d : Done)
    : Done * outcome chan_err (list Watch) :=
  match ids with
  | [] => (d, Ok [])
  | id :: ids =>
      let (d, r) := Watchtower_Check w store read now id (count WatchtowerObservation d) in
      match r with
      | Ok result =>
          let (d, r) := sweep_ids w store read now ids d in
          (d, let? out := r in Ok (result :: out))
      | Err e => (d, Err e)
      | Panic => (d, Panic)
      end
  end.
Definition Sweep (w : Watchtower) (store : option Src) (read : ChainRead) (now : Z) (d : Done) : Done * outcome chan_err (list Watch) :=
  match store with
  | None => (d, Ok [])
  | Some store => sweep_ids w store read now (source_IDs store) d
  end.

(** What a sweep finds when it looks: the states held, the chain and the clock. *)
Record tick : Type := mkTick {
  tk_store : option Src;
  tk_read : ChainRead;
  tk_now : Z;
  tk_stopped : bool
}.
(** [Run] until the ticks end, which is when the context does: every pass it made. *)
Fixpoint run_ticks (w : Watchtower) (ticks : list tick) (d : Done) : Done * outcome chan_err (list (list Watch)) :=
  match ticks with
  | [] => (d, Ok [])
  | t :: ticks =>
      if tk_stopped t then (d, Ok [])
      else
        let (d, r) := Sweep w (tk_store t) (tk_read t) (tk_now t) d in
        match r with
        | Ok out => let (d, r) := run_ticks w ticks d in (d, let? outs := r in Ok (out :: outs))
        | Err e => (d, Err e)
        | Panic => (d, Panic)
        end
  end.
Definition Run (w : Watchtower) (first : tick) (ticks : list tick) (d : Done) : Done * outcome chan_err (list (list Watch)) :=
  run_ticks w (mkTick (tk_store first) (tk_read first) (tk_now first) false :: ticks) d.
End Watch.

(** [VaultStore]; its [IDs] come in no particular order. *)
Definition Vault_IDs (v : Vault) : list bytes := map fst (map_to_list (va_entries v)).
Definition vault_source (chainID : option Z) (contract : bytes) : ChannelSource Vault := {|
  source_IDs := Vault_IDs;
  source_Get := VaultStore_Get chainID contract
|}.
(** A node's own [Store]. *)
#[export] Instance store_source : ChannelSource Store := {
  source_IDs := IDs;
  source_Get := Get
}.

(** ** The arithmetic of the budget *)

Lemma default_margin : DefaultWatchMargin = 7260 * Second.
Proof. reflexivity. Qed.
Lemma recommended_period : RecommendedChallengePeriod = 28800.
Proof. reflexivity. Qed.

Lemma i64_small (z : Z) : - 2 ^ 63 <= z < 2 ^ 63 -> wrap_i64 z = z.
Proof. intros H. apply wrap_s_small; [done|]. exact H. Qed.

Definition budget_sum (b : ChallengeBudget) : Z :=
  b_Detection b + b_Outage b + b_Local b + b_Inclusion b + b_Repricing b + b_RPCFailure b + b_Reorg b + b_Safety b.

Lemma foldl_i64 (l : list (string * Z)) (acc : Z) :
  Forall (fun t => 0 <= snd t) l -> 0 <= acc -> acc + foldr (fun t s => snd t + s) 0 l < 2 ^ 63 ->
  foldl (fun sum t => wrap_i64 (sum + snd t)) acc l = acc + foldr (fun t s => snd t + s) 0 l.
Proof.
  intros Hl. revert acc. induction Hl as [|t l Ht Hl IH]; intros acc Ha Hs; cbn [foldl foldr] in *; [lia|].
  assert (0 <= foldr (fun t s => snd t + s) 0 l) by (clear -Hl; induction Hl; cbn [foldr]; lia).
  rewrite i64_small by lia. rewrite IH by lia. lia.
Qed.

Lemma Total_sum (b : ChallengeBudget) :
  Forall (fun t => 0 <= snd t) (Terms b) -> budget_sum b < 2 ^ 63 -> Total b = budget_sum b.
Proof.
  intros H Hs. unfold Total. assert (foldr (fun t s => snd t + s) 0 (Terms b) = budget_sum b) as E.
  { unfold Terms, budget_sum. cbn [foldr snd]. lia. }
  rewrite foldl_i64 by (done || lia). rewrite E. lia.
Qed.

(** The recommended challenge period is the least whole number of hours that
    is no shorter than the sum of every delay of the budget, for any budget whose
    terms are durations and whose sum leaves room for the rounding. *)
Theorem Recommend_covers_budget (b : ChallengeBudget) (Hterms : Forall (fun t => 0 <= snd t) (Terms b))
    (Hroom : budget_sum b < 2 ^ 63 - Hour) :
  exists hours, Recommend b = hours * Hour /\ budget_sum b <= Recommend b < budget_sum b + Hour.
Proof.
  unfold Recommend. rewrite Total_sum by (unfold Hour, Minute, Second in *; done || lia).
  assert (0 <= budget_sum b) as H0.
  { unfold Terms in Hterms. repeat (apply Forall_cons in Hterms as [? Hterms]). cbn [snd] in *. unfold budget_sum. lia. }
  set (t := budget_sum b) in *. assert (Hour = 3600000000000) as EH by reflexivity.
  destruct (Z.leb_spec t 0); [exists 0; lia|].
  rewrite Z.quot_div_nonneg, Z.rem_mod_nonneg by lia. pose proof (Z.div_mod t Hour ltac:(lia)) as HD.
  pose proof (Z.mod_pos_bound t Hour ltac:(lia)) as HM. pose proof (Z.div_pos t Hour ltac:(lia) ltac:(lia)) as HQ.
  set (q := t / Hour) in *. set (m := t mod Hour) in *.
  destruct (Z.eqb_spec m 0); cbn [negb].
  - rewrite i64_small by lia. exists q. lia.
  - rewrite (i64_small (q + 1)) by lia. rewrite i64_small by lia. exists (q + 1). lia.
Qed.

(** ** What a pass does *)

Section Passes.
Context {Src : Type} `{Source : ChannelSource Src}.

(** A close that the state held beats, with the runway left. *)
Record beaten (w : Watchtower) (ch : Channel) (occ : OnChainChannel) (now : Z) : Prop := {
  be_complete : Complete (ch_Latest ch) = true;
  be_closing : oc_Status occ = StatusClosing;
  be_newer : oc_Nonce occ < st_Nonce (ss_State (ch_Latest ch));
  be_open : 0 < wrap_i64 (oc_ChallengeEnds occ - now);
  be_runway : margin w <= wrap_i64 (wrap_i64 (oc_ChallengeEnds occ - now) * Second)
}.

Lemma Check_beaten (w : Watchtower) (store : Src) (read : ChainRead) (now : Z) (id : bytes) (d : Done) (ch : Channel)
    (occ : OnChainChannel) (challenge : DisputeSender) :
  source_Get store id = Some ch -> read id = Ok occ -> beaten w ch occ now -> w_Sender w = Some challenge ->
  challenge (ch_Latest ch) <> Panic ->
  exists d' wt, Watchtower_Check w store read now id d = (d', Ok wt) /\ d_sent d' = d_sent d ++ [ch_Latest ch] /\
    wa_Channel wt = id /\ wa_Outcome wt = match challenge (ch_Latest ch) with Ok _ => WatchChallenged | _ => WatchFailed end.
Proof.
  intros HG HR [H1 H2 H3 H4 H5] HS HT. unfold Watchtower_Check. rewrite HG, HR, H1, H2, HS. cbn [negb orb].
  rewrite Z.eqb_refl. cbn [negb]. rewrite (proj2 (Z.leb_gt _ _)), (proj2 (Z.leb_gt _ _)), (proj2 (Z.ltb_ge _ _)) by lia.
  destruct (challenge (ch_Latest ch)); [by eexists _, _..|done].
Qed.

(** A watchtower has evidence and no authority: a pass over a channel sends
    at most one challenge, and only the state held for that channel, signed by
    both parties and strictly newer than the one the chain is closing on, while
    the window is open with at least the margin left; it reports success only
    when it sent one and the sender took it. *)
Theorem challenge_only_what_beats (w : Watchtower) (store : Src) (read : ChainRead) (now : Z) (id : bytes) (d d' : Done) r
    (Hcheck : Watchtower_Check w store read now id d = (d', r)) :
  (d_sent d' = d_sent d /\ forall wt, r = Ok wt -> wa_Outcome wt <> WatchChallenged) \/
  exists ch occ challenge, source_Get store id = Some ch /\ read id = Ok occ /\ beaten w ch occ now /\
    w_Sender w = Some challenge /\ d_sent d' = d_sent d ++ [ch_Latest ch] /\
    forall wt, r = Ok wt -> wa_Outcome wt = WatchChallenged <-> exists tx, challenge (ch_Latest ch) = Ok tx.
Proof.
  revert Hcheck. unfold Watchtower_Check.
  destruct (source_Get store id) as [ch|] eqn:EG; [|intros [= <- <-]; left; split; [done|by intros wt [= <-]]].
  destruct (read id) as [occ|e|] eqn:ER; [|intros [= <- <-]; left; split; [done|by intros wt [= <-]]|intros [= <- <-]; by left].
  destruct (Z.eqb_spec (oc_Status occ) StatusClosing) as [HC|HC]; cbn [negb];
    [|destruct (_ =? _); intros [= <- <-]; left; split; [done|by intros wt [= <-]|done|by intros wt [= <-]]].
  destruct (Complete (ch_Latest ch)) eqn:HK; cbn [negb orb]; [|intros [= <- <-]; left; split; [done|by intros wt [= <-]]].
  destruct (Z.leb_spec (st_Nonce (ss_State (ch_Latest ch))) (oc_Nonce occ)); [intros [= <- <-]; left; split; [done|by intros wt [= <-]]|].
  destruct (Z.leb_spec (wrap_i64 (oc_ChallengeEnds occ - now)) 0); [intros [= <- <-]; left; split; [done|by intros wt [= <-]]|].
  destruct (Z.ltb_spec (wrap_i64 (wrap_i64 (oc_ChallengeEnds occ - now) * Second)) (margin w));
    [intros [= <- <-]; left; split; [done|by intros wt [= <-]]|].
  destruct (w_Sender w) as [challenge|] eqn:ES; [|intros [= <- <-]; left; split; [done|by intros wt [= <-]]].
  intros H'. right. exists ch, occ, challenge. split; [done|]. split; [done|]. split; [by split|]. split; [done|].
  destruct (challenge (ch_Latest ch)) as [tx|e|]; injection H' as <- <-; (split; [done|]); intros wt HW; [|..|done];
    injection HW as <-; split; intros HX; [by eexists|done|done|by destruct HX].
Qed.

(** ** What a sweep does *)

Lemma Check_no_panic (w : Watchtower) (store : Src) (read : ChainRead) (now : Z) (id : bytes) (d d' : Done) r :
  read id <> Panic -> (forall f s, w_Sender w = Some f -> f s <> Panic) ->
  Watchtower_Check w store read now id d = (d', r) -> exists wt, r = Ok wt /\ d_sent d `prefix_of` d_sent d'.
Proof.
  intros HR HF. unfold Watchtower_Check. destruct (source_Get _ _) as [ch|]; [|intros [= <- <-]; by eexists].
  destruct (read id); [|intros [= <- <-]; by eexists|done].
  destruct (negb (_ =? _)); [destruct (_ =? _); intros [= <- <-]; by eexists|].
  repeat (match goal with |- context [if ?b then _ else _] => destruct b; [intros [= <- <-]; by eexists|] end).
  destruct (w_Sender w) as [f|]; [|intros [= <- <-]; by eexists]. specialize (HF f (ch_Latest ch) eq_refl).
  destruct (f (ch_Latest ch)); [| |done]; intros [= <- <-]; eexists; (split; [done|]); cbn; by apply prefix_app_r.
Qed.

Lemma sweep_ids_checks (w : Watchtower) (store : Src) (read : ChainRead) (now : Z) (ids : list bytes) :
  (forall id, read id <> Panic) -> (forall f s, w_Sender w = Some f -> f s <> Panic) ->
  forall d d' r, sweep_ids w store read now ids d = (d', r) ->
  exists out, r = Ok out /\ d_sent d `prefix_of` d_sent d' /\
    forall id, id ∈ ids -> exists d1 d2 wt, Watchtower_Check w store read now id d1 = (d2, Ok wt) /\ wt ∈ out /\
      d_sent d2 `prefix_of` d_sent d'.
Proof.
  intros HR HF. induction ids as [|i ids IH]; intros d d' r; cbn [sweep_ids].
  { intros [= <- <-]. exists []. split; [done|]. split; [done|]. intros id HI. by apply not_elem_of_nil in HI. }
  destruct (Watchtower_Check w store read now i _) as [d1 r1] eqn:EC.
  destruct (Check_no_panic _ _ _ _ _ _ _ _ (HR i) HF EC) as (wt & -> & HP).
  destruct (sweep_ids w store read now ids d1) as [d2 r2] eqn:ES. destruct (IH _ _ _ ES) as (out & -> & HP2 & HC).
  cbn. intros [= <- <-]. exists (wt :: out). split; [done|]. split; [by etrans|]. intros id HI.
  apply elem_of_cons in HI as [->|HI].
  - eexists _, d1, wt. split; [exact EC|]. split; [by apply elem_of_cons; left|done].
  - destruct (HC id HI) as (e1 & e2 & x & H1 & H2 & H3). exists e1, e2, x. split; [done|]. split; [by apply elem_of_cons; right|done].
Qed.

Lemma Sweep_checks (w : Watchtower) (store : option Src) (read : ChainRead) (now : Z) (d d' : Done) r :
  (forall id, read id <> Panic) -> (forall f s, w_Sender w = Some f -> f s <> Panic) ->
  Sweep w store read now d = (d', r) ->
  exists out, r = Ok out /\ d_sent d `prefix_of` d_sent d' /\
    forall src id, store = Some src -> id ∈ source_IDs src -> exists d1 d2 wt,
      Watchtower_Check w src read now id d1 = (d2, Ok wt) /\ wt ∈ out /\ d_sent d2 `prefix_of` d_sent d'.
Proof.
  intros HR HF. destruct store as [src|]; cbn [Sweep]; [|intros [= <- <-]; by exists []].
  intros HS. destruct (sweep_ids_checks _ _ _ _ _ HR HF _ _ _ HS) as (out & -> & H1 & H2).
  exists out. split; [done|]. split; [done|]. intros s id [= <-]. apply H2.
Qed.

(** The passes of a run up to a sweep that is reached. *)
Lemma run_ticks_reaches (w : Watchtower) (before : list tick) (t : tick) (rest : list tick) :
  Forall (fun t => forall id, tk_read t id <> Panic) (before ++ t :: rest) ->
  Forall (fun t => tk_stopped t = false) (before ++ [t]) ->
  (forall f s, w_Sender w = Some f -> f s <> Panic) ->
  forall d d' r, run_ticks w (before ++ t :: rest) d = (d', r) ->
  exists outs, r = Ok outs /\ d_sent d `prefix_of` d_sent d' /\
    forall src id, tk_store t = Some src -> id ∈ source_IDs src -> exists out d1 d2 wt, out ∈ outs /\
      Watchtower_Check w src (tk_read t) (tk_now t) id d1 = (d2, Ok wt) /\ wt ∈ out /\ d_sent d2 `prefix_of` d_sent d'.
Proof.
  intros HP HS HF.
  assert (forall ticks : list (tick (Src := Src)), Forall (fun t => forall id, tk_read t id <> Panic) ticks -> forall d d' r,
    run_ticks w ticks d = (d', r) -> exists outs, r = Ok outs /\ d_sent d `prefix_of` d_sent d') as HAll.
  { induction ticks as [|x ticks IH]; intros HP' d d' r; cbn [run_ticks]; [intros [= <- <-]; by eexists|].
    apply Forall_cons in HP' as [HPx HP']. destruct (tk_stopped x); [intros [= <- <-]; by eexists|].
    destruct (Sweep w _ _ _ d) as [d1 r1] eqn:ES. destruct (Sweep_checks _ _ _ _ _ _ _ HPx HF ES) as (out & -> & HP1 & _).
    destruct (run_ticks w ticks d1) as [d2 r2] eqn:ER. destruct (IH HP' _ _ _ ER) as (outs & -> & HP2). cbn.
    intros [= <- <-]. eexists. split; [done|]. by etrans. }
  induction before as [|x before IH]; intros d d' r; cbn [app run_ticks]; cbn [app] in HP, HS;
    apply Forall_cons in HP as [HPx HP]; apply Forall_cons in HS as [-> HS];
    destruct (Sweep w _ _ _ d) as [d1 r1] eqn:ES; destruct (Sweep_checks _ _ _ _ _ _ _ HPx HF ES) as (out & -> & HP1 & HC);
    destruct (run_ticks w _ d1) as [d2 r2] eqn:ER.
  - destruct (HAll _ HP _ _ _ ER) as (outs & -> & HP2). cbn. intros [= <- <-]. eexists. split; [done|]. split; [by etrans|].
    intros src id Hsrc HI. destruct (HC src id Hsrc HI) as (e1 & e2 & wt & H1 & H2 & H3).
    exists out, e1, e2, wt. split; [by apply elem_of_cons; left|]. split; [done|]. split; [done|]. by etrans.
  - destruct (IH HP HS _ _ _ ER) as (outs & -> & HP2 & HC2). cbn. intros [= <- <-]. eexists. split; [done|]. split; [by etrans|].
    intros src id Hsrc HI. destruct (HC2 src id Hsrc HI) as (o & e1 & e2 & wt & H0 & H1 & H2 & H3).
    exists o, e1, e2, wt. split; [by apply elem_of_cons; right|done].
Qed.
End Passes.

(** ** Delegation *)

Section Delegation.
Context `{Crypto : ChannelCrypto} `{!ChannelCryptoLaws Crypto} `{Codec : VaultCodec} `{!VaultCodecLaws Codec}.
Context (chainID : option Z) (contract : bytes).
#[local] Instance this_vault : ChannelSource Vault := vault_source chainID contract.

Lemma vault_source_holds (v : Vault) (id : bytes) (e : VaultEntry) :
  va_entries v !! id = Some e ->
  id ∈ source_IDs v /\
  exists ch, source_Get v id = Some ch /\ ch_Latest ch = ve_Signed e.
Proof.
  intros He. split.
  - cbn. unfold Vault_IDs. apply list_elem_of_fmap. exists (id, e). split; [done|]. by apply elem_of_map_to_list.
  - cbn. unfold VaultStore_Get, VEntry. rewrite He. cbn. eexists. split; done.
Qed.

(** The delays a challenge still has ahead of it once the close is noticed. *)
Definition runway : Z :=
  let b := MainnetChallengeBudget in b_Local b + b_Inclusion b + b_Repricing b + b_RPCFailure b + b_Reorg b.

Lemma runway_fits (closed now : Z) :
  closed <= now -> (now - closed) * Second <= b_Detection MainnetChallengeBudget + b_Outage MainnetChallengeBudget ->
  let rem := wrap_i64 (closed + RecommendedChallengePeriod - now) in
  0 < rem /\ DefaultWatchMargin <= wrap_i64 (rem * Second) /\ now * Second + runway <= (closed + RecommendedChallengePeriod) * Second.
Proof.
  intros H1 H2 rem. assert (b_Detection MainnetChallengeBudget + b_Outage MainnetChallengeBudget = 16200 * Second) as E by reflexivity.
  assert (runway = 7260 * Second) as ER by reflexivity. rewrite E in H2. assert (Second = 1000000000) as ES by reflexivity.
  rewrite recommended_period in *. assert (rem = closed + 28800 - now) as -> by (unfold rem; apply i64_small; lia).
  rewrite default_margin, ER. rewrite i64_small by lia. lia.
Qed.

(** C4. A state left with somebody else's watchtower defends the channel: once a
    vault has acknowledged a state, whatever else is submitted to it meanwhile
    and whatever its storage does, a stale close of that channel under the
    recommended challenge period is answered by the first sweep that sees it
    within the detection and outage the budget allows.  Assuming the watchtower
    has a sender, a margin no larger than the default, sweeps that vault without
    being stopped, and gets an answer from the chain about that channel, and
    that no chain read or send panics, that sweep hands the sender a state both
    parties signed, at least as new as the one left, while all the delays the
    budget puts ahead of a challenge still fit before the deadline; it reports
    the challenge if the sender took it and a failure if it did not. *)
Theorem delegated_state_defends (reported : reading) (backend : option Backend) (rand : list bytes)
    (es : list custody_event) (s : SignedState) (w : Watchtower) (challenge : DisputeSender)
    (before rest : list (tick (Src := Vault))) (t : tick) (closed : Z) (occ : OnChainChannel) (d : Done)
    (Hes : Forall (event_reads reported) es)
    (Hacked : s ∈ cu_Acked (custody_run chainID contract (fresh_custody backend rand) es))
    (Hmargin : margin w <= DefaultWatchMargin) (Hsender : w_Sender w = Some challenge) (Hsends : forall s, challenge s <> Panic)
    (Hreads : Forall (fun t => forall id, tk_read t id <> Panic) (before ++ t :: rest))
    (Hrunning : Forall (fun t => tk_stopped t = false) (before ++ [t]))
    (Hvault : tk_store t = Some (cu_Vault (custody_run chainID contract (fresh_custody backend rand) es)))
    (Hread : tk_read t (st_Channel (ss_State s)) = Ok occ)
    (Hclosing : oc_Status occ = StatusClosing) (Hstale : oc_Nonce occ < st_Nonce (ss_State s))
    (Hends : oc_ChallengeEnds occ = closed + RecommendedChallengePeriod)
    (Hseen : closed <= tk_now t)
    (Hsoon : (tk_now t - closed) * Second <= b_Detection MainnetChallengeBudget + b_Outage MainnetChallengeBudget) :
  exists d' outs out wt best, run_ticks w (before ++ t :: rest) d = (d', Ok outs) /\ out ∈ outs /\ wt ∈ out /\
    wa_Channel wt = st_Channel (ss_State s) /\
    wa_Outcome wt = match challenge best with Ok _ => WatchChallenged | _ => WatchFailed end /\
    best ∈ d_sent d' /\ st_Channel (ss_State best) = st_Channel (ss_State s) /\
    st_Nonce (ss_State s) <= st_Nonce (ss_State best) /\ vouched chainID contract reported best /\
    tk_now t * Second + runway <= oc_ChallengeEnds occ * Second.
Proof.
  destruct (custody_run_sound chainID contract reported es _ Hes (fresh_custody_sound chainID contract reported backend rand)) as [[SE _ SA] _].
  set (c := custody_run chainID contract (fresh_custody backend rand) es) in *.
  rewrite Forall_forall in SA. destruct (SA s Hacked) as (e & He & Hn). destruct (SE _ _ He) as [E1 E2 _].
  destruct (vault_source_holds _ _ _ He) as (HI & ch & HG & HL).
  assert (forall f s, w_Sender w = Some f -> f s <> Panic) as HF by (intros f x Hf; rewrite Hsender in Hf; injection Hf as <-; apply Hsends).
  destruct (run_ticks w (before ++ t :: rest) d) as [d' r] eqn:ER.
  destruct (run_ticks_reaches _ _ _ _ Hreads Hrunning HF _ _ _ ER) as (outs & -> & _ & HC).
  destruct (HC _ _ Hvault HI) as (out & d1 & d2 & wt & HO & HCk & HW & HP).
  destruct (runway_fits closed (tk_now t) Hseen Hsoon) as (R1 & R2 & R3). rewrite <- Hends in *.
  assert (beaten w ch occ (tk_now t)) as HB.
  { split; rewrite ?HL; [by destruct E2|done|unfold ve_Nonce in Hn; lia|done|by etrans]. }
  destruct (Check_beaten _ _ _ _ _ d1 _ _ _ HG Hread HB Hsender (Hsends _)) as (d3 & wt' & EC & EW & EI & EO).
  rewrite EC in HCk. injection HCk as <- <-. exists d', outs, out, wt', (ch_Latest ch).
  split; [done|]. split; [exact HO|]. split; [exact HW|]. split; [done|]. split; [done|].
  split; [destruct HP as [k ->]; rewrite EW, !elem_of_app, elem_of_cons; auto|].
  rewrite HL. split; [done|]. split; [exact Hn|]. split; [exact E2|exact R3].
Qed.
End Delegation.

(** ** Witnesses *)

Lemma Recommend_covers_budget_witness : exists hours, Recommend MainnetChallengeBudget = hours * Hour /\
  budget_sum MainnetChallengeBudget <= Recommend MainnetChallengeBudget < budget_sum MainnetChallengeBudget + Hour.
Proof.
  apply Recommend_covers_budget; [|reflexivity].
  repeat (constructor; [discriminate|]). constructor.
Defined.

(** The chain as it is while an old close of the channel is pending. *)
Definition toy_stale_close : OnChainChannel :=
  mkOnChain (ch_ID toy_channel) toy_A toy_B (Some 60) (Some 40) StatusClosing 1 (1000 + RecommendedChallengePeriod)
    (Some 50) (Some 50) (Some 0) true.
Definition toy_attack_reader (id : bytes) : outcome chan_err OnChainChannel :=
  if bool_decide (id = ch_ID toy_channel) then Ok toy_stale_close else Err ErrChannelNotOnChain.
Definition toy_watchtower : Watchtower := mkWatchtower (Some (fun _ => Ok "0x1"%string)) 0 0.

Definition toy_pass : Done * outcome chan_err Watch :=
  @Watchtower_Check Vault (vault_source (Some 1) toy_contract) toy_watchtower (cu_Vault toy_custody) toy_attack_reader 2000
    (ch_ID toy_channel) nothing_done.

Lemma challenge_only_what_beats_witness : d_sent toy_pass.1 = [toy_pay4].
Proof.
  destruct toy_pass as [d' r] eqn:E.
  assert (d_sent toy_pass.1 = [toy_pay4]) as HS by (vm_compute; reflexivity). rewrite E in HS. cbn [fst] in HS |- *.
  unfold toy_pass in E.
  destruct (@challenge_only_what_beats Vault (vault_source (Some 1) toy_contract) toy_watchtower (cu_Vault toy_custody)
    toy_attack_reader 2000 (ch_ID toy_channel) nothing_done d' r E) as [[H _]|(ch & occ & f & _ & _ & _ & _ & H & _)].
  - rewrite H in HS. discriminate HS.
  - rewrite H. rewrite H in HS. exact HS.
Defined.

Definition toy_tick : tick (Src := Vault) :=
  mkTick (Some (cu_Vault (custody_run (Crypto := toy_crypto) (Some 1) toy_contract (fresh_custody (Some toy_backend) toy_nonces) toy_custody_events)))
    toy_attack_reader 2000 false.

Lemma toy_attack_read : tk_read toy_tick (st_Channel (ss_State toy_pay4)) = Ok toy_stale_close.
Proof. cbn [tk_read toy_tick]. unfold toy_attack_reader. rewrite bool_decide_eq_true_2; reflexivity. Qed.

Lemma delegated_state_defends_witness : exists d' outs best,
  @run_ticks Vault (vault_source (Some 1) toy_contract) toy_watchtower [toy_tick] nothing_done = (d', Ok outs) /\
  best ∈ d_sent d' /\ st_Nonce (ss_State toy_pay4) <= st_Nonce (ss_State best).
Proof.
  destruct (delegated_state_defends (Crypto := toy_crypto) (Codec := toy_codec) (Some 1) toy_contract (agrees toy_reader)
    (Some toy_backend) toy_nonces toy_custody_events toy_pay4 toy_watchtower (fun _ => Ok "0x1"%string) [] [] toy_tick
    1000 toy_stale_close nothing_done) as (d' & outs & out & wt & best & HR & _ & _ & _ & _ & HB & _ & HN & _).
  - eapply Forall_impl; [exact toy_events_fit|]. intros e [H _]. exact H.
  - change (toy_pay4 ∈ cu_Acked toy_custody). rewrite toy_custody_acks. left.
  - vm_compute. discriminate.
  - reflexivity.
  - intros s. discriminate.
  - constructor; [|constructor]. intros id. cbn [tk_read toy_tick]. unfold toy_attack_reader. destruct (bool_decide _); discriminate.
  - constructor; [reflexivity|constructor].
  - reflexivity.
  - exact toy_attack_read.
  - reflexivity.
  - reflexivity.
  - reflexivity.
  - discriminate.
  - discriminate.
  - exists d', outs, best. split; [exact HR|]. split; [exact HB|exact HN].
Defined.
