(* ===== verification/DhtKeys.v ===== *)
(** * The AXON DHT: keys, distances and positions
    ([internal/axon/dht/keys.go], [kadid.go], [hsdir.go])

    Record classes and the keys they derive, the XOR metric and its buckets, a
    node's position for one epoch and the check that it speaks from where it
    claims, the store of beacon mixes, and the eight positions of a service
    descriptor.  SHA-256 is the class [Sha256]. *)
From S2P Require Import Prelude.
From S2P Require Import GoBytes.
From S2P Require Import RecordUpdate.

Inductive dht_err : Type :=
| ErrUnknownClass | ErrBadPrefix | ErrPrefixMismatch | ErrNoSRV | ErrNoBlindedKey | ErrBadReplicaIndex
| ErrPrefixCapReached | ErrASNCapReached | ErrBucketFull | ErrNoSeeds
| ErrOversize | ErrWrongKey | ErrBadSignature | ErrExpired | ErrOverLongTTL | ErrReplayedSeq | ErrBadEncoding
| ErrTooManyEntries | ErrWrongRecordType | ErrDht (text : string).

(** ** Record classes *)

Inductive RecordClass : Type :=
| ClassRelay | ClassDesc | ClassDomain | ClassLocation | ClassSnapshot | ClassIntro | ClassReport.
#[export] Instance RecordClass_eq_dec : EqDecision RecordClass.
Proof. solve_decision. Defined.

(** The empty label is what a number outside the seven has. *)
Definition label (c : option RecordClass) : string :=
  match c with
  | Some ClassRelay => "relay"
  | Some ClassDesc => "desc"
  | Some ClassDomain => "domain"
  | Some ClassLocation => "loc"
  | Some ClassSnapshot => "snap"
  | Some ClassIntro => "intro"
  | Some ClassReport => "report"
  | None => ""
  end.
Inductive Keyspace : Type := KeyspaceDescriptor | KeyspaceContent.
Definition Keyspace_of (c : RecordClass) : Keyspace :=
  match c with ClassLocation => KeyspaceContent | _ => KeyspaceDescriptor end.

Definition Replicas : Z := 8.
Definition DescriptorReplicaPositions : Z := 8.

(** ** The metric *)

Definition Distance (a b : bytes) : bytes := zip_with Z.lxor a b.

(** [Key.Less] on two arrays of one length. *)
Fixpoint Key_Less (k other : bytes) : bool :=
  match k, other with
  | x :: k, y :: other => if negb (x =? y) then x <? y else Key_Less k other
  | _, _ => false
  end.

(** The inner loop: [bit] is a power of two until it is shifted out. *)
Fixpoint leading (fuel : nat) (x bit : Z) : Z :=
  match fuel with
  | O => 0
  | S fuel => if negb (bit =? 0) && (Z.land x bit =? 0) then 1 + leading fuel x (Z.shiftr bit 1) else 0
  end.
Fixpoint prefix_loop (a b : bytes) (i : Z) : option Z :=
  match a, b with
  | x :: a, y :: b =>
      let d := Z.lxor x y in
      if negb (d =? 0) then Some (i * 8 + leading 8 d 128) else prefix_loop a b (i + 1)
  | _, _ => None
  end.
Definition CommonPrefixLen (a b : bytes) : Z := default (Z.of_nat (length a) * 8) (prefix_loop a b 0).

(** ** Addresses ([net/netip]) *)

Inductive Addr : Type := AddrInvalid | Addr4 (b : bytes) | Addr16 (b : bytes).
(** [Unmap]: an IPv4-mapped IPv6 address is the IPv4 address. *)
Definition Unmap (a : Addr) : Addr :=
  match a with
  | Addr16 b => if bool_decide (take 12 b = zeros 10 ++ [255; 255]) then Addr4 (drop 12 b) else a
  | _ => a
  end.

Record NetworkPrefix : Type := mkPrefix { np_Family : Z; np_Bytes : bytes }.
#[export] Instance NetworkPrefix_eq_dec : EqDecision NetworkPrefix.
Proof. solve_decision. Defined.
Definition np_Encode (p : NetworkPrefix) : bytes := np_Family p :: np_Bytes p.

Definition PrefixFor (addr : Addr) : outcome dht_err NetworkPrefix :=
  match addr with
  | AddrInvalid => Err ErrBadPrefix
  | _ =>
      match Unmap addr with
      | Addr4 b => Ok (mkPrefix 4 (take 3 b))
      | Addr16 b => Ok (mkPrefix 6 (take 6 b))
      | AddrInvalid => Err ErrBadPrefix
      end
  end.

Definition prefix_wf (p : NetworkPrefix) : bool :=
  ((np_Family p =? 4) && Nat.eqb (length (np_Bytes p)) 3) || ((np_Family p =? 6) && Nat.eqb (length (np_Bytes p)) 6).

(** ** Keys *)

Definition key_preimage (c : RecordClass) (input : bytes) : bytes :=
  text_bytes "axon:" ++ text_bytes (label (Some c)) ++ text_bytes ":v1" ++ [0] ++ input.
Definition kadIDLabel : string := "axon:kadid:v1".
Definition kadid_preimage (nodePub srv : bytes) (p : NetworkPrefix) : bytes :=
  text_bytes kadIDLabel ++ [0] ++ nodePub ++ srv ++ np_Encode p.
Definition hsdir_preimage (kBlind : bytes) (j periodNum : Z) (srv : bytes) : bytes :=
  text_bytes "axon:hsdir-index:v1" ++ kBlind ++ [j] ++ le_encode 8 periodNum ++ srv.

Section Keys.
Context `{Hash : Sha256}.

Definition DeriveKey (c : option RecordClass) (input : bytes) : outcome dht_err bytes :=
  match c with
  | None => Err ErrUnknownClass
  | Some c => Ok (sha256 (key_preimage c input))
  end.
Definition MustDeriveKey (c : option RecordClass) (input : bytes) : outcome dht_err bytes :=
  match DeriveKey c input with Ok k => Ok k | _ => Panic end.

Definition DeriveKadID (nodePub srv : bytes) (prefix : NetworkPrefix) : outcome dht_err bytes :=
  fail? negb (prefix_wf prefix) with ErrBadPrefix ;;
  Ok (sha256 (kadid_preimage nodePub srv prefix)).

Definition VerifyKadID (claimed nodePub srv : bytes) (observed : Addr) : outcome dht_err unit :=
  let? prefix := PrefixFor observed in
  let? want := DeriveKadID nodePub srv prefix in
  fail? negb (bool_decide (want = claimed)) with ErrPrefixMismatch ;;
  Ok tt.

(** ** Descriptor positions *)

Definition HSDirIndex (kBlind : bytes) (j periodNum : Z) (srv : bytes) : outcome dht_err bytes :=
  fail? Nat.eqb (length kBlind) 0 with ErrNoBlindedKey ;;
  fail? DescriptorReplicaPositions <=? j with ErrBadReplicaIndex ;;
  Ok (sha256 (hsdir_preimage kBlind j periodNum srv)).

Fixpoint hsdir_loop (n : nat) (j : Z) (kBlind : bytes) (periodNum : Z) (srv : bytes) : outcome dht_err (list bytes) :=
  match n with
  | O => Ok []
  | S n =>
      let? k := HSDirIndex kBlind j periodNum srv in
      let? ks := hsdir_loop n (j + 1) kBlind periodNum srv in
      Ok (k :: ks)
  end.
Definition HSDirPositions (kBlind : bytes) (periodNum : Z) (srv : bytes) : outcome dht_err (list bytes) :=
  hsdir_loop (Z.to_nat DescriptorReplicaPositions) 0 kBlind periodNum srv.
End Keys.

(** ** Beacon mixes *)

Definition EpochDuration : Z := 24 * 3600 * NanoSecond.

Record SRVStore : Type := mkSRVStore {
  srv_current : bytes;
  srv_epoch : Z;
  srv_acquired : option Z;
  srv_previous : option (bytes * Z);
  srv_lastErr : bool
}.
#[export] Instance SRVStore_eta : Eta SRVStore :=
  fun s => mkSRVStore (srv_current s) (srv_epoch s) (srv_acquired s) (srv_previous s) (srv_lastErr s).
Definition NewSRVStore : SRVStore := mkSRVStore (zeros 32) 0 None None false.

(** [src]: what the beacon answers. *)
Definition Refresh (src : Z -> outcome dht_err bytes) (epoch now : Z) (s : SRVStore) : SRVStore * outcome dht_err unit :=
  match src epoch with
  | Err e => (s <| srv_lastErr := true |>, Err e)
  | Panic => (s, Panic)
  | Ok srv =>
      let previous :=
        if bool_decide (is_Some (srv_acquired s)) && negb (epoch =? srv_epoch s)
        then Some (srv_current s, srv_epoch s) else srv_previous s in
      (mkSRVStore srv epoch (Some now) previous false, Ok tt)
  end.
Definition Current (s : SRVStore) : outcome dht_err (bytes * Z) :=
  match srv_acquired s with None => Err ErrNoSRV | Some _ => Ok (srv_current s, srv_epoch s) end.
Definition Previous (s : SRVStore) : option (bytes * Z) := srv_previous s.
(** The age and whether it is past the rotation; the reason is text. *)
Definition Staleness (now : Z) (s : SRVStore) : Z * bool :=
  match srv_acquired s with
  | None => (0, true)
  | Some t => let age := time_Sub now t in (age, EpochDuration <? age)
  end.
Definition EpochAt (genesis t : Z) : Z :=
  if t <? genesis then 0 else Z.quot (time_Sub t genesis) EpochDuration.

(** ** The metric, on 256-bit integers *)

Definition dist (a b : bytes) : Z := be_decode (Distance a b).

Lemma log2_small (u k : Z) : 0 < k -> 0 <= u < 2 ^ k -> Z.log2 u < k.
Proof. intros Hk Hu. destruct (decide (u = 0)) as [->|]; [cbn; lia|]. apply Z.log2_lt_pow2; lia. Qed.

Lemma lxor_range (u v k : Z) : 0 <= k -> 0 <= u < 2 ^ k -> 0 <= v < 2 ^ k -> 0 <= Z.lxor u v < 2 ^ k.
Proof.
  intros Hk Hu Hv. assert (0 <= Z.lxor u v) as H0 by (apply Z.lxor_nonneg; lia). split; [done|].
  destruct (decide (Z.lxor u v = 0)) as [->|Hne]; [lia|]. destruct (decide (k = 0)) as [->|Hk0].
  - assert (u = 0) as -> by lia. assert (v = 0) as -> by lia. done.
  - apply Z.log2_lt_pow2; [lia|]. eapply Z.le_lt_trans; [apply Z.log2_lxor; lia|].
    apply Z.max_lub_lt; apply log2_small; lia.
Qed.

Lemma lxor_split (x y u v k : Z) :
  0 <= k -> 0 <= u < 2 ^ k -> 0 <= v < 2 ^ k ->
  Z.lxor (x * 2 ^ k + u) (y * 2 ^ k + v) = Z.lxor x y * 2 ^ k + Z.lxor u v.
Proof.
  intros Hk Hu Hv.
  assert (forall a b, 0 <= b < 2 ^ k -> a * 2 ^ k + b = Z.lxor (Z.shiftl a k) b) as HS.
  { intros a b Hb. rewrite Z.shiftl_mul_pow2 by done. apply Z.add_nocarry_lxor. apply Z.bits_inj'. intros n Hn.
    rewrite Z.land_spec, Z.bits_0. destruct (Z.lt_ge_cases n k) as [H|H]; [by rewrite Z.mul_pow2_bits_low|].
    rewrite <- (Z.mod_small b (2 ^ k)) by done. by rewrite Z.mod_pow2_bits_high, andb_false_r. }
  rewrite !HS by (done || by apply lxor_range). rewrite Z.shiftl_lxor. apply Z.bits_inj'. intros n Hn. rewrite !Z.lxor_spec.
  by destruct (Z.testbit (Z.shiftl x k) n), (Z.testbit (Z.shiftl y k) n), (Z.testbit u n), (Z.testbit v n).
Qed.

Lemma lxor_byte (x y : Z) : byte_ok x -> byte_ok y -> byte_ok (Z.lxor x y).
Proof. intros Hx Hy. by apply (lxor_range x y 8). Qed.

Lemma Distance_array (n : nat) (a b : bytes) : array_ok n a -> array_ok n b -> array_ok n (Distance a b).
Proof.
  intros [La Oa] [Lb Ob]. split; [unfold Distance; rewrite length_zip_with; lia|]. clear La Lb. unfold Distance, bytes_ok in *.
  revert b Ob. induction Oa as [|x a Hx Oa IH]; intros [|y b] Ob; cbn; try constructor; inversion Ob; subst; [by apply lxor_byte|by apply IH].
Qed.

Lemma pow256 (n : nat) : 256 ^ Z.of_nat n = 2 ^ (8 * Z.of_nat n).
Proof. change 256 with (2 ^ 8). rewrite <- Z.pow_mul_r by lia. done. Qed.

Lemma dist_lxor (n : nat) (a b : bytes) : array_ok n a -> array_ok n b -> dist a b = Z.lxor (be_decode a) (be_decode b).
Proof.
  revert a b. induction n as [|n IH]; intros a b [La Oa] [Lb Ob].
  { destruct a, b; done. }
  destruct a as [|x a], b as [|y b]; try done. injection La as La. injection Lb as Lb.
  apply Forall_cons in Oa as [Hx Oa]. apply Forall_cons in Ob as [Hy Ob]. unfold dist, Distance. cbn [zip_with].
  change (zip_with Z.lxor a b) with (Distance a b).
  rewrite !be_decode_cons. change (be_decode (Distance a b)) with (dist a b). rewrite IH by done.
  rewrite (proj1 (Distance_array n a b (conj La Oa) (conj Lb Ob))), La, Lb, pow256.
  symmetry. apply lxor_split; [lia|rewrite <- pow256, <- La; by apply be_decode_range|rewrite <- pow256, <- Lb; by apply be_decode_range].
Qed.

Lemma Key_Less_spec (n : nat) (a b : bytes) : array_ok n a -> array_ok n b -> Key_Less a b = (be_decode a <? be_decode b).
Proof.
  revert a b. induction n as [|n IH]; intros a b [La Oa] [Lb Ob].
  { destruct a, b; done. }
  destruct a as [|x a], b as [|y b]; try done. injection La as La. injection Lb as Lb.
  apply Forall_cons in Oa as [Hx Oa]. apply Forall_cons in Ob as [Hy Ob]. cbn [Key_Less]. rewrite !be_decode_cons, La, Lb.
  pose proof (be_decode_range a Oa) as Ra. pose proof (be_decode_range b Ob) as Rb. rewrite La in Ra. rewrite Lb in Rb.
  set (w := 256 ^ Z.of_nat n) in *. destruct (Z.eqb_spec x y) as [->|Hne]; cbn [negb].
  - rewrite IH by done. destruct (Z.ltb_spec (be_decode a) (be_decode b)); symmetry; [apply Z.ltb_lt|apply Z.ltb_ge]; lia.
  - destruct (Z.ltb_spec x y); symmetry; [apply Z.ltb_lt|apply Z.ltb_ge]; nia.
Qed.

Lemma leading_log2 (x : Z) : 0 < x < 256 -> leading 8 x 128 = 7 - Z.log2 x.
Proof.
  intros Hx. assert (((x =? 0) || (leading 8 x 128 =? 7 - Z.log2 x)) = true) as H.
  { assert (0 <= x < 256) as Hr by lia. clear Hx. each_below x. }
  apply orb_true_iff in H as [H|H]; apply Z.eqb_eq in H; lia.
Qed.

Lemma log2_high (x m d : Z) : 0 < x -> 0 <= m -> 0 <= d < 2 ^ m -> Z.log2 (x * 2 ^ m + d) = Z.log2 x + m.
Proof.
  intros Hx Hm Hd. pose proof (Z.log2_nonneg x). destruct (Z.log2_spec x Hx) as [L1 L2].
  apply Z.log2_unique; [lia|]. rewrite <- Z.add_succ_l, !Z.pow_add_r by lia. nia.
Qed.

Lemma prefix_loop_spec (n : nat) (a b : bytes) (i : Z) :
  array_ok n a -> array_ok n b ->
  (prefix_loop a b i = None /\ a = b) \/
  (0 < dist a b /\ prefix_loop a b i = Some (8 * i + 8 * Z.of_nat n - 1 - Z.log2 (dist a b))).
Proof.
  revert a b i. induction n as [|n IH]; intros a b i [La Oa] [Lb Ob].
  { destruct a, b; try done. left. done. }
  destruct a as [|x a], b as [|y b]; try done. injection La as La. injection Lb as Lb.
  apply Forall_cons in Oa as [Hx Oa]. apply Forall_cons in Ob as [Hy Ob].
  assert (dist (x :: a) (y :: b) = Z.lxor x y * 2 ^ (8 * Z.of_nat n) + dist a b) as HD.
  { unfold dist, Distance. cbn [zip_with]. rewrite be_decode_cons. change (zip_with Z.lxor a b) with (Distance a b).
    by rewrite (proj1 (Distance_array n a b (conj La Oa) (conj Lb Ob))), pow256. }
  assert (0 <= dist a b < 2 ^ (8 * Z.of_nat n)) as HR.
  { rewrite <- pow256. destruct (Distance_array n a b (conj La Oa) (conj Lb Ob)) as [HL HO]. rewrite <- HL. by apply be_decode_range. }
  pose proof (lxor_byte x y Hx Hy) as HX. cbn [prefix_loop]. destruct (Z.eqb_spec (Z.lxor x y) 0) as [H0|H0]; cbn [negb].
  - apply Z.lxor_eq in H0 as ->. rewrite Z.lxor_nilpotent, Z.mul_0_l, Z.add_0_l in HD. rewrite HD.
    destruct (IH a b (i + 1) (conj La Oa) (conj Lb Ob)) as [[-> ->]|[Hpos ->]]; [by left|right].
    split; [done|]. f_equal. lia.
  - right. assert (0 < Z.lxor x y < 256) as HX' by (unfold byte_ok in HX; lia).
    assert (0 < 2 ^ (8 * Z.of_nat n)) as HP by (apply Z.pow_pos_nonneg; lia). split; [nia|]. f_equal.
    rewrite leading_log2 by done. enough (Z.log2 (dist (x :: a) (y :: b)) = Z.log2 (Z.lxor x y) + 8 * Z.of_nat n) by lia.
    rewrite HD. apply log2_high; lia.
Qed.

Lemma dist_range (n : nat) (a b : bytes) : array_ok n a -> array_ok n b -> 0 <= dist a b < 2 ^ (8 * Z.of_nat n).
Proof.
  intros Ha Hb. rewrite <- pow256. destruct (Distance_array n a b Ha Hb) as [HL HO]. rewrite <- HL. by apply be_decode_range.
Qed.

Lemma dist_zero (n : nat) (a b : bytes) : array_ok n a -> array_ok n b -> dist a b = 0 -> a = b.
Proof.
  intros Ha Hb H. rewrite (dist_lxor n) in H by done. apply Z.lxor_eq in H. destruct Ha as [La Oa], Hb as [Lb Ob].
  apply be_decode_inj; [done|done|congruence|done].
Qed.

(** A key. *)
Definition key_ok (k : bytes) : Prop := array_ok 32 k.

Lemma CommonPrefixLen_spec (a b : bytes) :
  key_ok a -> key_ok b -> (a = b /\ CommonPrefixLen a b = 256) \/
  (a <> b /\ 0 < dist a b < 2 ^ 256 /\ CommonPrefixLen a b = 255 - Z.log2 (dist a b)).
Proof.
  intros Ha Hb. unfold CommonPrefixLen. pose proof (dist_range 32 a b Ha Hb) as HR.
  change (8 * Z.of_nat 32) with 256 in HR. destruct (prefix_loop_spec 32 a b 0 Ha Hb) as [[-> ->]|[Hp ->]]; [left|right].
  - split; [done|]. destruct Hb as [Lb _]. cbn [default]. by rewrite Lb.
  - split; [|split; [lia|cbn [default from_option id]; lia]]. intros ->.
    rewrite (dist_lxor 32), Z.lxor_nilpotent in Hp by done. lia.
Qed.

(** ** Theorems *)

(** The XOR distance is a metric on keys, [Key.Less] compares distances as
    256-bit integers, and a key is determined by its distance from any other:
    so for every target there is one order of nearness, and every node computes
    it alike. *)
Theorem xor_metric (a b c : bytes) (Ha : key_ok a) (Hb : key_ok b) (Hc : key_ok c) :
  (dist a b = 0 <-> a = b) /\ dist a b = dist b a /\ dist a c <= dist a b + dist b c /\
  (dist a b = dist a c -> b = c) /\ Key_Less (Distance a b) (Distance a c) = (dist a b <? dist a c).
Proof.
  pose proof (dist_lxor 32 a b Ha Hb) as Eab. pose proof (dist_lxor 32 a c Ha Hc) as Eac.
  split; [split; [by apply (dist_zero 32)|intros ->; rewrite (dist_lxor 32), Z.lxor_nilpotent by done; done]|].
  split; [rewrite Eab, (dist_lxor 32 b a Hb Ha); apply Z.lxor_comm|]. split.
  { pose proof (dist_range 32 a b Ha Hb). pose proof (dist_range 32 b c Hb Hc).
    assert (dist a c = Z.lxor (dist a b) (dist b c)) as ->.
    { rewrite Eac, Eab, (dist_lxor 32 b c Hb Hc), Z.lxor_assoc, <- (Z.lxor_assoc (be_decode b)), Z.lxor_nilpotent, Z.lxor_0_l. done. }
    rewrite <- (Z.add_lxor_2land (dist a b) (dist b c)).
    assert (0 <= Z.land (dist a b) (dist b c)) by (apply Z.land_nonneg; lia). lia. }
  split; [|apply (Key_Less_spec 32); by apply Distance_array].
  intros H. rewrite Eab, Eac in H. apply (dist_zero 32); [done|done|]. rewrite (dist_lxor 32) by done.
  apply (f_equal (Z.lxor (be_decode a))) in H. rewrite <- !Z.lxor_assoc, Z.lxor_nilpotent, !Z.lxor_0_l in H.
  rewrite H. apply Z.lxor_nilpotent.
Qed.

(** The bucket of a contact is the order of magnitude of its distance: the
    common prefix of two different keys has [i] bits exactly when their distance
    has [256 - i], so every contact of a deeper bucket is nearer than every
    contact of a shallower one. *)
Theorem bucket_is_magnitude (self x : bytes) (Hself : key_ok self) (Hx : key_ok x) (Hne : self <> x) :
  let i := CommonPrefixLen self x in
  0 <= i <= 255 /\ 2 ^ (255 - i) <= dist self x < 2 ^ (256 - i) /\
  forall y, key_ok y -> i < CommonPrefixLen self y -> dist self y < dist self x.
Proof.
  destruct (CommonPrefixLen_spec self x Hself Hx) as [[? _]|(_ & Hd & ->)]; [done|]. cbv zeta.
  pose proof (Z.log2_nonneg (dist self x)). assert (Z.log2 (dist self x) < 256) by (apply log2_small; lia).
  destruct (Z.log2_spec (dist self x) ltac:(lia)) as [L1 L2]. split; [lia|].
  replace (255 - (255 - Z.log2 (dist self x))) with (Z.log2 (dist self x)) by lia.
  replace (256 - (255 - Z.log2 (dist self x))) with (Z.succ (Z.log2 (dist self x))) by lia. split; [done|].
  intros y Hy Hi. destruct (CommonPrefixLen_spec self y Hself Hy) as [[<- _]|(_ & Hdy & E)].
  - rewrite (dist_lxor 32), Z.lxor_nilpotent by done. lia.
  - rewrite E in Hi. destruct (Z.log2_spec (dist self y) ltac:(lia)) as [_ L3].
    eapply Z.lt_le_trans; [exact L3|]. etrans; [|exact L1]. apply Z.pow_le_mono_r; lia.
Qed.

(** ** Domain separation *)

Lemma key_preimage_inj (c c' : RecordClass) (i i' : bytes) : key_preimage c i = key_preimage c' i' -> c = c' /\ i = i'.
Proof. destruct c, c'; cbn; intros H; by simplify_eq. Qed.

Lemma key_not_kadid (c : RecordClass) (i nodePub srv : bytes) (p : NetworkPrefix) :
  key_preimage c i <> kadid_preimage nodePub srv p.
Proof. intros H. apply (f_equal (take 6)) in H. destruct c; discriminate H. Qed.

Lemma key_not_hsdir (c : RecordClass) (i kBlind srv : bytes) (j period : Z) :
  key_preimage c i <> hsdir_preimage kBlind j period srv.
Proof. intros H. apply (f_equal (take 6)) in H. destruct c; discriminate H. Qed.

Lemma kadid_not_hsdir (nodePub srv kBlind srv' : bytes) (p : NetworkPrefix) (j period : Z) :
  kadid_preimage nodePub srv p <> hsdir_preimage kBlind j period srv'.
Proof. intros H. apply (f_equal (take 6)) in H. discriminate H. Qed.

Lemma kadid_preimage_inj (n n' s s' : bytes) (p p' : NetworkPrefix) :
  array_ok 32 n -> array_ok 32 n' -> array_ok 32 s -> array_ok 32 s' ->
  kadid_preimage n s p = kadid_preimage n' s' p' -> n = n' /\ s = s' /\ p = p'.
Proof.
  intros [Ln _] [Ln' _] [Ls _] [Ls' _] H. unfold kadid_preimage in H. apply app_inj_1 in H as [_ H]; [|done].
  apply app_inj_1 in H as [_ H]; [|done]. apply app_inj_1 in H as [-> H]; [|lia]. apply app_inj_1 in H as [-> H]; [|lia].
  destruct p, p'. injection H as -> ->. done.
Qed.

Lemma hsdir_preimage_inj (k k' s s' : bytes) (j j' p p' : Z) :
  length k = length k' -> u_range 64 p -> u_range 64 p' ->
  hsdir_preimage k j p s = hsdir_preimage k' j' p' s' -> k = k' /\ j = j' /\ p = p' /\ s = s'.
Proof.
  intros Lk Hp Hp' H. unfold hsdir_preimage in H. apply app_inj_1 in H as [_ H]; [|done].
  apply app_inj_1 in H as [-> H]; [|done]. apply app_inj_1 in H as [Hj H]; [|done]. injection Hj as ->.
  apply app_inj_1 in H as [HL ->]; [|by rewrite !length_le_encode]. apply le_encode_inj in HL as ->; [done|exact Hp|exact Hp'].
Qed.

Section Separation.
Context `{Hash : Sha256} `{!Sha256Laws Hash}.

Lemma DeriveKey_ok (c : RecordClass) (i k : bytes) : DeriveKey (Some c) i = Ok k -> k = sha256 (key_preimage c i).
Proof. by intros [= <-]. Qed.
Lemma DeriveKadID_ok (n s : bytes) (p : NetworkPrefix) (k : bytes) :
  DeriveKadID n s p = Ok k <-> prefix_wf p = true /\ k = sha256 (kadid_preimage n s p).
Proof.
  unfold DeriveKadID. destruct (prefix_wf p); cbn; split; [by intros [= <-]|by intros [_ ->]|done|by intros [? _]].
Qed.
Lemma HSDirIndex_ok (kB : bytes) (j per : Z) (s k : bytes) :
  HSDirIndex kB j per s = Ok k -> kB <> [] /\ j < 8 /\ k = sha256 (hsdir_preimage kB j per s).
Proof.
  unfold HSDirIndex. intros H. outcome_inv. zbool. split; [by intros ->|]. split; [unfold DescriptorReplicaPositions in *; lia|done].
Qed.

(** Nothing in the keyspace stands in for anything else: short of a SHA-256
    collision of the very inputs, equal keys come from the same class and the same input; no record
    key is a node's position nor a descriptor position; equal node positions come
    from one identity, one epoch's mix and one network prefix; and the positions of
    a descriptor move with its key, its index, its period and the mix. *)
Theorem positions_never_confused (c c' : RecordClass) (i i' n n' s s' : bytes) (p p' : NetworkPrefix) (kB kB' : bytes)
    (j j' per per' : Z) (k : bytes)
    (Hn : array_ok 32 n) (Hn' : array_ok 32 n') (Hs : array_ok 32 s) (Hs' : array_ok 32 s')
    (HkB : length kB = length kB') (Hper : u_range 64 per) (Hper' : u_range 64 per') :
  (DeriveKey (Some c) i = Ok k -> DeriveKey (Some c') i' = Ok k -> unless_collide (key_preimage c i) (key_preimage c' i') (c = c' /\ i = i')) /\
  (DeriveKadID n s p = Ok k -> DeriveKadID n' s' p' = Ok k -> unless_collide (kadid_preimage n s p) (kadid_preimage n' s' p') (n = n' /\ s = s' /\ p = p')) /\
  (HSDirIndex kB j per s = Ok k -> HSDirIndex kB' j' per' s' = Ok k -> unless_collide (hsdir_preimage kB j per s) (hsdir_preimage kB' j' per' s') (kB = kB' /\ j = j' /\ per = per' /\ s = s')) /\
  (DeriveKey (Some c) i = Ok k -> DeriveKadID n s p = Ok k -> sha_collide (key_preimage c i) (kadid_preimage n s p)) /\
  (DeriveKey (Some c) i = Ok k -> HSDirIndex kB j per s = Ok k -> sha_collide (key_preimage c i) (hsdir_preimage kB j per s)) /\
  (DeriveKadID n s p = Ok k -> HSDirIndex kB j per s = Ok k -> sha_collide (kadid_preimage n s p) (hsdir_preimage kB j per s)).
Proof.
  split; [intros H1 H2; apply DeriveKey_ok in H1 as ->; apply DeriveKey_ok in H2; revert H2; apply sha_same; apply key_preimage_inj|].
  split; [intros H1 H2; apply DeriveKadID_ok in H1 as [_ ->]; apply DeriveKadID_ok in H2 as [_ H2]; revert H2;
    apply sha_same; by apply kadid_preimage_inj|].
  split; [intros H1 H2; apply HSDirIndex_ok in H1 as (_ & _ & ->); apply HSDirIndex_ok in H2 as (_ & _ & H2); revert H2;
    apply sha_same; by apply hsdir_preimage_inj|].
  split; [|split]; intros H1 H2.
  - apply DeriveKey_ok in H1 as ->. apply DeriveKadID_ok in H2 as [_ H2]. split; [apply key_not_kadid|exact H2].
  - apply DeriveKey_ok in H1 as ->. apply HSDirIndex_ok in H2 as (_ & _ & H2). split; [apply key_not_hsdir|exact H2].
  - apply DeriveKadID_ok in H1 as [_ ->]. apply HSDirIndex_ok in H2 as (_ & _ & H2). split; [apply kadid_not_hsdir|exact H2].
Qed.

(** ** Where a peer speaks from *)

(** A claimed position stands only where it was ground: [VerifyKadID] accepts
    exactly the position derived from the peer's identity, the epoch's mix and
    the network prefix of the address it is speaking from; an IPv4-mapped address
    counts as the IPv4 address it is. *)
Theorem VerifyKadID_decides (claimed nodePub srv : bytes) (observed : Addr) :
  VerifyKadID claimed nodePub srv observed = Ok tt <->
  exists p, PrefixFor observed = Ok p /\ DeriveKadID nodePub srv p = Ok claimed.
Proof.
  unfold VerifyKadID. split.
  - intros H. outcome_inv. zbool. subst. eauto.
  - intros (p & -> & HD). cbn [obind]. rewrite HD. cbn [obind]. by rewrite bool_decide_eq_true_2.
Qed.
End Separation.

(** ** The mix is never invented *)

(** What the beacon has ever answered. *)
Definition answered (log : list (Z * bytes)) (s : SRVStore) : Prop :=
  (is_Some (srv_acquired s) -> (srv_epoch s, srv_current s) ∈ log) /\ (srv_acquired s = None -> srv_previous s = None) /\
  (forall m e, srv_previous s = Some (m, e) -> (e, m) ∈ log /\ e <> srv_epoch s).

(** Refreshes, each with the beacon of the moment, and the log of good answers. *)
Fixpoint refresh_run (rs : list ((Z -> outcome dht_err bytes) * Z * Z)) (s : SRVStore) (log : list (Z * bytes))
    : SRVStore * list (Z * bytes) :=
  match rs with
  | [] => (s, log)
  | (src, epoch, now) :: rs =>
      let log := match src epoch with Ok m => (epoch, m) :: log | _ => log end in
      refresh_run rs (Refresh src epoch now s).1 log
  end.

Lemma refresh_answered (src : Z -> outcome dht_err bytes) (epoch now : Z) (s : SRVStore) (log : list (Z * bytes)) :
  answered log s -> answered (match src epoch with Ok m => (epoch, m) :: log | _ => log end) (Refresh src epoch now s).1.
Proof.
  intros (H1 & H0 & H2). unfold Refresh. destruct (src epoch) as [m|e|]; cbn [fst]; [|by split..].
  split; [intros _; by left|]. split; [done|]. cbn [srv_epoch srv_previous].
  intros m' e'. case_bool_decide as HA; cbn [andb].
  - destruct (Z.eqb_spec epoch (srv_epoch s)) as [->|Hne]; cbn [negb].
    + intros HP. destruct (H2 _ _ HP) as [HI HE]. split; [by right|done].
    + intros [= <- <-]. split; [right; auto|done].
  - rewrite H0; [done|]. destruct (srv_acquired s); [exfalso; apply HA; by eexists|done].
Qed.

(** The randomness that places every node is never invented: whatever the
    beacon does - answering, failing, at any times and in any order - the current
    mix is one a beacon answered for that epoch, the previous one too and for a
    different epoch, and before the first answer there is none; a failure leaves
    both as they were. *)
Theorem srv_never_invented (rs : list ((Z -> outcome dht_err bytes) * Z * Z)) :
  let (s, log) := refresh_run rs NewSRVStore [] in
  (forall m e, Current s = Ok (m, e) -> (e, m) ∈ log) /\
  (forall m e, Previous s = Some (m, e) -> (e, m) ∈ log /\ e <> srv_epoch s) /\
  (log = [] -> Current s = Err ErrNoSRV /\ forall now, Staleness now s = (0, true)) /\
  (forall src epoch now e, src epoch = Err e -> Current (Refresh src epoch now s).1 = Current s).
Proof.
  assert (forall s log, answered log s -> let (s', log') := refresh_run rs s log in answered log' s') as HR.
  { induction rs as [|[[src epoch] now] rs IH]; intros s log H; [done|]. cbn [refresh_run]. apply IH. by apply refresh_answered. }
  specialize (HR NewSRVStore []). destruct (refresh_run rs NewSRVStore []) as [s log].
  destruct HR as (H1 & H0 & H2); [split; [intros [? ?]; done|split; [done|intros ? ? ?; done]]|].
  unfold Current, Previous, Staleness. split.
  { destruct (srv_acquired s); [|done]. intros m e [= <- <-]. apply H1. by eexists. }
  split; [exact H2|]. split.
  - intros ->. destruct (srv_acquired s); [|done]. exfalso. apply (not_elem_of_nil (srv_epoch s, srv_current s)). apply H1. by eexists.
  - intros src epoch now e He. unfold Refresh. rewrite He. done.
Qed.

(** ** Witnesses *)


Definition toy_key (z : Z) : bytes := be_encode 32 z.
Lemma toy_key_ok (z : Z) : key_ok (toy_key z).
Proof. apply be_encode_array. Qed.

Lemma xor_metric_witness : dist (toy_key 5) (toy_key 12) = dist (toy_key 12) (toy_key 5).
Proof. apply (xor_metric (toy_key 5) (toy_key 12) (toy_key 7) (toy_key_ok _) (toy_key_ok _) (toy_key_ok _)). Defined.

Lemma bucket_is_magnitude_witness : dist (toy_key 5) (toy_key 4) < dist (toy_key 5) (toy_key 12).
Proof.
  apply (bucket_is_magnitude (toy_key 5) (toy_key 12) (toy_key_ok _) (toy_key_ok _)); [vm_compute; discriminate|apply toy_key_ok|].
  vm_compute. reflexivity.
Defined.

Lemma positions_never_confused_witness :
  unless_collide (key_preimage ClassRelay [1; 2]) (key_preimage ClassRelay [1; 2]) (ClassRelay = ClassRelay /\ [1; 2] = [1; 2]).
Proof.
  refine (proj1 (positions_never_confused ClassRelay ClassRelay [1; 2] [1; 2] (zeros 32) (zeros 32) (zeros 32) (zeros 32)
    (mkPrefix 4 [1; 2; 3]) (mkPrefix 4 [1; 2; 3]) [7] [7] 0 0 1 1 (sha256 (key_preimage ClassRelay [1; 2]))
    (zeros_ok _) (zeros_ok _) (zeros_ok _) (zeros_ok _) eq_refl _ _) eq_refl eq_refl); split; reflexivity || discriminate.
Defined.
