(* ===== verification/DhtTable.v ===== *)
(** * The AXON DHT: the routing table ([internal/axon/dht/table.go])

    A Kademlia table with caps on how much of a bucket one network or one
    autonomous system may hold, and the sibling list, from which replica sets are
    chosen, under caps of its own.  A Go map of buckets iterates in any order:
    where that shows, the theorems quantify over the order.  [sort.Slice] leaves
    contacts at equal distance in an unspecified order; the model's sort is
    stable, and no theorem depends on it. *)
From S2P Require Import Prelude.
From S2P Require Import GoBytes.
From S2P Require Import RecordUpdate.
From S2P Require Import DhtKeys.

Definition BucketSize : nat := 20.
Definition Concurrency : nat := 3.
Definition DisjointPaths : nat := 3.
Definition SiblingCount : nat := 16.
Definition MaxPerPrefixPerBucket : nat := 2.
Definition MaxPerASNPerBucket : nat := 8.
Definition MaxPerPrefixInSiblings : nat := 1.
Definition MaxPerASNInSiblings : nat := 1.

Record Contact : Type := mkContact {
  c_NodeIDPub : bytes;
  c_KadID : bytes;
  c_Addr : Addr;
  c_Prefix : NetworkPrefix;
  c_ASN : Z;
  c_Verified : bool
}.
(** [%02x%x] *)
Definition prefixKey (c : Contact) : string := hex_encode (np_Encode (c_Prefix c)).

Record Table : Type := mkTable {
  tb_self : bytes;
  tb_buckets : gmap Z (list Contact);
  tb_siblings : list Contact
}.
#[export] Instance Table_eta : Eta Table := fun t => mkTable (tb_self t) (tb_buckets t) (tb_siblings t).
Definition NewTable (self : bytes) : Table := mkTable self ∅ [].

Definition same_node (pub : bytes) (c : Contact) : bool := bool_decide (c_NodeIDPub c = pub).
Definition Bucket (t : Table) (idx : Z) : list Contact := default [] (tb_buckets t !! idx).
Definition Siblings (t : Table) : list Contact := tb_siblings t.
Definition bucketIndex (self k : bytes) : Z :=
  let i := CommonPrefixLen self k in if 256 <=? i then 255 else i.

(** [sort.Slice] by distance to [key]. *)
Definition not_farther (key : bytes) (a b : Contact) : Prop :=
  Key_Less (Distance (c_KadID b) key) (Distance (c_KadID a) key) = false.
#[export] Instance not_farther_dec (key : bytes) (a b : Contact) : Decision (not_farther key a b).
Proof. unfold not_farther. apply _. Defined.
Definition sort_by_distance (key : bytes) (l : list Contact) : list Contact := merge_sort (not_farther key) l.

(** ** Admission *)

(** The loop that looks for the contact and puts [c] in its place; [None] is not
    found. *)
Fixpoint put_again (c : Contact) (b : list Contact) : option (list Contact) :=
  match b with
  | [] => None
  | x :: b => if same_node (c_NodeIDPub c) x then Some (c :: b) else cons x <$> put_again c b
  end.
Definition count_prefix (c : Contact) (b : list Contact) : nat :=
  length (filter (fun x => prefixKey x = prefixKey c) b).
Definition count_asn (c : Contact) (b : list Contact) : nat :=
  if c_ASN c =? 0 then 0 else length (filter (fun x => c_ASN x = c_ASN c) b).

Definition updateSiblings (c : Contact) (t : Table) : Table :=
  if negb (c_Verified c) then t
  else
    match put_again c (tb_siblings t) with
    | Some l => t <| tb_siblings := l |>
    | None =>
        if (MaxPerPrefixInSiblings <=? count_prefix c (tb_siblings t))%nat then t
        else if negb (c_ASN c =? 0) && (MaxPerASNInSiblings <=? count_asn c (tb_siblings t))%nat then t
        else t <| tb_siblings := take SiblingCount (sort_by_distance (tb_self t) (tb_siblings t ++ [c])) |>
    end.

(** [Admit] before the deferred update of the siblings. *)
Definition admit_bucket (c : Contact) (t : Table) : Table * outcome dht_err unit :=
  let idx := bucketIndex (tb_self t) (c_KadID c) in
  let b := Bucket t idx in
  match put_again c b with
  | Some b' => (if c_Verified c then t <| tb_buckets ::= <[idx := b']> |> else t, Ok tt)
  | None =>
      if (MaxPerPrefixPerBucket <=? count_prefix c b)%nat then (t, Err ErrPrefixCapReached)
      else if negb (c_ASN c =? 0) && (MaxPerASNPerBucket <=? count_asn c b)%nat then (t, Err ErrASNCapReached)
      else if (BucketSize <=? length b)%nat then (t, Err ErrBucketFull)
      else (t <| tb_buckets ::= <[idx := b ++ [c]]> |>, Ok tt)
  end.
Definition Admit (c : Contact) (t : Table) : Table * outcome dht_err unit :=
  let (t, r) := admit_bucket c t in (updateSiblings c t, r).

(** ** Ejection *)

Definition without (pub : bytes) (l : list Contact) : list Contact := filter (fun c => same_node pub c = false) l.
Definition keep_bucket (pub : bytes) (b : list Contact) : option (list Contact) :=
  match without pub b with [] => None | kept => Some kept end.
Definition all_contacts (t : Table) : list Contact := concat (map snd (map_to_list (tb_buckets t))).
Definition Eject (pub : bytes) (t : Table) : Table * Z :=
  let removed l := Z.of_nat (length l) - Z.of_nat (length (without pub l)) in
  (mkTable (tb_self t) (omap (keep_bucket pub) (tb_buckets t)) (without pub (tb_siblings t)),
   removed (all_contacts t) + removed (tb_siblings t)).

(** ** Reading *)

Definition Len (t : Table) : Z := Z.of_nat (length (all_contacts t)).
(** [all]: the contacts in the order the map gave them. *)
Definition closest_of (key : bytes) (n : Z) (verifiedOnly : bool) (all : list Contact) : outcome dht_err (list Contact) :=
  let all := sort_by_distance key (filter (fun c => verifiedOnly && negb (c_Verified c) = false) all) in
  if n <? Z.of_nat (length all) then (if n <? 0 then Panic else Ok (take (Z.to_nat n) all)) else Ok all.
Definition Closest (t : Table) (key : bytes) (n : Z) (verifiedOnly : bool) : outcome dht_err (list Contact) :=
  closest_of key n verifiedOnly (all_contacts t).

(** ** The epoch boundary *)

Section Rebuild.
Context `{Hash : Sha256}.

Definition set_KadID (id : bytes) (c : Contact) : Contact :=
  mkContact (c_NodeIDPub c) id (c_Addr c) (c_Prefix c) (c_ASN c) (c_Verified c).
(** The loop: the table, and how many were kept and dropped. *)
Fixpoint rebuild_each (srv : bytes) (old : list Contact) (t : Table) (kept dropped : Z) : Table * (Z * Z) :=
  match old with
  | [] => (t, (kept, dropped))
  | c :: old =>
      match DeriveKadID (c_NodeIDPub c) srv (c_Prefix c) with
      | Ok id =>
          let (t, r) := Admit (set_KadID id c) t in
          match r with
          | Ok _ => rebuild_each srv old t (kept + 1) dropped
          | _ => rebuild_each srv old t kept (dropped + 1)
          end
      | _ => rebuild_each srv old t kept (dropped + 1)
      end
  end.
(** [old]: the contacts in the order the map gave them. *)
Definition rebuild_over (old : list Contact) (selfPub srv : bytes) (selfPrefix : NetworkPrefix) (t : Table)
    : Table * outcome dht_err (Z * Z) :=
  match DeriveKadID selfPub srv selfPrefix with
  | Ok newSelf => let (t, n) := rebuild_each srv old (NewTable newSelf) 0 0 in (t, Ok n)
  | Err e => (t, Err e)
  | Panic => (t, Panic)
  end.
Definition Rebuild (selfPub srv : bytes) (selfPrefix : NetworkPrefix) (t : Table) : Table * outcome dht_err (Z * Z) :=
  rebuild_over (all_contacts t) selfPub srv selfPrefix t.
End Rebuild.

(** ** Lists of contacts *)

Lemma put_again_some (c : Contact) (b b' : list Contact) :
  put_again c b = Some b' -> exists l x r, b = l ++ x :: r /\ b' = l ++ c :: r /\ c_NodeIDPub x = c_NodeIDPub c.
Proof.
  revert b'. induction b as [|x b IH]; intros b'; cbn [put_again]; [done|]. unfold same_node. case_bool_decide as H.
  - intros [= <-]. by exists [], x, b.
  - intros HP. apply fmap_Some in HP as (k & HP & ->). destruct (IH _ HP) as (l & y & r & -> & -> & E). by exists (x :: l), y, r.
Qed.

Lemma put_again_none (c : Contact) (b : list Contact) : put_again c b = None -> c_NodeIDPub c ∉ map c_NodeIDPub b.
Proof.
  induction b as [|x b IH]; cbn [put_again map]; [intros _; apply not_elem_of_nil|]. unfold same_node. case_bool_decide as H; [done|].
  intros HP. apply fmap_None in HP. apply not_elem_of_cons. split; [done|by apply IH].
Qed.

(** Where an identity is: its position, network and autonomous system. *)
Abbreviation whereabouts := (bytes -> bytes * NetworkPrefix * Z).
Record at_home (f : whereabouts) (c : Contact) : Prop := {
  ah_key : key_ok (c_KadID c);
  ah_facts : (c_KadID c, c_Prefix c, c_ASN c) = f (c_NodeIDPub c)
}.

Lemma at_home_same (f : whereabouts) (x c : Contact) :
  at_home f x -> at_home f c -> c_NodeIDPub x = c_NodeIDPub c ->
  c_KadID x = c_KadID c /\ prefixKey x = prefixKey c /\ c_ASN x = c_ASN c.
Proof.
  intros [_ Hx] [_ Hc] E. rewrite E, <- Hc in Hx. injection Hx as H1 H2 H3. unfold prefixKey. by rewrite H2.
Qed.

(** How many contacts of a list are in one network, or one autonomous system. *)
Definition in_prefix (p : string) (l : list Contact) : nat := length (filter (fun x => prefixKey x = p) l).
Definition in_asn (a : Z) (l : list Contact) : nat := length (filter (fun x => c_ASN x = a) l).

Lemma count_filter_put {P : Contact -> Prop} `{forall x, Decision (P x)} (l r : list Contact) (x c : Contact) :
  (P x <-> P c) -> length (filter P (l ++ x :: r)) = length (filter P (l ++ c :: r)).
Proof.
  intros HP. rewrite !filter_app, !length_app, !filter_cons. destruct (decide (P x)), (decide (P c)); try done; tauto.
Qed.

Lemma length_filter_snoc {P : Contact -> Prop} `{forall x, Decision (P x)} (l : list Contact) (c : Contact) :
  length (filter P (l ++ [c])) = (length (filter P l) + if decide (P c) then 1 else 0)%nat.
Proof. rewrite filter_app, length_app, filter_cons. by destruct (decide (P c)). Qed.

(** ** Buckets *)

Record bucket_ok (self : bytes) (i : Z) (b : list Contact) : Prop := {
  bo_here : Forall (fun c => bucketIndex self (c_KadID c) = i) b;
  bo_ids : NoDup (map c_NodeIDPub b);
  bo_size : (length b <= BucketSize)%nat;
  bo_prefix : forall p, (in_prefix p b <= MaxPerPrefixPerBucket)%nat;
  bo_asn : forall a, a <> 0 -> (in_asn a b <= MaxPerASNPerBucket)%nat
}.

Lemma bucket_ok_nil (self : bytes) (i : Z) : bucket_ok self i [].
Proof. split; [constructor|constructor|apply Nat.le_0_l|intros p; apply Nat.le_0_l|intros a _; apply Nat.le_0_l]. Qed.

Lemma bucket_ok_put (f : whereabouts) (self : bytes) (i : Z) (l r : list Contact) (x c : Contact) :
  at_home f x -> at_home f c -> c_NodeIDPub x = c_NodeIDPub c -> bucketIndex self (c_KadID c) = i ->
  bucket_ok self i (l ++ x :: r) -> bucket_ok self i (l ++ c :: r).
Proof.
  intros Hx Hc E HI [H1 H2 H3 H4 H5]. destruct (at_home_same f x c Hx Hc E) as (_ & EP & EA).
  assert (map c_NodeIDPub (l ++ c :: r) = map c_NodeIDPub (l ++ x :: r)) as EM by (rewrite !map_app; cbn; by rewrite E).
  split; [|by rewrite EM| | |].
  - apply Forall_app in H1 as [HL HR]. apply Forall_cons in HR as [_ HR]. apply Forall_app. split; [done|by constructor].
  - rewrite length_app in *. exact H3.
  - intros p. unfold in_prefix. rewrite <- (count_filter_put l r x c); [apply H4|by rewrite EP].
  - intros a Ha. unfold in_asn. rewrite <- (count_filter_put l r x c); [by apply H5|by rewrite EA].
Qed.

Lemma bucket_ok_snoc (self : bytes) (i : Z) (b : list Contact) (c : Contact) :
  bucketIndex self (c_KadID c) = i -> c_NodeIDPub c ∉ map c_NodeIDPub b -> (length b < BucketSize)%nat ->
  (in_prefix (prefixKey c) b < MaxPerPrefixPerBucket)%nat -> (c_ASN c <> 0 -> (in_asn (c_ASN c) b < MaxPerASNPerBucket)%nat) ->
  bucket_ok self i b -> bucket_ok self i (b ++ [c]).
Proof.
  intros HI Hid HL HP HA [H1 H2 H3 H4 H5]. split.
  - apply Forall_app. split; [done|by constructor].
  - rewrite map_app. apply NoDup_app. split; [done|]. split; [|by apply NoDup_singleton].
    intros y Hy Hc. apply list_elem_of_singleton in Hc as ->. done.
  - rewrite length_app. cbn. unfold BucketSize in *. lia.
  - intros p. unfold in_prefix in *. rewrite length_filter_snoc. destruct (decide (prefixKey c = p)) as [<-|]; [lia|specialize (H4 p); lia].
  - intros a Ha. unfold in_asn in *. rewrite length_filter_snoc. destruct (decide (c_ASN c = a)) as [<-|]; [specialize (HA Ha); lia|].
    specialize (H5 a Ha); lia.
Qed.

Lemma filter_without_sublist {P : Contact -> Prop} `{forall x, Decision (P x)} (pub : bytes) (l : list Contact) :
  filter P (without pub l) `sublist_of` filter P l.
Proof.
  unfold without. induction l as [|x l IH]; [constructor|]. rewrite (filter_cons _ x l), (filter_cons P x l).
  destruct (decide (same_node pub x = false)); [rewrite filter_cons|];
    destruct (decide (P x)); (by apply sublist_skip || by apply sublist_cons || done).
Qed.

Lemma bucket_ok_without (self : bytes) (i : Z) (pub : bytes) (b : list Contact) :
  bucket_ok self i b -> bucket_ok self i (without pub b).
Proof.
  intros [H1 H2 H3 H4 H5]. pose proof (sublist_filter (fun c => same_node pub c = false) b) as HS.
  split.
  - rewrite Forall_forall in *. intros c Hc. apply list_elem_of_filter in Hc as [_ Hc]. by apply H1.
  - eapply sublist_NoDup; [exact H2|]. by apply fmap_sublist.
  - etrans; [|exact H3]. by apply sublist_length.
  - intros p. etrans; [apply sublist_length, filter_without_sublist|apply H4].
  - intros a Ha. etrans; [apply sublist_length, filter_without_sublist|by apply H5].
Qed.

(** ** Siblings *)

Definition asns (l : list Contact) : list Z := map c_ASN (filter (fun c => c_ASN c <> 0) l).
Record diverse (l : list Contact) : Prop := {
  dv_verified : Forall (fun c => c_Verified c = true) l;
  dv_ids : NoDup (map c_NodeIDPub l);
  dv_prefix : NoDup (map prefixKey l);
  dv_asn : NoDup (asns l)
}.

Lemma diverse_perm (l l' : list Contact) : l ≡ₚ l' -> diverse l -> diverse l'.
Proof.
  intros HP [H1 H2 H3 H4]. split.
  - by rewrite <- HP.
  - eapply NoDup_Permutation_proper; [symmetry; apply (fmap_Permutation c_NodeIDPub); exact HP|done].
  - eapply NoDup_Permutation_proper; [symmetry; apply (fmap_Permutation prefixKey); exact HP|done].
  - eapply NoDup_Permutation_proper; [symmetry; apply (fmap_Permutation c_ASN); by apply filter_Permutation|done].
Qed.

Lemma diverse_app_l (l l' : list Contact) : diverse (l ++ l') -> diverse l.
Proof.
  intros [H1 H2 H3 H4]. unfold asns in *. rewrite filter_app in H4. rewrite map_app in *.
  apply Forall_app in H1 as [H1 _]. apply NoDup_app in H2 as (H2 & _). apply NoDup_app in H3 as (H3 & _). apply NoDup_app in H4 as (H4 & _).
  by split.
Qed.

Lemma diverse_take (n : nat) (l : list Contact) : diverse l -> diverse (take n l).
Proof. intros H. apply (diverse_app_l _ (drop n l)). by rewrite take_drop. Qed.

Lemma count_zero_not_in {A : Type} `{EqDecision A} (g : Contact -> A) (a : A) (l : list Contact) :
  length (filter (fun x => g x = a) l) = 0%nat -> a ∉ map g l.
Proof.
  intros H HI. apply list_elem_of_fmap in HI as (c & -> & HI).
  assert (c ∈ filter (fun x => g x = g c) l) as HF by by apply list_elem_of_filter.
  destruct (filter _ l); [by apply not_elem_of_nil in HF|done].
Qed.

Lemma diverse_snoc (l : list Contact) (c : Contact) :
  c_Verified c = true -> c_NodeIDPub c ∉ map c_NodeIDPub l -> in_prefix (prefixKey c) l = 0%nat ->
  (c_ASN c <> 0 -> in_asn (c_ASN c) l = 0%nat) -> diverse l -> diverse (l ++ [c]).
Proof.
  intros HV Hid HP HA [H1 H2 H3 H4]. split.
  - apply Forall_app. split; [done|by constructor].
  - rewrite map_app. by apply NoDup_snoc.
  - rewrite map_app. apply NoDup_snoc; [done|]. by apply count_zero_not_in.
  - unfold asns in *. rewrite filter_app, map_app, filter_cons. destruct (decide (c_ASN c <> 0)) as [Hn|]; [|by rewrite app_nil_r].
    apply NoDup_snoc; [done|]. intros HI. apply (count_zero_not_in c_ASN _ _ (HA Hn)).
    apply list_elem_of_fmap in HI as (y & E & HI). apply list_elem_of_filter in HI as [_ HI]. apply list_elem_of_fmap. eauto.
Qed.

Lemma diverse_put (f : whereabouts) (l r : list Contact) (x c : Contact) :
  at_home f x -> at_home f c -> c_NodeIDPub x = c_NodeIDPub c -> c_Verified c = true ->
  diverse (l ++ x :: r) -> diverse (l ++ c :: r).
Proof.
  intros Hx Hc E HV [H1 H2 H3 H4]. destruct (at_home_same f x c Hx Hc E) as (_ & EP & EA).
  assert (map c_NodeIDPub (l ++ c :: r) = map c_NodeIDPub (l ++ x :: r)) as EM by (rewrite !map_app; cbn; by rewrite E).
  assert (map prefixKey (l ++ c :: r) = map prefixKey (l ++ x :: r)) as EM' by (rewrite !map_app; cbn [map]; by rewrite EP).
  split; [|by rewrite EM|by rewrite EM'|].
  - apply Forall_app in H1 as [HL HR]. apply Forall_cons in HR as [_ HR]. apply Forall_app. split; [done|by constructor].
  - unfold asns in *. rewrite filter_app, map_app, filter_cons in *. rewrite <- EA.
    destruct (decide (c_ASN x <> 0)); cbn in *; [by rewrite <- EA|done].
Qed.

Lemma diverse_without (pub : bytes) (l : list Contact) : diverse l -> diverse (without pub l).
Proof.
  intros [H1 H2 H3 H4]. pose proof (sublist_filter (fun c => same_node pub c = false) l) as HS. split.
  - rewrite Forall_forall in *. intros c Hc. apply list_elem_of_filter in Hc as [_ Hc]. by apply H1.
  - eapply sublist_NoDup; [exact H2|]. by apply fmap_sublist.
  - eapply sublist_NoDup; [exact H3|]. by apply fmap_sublist.
  - eapply sublist_NoDup; [exact H4|]. unfold asns. apply fmap_sublist. apply filter_without_sublist.
Qed.

(** ** Sorting by distance *)

Definition nearer_eq (key : bytes) (a b : Contact) : Prop := dist (c_KadID a) key <= dist (c_KadID b) key.

Lemma Sorted_strengthen {A : Type} (P : A -> Prop) (R Q : A -> A -> Prop) (l : list A) :
  (forall x y, P x -> P y -> R x y -> Q x y) -> Forall P l -> Sorted R l -> Sorted Q l.
Proof.
  intros H HP HS. induction HS as [|x l HS IH HH]; [constructor|]. apply Forall_cons in HP as [Hx HP].
  constructor; [by apply IH|]. destruct HH as [|y l HH]; constructor. apply Forall_cons in HP as [Hy _]. auto.
Qed.

Lemma sort_by_distance_perm (key : bytes) (l : list Contact) : sort_by_distance key l ≡ₚ l.
Proof. apply merge_sort_Permutation. Qed.

Lemma sort_by_distance_sorted (key : bytes) (l : list Contact) :
  key_ok key -> Forall (fun c => key_ok (c_KadID c)) l -> StronglySorted (nearer_eq key) (sort_by_distance key l).
Proof.
  intros Hk Hl. apply Sorted_StronglySorted; [intros a b c H1 H2; unfold nearer_eq in *; lia|].
  assert (forall x y, Key_Less x y = true -> Key_Less y x = false) as HA.
  { induction x as [|a x IH]; intros [|b y]; cbn [Key_Less]; try done. rewrite (Z.eqb_sym b a).
    destruct (Z.eqb_spec a b); cbn [negb]; [apply IH|]. intros H. zbool. apply Z.ltb_ge. lia. }
  apply (Sorted_strengthen (fun c => key_ok (c_KadID c)) (not_farther key)).
  - intros x y Hx Hy H. unfold not_farther in H. rewrite (Key_Less_spec 32) in H by (by apply Distance_array).
    apply Z.ltb_ge in H. exact H.
  - by rewrite sort_by_distance_perm.
  - apply Sorted_merge_sort. intros a b. unfold not_farther.
    destruct (Key_Less (Distance (c_KadID b) key) (Distance (c_KadID a) key)) eqn:E; [|by left]. right. by apply HA.
Qed.

Lemma StronglySorted_take {A : Type} (R : A -> A -> Prop) (n : nat) (l : list A) : StronglySorted R l -> StronglySorted R (take n l).
Proof. intros H. rewrite <- (take_drop n l) in H. by apply StronglySorted_app_1_l in H. Qed.

Lemma StronglySorted_without (R : Contact -> Contact -> Prop) (pub : bytes) (l : list Contact) :
  StronglySorted R l -> StronglySorted R (without pub l).
Proof.
  induction 1 as [|x l HS IH HF]; [constructor|]. unfold without in *. rewrite filter_cons. destruct (decide _); [|done].
  constructor; [done|]. rewrite Forall_forall in *. intros y Hy. apply list_elem_of_filter in Hy as [_ Hy]. by apply HF.
Qed.

Lemma sorted_put (key : bytes) (l r : list Contact) (x c : Contact) :
  c_KadID x = c_KadID c -> StronglySorted (nearer_eq key) (l ++ x :: r) -> StronglySorted (nearer_eq key) (l ++ c :: r).
Proof.
  intros E. rewrite !StronglySorted_app. intros (H1 & H2 & H3). inversion H3 as [|? ? H4 H5]; subst.
  assert (forall a, nearer_eq key a x <-> nearer_eq key a c) as HA by (intros a; unfold nearer_eq; by rewrite E).
  split; [|split; [done|]].
  - intros a b Ha Hb. apply elem_of_cons in Hb as [->|Hb]; [apply HA, H1; [done|by left]|apply H1; [done|by right]].
  - constructor; [done|]. eapply Forall_impl; [exact H5|]. intros b. unfold nearer_eq. by rewrite E.
Qed.

(** ** The invariant of the table *)

Record siblings_ok (self : bytes) (l : list Contact) : Prop := {
  so_diverse : diverse l;
  so_sorted : StronglySorted (nearer_eq self) l;
  so_size : (length l <= SiblingCount)%nat
}.
Record table_ok (f : whereabouts) (t : Table) : Prop := {
  to_self : key_ok (tb_self t);
  to_home : forall i b, tb_buckets t !! i = Some b -> Forall (at_home f) b;
  to_bucket : forall i b, tb_buckets t !! i = Some b -> bucket_ok (tb_self t) i b;
  to_sibling_home : Forall (at_home f) (tb_siblings t);
  to_siblings : siblings_ok (tb_self t) (tb_siblings t)
}.

Lemma updateSiblings_buckets (c : Contact) (t : Table) :
  tb_buckets (updateSiblings c t) = tb_buckets t /\ tb_self (updateSiblings c t) = tb_self t.
Proof.
  unfold updateSiblings. destruct (negb _); [done|]. destruct (put_again _ _); [done|]. destruct (_ <=? _)%nat; [done|].
  by destruct (_ && _).
Qed.

Lemma siblings_set (t : Table) (l : list Contact) : tb_siblings (t <| tb_siblings := l |>) = l.
Proof. done. Qed.

Lemma Admit_self (c : Contact) (t : Table) : tb_self (Admit c t).1 = tb_self t.
Proof.
  assert (tb_self (admit_bucket c t).1 = tb_self t) as H.
  { unfold admit_bucket. destruct (put_again c _); [by destruct (c_Verified c)|].
    repeat (match goal with |- context [if ?b then _ else _] => destruct b end); done. }
  unfold Admit. destruct (admit_bucket c t) as [t' r]. cbn [fst] in *. by rewrite (proj2 (updateSiblings_buckets c t')).
Qed.

Lemma updateSiblings_ok (f : whereabouts) (c : Contact) (t : Table) :
  at_home f c -> table_ok f t -> table_ok f (updateSiblings c t).
Proof.
  intros Hc HT. destruct (updateSiblings_buckets c t) as [EB ES]. pose proof HT as [T1 T2 T3 T4 [S1 S2 S3]].
  enough (Forall (at_home f) (tb_siblings (updateSiblings c t)) /\ siblings_ok (tb_self t) (tb_siblings (updateSiblings c t))) as [H1 H2].
  { split; [by rewrite ES|by rewrite EB|by rewrite EB, ES|done|by rewrite ES]. }
  unfold updateSiblings. destruct (c_Verified c) eqn:HV; cbn [negb]; [|split; [done|by split]].
  destruct (put_again c (tb_siblings t)) as [l'|] eqn:EP.
  - rewrite siblings_set. destruct (put_again_some _ _ _ EP) as (l & x & r & EL & -> & E). rewrite EL in T4, S1, S2, S3.
    apply Forall_app in T4 as [HL HR]. apply Forall_cons in HR as [Hx HR]. destruct (at_home_same f x c Hx Hc E) as (EK & _ & _).
    split; [apply Forall_app; split; [done|by constructor]|]. split.
    + by apply (diverse_put f l r x c).
    + by apply (sorted_put _ l r x c).
    + rewrite length_app in *. exact S3.
  - destruct (Nat.leb_spec MaxPerPrefixInSiblings (count_prefix c (tb_siblings t))) as [|HP]; [split; [done|by split]|].
    destruct (negb (c_ASN c =? 0) && (MaxPerASNInSiblings <=? count_asn c (tb_siblings t))%nat) eqn:EA; [split; [done|by split]|].
    rewrite siblings_set.
    assert (diverse (tb_siblings t ++ [c])) as HD.
    { apply diverse_snoc; [done|by apply put_again_none| | |done].
      - unfold count_prefix, MaxPerPrefixInSiblings in HP. unfold in_prefix. lia.
      - intros Hn. unfold count_asn, MaxPerASNInSiblings in EA. rewrite (proj2 (Z.eqb_neq _ _) Hn) in EA. cbn [negb andb] in EA.
        apply Nat.leb_gt in EA. unfold in_asn. lia. }
    pose proof (sort_by_distance_perm (tb_self t) (tb_siblings t ++ [c])) as HPm.
    assert (Forall (at_home f) (tb_siblings t ++ [c])) as HF by (apply Forall_app; split; [done|by constructor]).
    split; [apply Forall_take; by rewrite HPm|]. split.
    + apply diverse_take. by eapply diverse_perm; [symmetry; exact HPm|].
    + apply StronglySorted_take, sort_by_distance_sorted; [done|]. eapply Forall_impl; [exact HF|]. intros y [Hy _]. exact Hy.
    + rewrite length_take. lia.
Qed.

Lemma Bucket_ok (f : whereabouts) (t : Table) (i : Z) : table_ok f t -> bucket_ok (tb_self t) i (Bucket t i) /\ Forall (at_home f) (Bucket t i).
Proof.
  intros [_ T2 T3 _ _]. unfold Bucket. destruct (tb_buckets t !! i) as [b|] eqn:E; cbn; [split; eauto|].
  split; [apply bucket_ok_nil|constructor].
Qed.

Lemma table_insert_ok (f : whereabouts) (t : Table) (i : Z) (b : list Contact) :
  Forall (at_home f) b -> bucket_ok (tb_self t) i b -> table_ok f t ->
  table_ok f (t <| tb_buckets ::= <[i := b]> |>).
Proof.
  intros HF HB [T1 T2 T3 T4 T5]. split; cbn; [done| | |done|done];
    (intros j b' Hj; destruct (decide (j = i)) as [->|]; [rewrite lookup_insert_eq in Hj; by injection Hj as <-|
      rewrite lookup_insert_ne in Hj by done; eauto]).
Qed.

Lemma admit_bucket_ok (f : whereabouts) (c : Contact) (t : Table) :
  at_home f c -> table_ok f t -> table_ok f (admit_bucket c t).1.
Proof.
  intros Hc HT. unfold admit_bucket. set (i := bucketIndex (tb_self t) (c_KadID c)).
  destruct (Bucket_ok f t i HT) as [HB HF].
  destruct (put_again c (Bucket t i)) as [b'|] eqn:EP.
  - cbn [fst]. destruct (c_Verified c); [|done]. destruct (put_again_some _ _ _ EP) as (l & x & r & EL & -> & E).
    rewrite EL in HB, HF. apply Forall_app in HF as [HL HR]. apply Forall_cons in HR as [Hx HR]. apply table_insert_ok; [| |done].
    + apply Forall_app. split; [done|by constructor].
    + by apply (bucket_ok_put f _ _ l r x c).
  - destruct (Nat.leb_spec MaxPerPrefixPerBucket (count_prefix c (Bucket t i))) as [|HP]; [done|].
    destruct (negb (c_ASN c =? 0) && (MaxPerASNPerBucket <=? count_asn c (Bucket t i))%nat) eqn:EA; [done|].
    destruct (Nat.leb_spec BucketSize (length (Bucket t i))) as [|HL]; [done|]. cbn [fst].
    apply table_insert_ok; [apply Forall_app; split; [done|by constructor]| |done].
    apply bucket_ok_snoc; [done|by apply put_again_none|done|exact HP| |done].
    intros Hn. unfold count_asn in EA. rewrite (proj2 (Z.eqb_neq _ _) Hn) in EA. cbn [negb andb] in EA. by apply Nat.leb_gt in EA.
Qed.

Lemma Admit_ok (f : whereabouts) (c : Contact) (t : Table) : at_home f c -> table_ok f t -> table_ok f (Admit c t).1.
Proof.
  intros Hc HT. unfold Admit. pose proof (admit_bucket_ok f c t Hc HT) as H. destruct (admit_bucket c t) as [t' r].
  cbn [fst] in *. by apply updateSiblings_ok.
Qed.

Lemma Eject_lookup (pub : bytes) (t : Table) (i : Z) (b : list Contact) :
  tb_buckets (Eject pub t).1 !! i = Some b -> exists b0, tb_buckets t !! i = Some b0 /\ b = without pub b0.
Proof.
  cbn. rewrite lookup_omap. destruct (tb_buckets t !! i) as [b0|]; [|done]. cbn. unfold keep_bucket.
  destruct (without pub b0) eqn:E; [done|]. intros [= <-]. exists b0. by rewrite E.
Qed.

Lemma Forall_without (P : Contact -> Prop) (pub : bytes) (l : list Contact) : Forall P l -> Forall P (without pub l).
Proof. rewrite !Forall_forall. intros H c Hc. apply list_elem_of_filter in Hc as [_ Hc]. by apply H. Qed.

Lemma Eject_ok (f : whereabouts) (pub : bytes) (t : Table) : table_ok f t -> table_ok f (Eject pub t).1.
Proof.
  intros [T1 T2 T3 T4 [S1 S2 S3]]. split; [done| | |by apply Forall_without|split].
  - intros i b Hb. apply Eject_lookup in Hb as (b0 & Hb & ->). apply Forall_without. eauto.
  - intros i b Hb. apply Eject_lookup in Hb as (b0 & Hb & ->). apply bucket_ok_without. by apply T3.
  - by apply diverse_without.
  - by apply StronglySorted_without.
  - cbn [Eject fst tb_siblings]. etrans; [apply sublist_length, sublist_filter|done].
Qed.

(** Contacts arriving and peers being ejected. *)
Inductive table_event : Type := TAdmit (c : Contact) | TEject (pub : bytes).
Definition table_step (t : Table) (e : table_event) : Table :=
  match e with TAdmit c => (Admit c t).1 | TEject pub => (Eject pub t).1 end.
Definition table_run (t : Table) (es : list table_event) : Table := foldl table_step t es.
Definition event_at_home (f : whereabouts) (e : table_event) : Prop :=
  match e with TAdmit c => at_home f c | _ => True end.

Lemma NewTable_ok (f : whereabouts) (self : bytes) : key_ok self -> table_ok f (NewTable self).
Proof.
  intros H. split; [done|done|done|constructor|]. split; [split; constructor|constructor|apply Nat.le_0_l].
Qed.

Lemma table_run_ok (f : whereabouts) (es : list table_event) (t : Table) :
  Forall (event_at_home f) es -> table_ok f t -> table_ok f (table_run t es).
Proof.
  intros Hes. revert t. induction Hes as [|e es He Hes IH]; intros t HT; [done|]. cbn. apply IH.
  destruct e; [by apply Admit_ok|by apply Eject_ok].
Qed.

(** ** Theorems *)

(** C34. The admission caps hold: as long as each identity stays where it is - one
    position, one network, one autonomous system, as within an epoch it must -
    then whatever contacts arrive, verified or not, in whatever order, and
    whoever is ejected, every bucket holds at most 20 contacts of its own
    magnitude, no identity twice, at most 2 from one network and 8 from one
    autonomous system; and the siblings are at most 16 verified contacts, nearest
    first, no two from one network or one autonomous system. *)
Theorem table_caps_hold (f : whereabouts) (self : bytes) (es : list table_event)
    (Hself : key_ok self) (Hes : Forall (event_at_home f) es) :
  let t := table_run (NewTable self) es in
  (forall i b, tb_buckets t !! i = Some b -> bucket_ok self i b) /\ siblings_ok self (tb_siblings t).
Proof.
  intros t. pose proof (table_run_ok f es _ Hes (NewTable_ok f self Hself)) as [_ _ H3 _ H5].
  assert (tb_self t = self) as ES.
  { unfold t. clear. assert (forall t0, tb_self (table_run t0 es) = tb_self t0) as H; [|by rewrite H].
    induction es as [|e es IH]; intros t0; [done|]. cbn. rewrite IH. destruct e; [apply Admit_self|done]. }
  fold t in H3, H5. rewrite ES in *. split; done.
Qed.

(** The caps do not cover an identity that moves: re-admitting a verified
    contact whose network changed since replaces its entry without a look at the
    caps, so a bucket already holding as many as it may from the new network
    takes one more, and [Admit] reports success. *)
Theorem readmission_bypasses_caps (t : Table) (c old : Contact) (l r : list Contact)
    (Hb : Bucket t (bucketIndex (tb_self t) (c_KadID c)) = l ++ old :: r)
    (Hsame : c_NodeIDPub old = c_NodeIDPub c) (Honce : c_NodeIDPub c ∉ map c_NodeIDPub l)
    (Hverified : c_Verified c = true) (Hmoved : prefixKey old <> prefixKey c)
    (Hfull : in_prefix (prefixKey c) (l ++ old :: r) = MaxPerPrefixPerBucket) :
  exists t', Admit c t = (t', Ok tt) /\
    in_prefix (prefixKey c) (Bucket t' (bucketIndex (tb_self t) (c_KadID c))) = S MaxPerPrefixPerBucket.
Proof.
  assert (put_again c (l ++ old :: r) = Some (l ++ c :: r)) as HP.
  { clear -Hsame Honce. induction l as [|x l IH]; cbn [app put_again]; unfold same_node.
    - by rewrite bool_decide_eq_true_2.
    - cbn in Honce. apply not_elem_of_cons in Honce as [Hne Honce]. rewrite bool_decide_eq_false_2 by congruence.
      by rewrite IH. }
  unfold Admit, admit_bucket. rewrite Hb, HP, Hverified. eexists. split; [done|]. unfold Bucket.
  rewrite (proj1 (updateSiblings_buckets _ _)).
  change (tb_buckets (t <| tb_buckets ::= ?g |>)) with (g (tb_buckets t)). cbv beta. rewrite lookup_insert_eq. cbn [default from_option id].
  rewrite <- Hfull. unfold in_prefix. rewrite !filter_app, !length_app, !filter_cons.
  destruct (decide (prefixKey c = prefixKey c)); [|done]. destruct (decide (prefixKey old = prefixKey c)); [done|]. cbn. lia.
Qed.

(** [Closest] returns the nearest contacts there are: for any order in which
    the buckets are read, the result is sorted by distance to the key, has the
    [n] asked for or else every eligible contact, none of them unverified when
    only verified ones count, and no eligible contact left out is nearer than
    one returned. *)
Theorem closest_are_nearest (all out : list Contact) (key : bytes) (n : Z) (verifiedOnly : bool)
    (Hkey : key_ok key) (Hall : Forall (fun c => key_ok (c_KadID c)) all) (Hn : 0 <= n)
    (Hout : closest_of key n verifiedOnly all = Ok out) :
  StronglySorted (nearer_eq key) out /\
  (verifiedOnly = true -> Forall (fun c => c_Verified c = true) out) /\
  exists left, filter (fun c => verifiedOnly && negb (c_Verified c) = false) all ≡ₚ out ++ left /\
    (left = [] \/ Z.of_nat (length out) = n) /\ Z.of_nat (length out) <= n /\
    forall x y, x ∈ out -> y ∈ left -> nearer_eq key x y.
Proof.
  unfold closest_of in Hout. set (el := filter _ all) in *.
  assert (Forall (fun c => key_ok (c_KadID c)) el) as HE.
  { rewrite Forall_forall in *. intros c Hc. apply list_elem_of_filter in Hc as [_ Hc]. by apply Hall. }
  pose proof (sort_by_distance_sorted key el Hkey HE) as HS. pose proof (sort_by_distance_perm key el) as HP.
  set (s := sort_by_distance key el) in *.
  assert (exists left, s = out ++ left /\ (left = [] \/ Z.of_nat (length out) = n) /\ Z.of_nat (length out) <= n) as (left & EL & HL & HLn).
  { destruct (Z.ltb_spec n (Z.of_nat (length s))) as [Hlt|Hge].
    - rewrite (proj2 (Z.ltb_ge n 0)) in Hout by lia. injection Hout as <-. exists (drop (Z.to_nat n) s).
      rewrite take_drop, length_take. split; [done|]. split; [right|]; lia.
    - injection Hout as <-. exists []. rewrite app_nil_r. split; [done|]. split; [by left|lia]. }
  rewrite EL in HS, HP. apply StronglySorted_app in HS as (H1 & H2 & _). split; [done|]. split.
  - intros ->. rewrite Forall_forall. intros c Hc. assert (c ∈ el) as Hel by (rewrite <- HP; apply elem_of_app; by left).
    apply list_elem_of_filter in Hel as [Hv _]. cbn [andb] in Hv. by apply negb_false_iff in Hv.
  - exists left. split; [by rewrite <- HP|]. split; [done|]. split; [done|]. exact H1.
Qed.

(** ** The epoch boundary *)

Section Boundary.
Context `{Hash : Sha256} `{!Sha256Laws Hash}.

(** Where everyone is under the next mix. *)
Definition moved_by (srv : bytes) (f : whereabouts) : whereabouts :=
  fun id => let '(_, p, a) := f id in (sha256 (kadid_preimage id srv p), p, a).

Lemma moved_at_home (srv : bytes) (f : whereabouts) (c : Contact) (id : bytes) :
  at_home f c -> DeriveKadID (c_NodeIDPub c) srv (c_Prefix c) = Ok id -> at_home (moved_by srv f) (set_KadID id c).
Proof.
  intros [_ HF] HD. apply DeriveKadID_ok in HD as [_ ->]. split; [apply sha256_array|]. cbn [set_KadID c_NodeIDPub c_KadID c_Prefix c_ASN].
  unfold moved_by. rewrite <- HF. done.
Qed.

Lemma rebuild_each_ok (srv : bytes) (f : whereabouts) (old : list Contact) (t t' : Table) (k d k' d' : Z) :
  Forall (at_home f) old -> table_ok (moved_by srv f) t -> rebuild_each srv old t k d = (t', (k', d')) ->
  table_ok (moved_by srv f) t' /\ k' + d' = k + d + Z.of_nat (length old) /\ k <= k' /\ d <= d'.
Proof.
  intros Hold. revert t k d. induction Hold as [|c old Hc Hold IH]; intros t k d HT; cbn [rebuild_each length].
  { intros [= <- <- <-]. split; [done|]. lia. }
  destruct (DeriveKadID _ srv _) as [id|e|] eqn:ED; [|intros H; destruct (IH _ _ _ HT H) as (H1 & H2 & H3); (split; [done|]); lia..].
  pose proof (Admit_ok _ _ t (moved_at_home srv f c id Hc ED) HT) as HA. destruct (Admit _ t) as [t1 r]. cbn [fst] in HA.
  destruct r; intros H; destruct (IH _ _ _ HA H) as (H1 & H2 & H3); (split; [done|]); lia.
Qed.

(** After the epoch boundary nobody is looked for where they no longer are:
    in whatever order [Rebuild] takes the contacts of a sound table, the new
    table is sound for the positions the new mix gives each identity - every
    contact sits at its recomputed position, in the bucket of that position,
    under all the caps - and every contact is accounted for as kept or dropped. *)
Theorem Rebuild_moves_everyone (f : whereabouts) (old : list Contact) (selfPub srv : bytes) (selfPrefix : NetworkPrefix)
    (t t' : Table) (kept dropped : Z)
    (Ht : table_ok f t) (Hold : old ≡ₚ all_contacts t)
    (Hrun : rebuild_over old selfPub srv selfPrefix t = (t', Ok (kept, dropped))) :
  DeriveKadID selfPub srv selfPrefix = Ok (tb_self t') /\
  (forall i b c, tb_buckets t' !! i = Some b -> c ∈ b ->
     c_KadID c = sha256 (kadid_preimage (c_NodeIDPub c) srv (c_Prefix c)) /\ bucketIndex (tb_self t') (c_KadID c) = i) /\
  table_ok (moved_by srv f) t' /\ kept + dropped = Len t.
Proof.
  unfold rebuild_over in Hrun. destruct (DeriveKadID selfPub srv selfPrefix) as [self|e|] eqn:ED; [|done..].
  destruct (rebuild_each _ _ _ _ _) as [t1 [k d]] eqn:ER. injection Hrun as <- <- <-.
  assert (Forall (at_home f) old) as HF.
  { rewrite Hold. unfold all_contacts. rewrite Forall_concat, Forall_fmap, Forall_forall.
    intros [i b] Hb. apply elem_of_map_to_list in Hb. by apply (to_home f t Ht i). }
  assert (key_ok self) as HK by (apply DeriveKadID_ok in ED as [_ ->]; apply sha256_array).
  assert (tb_self t1 = self) as ES.
  { assert (forall l t0 k0 d0, tb_self (rebuild_each srv l t0 k0 d0).1 = tb_self t0) as HS.
    { clear. induction l as [|c l IH]; intros t0 k0 d0; cbn [rebuild_each]; [done|]. destruct (DeriveKadID _ _ _); [|apply IH..].
      pose proof (Admit_self (set_KadID a c) t0) as <-. destruct (Admit _ t0) as [ta ra]. destruct ra; apply IH. }
    specialize (HS old (NewTable self) 0 0). by rewrite ER in HS. }
  destruct (rebuild_each_ok srv f old _ _ _ _ _ _ HF (NewTable_ok _ self HK) ER) as (HT & HN & _).
  split; [by rewrite ES|]. split; [|split; [done|]].
  - intros i b c Hb Hc. pose proof (to_home _ _ HT i b Hb) as H1. rewrite Forall_forall in H1. destruct (H1 c Hc) as [_ HH].
    destruct (to_bucket _ _ HT i b Hb) as [H2 _ _ _ _]. rewrite Forall_forall in H2. split; [|by apply H2].
    revert HH. unfold moved_by. destruct (f (c_NodeIDPub c)) as [[q p] a]. intros HH. injection HH as H4 H5 _. by rewrite H4, H5.
  - unfold Len. rewrite <- Hold. lia.
Qed.
End Boundary.

(** ** Witnesses *)

Definition toy_contact (z : Z) (prefix : bytes) (asn : Z) (verified : bool) : Contact :=
  mkContact (be_encode 32 (1000 + z)) (toy_key z) AddrInvalid (mkPrefix 4 prefix) asn verified.
Definition net_a : bytes := [10; 0; 1].
Definition net_b : bytes := [10; 0; 2].
Definition toy_whereabouts (id : bytes) : bytes * NetworkPrefix * Z :=
  (toy_key (be_decode id - 1000), mkPrefix 4 (if be_decode id <? 1004 then net_a else net_b), be_decode id).
Definition toy_arrivals : list table_event :=
  map (fun z => TAdmit (toy_contact z (if 1000 + z <? 1004 then net_a else net_b) (1000 + z) (negb (z =? 5)))) [1; 2; 3; 4; 5; 6].

Lemma toy_arrivals_home : Forall (event_at_home toy_whereabouts) toy_arrivals.
Proof.
  unfold toy_arrivals. cbn [map]. repeat (constructor; [split; [apply toy_key_ok|vm_compute; reflexivity]|]). constructor.
Qed.

Lemma table_caps_hold_witness : siblings_ok (toy_key 0) (tb_siblings (table_run (NewTable (toy_key 0)) toy_arrivals)).
Proof. apply (table_caps_hold toy_whereabouts (toy_key 0) toy_arrivals (toy_key_ok 0) toy_arrivals_home). Defined.

(** Two in network a, one in network b: and the third moves to a. *)
Definition toy_far (z : Z) (prefix : bytes) : Contact := toy_contact (2 ^ 255 + z) prefix 0 true.
Definition toy_full : Table := table_run (NewTable (toy_key 0)) (map (fun c => TAdmit c) [toy_far 1 net_a; toy_far 2 net_a; toy_far 3 net_b]).

Lemma readmission_bypasses_caps_witness : exists t', Admit (toy_far 3 net_a) toy_full = (t', Ok tt) /\
  in_prefix (prefixKey (toy_far 3 net_a)) (Bucket t' 0) = 3%nat.
Proof.
  apply (readmission_bypasses_caps toy_full (toy_far 3 net_a) (toy_far 3 net_b) [toy_far 1 net_a; toy_far 2 net_a] []).
  - vm_compute. reflexivity.
  - reflexivity.
  - apply not_elem_of_cons. split; [vm_compute; discriminate|]. apply not_elem_of_cons. split; [vm_compute; discriminate|].
    apply not_elem_of_nil.
  - reflexivity.
  - vm_compute. discriminate.
  - vm_compute. reflexivity.
Defined.

(** An identity that moved is listed at both positions, and [Closest] returns it twice. *)
Example moved_contact_listed_twice :
  let t := table_run (NewTable (toy_key 0)) [TAdmit (toy_contact 1 net_a 7 true);
    TAdmit (mkContact (be_encode 32 1001) (toy_key (2 ^ 255)) AddrInvalid (mkPrefix 4 net_b) 8 true)] in
  c_NodeIDPub <$> match Closest t (toy_key 0) 8 true with Ok l => l | _ => [] end = [be_encode 32 1001; be_encode 32 1001].
Proof. vm_compute. reflexivity. Qed.

Lemma closest_are_nearest_witness : exists out,
  closest_of (toy_key 0) 2 true (all_contacts toy_full) = Ok out /\ StronglySorted (nearer_eq (toy_key 0)) out.
Proof.
  destruct (closest_of (toy_key 0) 2 true (all_contacts toy_full)) as [out| |] eqn:E; [|vm_compute in E; discriminate E..].
  exists out. split; [reflexivity|].
  refine (proj1 (closest_are_nearest (all_contacts toy_full) out (toy_key 0) 2 true (toy_key_ok 0) _ _ E)); [|discriminate].
  assert (all_contacts toy_full = [toy_far 1 net_a; toy_far 2 net_a; toy_far 3 net_b]) as -> by (vm_compute; reflexivity).
  repeat (constructor; [apply toy_key_ok|]). constructor.
Defined.

Lemma toy_new_table_ok : table_ok toy_whereabouts (table_run (NewTable (toy_key 0)) toy_arrivals).
Proof. apply table_run_ok; [exact toy_arrivals_home|]. apply NewTable_ok, toy_key_ok. Qed.

Lemma Rebuild_moves_everyone_witness : exists t' kept dropped,
  rebuild_over (all_contacts (table_run (NewTable (toy_key 0)) toy_arrivals)) (zeros 32) (toy_key 9) (mkPrefix 4 net_a)
    (table_run (NewTable (toy_key 0)) toy_arrivals) = (t', Ok (kept, dropped)) /\
  kept + dropped = Len (table_run (NewTable (toy_key 0)) toy_arrivals).
Proof.
  unfold rebuild_over. destruct (DeriveKadID (zeros 32) (toy_key 9) (mkPrefix 4 net_a)) as [self| |] eqn:ED; [|discriminate ED..].
  destruct (rebuild_each (toy_key 9) (all_contacts (table_run (NewTable (toy_key 0)) toy_arrivals)) (NewTable self) 0 0) as [t1 [k d]] eqn:ER.
  exists t1, k, d. split; [reflexivity|].
  refine (proj2 (proj2 (proj2 (Rebuild_moves_everyone toy_whereabouts (all_contacts (table_run (NewTable (toy_key 0)) toy_arrivals))
    (zeros 32) (toy_key 9) (mkPrefix 4 net_a) _ t1 k d toy_new_table_ok (Permutation_refl _) _)))).
  unfold rebuild_over. rewrite ED, ER. reflexivity.
Defined.
