(* ===== verification/DhtRecords.v ===== *)
(** * The AXON DHT: records ([internal/axon/dht/records.go], [validate.go],
    [report.go])

    The record classes, the key each derives from its own fields, validation,
    the rules by which replicas settle conflicts, the merge of storage locations,
    and the floor under sequence numbers.  CBOR and Ed25519 are libraries: the
    class [Cbor] names the calls; no theorem relies on more than that they are
    functions. *)
From S2P Require Import Prelude.
From S2P Require Import GoBytes.
From S2P Require Import DhtKeys.

(** ** The classes *)

Record RelayDescriptor : Type := mkRelayDescriptor {
  rd_Ver : Z; rd_NodeIDPub : bytes; rd_RoutingEd : bytes; rd_RoutingX : bytes; rd_Addrs : list string; rd_Caps : Z;
  rd_ClaimedBW : Z; rd_PrefixFamily : Z; rd_PrefixBytes : bytes; rd_ASN : Z; rd_BondRef : bytes; rd_Epoch : Z;
  rd_SRVEpoch : bytes; rd_Sequence : Z; rd_IssuedAt : Z; rd_ExpiresAt : Z; rd_Sig : bytes
}.
Record ServiceDescriptor : Type := mkServiceDescriptor {
  sd_Ver : Z; sd_BlindedPub : bytes; sd_TimePeriod : Z; sd_ReplicaIndex : Z; sd_DescSigningCert : bytes; sd_Revision : Z;
  sd_IssuedAt : Z; sd_ExpiresAt : Z; sd_Inner : bytes; sd_Sig : bytes
}.
Record DomainRecord : Type := mkDomainRecord {
  dr_Ver : Z; dr_NameHash : bytes; dr_DomainIDPub : bytes; dr_Records : bytes; dr_SnapshotRoot : bytes;
  dr_InclusionProof : bytes; dr_SRVEpoch : bytes; dr_Sequence : Z; dr_IssuedAt : Z; dr_ExpiresAt : Z; dr_Sig : bytes
}.
Record StorageEntry : Type := mkStorageEntry {
  se_HolderNodeID : bytes; se_BondRef : bytes; se_Bond : Z; se_ExpiresAt : Z; se_CID : bytes; se_Sig : bytes
}.
Record StorageLocation : Type := mkStorageLocation { sl_Ver : Z; sl_CID : bytes; sl_Entries : list StorageEntry }.
Record RegistrySnapshot : Type := mkRegistrySnapshot {
  rs_Ver : Z; rs_ChainID : Z; rs_SnapshotEpoch : Z; rs_SnapshotRoot : bytes; rs_EthBlockNumber : Z; rs_EthStateRoot : bytes;
  rs_AnchorTxProof : bytes; rs_BodyCID : bytes; rs_PublisherPub : bytes; rs_IssuedAt : Z; rs_ExpiresAt : Z; rs_Sig : bytes
}.
Record IntroPointRecord : Type := mkIntroPointRecord {
  ip_Ver : Z; ip_RoutingID : bytes; ip_SRVEpoch : bytes; ip_PoWSeed : bytes; ip_PoWDifficulty : Z; ip_TokenIssuerPub : bytes;
  ip_CapacityHint : Z; ip_Sequence : Z; ip_IssuedAt : Z; ip_ExpiresAt : Z; ip_Sig : bytes
}.
Record ContentReport : Type := mkContentReport {
  cr_Ver : Z; cr_NameHash : bytes; cr_ManifestCID : bytes; cr_Category : Z; cr_Reason : bytes; cr_Evidence : list bytes;
  cr_Reporter : bytes; cr_StakeRef : bytes; cr_Sequence : Z; cr_IssuedAt : Z; cr_ExpiresAt : Z; cr_Sig : bytes
}.
#[export] Instance StorageEntry_eq_dec : EqDecision StorageEntry.
Proof. solve_decision. Defined.

(** [Record]: what a decoded record of any class is. *)
Inductive DhtRecord : Type :=
| RRelay (r : RelayDescriptor) | RDesc (d : ServiceDescriptor) | RDomain (d : DomainRecord) | RLocation (l : StorageLocation)
| RSnapshot (s : RegistrySnapshot) | RIntro (i : IntroPointRecord) | RReport (r : ContentReport).

Definition Class_of (r : DhtRecord) : RecordClass :=
  match r with
  | RRelay _ => ClassRelay | RDesc _ => ClassDesc | RDomain _ => ClassDomain | RLocation _ => ClassLocation
  | RSnapshot _ => ClassSnapshot | RIntro _ => ClassIntro | RReport _ => ClassReport
  end.
Definition Seq_of (r : DhtRecord) : Z :=
  match r with
  | RRelay r => rd_Sequence r | RDesc d => sd_Revision d | RDomain d => dr_Sequence d | RLocation _ => 0
  | RSnapshot s => rs_SnapshotEpoch s | RIntro i => ip_Sequence i | RReport r => cr_Sequence r
  end.
Definition latest_expiry (l : list StorageEntry) : Z := foldl (fun latest e => if latest <? se_ExpiresAt e then se_ExpiresAt e else latest) 0 l.
(** Seconds. *)
Definition Expiry_of (r : DhtRecord) : Z :=
  match r with
  | RRelay r => rd_ExpiresAt r | RDesc d => sd_ExpiresAt d | RDomain d => dr_ExpiresAt d | RLocation l => latest_expiry (sl_Entries l)
  | RSnapshot s => rs_ExpiresAt s | RIntro i => ip_ExpiresAt i | RReport r => cr_ExpiresAt r
  end.

Definition appendU64 (b : bytes) (v : Z) : bytes := b ++ be_encode 8 v.

(** ** Bounds *)

Definition SizeBound (c : RecordClass) : Z :=
  match c with
  | ClassRelay => 2 * 1024 | ClassDesc => 8 * 1024 | ClassDomain => 16 * 1024 | ClassLocation => 8 * 1024
  | ClassSnapshot => 4 * 1024 | ClassIntro => 512 | ClassReport => 0
  end.
(** Nanoseconds. *)
Definition TTLBound (c : RecordClass) : Z :=
  NanoSecond * match c with
  | ClassRelay => 3 * 3600 | ClassDesc => 3 * 3600 | ClassDomain => 6 * 3600 | ClassLocation => 2 * 3600
  | ClassSnapshot => 48 * 3600 | ClassIntro => 30 * 60 | ClassReport => 0
  end.
Definition MaxTTL : Z := TTLBound ClassSnapshot.
Definition MaxStorageEntries : nat := 64.
Definition MaxReportReason : nat := 512.
Definition MaxReportEvidence : nat := 8.

(** The struct a class is decoded into. *)
Definition record_of_class (c : RecordClass) : Type :=
  match c with
  | ClassRelay => RelayDescriptor | ClassDesc => ServiceDescriptor | ClassDomain => DomainRecord | ClassLocation => StorageLocation
  | ClassSnapshot => RegistrySnapshot | ClassIntro => IntroPointRecord | ClassReport => ContentReport
  end.
Definition to_record (c : RecordClass) : record_of_class c -> DhtRecord :=
  match c with
  | ClassRelay => RRelay | ClassDesc => RDesc | ClassDomain => RDomain | ClassLocation => RLocation
  | ClassSnapshot => RSnapshot | ClassIntro => RIntro | ClassReport => RReport
  end.

(** The CBOR library in its two modes, and [crypto/ed25519]. *)
Class Cbor : Type := {
  cbor_marshal : DhtRecord -> bytes;
  cbor_marshal_entry : StorageEntry -> bytes;
  cbor_unmarshal : forall c : RecordClass, bytes -> option (record_of_class c);
  ed25519_verify : bytes -> bytes -> bytes -> bool
}.

Section Records.
Context `{Hash : Sha256} `{Codec : Cbor}.

(** ** Keys *)

(** What a record derives its key from. *)
Definition key_input (r : DhtRecord) : outcome dht_err bytes :=
  match r with
  | RRelay r =>
      if negb (Nat.eqb (length (rd_NodeIDPub r)) 32) || negb (Nat.eqb (length (rd_SRVEpoch r)) 32) then Err ErrWrongKey
      else Ok (rd_NodeIDPub r ++ rd_SRVEpoch r)
  | RDesc d =>
      if negb (Nat.eqb (length (sd_BlindedPub d)) 32) then Err ErrWrongKey
      else if DescriptorReplicaPositions <=? sd_ReplicaIndex d then Err ErrWrongKey
      else Ok (appendU64 (sd_BlindedPub d) (sd_TimePeriod d) ++ [sd_ReplicaIndex d])
  | RDomain d =>
      if negb (Nat.eqb (length (dr_NameHash d)) 32) || negb (Nat.eqb (length (dr_SRVEpoch d)) 32) then Err ErrWrongKey
      else Ok (dr_NameHash d ++ dr_SRVEpoch d)
  | RLocation l => if Nat.eqb (length (sl_CID l)) 0 then Err ErrWrongKey else Ok (sl_CID l)
  | RSnapshot s => Ok (appendU64 (appendU64 [] (rs_ChainID s)) (rs_SnapshotEpoch s))
  | RIntro i =>
      if negb (Nat.eqb (length (ip_RoutingID i)) 32) || negb (Nat.eqb (length (ip_SRVEpoch i)) 32) then Err ErrWrongKey
      else Ok (ip_RoutingID i ++ ip_SRVEpoch i)
  | RReport r =>
      if Nat.eqb (length (cr_NameHash r)) 0 then Err (ErrDht "axon/dht: report names no subject")
      else if Nat.eqb (length (cr_Reporter r)) 0 then Err (ErrDht "axon/dht: report has no reporter")
      else Ok (cr_NameHash r ++ cr_Reporter r)
  end.
Definition DerivedKey (r : DhtRecord) : outcome dht_err bytes :=
  let? input := key_input r in DeriveKey (Some (Class_of r)) input.
Definition relay_KadID (r : RelayDescriptor) : outcome dht_err bytes :=
  if negb (Nat.eqb (length (rd_NodeIDPub r)) 32) || negb (Nat.eqb (length (rd_SRVEpoch r)) 32) then Err ErrBadPrefix
  else DeriveKadID (rd_NodeIDPub r) (rd_SRVEpoch r) (mkPrefix (rd_PrefixFamily r) (rd_PrefixBytes r)).

(** ** Encoding *)

(** [signingBytes]: everything but the signature. *)
Definition unsigned (r : DhtRecord) : DhtRecord :=
  match r with
  | RRelay (mkRelayDescriptor a b c d e f g h i j k l m n o p _) => RRelay (mkRelayDescriptor a b c d e f g h i j k l m n o p [])
  | RDesc (mkServiceDescriptor a b c d e f g h i _) => RDesc (mkServiceDescriptor a b c d e f g h i [])
  | RDomain (mkDomainRecord a b c d e f g h i j _) => RDomain (mkDomainRecord a b c d e f g h i j [])
  | RSnapshot (mkRegistrySnapshot a b c d e f g h i j k _) => RSnapshot (mkRegistrySnapshot a b c d e f g h i j k [])
  | RIntro (mkIntroPointRecord a b c d e f g h i j _) => RIntro (mkIntroPointRecord a b c d e f g h i j [])
  | _ => r
  end.
Definition signingBytes (r : DhtRecord) : bytes := cbor_marshal (unsigned r).
Definition entry_signingBytes (e : StorageEntry) : bytes :=
  cbor_marshal_entry (mkStorageEntry (se_HolderNodeID e) (se_BondRef e) (se_Bond e) (se_ExpiresAt e) (se_CID e) []).

Definition CanonicalDigest (b : bytes) : bytes := sha256 b.
Definition DecodeRecord (c : RecordClass) (wire : bytes) : outcome dht_err DhtRecord :=
  match cbor_unmarshal c wire with Some r => Ok (to_record c r) | None => Err ErrBadEncoding end.
Definition IsCanonical (c : RecordClass) (wire : bytes) : outcome dht_err unit :=
  let? r := DecodeRecord c wire in
  fail? negb (bool_decide (wire = cbor_marshal r)) with ErrBadEncoding ;;
  Ok tt.

(** ** Validation *)

Definition verifySig (pub msg sig : bytes) : outcome dht_err unit :=
  fail? negb (Nat.eqb (length pub) 32) with ErrBadSignature ;;
  fail? negb (ed25519_verify pub msg sig) with ErrBadSignature ;;
  Ok tt.
Definition entry_Verify (e : StorageEntry) : outcome dht_err unit :=
  verifySig (se_HolderNodeID e) (entry_signingBytes e) (se_Sig e).

Definition issuedExpires (r : DhtRecord) : Z * Z :=
  match r with
  | RRelay r => (rd_IssuedAt r, rd_ExpiresAt r)
  | RDesc d => (sd_IssuedAt d, sd_ExpiresAt d)
  | RDomain d => (dr_IssuedAt d, dr_ExpiresAt d)
  | RSnapshot s => (rs_IssuedAt s, rs_ExpiresAt s)
  | RIntro i => (ip_IssuedAt i, ip_ExpiresAt i)
  | RLocation _ | RReport _ => (0, 0)
  end.
(** [now] is Unix seconds here; the subtraction is 64-bit. *)
Definition checkFreshness (r : DhtRecord) (now : Z) : outcome dht_err unit :=
  if bool_decide (Class_of r = ClassLocation) then Ok tt
  else
    let '(issued, expires) := issuedExpires r in
    fail? expires <=? now with ErrExpired ;;
    let bound := TTLBound (Class_of r) in
    fail? (0 <? bound) && (Z.quot bound NanoSecond <? wrap_i64 (expires - issued)) with ErrOverLongTTL ;;
    Ok tt.

(** What the registry and the light client answer, when there are any. *)
Record Authorities : Type := mkAuthorities {
  au_Chain : option (RegistrySnapshot -> outcome dht_err unit);
  au_Domain : option (bytes -> bytes -> bytes -> bytes -> outcome dht_err unit)
}.
Fixpoint check_entries (cid : bytes) (es : list StorageEntry) : outcome dht_err unit :=
  match es with
  | [] => Ok tt
  | e :: es =>
      fail? negb (bool_decide (se_CID e = cid)) with ErrWrongKey ;;
      let? _ := entry_Verify e in
      check_entries cid es
  end.
Definition checkAuthorisation (v : Authorities) (r : DhtRecord) : outcome dht_err unit :=
  match r with
  | RRelay d => verifySig (rd_NodeIDPub d) (signingBytes r) (rd_Sig d)
  | RDesc d => verifySig (sd_BlindedPub d) (signingBytes r) (sd_Sig d)
  | RIntro d => verifySig (ip_RoutingID d) (signingBytes r) (ip_Sig d)
  | RDomain d =>
      let? _ := verifySig (dr_DomainIDPub d) (signingBytes r) (dr_Sig d) in
      match au_Domain v with
      | None => Err (ErrDht "axon/dht: no registry snapshot available to authorise a DomainRecord")
      | Some f => f (dr_NameHash d) (dr_DomainIDPub d) (dr_SnapshotRoot d) (dr_InclusionProof d)
      end
  | RSnapshot s =>
      let? _ := verifySig (rs_PublisherPub s) (signingBytes r) (rs_Sig s) in
      match au_Chain v with
      | None => Err (ErrDht "axon/dht: no chain verifier available to authorise a RegistrySnapshot")
      | Some f => f s
      end
  | RLocation l =>
      fail? (MaxStorageEntries <? length (sl_Entries l))%nat with ErrTooManyEntries ;;
      check_entries (sl_CID l) (sl_Entries l)
  | RReport _ => Err ErrUnknownClass
  end.

(** ** The floor: times are nanoseconds *)

Record floorEntry : Type := mkFloor { fl_seq : Z; fl_retain : Z }.
Definition floor_Check (floors : gmap bytes floorEntry) (now : Z) (key : bytes) (seq : Z) : outcome dht_err unit :=
  match floors !! key with
  | None => Ok tt
  | Some e =>
      if fl_retain e <? now then Ok tt
      else if seq <? fl_seq e then Err ErrReplayedSeq else Ok tt
  end.
Definition floor_Record (floors : gmap bytes floorEntry) (now : Z) (key : bytes) (seq expiry : Z) : gmap bytes floorEntry :=
  let retain := expiry + 2 * MaxTTL in
  match floors !! key with
  | Some e =>
      if (seq <=? fl_seq e) && (now <? fl_retain e)
      then (if fl_retain e <? retain then <[key := mkFloor (fl_seq e) retain]> floors else floors)
      else <[key := mkFloor seq retain]> floors
  | None => <[key := mkFloor seq retain]> floors
  end.
Definition floor_Prune (floors : gmap bytes floorEntry) (now : Z) : gmap bytes floorEntry * Z :=
  let kept := filter (fun e => (fl_retain (snd e) <? now) = false) floors in
  (kept, Z.of_nat (size floors) - Z.of_nat (size kept)).

Record Validator : Type := mkValidator {
  v_now : Z;
  v_floor : option (gmap bytes floorEntry);
  v_auth : Authorities
}.
Definition Validate (v : Validator) (c : RecordClass) (key wire : bytes) : outcome dht_err DhtRecord :=
  let bound := SizeBound c in
  fail? bound =? 0 with ErrUnknownClass ;;
  fail? bound <? Z.of_nat (length wire) with ErrOversize ;;
  let? _ := IsCanonical c wire in
  let? rec := DecodeRecord c wire in
  fail? negb (bool_decide (Class_of rec = c)) with ErrWrongRecordType ;;
  let? derived := DerivedKey rec in
  fail? negb (bool_decide (derived = key)) with ErrWrongKey ;;
  let? _ := checkFreshness rec (v_now v / NanoSecond) in
  let? _ := checkAuthorisation (v_auth v) rec in
  let? _ := match v_floor v with Some fl => floor_Check fl (v_now v) key (Seq_of rec) | None => Ok tt end in
  Ok rec.

End Records.

(** ** What validation establishes *)

Definition owner (r : DhtRecord) : option bytes :=
  match r with
  | RRelay r => Some (rd_NodeIDPub r) | RDesc d => Some (sd_BlindedPub d) | RIntro i => Some (ip_RoutingID i) | _ => None
  end.
Definition sig_of (r : DhtRecord) : bytes :=
  match r with
  | RRelay r => rd_Sig r | RDesc d => sd_Sig d | RDomain d => dr_Sig d | RSnapshot s => rs_Sig s | RIntro i => ip_Sig i
  | RReport r => cr_Sig r | RLocation _ => []
  end.

Section Validated.
Context `{Hash : Sha256} `{!Sha256Laws Hash} `{Codec : Cbor}.

Lemma Class_of_decoded (c : RecordClass) (w : bytes) (r : DhtRecord) : DecodeRecord c w = Ok r -> Class_of r = c.
Proof. unfold DecodeRecord. destruct (cbor_unmarshal c w); [|done]. intros [= <-]. by destruct c. Qed.

Record validated (v : Validator) (c : RecordClass) (key wire : bytes) (r : DhtRecord) : Prop := {
  vd_size : Z.of_nat (length wire) <= SizeBound c;
  vd_class : Class_of r = c;
  vd_decoded : DecodeRecord c wire = Ok r;
  vd_canonical : wire = cbor_marshal r;
  vd_key : DerivedKey r = Ok key;
  vd_fresh : checkFreshness r (v_now v / NanoSecond) = Ok tt;
  vd_auth : checkAuthorisation (v_auth v) r = Ok tt;
  vd_floor : forall fl, v_floor v = Some fl -> floor_Check fl (v_now v) key (Seq_of r) = Ok tt
}.

Lemma Validate_ok (v : Validator) (c : RecordClass) (key wire : bytes) (r : DhtRecord) :
  Validate v c key wire = Ok r <-> SizeBound c <> 0 /\ validated v c key wire r.
Proof.
  unfold Validate, IsCanonical. split.
  - intros H. outcome_inv. zbool. split; [done|]. repeat match goal with a : () |- _ => destruct a end.
    split; try done; try congruence. intros fl HF. by rewrite HF in *.
  - intros [HB [H1 H2 H3 H4 H5 H6 H7 H8]]. rewrite (proj2 (Z.eqb_neq _ _) HB), (proj2 (Z.ltb_ge _ _) H1). cbn [guard_err].
    rewrite H3. cbn [obind]. rewrite (bool_decide_eq_true_2 _ H4). cbn [negb guard_err obind].
    rewrite (bool_decide_eq_true_2 _ H2). cbn [negb guard_err]. rewrite H5. cbn [obind].
    rewrite (bool_decide_eq_true_2 _ (eq_refl key)). cbn [negb guard_err]. rewrite H6. cbn [obind]. rewrite H7. cbn [obind].
    destruct (v_floor v) as [fl|]; [|done]. by rewrite (H8 fl eq_refl).
Qed.

Lemma DerivedKey_ok (r : DhtRecord) (k : bytes) :
  DerivedKey r = Ok k -> exists i, key_input r = Ok i /\ k = sha256 (key_preimage (Class_of r) i).
Proof. unfold DerivedKey. intros H. outcome_inv. eexists; split; [done|]. by apply DeriveKey_ok in H. Qed.

Lemma key_input_owner (r r' : DhtRecord) (i : bytes) :
  Class_of r = Class_of r' -> key_input r = Ok i -> key_input r' = Ok i -> owner r = owner r'.
Proof.
  destruct r, r'; cbn; intros HC H H'; try done; outcome_inv; zbool; f_equal;
    repeat match goal with H : (_ =? _)%nat = true |- _ => apply Nat.eqb_eq in H end;
    repeat match goal with H : (if ?b then _ else _) = Ok _ |- _ => destruct b eqn:?; [discriminate H|] end; outcome_inv; zbool.
  all: repeat match goal with H : (_ =? _)%nat = true |- _ => apply Nat.eqb_eq in H end.
  all: unfold appendU64 in *; rewrite <- ?app_assoc in *.
  all: match goal with H : ?a ++ _ = ?b ++ _ |- _ => apply app_inj_1 in H as [-> _]; [done|congruence] end.
Qed.

Lemma owner_signed (v : Validator) (c : RecordClass) (key wire pub : bytes) (r : DhtRecord) :
  validated v c key wire r -> owner r = Some pub -> ed25519_verify pub (signingBytes r) (sig_of r) = true.
Proof.
  intros [_ _ _ _ _ _ HA _] HO. destruct r; cbn in HO; try done; injection HO as <-; cbn in HA |- *;
    unfold verifySig in HA; outcome_inv; by zbool.
Qed.

(** C33. A record is replaced only by its owner: short of a SHA-256 collision, two
    records that validate under one key - by any validators, at any times - are of
    one class and derive from the same fields, and when the class names an owner in
    its key, the second is signed by the owner of the first. *)
Theorem overwrite_needs_owner (v v' : Validator) (c c' : RecordClass) (key wire wire' : bytes) (r r' : DhtRecord)
    (H : Validate v c key wire = Ok r) (H' : Validate v' c' key wire' = Ok r') :
  exists i i', key_input r = Ok i /\ key_input r' = Ok i' /\
    unless_collide (key_preimage c i) (key_preimage c' i')
      (c = c' /\ i = i' /\ forall pub, owner r = Some pub -> ed25519_verify pub (signingBytes r') (sig_of r') = true).
Proof.
  apply Validate_ok in H as [_ H]. apply Validate_ok in H' as [_ H'].
  destruct (DerivedKey_ok _ _ (vd_key _ _ _ _ _ H)) as (i & Hi & ->).
  destruct (DerivedKey_ok _ _ (vd_key _ _ _ _ _ H')) as (i' & Hi' & E). exists i, i'. split; [done|]. split; [done|].
  rewrite <- (vd_class _ _ _ _ _ H), <- (vd_class _ _ _ _ _ H'). revert E. apply sha_same.
  intros E. apply key_preimage_inj in E as [EC <-]. split; [done|]. split; [done|]. intros pub HO. eapply owner_signed; [exact H'|]. by rewrite <- (key_input_owner r r' i).
Qed.
End Validated.

(** ** Rollback *)

Inductive floor_event : Type := FRecord (now : Z) (key : bytes) (seq expiry : Z) | FPrune (now : Z).
Definition floor_step (fl : gmap bytes floorEntry) (e : floor_event) : gmap bytes floorEntry :=
  match e with
  | FRecord now key seq expiry => floor_Record fl now key seq expiry
  | FPrune now => (floor_Prune fl now).1
  end.
(** Between [t0] and [t1], with nothing recorded after it expired. *)
Definition event_in (t0 t1 : Z) (e : floor_event) : Prop :=
  match e with FRecord now _ _ expiry => t0 <= now <= t1 /\ now <= expiry | FPrune now => t0 <= now <= t1 end.

Definition floored (fl : gmap bytes floorEntry) (key : bytes) (seq until : Z) : Prop :=
  exists e, fl !! key = Some e /\ seq <= fl_seq e /\ until <= fl_retain e.

Lemma MaxTTL_pos : 0 < MaxTTL. Proof. reflexivity. Qed.

Lemma floor_Record_floors (fl : gmap bytes floorEntry) (now : Z) (key : bytes) (seq expiry : Z) :
  floored (floor_Record fl now key seq expiry) key seq (expiry + 2 * MaxTTL).
Proof.
  unfold floor_Record, floored. destruct (fl !! key) as [e|] eqn:E; [|rewrite lookup_insert_eq; eexists; split; [done|cbn; lia]].
  destruct ((seq <=? fl_seq e) && (now <? fl_retain e)) eqn:EB; [|rewrite lookup_insert_eq; eexists; split; [done|cbn; lia]].
  zbool. destruct (Z.ltb_spec (fl_retain e) (expiry + 2 * MaxTTL)); [rewrite lookup_insert_eq|rewrite E]; eexists; (split; [done|cbn; lia]).
Qed.

Lemma floored_step (fl : gmap bytes floorEntry) (e : floor_event) (key : bytes) (seq t0 t1 : Z) :
  event_in t0 t1 e -> t1 < t0 + 2 * MaxTTL -> floored fl key seq (t0 + 2 * MaxTTL) ->
  floored (floor_step fl e) key seq (t0 + 2 * MaxTTL).
Proof.
  intros HE HT (f & Lf & Hs & Hr). destruct e as [now k s x|now]; cbn [floor_step event_in] in *.
  - destruct (decide (k = key)) as [->|Hne].
    + unfold floor_Record, floored. rewrite Lf. destruct ((s <=? fl_seq f) && (now <? fl_retain f)) eqn:EB.
      * destruct (Z.ltb_spec (fl_retain f) (x + 2 * MaxTTL)); [rewrite lookup_insert_eq|rewrite Lf]; eexists; (split; [done|cbn; lia]).
      * rewrite lookup_insert_eq. eexists. split; [done|]. cbn. apply andb_false_iff in EB as [EB|EB]; zbool; lia.
    + exists f. split; [|done]. unfold floor_Record. repeat case_match; rewrite ?lookup_insert_ne by done; done.
  - exists f. split; [|done]. cbn. apply map_lookup_filter_Some. split; [done|]. cbn. apply Z.ltb_ge. lia.
Qed.

Lemma floored_run (evs : list floor_event) (fl : gmap bytes floorEntry) (key : bytes) (seq t0 t1 : Z) :
  Forall (event_in t0 t1) evs -> t1 < t0 + 2 * MaxTTL -> floored fl key seq (t0 + 2 * MaxTTL) ->
  floored (foldl floor_step fl evs) key seq (t0 + 2 * MaxTTL).
Proof.
  intros HE HT. revert fl. induction HE as [|e evs He HE IH]; intros fl H; [done|]. cbn [foldl]. apply IH. by eapply floored_step.
Qed.

Lemma floored_refuses (fl : gmap bytes floorEntry) (key : bytes) (seq until now s : Z) :
  floored fl key seq until -> now <= until -> s < seq -> floor_Check fl now key s = Err ErrReplayedSeq.
Proof.
  intros (e & L & Hs & Hr) Hn Hlt. unfold floor_Check. rewrite L, (proj2 (Z.ltb_ge _ _)) by lia. by rewrite (proj2 (Z.ltb_lt _ _)) by lia.
Qed.

Lemma fresh_window (r : DhtRecord) (now : Z) :
  Class_of r <> ClassLocation -> SizeBound (Class_of r) <> 0 -> checkFreshness r now = Ok tt ->
  now < (issuedExpires r).2 /\ wrap_i64 ((issuedExpires r).2 - (issuedExpires r).1) <= MaxTTL / NanoSecond.
Proof.
  unfold checkFreshness. intros HC HS. rewrite bool_decide_eq_false_2 by done. destruct (issuedExpires r) as [i e]. cbn [fst snd].
  intros H. outcome_inv. apply Z.leb_gt in E. split; [done|].
  destruct (Class_of r); try done; apply andb_false_iff in E0 as [E0|E0]; try discriminate E0;
    apply Z.ltb_ge in E0; (etrans; [exact E0|]); by vm_compute.
Qed.

(** A newer record cannot be rolled back: once a record has been validated and
    its sequence recorded, then - whatever else is recorded or pruned meanwhile, and
    for as long - no record of that key and class with a lower sequence number
    validates, provided it was issued by then and its times are sane: while the
    floor stands it is below it, and by the time the floor may go it has expired. *)
Theorem rollback_refused `{Hash : Sha256} `{Codec : Cbor} (v v' : Validator) (c : RecordClass) (key wire wire' : bytes)
    (r r' : DhtRecord) (fl : gmap bytes floorEntry) (evs : list floor_event)
    (Hc : c <> ClassLocation) (Hok : Validate v c key wire = Ok r)
    (Hnow : 0 <= v_now v <= v_now v') (Hevs : Forall (event_in (v_now v) (v_now v')) evs)
    (Hfl : v_floor v' = Some (foldl floor_step (floor_Record fl (v_now v) key (Seq_of r) (Expiry_of r * NanoSecond)) evs))
    (Hseq : Seq_of r' < Seq_of r) (Hissued : 0 <= (issuedExpires r').1 <= v_now v / NanoSecond)
    (Hexp : s_range 64 (issuedExpires r').2) :
  Validate v' c key wire' <> Ok r'.
Proof.
  intros H'. apply Validate_ok in Hok as [HB H]. apply Validate_ok in H' as [_ H'].
  pose proof (vd_class _ _ _ _ _ H) as Ec. pose proof (vd_class _ _ _ _ _ H') as Ec'.
  destruct (fresh_window r (v_now v / NanoSecond)) as [HX _]; [by rewrite Ec..|apply H|].
  destruct (fresh_window r' (v_now v' / NanoSecond)) as [HX' HW]; [by rewrite Ec'..|apply H'|].
  assert ((issuedExpires r).2 = Expiry_of r) as EX by (destruct r; try done; cbn in Ec; by subst c). rewrite EX in HX.
  assert (0 < NanoSecond) as HN by done. pose proof MaxTTL_pos as HM.
  pose proof (Z.div_le_mono (v_now v) (v_now v') NanoSecond HN ltac:(lia)). pose proof (Z.mul_succ_div_gt (v_now v) NanoSecond HN). pose proof (Z.mul_div_le (v_now v') NanoSecond HN).
  pose proof (Z.mul_succ_div_gt (v_now v') NanoSecond HN). pose proof (Z.mul_div_le (v_now v) NanoSecond HN).
  rewrite wrap_s_small in HW; [|lia|unfold s_range in *; lia].
  assert (v_now v' < v_now v + 2 * MaxTTL) as HT.
  { assert (MaxTTL = MaxTTL / NanoSecond * NanoSecond) as EM by done. set (q := MaxTTL / NanoSecond) in *. nia. }
  assert (floored (floor_Record fl (v_now v) key (Seq_of r) (Expiry_of r * NanoSecond)) key (Seq_of r) (v_now v + 2 * MaxTTL)) as HF.
  { destruct (floor_Record_floors fl (v_now v) key (Seq_of r) (Expiry_of r * NanoSecond)) as (e & L & Hs & Hr). exists e.
    split; [done|]. split; [done|]. etrans; [|exact Hr]. nia. }
  apply (floored_run evs _ _ _ _ _ Hevs HT) in HF. pose proof (vd_floor _ _ _ _ _ H' _ Hfl) as HC.
  rewrite (floored_refuses _ _ _ _ _ _ HF) in HC; [done|lia|done].
Qed.

(** A record of any class with given times. *)
Definition times_record (c : RecordClass) (issued expires : Z) : DhtRecord :=
  match c with
  | ClassRelay => RRelay (mkRelayDescriptor 1 [] [] [] [] 0 0 0 [] 0 [] 0 [] 0 issued expires [])
  | ClassDesc => RDesc (mkServiceDescriptor 1 [] 0 0 [] 0 issued expires [] [])
  | ClassDomain => RDomain (mkDomainRecord 1 [] [] [] [] [] [] 0 issued expires [])
  | ClassLocation => RLocation (mkStorageLocation 1 [] [])
  | ClassSnapshot => RSnapshot (mkRegistrySnapshot 1 0 0 [] 0 [] [] [] [] issued expires [])
  | ClassIntro => RIntro (mkIntroPointRecord 1 [] [] [] 0 [] 0 0 issued expires [])
  | ClassReport => RReport (mkContentReport 1 [] [] 0 [] [] [] [] 0 issued expires [])
  end.

Lemma checkFreshness_times (c : RecordClass) (issued expires now : Z) :
  c <> ClassLocation -> c <> ClassReport -> now < expires -> wrap_i64 (expires - issued) <= Z.quot (TTLBound c) NanoSecond ->
  checkFreshness (times_record c issued expires) now = Ok tt.
Proof.
  intros HL HR Hn Hw. unfold checkFreshness.
  assert (Class_of (times_record c issued expires) = c) as -> by by destruct c. rewrite bool_decide_eq_false_2 by done.
  assert (issuedExpires (times_record c issued expires) = (issued, expires)) as -> by by destruct c.
  rewrite (proj2 (Z.leb_gt _ _)) by done. cbn [guard_err]. rewrite (proj2 (Z.ltb_ge _ _) Hw), andb_false_r. done.
Qed.

(** The lifetime bound does not bound how long a record stays fresh, because
    the time of issue is never held against the clock and the subtraction wraps: for
    every class with a lifetime and every stretch of time there is a record fresh at
    both its ends; and there is one, issued in the past, whose lifetime exceeds the
    bound and that is fresh all the same. *)
Theorem freshness_never_ends (c : RecordClass) (now life : Z)
    (HL : c <> ClassLocation) (HR : c <> ClassReport) (Hnow : 0 <= now) (Hlife : 0 <= life) (Hrange : now + life + 1 < 2 ^ 62) :
  (exists r, Class_of r = c /\ checkFreshness r now = Ok tt /\ checkFreshness r (now + life) = Ok tt) /\
  (exists r, Class_of r = c /\ s_range 64 (issuedExpires r).1 /\ s_range 64 (issuedExpires r).2 /\ (issuedExpires r).1 <= now /\
    TTLBound c < NanoSecond * ((issuedExpires r).2 - (issuedExpires r).1) /\
    checkFreshness r now = Ok tt /\ checkFreshness r (now + life) = Ok tt).
Proof.
  assert (0 <= Z.quot (TTLBound c) NanoSecond) as HT by (destruct c; vm_compute; congruence). split.
  - exists (times_record c (now + life + 1) (now + life + 1)). split; [by destruct c|].
    split; apply checkFreshness_times; try done; try lia; by rewrite Z.sub_diag.
  - exists (times_record c (- 2 ^ 62) (2 ^ 62)). assert (issuedExpires (times_record c (- 2 ^ 62) (2 ^ 62)) = (- 2 ^ 62, 2 ^ 62)) as -> by by destruct c.
    split; [by destruct c|]. cbn [fst snd]. split; [by vm_compute|]. split; [by vm_compute|]. split; [lia|].
    split; [by destruct c|].
    split; apply checkFreshness_times; try done; try lia; (etrans; [|exact HT]); by vm_compute.
Qed.

(** ** Witnesses *)

Definition toy_intro (seq issued expires : Z) : IntroPointRecord :=
  mkIntroPointRecord 1 (zeros 32) (zeros 32) [] 0 [] 0 seq issued expires [].
Definition toy_marshal (r : DhtRecord) : bytes :=
  match r with RIntro i => [ip_Sequence i; ip_IssuedAt i; ip_ExpiresAt i] | _ => [] end.
Definition toy_unmarshal (c : RecordClass) (b : bytes) : option (record_of_class c) :=
  match c with
  | ClassIntro => match b with [s; i; e] => Some (toy_intro s i e) | _ => None end
  | _ => None
  end.
#[export] Instance toy_cbor : Cbor := {|
  cbor_marshal := toy_marshal; cbor_marshal_entry := fun e => se_HolderNodeID e; cbor_unmarshal := toy_unmarshal;
  ed25519_verify := fun _ _ _ => true
|}.
Definition toy_validator (now : Z) (fl : option (gmap bytes floorEntry)) : Validator := mkValidator now fl (mkAuthorities None None).
Definition toy_intro_key : bytes := sha256 (key_preimage ClassIntro (zeros 64)).

Lemma toy_intro_valid (seq : Z) : Validate (toy_validator 0 None) ClassIntro toy_intro_key [seq; 0; 100] = Ok (RIntro (toy_intro seq 0 100)).
Proof.
  apply Validate_ok. split; [done|]. by split.
Qed.

Lemma overwrite_needs_owner_witness :
  exists i i', key_input (RIntro (toy_intro 1 0 100)) = Ok i /\ key_input (RIntro (toy_intro 2 0 100)) = Ok i' /\
    unless_collide (key_preimage ClassIntro i) (key_preimage ClassIntro i')
      (ClassIntro = ClassIntro /\ i = i' /\ forall pub, owner (RIntro (toy_intro 1 0 100)) = Some pub ->
        ed25519_verify pub (signingBytes (RIntro (toy_intro 2 0 100))) (sig_of (RIntro (toy_intro 2 0 100))) = true).
Proof. exact (overwrite_needs_owner _ _ _ _ _ _ _ _ _ (toy_intro_valid 1) (toy_intro_valid 2)). Defined.

Definition toy_rolled : Validator :=
  toy_validator (5 * NanoSecond) (Some (foldl floor_step (floor_Record ∅ 0 toy_intro_key 2 (100 * NanoSecond)) [FPrune NanoSecond])).
Lemma rollback_refused_witness :
  Validate toy_rolled ClassIntro toy_intro_key [1; 0; 100] <> Ok (RIntro (toy_intro 1 0 100)).
Proof.
  apply (rollback_refused (toy_validator 0 None) toy_rolled ClassIntro toy_intro_key [2; 0; 100] [1; 0; 100]
    (RIntro (toy_intro 2 0 100)) (RIntro (toy_intro 1 0 100)) ∅ [FPrune NanoSecond]); try done.
  repeat constructor; cbn; unfold NanoSecond; lia.
Defined.

Lemma freshness_never_ends_witness :
  exists r, Class_of r = ClassIntro /\ checkFreshness r 10 = Ok tt /\ checkFreshness r (10 + 1000000000) = Ok tt.
Proof. apply (freshness_never_ends ClassIntro 10 1000000000); done. Defined.
