(* ===== verification/DhtReplicas.v ===== *)
(** * The AXON DHT: replicas that agree ([internal/axon/dht/validate.go])

    How the holders of one key settle which encoding is current, and how they
    merge the locations of a stored object, without talking to each other. *)
From S2P Require Import Prelude.
From S2P Require Import GoBytes.
From S2P Require Import DhtKeys.
From S2P Require Import DhtRecords.

Section Replicas.
Context `{Hash : Sha256} `{Codec : Cbor}.

(** ** Conflicts *)

Definition Better (aSeq : Z) (aWire : bytes) (bSeq : Z) (bWire : bytes) : bool :=
  if negb (aSeq =? bSeq) then bSeq <? aSeq else Key_Less (CanonicalDigest aWire) (CanonicalDigest bWire).

(** The loop: the best so far, with its sequence number. *)
Fixpoint select_loop (v : Validator) (c : RecordClass) (key : bytes) (wires : list bytes) (i : nat)
    (best : option (nat * Z * bytes)) : outcome dht_err (option (nat * Z * bytes)) :=
  match wires with
  | [] => Ok best
  | w :: wires =>
      match Validate v c key w with
      | Err _ => select_loop v c key wires (S i) best
      | Panic => Panic
      | Ok rec =>
          let better := match best with None => true | Some (_, bSeq, bWire) => Better (Seq_of rec) w bSeq bWire end in
          select_loop v c key wires (S i) (if better then Some (i, Seq_of rec, w) else best)
      end
  end.
Definition SelectBest (v : Validator) (c : RecordClass) (key : bytes) (wires : list bytes) : outcome dht_err nat :=
  let? best := select_loop v c key wires 0 None in
  match best with Some (i, _, _) => Ok i | None => Err (ErrDht "axon/dht: no valid records") end.

(** ** Storage locations *)

Definition entry_ok (now : Z) (cid : bytes) (bondOK : option (StorageEntry -> bool)) (e : StorageEntry) : bool :=
  negb (se_ExpiresAt e <=? now) && bool_decide (se_CID e = cid) && is_ok (entry_Verify e) &&
  match bondOK with Some f => f e | None => true end.
(** [add] *)
Definition add_entry (now : Z) (cid : bytes) (bondOK : option (StorageEntry -> bool)) (m : gmap bytes StorageEntry)
    (e : StorageEntry) : gmap bytes StorageEntry :=
  if entry_ok now cid bondOK e then
    match m !! se_HolderNodeID e with
    | Some prev => if se_ExpiresAt e <=? se_ExpiresAt prev then m else <[se_HolderNodeID e := e]> m
    | None => <[se_HolderNodeID e := e]> m
    end
  else m.
(** The order of eviction: most bond first, then the lower node id. *)
Definition outranks (x y : StorageEntry) : bool :=
  if negb (se_Bond x =? se_Bond y) then se_Bond y <? se_Bond x else bytes_ltb (se_HolderNodeID x) (se_HolderNodeID y).
Definition not_below (x y : StorageEntry) : Prop := outranks y x = false.
#[export] Instance not_below_dec (x y : StorageEntry) : Decision (not_below x y).
Proof. unfold not_below. apply _. Defined.
Definition MergeStorageLocation (a : StorageLocation) (b : option StorageLocation) (now : Z)
    (bondOK : option (StorageEntry -> bool)) : StorageLocation :=
  let m := foldl (add_entry now (sl_CID a) bondOK) ∅ (sl_Entries a) in
  let m := match b with Some b => foldl (add_entry now (sl_CID a) bondOK) m (sl_Entries b) | None => m end in
  let out := merge_sort not_below (map snd (map_to_list m)) in
  mkStorageLocation (sl_Ver a) (sl_CID a) (take MaxStorageEntries out).
End Replicas.

Section Selection.
Context `{Hash : Sha256} `{!Sha256Laws Hash} `{Codec : Cbor}.

(** ** Replicas converge *)

(** The order of [Better] as one number. *)
Definition rank (s : Z) (w : bytes) : Z := s * 2 ^ 256 - be_decode (sha256 w).

Lemma Better_rank (s s' : Z) (w w' : bytes) : Better s w s' w' = (rank s' w' <? rank s w).
Proof.
  unfold Better, rank, CanonicalDigest. rewrite (Key_Less_spec 32) by apply sha256_array.
  pose proof (sha256_array w) as [Lw Ow]. pose proof (sha256_array w') as [Lw' Ow'].
  pose proof (be_decode_range _ Ow) as R. pose proof (be_decode_range _ Ow') as R'. rewrite Lw in R. rewrite Lw' in R'.
  change (256 ^ Z.of_nat 32) with (2 ^ 256) in *. set (p := 2 ^ 256) in *.
  destruct (Z.eqb_spec s s') as [->|Hne]; cbn [negb];
    match goal with |- (?a <? ?b) = (?c <? ?d) => destruct (Z.ltb_spec a b), (Z.ltb_spec c d) end; nia.
Qed.

Lemma rank_inj (s s' : Z) (w w' : bytes) : rank s w = rank s' w' -> unless_collide w w' (w = w').
Proof.
  unfold rank. intros E. pose proof (sha256_array w) as [Lw Ow]. pose proof (sha256_array w') as [Lw' Ow'].
  pose proof (be_decode_range _ Ow) as R. pose proof (be_decode_range _ Ow') as R'. rewrite Lw in R. rewrite Lw' in R'.
  change (256 ^ Z.of_nat 32) with (2 ^ 256) in *. apply (sha_same w w' (w = w')); [done|].
  apply be_decode_inj; [done|done|congruence|]. set (p := 2 ^ 256) in *. nia.
Qed.

(** The best of what was read so far: an index into [ws], its sequence, its bytes. *)
Definition best_of (v : Validator) (c : RecordClass) (key : bytes) (ws : list bytes) (best : option (nat * Z * bytes)) : Prop :=
  match best with
  | None => forall w r, w ∈ ws -> Validate v c key w <> Ok r
  | Some (i, s, w) =>
      ws !! i = Some w /\ (exists r, Validate v c key w = Ok r /\ Seq_of r = s) /\
      forall w' r', w' ∈ ws -> Validate v c key w' = Ok r' -> rank (Seq_of r') w' <= rank s w
  end.

Lemma select_loop_best (v : Validator) (c : RecordClass) (key : bytes) (wires ws : list bytes) (best b : option (nat * Z * bytes)) :
  best_of v c key ws best -> select_loop v c key wires (length ws) best = Ok b -> best_of v c key (ws ++ wires) b.
Proof.
  revert ws best. induction wires as [|w wires IH]; intros ws best HB; cbn [select_loop].
  { intros [= <-]. by rewrite app_nil_r. }
  rewrite (cons_middle w ws wires), app_assoc. replace (S (length ws)) with (length (ws ++ [w])) by (rewrite length_app; cbn; lia).
  destruct (Validate v c key w) as [r|e|] eqn:EV; [| |done]; apply IH.
  - destruct best as [[[i s] wb]|]; [rewrite Better_rank; destruct (Z.ltb_spec (rank s wb) (rank (Seq_of r) w)) as [HL|HL]|]; cbn.
    1,3: split; [by rewrite lookup_app_r, Nat.sub_diag by lia|split; [by eauto|]]; intros w' r' HI HV;
      apply elem_of_app in HI as [HI|HI%list_elem_of_singleton]; [|subst w'; rewrite EV in HV; injection HV as <-; lia].
    + destruct HB as (_ & _ & HB). pose proof (HB _ _ HI HV). lia.
    + by destruct (HB w' r' HI).
    + destruct HB as (H1 & H2 & H3). split; [by apply lookup_app_l_Some|]. split; [done|]. intros w' r' HI HV.
      apply elem_of_app in HI as [HI|HI%list_elem_of_singleton]; [eauto|subst w'; rewrite EV in HV; injection HV as <-; lia].
  - destruct best as [[[i s] wb]|]; cbn.
    + destruct HB as (H1 & H2 & H3). split; [by apply lookup_app_l_Some|]. split; [done|]. intros w' r' HI HV.
      apply elem_of_app in HI as [HI|HI%list_elem_of_singleton]; [eauto|congruence].
    + intros w' r' HI HV. apply elem_of_app in HI as [HI|HI%list_elem_of_singleton]; [by destruct (HB w' r' HI)|congruence].
Qed.

Lemma SelectBest_best (v : Validator) (c : RecordClass) (key : bytes) (wires : list bytes) (i : nat) :
  SelectBest v c key wires = Ok i ->
  exists w r, wires !! i = Some w /\ Validate v c key w = Ok r /\
    forall w' r', w' ∈ wires -> Validate v c key w' = Ok r' -> rank (Seq_of r') w' <= rank (Seq_of r) w.
Proof.
  unfold SelectBest. intros H. outcome_inv. apply (select_loop_best v c key wires [] None) in E as HB; [|intros w r HI; by apply not_elem_of_nil in HI].
  destruct a as [[[i' s] w]|]; [|done]. injection H as <-. destruct HB as (H1 & (r & HV & <-) & H3). eauto.
Qed.

(** C16. Two replicas that hold the same encodings, judged at one time against one sequence floor,
    settle on the same one without talking: whatever order they hold them in and however often each
    is repeated, what they both select is - short of a SHA-256 collision - one encoding; it
    validates, and no valid one has a higher sequence number. (A replica without a valid record
    selects none.) *)
Theorem replicas_converge (v : Validator) (c : RecordClass) (key : bytes) (wires wires' : list bytes) (i j : nat)
    (Hsame : forall w, w ∈ wires <-> w ∈ wires') (Hi : SelectBest v c key wires = Ok i) (Hj : SelectBest v c key wires' = Ok j) :
  exists w w' r, wires !! i = Some w /\ wires' !! j = Some w' /\ unless_collide w w' (w = w') /\ Validate v c key w = Ok r /\
    forall u ru, u ∈ wires -> Validate v c key u = Ok ru -> Seq_of ru <= Seq_of r.
Proof.
  destruct (SelectBest_best _ _ _ _ _ Hi) as (w & r & Lw & HV & HM). destruct (SelectBest_best _ _ _ _ _ Hj) as (w' & r' & Lw' & HV' & HM').
  assert (w ∈ wires) as Iw by by eapply list_elem_of_lookup_2. assert (w' ∈ wires') as Iw' by by eapply list_elem_of_lookup_2.
  exists w, w', r. repeat (split; [done|]). split.
  - eapply rank_inj, Z.le_antisymm; [apply (HM' w r); [by apply Hsame|done]|apply (HM w' r'); [by apply Hsame|done]].
  - split; [done|]. intros u ru HI HU. specialize (HM u ru HI HU). unfold rank in HM.
    pose proof (sha256_array w) as [Lsw Osw]. pose proof (sha256_array u) as [Lsu Osu].
    pose proof (be_decode_range _ Osw) as R. pose proof (be_decode_range _ Osu) as R'. rewrite Lsw in R. rewrite Lsu in R'.
    change (256 ^ Z.of_nat 32) with (2 ^ 256) in *. set (p := 2 ^ 256) in *. nia.
Qed.
End Selection.

(** ** Storage locations merge *)

Lemma outranks_total (x y : StorageEntry) : outranks x y = false -> outranks y x = false -> se_HolderNodeID x = se_HolderNodeID y.
Proof.
  unfold outranks. destruct (Z.eqb_spec (se_Bond x) (se_Bond y)) as [E|E], (Z.eqb_spec (se_Bond y) (se_Bond x)); try congruence; cbn [negb].
  - apply bytes_ltb_total.
  - intros. zbool. lia.
Qed.
Lemma outranks_bond (x y : StorageEntry) : outranks x y = true -> se_Bond y <= se_Bond x.
Proof. unfold outranks. destruct (Z.eqb_spec (se_Bond x) (se_Bond y)); cbn [negb]; intros; zbool; lia. Qed.
Lemma outranks_asym (x y : StorageEntry) : outranks x y = true -> outranks y x = false.
Proof.
  unfold outranks. rewrite (Z.eqb_sym (se_Bond y)). destruct (Z.eqb_spec (se_Bond x) (se_Bond y)); cbn [negb]; [apply bytes_ltb_asym|].
  intros. zbool. apply Z.ltb_ge. lia.
Qed.
#[export] Instance not_below_total : Total not_below.
Proof. intros x y. unfold not_below. destruct (outranks y x) eqn:E; [right; by apply outranks_asym|by left]. Qed.
#[export] Instance not_below_trans : Transitive not_below.
Proof.
  intros x y z. unfold not_below, outranks. intros H1 H2.
  destruct (Z.eqb_spec (se_Bond y) (se_Bond x)), (Z.eqb_spec (se_Bond z) (se_Bond y)), (Z.eqb_spec (se_Bond z) (se_Bond x)); cbn [negb] in *; zbool; try lia;
    try (apply Z.ltb_ge; lia).
  destruct (bytes_ltb (se_HolderNodeID z) (se_HolderNodeID x)) eqn:E; [|done]. exfalso.
  destruct (bytes_ltb (se_HolderNodeID x) (se_HolderNodeID y)) eqn:E'.
  - pose proof (bytes_ltb_trans _ _ _ E E'). congruence.
  - pose proof (bytes_ltb_total _ _ H1 E') as EH. rewrite <- EH in E. congruence.
Qed.

Lemma sorted_across {A : Type} (R : A -> A -> Prop) (n : nat) (l : list A) (x y : A) :
  StronglySorted R l -> x ∈ take n l -> y ∈ drop n l -> R x y.
Proof.
  intros HS Hx Hy. rewrite <- (take_drop n l) in HS. apply StronglySorted_app in HS as (HS & _ & _). by apply HS.
Qed.

Section Merge.
Context `{Codec : Cbor} (now : Z) (cid : bytes) (bondOK : option (StorageEntry -> bool)).
Abbreviation ok := (entry_ok now cid bondOK).

(** A map that keeps the latest good entry of every holder of [es]. *)
Record keeps_latest (es : list StorageEntry) (m : gmap bytes StorageEntry) : Prop := {
  kl_from : forall h e, m !! h = Some e -> e ∈ es /\ ok e = true /\ se_HolderNodeID e = h;
  kl_all : forall e, e ∈ es -> ok e = true -> exists e', m !! se_HolderNodeID e = Some e' /\ se_ExpiresAt e <= se_ExpiresAt e'
}.

Lemma keeps_latest_add (es : list StorageEntry) (m : gmap bytes StorageEntry) (e : StorageEntry) :
  keeps_latest es m -> keeps_latest (es ++ [e]) (add_entry now cid bondOK m e).
Proof.
  intros [HF HA]. unfold add_entry. destruct (ok e) eqn:EO.
  2: { split; [intros h x Hx; destruct (HF h x Hx) as (? & ? & ?); split; [apply elem_of_app; rewrite ?list_elem_of_singleton; tauto|done]|].
    intros x Hx Hox. apply elem_of_app in Hx as [Hx| ->%list_elem_of_singleton]; [eauto|congruence]. }
  assert (forall p, m !! se_HolderNodeID e = Some p -> se_ExpiresAt e <= se_ExpiresAt p -> keeps_latest (es ++ [e]) m) as HK.
  { intros p Hp Hle. split; [intros h x Hx; destruct (HF h x Hx) as (? & ? & ?); split; [apply elem_of_app; rewrite ?list_elem_of_singleton; tauto|done]|].
    intros x Hx Hox. apply elem_of_app in Hx as [Hx| ->%list_elem_of_singleton]; [eauto|]. by exists p. }
  assert ((forall p, m !! se_HolderNodeID e = Some p -> se_ExpiresAt p <= se_ExpiresAt e) ->
    keeps_latest (es ++ [e]) (<[se_HolderNodeID e := e]> m)) as HI.
  { intros HP. split.
    - intros h x Hx. apply lookup_insert_Some in Hx as [[<- <-]|[_ Hx]]; [split; [apply elem_of_app; rewrite ?list_elem_of_singleton; tauto|done]|].
      destruct (HF h x Hx) as (? & ? & ?). split; [apply elem_of_app; rewrite ?list_elem_of_singleton; tauto|done].
    - intros x Hx Hox. destruct (decide (se_HolderNodeID x = se_HolderNodeID e)) as [E|Hne].
      + rewrite E, lookup_insert_eq. exists e. split; [done|]. apply elem_of_app in Hx as [Hx| ->%list_elem_of_singleton]; [|lia].
        destruct (HA x Hx Hox) as (p & Lp & Hle). rewrite E in Lp. specialize (HP p Lp). lia.
      + rewrite lookup_insert_ne by done. apply elem_of_app in Hx as [Hx| ->%list_elem_of_singleton]; [eauto|done]. }
  destruct (m !! se_HolderNodeID e) as [p|] eqn:EP; [|by apply HI].
  destruct (Z.leb_spec (se_ExpiresAt e) (se_ExpiresAt p)); [by eapply HK|]. apply HI. intros p' [= <-]. lia.
Qed.

Lemma keeps_latest_fold (es ks : list StorageEntry) (m : gmap bytes StorageEntry) :
  keeps_latest es m -> keeps_latest (es ++ ks) (foldl (add_entry now cid bondOK) m ks).
Proof.
  revert es m. induction ks as [|k ks IH]; intros es m H; [by rewrite app_nil_r|]. cbn [foldl].
  rewrite (cons_middle k es ks), app_assoc. apply IH. by apply keeps_latest_add.
Qed.

Lemma keeps_latest_empty : keeps_latest [] ∅.
Proof. split; [intros h e H; by rewrite lookup_empty in H|intros e H; by apply not_elem_of_nil in H]. Qed.

(** Which map it is depends only on which entries there are, when no holder has
    signed two that expire together. *)
Definition no_ties (es : list StorageEntry) : Prop :=
  forall e e', e ∈ es -> e' ∈ es -> ok e = true -> ok e' = true ->
    se_HolderNodeID e = se_HolderNodeID e' -> se_ExpiresAt e = se_ExpiresAt e' -> e = e'.

Lemma keeps_latest_sub (es es' : list StorageEntry) (m m' : gmap bytes StorageEntry) (h : bytes) (e : StorageEntry) :
  (forall x, x ∈ es <-> x ∈ es') -> no_ties es -> keeps_latest es m -> keeps_latest es' m' -> m !! h = Some e -> m' !! h = Some e.
Proof.
  intros HE HT [HF HA] [HF' HA'] Hm. destruct (HF h e Hm) as (He & Ho & <-).
  destruct (HA' e (proj1 (HE e) He) Ho) as (e' & Hm' & L1). destruct (HF' _ _ Hm') as (He' & Ho' & EH).
  destruct (HA e' (proj2 (HE e') He') Ho') as (e2 & Hm2 & L2). rewrite EH, Hm in Hm2. injection Hm2 as <-.
  rewrite Hm'. f_equal. symmetry. apply HT; [done|by apply HE|done|done|done|lia].
Qed.
Lemma keeps_latest_unique (es es' : list StorageEntry) (m m' : gmap bytes StorageEntry) :
  (forall x, x ∈ es <-> x ∈ es') -> no_ties es -> keeps_latest es m -> keeps_latest es' m' -> m = m'.
Proof.
  intros HE HT H H'. apply map_eq. intros h. apply option_eq. intros e. split; [by eapply keeps_latest_sub|].
  eapply keeps_latest_sub; [intros x; symmetry; apply HE| |done|done].
  intros x y Hx Hy. apply HT; by apply HE.
Qed.

(** The entries in order, before the cut. *)
Definition in_order (m : gmap bytes StorageEntry) : list StorageEntry := merge_sort not_below (map snd (map_to_list m)).

Lemma elem_of_in_order (es : list StorageEntry) (m : gmap bytes StorageEntry) (e : StorageEntry) :
  keeps_latest es m -> e ∈ in_order m <-> m !! se_HolderNodeID e = Some e.
Proof.
  intros [HF _]. unfold in_order. rewrite (merge_sort_Permutation not_below). rewrite list_elem_of_fmap. split.
  - intros ([h x] & -> & Hx). apply elem_of_map_to_list in Hx as Hm. cbn. by destruct (HF h x Hm) as (_ & _ & ->).
  - intros Hm. exists (se_HolderNodeID e, e). split; [done|]. by apply elem_of_map_to_list.
Qed.

Lemma in_order_holders (es : list StorageEntry) (m : gmap bytes StorageEntry) :
  keeps_latest es m -> NoDup (map se_HolderNodeID (in_order m)).
Proof.
  intros [HF _]. eapply NoDup_Permutation_proper; [apply (fmap_Permutation se_HolderNodeID), merge_sort_Permutation|].
  replace (se_HolderNodeID <$> map snd (map_to_list m)) with (map_to_list m).*1; [apply NoDup_fst_map_to_list|].
  change (se_HolderNodeID <$> map snd (map_to_list m)) with (map se_HolderNodeID (map snd (map_to_list m))). rewrite map_map.
  change (map fst (map_to_list m) = map (fun x => se_HolderNodeID x.2) (map_to_list m)).
  apply map_ext_in. intros [h x] Hx. apply list_elem_of_In in Hx. apply elem_of_map_to_list in Hx.
  cbn. symmetry. by destruct (HF h x Hx) as (_ & _ & E).
Qed.
End Merge.

Definition entries_of (l : option StorageLocation) : list StorageEntry := match l with Some l => sl_Entries l | None => [] end.

Section MergeTheorems.
Context `{Codec : Cbor}.

Lemma Merge_entries (a : StorageLocation) (b : option StorageLocation) (now : Z) (bondOK : option (StorageEntry -> bool)) :
  exists m, keeps_latest now (sl_CID a) bondOK (sl_Entries a ++ entries_of b) m /\
    sl_Entries (MergeStorageLocation a b now bondOK) = take MaxStorageEntries (in_order m).
Proof.
  pose proof (keeps_latest_fold now (sl_CID a) bondOK [] (sl_Entries a) ∅ (keeps_latest_empty now (sl_CID a) bondOK)) as H.
  unfold MergeStorageLocation. destruct b as [b|]; cbn [entries_of sl_Entries].
  - eexists. split; [|done]. by apply keeps_latest_fold.
  - eexists. split; [|done]. by rewrite app_nil_r.
Qed.

(** Displacing a holder from a full location costs its bond: whatever entries
    two records hold, the merge has at most 64, one per holder, each one offered,
    unexpired, for this content and signed by its holder; and a good entry is
    missing only if its holder's later one is there, or the list is full of entries
    that each outrank the holder's latest - none with a smaller bond. *)
Theorem eviction_costs_bond (a : StorageLocation) (b : option StorageLocation) (now : Z) (bondOK : option (StorageEntry -> bool)) :
  let out := sl_Entries (MergeStorageLocation a b now bondOK) in
  let offered := sl_Entries a ++ entries_of b in
  (length out <= MaxStorageEntries)%nat /\ NoDup (map se_HolderNodeID out) /\ Sorted not_below out /\
  (forall e, e ∈ out -> e ∈ offered /\ entry_ok now (sl_CID a) bondOK e = true) /\
  (forall e, e ∈ offered -> entry_ok now (sl_CID a) bondOK e = true ->
    exists e', e' ∈ offered /\ se_HolderNodeID e' = se_HolderNodeID e /\ se_ExpiresAt e <= se_ExpiresAt e' /\
      (e' ∈ out \/ length out = MaxStorageEntries /\ forall x, x ∈ out -> outranks x e' = true /\ se_Bond e' <= se_Bond x)).
Proof.
  destruct (Merge_entries a b now bondOK) as (m & HK & EM). cbv zeta. rewrite EM. set (n := MaxStorageEntries).
  pose proof (in_order_holders _ _ _ _ _ HK) as HN. pose proof (Sorted_merge_sort not_below (map snd (map_to_list m))) as HS.
  fold (in_order m) in HS. apply Sorted_StronglySorted in HS as HSS; [|exact not_below_trans].
  split; [rewrite length_take; lia|]. split; [eapply sublist_NoDup; [exact HN|apply fmap_sublist, sublist_take]|].
  split; [apply StronglySorted_Sorted; rewrite <- (take_drop n (in_order m)) in HSS; by apply StronglySorted_app in HSS as (_ & ? & _)|]. split.
  - intros e He. assert (e ∈ in_order m) as He' by (rewrite <- (take_drop n (in_order m)); apply elem_of_app; by left).
    apply (elem_of_in_order _ _ _ _ _ _ HK) in He'. by destruct (kl_from _ _ _ _ _ HK _ _ He') as (? & ? & _).
  - intros e He Ho. destruct (kl_all _ _ _ _ _ HK e He Ho) as (e' & Hm & HL).
    destruct (kl_from _ _ _ _ _ HK _ _ Hm) as (He' & _ & EH). exists e'. repeat (split; [done|]).
    assert (e' ∈ in_order m) as HI by (apply (elem_of_in_order _ _ _ _ _ _ HK); by rewrite EH).
    rewrite <- (take_drop n (in_order m)) in HI. apply elem_of_app in HI as [HI|HI]; [by left|right]. split.
    + rewrite length_take. enough (n < length (in_order m))%nat by lia. destruct (decide (n < length (in_order m))%nat); [done|].
      rewrite drop_ge in HI by lia. by apply not_elem_of_nil in HI.
    + intros x Hx. assert (not_below x e') as HB by by eapply sorted_across. unfold not_below in HB.
      destruct (outranks x e') eqn:EO; [split; [done|by apply outranks_bond]|]. exfalso. pose proof (outranks_total _ _ EO HB) as E.
      rewrite <- (take_drop n (in_order m)), map_app in HN. apply NoDup_app in HN as (_ & HN & _).
      apply (HN (se_HolderNodeID x)); [|rewrite E]; apply list_elem_of_fmap; eauto.
Qed.

(** Replicas that merge the same entries agree, in whatever order and however
    they are split between the two records, unless a holder has signed two entries
    that expire together. *)
Theorem merge_order_free (a a' : StorageLocation) (b b' : option StorageLocation) (now : Z) (bondOK : option (StorageEntry -> bool))
    (Hcid : sl_CID a = sl_CID a')
    (Hsame : forall e, e ∈ sl_Entries a ++ entries_of b <-> e ∈ sl_Entries a' ++ entries_of b')
    (Hties : no_ties now (sl_CID a) bondOK (sl_Entries a ++ entries_of b)) :
  sl_Entries (MergeStorageLocation a b now bondOK) = sl_Entries (MergeStorageLocation a' b' now bondOK).
Proof.
  destruct (Merge_entries a b now bondOK) as (m & HK & ->). destruct (Merge_entries a' b' now bondOK) as (m' & HK' & ->).
  rewrite <- Hcid in HK'. by rewrite (keeps_latest_unique _ _ _ _ _ _ _ Hsame Hties HK HK').
Qed.
End MergeTheorems.

(** ** Witnesses *)

Definition toy_wires : list bytes := [[1; 0; 100]; [2; 0; 100]; [7; 7]].
Lemma toy_selects :
  SelectBest (toy_validator 0 None) ClassIntro toy_intro_key toy_wires = Ok 1%nat /\
  SelectBest (toy_validator 0 None) ClassIntro toy_intro_key (reverse toy_wires) = Ok 1%nat.
Proof. split; vm_compute; reflexivity. Qed.

Lemma replicas_converge_witness :
  exists w w' r, toy_wires !! 1%nat = Some w /\ reverse toy_wires !! 1%nat = Some w' /\ unless_collide w w' (w = w') /\
    Validate (toy_validator 0 None) ClassIntro toy_intro_key w = Ok r /\
    forall u ru, u ∈ toy_wires -> Validate (toy_validator 0 None) ClassIntro toy_intro_key u = Ok ru -> Seq_of ru <= Seq_of r.
Proof.
  apply replicas_converge; [|exact (proj1 toy_selects)|exact (proj2 toy_selects)]. intros w. by rewrite elem_of_reverse.
Defined.

Definition toy_entry (holder bond expires : Z) : StorageEntry := mkStorageEntry (toy_key holder) [] bond expires [9] [].
Definition toy_location (es : list StorageEntry) : StorageLocation := mkStorageLocation 1 [9] es.

Lemma merge_order_free_witness :
  sl_Entries (MergeStorageLocation (toy_location [toy_entry 1 5 10]) (Some (toy_location [toy_entry 2 7 20])) 0 None) =
  sl_Entries (MergeStorageLocation (toy_location [toy_entry 2 7 20; toy_entry 1 5 10]) None 0 None).
Proof.
  apply merge_order_free; [done|intros e; cbn; rewrite !list_elem_of_In; cbn; tauto|].
  intros e e' He He' _ _ _ HX. apply list_elem_of_In in He, He'. cbn in He, He'. destruct He as [<-|[<-|[]]], He' as [<-|[<-|[]]]; done.
Defined.

(** A holder that signs two entries with one expiry splits the replicas: each keeps
    the one it heard first. *)
Example merge_tie_diverges :
  let a := toy_location [toy_entry 1 5 10] in let b := toy_location [toy_entry 1 8 10] in
  sl_Entries (MergeStorageLocation a (Some b) 0 None) = [toy_entry 1 5 10] /\
  sl_Entries (MergeStorageLocation b (Some a) 0 None) = [toy_entry 1 8 10].
Proof. split; vm_compute; reflexivity. Qed.
