(* ===== verification/DhtReports.v ===== *)
(** * The AXON DHT: content reports ([internal/axon/dht/report.go])

    The shape of a report, what its reporter signs, and what the signature does and
    does not bind. *)
From S2P Require Import Prelude.
From S2P Require Import GoBytes.
From S2P Require Import DhtKeys.
From S2P Require Import DhtRecords.

Section Reports.
Context `{Hash : Sha256} `{Codec : Cbor}.

Definition evidence_bytes (es : list bytes) : bytes := concat (map (fun e => be_encode 8 (Z.of_nat (length e)) ++ e) es).
Definition report_tail (r : ContentReport) : bytes :=
  be_encode 8 (cr_Sequence r) ++ be_encode 8 (wrap_u64 (cr_IssuedAt r)) ++ be_encode 8 (wrap_u64 (cr_ExpiresAt r)).
Definition report_preimage (r : ContentReport) : bytes :=
  text_bytes "axon-content-report-v1" ++ [cr_Ver r; cr_Category r] ++ cr_NameHash r ++ cr_ManifestCID r ++ cr_Reason r ++
    be_encode 8 (Z.of_nat (length (cr_Evidence r))) ++
    evidence_bytes (cr_Evidence r) ++ cr_Reporter r ++ cr_StakeRef r ++ report_tail r.
Definition reportSigningBytes (r : ContentReport) : bytes := sha256 (report_preimage r).
Definition has_prefix (p : string) (b : bytes) : bool := bool_decide (take (String.length p) b = text_bytes p).
Definition looksLikeURL (b : bytes) : bool :=
  if (length b <? 5)%nat then false
  else existsb (fun p => has_prefix p b) ["http:"; "https"; "ipfs:"; "ftp:/"; "//"]%string.
Fixpoint check_evidence (es : list bytes) : outcome dht_err unit :=
  match es with
  | [] => Ok tt
  | e :: es =>
      fail? looksLikeURL e with ErrDht "axon/dht: report evidence looks like a URL" ;;
      fail? negb (Nat.eqb (length e) 32) with ErrDht "axon/dht: report evidence is not a list of CIDs" ;;
      check_evidence es
  end.
Definition checkShape (r : ContentReport) : outcome dht_err unit :=
  fail? negb (Nat.eqb (length (cr_NameHash r)) 32) with ErrDht "axon/dht: report names no subject" ;;
  fail? negb (Nat.eqb (length (cr_ManifestCID r)) 32) with ErrDht "axon/dht: report names no version" ;;
  fail? negb (Nat.eqb (length (cr_Reporter r)) 32) with ErrDht "axon/dht: report has no reporter" ;;
  fail? (MaxReportReason <? length (cr_Reason r))%nat with ErrDht "axon/dht: report reason exceeds the bound" ;;
  fail? (MaxReportEvidence <? length (cr_Evidence r))%nat with ErrTooManyEntries ;;
  check_evidence (cr_Evidence r).
Definition ValidateReport (r : ContentReport) : outcome dht_err unit :=
  let? _ := checkShape r in
  fail? Nat.eqb (length (cr_Sig r)) 0 with ErrDht "axon/dht: report signature does not verify" ;;
  fail? negb (ed25519_verify (cr_Reporter r) (reportSigningBytes r) (cr_Sig r))
    with ErrDht "axon/dht: report signature does not verify" ;;
  Ok tt.
(** [SignReport]: the key pair is its public half and a signer. *)
Definition SignReport (r : ContentReport) (pub : bytes) (sign : bytes -> bytes) : outcome dht_err ContentReport :=
  let put reporter sig := mkContentReport (cr_Ver r) (cr_NameHash r) (cr_ManifestCID r) (cr_Category r) (cr_Reason r) (cr_Evidence r)
    reporter (cr_StakeRef r) (cr_Sequence r) (cr_IssuedAt r) (cr_ExpiresAt r) sig in
  let? _ := checkShape (put pub (cr_Sig r)) in
  Ok (put pub (sign (reportSigningBytes (put pub (cr_Sig r))))).
End Reports.

(** ** What a signature binds *)

Record report_shape (r : ContentReport) : Prop := {
  rs_name : length (cr_NameHash r) = 32%nat;
  rs_manifest : length (cr_ManifestCID r) = 32%nat;
  rs_reporter : length (cr_Reporter r) = 32%nat;
  rs_reason : (length (cr_Reason r) <= MaxReportReason)%nat;
  rs_count : (length (cr_Evidence r) <= MaxReportEvidence)%nat;
  rs_evidence : Forall (fun e => length e = 32%nat /\ looksLikeURL e = false) (cr_Evidence r)
}.

Lemma check_evidence_ok (es : list bytes) :
  check_evidence es = Ok tt <-> Forall (fun e => length e = 32%nat /\ looksLikeURL e = false) es.
Proof.
  induction es as [|e es IH]; [by split|]. cbn [check_evidence]. rewrite Forall_cons, <- IH, !guard_err_ok, negb_false_iff, Nat.eqb_eq. tauto.
Qed.

Lemma checkShape_ok (r : ContentReport) : checkShape r = Ok tt <-> report_shape r.
Proof.
  unfold checkShape. rewrite !guard_err_ok, !negb_false_iff, !Nat.eqb_eq, !Nat.ltb_ge, check_evidence_ok.
  split; [by intros (? & ? & ? & ? & ? & ?); split|by intros [? ? ? ? ? ?]].
Qed.

Lemma evidence_bytes_inj (es es' : list bytes) (x y : bytes) :
  length es = length es' -> Forall (fun e => length e = 32%nat) es -> Forall (fun e => length e = 32%nat) es' ->
  evidence_bytes es ++ x = evidence_bytes es' ++ y -> es = es' /\ x = y.
Proof.
  intros HL H. revert es' HL. induction H as [|e es He H IH]; intros [|e' es'] HL H'; try done.
  unfold evidence_bytes. cbn [map concat]. change (concat (map _ ?l)) with (evidence_bytes l). rewrite <- !app_assoc.
  apply Forall_cons in H' as [He' H']. injection HL as HL. intros E. rewrite He, He' in E. apply app_inv_head in E.
  apply app_inj_1 in E as [-> E]; [|congruence]. destruct (IH es' HL H' E) as [-> ->]. done.
Qed.

Lemma length_report_tail (r : ContentReport) : length (report_tail r) = 24%nat.
Proof. unfold report_tail. by rewrite !length_app, !length_be_encode. Qed.

Section Binding.
Context `{Hash : Sha256} `{!Sha256Laws Hash} `{Codec : Cbor}.

(** What a report's signature binds: short of a SHA-256 collision, two reports
    with the same signing bytes have the same version, category, subject, manifest,
    sequence number and times, and if their reasons are equally long they are equal
    in every signed field. *)
Theorem report_signature_binds (r r' : ContentReport) (Hr : checkShape r = Ok tt) (Hr' : checkShape r' = Ok tt)
    (Hsame : reportSigningBytes r = reportSigningBytes r') :
  unless_collide (report_preimage r) (report_preimage r') (cr_Ver r = cr_Ver r' /\ cr_Category r = cr_Category r' /\ cr_NameHash r = cr_NameHash r' /\
    cr_ManifestCID r = cr_ManifestCID r' /\ report_tail r = report_tail r' /\
    (length (cr_Reason r) = length (cr_Reason r') ->
      cr_Reason r = cr_Reason r' /\ cr_Evidence r = cr_Evidence r' /\ cr_Reporter r = cr_Reporter r' /\ cr_StakeRef r = cr_StakeRef r')).
Proof.
  apply checkShape_ok in Hr, Hr'. revert Hsame. apply sha_same. unfold report_preimage. intros E.
  apply app_inj_1 in E as [_ E]; [|done]. apply app_inj_1 in E as [EV E]; [|done]. injection EV as EV EC.
  apply app_inj_1 in E as [EN E]; [|by rewrite (rs_name _ Hr), (rs_name _ Hr')].
  apply app_inj_1 in E as [EM E]; [|by rewrite (rs_manifest _ Hr), (rs_manifest _ Hr')].
  repeat (split; [done|]). split.
  { rewrite !app_assoc in E. apply app_inj_2 in E as [_ E]; [done|by rewrite !length_report_tail]. }
  intros HL. apply app_inj_1 in E as [ER E]; [|done]. apply app_inj_1 in E as [EL E]; [|by rewrite !length_be_encode].
  pose proof (rs_count _ Hr). pose proof (rs_count _ Hr'). unfold MaxReportEvidence in *.
  apply be_encode_inj in EL; [|change (256 ^ Z.of_nat 8) with (2 ^ 64); lia..]. apply evidence_bytes_inj in E as [EE E];
    [|lia|eapply Forall_impl; [apply rs_evidence; done|by intros ? []]..].
  apply app_inj_1 in E as [EP E]; [|by rewrite (rs_reporter _ Hr), (rs_reporter _ Hr')].
  apply app_inj_2 in E as [ES _]; [done|by rewrite !length_report_tail].
Qed.

(** The report [r] with its evidence moved into the reason, when the stake
    reference starts with a zero count and the reporter. *)
Definition trimmed (r : ContentReport) (stake : bytes) : ContentReport :=
  mkContentReport (cr_Ver r) (cr_NameHash r) (cr_ManifestCID r) (cr_Category r)
    (cr_Reason r ++ be_encode 8 (Z.of_nat (length (cr_Evidence r))) ++ evidence_bytes (cr_Evidence r) ++ cr_Reporter r) []
    (cr_Reporter r) stake (cr_Sequence r) (cr_IssuedAt r) (cr_ExpiresAt r) (cr_Sig r).

(** Evidence can be trimmed with the signature intact: the reason is signed
    without its length, so a valid report whose stake reference begins with eight
    zeros and the reporter's key is, with all its evidence moved into the reason,
    another valid report under the same signature. *)
Theorem report_evidence_trimmed (r : ContentReport) (stake : bytes)
    (Hok : ValidateReport r = Ok tt) (Hstake : cr_StakeRef r = be_encode 8 0 ++ cr_Reporter r ++ stake)
    (Hroom : (length (cr_Reason r) + 8 + length (evidence_bytes (cr_Evidence r)) + 32 <= MaxReportReason)%nat) :
  ValidateReport (trimmed r stake) = Ok tt /\ cr_Evidence (trimmed r stake) = [] /\ cr_Sig (trimmed r stake) = cr_Sig r.
Proof.
  unfold ValidateReport in *. outcome_inv. destruct a. apply checkShape_ok in E as HS.
  assert (checkShape (trimmed r stake) = Ok tt) as ->.
  { apply checkShape_ok. destruct HS as [H1 H2 H3 H4 H5 H6]. split;
      cbn [trimmed cr_NameHash cr_ManifestCID cr_Reporter cr_Reason cr_Evidence length]; try done; [|unfold MaxReportEvidence; lia].
    rewrite !length_app, length_be_encode, H3. lia. }
  assert (report_preimage (trimmed r stake) = report_preimage r) as EP.
  { unfold report_preimage, trimmed. cbn [cr_Ver cr_NameHash cr_ManifestCID cr_Category cr_Reason cr_Evidence cr_Reporter cr_StakeRef].
    rewrite Hstake, <- !app_assoc. done. }
  cbn [obind]. unfold reportSigningBytes in *. rewrite EP. cbn [trimmed cr_Sig cr_Reporter]. by rewrite E0, E1.
Qed.
End Binding.

(** ** Witnesses *)

Definition toy_report (stake : bytes) : ContentReport :=
  mkContentReport 1 (zeros 32) (zeros 32) 2 [65; 66] [replicate 32 9] (zeros 32) stake 1 10 20 [1].
Lemma toy_report_shape (stake : bytes) : checkShape (toy_report stake) = Ok tt.
Proof. reflexivity. Qed.
Lemma report_signature_binds_witness :
  unless_collide (report_preimage (toy_report [5])) (report_preimage (toy_report [5])) (cr_Evidence (toy_report [5]) = cr_Evidence (toy_report [5])).
Proof.
  destruct (report_signature_binds (toy_report [5]) (toy_report [5]) (toy_report_shape _) (toy_report_shape _) eq_refl) as [H|H]; [|by right].
  left. apply H. reflexivity.
Defined.
Definition toy_stake : bytes := be_encode 8 0 ++ zeros 32 ++ [5].
Lemma toy_report_valid : ValidateReport (toy_report toy_stake) = Ok tt.
Proof. reflexivity. Qed.
Lemma report_evidence_trimmed_witness :
  ValidateReport (trimmed (toy_report toy_stake) [5]) = Ok tt /\ cr_Evidence (toy_report toy_stake) <> [].
Proof.
  split; [|discriminate]. refine (proj1 (report_evidence_trimmed (toy_report toy_stake) [5] toy_report_valid eq_refl _)).
  vm_compute. repeat constructor.
Defined.
