(* ===== verification/DhtLookup.v ===== *)
(** * The AXON DHT: lookups ([internal/axon/dht/lookup.go], [circuitrpc.go],
    [lookupwire.go])

    A lookup runs several paths at once over one set of claims.  A path is a state
    machine, [path_step], cut where the code takes the claims' lock or waits for an
    answer; a lookup is its paths interleaved in any order, with any answers
    ([lookup_step]).  The binding of paths to circuits and the messages a circuit
    carries follow. *)
From S2P Require Import Prelude.
From S2P Require Import GoBytes.
From S2P Require Import RecordUpdate.
From S2P Require Import DhtKeys.
From S2P Require Import DhtTable.
From S2P Require Import DhtRecords.
From Stdlib Require Import Wellfounded.

Definition UnsafeDirectLookup : string := "direct-lookup-no-circuit: the storing node learns the querying address (R4b unmet until P5)".

Record Response : Type := mkResponse { rp_Closer : list Contact; rp_Wire : bytes; rp_Refused : bool }.
Record PathEvidence : Type := mkEvidence {
  pe_Path : nat; pe_Hops : Z; pe_Queried : Z; pe_Timeouts : Z; pe_Refusals : Z; pe_ClosestReached : bytes; pe_Records : Z
}.
#[export] Instance PathEvidence_eta : Eta PathEvidence :=
  fun e => mkEvidence (pe_Path e) (pe_Hops e) (pe_Queried e) (pe_Timeouts e) (pe_Refusals e) (pe_ClosestReached e) (pe_Records e).
Record LookupResult : Type := mkLookupResult { lr_Wires : list bytes; lr_Evidence : list PathEvidence; lr_UnsafeModes : list string }.
Record LookupConfig : Type := mkLookupConfig {
  lc_Paths : Z; lc_Concurrency : Z; lc_BucketSize : Z;
  lc_Validate : option (bytes -> bytes -> bool);
  lc_OverCircuit : bool
}.
Definition withDefaults (c : LookupConfig) : LookupConfig :=
  let or_default n d := if n <=? 0 then Z.of_nat d else n in
  mkLookupConfig (or_default (lc_Paths c) DisjointPaths) (or_default (lc_Concurrency c) Concurrency)
    (or_default (lc_BucketSize c) BucketSize) (lc_Validate c) (lc_OverCircuit c).
Definition CircuitConfig (base : LookupConfig) : LookupConfig :=
  mkLookupConfig (lc_Paths base) (lc_Concurrency base) (lc_BucketSize base) (lc_Validate base) true.

(** ** The claims *)

Definition claim (claimed : gmap bytes nat) (id : bytes) (path : nat) : gmap bytes nat * bool :=
  match claimed !! id with Some _ => (claimed, false) | None => (<[id := path]> claimed, true) end.
Definition claim_owner (claimed : gmap bytes nat) (id : bytes) : option nat := claimed !! id.

(** ** One path *)

(** Where a path stands: at the head of its loop; with answers of a round left to
    take; among the candidates of one answer, whose record comes after; done. *)
Inductive path_pc : Type :=
| AtLoop
| InRound (outs : list (Contact * option Response)) (improved : bool)
| InClaims (cands : list Contact) (wire : bytes) (outs : list (Contact * option Response)) (improved : bool)
| Finished.
Record path : Type := mkPath {
  p_frontier : list Contact;
  p_queried : gset bytes;
  p_best : bytes;
  p_found : list bytes;
  p_ev : PathEvidence;
  p_pc : path_pc
}.
#[export] Instance path_eta : Eta path := fun p => mkPath (p_frontier p) (p_queried p) (p_best p) (p_found p) (p_ev p) (p_pc p).

Definition max_key : bytes := replicate 32 255.
Definition new_path (i : nat) (frontier : list Contact) : path :=
  mkPath frontier ∅ max_key [] (mkEvidence i 0 0 0 0 (zeros 32) 0) AtLoop.

Section Path.
Context (cfg : LookupConfig) (key : bytes).

Definition finish (p : path) : path :=
  let ev := p_ev p in
  mkPath (p_frontier p) (p_queried p) (p_best p) (p_found p)
    (mkEvidence (pe_Path ev) (pe_Hops ev) (pe_Queried ev) (pe_Timeouts ev) (pe_Refusals ev) (p_best p) (pe_Records ev)) Finished.

(** The head of the loop: the next batch is asked, and [ans] is what came back. *)
Definition start_round (cancelled : bool) (ans : Contact -> option Response) (p : path) : path :=
  match p_frontier p with
  | [] => finish p
  | _ =>
      if cancelled then finish p
      else
        let sorted := sort_by_distance key (p_frontier p) in
        let batch := take (Z.to_nat (lc_Concurrency cfg)) sorted in
        let ev := p_ev p in
        mkPath (drop (length batch) sorted) (p_queried p) (p_best p) (p_found p)
          (mkEvidence (pe_Path ev) (pe_Hops ev + 1) (pe_Queried ev) (pe_Timeouts ev) (pe_Refusals ev) (pe_ClosestReached ev) (pe_Records ev))
          (InRound (map (fun c => (c, ans c)) batch) false)
  end.
(** One answer, up to its candidates. *)
Definition take_answer (c : Contact) (r : option Response) (outs : list (Contact * option Response)) (improved : bool) (p : path) : path :=
  let ev := p_ev p in
  let queried := {[ c_NodeIDPub c ]} ∪ p_queried p in
  match r with
  | None =>
      mkPath (p_frontier p) queried (p_best p) (p_found p)
        (mkEvidence (pe_Path ev) (pe_Hops ev) (pe_Queried ev + 1) (pe_Timeouts ev + 1) (pe_Refusals ev) (pe_ClosestReached ev) (pe_Records ev))
        (InRound outs improved)
  | Some r =>
      let d := Distance (c_KadID c) key in
      let nearer := Key_Less d (p_best p) in
      mkPath (p_frontier p) queried (if nearer then d else p_best p) (p_found p)
        (mkEvidence (pe_Path ev) (pe_Hops ev) (pe_Queried ev + 1) (pe_Timeouts ev)
          (if rp_Refused r then pe_Refusals ev + 1 else pe_Refusals ev) (pe_ClosestReached ev) (pe_Records ev))
        (InClaims (rp_Closer r) (rp_Wire r) outs (nearer || improved))
  end.
Definition wire_good (w : bytes) : bool := match lc_Validate cfg with None => true | Some f => f key w end.
Definition take_wire (wire : bytes) (outs : list (Contact * option Response)) (improved : bool) (p : path) : path :=
  let ev := p_ev p in
  if (0 <? Z.of_nat (length wire)) && wire_good wire then
    mkPath (p_frontier p) (p_queried p) (p_best p) (p_found p ++ [wire])
      (mkEvidence (pe_Path ev) (pe_Hops ev) (pe_Queried ev) (pe_Timeouts ev) (pe_Refusals ev) (pe_ClosestReached ev) (pe_Records ev + 1))
      (InRound outs improved)
  else mkPath (p_frontier p) (p_queried p) (p_best p) (p_found p) ev (InRound outs improved).
Definition goto (pc : path_pc) (p : path) : path := mkPath (p_frontier p) (p_queried p) (p_best p) (p_found p) (p_ev p) pc.
Definition take_candidate (i : nat) (claims : gmap bytes nat) (cand : Contact) (pc : path_pc) (p : path) : gmap bytes nat * path :=
  let (claims, won) := claim claims (c_NodeIDPub cand) i in
  (claims, mkPath (if won then p_frontier p ++ [cand] else p_frontier p) (p_queried p) (p_best p) (p_found p) (p_ev p) pc).

Definition path_step (i : nat) (cancelled : bool) (ans : Contact -> option Response) (claims : gmap bytes nat) (p : path)
    : gmap bytes nat * path :=
  match p_pc p with
  | AtLoop => (claims, start_round cancelled ans p)
  | InRound [] improved => (claims, if improved then goto AtLoop p else finish p)
  | InRound ((c, r) :: outs) improved => (claims, take_answer c r outs improved p)
  | InClaims [] wire outs improved => (claims, take_wire wire outs improved p)
  | InClaims (cand :: cands) wire outs improved => take_candidate i claims cand (InClaims cands wire outs improved) p
  | Finished => (claims, p)
  end.
End Path.

(** ** The lookup *)

Record lookup_state : Type := mkLookup { lk_claims : gmap bytes nat; lk_paths : list path }.

(** Path [i] is dealt seeds [j], [j + step], ...: [fuel] of the number of seeds is
    enough, since [step] is positive. *)
Fixpoint deal_path (fuel : nat) (i j step : nat) (seeds : list Contact) (claims : gmap bytes nat) (frontier : list Contact)
    : gmap bytes nat * list Contact :=
  match fuel with
  | O => (claims, frontier)
  | S fuel =>
      match seeds !! j with
      | None => (claims, frontier)
      | Some s =>
          let (claims, won) := claim claims (c_NodeIDPub s) i in
          deal_path fuel i (j + step) step seeds claims (if won then frontier ++ [s] else frontier)
      end
  end.
Fixpoint deal (n i step : nat) (seeds : list Contact) (claims : gmap bytes nat) : gmap bytes nat * list path :=
  match n with
  | O => (claims, [])
  | S n =>
      let (claims, frontier) := deal_path (length seeds) i i step seeds claims [] in
      let (claims, ps) := deal n (S i) step seeds claims in
      (claims, new_path i frontier :: ps)
  end.
(** [Lookup], up to the goroutines. *)
Definition begin_lookup (t : Table) (key : bytes) (cfg : LookupConfig) : outcome dht_err lookup_state :=
  let cfg := withDefaults cfg in
  let? seeds := Closest t key (3 * lc_Paths cfg) true in
  fail? Nat.eqb (length seeds) 0 with ErrNoSeeds ;;
  let n := Z.to_nat (lc_Paths cfg) in
  let (claims, ps) := deal n 0 n seeds ∅ in
  Ok (mkLookup claims ps).

(** Positions and identities are 32-byte arrays wherever a contact comes from. *)
Definition contact_typed (c : Contact) : Prop := key_ok (c_KadID c).
Definition answers_typed (ans : Contact -> option Response) : Prop :=
  forall c r, ans c = Some r -> Forall contact_typed (rp_Closer r).
Inductive lookup_step (cfg : LookupConfig) (key : bytes) : lookup_state -> lookup_state -> Prop :=
| step_path (l : lookup_state) (i : nat) (p p' : path) (cancelled : bool) (ans : Contact -> option Response) (claims : gmap bytes nat) :
    lk_paths l !! i = Some p -> p_pc p <> Finished -> answers_typed ans ->
    path_step cfg key i cancelled ans (lk_claims l) p = (claims, p') ->
    lookup_step cfg key l (mkLookup claims (<[i := p']> (lk_paths l))).

(** A schedule, executed: which path moves, whether it sees its context
    cancelled, and what it is answered. *)
Definition run_one (cfg : LookupConfig) (key : bytes) (l : lookup_state) (s : nat * bool * (Contact -> option Response)) : lookup_state :=
  let '(i, cancelled, ans) := s in
  match lk_paths l !! i with
  | Some p => let (claims, p) := path_step cfg key i cancelled ans (lk_claims l) p in mkLookup claims (<[i := p]> (lk_paths l))
  | None => l
  end.

Section Wires.
Context `{Hash : Sha256}.
Fixpoint dedupe_loop (seen : gset bytes) (wires : list bytes) : list bytes :=
  match wires with
  | [] => []
  | w :: wires =>
      let d := CanonicalDigest w in
      if bool_decide (d ∈ seen) then dedupe_loop seen wires else w :: dedupe_loop ({[d]} ∪ seen) wires
  end.
Definition dedupeWires (wires : list bytes) : list bytes := dedupe_loop ∅ wires.
(** [finished]: the paths in the order they returned. *)
Definition end_lookup (cfg : LookupConfig) (finished : list nat) (l : lookup_state) : LookupResult :=
  mkLookupResult (dedupeWires (concat (omap (fun i => p_found <$> lk_paths l !! i) finished)))
    (map p_ev (lk_paths l)) (if lc_OverCircuit cfg then [] else [UnsafeDirectLookup]).
End Wires.

(** ** Paths and circuits *)

Inductive circuit_err : Type := ErrNoCircuit (path : nat) | ErrCircuitReused (other path : nat) | ErrTerminalReused (other path : nat).
Record Circuit : Type := mkCircuit { ci_ID : Z; ci_Terminal : bytes }.
Record circuits : Type := mkCircuits { cs_byPath : gmap nat Circuit; cs_usedCircuit : gmap Z nat; cs_usedTerminal : gmap bytes nat }.
Definition no_circuits : circuits := mkCircuits ∅ ∅ ∅.
(** [CircuitRPC] up to its query: the circuit a path's query goes over.  The
    dispatcher fails, hands out nothing, or hands out a circuit. *)
Definition circuit_for (dispatcher : nat -> outcome unit (option Circuit)) (path : nat) (s : circuits)
    : circuits * outcome circuit_err Circuit :=
  match cs_byPath s !! path with
  | Some c => (s, Ok c)
  | None =>
      match dispatcher path with
      | Panic => (s, Panic)
      | Err _ | Ok None => (s, Err (ErrNoCircuit path))
      | Ok (Some c) =>
          match cs_usedCircuit s !! ci_ID c, cs_usedTerminal s !! ci_Terminal c with
          | Some other, _ => (s, Err (ErrCircuitReused other path))
          | None, Some other => (s, Err (ErrTerminalReused other path))
          | None, None =>
              (mkCircuits (<[path := c]> (cs_byPath s)) (<[ci_ID c := path]> (cs_usedCircuit s)) (<[ci_Terminal c := path]> (cs_usedTerminal s)), Ok c)
          end
      end
  end.

(** ** Messages *)

Definition MaxLookupWire : Z := 16 * 1024.
Definition MaxLookupMessage : Z := MaxLookupWire + Z.of_nat BucketSize * 160 + 64.
Record wireContact : Type := mkWireContact { wc_NodeIDPub : bytes; wc_KadID : bytes; wc_Addr : bytes; wc_PFamily : Z; wc_PBytes : bytes; wc_ASN : Z }.
Record wireRequest : Type := mkWireRequest { wq_To : wireContact; wq_Key : bytes }.
Record wireResponse : Type := mkWireResponse { wr_Closer : list wireContact; wr_Wire : bytes; wr_Refused : bool }.

(** [Addr.AsSlice] and [netip.AddrFromSlice]. *)
Definition AsSlice (a : Addr) : bytes := match a with AddrInvalid => [] | Addr4 b | Addr16 b => b end.
Definition AddrFromSlice (b : bytes) : option Addr :=
  if Nat.eqb (length b) 4 then Some (Addr4 b) else if Nat.eqb (length b) 16 then Some (Addr16 b) else None.

Definition toWire (c : Contact) : wireContact :=
  mkWireContact (c_NodeIDPub c) (c_KadID c) (AsSlice (c_Addr c)) (np_Family (c_Prefix c)) (np_Bytes (c_Prefix c)) (c_ASN c).
Definition ErrLookupWire (what : string) : dht_err := ErrDht (String.append "axon/dht: malformed lookup message: " what).
Definition fromWire (w : wireContact) : outcome dht_err Contact :=
  fail? negb (Nat.eqb (length (wc_NodeIDPub w)) 32) || negb (Nat.eqb (length (wc_KadID w)) 32) with ErrLookupWire "contact id sizes" ;;
  let? addr := of_option (ErrLookupWire "contact address") (AddrFromSlice (wc_Addr w)) in
  fail? (negb (wc_PFamily w =? 4) || negb (Nat.eqb (length (wc_PBytes w)) 3)) &&
        (negb (wc_PFamily w =? 6) || negb (Nat.eqb (length (wc_PBytes w)) 6)) with ErrLookupWire "contact prefix" ;;
  Ok (mkContact (wc_NodeIDPub w) (wc_KadID w) (Unmap addr) (mkPrefix (wc_PFamily w) (wc_PBytes w)) (wc_ASN w) false).

(** The CBOR library on the two messages. *)
Class LookupCbor : Type := {
  lookup_marshal_request : wireRequest -> bytes;
  lookup_unmarshal_request : bytes -> option wireRequest;
  lookup_marshal_response : wireResponse -> bytes;
  lookup_unmarshal_response : bytes -> option wireResponse
}.
Class LookupCborLaws (C : LookupCbor) : Prop := {
  lookup_request_roundtrip : forall w, lookup_unmarshal_request (lookup_marshal_request w) = Some w;
  lookup_response_roundtrip : forall w, lookup_unmarshal_response (lookup_marshal_response w) = Some w
}.

Section Messages.
Context `{Codec : LookupCbor}.
Definition EncodeLookupRequest (to : Contact) (key : bytes) : bytes := lookup_marshal_request (mkWireRequest (toWire to) key).
Definition DecodeLookupRequest (b : bytes) : outcome dht_err (Contact * bytes) :=
  fail? 512 <? Z.of_nat (length b) with ErrLookupWire "request is too long" ;;
  let? w := of_option (ErrLookupWire "request") (lookup_unmarshal_request b) in
  fail? negb (Nat.eqb (length (wq_Key w)) 32) with ErrLookupWire "key size" ;;
  let? c := fromWire (wq_To w) in
  Ok (c, wq_Key w).
Definition over_bounds (contacts : nat) (wire : bytes) : bool :=
  (BucketSize <? contacts)%nat || (MaxLookupWire <? Z.of_nat (length wire)).
Definition EncodeLookupResponse (r : Response) : outcome dht_err bytes :=
  fail? over_bounds (length (rp_Closer r)) (rp_Wire r) with ErrLookupWire "response over its bounds" ;;
  Ok (lookup_marshal_response (mkWireResponse (map toWire (rp_Closer r)) (rp_Wire r) (rp_Refused r))).
Fixpoint fromWires (ws : list wireContact) : outcome dht_err (list Contact) :=
  match ws with
  | [] => Ok []
  | w :: ws => let? c := fromWire w in let? cs := fromWires ws in Ok (c :: cs)
  end.
Definition DecodeLookupResponse (b : bytes) : outcome dht_err Response :=
  fail? MaxLookupMessage <? Z.of_nat (length b) with ErrLookupWire "response is too long" ;;
  let? w := of_option (ErrLookupWire "response") (lookup_unmarshal_response b) in
  fail? over_bounds (length (wr_Closer w)) (wr_Wire w) with ErrLookupWire "response over its bounds" ;;
  let? cs := fromWires (wr_Closer w) in
  Ok (mkResponse cs (wr_Wire w) (wr_Refused w)).
End Messages.

(** ** Disjointness *)

(** Every identity a path has taken: waiting, being asked, asked. *)
Definition pending (p : path) : list Contact :=
  match p_pc p with InRound outs _ | InClaims _ _ outs _ => map fst outs | _ => [] end.
Definition taken (p : path) : list bytes := map c_NodeIDPub (p_frontier p ++ pending p) ++ elements (p_queried p).

Record path_ok (cfg : LookupConfig) (key : bytes) (claims : gmap bytes nat) (i : nat) (p : path) : Prop := {
  po_once : NoDup (taken p);
  po_mine : forall id, id ∈ taken p -> claims !! id = Some i;
  po_count : pe_Queried (p_ev p) = Z.of_nat (size (p_queried p));
  po_found : Forall (fun w => w <> [] /\ wire_good cfg key w = true) (p_found p)
}.
Definition lookup_ok (cfg : LookupConfig) (key : bytes) (l : lookup_state) : Prop :=
  forall i p, lk_paths l !! i = Some p -> path_ok cfg key (lk_claims l) i p.

Lemma Closest_from (t : Table) (key : bytes) (n : Z) (out : list Contact) (c : Contact) :
  Closest t key n true = Ok out -> c ∈ out -> c ∈ all_contacts t /\ c_Verified c = true.
Proof.
  intros H Hc. assert (c ∈ sort_by_distance key (filter (fun c => true && negb (c_Verified c) = false) (all_contacts t))) as Hs.
  { unfold Closest, closest_of in H. repeat case_match; try discriminate; injection H as <-; [|done].
    rewrite <- (take_drop (Z.to_nat n)). apply elem_of_app. by left. }
  unfold sort_by_distance in Hs. rewrite merge_sort_Permutation in Hs. apply list_elem_of_filter in Hs as [HV HA].
  split; [done|]. by apply negb_false_iff in HV.
Qed.

Section Disjoint.
Context (cfg : LookupConfig) (key : bytes).

Lemma path_ok_taken (claims : gmap bytes nat) (i : nat) (p p' : path) :
  taken p' ≡ₚ taken p -> pe_Queried (p_ev p') = Z.of_nat (size (p_queried p')) ->
  Forall (fun w => w <> [] /\ wire_good cfg key w = true) (p_found p') ->
  path_ok cfg key claims i p -> path_ok cfg key claims i p'.
Proof. intros HT HC HF [H1 H2 H3 H4]. split; [by rewrite HT|intros id; rewrite HT; apply H2|done|done]. Qed.

Lemma path_ok_claims (claims claims' : gmap bytes nat) (i : nat) (p : path) :
  claims ⊆ claims' -> path_ok cfg key claims i p -> path_ok cfg key claims' i p.
Proof. intros HC [H1 H2 H3 H4]. split; [done| |done|done]. intros id Hid. eapply lookup_weaken; [by apply H2|done]. Qed.

Lemma claim_spec (claims claims' : gmap bytes nat) (id : bytes) (i : nat) (won : bool) :
  claim claims id i = (claims', won) ->
  claims ⊆ claims' /\ (won = true -> claims !! id = None /\ claims' !! id = Some i) /\ (won = false -> claims' = claims).
Proof.
  unfold claim. destruct (claims !! id) eqn:E; intros [= <- <-]; [by split; [|split]|]. split; [by apply insert_subseteq|].
  split; [|done]. intros _. split; [done|apply lookup_insert_eq].
Qed.

Lemma queried_once (claims : gmap bytes nat) (i : nat) (p : path) (c : Contact) (r : option Response)
    (outs : list (Contact * option Response)) (improved : bool) :
  path_ok cfg key claims i p -> p_pc p = InRound ((c, r) :: outs) improved ->
  path_ok cfg key claims i (take_answer key c r outs improved p).
Proof.
  intros [H1 H2 H3 H4] HP.
  assert (taken p ≡ₚ map c_NodeIDPub (p_frontier p ++ map fst outs) ++ c_NodeIDPub c :: elements (p_queried p)) as HT.
  { unfold taken, pending. rewrite HP. cbn [map fst]. rewrite !map_app. cbn [map]. rewrite <- !app_assoc.
    apply Permutation_app_head. cbn. apply Permutation_middle. }
  assert (c_NodeIDPub c ∉ p_queried p) as HN.
  { rewrite HT in H1. apply NoDup_app in H1 as (_ & _ & H1). apply NoDup_cons in H1 as [H1 _]. by rewrite elem_of_elements in H1. }
  assert (taken (take_answer key c r outs improved p) ≡ₚ taken p) as HT'.
  { rewrite HT. unfold take_answer, taken, pending. destruct r; cbn; by rewrite elements_union_singleton. }
  apply (path_ok_taken claims i p); [done| |by destruct r|by split].
  destruct r; cbn; rewrite H3, size_union, size_singleton by set_solver; lia.
Qed.

Lemma start_round_ok (claims : gmap bytes nat) (i : nat) (cancelled : bool) (ans : Contact -> option Response) (p : path) :
  path_ok cfg key claims i p -> p_pc p = AtLoop -> path_ok cfg key claims i (start_round cfg key cancelled ans p).
Proof.
  intros H HP. apply (path_ok_taken claims i p); [|unfold start_round; repeat case_match; apply H|unfold start_round; repeat case_match; apply H|done].
  unfold start_round, taken. destruct (p_frontier p) as [|c fr] eqn:EF; [unfold finish, pending; cbn; by rewrite HP, EF|].
  destruct cancelled; [unfold finish, pending; cbn; by rewrite HP, EF|]. rewrite <- EF. unfold pending at 1. cbn [p_pc p_frontier p_queried].
  apply Permutation_app_tail. unfold pending. rewrite HP, app_nil_r. apply fmap_Permutation.
  set (s := sort_by_distance key (p_frontier p)). set (n := Z.to_nat (lc_Concurrency cfg)).
  replace (map fst (map (fun c => (c, ans c)) (take n s))) with (take n s) by (rewrite map_map; cbn; by rewrite map_id).
  rewrite (Permutation_app_comm (drop _ s)). transitivity s; [|apply merge_sort_Permutation].
  rewrite <- (take_drop n s) at 4. apply Permutation_app_head. rewrite length_take.
  destruct (Nat.le_gt_cases n (length s)) as [HL|HL]; [by rewrite Nat.min_l|]. by rewrite Nat.min_r, !drop_ge by lia.
Qed.

Lemma path_step_ok (i : nat) (cancelled : bool) (ans : Contact -> option Response) (claims claims' : gmap bytes nat) (p p' : path) :
  path_step cfg key i cancelled ans claims p = (claims', p') -> path_ok cfg key claims i p ->
  claims ⊆ claims' /\ path_ok cfg key claims' i p'.
Proof.
  unfold path_step. intros E H. destruct (p_pc p) as [|[|[c r] outs] improved|[|cand cands] wire outs improved|] eqn:HP.
  - injection E as <- <-. split; [done|]. by apply start_round_ok.
  - injection E as <- <-. split; [done|]. apply (path_ok_taken claims i p); [|by destruct improved; apply H|by destruct improved; apply H|done].
    unfold taken, pending. rewrite HP. by destruct improved.
  - injection E as <- <-. split; [done|]. by eapply queried_once.
  - injection E as <- <-. split; [done|]. apply (path_ok_taken claims i p); [| | |done].
    + unfold taken, pending, take_wire. rewrite HP. by case_match.
    + unfold take_wire. case_match; apply H.
    + unfold take_wire. case_match eqn:EW; [|apply H]. apply andb_true_iff in EW as [EL EG]. apply Forall_app. split; [apply H|].
      constructor; [|done]. split; [by intros ->|done].
  - unfold take_candidate in E. destruct (claim claims (c_NodeIDPub cand) i) as [cl won] eqn:EC. injection E as <- <-.
    destruct (claim_spec _ _ _ _ _ EC) as (HS & HW & HL). split; [done|]. pose proof (po_mine _ _ _ _ _ H) as HM.
    apply (path_ok_claims _ _ _ _ HS) in H as [H1 H2 H3 H4].
    destruct won; [|split; unfold taken, pending in *; rewrite HP in *; by cbn].
    destruct (HW eq_refl) as [HN HI].
    assert (taken (mkPath (p_frontier p ++ [cand]) (p_queried p) (p_best p) (p_found p) (p_ev p) (InClaims cands wire outs improved))
      ≡ₚ c_NodeIDPub cand :: taken p) as HT.
    { unfold taken, pending. rewrite HP. cbn. rewrite !map_app. cbn. rewrite <- !app_assoc. cbn. symmetry. apply Permutation_middle. }
    split; [rewrite HT|intros id; rewrite HT|done|done].
    + apply NoDup_cons. split; [|done]. intros HX. apply HM in HX. congruence.
    + intros HX. apply elem_of_cons in HX as [->|HX]; [done|by apply H2].
  - by injection E as <- <-.
Qed.

(** What one path leaves to another. *)
Lemma lookup_step_ok (l l' : lookup_state) : lookup_step cfg key l l' -> lookup_ok cfg key l -> lookup_ok cfg key l'.
Proof.
  intros [l0 i p p' cancelled ans claims HI _ _ E] H j q Hq. cbn [lk_paths lk_claims] in *.
  destruct (path_step_ok _ _ _ _ _ _ _ E (H i p HI)) as [HS HO].
  apply list_lookup_insert_Some in Hq as [(-> & -> & _)|[_ Hq]]; [done|]. by apply (path_ok_claims _ _ _ _ HS), H.
Qed.

Lemma lookup_steps_ok (l l' : lookup_state) : rtc (lookup_step cfg key) l l' -> lookup_ok cfg key l -> lookup_ok cfg key l'.
Proof. induction 1; eauto using lookup_step_ok. Qed.

(** ** The deal *)

Lemma new_path_ok (claims : gmap bytes nat) (i : nat) (fr : list Contact) :
  NoDup (map c_NodeIDPub fr) -> (forall c, c ∈ fr -> claims !! c_NodeIDPub c = Some i) -> path_ok cfg key claims i (new_path i fr).
Proof.
  intros HN HC. assert (taken (new_path i fr) = map c_NodeIDPub fr) as HT.
  { unfold taken, pending. cbn. by rewrite elements_empty, !app_nil_r. }
  split; [by rewrite HT| |done|constructor]. intros id Hid. rewrite HT in Hid. apply list_elem_of_fmap in Hid as (c & -> & Hc). by apply HC.
Qed.

Lemma deal_path_ok (fuel i j step : nat) (seeds fr fr' : list Contact) (claims claims' : gmap bytes nat) :
  deal_path fuel i j step seeds claims fr = (claims', fr') ->
  NoDup (map c_NodeIDPub fr) -> (forall c, c ∈ fr -> claims !! c_NodeIDPub c = Some i) ->
  claims ⊆ claims' /\ NoDup (map c_NodeIDPub fr') /\ (forall c, c ∈ fr' -> claims' !! c_NodeIDPub c = Some i) /\
  (forall c, c ∈ fr' -> c ∈ fr \/ c ∈ seeds).
Proof.
  revert j claims fr. induction fuel as [|fuel IH]; intros j claims fr; cbn [deal_path].
  { intros [= <- <-] H1 H2. split; [done|]. split; [done|]. split; [done|auto]. }
  destruct (seeds !! j) as [s|] eqn:ES; [|by intros [= <- <-] H1 H2; split; [done|]; split; [done|]; split; [done|auto]].
  destruct (claim claims (c_NodeIDPub s) i) as [cl won] eqn:EC. destruct (claim_spec _ _ _ _ _ EC) as (HS & HW & HL).
  intros E H1 H2. assert (s ∈ seeds) as Hs by by eapply list_elem_of_lookup_2.
  destruct won; [destruct (HW eq_refl) as [HN HI]|].
  - destruct (IH _ _ _ E) as (G1 & G2 & G3 & G4).
    + rewrite map_app. apply NoDup_snoc; [done|]. intros HX. apply list_elem_of_fmap in HX as (c & EC' & Hc). apply H2 in Hc. congruence.
    + intros c Hc. apply elem_of_app in Hc as [Hc|Hc%list_elem_of_singleton]; [|by subst c]. by eapply lookup_weaken; [apply H2|].
    + split; [by etrans|]. split; [done|]. split; [done|]. intros c Hc. destruct (G4 c Hc) as [Hc'|]; [|by right].
      apply elem_of_app in Hc' as [|Hc'%list_elem_of_singleton]; [by left|right; by subst c].
  - rewrite (HL eq_refl) in *. by eapply IH.
Qed.

Lemma deal_ok (n i step : nat) (seeds : list Contact) (claims claims' : gmap bytes nat) (ps : list path) :
  deal n i step seeds claims = (claims', ps) ->
  claims ⊆ claims' /\ length ps = n /\
  forall j p, ps !! j = Some p -> path_ok cfg key claims' (i + j) p /\ p_pc p = AtLoop /\ p_best p = max_key /\
    Forall (fun c => c ∈ seeds) (p_frontier p).
Proof.
  revert i claims ps. induction n as [|n IH]; intros i claims ps; cbn [deal]; [by intros [= <- <-]|].
  destruct (deal_path (length seeds) i i step seeds claims []) as [cl fr] eqn:ED.
  destruct (deal n (S i) step seeds cl) as [cl' ps'] eqn:EN. intros [= <- <-].
  destruct (deal_path_ok _ _ _ _ _ _ _ _ _ ED) as (G1 & G2 & G3 & G4); [constructor|intros c Hc; by apply not_elem_of_nil in Hc|].
  destruct (IH _ _ _ EN) as (K1 & K2 & K3). split; [by etrans|]. split; [cbn; by rewrite K2|]. intros [|j] p Hp; cbn in Hp.
  - injection Hp as <-. rewrite Nat.add_0_r. split; [apply new_path_ok; [done|]; intros c Hc; eapply lookup_weaken; [by apply G3|done]|].
    split; [done|]. split; [done|]. rewrite Forall_forall. intros c Hc. destruct (G4 c Hc) as [Hc'|]; [by apply not_elem_of_nil in Hc'|done].
  - replace (i + S j)%nat with (S i + j)%nat by lia. by apply K3.
Qed.

Lemma begin_lookup_ok (t : Table) (cfg0 : LookupConfig) (l : lookup_state) :
  begin_lookup t key cfg0 = Ok l -> lookup_ok cfg key l /\ forall i p, lk_paths l !! i = Some p -> p_pc p = AtLoop /\ p_best p = max_key /\
    Forall (fun c => c ∈ all_contacts t /\ c_Verified c = true) (p_frontier p).
Proof.
  unfold begin_lookup. intros H. outcome_inv. destruct (deal _ _ _ _ _) as [cl ps] eqn:ED. injection H as <-.
  destruct (deal_ok _ _ _ _ _ _ _ ED) as (_ & _ & HP). split; [intros i p Hp; by apply HP|]. intros i p Hp.
  destruct (HP i p Hp) as (_ & H1 & H2 & H3). split; [done|]. split; [done|]. eapply Forall_impl; [exact H3|]. cbn. intros c Hc.
  by eapply Closest_from.
Qed.
End Disjoint.

Lemma reachable_ok (t : Table) (key : bytes) (cfg : LookupConfig) (l l' : lookup_state) :
  begin_lookup t key cfg = Ok l -> rtc (lookup_step (withDefaults cfg) key) l l' -> lookup_ok (withDefaults cfg) key l'.
Proof. intros HB HR. apply (begin_lookup_ok (withDefaults cfg)) in HB as [HB _]. exact (lookup_steps_ok (withDefaults cfg) key l l' HR HB). Qed.

(** C30. The paths of a lookup stay disjoint: however they interleave and whatever
    they are answered, no node is asked by two paths, and none twice by one - the
    count each path reports is the number of different nodes it asked, each of
    them claimed by it alone. *)
Theorem paths_stay_disjoint (t : Table) (key : bytes) (cfg : LookupConfig) (l l' : lookup_state)
    (Hbegin : begin_lookup t key cfg = Ok l) (Hrun : rtc (lookup_step (withDefaults cfg) key) l l') :
  (forall i j p q, i <> j -> lk_paths l' !! i = Some p -> lk_paths l' !! j = Some q -> p_queried p ## p_queried q) /\
  (forall i p, lk_paths l' !! i = Some p -> pe_Queried (p_ev p) = Z.of_nat (size (p_queried p)) /\
    forall id, id ∈ p_queried p -> claim_owner (lk_claims l') id = Some i).
Proof.
  pose proof (reachable_ok _ _ _ _ _ Hbegin Hrun) as H.
  assert (forall i p id, lk_paths l' !! i = Some p -> id ∈ p_queried p -> lk_claims l' !! id = Some i) as HQ.
  { intros i p id Hp Hid. apply (po_mine _ _ _ _ _ (H i p Hp)). unfold taken. apply elem_of_app. right. by apply elem_of_elements. }
  split.
  - intros i j p q Hne Hp Hq id Hi Hj. pose proof (HQ i p id Hp Hi). pose proof (HQ j q id Hq Hj). congruence.
  - intros i p Hp. split; [by eapply po_count, H|]. intros id Hid. by eapply HQ.
Qed.

Section Result.
Context `{Hash : Sha256} `{!Sha256Laws Hash}.

Lemma dedupe_loop_spec (wires : list bytes) (seen : gset bytes) :
  NoDup (map CanonicalDigest (dedupe_loop seen wires)) /\
  (forall w, w ∈ dedupe_loop seen wires -> w ∈ wires /\ CanonicalDigest w ∉ seen) /\
  (forall w, w ∈ wires -> CanonicalDigest w ∈ seen \/ exists w', w' ∈ dedupe_loop seen wires /\ CanonicalDigest w' = CanonicalDigest w).
Proof.
  revert seen. induction wires as [|w wires IH]; intros seen; cbn [dedupe_loop].
  { split; [constructor|]. split; intros w H; by apply not_elem_of_nil in H. }
  case_bool_decide as HD.
  - destruct (IH seen) as (H1 & H2 & H3). split; [done|]. split.
    + intros u Hu. destruct (H2 u Hu). split; [by right|done].
    + intros u Hu. apply elem_of_cons in Hu as [->|Hu]; [by left|by apply H3].
  - destruct (IH ({[CanonicalDigest w]} ∪ seen)) as (H1 & H2 & H3). split; [|split].
    + cbn [map]. apply NoDup_cons. split; [|done]. intros HI. apply list_elem_of_fmap in HI as (u & E & Hu).
      destruct (H2 u Hu) as [_ Hn]. apply Hn. rewrite <- E. apply elem_of_union. left. by apply elem_of_singleton.
    + intros u Hu. apply elem_of_cons in Hu as [->|Hu]; [split; [by left|done]|]. destruct (H2 u Hu) as [Hi Hn]. split; [by right|].
      intros HX. apply Hn. apply elem_of_union. by right.
    + intros u Hu. apply elem_of_cons in Hu as [->|Hu]; [right; exists w; split; [by left|done]|].
      destruct (H3 u Hu) as [HX|(w' & Hw & E)]; [|right; exists w'; split; [by right|done]].
      apply elem_of_union in HX as [HX%elem_of_singleton|HX]; [|by left]. right. exists w. split; [by left|done].
Qed.

(** What a lookup returns has been validated: every encoding in the result was
    found by a path and passes the caller's check, no two have one digest, and -
    short of a SHA-256 collision - nothing any finished path found is missing. *)
Theorem wires_are_validated (t : Table) (key : bytes) (cfg : LookupConfig) (l l' : lookup_state) (finished : list nat)
    (Hbegin : begin_lookup t key cfg = Ok l) (Hrun : rtc (lookup_step (withDefaults cfg) key) l l') :
  let wires := lr_Wires (end_lookup (withDefaults cfg) finished l') in
  Forall (fun w => w <> [] /\ wire_good cfg key w = true) wires /\ NoDup (map CanonicalDigest wires) /\
  forall i p w, i ∈ finished -> lk_paths l' !! i = Some p -> w ∈ p_found p -> exists w', w' ∈ wires /\ unless_collide w' w (w' = w).
Proof.
  pose proof (reachable_ok _ _ _ _ _ Hbegin Hrun) as H.
  cbv zeta. unfold end_lookup, dedupeWires. cbn [lr_Wires]. set (ws := concat _).
  destruct (dedupe_loop_spec ws ∅) as (H1 & H2 & H3). split; [|split; [done|]].
  - rewrite Forall_forall. intros w Hw. apply H2 in Hw as [Hw _]. unfold ws in Hw. apply list_elem_of_In, in_concat in Hw as (fs & Hf & Hw).
    apply list_elem_of_In, list_elem_of_omap in Hf as (i & _ & Hf). apply fmap_Some in Hf as (p & Hp & ->).
    pose proof (po_found _ _ _ _ _ (H i p Hp)) as HF. rewrite Forall_forall in HF. apply list_elem_of_In in Hw. exact (HF w Hw).
  - intros i p w Hi Hp Hw. destruct (H3 w) as [HX|(w' & Hw' & E)].
    + unfold ws. apply list_elem_of_In, in_concat. exists (p_found p). split; [|by apply list_elem_of_In].
      apply list_elem_of_In, list_elem_of_omap. exists i. split; [done|]. by rewrite Hp.
    + by apply not_elem_of_empty in HX.
    + exists w'. split; [done|]. revert E. by apply sha_same.
Qed.
End Result.

(** ** Termination *)

Section Terminates.
Context (cfg : LookupConfig) (key : bytes) (Hkey : key_ok key).

Definition path_typed (p : path) : Prop :=
  key_ok (p_best p) /\ Forall contact_typed (p_frontier p) /\ Forall contact_typed (pending p) /\
  match p_pc p with
  | InRound outs _ => Forall (fun o => forall r, o.2 = Some r -> Forall contact_typed (rp_Closer r)) outs
  | InClaims cands _ outs _ =>
      Forall contact_typed cands /\ Forall (fun o => forall r, o.2 = Some r -> Forall contact_typed (rp_Closer r)) outs
  | _ => True
  end.

Lemma start_round_typed (cancelled : bool) (ans : Contact -> option Response) (p : path) :
  answers_typed ans -> path_typed p -> path_typed (start_round cfg key cancelled ans p).
Proof.
  intros HA (H1 & H2 & H3 & H4). unfold start_round. destruct (p_frontier p) as [|c fr] eqn:EF; [split; [done|]; cbn; by rewrite EF|].
  destruct cancelled; [split; [done|]; cbn; by rewrite EF|]. rewrite <- EF in *.
  assert (Forall contact_typed (sort_by_distance key (p_frontier p))) as HS by (unfold sort_by_distance; by rewrite merge_sort_Permutation).
  split; [done|]. cbn [p_frontier p_pc pending]. split; [by apply Forall_drop|]. unfold pending. cbn [p_pc]. split.
  - rewrite map_map. cbn. rewrite map_id. by apply Forall_take.
  - apply Forall_forall. intros o Ho. apply list_elem_of_fmap in Ho as (x & -> & _). cbn. intros r. apply HA.
Qed.

Lemma path_step_typed (i : nat) (cancelled : bool) (ans : Contact -> option Response) (claims claims' : gmap bytes nat) (p p' : path) :
  answers_typed ans -> path_step cfg key i cancelled ans claims p = (claims', p') -> path_typed p -> path_typed p'.
Proof.
  intros HA. unfold path_step, path_typed at 1, pending. intros E H.
  destruct (p_pc p) as [|[|[c r] outs] improved|[|cand cands] wire outs improved|] eqn:HP; destruct H as (H1 & H2 & H3 & H4).
  - injection E as <- <-. apply start_round_typed; [done|]. unfold path_typed, pending. by rewrite HP.
  - injection E as <- <-. by destruct improved.
  - injection E as <- <-. cbn [map fst] in H3. apply Forall_cons in H3 as [Hc H3]. apply Forall_cons in H4 as [Hr H4].
    unfold take_answer. destruct r as [r|]; unfold path_typed, pending; cbn; [|done].
    split; [case_match; [by apply Distance_array|done]|]. repeat (split; [done|]). split; [by apply Hr|done].
  - injection E as <- <-. destruct H4. unfold take_wire. by case_match.
  - unfold take_candidate in E. destruct (claim _ _ _) as [cl won]. injection E as <- <-. destruct H4 as [H4 H5]. apply Forall_cons in H4 as [Hc H4].
    unfold path_typed, pending. cbn. split; [done|]. split; [|done]. destruct won; [|done]. apply Forall_app. split; [done|by constructor].
  - injection E as <- <-. unfold path_typed, pending. by rewrite HP.
Qed.

(** What a step makes smaller: the best distance, then where the path is in its
    round, then the work left in it. *)
Definition phase (p : path) : nat :=
  match p_pc p with
  | InRound _ true | InClaims _ _ _ true => 3
  | AtLoop => 2
  | InRound _ false | InClaims _ _ _ false => 1
  | Finished => 0
  end.
Definition out_work (o : Contact * option Response) : nat :=
  match o.2 with Some r => 3 + length (rp_Closer r) | None => 3 end.
Definition work (p : path) : nat :=
  match p_pc p with
  | InRound outs _ => sum_list_with out_work outs
  | InClaims cands _ outs _ => 1 + length cands + sum_list_with out_work outs
  | _ => 0
  end.
Definition measure (p : path) : nat * (nat * nat) := (Z.to_nat (be_decode (p_best p)), (phase p, work p)).
Definition shorter (m m' : nat * (nat * nat)) : Prop :=
  (m.1 < m'.1)%nat \/ m.1 = m'.1 /\ ((m.2.1 < m'.2.1)%nat \/ m.2.1 = m'.2.1 /\ (m.2.2 < m'.2.2)%nat).

Lemma shorter_wf : well_founded shorter.
Proof.
  intros [a [b c]]. revert b c. induction a as [a IHa] using lt_wf_ind. intros b.
  induction b as [b IHb] using lt_wf_ind. intros c. induction c as [c IHc] using lt_wf_ind.
  constructor. intros [a' [b' c']] [H|[H [H'|[H' H'']]]]; cbn in *; subst; auto.
Qed.

Lemma path_step_shorter (i : nat) (cancelled : bool) (ans : Contact -> option Response) (claims claims' : gmap bytes nat) (p p' : path) :
  path_typed p -> p_pc p <> Finished -> path_step cfg key i cancelled ans claims p = (claims', p') -> shorter (measure p') (measure p).
Proof.
  unfold path_typed, path_step, shorter, measure, phase, work, pending. intros (HB & _ & HT & _) HF E.
  destruct (p_pc p) as [|[|[c r] outs] improved|[|cand cands] wire outs improved|] eqn:HP; [| | | | |done].
  - injection E as <- <-. right. unfold start_round. destruct (p_frontier p), cancelled; (split; [done|]); left; cbn; lia.
  - injection E as <- <-. right. destruct improved; (split; [done|]); left; cbn; lia.
  - injection E as <- <-. unfold take_answer. destruct r as [r|]; cbn [p_best p_pc fst snd].
    2: { right. split; [done|]. right. split; [done|]. cbn. lia. }
    cbn [map fst] in HT. apply Forall_cons in HT as [Hc _]. destruct (Key_Less (Distance (c_KadID c) key) (p_best p)) eqn:EK.
    + left. rewrite (Key_Less_spec 32) in EK; [|by apply Distance_array|done]. apply Z.ltb_lt in EK.
      pose proof (be_decode_range _ (proj2 (Distance_array 32 _ _ Hc Hkey))). lia.
    + right. split; [done|]. right. cbn [orb]. split; [done|]. cbn. lia.
  - injection E as <- <-. right. unfold take_wire. case_match; (split; [done|]); right; (split; [done|]); cbn; lia.
  - unfold take_candidate in E. destruct (claim _ _ _). injection E as <- <-. right. split; [done|]. right. split; [done|]. cbn. lia.
Qed.

(** One member of a list gets smaller. *)
Definition one_shorter (ms' ms : list (nat * (nat * nat))) : Prop :=
  exists i m m', ms !! i = Some m /\ shorter m' m /\ ms' = <[i := m']> ms.
Lemma one_shorter_wf : well_founded one_shorter.
Proof.
  intros ms. induction ms as [|m ms IH]; [constructor; intros ms' (i & m & m' & H & _); done|].
  revert ms IH. induction (shorter_wf m) as [m _ IHm]. intros ms IH. induction IH as [ms HA IHms].
  constructor. intros ms' (i & x & x' & Hx & HS & ->). destruct i as [|i]; cbn in Hx |- *.
  - injection Hx as ->. apply IHm; [done|]. by constructor.
  - apply IHms. by exists i, x, x'.
Qed.

Definition lookup_typed (l : lookup_state) : Prop := Forall path_typed (lk_paths l).
Lemma lookup_step_typed (l l' : lookup_state) : lookup_step cfg key l l' -> lookup_typed l -> lookup_typed l'.
Proof.
  intros [l0 i p p' cancelled ans claims HI _ HA E] H. apply Forall_insert; [exact H|].
  eapply path_step_typed; [exact HA|exact E|]. unfold lookup_typed in H. rewrite Forall_lookup in H. by eapply H.
Qed.

Lemma lookup_Acc (l : lookup_state) : lookup_typed l -> Acc (flip (lookup_step cfg key)) l.
Proof.
  remember (map measure (lk_paths l)) as ms eqn:E. revert l E. induction (one_shorter_wf ms) as [ms _ IH]. intros l -> HT.
  constructor. intros l' HS. unfold flip in HS. apply (IH (map measure (lk_paths l'))); [|done|by eapply lookup_step_typed].
  destruct HS as [l0 i p p' cancelled ans claims HI HF HA EP]. exists i, (measure p), (measure p'). split; [by rewrite list_lookup_fmap, HI|].
  split; [|exact (list_fmap_insert measure _ _ _)]. eapply path_step_shorter; [|done|exact EP].
  unfold lookup_typed in HT. rewrite Forall_lookup in HT. by eapply HT.
Qed.
End Terminates.

Lemma max_key_ok : key_ok max_key.
Proof. split; [done|]. apply Forall_replicate. by vm_compute. Qed.

(** C35. A lookup ends: from where it begins there is no infinite run of its paths,
    whatever the peers answer - each round either brings a path nearer to the key
    than it has been or is its last. *)
Theorem lookup_terminates (t : Table) (key : bytes) (cfg : LookupConfig) (l : lookup_state)
    (Hkey : key_ok key) (Htable : Forall contact_typed (all_contacts t)) (Hbegin : begin_lookup t key cfg = Ok l) :
  Acc (flip (lookup_step (withDefaults cfg) key)) l.
Proof.
  apply lookup_Acc; [done|]. apply (begin_lookup_ok cfg) in Hbegin as [_ H]. apply Forall_lookup. intros i p Hp.
  destruct (H i p Hp) as (HP & HB & HF). unfold path_typed, pending. rewrite HP, HB. split; [exact max_key_ok|]. split; [|by split].
  eapply Forall_impl; [exact HF|]. cbn. intros c [Hc _]. rewrite Forall_forall in Htable. by apply Htable.
Qed.

(** ** One node can hide a record *)

Lemma run_one_steps (cfg : LookupConfig) (key : bytes) (l : lookup_state) (s : nat * bool * (Contact -> option Response)) :
  answers_typed s.2 -> rtc (lookup_step cfg key) l (run_one cfg key l s).
Proof.
  destruct s as [[i cancelled] ans]. cbn [snd]. intros HA. unfold run_one. destruct (lk_paths l !! i) as [p|] eqn:HP; [|done].
  destruct (path_step cfg key i cancelled ans (lk_claims l) p) as [claims p'] eqn:E.
  assert (p_pc p = Finished \/ p_pc p <> Finished) as [HF|HF] by (destruct (p_pc p); (by left) || by right); [|apply rtc_once; by eapply step_path].
  unfold path_step in E. rewrite HF in E. injection E as <- <-. rewrite list_insert_id by done. by destruct l.
Qed.

Lemma run_steps (cfg : LookupConfig) (key : bytes) (schedule : list (nat * bool * (Contact -> option Response))) (l : lookup_state) :
  Forall (fun s => answers_typed s.2) schedule -> rtc (lookup_step cfg key) l (foldl (run_one cfg key) l schedule).
Proof.
  intros H. revert l. induction H as [|s schedule Hs H IH]; intros l; [done|]. cbn [foldl]. etrans; [by apply run_one_steps|apply IH].
Qed.

Section Squat.
Definition squat_key : bytes := toy_key 0.
Definition node_at (id at_ : Z) : Contact := mkContact (toy_key id) (toy_key at_) AddrInvalid (mkPrefix 4 [id; 0; 0]) id true.
(** The holder of the record, and where a liar says it is. *)
Definition holder : Contact := node_at 9 1.
Definition holder_misplaced : Contact := node_at 9 (2 ^ 255).
Definition decoys : list Contact := [node_at 11 2; node_at 12 3; node_at 13 4].
(** Three nodes are known, and the first of them is the liar. *)
Definition squat_table : Table := table_run (NewTable (toy_key (2 ^ 250))) [TAdmit (node_at 1 50); TAdmit (node_at 2 51); TAdmit (node_at 3 52)].
(** What everybody answers: the others name the holder where it is, and the holder
    serves the record. *)
Definition squat_answers (liar : option Response) (c : Contact) : option Response :=
  if bool_decide (c_NodeIDPub c = toy_key 1) then liar
  else if bool_decide (c_NodeIDPub c = toy_key 2) || bool_decide (c_NodeIDPub c = toy_key 3) then Some (mkResponse [holder] [] false)
  else if bool_decide (c_NodeIDPub c = toy_key 9) then Some (mkResponse [] [7] false)
  else None.
Definition squat_cfg : LookupConfig := withDefaults (mkLookupConfig 0 0 0 None true).
Definition squat_schedule (liar : option Response) : list (nat * bool * (Contact -> option Response)) :=
  map (fun i => (i, false, squat_answers liar)) (replicate 16 0%nat ++ replicate 16 1%nat ++ replicate 16 2%nat).
Definition the_lie : Response := mkResponse (holder_misplaced :: decoys) [] false.

Lemma node_typed (id at_ : Z) : contact_typed (node_at id at_).
Proof. apply toy_key_ok. Qed.
Lemma squat_typed (liar : option Response) :
  (forall r, liar = Some r -> Forall contact_typed (rp_Closer r)) -> Forall (fun s => answers_typed s.2) (squat_schedule liar).
Proof.
  intros HL. apply Forall_forall. intros s Hs. apply list_elem_of_fmap in Hs as (i & -> & _). cbn [snd]. intros c r. unfold squat_answers.
  repeat case_match; try done; [by apply HL|..]; intros [= <-]; cbn [rp_Closer];
    repeat (constructor; [apply node_typed|]); constructor.
Qed.

(** One node can hide a record all others point to.  Three nodes are known, on
    three paths; two are honest and name the holder, who would serve the record.
    The third claims the holder for its own path by naming it at a false, far
    position, next to three nearer nodes that do not exist: its path ends on those,
    the honest paths may not ask the holder any more, and the lookup ends with
    nothing.  Had the third node kept silent, the record would have been found. *)
Theorem one_node_hides_record :
  exists l hidden served, begin_lookup squat_table squat_key squat_cfg = Ok l /\
    rtc (lookup_step squat_cfg squat_key) l hidden /\
    Forall (fun p => p_pc p = Finished /\ p_found p = []) (lk_paths hidden) /\ length (lk_paths hidden) = 3%nat /\
    rtc (lookup_step squat_cfg squat_key) l served /\ [7] ∈ concat (map p_found (lk_paths served)).
Proof.
  destruct (begin_lookup squat_table squat_key squat_cfg) as [l| |] eqn:EB; [|vm_compute in EB; discriminate EB..].
  exists l, (foldl (run_one squat_cfg squat_key) l (squat_schedule (Some the_lie))),
    (foldl (run_one squat_cfg squat_key) l (squat_schedule None)).
  assert (l = match begin_lookup squat_table squat_key squat_cfg with Ok l => l | _ => mkLookup ∅ [] end) as EL by by rewrite EB.
  split; [done|]. split.
  { apply run_steps, squat_typed. intros r [= <-]. cbn [rp_Closer the_lie]. repeat (constructor; [apply node_typed|]). constructor. }
  rewrite EL. split; [vm_compute; by repeat constructor|]. split; [by vm_compute|]. split.
  - rewrite EB. by apply run_steps, squat_typed.
  - vm_compute. by constructor.
Qed.
End Squat.

(** ** Circuits *)

(** Queries made through one [CircuitRPC], and the circuits they went over. *)
Fixpoint circuit_run (calls : list ((nat -> outcome unit (option Circuit)) * nat)) (s : circuits) (log : list (nat * Circuit))
    : circuits * list (nat * Circuit) :=
  match calls with
  | [] => (s, log)
  | (dispatcher, path) :: calls =>
      let (s, r) := circuit_for dispatcher path s in
      circuit_run calls s (match r with Ok c => (path, c) :: log | _ => log end)
  end.

Record circuits_ok (s : circuits) (log : list (nat * Circuit)) : Prop := {
  co_circuit : forall i c, cs_byPath s !! i = Some c -> cs_usedCircuit s !! ci_ID c = Some i;
  co_terminal : forall i c, cs_byPath s !! i = Some c -> cs_usedTerminal s !! ci_Terminal c = Some i;
  co_log : forall i c, (i, c) ∈ log -> cs_byPath s !! i = Some c
}.

Lemma circuit_for_ok (dispatcher : nat -> outcome unit (option Circuit)) (path : nat) (s : circuits) (log : list (nat * Circuit)) :
  circuits_ok s log ->
  circuits_ok (circuit_for dispatcher path s).1 (match (circuit_for dispatcher path s).2 with Ok c => (path, c) :: log | _ => log end).
Proof.
  intros [H1 H2 H3]. unfold circuit_for. destruct (cs_byPath s !! path) as [c|] eqn:EP; cbn [fst snd].
  { split; [done|done|]. intros i c' Hi. apply elem_of_cons in Hi as [[= -> ->]|Hi]; [done|by apply H3]. }
  destruct (dispatcher path) as [[c|]|e|]; [|by split..]. destruct (cs_usedCircuit s !! ci_ID c) as [o|] eqn:EC; [by split|].
  destruct (cs_usedTerminal s !! ci_Terminal c) as [o|] eqn:ET; [by split|]. cbn [fst snd].
  split; cbn [cs_byPath cs_usedCircuit cs_usedTerminal]; intros i c' Hi.
  - apply lookup_insert_Some in Hi as [[<- <-]|[Hne Hi]]; [apply lookup_insert_eq|]. apply H1 in Hi.
    rewrite lookup_insert_ne; [done|]. intros E. rewrite <- E in Hi. congruence.
  - apply lookup_insert_Some in Hi as [[<- <-]|[Hne Hi]]; [apply lookup_insert_eq|]. apply H2 in Hi.
    rewrite lookup_insert_ne; [done|]. intros E. rewrite <- E in Hi. congruence.
  - apply elem_of_cons in Hi as [[= -> ->]|Hi]; [apply lookup_insert_eq|]. apply H3 in Hi. rewrite lookup_insert_ne; [done|]. congruence.
Qed.

Lemma circuit_run_ok (calls : list ((nat -> outcome unit (option Circuit)) * nat)) (s : circuits) (log : list (nat * Circuit)) :
  circuits_ok s log -> circuits_ok (circuit_run calls s log).1 (circuit_run calls s log).2.
Proof.
  revert s log. induction calls as [|[d path] calls IH]; intros s log H; [done|]. cbn [circuit_run].
  pose proof (circuit_for_ok d path s log H) as HO. destruct (circuit_for d path s) as [s' r]. by apply IH.
Qed.

(** Two paths never share an observer: whatever circuits the dispatcher hands
    out, over all the queries of a lookup in any order, the queries of one path go
    over one circuit, and the queries of two paths over two circuits that end at
    two relays; a refusal changes nothing. *)
Theorem paths_never_share_circuit (calls : list ((nat -> outcome unit (option Circuit)) * nat)) :
  let (s, log) := circuit_run calls no_circuits [] in
  (forall i j c c', (i, c) ∈ log -> (j, c') ∈ log ->
    (i = j -> c = c') /\ (i <> j -> ci_ID c <> ci_ID c' /\ ci_Terminal c <> ci_Terminal c')) /\
  (forall dispatcher i e, (circuit_for dispatcher i s).2 = Err e -> (circuit_for dispatcher i s).1 = s).
Proof.
  pose proof (circuit_run_ok calls no_circuits []) as H. destruct (circuit_run calls no_circuits []) as [s log].
  destruct H as [H1 H2 H3]; [split; intros i c Hi; [by apply (lookup_empty_Some i c) in Hi..|by apply not_elem_of_nil in Hi]|].
  cbn [fst snd] in *. split.
  - intros i j c c' Hi Hj. apply H3 in Hi, Hj. split; [intros ->; congruence|]. intros Hne.
    pose proof (H1 _ _ Hi). pose proof (H1 _ _ Hj). pose proof (H2 _ _ Hi). pose proof (H2 _ _ Hj). split; intros E; rewrite E in *; congruence.
  - intros d i e. unfold circuit_for. by repeat case_match.
Qed.

(** ** Messages *)

(** A contact as the other side sees it: mentioned, not met. *)
Definition as_mentioned (c : Contact) : Contact :=
  mkContact (c_NodeIDPub c) (c_KadID c) (Unmap (c_Addr c)) (c_Prefix c) (c_ASN c) false.
Definition sendable (c : Contact) : Prop :=
  length (c_NodeIDPub c) = 32%nat /\ length (c_KadID c) = 32%nat /\ prefix_wf (c_Prefix c) = true /\
  match c_Addr c with AddrInvalid => False | Addr4 b => length b = 4%nat | Addr16 b => length b = 16%nat end.

Lemma fromWire_toWire (c : Contact) : sendable c -> fromWire (toWire c) = Ok (as_mentioned c).
Proof.
  intros (HN & HK & HP & HA). unfold fromWire, toWire. cbn [wc_NodeIDPub wc_KadID wc_Addr wc_PFamily wc_PBytes wc_ASN]. rewrite HN, HK. cbn [negb orb Nat.eqb guard_err].
  assert (AddrFromSlice (AsSlice (c_Addr c)) = Some (c_Addr c)) as ->.
  { unfold AddrFromSlice. destruct (c_Addr c); cbn [AsSlice]; [done|by rewrite HA|by rewrite HA]. }
  cbn [of_option obind]. unfold prefix_wf in HP. rewrite <- !negb_andb, <- negb_orb, HP. by destruct c as [? ? ? []].
Qed.

Lemma fromWire_mentioned (w : wireContact) (c : Contact) :
  fromWire w = Ok c -> c_Verified c = false /\ length (c_NodeIDPub c) = 32%nat /\ length (c_KadID c) = 32%nat /\ prefix_wf (c_Prefix c) = true.
Proof.
  unfold fromWire. intros H. outcome_inv. zbool. apply Nat.eqb_eq in H, H0. split; [done|]. split; [done|]. split; [done|].
  unfold prefix_wf. cbn [np_Family np_Bytes c_Prefix]. apply negb_false_iff. by rewrite negb_orb, !negb_andb.
Qed.

Lemma fromWires_mentioned (ws : list wireContact) (cs : list Contact) :
  fromWires ws = Ok cs -> length cs = length ws /\ Forall (fun c => c_Verified c = false /\ length (c_NodeIDPub c) = 32%nat /\
    length (c_KadID c) = 32%nat /\ prefix_wf (c_Prefix c) = true) cs.
Proof.
  revert cs. induction ws as [|w ws IH]; intros cs; cbn [fromWires]; [by intros [= <-]|]. intros H. outcome_inv.
  destruct (IH _ eq_refl) as [HL HF]. split; [cbn; by rewrite HL|]. constructor; [by eapply fromWire_mentioned|done].
Qed.

Lemma fromWires_toWire (cs : list Contact) : Forall sendable cs -> fromWires (map toWire cs) = Ok (map as_mentioned cs).
Proof. induction 1 as [|c cs Hc H IH]; [done|]. cbn [map fromWires]. by rewrite fromWire_toWire, IH. Qed.

Section MessageTheorems.
Context `{Codec : LookupCbor} `{!LookupCborLaws Codec}.

(** Lookup messages arrive as they were sent, within their bounds - a response
    of at most 20 contacts and 16 KiB is read back, and so is a request - except
    that every contact arrives as merely mentioned, never as verified. *)
Theorem lookup_messages_roundtrip (to : Contact) (key : bytes) (r : Response) (b : bytes)
    (Hto : sendable to) (Hkey : length key = 32%nat) (Hreq : Z.of_nat (length (EncodeLookupRequest to key)) <= 512)
    (Hall : Forall sendable (rp_Closer r)) (Henc : EncodeLookupResponse r = Ok b) (Hb : Z.of_nat (length b) <= MaxLookupMessage) :
  DecodeLookupRequest (EncodeLookupRequest to key) = Ok (as_mentioned to, key) /\
  DecodeLookupResponse b = Ok (mkResponse (map as_mentioned (rp_Closer r)) (rp_Wire r) (rp_Refused r)).
Proof.
  split.
  - unfold DecodeLookupRequest. rewrite (proj2 (Z.ltb_ge _ _) Hreq). cbn [guard_err]. unfold EncodeLookupRequest.
    rewrite lookup_request_roundtrip. cbn [of_option obind wq_Key wq_To]. rewrite Hkey. cbn [Nat.eqb negb guard_err].
    by rewrite fromWire_toWire.
  - unfold EncodeLookupResponse in Henc. outcome_inv. unfold DecodeLookupResponse. rewrite (proj2 (Z.ltb_ge _ _) Hb). cbn [guard_err].
    rewrite lookup_response_roundtrip. cbn [of_option obind wr_Closer wr_Wire wr_Refused]. rewrite length_map, E. cbn [guard_err].
    by rewrite fromWires_toWire.
Qed.

(** Being mentioned makes nobody a holder: a contact a response names may be
    admitted to any table, and neither the siblings nor what [Closest] returns when
    only verified contacts count gains a contact by it. *)
Theorem mentioned_never_holds (b : bytes) (r : Response) (c x : Contact) (t : Table) (key : bytes) (n : Z) (out : list Contact)
    (Hdec : DecodeLookupResponse b = Ok r) (Hc : c ∈ rp_Closer r)
    (Hout : Closest (Admit c t).1 key n true = Ok out) (Hx : x ∈ out) :
  Siblings (Admit c t).1 = Siblings t /\ x ∈ all_contacts t /\ c_Verified x = true.
Proof.
  assert (c_Verified c = false) as HV.
  { unfold DecodeLookupResponse in Hdec. outcome_inv. apply fromWires_mentioned in E2 as [_ HF]. rewrite Forall_forall in HF.
    cbn [rp_Closer] in Hc. by apply HF. }
  assert (forall t, updateSiblings c t = t) as HU by (intros t'; unfold updateSiblings; by rewrite HV).
  unfold Admit in *. destruct (admit_bucket c t) as [t' o] eqn:EA. cbn [fst] in *. rewrite HU in *.
  assert (tb_siblings t' = tb_siblings t /\ forall y, y ∈ all_contacts t' -> c_Verified y = true -> y ∈ all_contacts t) as [HS HY].
  { unfold admit_bucket in EA. rewrite HV in EA. repeat case_match; simplify_eq; try (split; [done|by auto]).
    split; [done|]. intros y Hy HVy. unfold all_contacts in *. rewrite list_elem_of_In, in_concat in Hy |- *.
    destruct Hy as (bk & Hbk & Hy). apply list_elem_of_In, list_elem_of_fmap in Hbk as ([i bk'] & -> & Hbk). cbn in Hy.
    apply elem_of_map_to_list in Hbk. cbn in Hbk. apply lookup_insert_Some in Hbk as [[<- <-]|[_ Hbk]].
    - apply list_elem_of_In, elem_of_app in Hy as [Hy|Hy%list_elem_of_singleton]; [|congruence].
      unfold Bucket in Hy. destruct (tb_buckets t !! _) as [l|] eqn:EL; [|by apply not_elem_of_nil in Hy].
      exists l. split; [|by apply list_elem_of_In]. apply list_elem_of_In, list_elem_of_fmap. eexists (_, l). split; [done|]. by apply elem_of_map_to_list.
    - exists bk'. split; [|done]. apply list_elem_of_In, list_elem_of_fmap. exists (i, bk'). split; [done|]. by apply elem_of_map_to_list. }
  split; [exact HS|]. destruct (Closest_from _ _ _ _ _ Hout Hx) as [Ha Hv]. by split; [apply HY|].
Qed.
End MessageTheorems.

(** ** Witnesses *)

Definition squat_begun : lookup_state := match begin_lookup squat_table squat_key squat_cfg with Ok l => l | _ => mkLookup ∅ [] end.
Lemma squat_begun_ok : begin_lookup squat_table squat_key squat_cfg = Ok squat_begun.
Proof. vm_compute. reflexivity. Qed.
Definition squat_served : lookup_state := foldl (run_one squat_cfg squat_key) squat_begun (squat_schedule None).
Lemma squat_run : rtc (lookup_step (withDefaults squat_cfg) squat_key) squat_begun squat_served.
Proof. apply (run_steps squat_cfg). by apply squat_typed. Qed.

Lemma paths_stay_disjoint_witness : exists p q, lk_paths squat_served !! 0%nat = Some p /\ lk_paths squat_served !! 1%nat = Some q /\
  p_queried p ## p_queried q.
Proof.
  destruct (lk_paths squat_served !! 0%nat) as [p|] eqn:Ep; [|vm_compute in Ep; discriminate Ep].
  destruct (lk_paths squat_served !! 1%nat) as [q|] eqn:Eq; [|vm_compute in Eq; discriminate Eq].
  exists p, q. split; [reflexivity|]. split; [reflexivity|].
  exact (proj1 (paths_stay_disjoint _ _ _ _ _ squat_begun_ok squat_run) 0%nat 1%nat p q (Nat.neq_0_succ 0) Ep Eq).
Defined.

Lemma wires_are_validated_witness :
  NoDup (map CanonicalDigest (lr_Wires (end_lookup (withDefaults squat_cfg) [0%nat; 1%nat] squat_served))).
Proof. exact (proj1 (proj2 (wires_are_validated _ _ _ _ _ [0%nat; 1%nat] squat_begun_ok squat_run))). Defined.

Lemma squat_contacts : all_contacts squat_table = [node_at 1 50; node_at 2 51; node_at 3 52].
Proof. vm_compute. reflexivity. Qed.
Lemma lookup_terminates_witness : Acc (flip (lookup_step (withDefaults squat_cfg) squat_key)) squat_begun.
Proof.
  refine (lookup_terminates squat_table squat_key squat_cfg squat_begun (toy_key_ok 0) _ squat_begun_ok).
  rewrite squat_contacts. repeat (constructor; [apply node_typed|]). constructor.
Defined.

Abbreviation contact_fields c := (wc_NodeIDPub c, wc_KadID c, wc_Addr c, wc_PFamily c, wc_PBytes c, wc_ASN c).
Definition of_fields (f : bytes * bytes * bytes * Z * bytes * Z) : wireContact := let '(a, b, c, d, e, g) := f in mkWireContact a b c d e g.
Definition to_one {A : Type} `{Countable A} (a : A) : bytes := [Zpos (encode a)].
Definition of_one {A : Type} `{Countable A} (b : bytes) : option A := match b with [Zpos p] => decode p | _ => None end.
Lemma of_one_to_one {A : Type} `{Countable A} (a : A) : of_one (to_one a) = Some a.
Proof. cbn. apply decode_encode. Qed.
#[export] Instance toy_lookup_cbor : LookupCbor := {|
  lookup_marshal_request := fun w => to_one (contact_fields (wq_To w), wq_Key w);
  lookup_unmarshal_request := fun b => (fun p => mkWireRequest (of_fields p.1) p.2) <$> of_one b;
  lookup_marshal_response := fun w => to_one (map (fun c => contact_fields c) (wr_Closer w), wr_Wire w, wr_Refused w);
  lookup_unmarshal_response := fun b => (fun p => mkWireResponse (map of_fields p.1.1) p.1.2 p.2) <$> of_one b
|}.
#[export] Instance toy_lookup_cbor_laws : LookupCborLaws toy_lookup_cbor.
Proof.
  split; intros w; cbn [lookup_unmarshal_request lookup_marshal_request lookup_unmarshal_response lookup_marshal_response toy_lookup_cbor];
    rewrite of_one_to_one; cbn [fmap option_fmap option_map fst snd]; f_equal.
  - by destruct w as [[]].
  - destruct w as [cs w b]. cbn. f_equal. rewrite map_map. rewrite <- (map_id cs) at 2. apply map_ext. by intros [].
Qed.

Definition met : Contact := mkContact (toy_key 5) (toy_key 6) (Addr4 [10; 0; 0; 1]) (mkPrefix 4 [10; 0; 0]) 7 true.
Lemma met_sendable : sendable met.
Proof. repeat split. Qed.
Lemma one_bounded (b : bytes) (n : Z) : length b = 1%nat -> 1 <= n -> Z.of_nat (length b) <= n.
Proof. intros ->. done. Qed.
Lemma lookup_messages_roundtrip_witness : exists b,
  EncodeLookupResponse (mkResponse [met] [7] false) = Ok b /\
  DecodeLookupResponse b = Ok (mkResponse [as_mentioned met] [7] false).
Proof.
  destruct (EncodeLookupResponse (mkResponse [met] [7] false)) as [b| |] eqn:E; [|discriminate E..].
  exists b. split; [reflexivity|].
  refine (proj2 (lookup_messages_roundtrip met (toy_key 0) (mkResponse [met] [7] false) b met_sendable eq_refl _ _ E _)).
  - apply one_bounded; [reflexivity|discriminate].
  - constructor; [apply met_sendable|constructor].
  - apply one_bounded; [injection E as <-; reflexivity|discriminate].
Defined.

Definition telling : bytes := lookup_marshal_response (mkWireResponse [toWire met] [7] false).
Lemma telling_decoded : DecodeLookupResponse telling = Ok (mkResponse [as_mentioned met] [7] false).
Proof. vm_compute. reflexivity. Qed.
Lemma mentioned_never_holds_witness : Siblings (Admit (as_mentioned met) squat_table).1 = Siblings squat_table.
Proof.
  destruct (Closest (Admit (as_mentioned met) squat_table).1 squat_key 8 true) as [out| |] eqn:E; [|vm_compute in E; discriminate E..].
  assert (node_at 1 50 ∈ out) as HI.
  { pose proof E as E'. vm_compute in E'. injection E' as <-. vm_compute. repeat constructor. }
  apply (mentioned_never_holds telling _ (as_mentioned met) (node_at 1 50) squat_table squat_key 8 out telling_decoded (list_elem_of_here _ _) E HI).
Defined.
