(* ===== verification/DhtPublish.v ===== *)
(** * The AXON DHT: publishing a descriptor ([internal/axon/dht/publish.go])

    Which periods are live, the positions to write, a round of publication and
    what it reports, and the positions a client tries.  Times are nanoseconds since
    1970; the store of a holder is an argument that sees how many writes came
    before. *)
From S2P Require Import Prelude.
From S2P Require Import GoBytes.
From S2P Require Import DhtKeys.
From S2P Require Import DhtTable.

Definition PeriodLengthSeconds : Z := 86400.
Definition PeriodOverlap : Z := 12 * 3600 * NanoSecond.
Definition DescriptorRepublish : Z := 3600 * NanoSecond.
Definition ErrNoRecord : dht_err := ErrDht "axon/dht: no descriptor to publish".
Definition ErrNoStore : dht_err := ErrDht "axon/dht: publisher has no store RPC".

Record Target : Type := mkTarget { tg_Period : Z; tg_Position : Z; tg_Key : bytes; tg_Current : bool }.

Definition PeriodStart (period : Z) : Z := wrap_i64 (wrap_u64 (period * PeriodLengthSeconds)) * NanoSecond.
Definition InOverlap (now period : Z) : bool := time_Sub now (PeriodStart period) <? PeriodOverlap.
Definition periodNumber (t : Z) : Z :=
  let unix := t / NanoSecond in if unix <? 0 then 0 else unix / PeriodLengthSeconds.
(** The periods a publisher writes, and whether each is the current one. *)
Definition live_periods (now : Z) : list (Z * bool) :=
  let current := periodNumber now in
  (current, true) :: if (0 <? current) && InOverlap now current then [(current - 1, false)] else [].
Definition FetchPeriods (now : Z) : list Z :=
  let current := periodNumber now in
  if (0 <? current) && InOverlap now current then [current; current - 1] else [current].
Definition NextRepublish (now : Z) : Z := now + DescriptorRepublish.

Section Publish.
Context `{Hash : Sha256}.

Fixpoint plan_periods (kBlindFor : Z -> outcome dht_err bytes) (srv : bytes) (periods : list (Z * bool)) : outcome dht_err (list Target) :=
  match periods with
  | [] => Ok []
  | (num, current) :: periods =>
      let? kBlind := kBlindFor num in
      let? keys := HSDirPositions kBlind num srv in
      let? rest := plan_periods kBlindFor srv periods in
      Ok (imap (fun j k => mkTarget num (Z.of_nat j) k current) keys ++ rest)
  end.
Definition PublishPlan (kBlindFor : option (Z -> outcome dht_err bytes)) (srv : bytes) (now : Z) : outcome dht_err (list Target) :=
  match kBlindFor with
  | None => Err ErrNoBlindedKey
  | Some f => plan_periods f srv (live_periods now)
  end.

(** ** A round *)

Record PositionReport : Type := mkPositionReport { pr_Target : Target; pr_Offered : Z; pr_Accepted : Z; pr_Err : option dht_err }.
Record Report : Type := mkReport { rt_At : Z; rt_Positions : list PositionReport }.
Definition Reached (p : PositionReport) : bool := 0 <? pr_Accepted p.
Definition ReachedAll (r : Report) : bool :=
  if Nat.eqb (length (rt_Positions r)) 0 then false else forallb Reached (rt_Positions r).
Definition Missing (r : Report) : list Target := map pr_Target (filter (fun p => Reached p = false) (rt_Positions r)).
Definition ReplicationFactor : Z := 8.
Definition Underreplicated (r : Report) : list PositionReport :=
  filter (fun p => Reached p && (pr_Accepted p <? ReplicationFactor) = true) (rt_Positions r).

(** A write: to whom, under which key, and what it was answered. *)
Definition write : Type := Contact * bytes * option dht_err.
Definition StoreRPC : Type := nat -> Contact -> bytes -> bytes -> option dht_err.
Record Publisher : Type := mkPublisher { pb_Table : option Table; pb_Store : option StoreRPC; pb_Replication : Z }.

(** The inner loop: the writes of one position, [n] having gone before. *)
Fixpoint offer (store : StoreRPC) (n : nat) (holders : list Contact) (key record : bytes) : list write :=
  match holders with
  | [] => []
  | h :: holders => (h, key, store n h key record) :: offer store (S n) holders key record
  end.
Definition first_error (ws : list write) : option dht_err := head (omap (fun w => w.2) ws).
Definition accepted (ws : list write) : Z := Z.of_nat (length (filter (fun w : write => w.2 = None) ws)).
Fixpoint publish_loop (store : StoreRPC) (t : Table) (r : Z) (record : bytes) (n : nat) (targets : list Target)
    : outcome dht_err (list (PositionReport * list write)) :=
  match targets with
  | [] => Ok []
  | tg :: targets =>
      let? holders := Closest t (tg_Key tg) r true in
      let ws := offer store n holders (tg_Key tg) record in
      let? rest := publish_loop store t r record (n + length ws) targets in
      Ok ((mkPositionReport tg (Z.of_nat (length holders)) (accepted ws) (first_error ws), ws) :: rest)
  end.
Definition PublishOnce (p : Publisher) (kBlindFor : option (Z -> outcome dht_err bytes)) (srv record : bytes) (now : Z)
    : outcome dht_err (Report * list write) :=
  fail? Nat.eqb (length record) 0 with ErrNoRecord ;;
  let? store := of_option ErrNoStore (pb_Store p) in
  let? t := of_option (ErrDht "axon/dht: publisher has no routing table") (pb_Table p) in
  let? targets := PublishPlan kBlindFor srv now in
  let r := if pb_Replication p <=? 0 then ReplicationFactor else pb_Replication p in
  let? done := publish_loop store t r record 0 targets in
  Ok (mkReport now (map fst done), concat (map snd done)).

(** The shuffle is the random source's. *)
Definition FetchPositions (kBlind : bytes) (period : Z) (srv : bytes) (shuffle : option (list bytes -> list bytes))
    : outcome dht_err (list bytes) :=
  let? keys := HSDirPositions kBlind period srv in
  Ok (match shuffle with None => keys | Some f => f keys end).
End Publish.

(** [SortTargets] *)
Definition target_before (a b : Target) : Prop :=
  (if negb (tg_Period b =? tg_Period a) then tg_Period a <? tg_Period b else tg_Position b <? tg_Position a) = false.
#[export] Instance target_before_dec (a b : Target) : Decision (target_before a b).
Proof. unfold target_before. apply _. Defined.
Definition SortTargets (l : list Target) : list Target := merge_sort target_before l.

(** ** Periods *)

(** A time a clock shows before the year 2116. *)
Definition clock (t : Z) : Prop := 0 <= t < 2 ^ 62.
Definition PeriodLength : Z := PeriodLengthSeconds * NanoSecond.

Lemma periodNumber_div (t : Z) : clock t -> periodNumber t = t / PeriodLength.
Proof.
  intros Ht. unfold periodNumber, PeriodLength. rewrite (proj2 (Z.ltb_ge _ _)) by (apply Z.div_pos; [apply Ht|done]).
  rewrite Z.div_div by done. by rewrite (Z.mul_comm NanoSecond).
Qed.

Lemma PeriodStart_mul (p : Z) : 0 <= p <= 2 ^ 46 -> PeriodStart p = p * PeriodLength.
Proof.
  intros Hp. unfold PeriodStart, PeriodLength. rewrite wrap_u_small by (unfold u_range, PeriodLengthSeconds; lia).
  rewrite wrap_s_small; [lia|lia|]. unfold s_range, PeriodLengthSeconds. lia.
Qed.

Lemma InOverlap_spec (t : Z) : clock t -> InOverlap t (periodNumber t) = (t mod PeriodLength <? PeriodOverlap).
Proof.
  intros Ht. assert (0 < PeriodLength) as HL by done. rewrite periodNumber_div by done.
  pose proof (Z.mod_pos_bound t _ HL). pose proof (Z.div_mod t PeriodLength ltac:(lia)) as HM.
  assert (0 <= t / PeriodLength <= 2 ^ 46) as HP.
  { split; [apply Z.div_pos; [apply Ht|done]|]. apply Z.lt_succ_r, Z.div_lt_upper_bound; [done|]. unfold clock in Ht.
    eapply Z.lt_trans; [apply Ht|]. by vm_compute. }
  unfold InOverlap, time_Sub. rewrite PeriodStart_mul by done.
  replace (t - t / PeriodLength * PeriodLength) with (t mod PeriodLength) by lia. f_equal.
  assert (PeriodLength < 2 ^ 62) by by vm_compute. lia.
Qed.

Lemma FetchPeriods_spec (t p : Z) : clock t ->
  p ∈ FetchPeriods t <-> p = t / PeriodLength \/ 0 <= p /\ p = t / PeriodLength - 1 /\ t mod PeriodLength < PeriodOverlap.
Proof.
  intros Ht. unfold FetchPeriods. rewrite InOverlap_spec, periodNumber_div by done.
  destruct (Z.ltb_spec 0 (t / PeriodLength)), (Z.ltb_spec (t mod PeriodLength) PeriodOverlap); cbn [andb];
    rewrite !elem_of_cons, elem_of_nil; lia.
Qed.
Lemma live_fetched (t p : Z) : p ∈ FetchPeriods t <-> p ∈ map fst (live_periods t).
Proof. unfold FetchPeriods, live_periods. by destruct (_ && _). Qed.

Section Served.
Context `{Hash : Sha256}.

Lemma plan_periods_keys (kBlindFor : Z -> outcome dht_err bytes) (srv : bytes) (periods : list (Z * bool)) (targets : list Target)
    (p : Z) : plan_periods kBlindFor srv periods = Ok targets -> p ∈ map fst periods ->
  exists kBlind keys, kBlindFor p = Ok kBlind /\ HSDirPositions kBlind p srv = Ok keys /\
    forall k, k ∈ keys -> exists tg, tg ∈ targets /\ tg_Key tg = k /\ tg_Period tg = p.
Proof.
  revert targets. induction periods as [|[num cur] periods IH]; intros targets; cbn [plan_periods map fst]; [intros _ H; by apply not_elem_of_nil in H|].
  intros H Hp. outcome_inv. apply elem_of_cons in Hp as [->|Hp].
  - exists a, a0. repeat (split; [done|]). intros k Hk. apply list_elem_of_lookup in Hk as [j Hj].
    exists (mkTarget num (Z.of_nat j) k cur). split; [|done]. apply elem_of_app. left. apply list_elem_of_lookup. exists j.
    by rewrite list_lookup_imap, Hj.
  - destruct (IH _ eq_refl Hp) as (kB & keys & H1 & H2 & H3). exists kB, keys. repeat (split; [done|]). intros k Hk.
    destruct (H3 k Hk) as (tg & Ht & Htg). exists tg. split; [apply elem_of_app; by right|done].
Qed.

(** A client is served as long as its clock is within twelve hours of the
    publisher's, behind or ahead: one of the periods it tries is among those the
    publisher writes, and every position it derives for that period, in whatever
    order it tries them, is one the publisher writes. *)
Theorem skewed_client_served (kBlindFor : Z -> outcome dht_err bytes) (srv : bytes) (publisher client : Z) (targets : list Target)
    (shuffle : option (list bytes -> list bytes))
    (Hp : clock publisher) (Hc : clock client) (Hskew : Z.abs (publisher - client) <= PeriodOverlap)
    (Hplan : PublishPlan (Some kBlindFor) srv publisher = Ok targets) (Hshuffle : forall f l, shuffle = Some f -> f l ≡ₚ l) :
  exists period kBlind keys, period ∈ FetchPeriods client /\ kBlindFor period = Ok kBlind /\
    FetchPositions kBlind period srv shuffle = Ok keys /\
    forall k, k ∈ keys -> exists tg, tg ∈ targets /\ tg_Key tg = k /\ tg_Period tg = period.
Proof.
  assert (exists p, p ∈ FetchPeriods client /\ p ∈ FetchPeriods publisher) as (p & Hpc & Hpp).
  { assert (0 < PeriodLength) as HL by done. assert (PeriodLength = 2 * PeriodOverlap) as HO by (vm_compute; reflexivity).
    pose proof (Z.mod_pos_bound publisher _ HL). pose proof (Z.div_mod publisher PeriodLength ltac:(lia)).
    pose proof (Z.mod_pos_bound client _ HL). pose proof (Z.div_mod client PeriodLength ltac:(lia)).
    pose proof (Z.div_pos publisher _ (proj1 Hp) HL). pose proof (Z.div_pos client _ (proj1 Hc) HL).
    setoid_rewrite FetchPeriods_spec; [|done|done].
    set (P := publisher / PeriodLength) in *. set (Q := client / PeriodLength) in *.
    assert (Q = P \/ Q = P - 1 \/ Q = P + 1) as [E|[E|E]] by nia.
    - exists P. split; left; lia.
    - exists Q. split; [by left|]. right. split; [done|]. split; [done|]. nia.
    - exists P. split; [|by left]. right. split; [done|]. split; [lia|]. nia. }
  apply live_fetched in Hpp. destruct (plan_periods_keys _ _ _ _ _ Hplan Hpp) as (kB & keys & H1 & H2 & H3).
  unfold FetchPositions. exists p, kB, (match shuffle with None => keys | Some f => f keys end).
  split; [done|]. split; [done|]. split; [by rewrite H2|]. intros k Hk. apply H3. destruct shuffle as [f|]; [|done].
  by rewrite <- (Hshuffle f keys eq_refl).
Qed.

(** ** What a round did *)

Lemma offer_spec (store : StoreRPC) (n : nat) (holders : list Contact) (key record : bytes) :
  map fst (offer store n holders key record) = map (fun h => (h, key)) holders.
Proof. revert n. induction holders as [|h holders IH]; intros n; [done|]. cbn. by rewrite IH. Qed.

Record position_written (t : Table) (r : Z) (tg : Target) (pr : PositionReport) (ws : list write) : Prop := {
  pw_target : pr_Target pr = tg;
  pw_offered : exists holders, Closest t (tg_Key tg) r true = Ok holders /\ map fst ws = map (fun h => (h, tg_Key tg)) holders /\
    pr_Offered pr = Z.of_nat (length holders);
  pw_accepted : pr_Accepted pr = accepted ws
}.

Lemma publish_loop_spec (store : StoreRPC) (t : Table) (r : Z) (record : bytes) (n : nat) (targets : list Target)
    (res : list (PositionReport * list write)) :
  publish_loop store t r record n targets = Ok res -> Forall2 (fun tg x => position_written t r tg x.1 x.2) targets res.
Proof.
  revert n res. induction targets as [|tg targets IH]; intros n res; cbn [publish_loop]; [intros [= <-]; constructor|].
  intros H. outcome_inv. constructor; [|by eapply IH]. cbn [fst snd]. split; [done| |done].
  exists a. split; [done|]. split; [apply offer_spec|done].
Qed.

Lemma accepted_pos (ws : list write) : 0 < accepted ws <-> exists w, w ∈ ws /\ w.2 = None.
Proof.
  unfold accepted. split.
  - intros H. destruct (filter (fun w : write => w.2 = None) ws) as [|w l] eqn:E; [cbn in H; lia|]. exists w.
    assert (w ∈ filter (fun w : write => w.2 = None) ws) as Hw by (rewrite E; by left). by apply list_elem_of_filter in Hw as [].
  - intros (w & Hw & HN). assert (w ∈ filter (fun w : write => w.2 = None) ws) as HF by by apply list_elem_of_filter.
    destruct (filter _ ws); [by apply not_elem_of_nil in HF|cbn; lia].
Qed.

(** A round writes everywhere, whatever fails on the way: every position of the
    plan, in order, is offered to exactly the nearest verified contacts, however the
    holders before it answered; and the report is of what happened - all reached
    means that for every position some holder accepted, and otherwise the missing
    ones are named. *)
Theorem round_writes_everywhere (p : Publisher) (kBlindFor : option (Z -> outcome dht_err bytes)) (srv record : bytes) (now : Z)
    (rep : Report) (ws : list write) (Hok : PublishOnce p kBlindFor srv record now = Ok (rep, ws)) :
  exists t r targets slices, pb_Table p = Some t /\ 0 < r /\ PublishPlan kBlindFor srv now = Ok targets /\ ws = concat slices /\
    Forall2 (fun tg x => position_written t r tg x.1 x.2) targets (zip (rt_Positions rep) slices) /\
    (ReachedAll rep = true <-> targets <> [] /\ Missing rep = []) /\
    (Missing rep = [] <-> Forall (fun s : list write => exists w, w ∈ s /\ w.2 = None) slices).
Proof.
  unfold PublishOnce in Hok. set (r := if pb_Replication p <=? 0 then ReplicationFactor else pb_Replication p) in *.
  destruct (pb_Table p) as [t|] eqn:ET; cbn [of_option] in Hok; outcome_inv.
  exists t, r, a0, (map snd a1). apply publish_loop_spec in E2 as H2. clear -H2. cbn [rt_Positions].
  split; [done|]. split; [unfold r, ReplicationFactor; destruct (Z.leb_spec (pb_Replication p) 0); lia|]. split; [done|]. split; [done|].
  assert (zip (map fst a1) (map snd a1) = a1) as -> by (clear; induction a1 as [|[] a1 IH]; cbn; [done|by rewrite IH]). split; [done|].
  assert (forall l : list PositionReport, map pr_Target (filter (fun p => Reached p = false) l) = [] <-> forallb Reached l = true) as HM.
  { intros l. induction l as [|x l IH]; [done|]. rewrite filter_cons. cbn [forallb]. by destruct (Reached x); cbn. }
  unfold ReachedAll, Missing. cbn [rt_Positions]. rewrite HM, length_map. split.
  - destruct H2; cbn; [split; [done|by intros [? _]]|]. split; [by split|by intros []].
  - induction H2 as [|tg x targets res H H2 IH]; [split; [constructor|done]|].
    cbn. rewrite andb_true_iff, Forall_cons, IH. unfold Reached. by rewrite (pw_accepted _ _ _ _ _ H), Z.ltb_lt, accepted_pos.
Qed.
End Served.

(** ** Witnesses *)

Definition toy_blind (p : Z) : outcome dht_err bytes := Ok [p mod 256; 1].
Definition toy_clock : Z := 100 * PeriodLength + 3600 * NanoSecond.
Lemma toy_plan_ok : is_ok (PublishPlan (Some toy_blind) (zeros 32) toy_clock) = true.
Proof. vm_compute. reflexivity. Qed.
Lemma skewed_client_served_witness : exists period kBlind keys,
  period ∈ FetchPeriods (toy_clock - 2 * 3600 * NanoSecond) /\ toy_blind period = Ok kBlind /\
  FetchPositions kBlind period (zeros 32) None = Ok keys /\
  forall k, k ∈ keys -> exists tg,
    tg ∈ match PublishPlan (Some toy_blind) (zeros 32) toy_clock with Ok l => l | _ => [] end /\ tg_Key tg = k /\ tg_Period tg = period.
Proof.
  destruct (PublishPlan (Some toy_blind) (zeros 32) toy_clock) as [targets| |] eqn:E;
    [|pose proof toy_plan_ok as HO; rewrite E in HO; discriminate HO..].
  refine (skewed_client_served toy_blind (zeros 32) toy_clock (toy_clock - 2 * 3600 * NanoSecond) targets None _ _ _ E _);
    [vm_compute; split; [discriminate|reflexivity]..|vm_compute; discriminate|discriminate].
Defined.

Definition toy_holder (n : Z) : Contact := mkContact (toy_key n) (toy_key (n * 2 ^ 200)) AddrInvalid (mkPrefix 4 [n; 0; 0]) n true.
Definition toy_publisher : Publisher :=
  mkPublisher (Some (table_run (NewTable (toy_key 0)) [TAdmit (toy_holder 1); TAdmit (toy_holder 2)]))
    (Some (fun n _ _ _ => if Nat.even n then None else Some ErrNoRecord)) 0.
Lemma toy_round_ok : is_ok (PublishOnce toy_publisher (Some toy_blind) (zeros 32) [1] toy_clock) = true.
Proof. vm_compute. reflexivity. Qed.
Lemma round_writes_everywhere_witness : exists rep ws targets slices,
  PublishOnce toy_publisher (Some toy_blind) (zeros 32) [1] toy_clock = Ok (rep, ws) /\
  PublishPlan (Some toy_blind) (zeros 32) toy_clock = Ok targets /\ ws = concat slices /\
  (ReachedAll rep = true <-> targets <> [] /\ Missing rep = []).
Proof.
  destruct (PublishOnce toy_publisher (Some toy_blind) (zeros 32) [1] toy_clock) as [[rep ws]| |] eqn:E;
    [|pose proof toy_round_ok as HO; rewrite E in HO; discriminate HO..].
  destruct (round_writes_everywhere _ _ _ _ _ _ _ E) as (t & r & targets & slices & _ & _ & H1 & H2 & _ & H3 & _).
  exists rep, ws, targets, slices. split; [reflexivity|]. split; [exact H1|]. split; [exact H2|exact H3].
Defined.
