(* ===== verification/Rlp.v ===== *)
(** * RLP ([internal/ethproof/rlp.go], [rlpencode.go])

    The hand-written decoder that Ethereum state proofs are checked with, and
    the canonical encoder.  Go [int]s are 64-bit and wrap; a slice expression
    out of bounds panics. *)
From S2P Require Import Prelude.
From S2P Require Import GoBytes.

#[local] Set Warnings "-register-all".

(** ** Items *)
Inductive rlpItem : Type :=
| RlpBytes (b : bytes)
| RlpList (l : list rlpItem).

Inductive rlp_err : Type := ErrMalformedRLP | RlpOutOfFuel.

(** [b[lo:hi]] where the code has already compared [hi] with [len(b)]. *)
Definition slice (b : bytes) (lo hi : Z) : outcome rlp_err bytes :=
  if (0 <=? lo) && (lo <=? hi) && (hi <=? Z.of_nat (length b))
  then Ok (take (Z.to_nat (hi - lo)) (drop (Z.to_nat lo) b)) else Panic.

(** [b[i]] *)
Definition index (b : bytes) (i : nat) : outcome rlp_err Z :=
  match b !! i with Some x => Ok x | None => Panic end.

Definition blen (b : bytes) : Z := Z.of_nat (length b).

(** ** Decoding *)

(** [size = size<<8 | int(c)] *)
Definition length_step (size c : Z) : Z := Z.lor (wrap_i64 (Z.shiftl size 8)) c.

Definition readLength (b : bytes) (lenOfLen : Z) : outcome rlp_err Z :=
  fail? (lenOfLen <? 1) || (8 <? lenOfLen) || (blen b <? 1 + lenOfLen) with ErrMalformedRLP ;;
  let? b1 := index b 1 in
  fail? b1 =? 0 with ErrMalformedRLP ;;
  let? l := slice b 1 (1 + lenOfLen) in
  let size := foldl length_step 0 l in
  fail? size <? 0 with ErrMalformedRLP ;;
  Ok size.

(** The loop of [decodeList] from [pos] to [fin], with [dec] for the recursive call. *)
Fixpoint decode_items (dec : bytes -> outcome rlp_err (rlpItem * Z)) (fuel : nat) (b : bytes) (pos fin : Z)
    : outcome rlp_err (list rlpItem) :=
  if pos <? fin then
    match fuel with
    | O => Err RlpOutOfFuel
    | S fuel =>
        let? s := slice b pos fin in
        let? (item, used) := dec s in
        let? items := decode_items dec fuel b (wrap_i64 (pos + used)) fin in
        Ok (item :: items)
    end
  else Ok [].

Definition decodeList (dec : bytes -> outcome rlp_err (rlpItem * Z)) (b : bytes) (start size : Z)
    : outcome rlp_err (rlpItem * Z) :=
  let fin := wrap_i64 (start + size) in
  fail? (size <? 0) || (blen b <? fin) with ErrMalformedRLP ;;
  let? items := decode_items dec (length b) b start fin in
  Ok (RlpList items, fin).

(** One item by its prefix byte. *)
Definition decode_prefix (dec : bytes -> outcome rlp_err (rlpItem * Z)) (prefix : Z) (b : bytes)
    : outcome rlp_err (rlpItem * Z) :=
  if prefix <? 0x80 then Ok (RlpBytes (take 1 b), 1)
  else if prefix <=? 0xB7 then
    let size := prefix - 0x80 in
    fail? blen b <? 1 + size with ErrMalformedRLP ;;
    let? b1 := (if size =? 1 then index b 1 else Ok 0x80) in
    fail? (size =? 1) && (b1 <? 0x80) with ErrMalformedRLP ;;
    let? s := slice b 1 (1 + size) in
    Ok (RlpBytes s, 1 + size)
  else if prefix <=? 0xBF then
    let lenOfLen := prefix - 0xB7 in
    let? size := readLength b lenOfLen in
    let start := 1 + lenOfLen in
    let fin := wrap_i64 (start + size) in
    fail? blen b <? fin with ErrMalformedRLP ;;
    let? s := slice b start fin in
    Ok (RlpBytes s, fin)
  else if prefix <=? 0xF7 then decodeList dec b 1 (prefix - 0xC0)
  else
    let lenOfLen := prefix - 0xF7 in
    let? size := readLength b lenOfLen in
    decodeList dec b (1 + lenOfLen) size.

Fixpoint decodeRLP (fuel : nat) (b : bytes) : outcome rlp_err (rlpItem * Z) :=
  match fuel with
  | O => Err RlpOutOfFuel
  | S fuel =>
      match b with
      | [] => Err ErrMalformedRLP
      | prefix :: _ => decode_prefix (decodeRLP fuel) prefix b
      end
  end.

(** Nesting is at most as deep as the input is long. *)
Definition DecodeRLP (b : bytes) : outcome rlp_err rlpItem :=
  let? (item, used) := decodeRLP (S (length b)) b in
  fail? negb (used =? blen b) with ErrMalformedRLP ;;
  Ok item.

(** ** Encoding *)

(** [for x := n; x > 0; x >>= 8 { i--; be[i] = byte(x) }], then [be[i:]]. *)
Fixpoint be_minimal (fuel : nat) (x : Z) (acc : bytes) : bytes :=
  match fuel with
  | O => acc
  | S fuel => if 0 <? x then be_minimal fuel (Z.shiftr x 8) (wrap_u 8 x :: acc) else acc
  end.

Definition rlpLengthPrefix (base n : Z) : bytes :=
  if n <=? 55 then [wrap_u 8 (base + wrap_u 8 n)]
  else
    let be := be_minimal 8 n [] in
    wrap_u 8 (base + 55 + blen be) :: be.

Definition EncodeRLPBytes (b : bytes) : bytes :=
  match b with
  | [x] => if x <? 0x80 then [x] else rlpLengthPrefix 0x80 1 ++ b
  | _ => rlpLengthPrefix 0x80 (blen b) ++ b
  end.

Definition EncodeRLPList (items : list bytes) : bytes :=
  rlpLengthPrefix 0xC0 (zsum (map blen items)) ++ concat items.

Definition EncodeRLPUint (v : Z) : bytes :=
  if v =? 0 then [0x80] else EncodeRLPBytes (be_minimal 8 v []).

Definition EncodeRLPBig (v : option Z) : bytes :=
  match v with
  | None => [0x80]
  | Some v => if v <=? 0 then [0x80] else EncodeRLPBytes (big_bytes v)
  end.

(** An item encoded the way callers build it: strings and lists of encoded items. *)
Fixpoint encode_item (it : rlpItem) : bytes :=
  match it with
  | RlpBytes b => EncodeRLPBytes b
  | RlpList l => EncodeRLPList (map encode_item l)
  end.

(** ** Arithmetic of the length prefix *)

Lemma s_range_shiftr (z : Z) : s_range 64 z <-> Z.shiftr z 63 = 0 \/ Z.shiftr z 63 = -1.
Proof.
  unfold s_range. change (64 - 1) with 63. rewrite Z.shiftr_div_pow2 by lia.
  pose proof (Z.div_mod z (2 ^ 63) ltac:(lia)). pose proof (Z.mod_pos_bound z (2 ^ 63) ltac:(lia)).
  split.
  - intros. destruct (decide (0 <= z)); [left|right]; nia.
  - intros [E|E]; rewrite E in *; lia.
Qed.

Lemma length_step_range (size c : Z) : 0 <= c < 256 -> s_range 64 (length_step size c).
Proof.
  intros Hc. apply s_range_shiftr. unfold length_step. rewrite Z.shiftr_lor.
  assert (Z.shiftr c 63 = 0) as -> by (rewrite Z.shiftr_div_pow2 by lia; apply Z.div_small; lia).
  rewrite Z.lor_0_r. apply s_range_shiftr. unfold s_range, wrap_s. change (64 - 1) with 63.
  pose proof (Z.mod_pos_bound (Z.shiftl size 8 + 2 ^ 63) (2 ^ 64) ltac:(lia)). lia.
Qed.

(** Without overflow the step is the shift-and-add of a big-endian number. *)
Lemma length_step_small (size c : Z) :
  0 <= size < 2 ^ 55 -> 0 <= c < 256 -> length_step size c = size * 256 + c.
Proof.
  intros Hs Hc. unfold length_step. rewrite Z.shiftl_mul_pow2 by lia. change (2 ^ 8) with 256.
  unfold wrap_s. rewrite Z.mod_small by lia.
  replace (size * 256 + 2 ^ (64 - 1) - 2 ^ (64 - 1)) with (size * 256) by lia.
  assert (Z.land (Z.shiftl size 8) c = 0) as HL.
  { apply Z.bits_inj'. intros n Hn. rewrite Z.land_spec, Z.bits_0. destruct (Z.ltb_spec n 8).
    - by rewrite Z.shiftl_spec_low.
    - destruct (decide (c = 0)) as [->|]; [by rewrite Z.bits_0, andb_false_r|].
      rewrite (Z.bits_above_log2 c n); [apply andb_false_r|lia|]. apply Z.log2_lt_pow2; [lia|].
      eapply Z.lt_le_trans; [apply Hc|]. change 256 with (2 ^ 8). apply Z.pow_le_mono_r; lia. }
  rewrite Z.shiftl_mul_pow2 in HL by lia. change (2 ^ 8) with 256 in HL.
  rewrite <- (Z.lxor_lor _ _ HL). by rewrite <- Z.add_nocarry_lxor.
Qed.

Lemma length_fold_range (l : bytes) (size : Z) :
  bytes_ok l -> s_range 64 size -> s_range 64 (foldl length_step size l).
Proof.
  intros Hl. revert size. induction Hl as [|c l Hc Hl IH]; intros size Hs; cbn; [done|].
  apply IH, length_step_range, Hc.
Qed.

Lemma length_fold_small (l : bytes) (size : Z) :
  bytes_ok l -> 0 <= size -> size * 256 ^ blen l + be_decode l < 2 ^ 62 ->
  foldl length_step size l = size * 256 ^ blen l + be_decode l.
Proof.
  intros Hl. revert size. induction Hl as [|c l Hc Hl IH]; intros size Hs Hb.
  { change (size = size * 1 + 0). lia. }
  unfold blen in *. cbn [length foldl] in *. rewrite Nat2Z.inj_succ, Z.pow_succ_r in * by lia.
  rewrite be_decode_cons in *. pose proof (be_decode_range l Hl) as Hr. unfold byte_ok in Hc.
  set (q := 256 ^ Z.of_nat (length l)) in *. assert (0 < q) by (apply Z.pow_pos_nonneg; lia).
  assert (0 <= size < 2 ^ 55) by nia.
  rewrite length_step_small by done. rewrite IH; [|nia|nia]. nia.
Qed.

Lemma readLength_range (b : bytes) (k size : Z) :
  bytes_ok b -> readLength b k = Ok size -> 0 <= size < 2 ^ 63 /\ 1 <= k <= 8 /\ 1 + k <= blen b.
Proof.
  intros Hb. unfold readLength. intros H. repeat outcome_step. subst. zbool.
  assert (bytes_ok a0) as Ha.
  { match goal with H : slice b _ _ = Ok _ |- _ => unfold slice in H; destruct (_ && _) in H; [|discriminate H];
      injection H as <- end. apply Forall_take, Forall_drop, Hb. }
  pose proof (length_fold_range a0 0 Ha ltac:(done)) as [_ HR]. change (2 ^ (64 - 1)) with (2 ^ 63) in HR. lia.
Qed.

(** ** Bounds and termination *)

(** What a decoded item consumed: some of the input, unless the end of it overflowed. *)
Definition consumed_ok (b : bytes) (u : Z) : Prop := 1 <= u <= blen b \/ - 2 ^ 63 <= u < - 2 ^ 62.

Definition dec_spec (dec : bytes -> outcome rlp_err (rlpItem * Z)) (b : bytes) : Prop :=
  dec b <> Err RlpOutOfFuel /\ forall it u, dec b = Ok (it, u) -> consumed_ok b u.

Lemma slice_ok (b : bytes) (lo hi : Z) (s : bytes) :
  slice b lo hi = Ok s -> 0 <= lo <= hi /\ hi <= blen b /\ blen s = hi - lo /\
    s = take (Z.to_nat (hi - lo)) (drop (Z.to_nat lo) b).
Proof.
  unfold slice, blen. destruct (_ && _) eqn:E; [|done]. intros [= <-]. zbool.
  repeat split; [lia..|]. rewrite length_take, length_drop. lia.
Qed.

Lemma slice_not_err (b : bytes) (lo hi : Z) (e : rlp_err) : slice b lo hi <> Err e.
Proof. unfold slice. by destruct (_ && _). Qed.

Lemma slice_bytes_ok (b : bytes) (lo hi : Z) (s : bytes) : bytes_ok b -> slice b lo hi = Ok s -> bytes_ok s.
Proof. intros Hb (_ & _ & _ & ->)%slice_ok. by apply Forall_take, Forall_drop. Qed.

Lemma wrap_i64_small (z : Z) : - 2 ^ 63 <= z < 2 ^ 63 -> wrap_i64 z = z.
Proof. intros. unfold wrap_s. rewrite Z.mod_small by lia. lia. Qed.

Lemma wrap_i64_over (z : Z) : 2 ^ 63 <= z < 2 ^ 64 -> wrap_i64 z = z - 2 ^ 64.
Proof.
  intros. unfold wrap_s. replace (z + 2 ^ (64 - 1)) with (z - 2 ^ 63 + 1 * 2 ^ 64) by lia.
  rewrite Z.mod_add by lia. rewrite Z.mod_small by lia. lia.
Qed.

(** The end of an item of the announced size. *)
Lemma end_cases (start size : Z) : 1 <= start <= 9 -> 0 <= size < 2 ^ 63 ->
  wrap_i64 (start + size) = start + size \/ - 2 ^ 63 <= wrap_i64 (start + size) < - 2 ^ 62.
Proof.
  intros. destruct (decide (start + size < 2 ^ 63)); [left; apply wrap_i64_small; lia|right].
  rewrite wrap_i64_over; lia.
Qed.

Lemma decode_items_spec (dec : bytes -> outcome rlp_err (rlpItem * Z)) (b : bytes) (fin : Z) (n : nat) (pos : Z) :
  bytes_ok b -> blen b < 2 ^ 62 -> fin <= blen b -> - 2 ^ 63 <= pos <= blen b ->
  (forall s, bytes_ok s -> (length s < length b)%nat -> dec_spec dec s) ->
  1 <= pos -> fin - pos + 1 <= Z.of_nat n -> decode_items dec n b pos fin <> Err RlpOutOfFuel.
Proof.
  intros Hb Hlen Hfin _ Hdec. revert pos. induction n as [|n IH]; intros pos Hpos Hn; cbn [decode_items];
    destruct (Z.ltb_spec pos fin); try done; [lia|].
  destruct (slice b pos fin) as [s|e|] eqn:ES; [|by destruct (slice_not_err _ _ _ _ ES)|done]. cbn [obind].
  pose proof (slice_ok _ _ _ _ ES) as (? & _ & Hs & _). pose proof (slice_bytes_ok _ _ _ _ Hb ES) as Hsb.
  assert (length s < length b)%nat as Hlt by (unfold blen in *; lia).
  destruct (Hdec s Hsb Hlt) as [Hne Hu]. destruct (dec s) as [[it u]|e|] eqn:ED; [|cbn; congruence|done]. cbn [obind].
  destruct (Hu it u eq_refl) as [Hu1|Hu2].
  - rewrite wrap_i64_small by (unfold blen in *; lia).
    assert (decode_items dec n b (pos + u) fin <> Err RlpOutOfFuel) as IH' by (apply IH; lia).
    destruct (decode_items dec n b (pos + u) fin) eqn:EI; cbn; congruence.
  - rewrite wrap_i64_small by lia.
    assert (decode_items dec n b (pos + u) fin = Panic) as ->; [|done].
    destruct n as [|n]; [lia|]. cbn [decode_items]. rewrite (proj2 (Z.ltb_lt _ _)) by lia.
    unfold slice. rewrite (proj2 (Z.leb_gt 0 (pos + u))) by lia. done.
Qed.

Lemma decode_list_spec (dec : bytes -> outcome rlp_err (rlpItem * Z)) (b : bytes) (start size : Z) :
  bytes_ok b -> blen b < 2 ^ 62 -> (forall s, bytes_ok s -> (length s < length b)%nat -> dec_spec dec s) ->
  1 <= start <= 9 -> start <= blen b -> size < 2 ^ 63 ->
  decodeList dec b start size <> Err RlpOutOfFuel /\
  forall it u, decodeList dec b start size = Ok (it, u) -> consumed_ok b u.
Proof.
  intros Hb Hlen Hdec Hst Hle Hsz. unfold decodeList. destruct (Z.ltb_spec size 0); [done|].
  destruct (Z.ltb_spec (blen b) (wrap_i64 (start + size))); [done|]. cbn [orb guard_err].
  assert (decode_items dec (length b) b start (wrap_i64 (start + size)) <> Err RlpOutOfFuel) as HI.
  { apply decode_items_spec; try done; unfold blen in *; lia. }
  split; [destruct (decode_items _ _ _ _ _) eqn:EI; cbn; congruence|].
  intros it u Hu. destruct (decode_items _ _ _ _ _); cbn in Hu; try discriminate. injection Hu as _ <-.
  destruct (end_cases start size) as [E|E]; [lia|lia| |by right]. left. rewrite E in *. lia.
Qed.

Lemma index_not_err (b : bytes) (i : nat) (e : rlp_err) : index b i <> Err e.
Proof. unfold index. by destruct (b !! i). Qed.

Lemma readLength_fuel (b : bytes) (k : Z) : readLength b k <> Err RlpOutOfFuel.
Proof.
  unfold readLength. destruct (_ || _); [done|]. cbn [guard_err].
  destruct (index b 1) as [x|e|] eqn:E; [|by destruct (index_not_err _ _ _ E)|done]. cbn [obind].
  destruct (x =? 0); [done|]. cbn [guard_err].
  destruct (slice b 1 (1 + k)) as [l|e|] eqn:ES; [|by destruct (slice_not_err _ _ _ _ ES)|done]. cbn [obind].
  by destruct (_ <? 0).
Qed.

Lemma decodeRLP_spec (f : nat) (b : bytes) :
  bytes_ok b -> blen b < 2 ^ 62 -> (length b < f)%nat -> dec_spec (decodeRLP f) b.
Proof.
  revert b. induction f as [|f IH]; intros b Hb Hlen Hf; [lia|].
  assert (forall s, bytes_ok s -> (length s < length b)%nat -> dec_spec (decodeRLP f) s) as Hdec.
  { intros s Hs Hl. apply IH; [done|unfold blen in *; lia|lia]. }
  destruct b as [|p r]; [by split|]. set (b := p :: r) in *. assert (1 <= blen b) by (unfold blen; cbn; lia).
  assert (byte_ok p) as Hp by (by inversion Hb). unfold byte_ok in Hp. unfold dec_spec.
  change (decodeRLP (S f) b) with (decode_prefix (decodeRLP f) p b). unfold decode_prefix.
  destruct (Z.ltb_spec p 0x80); [split; [done|]; intros it u [= _ <-]; left; lia|].
  destruct (Z.leb_spec p 0xB7).
  { destruct (Z.ltb_spec (blen b) (1 + (p - 0x80))); [done|]. cbn [guard_err].
    destruct (if p - 0x80 =? 1 then index b 1 else Ok 0x80) as [x|e|] eqn:E; [|destruct (p - 0x80 =? 1); [by destruct (index_not_err _ _ _ E)|done]|done].
    cbn [obind]. destruct (_ && _); [done|]. cbn [guard_err].
    destruct (slice b 1 (1 + (p - 0x80))) as [s|e|] eqn:ES; [|by destruct (slice_not_err _ _ _ _ ES)|done]. cbn [obind].
    split; [done|]. intros it u [= _ <-]. left. lia. }
  destruct (Z.leb_spec p 0xBF).
  { destruct (readLength b (p - 0xB7)) as [size|e|] eqn:ER; cbn [obind]; [|split; [intros [= ->]; by apply (readLength_fuel b (p - 0xB7))|done]|done].
    destruct (readLength_range _ _ _ Hb ER) as (Hs & Hk & Hl).
    destruct (Z.ltb_spec (blen b) (wrap_i64 (1 + (p - 0xB7) + size))); [done|]. cbn [guard_err].
    destruct (slice b _ _) as [s|e|] eqn:ES; [|by destruct (slice_not_err _ _ _ _ ES)|done]. cbn [obind].
    split; [done|]. intros it u [= _ <-].
    destruct (end_cases (1 + (p - 0xB7)) size) as [E|E]; [lia|lia| |by right]. left. rewrite E in *. lia. }
  destruct (Z.leb_spec p 0xF7); [apply decode_list_spec; try done; lia|].
  destruct (readLength b (p - 0xF7)) as [size|e|] eqn:ER; cbn [obind];
    [|split; [intros [= ->]; by apply (readLength_fuel b (p - 0xF7))|done]|done].
  destruct (readLength_range _ _ _ Hb ER) as (Hs & Hk & Hl). apply decode_list_spec; try done; lia.
Qed.

(** ** Encoding decodes back *)

Lemma be_minimal_0 (n : nat) (acc : bytes) : be_minimal n 0 acc = acc.
Proof. by destruct n. Qed.

Lemma be_minimal_spec (n : nat) (x : Z) (acc : bytes) :
  0 <= x < 256 ^ Z.of_nat n ->
  exists l, be_minimal n x acc = l ++ acc /\ be_decode l = x /\ bytes_ok l /\ (length l <= n)%nat /\
    (0 < x -> exists c r, l = c :: r /\ 0 < c).
Proof.
  revert x acc. induction n as [|n IH]; intros x acc Hx; cbn [be_minimal].
  { exists []. change (256 ^ Z.of_nat 0) with 1 in Hx. split; [done|]. split; [cbn; lia|]. split; [constructor|].
    split; [cbn; lia|]. lia. }
  destruct (Z.ltb_spec 0 x) as [Hp|]; [|exists []; split; [done|]; split; [cbn; lia|]; split; [constructor|]; split; [cbn; lia|lia]].
  rewrite Z.shiftr_div_pow2 by lia. change (2 ^ 8) with 256. rewrite Nat2Z.inj_succ, Z.pow_succ_r in Hx by lia.
  pose proof (Z.div_mod x 256 ltac:(lia)) as HD. pose proof (Z.mod_pos_bound x 256 ltac:(lia)) as HM.
  destruct (IH (x / 256) (wrap_u 8 x :: acc)) as (l & E1 & E2 & E3 & E4 & E5).
  { split; [apply Z.div_pos; lia|]. apply Z.div_lt_upper_bound; lia. }
  change (wrap_u 8 x) with (x mod 256) in *. exists (l ++ [x mod 256]). rewrite E1, <- app_assoc. split; [done|].
  rewrite be_decode_app, E2. split; [cbn; lia|]. split; [apply Forall_app; split; [done|]; repeat constructor; unfold byte_ok; lia|].
  rewrite length_app. split; [cbn; lia|]. intros _.
  destruct (decide (0 < x / 256)) as [Hq|Hq].
  - destruct (E5 Hq) as (c & r & -> & Hc). by exists c, (r ++ [x mod 256]).
  - assert (x / 256 = 0) as E0 by (pose proof (Z.div_pos x 256); lia).
    destruct l as [|c r]; [exists (x mod 256), []; split; [done|lia]|].
    exfalso. rewrite E0, be_minimal_0 in E1. apply (f_equal length) in E1. cbn in E1. rewrite length_app in E1. cbn in E1. lia.
Qed.

Lemma prefix_short (base n : Z) : 0 <= n <= 55 -> 0 <= base <= 0xC0 -> rlpLengthPrefix base n = [base + n].
Proof.
  intros. unfold rlpLengthPrefix. rewrite (proj2 (Z.leb_le _ _)) by lia. unfold wrap_u. change (2 ^ 8) with 256.
  rewrite (Z.mod_small n) by lia. by rewrite Z.mod_small by lia.
Qed.

Lemma prefix_long (base n : Z) : 55 < n < 2 ^ 55 -> 0 <= base <= 0xC0 ->
  exists l, rlpLengthPrefix base n = (base + 55 + blen l) :: l /\ be_decode l = n /\ bytes_ok l /\ 1 <= blen l <= 8 /\
    exists c r, l = c :: r /\ 0 < c.
Proof.
  intros Hn Hb. unfold rlpLengthPrefix. rewrite (proj2 (Z.leb_gt _ _)) by lia.
  destruct (be_minimal_spec 8 n []) as (l & E1 & E2 & E3 & E4 & E5); [lia|].
  rewrite app_nil_r in E1. rewrite E1. destruct (E5 ltac:(lia)) as (c & r & El & Hc).
  assert (1 <= blen l <= 8) by (unfold blen; rewrite El in *; cbn [length] in *; lia).
  exists l. unfold wrap_u. rewrite Z.mod_small by lia. eauto 10.
Qed.

Lemma slice_app (h s rest : bytes) (lo hi : Z) :
  lo = blen h -> hi = blen h + blen s -> slice (h ++ s ++ rest) lo hi = Ok s.
Proof.
  intros -> ->. unfold slice, blen. rewrite !length_app.
  rewrite (proj2 (Z.leb_le _ _)), (proj2 (Z.leb_le _ _)), (proj2 (Z.leb_le _ _)) by lia. cbn [andb].
  rewrite Nat2Z.id, drop_app_length. replace (Z.to_nat _) with (length s) by lia. by rewrite take_app_length.
Qed.

Lemma readLength_prefix (p : Z) (l rest : bytes) (n : Z) :
  be_decode l = n -> 0 <= n < 2 ^ 55 -> bytes_ok l -> 1 <= blen l <= 8 -> (exists c r, l = c :: r /\ 0 < c) ->
  readLength (p :: l ++ rest) (blen l) = Ok n.
Proof.
  intros Hd Hn Hb Hl (c & r & El & Hc). unfold readLength.
  rewrite (proj2 (Z.ltb_ge _ _)), (proj2 (Z.ltb_ge _ _)), (proj2 (Z.ltb_ge _ _))
    by (unfold blen in *; cbn [length]; rewrite ?length_app; lia). cbn [orb guard_err].
  assert (index (p :: l ++ rest) 1 = Ok c) as -> by (rewrite El; done). cbn [obind].
  rewrite (proj2 (Z.eqb_neq _ _)) by lia. cbn [guard_err].
  change (p :: l ++ rest) with ([p] ++ l ++ rest). rewrite slice_app by (unfold blen; cbn; lia). cbn [obind].
  rewrite length_fold_small by (done || lia). change (0 * 256 ^ blen l + be_decode l) with (be_decode l).
  rewrite Hd, (proj2 (Z.ltb_ge _ _)) by lia. done.
Qed.

Lemma decode_bytes (f : nat) (b rest : bytes) :
  bytes_ok b -> blen b < 2 ^ 55 ->
  decodeRLP (S f) (EncodeRLPBytes b ++ rest) = Ok (RlpBytes b, blen (EncodeRLPBytes b)).
Proof.
  intros Hb Hl. cbn [decodeRLP].
  assert (forall h s, EncodeRLPBytes b = h ++ s -> s = b -> (blen b = 1 -> 0x80 <= nth 0 b 0) ->
    h = rlpLengthPrefix 0x80 (blen b) ->
    match EncodeRLPBytes b ++ rest with [] => Err ErrMalformedRLP | p :: _ => decode_prefix (decodeRLP f) p (EncodeRLPBytes b ++ rest) end
    = Ok (RlpBytes b, blen (EncodeRLPBytes b))) as HG.
  { intros h s -> -> Hsingle ->. rewrite <- app_assoc. destruct (decide (blen b <= 55)) as [Hs|Hs].
    - rewrite prefix_short by (unfold blen in *; lia). cbn [app]. unfold decode_prefix.
      rewrite (proj2 (Z.ltb_ge _ _)) by (unfold blen; lia). rewrite (proj2 (Z.leb_le _ _)) by lia.
      replace (128 + blen b - 128) with (blen b) by lia.
      rewrite (proj2 (Z.ltb_ge _ _)) by (unfold blen; cbn [length]; rewrite length_app; lia). cbn [guard_err].
      assert (exists x, (if blen b =? 1 then index (128 + blen b :: b ++ rest) 1 else Ok 128) = Ok x /\
        (blen b =? 1) && (x <? 128) = false) as (x & -> & Hx).
      { destruct (Z.eqb_spec (blen b) 1) as [E|]; [|by eexists]. specialize (Hsingle E).
        destruct b as [|x b']; [done|]. exists x. split; [done|]. cbn in *. by apply Z.ltb_ge. }
      cbn [obind]. rewrite Hx. cbn [guard_err]. change (128 + blen b :: b ++ rest) with ([128 + blen b] ++ b ++ rest).
      rewrite slice_app by (unfold blen; cbn; lia). cbn [obind]. f_equal. f_equal. unfold blen. cbn [length app]. lia.
    - destruct (prefix_long 0x80 (blen b)) as (l & -> & Hd & Hlb & Hll & Hc); [lia|lia|]. cbn [app]. unfold decode_prefix.
      rewrite (proj2 (Z.ltb_ge _ _)) by lia. rewrite (proj2 (Z.leb_gt _ _)) by lia. rewrite (proj2 (Z.leb_le _ _)) by lia.
      replace (128 + 55 + blen l - 183) with (blen l) by lia. rewrite (readLength_prefix _ _ _ (blen b)) by (done || lia).
      cbn [obind]. rewrite wrap_i64_small by lia.
      rewrite (proj2 (Z.ltb_ge _ _)) by (unfold blen; cbn [length]; rewrite !length_app; lia). cbn [guard_err].
      change (128 + 55 + blen l :: l ++ b ++ rest) with (([128 + 55 + blen l] ++ l) ++ b ++ rest).
      rewrite slice_app by (unfold blen; cbn [length app]; lia). cbn [obind]. f_equal. f_equal.
      unfold blen. cbn [length app]. rewrite length_app. lia. }
  destruct b as [|x [|y b]].
  - by apply (HG [128] []).
  - cbn [EncodeRLPBytes] in *. destruct (Z.ltb_spec x 0x80).
    + unfold decode_prefix. cbn [app]. by rewrite (proj2 (Z.ltb_lt _ _)).
    + apply (HG (rlpLengthPrefix 0x80 1) [x]); done.
  - apply (HG (rlpLengthPrefix 0x80 (blen (x :: y :: b))) (x :: y :: b)); try done. unfold blen. cbn. lia.
Qed.

(** Every byte string inside an item is one. *)
Fixpoint item_ok (it : rlpItem) : Prop :=
  match it with
  | RlpBytes b => bytes_ok b
  | RlpList l => (fix all (l : list rlpItem) : Prop := match l with [] => True | x :: l => item_ok x /\ all l end) l
  end.

Lemma item_ok_list (l : list rlpItem) : item_ok (RlpList l) <-> Forall item_ok l.
Proof.
  induction l as [|x l IH]; [by split|]. change (item_ok (RlpList (x :: l))) with (item_ok x /\ item_ok (RlpList l)).
  rewrite IH, Forall_cons. done.
Qed.

Lemma zsum_blen (l : list bytes) : zsum (map blen l) = blen (concat l).
Proof.
  induction l as [|x l IH]; [done|]. cbn [map concat]. unfold blen in *. rewrite length_app.
  change (zsum (Z.of_nat (length x) :: map (fun b => Z.of_nat (length b)) l))
    with (Z.of_nat (length x) + zsum (map (fun b => Z.of_nat (length b)) l)). rewrite IH. lia.
Qed.

Lemma encode_item_nonempty (it : rlpItem) : (1 <= length (encode_item it))%nat.
Proof.
  assert (forall base n, 1 <= length (rlpLengthPrefix base n))%nat as HP.
  { intros. unfold rlpLengthPrefix. destruct (n <=? 55); cbn; lia. }
  destruct it as [b|l]; cbn [encode_item].
  - unfold EncodeRLPBytes. destruct b as [|x [|y b]]; [|destruct (x <? 128); [done|]|]; rewrite length_app;
      match goal with |- context [rlpLengthPrefix ?b ?n] => pose proof (HP b n) end; lia.
  - unfold EncodeRLPList. rewrite length_app. match goal with |- context [rlpLengthPrefix ?b ?n] => pose proof (HP b n) end. lia.
Qed.

(** The loop over the encodings of [todo], the part of the payload still ahead. *)
Lemma decode_items_encode (dec : bytes -> outcome rlp_err (rlpItem * Z)) (todo : list rlpItem) (pre rest : bytes)
    (fuel : nat) :
  (forall it k, it ∈ todo -> dec (encode_item it ++ k) = Ok (it, blen (encode_item it))) ->
  blen pre + blen (concat (map encode_item todo)) < 2 ^ 62 -> (length todo <= fuel)%nat ->
  decode_items dec fuel (pre ++ concat (map encode_item todo) ++ rest) (blen pre)
    (blen pre + blen (concat (map encode_item todo))) = Ok todo.
Proof.
  revert pre fuel. induction todo as [|it todo IH]; intros pre fuel Hdec Hlen Hf; cbn [map concat].
  { destruct fuel; cbn [decode_items]; rewrite (proj2 (Z.ltb_ge _ _)) by (unfold blen; cbn; lia); done. }
  destruct fuel as [|fuel]; [cbn in Hf; lia|]. cbn [decode_items].
  pose proof (encode_item_nonempty it) as Hne. cbn [map concat] in Hlen.
  set (e := encode_item it) in *. set (es := concat (map encode_item todo)) in *.
  rewrite (proj2 (Z.ltb_lt _ _)) by (unfold blen; rewrite length_app; lia).
  rewrite (slice_app pre (e ++ es) rest) by done. cbn [obind].
  unfold e at 1. rewrite Hdec by (apply elem_of_cons; by left). cbn [obind]. fold e.
  unfold blen in Hlen. rewrite length_app in Hlen.
  rewrite wrap_i64_small by (unfold blen; lia).
  assert (blen pre + blen e = blen (pre ++ e)) as -> by (unfold blen; rewrite length_app; lia).
  assert (blen pre + blen (e ++ es) = blen (pre ++ e) + blen es) as -> by (unfold blen; rewrite !length_app; lia).
  replace (pre ++ (e ++ es) ++ rest) with ((pre ++ e) ++ es ++ rest) by (by rewrite <- !app_assoc).
  rewrite IH; [done| | |cbn in Hf; lia].
  - intros it' k Hin. apply Hdec. apply elem_of_cons. by right.
  - unfold blen. rewrite length_app. lia.
Qed.

Lemma encoded_shorter (l : list rlpItem) (it : rlpItem) :
  it ∈ l -> (length (encode_item it) <= length (concat (map encode_item l)))%nat.
Proof.
  induction l as [|x l IH]; intros Hin; [by apply elem_of_nil in Hin|]. cbn. rewrite length_app.
  apply elem_of_cons in Hin as [->|Hin]; [lia|]. specialize (IH Hin). lia.
Qed.

Lemma encoded_count (l : list rlpItem) : (length l <= length (concat (map encode_item l)))%nat.
Proof.
  induction l as [|x l IH]; [done|]. cbn. rewrite length_app. pose proof (encode_item_nonempty x). lia.
Qed.

Lemma decode_encode (f : nat) (it : rlpItem) (rest : bytes) :
  (length (encode_item it) < f)%nat -> item_ok it -> blen (encode_item it) < 2 ^ 55 ->
  decodeRLP f (encode_item it ++ rest) = Ok (it, blen (encode_item it)).
Proof.
  revert it rest. induction f as [|f IH]; intros it rest Hf Hok Hlen; [lia|]. destruct it as [b|l].
  { apply decode_bytes; [done|]. cbn [encode_item] in Hlen. unfold EncodeRLPBytes in Hlen.
    unfold blen in *. destruct b as [|x [|y b]]; [cbn; lia|cbn; lia|]. rewrite length_app in Hlen. lia. }
  apply item_ok_list in Hok. cbn [encode_item] in *. unfold EncodeRLPList in *. rewrite zsum_blen in *.
  set (es := concat (map encode_item l)) in *. rewrite <- app_assoc.
  assert (blen es < 2 ^ 55) as Hes by (unfold blen in *; rewrite length_app in Hlen; lia).
  assert (forall h, h ++ es = rlpLengthPrefix 0xC0 (blen es) ++ es -> (1 <= length h)%nat ->
    decodeList (decodeRLP f) (h ++ es ++ rest) (blen h) (blen es) = Ok (RlpList l, blen (h ++ es))) as HL.
  { intros h Eh Hh. unfold decodeList. rewrite (proj2 (Z.ltb_ge (blen es) 0)) by (unfold blen; lia).
    rewrite <- Eh in Hf, Hlen. unfold blen in Hlen. rewrite length_app in Hf, Hlen.
    rewrite wrap_i64_small by (unfold blen in *; lia).
    rewrite (proj2 (Z.ltb_ge _ _)) by (unfold blen; rewrite !length_app; lia). cbn [orb guard_err].
    unfold es. rewrite decode_items_encode.
    - cbn [obind]. f_equal. f_equal. unfold blen. rewrite !length_app. lia.
    - intros it k Hin. apply IH; [|by apply (proj1 (Forall_forall _ _) Hok)|].
      + pose proof (encoded_shorter l it Hin) as HS. fold es in HS. lia.
      + pose proof (encoded_shorter l it Hin) as HS. fold es in HS. unfold blen in *. lia.
    - fold es. unfold blen in *. lia.
    - rewrite !length_app. pose proof (encoded_count l) as HS. fold es in HS. fold es. lia. }
  destruct (decide (blen es <= 55)) as [Hs|Hs].
  - pose proof (prefix_short 0xC0 (blen es) ltac:(unfold blen in *; lia) ltac:(lia)) as EP. rewrite EP in *.
    cbn [app decodeRLP]. unfold decode_prefix.
    rewrite (proj2 (Z.ltb_ge _ _)), (proj2 (Z.leb_gt _ _)), (proj2 (Z.leb_gt _ _)), (proj2 (Z.leb_le _ _)) by (unfold blen in *; lia).
    replace (192 + blen es - 192) with (blen es) by lia. exact (HL [192 + blen es] eq_refl ltac:(cbn; lia)).
  - destruct (prefix_long 0xC0 (blen es)) as (k & EP & Hd & Hkb & Hkl & Hc); [lia|lia|]. rewrite EP in *.
    cbn [app decodeRLP]. unfold decode_prefix.
    rewrite (proj2 (Z.ltb_ge _ _)), (proj2 (Z.leb_gt _ _)), (proj2 (Z.leb_gt _ _)), (proj2 (Z.leb_gt _ _)) by lia.
    replace (192 + 55 + blen k - 247) with (blen k) by lia.
    rewrite (readLength_prefix _ _ _ (blen es)) by (done || (unfold blen in *; lia)). cbn [obind].
    replace (1 + blen k) with (blen (192 + 55 + blen k :: k)) by (unfold blen; cbn [length]; lia).
    exact (HL (192 + 55 + blen k :: k) eq_refl ltac:(cbn; lia)).
Qed.

(** What is decoded from bytes is made of bytes. *)
Lemma decode_items_bytes (dec : bytes -> outcome rlp_err (rlpItem * Z)) (b : bytes) (fin : Z) (n : nat) (pos : Z) (l : list rlpItem) :
  bytes_ok b -> (forall s it u, bytes_ok s -> dec s = Ok (it, u) -> item_ok it) ->
  decode_items dec n b pos fin = Ok l -> Forall item_ok l.
Proof.
  intros Hb Hdec. revert pos l. induction n as [|n IH]; intros pos l; cbn [decode_items]; destruct (pos <? fin);
    try (intros [= <-]; by apply Forall_nil_2). intros H. apply obind_ok in H as (s & Hs & H).
  apply obind_ok in H as ([it u] & Hd & H). apply obind_ok in H as (its & Hi & H). apply Ok_inj in H as <-.
  constructor; [|by eapply IH]. eapply Hdec; [|exact Hd]. by eapply slice_bytes_ok.
Qed.

Lemma decodeRLP_bytes (f : nat) (b : bytes) (it : rlpItem) (u : Z) : bytes_ok b -> decodeRLP f b = Ok (it, u) -> item_ok it.
Proof.
  revert b it u. induction f as [|f IH]; intros b it u Hb; [discriminate|]. cbn [decodeRLP]. destruct b as [|p r]; [discriminate|].
  set (b := p :: r) in *.
  assert (forall start size, decodeList (decodeRLP f) b start size = Ok (it, u) -> item_ok it) as HL.
  { intros start size H. unfold decodeList in H. apply guard_err_ok in H as [_ H]. apply obind_ok in H as (l & Hl & H).
    apply Ok_inj, pair_equal_spec in H as [<- _]. apply item_ok_list. by eapply decode_items_bytes. }
  unfold decode_prefix. destruct (p <? 128); [intros H; apply Ok_inj, pair_equal_spec in H as [<- _]; by apply (Forall_take byte_ok 1 b)|].
  destruct (p <=? 183); [|destruct (p <=? 191); [|destruct (p <=? 247); [apply HL|]]].
  - intros H. apply guard_err_ok in H as [_ H]. apply obind_ok in H as (b1 & _ & H). apply guard_err_ok in H as [_ H].
    apply obind_ok in H as (s & Hs & H). apply Ok_inj, pair_equal_spec in H as [<- _]. by eapply slice_bytes_ok in Hs.
  - intros H. apply obind_ok in H as (size & _ & H). apply guard_err_ok in H as [_ H].
    apply obind_ok in H as (s & Hs & H). apply Ok_inj, pair_equal_spec in H as [<- _]. by eapply slice_bytes_ok in Hs.
  - intros H. apply obind_ok in H as (size & _ & H). by eapply HL.
Qed.

Lemma DecodeRLP_bytes (b : bytes) (it : rlpItem) : bytes_ok b -> DecodeRLP b = Ok it -> item_ok it.
Proof.
  intros Hb H. apply obind_ok in H as ([i u] & Hd & H). apply guard_err_ok in H as [_ H]. apply Ok_inj in H as <-. by eapply decodeRLP_bytes.
Qed.

(** ** Sizes *)

Lemma length_be_minimal (n : nat) (x : Z) (acc : bytes) : (length (be_minimal n x acc) <= n + length acc)%nat.
Proof. revert x acc. induction n as [|n IH]; intros x acc; cbn [be_minimal]; [lia|]. destruct (0 <? x); [|lia]. specialize (IH (Z.shiftr x 8) (wrap_u 8 x :: acc)). cbn [length] in IH. lia. Qed.

Lemma blen_prefix (base n : Z) : 1 <= blen (rlpLengthPrefix base n) <= 9.
Proof.
  unfold rlpLengthPrefix, blen. destruct (n <=? 55); cbn [length]; [lia|]. pose proof (length_be_minimal 8 n []). cbn [length] in *. lia.
Qed.

Lemma blen_app (a b : bytes) : blen (a ++ b) = blen a + blen b.
Proof. unfold blen. rewrite length_app. lia. Qed.

Lemma blen_EncodeRLPBytes (b : bytes) : blen (EncodeRLPBytes b) <= blen b + 9.
Proof.
  unfold EncodeRLPBytes. destruct b as [|x [|y b]]; [|destruct (x <? 128); [unfold blen; cbn; lia|]|]; rewrite blen_app;
    match goal with |- context [rlpLengthPrefix ?p ?n] => pose proof (blen_prefix p n) end; lia.
Qed.

Lemma blen_EncodeRLPList (l : list bytes) : blen (EncodeRLPList l) <= zsum (map blen l) + 9.
Proof. unfold EncodeRLPList. rewrite blen_app, <- zsum_blen. pose proof (blen_prefix 192 (zsum (map blen l))). lia. Qed.

(** One encoding per item. *)
Lemma encode_item_inj (a b : rlpItem) :
  item_ok a -> item_ok b -> blen (encode_item a) < 2 ^ 55 -> encode_item a = encode_item b -> a = b.
Proof.
  intros Ha Hb HL E. pose proof (decode_encode (S (length (encode_item a))) a [] ltac:(lia) Ha HL) as Da.
  pose proof (decode_encode (S (length (encode_item a))) b [] ltac:(rewrite E; lia) Hb ltac:(by rewrite <- E)) as Db.
  rewrite <- E, Da in Db. congruence.
Qed.

Lemma DecodeRLP_of_item (it : rlpItem) : item_ok it -> blen (encode_item it) < 2 ^ 55 -> DecodeRLP (encode_item it) = Ok it.
Proof.
  intros Hok Hlen. unfold DecodeRLP. pose proof (decode_encode (S (length (encode_item it))) it [] ltac:(lia) Hok Hlen) as E.
  rewrite app_nil_r in E. rewrite E. cbn [obind]. by rewrite Z.eqb_refl.
Qed.

(** ** Integers as items *)

(** The strings [EncodeRLPUint] and [EncodeRLPBig] encode. *)
Definition uint_bytes (v : Z) : bytes := if v =? 0 then [] else be_minimal 8 v [].
Definition rlp_big_bytes (v : option Z) : bytes := match v with Some v => if v <=? 0 then [] else big_bytes v | None => [] end.

Lemma EncodeRLPUint_item (v : Z) : EncodeRLPUint v = encode_item (RlpBytes (uint_bytes v)).
Proof. unfold EncodeRLPUint, uint_bytes. cbn [encode_item]. by destruct (v =? 0). Qed.
Lemma EncodeRLPBig_item (v : option Z) : EncodeRLPBig v = encode_item (RlpBytes (rlp_big_bytes v)).
Proof. unfold EncodeRLPBig, rlp_big_bytes. cbn [encode_item]. destruct v as [v|]; [|done]. by destruct (v <=? 0). Qed.

Lemma uint_bytes_spec (v : Z) : u_range 64 v -> bytes_ok (uint_bytes v) /\ be_decode (uint_bytes v) = v /\ blen (uint_bytes v) <= 8.
Proof.
  intros Hv. unfold u_range in Hv. unfold uint_bytes. destruct (Z.eqb_spec v 0) as [->|Hne]; [split; [by apply Forall_nil_2|done]|].
  destruct (be_minimal_spec 8 v []) as (l & E & E1 & E2 & E3 & _). { change (256 ^ Z.of_nat 8) with (2 ^ 64). lia. }
  rewrite E, app_nil_r. split; [done|]. split; [done|]. unfold blen. lia.
Qed.
Lemma uint_bytes_inj (x y : Z) : u_range 64 x -> u_range 64 y -> uint_bytes x = uint_bytes y -> x = y.
Proof.
  intros Hx Hy E. destruct (uint_bytes_spec x Hx) as (_ & <- & _). destruct (uint_bytes_spec y Hy) as (_ & <- & _). by rewrite E.
Qed.
Lemma rlp_big_bytes_inj (x y : Z) : 0 <= x -> 0 <= y -> rlp_big_bytes (Some x) = rlp_big_bytes (Some y) -> x = y.
Proof.
  intros Hx Hy E. unfold rlp_big_bytes in E. apply (f_equal be_decode) in E.
  destruct (Z.leb_spec x 0), (Z.leb_spec y 0); rewrite ?be_decode_big_bytes in E; cbn in E; lia.
Qed.

(** ** Theorems *)

(** C40. What the encoder writes the decoder reads back: every tree of byte strings and
    lists, of any depth, decodes to itself with nothing left over. *)
Theorem DecodeRLP_encode (it : rlpItem) (Hok : item_ok it) (Hlen : blen (encode_item it) < 2 ^ 55) :
  DecodeRLP (encode_item it) = Ok it.
Proof.
  by apply DecodeRLP_of_item.
Qed.

(** The decoder terminates on every input: the nesting never exceeds the length,
    each loop step consumes input, and an overflowing end stops it. *)
Theorem DecodeRLP_terminates (b : bytes) (Hb : bytes_ok b) (Hlen : blen b < 2 ^ 62) :
  DecodeRLP b <> Err RlpOutOfFuel.
Proof.
  unfold DecodeRLP. destruct (decodeRLP_spec (S (length b)) b Hb Hlen ltac:(lia)) as [Hne _].
  destruct (decodeRLP (S (length b)) b) as [[it u]|e|] eqn:E; cbn; [by destruct (_ =? _)|congruence|done].
Qed.

(** A length near 2^63 makes the decoder panic instead of refusing the input: the
    end of the item wraps around to a negative slice bound. *)
Theorem DecodeRLP_panics : DecodeRLP [0xBF; 0x7F; 0xFF; 0xFF; 0xFF; 0xFF; 0xFF; 0xFF; 0xFF] = Panic.
Proof. vm_compute. reflexivity. Qed.

(** One value, two encodings: the decoder accepts the long form for a length that
    fits the short one, and it is not what the encoder writes. *)
Theorem DecodeRLP_accepts_two_encodings :
  exists a b it, a <> b /\ DecodeRLP a = Ok it /\ DecodeRLP b = Ok it /\ encode_item it = a.
Proof.
  exists [0x82; 0x80; 0x80], [0xB8; 0x02; 0x80; 0x80], (RlpBytes [0x80; 0x80]).
  split; [discriminate|]. vm_compute. auto.
Qed.

Definition toy_item : rlpItem := RlpList [RlpBytes [1]; RlpList [RlpBytes (zeros 60); RlpList []]; RlpBytes []].
Lemma DecodeRLP_encode_witness : DecodeRLP (encode_item toy_item) = Ok toy_item.
Proof.
  refine (DecodeRLP_encode toy_item _ _); [|vm_compute; reflexivity].
  repeat split; repeat constructor; unfold byte_ok; lia.
Defined.
Lemma DecodeRLP_terminates_witness : DecodeRLP [0xC1; 0x80] <> Err RlpOutOfFuel.
Proof.
  refine (DecodeRLP_terminates [0xC1; 0x80] _ _); [|vm_compute; reflexivity].
  repeat constructor; unfold byte_ok; lia.
Defined.
