(* ===== verification/EthProof.v ===== *)
(** * Merkle-Patricia proofs ([internal/ethproof/proof.go])

    Walking a proof from a root to a value, the slots of a mapping and of a
    struct, and reading accounts and slot values.  keccak256 is the class
    [Keccak].  [VerifyProof]'s own bound of 65 nodes is the fuel of the walk. *)
From S2P Require Import Prelude.
From S2P Require Import GoBytes.
From S2P Require Import Rlp.

(** ** The hash (golang.org/x/crypto/sha3); its parts are written one after the other. *)
Class Keccak : Type := Keccak256 : bytes -> bytes.
Class KeccakLaws (K : Keccak) : Prop := Keccak256_array : forall b, array_ok 32 (Keccak256 b).

Inductive proof_err : Type :=
| ErrProofInvalid | ErrProofIncomplete
| errInlineList   (* wraps [ErrProofInvalid] *)
| ErrRlp (e : rlp_err).

(** An RLP error passed on as it is. *)
Definition rlp_err_of {A : Type} (m : outcome rlp_err A) : outcome proof_err A :=
  match m with Ok a => Ok a | Err e => Err (ErrRlp e) | Panic => Panic end.
(** [fmt.Errorf("%w: %v", ErrProofInvalid, err)] *)
Definition rlp_invalid {A : Type} (m : outcome rlp_err A) : outcome proof_err A :=
  match m with Ok a => Ok a | Err _ => Err ErrProofInvalid | Panic => Panic end.

(** The field [Bytes] of an item: nil for a list. *)
Definition item_Bytes (it : rlpItem) : option bytes :=
  match it with RlpBytes b => Some b | RlpList _ => None end.
Definition item_bytes (it : rlpItem) : bytes := default [] (item_Bytes it).
Definition IsList (it : rlpItem) : bool := match it with RlpBytes _ => false | RlpList _ => true end.

(** ** Paths *)

Fixpoint nibbles (b : bytes) : list Z :=
  match b with
  | [] => []
  | c :: b => Z.shiftr c 4 :: Z.land c 0x0F :: nibbles b
  end.

Definition hexPrefix (b : bytes) : outcome proof_err (list Z * bool) :=
  match nibbles b with
  | [] => Err ErrProofInvalid
  | flag :: path =>
      let isLeaf := negb (Z.land flag 2 =? 0) in
      let odd := negb (Z.land flag 1 =? 0) in
      if odd then Ok (path, isLeaf)
      else match path with
           | pad :: path => if pad =? 0 then Ok (path, isLeaf) else Err ErrProofInvalid
           | [] => Err ErrProofInvalid
           end
  end.

(** ** The walk *)

Definition follow (ref : rlpItem) : outcome proof_err bytes :=
  match ref with
  | RlpList _ => Err errInlineList
  | RlpBytes b => if (length b =? 32)%nat then Ok b else Err ErrProofInvalid
  end.

(** [len(path) >= len(prefix) && bytes.Equal(path[:len(prefix)], prefix)], and the rest. *)
Definition strip (prefix path : list Z) : option (list Z) :=
  if bool_decide (take (length prefix) path = prefix) && (length prefix <=? length path)%nat
  then Some (drop (length prefix) path) else None.

Section Walk.
Context `{K : Keccak}.

(** One node: an answer, or the rest of the path and the reference to follow. *)
Definition walk_node (path : list Z) (item : rlpItem) : outcome proof_err (option bytes + list Z * bytes) :=
  match item with
  | RlpBytes _ => Err ErrProofInvalid
  | RlpList l =>
      if (length l =? 17)%nat then
        match path with
        | [] => match l !! 16%nat with Some it => Ok (inl (item_Bytes it)) | None => Panic end
        | c :: path =>
            match l !! Z.to_nat c with
            | None => Panic
            | Some next =>
                if (length (item_bytes next) =? 0)%nat && negb (IsList next) then Ok (inl None)
                else let? ref := follow next in Ok (inr (path, ref))
            end
        end
      else match l with
      | [it0; it1] =>
          let? (prefix, isLeaf) := hexPrefix (item_bytes it0) in
          match strip prefix path with
          | None => Ok (inl None)
          | Some path =>
              if (isLeaf : bool) then
                if negb (length path =? 0)%nat then Ok (inl None) else Ok (inl (item_Bytes it1))
              else let? ref := follow it1 in Ok (inr (path, ref))
          end
      | _ => Err ErrProofInvalid
      end
  end.

Fixpoint walk (fuel : nat) (byHash : gmap bytes bytes) (path : list Z) (ref : bytes) : outcome proof_err (option bytes) :=
  match fuel with
  | O => Err ErrProofInvalid   (* the proof is cyclic *)
  | S fuel =>
      let? raw := of_option ErrProofIncomplete (byHash !! ref) in
      let? item := rlp_invalid (DecodeRLP raw) in
      let? step := walk_node path item in
      match step with
      | inl v => Ok v
      | inr (path, ref) => walk fuel byHash path ref
      end
  end.

(** [byHash[string(Keccak256(node))] = node] for each node in turn. *)
Definition index_nodes (proof : list bytes) : gmap bytes bytes :=
  foldl (fun m node => <[Keccak256 node := node]> m) ∅ proof.

(** The value ([None] is a nil slice: proven absent). *)
Definition VerifyProof (root key : bytes) (proof : list bytes) : outcome proof_err (option bytes) :=
  fail? negb (length root =? 32)%nat with ErrProofInvalid ;;
  walk 65 (index_nodes proof) (nibbles (Keccak256 key)) root.

(** ** Slots and accounts *)

Definition StorageSlotKey (key : bytes) (position : Z) : bytes :=
  Keccak256 (key ++ zeros 24 ++ be_encode 8 position).

(** The loop of [SlotAt], on the bytes from the last to the first. *)
Fixpoint slot_add (rev : bytes) (carry : Z) : bytes :=
  match rev with
  | [] => []
  | x :: rest =>
      if 0 <? carry then
        let sum := x + Z.land carry 0xFF in
        wrap_u 8 sum :: slot_add rest (wrap_u 64 (Z.shiftr carry 8 + Z.shiftr sum 8))
      else x :: rest
  end.
Definition SlotAt (base : bytes) (n : Z) : bytes := reverse (slot_add (reverse base) n).

Definition AccountStorageRoot (accountRLP : bytes) : outcome proof_err bytes :=
  fail? (length accountRLP =? 0)%nat with ErrProofIncomplete ;;
  let? item := rlp_err_of (DecodeRLP accountRLP) in
  match item with
  | RlpList [_; _; root; _] =>
      fail? negb (length (item_bytes root) =? 32)%nat with ErrProofInvalid ;;
      Ok (item_bytes root)
  | _ => Err ErrProofInvalid
  end.

Definition DecodeSlotValue (raw : bytes) : outcome proof_err bytes :=
  if (length raw =? 0)%nat then Ok (zeros 32)
  else
    let? item := rlp_err_of (DecodeRLP raw) in
    match item with
    | RlpList _ => Err ErrProofInvalid
    | RlpBytes b =>
        fail? (32 <? length b)%nat with ErrProofInvalid ;;
        Ok (zeros (32 - length b) ++ b)
    end.
End Walk.

(** ** Collisions

    No theorem assumes keccak has none; one that needs it exhibits two inputs
    among the bytes it is about. *)
Section Collisions.
Context `{K : Keccak}.

Definition keccak_collide (a b : bytes) : Prop := a <> b /\ Keccak256 a = Keccak256 b.
(** A collision between an element of [xs] and one of [ys]. *)
Definition collision_in (xs ys : list bytes) : Prop := exists a b, a ∈ xs /\ b ∈ ys /\ keccak_collide a b.

Lemma keccak_same (xs ys : list bytes) (a b : bytes) (P : Prop) :
  a ∈ xs -> b ∈ ys -> (a = b -> P) -> Keccak256 a = Keccak256 b -> P \/ collision_in xs ys.
Proof.
  intros Ha Hb HP H. destruct (decide (a = b)) as [E|E]; [left; auto|]. right. exists a, b. by repeat split.
Qed.

Lemma collision_in_mono (xs ys xs' ys' : list bytes) :
  xs ⊆ xs' -> ys ⊆ ys' -> collision_in xs ys -> collision_in xs' ys'.
Proof. intros Hx Hy (a & b & Ha & Hb & H). exists a, b. split; [by apply Hx|]. split; [by apply Hy|done]. Qed.

Lemma collision_in_sym (xs ys : list bytes) : collision_in xs ys -> collision_in ys xs.
Proof. intros (a & b & Ha & Hb & H1 & H2). exists b, a. repeat split; congruence. Qed.

(** ** The index of a proof *)

Lemma index_nodes_snoc (proof : list bytes) (node : bytes) :
  index_nodes (proof ++ [node]) = <[Keccak256 node := node]> (index_nodes proof).
Proof. unfold index_nodes. by rewrite foldl_app. Qed.

Lemma index_nodes_sound (proof : list bytes) (h raw : bytes) :
  index_nodes proof !! h = Some raw -> raw ∈ proof /\ Keccak256 raw = h.
Proof.
  induction proof as [|node proof IH] using rev_ind; [done|]. rewrite index_nodes_snoc.
  destruct (decide (Keccak256 node = h)) as [<-|Hne].
  - rewrite lookup_insert_eq. intros [= <-]. split; [apply elem_of_app; right; by apply list_elem_of_singleton|done].
  - rewrite lookup_insert_ne by done. intros H. destruct (IH H) as [HI HK]. split; [apply elem_of_app; by left|done].
Qed.

Lemma index_nodes_complete (proof : list bytes) (node : bytes) :
  node ∈ proof -> is_Some (index_nodes proof !! Keccak256 node).
Proof.
  induction proof as [|x proof IH] using rev_ind; [intros H; by apply elem_of_nil in H|]. rewrite index_nodes_snoc.
  intros [H|H%list_elem_of_singleton]%elem_of_app; [|subst; rewrite lookup_insert_eq; by eexists].
  destruct (decide (Keccak256 x = Keccak256 node)) as [E|E]; [rewrite E, lookup_insert_eq; by eexists|].
  rewrite lookup_insert_ne by done. auto.
Qed.

(** ** The walk on two indexes *)

(** Two walks from one reference answer alike, or two different nodes of the proofs have one hash. *)
Lemma walk_agrees (proof proof' : list bytes) (n n' : nat) (path : list Z) (ref : bytes) (v v' : option bytes) :
  walk n (index_nodes proof) path ref = Ok v -> walk n' (index_nodes proof') path ref = Ok v' ->
  v = v' \/ collision_in proof proof'.
Proof.
  revert n' path ref. induction n as [|n IH]; intros [|n'] path ref H H'; try done. cbn [walk] in H, H'.
  apply obind_ok in H as (raw & Hr & H). apply obind_ok in H' as (raw' & Hr' & H').
  destruct (index_nodes proof !! ref) as [r|] eqn:E; [|done]. injection Hr as ->.
  destruct (index_nodes proof' !! ref) as [r'|] eqn:E'; [|done]. injection Hr' as ->.
  apply index_nodes_sound in E as [HI HK]. apply index_nodes_sound in E' as [HI' HK'].
  destruct (keccak_same proof proof' raw raw' (raw = raw') HI HI' id ltac:(congruence)) as [->|?]; [|by right].
  apply obind_ok in H as (item & Hi & H). apply obind_ok in H' as (item' & Hi' & H').
  rewrite Hi in Hi'. apply Ok_inj in Hi' as <-.
  apply obind_ok in H as (s & Hs & H). apply obind_ok in H' as (s' & Hs' & H').
  rewrite Hs in Hs'. apply Ok_inj in Hs' as <-. destruct s as [w|[p q]]; [left; congruence|]. by eapply IH.
Qed.

(** A walk depends only on which nodes the index holds. *)
Lemma walk_same_nodes (proof proof' : list bytes) (n : nat) (path : list Z) (ref : bytes) :
  (forall x, x ∈ proof <-> x ∈ proof') ->
  walk n (index_nodes proof) path ref = walk n (index_nodes proof') path ref \/ collision_in proof proof'.
Proof.
  intros HS. revert path ref. induction n as [|n IH]; intros path ref; [by left|]. cbn [walk].
  destruct (index_nodes proof !! ref) as [r|] eqn:E.
  - apply index_nodes_sound in E as [HI <-].
    destruct (index_nodes_complete proof' r ltac:(by apply HS)) as [r' E']. pose proof E' as [HI' HK']%index_nodes_sound.
    destruct (keccak_same proof proof' r r' (r = r') HI HI' id ltac:(congruence)) as [<-|?]; [|by right].
    rewrite E'. cbn [of_option obind]. destruct (rlp_invalid (DecodeRLP r)) as [item| |]; [cbn [obind]|by left..].
    destruct (walk_node path item) as [[w|[p q]]| |]; cbn [obind]; [by left|apply IH|by left..].
  - destruct (index_nodes proof' !! ref) as [r'|] eqn:E'; [|by left].
    apply index_nodes_sound in E' as [HI' <-]. destruct (index_nodes_complete proof r' ltac:(by apply HS)) as [? ?]. congruence.
Qed.

(** ** Theorems *)

(** A root commits to one answer: whoever assembled them, two proofs accepted for
    one key against one root give the same value or the same absence, or they
    contain two different nodes with one keccak256 hash. *)
Theorem accepted_proofs_agree (root key : bytes) (proof proof' : list bytes) (v v' : option bytes)
    (H : VerifyProof root key proof = Ok v) (H' : VerifyProof root key proof' = Ok v') :
  v = v' \/ collision_in proof proof'.
Proof. apply guard_err_ok in H as [_ H]. apply guard_err_ok in H' as [_ H']. by eapply walk_agrees. Qed.

(** A proof is a set: neither the order nor the repetition of its nodes changes
    what verification answers, errors included, short of a collision in it. *)
Theorem proof_is_a_set (root key : bytes) (proof proof' : list bytes) (Hset : forall x, x ∈ proof <-> x ∈ proof') :
  VerifyProof root key proof = VerifyProof root key proof' \/ collision_in proof proof'.
Proof. unfold VerifyProof. destruct (negb _); [by left|]. cbn [guard_err]. by apply walk_same_nodes. Qed.
End Collisions.

(** ** Slots *)

Lemma land_255 (z : Z) : Z.land z 0xFF = z mod 256.
Proof. change 0xFF with (Z.ones 8). by rewrite Z.land_ones. Qed.

Lemma slot_add_spec (rev : bytes) (carry : Z) :
  bytes_ok rev -> u_range 64 carry ->
  bytes_ok (slot_add rev carry) /\ length (slot_add rev carry) = length rev /\
  le_decode (slot_add rev carry) = (le_decode rev + carry) mod 256 ^ Z.of_nat (length rev).
Proof.
  intros H. revert carry. induction H as [|x rest Hx Hr IH]; intros carry Hc; cbn [slot_add].
  { cbn. split; [constructor|]. split; [done|]. by rewrite Z.mod_1_r. }
  unfold u_range, byte_ok in *. destruct (Z.ltb_spec 0 carry).
  - rewrite land_255, !Z.shiftr_div_pow2 by lia. change (2 ^ 8) with 256.
    set (s := x + carry mod 256). assert (0 <= s < 511) by (unfold s; pose proof (Z.mod_pos_bound carry 256); lia).
    assert (0 <= s / 256 < 2) by (split; [apply Z.div_pos|apply Z.div_lt_upper_bound]; lia).
    assert (0 <= carry / 256 < 2 ^ 56) by (split; [apply Z.div_pos|apply Z.div_lt_upper_bound]; lia).
    rewrite (wrap_u_small 64) by (unfold u_range; lia). destruct (IH (carry / 256 + s / 256)) as (Q1 & Q2 & Q3); [lia|].
    cbn [le_decode length]. rewrite Q2, Q3, Nat2Z.inj_succ, Z.pow_succ_r by lia. unfold wrap_u. change (2 ^ 8) with 256.
    split; [constructor; [apply byte_mod_ok|done]|]. split; [done|].
    assert (0 < 256 ^ Z.of_nat (length rest)) by lia. rewrite Z.rem_mul_r by lia. f_equal.
    + unfold s. rewrite Zplus_mod_idemp_r.
      replace (x + 256 * le_decode rest + carry) with (x + carry + le_decode rest * 256) by lia. by rewrite Z.mod_add by lia.
    + f_equal. f_equal. unfold s. pose proof (Z.div_mod carry 256 ltac:(lia)).
      replace (x + 256 * le_decode rest + carry) with (x + carry mod 256 + (le_decode rest + carry / 256) * 256) by lia.
      rewrite Z.div_add by lia. lia.
  - assert (carry = 0) as -> by lia. split; [by constructor|]. split; [done|]. rewrite Z.add_0_r, Z.mod_small; [done|].
    apply (le_decode_range (x :: rest)). by constructor.
Qed.

(** The slots of a struct follow its base: [SlotAt] is addition modulo 2^256. *)
Theorem SlotAt_adds (base : bytes) (n : Z) (Hb : array_ok 32 base) (Hn : u_range 64 n) :
  SlotAt base n = be_encode 32 (be_decode base + n).
Proof.
  destruct Hb as [Lb Ob]. destruct (slot_add_spec (reverse base) n) as (H1 & H2 & H3); [unfold bytes_ok; by rewrite Forall_reverse|done|].
  rewrite length_reverse, Lb in *. unfold SlotAt. apply be_decode_inj.
  - unfold bytes_ok. by rewrite Forall_reverse.
  - apply be_encode_ok.
  - by rewrite length_reverse, length_be_encode.
  - by rewrite be_decode_encode, be_decode_le, reverse_involutive, H3, <- be_decode_le.
Qed.

Section Slots.
Context `{K : Keccak} {KL : KeccakLaws K}.

(** The base slots of two mapping entries differ unless the entries are the same or
    their preimages collide. *)
Theorem slot_keys_apart (k k' : bytes) (pos pos' : Z) (Hk : array_ok 32 k) (Hk' : array_ok 32 k')
    (Hp : u_range 64 pos) (Hp' : u_range 64 pos') (H : StorageSlotKey k pos = StorageSlotKey k' pos') :
  (k = k' /\ pos = pos') \/ keccak_collide (k ++ zeros 24 ++ be_encode 8 pos) (k' ++ zeros 24 ++ be_encode 8 pos').
Proof.
  destruct (decide (k ++ zeros 24 ++ be_encode 8 pos = k' ++ zeros 24 ++ be_encode 8 pos')) as [E|E]; [left|by right].
  destruct Hk as [Lk _], Hk' as [Lk' _]. apply app_inj_1 in E as [-> E]; [|congruence]. split; [done|].
  apply app_inj_1 in E as [_ E]; [|done]. by apply be_encode_inj in E.
Qed.

(** A storage value is read back as the 32-byte word that was stored, whatever
    leading zeros its encoding dropped; an absent one reads as zero. *)
Theorem slot_value_roundtrip (v : Z) (Hv : u_range 256 v) :
  DecodeSlotValue [] = Ok (be_encode 32 0) /\
  DecodeSlotValue (EncodeRLPBytes (big_bytes v)) = Ok (be_encode 32 v).
Proof.
  unfold u_range in Hv. split; [reflexivity|]. unfold DecodeSlotValue.
  assert (length (big_bytes v) <= 32)%nat as HL.
  { unfold big_bytes. rewrite length_be_encode. apply byte_len_le. change (256 ^ Z.of_nat 32) with (2 ^ 256). lia. }
  assert (bytes_ok (big_bytes v)) as HO by apply be_encode_ok.
  pose proof (encode_item_nonempty (RlpBytes (big_bytes v))) as HN. cbn [encode_item] in HN.
  destruct (length (EncodeRLPBytes (big_bytes v))) eqn:EL; [lia|]. cbn [Nat.eqb].
  change (EncodeRLPBytes (big_bytes v)) with (encode_item (RlpBytes (big_bytes v))).
  rewrite DecodeRLP_of_item; [|done|cbn [encode_item]; pose proof (blen_EncodeRLPBytes (big_bytes v)); unfold blen in *; lia].
  cbn [rlp_err_of obind].
  destruct (Nat.ltb_spec 32 (length (big_bytes v))); [lia|]. cbn [guard_err]. f_equal. apply be_decode_inj.
  - apply Forall_app_2; [apply zeros_ok|done].
  - apply be_encode_ok.
  - rewrite length_app, length_be_encode. unfold zeros. rewrite length_replicate. lia.
  - rewrite be_decode_app, be_decode_zeros, be_decode_big_bytes, be_decode_encode_small; [lia|]. change (256 ^ Z.of_nat 32) with (2 ^ 256). lia.
Qed.
End Slots.

(** ** Witnesses *)

#[export] Instance toy_keccak : Keccak := fun b => be_encode 32 (foldl (fun acc x => Z.land (acc * 257 + x + 1) 3618502788666131106986593281521497120414687020801267626233049500247285301247) 5 b).
#[export] Instance toy_keccak_laws : KeccakLaws toy_keccak.
Proof. intros b. apply be_encode_array. Qed.

(** A trie of one leaf: its proof is the leaf. *)
Definition toy_leaf (key value : bytes) : bytes := encode_item (RlpList [RlpBytes (0x20 :: Keccak256 key); RlpBytes value]).
Lemma toy_leaf_proof : VerifyProof (Keccak256 (toy_leaf [7] [9])) [7] [toy_leaf [7] [9]] = Ok (Some [9]).
Proof. vm_compute. reflexivity. Qed.
Lemma toy_padded_proof : VerifyProof (Keccak256 (toy_leaf [7] [9])) [7] [[1]; toy_leaf [7] [9]; [2]] = Ok (Some [9]).
Proof. vm_compute. reflexivity. Qed.

Lemma accepted_proofs_agree_witness : Some [9] = Some [9] \/ collision_in [toy_leaf [7] [9]] [[1]; toy_leaf [7] [9]; [2]].
Proof. exact (accepted_proofs_agree _ _ _ _ _ _ toy_leaf_proof toy_padded_proof). Defined.

Lemma SlotAt_adds_witness : SlotAt (be_encode 32 (2 ^ 64 - 1)) 9 = be_encode 32 (2 ^ 64 + 8).
Proof.
  rewrite (SlotAt_adds (be_encode 32 (2 ^ 64 - 1)) 9 (be_encode_array 32 _)); [by rewrite be_decode_encode_small|]. unfold u_range. lia.
Defined.

Lemma slot_value_roundtrip_witness : DecodeSlotValue (EncodeRLPBytes (big_bytes 1000)) = Ok (be_encode 32 1000).
Proof. apply (slot_value_roundtrip 1000). unfold u_range. lia. Defined.
