(* ===== verification/EthTrie.v ===== *)
(** * Building Merkle-Patricia tries ([internal/ethproof/triebuild.go])

    The root of a complete set of entries, and what it commits to.  The
    recursion of [encodeTrieSubtree] has the longest path as its fuel: every
    call goes at least one nibble deeper. *)
From S2P Require Import Prelude.
From S2P Require Import GoBytes.
From S2P Require Import Rlp.
From S2P Require Import EthProof.

Record TrieEntry : Type := mkTrieEntry { te_Key : bytes; te_Value : bytes }.
Record triePath : Type := mkTriePath { tp_path : list Z; tp_value : bytes }.

(** [out[i] = nib[2*i]<<4 | nib[2*i+1]] *)
Fixpoint pack (nib : list Z) : bytes :=
  match nib with
  | hi :: lo :: nib => Z.lor (wrap_u 8 (Z.shiftl hi 4)) lo :: pack nib
  | _ => []
  end.
Definition packHexPrefix (path : list Z) (isLeaf : bool) : bytes :=
  let flag := if isLeaf then 2 else 0 in
  let nib := if (length path mod 2 =? 1)%nat then wrap_u 8 (flag + 1) :: path else flag :: 0 :: path in
  pack nib.

(** [for end < len(nodes[0].path)]: how far the paths of [rest] follow [todo], the
    first path from [fin] on. *)
Fixpoint shared_end (rest : list triePath) (todo : list Z) (fin : nat) : nat :=
  match todo with
  | [] => fin
  | c :: todo =>
      if forallb (fun n => bool_decide (tp_path n !! fin = Some c)) rest then shared_end rest todo (S fin) else fin
  end.

(** [groups[i]] *)
Definition group (depth : nat) (i : Z) (nodes : list triePath) : list triePath :=
  filter (fun n => tp_path n !! depth = Some i) nodes.
(** [items[16]]: the value of the last node that ends here. *)
Definition ending (depth : nat) (nodes : list triePath) : option bytes :=
  last (map tp_value (filter (fun n => length (tp_path n) = depth) nodes)).

Definition path_le (a b : triePath) : Prop := bytes_ltb (tp_path b) (tp_path a) = false.
#[export] Instance path_le_dec : RelDecision path_le := fun a b => decide (bytes_ltb (tp_path b) (tp_path a) = false).

Section Build.
Context `{K : Keccak}.

Definition EmptyTrieRoot : bytes := Keccak256 [0x80].

Definition trieNodeRef (encoded : bytes) : bytes :=
  if (length encoded <? 32)%nat then encoded else EncodeRLPBytes (Keccak256 encoded).

Fixpoint encodeTrieSubtree (fuel : nat) (nodes : list triePath) (depth : nat) : bytes :=
  match fuel with
  | O => []
  | S fuel =>
      match nodes with
      | [] => []   (* nodes is never empty *)
      | [n] => EncodeRLPList [EncodeRLPBytes (packHexPrefix (drop depth (tp_path n)) true); EncodeRLPBytes (tp_value n)]
      | first :: rest =>
          let fin := shared_end rest (drop depth (tp_path first)) depth in
          if (depth <? fin)%nat then
            let child := encodeTrieSubtree fuel nodes fin in
            EncodeRLPList [EncodeRLPBytes (packHexPrefix (take (fin - depth) (drop depth (tp_path first))) false); trieNodeRef child]
          else
            let item i := match group depth i nodes with
                          | [] => [0x80]
                          | g => trieNodeRef (encodeTrieSubtree fuel g (S depth))
                          end in
            let value := match ending depth nodes with None => [0x80] | Some v => EncodeRLPBytes v end in
            EncodeRLPList (map item (seqZ 0 16) ++ [value])
      end
  end.

(** The entries as paths, sorted.  [sort.Slice] leaves the order of equal keys
    open; here they keep the order they came in. *)
Definition trie_paths (entries : list TrieEntry) : list triePath :=
  merge_sort path_le (map (fun e => mkTriePath (nibbles (te_Key e)) (te_Value e)) entries).

Definition path_fuel (nodes : list triePath) : nat := S (max_list (map (fun n => length (tp_path n)) nodes)).

Definition BuildMPT (entries : list TrieEntry) : bytes :=
  match entries with
  | [] => EmptyTrieRoot
  | _ => let nodes := trie_paths entries in Keccak256 (encodeTrieSubtree (path_fuel nodes) nodes 0)
  end.
End Build.

(** ** Nibbles and packed paths *)

Definition nibble (c : Z) : Prop := 0 <= c < 16.
Definition nibble_path (p : list Z) : Prop := Forall nibble p.

Lemma land_15 (z : Z) : Z.land z 0x0F = z mod 16.
Proof. change 0x0F with (Z.ones 4). by rewrite Z.land_ones. Qed.

Lemma nibbles_cons (c : Z) (b : bytes) : nibbles (c :: b) = c / 16 :: c mod 16 :: nibbles b.
Proof. cbn [nibbles]. by rewrite land_15, Z.shiftr_div_pow2. Qed.

Lemma nibbles_ok (b : bytes) : bytes_ok b -> nibble_path (nibbles b).
Proof.
  induction 1 as [|c b Hc Hb IH]; [constructor|]. rewrite nibbles_cons. unfold byte_ok in Hc. constructor; [|constructor; [|done]].
  - split; [apply Z.div_pos|apply Z.div_lt_upper_bound]; lia.
  - apply Z.mod_pos_bound. lia.
Qed.

Lemma length_nibbles (b : bytes) : length (nibbles b) = (2 * length b)%nat.
Proof. induction b as [|c b IH]; [done|]. cbn [nibbles length]. lia. Qed.

Lemma nibbles_inj (a b : bytes) : nibbles a = nibbles b -> a = b.
Proof.
  revert b. induction a as [|x a IH]; intros [|y b]; [done..|]. rewrite !nibbles_cons. intros [= Hd Hm H].
  rewrite (IH b H). f_equal. rewrite (Z.div_mod x 16), (Z.div_mod y 16) by lia. congruence.
Qed.

Lemma pack_byte (hi lo : Z) : nibble hi -> nibble lo -> Z.lor (wrap_u 8 (Z.shiftl hi 4)) lo = 16 * hi + lo.
Proof.
  unfold nibble. intros H1 H2. each_below hi; each_below lo.
Qed.

Lemma nibbles_pack (nib : list Z) (k : nat) : nibble_path nib -> length nib = (2 * k)%nat -> nibbles (pack nib) = nib.
Proof.
  revert nib. induction k as [|k IH]; intros [|hi [|lo nib]] H; try (cbn; lia); [done|].
  cbn [length]. intros HL. apply Forall_cons in H as [Hh H]. apply Forall_cons in H as [Hl H].
  change (pack (hi :: lo :: nib)) with (Z.lor (wrap_u 8 (Z.shiftl hi 4)) lo :: pack nib).
  rewrite pack_byte, nibbles_cons, IH by (done || lia). unfold nibble in *.
  rewrite (Z.mul_comm 16), Z.div_add_l, Z.div_small, Z.add_0_r, Z.add_comm, Z.mod_add, Z.mod_small by lia. done.
Qed.

Lemma pack_ok (nib : list Z) : nibble_path nib -> bytes_ok (pack nib) /\ (length (pack nib) <= length nib)%nat.
Proof.
  assert (forall k (nib : list Z), (length nib <= k)%nat -> nibble_path nib -> bytes_ok (pack nib) /\ (length (pack nib) <= length nib)%nat) as H;
    [|by apply (H (length nib))].
  intros k. induction k as [|k IH]; intros [|hi [|lo l]] Hk H; cbn in Hk; try lia; try (split; [constructor|cbn; lia]).
  apply Forall_cons in H as [Hh H]. apply Forall_cons in H as [Hl H].
  change (pack (hi :: lo :: l)) with (Z.lor (wrap_u 8 (Z.shiftl hi 4)) lo :: pack l). rewrite pack_byte by done.
  destruct (IH l) as [H1 H2]; [lia|done|]. unfold nibble in *. split; [constructor; [unfold byte_ok; lia|done]|cbn [length]; lia].
Qed.

Lemma packHexPrefix_nibbles (path : list Z) (isLeaf : bool) : nibble_path path ->
  bytes_ok (packHexPrefix path isLeaf) /\ (length (packHexPrefix path isLeaf) <= length path + 2)%nat /\
  nibbles (packHexPrefix path isLeaf) =
    (if (length path mod 2 =? 1)%nat then [(if isLeaf then 3 else 1)] else [(if isLeaf then 2 else 0); 0]) ++ path.
Proof.
  intros H. unfold packHexPrefix.
  match goal with |- context [pack ?n] => set (nib := n) end.
  assert (nib = (if (length path mod 2 =? 1)%nat then [(if isLeaf then 3 else 1)] else [(if isLeaf then 2 else 0); 0]) ++ path) as E.
  { unfold nib. destruct isLeaf; by destruct (_ =? 1)%nat. }
  assert (nibble_path nib) as HN. { rewrite E. apply Forall_app_2; [|done]. unfold nibble. destruct (_ =? 1)%nat, isLeaf; repeat constructor; lia. }
  pose proof (Nat.div_mod (length path) 2 ltac:(lia)). pose proof (Nat.mod_upper_bound (length path) 2 ltac:(lia)).
  assert (length nib <= length path + 2)%nat by (rewrite E, length_app; destruct (_ =? 1)%nat; cbn; lia).
  destruct (pack_ok nib HN) as [Q1 Q2]. split; [done|]. split; [lia|]. rewrite <- E.
  destruct (Nat.eqb_spec (length path mod 2) 1).
  - apply (nibbles_pack nib (S (length path / 2))); [done|]. rewrite E, length_app. cbn [length]. lia.
  - apply (nibbles_pack nib (S (length path / 2))); [done|]. rewrite E, length_app. cbn [length]. lia.
Qed.

(** The packed path decodes to the path and the kind of node it was packed for. *)
Lemma hexPrefix_pack (path : list Z) (isLeaf : bool) : nibble_path path -> hexPrefix (packHexPrefix path isLeaf) = Ok (path, isLeaf).
Proof.
  intros H. destruct (packHexPrefix_nibbles path isLeaf H) as (_ & _ & E). unfold hexPrefix. rewrite E.
  by destruct (_ =? 1)%nat, isLeaf.
Qed.

(** ** Tries by their remaining paths

    A subtree at depth [d] depends only on what its paths hold from [d] on.
    [sub_item] is the item it encodes; [sub_nodes] lists the encodings of all the
    nodes below and including it. *)
Definition cut (d : nat) (nodes : list triePath) : list triePath :=
  map (fun n => mkTriePath (drop d (tp_path n)) (tp_value n)) nodes.

Lemma cut_0 (nodes : list triePath) : cut 0 nodes = nodes.
Proof. unfold cut. rewrite <- (map_id nodes) at 2. apply map_ext. by intros [p v]. Qed.
Lemma cut_cut (d e : nat) (nodes : list triePath) : cut e (cut d nodes) = cut (d + e) nodes.
Proof. unfold cut. rewrite map_map. apply map_ext. intros n. cbn. by rewrite drop_drop. Qed.
Lemma cut_nil (d : nat) (nodes : list triePath) : cut d nodes = [] <-> nodes = [].
Proof. by destruct nodes. Qed.

Lemma group_cut (d k : nat) (i : Z) (nodes : list triePath) : group k i (cut d nodes) = cut d (group (d + k) i nodes).
Proof.
  induction nodes as [|n nodes IH]; [done|]. unfold group, cut in *. cbn [map]. rewrite !filter_cons. cbn [tp_path].
  pose proof (lookup_drop (tp_path n) d k) as E.
  destruct (decide (drop d (tp_path n) !! k = Some i)), (decide (tp_path n !! (d + k)%nat = Some i)); try congruence; cbn [map]; by rewrite IH.
Qed.

Definition at_least (d : nat) (nodes : list triePath) : Prop := Forall (fun n => (d <= length (tp_path n))%nat) nodes.

Lemma ending_cut (d : nat) (nodes : list triePath) : at_least d nodes -> ending 0 (cut d nodes) = ending d nodes.
Proof.
  intros H. unfold ending. f_equal. induction H as [|n nodes Hn H IH]; [done|]. unfold cut in *. cbn [map]. rewrite !filter_cons. cbn [tp_path].
  rewrite length_drop. destruct (decide (length (tp_path n) - d = 0)%nat), (decide (length (tp_path n) = d)); try lia; cbn [map]; by rewrite IH.
Qed.

Lemma shared_end_cut (d k : nat) (rest : list triePath) (todo : list Z) :
  shared_end rest todo (d + k) = (d + shared_end (cut d rest) todo k)%nat.
Proof.
  revert k. induction todo as [|c todo IH]; intros k; cbn [shared_end]; [done|].
  assert (forallb (fun n => bool_decide (tp_path n !! k = Some c)) (cut d rest) =
    forallb (fun n => bool_decide (tp_path n !! (d + k)%nat = Some c)) rest) as ->.
  { clear IH. unfold cut. induction rest as [|n rest IHr]; [done|]. cbn [map forallb tp_path]. rewrite IHr. f_equal. apply bool_decide_ext. by rewrite lookup_drop. }
  destruct (forallb _ rest); [|done]. rewrite <- IH. f_equal. lia.
Qed.

(** Every path starts with [q]. *)
Definition all_start (q : list Z) (nodes : list triePath) : Prop := Forall (fun n => exists p, tp_path n = q ++ p) nodes.

Lemma shared_end_spec (rest : list triePath) (todo : list Z) (fin : nat) :
  let k := shared_end rest todo fin in
  (fin <= k <= fin + length todo)%nat /\
  forall n j, n ∈ rest -> (fin <= j < k)%nat -> tp_path n !! j = todo !! (j - fin)%nat.
Proof.
  revert fin. induction todo as [|c todo IH]; intros fin; cbn [shared_end length].
  { split; [lia|]. intros n j _ ?. lia. }
  destruct (forallb _ rest) eqn:E; [|split; [lia|]; intros n j _ ?; lia].
  destruct (IH (S fin)) as [H1 H2]. split; [lia|]. intros n j Hn Hj. destruct (decide (j = fin)) as [->|].
  - rewrite Nat.sub_diag. rewrite forallb_forall in E. apply list_elem_of_In in Hn. specialize (E n Hn). by zbool.
  - rewrite (H2 n j Hn ltac:(lia)). replace (j - fin)%nat with (S (j - S fin)) by lia. done.
Qed.

Lemma shared_start (first : triePath) (rest : list triePath) :
  all_start (take (shared_end rest (tp_path first) 0) (tp_path first)) (first :: rest) /\
  (shared_end rest (tp_path first) 0 <= length (tp_path first))%nat.
Proof.
  destruct (shared_end_spec rest (tp_path first) 0) as [H1 H2]. set (k := shared_end _ _ _) in *. split; [|lia].
  apply Forall_cons. split; [eexists; by rewrite take_drop|]. apply Forall_forall. intros n Hn. exists (drop k (tp_path n)).
  rewrite <- (take_drop k (tp_path n)) at 1. f_equal. apply list_eq. intros j. destruct (decide (j < k)%nat).
  - rewrite !lookup_take_lt by done. rewrite (H2 n j Hn) by lia. by rewrite Nat.sub_0_r.
  - by rewrite !lookup_take_ge by lia.
Qed.

Section Items.
Context `{K : Keccak} {KL : KeccakLaws K}.

Definition ref_item (it : rlpItem) : rlpItem :=
  if (length (encode_item it) <? 32)%nat then it else RlpBytes (Keccak256 (encode_item it)).

Fixpoint sub_item (fuel : nat) (nodes : list triePath) : rlpItem :=
  match fuel with
  | O => RlpBytes []
  | S fuel =>
      match nodes with
      | [] => RlpBytes []
      | [n] => RlpList [RlpBytes (packHexPrefix (tp_path n) true); RlpBytes (tp_value n)]
      | first :: rest =>
          let k := shared_end rest (tp_path first) 0 in
          if (0 <? k)%nat then RlpList [RlpBytes (packHexPrefix (take k (tp_path first)) false); ref_item (sub_item fuel (cut k nodes))]
          else RlpList (map (fun i => match group 0 i nodes with [] => RlpBytes [] | g => ref_item (sub_item fuel (cut 1 g)) end) (seqZ 0 16)
                        ++ [RlpBytes (default [] (ending 0 nodes))])
      end
  end.

Fixpoint sub_nodes (fuel : nat) (nodes : list triePath) : list bytes :=
  match fuel with
  | O => []
  | S fuel' =>
      encode_item (sub_item fuel nodes) ::
      match nodes with
      | [] | [_] => []
      | first :: rest =>
          let k := shared_end rest (tp_path first) 0 in
          if (0 <? k)%nat then sub_nodes fuel' (cut k nodes)
          else concat (map (fun i => match group 0 i nodes with [] => [] | g => sub_nodes fuel' (cut 1 g) end) (seqZ 0 16))
      end
  end.

(** The nodes that a path goes through, the root first. *)
Fixpoint path_nodes (fuel : nat) (nodes : list triePath) (path : list Z) : list bytes :=
  match fuel with
  | O => []
  | S fuel' =>
      encode_item (sub_item fuel nodes) ::
      match nodes with
      | [] | [_] => []
      | first :: rest =>
          let k := shared_end rest (tp_path first) 0 in
          if (0 <? k)%nat then match strip (take k (tp_path first)) path with None => [] | Some path => path_nodes fuel' (cut k nodes) path end
          else match path with
               | [] => []
               | i :: path => match group 0 i nodes with [] => [] | g => path_nodes fuel' (cut 1 g) path end
               end
      end
  end.

(** Fuel for every path. *)
Definition fuelled (fuel : nat) (nodes : list triePath) : Prop := Forall (fun n => (length (tp_path n) < fuel)%nat) nodes.

Definition child_item (fuel : nat) (nodes : list triePath) (i : Z) : rlpItem :=
  match group 0 i nodes with [] => RlpBytes [] | g => ref_item (sub_item fuel (cut 1 g)) end.
Definition child_nodes (fuel : nat) (nodes : list triePath) (i : Z) : list bytes :=
  match group 0 i nodes with [] => [] | g => sub_nodes fuel (cut 1 g) end.

(** The three kinds of node. *)
Inductive node_shape (fuel : nat) (nodes : list triePath) : Prop :=
| ShapeLeaf (n : triePath) :
    nodes = [n] -> sub_item (S fuel) nodes = RlpList [RlpBytes (packHexPrefix (tp_path n) true); RlpBytes (tp_value n)] ->
    node_shape fuel nodes
| ShapeExtension (q : list Z) :
    q <> [] -> all_start q nodes -> cut (length q) nodes <> [] -> fuelled fuel (cut (length q) nodes) ->
    sub_item (S fuel) nodes = RlpList [RlpBytes (packHexPrefix q false); ref_item (sub_item fuel (cut (length q) nodes))] ->
    sub_nodes fuel (cut (length q) nodes) ⊆ sub_nodes (S fuel) nodes ->
    (forall path, path_nodes (S fuel) nodes path = encode_item (sub_item (S fuel) nodes) ::
      match strip q path with None => [] | Some path => path_nodes fuel (cut (length q) nodes) path end) ->
    node_shape fuel nodes
| ShapeBranch :
    (forall i, fuelled fuel (cut 1 (group 0 i nodes))) ->
    sub_item (S fuel) nodes = RlpList (map (child_item fuel nodes) (seqZ 0 16) ++ [RlpBytes (default [] (ending 0 nodes))]) ->
    (forall i, 0 <= i < 16 -> child_nodes fuel nodes i ⊆ sub_nodes (S fuel) nodes) ->
    (forall path, path_nodes (S fuel) nodes path = encode_item (sub_item (S fuel) nodes) ::
      match path with
      | [] => []
      | i :: path => match group 0 i nodes with [] => [] | g => path_nodes fuel (cut 1 g) path end
      end) ->
    node_shape fuel nodes.

Lemma fuelled_cut (fuel k : nat) (nodes : list triePath) :
  fuelled (S fuel) nodes -> at_least k nodes -> (0 < k)%nat -> fuelled fuel (cut k nodes).
Proof.
  intros H HA Hk. unfold fuelled, cut. apply Forall_map. apply Forall_forall. intros n Hn. cbn [compose tp_path]. rewrite length_drop.
  pose proof (proj1 (Forall_forall _ _) H n Hn) as F. pose proof (proj1 (Forall_forall _ _) HA n Hn) as F'. cbn beta in F, F'. lia.
Qed.

Lemma all_start_at_least (q : list Z) (nodes : list triePath) : all_start q nodes -> at_least (length q) nodes.
Proof. intros H. eapply Forall_impl; [exact H|]. intros n [p ->]. rewrite length_app. lia. Qed.

Lemma group_at_least (i : Z) (nodes : list triePath) : at_least 1 (group 0 i nodes).
Proof.
  apply Forall_forall. intros n Hn. apply list_elem_of_filter in Hn as [Hn _]. destruct (tp_path n); [done|]. cbn. lia.
Qed.

Lemma fuelled_filter (P : triePath -> Prop) `{forall x, Decision (P x)} (fuel : nat) (nodes : list triePath) :
  fuelled fuel nodes -> fuelled fuel (filter P nodes).
Proof. intros HF. apply Forall_forall. intros n Hn. apply list_elem_of_filter in Hn as [_ Hn]. by apply (proj1 (Forall_forall _ _) HF). Qed.

Lemma node_shapes (fuel : nat) (nodes : list triePath) : nodes <> [] -> fuelled (S fuel) nodes -> node_shape fuel nodes.
Proof.
  intros Hne HF. destruct nodes as [|first [|second rest]]; [done|by apply (ShapeLeaf _ _ first)|].
  set (nodes := first :: second :: rest) in *. destruct (shared_start first (second :: rest)) as [HS HL].
  assert (sub_item (S fuel) nodes = (let k := shared_end (second :: rest) (tp_path first) 0 in
    if (0 <? k)%nat then RlpList [RlpBytes (packHexPrefix (take k (tp_path first)) false); ref_item (sub_item fuel (cut k nodes))]
    else RlpList (map (child_item fuel nodes) (seqZ 0 16) ++ [RlpBytes (default [] (ending 0 nodes))]))) as EI by done.
  assert (sub_nodes (S fuel) nodes = encode_item (sub_item (S fuel) nodes) :: (let k := shared_end (second :: rest) (tp_path first) 0 in
    if (0 <? k)%nat then sub_nodes fuel (cut k nodes) else concat (map (child_nodes fuel nodes) (seqZ 0 16)))) as EN by done.
  assert (forall path, path_nodes (S fuel) nodes path = encode_item (sub_item (S fuel) nodes) :: (let k := shared_end (second :: rest) (tp_path first) 0 in
    if (0 <? k)%nat then match strip (take k (tp_path first)) path with None => [] | Some path => path_nodes fuel (cut k nodes) path end
    else match path with [] => [] | i :: path => match group 0 i nodes with [] => [] | g => path_nodes fuel (cut 1 g) path end end)) as EP by done.
  cbv zeta in EI, EN, EP. set (k := shared_end _ _ _) in *. destruct (Nat.ltb_spec 0 k) as [Hk|Hk].
  - assert (length (take k (tp_path first)) = k) as Lq by (rewrite length_take; lia).
    apply (ShapeExtension _ _ (take k (tp_path first))); rewrite ?Lq; try done.
    + intros E. rewrite E in Lq. cbn in Lq. lia.
    + apply fuelled_cut; [done| |done]. rewrite <- Lq. by apply all_start_at_least.
    + rewrite EN. intros x Hx. by right.
  - apply ShapeBranch; [|done| |done].
    + intros i. apply fuelled_cut; [by apply fuelled_filter|apply group_at_least|lia].
    + intros i Hi x Hx. rewrite EN. right. apply list_elem_of_In, in_concat. exists (child_nodes fuel nodes i). split; [|by apply list_elem_of_In].
      apply in_map, list_elem_of_In, elem_of_seqZ. lia.
Qed.

Lemma sub_item_list (fuel : nat) (nodes : list triePath) : nodes <> [] -> IsList (sub_item (S fuel) nodes) = true.
Proof. intros H. destruct nodes as [|first [|second rest]]; [done|done|]. cbn [sub_item]. by destruct (0 <? _)%nat. Qed.

Lemma sub_node_self (fuel : nat) (nodes : list triePath) : encode_item (sub_item (S fuel) nodes) ∈ sub_nodes (S fuel) nodes.
Proof. by left. Qed.

(** ** The code builds this item *)

Lemma trieNodeRef_item (it : rlpItem) : trieNodeRef (encode_item it) = encode_item (ref_item it).
Proof. unfold trieNodeRef, ref_item. by destruct (_ <? 32)%nat. Qed.

Lemma encodeTrieSubtree_item (fuel : nat) (nodes : list triePath) (d : nat) :
  nodes <> [] -> at_least d nodes -> fuelled fuel (cut d nodes) ->
  encodeTrieSubtree fuel nodes d = encode_item (sub_item fuel (cut d nodes)).
Proof.
  revert nodes d. induction fuel as [|fuel IH]; intros nodes d Hne HA HF.
  { destruct nodes as [|n nodes]; [done|]. apply Forall_cons in HF as [HF _]. cbn in HF. lia. }
  destruct nodes as [|first [|second rest]]; [done|done|]. set (nodes := first :: second :: rest) in *.
  pose proof (shared_end_cut d 0 (second :: rest) (drop d (tp_path first))) as EK. rewrite Nat.add_0_r in EK.
  pose proof (shared_start (mkTriePath (drop d (tp_path first)) (tp_value first)) (cut d (second :: rest))) as [HS HL].
  cbn [tp_path] in HS, HL. change (mkTriePath (drop d (tp_path first)) (tp_value first) :: cut d (second :: rest)) with (cut d nodes) in HS.
  assert (encodeTrieSubtree (S fuel) nodes d =
    let fin := shared_end (second :: rest) (drop d (tp_path first)) d in
    if (d <? fin)%nat then EncodeRLPList [EncodeRLPBytes (packHexPrefix (take (fin - d) (drop d (tp_path first))) false); trieNodeRef (encodeTrieSubtree fuel nodes fin)]
    else EncodeRLPList (map (fun i => match group d i nodes with [] => [0x80] | g => trieNodeRef (encodeTrieSubtree fuel g (S d)) end) (seqZ 0 16)
      ++ [match ending d nodes with None => [0x80] | Some v => EncodeRLPBytes v end])) as -> by done.
  assert (sub_item (S fuel) (cut d nodes) =
    let k := shared_end (cut d (second :: rest)) (drop d (tp_path first)) 0 in
    if (0 <? k)%nat then RlpList [RlpBytes (packHexPrefix (take k (drop d (tp_path first))) false); ref_item (sub_item fuel (cut k (cut d nodes)))]
    else RlpList (map (child_item fuel (cut d nodes)) (seqZ 0 16) ++ [RlpBytes (default [] (ending 0 (cut d nodes)))])) as -> by done.
  cbv zeta. rewrite EK. set (k := shared_end (cut d _) _ 0) in *.
  destruct (Nat.ltb_spec d (d + k)), (Nat.ltb_spec 0 k); try lia; cbn [encode_item map]; f_equal.
  - replace (d + k - d)%nat with k by lia. f_equal. f_equal. rewrite <- trieNodeRef_item. f_equal. rewrite cut_cut. apply IH; [done| |].
    + apply Forall_forall. intros n Hn. apply all_start_at_least in HS. unfold at_least, cut in HS. rewrite Forall_map in HS.
      pose proof (proj1 (Forall_forall _ _) HS n Hn) as Q. pose proof (proj1 (Forall_forall _ _) HA n Hn) as Q'. cbn in Q, Q'.
      rewrite length_take, !length_drop in Q. rewrite length_drop in HL. lia.
    + rewrite <- cut_cut. apply fuelled_cut; [done| |done]. apply all_start_at_least in HS. rewrite length_take in HS. by rewrite Nat.min_l in HS.
  - rewrite map_app, map_map. f_equal; [|cbn [map encode_item]; rewrite ending_cut by done; by destruct (ending d nodes)].
    apply map_ext. intros i. unfold child_item. rewrite (group_cut d 0), Nat.add_0_r. destruct (group d i nodes) as [|g gs] eqn:EG; [done|].
    transitivity (encode_item (ref_item (sub_item fuel (cut 1 (cut d (g :: gs)))))); [|done].
    rewrite <- trieNodeRef_item, cut_cut, Nat.add_1_r. f_equal. apply IH; [done| |].
    + apply Forall_forall. intros n Hn. rewrite <- EG in Hn. apply list_elem_of_filter in Hn as [Hn _]. apply lookup_lt_Some in Hn. lia.
    + rewrite <- Nat.add_1_r, <- cut_cut. apply fuelled_cut; [|rewrite <- EG|lia].
      * rewrite <- EG. pose proof (group_cut d 0 i nodes) as EGC. rewrite Nat.add_0_r in EGC. rewrite <- EGC. by apply fuelled_filter.
      * pose proof (group_cut d 0 i nodes) as EGC. rewrite Nat.add_0_r in EGC. rewrite <- EGC. apply group_at_least.
Qed.
End Items.

(** ** What a set of paths holds *)

Fixpoint assoc (p : list Z) (nodes : list triePath) : option bytes :=
  match nodes with
  | [] => None
  | n :: nodes => if bool_decide (tp_path n = p) then Some (tp_value n) else assoc p nodes
  end.

Definition distinct (nodes : list triePath) : Prop := NoDup (map tp_path nodes).

Lemma assoc_Some (p : list Z) (v : bytes) (nodes : list triePath) : assoc p nodes = Some v -> mkTriePath p v ∈ nodes.
Proof.
  induction nodes as [|n nodes IH]; cbn [assoc]; [done|]. case_bool_decide as E; [|intros H; right; auto].
  intros [= <-]. subst p. replace (mkTriePath (tp_path n) (tp_value n)) with n by (by destruct n). by left.
Qed.

Lemma assoc_elem (p : list Z) (v : bytes) (nodes : list triePath) : distinct nodes -> mkTriePath p v ∈ nodes -> assoc p nodes = Some v.
Proof.
  unfold distinct. induction nodes as [|n nodes IH]; intros HD; [intros H; by apply elem_of_nil in H|]. cbn [map] in HD.
  apply NoDup_cons in HD as [Hn HD]. cbn [assoc]. intros [<-|H]%elem_of_cons; [by rewrite bool_decide_eq_true_2|].
  rewrite bool_decide_eq_false_2; [by apply IH|]. intros E. apply Hn. rewrite E.
  change p with (tp_path (mkTriePath p v)). by apply list_elem_of_fmap_2.
Qed.

Lemma assoc_start (q p : list Z) (nodes : list triePath) : all_start q nodes -> assoc (q ++ p) nodes = assoc p (cut (length q) nodes).
Proof.
  induction 1 as [|n nodes [r Hr] H IH]; [done|]. cbn [assoc cut map tp_path tp_value]. rewrite Hr, drop_app_length.
  unfold cut in IH. rewrite IH. destruct (decide (r = p)) as [->|].
  - by rewrite !bool_decide_eq_true_2.
  - rewrite !bool_decide_eq_false_2; [done|done|]. intros E. by apply app_inv_head in E.
Qed.

Lemma assoc_diverges (q p : list Z) (nodes : list triePath) : all_start q nodes -> strip q p = None -> assoc p nodes = None.
Proof.
  intros H HS. destruct (assoc p nodes) as [v|] eqn:E; [|done]. apply assoc_Some in E.
  apply (proj1 (Forall_forall _ _) H) in E as [r E]. cbn [tp_path] in E. unfold strip in HS. rewrite E in HS.
  rewrite take_app_length, bool_decide_eq_true_2, length_app, (proj2 (Nat.leb_le _ _)) in HS by (done || lia). done.
Qed.

Lemma strip_Some (q p r : list Z) : strip q p = Some r -> p = q ++ r.
Proof.
  unfold strip. destruct (_ && _) eqn:E; [|done]. intros [= <-]. zbool. rewrite <- (take_drop (length q) p) at 1. by f_equal.
Qed.

Lemma assoc_group (i : Z) (p : list Z) (nodes : list triePath) : assoc (i :: p) nodes = assoc p (cut 1 (group 0 i nodes)).
Proof.
  induction nodes as [|n nodes IH]; [done|]. unfold group in *. cbn [assoc]. rewrite filter_cons.
  destruct (decide (tp_path n !! 0%nat = Some i)) as [E|E].
  - cbn [cut map assoc tp_path tp_value]. destruct (tp_path n) as [|c r]; [done|]. injection E as ->. cbn [drop].
    unfold cut in IH. rewrite IH. destruct (decide (r = p)) as [->|Hr]; [by rewrite !bool_decide_eq_true_2|].
    rewrite !bool_decide_eq_false_2; [done|done|congruence].
  - rewrite bool_decide_eq_false_2; [done|]. intros H. apply E. by rewrite H.
Qed.

Lemma assoc_ending (nodes : list triePath) : distinct nodes -> ending 0 nodes = assoc [] nodes.
Proof.
  unfold distinct, ending. induction nodes as [|n nodes IH]; [done|]. intros HD. cbn [map] in HD. apply NoDup_cons in HD as [Hn HD].
  specialize (IH HD). cbn [assoc]. rewrite filter_cons. destruct (decide (length (tp_path n) = 0)%nat) as [E|E].
  - apply length_zero_iff_nil in E as EP. rewrite bool_decide_eq_true_2 by done.
    assert (filter (fun m => length (tp_path m) = 0%nat) nodes = []) as ->; [|done].
    destruct (filter _ nodes) as [|m ms] eqn:EF; [done|]. exfalso. apply Hn. rewrite EP.
    assert (m ∈ filter (fun m => length (tp_path m) = 0%nat) nodes) as Hm by (rewrite EF; by left).
    apply list_elem_of_filter in Hm as [Hm1 Hm2]. apply length_zero_iff_nil in Hm1. rewrite <- Hm1. by apply list_elem_of_fmap_2.
  - rewrite bool_decide_eq_false_2; [done|]. intros H. apply E. by rewrite H.
Qed.

Lemma distinct_cut (q : list Z) (nodes : list triePath) : all_start q nodes -> distinct nodes -> distinct (cut (length q) nodes).
Proof.
  unfold distinct. induction 1 as [|n nodes [r Hr] H IH]; intros HD; [constructor|]. cbn [cut map tp_path] in *. apply NoDup_cons in HD as [Hn HD].
  apply NoDup_cons. split; [|by apply IH]. intros HI. apply Hn. apply list_elem_of_fmap in HI as (m & Em & Hm).
  apply list_elem_of_fmap in Hm as (m' & -> & Hm'). cbn [tp_path] in Em. apply (proj1 (Forall_forall _ _) H) in Hm' as HS. destruct HS as [r' Hr'].
  rewrite Hr, Hr', !drop_app_length in Em. subst r'. rewrite Hr, <- Hr'. by apply list_elem_of_fmap_2.
Qed.

Lemma group_start (i : Z) (nodes : list triePath) : all_start [i] (group 0 i nodes).
Proof.
  apply Forall_forall. intros n Hn. apply list_elem_of_filter in Hn as [Hn _]. destruct (tp_path n) as [|c r]; [done|].
  injection Hn as ->. by exists r.
Qed.

Lemma distinct_filter (P : triePath -> Prop) `{forall x, Decision (P x)} (nodes : list triePath) : distinct nodes -> distinct (filter P nodes).
Proof.
  unfold distinct. induction nodes as [|n nodes IH]; intros HD; [constructor|]. cbn [map] in HD. apply NoDup_cons in HD as [Hn HD]. rewrite filter_cons.
  destruct (decide (P n)); [|auto]. cbn [map]. apply NoDup_cons. split; [|auto]. intros HI. apply Hn.
  apply list_elem_of_fmap in HI as (m & Em & Hm). apply list_elem_of_filter in Hm as [_ Hm]. rewrite Em. by apply list_elem_of_fmap_2.
Qed.

Lemma distinct_group (i : Z) (nodes : list triePath) : distinct nodes -> distinct (cut 1 (group 0 i nodes)).
Proof. intros H. apply (distinct_cut [i]); [apply group_start|]. by apply distinct_filter. Qed.

(** ** Sizes *)

Definition node_ok (n : triePath) : Prop :=
  nibble_path (tp_path n) /\ bytes_ok (tp_value n) /\ blen (tp_path n) < 2 ^ 50 /\ blen (tp_value n) < 2 ^ 50.
Definition nodes_ok (nodes : list triePath) : Prop := Forall node_ok nodes.

Lemma nodes_ok_cut (d : nat) (nodes : list triePath) : nodes_ok nodes -> nodes_ok (cut d nodes).
Proof.
  intros H. unfold nodes_ok, cut. apply Forall_map. eapply Forall_impl; [exact H|]. intros n (H1 & H2 & H3 & H4). unfold node_ok, compose. cbn [tp_path tp_value].
  split; [by apply Forall_drop|]. split; [done|]. split; [|done]. unfold blen in *. rewrite length_drop. lia.
Qed.
Lemma nodes_ok_filter (P : triePath -> Prop) `{forall x, Decision (P x)} (nodes : list triePath) : nodes_ok nodes -> nodes_ok (filter P nodes).
Proof. intros HF. apply Forall_forall. intros n Hn. apply list_elem_of_filter in Hn as [_ Hn]. by apply (proj1 (Forall_forall _ _) HF). Qed.

Lemma ending_ok (nodes : list triePath) : nodes_ok nodes -> bytes_ok (default [] (ending 0 nodes)) /\ blen (default [] (ending 0 nodes)) < 2 ^ 50.
Proof.
  intros H. unfold ending. destruct (last _) as [v|] eqn:E; [|split; [by apply Forall_nil_2|reflexivity]].
  cbn. apply last_Some_elem_of in E. apply list_elem_of_fmap in E as (n & -> & Hn). apply list_elem_of_filter in Hn as [_ Hn].
  apply (proj1 (Forall_forall _ _) H) in Hn as (_ & ? & _ & ?). done.
Qed.

Lemma all_start_nibbles (q : list Z) (nodes : list triePath) : nodes <> [] -> nodes_ok nodes -> all_start q nodes -> nibble_path q /\ blen q < 2 ^ 50.
Proof.
  intros Hne HO HS. destruct nodes as [|n nodes]; [done|]. apply Forall_cons in HO as [(H1 & _ & H3 & _) _]. apply Forall_cons in HS as [[p E] _].
  rewrite E in H1, H3. apply Forall_app in H1 as [H1 _]. rewrite blen_app in H3. split; [done|]. unfold blen in *. lia.
Qed.

Section Sized.
Context `{K : Keccak} {KL : KeccakLaws K}.

Lemma ref_item_small (it : rlpItem) : item_ok it -> item_ok (ref_item it) /\ blen (encode_item (ref_item it)) <= 42.
Proof.
  intros H. unfold ref_item. destruct (Nat.ltb_spec (length (encode_item it)) 32); [split; [done|unfold blen; lia]|].
  destruct (Keccak256_array (encode_item it)) as [L O]. split; [exact O|]. cbn [encode_item].
  pose proof (blen_EncodeRLPBytes (Keccak256 (encode_item it))). unfold blen in *. lia.
Qed.

Lemma blen_packed (path : list Z) (isLeaf : bool) : nibble_path path -> blen path < 2 ^ 50 ->
  bytes_ok (packHexPrefix path isLeaf) /\ blen (EncodeRLPBytes (packHexPrefix path isLeaf)) < 2 ^ 51.
Proof.
  intros H HL. destruct (packHexPrefix_nibbles path isLeaf H) as (H1 & H2 & _). split; [done|].
  pose proof (blen_EncodeRLPBytes (packHexPrefix path isLeaf)). unfold blen in *. lia.
Qed.

Lemma zsum_blen_const (l : list bytes) (k : Z) : Forall (fun b => blen b <= k) l -> zsum (map blen l) <= k * Z.of_nat (length l).
Proof. induction 1 as [|b l Hb H IH]; [cbn; lia|]. cbn [map length]. change (zsum (blen b :: map blen l)) with (blen b + zsum (map blen l)). lia. Qed.

Lemma sub_item_ok (fuel : nat) (nodes : list triePath) : nodes <> [] -> fuelled fuel nodes -> nodes_ok nodes ->
  item_ok (sub_item fuel nodes) /\ blen (encode_item (sub_item fuel nodes)) < 2 ^ 55.
Proof.
  revert nodes. induction fuel as [|fuel IH]; intros nodes Hne HF HO.
  { split; [by apply Forall_nil_2|reflexivity]. }
  destruct (node_shapes fuel nodes Hne HF) as [n -> ->|q Hq HS Hc Hf -> _|Hf -> _].
  - apply Forall_cons in HO as [(H1 & H2 & H3 & H4) _]. destruct (blen_packed (tp_path n) true H1 H3) as [P1 P2].
    split; [rewrite item_ok_list; repeat constructor; done|]. cbn [encode_item map].
    match goal with |- blen (EncodeRLPList ?l) < _ => pose proof (blen_EncodeRLPList l) as HB end. cbn [map] in HB.
    pose proof (blen_EncodeRLPBytes (tp_value n)). cbn [zsum foldr] in HB. unfold zsum in HB. cbn [foldr] in HB. lia.
  - destruct (all_start_nibbles q nodes Hne HO HS) as [N1 N2]. destruct (blen_packed q false N1 N2) as [P1 P2].
    destruct (IH (cut (length q) nodes) Hc Hf (nodes_ok_cut _ _ HO)) as [I1 _]. destruct (ref_item_small _ I1) as [R1 R2].
    split; [rewrite item_ok_list; repeat constructor; done|]. cbn [encode_item map].
    match goal with |- blen (EncodeRLPList ?l) < _ => pose proof (blen_EncodeRLPList l) as HB end.
    unfold zsum in HB. cbn [map foldr] in HB. lia.
  - assert (forall i, item_ok (child_item fuel nodes i) /\ blen (encode_item (child_item fuel nodes i)) <= 42) as HC.
    { intros i. unfold child_item. destruct (group 0 i nodes) as [|g gs] eqn:EG; [split; [by apply Forall_nil_2|done]|].
      apply ref_item_small, IH; [done|rewrite <- EG; apply Hf|rewrite <- EG]. by apply nodes_ok_cut, nodes_ok_filter. }
    destruct (ending_ok nodes HO) as [E1 E2]. split.
    + rewrite item_ok_list. apply Forall_app_2; [|by repeat constructor]. apply Forall_map, Forall_forall. intros i _. apply HC.
    + cbn [encode_item]. match goal with |- blen (EncodeRLPList ?l) < _ => pose proof (blen_EncodeRLPList l) as HB end.
      rewrite !map_app, zsum_app in HB. cbn [map encode_item] in HB. rewrite map_app in *. cbn [map encode_item].
      pose proof (zsum_blen_const (map encode_item (map (child_item fuel nodes) (seqZ 0 16))) 42) as HZ.
      rewrite !length_map, length_seqZ in HZ. specialize (HZ ltac:(apply Forall_map, Forall_map, Forall_forall; intros i _; apply HC)).
      pose proof (blen_EncodeRLPBytes (default [] (ending 0 nodes))). unfold zsum in HB at 2. cbn [foldr] in HB. lia.
Qed.
End Sized.

(** ** What a proof against a built root can answer *)

Section Answers.
Context `{K : Keccak} {KL : KeccakLaws K}.

(** What the nodes on the path of a key allow: the exact answer; or a refusal, because a
    node below the first is short enough to be inlined in its parent, or because
    the proof lacks one; or a node of the proof that collides with one of them. *)
Definition proof_answer (proof onpath : list bytes) (ans : option bytes) (res : outcome proof_err (option bytes)) : Prop :=
  (exists v, res = Ok v /\ default [] v = default [] ans) \/
  (res = Err errInlineList /\ exists x, x ∈ tail onpath /\ (length x < 32)%nat) \/
  (res = Err ErrProofIncomplete /\ exists x, x ∈ onpath /\ x ∉ proof) \/ collision_in proof onpath.

Lemma proof_answer_below (proof onpath : list bytes) (top : bytes) (ans : option bytes) (res : outcome proof_err (option bytes)) :
  proof_answer proof onpath ans res -> proof_answer proof (top :: onpath) ans res.
Proof.
  intros [H|[[H (x & Hx & Hl)]|[[H (x & Hx & Hn)]|H]]]; [by left|right; left|right; right; left|right; right; right].
  - split; [done|]. exists x. split; [|done]. destruct onpath; [done|]. by right.
  - split; [done|]. exists x. split; [by right|done].
  - eapply collision_in_mono; [done| |exact H]. intros x Hx. by right.
Qed.

Lemma path_nodes_self (fuel : nat) (nodes : list triePath) (path : list Z) :
  exists below, path_nodes (S fuel) nodes path = encode_item (sub_item (S fuel) nodes) :: below.
Proof. by eexists. Qed.

Lemma walk_leaf (path p : list Z) (v : bytes) : nibble_path p ->
  walk_node path (RlpList [RlpBytes (packHexPrefix p true); RlpBytes v]) = Ok (inl (if bool_decide (p = path) then Some v else None)).
Proof.
  intros Hp. unfold walk_node. cbn [length Nat.eqb]. change (item_bytes (RlpBytes (packHexPrefix p true))) with (packHexPrefix p true).
  rewrite hexPrefix_pack by done. cbn [obind]. destruct (strip p path) as [r|] eqn:E.
  - apply strip_Some in E as ->. destruct r as [|c r].
    + rewrite app_nil_r, bool_decide_eq_true_2 by done. done.
    + rewrite bool_decide_eq_false_2; [done|]. intros H. apply (f_equal length) in H. rewrite length_app in H. cbn in H. lia.
  - rewrite bool_decide_eq_false_2; [done|]. intros ->. unfold strip in E.
    by rewrite firstn_all, bool_decide_eq_true_2, Nat.leb_refl in E.
Qed.

Lemma walk_extension (path q : list Z) (ref : rlpItem) : nibble_path q ->
  walk_node path (RlpList [RlpBytes (packHexPrefix q false); ref]) =
    match strip q path with None => Ok (inl None) | Some r => let? h := follow ref in Ok (inr (r, h)) end.
Proof.
  intros Hq. unfold walk_node. cbn [length Nat.eqb]. change (item_bytes (RlpBytes (packHexPrefix q false))) with (packHexPrefix q false).
  rewrite hexPrefix_pack by done. done.
Qed.

Lemma walk_branch (path : list Z) (f : Z -> rlpItem) (v : bytes) : nibble_path path ->
  walk_node path (RlpList (map f (seqZ 0 16) ++ [RlpBytes v])) =
    match path with
    | [] => Ok (inl (Some v))
    | c :: path =>
        if (length (item_bytes (f c)) =? 0)%nat && negb (IsList (f c)) then Ok (inl None)
        else let? ref := follow (f c) in Ok (inr (path, ref))
    end.
Proof.
  intros Hp. unfold walk_node. rewrite length_app, length_map, length_seqZ. cbn [length Nat.eqb Z.to_nat Nat.add].
  change (Pos.to_nat 16 + 1 =? 17)%nat with true. cbn iota. destruct path as [|c path].
  - rewrite lookup_app_r by (rewrite length_map, length_seqZ; done). by rewrite length_map, length_seqZ.
  - apply Forall_cons in Hp as [Hc _]. unfold nibble in Hc.
    rewrite lookup_app_l by (rewrite length_map, length_seqZ; lia). change (map f (seqZ 0 16)) with (f <$> seqZ 0 16).
    rewrite list_lookup_fmap, lookup_seqZ_lt by lia. cbn [fmap option_fmap option_map]. by rewrite Z2Nat.id, Z.add_0_l by lia.
Qed.

Lemma follow_ref_item (it : rlpItem) : IsList it = true ->
  (follow (ref_item it) = Err errInlineList /\ (length (encode_item it) < 32)%nat) \/
  (follow (ref_item it) = Ok (Keccak256 (encode_item it)) /\ length (item_bytes (ref_item it)) = 32%nat).
Proof.
  intros HL. unfold ref_item. destruct (Nat.ltb_spec (length (encode_item it)) 32); [left; split; [by destruct it|done]|right].
  destruct (Keccak256_array (encode_item it)) as [L _]. cbn [follow item_bytes item_Bytes default]. by rewrite L.
Qed.

Lemma walk_build (proof : list bytes) (fuel n : nat) (nodes : list triePath) (path : list Z) :
  nodes <> [] -> fuelled fuel nodes -> distinct nodes -> nodes_ok nodes -> nibble_path path -> (length path < n)%nat ->
  proof_answer proof (path_nodes fuel nodes path) (assoc path nodes)
    (walk n (index_nodes proof) path (Keccak256 (encode_item (sub_item fuel nodes)))).
Proof.
  revert fuel nodes path. induction n as [|n IH]; intros [|fuel] nodes path Hne HF HD HO HP Hn; [lia|lia| |].
  { destruct nodes; [done|]. apply Forall_cons in HF as [HF _]. lia. }
  destruct (sub_item_ok (S fuel) nodes Hne HF HO) as [Iok Ilen]. destruct (path_nodes_self fuel nodes path) as [below Epath].
  assert (encode_item (sub_item (S fuel) nodes) ∈ path_nodes (S fuel) nodes path) as Hself by (rewrite Epath; by left).
  cbn [walk]. destruct (index_nodes proof !! _) as [raw|] eqn:EL; cbn [of_option obind].
  2:{ right; right; left. split; [done|]. eexists. split; [exact Hself|]. intros HI. apply index_nodes_complete in HI as [? HI]. congruence. }
  apply index_nodes_sound in EL as [Hraw EK].
  destruct (keccak_same proof (path_nodes (S fuel) nodes path) _ _ _ Hraw Hself id EK) as [->|HC]; [|by right; right; right].
  rewrite DecodeRLP_of_item by done. cbn [rlp_invalid obind].
  assert (forall nodes' path', nodes' <> [] -> fuelled fuel nodes' -> distinct nodes' -> nodes_ok nodes' -> nibble_path path' ->
    (length path' < n)%nat -> below = path_nodes fuel nodes' path' -> assoc path' nodes' = assoc path nodes ->
    proof_answer proof (path_nodes (S fuel) nodes path) (assoc path nodes)
      (let? step := (let? ref := follow (ref_item (sub_item fuel nodes')) in Ok (inr (path', ref))) in
       match step with inl v => Ok v | inr (path, ref) => walk n (index_nodes proof) path ref end)) as HR.
  { intros nodes' path' H1 H2 H3 H4 H5 H6 H7 H8. destruct fuel as [|fuel].
    { destruct nodes'; [done|]. apply Forall_cons in H2 as [H2 _]. lia. }
    rewrite Epath. destruct (follow_ref_item (sub_item (S fuel) nodes') (sub_item_list fuel nodes' H1)) as [[-> HS]|[-> _]]; cbn [obind].
    { right; left. split; [done|]. eexists. split; [|exact HS]. rewrite H7. by left. }
    rewrite <- H8. apply proof_answer_below. rewrite H7. by apply IH. }
  destruct (node_shapes fuel nodes Hne HF) as [m -> ->|q Hq HS Hc Hf -> _ HPn|Hf -> _ HPn].
  - apply Forall_cons in HO as [(H1 & _) _]. rewrite walk_leaf by done. cbn [obind]. left. eexists. split; [done|].
    cbn [assoc]. by case_bool_decide.
  - destruct (all_start_nibbles q nodes Hne HO HS) as [N1 _]. rewrite walk_extension by done.
    specialize (HPn path). rewrite Epath in HPn. apply (f_equal tail) in HPn. cbn [tail] in HPn. destruct (strip q path) as [r|] eqn:ES.
    + apply strip_Some in ES as ->. apply Forall_app in HP as [_ HP].
      apply (HR (cut (length q) nodes) r); try done.
      * by apply distinct_cut.
      * by apply nodes_ok_cut.
      * rewrite length_app in Hn. destruct q; [done|]. cbn in Hn. lia.
      * symmetry. by apply assoc_start.
    + cbn [obind]. left. exists None. split; [done|]. by rewrite (assoc_diverges q).
  - rewrite walk_branch by done. specialize (HPn path). rewrite Epath in HPn. apply (f_equal tail) in HPn. cbn [tail] in HPn. destruct path as [|c path].
    + cbn [obind]. left. eexists. split; [done|]. cbn [default]. by rewrite assoc_ending.
    + apply Forall_cons in HP as [Hc HP]. unfold child_item. destruct (group 0 c nodes) as [|g gs] eqn:EG.
      * cbn. left. exists None. split; [done|]. by rewrite assoc_group, EG.
      * set (ns := cut 1 (g :: gs)). assert (ns = cut 1 (group 0 c nodes)) as En by (unfold ns; by rewrite EG).
        assert (fuelled fuel ns) as HFn by (rewrite En; apply Hf).
        assert ((length (item_bytes (ref_item (sub_item fuel ns))) =? 0)%nat && negb (IsList (ref_item (sub_item fuel ns))) = false) as ->.
        { destruct fuel as [|fuel]; [unfold fuelled, ns in HFn; apply Forall_cons in HFn as [HFn _]; lia|].
          pose proof (sub_item_list fuel ns ltac:(done)) as HL. unfold ref_item. destruct (_ <? 32)%nat; [by rewrite HL, andb_false_r|].
          destruct (Keccak256_array (encode_item (sub_item (S fuel) ns))) as [L _].
          change (item_bytes (RlpBytes ?b)) with b. by rewrite L. }
        apply (HR ns path); try done.
        -- rewrite En. by apply distinct_group.
        -- rewrite En. by apply nodes_ok_cut, nodes_ok_filter.
        -- cbn in Hn. lia.
        -- rewrite assoc_group. by f_equal.
Qed.

(** ** Two tries with one root *)

Lemma ref_item_same (a b : rlpItem) (xs ys : list bytes) : IsList a = true -> IsList b = true ->
  encode_item a ∈ xs -> encode_item b ∈ ys ->
  ref_item a = ref_item b -> encode_item a = encode_item b \/ collision_in xs ys.
Proof.
  intros Ha Hb Hx Hy. unfold ref_item. destruct (_ <? 32)%nat, (_ <? 32)%nat; intros H; subst; try done.
  - by left.
  - injection H as H. by apply (keccak_same xs ys _ _ _ Hx Hy id).
Qed.

Lemma map_app_inj {A : Type} (f g : Z -> A) (k : Z) (x y : A) :
  map f (seqZ 0 k) ++ [x] = map g (seqZ 0 k) ++ [y] -> (forall i, 0 <= i < k -> f i = g i) /\ x = y.
Proof.
  intros H. apply app_inj_1 in H as [H [= ->]]; [|by rewrite !length_map]. split; [|done]. intros i Hi.
  assert ((map f (seqZ 0 k)) !! Z.to_nat i = (map g (seqZ 0 k)) !! Z.to_nat i) as E by (by rewrite H).
  change (map f (seqZ 0 k)) with (f <$> seqZ 0 k) in E. change (map g (seqZ 0 k)) with (g <$> seqZ 0 k) in E.
  rewrite !list_lookup_fmap, lookup_seqZ_lt in E by lia. cbn [fmap option_fmap option_map] in E. rewrite Z.add_0_l, Z2Nat.id in E by lia. by injection E.
Qed.

Lemma RlpList_inj (a b : list rlpItem) : RlpList a = RlpList b -> a = b.
Proof. congruence. Qed.

(** Where two tries hold the same. *)
Definition same_contents (nodes nodes' : list triePath) : Prop :=
  forall p, nibble_path p -> default [] (assoc p nodes) = default [] (assoc p nodes').

Lemma packed_inj (p q : list Z) (b c : bool) : nibble_path p -> nibble_path q -> packHexPrefix p b = packHexPrefix q c -> p = q /\ b = c.
Proof.
  intros Hp Hq E. apply (f_equal hexPrefix) in E. rewrite !hexPrefix_pack in E by done. by injection E.
Qed.

Lemma same_encoding (f f' : nat) (nodes nodes' : list triePath) :
  nodes <> [] -> nodes' <> [] -> fuelled f nodes -> fuelled f' nodes' -> distinct nodes -> distinct nodes' ->
  nodes_ok nodes -> nodes_ok nodes' -> encode_item (sub_item f nodes) = encode_item (sub_item f' nodes') ->
  same_contents nodes nodes' \/ collision_in (sub_nodes f nodes) (sub_nodes f' nodes').
Proof.
  revert f' nodes nodes'. induction f as [|f IH]; intros [|f'] nodes nodes' Hne Hne' HF HF' HD HD' HO HO' E.
  1,2: destruct nodes; [done|]; apply Forall_cons in HF as [HF _]; lia.
  1: destruct nodes'; [done|]; apply Forall_cons in HF' as [HF' _]; lia.
  destruct (sub_item_ok _ _ Hne HF HO) as [I1 I2]. destruct (sub_item_ok _ _ Hne' HF' HO') as [I1' _].
  apply encode_item_inj in E; [|done..].
  assert (forall ns ns', ns <> [] -> ns' <> [] -> fuelled f ns -> fuelled f' ns' -> distinct ns -> distinct ns' -> nodes_ok ns -> nodes_ok ns' ->
    sub_nodes f ns ⊆ sub_nodes (S f) nodes -> sub_nodes f' ns' ⊆ sub_nodes (S f') nodes' ->
    ref_item (sub_item f ns) = ref_item (sub_item f' ns') ->
    same_contents ns ns' \/ collision_in (sub_nodes (S f) nodes) (sub_nodes (S f') nodes')) as HR.
  { intros ns ns' H1 H1' H2 H2' H3 H3' H4 H4' H5 H5' HRf.
    destruct f as [|f0]; [destruct ns; [done|]; apply Forall_cons in H2 as [H2 _]; lia|].
    destruct f' as [|f0']; [destruct ns'; [done|]; apply Forall_cons in H2' as [H2' _]; lia|].
    assert (encode_item (sub_item (S f0) ns) = encode_item (sub_item (S f0') ns') \/ collision_in (sub_nodes (S f0) ns) (sub_nodes (S f0') ns')) as [HE|HC].
    { eapply ref_item_same; [by apply sub_item_list..|by left|by left|done]. }
    - destruct (IH (S f0') ns ns' H1 H1' H2 H2' H3 H3' H4 H4' HE) as [?|HC]; [by left|right]. by eapply collision_in_mono.
    - right. by eapply collision_in_mono. }
  destruct (node_shapes f nodes Hne HF) as [m Em EI|q Hq HS Hc Hf EI Hsub _|Hf EI Hsub _],
    (node_shapes f' nodes' Hne' HF') as [m' Em' EI'|q' Hq' HS' Hc' Hf' EI' Hsub' _|Hf' EI' Hsub' _]; rewrite EI, EI' in E.
  - subst nodes nodes'. injection E as E1 E2. left. apply Forall_cons in HO as [(H1 & _) _]. apply Forall_cons in HO' as [(H1' & _) _].
    apply packed_inj in E1 as [E1 _]; [|done..]. intros p _. cbn [assoc]. by rewrite E1, E2.
  - subst nodes. injection E as E1 _. apply Forall_cons in HO as [(H1 & _) _]. destruct (all_start_nibbles q' nodes' Hne' HO' HS') as [N' _].
    by apply packed_inj in E1 as [_ ?].
  - apply (f_equal (fun it => match it with RlpList l => length l | _ => 0%nat end)) in E. rewrite length_app, length_map, length_seqZ in E. done.
  - subst nodes'. injection E as E1 _. apply Forall_cons in HO' as [(H1 & _) _]. destruct (all_start_nibbles q nodes Hne HO HS) as [N' _].
    by apply packed_inj in E1 as [_ ?].
  - injection E as E1 E2. destruct (all_start_nibbles q nodes Hne HO HS) as [N _]. destruct (all_start_nibbles q' nodes' Hne' HO' HS') as [N' _].
    apply packed_inj in E1 as [<- _]; [|done..].
    destruct (HR (cut (length q) nodes) (cut (length q) nodes')) as [HI|?]; try done; [by apply distinct_cut|by apply distinct_cut|by apply nodes_ok_cut|by apply nodes_ok_cut| |by right].
    left. intros p Hp. destruct (strip q p) as [r|] eqn:ES.
    + apply strip_Some in ES as ->. rewrite !assoc_start by done. apply HI. by apply Forall_app in Hp as [_ Hp].
    + by rewrite !(assoc_diverges q).
  - apply (f_equal (fun it => match it with RlpList l => length l | _ => 0%nat end)) in E. rewrite length_app, length_map, length_seqZ in E. done.
  - apply (f_equal (fun it => match it with RlpList l => length l | _ => 0%nat end)) in E. rewrite length_app, length_map, length_seqZ in E. done.
  - apply (f_equal (fun it => match it with RlpList l => length l | _ => 0%nat end)) in E. rewrite length_app, length_map, length_seqZ in E. done.
  - apply RlpList_inj in E. apply map_app_inj in E as [EC EV]. injection EV as EV.
    assert (forall i, nibble i -> same_contents (cut 1 (group 0 i nodes)) (cut 1 (group 0 i nodes')) \/
      collision_in (sub_nodes (S f) nodes) (sub_nodes (S f') nodes')) as HG.
    { intros i Hi. specialize (EC i Hi). specialize (Hsub i Hi). specialize (Hsub' i Hi). specialize (Hf i). specialize (Hf' i).
      pose proof (distinct_group i nodes HD) as D. pose proof (distinct_group i nodes' HD') as D'.
      pose proof (nodes_ok_cut 1 _ (nodes_ok_filter (fun n => tp_path n !! 0%nat = Some i) nodes HO)) as O.
      pose proof (nodes_ok_cut 1 _ (nodes_ok_filter (fun n => tp_path n !! 0%nat = Some i) nodes' HO')) as O'.
      change (filter (fun n => tp_path n !! 0%nat = Some i) nodes) with (group 0 i nodes) in O.
      change (filter (fun n => tp_path n !! 0%nat = Some i) nodes') with (group 0 i nodes') in O'.
      unfold child_item, child_nodes in *. destruct (group 0 i nodes) as [|g gs], (group 0 i nodes') as [|g' gs'].
      - left. by intros p _.
      - exfalso. destruct f' as [|f0']; [apply Forall_cons in Hf' as [Hf' _]; lia|].
        destruct (follow_ref_item (sub_item (S f0') (cut 1 (g' :: gs'))) (sub_item_list f0' (cut 1 (g' :: gs')) ltac:(done))) as [[HX _]|[_ HX]]; by rewrite <- EC in HX.
      - exfalso. destruct f as [|f0]; [apply Forall_cons in Hf as [Hf _]; lia|].
        destruct (follow_ref_item (sub_item (S f0) (cut 1 (g :: gs))) (sub_item_list f0 (cut 1 (g :: gs)) ltac:(done))) as [[HX _]|[_ HX]]; by rewrite EC in HX.
      - by apply HR. }
    assert ((forall i, nibble i -> same_contents (cut 1 (group 0 i nodes)) (cut 1 (group 0 i nodes'))) \/
      collision_in (sub_nodes (S f) nodes) (sub_nodes (S f') nodes')) as [HA|?]; [|left|by right].
    { clear - HG. assert (forall k, (k <= 16)%nat -> (forall i, 0 <= i < Z.of_nat k -> same_contents (cut 1 (group 0 i nodes)) (cut 1 (group 0 i nodes'))) \/
        collision_in (sub_nodes (S f) nodes) (sub_nodes (S f') nodes')) as HK; [|by destruct (HK 16%nat) as [?|?]; [lia|left|right]].
      induction k as [|k IHk]; intros Hk; [left; intros; lia|]. destruct IHk as [HI|?]; [lia| |by right].
      destruct (HG (Z.of_nat k)) as [HX|?]; [unfold nibble; lia| |by right]. left. intros i Hi.
      destruct (decide (i = Z.of_nat k)) as [->|]; [done|]. apply HI. lia. }
    intros [|i p] Hp; [by rewrite <- !assoc_ending by done|]. apply Forall_cons in Hp as [Hi Hp]. rewrite !assoc_group. by apply HA.
Qed.
End Answers.

(** ** Entries *)

Definition entry_path (e : TrieEntry) : triePath := mkTriePath (nibbles (te_Key e)) (te_Value e).
Definition entry_ok (e : TrieEntry) : Prop :=
  bytes_ok (te_Key e) /\ bytes_ok (te_Value e) /\ blen (te_Key e) < 2 ^ 49 /\ blen (te_Value e) < 2 ^ 50.
(** Keys given once, and the sizes of anything that fits in memory. *)
Record entries_ok (entries : list TrieEntry) : Prop := {
  eo_distinct : NoDup (map te_Key entries);
  eo_sizes : Forall entry_ok entries
}.

Fixpoint value_of_key (key : bytes) (entries : list TrieEntry) : option bytes :=
  match entries with
  | [] => None
  | e :: entries => if bool_decide (te_Key e = key) then Some (te_Value e) else value_of_key key entries
  end.

#[export] Instance path_le_total : Total path_le.
Proof. intros x y. unfold path_le. destruct (bytes_ltb (tp_path y) (tp_path x)) eqn:E; [right; by apply bytes_ltb_asym|by left]. Qed.
#[export] Instance path_le_trans : Transitive path_le.
Proof.
  intros x y z. unfold path_le. intros H1 H2. destruct (bytes_ltb (tp_path z) (tp_path x)) eqn:E; [|done].
  destruct (bytes_ltb (tp_path x) (tp_path y)) eqn:E'.
  - pose proof (bytes_ltb_trans _ _ _ E E'). congruence.
  - pose proof (bytes_ltb_total _ _ H1 E') as EH. rewrite <- EH in E. congruence.
Qed.

Lemma trie_paths_perm (entries : list TrieEntry) : trie_paths entries ≡ₚ map entry_path entries.
Proof. apply merge_sort_Permutation. Qed.

Lemma trie_paths_nil (entries : list TrieEntry) : entries <> [] -> trie_paths entries <> [].
Proof. intros H E. pose proof (trie_paths_perm entries) as P. rewrite E in P. apply Permutation_nil_l in P. by destruct entries. Qed.

Lemma trie_paths_distinct (entries : list TrieEntry) : NoDup (map te_Key entries) -> distinct (trie_paths entries).
Proof.
  intros H. unfold distinct. change (map tp_path (trie_paths entries)) with (tp_path <$> trie_paths entries). rewrite trie_paths_perm.
  change (tp_path <$> map entry_path entries) with (map tp_path (map entry_path entries)). rewrite map_map. cbn [entry_path tp_path].
  rewrite <- (map_map te_Key nibbles). apply NoDup_fmap_2; [|done]. intros x y. apply nibbles_inj.
Qed.

Lemma trie_paths_ok (entries : list TrieEntry) : Forall entry_ok entries -> nodes_ok (trie_paths entries).
Proof.
  intros H. unfold nodes_ok. rewrite trie_paths_perm. apply Forall_map. eapply Forall_impl; [exact H|]. intros e (H1 & H2 & H3 & H4).
  unfold node_ok, compose. cbn [entry_path tp_path tp_value]. split; [by apply nibbles_ok|]. split; [done|]. split; [|done].
  unfold blen in *. rewrite length_nibbles. lia.
Qed.

Lemma path_fuel_enough (nodes : list triePath) : fuelled (path_fuel nodes) nodes.
Proof.
  unfold fuelled, path_fuel. apply Forall_forall. intros n Hn. apply Nat.lt_succ_r, max_list_elem_of_le.
  change (map (fun n => length (tp_path n)) nodes) with ((fun n => length (tp_path n)) <$> nodes). by apply (list_elem_of_fmap_2 (fun n => length (tp_path n))).
Qed.

Lemma entry_path_inj (e e' : TrieEntry) : entry_path e = entry_path e' -> e = e'.
Proof. destruct e, e'. unfold entry_path. cbn [te_Key te_Value]. intros [= H ->]. by apply nibbles_inj in H as ->. Qed.

Lemma assoc_entries (key : bytes) (entries : list TrieEntry) : NoDup (map te_Key entries) ->
  assoc (nibbles key) (trie_paths entries) = value_of_key key entries.
Proof.
  intros HD. destruct (value_of_key key entries) as [v|] eqn:E.
  - apply assoc_elem; [by apply trie_paths_distinct|]. rewrite trie_paths_perm.
    enough (mkTrieEntry key v ∈ entries) as HI by by apply (list_elem_of_fmap_2 entry_path _ _ HI). clear HD.
    induction entries as [|e entries IH]; [done|]. cbn [value_of_key] in E. case_bool_decide as Ek; [|right; auto].
    injection E as <-. subst key. replace (mkTrieEntry (te_Key e) (te_Value e)) with e by (by destruct e). by left.
  - destruct (assoc _ _) as [v|] eqn:EA; [exfalso|done]. apply assoc_Some in EA. rewrite trie_paths_perm in EA.
    apply list_elem_of_fmap in EA as (e & Ee & He). change (mkTriePath (nibbles key) v) with (entry_path (mkTrieEntry key v)) in Ee.
    apply entry_path_inj in Ee as <-. clear HD. induction entries as [|e entries IH]; [by apply elem_of_nil in He|].
    cbn [value_of_key] in E. case_bool_decide as Ek; [done|]. apply elem_of_cons in He as [<-|He]; [done|auto].
Qed.

Section Roots.
Context `{K : Keccak} {KL : KeccakLaws K}.

(** The nodes of the trie of these entries: what their root commits to. *)
Definition trie_nodes (entries : list TrieEntry) : list bytes :=
  match entries with [] => [[0x80]] | _ => let nodes := trie_paths entries in sub_nodes (path_fuel nodes) nodes end.

Lemma BuildMPT_item (entries : list TrieEntry) : entries <> [] ->
  BuildMPT entries = Keccak256 (encode_item (sub_item (path_fuel (trie_paths entries)) (trie_paths entries))).
Proof.
  intros H. transitivity (Keccak256 (encodeTrieSubtree (path_fuel (trie_paths entries)) (trie_paths entries) 0)); [by destruct entries|].
  rewrite encodeTrieSubtree_item, cut_0; [done|by apply trie_paths_nil|apply Forall_true; intros; lia|rewrite cut_0; apply path_fuel_enough].
Qed.

(** The nodes of the trie on the path of this key, the root first. *)
Definition key_nodes (entries : list TrieEntry) (key : bytes) : list bytes :=
  let nodes := trie_paths entries in path_nodes (path_fuel nodes) nodes (nibbles (Keccak256 key)).
(** None of the nodes below the first is short enough to be inlined in its parent. *)
Definition none_inlined (onpath : list bytes) : Prop := Forall (fun x => (32 <= length x)%nat) (tail onpath).

Lemma proof_answer_exact (proof onpath : list bytes) (ans : option bytes) (res : outcome proof_err (option bytes)) :
  proof_answer proof onpath ans res -> onpath ⊆ proof -> none_inlined onpath -> ~ collision_in proof onpath ->
  exists v, res = Ok v /\ default [] v = default [] ans.
Proof.
  intros [H|[[_ (x & Hx & Hl)]|[[_ (x & Hx & Hn)]|H]]] Hall Hin Hno; [done|exfalso..]; [|by apply Hn, Hall|done].
  pose proof (proj1 (Forall_forall _ _) Hin x Hx). cbn in *. lia.
Qed.

(** C19. What a proof can say against a root built from entries with distinct keys, whatever nodes
    a provider sends: [VerifyProof] either gives the exact value of the key among the entries - or
    its absence - or refuses, because a node of the trie on the path of the key is inlined in its
    parent or because the proof lacks a node of that path; any other answer exhibits a node of the
    proof that collides with one of them.  And the answer is the exact one whenever the proof has the nodes
    on the path, none of them is inlined and none of the proof collides with one, whatever else
    the proof holds. *)
Theorem proof_against_built_root (entries : list TrieEntry) (key : bytes) (proof : list bytes)
    (Hok : entries_ok entries) (Hne : entries <> []) :
  let res := VerifyProof (BuildMPT entries) key proof in
  let onpath := key_nodes entries key in
  proof_answer proof onpath (value_of_key (Keccak256 key) entries) res /\
  (onpath ⊆ proof -> none_inlined onpath -> ~ collision_in proof onpath ->
    exists v, res = Ok v /\ default [] v = default [] (value_of_key (Keccak256 key) entries)).
Proof.
  intros res onpath. assert (proof_answer proof onpath (value_of_key (Keccak256 key) entries) res) as HA; [|split; [exact HA|by apply proof_answer_exact]].
  subst res onpath. destruct Hok as [HD HS]. destruct (Keccak256_array key) as [Lk Ok]. unfold VerifyProof. rewrite BuildMPT_item by done.
  destruct (Keccak256_array (encode_item (sub_item (path_fuel (trie_paths entries)) (trie_paths entries)))) as [L _]. rewrite L. cbn [Nat.eqb negb guard_err].
  rewrite <- (assoc_entries (Keccak256 key)) by done.
  apply walk_build; [by apply trie_paths_nil|apply path_fuel_enough|by apply trie_paths_distinct|by apply trie_paths_ok|by apply nibbles_ok|].
  rewrite length_nibbles, Lk. lia.
Qed.

Lemma root_same_set (entries entries' : list TrieEntry) (Hok : entries_ok entries) (Hok' : entries_ok entries')
    (Hv : Forall (fun e => te_Value e <> []) entries) (Hv' : Forall (fun e => te_Value e <> []) entries')
    (H : BuildMPT entries = BuildMPT entries') :
  entries ≡ₚ entries' \/ collision_in (trie_nodes entries) (trie_nodes entries').
Proof.
  destruct Hok as [HD HS], Hok' as [HD' HS'].
  assert (forall es, es <> [] -> Forall entry_ok es -> [0x80] <> encode_item (sub_item (path_fuel (trie_paths es)) (trie_paths es))) as HE.
  { intros es He Hs E. pose proof (path_fuel_enough (trie_paths es)) as HF.
    destruct (sub_item_ok _ _ (trie_paths_nil _ He) HF (trie_paths_ok _ Hs)) as [I1 I2].
    apply (encode_item_inj (RlpBytes [])) in E; [|by apply Forall_nil_2|done|reflexivity].
    pose proof (sub_item_list (max_list (map (fun n => length (tp_path n)) (trie_paths es))) _ (trie_paths_nil _ He)) as HL.
    change (S (max_list (map (fun n => length (tp_path n)) (trie_paths es)))) with (path_fuel (trie_paths es)) in HL. by rewrite <- E in HL. }
  destruct (decide (entries = [])) as [->|Hne], (decide (entries' = [])) as [->|Hne']; [by left| | |].
  - right. rewrite (BuildMPT_item entries') in H by done. exists [0x80]. eexists. split; [by left|].
    split; [destruct entries'; [done|by left]|]. by split; [apply HE|].
  - right. rewrite (BuildMPT_item entries) in H by done. apply collision_in_sym. exists [0x80]. eexists. split; [by left|].
    split; [destruct entries; [done|by left]|]. by split; [apply HE|symmetry].
  - rewrite !BuildMPT_item in H by done.
    replace (trie_nodes entries) with (sub_nodes (path_fuel (trie_paths entries)) (trie_paths entries)) by (by destruct entries).
    replace (trie_nodes entries') with (sub_nodes (path_fuel (trie_paths entries')) (trie_paths entries')) by (by destruct entries').
    apply (keccak_same (sub_nodes (path_fuel (trie_paths entries)) (trie_paths entries)) (sub_nodes (path_fuel (trie_paths entries')) (trie_paths entries')) _ _ _
      (sub_node_self _ _) (sub_node_self _ _) id) in H as [H|?]; [|by right].
    apply same_encoding in H as [H|?]; [left|by right|by apply trie_paths_nil|by apply trie_paths_nil|apply path_fuel_enough|apply path_fuel_enough|
      by apply trie_paths_distinct|by apply trie_paths_distinct|by apply trie_paths_ok|by apply trie_paths_ok].
    assert (forall es es', NoDup (map te_Key es) -> NoDup (map te_Key es') -> Forall entry_ok es -> Forall (fun e => te_Value e <> []) es ->
      same_contents (trie_paths es) (trie_paths es') -> forall e, e ∈ es -> e ∈ es') as HI.
    { intros es es' D D' S V C e He. pose proof (proj1 (Forall_forall _ _) V e He) as Ve. pose proof (proj1 (Forall_forall _ _) S e He) as (Se & _).
      specialize (C (nibbles (te_Key e)) (nibbles_ok _ Se)).
      assert (assoc (nibbles (te_Key e)) (trie_paths es) = Some (te_Value e)) as EA.
      { apply assoc_elem; [by apply trie_paths_distinct|]. rewrite trie_paths_perm. by apply (list_elem_of_fmap_2 entry_path). }
      rewrite EA in C. destruct (assoc (nibbles (te_Key e)) (trie_paths es')) as [v|] eqn:EA'; [|done].
      change (te_Value e = v) in C. subst v. apply assoc_Some in EA'. rewrite trie_paths_perm in EA'.
      apply list_elem_of_fmap in EA' as (e' & Ee & He'). change (mkTriePath (nibbles (te_Key e)) (te_Value e)) with (entry_path e) in Ee.
      by apply entry_path_inj in Ee as ->. }
    assert (same_contents (trie_paths entries') (trie_paths entries)) as H' by (intros p Hp; symmetry; by apply H).
    apply NoDup_Permutation; [by eapply NoDup_fmap_1|by eapply NoDup_fmap_1|]. intros e. split; by apply HI.
Qed.

(** A root commits to the whole set: two complete sets of entries with one root
    are the same set - nothing omitted, added or altered - or a node of one trie
    collides with a node of the other. *)
Theorem root_binds_entries (entries entries' : list TrieEntry) (Hok : entries_ok entries) (Hok' : entries_ok entries')
    (Hv : Forall (fun e => te_Value e <> []) entries) (Hv' : Forall (fun e => te_Value e <> []) entries')
    (H : BuildMPT entries = BuildMPT entries') :
  entries ≡ₚ entries' \/ collision_in (trie_nodes entries) (trie_nodes entries').
Proof. by apply root_same_set. Qed.

(** The root does not depend on the order the entries come in. *)
Theorem root_order_free (entries entries' : list TrieEntry) (HD : NoDup (map te_Key entries)) (HP : entries ≡ₚ entries') :
  BuildMPT entries = BuildMPT entries'.
Proof.
  assert (trie_paths entries = trie_paths entries') as E.
  { apply (StronglySorted_unique_strong path_le).
    - intros x y Hx Hy H1 H2. pose proof (bytes_ltb_total _ _ H2 H1) as EP. pose proof (trie_paths_distinct entries HD) as DD.
      assert (y ∈ trie_paths entries) as Hy'. { rewrite trie_paths_perm, HP, <- trie_paths_perm. done. }
      destruct x as [p v], y as [q w]. cbn [tp_path] in EP. subst q. apply (assoc_elem p v) in Hx; [|done]. apply (assoc_elem p w) in Hy'; [|done]. congruence.
    - apply (StronglySorted_merge_sort path_le).
    - apply (StronglySorted_merge_sort path_le).
    - by rewrite !trie_paths_perm, HP. }
  destruct entries as [|e es], entries' as [|e' es']; [done|by apply Permutation_nil_l in HP|by apply Permutation_nil_r in HP|].
  unfold BuildMPT. by rewrite E.
Qed.

(** A trie with nothing in it proves no absence: against the root of an empty trie
    no proof is ever accepted, so a slot of an account without storage reads as an
    error, not as unwritten. *)
Theorem empty_root_proves_nothing (key : bytes) (proof : list bytes) (v : option bytes)
    (H : VerifyProof (BuildMPT []) key proof = Ok v) : collision_in proof [[0x80]].
Proof.
  unfold VerifyProof in H. apply guard_err_ok in H as [_ H]. cbn [walk] in H. apply obind_ok in H as (raw & Hr & H).
  destruct (index_nodes proof !! _) as [r|] eqn:E; [|done]. injection Hr as ->. apply index_nodes_sound in E as [HI HK].
  destruct (decide (raw = [0x80])) as [->|Hn]; [discriminate H|]. exists raw, [0x80]. split; [done|]. split; [by left|]. by split.
Qed.

Lemma twin_subtree (fuel : nat) (p : list Z) (v v' w : bytes) (d : nat) :
  encodeTrieSubtree fuel [mkTriePath p v; mkTriePath p w] d = encodeTrieSubtree fuel [mkTriePath p v'; mkTriePath p w] d.
Proof.
  revert d. induction fuel as [|fuel IH]; intros d; [done|]. cbn [encodeTrieSubtree tp_path].
  destruct (d <? _)%nat; [by rewrite IH|]. f_equal. f_equal.
  - apply map_ext. intros i. unfold group. rewrite !filter_cons, !filter_nil. cbn [tp_path]. destruct (decide (p !! d = Some i)); [by rewrite IH|done].
  - unfold ending. rewrite !filter_cons, !filter_nil. cbn [tp_path]. by destruct (decide (length p = d)).
Qed.

(** Two entries with one key are merged: the root depends on one of the two
    values only. *)
Theorem duplicate_keys_merged (k v v' w : bytes) :
  BuildMPT [mkTrieEntry k v; mkTrieEntry k w] = BuildMPT [mkTrieEntry k v'; mkTrieEntry k w].
Proof.
  assert (forall v, trie_paths [mkTrieEntry k v; mkTrieEntry k w] = [mkTriePath (nibbles k) v; mkTriePath (nibbles k) w]) as E.
  { intros u. unfold trie_paths, merge_sort. cbn. rewrite decide_True; [done|]. apply bytes_ltb_irrefl. }
  unfold BuildMPT. rewrite !E. f_equal. apply twin_subtree.
Qed.
End Roots.

(** ** Witnesses *)

Definition toy_entries : list TrieEntry :=
  map (fun i => mkTrieEntry (Keccak256 [i]) (replicate 33 i)) [1; 2; 3; 4; 5].
Lemma toy_entries_ok : entries_ok toy_entries.
Proof.
  split; [apply (bool_decide_unpack _); vm_compute; exact I|].
  unfold toy_entries. apply Forall_map, Forall_forall. intros i Hi. unfold entry_ok, compose. cbn [te_Key te_Value].
  destruct (Keccak256_array [i]) as [L O]. unfold blen. rewrite L, length_replicate. split; [exact O|]. split; [|split; reflexivity].
  apply Forall_replicate. unfold byte_ok. assert (Forall (fun i => 0 <= i < 256) [1; 2; 3; 4; 5]) as HF by (repeat constructor; lia).
  by apply (proj1 (Forall_forall _ _) HF).
Qed.
Lemma toy_entries_nonempty : toy_entries <> [].
Proof. discriminate. Qed.

(** On the whole trie, the exact answers. *)
Example toy_proof_found : VerifyProof (BuildMPT toy_entries) [3] (trie_nodes toy_entries) = Ok (Some (replicate 33 3)).
Proof. vm_compute. reflexivity. Qed.
Example toy_proof_absent : VerifyProof (BuildMPT toy_entries) [9] (trie_nodes toy_entries) = Ok None.
Proof. vm_compute. reflexivity. Qed.

Lemma proof_against_built_root_witness :
  (length (key_nodes toy_entries [3]) <> length (trie_nodes toy_entries)) /\
  (collision_in (key_nodes toy_entries [3]) (key_nodes toy_entries [3]) \/
   exists v, VerifyProof (BuildMPT toy_entries) [3] (key_nodes toy_entries [3]) = Ok v /\ default [] v = replicate 33 3).
Proof.
  split; [vm_compute; discriminate|].
  destruct (proj1 (proof_against_built_root toy_entries [3] (key_nodes toy_entries [3]) toy_entries_ok toy_entries_nonempty))
    as [H|[[_ (x & Hx & Hl)]|[[_ (x & Hx & Hn)]|H]]]; [by right|exfalso|by exfalso|by left].
  assert (Forall (fun x => 32 <= length x)%nat (tail (key_nodes toy_entries [3]))) as HF by (apply (bool_decide_unpack _); vm_compute; exact I).
  pose proof (proj1 (Forall_forall _ _) HF x Hx). cbn in *. lia.
Defined.

Lemma toy_values_nonempty : Forall (fun e => te_Value e <> []) toy_entries.
Proof. repeat constructor; discriminate. Qed.
Lemma root_binds_entries_witness : toy_entries ≡ₚ toy_entries \/ collision_in (trie_nodes toy_entries) (trie_nodes toy_entries).
Proof. exact (root_binds_entries toy_entries toy_entries toy_entries_ok toy_entries_ok toy_values_nonempty toy_values_nonempty eq_refl). Defined.

Lemma root_order_free_witness : BuildMPT toy_entries = BuildMPT (reverse toy_entries).
Proof. apply (root_order_free toy_entries (reverse toy_entries) (eo_distinct _ toy_entries_ok)). by rewrite reverse_Permutation. Defined.
