(* ===== verification/EthEvidence.v ===== *)
(** * Verified reads and stored evidence ([internal/ethproof/client.go], [evidence.go])

    A read walks header, account proof and storage proofs; a record of evidence
    carries the proofs with the values, and is verified again whenever it is
    read.  The RPC's answers, sealing, JSON and the backend are arguments.
    [Elapsed] and the metrics of the store are not modelled. *)
From S2P Require Import Prelude.
From S2P Require Import RecordUpdate.
From S2P Require Import GoBytes.
From S2P Require Import Rlp.
From S2P Require Import EthProof.
From Stdlib Require Import Ascii.
From Stdlib Require String.
Import String.StringSyntax.

Inductive evidence_err : Type :=
| ErrNotVerified | ErrEvidenceMalformed | ErrNotConfigured
| ErrHex | ErrNotAddress | ErrRpc
| ErrProof (e : proof_err)
| ErrBackend | ErrSeal | ErrMarshal.

Definition proof_of {A : Type} (m : outcome proof_err A) : outcome evidence_err A :=
  match m with Ok a => Ok a | Err e => Err (ErrProof e) | Panic => Panic end.
(** [fmt.Errorf("%w: ...", ErrEvidenceMalformed)] on any error. *)
Definition malformed {A : Type} (m : outcome evidence_err A) : outcome evidence_err A :=
  match m with Ok a => Ok a | Err _ => Err ErrEvidenceMalformed | Panic => Panic end.

(** ** Hexadecimal *)

Definition trim_prefix (x : ascii) (s : string) : string :=
  match s with
  | String.String c0 (String.String c1 r) => if Ascii.eqb c0 "0" && Ascii.eqb c1 x then r else s
  | _ => s
  end.
Definition strip0x (s : string) : string := trim_prefix "X" (trim_prefix "x" s).

Definition decodeHexBytes (s : string) : outcome evidence_err bytes :=
  let t := strip0x s in
  let t := if Nat.odd (String.length t) then String.String "0" t else t in
  of_option ErrHex (hex_decode t).

Definition decodeHex32 (s : string) : outcome evidence_err bytes :=
  let? raw := decodeHexBytes s in
  fail? negb (length raw =? 32)%nat with ErrHex ;;
  Ok raw.

Definition decodeHexPadded32 (s : string) : outcome evidence_err bytes :=
  let? raw := decodeHexBytes s in
  fail? (32 <? length raw)%nat with ErrHex ;;
  Ok (zeros (32 - length raw) ++ raw).

(** The nodes, and the sum of their lengths. *)
Fixpoint decodeNodes (hexNodes : list string) : outcome evidence_err (list bytes * Z) :=
  match hexNodes with
  | [] => Ok ([], 0)
  | h :: rest =>
      let? raw := decodeHexBytes h in
      let? (nodes, total) := decodeNodes rest in
      Ok (raw :: nodes, blen raw + total)
  end.

Definition hex32 (b : bytes) : string := String.append "0x" (hex_encode b).

(** ** Verified reads *)

Record BlockHeader : Type := mkBlockHeader {
  bh_Number : string; bh_Hash : string; bh_ParentHash : string; bh_StateRoot : string
}.
Record StorageProof : Type := mkStorageProof { sp_Value : string; sp_Proof : list string }.
Record ProofResult : Type := mkProofResult {
  pr_AccountProof : list string; pr_StorageHash : string; pr_StorageProof : list StorageProof
}.
Record SlotMeasurement : Type := mkSlotMeasurement {
  sm_Slot : bytes; sm_Value : bytes; sm_Claimed : bytes; sm_Agrees : bool; sm_Absent : bool; sm_Nodes : Z; sm_ProofLen : Z
}.
Record Measurement : Type := mkMeasurement {
  me_Address : string; me_StateRoot : string; me_AccountVerified : bool; me_StorageRoot : bytes;
  me_ClaimedStorage : bytes; me_StorageRootAgree : bool; me_AccountNodes : Z; me_AccountProofLen : Z;
  me_Slots : list SlotMeasurement
}.

Definition TotalBytes (m : Measurement) : Z := me_AccountProofLen m + zsum (map sm_ProofLen (me_Slots m)).

Section Reads.
Context `{K : Keccak}.

(** From the state root to the storage root of an account. *)
Definition account_root (stateRoot address : bytes) (nodes : list bytes) : outcome evidence_err bytes :=
  let? accountRLP := proof_of (VerifyProof stateRoot address nodes) in
  proof_of (AccountStorageRoot (default [] accountRLP)).

(** One slot: what its proof commits to. *)
Definition read_slot (storageRoot slot : bytes) (nodes : list bytes) : outcome evidence_err (bytes * bool) :=
  let? raw := proof_of (VerifyProof storageRoot slot nodes) in
  let? value := proof_of (DecodeSlotValue (default [] raw)) in
  Ok (value, bool_decide (raw = None)).

(** The loop over [proof.StorageProof]; [slots] are those of index [i] on. *)
Fixpoint read_slots (storageRoot : bytes) (slots : list bytes) (proofs : list StorageProof) {struct proofs} : outcome evidence_err (list SlotMeasurement) :=
  match proofs with
  | [] => Ok []
  | sp :: proofs =>
      let? (nodes, len) := decodeNodes (sp_Proof sp) in
      match slots with
      | [] => Panic   (* slots[i] is out of range *)
      | slot :: slots =>
          let? (value, absent) := read_slot storageRoot slot nodes in
          let claimed := match decodeHexPadded32 (sp_Value sp) with Ok c => Some c | _ => None end in
          let m := mkSlotMeasurement slot value (default (zeros 32) claimed) (bool_decide (claimed = Some value)) absent
                     (Z.of_nat (length nodes)) len in
          let? rest := read_slots storageRoot slots proofs in
          Ok (m :: rest)
      end
  end.

(** [header] and [proof] are what the RPC answered. *)
Definition VerifiedRead (header : outcome evidence_err BlockHeader) (proof : string -> outcome evidence_err ProofResult)
    (address : string) (slots : list bytes) : outcome evidence_err Measurement :=
  let? header := header in
  let? proof := proof (bh_Number header) in
  let? stateRoot := decodeHex32 (bh_StateRoot header) in
  let? addrBytes := match decodeHexBytes address with Ok a => Ok a | Err _ => Err ErrNotAddress | Panic => Panic end in
  fail? negb (length addrBytes =? 20)%nat with ErrNotAddress ;;
  let? (accountNodes, accountLen) := decodeNodes (pr_AccountProof proof) in
  let? storageRoot := account_root stateRoot addrBytes accountNodes in
  let claimed := match decodeHex32 (pr_StorageHash proof) with Ok c => Some c | _ => None end in
  let? slots := read_slots storageRoot slots (pr_StorageProof proof) in
  Ok (mkMeasurement address (bh_StateRoot header) true storageRoot (default (zeros 32) claimed) (bool_decide (claimed = Some storageRoot))
        (Z.of_nat (length accountNodes)) accountLen slots).

(** ** Evidence *)

Record Evidence : Type := mkEvidence {
  ev_ChainID : Z; ev_BlockNumber : Z; ev_BlockHash : string; ev_ParentHash : string; ev_StateRoot : string;
  ev_Contract : string; ev_ChannelID : string;
  ev_AccountProof : list string; ev_StorageProofs : list (list string); ev_Slots : list string; ev_Values : list string; ev_Absent : list bool;
  ev_verified : bool
}.
#[export] Instance Evidence_eta : Eta Evidence := fun e => mkEvidence (ev_ChainID e) (ev_BlockNumber e) (ev_BlockHash e) (ev_ParentHash e)
  (ev_StateRoot e) (ev_Contract e) (ev_ChannelID e) (ev_AccountProof e) (ev_StorageProofs e) (ev_Slots e) (ev_Values e) (ev_Absent e) (ev_verified e).

(** One turn of the loop of [Verify]. *)
Definition check_slot (storageRoot : bytes) (slot : string) (proof : list string) (value : string) (absent : bool) : outcome evidence_err unit :=
  let? key := malformed (decodeHex32 slot) in
  let? (nodes, _) := malformed (decodeNodes proof) in
  let? (found, none) := read_slot storageRoot key nodes in
  let? recorded := malformed (decodeHex32 value) in
  fail? negb (bool_decide (recorded = found)) with ErrEvidenceMalformed ;;
  fail? negb (Bool.eqb absent none) with ErrEvidenceMalformed ;;
  Ok tt.
Fixpoint check_slots (storageRoot : bytes) (slots : list string) (proofs : list (list string)) (values : list string) (absents : list bool)
    : outcome evidence_err unit :=
  match slots, proofs, values, absents with
  | slot :: slots, proof :: proofs, value :: values, absent :: absents =>
      let? _ := check_slot storageRoot slot proof value absent in
      check_slots storageRoot slots proofs values absents
  | [], _, _, _ => Ok tt
  | _, _, _, _ => Panic
  end.

Definition Verify (e : Evidence) : outcome evidence_err Evidence :=
  let e := (e <| ev_verified := false |>) in
  let? stateRoot := malformed (decodeHex32 (ev_StateRoot e)) in
  let? contract := malformed (decodeHexBytes (ev_Contract e)) in
  fail? negb (length contract =? 20)%nat with ErrEvidenceMalformed ;;
  fail? negb (length (ev_Slots e) =? length (ev_StorageProofs e))%nat || negb (length (ev_Slots e) =? length (ev_Values e))%nat ||
    negb (length (ev_Slots e) =? length (ev_Absent e))%nat with ErrEvidenceMalformed ;;
  let? (accountNodes, _) := malformed (decodeNodes (ev_AccountProof e)) in
  let? storageRoot := account_root stateRoot contract accountNodes in
  let? _ := check_slots storageRoot (ev_Slots e) (ev_StorageProofs e) (ev_Values e) (ev_Absent e) in
  Ok (e <| ev_verified := true |>).

(** [strings.ToLower], on the ASCII of identifiers. *)
Definition lower_ascii (c : ascii) : ascii :=
  let n := Z.of_N (Ascii.N_of_ascii c) in
  if (65 <=? n) && (n <=? 90) then Ascii.ascii_of_N (Z.to_N (n + 32)) else c.
Fixpoint to_lower (s : string) : string :=
  match s with String.EmptyString => s | String.String c r => String.String (lower_ascii c) (to_lower r) end.

(** The fields appended for each storage proof; [slots[i]] and [m.Slots[i]] may be out of range. *)
Fixpoint evidence_slots (proofs : list StorageProof) (slots : list bytes) (ms : list SlotMeasurement)
    : outcome evidence_err (list (list string) * list string * list string * list bool) :=
  match proofs, slots, ms with
  | [], _, _ => Ok ([], [], [], [])
  | sp :: proofs, slot :: slots, m :: ms =>
      let? (ps, ks, vs, abs) := evidence_slots proofs slots ms in
      Ok (sp_Proof sp :: ps, hex32 slot :: ks, hex32 (sm_Value m) :: vs, sm_Absent m :: abs)
  | _, _, _ => Panic
  end.

(** [number] is [header.BlockNumber()]. *)
Definition EvidenceFrom (chainID number : Z) (header : BlockHeader) (channelID address : string) (slots : list bytes)
    (proof : ProofResult) (m : Measurement) : outcome evidence_err Evidence :=
  let? (ps, ks, vs, abs) := evidence_slots (pr_StorageProof proof) slots (me_Slots m) in
  Verify (mkEvidence chainID number (bh_Hash header) "" (bh_StateRoot header) (to_lower address) (to_lower channelID)
            (pr_AccountProof proof) ps ks vs abs false).

(** ** The store *)

Definition EvidenceKeyPrefix : string := "eth/".

(** [%0wd] of a number of at most [w] digits. *)
Fixpoint dec_fixed (w : nat) (n : Z) : string :=
  match w with
  | O => String.EmptyString
  | S w => String.String (dec_digit (n / 10 ^ Z.of_nat w)) (dec_fixed w (n mod 10 ^ Z.of_nat w))
  end.
Definition concat_text (l : list string) : string := foldr String.append String.EmptyString l.

Definition ChannelPrefix (chainID : Z) (contract channelID : string) : string :=
  concat_text [EvidenceKeyPrefix; dec_text chainID; "/"; to_lower (strip0x contract); "/"; to_lower (strip0x channelID); "/"]%string.
Definition Key (e : Evidence) : string :=
  concat_text [EvidenceKeyPrefix; dec_text (ev_ChainID e); "/"; to_lower (strip0x (ev_Contract e)); "/"; to_lower (strip0x (ev_ChannelID e)); "/";
    dec_fixed 20 (ev_BlockNumber e); "/"; to_lower (strip0x (ev_BlockHash e))]%string.

(** Sealing, opening and JSON ([verified] is not a field of the JSON). *)
Class EvidenceCodec : Type := {
  ev_marshal : Evidence -> option bytes;
  ev_unmarshal : bytes -> option Evidence;
  ev_seal : bytes -> option bytes;
  ev_open : bytes -> option bytes
}.
Context {Codec : EvidenceCodec}.

(** The object to write and its key; [Backend.Put] is the caller's. *)
Definition store_Put (configured : bool) (put : string -> bytes -> outcome evidence_err unit) (e : Evidence) : outcome evidence_err unit :=
  fail? negb (ev_verified e) with ErrNotVerified ;;
  fail? negb configured with ErrNotConfigured ;;
  let? plain := of_option ErrMarshal (ev_marshal e) in
  let? blob := of_option ErrSeal (ev_seal plain) in
  put (Key e) blob.

Definition store_Get (get : string -> outcome evidence_err bytes) (key : string) : outcome evidence_err Evidence :=
  let? blob := get key in
  let? plain := of_option ErrEvidenceMalformed (ev_open blob) in
  let? e := of_option ErrEvidenceMalformed (ev_unmarshal plain) in
  fail? negb (String.eqb key (Key e)) with ErrEvidenceMalformed ;;
  Verify e.

(** The first record of the list that verifies. *)
Fixpoint first_good (get : string -> outcome evidence_err bytes) (keys : list string) : outcome evidence_err (option Evidence) :=
  match keys with
  | [] => Ok None
  | key :: keys =>
      match store_Get get key with
      | Ok e => Ok (Some e)
      | Err _ => first_good get keys
      | Panic => Panic
      end
  end.

Definition text_ge (a b : string) : Prop := String.leb b a = true.
#[export] Instance text_ge_dec (a b : string) : Decision (text_ge a b).
Proof. unfold text_ge. apply _. Defined.

Definition store_Latest (list_keys : string -> outcome evidence_err (list string)) (get : string -> outcome evidence_err bytes)
    (chainID : Z) (contract channelID : string) : outcome evidence_err (option Evidence) :=
  let? keys := list_keys (ChannelPrefix chainID contract channelID) in
  if (length keys =? 0)%nat then Ok None else first_good get (merge_sort text_ge keys).
End Reads.

(** ** Hexadecimal, read back *)

Lemma proof_of_ok {A : Type} (m : outcome proof_err A) (a : A) : proof_of m = Ok a <-> m = Ok a.
Proof. destruct m; cbn; split; intros H; try done; congruence. Qed.
Lemma malformed_ok {A : Type} (m : outcome evidence_err A) (a : A) : malformed m = Ok a <-> m = Ok a.
Proof. destruct m; cbn; split; intros H; try done; congruence. Qed.

Lemma decodeHexBytes_hex32 (b : bytes) : bytes_ok b -> decodeHexBytes (hex32 b) = Ok b.
Proof.
  intros Hb. unfold decodeHexBytes, hex32. assert (strip0x (String.append "0x" (hex_encode b)) = hex_encode b) as ->.
  { unfold strip0x. change (trim_prefix "x" (String.append "0x" (hex_encode b))) with (hex_encode b).
    destruct b as [|x b]; [done|]. apply Forall_cons in Hb as [Hx _]. unfold byte_ok in Hx.
    change (hex_encode (x :: b)) with (String.String (hex_digit (x / 16)) (String.String (hex_digit (x mod 16)) (hex_encode b))).
    unfold trim_prefix. assert (Ascii.eqb (hex_digit (x mod 16)) "X" = false) as ->; [|by rewrite andb_false_r].
    pose proof (Z.mod_pos_bound x 16 ltac:(lia)) as Hm. each_below (x mod 16). }
  rewrite length_hex_encode. assert (Nat.odd (2 * length b) = false) as -> by (rewrite <- Nat.negb_even, Nat.even_mul; done).
  by rewrite hex_decode_encode.
Qed.
Lemma decodeHex32_hex32 (b : bytes) : array_ok 32 b -> decodeHex32 (hex32 b) = Ok b.
Proof. intros [L O]. unfold decodeHex32. rewrite decodeHexBytes_hex32 by done. cbn [obind]. by rewrite L. Qed.

Lemma to_lower_append (s t : string) : to_lower (String.append s t) = String.append (to_lower s) (to_lower t).
Proof. induction s as [|c s IH]; [done|]. rewrite append_cons. cbn [to_lower]. by rewrite append_cons, IH. Qed.
Lemma to_lower_hex (b : bytes) : bytes_ok b -> to_lower (hex_encode b) = hex_encode b.
Proof.
  assert (forall n, 0 <= n < 16 -> lower_ascii (hex_digit n) = hex_digit n) as HD by (intros n Hn; each_below n).
  induction 1 as [|x b Hx Hb IH]; [done|]. cbn [hex_encode to_lower]. unfold byte_ok in Hx.
  rewrite IH, !HD; [done|by apply Z.mod_pos_bound|split; [apply Z.div_pos|apply Z.div_lt_upper_bound]; lia].
Qed.

(** ** Proofs agree *)

Section Agreement.
Context `{K : Keccak}.

Lemma verify_agrees (root key : bytes) (proof proof' : list bytes) (v v' : option bytes) :
  VerifyProof root key proof = Ok v -> VerifyProof root key proof' = Ok v' -> v = v' \/ collision_in proof proof'.
Proof. intros H H'. apply guard_err_ok in H as [_ H]. apply guard_err_ok in H' as [_ H']. by eapply walk_agrees. Qed.

Lemma account_root_agrees (root a : bytes) (ns ns' : list bytes) (s s' : bytes) :
  account_root root a ns = Ok s -> account_root root a ns' = Ok s' -> s = s' \/ collision_in ns ns'.
Proof.
  intros H H'. apply obind_ok in H as (r & Hr & H). apply obind_ok in H' as (r' & Hr' & H').
  rewrite proof_of_ok in Hr, Hr'. destruct (verify_agrees _ _ _ _ _ _ Hr Hr') as [<-|?]; [left|by right]. congruence.
Qed.

Lemma read_slot_agrees (root k : bytes) (ns ns' : list bytes) (v v' : bytes * bool) :
  read_slot root k ns = Ok v -> read_slot root k ns' = Ok v' -> v = v' \/ collision_in ns ns'.
Proof.
  intros H H'. apply obind_ok in H as (r & Hr & H). apply obind_ok in H' as (r' & Hr' & H').
  rewrite proof_of_ok in Hr, Hr'. destruct (verify_agrees _ _ _ _ _ _ Hr Hr') as [<-|?]; [left|by right]. congruence.
Qed.

(** ** What verified evidence says *)

Lemma check_slot_ok (root : bytes) (slot : string) (proof : list string) (value : string) (absent : bool) :
  check_slot root slot proof value absent = Ok tt <->
  exists key nodes len found, decodeHex32 slot = Ok key /\ decodeNodes proof = Ok (nodes, len) /\
    read_slot root key nodes = Ok (found, absent) /\ decodeHex32 value = Ok found.
Proof.
  unfold check_slot. split.
  - intros H. apply obind_ok in H as (key & Hk & H). apply obind_ok in H as ([nodes len] & Hn & H). apply obind_ok in H as ([found none] & Hf & H).
    apply obind_ok in H as (rec & Hr & H). apply guard_err_ok in H as [H1 H]. apply guard_err_ok in H as [H2 _]. apply (proj1 (malformed_ok _ _)) in Hk, Hn, Hr.
    apply negb_false_iff in H1, H2. apply bool_decide_eq_true in H1 as ->. apply eqb_prop in H2 as ->.
    by exists key, nodes, len, found.
  - intros (key & nodes & len & found & Hk & Hn & Hf & Hr). rewrite Hk, Hn. cbn [malformed obind]. rewrite Hf. cbn [obind]. rewrite Hr. cbn [malformed obind].
    by rewrite bool_decide_eq_true_2, eqb_reflx.
Qed.

Lemma check_slots_lookup (root : bytes) (slots : list string) (proofs : list (list string)) (values : list string) (absents : list bool) (i : nat) (s : string) :
  check_slots root slots proofs values absents = Ok tt -> slots !! i = Some s ->
  exists p v a, proofs !! i = Some p /\ values !! i = Some v /\ absents !! i = Some a /\ check_slot root s p v a = Ok tt.
Proof.
  revert proofs values absents i. induction slots as [|s0 slots IH]; intros [|p proofs] [|v values] [|a absents] i H Hi; try done.
  cbn [check_slots] in H. apply obind_ok in H as ([] & H0 & H). destruct i as [|i]; [injection Hi as <-; eauto 10|]. exact (IH _ _ _ i H Hi).
Qed.

Definition decoded_nodes (l : list string) : list bytes := match decodeNodes l with Ok (nodes, _) => nodes | _ => [] end.
(** Every node a record carries. *)
Definition evidence_nodes (e : Evidence) : list bytes := decoded_nodes (ev_AccountProof e) ++ concat (map decoded_nodes (ev_StorageProofs e)).

Lemma account_nodes_in (e : Evidence) (nodes : list bytes) (n : Z) : decodeNodes (ev_AccountProof e) = Ok (nodes, n) -> nodes ⊆ evidence_nodes e.
Proof. intros H x Hx. apply elem_of_app. left. unfold decoded_nodes. by rewrite H. Qed.
Lemma storage_nodes_in (e : Evidence) (i : nat) (p : list string) (nodes : list bytes) (n : Z) :
  ev_StorageProofs e !! i = Some p -> decodeNodes p = Ok (nodes, n) -> nodes ⊆ evidence_nodes e.
Proof.
  intros Hp H x Hx. apply elem_of_app. right. apply list_elem_of_In, in_concat. exists nodes. split; [|by apply list_elem_of_In].
  apply in_map_iff. exists p. split; [unfold decoded_nodes; by rewrite H|]. apply list_elem_of_In. by eapply list_elem_of_lookup_2.
Qed.

Lemma Verify_inv (e e' : Evidence) : Verify e = Ok e' ->
  exists root contract nodes n sroot, decodeHex32 (ev_StateRoot e) = Ok root /\ decodeHexBytes (ev_Contract e) = Ok contract /\
    decodeNodes (ev_AccountProof e) = Ok (nodes, n) /\ account_root root contract nodes = Ok sroot /\
    check_slots sroot (ev_Slots e) (ev_StorageProofs e) (ev_Values e) (ev_Absent e) = Ok tt /\
    e' = (e <| ev_verified := true |>).
Proof.
  intros H. apply obind_ok in H as (root & H1 & H). apply obind_ok in H as (contract & H2 & H). apply guard_err_ok in H as [_ H].
  apply guard_err_ok in H as [_ H]. apply obind_ok in H as ([nodes n] & H3 & H). apply obind_ok in H as (sroot & H4 & H).
  apply obind_ok in H as ([] & H5 & H). apply Ok_inj in H as <-. apply (proj1 (malformed_ok _ _)) in H1, H2, H3.
  exists root, contract, nodes, n, sroot. by repeat split.
Qed.

(** C26. Evidence cannot be bent: two records that verify against one state root for
    one contract - whoever made, stored or altered them - state the same value and
    the same absence for every slot they share, or between them they carry two
    different nodes with one keccak256 hash. *)
Theorem evidence_agrees (e e' v v' : Evidence) (i j : nat) (s s' : string)
    (H : Verify e = Ok v) (H' : Verify e' = Ok v')
    (Hroot : decodeHex32 (ev_StateRoot e) = decodeHex32 (ev_StateRoot e'))
    (Hcontract : decodeHexBytes (ev_Contract e) = decodeHexBytes (ev_Contract e'))
    (Hs : ev_Slots e !! i = Some s) (Hs' : ev_Slots e' !! j = Some s') (Hslot : decodeHex32 s = decodeHex32 s') :
  (exists x x', ev_Values e !! i = Some x /\ ev_Values e' !! j = Some x' /\ decodeHex32 x = decodeHex32 x' /\
    ev_Absent e !! i = ev_Absent e' !! j) \/
  collision_in (evidence_nodes e) (evidence_nodes e').
Proof.
  apply Verify_inv in H as (r & c & ns & n & sr & R1 & R2 & R3 & R4 & R5 & _).
  apply Verify_inv in H' as (r' & c' & ns' & n' & sr' & R1' & R2' & R3' & R4' & R5' & _).
  rewrite R1, R1' in Hroot. apply Ok_inj in Hroot as <-. rewrite R2, R2' in Hcontract. apply Ok_inj in Hcontract as <-.
  destruct (account_root_agrees _ _ _ _ _ _ R4 R4') as [<-|HC].
  2:{ right. eapply collision_in_mono; [by eapply account_nodes_in|by eapply account_nodes_in|done]. }
  destruct (check_slots_lookup _ _ _ _ _ _ _ R5 Hs) as (p & x & a & P1 & P2 & P3 & P4).
  destruct (check_slots_lookup _ _ _ _ _ _ _ R5' Hs') as (p' & x' & a' & P1' & P2' & P3' & P4').
  apply check_slot_ok in P4 as (k & m & l & f & Q1 & Q2 & Q3 & Q4). apply check_slot_ok in P4' as (k' & m' & l' & f' & Q1' & Q2' & Q3' & Q4').
  rewrite Q1, Q1' in Hslot. apply Ok_inj in Hslot as <-. destruct (read_slot_agrees _ _ _ _ _ _ Q3 Q3') as [E|HC].
  - injection E as <- <-. left. exists x, x'. by rewrite Q4, Q4', P3, P3'.
  - right. eapply collision_in_mono; [by eapply storage_nodes_in|by eapply storage_nodes_in|done].
Qed.

Lemma Verify_again (e e' : Evidence) : Verify e = Ok e' -> Verify e' = Ok e' /\ ev_verified e' = true.
Proof. intros H. pose proof H as H'. apply Verify_inv in H' as (_ & _ & _ & _ & _ & _ & _ & _ & _ & _ & ->). by split. Qed.

(** ** The order of keys *)

Lemma leb_append (p a b : string) : String.leb (String.append p a) (String.append p b) = String.leb a b.
Proof.
  induction p as [|c p IH]; [done|]. rewrite !append_cons. unfold String.leb in *. cbn [String.compare].
  assert (Ascii.compare c c = Eq) as ->; [|done]. unfold Ascii.compare. apply N.compare_refl.
Qed.

Lemma leb_cons (c d : ascii) (a b : string) :
  String.leb (String.String c a) (String.String d b) = match Ascii.compare c d with Lt => true | Gt => false | Eq => String.leb a b end.
Proof. unfold String.leb. cbn [String.compare]. by destruct (Ascii.compare c d). Qed.

Lemma leb_text_trans (a b c : string) : String.leb a b = true -> String.leb b c = true -> String.leb a c = true.
Proof.
  revert b c. induction a as [|x a IH]; intros [|y b] [|z c]; try done. rewrite !leb_cons. unfold Ascii.compare.
  destruct (N.compare_spec (Ascii.N_of_ascii x) (Ascii.N_of_ascii y)) as [E|E|E], (N.compare_spec (Ascii.N_of_ascii y) (Ascii.N_of_ascii z)) as [E'|E'|E'],
    (N.compare_spec (Ascii.N_of_ascii x) (Ascii.N_of_ascii z)) as [E''|E''|E'']; try done; try lia. apply IH.
Qed.

Lemma leb_text_refl (a : string) : String.leb a a = true.
Proof. induction a as [|x a IH]; [done|]. rewrite leb_cons. unfold Ascii.compare. by rewrite N.compare_refl. Qed.

Lemma dec_digit_compare (a b : Z) : 0 <= a < 10 -> 0 <= b < 10 -> Ascii.compare (dec_digit a) (dec_digit b) = Z.compare a b.
Proof. intros Ha Hb. each_below a; each_below b. Qed.

Lemma dec_fixed_leb (w : nat) (a b : Z) (s t : string) : 0 <= a < 10 ^ Z.of_nat w -> 0 <= b < 10 ^ Z.of_nat w ->
  String.leb (String.append (dec_fixed w a) s) (String.append (dec_fixed w b) t) =
  match Z.compare a b with Lt => true | Gt => false | Eq => String.leb s t end.
Proof.
  revert a b. induction w as [|w IH]; intros a b Ha Hb.
  { assert (a = 0) as -> by (cbn in Ha; lia). assert (b = 0) as -> by (cbn in Hb; lia). done. }
  rewrite Nat2Z.inj_succ, Z.pow_succ_r in Ha, Hb by lia. cbn [dec_fixed]. rewrite !append_cons, leb_cons.
  set (q := 10 ^ Z.of_nat w) in *. assert (0 < q) by (apply Z.pow_pos_nonneg; lia).
  pose proof (Z.div_mod a q ltac:(lia)) as Da. pose proof (Z.div_mod b q ltac:(lia)) as Db.
  pose proof (Z.mod_pos_bound a q ltac:(lia)). pose proof (Z.mod_pos_bound b q ltac:(lia)).
  assert (0 <= a / q < 10) by (split; [apply Z.div_pos|apply Z.div_lt_upper_bound]; lia).
  assert (0 <= b / q < 10) by (split; [apply Z.div_pos|apply Z.div_lt_upper_bound]; lia).
  rewrite dec_digit_compare by done. destruct (Z.compare_spec (a / q) (b / q)) as [E|E|E].
  - rewrite IH by done. destruct (Z.compare_spec (a mod q) (b mod q)), (Z.compare_spec a b); try done; nia.
  - destruct (Z.compare_spec a b); try done; nia.
  - destruct (Z.compare_spec a b); try done; nia.
Qed.

(** Records of one channel. *)
Definition same_channel (e e' : Evidence) : Prop :=
  ChannelPrefix (ev_ChainID e) (ev_Contract e) (ev_ChannelID e) = ChannelPrefix (ev_ChainID e') (ev_Contract e') (ev_ChannelID e').

Lemma Key_split (e : Evidence) :
  Key e = String.append (ChannelPrefix (ev_ChainID e) (ev_Contract e) (ev_ChannelID e))
    (String.append (dec_fixed 20 (ev_BlockNumber e)) (String.append "/" (to_lower (strip0x (ev_BlockHash e))))).
Proof.
  unfold Key, ChannelPrefix, concat_text. cbn [foldr]. rewrite !append_assoc.
  assert (forall s, String.append s String.EmptyString = s) as HE by (induction s as [|c s IH]; [done|]; rewrite append_cons; by f_equal).
  by rewrite !HE.
Qed.

(** Keys of one channel list in the order of the blocks: numbers are compared as
    numbers, and two records of one height by their hash. *)
Theorem keys_in_block_order (e e' : Evidence) (Hc : same_channel e e') (Hn : u_range 64 (ev_BlockNumber e)) (Hn' : u_range 64 (ev_BlockNumber e')) :
  String.leb (Key e) (Key e') =
    match Z.compare (ev_BlockNumber e) (ev_BlockNumber e') with
    | Lt => true | Gt => false
    | Eq => String.leb (to_lower (strip0x (ev_BlockHash e))) (to_lower (strip0x (ev_BlockHash e')))
    end.
Proof.
  unfold u_range in *. rewrite !Key_split, Hc, leb_append, dec_fixed_leb by (change (10 ^ Z.of_nat 20) with 100000000000000000000; lia).
  by destruct (Z.compare _ _).
Qed.
End Agreement.

Section Store.
Context `{K : Keccak} {Codec : EvidenceCodec}.

Lemma store_Get_inv (get : string -> outcome evidence_err bytes) (key : string) (e : Evidence) :
  store_Get get key = Ok e -> Key e = key /\ Verify e = Ok e /\ ev_verified e = true.
Proof.
  unfold store_Get. intros H. apply obind_ok in H as (blob & _ & H). apply obind_ok in H as (plain & _ & H). apply obind_ok in H as (e0 & _ & H).
  apply guard_err_ok in H as [HK H]. apply negb_false_iff, String.eqb_eq in HK as ->. split; [|by eapply Verify_again].
  by apply Verify_inv in H as (_ & _ & _ & _ & _ & _ & _ & _ & _ & _ & ->).
Qed.

#[local] Instance text_ge_total : Total text_ge.
Proof. intros x y. unfold text_ge. destruct (String.leb_total x y); auto. Qed.
#[local] Instance text_ge_trans : Transitive text_ge.
Proof. intros x y z. unfold text_ge. intros H1 H2. by eapply leb_text_trans. Qed.

Lemma first_good_spec (get : string -> outcome evidence_err bytes) (keys : list string) (e : Evidence) :
  StronglySorted text_ge keys -> first_good get keys = Ok (Some e) ->
  Key e ∈ keys /\ store_Get get (Key e) = Ok e /\ forall k e', k ∈ keys -> store_Get get k = Ok e' -> String.leb k (Key e) = true.
Proof.
  induction 1 as [|key keys HS IH HF]; cbn [first_good]; [done|]. destruct (store_Get get key) as [e0|err|] eqn:EG; [| |done].
  - intros [= ->]. destruct (store_Get_inv _ _ _ EG) as (EK & _). rewrite EK. split; [by left|]. split; [done|].
    intros k e' [->|Hk]%elem_of_cons _; [apply leb_text_refl|]. by apply (proj1 (Forall_forall _ _) HF k Hk).
  - intros H. destruct (IH H) as (H1 & H2 & H3). split; [by right|]. split; [done|].
    intros k e' [->|Hk]%elem_of_cons HG; [congruence|by eapply H3].
Qed.

(** Storage is custody, not authority: whatever the backend holds and lists, a
    record that comes back as the latest verifies again from its own proofs, is
    filed under the key that names it, and no record of its channel that would
    verify - however many corrupt ones stand before it - has a higher block. *)
Theorem latest_is_newest (list_keys : string -> outcome evidence_err (list string)) (get : string -> outcome evidence_err bytes)
    (chainID : Z) (contract channelID : string) (e : Evidence)
    (H : store_Latest list_keys get chainID contract channelID = Ok (Some e)) :
  exists keys, list_keys (ChannelPrefix chainID contract channelID) = Ok keys /\ Key e ∈ keys /\ Verify e = Ok e /\ ev_verified e = true /\
    forall k e', k ∈ keys -> store_Get get k = Ok e' -> same_channel e' e -> u_range 64 (ev_BlockNumber e) -> u_range 64 (ev_BlockNumber e') ->
      ev_BlockNumber e' <= ev_BlockNumber e.
Proof.
  apply obind_ok in H as (keys & HL & H). exists keys. split; [done|]. destruct (length keys =? 0)%nat; [done|].
  apply first_good_spec in H as (H1 & H2 & H3); [|apply (StronglySorted_merge_sort text_ge)].
  rewrite merge_sort_Permutation in H1. destruct (store_Get_inv _ _ _ H2) as (_ & HV & HB). repeat (split; [done|]).
  intros k e' Hk HG Hc Hn Hn'. destruct (store_Get_inv _ _ _ HG) as (EK & _). specialize (H3 k e').
  rewrite merge_sort_Permutation in H3. specialize (H3 Hk HG). rewrite <- EK in H3.
  rewrite (keys_in_block_order e' e) in H3 by done. destruct (Z.compare_spec (ev_BlockNumber e') (ev_BlockNumber e)); try done; lia.
Qed.

(** Only verified evidence is ever written, under the key that names it. *)
Theorem put_needs_verified (configured : bool) (put : string -> bytes -> outcome evidence_err unit) (e : Evidence) :
  (ev_verified e = false -> store_Put configured put e = Err ErrNotVerified) /\
  (store_Put configured put e = Ok tt -> ev_verified e = true /\ exists blob, put (Key e) blob = Ok tt).
Proof.
  unfold store_Put. split; [by intros ->|]. intros H. apply guard_err_ok in H as [HV H]. apply negb_false_iff in HV. split; [done|].
  apply guard_err_ok in H as [_ H]. apply obind_ok in H as (plain & _ & H). apply obind_ok in H as (blob & _ & H). eauto.
Qed.

(** ** Reads *)

Lemma read_slots_extra (root : bytes) (slots : list bytes) (proofs : list StorageProof) (extra : StorageProof) (ms : list SlotMeasurement) (n : list bytes * Z) :
  length slots = length proofs -> decodeNodes (sp_Proof extra) = Ok n -> read_slots root slots proofs = Ok ms ->
  read_slots root slots (proofs ++ [extra]) = Panic.
Proof.
  revert slots ms. induction proofs as [|sp proofs IH]; intros [|slot slots] ms HL HN H; try done.
  - cbn [app read_slots]. rewrite HN. by destruct n.
  - cbn [app read_slots] in *. destruct (decodeNodes (sp_Proof sp)) as [[ns l]| |]; [cbn [obind] in *|done..].
    destruct (read_slot root slot ns) as [[v a]| |]; [cbn [obind] in *|done..].
    apply obind_ok in H as (rest & HR & _). rewrite (IH slots rest); [done|cbn in HL; lia|done|done].
Qed.

(** A provider can crash the reader: take any answer to [eth_getProof] that the
    read accepts in full, append one more storage proof of well-formed hex, and the
    read indexes past the slots that were asked for and panics. *)
Theorem extra_storage_proof_panics (header : BlockHeader) (proof : ProofResult) (extra : StorageProof) (address : string) (slots : list bytes)
    (m : Measurement) (n : list bytes * Z)
    (H : VerifiedRead (Ok header) (fun _ => Ok proof) address slots = Ok m)
    (Hlen : length slots = length (pr_StorageProof proof)) (Hhex : decodeNodes (sp_Proof extra) = Ok n) :
  VerifiedRead (Ok header) (fun _ => Ok (mkProofResult (pr_AccountProof proof) (pr_StorageHash proof) (pr_StorageProof proof ++ [extra]))) address slots = Panic.
Proof.
  unfold VerifiedRead in *. cbn [obind pr_AccountProof pr_StorageHash pr_StorageProof] in *.
  destruct (decodeHex32 (bh_StateRoot header)); [cbn [obind] in *|done..]. destruct (decodeHexBytes address); [cbn [obind] in *|done..].
  destruct (negb _); [done|]. cbn [guard_err] in *. destruct (decodeNodes (pr_AccountProof proof)) as [[ns l]| |]; [cbn [obind] in *|done..].
  destruct (account_root _ _ _) as [sr| |]; [cbn [obind] in *|done..]. apply obind_ok in H as (ms & HM & _).
  by rewrite (read_slots_extra sr slots (pr_StorageProof proof) extra ms n).
Qed.

Lemma walk_value_bytes (proof : list bytes) (n : nat) (path : list Z) (ref v : bytes) :
  Forall bytes_ok proof -> walk n (index_nodes proof) path ref = Ok (Some v) -> bytes_ok v.
Proof.
  intros HF. revert path ref. induction n as [|n IH]; intros path ref H; [done|]. cbn [walk] in H.
  apply obind_ok in H as (raw & Hr & H). destruct (index_nodes proof !! ref) as [r|] eqn:E; [|done]. injection Hr as ->.
  apply index_nodes_sound in E as [HI _]. apply (proj1 (Forall_forall _ _) HF) in HI.
  apply obind_ok in H as (item & Hi & H). destruct (DecodeRLP raw) as [it| |] eqn:ED; [|done..]. injection Hi as ->.
  apply DecodeRLP_bytes in ED; [|done]. apply obind_ok in H as ([w|[p q]] & Hs & H); [|by eapply IH]. injection H as ->.
  destruct item as [b|l]; [done|]. apply item_ok_list in ED. assert (forall x, x ∈ l -> item_Bytes x = Some v -> bytes_ok v) as HX.
  { intros x Hx Ex. apply (proj1 (Forall_forall _ _) ED) in Hx. destruct x; [by injection Ex as ->|done]. }
  unfold walk_node in Hs. destruct (length l =? 17)%nat.
  - destruct path as [|c path].
    + destruct (l !! 16%nat) as [x|] eqn:EX; [|done]. injection Hs as Hs. apply (HX x); [by eapply list_elem_of_lookup_2|done].
    + destruct (l !! Z.to_nat c); [|done]. destruct (_ && _); [done|]. by apply obind_ok in Hs as (? & _ & Hs).
  - destruct l as [|it0 [|it1 [|]]]; try done. apply obind_ok in Hs as ([pre leaf] & _ & Hs). destruct (strip pre path); [|done].
    destruct leaf; [|by apply obind_ok in Hs as (? & _ & Hs)]. destruct (negb _); [done|]. injection Hs as Hs. apply (HX it1); [right; by left|done].
Qed.

Lemma decodeNodes_bytes (l : list string) (nodes : list bytes) (n : Z) : decodeNodes l = Ok (nodes, n) -> Forall bytes_ok nodes.
Proof.
  revert nodes n. induction l as [|h l IH]; intros nodes n; cbn [decodeNodes]; [intros [= <- <-]; by apply Forall_nil_2|].
  intros H. apply obind_ok in H as (raw & Hr & H). apply obind_ok in H as ([ns t] & Hn & H). injection H as <- <-.
  constructor; [|by eapply IH]. unfold decodeHexBytes in Hr. destruct (hex_decode _) as [r|] eqn:E; [|done]. injection Hr as <-. by eapply hex_decode_ok.
Qed.

Lemma read_slot_word (root k : bytes) (nodes : list bytes) (v : bytes) (b : bool) :
  Forall bytes_ok nodes -> read_slot root k nodes = Ok (v, b) -> array_ok 32 v.
Proof.
  intros HN H. apply obind_ok in H as (raw & Hr & H). apply obind_ok in H as (w & Hw & H). injection H as -> _.
  apply proof_of_ok in Hr, Hw. apply guard_err_ok in Hr as [_ Hr]. unfold DecodeSlotValue in Hw.
  destruct (length (default [] raw) =? 0)%nat; [injection Hw as <-; apply zeros_ok|]. apply obind_ok in Hw as (item & Hi & Hw).
  destruct (DecodeRLP _) as [it| |] eqn:ED; [|done..]. injection Hi as ->. destruct item as [c|]; [|done]. apply guard_err_ok in Hw as [HL Hw]. injection Hw as <-.
  apply Nat.ltb_ge in HL. split; [rewrite length_app; unfold zeros; rewrite length_replicate; lia|]. apply Forall_app_2; [apply zeros_ok|].
  apply DecodeRLP_bytes in ED; [done|]. destruct raw as [r|]; [by eapply walk_value_bytes|by apply Forall_nil_2].
Qed.

(** What a read verified is storable: the record made of the measurement and the
    proofs of a read verifies on its own, offline, whatever the provider's
    convenience fields said, and states the values the read recovered. *)
Theorem read_becomes_evidence (header : BlockHeader) (proof : ProofResult) (contract : bytes) (slots : list bytes) (m : Measurement)
    (chainID number : Z) (channelID : string) (Hc : bytes_ok contract) (Hs : Forall (array_ok 32) slots)
    (H : VerifiedRead (Ok header) (fun _ => Ok proof) (hex32 contract) slots = Ok m) :
  exists e, EvidenceFrom chainID number header channelID (hex32 contract) slots proof m = Ok e /\ ev_verified e = true /\
    ev_StateRoot e = bh_StateRoot header /\ ev_Values e = map (fun s => hex32 (sm_Value s)) (me_Slots m) /\
    ev_Absent e = map sm_Absent (me_Slots m).
Proof.
  unfold VerifiedRead in H. cbn [obind] in H. apply obind_ok in H as (root & Hroot & H). rewrite decodeHexBytes_hex32 in H by done.
  cbn [obind] in H. apply guard_err_ok in H as [HL H]. apply obind_ok in H as ([ns l] & HN & H). apply obind_ok in H as (sr & Hsr & H).
  apply obind_ok in H as (ms & Hms & H). apply Ok_inj in H as <-. cbn [me_Slots].
  assert (exists ps ks vs abs, evidence_slots (pr_StorageProof proof) slots ms = Ok (ps, ks, vs, abs) /\ check_slots sr ks ps vs abs = Ok tt /\
    length ks = length ps /\ length ks = length vs /\ length ks = length abs /\ vs = map (fun s => hex32 (sm_Value s)) ms /\ abs = map sm_Absent ms)
    as (ps & ks & vs & abs & E1 & E2 & E3 & E4 & E5 & E6 & E7).
  { clear - Hs Hms. revert slots ms Hs Hms. induction (pr_StorageProof proof) as [|sp proofs IH]; intros slots ms HS H; cbn [read_slots] in H.
    { injection H as <-. exists [], [], [], []. by repeat split. }
    apply obind_ok in H as ([ns l] & HN & H). destruct slots as [|slot slots]; [done|]. apply Forall_cons in HS as [Hs HS].
    apply obind_ok in H as ([v a] & HR & H). apply obind_ok in H as (rest & Hrest & H). apply Ok_inj in H as <-.
    destruct (IH slots rest HS Hrest) as (ps & ks & vs & abs & E1 & E2 & E3 & E4 & E5 & E6 & E7).
    cbn [evidence_slots]. rewrite E1. cbn [obind sm_Value sm_Absent]. do 4 eexists. split; [done|].
    split; [|cbn [length map sm_Value sm_Absent]; rewrite E3 in *; repeat split; congruence || lia].
    cbn [check_slots]. assert (check_slot sr (hex32 slot) (sp_Proof sp) (hex32 v) a = Ok tt) as ->; [|done].
    apply check_slot_ok. exists slot, ns, l, v. rewrite !decodeHex32_hex32; [done|eapply read_slot_word; [by eapply decodeNodes_bytes|exact HR]|done]. }
  unfold EvidenceFrom. cbn [me_Slots]. rewrite E1. cbn [obind]. unfold Verify.
  change (ev_StateRoot (_ <| ev_verified := false |>)) with (bh_StateRoot header). rewrite Hroot. cbn [malformed obind].
  change (ev_Contract (_ <| ev_verified := false |>)) with (to_lower (hex32 contract)).
  assert (to_lower (hex32 contract) = hex32 contract) as -> by (unfold hex32; rewrite to_lower_append, to_lower_hex; done).
  rewrite decodeHexBytes_hex32 by done. cbn [malformed obind]. rewrite HL. cbn [guard_err ev_Slots ev_StorageProofs ev_Values ev_Absent ev_AccountProof setf].
  rewrite <- E3, <- E4, <- E5, Nat.eqb_refl. cbn [negb orb guard_err]. rewrite HN. cbn [malformed obind]. rewrite Hsr. cbn [obind]. rewrite E2. cbn [obind].
  eexists. split; [done|]. by repeat split.
Qed.
End Store.

(** ** Witnesses

    One account with one storage slot, in tries of one leaf each. *)
Definition toy_slot : bytes := be_encode 32 3.
Definition toy_storage_leaf : bytes := toy_leaf toy_slot (EncodeRLPBytes [77]).
Definition toy_contract : bytes := be_encode 20 99.
Definition toy_account : bytes := encode_item (RlpList [RlpBytes []; RlpBytes [1]; RlpBytes (Keccak256 toy_storage_leaf); RlpBytes (zeros 32)]).
Definition toy_account_leaf : bytes := toy_leaf toy_contract toy_account.
Definition toy_header : BlockHeader := mkBlockHeader "0x10" "0xaa" "0x00" (hex32 (Keccak256 toy_account_leaf)).
Definition toy_answer : ProofResult := mkProofResult [hex32 toy_account_leaf] "" [mkStorageProof "0x4d" [hex32 toy_storage_leaf]].
Definition toy_read : outcome evidence_err Measurement := VerifiedRead (Ok toy_header) (fun _ => Ok toy_answer) (hex32 toy_contract) [toy_slot].
Definition toy_measurement : Measurement :=
  match toy_read with Ok m => m | _ => mkMeasurement "" "" false [] [] false 0 0 [] end.
Lemma toy_read_ok : VerifiedRead (Ok toy_header) (fun _ => Ok toy_answer) (hex32 toy_contract) [toy_slot] = Ok toy_measurement.
Proof. vm_compute. reflexivity. Qed.
Example toy_read_value : map sm_Value (me_Slots toy_measurement) = [be_encode 32 77].
Proof. vm_compute. reflexivity. Qed.

Definition toy_evidence (n : Z) : Evidence := mkEvidence 1 n "0xaa" "" (hex32 (Keccak256 toy_account_leaf)) (hex32 toy_contract) "0x07"
  [hex32 toy_account_leaf] [[hex32 toy_storage_leaf]] [hex32 toy_slot] [hex32 (be_encode 32 77)] [false] false.
Lemma toy_evidence_verifies (n : Z) : Verify (toy_evidence n) = Ok ((toy_evidence n) <| ev_verified := true |>).
Proof. vm_compute. reflexivity. Qed.

Lemma evidence_agrees_witness :
  (exists x x', ev_Values (toy_evidence 5) !! 0%nat = Some x /\ ev_Values (toy_evidence 6) !! 0%nat = Some x' /\ decodeHex32 x = decodeHex32 x' /\
    ev_Absent (toy_evidence 5) !! 0%nat = ev_Absent (toy_evidence 6) !! 0%nat) \/
  collision_in (evidence_nodes (toy_evidence 5)) (evidence_nodes (toy_evidence 6)).
Proof.
  exact (evidence_agrees (toy_evidence 5) (toy_evidence 6) _ _ 0 0 (hex32 toy_slot) (hex32 toy_slot)
    (toy_evidence_verifies 5) (toy_evidence_verifies 6) eq_refl eq_refl eq_refl eq_refl eq_refl).
Defined.

(** A blob is the block number of the record it holds. *)
#[export] Instance toy_evidence_codec : EvidenceCodec := {|
  ev_marshal := fun e => Some [ev_BlockNumber e]; ev_unmarshal := fun b => toy_evidence <$> head b; ev_seal := Some; ev_open := Some
|}.
Definition toy_get (key : string) : outcome evidence_err bytes :=
  if String.eqb key (Key (toy_evidence 5)) then Ok [5] else if String.eqb key (Key (toy_evidence 12)) then Ok [] else Err ErrBackend.
Definition toy_list (prefix : string) : outcome evidence_err (list string) := Ok [Key (toy_evidence 5); Key (toy_evidence 12)].
Lemma toy_latest : store_Latest toy_list toy_get 1 (hex32 toy_contract) "0x07" = Ok (Some ((toy_evidence 5) <| ev_verified := true |>)).
Proof. vm_compute. reflexivity. Qed.

Lemma latest_is_newest_witness : exists keys, toy_list "" = Ok keys /\ Key (toy_evidence 5) ∈ keys.
Proof.
  destruct (latest_is_newest toy_list toy_get 1 (hex32 toy_contract) "0x07" _ toy_latest) as (keys & H1 & H2 & _).
  exists keys. split; [exact H1|exact H2].
Defined.

Lemma extra_storage_proof_panics_witness :
  VerifiedRead (Ok toy_header) (fun _ => Ok (mkProofResult [hex32 toy_account_leaf] "" ([mkStorageProof "0x4d" [hex32 toy_storage_leaf]] ++ [mkStorageProof "" []])))
    (hex32 toy_contract) [toy_slot] = Panic.
Proof. exact (extra_storage_proof_panics toy_header toy_answer (mkStorageProof "" []) (hex32 toy_contract) [toy_slot] toy_measurement ([], 0) toy_read_ok eq_refl eq_refl). Defined.

Lemma toy_contract_ok : bytes_ok toy_contract.
Proof. apply be_encode_ok. Qed.
Lemma toy_slots_ok : Forall (array_ok 32) [toy_slot].
Proof. constructor; [apply be_encode_array|by apply Forall_nil_2]. Qed.
Lemma read_becomes_evidence_witness : exists e, EvidenceFrom 1 16 toy_header "0x07" (hex32 toy_contract) [toy_slot] toy_answer toy_measurement = Ok e /\ ev_verified e = true.
Proof.
  destruct (read_becomes_evidence toy_header toy_answer toy_contract [toy_slot] toy_measurement 1 16 "0x07" toy_contract_ok toy_slots_ok toy_read_ok)
    as (e & H1 & H2 & _). exists e. split; [exact H1|exact H2].
Defined.
