(* ===== verification/EthReceipts.v ===== *)
(** * Receipts and blooms ([internal/ethproof/receipts.go], [bloom.go])

    The encoding of receipts, the root of a complete set of them, the gate that
    admits a set against an authenticated root, the provider's JSON, and the
    bloom filter used as a negative filter. *)
From S2P Require Import Prelude.
From S2P Require Import GoBytes.
From S2P Require Import Rlp.
From S2P Require Import EthProof.
From S2P Require Import EthTrie.
From Stdlib Require Import Ascii.
From Stdlib Require String.
Import String.StringSyntax.

Inductive receipt_err : Type := ErrReceiptMalformed | ErrReceiptsRootMismatch.

Record Log : Type := mkLog { lg_Address : bytes; lg_Topics : list bytes; lg_Data : bytes }.
Record Receipt : Type := mkReceipt {
  rc_TxIndex : Z; rc_Type : Z; rc_Status : Z; rc_PostState : bytes; rc_CumulativeGasUsed : Z; rc_Bloom : bytes; rc_Logs : list Log
}.

(** ** Encoding *)

Definition encode_log (l : Log) : bytes :=
  EncodeRLPList [EncodeRLPBytes (lg_Address l); EncodeRLPList (map EncodeRLPBytes (lg_Topics l)); EncodeRLPBytes (lg_Data l)].

Definition Receipt_Encode (r : Receipt) : outcome receipt_err bytes :=
  fail? 0xFF <? rc_Type r with ErrReceiptMalformed ;;
  fail? negb (length (rc_PostState r) =? 0)%nat && negb (length (rc_PostState r) =? 32)%nat with ErrReceiptMalformed ;;
  fail? (length (rc_PostState r) =? 0)%nat && (1 <? rc_Status r) with ErrReceiptMalformed ;;
  let logs := map encode_log (rc_Logs r) in
  let first := if (length (rc_PostState r) =? 32)%nat then EncodeRLPBytes (rc_PostState r) else EncodeRLPUint (rc_Status r) in
  let body := EncodeRLPList [first; EncodeRLPUint (rc_CumulativeGasUsed r); EncodeRLPBytes (rc_Bloom r); EncodeRLPList logs] in
  if rc_Type r =? 0 then Ok body else Ok (wrap_u 8 (rc_Type r) :: body).

Section Root.
Context `{K : Keccak}.

(** The loop of [ReceiptsRoot]; [seen] are the indexes so far. *)
Fixpoint receipt_entries (seen : gset Z) (receipts : list Receipt) : outcome receipt_err (list TrieEntry) :=
  match receipts with
  | [] => Ok []
  | r :: rest =>
      fail? bool_decide (rc_TxIndex r ∈ seen) with ErrReceiptMalformed ;;
      let? value := Receipt_Encode r in
      let? entries := receipt_entries ({[rc_TxIndex r]} ∪ seen) rest in
      Ok (mkTrieEntry (EncodeRLPUint (rc_TxIndex r)) value :: entries)
  end.
Definition ReceiptsRoot (receipts : list Receipt) : outcome receipt_err bytes :=
  let? entries := receipt_entries ∅ receipts in
  Ok (BuildMPT entries).

Definition AuthenticateReceipts (authenticated : bytes) (receipts : list Receipt) : outcome receipt_err (list Receipt) :=
  let? got := ReceiptsRoot receipts in
  fail? negb (length got =? 32)%nat || negb (bool_decide (got = authenticated)) with ErrReceiptsRootMismatch ;;
  Ok receipts.
End Root.

(** ** The provider's JSON

    [json.Unmarshal] is the caller's; these are the fields it fills. *)
Record rpcLog : Type := mkRpcLog { rl_Address : string; rl_Topics : list string; rl_Data : string }.
Record rpcReceipt : Type := mkRpcReceipt {
  rr_Type : string; rr_Status : string; rr_Root : string; rr_CumulativeGas : string; rr_LogsBloom : string;
  rr_TransactionIndex : string; rr_Logs : list rpcLog
}.

(** [strings.TrimPrefix(s, "0x")] *)
Definition trim_0x (s : string) : string :=
  match s with
  | String.String c0 (String.String c1 r) => if Ascii.eqb c0 "0" && Ascii.eqb c1 "x" then r else s
  | _ => s
  end.

(** [strconv.ParseUint(s, 16, 64)] *)
Fixpoint hex_scan (s : string) (acc : Z) : option Z :=
  match s with
  | String.EmptyString => Some acc
  | String.String c s =>
      match hex_value c with
      | Some d => if 2 ^ 64 <=? acc * 16 + d then None else hex_scan s (acc * 16 + d)
      | None => None
      end
  end.
Definition parse_hex_u64 (s : string) : option Z :=
  match s with String.EmptyString => None | _ => hex_scan s 0 end.

Definition hexQuantity (s : string) : outcome receipt_err Z :=
  fail? String.eqb s "" with ErrReceiptMalformed ;;
  of_option ErrReceiptMalformed (parse_hex_u64 (trim_0x s)).

(** [wantLen] of [None] is -1. *)
Definition hexData (s : string) (wantLen : option nat) : outcome receipt_err bytes :=
  let? b := of_option ErrReceiptMalformed (hex_decode (trim_0x s)) in
  match wantLen with
  | Some n => fail? negb (length b =? n)%nat with ErrReceiptMalformed ;; Ok b
  | None => Ok b
  end.

Fixpoint map_outcome {E A B : Type} (f : A -> outcome E B) (l : list A) : outcome E (list B) :=
  match l with
  | [] => Ok []
  | a :: l => let? b := f a in let? bs := map_outcome f l in Ok (b :: bs)
  end.

Definition decode_log (l : rpcLog) : outcome receipt_err Log :=
  let? addr := hexData (rl_Address l) (Some 20%nat) in
  let? topics := map_outcome (fun tp => hexData tp (Some 32%nat)) (rl_Topics l) in
  let? data := hexData (rl_Data l) None in
  Ok (mkLog addr topics data).

Definition decode_receipt (r : rpcReceipt) : outcome receipt_err Receipt :=
  let? txIndex := hexQuantity (rr_TransactionIndex r) in
  let? type := (if String.eqb (rr_Type r) "" then Ok 0 else hexQuantity (rr_Type r)) in
  let? gas := hexQuantity (rr_CumulativeGas r) in
  let? (post, status) :=
    (if negb (String.eqb (rr_Root r) "") then let? p := hexData (rr_Root r) (Some 32%nat) in Ok (p, 0)
     else let? s := hexQuantity (rr_Status r) in Ok ([], s)) in
  let? bloom := hexData (rr_LogsBloom r) (Some 256%nat) in
  let? logs := map_outcome decode_log (rr_Logs r) in
  Ok (mkReceipt txIndex type status post gas bloom logs).

(** [parsed] is what [json.Unmarshal] made of the bytes. *)
Definition DecodeRPCReceipts (parsed : option (list rpcReceipt)) : outcome receipt_err (list Receipt) :=
  let? rs := of_option ErrReceiptMalformed parsed in
  map_outcome decode_receipt rs.

(** ** The bloom *)

Section Bloom.
Context `{K : Keccak}.

Definition bloom_position (h : bytes) (i : nat) : Z :=
  Z.land (Z.lor (Z.shiftl (nth (2 * i) h 0) 8) (nth (2 * i + 1) h 0)) 0x7FF.
Definition bloomPositions (item : bytes) : list Z :=
  let h := Keccak256 item in [bloom_position h 0; bloom_position h 1; bloom_position h 2].

(** [bloom[255-bit/8]] and [1<<(bit%8)]. *)
Definition bloom_byte (bit : Z) : nat := Z.to_nat (255 - bit / 8).
Definition bloom_mask (bit : Z) : Z := Z.shiftl 1 (bit mod 8).

Definition MayContain (bloom item : bytes) : bool :=
  forallb (fun bit => negb (Z.land (nth (bloom_byte bit) bloom 0) (bloom_mask bit) =? 0)) (bloomPositions item).

Definition set_bit (bloom : bytes) (bit : Z) : bytes :=
  <[bloom_byte bit := Z.lor (nth (bloom_byte bit) bloom 0) (bloom_mask bit)]> bloom.
Definition AddToBloom (bloom item : bytes) : bytes := foldl set_bit bloom (bloomPositions item).

Definition add_log (bloom : bytes) (l : Log) : bytes := foldl AddToBloom (AddToBloom bloom (lg_Address l)) (lg_Topics l).
Definition BloomFromLogs (logs : list Log) : bytes := foldl add_log (zeros 256) logs.

Definition BloomBitsSet (bloom : bytes) : Z :=
  zsum (map (fun b => zsum (map (fun i => Z.land (Z.shiftr b i) 1) (seqZ 0 8))) bloom).
End Bloom.

(** ** Sizes and types *)

Definition u64_ok (z : Z) : Prop := u_range 64 z.
Record log_ok (l : Log) : Prop := {
  lo_address : array_ok 20 (lg_Address l);
  lo_topics : Forall (array_ok 32) (lg_Topics l);
  lo_data : bytes_ok (lg_Data l)
}.
(** A receipt as Go holds it: the widths of its fields, and logs that fit in memory. *)
Record receipt_ok (r : Receipt) : Prop := {
  ro_index : u64_ok (rc_TxIndex r);
  ro_type : u64_ok (rc_Type r);
  ro_status : u64_ok (rc_Status r);
  ro_post : bytes_ok (rc_PostState r);
  ro_gas : u64_ok (rc_CumulativeGasUsed r);
  ro_bloom : array_ok 256 (rc_Bloom r);
  ro_logs : Forall log_ok (rc_Logs r);
  ro_size : zsum (map (fun l => blen (encode_log l)) (rc_Logs r)) < 2 ^ 49
}.

(** ** Receipts as items *)

Definition log_item (l : Log) : rlpItem := RlpList [RlpBytes (lg_Address l); RlpList (map RlpBytes (lg_Topics l)); RlpBytes (lg_Data l)].
Definition status_bytes (r : Receipt) : bytes :=
  if (length (rc_PostState r) =? 32)%nat then rc_PostState r else uint_bytes (rc_Status r).
Definition receipt_item (r : Receipt) : rlpItem :=
  RlpList [RlpBytes (status_bytes r); RlpBytes (uint_bytes (rc_CumulativeGasUsed r)); RlpBytes (rc_Bloom r); RlpList (map log_item (rc_Logs r))].

Lemma encode_log_item (l : Log) : encode_log l = encode_item (log_item l).
Proof. unfold encode_log, log_item. cbn [encode_item map]. by rewrite map_map. Qed.

(** What [Encode] accepts. *)
Record encodable (r : Receipt) : Prop := {
  en_type : rc_Type r <= 0xFF;
  en_post : length (rc_PostState r) = 0%nat \/ length (rc_PostState r) = 32%nat;
  en_status : rc_PostState r = [] -> rc_Status r <= 1
}.

Lemma Receipt_Encode_ok (r : Receipt) (b : bytes) :
  Receipt_Encode r = Ok b <-> encodable r /\ b = (if rc_Type r =? 0 then [] else [wrap_u 8 (rc_Type r)]) ++ encode_item (receipt_item r).
Proof.
  unfold Receipt_Encode. rewrite !guard_err_ok, Z.ltb_ge, !andb_false_iff, !negb_false_iff, !Nat.eqb_eq, Nat.eqb_neq, Z.ltb_ge.
  assert (EncodeRLPList [(if (length (rc_PostState r) =? 32)%nat then EncodeRLPBytes (rc_PostState r) else EncodeRLPUint (rc_Status r));
    EncodeRLPUint (rc_CumulativeGasUsed r); EncodeRLPBytes (rc_Bloom r); EncodeRLPList (map encode_log (rc_Logs r))] = encode_item (receipt_item r)) as ->.
  { unfold receipt_item, status_bytes. cbn [encode_item map]. rewrite map_map, !EncodeRLPUint_item. f_equal. f_equal; [by destruct (_ =? 32)%nat|].
    f_equal. f_equal. f_equal. f_equal. apply map_ext. apply encode_log_item. }
  split.
  - intros (H1 & H2 & H3 & H). split; [split; [done|tauto|]; intros E; rewrite E in H3; destruct H3 as [H3|?]; [by destruct H3|done]|].
    destruct (rc_Type r =? 0); by injection H.
  - intros ([H1 H2 H3] & ->). split; [done|]. split; [tauto|]. split; [|by destruct (rc_Type r =? 0)].
    destruct (decide (length (rc_PostState r) = 0%nat)) as [E|E]; [right; apply H3; by apply length_zero_iff_nil|by left].
Qed.

Lemma log_item_ok (l : Log) : log_ok l -> item_ok (log_item l).
Proof.
  intros [[_ H1] H2 H3]. unfold log_item. rewrite item_ok_list. constructor; [done|]. constructor; [|by constructor].
  rewrite item_ok_list. apply Forall_map. eapply Forall_impl; [exact H2|]. by intros t [_ ?].
Qed.

Lemma status_bytes_ok (r : Receipt) : receipt_ok r -> bytes_ok (status_bytes r) /\ blen (status_bytes r) <= 32.
Proof.
  intros H. unfold status_bytes. destruct (Nat.eqb_spec (length (rc_PostState r)) 32) as [E|]; [split; [apply H|unfold blen; lia]|].
  destruct (uint_bytes_spec (rc_Status r) (ro_status r H)) as (? & _ & ?). split; [done|lia].
Qed.

Lemma receipt_item_ok (r : Receipt) : receipt_ok r -> item_ok (receipt_item r) /\ blen (encode_item (receipt_item r)) < 2 ^ 50 - 1.
Proof.
  intros H. destruct (status_bytes_ok r H) as [S1 S2]. destruct (uint_bytes_spec (rc_CumulativeGasUsed r) (ro_gas r H)) as (G1 & _ & G2).
  destruct (ro_bloom r H) as [B1 B2]. split.
  - unfold receipt_item. rewrite item_ok_list. constructor; [done|]. constructor; [done|]. constructor; [done|]. constructor; [|constructor].
    rewrite item_ok_list. apply Forall_map. eapply Forall_impl; [apply (ro_logs r H)|]. intros l. apply log_item_ok.
  - unfold receipt_item. cbn [encode_item map]. match goal with |- blen (EncodeRLPList ?l) < _ => pose proof (blen_EncodeRLPList l) as HB end.
    unfold zsum in HB at 1. cbn [map foldr] in HB. pose proof (blen_EncodeRLPBytes (status_bytes r)). pose proof (blen_EncodeRLPBytes (uint_bytes (rc_CumulativeGasUsed r))).
    pose proof (blen_EncodeRLPBytes (rc_Bloom r)). pose proof (blen_EncodeRLPList (map encode_item (map log_item (rc_Logs r)))) as HL.
    rewrite !map_map in HL. pose proof (ro_size r H) as HS. rewrite map_map in HB.
    assert (map (fun x => blen (encode_item (log_item x))) (rc_Logs r) = map (fun l => blen (encode_log l)) (rc_Logs r)) as EL
      by (apply map_ext; intros l; by rewrite encode_log_item).
    rewrite EL in HL. assert (blen (rc_Bloom r) = 256) by (unfold blen; by rewrite B1). rewrite map_map. lia.
Qed.

(** The receipts a trie cannot tell apart: a status is not stored with a state root. *)
Record receipt_agree (r r' : Receipt) : Prop := {
  ra_index : rc_TxIndex r = rc_TxIndex r';
  ra_type : rc_Type r = rc_Type r';
  ra_post : rc_PostState r = rc_PostState r';
  ra_status : rc_PostState r = [] -> rc_Status r = rc_Status r';
  ra_gas : rc_CumulativeGasUsed r = rc_CumulativeGasUsed r';
  ra_bloom : rc_Bloom r = rc_Bloom r';
  ra_logs : rc_Logs r = rc_Logs r'
}.

Lemma log_item_inj (l l' : Log) : log_item l = log_item l' -> l = l'.
Proof.
  destruct l, l'. unfold log_item. cbn [lg_Address lg_Topics lg_Data]. intros [= -> HT ->]. f_equal.
  revert lg_Topics1 HT. induction lg_Topics0 as [|t ts IH]; intros [|t' ts'] HT; try done. injection HT as -> HT. f_equal. by apply IH.
Qed.

Lemma map_log_item_inj (l k : list Log) : map log_item l = map log_item k -> l = k.
Proof.
  revert k. induction l as [|x l IH]; intros [|y k]; cbn [map]; intros H; try done.
  apply (f_equal (fun l => match l with [] => None | a :: t => Some (a, t) end)) in H. injection H as H1 H2 H3 H4.
  f_equal; [|by apply IH]. apply log_item_inj. unfold log_item. congruence.
Qed.

(** Two list encodings, both with payloads of 256 bytes or more, cannot be told apart by a
    byte put in front of one of them only if the other's payload starts with a list. *)
Lemma prefixed_list (t : Z) (px py : bytes) : 255 < blen px < 2 ^ 55 -> 255 < blen py < 2 ^ 55 ->
  rlpLengthPrefix 0xC0 (blen px) ++ px = t :: rlpLengthPrefix 0xC0 (blen py) ++ py -> exists p rest, px = p :: rest /\ 0xC0 <= p.
Proof.
  intros Hx Hy E. destruct (prefix_long 0xC0 (blen px)) as (lx & Px & Dx & Ox & Nx & c & a & Ex & _); [lia..|].
  destruct (prefix_long 0xC0 (blen py)) as (ly & Py & Dy & Oy & Ny & c' & a' & Ey & Hc'); [lia..|].
  rewrite Px, Py, Ex, <- !app_comm_cons in E. apply cons_eq_inv in E as [_ E]. apply cons_eq_inv in E as [Ec E].
  assert (length a <= 7 /\ length a' <= 7)%nat as [La La'] by (rewrite Ex, Ey in *; unfold blen in *; cbn [length] in *; lia).
  assert (blen a + blen px = 1 + blen a' + blen py) as EL.
  { apply (f_equal length) in E. rewrite Ey in E. rewrite !length_app in E. cbn [length] in E. unfold blen. lia. }
  rewrite Ex, be_decode_cons in Dx. rewrite Ex in Ox. apply Forall_cons in Ox as [_ Oa]. pose proof (be_decode_range a Oa) as Ra.
  assert (blen ly = 1 + blen a') as Bly by (rewrite Ey; unfold blen; cbn [length]; lia).
  pose proof Dy as Dy'. rewrite Ey, be_decode_cons in Dy'. pose proof Oy as Oy'. rewrite Ey in Oy'. apply Forall_cons in Oy' as [Bc' Oa'].
  pose proof (be_decode_range a' Oa') as Ra'. unfold byte_ok in Bc'.
  destruct (decide (length a = length a')) as [Eq|Ne].
  - destruct px as [|p px]; [unfold blen in Hx; cbn in Hx; lia|]. exists p, px. split; [done|].
    assert (ly = a ++ [p]) as Ely.
    { change (p :: px) with ([p] ++ px) in E. rewrite app_assoc in E. apply app_inj_1 in E as [E _]; [done|].
      rewrite length_app, Ey. cbn [length]. lia. }
    rewrite Ely, be_decode_app in Dy. cbn [length] in Dy. change (be_decode [p]) with (0 * 256 + p) in Dy.
    assert (byte_ok p) as Bp by (rewrite Ely in Oy; apply Forall_app in Oy as [_ Oy]; by apply Forall_cons in Oy as [? _]). unfold byte_ok in Bp.
    unfold blen in *. rewrite Bly in Ec. rewrite <- Eq in *. clear - Ec EL Dx Dy La Bp Ra Hx. cbn [length] in *.
    destruct (length a) as [|[|[|[|[|[|[|[|]]]]]]]]; cbn in *; lia.
  - exfalso. unfold blen in *. rewrite Bly in Ec. clear - Ne La La' EL Dx Dy' Ra Ra' Bc' Hc' Ec Hx Hy.
    destruct (length a) as [|[|[|[|[|[|[|[|]]]]]]]], (length a') as [|[|[|[|[|[|[|[|]]]]]]]]; cbn in *; lia.
Qed.

Lemma short_head (b : bytes) : bytes_ok b -> blen b <= 55 -> exists c rest, EncodeRLPBytes b = c :: rest /\ c < 0xC0.
Proof.
  intros Hb HL. unfold EncodeRLPBytes. assert (0 <= blen b) by (unfold blen; lia).
  destruct b as [|x [|y b]]; [| |rewrite prefix_short by lia; eexists _, _; split; [reflexivity|lia]].
  - rewrite prefix_short by (unfold blen; cbn; lia). eexists _, _. split; [reflexivity|]. unfold blen. cbn. lia.
  - destruct (Z.ltb_spec x 128); [eexists _, _; split; [reflexivity|lia]|]. rewrite prefix_short by lia. eexists _, _. split; [reflexivity|lia].
Qed.

(** The payload of a receipt holds the bloom, so it is long, and starts with a string. *)
Lemma receipt_payload (r : Receipt) : receipt_ok r -> exists payload, encode_item (receipt_item r) = rlpLengthPrefix 0xC0 (blen payload) ++ payload /\
  255 < blen payload < 2 ^ 55 /\ exists c rest, payload = c :: rest /\ c < 0xC0.
Proof.
  intros O. destruct (receipt_item_ok r O) as [_ HL]. destruct (status_bytes_ok r O) as [S1 S2]. destruct (short_head (status_bytes r) S1) as (c & rest & Ec & Hc); [lia|].
  set (items := [EncodeRLPBytes (status_bytes r); EncodeRLPBytes (uint_bytes (rc_CumulativeGasUsed r)); EncodeRLPBytes (rc_Bloom r);
    EncodeRLPList (map encode_item (map log_item (rc_Logs r)))]).
  assert (encode_item (receipt_item r) = rlpLengthPrefix 0xC0 (blen (concat items)) ++ concat items) as EI by (rewrite <- zsum_blen; reflexivity).
  exists (concat items). split; [exact EI|]. rewrite EI, blen_app in HL. assert (0 <= blen (rlpLengthPrefix 0xC0 (blen (concat items)))) by (unfold blen; lia).
  assert (256 <= blen (EncodeRLPBytes (rc_Bloom r))) as HB.
  { destruct (ro_bloom r O) as [Lb _]. assert (EncodeRLPBytes (rc_Bloom r) = rlpLengthPrefix 0x80 (blen (rc_Bloom r)) ++ rc_Bloom r) as ->.
    { destruct (rc_Bloom r) as [|x [|y b]]; done. } rewrite blen_app. unfold blen. rewrite Lb. lia. }
  split; [|exists c; eexists; split; [unfold items; cbn [concat]; rewrite Ec; reflexivity|done]].
  split; [|lia]. unfold items. cbn [concat]. rewrite !blen_app. unfold blen in *. lia.
Qed.

(** The bytes of a receipt in the trie. *)
Definition receipt_bytes (r : Receipt) : bytes := (if rc_Type r =? 0 then [] else [wrap_u 8 (rc_Type r)]) ++ encode_item (receipt_item r).

Lemma receipt_bytes_inj (r r' : Receipt) : receipt_ok r -> receipt_ok r' -> encodable r -> encodable r' ->
  receipt_bytes r = receipt_bytes r' -> rc_TxIndex r = rc_TxIndex r' -> receipt_agree r r'.
Proof.
  intros O O' N N' E EI. destruct (receipt_item_ok r O) as [I1 I2]. destruct (receipt_item_ok r' O') as [I1' I2'].
  assert (forall x y, receipt_ok x -> receipt_ok y -> rc_Type x = 0 -> rc_Type y <> 0 -> receipt_bytes x <> receipt_bytes y) as HT.
  { intros x y Ox Oy Tx Ty H. unfold receipt_bytes in H. rewrite Tx in H. apply Z.eqb_neq in Ty. rewrite Ty, app_nil_l in H.
    destruct (receipt_payload x Ox) as (px & Ex & Hx & c & rest & Epx & Hc). destruct (receipt_payload y Oy) as (py & Ey & Hy & _).
    rewrite Ex, Ey, <- app_comm_cons, app_nil_l in H. destruct (prefixed_list _ px py Hx Hy H) as (p & rest' & E' & Hp). rewrite Epx in E'. injection E' as <- _. lia. }
  assert (rc_Type r = rc_Type r' /\ receipt_item r = receipt_item r') as [ET EQ].
  { destruct (decide (rc_Type r = 0)) as [T|T], (decide (rc_Type r' = 0)) as [T'|T'].
    - split; [congruence|]. unfold receipt_bytes in E. rewrite T, T', !app_nil_l in E. apply encode_item_inj in E; [done|done|done|lia].
    - by destruct (HT r r' O O' T T').
    - by destruct (HT r' r O' O T' T).
    - unfold receipt_bytes in E. apply Z.eqb_neq in T, T'. rewrite T, T', <- !app_comm_cons, !app_nil_l in E. apply cons_eq_inv in E as [ET E].
      pose proof (ro_type r O). pose proof (ro_type r' O'). pose proof (en_type r N). pose proof (en_type r' N'). unfold u64_ok, u_range in *.
      rewrite !wrap_u_small in ET by (unfold u_range; lia). split; [done|]. apply encode_item_inj in E; [done|done|done|lia]. }
  unfold receipt_item in EQ. apply RlpList_inj in EQ. apply (f_equal (fun l => (nth 0 l (RlpList []), nth 1 l (RlpList []), nth 2 l (RlpList []), nth 3 l (RlpList [])))) in EQ.
  cbn [nth] in EQ. apply pair_equal_spec in EQ as [EQ EL]. apply pair_equal_spec in EQ as [EQ EB]. apply pair_equal_spec in EQ as [ES EG].
  injection ES as ES. injection EG as EG. injection EB as EB. apply RlpList_inj, map_log_item_inj in EL.
  apply uint_bytes_inj in EG; [|apply O|apply O'].
  assert (rc_PostState r = rc_PostState r' /\ (rc_PostState r = [] -> rc_Status r = rc_Status r')) as [EP ES'].
  { assert (forall x, receipt_ok x -> encodable x -> rc_PostState x = [] -> blen (uint_bytes (rc_Status x)) <= 8) as HU.
    { intros x Ox Nx Px. apply uint_bytes_spec, Ox. }
    unfold status_bytes in ES. destruct (en_post r N) as [P|P], (en_post r' N') as [P'|P']; rewrite P, P' in ES; cbn [Nat.eqb] in ES.
    - apply length_zero_iff_nil in P as ->, P' as ->. split; [done|]. intros _. apply uint_bytes_inj in ES; [done|apply O|apply O'].
    - exfalso. apply length_zero_iff_nil in P. specialize (HU r O N P). rewrite ES in HU. unfold blen in HU. rewrite P' in HU. lia.
    - exfalso. apply length_zero_iff_nil in P'. specialize (HU r' O' N' P'). rewrite <- ES in HU. unfold blen in HU. rewrite P in HU. lia.
    - split; [done|]. intros E0. by rewrite E0 in P. }
  by split.
Qed.

(** ** The trie of a block's receipts *)

Section Complete.
Context `{K : Keccak} {KL : KeccakLaws K}.

Definition receipt_entry (r : Receipt) : TrieEntry := mkTrieEntry (EncodeRLPUint (rc_TxIndex r)) (receipt_bytes r).
Definition receipt_nodes (rs : list Receipt) : list bytes := trie_nodes (map receipt_entry rs).

Lemma receipt_entries_ok (seen : gset Z) (rs : list Receipt) (es : list TrieEntry) : receipt_entries seen rs = Ok es ->
  es = map receipt_entry rs /\ Forall encodable rs /\ NoDup (map rc_TxIndex rs) /\ Forall (fun r => rc_TxIndex r ∉ seen) rs.
Proof.
  revert seen es. induction rs as [|r rs IH]; intros seen es; cbn [receipt_entries map].
  { intros [= <-]. repeat split; [by apply Forall_nil_2|by apply NoDup_nil|by apply Forall_nil_2]. }
  intros H. apply guard_err_ok in H as [HS H]. apply obind_ok in H as (v & Hv & H). apply obind_ok in H as (es' & He & H). apply Ok_inj in H as <-.
  apply bool_decide_eq_false in HS. apply Receipt_Encode_ok in Hv as [HN ->]. destruct (IH _ _ He) as (-> & H1 & H2 & H3).
  split; [done|]. split; [by constructor|]. split.
  - apply NoDup_cons. split; [|done]. intros HI. apply list_elem_of_fmap in HI as (r' & E & Hr). apply (proj1 (Forall_forall _ _) H3) in Hr. set_solver.
  - constructor; [done|]. eapply Forall_impl; [exact H3|]. intros r' Hr. set_solver.
Qed.

Lemma index_key_inj (x y : Z) : u64_ok x -> u64_ok y -> EncodeRLPUint x = EncodeRLPUint y -> x = y.
Proof.
  intros Hx Hy E. rewrite !EncodeRLPUint_item in E. destruct (uint_bytes_spec x Hx) as (O & _ & L). destruct (uint_bytes_spec y Hy) as (O' & _ & _).
  apply encode_item_inj in E; [injection E as E; by apply uint_bytes_inj|done|done|]. cbn [encode_item]. pose proof (blen_EncodeRLPBytes (uint_bytes x)). lia.
Qed.

Lemma encode_list_bytes (l : list bytes) (n : Z) : 0 <= n -> Forall bytes_ok l -> bytes_ok (rlpLengthPrefix n (zsum (map blen l)) ++ concat l).
Proof.
  intros Hn Hl. apply Forall_app_2.
  - unfold rlpLengthPrefix. destruct (_ <=? 55); [repeat constructor; apply byte_mod_ok|].
    constructor; [apply byte_mod_ok|]. assert (forall k x acc, bytes_ok acc -> bytes_ok (be_minimal k x acc)) as HB; [|by apply HB, Forall_nil_2].
    intros k. induction k as [|k IH]; intros x acc Ha; cbn [be_minimal]; [done|]. destruct (0 <? x); [|done]. apply IH. constructor; [apply byte_mod_ok|done].
  - induction Hl as [|b l Hb Hl IH]; [by apply Forall_nil_2|]. by apply Forall_app_2.
Qed.

Lemma encode_item_bytes (it : rlpItem) : item_ok it -> bytes_ok (encode_item it).
Proof.
  assert (forall b, bytes_ok b -> bytes_ok (EncodeRLPBytes b)) as HB.
  { intros b Hb. unfold EncodeRLPBytes. assert (bytes_ok (rlpLengthPrefix 128 (blen b) ++ b)) as HP.
    { pose proof (encode_list_bytes [b] 128 ltac:(lia) ltac:(by constructor)) as H. cbn [map concat] in H. rewrite app_nil_r in H.
      change (zsum [blen b]) with (blen b + 0) in H. by rewrite Z.add_0_r in H. }
    destruct b as [|x [|y b]]; [done| |done]. destruct (x <? 128); done. }
  revert it. fix IH 1. intros [b|l] H; [by apply HB|]. cbn [encode_item]. unfold EncodeRLPList. apply encode_list_bytes; [lia|].
  apply item_ok_list in H. induction l as [|x l IHl]; cbn [map]; [by apply Forall_nil_2|]. apply Forall_cons in H as [Hx H]. constructor; [by apply IH|by apply IHl].
Qed.

Lemma receipt_entries_sized (rs : list Receipt) : Forall receipt_ok rs -> NoDup (map rc_TxIndex rs) -> entries_ok (map receipt_entry rs).
Proof.
  intros HO HD. split.
  - rewrite map_map. cbn [receipt_entry te_Key]. induction HO as [|r rs Hr HO IH]; cbn [map]; [by apply NoDup_nil|]. cbn [map] in HD.
    apply NoDup_cons in HD as [Hn HD]. apply NoDup_cons. split; [|by apply IH]. intros HI. apply Hn. apply list_elem_of_fmap in HI as (r' & E & Hr').
    apply index_key_inj in E; [rewrite E; by apply (list_elem_of_fmap_2 rc_TxIndex)|apply Hr|]. by apply (proj1 (Forall_forall _ _) HO).
  - apply Forall_map. eapply Forall_impl; [exact HO|]. intros r Hr. unfold entry_ok, compose. cbn [receipt_entry te_Key te_Value].
    destruct (receipt_item_ok r Hr) as [I1 I2]. destruct (uint_bytes_spec (rc_TxIndex r) (ro_index r Hr)) as (U1 & _ & U2). rewrite EncodeRLPUint_item.
    split; [by apply encode_item_bytes|]. split; [unfold receipt_bytes; apply Forall_app_2; [destruct (_ =? 0); repeat constructor; apply byte_mod_ok|by apply encode_item_bytes]|].
    split; [cbn [encode_item]; pose proof (blen_EncodeRLPBytes (uint_bytes (rc_TxIndex r))); lia|].
    unfold receipt_bytes. rewrite blen_app. assert (blen (if rc_Type r =? 0 then [] else [wrap_u 8 (rc_Type r)]) <= 1) by (destruct (_ =? 0); unfold blen; cbn; lia). lia.
Qed.

Lemma AuthenticateReceipts_inv (root : bytes) (rs out : list Receipt) : AuthenticateReceipts root rs = Ok out ->
  out = rs /\ Forall encodable rs /\ NoDup (map rc_TxIndex rs) /\ BuildMPT (map receipt_entry rs) = root.
Proof.
  intros H. apply obind_ok in H as (got & Hg & H). apply guard_err_ok in H as [HE H]. apply Ok_inj in H as <-. apply orb_false_iff in HE as [_ HE].
  apply negb_false_iff, bool_decide_eq_true in HE as <-. apply obind_ok in Hg as (es & He & Hg). apply Ok_inj in Hg as <-.
  by destruct (receipt_entries_ok _ _ _ He) as (-> & H1 & H2 & _).
Qed.

Lemma authenticated_same (root : bytes) (rs rs' out out' : list Receipt) :
  AuthenticateReceipts root rs = Ok out -> AuthenticateReceipts root rs' = Ok out' -> Forall receipt_ok rs -> Forall receipt_ok rs' ->
  (exists rs'', rs'' ≡ₚ rs' /\ Forall2 receipt_agree rs rs'') \/ collision_in (receipt_nodes rs) (receipt_nodes rs').
Proof.
  intros H H' HO HO'. apply AuthenticateReceipts_inv in H as (_ & N & D & R). apply AuthenticateReceipts_inv in H' as (_ & N' & D' & R').
  assert (forall rs, Forall (fun e => te_Value e <> []) (map receipt_entry rs)) as HV.
  { intros l. apply Forall_map, Forall_forall. intros r _. unfold compose, receipt_entry. cbn [te_Value]. unfold receipt_bytes. intros E.
    pose proof (encode_item_nonempty (receipt_item r)) as HN. apply app_eq_nil in E as [_ E]. rewrite E in HN. cbn in HN. lia. }
  destruct (root_same_set (map receipt_entry rs) (map receipt_entry rs')) as [HP|?]; [by apply receipt_entries_sized|by apply receipt_entries_sized|done|done|congruence| |by right].
  left. apply Permutation_map_inv in HP as (rs'' & E & HP). exists rs''. split; [by symmetry|].
  assert (Forall receipt_ok rs'') as HO'' by (rewrite <- HP; done). assert (Forall encodable rs'') as N'' by (rewrite <- HP; done).
  clear - E HO HO'' N N''. revert rs'' E HO'' N''. induction rs as [|r rs IH]; intros [|r' rs''] E HO'' N''; try done.
  cbn [map] in E. apply cons_eq_inv in E as [EE E]. pose proof (f_equal te_Key EE) as EK. pose proof (f_equal te_Value EE) as EV.
  cbn [receipt_entry te_Key te_Value] in EK, EV. apply Forall_cons in HO as [Ho HO]. apply Forall_cons in HO'' as [Ho' HO'']. apply Forall_cons in N as [n N]. apply Forall_cons in N'' as [n' N''].
  constructor; [|by apply IH]. apply receipt_bytes_inj; try done. apply index_key_inj; [apply Ho|apply Ho'|done].
Qed.

(** C22. Nothing can be withheld: two sets of receipts admitted for one root hold the same receipts -
    each with the same type, status or state root, gas, bloom and logs, in whatever order they
    were sent - so a provider that omits, adds or alters one is refused, short of two colliding
    nodes of the two tries.  Of the receipts sent only what Go's types say is assumed: every field in
    the range of its type, any 64-bit transaction type included, and logs whose encodings fit in
    memory (under 2^49 bytes). *)
Theorem receipts_complete (root : bytes) (rs rs' out out' : list Receipt)
    (H : AuthenticateReceipts root rs = Ok out) (H' : AuthenticateReceipts root rs' = Ok out')
    (Hok : Forall receipt_ok rs) (Hok' : Forall receipt_ok rs') :
  (exists rs'', rs'' ≡ₚ rs' /\ Forall2 receipt_agree rs rs'') \/ collision_in (receipt_nodes rs) (receipt_nodes rs').
Proof. by eapply authenticated_same. Qed.
End Complete.

(** ** Decoding is typed and skips nothing *)

Lemma hex_scan_range (s : string) (acc v : Z) : u64_ok acc -> hex_scan s acc = Some v -> u64_ok v.
Proof.
  revert acc. induction s as [|c s IH]; intros acc Ha; cbn [hex_scan]; [by intros [= <-]|]. destruct (hex_value c) as [d|] eqn:E; [|done].
  apply hex_value_range in E. destruct (Z.leb_spec (2 ^ 64) (acc * 16 + d)); [done|]. apply IH. unfold u64_ok, u_range in *. lia.
Qed.
Lemma hexQuantity_range (s : string) (v : Z) : hexQuantity s = Ok v -> u64_ok v.
Proof.
  intros H. apply guard_err_ok in H as [_ H]. destruct (parse_hex_u64 _) as [w|] eqn:E; [|done]. injection H as ->. unfold parse_hex_u64 in E.
  destruct (trim_0x s); [done|]. by apply hex_scan_range in E.
Qed.
Lemma hexData_typed (s : string) (n : option nat) (b : bytes) : hexData s n = Ok b -> bytes_ok b /\ forall k, n = Some k -> length b = k.
Proof.
  intros H. apply obind_ok in H as (raw & Hr & H). destruct (hex_decode (trim_0x s)) as [r|] eqn:E; [|done]. injection Hr as ->. apply hex_decode_ok in E.
  destruct n as [k|]; [|injection H as <-; done]. apply guard_err_ok in H as [HL H]. apply Ok_inj in H as <-. apply negb_false_iff, Nat.eqb_eq in HL.
  split; [done|]. by intros k' [= <-].
Qed.

Lemma map_outcome_ok {E A B : Type} (f : A -> outcome E B) (l : list A) (k : list B) : map_outcome f l = Ok k <-> Forall2 (fun a b => f a = Ok b) l k.
Proof.
  revert k. induction l as [|a l IH]; intros k; cbn [map_outcome].
  - split; [intros [= <-]; constructor|]. by intros ->%Forall2_nil_inv_l.
  - split.
    + intros H. apply obind_ok in H as (b & Hb & H). apply obind_ok in H as (bs & Hbs & H). injection H as <-. constructor; [done|by apply IH].
    + intros H. apply Forall2_cons_inv_l in H as (b & bs & Hb & Hbs & ->). rewrite Hb. cbn [obind]. apply IH in Hbs as ->. done.
Qed.

Record receipt_typed (r : Receipt) : Prop := {
  rt_index : u64_ok (rc_TxIndex r); rt_type : u64_ok (rc_Type r); rt_status : u64_ok (rc_Status r); rt_gas : u64_ok (rc_CumulativeGasUsed r);
  rt_post : bytes_ok (rc_PostState r) /\ (length (rc_PostState r) = 0%nat \/ length (rc_PostState r) = 32%nat);
  rt_bloom : array_ok 256 (rc_Bloom r); rt_logs : Forall log_ok (rc_Logs r)
}.

Lemma decode_log_typed (l : rpcLog) (x : Log) : decode_log l = Ok x -> log_ok x.
Proof.
  intros H. apply obind_ok in H as (a & Ha & H). apply obind_ok in H as (ts & Ht & H). apply obind_ok in H as (d & Hd & H). apply Ok_inj in H as <-.
  apply hexData_typed in Ha as [Oa La], Hd as [Od _]. split; cbn [lg_Address lg_Topics lg_Data].
  - split; [by apply La|done].
  - apply map_outcome_ok in Ht. clear - Ht. induction Ht as [|s t ss ts Hs _ IH]; constructor; [|done]. apply hexData_typed in Hs as [O L]. split; [by apply L|done].
  - done.
Qed.

(** Everything a provider's JSON decodes to has the width Go gives it, and the
    decoding is all or nothing: each receipt of the answer, each with all its logs,
    or an error. *)
Theorem decoded_receipts_typed (parsed : list rpcReceipt) (rs : list Receipt) (H : DecodeRPCReceipts (Some parsed) = Ok rs) :
  Forall receipt_typed rs /\ Forall2 (fun p r => decode_receipt p = Ok r /\ length (rc_Logs r) = length (rr_Logs p)) parsed rs.
Proof.
  apply map_outcome_ok in H. induction H as [|p r ps rs Hr _ [IH1 IH2]]; [split; constructor|].
  assert (receipt_typed r /\ length (rc_Logs r) = length (rr_Logs p)) as [HT HL]; [|split; by constructor].
  pose proof Hr as H. apply obind_ok in H as (ix & Hix & H). apply obind_ok in H as (ty & Hty & H). apply obind_ok in H as (gas & Hgas & H).
  apply obind_ok in H as ([post st] & Hps & H). apply obind_ok in H as (bl & Hbl & H). apply obind_ok in H as (lg & Hlg & H). apply Ok_inj in H as <-.
  apply map_outcome_ok in Hlg. split; [|cbn [rc_Logs]; symmetry; by eapply Forall2_length].
  assert (u64_ok 0) as H0 by (unfold u64_ok, u_range; lia).
  split; cbn [rc_TxIndex rc_Type rc_Status rc_PostState rc_CumulativeGasUsed rc_Bloom rc_Logs].
  - by eapply hexQuantity_range.
  - destruct (String.eqb (rr_Type p) ""); [injection Hty as <-; done|by eapply hexQuantity_range].
  - destruct (negb _); apply obind_ok in Hps as (x & Hx & Hps); injection Hps as <- <-; [done|by eapply hexQuantity_range].
  - by eapply hexQuantity_range.
  - destruct (negb _); apply obind_ok in Hps as (x & Hx & Hps); injection Hps as <- <-; [|split; [by apply Forall_nil_2|by left]].
    apply hexData_typed in Hx as [O L]. split; [done|right; by apply L].
  - apply hexData_typed in Hbl as [O L]. split; [by apply L|done].
  - clear - Hlg. induction Hlg as [|x y xs ys Hx _ IH]; constructor; [by eapply decode_log_typed|done].
Qed.

(** ** The bloom has no false negatives *)

Lemma land_bit (x k : Z) : 0 <= k -> (Z.land x (Z.shiftl 1 k) =? 0) = negb (Z.testbit x k).
Proof.
  intros Hk. destruct (Z.testbit x k) eqn:E.
  - apply Z.eqb_neq. intros H. apply (f_equal (fun z => Z.testbit z k)) in H. rewrite Z.land_spec, Z.shiftl_spec, Z.sub_diag, E, Z.bits_0 in H by lia. done.
  - apply Z.eqb_eq. apply Z.bits_inj'. intros n Hn. rewrite Z.land_spec, Z.bits_0. destruct (decide (n = k)) as [->|Hne]; [by rewrite E|].
    rewrite Z.shiftl_spec by lia. destruct (Z.ltb_spec n k); [by rewrite (Z.testbit_neg_r 1), andb_false_r by lia|].
    rewrite (Z.bits_above_log2 1 (n - k)); [apply andb_false_r|lia|change (Z.log2 1) with 0; lia].
Qed.

Definition has_bit (bloom : bytes) (bit : Z) : bool := Z.testbit (nth (bloom_byte bit) bloom 0) (bit mod 8).

Section Blooms.
Context `{K : Keccak}.

Lemma MayContain_bits (bloom item : bytes) : MayContain bloom item = forallb (has_bit bloom) (bloomPositions item).
Proof.
  unfold MayContain. induction (bloomPositions item) as [|b l IH]; [done|]. cbn [forallb]. rewrite IH. f_equal.
  unfold has_bit, bloom_mask. rewrite land_bit by (apply Z.mod_pos_bound; lia). by rewrite negb_involutive.
Qed.

Lemma bloomPositions_range (item : bytes) : Forall (fun b => 0 <= b < 2048) (bloomPositions item).
Proof.
  assert (forall h i, 0 <= bloom_position h i < 2048) as H; [|by repeat constructor; apply H].
  intros h i. unfold bloom_position. change 0x7FF with (Z.ones 11). rewrite Z.land_ones by lia. by apply Z.mod_pos_bound.
Qed.

Lemma set_bit_has (bloom : bytes) (b x : Z) : length bloom = 256%nat -> 0 <= b < 2048 ->
  length (set_bit bloom b) = 256%nat /\ (has_bit bloom x = true -> has_bit (set_bit bloom b) x = true) /\ has_bit (set_bit bloom b) b = true.
Proof.
  intros HL Hb. unfold set_bit. assert (bloom_byte b < 256)%nat as HB by (unfold bloom_byte; pose proof (Z.div_pos b 8); lia).
  assert (forall i, nth i (<[bloom_byte b := Z.lor (nth (bloom_byte b) bloom 0) (bloom_mask b)]> bloom) 0 =
    if decide (i = bloom_byte b) then Z.lor (nth (bloom_byte b) bloom 0) (bloom_mask b) else nth i bloom 0) as HN.
  { intros i. rewrite !nth_lookup. destruct (decide (i = bloom_byte b)) as [->|Hne]; [by rewrite list_lookup_insert_eq by lia|by rewrite list_lookup_insert_ne]. }
  split; [by rewrite length_insert|]. unfold has_bit. split.
  - rewrite HN. destruct (decide _) as [->|]; [|done]. intros H. by rewrite Z.lor_spec, H.
  - rewrite HN, decide_True by done. unfold bloom_mask. rewrite Z.lor_spec, Z.shiftl_spec, Z.sub_diag by (apply Z.mod_pos_bound; lia). apply orb_true_r.
Qed.

(** A bloom that only gained bits. *)
Definition bloom_le (b b' : bytes) : Prop := forall x, has_bit b x = true -> has_bit b' x = true.
#[export] Instance bloom_le_preorder : PreOrder bloom_le.
Proof. split; [by intros b x|]. intros a b c H1 H2 x Hx. by apply H2, H1. Qed.

Lemma MayContain_mono (b b' item : bytes) : bloom_le b b' -> MayContain b item = true -> MayContain b' item = true.
Proof. intros H. rewrite !MayContain_bits, !forallb_forall. intros HF x Hx. by apply H, HF. Qed.

Lemma AddToBloom_spec (bloom item : bytes) : length bloom = 256%nat ->
  length (AddToBloom bloom item) = 256%nat /\ bloom_le bloom (AddToBloom bloom item) /\ MayContain (AddToBloom bloom item) item = true.
Proof.
  intros HL. rewrite MayContain_bits. unfold AddToBloom. pose proof (bloomPositions_range item) as HR. revert bloom HL.
  induction HR as [|p ps Hp HR IH]; intros bloom HL; cbn [foldl forallb]; [split; [done|]; split; [done|done]|].
  destruct (set_bit_has bloom p p HL Hp) as (L1 & _ & S1). destruct (IH (set_bit bloom p) L1) as (L2 & M2 & F2).
  split; [done|]. split.
  - intros x Hx. apply M2. by apply (set_bit_has bloom p x HL Hp).
  - by rewrite (M2 p S1), F2.
Qed.

Lemma add_topics_spec (topics : list bytes) (bloom : bytes) : length bloom = 256%nat ->
  length (foldl AddToBloom bloom topics) = 256%nat /\ bloom_le bloom (foldl AddToBloom bloom topics) /\
  forall t, t ∈ topics -> MayContain (foldl AddToBloom bloom topics) t = true.
Proof.
  revert bloom. induction topics as [|t ts IH]; intros bloom HL; cbn [foldl]; [split; [done|]; split; [done|by intros t H%elem_of_nil]|].
  destruct (AddToBloom_spec bloom t HL) as (L1 & M1 & T1). destruct (IH (AddToBloom bloom t) L1) as (L2 & M2 & T2).
  split; [done|]. split; [by etrans|]. intros u [->|Hu]%elem_of_cons; [by apply (MayContain_mono _ _ _ M2)|by apply T2].
Qed.

Lemma add_log_spec (bloom : bytes) (l : Log) : length bloom = 256%nat ->
  length (add_log bloom l) = 256%nat /\ bloom_le bloom (add_log bloom l) /\ MayContain (add_log bloom l) (lg_Address l) = true /\
  forall t, t ∈ lg_Topics l -> MayContain (add_log bloom l) t = true.
Proof.
  intros HL. destruct (AddToBloom_spec bloom (lg_Address l) HL) as (L1 & M1 & T1). destruct (add_topics_spec (lg_Topics l) _ L1) as (L2 & M2 & T2).
  split; [done|]. split; [unfold add_log; by etrans|]. split; [by apply (MayContain_mono _ _ _ M2)|done].
Qed.

Lemma from_logs_spec (logs : list Log) (bloom : bytes) : length bloom = 256%nat ->
  length (foldl add_log bloom logs) = 256%nat /\ bloom_le bloom (foldl add_log bloom logs) /\
  forall l, l ∈ logs -> MayContain (foldl add_log bloom logs) (lg_Address l) = true /\ forall t, t ∈ lg_Topics l -> MayContain (foldl add_log bloom logs) t = true.
Proof.
  revert bloom. induction logs as [|l ls IH]; intros bloom HL; cbn [foldl]; [split; [done|]; split; [done|by intros l H%elem_of_nil]|].
  destruct (add_log_spec bloom l HL) as (L1 & M1 & A1 & T1). destruct (IH (add_log bloom l) L1) as (L2 & M2 & T2).
  split; [done|]. split; [by etrans|]. intros u [->|Hu]%elem_of_cons; [|by apply T2].
  split; [by apply (MayContain_mono _ _ _ M2)|]. intros t Ht. apply (MayContain_mono _ _ _ M2). by apply T1.
Qed.

(** The filter has no false negatives: an address or topic it denies is in none of
    the logs it was derived from. *)
Theorem bloom_denies_truly (logs : list Log) (item : bytes) (H : MayContain (BloomFromLogs logs) item = false) :
  Forall (fun l => lg_Address l <> item /\ item ∉ lg_Topics l) logs.
Proof.
  apply Forall_forall. intros l Hl. destruct (from_logs_spec logs (zeros 256) (length_replicate _ _)) as (_ & _ & HS).
  destruct (HS l Hl) as [HA HT]. unfold BloomFromLogs in H. split; [intros <-; congruence|]. intros Hi. apply HT in Hi. congruence.
Qed.
End Blooms.

(** ** Witnesses *)

Definition toy_log (a : Z) : Log := mkLog (be_encode 20 a) [be_encode 32 (a + 1)] [1; 2; 3].
Definition toy_receipt (i : Z) : Receipt := mkReceipt i (i mod 3) 1 [] (21000 * (i + 1)) (BloomFromLogs [toy_log i]) [toy_log i].
Definition toy_receipts : list Receipt := [toy_receipt 0; toy_receipt 1; toy_receipt 2].
Definition toy_receipts_root : bytes := match ReceiptsRoot toy_receipts with Ok r => r | _ => [] end.
Lemma toy_receipts_admitted :
  AuthenticateReceipts toy_receipts_root toy_receipts = Ok toy_receipts /\
  AuthenticateReceipts toy_receipts_root (reverse toy_receipts) = Ok (reverse toy_receipts).
Proof. split; vm_compute; reflexivity. Qed.
(** One left out. *)
Example toy_omission_refused : AuthenticateReceipts toy_receipts_root [toy_receipt 0; toy_receipt 2] = Err ErrReceiptsRootMismatch.
Proof. vm_compute. reflexivity. Qed.

Lemma toy_log_ok (a : Z) : log_ok (toy_log a).
Proof. split; [apply be_encode_array|constructor; [apply be_encode_array|constructor]|repeat constructor; unfold byte_ok; lia]. Qed.
Lemma toy_bloom_ok (i : Z) : 0 <= i < 3 -> array_ok 256 (BloomFromLogs [toy_log i]).
Proof. intros Hi. apply array_okb_spec.
  assert (i = 0 \/ i = 1 \/ i = 2) as [->|[->| ->]] by lia; vm_compute; reflexivity.
Qed.
Lemma toy_receipt_size (i : Z) : 0 <= i < 3 -> zsum (map (fun l => blen (encode_log l)) (rc_Logs (toy_receipt i))) < 2 ^ 49.
Proof. intros Hi. assert (i = 0 \/ i = 1 \/ i = 2) as [->|[->| ->]] by lia; vm_compute; reflexivity. Qed.
Lemma toy_receipt_ok (i : Z) : 0 <= i < 3 -> receipt_ok (toy_receipt i).
Proof.
  intros Hi. split; cbn [toy_receipt rc_TxIndex rc_Type rc_Status rc_PostState rc_CumulativeGasUsed rc_Bloom rc_Logs]; unfold u64_ok, u_range; try lia.
  - pose proof (Z.mod_pos_bound i 3). lia.
  - by apply Forall_nil_2.
  - by apply toy_bloom_ok.
  - constructor; [apply toy_log_ok|constructor].
  - by apply toy_receipt_size.
Qed.
Lemma toy_receipts_ok : Forall receipt_ok toy_receipts.
Proof. apply Forall_forall. intros r Hr. unfold toy_receipts in Hr. rewrite !elem_of_cons in Hr.
  destruct Hr as [->|[->|[->|Hr]]]; [apply toy_receipt_ok; lia..|by apply not_elem_of_nil in Hr].
Qed.
Lemma receipts_complete_witness :
  (exists rs'', rs'' ≡ₚ reverse toy_receipts /\ Forall2 receipt_agree toy_receipts rs'') \/
  collision_in (receipt_nodes toy_receipts) (receipt_nodes (reverse toy_receipts)).
Proof.
  refine (receipts_complete toy_receipts_root toy_receipts (reverse toy_receipts) _ _ (proj1 toy_receipts_admitted) (proj2 toy_receipts_admitted) toy_receipts_ok _).
  rewrite Forall_reverse. exact toy_receipts_ok.
Defined.

Definition toy_rpc : list rpcReceipt :=
  [mkRpcReceipt "0x2" "0x1" "" "0x5208" (String.append "0x" (hex_encode (zeros 256))) "0x0"
     [mkRpcLog "0x00000000000000000000000000000000000000aa" [] "0x0102"]].
Lemma toy_rpc_decodes : exists rs, DecodeRPCReceipts (Some toy_rpc) = Ok rs.
Proof. eexists. vm_compute. reflexivity. Qed.
Lemma decoded_receipts_typed_witness : exists rs, DecodeRPCReceipts (Some toy_rpc) = Ok rs /\ Forall receipt_typed rs.
Proof.
  destruct toy_rpc_decodes as [rs H]. exists rs. split; [exact H|]. exact (proj1 (decoded_receipts_typed toy_rpc rs H)).
Defined.

Lemma bloom_denies_truly_witness : Forall (fun l => lg_Address l <> be_encode 32 (77 * 2 ^ 240) /\ be_encode 32 (77 * 2 ^ 240) ∉ lg_Topics l) [toy_log 1].
Proof. apply (bloom_denies_truly [toy_log 1] (be_encode 32 (77 * 2 ^ 240))). vm_compute. reflexivity. Defined.
