(* ===== verification/EthHeader.v ===== *)
(** * Execution headers ([internal/ethproof/headerrlp.go])

    The layouts of the header from London to Prague, its encoding, and the gate
    that admits a header against a hash.  The encoding names its layout: two
    headers with one hash have one layout and the same fields, or they exhibit
    a collision of keccak256. *)
From S2P Require Import Prelude.
From S2P Require Import GoBytes.
From S2P Require Import Rlp.
From S2P Require Import EthProof.
From S2P Require Import EthTrie.
From S2P Require Import EthReceipts.

Inductive ExecutionFork : Type := ForkUnknown | ForkLondon | ForkShanghai | ForkCancun | ForkPrague.
#[export] Instance ExecutionFork_eq_dec : EqDecision ExecutionFork.
Proof. solve_decision. Defined.

Inductive header_field : Type := baseFeePerGas | withdrawalsRoot | blobGasUsed | excessBlobGas | parentBeaconBlockRoot | requestsHash | header_number.
Inductive header_err : Type := ErrForkUnrecorded | ErrHeaderIncomplete (f : header_field) | ErrHeaderHashMismatch.

(** The constants in their order of declaration, which [fork >= ForkLondon] compares. *)
Definition fork_rank (f : ExecutionFork) : nat :=
  match f with ForkUnknown => 0 | ForkLondon => 1 | ForkShanghai => 2 | ForkCancun => 3 | ForkPrague => 4 end.
Definition fork_from (since f : ExecutionFork) : bool := (fork_rank since <=? fork_rank f)%nat.

Definition mainnetLondonTime : Z := 1628166822.
Definition mainnetShanghaiTime : Z := 1681338455.
Definition mainnetCancunTime : Z := 1710338135.
Definition mainnetPragueTime : Z := 1746612311.

Definition ExecutionForkAt (chainID timestamp : Z) : outcome header_err ExecutionFork :=
  fail? negb (chainID =? 1) with ErrForkUnrecorded ;;
  if mainnetPragueTime <=? timestamp then Ok ForkPrague
  else if mainnetCancunTime <=? timestamp then Ok ForkCancun
  else if mainnetShanghaiTime <=? timestamp then Ok ForkShanghai
  else if mainnetLondonTime <=? timestamp then Ok ForkLondon
  else Err ErrForkUnrecorded.

(** The pointers of the post-fork fields and of the big integers are options. *)
Record ExecutionHeader : Type := mkExecutionHeader {
  eh_ParentHash : bytes; eh_UncleHash : bytes; eh_Coinbase : bytes; eh_StateRoot : bytes; eh_TxRoot : bytes; eh_ReceiptRoot : bytes;
  eh_Bloom : bytes; eh_Difficulty : option Z; eh_Number : option Z; eh_GasLimit : Z; eh_GasUsed : Z; eh_Time : Z; eh_Extra : bytes;
  eh_MixDigest : bytes; eh_Nonce : bytes;
  eh_BaseFee : option Z; eh_WithdrawalsRoot : option bytes; eh_BlobGasUsed : option Z; eh_ExcessBlobGas : option Z;
  eh_ParentBeaconBlockRoot : option bytes; eh_RequestsHash : option bytes
}.

(** [need(name, present)] *)
Definition need {A : Type} (name : header_field) (field : option A) : outcome header_err A := of_option (ErrHeaderIncomplete name) field.

Definition header_base_items (h : ExecutionHeader) : list bytes :=
  [EncodeRLPBytes (eh_ParentHash h); EncodeRLPBytes (eh_UncleHash h); EncodeRLPBytes (eh_Coinbase h); EncodeRLPBytes (eh_StateRoot h);
   EncodeRLPBytes (eh_TxRoot h); EncodeRLPBytes (eh_ReceiptRoot h); EncodeRLPBytes (eh_Bloom h); EncodeRLPBig (eh_Difficulty h);
   EncodeRLPBig (eh_Number h); EncodeRLPUint (eh_GasLimit h); EncodeRLPUint (eh_GasUsed h); EncodeRLPUint (eh_Time h);
   EncodeRLPBytes (eh_Extra h); EncodeRLPBytes (eh_MixDigest h); EncodeRLPBytes (eh_Nonce h)].

(** The four [if fork >= ...] blocks, each appending to [items]. *)
Definition london_items (h : ExecutionHeader) : outcome header_err (list bytes) :=
  let? fee := need baseFeePerGas (eh_BaseFee h) in
  Ok [EncodeRLPBig (Some fee)].
Definition shanghai_items (h : ExecutionHeader) : outcome header_err (list bytes) :=
  let? root := need withdrawalsRoot (eh_WithdrawalsRoot h) in
  Ok [EncodeRLPBytes root].
Definition cancun_items (h : ExecutionHeader) : outcome header_err (list bytes) :=
  let? used := need blobGasUsed (eh_BlobGasUsed h) in
  let? excess := need excessBlobGas (eh_ExcessBlobGas h) in
  let? root := need parentBeaconBlockRoot (eh_ParentBeaconBlockRoot h) in
  Ok [EncodeRLPUint used; EncodeRLPUint excess; EncodeRLPBytes root].
Definition prague_items (h : ExecutionHeader) : outcome header_err (list bytes) :=
  let? hash := need requestsHash (eh_RequestsHash h) in
  Ok [EncodeRLPBytes hash].
Definition from_fork (since fork : ExecutionFork) (items : outcome header_err (list bytes)) : outcome header_err (list bytes) :=
  if fork_from since fork then items else Ok [].

Definition EncodeExecutionHeader (h : ExecutionHeader) (fork : ExecutionFork) : outcome header_err bytes :=
  fail? bool_decide (fork = ForkUnknown) with ErrForkUnrecorded ;;
  let? london := from_fork ForkLondon fork (london_items h) in
  let? shanghai := from_fork ForkShanghai fork (shanghai_items h) in
  let? cancun := from_fork ForkCancun fork (cancun_items h) in
  let? prague := from_fork ForkPrague fork (prague_items h) in
  Ok (EncodeRLPList (header_base_items h ++ london ++ shanghai ++ cancun ++ prague)).

Section Authenticate.
Context `{K : Keccak}.
Definition AuthenticateHeader (h : ExecutionHeader) (fork : ExecutionFork) (authenticated : bytes) : outcome header_err bytes :=
  let? encoded := EncodeExecutionHeader h fork in
  let got := Keccak256 encoded in
  fail? negb (bool_decide (got = authenticated)) with ErrHeaderHashMismatch ;;
  Ok got.
End Authenticate.

(** ** The fields as strings *)

Definition header_base_strings (h : ExecutionHeader) : list bytes :=
  [eh_ParentHash h; eh_UncleHash h; eh_Coinbase h; eh_StateRoot h; eh_TxRoot h; eh_ReceiptRoot h; eh_Bloom h; rlp_big_bytes (eh_Difficulty h);
   rlp_big_bytes (eh_Number h); uint_bytes (eh_GasLimit h); uint_bytes (eh_GasUsed h); uint_bytes (eh_Time h); eh_Extra h; eh_MixDigest h; eh_Nonce h].
Definition fork_strings (h : ExecutionHeader) (fork : ExecutionFork) : list bytes :=
  (if fork_from ForkLondon fork then [rlp_big_bytes (eh_BaseFee h)] else []) ++
  (if fork_from ForkShanghai fork then [default [] (eh_WithdrawalsRoot h)] else []) ++
  (if fork_from ForkCancun fork then [uint_bytes (default 0 (eh_BlobGasUsed h)); uint_bytes (default 0 (eh_ExcessBlobGas h)); default [] (eh_ParentBeaconBlockRoot h)] else []) ++
  (if fork_from ForkPrague fork then [default [] (eh_RequestsHash h)] else []).
Definition header_item (h : ExecutionHeader) (fork : ExecutionFork) : rlpItem :=
  RlpList (map RlpBytes (header_base_strings h ++ fork_strings h fork)).

(** The fields a layout requires. *)
Record header_complete (h : ExecutionHeader) (fork : ExecutionFork) : Prop := {
  hc_known : fork <> ForkUnknown;
  hc_fee : is_Some (eh_BaseFee h);
  hc_withdrawals : fork_from ForkShanghai fork = true -> is_Some (eh_WithdrawalsRoot h);
  hc_used : fork_from ForkCancun fork = true -> is_Some (eh_BlobGasUsed h);
  hc_excess : fork_from ForkCancun fork = true -> is_Some (eh_ExcessBlobGas h);
  hc_beacon : fork_from ForkCancun fork = true -> is_Some (eh_ParentBeaconBlockRoot h);
  hc_requests : fork_from ForkPrague fork = true -> is_Some (eh_RequestsHash h)
}.

Lemma from_fork_ok (since fork : ExecutionFork) (items : outcome header_err (list bytes)) (strings l : list bytes) (P : Prop) :
  (forall l, items = Ok l <-> P /\ l = map EncodeRLPBytes strings) ->
  from_fork since fork items = Ok l <->
    (fork_from since fork = true -> P) /\ l = map EncodeRLPBytes (if fork_from since fork then strings else []).
Proof.
  intros H. unfold from_fork. destruct (fork_from since fork); [rewrite H; naive_solver|].
  split; [intros E; by apply Ok_inj in E as <-|]. by intros [_ ->].
Qed.

Lemma london_ok (h : ExecutionHeader) (l : list bytes) :
  london_items h = Ok l <-> is_Some (eh_BaseFee h) /\ l = map EncodeRLPBytes [rlp_big_bytes (eh_BaseFee h)].
Proof.
  unfold london_items. destruct (eh_BaseFee h) as [fee|]; cbn [need of_option obind map];
    [rewrite EncodeRLPBig_item; cbn [encode_item]|]; naive_solver (eauto using mk_is_Some).
Qed.
Lemma shanghai_ok (h : ExecutionHeader) (l : list bytes) :
  shanghai_items h = Ok l <-> is_Some (eh_WithdrawalsRoot h) /\ l = map EncodeRLPBytes [default [] (eh_WithdrawalsRoot h)].
Proof. unfold shanghai_items. destruct (eh_WithdrawalsRoot h); cbn [need of_option obind map default]; naive_solver (eauto using mk_is_Some). Qed.
Lemma prague_ok (h : ExecutionHeader) (l : list bytes) :
  prague_items h = Ok l <-> is_Some (eh_RequestsHash h) /\ l = map EncodeRLPBytes [default [] (eh_RequestsHash h)].
Proof. unfold prague_items. destruct (eh_RequestsHash h); cbn [need of_option obind map default]; naive_solver (eauto using mk_is_Some). Qed.
Lemma cancun_ok (h : ExecutionHeader) (l : list bytes) :
  cancun_items h = Ok l <->
    (is_Some (eh_BlobGasUsed h) /\ is_Some (eh_ExcessBlobGas h) /\ is_Some (eh_ParentBeaconBlockRoot h)) /\
    l = map EncodeRLPBytes [uint_bytes (default 0 (eh_BlobGasUsed h)); uint_bytes (default 0 (eh_ExcessBlobGas h)); default [] (eh_ParentBeaconBlockRoot h)].
Proof.
  unfold cancun_items. destruct (eh_BlobGasUsed h); cbn [need of_option obind map default]; [|split; [done|intros [[[? ?] _] _]; done]].
  destruct (eh_ExcessBlobGas h); cbn [need of_option obind map default]; [|split; [done|intros [[_ [[? ?] _]] _]; done]].
  destruct (eh_ParentBeaconBlockRoot h); cbn [need of_option obind map default]; [|split; [done|intros [[_ [_ [? ?]]] _]; done]].
  rewrite !EncodeRLPUint_item. cbn [encode_item]. split; [intros E; apply Ok_inj in E as <-; eauto|by intros [_ ->]].
Qed.

Lemma EncodeExecutionHeader_ok (h : ExecutionHeader) (fork : ExecutionFork) (b : bytes) :
  EncodeExecutionHeader h fork = Ok b <-> header_complete h fork /\ b = encode_item (header_item h fork).
Proof.
  unfold header_item. cbn [encode_item]. rewrite map_map. change (fun x => encode_item (RlpBytes x)) with EncodeRLPBytes.
  assert (map EncodeRLPBytes (header_base_strings h) = header_base_items h) as EB.
  { unfold header_base_strings, header_base_items. cbn [map]. by rewrite !EncodeRLPBig_item, !EncodeRLPUint_item. }
  unfold EncodeExecutionHeader, fork_strings. rewrite guard_err_ok, bool_decide_eq_false, !map_app, EB. split.
  - intros [Hk H]. apply obind_ok in H as (l1 & H1 & H). apply obind_ok in H as (l2 & H2 & H). apply obind_ok in H as (l3 & H3 & H).
    apply obind_ok in H as (l4 & H4 & H). apply (from_fork_ok _ _ _ _ _ _ (london_ok h)) in H1 as [P1 ->]. apply (from_fork_ok _ _ _ _ _ _ (shanghai_ok h)) in H2 as [P2 ->].
    apply (from_fork_ok _ _ _ _ _ _ (cancun_ok h)) in H3 as [P3 ->]. apply (from_fork_ok _ _ _ _ _ _ (prague_ok h)) in H4 as [P4 ->].
    apply Ok_inj in H as <-. split; [|done]. split; try done; [apply P1; by destruct fork|by intros F; destruct (P3 F) as (? & ? & ?)..].
  - intros ([Hk Hf Hw Hu Hx Hp Hq] & ->). split; [done|].
    rewrite (proj2 (from_fork_ok _ _ _ _ _ _ (london_ok h)) (conj (fun _ => Hf) eq_refl)). cbn [obind].
    rewrite (proj2 (from_fork_ok _ _ _ _ _ _ (shanghai_ok h)) (conj Hw eq_refl)). cbn [obind].
    rewrite (proj2 (from_fork_ok _ _ _ _ _ _ (cancun_ok h)) (conj (fun F => conj (Hu F) (conj (Hx F) (Hp F))) eq_refl)). cbn [obind].
    by rewrite (proj2 (from_fork_ok _ _ _ _ _ _ (prague_ok h)) (conj Hq eq_refl)).
Qed.

(** ** Sizes and types *)

Definition big_ok (v : option Z) : Prop := blen (rlp_big_bytes v) <= 2 ^ 50.
Definition opt_ok {A : Type} (P : A -> Prop) (v : option A) : Prop := match v with Some a => P a | None => True end.
(** A header as Go holds it: the widths of its fields, and sizes that fit in memory.  The
    big integers may be negative: [hexBig] reads a minus sign. *)
Record header_ok (h : ExecutionHeader) : Prop := {
  ho_arrays : Forall (fun p => array_ok p.1 p.2)
    [(32%nat, eh_ParentHash h); (32%nat, eh_UncleHash h); (20%nat, eh_Coinbase h); (32%nat, eh_StateRoot h); (32%nat, eh_TxRoot h);
     (32%nat, eh_ReceiptRoot h); (256%nat, eh_Bloom h); (32%nat, eh_MixDigest h); (8%nat, eh_Nonce h)];
  ho_roots : Forall (opt_ok (array_ok 32)) [eh_WithdrawalsRoot h; eh_ParentBeaconBlockRoot h; eh_RequestsHash h];
  ho_bigs : Forall big_ok [eh_Difficulty h; eh_Number h; eh_BaseFee h];
  ho_uints : Forall (u_range 64) [eh_GasLimit h; eh_GasUsed h; eh_Time h; default 0 (eh_BlobGasUsed h); default 0 (eh_ExcessBlobGas h)];
  ho_extra : bytes_ok (eh_Extra h) /\ blen (eh_Extra h) <= 2 ^ 50
}.

Definition string_ok (b : bytes) : Prop := bytes_ok b /\ blen b <= 2 ^ 50.
Lemma array_string (n : nat) (b : bytes) : array_ok n b -> (n <= 256)%nat -> string_ok b.
Proof. intros [E H] Hn. split; [done|]. unfold blen. rewrite E. lia. Qed.
Lemma uint_string (v : Z) : u_range 64 v -> string_ok (uint_bytes v).
Proof. intros H. destruct (uint_bytes_spec v H) as (? & _ & ?). split; [done|]. lia. Qed.
Lemma big_string (v : option Z) : big_ok v -> string_ok (rlp_big_bytes v).
Proof.
  intros H. split; [|done]. unfold rlp_big_bytes. destruct v as [v|]; [|by apply Forall_nil_2].
  destruct (v <=? 0); [by apply Forall_nil_2|apply be_encode_ok].
Qed.
Lemma root_string (v : option bytes) : opt_ok (array_ok 32) v -> string_ok (default [] v).
Proof. destruct v; cbn; intros H; [eapply array_string; [done|lia]|split; [by apply Forall_nil_2|done]]. Qed.

Lemma header_strings_ok (h : ExecutionHeader) (fork : ExecutionFork) : header_ok h -> Forall string_ok (header_base_strings h ++ fork_strings h fork).
Proof.
  intros [HA HR HB HU HE]. rewrite !Forall_cons in HA. rewrite !Forall_cons in HR. rewrite !Forall_cons in HB. rewrite !Forall_cons in HU. cbn [fst snd] in HA.
  decompose [and] HA. decompose [and] HR. decompose [and] HB. decompose [and] HU.
  apply Forall_app_2.
  - unfold header_base_strings. repeat apply Forall_cons_2; try apply Forall_nil_2;
      (eapply array_string; [eassumption|lia]) || by apply uint_string || by apply big_string || done.
  - unfold fork_strings. repeat apply Forall_app_2; destruct (fork_from _ _); try apply Forall_nil_2;
      repeat apply Forall_cons_2; try apply Forall_nil_2; by apply uint_string || by apply big_string || by apply root_string.
Qed.

Lemma strings_item_size (l : list bytes) : Forall string_ok l ->
  item_ok (RlpList (map RlpBytes l)) /\ blen (encode_item (RlpList (map RlpBytes l))) <= Z.of_nat (length l) * (2 ^ 50 + 9) + 9.
Proof.
  intros H. split.
  - rewrite item_ok_list. apply Forall_map. eapply Forall_impl; [exact H|]. by intros b [? _].
  - cbn [encode_item]. rewrite map_map. pose proof (blen_EncodeRLPList (map (fun x => encode_item (RlpBytes x)) l)) as HB. rewrite map_map in HB.
    enough (zsum (map (fun x => blen (encode_item (RlpBytes x))) l) <= Z.of_nat (length l) * (2 ^ 50 + 9)) by lia. clear HB.
    induction H as [|b l [_ Hb] _ IH]; [done|]. cbn [map length]. unfold zsum in *. cbn [foldr encode_item] in *.
    pose proof (blen_EncodeRLPBytes b). lia.
Qed.

Lemma length_fork_strings (h : ExecutionHeader) (fork : ExecutionFork) :
  length (fork_strings h fork) = match fork with ForkUnknown => 0 | ForkLondon => 1 | ForkShanghai => 2 | ForkCancun => 5 | ForkPrague => 6 end%nat.
Proof. by destruct fork. Qed.

(** What the layout writes of the fields: nil, zero and anything negative are one integer. *)
Definition written (v : option Z) : Z := Z.max 0 (default 0 v).
Record header_agree (fork : ExecutionFork) (h h' : ExecutionHeader) : Prop := {
  ha_bytes : [eh_ParentHash h; eh_UncleHash h; eh_Coinbase h; eh_StateRoot h; eh_TxRoot h; eh_ReceiptRoot h; eh_Bloom h; eh_Extra h; eh_MixDigest h; eh_Nonce h] =
             [eh_ParentHash h'; eh_UncleHash h'; eh_Coinbase h'; eh_StateRoot h'; eh_TxRoot h'; eh_ReceiptRoot h'; eh_Bloom h'; eh_Extra h'; eh_MixDigest h'; eh_Nonce h'];
  ha_bigs : written (eh_Difficulty h) = written (eh_Difficulty h') /\ written (eh_Number h) = written (eh_Number h');
  ha_uints : eh_GasLimit h = eh_GasLimit h' /\ eh_GasUsed h = eh_GasUsed h' /\ eh_Time h = eh_Time h';
  ha_london : is_Some (eh_BaseFee h) /\ is_Some (eh_BaseFee h') /\ written (eh_BaseFee h) = written (eh_BaseFee h');
  ha_shanghai : fork_from ForkShanghai fork = true -> eh_WithdrawalsRoot h = eh_WithdrawalsRoot h';
  ha_cancun : fork_from ForkCancun fork = true ->
    eh_BlobGasUsed h = eh_BlobGasUsed h' /\ eh_ExcessBlobGas h = eh_ExcessBlobGas h' /\ eh_ParentBeaconBlockRoot h = eh_ParentBeaconBlockRoot h';
  ha_prague : fork_from ForkPrague fork = true -> eh_RequestsHash h = eh_RequestsHash h'
}.

Lemma big_bytes_written (x y : option Z) : rlp_big_bytes x = rlp_big_bytes y -> written x = written y.
Proof.
  intros E. assert (forall v, rlp_big_bytes (Some (written v)) = rlp_big_bytes v) as HW.
  { intros [v|]; [|done]. unfold written. change (default 0 (Some v)) with v. unfold rlp_big_bytes.
    destruct (Z.leb_spec v 0), (Z.leb_spec (Z.max 0 v) 0); try lia; [done|]. by rewrite Z.max_r by lia. }
  apply rlp_big_bytes_inj; [unfold written; lia..|]. by rewrite !HW.
Qed.
Lemma default_is_Some {A : Type} (d : A) (x y : option A) : is_Some x -> is_Some y -> default d x = default d y -> x = y.
Proof. intros [a ->] [b ->]. cbn. congruence. Qed.

Lemma base_strings_inj (h h' : ExecutionHeader) : header_ok h -> header_ok h' -> header_base_strings h = header_base_strings h' ->
  [eh_ParentHash h; eh_UncleHash h; eh_Coinbase h; eh_StateRoot h; eh_TxRoot h; eh_ReceiptRoot h; eh_Bloom h; eh_Extra h; eh_MixDigest h; eh_Nonce h] =
  [eh_ParentHash h'; eh_UncleHash h'; eh_Coinbase h'; eh_StateRoot h'; eh_TxRoot h'; eh_ReceiptRoot h'; eh_Bloom h'; eh_Extra h'; eh_MixDigest h'; eh_Nonce h'] /\
  (written (eh_Difficulty h) = written (eh_Difficulty h') /\ written (eh_Number h) = written (eh_Number h')) /\
  eh_GasLimit h = eh_GasLimit h' /\ eh_GasUsed h = eh_GasUsed h' /\ eh_Time h = eh_Time h'.
Proof.
  intros [_ _ _ HU _] [_ _ _ HU' _] E. rewrite !Forall_cons in HU. rewrite !Forall_cons in HU'. unfold header_base_strings in E.
  cons_inv.
  split; [congruence|]. split; [split; by apply big_bytes_written|]. split; [|split]; apply uint_bytes_inj; tauto.
Qed.

Lemma header_strings_inj (h h' : ExecutionHeader) (fork fork' : ExecutionFork) :
  header_ok h -> header_ok h' -> header_complete h fork -> header_complete h' fork' ->
  header_base_strings h ++ fork_strings h fork = header_base_strings h' ++ fork_strings h' fork' ->
  fork = fork' /\ header_agree fork h h'.
Proof.
  intros O O' C C' E. apply app_inj_1 in E as [EB EF]; [|done].
  assert (fork = fork') as <-.
  { apply (f_equal length) in EF. rewrite !length_fork_strings in EF. by destruct fork, fork'. }
  split; [done|]. destruct (base_strings_inj h h' O O' EB) as (E1 & E2 & E3).
  destruct O as [_ _ HB HU _], O' as [_ _ HB' HU' _]. rewrite !Forall_cons in HB. rewrite !Forall_cons in HU. rewrite !Forall_cons in HB'. rewrite !Forall_cons in HU'.
  destruct C as [Ck Cf Cw Cu Cx Cp Cq], C' as [_ Cf' Cw' Cu' Cx' Cp' Cq'].
  unfold fork_strings in EF.
  assert (rlp_big_bytes (eh_BaseFee h) = rlp_big_bytes (eh_BaseFee h')) as EL' by (destruct fork; [done|..]; cbn in EF; by apply cons_eq_inv in EF as [? _]).
  pose proof (big_bytes_written _ _ EL') as EL.
  split; try done.
  - intros F. apply (default_is_Some []); [auto|auto|]. by destruct fork; try done; cbn in EF; injection EF.
  - intros F. rewrite F in EF.
    destruct fork; try done; cbn [fork_from fork_rank Nat.leb app] in EF;
    cons_inv;
    (split; [apply (default_is_Some 0); [auto|auto|apply uint_bytes_inj; tauto]|split; [apply (default_is_Some 0); [auto|auto|apply uint_bytes_inj; tauto]|apply (default_is_Some []); auto]]).
  - intros F. apply (default_is_Some []); [auto|auto|]. destruct fork; try done. cbn [fork_from fork_rank Nat.leb app] in EF.
    by cons_inv.
Qed.

(** ** Theorems *)

Section Hash.
Context `{K : Keccak}.
Definition header_bytes (h : ExecutionHeader) (fork : ExecutionFork) : bytes := encode_item (header_item h fork).

Lemma AuthenticateHeader_inv (h : ExecutionHeader) (fork : ExecutionFork) (want got : bytes) : AuthenticateHeader h fork want = Ok got ->
  header_complete h fork /\ got = want /\ Keccak256 (header_bytes h fork) = want.
Proof.
  unfold AuthenticateHeader. intros H. apply obind_ok in H as (e & He & H). apply EncodeExecutionHeader_ok in He as [Hc ->].
  apply guard_err_ok in H as [Hg H]. apply negb_false_iff, bool_decide_eq_true in Hg. apply Ok_inj in H as <-. split; [done|]. by split.
Qed.

Lemma headers_agree (h h' : ExecutionHeader) (fork fork' : ExecutionFork) (want got got' : bytes) :
  AuthenticateHeader h fork want = Ok got -> AuthenticateHeader h' fork' want = Ok got' -> header_ok h -> header_ok h' ->
  (fork = fork' /\ header_agree fork h h') \/ keccak_collide (header_bytes h fork) (header_bytes h' fork').
Proof.
  intros H H' O O'. apply AuthenticateHeader_inv in H as (C & -> & E), H' as (C' & -> & E').
  destruct (decide (header_bytes h fork = header_bytes h' fork')) as [EB|EB]; [left|right; split; congruence].
  destruct (strings_item_size _ (header_strings_ok h fork O)) as [I1 I2]. destruct (strings_item_size _ (header_strings_ok h' fork' O')) as [I1' I2'].
  assert (length (header_base_strings h ++ fork_strings h fork) <= 21)%nat as HL
    by (rewrite length_app, length_fork_strings; cbn [header_base_strings length]; destruct fork; lia).
  apply encode_item_inj in EB; [|done|done|unfold header_item; lia]. unfold header_item in EB. apply RlpList_inj in EB.
  apply (list_fmap_eq_inj RlpBytes) in EB; [|intros x y [= ->]; done]. by apply header_strings_inj.
Qed.

(** A block hash names one header: two headers authenticated against the
    same hash were encoded with the same layout and agree on every field that
    layout writes - up to a big integer that is nil or negative, which is
    written as zero - or their two encodings are a collision of keccak256.  In
    particular no header of one fork passes for a header of another. *)
Theorem header_hash_binds (h h' : ExecutionHeader) (fork fork' : ExecutionFork) (want got got' : bytes)
  (H : AuthenticateHeader h fork want = Ok got) (H' : AuthenticateHeader h' fork' want = Ok got') (O : header_ok h) (O' : header_ok h') :
  (got = got' /\ fork = fork' /\ header_agree fork h h') \/ keccak_collide (header_bytes h fork) (header_bytes h' fork').
Proof.
  destruct (headers_agree h h' fork fork' want got got' H H' O O') as [HA|HC]; [left|by right].
  apply AuthenticateHeader_inv in H as (_ & -> & _), H' as (_ & -> & _). done.
Qed.

(** A header is refused for its fork, for a field its fork needs, or for its hash. *)
Theorem header_refusals (h : ExecutionHeader) (fork : ExecutionFork) (want : bytes) :
  AuthenticateHeader h fork want = Ok want \/ (fork = ForkUnknown /\ AuthenticateHeader h fork want = Err ErrForkUnrecorded) \/
  (~ header_complete h fork /\ exists f, AuthenticateHeader h fork want = Err (ErrHeaderIncomplete f)) \/
  (header_complete h fork /\ Keccak256 (header_bytes h fork) <> want /\ AuthenticateHeader h fork want = Err ErrHeaderHashMismatch).
Proof.
  unfold AuthenticateHeader. destruct (EncodeExecutionHeader h fork) as [e|e|] eqn:HE.
  - apply EncodeExecutionHeader_ok in HE as HC. destruct HC as [HC ->]. cbn [obind].
    fold (header_bytes h fork). destruct (decide (Keccak256 (header_bytes h fork) = want)) as [E|E].
    + left. rewrite bool_decide_eq_true_2 by done. cbn [negb guard_err]. by rewrite E.
    + right; right; right. rewrite bool_decide_eq_false_2 by done. done.
  - right. destruct (decide (fork = ForkUnknown)) as [->|Hk]; [left; by vm_compute in HE; injection HE as <-|right; left].
    split. { intros HC. assert (EncodeExecutionHeader h fork = Ok (encode_item (header_item h fork))) as E by (by apply EncodeExecutionHeader_ok). congruence. }
    unfold EncodeExecutionHeader, from_fork, london_items, shanghai_items, cancun_items, prague_items, need in HE.
    rewrite bool_decide_eq_false_2 in HE by done. cbn [guard_err obind] in *.
    repeat (match type of HE with context [of_option _ ?o] => destruct o end; cbn [of_option obind] in HE || idtac);
    repeat match type of HE with context [if ?b then _ else _] => destruct b; cbn [of_option obind] in HE end;
    try (injection HE as <-; eauto); congruence.
  - exfalso. unfold EncodeExecutionHeader, from_fork, london_items, shanghai_items, cancun_items, prague_items, need in HE.
    revert HE. destruct (bool_decide _); cbn [guard_err]; [done|].
    repeat first [apply obind_not_panic; [|intros ? _]|destruct (fork_from _ _)|done|apply of_option_not_panic].
Qed.
End Hash.

(** ** Witnesses *)

Definition toy_header (parent : bytes) (number time : Z) (receipts bloom : bytes) : ExecutionHeader :=
  mkExecutionHeader parent (zeros 32) (zeros 20) (zeros 32) (zeros 32) receipts bloom (Some 0) (Some number) 30000000 21000 time [1; 2] (zeros 32) (zeros 8)
    (Some 7) (Some (zeros 32)) (Some 0) (Some 0) (Some (zeros 32)) (Some (zeros 32)).
Definition toy_header_1 : ExecutionHeader := toy_header (zeros 32) 1 mainnetPragueTime (zeros 32) (zeros 256).
Definition toy_header_hash : bytes := match EncodeExecutionHeader toy_header_1 ForkPrague with Ok e => Keccak256 e | _ => [] end.

Lemma toy_header_ok (parent : bytes) (number time : Z) (receipts bloom : bytes) :
  array_ok 32 parent -> array_ok 32 receipts -> array_ok 256 bloom -> 0 <= number < 2 ^ 64 -> u_range 64 time ->
  header_ok (toy_header parent number time receipts bloom).
Proof.
  intros HP HR HB HN HT.
  assert (forall n, 0 <= n < 2 ^ 64 -> big_ok (Some n)) as Hbig.
  { intros n Hn. unfold big_ok, rlp_big_bytes. destruct (n <=? 0); [done|]. unfold blen, big_bytes. rewrite length_be_encode.
    pose proof (byte_len_le n 8). change (256 ^ Z.of_nat 8) with (2 ^ 64) in *. lia. }
  split; cbn [eh_ParentHash eh_UncleHash eh_Coinbase eh_StateRoot eh_TxRoot eh_ReceiptRoot eh_Bloom eh_MixDigest eh_Nonce eh_WithdrawalsRoot
    eh_ParentBeaconBlockRoot eh_RequestsHash eh_Difficulty eh_Number eh_BaseFee eh_GasLimit eh_GasUsed eh_Time eh_BlobGasUsed eh_ExcessBlobGas eh_Extra default toy_header];
    repeat apply Forall_cons_2; try apply Forall_nil_2; cbn [fst snd opt_ok]; try apply zeros_ok; try done; try (apply Hbig; lia); try (unfold u_range; lia).
  split; [repeat apply Forall_cons_2; try apply Forall_nil_2; unfold byte_ok; lia|done].
Qed.
Lemma toy_header_authentic : AuthenticateHeader toy_header_1 ForkPrague toy_header_hash = Ok toy_header_hash.
Proof. vm_compute. reflexivity. Qed.
(** The header with a negative difficulty is vouched for by the same hash: [hexBig] reads
    the sign, and [EncodeRLPBig] writes a negative number as zero. *)
Definition toy_negative_header : ExecutionHeader :=
  mkExecutionHeader (zeros 32) (zeros 32) (zeros 20) (zeros 32) (zeros 32) (zeros 32) (zeros 256) (Some (-5)) (Some 1) 30000000 21000 mainnetPragueTime [1; 2]
    (zeros 32) (zeros 8) (Some 7) (Some (zeros 32)) (Some 0) (Some 0) (Some (zeros 32)) (Some (zeros 32)).
Example negative_quantity_authentic : AuthenticateHeader toy_negative_header ForkPrague toy_header_hash = Ok toy_header_hash.
Proof. vm_compute. reflexivity. Qed.
Lemma header_hash_binds_witness :
  (toy_header_hash = toy_header_hash /\ ForkPrague = ForkPrague /\ header_agree ForkPrague toy_header_1 toy_header_1) \/
  keccak_collide (header_bytes toy_header_1 ForkPrague) (header_bytes toy_header_1 ForkPrague).
Proof.
  refine (header_hash_binds toy_header_1 toy_header_1 ForkPrague ForkPrague toy_header_hash toy_header_hash toy_header_hash
    toy_header_authentic toy_header_authentic _ _); apply toy_header_ok; try apply zeros_ok; (lia || (unfold u_range, mainnetPragueTime; lia)).
Defined.
