(* ===== verification/EthSsz.v ===== *)
(** * SSZ merkleisation ([internal/ethproof/ssz.go], the containers of [execution.go])

    The layered merkleisation with its zero padding against the recursive
    definition of the tree, the branches of generalized indexes, and the roots
    of the containers a light client authenticates.  A root binds what is under
    it: two values with one root are equal, or two named nodes of their trees
    are a collision of SHA-256. *)
From S2P Require Import Prelude.
From S2P Require Import GoBytes.
From Stdlib Require Ascii.
From Stdlib Require String.
Import String.StringSyntax.

Inductive ssz_err : Type :=
| ErrTooManyChunks | ErrLimitNotPower | ErrByteListTooLong | ErrSpecUnsupported | ErrBranchInvalid | ErrBranchLength.

Definition BytesPerChunk : nat := 32.

(** [for p < n { p <<= 1 }], up to [2 ^ 62], beyond any length. *)
Fixpoint power_from (fuel : nat) (p n : Z) : Z :=
  match fuel with
  | O => p
  | S fuel => if p <? n then power_from fuel (Z.shiftl p 1) n else p
  end.
Definition nextPowerOfTwo (n : Z) : Z := if n <=? 1 then 1 else power_from 62 1 n.

(** [for i := index; i > 1; i >>= 1 { depth++ }] *)
Fixpoint depth_from (fuel : nat) (i depth : Z) : Z :=
  match fuel with
  | O => depth
  | S fuel => if 1 <? i then depth_from fuel (Z.shiftr i 1) (depth + 1) else depth
  end.
Definition GeneralizedIndexDepth (index : Z) : Z := depth_from 64 index 0.

(** A number as a leaf: little endian, padded on the right. *)
Definition Uint64Root (v : Z) : bytes := le_encode 8 v ++ zeros 24.
(** [copy(chunk[:], b[i:])]: at most 32 bytes, zeros after them. *)
Definition to_chunk (b : bytes) : bytes := take BytesPerChunk b ++ zeros (BytesPerChunk - length b).
(** [for i := 0; i < len(b); i += BytesPerChunk] *)
Fixpoint chunk_bytes (fuel : nat) (b : bytes) : list bytes :=
  match fuel with
  | O => []
  | S fuel => match b with [] => [] | _ => to_chunk b :: chunk_bytes fuel (drop BytesPerChunk b) end
  end.

Section Ssz.
Context `{Hash : Sha256}.

Definition sha256Pair (left right : bytes) : bytes := sha256 (left ++ right).

(** [zeroHashes] has 64 entries, the first one zero. *)
Fixpoint zero_hash (d : nat) : bytes :=
  match d with
  | O => zeros 32
  | S d => let below := zero_hash d in sha256Pair below below
  end.
Definition ZeroHash (depth : Z) : bytes := if (depth <? 0) || (64 <=? depth) then zeros 32 else zero_hash (Z.to_nat depth).

(** One pass of the loop over [i := 0; i < width; i += 2]. *)
Definition merkle_layer (depth : Z) (width : nat) (layer : list bytes) : list bytes :=
  map (fun k => sha256Pair (default (ZeroHash depth) (layer !! (2 * k)%nat)) (default (ZeroHash depth) (layer !! (2 * k + 1)%nat)))
    (seq 0 ((width + 1) / 2)).
Fixpoint merkle_loop (fuel width : nat) (depth : Z) (layer : list bytes) : list bytes :=
  match fuel with
  | O => layer
  | S fuel => if (1 <? width)%nat then merkle_loop fuel (width / 2) (depth + 1) (merkle_layer depth width layer) else layer
  end.

Definition Merkleize (chunks : list bytes) (limit : Z) : outcome ssz_err bytes :=
  let n := Z.of_nat (length chunks) in
  let limit := if limit =? 0 then nextPowerOfTwo n else limit in
  fail? limit <? n with ErrTooManyChunks ;;
  fail? negb (Z.land limit (limit - 1) =? 0) with ErrLimitNotPower ;;
  if limit =? 0 then Ok (zeros 32)
  else if limit =? 1 then Ok (match chunks with [] => zeros 32 | c :: _ => c end)
  else match merkle_loop (Z.to_nat limit) (Z.to_nat limit) 0 chunks with [] => Panic | root :: _ => Ok root end.

Definition MixInLength (root : bytes) (length : Z) : bytes := sha256Pair root (le_encode 8 length ++ zeros 24).
Definition BytesRoot (b : bytes) : outcome ssz_err bytes :=
  let chunks := chunk_bytes (length b) b in
  Merkleize (match chunks with [] => [zeros 32] | _ => chunks end) 0.
Definition ContainerRoot (fields : list bytes) : outcome ssz_err bytes := Merkleize fields 0.

(** [VerifyBranch]'s loop: bit [i] of the index says whether the node is a right child. *)
Fixpoint climb (node : bytes) (branch : list bytes) (i : Z) (index : Z) : bytes :=
  match branch with
  | [] => node
  | sibling :: branch =>
      climb (if Z.land (Z.shiftr index i) 1 =? 1 then sha256Pair sibling node else sha256Pair node sibling) branch (i + 1) index
  end.
Definition VerifyBranch (leaf : bytes) (branch : list bytes) (index : Z) (root : bytes) : outcome ssz_err unit :=
  fail? index =? 0 with ErrBranchLength ;;
  fail? negb (Z.of_nat (length branch) =? GeneralizedIndexDepth index) with ErrBranchLength ;;
  fail? negb (bool_decide (climb leaf branch 0 index = root)) with ErrBranchInvalid ;;
  Ok tt.

(** [byteListRoot] of execution.go. *)
Definition byteListRoot (b : bytes) (limitBytes : Z) : outcome ssz_err bytes :=
  let n := Z.of_nat (length b) in
  fail? limitBytes <? n with ErrByteListTooLong ;;
  let chunkLimit := (limitBytes + 31) / 32 in
  let chunkLimit := if chunkLimit =? 0 then 1 else chunkLimit in
  let? root := Merkleize (chunk_bytes (length b) b) (nextPowerOfTwo chunkLimit) in
  Ok (MixInLength root n).
End Ssz.

(** ** The containers *)

Record BeaconBlockHeader : Type := mkBeaconBlockHeader {
  bb_Slot : Z; bb_ProposerIndex : Z; bb_ParentRoot : bytes; bb_StateRoot : bytes; bb_BodyRoot : bytes
}.
#[export] Instance BeaconBlockHeader_eq_dec : EqDecision BeaconBlockHeader.
Proof. solve_decision. Defined.

Record ExecutionPayloadHeader : Type := mkExecutionPayloadHeader {
  ep_ParentHash : bytes; ep_FeeRecipient : bytes; ep_StateRoot : bytes; ep_ReceiptsRoot : bytes; ep_LogsBloom : bytes; ep_PrevRandao : bytes;
  ep_BlockNumber : Z; ep_GasLimit : Z; ep_GasUsed : Z; ep_Timestamp : Z; ep_ExtraData : bytes; ep_BaseFeePerGas : bytes;
  ep_BlockHash : bytes; ep_TxRoot : bytes; ep_WithdrawalsRoot : bytes; ep_BlobGasUsed : Z; ep_ExcessBlobGas : Z
}.

(** A fork by its name. *)
Definition SpecVersion : Type := string.
Definition SpecAltair : SpecVersion := "altair".
Definition SpecElectra : SpecVersion := "electra".
Definition SpecFulu : SpecVersion := "fulu".
Definition ExecutionPayloadIndex : Z := 25.

Section Containers.
Context `{Hash : Sha256}.

Definition header_chunks (h : BeaconBlockHeader) : list bytes :=
  [Uint64Root (bb_Slot h); Uint64Root (bb_ProposerIndex h); bb_ParentRoot h; bb_StateRoot h; bb_BodyRoot h].
Definition header_root (h : BeaconBlockHeader) : outcome ssz_err bytes := ContainerRoot (header_chunks h).

Definition payload_chunks (p : ExecutionPayloadHeader) (extraData logsBloom : bytes) : list bytes :=
  [ep_ParentHash p; to_chunk (ep_FeeRecipient p); ep_StateRoot p; ep_ReceiptsRoot p; logsBloom; ep_PrevRandao p; Uint64Root (ep_BlockNumber p);
   Uint64Root (ep_GasLimit p); Uint64Root (ep_GasUsed p); Uint64Root (ep_Timestamp p); extraData; ep_BaseFeePerGas p; ep_BlockHash p; ep_TxRoot p].
Definition payload_root (p : ExecutionPayloadHeader) (spec : SpecVersion) : outcome ssz_err bytes :=
  let? extraData := byteListRoot (ep_ExtraData p) 32 in
  let? logsBloom := BytesRoot (ep_LogsBloom p) in
  fail? negb (bool_decide (spec = SpecAltair \/ spec = SpecElectra \/ spec = SpecFulu)) with ErrSpecUnsupported ;;
  ContainerRoot (payload_chunks p extraData logsBloom ++
    [ep_WithdrawalsRoot p; Uint64Root (ep_BlobGasUsed p); Uint64Root (ep_ExcessBlobGas p)]).
End Containers.

(** ** The tree a layered merkleisation computes *)

Section Tree.
Context `{Hash : Sha256}.

(** The [i]-th subtree of depth [d] over the chunks, absent ones zero. *)
Fixpoint subtree (d i : nat) (chunks : list bytes) : bytes :=
  match d with
  | O => default (zeros 32) (chunks !! i)
  | S d => sha256Pair (subtree d (2 * i) chunks) (subtree d (2 * i + 1) chunks)
  end.
(** What its inner nodes hash. *)
Fixpoint subtree_nodes (d i : nat) (chunks : list bytes) : list bytes :=
  match d with
  | O => []
  | S d => (subtree d (2 * i) chunks ++ subtree d (2 * i + 1) chunks) :: subtree_nodes d (2 * i) chunks ++ subtree_nodes d (2 * i + 1) chunks
  end.

Lemma subtree_empty (d i : nat) (chunks : list bytes) : (length chunks <= i * 2 ^ d)%nat -> subtree d i chunks = zero_hash d.
Proof.
  revert i. induction d as [|d IH]; intros i Hi; cbn [subtree zero_hash].
  - rewrite lookup_ge_None_2 by (cbn in Hi; lia). done.
  - rewrite !IH by (cbn [Nat.pow] in Hi; nia). done.
Qed.

Lemma ZeroHash_small (k : nat) : (k < 64)%nat -> ZeroHash (Z.of_nat k) = zero_hash k.
Proof. intros H. unfold ZeroHash. destruct (Z.ltb_spec (Z.of_nat k) 0), (Z.leb_spec 64 (Z.of_nat k)); try lia. by rewrite Nat2Z.id. Qed.

(** A layer holds the subtrees of its depth. *)
Definition layer_ok (k : nat) (width : nat) (chunks layer : list bytes) : Prop :=
  forall i, (i < width)%nat -> default (zero_hash k) (layer !! i) = subtree k i chunks.

Lemma half_double (n : nat) : ((2 * n + 1) / 2 = n)%nat.
Proof. rewrite Nat.add_comm, Nat.mul_comm, Nat.div_add by done. done. Qed.

Lemma merkle_layer_ok (k n : nat) (chunks layer : list bytes) : (k < 64)%nat ->
  layer_ok k (2 * n) chunks layer -> layer_ok (S k) n chunks (merkle_layer (Z.of_nat k) (2 * n) layer).
Proof.
  intros Hk H i Hi. unfold merkle_layer. rewrite half_double, list_lookup_fmap, lookup_seq_lt, ZeroHash_small by done. cbn [fmap option_fmap option_map default subtree].
  by rewrite Nat.add_0_l, !H by lia.
Qed.

Lemma merkle_loop_ok (d fuel k : nat) (chunks layer : list bytes) : (k + d <= 64)%nat -> (d <= fuel)%nat ->
  layer_ok k (2 ^ d) chunks layer -> default (zero_hash (k + d)) (merkle_loop fuel (2 ^ d) (Z.of_nat k) layer !! 0%nat) = subtree (k + d) 0 chunks.
Proof.
  revert fuel k layer. induction d as [|d IH]; intros fuel k layer Hk Hf H.
  - rewrite Nat.add_0_r. cbn [Nat.pow]. assert (merkle_loop fuel 1 (Z.of_nat k) layer = layer) as -> by (by destruct fuel). apply H. cbn. lia.
  - destruct fuel as [|fuel]; [lia|]. cbn [merkle_loop]. pose proof (Nat.pow_nonzero 2 d ltac:(done)).
    destruct (Nat.ltb_spec 1 (2 ^ S d)); [|cbn [Nat.pow] in *; lia]. cbn [Nat.pow]. replace (2 * 2 ^ d / 2)%nat with (2 ^ d)%nat by (by rewrite Nat.mul_comm, Nat.div_mul).
    replace (Z.of_nat k + 1) with (Z.of_nat (S k)) by lia. replace (k + S d)%nat with (S k + d)%nat by lia.
    apply IH; [lia|lia|]. apply merkle_layer_ok; [lia|]. exact H.
Qed.

Lemma merkle_loop_nonempty (fuel width : nat) (k : Z) (layer : list bytes) : (1 < width)%nat -> (0 < fuel)%nat -> merkle_loop fuel width k layer <> [].
Proof.
  revert width k layer. induction fuel as [|fuel IH]; intros width k layer Hw Hf; [lia|]. cbn [merkle_loop].
  destruct (Nat.ltb_spec 1 width); [|lia]. destruct (decide (1 < width / 2 /\ 0 < fuel)%nat) as [[H1 H2]|Hn]; [by apply IH|].
  assert (merkle_loop fuel (width / 2) (k + 1) (merkle_layer k width layer) = merkle_layer k width layer) as ->.
  { destruct fuel; [done|]. cbn [merkle_loop]. destruct (Nat.ltb_spec 1 (width / 2)); [|done]. exfalso. apply Hn. split; [lia|lia]. }
  unfold merkle_layer. intros E. apply map_eq_nil in E. apply (f_equal length) in E. rewrite length_seq in E. cbn [length] in E.
  pose proof (Nat.div_le_mono 2 (width + 1) 2 ltac:(done) ltac:(lia)). cbn in *. lia.
Qed.

Lemma power_of_two_land (d : nat) : Z.land (2 ^ Z.of_nat d) (2 ^ Z.of_nat d - 1) = 0.
Proof.
  rewrite Z.sub_1_r, <- Z.ones_equiv, Z.land_ones by lia. rewrite <- (Z.mul_1_l (2 ^ Z.of_nat d)) at 1. by rewrite Z.mod_mul by lia.
Qed.

(** [Merkleize] with an explicit limit is the recursive tree. *)
Lemma Merkleize_subtree (d : nat) (chunks : list bytes) : (d <= 62)%nat -> (length chunks <= 2 ^ d)%nat ->
  Merkleize chunks (2 ^ Z.of_nat d) = Ok (subtree d 0 chunks).
Proof.
  intros Hd HL. assert (2 ^ Z.of_nat d = Z.of_nat (2 ^ d)) as EP by (by rewrite Nat2Z.inj_pow).
  pose proof (Nat.pow_nonzero 2 d ltac:(done)). unfold Merkleize.
  destruct (Z.eqb_spec (2 ^ Z.of_nat d) 0); [lia|]. destruct (Z.ltb_spec (2 ^ Z.of_nat d) (Z.of_nat (length chunks))); [lia|]. cbn [guard_err].
  rewrite power_of_two_land. cbn [Z.eqb negb guard_err]. destruct (Z.eqb_spec (2 ^ Z.of_nat d) 0); [lia|].
  destruct (Z.eqb_spec (2 ^ Z.of_nat d) 1) as [E1|E1].
  - assert (d = 0)%nat as -> by (destruct d; [done|]; rewrite EP in E1; cbn [Nat.pow] in E1; lia). by destruct chunks.
  - rewrite EP, Nat2Z.id. assert (1 < 2 ^ d)%nat by lia.
    pose proof (merkle_loop_ok d (2 ^ d) 0 chunks chunks ltac:(lia) ltac:(apply Nat.lt_le_incl, Nat.pow_gt_lin_r; lia)) as HM.
    specialize (HM ltac:(by intros i _)). change (Z.of_nat 0) with 0 in HM. pose proof (merkle_loop_nonempty (2 ^ d) (2 ^ d) 0 chunks ltac:(lia) ltac:(lia)) as HN.
    destruct (merkle_loop (2 ^ d) (2 ^ d) 0 chunks) as [|r rest]; [done|]. change (r = subtree d 0 chunks) in HM. by rewrite HM.
Qed.

(** The depth a list is padded to without a limit. *)
Definition depth_of (n : nat) : nat := Nat.log2_up n.
Lemma power_from_spec (fuel : nat) (p d n : nat) : (p <= d)%nat -> (d - p <= fuel)%nat ->
  (forall k, (p <= k < d)%nat -> (2 ^ k < n)%nat) -> (n <= 2 ^ d)%nat -> power_from fuel (2 ^ Z.of_nat p) (Z.of_nat n) = 2 ^ Z.of_nat d.
Proof.
  revert p. induction fuel as [|fuel IH]; intros p Hp Hf HB HT; cbn [power_from]; [replace d with p by lia; done|].
  assert (2 ^ Z.of_nat p = Z.of_nat (2 ^ p)) as EP by (by rewrite Nat2Z.inj_pow).
  destruct (Z.ltb_spec (2 ^ Z.of_nat p) (Z.of_nat n)) as [HL|HL].
  - assert (p < d)%nat. { destruct (decide (p = d)) as [->|]; [|lia]. rewrite EP in HL. lia. }
    rewrite Z.shiftl_mul_pow2 by lia. replace (2 ^ Z.of_nat p * 2 ^ 1) with (2 ^ Z.of_nat (S p)) by (rewrite Nat2Z.inj_succ, Z.pow_succ_r by lia; lia).
    apply IH; [lia|lia| |done]. intros k Hk. apply HB. lia.
  - destruct (decide (p = d)) as [->|]; [done|]. pose proof (HB p ltac:(lia)). rewrite EP in HL. lia.
Qed.
Lemma nextPowerOfTwo_spec (n : nat) : (n <= 2 ^ 62)%nat -> nextPowerOfTwo (Z.of_nat n) = 2 ^ Z.of_nat (depth_of n).
Proof.
  intros Hn. unfold nextPowerOfTwo, depth_of. destruct (Z.leb_spec (Z.of_nat n) 1).
  - by rewrite Nat.log2_up_eqn0 by lia.
  - change 1 with (2 ^ Z.of_nat 0) at 1. apply power_from_spec.
    + lia.
    + rewrite Nat.sub_0_r. apply Nat.log2_up_le_pow2; [lia|done].
    + intros k Hk. apply Nat.nle_gt. intros HL. apply Nat.log2_up_le_pow2 in HL; lia.
    + apply Nat.log2_up_le_pow2; lia.
Qed.
Lemma Merkleize_auto (chunks : list bytes) : (length chunks <= 2 ^ 62)%nat ->
  Merkleize chunks 0 = Ok (subtree (depth_of (length chunks)) 0 chunks).
Proof.
  intros HL. rewrite <- Merkleize_subtree; [|unfold depth_of|].
  - unfold Merkleize. cbv zeta. change (0 =? 0) with true. cbv iota. rewrite nextPowerOfTwo_spec by done. pose proof (Z.pow_pos_nonneg 2 (Z.of_nat (depth_of (length chunks))) ltac:(lia) ltac:(lia)).
    by rewrite !(proj2 (Z.eqb_neq (2 ^ Z.of_nat (depth_of (length chunks))) 0)) by lia.
  - destruct (decide (length chunks <= 1)%nat); [rewrite Nat.log2_up_eqn0 by lia; lia|]. apply Nat.log2_up_le_pow2; [lia|done].
  - destruct (decide (length chunks <= 1)%nat); [unfold depth_of; rewrite Nat.log2_up_eqn0 by lia; cbn; lia|]. apply Nat.log2_up_le_pow2; [lia|done].
Qed.
End Tree.

(** ** A root binds what is under it *)

Section Binding.
Context `{Hash : Sha256} `{!Sha256Laws Hash}.

(** A collision of SHA-256 between an entry of one list and an entry of the other. *)
Definition sha_collision_in (xs ys : list bytes) : Prop := exists a b, a ∈ xs /\ b ∈ ys /\ sha_collide a b.
Lemma sha_collision_mono (xs ys xs' ys' : list bytes) : xs ⊆ xs' -> ys ⊆ ys' -> sha_collision_in xs ys -> sha_collision_in xs' ys'.
Proof. intros HX HY (a & b & Ha & Hb & H). exists a, b. auto. Qed.

Lemma length_sha256 (b : bytes) : length (sha256 b) = 32%nat.
Proof. apply sha256_array. Qed.
Lemma length_subtree (d i : nat) (chunks : list bytes) : Forall (array_ok 32) chunks -> length (subtree d i chunks) = 32%nat.
Proof.
  intros H. destruct d; cbn [subtree]; [|apply length_sha256]. destruct (chunks !! i) as [c|] eqn:E; cbn [default]; [|done].
  by apply (Forall_lookup_1 _ _ _ _ H E).
Qed.

Lemma pair_binds (l r l' r' : bytes) : length l = 32%nat -> length l' = 32%nat -> sha256Pair l r = sha256Pair l' r' ->
  (l = l' /\ r = r') \/ sha_collide (l ++ r) (l' ++ r').
Proof. intros L L' H. unfold sha256Pair in H. revert H. apply sha_same. intros E. by apply app_inj_1 in E; [|congruence]. Qed.

Definition same_chunks (lo hi : nat) (a b : list bytes) : Prop :=
  forall j, (lo <= j < hi)%nat -> default (zeros 32) (a !! j) = default (zeros 32) (b !! j).

Lemma subtree_binds (d i : nat) (a b : list bytes) : Forall (array_ok 32) a -> Forall (array_ok 32) b -> subtree d i a = subtree d i b ->
  same_chunks (i * 2 ^ d) (S i * 2 ^ d) a b \/ sha_collision_in (subtree_nodes d i a) (subtree_nodes d i b).
Proof.
  intros Ha Hb. revert i. induction d as [|d IH]; intros i E; cbn [subtree] in E.
  - left. intros j Hj. assert (j = i) as -> by (cbn [Nat.pow] in Hj; lia). exact E.
  - apply pair_binds in E as [[E1 E2]|HC]; [| |by apply length_subtree..].
    + destruct (IH _ E1) as [H1|H1]; [destruct (IH _ E2) as [H2|H2]|].
      * left. intros j Hj. cbn [Nat.pow] in *. destruct (decide (j < (2 * i + 1) * 2 ^ d)%nat); [apply H1|apply H2]; nia.
      * right. revert H2. apply sha_collision_mono; cbn [subtree_nodes]; set_solver.
      * right. revert H1. apply sha_collision_mono; cbn [subtree_nodes]; set_solver.
    + right. eexists _, _. cbn [subtree_nodes]. split; [apply list_elem_of_here|]. split; [apply list_elem_of_here|exact HC].
Qed.

Lemma same_chunks_eq (n : nat) (a b : list bytes) : same_chunks 0 n a b -> length a = length b -> (length a <= n)%nat -> a = b.
Proof.
  intros H EL HL. apply list_eq. intros j. destruct (decide (j < length a)%nat).
  - specialize (H j ltac:(lia)). destruct (lookup_lt_is_Some_2 a j ltac:(lia)) as [x Ex]. destruct (lookup_lt_is_Some_2 b j ltac:(lia)) as [y Ey].
    rewrite Ex, Ey in *. cbn in H. congruence.
  - by rewrite !lookup_ge_None_2 by lia.
Qed.

(** The inner nodes of a container. *)
Definition container_nodes (fields : list bytes) : list bytes := subtree_nodes (depth_of (length fields)) 0 fields.
Lemma ContainerRoot_binds (a b : list bytes) : Forall (array_ok 32) a -> Forall (array_ok 32) b -> length a = length b -> (length a <= 2 ^ 62)%nat ->
  ContainerRoot a = ContainerRoot b -> a = b \/ sha_collision_in (container_nodes a) (container_nodes b).
Proof.
  intros Ha Hb EL HL H. unfold ContainerRoot in H. rewrite !Merkleize_auto in H by lia. apply Ok_inj in H. unfold container_nodes. rewrite <- EL in *.
  apply subtree_binds in H as [H|H]; [left|by right|done|done]. apply (same_chunks_eq (1 * 2 ^ depth_of (length a))); [exact H|done|].
  rewrite Nat.mul_1_l. unfold depth_of. destruct (decide (length a <= 1)%nat); [rewrite Nat.log2_up_eqn0 by lia; cbn; lia|]. apply Nat.log2_up_le_pow2; [lia|done].
Qed.

(** ** Branches *)

(** What the loop of [VerifyBranch] hashes. *)
Fixpoint climb_nodes (node : bytes) (branch : list bytes) (i : Z) (index : Z) : list bytes :=
  match branch with
  | [] => []
  | sibling :: branch =>
      let right := Z.land (Z.shiftr index i) 1 =? 1 in
      (if right then sibling ++ node else node ++ sibling) ::
      climb_nodes (if right then sha256Pair sibling node else sha256Pair node sibling) branch (i + 1) index
  end.

Lemma climb_binds (branch branch' : list bytes) (node node' : bytes) (i index : Z) : length branch = length branch' ->
  array_ok 32 node -> array_ok 32 node' -> Forall (array_ok 32) branch -> Forall (array_ok 32) branch' ->
  climb node branch i index = climb node' branch' i index ->
  node = node' \/ sha_collision_in (climb_nodes node branch i index) (climb_nodes node' branch' i index).
Proof.
  revert branch' node node' i. induction branch as [|s branch IH]; intros [|s' branch'] node node' i EL Hn Hn' HB HB' E; try done; [by left|].
  cbn [climb climb_nodes] in *. apply Forall_cons in HB as [Hs HB], HB' as [Hs' HB']. injection EL as EL.
  assert (forall x y z w : bytes, array_ok 32 x -> array_ok 32 z -> climb (sha256Pair x y) branch (i + 1) index = climb (sha256Pair z w) branch' (i + 1) index ->
    (x = z /\ y = w) \/ sha_collision_in ((x ++ y) :: climb_nodes (sha256Pair x y) branch (i + 1) index) ((z ++ w) :: climb_nodes (sha256Pair z w) branch' (i + 1) index)) as HP.
  { intros x y z w [Hx _] [Hz _] EC. apply IH in EC as [EC|EC]; [|right|done|apply sha256_array..|done|done].
    - apply pair_binds in EC as [EC|HC]; [by left|right|done|done]. eexists _, _. split; [apply list_elem_of_here|]. split; [apply list_elem_of_here|exact HC].
    - revert EC. apply sha_collision_mono; set_solver. }
  destruct (Z.land (Z.shiftr index i) 1 =? 1); apply HP in E; try done; naive_solver.
Qed.

Lemma VerifyBranch_ok (leaf : bytes) (branch : list bytes) (index : Z) (root : bytes) :
  VerifyBranch leaf branch index root = Ok tt <->
    index <> 0 /\ Z.of_nat (length branch) = GeneralizedIndexDepth index /\ climb leaf branch 0 index = root.
Proof.
  unfold VerifyBranch. rewrite !guard_err_ok, Z.eqb_neq, !negb_false_iff, Z.eqb_eq, bool_decide_eq_true. naive_solver.
Qed.

Lemma branch_leaves_agree (leaf leaf' : bytes) (branch branch' : list bytes) (index : Z) (root : bytes) :
  VerifyBranch leaf branch index root = Ok tt -> VerifyBranch leaf' branch' index root = Ok tt ->
  array_ok 32 leaf -> array_ok 32 leaf' -> Forall (array_ok 32) branch -> Forall (array_ok 32) branch' ->
  leaf = leaf' \/ sha_collision_in (climb_nodes leaf branch 0 index) (climb_nodes leaf' branch' 0 index).
Proof.
  intros H H' L L' B B'. apply VerifyBranch_ok in H as (_ & EL & E), H' as (_ & EL' & E').
  apply climb_binds; [lia|done..|congruence].
Qed.

(** The branch of a chunk: the sibling of each of its ancestors. *)
Definition sibling (i : nat) : nat := if Nat.even i then (i + 1)%nat else (i - 1)%nat.
Fixpoint branch_from (n k i : nat) (chunks : list bytes) : list bytes :=
  match n with
  | O => []
  | S n => subtree k (sibling i) chunks :: branch_from n (S k) (i / 2) chunks
  end.

Lemma climb_branch (n k i : nat) (chunks : list bytes) (pos index : Z) : 0 <= pos ->
  (forall j, (j < n)%nat -> Z.testbit index (pos + Z.of_nat j) = Nat.testbit i j) ->
  climb (subtree k i chunks) (branch_from n k i chunks) pos index = subtree (k + n) (i / 2 ^ n) chunks.
Proof.
  revert k i pos. induction n as [|n IH]; intros k i pos Hp HB; cbn [branch_from climb].
  - cbn [Nat.pow]. by rewrite Nat.div_1_r, Nat.add_0_r.
  - assert ((Z.land (Z.shiftr index pos) 1 =? 1) = Nat.odd i) as ->.
    { pose proof (HB 0%nat ltac:(lia)) as HB0. rewrite Nat.bit0_odd in HB0. replace (pos + Z.of_nat 0) with (0 + pos) in HB0 by lia.
      rewrite <- Z.shiftr_spec, Z.bit0_odd in HB0 by lia. rewrite <- HB0.
      change 1 with (Z.ones 1) at 1. rewrite Z.land_ones by lia. change (2 ^ 1) with 2. rewrite Zmod_odd. by destruct (Z.odd _). }
    assert ((if Nat.odd i then sha256Pair (subtree k (sibling i) chunks) (subtree k i chunks) else sha256Pair (subtree k i chunks) (subtree k (sibling i) chunks))
      = subtree (S k) (i / 2) chunks) as ->.
    { cbn [subtree]. unfold sibling. rewrite <- Nat.negb_odd. pose proof (Nat.div_mod_eq i 2) as EI. rewrite <- Nat.bit0_mod, Nat.bit0_odd in EI.
      destruct (Nat.odd i); cbn [negb Nat.b2n] in *; repeat f_equal; lia. }
    rewrite IH; [|lia|].
    + replace (S k + n)%nat with (k + S n)%nat by lia. by rewrite Nat.Div0.div_div.
    + intros j Hj. rewrite Nat.div2_bits, <- (HB (S j)) by lia. f_equal. lia.
Qed.
End Binding.

(** ** Bytes and containers *)

Lemma zeros_array (n : nat) : array_ok n (zeros n).
Proof. apply zeros_ok. Qed.
Lemma array_app (n m : nat) (a b : bytes) : array_ok n a -> array_ok m b -> array_ok (n + m) (a ++ b).
Proof. intros [<- Ha] [<- Hb]. split; [apply length_app|by apply Forall_app_2]. Qed.
Lemma Uint64Root_array (v : Z) : array_ok 32 (Uint64Root v).
Proof. apply (array_app 8 24); [split; [apply length_le_encode|apply le_encode_ok]|apply zeros_array]. Qed.
Lemma Uint64Root_inj (x y : Z) : u_range 64 x -> u_range 64 y -> Uint64Root x = Uint64Root y -> x = y.
Proof.
  intros Hx Hy E. unfold Uint64Root in E. apply app_inj_1 in E as [E _]; [|by rewrite !length_le_encode].
  by apply le_encode_inj in E.
Qed.
Lemma to_chunk_array (b : bytes) : bytes_ok b -> array_ok 32 (to_chunk b).
Proof.
  intros H. unfold to_chunk, BytesPerChunk. split.
  - rewrite length_app, length_take. unfold zeros. rewrite length_replicate. lia.
  - apply Forall_app_2; [by apply Forall_take|apply zeros_ok].
Qed.
Lemma to_chunk_inj (b b' : bytes) : length b = length b' -> to_chunk b = to_chunk b' -> take 32 b = take 32 b'.
Proof. intros EL E. unfold to_chunk, BytesPerChunk in E. apply app_inj_1 in E as [E _]; [done|]. rewrite !length_take. lia. Qed.

Lemma chunk_bytes_ok (n : nat) (b : bytes) : bytes_ok b -> Forall (array_ok 32) (chunk_bytes n b).
Proof.
  revert b. induction n as [|n IH]; intros b Hb; cbn [chunk_bytes]; [by apply Forall_nil_2|]. destruct b as [|x b]; [by apply Forall_nil_2|].
  apply Forall_cons_2; [by apply to_chunk_array|]. apply IH. by apply Forall_drop.
Qed.
Lemma chunk_bytes_inj (n : nat) (b b' : bytes) : (length b <= n)%nat -> length b = length b' -> chunk_bytes n b = chunk_bytes n b' -> b = b'.
Proof.
  revert b b'. induction n as [|n IH]; intros b b' Hn EL E; [destruct b, b'; cbn [length] in *; (done || lia)|]. cbn [chunk_bytes] in E.
  destruct b as [|x b], b' as [|y b']; try done. apply (f_equal (fun l => match l with [] => ([], []) | c :: l => (c, l) end)) in E. apply pair_equal_spec in E as [E1 E2].
  apply to_chunk_inj in E1; [|done]. apply IH in E2; [|rewrite length_drop; cbn [length] in *; unfold BytesPerChunk; lia|rewrite !length_drop; lia].
  rewrite <- (take_drop 32 (x :: b)), <- (take_drop 32 (y :: b')). unfold BytesPerChunk in E2. congruence.
Qed.
Lemma length_chunk_bytes (n : nat) (b b' : bytes) : length b = length b' -> length (chunk_bytes n b) = length (chunk_bytes n b').
Proof.
  revert b b'. induction n as [|n IH]; intros b b' EL; [done|]. cbn [chunk_bytes]. destruct b as [|x b], b' as [|y b']; try done. cbn [length]. f_equal. apply IH.
  rewrite !length_drop. lia.
Qed.
Lemma length_chunk_bytes_le (n : nat) (b : bytes) : (length (chunk_bytes n b) <= n)%nat.
Proof. revert b. induction n as [|n IH]; intros b; cbn [chunk_bytes]; [done|]. destruct b; cbn [length]; [lia|]. specialize (IH (drop BytesPerChunk (z :: b))). lia. Qed.

(** The chunks [BytesRoot] merkleises. *)
Definition byte_chunks (b : bytes) : list bytes := match chunk_bytes (length b) b with [] => [zeros 32] | l => l end.
Lemma byte_chunks_ok (b : bytes) : bytes_ok b -> Forall (array_ok 32) (byte_chunks b).
Proof.
  intros H. unfold byte_chunks. pose proof (chunk_bytes_ok (length b) b H) as HC. destruct (chunk_bytes (length b) b); [|done].
  apply Forall_cons_2; [apply zeros_array|by apply Forall_nil_2].
Qed.
Lemma byte_chunks_inj (b b' : bytes) : length b = length b' -> byte_chunks b = byte_chunks b' -> b = b'.
Proof.
  intros EL E. unfold byte_chunks in E. rewrite <- EL in E. pose proof (length_chunk_bytes (length b) b b' EL) as EC.
  apply (chunk_bytes_inj (length b)); [done|done|]. by destruct (chunk_bytes (length b) b), (chunk_bytes (length b) b').
Qed.
Lemma length_byte_chunks (b b' : bytes) : length b = length b' -> length (byte_chunks b) = length (byte_chunks b').
Proof.
  intros EL. unfold byte_chunks. rewrite <- EL. pose proof (length_chunk_bytes (length b) b b' EL) as EC.
  by destruct (chunk_bytes (length b) b), (chunk_bytes (length b) b').
Qed.

Lemma below_2_62 (n : nat) : (n <= 64)%nat -> (n <= 2 ^ 62)%nat.
Proof. intros H. pose proof (Nat.pow_le_mono_r 2 6 62 ltac:(done) ltac:(lia)) as HP. change (2 ^ 6)%nat with 64%nat in HP. lia. Qed.

Section Bound.
Context `{Hash : Sha256} `{!Sha256Laws Hash}.

Lemma BytesRoot_chunks (b : bytes) : BytesRoot b = ContainerRoot (byte_chunks b).
Proof. unfold BytesRoot, ContainerRoot, byte_chunks. by destruct (chunk_bytes (length b) b). Qed.
Lemma BytesRoot_binds (b b' : bytes) : bytes_ok b -> bytes_ok b' -> length b = length b' -> (length b <= 2 ^ 61)%nat -> BytesRoot b = BytesRoot b' ->
  b = b' \/ sha_collision_in (container_nodes (byte_chunks b)) (container_nodes (byte_chunks b')).
Proof.
  intros Hb Hb' EL HL E. rewrite !BytesRoot_chunks in E.
  apply ContainerRoot_binds in E as [E|E]; [left; by apply byte_chunks_inj|by right|by apply byte_chunks_ok..|by apply length_byte_chunks|].
  unfold byte_chunks. pose proof (length_chunk_bytes_le (length b) b). pose proof (Nat.pow_le_mono_r 2 61 62 ltac:(done) ltac:(lia)).
  destruct (chunk_bytes (length b) b); cbn [length] in *; [|lia]. pose proof (Nat.pow_nonzero 2 62 ltac:(done)). lia.
Qed.

Record beacon_header_ok (h : BeaconBlockHeader) : Prop := {
  bho_slot : u_range 64 (bb_Slot h); bho_proposer : u_range 64 (bb_ProposerIndex h);
  bho_parent : array_ok 32 (bb_ParentRoot h); bho_state : array_ok 32 (bb_StateRoot h); bho_body : array_ok 32 (bb_BodyRoot h)
}.
Lemma header_chunks_ok (h : BeaconBlockHeader) : beacon_header_ok h -> Forall (array_ok 32) (header_chunks h).
Proof. intros [? ? ? ? ?]. unfold header_chunks. repeat apply Forall_cons_2; try apply Forall_nil_2; try done; apply Uint64Root_array. Qed.
(** A header always has a root. *)
Lemma header_root_total (h : BeaconBlockHeader) : exists r, header_root h = Ok r.
Proof. eexists. unfold header_root, ContainerRoot. apply Merkleize_auto. apply below_2_62. cbn. lia. Qed.
Lemma header_roots_agree (h h' : BeaconBlockHeader) : beacon_header_ok h -> beacon_header_ok h' -> header_root h = header_root h' ->
  h = h' \/ sha_collision_in (container_nodes (header_chunks h)) (container_nodes (header_chunks h')).
Proof.
  intros O O' E. apply ContainerRoot_binds in E as [E|E]; [left|by right|by apply header_chunks_ok..|done|apply below_2_62; cbn; lia].
  destruct O, O'. unfold header_chunks in E. cons_inv. destruct h, h'. cbn [bb_Slot bb_ProposerIndex bb_ParentRoot bb_StateRoot bb_BodyRoot] in *. f_equal; try done; by apply Uint64Root_inj.
Qed.
End Bound.

(** ** The payload header *)

Section Payload.
Context `{Hash : Sha256} `{!Sha256Laws Hash}.

Record payload_ok (p : ExecutionPayloadHeader) : Prop := {
  po_roots : Forall (array_ok 32) [ep_ParentHash p; ep_StateRoot p; ep_ReceiptsRoot p; ep_PrevRandao p; ep_BaseFeePerGas p; ep_BlockHash p; ep_TxRoot p; ep_WithdrawalsRoot p];
  po_recipient : array_ok 20 (ep_FeeRecipient p);
  po_bloom : array_ok 256 (ep_LogsBloom p);
  po_extra : bytes_ok (ep_ExtraData p);
  po_uints : Forall (u_range 64) [ep_BlockNumber p; ep_GasLimit p; ep_GasUsed p; ep_Timestamp p; ep_BlobGasUsed p; ep_ExcessBlobGas p]
}.

(** Extra data of at most 32 bytes is one chunk and its length. *)
Lemma byteListRoot_32 (b : bytes) :
  byteListRoot b 32 = if 32 <? Z.of_nat (length b) then Err ErrByteListTooLong else Ok (sha256Pair (to_chunk b) (Uint64Root (Z.of_nat (length b)))).
Proof.
  unfold byteListRoot. destruct (Z.ltb_spec 32 (Z.of_nat (length b))) as [HL|HL]; [done|]. cbn [guard_err].
  change ((32 + 31) / 32) with 1. cbv zeta. change (nextPowerOfTwo (if 1 =? 0 then 1 else 1)) with 1.
  assert (Merkleize (chunk_bytes (length b) b) 1 = Ok (to_chunk b)) as ->; [|done].
  destruct b as [|x b]; [done|]. cbn [length chunk_bytes].
  assert (chunk_bytes (length b) (drop BytesPerChunk (x :: b)) = []) as ->.
  { rewrite drop_ge by (cbn [length] in *; unfold BytesPerChunk; lia). by destruct (length b). }
  reflexivity.
Qed.

Definition extra_node (b : bytes) : bytes := to_chunk b ++ Uint64Root (Z.of_nat (length b)).
Definition bloom_root (p : ExecutionPayloadHeader) : bytes := subtree 3 0 (byte_chunks (ep_LogsBloom p)).
Definition payload_fields (p : ExecutionPayloadHeader) : list bytes :=
  payload_chunks p (sha256 (extra_node (ep_ExtraData p))) (bloom_root p) ++
    [ep_WithdrawalsRoot p; Uint64Root (ep_BlobGasUsed p); Uint64Root (ep_ExcessBlobGas p)].
(** The inner nodes of a payload header. *)
Definition payload_nodes (p : ExecutionPayloadHeader) : list bytes :=
  container_nodes (payload_fields p) ++ extra_node (ep_ExtraData p) :: container_nodes (byte_chunks (ep_LogsBloom p)).

Lemma bloom_chunks (b : bytes) : length b = 256%nat -> length (byte_chunks b) = 8%nat.
Proof. intros H. by rewrite (length_byte_chunks b (zeros 256)). Qed.
Lemma bloom_BytesRoot (p : ExecutionPayloadHeader) : length (ep_LogsBloom p) = 256%nat -> BytesRoot (ep_LogsBloom p) = Ok (bloom_root p).
Proof.
  intros H. rewrite BytesRoot_chunks. unfold ContainerRoot. rewrite Merkleize_auto by (rewrite bloom_chunks by done; apply below_2_62; lia).
  by rewrite bloom_chunks.
Qed.

Definition known_spec (spec : SpecVersion) : Prop := spec = SpecAltair \/ spec = SpecElectra \/ spec = SpecFulu.
Lemma payload_root_ok (p : ExecutionPayloadHeader) (spec : SpecVersion) (r : bytes) : length (ep_LogsBloom p) = 256%nat ->
  payload_root p spec = Ok r <-> Z.of_nat (length (ep_ExtraData p)) <= 32 /\ known_spec spec /\ ContainerRoot (payload_fields p) = Ok r.
Proof.
  intros HB. unfold payload_root. rewrite byteListRoot_32, bloom_BytesRoot by done.
  destruct (Z.ltb_spec 32 (Z.of_nat (length (ep_ExtraData p)))); cbn [obind]; [split; [done|lia]|].
  rewrite guard_err_ok, negb_false_iff, bool_decide_eq_true. unfold known_spec, payload_fields, sha256Pair, extra_node. naive_solver.
Qed.

Lemma payload_fields_ok (p : ExecutionPayloadHeader) : payload_ok p -> Forall (array_ok 32) (payload_fields p).
Proof.
  intros [HR HF HB HE HU]. rewrite !Forall_cons in HR. destruct HR as (H1 & H2 & H3 & H4 & H5 & H6 & H7 & H8 & _).
  assert (array_ok 32 (bloom_root p)) as HBR by (apply sha256_array). pose proof (to_chunk_array _ (proj2 HF)) as HFR.
  unfold payload_fields, payload_chunks. cbn [app].
  repeat first [apply Forall_cons_2|apply Forall_nil_2];
    match goal with
    | |- array_ok 32 (Uint64Root _) => apply Uint64Root_array
    | |- array_ok 32 (sha256 _) => apply sha256_array
    | _ => assumption
    end.
Qed.

Lemma length_payload_fields (p : ExecutionPayloadHeader) : length (payload_fields p) = 17%nat.
Proof. reflexivity. Qed.
Lemma field_nodes_in (p : ExecutionPayloadHeader) : container_nodes (payload_fields p) ⊆ payload_nodes p.
Proof. intros x Hx. apply elem_of_app. by left. Qed.
Lemma bloom_nodes_in (p : ExecutionPayloadHeader) : container_nodes (byte_chunks (ep_LogsBloom p)) ⊆ payload_nodes p.
Proof. intros x Hx. apply elem_of_app. right. by apply list_elem_of_further. Qed.
Lemma extra_node_in (p : ExecutionPayloadHeader) : extra_node (ep_ExtraData p) ∈ payload_nodes p.
Proof. apply elem_of_app. right. apply list_elem_of_here. Qed.

Lemma extra_node_inj (b b' : bytes) : bytes_ok b -> bytes_ok b' -> Z.of_nat (length b) <= 32 -> Z.of_nat (length b') <= 32 -> extra_node b = extra_node b' -> b = b'.
Proof.
  intros Hb Hb' L L' E. unfold extra_node in E. apply app_inj_1 in E as [E1 E2]; [|by rewrite (proj1 (to_chunk_array b Hb)), (proj1 (to_chunk_array b' Hb'))].
  apply Uint64Root_inj in E2; [|unfold u_range; lia|unfold u_range; lia]. apply to_chunk_inj in E1; [|lia].
  by rewrite !take_ge in E1 by lia.
Qed.

Lemma to_chunk_short (b b' : bytes) (n : nat) : array_ok n b -> array_ok n b' -> (n <= 32)%nat -> to_chunk b = to_chunk b' -> b = b'.
Proof. intros [L _] [L' _] Hn E. apply to_chunk_inj in E; [|congruence]. by rewrite !take_ge in E by lia. Qed.

Lemma payload_eq (p p' : ExecutionPayloadHeader) :
  ep_ParentHash p = ep_ParentHash p' -> ep_FeeRecipient p = ep_FeeRecipient p' -> ep_StateRoot p = ep_StateRoot p' -> ep_ReceiptsRoot p = ep_ReceiptsRoot p' -> ep_LogsBloom p = ep_LogsBloom p' -> ep_PrevRandao p = ep_PrevRandao p' -> ep_BlockNumber p = ep_BlockNumber p' -> ep_GasLimit p = ep_GasLimit p' -> ep_GasUsed p = ep_GasUsed p' -> ep_Timestamp p = ep_Timestamp p' -> ep_ExtraData p = ep_ExtraData p' -> ep_BaseFeePerGas p = ep_BaseFeePerGas p' -> ep_BlockHash p = ep_BlockHash p' -> ep_TxRoot p = ep_TxRoot p' -> ep_WithdrawalsRoot p = ep_WithdrawalsRoot p' -> ep_BlobGasUsed p = ep_BlobGasUsed p' -> ep_ExcessBlobGas p = ep_ExcessBlobGas p' -> p = p'.
Proof. destruct p, p'. cbn. intros. by subst. Qed.

Lemma payload_roots_agree (p p' : ExecutionPayloadHeader) (spec spec' : SpecVersion) (r : bytes) : payload_ok p -> payload_ok p' ->
  payload_root p spec = Ok r -> payload_root p' spec' = Ok r -> p = p' \/ sha_collision_in (payload_nodes p) (payload_nodes p').
Proof.
  intros O O' H H'. apply payload_root_ok in H as (LE & _ & H); [|apply O]. apply payload_root_ok in H' as (LE' & _ & H'); [|apply O'].
  assert (ContainerRoot (payload_fields p) = ContainerRoot (payload_fields p')) as E by congruence.
  apply ContainerRoot_binds in E as [E|E]; [|right; revert E; apply sha_collision_mono; apply field_nodes_in|by apply payload_fields_ok..|
    by rewrite !length_payload_fields|rewrite length_payload_fields; apply below_2_62; lia].
  unfold payload_fields, payload_chunks in E. cbn [app] in E. cons_inv.
  destruct O as [_ OF [OB OB2] OE OU], O' as [_ OF' [OB' OB2'] OE' OU']. rewrite !Forall_cons in OU. rewrite !Forall_cons in OU'.
  match goal with EX : sha256 (extra_node _) = _ |- _ =>
    apply (sha_same _ _ (ep_ExtraData p = ep_ExtraData p')) in EX; [|by apply extra_node_inj]; destruct EX as [EX|EX]; [|right; eexists _, _; split; [apply extra_node_in|]; split; [apply extra_node_in|exact EX]] end.
  match goal with EB : bloom_root p = bloom_root p' |- _ => rename EB into EBl end.
  assert (BytesRoot (ep_LogsBloom p) = BytesRoot (ep_LogsBloom p')) as EBR by (rewrite !bloom_BytesRoot by done; congruence).
  apply BytesRoot_binds in EBR as [EBR|EBR]; [|right; revert EBR; apply sha_collision_mono; apply bloom_nodes_in|done|done|congruence|
    rewrite OB; pose proof (Nat.pow_le_mono_r 2 8 61 ltac:(done) ltac:(lia)) as HP; change (2 ^ 8)%nat with 256%nat in HP; exact HP].
  left. destruct OU as (? & ? & ? & ? & ? & ? & _), OU' as (? & ? & ? & ? & ? & ? & _).
  repeat match goal with EU : Uint64Root _ = Uint64Root _ |- _ => apply Uint64Root_inj in EU; [|assumption|assumption] end.
  match goal with ET : to_chunk _ = to_chunk _ |- _ => apply (to_chunk_short _ _ 20) in ET; [|done|done|lia] end.
  apply payload_eq; assumption.
Qed.

(** The depth of a generalized index is the place of its highest bit. *)
Lemma depth_from_spec (fuel : nat) (i d : Z) : 1 <= i < 2 ^ Z.of_nat fuel -> depth_from fuel i d = d + Z.log2 i.
Proof.
  revert i d. induction fuel as [|fuel IH]; intros i d Hi; [cbn in Hi; lia|]. cbn [depth_from]. destruct (Z.ltb_spec 1 i).
  - rewrite Nat2Z.inj_succ, Z.pow_succ_r in Hi by lia. rewrite Z.shiftr_div_pow2 by lia. change (2 ^ 1) with 2.
    rewrite IH by (split; [apply Z.div_le_lower_bound; lia|apply Z.div_lt_upper_bound; lia]).
    change 2 with (2 ^ 1). rewrite <- Z.shiftr_div_pow2, Z.log2_shiftr by lia. assert (1 <= Z.log2 i) by (apply Z.log2_le_pow2; cbn; lia). lia.
  - assert (i = 1) as -> by lia. change (Z.log2 1) with 0. lia.
Qed.
Lemma GeneralizedIndexDepth_spec (index : Z) : 1 <= index < 2 ^ 64 -> GeneralizedIndexDepth index = Z.log2 index.
Proof. intros H. unfold GeneralizedIndexDepth. rewrite depth_from_spec by done. lia. Qed.

Lemma length_branch_from (n k i : nat) (chunks : list bytes) : length (branch_from n k i chunks) = n.
Proof. revert k i. induction n as [|n IH]; intros k i; [done|]. cbn [branch_from length]. by rewrite IH. Qed.
Lemma branch_from_ok (n k i : nat) (chunks : list bytes) : Forall (array_ok 32) chunks -> Forall (array_ok 32) (branch_from n k i chunks).
Proof.
  intros H. revert k i. induction n as [|n IH]; intros k i; cbn [branch_from]; [by apply Forall_nil_2|]. apply Forall_cons_2; [|apply IH].
  destruct k; cbn [subtree]; [|apply sha256_array]. destruct (chunks !! sibling i) as [c|] eqn:E; cbn [default]; [|apply zeros_array].
  by apply (Forall_lookup_1 _ _ _ _ H E).
Qed.

Lemma Z_testbit_of_nat (i j : nat) : Z.testbit (Z.of_nat i) (Z.of_nat j) = Nat.testbit i j.
Proof.
  pose proof (Z.testbit_spec' (Z.of_nat i) (Z.of_nat j) ltac:(lia)) as HZ. pose proof (Nat.testbit_spec' i j) as HN.
  change 2 with (Z.of_nat 2) in HZ. rewrite <- Nat2Z.inj_pow, <- Nat2Z.inj_div, <- Nat2Z.inj_mod, <- HN in HZ.
  destruct (Z.testbit _ _), (Nat.testbit i j); cbn in HZ; lia.
Qed.
Lemma leaf_index_bits (d i : nat) : (i < 2 ^ d)%nat -> (d < 64)%nat ->
  GeneralizedIndexDepth (2 ^ Z.of_nat d + Z.of_nat i) = Z.of_nat d /\
  forall j, (j < d)%nat -> Z.testbit (2 ^ Z.of_nat d + Z.of_nat i) (Z.of_nat j) = Nat.testbit i j.
Proof.
  intros Hi Hd. assert (Z.of_nat i < 2 ^ Z.of_nat d) as HiZ by (change 2 with (Z.of_nat 2); rewrite <- Nat2Z.inj_pow; lia).
  pose proof (Z.pow_pos_nonneg 2 (Z.of_nat d) ltac:(lia) ltac:(lia)).
  split.
  - rewrite GeneralizedIndexDepth_spec.
    + apply Z.log2_unique; [lia|]. rewrite Z.pow_succ_r by lia. lia.
    + pose proof (Z.pow_le_mono_r 2 (Z.of_nat d) 63 ltac:(lia) ltac:(lia)). change (2 ^ 64) with (2 * 2 ^ 63). lia.
  - intros j Hj. rewrite <- (Z.mod_pow2_bits_low _ (Z.of_nat d)) by lia. rewrite <- Zplus_mod_idemp_l, Z_mod_same_full, Z.add_0_l, Z.mod_small by lia.
    apply Z_testbit_of_nat.
Qed.
End Payload.

(** ** Theorems *)

Section Theorems.
Context `{Hash : Sha256} `{!Sha256Laws Hash}.

(** C29. [Merkleize] is the recursive SSZ tree: with an explicit limit of 2^d leaves
    it returns the tree of depth d whose absent chunks are zero chunks, without
    a limit that of the smallest power of two that holds the chunks, an empty
    subtree has its zero hash, and a limit below the chunk count or not a power
    of two is an error. *)
Theorem Merkleize_reference (chunks : list bytes) :
  (forall d, (d <= 62)%nat -> (length chunks <= 2 ^ d)%nat -> Merkleize chunks (2 ^ Z.of_nat d) = Ok (subtree d 0 chunks)) /\
  ((length chunks <= 2 ^ 62)%nat -> Merkleize chunks 0 = Ok (subtree (Nat.log2_up (length chunks)) 0 chunks)) /\
  (forall d i, (length chunks <= i * 2 ^ d)%nat -> subtree d i chunks = zero_hash d) /\
  (forall limit, limit <> 0 -> limit < Z.of_nat (length chunks) -> Merkleize chunks limit = Err ErrTooManyChunks) /\
  (forall limit, Z.of_nat (length chunks) <= limit -> 0 < limit -> limit <> 2 ^ Z.log2 limit -> Merkleize chunks limit = Err ErrLimitNotPower).
Proof.
  split; [intros d; apply Merkleize_subtree|]. split; [apply Merkleize_auto|]. split; [intros d i; apply subtree_empty|]. split.
  - intros limit Hne HL. unfold Merkleize. cbv zeta. rewrite (proj2 (Z.eqb_neq limit 0)) by done. by rewrite (proj2 (Z.ltb_lt _ _)).
  - intros limit HL Hpos Hp. unfold Merkleize. cbv zeta. rewrite (proj2 (Z.eqb_neq limit 0)) by lia. rewrite (proj2 (Z.ltb_ge _ _)) by done. cbn [guard_err].
    destruct (Z.eqb_spec (Z.land limit (limit - 1)) 0) as [E|E]; [exfalso|done].
    pose proof (Z.log2_spec limit Hpos) as [H1 H2]. pose proof (Z.log2_nonneg limit).
    assert (Z.testbit (Z.land limit (limit - 1)) (Z.log2 limit) = true) as HT.
    { rewrite Z.land_spec, Z.bit_log2 by done. cbn [andb]. rewrite <- (Z.log2_unique (limit - 1) (Z.log2 limit)) at 1; [|lia|lia]. apply Z.bit_log2. lia. }
    rewrite E, Z.bits_0 in HT. done.
Qed.

(** A generalized-index branch proves the one chunk at its index: the sibling
    hashes of chunk i verify it at index 2^d + i of the tree's root, and any
    other leaf some branch verifies there is that chunk, or a hash on the way
    up and one on the chunk's own way up are a collision of SHA-256. *)
Theorem branch_proves_chunk (d i : nat) (chunks branch : list bytes) (leaf root : bytes)
  (Hd : (d <= 62)%nat) (Hi : (i < 2 ^ d)%nat) (HL : (length chunks <= 2 ^ d)%nat) (HC : Forall (array_ok 32) chunks)
  (HR : Merkleize chunks (2 ^ Z.of_nat d) = Ok root) :
  let index := 2 ^ Z.of_nat d + Z.of_nat i in
  let chunk := default (zeros 32) (chunks !! i) in
  VerifyBranch chunk (branch_from d 0 i chunks) index root = Ok tt /\
  (array_ok 32 leaf -> Forall (array_ok 32) branch -> VerifyBranch leaf branch index root = Ok tt ->
     leaf = chunk \/ sha_collision_in (climb_nodes leaf branch 0 index) (climb_nodes chunk (branch_from d 0 i chunks) 0 index)).
Proof.
  cbv zeta. destruct (leaf_index_bits d i Hi ltac:(lia)) as [HG HB]. rewrite Merkleize_subtree in HR by done. apply Ok_inj in HR as <-.
  assert (VerifyBranch (default (zeros 32) (chunks !! i)) (branch_from d 0 i chunks) (2 ^ Z.of_nat d + Z.of_nat i) (subtree d 0 chunks) = Ok tt) as HV.
  { apply VerifyBranch_ok. pose proof (Z.pow_pos_nonneg 2 (Z.of_nat d) ltac:(lia) ltac:(lia)). split; [lia|]. rewrite length_branch_from. split; [done|].
    rewrite (climb_branch d 0 i chunks 0 _ ltac:(lia) HB). by rewrite Nat.div_small. }
  split; [done|]. intros Hl Hb H. apply (branch_leaves_agree _ _ _ _ _ _ H HV Hl); [|done|by apply branch_from_ok].
  destruct (chunks !! i) as [c|] eqn:E; cbn [default]; [by apply (Forall_lookup_1 _ _ _ _ HC E)|apply zeros_array].
Qed.

(** A beacon header's root names the header: it always exists, and two headers
    with one root are equal, or two nodes of their trees collide. *)
Theorem header_root_binds (h h' : BeaconBlockHeader) (O : beacon_header_ok h) (O' : beacon_header_ok h') :
  exists r, header_root h = Ok r /\
    (header_root h' = Ok r -> h = h' \/ sha_collision_in (container_nodes (header_chunks h)) (container_nodes (header_chunks h'))).
Proof. destruct (header_root_total h) as [r Hr]. exists r. split; [done|]. intros Hr'. apply header_roots_agree; congruence. Qed.

(** An execution payload header's root names the payload: two payloads with one
    root, under any two forks whose layout is recorded, agree in all seventeen
    fields, or two nodes of their trees collide. *)
Theorem payload_root_binds (p p' : ExecutionPayloadHeader) (spec spec' : SpecVersion) (r : bytes) (O : payload_ok p) (O' : payload_ok p')
  (H : payload_root p spec = Ok r) (H' : payload_root p' spec' = Ok r) :
  p = p' \/ sha_collision_in (payload_nodes p) (payload_nodes p').
Proof. by apply (payload_roots_agree p p' spec spec' r). Qed.
End Theorems.

(** ** Witnesses *)

Definition toy_chunks : list bytes := [be_encode 32 1; be_encode 32 2; be_encode 32 3].
Definition toy_root : bytes := match Merkleize toy_chunks 4 with Ok r => r | _ => [] end.
Lemma toy_chunks_ok : Forall (array_ok 32) toy_chunks.
Proof. repeat apply Forall_cons_2; try apply Forall_nil_2; apply be_encode_array. Qed.
Lemma toy_chunks_root : Merkleize toy_chunks (2 ^ Z.of_nat 2) = Ok toy_root.
Proof. vm_compute. reflexivity. Qed.
Lemma branch_proves_chunk_witness :
  VerifyBranch (default (zeros 32) (toy_chunks !! 2%nat)) (branch_from 2 0 2 toy_chunks) (2 ^ Z.of_nat 2 + Z.of_nat 2) toy_root = Ok tt.
Proof.
  exact (proj1 (branch_proves_chunk 2 2 toy_chunks [] (zeros 32) toy_root ltac:(lia) ltac:(cbn; lia) ltac:(cbn; lia) toy_chunks_ok toy_chunks_root)).
Defined.
Example toy_branch_wrong_index : VerifyBranch (be_encode 32 3) [zeros 32; sha256Pair (be_encode 32 1) (be_encode 32 2)] 7 toy_root = Err ErrBranchInvalid.
Proof. vm_compute. reflexivity. Qed.

Definition toy_beacon_header : BeaconBlockHeader := mkBeaconBlockHeader 9 1 (zeros 32) (be_encode 32 5) (be_encode 32 6).
Lemma toy_beacon_header_ok : beacon_header_ok toy_beacon_header.
Proof.
  split; cbn [toy_beacon_header bb_Slot bb_ProposerIndex bb_ParentRoot bb_StateRoot bb_BodyRoot];
    first [unfold u_range; lia|apply zeros_array|apply be_encode_array].
Qed.
Lemma header_root_binds_witness : exists r, header_root toy_beacon_header = Ok r.
Proof. destruct (header_root_binds toy_beacon_header toy_beacon_header toy_beacon_header_ok toy_beacon_header_ok) as (r & Hr & _). by exists r. Defined.

Definition toy_payload : ExecutionPayloadHeader :=
  mkExecutionPayloadHeader (zeros 32) (zeros 20) (be_encode 32 5) (zeros 32) (zeros 256) (zeros 32) 1 2 3 4 [1; 2] (zeros 32) (be_encode 32 8) (zeros 32) (zeros 32) 0 0.
Definition toy_payload_root : bytes := match payload_root toy_payload SpecFulu with Ok r => r | _ => [] end.
Lemma toy_payload_ok : payload_ok toy_payload.
Proof.
  split; cbn [toy_payload ep_ParentHash ep_StateRoot ep_ReceiptsRoot ep_PrevRandao ep_BaseFeePerGas ep_BlockHash ep_TxRoot ep_WithdrawalsRoot
    ep_FeeRecipient ep_LogsBloom ep_ExtraData ep_BlockNumber ep_GasLimit ep_GasUsed ep_Timestamp ep_BlobGasUsed ep_ExcessBlobGas];
    try apply zeros_array; repeat first [apply Forall_cons_2|apply Forall_nil_2];
    first [apply zeros_array|apply be_encode_array|unfold u_range; lia|unfold byte_ok; lia].
Qed.
Lemma payload_root_binds_witness : toy_payload = toy_payload \/ sha_collision_in (payload_nodes toy_payload) (payload_nodes toy_payload).
Proof.
  apply (payload_root_binds toy_payload toy_payload SpecFulu SpecElectra toy_payload_root toy_payload_ok toy_payload_ok); vm_compute; reflexivity.
Defined.
