(* ===== verification/EthFollower.v ===== *)
(** * Authenticated blocks and the chain follower ([internal/ethproof/blockscan.go], [chainfollower.go])

    The two ways a block is authenticated, the logs of a contract in it, the
    walk back from a finalised head to the recorded checkpoint, and [Advance],
    which hands every block in between to a handler.  The handler and the
    checkpoint store are operations on a world [W]; the providers of headers and
    receipts are untrusted functions. *)
From S2P Require Import Prelude.
From S2P Require Import GoBytes.
From S2P Require Import Rlp.
From S2P Require Import EthProof.
From S2P Require Import EthTrie.
From S2P Require Import EthReceipts.
From S2P Require Import EthHeader.
From S2P Require Import EthSsz.
From S2P Require Import RecordUpdate.
From Stdlib Require Import Ascii.
From Stdlib Require String.
Import String.StringSyntax.

Inductive follow_err : Type :=
| ErrBlockNotAuthenticated | ErrNoAuthenticatedCheckpoint | ErrReorgBeyondCheckpoint | ErrCatchUpTooLarge
| ErrHeaderCount        (* asked for n headers, got another number *)
| ErrHeaderNumber       (* wraps [ErrHeaderHashMismatch] *)
| ErrSource | ErrStore | ErrHandler
| ErrOfHeader (e : header_err) | ErrOfReceipts (e : receipt_err)
| FollowOutOfFuel.

Definition of_header {A : Type} (m : outcome header_err A) : outcome follow_err A :=
  match m with Ok a => Ok a | Err e => Err (ErrOfHeader e) | Panic => Panic end.
Definition of_receipts {A : Type} (m : outcome receipt_err A) : outcome follow_err A :=
  match m with Ok a => Ok a | Err e => Err (ErrOfReceipts e) | Panic => Panic end.

(** ** Blocks *)

Record AuthenticatedBlock : Type := mkBlock {
  ab_Number : Z; ab_Hash : bytes; ab_ParentHash : bytes; ab_ReceiptsRoot : bytes; ab_LogsBloom : bytes; ab_Timestamp : Z; ab_authentic : bool
}.

Definition BlockFromFinalizedPayload (p : ExecutionPayloadHeader) : AuthenticatedBlock :=
  mkBlock (ep_BlockNumber p) (ep_BlockHash p) (ep_ParentHash p) (ep_ReceiptsRoot p) (ep_LogsBloom p) (ep_Timestamp p) true.

(** [big.Int.Uint64]: the low 64 bits of the absolute value. *)
Definition big_Uint64 (v : Z) : Z := wrap_u 64 (Z.abs v).

Definition unionBloom (receipts : list Receipt) : bytes :=
  foldl (fun out r => zip_with Z.lor out (rc_Bloom r)) (zeros 256) receipts.

(** The configuration of a [ChainFollower]. *)
Record FollowerConfig : Type := mkFollowerConfig { fc_ChainID : Z; fc_Contract : bytes; fc_MaxCatchUp : Z; fc_BatchSize : Z }.
Record FollowerCheckpoint : Type := mkFollowerCheckpoint { cp_BlockNumber : Z; cp_BlockHash : bytes }.
#[export] Instance FollowerCheckpoint_eq_dec : EqDecision FollowerCheckpoint.
Proof. solve_decision. Defined.
Record Progress : Type := mkProgress { pg_From : Z; pg_To : Z; pg_Examined : Z; pg_Skipped : Z; pg_Fetched : Z; pg_Logs : Z }.
#[export] Instance Progress_eta : Eta Progress := fun x =>
  mkProgress (pg_From x) (pg_To x) (pg_Examined x) (pg_Skipped x) (pg_Fetched x) (pg_Logs x).

Section Blocks.
Context `{K : Keccak}.

Definition BlockFromParentLink (h : ExecutionHeader) (fork : ExecutionFork) (childParentHash : bytes) : outcome header_err AuthenticatedBlock :=
  let? hash := AuthenticateHeader h fork childParentHash in
  let? number := need header_number (eh_Number h) in
  Ok (mkBlock (big_Uint64 number) hash (eh_ParentHash h) (eh_ReceiptRoot h) (eh_Bloom h) (eh_Time h) true).

Definition MayContainAddress (b : AuthenticatedBlock) (addr : bytes) : bool := MayContain (ab_LogsBloom b) addr.

Definition logs_of (addr : bytes) (receipts : list Receipt) : list Log :=
  concat (map (fun r => filter (fun l => lg_Address l = addr) (rc_Logs r)) receipts).
Definition AuthenticatedLogsFrom (b : AuthenticatedBlock) (addr : bytes) (receipts : list Receipt) : outcome follow_err (list Log) :=
  fail? negb (ab_authentic b) with ErrBlockNotAuthenticated ;;
  let? verified := of_receipts (AuthenticateReceipts (ab_ReceiptsRoot b) receipts) in
  fail? negb (bool_decide (unionBloom verified = ab_LogsBloom b)) with ErrOfReceipts ErrReceiptsRootMismatch ;;
  Ok (logs_of addr verified).

(** ** The walk back *)

Context (cfg : FollowerConfig).
Context (HeadersDescending : Z -> Z -> outcome follow_err (list ExecutionHeader)) (ReceiptsByNumber : Z -> outcome follow_err (list Receipt)).

(** The loop over one batch; [chain] is newest first. *)
Fixpoint walk_batch (headers : list ExecutionHeader) (chain : list AuthenticatedBlock) (expected : bytes) (next : Z)
    : outcome follow_err (list AuthenticatedBlock * bytes * Z) :=
  match headers with
  | [] => Ok (chain, expected, next)
  | h :: headers =>
      let? fork := of_header (ExecutionForkAt (fc_ChainID cfg) (eh_Time h)) in
      let? b := of_header (BlockFromParentLink h fork expected) in
      fail? negb (ab_Number b =? next) with ErrHeaderNumber ;;
      walk_batch headers (chain ++ [b]) (ab_ParentHash b) (wrap_u 64 (next - 1))
  end.

Definition batch_count (cp : FollowerCheckpoint) (next : Z) : Z :=
  let batch := if fc_BatchSize cfg <=? 0 then 100 else fc_BatchSize cfg in
  let remaining := wrap_s 64 (next - cp_BlockNumber cp) in
  if remaining <? batch then remaining else batch.

Fixpoint walk_batches (fuel : nat) (cp : FollowerCheckpoint) (chain : list AuthenticatedBlock) (expected : bytes) (next : Z)
    : outcome follow_err (list AuthenticatedBlock * bytes) :=
  if negb (cp_BlockNumber cp <? next) then Ok (chain, expected)
  else
    match fuel with
    | O => Err FollowOutOfFuel
    | S fuel =>
        let count := batch_count cp next in
        let? headers := HeadersDescending next count in
        fail? negb (Z.of_nat (length headers) =? count) with ErrHeaderCount ;;
        let? (chain, expected, next) := walk_batch headers chain expected next in
        walk_batches fuel cp chain expected next
    end.

(** A batch is one header at least, so the distance bounds the batches. *)
Definition walkBack (head : AuthenticatedBlock) (cp : FollowerCheckpoint) : outcome follow_err (list AuthenticatedBlock) :=
  let next := wrap_u 64 (ab_Number head - 1) in
  let? (chain, expected) := walk_batches (Z.to_nat (next - cp_BlockNumber cp)) cp [head] (ab_ParentHash head) next in
  fail? negb (bool_decide (expected = cp_BlockHash cp)) with ErrReorgBeyondCheckpoint ;;
  Ok chain.

(** ** Advance *)

Context {W : Type}.
Context (LoadCheckpoint : W -> outcome follow_err (option FollowerCheckpoint)).
Context (SaveCheckpoint : FollowerCheckpoint -> W -> W * option follow_err).
Context (FinalizedBlock : outcome follow_err AuthenticatedBlock).

Definition Initialize (w : W) : W * outcome follow_err FollowerCheckpoint :=
  match FinalizedBlock with
  | Err e => (w, Err e)
  | Panic => (w, Panic)
  | Ok head =>
      if negb (ab_authentic head) then (w, Err ErrBlockNotAuthenticated)
      else
        let cp := mkFollowerCheckpoint (ab_Number head) (ab_Hash head) in
        let '(w, err) := SaveCheckpoint cp w in
        (w, match err with Some e => Err e | None => Ok cp end)
  end.

Definition InitializeAt (cp : FollowerCheckpoint) (w : W) : W * option follow_err :=
  if (cp_BlockNumber cp =? 0) || bool_decide (cp_BlockHash cp = zeros 32) then (w, Some ErrNoAuthenticatedCheckpoint)
  else SaveCheckpoint cp w.

Context (handle : AuthenticatedBlock -> list Log -> W -> W * option follow_err).

(** The logs of a block and what the counters become. *)
Definition block_logs (prog : Progress) (b : AuthenticatedBlock) : Progress * outcome follow_err (list Log) :=
  if negb (MayContainAddress b (fc_Contract cfg)) then (((prog) <| pg_Skipped := pg_Skipped prog + 1 |>), Ok [])
  else
    match ReceiptsByNumber (ab_Number b) with
    | Err e => (prog, Err e)
    | Panic => (prog, Panic)
    | Ok receipts =>
        match AuthenticatedLogsFrom b (fc_Contract cfg) receipts with
        | Ok logs => (((prog) <| pg_Fetched := pg_Fetched prog + 1 |> <| pg_Logs := pg_Logs prog + Z.of_nat (length logs) |>), Ok logs)
        | Err e => (prog, Err e)
        | Panic => (prog, Panic)
        end
    end.

(** The loop over the blocks, oldest first. *)
Fixpoint process (blocks : list AuthenticatedBlock) (prog : Progress) (w : W) : W * Progress * outcome follow_err unit :=
  match blocks with
  | [] => (w, prog, Ok tt)
  | b :: blocks =>
      let '(prog, logs) := block_logs ((prog) <| pg_Examined := pg_Examined prog + 1 |>) b in
      match logs with
      | Err e => (w, prog, Err e)
      | Panic => (w, prog, Panic)
      | Ok logs =>
          match handle b logs w with
          | (w, Some e) => (w, prog, Err e)
          | (w, None) =>
              match SaveCheckpoint (mkFollowerCheckpoint (ab_Number b) (ab_Hash b)) w with
              | (w, Some e) => (w, prog, Err e)
              | (w, None) => process blocks prog w
              end
          end
      end
  end.

Definition no_progress : Progress := mkProgress 0 0 0 0 0 0.

Definition Advance (w : W) : W * Progress * outcome follow_err unit :=
  match LoadCheckpoint w with
  | Err e => (w, no_progress, Err e)
  | Panic => (w, no_progress, Panic)
  | Ok None => (w, no_progress, Err ErrNoAuthenticatedCheckpoint)
  | Ok (Some cp) =>
      match FinalizedBlock with
      | Err e => (w, no_progress, Err e)
      | Panic => (w, no_progress, Panic)
      | Ok head =>
          if negb (ab_authentic head) then (w, no_progress, Err ErrBlockNotAuthenticated)
          else
            let prog := mkProgress (cp_BlockNumber cp) (ab_Number head) 0 0 0 0 in
            if ab_Number head =? cp_BlockNumber cp then
              (w, prog, if bool_decide (ab_Hash head = cp_BlockHash cp) then Ok tt else Err ErrReorgBeyondCheckpoint)
            else if ab_Number head <? cp_BlockNumber cp then (w, prog, Err ErrReorgBeyondCheckpoint)
            else
              let gap := wrap_s 64 (ab_Number head - cp_BlockNumber cp) in
              if (0 <? fc_MaxCatchUp cfg) && (fc_MaxCatchUp cfg <? gap) then (w, prog, Err ErrCatchUpTooLarge)
              else
                match walkBack head cp with
                | Err e => (w, prog, Err e)
                | Panic => (w, prog, Panic)
                | Ok chain => process (reverse chain) prog w
                end
      end
  end.
End Blocks.

(** ** The file behind [FileCheckpointStore] *)

(** [encoding/json] of a checkpoint: its height and the text of its hash. *)
Class CheckpointCodec : Type := { cp_marshal : Z -> string -> bytes; cp_unmarshal : bytes -> option (Z * string) }.
Class CheckpointCodecLaws (C : CheckpointCodec) : Prop :=
  cp_unmarshal_marshal : forall n s, u_range 64 n -> cp_unmarshal (cp_marshal n s) = Some (n, s).

(** [trim0x] *)
Definition trim0x (s : string) : string :=
  match s with
  | String.String a (String.String b rest) =>
      if Ascii.eqb a "0" && (Ascii.eqb b "x" || Ascii.eqb b "X") then rest else s
  | _ => s
  end%char.

Record CheckpointDisk : Type := mkCheckpointDisk { cd_file : option bytes; cd_tmp : option bytes }.

Section File.
Context {Codec : CheckpointCodec}.

Definition file_LoadCheckpoint (d : CheckpointDisk) : outcome follow_err (option FollowerCheckpoint) :=
  match cd_file d with
  | None => Ok None
  | Some blob =>
      let? (number, text) := of_option ErrStore (cp_unmarshal blob) in
      let? raw := of_option ErrStore (hex_decode (trim0x text)) in
      fail? negb (length raw =? 32)%nat with ErrStore ;;
      Ok (Some (mkFollowerCheckpoint number raw))
  end.
Definition checkpoint_blob (cp : FollowerCheckpoint) : bytes :=
  cp_marshal (cp_BlockNumber cp) (String.append "0x" (hex_encode (cp_BlockHash cp))).
(** The disk before, after the temporary file (of which a crash may have written
    any part, [torn]), and after the rename. *)
Definition file_SaveCheckpoint (torn : bytes) (cp : FollowerCheckpoint) (d : CheckpointDisk) : list CheckpointDisk :=
  [d; mkCheckpointDisk (cd_file d) (Some torn); mkCheckpointDisk (cd_file d) (Some (checkpoint_blob cp)); mkCheckpointDisk (Some (checkpoint_blob cp)) None].
End File.

(** ** The walk *)

(** Blocks in order of height, each naming the hash before it as its parent. *)
Fixpoint linked (n : Z) (hash : bytes) (blocks : list AuthenticatedBlock) : Prop :=
  match blocks with
  | [] => True
  | b :: blocks => ab_Number b = n + 1 /\ ab_ParentHash b = hash /\ ab_authentic b = true /\ linked (n + 1) (ab_Hash b) blocks
  end.

Section Walk.
Context `{K : Keccak}.
Context (cfg : FollowerConfig).

(** A block built from a header the provider sent. *)
Definition from_header (b : AuthenticatedBlock) (h : ExecutionHeader) (fork : ExecutionFork) : Prop :=
  BlockFromParentLink h fork (ab_Hash b) = Ok b.

Lemma BlockFromParentLink_inv (h : ExecutionHeader) (fork : ExecutionFork) (want : bytes) (b : AuthenticatedBlock) :
  BlockFromParentLink h fork want = Ok b ->
  exists number, AuthenticateHeader h fork want = Ok want /\ eh_Number h = Some number /\
    b = mkBlock (big_Uint64 number) want (eh_ParentHash h) (eh_ReceiptRoot h) (eh_Bloom h) (eh_Time h) true.
Proof.
  unfold BlockFromParentLink. intros H. apply obind_ok in H as (hash & Ha & H). apply obind_ok in H as (number & Hn & H).
  apply Ok_inj in H as <-. exists number. apply AuthenticateHeader_inv in Ha as Hi. destruct Hi as (_ & -> & _).
  split; [done|]. split; [|done]. unfold need, of_option in Hn. destruct (eh_Number h); [|done]. apply Ok_inj in Hn. congruence.
Qed.
Lemma of_header_ok {A : Type} (m : outcome header_err A) (a : A) : of_header m = Ok a <-> m = Ok a.
Proof. destruct m; cbn; split; intros H; try done; congruence. Qed.
Lemma of_receipts_ok {A : Type} (m : outcome receipt_err A) (a : A) : of_receipts m = Ok a <-> m = Ok a.
Proof. destruct m; cbn; split; intros H; try done; congruence. Qed.

(** A chain being collected: newest first, down to [next + 1] and the parent [expected]. *)
Record collected (supplied : ExecutionHeader -> Prop) (head : AuthenticatedBlock) (chain : list AuthenticatedBlock) (expected : bytes) (next : Z) : Prop := {
  co_linked : linked next expected (reverse chain);
  co_next : next + Z.of_nat (length chain) = ab_Number head;
  co_shape : exists older, chain = head :: older /\ Forall (fun b => exists h fork, from_header b h fork /\ supplied h) older
}.

Lemma collected_snoc (supplied : ExecutionHeader -> Prop) (head b : AuthenticatedBlock) (chain : list AuthenticatedBlock) (expected : bytes) (next : Z)
    (h : ExecutionHeader) (fork : ExecutionFork) :
  collected supplied head chain expected next -> BlockFromParentLink h fork expected = Ok b -> ab_Number b = next -> supplied h ->
  collected supplied head (chain ++ [b]) (ab_ParentHash b) (next - 1).
Proof.
  intros [HL HN (older & -> & HF)] HB Hn HS. apply BlockFromParentLink_inv in HB as HI. destruct HI as (number & Ha & En & Eb). split.
  - rewrite reverse_app. cbn [reverse app rev_append]. change (reverse [b]) with [b]. cbn [app linked]. replace (next - 1 + 1) with next by lia.
    split; [done|]. split; [done|]. split; [by rewrite Eb|]. by rewrite Eb.
  - rewrite length_app. cbn [length] in *. lia.
  - exists (older ++ [b]). split; [done|]. apply Forall_app_2; [done|]. apply Forall_cons_2; [|by apply Forall_nil_2]. exists h, fork. split; [|done].
    unfold from_header. by rewrite Eb in HB |- *.
Qed.

Lemma walk_batch_spec (supplied : ExecutionHeader -> Prop) (head : AuthenticatedBlock) (headers : list ExecutionHeader) (chain chain' : list AuthenticatedBlock)
    (expected expected' : bytes) (next next' : Z) :
  Forall supplied headers -> Z.of_nat (length headers) <= next -> next < 2 ^ 64 -> collected supplied head chain expected next ->
  walk_batch cfg headers chain expected next = Ok (chain', expected', next') ->
  next' = next - Z.of_nat (length headers) /\ collected supplied head chain' expected' next'.
Proof.
  intros HS. revert chain expected next. induction HS as [|h headers Hh _ IH]; intros chain expected next HL Hlt HC H; cbn [walk_batch] in H.
  - apply Ok_inj in H. apply pair_equal_spec in H as [H <-]. apply pair_equal_spec in H as [<- <-]. cbn [length]. split; [lia|done].
  - apply obind_ok in H as (fork & _ & H). apply obind_ok in H as (b & Hb & H). rewrite of_header_ok in Hb. apply guard_err_ok in H as [Hn H].
    apply negb_false_iff, Z.eqb_eq in Hn. cbn [length] in HL. rewrite wrap_u_small in H by (unfold u_range; lia).
    apply IH in H as [-> HC']; [|lia|lia|by eapply collected_snoc]. cbn [length]. split; [lia|done].
Qed.

Context (HeadersDescending : Z -> Z -> outcome follow_err (list ExecutionHeader)).
(** A header the provider sent. *)
Definition supplied (h : ExecutionHeader) : Prop := exists from count hs, HeadersDescending from count = Ok hs /\ h ∈ hs.

Lemma walk_batches_spec (fuel : nat) (head : AuthenticatedBlock) (cp : FollowerCheckpoint) (chain chain' : list AuthenticatedBlock) (expected expected' : bytes) (next : Z) :
  0 <= cp_BlockNumber cp <= next -> next < 2 ^ 64 -> collected supplied head chain expected next ->
  walk_batches cfg HeadersDescending fuel cp chain expected next = Ok (chain', expected') ->
  collected supplied head chain' expected' (cp_BlockNumber cp).
Proof.
  revert chain expected next. induction fuel as [|fuel IH]; intros chain expected next Hcp Hlt HC H; cbn [walk_batches] in H.
  - destruct (Z.ltb_spec (cp_BlockNumber cp) next); [done|]. cbn in H. apply Ok_inj in H. apply pair_equal_spec in H as [<- <-].
    by replace (cp_BlockNumber cp) with next by lia.
  - destruct (Z.ltb_spec (cp_BlockNumber cp) next) as [HL|HL]; cbn [negb] in H.
    + apply obind_ok in H as (headers & Hh & H). apply guard_err_ok in H as [Hn H]. apply negb_false_iff, Z.eqb_eq in Hn.
      apply obind_ok in H as ([[ch ex] nx] & Hw & H).
      assert (Z.of_nat (length headers) <= next - cp_BlockNumber cp) as HR.
      { rewrite Hn. unfold batch_count. pose proof (wrap_s_range 64 (next - cp_BlockNumber cp) ltac:(lia)) as HW. unfold s_range in HW.
        assert (wrap_s 64 (next - cp_BlockNumber cp) <= next - cp_BlockNumber cp) as HS.
        { destruct (decide (next - cp_BlockNumber cp < 2 ^ 63)); [rewrite wrap_s_small; [lia|lia|unfold s_range; cbn; lia]|]. change (64 - 1) with 63 in HW. lia. }
        destruct (Z.ltb_spec (wrap_s 64 (next - cp_BlockNumber cp)) (if fc_BatchSize cfg <=? 0 then 100 else fc_BatchSize cfg)); lia. }
      apply (walk_batch_spec supplied head) in Hw as [-> HC']; [|apply Forall_forall; intros h Hin; by exists next, (batch_count cfg cp next), headers|lia|lia|done].
      apply IH in H; [done|lia|lia|done].
    + apply Ok_inj in H. apply pair_equal_spec in H as [<- <-]. by replace (cp_BlockNumber cp) with next by lia.
Qed.

Lemma walkBack_spec (head : AuthenticatedBlock) (cp : FollowerCheckpoint) (chain : list AuthenticatedBlock) :
  0 <= cp_BlockNumber cp < ab_Number head -> ab_Number head < 2 ^ 64 -> ab_authentic head = true ->
  walkBack cfg HeadersDescending head cp = Ok chain ->
  collected supplied head chain (cp_BlockHash cp) (cp_BlockNumber cp).
Proof.
  intros Hcp Hlt Ha H. unfold walkBack in H. rewrite wrap_u_small in H by (unfold u_range; lia). apply obind_ok in H as ([ch ex] & Hw & H).
  apply guard_err_ok in H as [He H]. apply negb_false_iff, bool_decide_eq_true in He. apply Ok_inj in H as <-. rewrite <- He.
  apply (walk_batches_spec _ head) in Hw; [done|lia|lia|]. split.
  - change (reverse [head]) with [head]. cbn [linked]. replace (ab_Number head - 1 + 1) with (ab_Number head) by lia. done.
  - cbn [length]. lia.
  - exists []. split; [done|by apply Forall_nil_2].
Qed.

(** The walk ends: a batch is one header at least. *)
Lemma walk_batch_next (headers : list ExecutionHeader) (chain chain' : list AuthenticatedBlock) (expected expected' : bytes) (next next' : Z) :
  Z.of_nat (length headers) <= next < 2 ^ 64 -> walk_batch cfg headers chain expected next = Ok (chain', expected', next') -> next' = next - Z.of_nat (length headers).
Proof.
  revert chain expected next. induction headers as [|h headers IH]; intros chain expected next HL H; cbn [walk_batch length] in *.
  - apply Ok_inj in H. apply pair_equal_spec in H as [_ <-]. lia.
  - apply obind_ok in H as (fork & _ & H). apply obind_ok in H as (b & Hb & H). apply guard_err_ok in H as [Hn H].
    rewrite wrap_u_small in H by (unfold u_range; lia). apply IH in H; lia.
Qed.
Lemma walk_batch_fuel (headers : list ExecutionHeader) (chain : list AuthenticatedBlock) (expected : bytes) (next : Z) :
  walk_batch cfg headers chain expected next <> Err FollowOutOfFuel.
Proof.
  revert chain expected next. induction headers as [|h headers IH]; intros chain expected next; cbn [walk_batch]; [done|].
  destruct (ExecutionForkAt _ _); cbn [of_header obind]; [|done|done]. destruct (BlockFromParentLink _ _ _); cbn [of_header obind]; [|done|done].
  destruct (negb _); cbn [guard_err]; [done|apply IH].
Qed.
Lemma walk_batches_fuel (fuel : nat) (cp : FollowerCheckpoint) (chain : list AuthenticatedBlock) (expected : bytes) (next : Z) :
  (forall from count, HeadersDescending from count <> Err FollowOutOfFuel) ->
  0 <= cp_BlockNumber cp -> next < 2 ^ 64 -> next - cp_BlockNumber cp <= Z.of_nat fuel ->
  walk_batches cfg HeadersDescending fuel cp chain expected next <> Err FollowOutOfFuel.
Proof.
  intros HD Hcp. revert chain expected next. induction fuel as [|fuel IH]; intros chain expected next Hlt Hf; cbn [walk_batches].
  - destruct (Z.ltb_spec (cp_BlockNumber cp) next); [lia|done].
  - destruct (Z.ltb_spec (cp_BlockNumber cp) next) as [HL|HL]; cbn [negb]; [|done].
    destruct (HeadersDescending next (batch_count cfg cp next)) as [headers|e|] eqn:Hh; cbn [obind]; [|intros [= ->]; by apply (HD next (batch_count cfg cp next))|done].
    destruct (Z.eqb_spec (Z.of_nat (length headers)) (batch_count cfg cp next)) as [Hn|Hn]; cbn [negb guard_err]; [|done].
    destruct (walk_batch cfg headers chain expected next) as [[[ch ex] nx]|e|] eqn:Hw; cbn [obind]; [|intros [= ->]; by apply (walk_batch_fuel headers chain expected next)|done].
    assert (1 <= batch_count cfg cp next <= next - cp_BlockNumber cp) as HB.
    { unfold batch_count in Hn |- *. cbv zeta in Hn |- *. set (batch := if fc_BatchSize cfg <=? 0 then 100 else fc_BatchSize cfg) in *.
      assert (1 <= batch) as Hb by (unfold batch; destruct (Z.leb_spec (fc_BatchSize cfg) 0); lia).
      destruct (decide (next - cp_BlockNumber cp < 2 ^ 63)) as [Hs|Hs].
      - rewrite wrap_s_small by (unfold s_range; cbn; lia). destruct (Z.ltb_spec (next - cp_BlockNumber cp) batch); lia.
      - exfalso. assert (wrap_s 64 (next - cp_BlockNumber cp) < 0) as HN.
        { unfold wrap_s. change (64 - 1) with 63. rewrite <- (Z_mod_plus_full _ (-1)), Z.mod_small; lia. }
        destruct (Z.ltb_spec (wrap_s 64 (next - cp_BlockNumber cp)) batch); lia. }
    apply walk_batch_next in Hw; [|lia]. apply IH; lia.
Qed.
End Walk.

(** ** One walk per pair of ends *)

(** Newest first: each block names the next one as its parent and is one above it. *)
Fixpoint descending (b : AuthenticatedBlock) (older : list AuthenticatedBlock) : Prop :=
  match older with
  | [] => True
  | o :: older => (ab_ParentHash b = ab_Hash o /\ ab_Number b = ab_Number o + 1) /\ descending o older
  end.
Definition last_hash (hash : bytes) (blocks : list AuthenticatedBlock) : bytes := match last blocks with Some b => ab_Hash b | None => hash end.

Lemma linked_app (n : Z) (hash : bytes) (l k : list AuthenticatedBlock) :
  linked n hash (l ++ k) <-> linked n hash l /\ linked (n + Z.of_nat (length l)) (last_hash hash l) k.
Proof.
  revert n hash. induction l as [|b l IH]; intros n hash; cbn [app linked length].
  - replace (n + Z.of_nat 0) with n by lia. unfold last_hash. cbn. tauto.
  - rewrite IH. replace (n + 1 + Z.of_nat (length l)) with (n + Z.of_nat (S (length l))) by lia.
    assert (last_hash (ab_Hash b) l = last_hash hash (b :: l)) as -> by (unfold last_hash; rewrite last_cons; by destruct (last l)). tauto.
Qed.
Lemma linked_descending (n : Z) (hash : bytes) (b : AuthenticatedBlock) (older : list AuthenticatedBlock) :
  linked n hash (reverse (b :: older)) -> descending b older.
Proof.
  revert b. induction older as [|o older IH]; intros b H; [done|]. rewrite reverse_cons, linked_app in H. destruct H as [H1 (H3 & H2 & _)].
  split; [|by apply IH]. split; [rewrite H2; unfold last_hash; by rewrite last_reverse|].
  rewrite reverse_cons, linked_app in H1. destruct H1 as [_ (H4 & _)]. rewrite H3, H4, !length_reverse. cbn [length]. lia.
Qed.

Section Agree.
Context `{K : Keccak}.

(** A collision between two headers the providers sent. *)
Definition header_collision (P Q : ExecutionHeader -> Prop) : Prop :=
  exists h h' fork fork', P h /\ Q h' /\ keccak_collide (header_bytes h fork) (header_bytes h' fork').

Lemma from_header_inj (P Q : ExecutionHeader -> Prop) (o o' : AuthenticatedBlock) (h h' : ExecutionHeader) (fork fork' : ExecutionFork) :
  from_header o h fork -> from_header o' h' fork' -> ab_Hash o = ab_Hash o' -> ab_Number o = ab_Number o' -> header_ok h -> header_ok h' -> P h -> Q h' ->
  o = o' \/ header_collision P Q.
Proof.
  intros F F' E EN O O' HP HQ. apply BlockFromParentLink_inv in F as (n & A & En & Eo). apply BlockFromParentLink_inv in F' as (n' & A' & En' & Eo').
  rewrite <- E in A'. destruct (headers_agree _ _ _ _ _ _ _ A A' O O') as [[_ HA]|HC]; [left|right; by exists h, h', fork, fork'].
  rewrite Eo, Eo' in EN |- *. cbn [ab_Number] in EN. destruct HA as [HB _ [_ [_ HT]] _ _ _ _]. cons_inv. congruence.
Qed.

Lemma older_agree (P Q : ExecutionHeader -> Prop) (b : AuthenticatedBlock) (older older' : list AuthenticatedBlock) :
  (forall h, P h -> header_ok h) -> (forall h, Q h -> header_ok h) ->
  descending b older -> descending b older' -> length older = length older' ->
  Forall (fun o => exists h fork, from_header o h fork /\ P h) older -> Forall (fun o => exists h fork, from_header o h fork /\ Q h) older' ->
  older = older' \/ header_collision P Q.
Proof.
  intros HP HQ. revert b older'. induction older as [|o older IH]; intros b [|o' older'] D D' EL F F'; try done; [by left|].
  destruct D as [[E N] D], D' as [[E' N'] D']. apply Forall_cons in F as [(h & fork & Fo & Ph) F], F' as [(h' & fork' & Fo' & Qh) F'].
  destruct (from_header_inj P Q o o' h h' fork fork' Fo Fo' ltac:(congruence) ltac:(lia) (HP h Ph) (HQ h' Qh) Ph Qh) as [<-|]; [|by right].
  injection EL as EL. destruct (IH o older' D D' EL F F') as [->|]; [by left|by right].
Qed.

Lemma collected_agree (P Q : ExecutionHeader -> Prop) (head : AuthenticatedBlock) (chain chain' : list AuthenticatedBlock) (hash hash' : bytes) (n : Z) :
  (forall h, P h -> header_ok h) -> (forall h, Q h -> header_ok h) ->
  collected P head chain hash n -> collected Q head chain' hash' n -> chain = chain' \/ header_collision P Q.
Proof.
  intros HP HQ [L N (older & -> & F)] [L' N' (older' & -> & F')]. apply linked_descending in L, L'. cbn [length] in N, N'.
  destruct (older_agree P Q head older older' HP HQ L L' ltac:(lia) F F') as [->|]; [by left|by right].
Qed.
End Agree.

(** ** What [Advance] hands over *)

Section Deliver.
Context `{K : Keccak}.
Context (cfg : FollowerConfig).
Context (HeadersDescending : Z -> Z -> outcome follow_err (list ExecutionHeader)) (ReceiptsByNumber : Z -> outcome follow_err (list Receipt)).
Context {W : Type}.
Context (LoadCheckpoint : W -> outcome follow_err (option FollowerCheckpoint)).
Context (SaveCheckpoint : FollowerCheckpoint -> W -> W * option follow_err).
Context (FinalizedBlock : outcome follow_err AuthenticatedBlock).
Context (handle : AuthenticatedBlock -> list Log -> W -> W * option follow_err).

(** The logs handed over with a block. *)
Definition block_answer (b : AuthenticatedBlock) : outcome follow_err (list Log) := (block_logs cfg ReceiptsByNumber no_progress b).2.
Definition checkpoint_of (b : AuthenticatedBlock) : FollowerCheckpoint := mkFollowerCheckpoint (ab_Number b) (ab_Hash b).

(** Blocks handled and recorded one after the other, each before the next. *)
Inductive delivered : list AuthenticatedBlock -> list (list Log) -> W -> W -> Prop :=
| delivered_nil w : delivered [] [] w w
| delivered_cons b bs l ls w w1 w2 w' :
    block_answer b = Ok l -> handle b l w = (w1, None) -> SaveCheckpoint (checkpoint_of b) w1 = (w2, None) -> delivered bs ls w2 w' ->
    delivered (b :: bs) (l :: ls) w w'.

(** The step that ended the loop: the receipts, the handler or the store refused. *)
Definition stopped_at (b : AuthenticatedBlock) (w w' : W) (r : outcome follow_err unit) : Prop :=
  (w' = w /\ match block_answer b with Ok _ => False | Err e => r = Err e | Panic => r = Panic end) \/
  exists l, block_answer b = Ok l /\
    ((exists e, handle b l w = (w', Some e) /\ r = Err e) \/
     exists w1 e, handle b l w = (w1, None) /\ SaveCheckpoint (checkpoint_of b) w1 = (w', Some e) /\ r = Err e).

Lemma block_logs_answer (prog : Progress) (b : AuthenticatedBlock) : (block_logs cfg ReceiptsByNumber prog b).2 = block_answer b.
Proof.
  unfold block_answer, block_logs. destruct (negb _); [done|]. destruct (ReceiptsByNumber _) as [rs| |]; [|done|done].
  by destruct (AuthenticatedLogsFrom _ _ _).
Qed.

(** The counters after a block whose logs were read. *)
Definition counted (prog prog' : Progress) (bs : list AuthenticatedBlock) (ls : list (list Log)) : Prop :=
  pg_From prog' = pg_From prog /\ pg_To prog' = pg_To prog /\
  pg_Skipped prog' + pg_Fetched prog' = pg_Skipped prog + pg_Fetched prog + Z.of_nat (length bs) /\
  pg_Skipped prog' = pg_Skipped prog + Z.of_nat (length (filter (fun b => MayContainAddress b (fc_Contract cfg) = false) bs)) /\
  pg_Logs prog' = pg_Logs prog + Z.of_nat (length (concat ls)).

Lemma block_logs_counted (prog prog' : Progress) (b : AuthenticatedBlock) (l : list Log) :
  block_logs cfg ReceiptsByNumber prog b = (prog', Ok l) -> pg_Examined prog' = pg_Examined prog /\ counted prog prog' [b] [l].
Proof.
  unfold block_logs, counted. cbn [filter list_filter concat length]. rewrite app_nil_r. destruct (MayContainAddress b (fc_Contract cfg)) eqn:HM; cbn [negb].
  - destruct (ReceiptsByNumber _) as [rs| |]; [|done|done]. destruct (AuthenticatedLogsFrom _ _ _) as [logs| |]; [|done|done].
    intros H. apply pair_equal_spec in H as [<- H]. apply Ok_inj in H as <-. cbn. rewrite decide_False by (intros ?; congruence). cbn. lia.
  - intros H. apply pair_equal_spec in H as [<- H]. apply Ok_inj in H as <-. cbn. rewrite decide_True by done. cbn. lia.
Qed.

Lemma process_spec (blocks : list AuthenticatedBlock) (prog prog' : Progress) (w w' : W) (r : outcome follow_err unit) :
  process cfg ReceiptsByNumber SaveCheckpoint handle blocks prog w = (w', prog', r) ->
  exists done logs rest w1, blocks = done ++ rest /\ delivered done logs w w1 /\
    ((r = Ok tt /\ rest = [] /\ w' = w1 /\ counted prog prog' done logs /\ pg_Examined prog' = pg_Examined prog + Z.of_nat (length done)) \/
     exists b rest', rest = b :: rest' /\ stopped_at b w1 w' r).
Proof.
  revert prog w. induction blocks as [|b blocks IH]; intros prog w H; cbn [process] in H.
  - apply pair_equal_spec in H as [H <-]. apply pair_equal_spec in H as [<- <-]. exists [], [], [], w. split; [done|]. split; [constructor|].
    left. unfold counted. cbn. repeat split; lia.
  - destruct (block_logs cfg ReceiptsByNumber _ b) as [prog1 answer] eqn:HB.
    assert (block_answer b = answer) as HA by (rewrite <- (block_logs_answer ((prog) <| pg_Examined := pg_Examined prog + 1 |>) b); by rewrite HB).
    destruct answer as [l|e|].
    + destruct (handle b l w) as [w1 [e|]] eqn:HH.
      * apply pair_equal_spec in H as [H <-]. apply pair_equal_spec in H as [<- <-]. exists [], [], (b :: blocks), w. split; [done|]. split; [constructor|].
        right. exists b, blocks. split; [done|]. right. exists l. split; [done|]. left. by exists e.
      * destruct (SaveCheckpoint _ w1) as [w2 [e|]] eqn:HS.
        { apply pair_equal_spec in H as [H <-]. apply pair_equal_spec in H as [<- <-]. exists [], [], (b :: blocks), w. split; [done|]. split; [constructor|].
          right. exists b, blocks. split; [done|]. right. exists l. split; [done|]. right. by exists w1, e. }
        destruct (IH _ _ H) as (done & logs & rest & w3 & -> & HD & HR). exists (b :: done), (l :: logs), rest, w3. split; [done|].
        split; [by eapply delivered_cons|]. destruct HR as [(-> & -> & -> & HC & HE)|HR]; [left|by right].
        apply block_logs_counted in HB as [HB1 HB2]. unfold counted in *. rewrite filter_cons in HB2 |- *. rewrite filter_nil in HB2.
        cbn [length concat] in *. rewrite app_nil_r in HB2. rewrite length_app. cbn in HB1.
        destruct (decide (MayContainAddress b (fc_Contract cfg) = false)); cbn [length] in *; cbn in HB2; repeat split; lia.
    + apply pair_equal_spec in H as [H <-]. apply pair_equal_spec in H as [<- <-]. exists [], [], (b :: blocks), w. split; [done|]. split; [constructor|].
      right. exists b, blocks. split; [done|]. left. by rewrite HA.
    + apply pair_equal_spec in H as [H <-]. apply pair_equal_spec in H as [<- <-]. exists [], [], (b :: blocks), w. split; [done|]. split; [constructor|].
      right. exists b, blocks. split; [done|]. left. by rewrite HA.
Qed.
End Deliver.

(** ** Blooms and logs *)

Section Logs.
Context `{K : Keccak} `{!KeccakLaws K}.

Lemma lor_bloom_le (a b : bytes) : length a = length b -> bloom_le a (zip_with Z.lor a b) /\ bloom_le b (zip_with Z.lor a b).
Proof.
  intros EL. assert (forall i, nth i (zip_with Z.lor a b) 0 = Z.lor (nth i a 0) (nth i b 0)) as HN.
  { intros i. rewrite !nth_lookup, lookup_zip_with. destruct (decide (i < length a)%nat).
    - destruct (lookup_lt_is_Some_2 a i ltac:(lia)) as [x ->]. destruct (lookup_lt_is_Some_2 b i ltac:(lia)) as [y ->]. done.
    - rewrite !lookup_ge_None_2 by lia. done. }
  split; intros x Hx; unfold has_bit in *; rewrite HN, Z.lor_spec, Hx; [done|by rewrite orb_true_r].
Qed.
Lemma unionBloom_acc (rs : list Receipt) (acc : bytes) : length acc = 256%nat -> Forall (fun r => length (rc_Bloom r) = 256%nat) rs ->
  bloom_le acc (foldl (fun out r => zip_with Z.lor out (rc_Bloom r)) acc rs) /\
  Forall (fun r => bloom_le (rc_Bloom r) (foldl (fun out r => zip_with Z.lor out (rc_Bloom r)) acc rs)) rs.
Proof.
  revert acc. induction rs as [|r rs IH]; intros acc HL HF; cbn [foldl]; [split; [by intros x|by apply Forall_nil_2]|].
  apply Forall_cons in HF as [Hr HF]. destruct (lor_bloom_le acc (rc_Bloom r) ltac:(congruence)) as [H1 H2].
  destruct (IH (zip_with Z.lor acc (rc_Bloom r)) ltac:(rewrite length_zip_with; lia) HF) as [I1 I2]. split; [intros x Hx; by apply I1, H1|].
  apply Forall_cons_2; [intros x Hx; by apply I1, H2|done].
Qed.

(** The rule of Ethereum's execution layer for the receipts of a block. *)
Record block_receipts (b : AuthenticatedBlock) (rs : list Receipt) : Prop := {
  br_root : AuthenticateReceipts (ab_ReceiptsRoot b) rs = Ok rs;
  br_blooms : Forall (fun r => rc_Bloom r = BloomFromLogs (rc_Logs r)) rs;
  br_union : unionBloom rs = ab_LogsBloom b;
  br_ok : Forall receipt_ok rs
}.

Lemma logs_of_nil (addr : bytes) (rs : list Receipt) : Forall (fun r => Forall (fun l => lg_Address l <> addr) (rc_Logs r)) rs -> logs_of addr rs = [].
Proof.
  intros H. unfold logs_of. induction H as [|r rs Hr _ IH]; [done|]. cbn [map concat]. rewrite IH, app_nil_r.
  induction Hr as [|l ls Hl _ IHl]; [done|]. rewrite filter_cons, decide_False by done. exact IHl.
Qed.
Lemma skipped_no_logs (b : AuthenticatedBlock) (addr : bytes) (rs : list Receipt) :
  block_receipts b rs -> MayContainAddress b addr = false -> logs_of addr rs = [].
Proof.
  intros [_ HB HU HO] HM. apply logs_of_nil.
  destruct (unionBloom_acc rs (zeros 256) (proj1 (zeros_ok 256))) as [_ HF]. { eapply Forall_impl; [exact HO|]. intros r Hr. apply (ro_bloom r Hr). }
  rewrite Forall_forall in HB, HF |- *. intros r Hr. specialize (HB r Hr). specialize (HF r Hr). cbn beta in HB, HF.
  apply Forall_forall. intros l Hl E. unfold MayContainAddress in HM. rewrite <- HU in HM.
  assert (MayContain (unionBloom rs) addr = true) as HT; [|congruence].
  apply (MayContain_mono (rc_Bloom r)); [exact HF|]. rewrite HB. unfold BloomFromLogs.
  destruct (from_logs_spec (rc_Logs r) (zeros 256) (proj1 (zeros_ok 256))) as (_ & _ & HS). destruct (HS l Hl) as [HA _]. by rewrite <- E.
Qed.

Lemma logs_of_agree (addr : bytes) (rs rs' : list Receipt) : Forall2 receipt_agree rs rs' -> logs_of addr rs = logs_of addr rs'.
Proof. intros H. unfold logs_of. f_equal. induction H as [|r r' rs rs' Hr _ IH]; [done|]. cbn [map]. by rewrite IH, (ra_logs _ _ Hr). Qed.
Lemma logs_of_perm (addr : bytes) (rs rs' : list Receipt) : rs ≡ₚ rs' -> logs_of addr rs ≡ₚ logs_of addr rs'.
Proof.
  intros H. unfold logs_of. induction H as [|r rs rs' _ IH|r r' rs|rs rs' rs'' _ IH _ IH']; cbn [map concat]; [done|by rewrite IH| |by etrans].
  rewrite !app_assoc. by rewrite (Permutation_app_comm (filter _ (rc_Logs r'))).
Qed.

Lemma same_logs (root addr : bytes) (rs rs' out out' : list Receipt) :
  AuthenticateReceipts root rs = Ok out -> AuthenticateReceipts root rs' = Ok out' -> Forall receipt_ok rs -> Forall receipt_ok rs' ->
  logs_of addr out ≡ₚ logs_of addr out' \/ collision_in (receipt_nodes rs) (receipt_nodes rs').
Proof.
  intros H H' O O'. destruct (authenticated_same _ _ _ _ _ H H' O O') as [(rs'' & HP & HA)|]; [left|by right].
  apply AuthenticateReceipts_inv in H as [-> _], H' as [-> _]. rewrite (logs_of_agree _ _ _ HA). by apply logs_of_perm.
Qed.

Lemma AuthenticatedLogsFrom_inv (b : AuthenticatedBlock) (addr : bytes) (rs : list Receipt) (l : list Log) : AuthenticatedLogsFrom b addr rs = Ok l ->
  exists out, AuthenticateReceipts (ab_ReceiptsRoot b) rs = Ok out /\ l = logs_of addr out.
Proof.
  unfold AuthenticatedLogsFrom. intros H. apply guard_err_ok in H as [_ H]. apply obind_ok in H as (out & Ho & H). apply of_receipts_ok in Ho.
  apply guard_err_ok in H as [_ H]. apply Ok_inj in H as <-. by exists out.
Qed.

(** A collision between nodes of the receipts two providers sent. *)
Definition receipt_collision (P Q : list Receipt -> Prop) : Prop :=
  exists rs rs', P rs /\ Q rs' /\ collision_in (receipt_nodes rs) (receipt_nodes rs').

Lemma answers_agree (cfg cfg' : FollowerConfig) (RN RN' : Z -> outcome follow_err (list Receipt)) (b : AuthenticatedBlock) (l l' : list Log) :
  fc_Contract cfg = fc_Contract cfg' ->
  (forall n rs, RN n = Ok rs -> Forall receipt_ok rs) -> (forall n rs, RN' n = Ok rs -> Forall receipt_ok rs) ->
  block_answer cfg RN b = Ok l -> block_answer cfg' RN' b = Ok l' ->
  l ≡ₚ l' \/ receipt_collision (fun rs => exists n, RN n = Ok rs) (fun rs => exists n, RN' n = Ok rs).
Proof.
  intros EC HO HO' H H'. unfold block_answer, block_logs in *. rewrite <- EC in H'. destruct (negb _); [left; cbn in H, H'; apply Ok_inj in H as <-; by apply Ok_inj in H' as <-|].
  destruct (RN (ab_Number b)) as [rs| |] eqn:ER; [|done|done]. destruct (RN' (ab_Number b)) as [rs'| |] eqn:ER'; [|done|done].
  destruct (AuthenticatedLogsFrom b (fc_Contract cfg) rs) as [k| |] eqn:EL; [|done|done].
  destruct (AuthenticatedLogsFrom b (fc_Contract cfg) rs') as [k'| |] eqn:EL'; [|done|done].
  cbn in H, H'. apply Ok_inj in H as ->. apply Ok_inj in H' as ->. apply AuthenticatedLogsFrom_inv in EL as (out & EO & ->), EL' as (out' & EO' & ->).
  destruct (same_logs _ (fc_Contract cfg) _ _ _ _ EO EO' (HO _ _ ER) (HO' _ _ ER')) as [?|HC]; [by left|right].
  exists rs, rs'. split; [by eexists|]. split; [by eexists|done].
Qed.
End Logs.

(** ** Theorems *)

Section Theorems.
Context `{K : Keccak} `{!KeccakLaws K}.
Context (cfg : FollowerConfig).
Context (HeadersDescending : Z -> Z -> outcome follow_err (list ExecutionHeader)) (ReceiptsByNumber : Z -> outcome follow_err (list Receipt)).
Context {W : Type}.
Context (LoadCheckpoint : W -> outcome follow_err (option FollowerCheckpoint)).
Context (SaveCheckpoint : FollowerCheckpoint -> W -> W * option follow_err).
Context (FinalizedBlock : outcome follow_err AuthenticatedBlock).
Context (handle : AuthenticatedBlock -> list Log -> W -> W * option follow_err).

Lemma Advance_walks (w w' : W) (cp : FollowerCheckpoint) (head : AuthenticatedBlock) (prog : Progress) (r : outcome follow_err unit) :
  LoadCheckpoint w = Ok (Some cp) -> FinalizedBlock = Ok head -> 0 <= cp_BlockNumber cp -> u_range 64 (ab_Number head) ->
  Advance cfg HeadersDescending ReceiptsByNumber LoadCheckpoint SaveCheckpoint FinalizedBlock handle w = (w', prog, r) ->
  (w' = w /\ r <> Ok tt) \/
  exists blocks, linked (cp_BlockNumber cp) (cp_BlockHash cp) blocks /\ last_hash (cp_BlockHash cp) blocks = ab_Hash head /\
    cp_BlockNumber cp + Z.of_nat (length blocks) = ab_Number head /\
    process cfg ReceiptsByNumber SaveCheckpoint handle blocks (mkProgress (cp_BlockNumber cp) (ab_Number head) 0 0 0 0) w = (w', prog, r).
Proof.
  intros HL HF Hcp [Hh1 Hh2] H. unfold Advance in H. rewrite HL, HF in H.
  destruct (ab_authentic head) eqn:EA; cbn [negb] in H; [|left; apply pair_equal_spec in H as [H <-]; by apply pair_equal_spec in H as [<- _]].
  destruct (Z.eqb_spec (ab_Number head) (cp_BlockNumber cp)) as [EN|EN].
  { destruct (bool_decide_reflect (ab_Hash head = cp_BlockHash cp)) as [EH|EH]; apply pair_equal_spec in H as [H <-]; apply pair_equal_spec in H as [<- <-]; [right|by left].
    exists []. cbn [linked length process]. split; [done|]. split; [by rewrite EH|]. split; [lia|done]. }
  destruct (Z.ltb_spec (ab_Number head) (cp_BlockNumber cp)); [left; apply pair_equal_spec in H as [H <-]; by apply pair_equal_spec in H as [<- _]|].
  destruct (_ && _); [left; apply pair_equal_spec in H as [H <-]; by apply pair_equal_spec in H as [<- _]|].
  destruct (walkBack cfg HeadersDescending head cp) as [chain|e|] eqn:HW; [right|left; apply pair_equal_spec in H as [H <-]; by apply pair_equal_spec in H as [<- _]..].
  apply walkBack_spec in HW; [|lia|lia|done]. destruct HW as [L N (older & -> & _)]. exists (reverse (head :: older)).
  split; [done|]. split; [unfold last_hash; by rewrite last_reverse|]. rewrite length_reverse. split; [done|exact H].
Qed.

(** C10. [Advance] calls the handler for the finalised chain above the checkpoint, every block once
    and in order, the blocks the bloom excludes too, with no logs - the comment at
    chainfollower.go:166 says the handler is called only for the blocks the bloom did not exclude.
    The blocks it may hand over are linked by parent hash from the checkpoint to the finalised head,
    one per height; those it does hand over are a prefix, each handled - an excluded one with no
    logs, another with the logs its authenticated receipts hold - and then recorded before the next;
    it reports success exactly when none is left, and then its counters add up; otherwise it stopped
    at a block whose receipts, handler or record failed, or it refused before the first block and
    changed nothing. *)
Theorem Advance_exactly_once (w w' : W) (cp : FollowerCheckpoint) (head : AuthenticatedBlock) (prog : Progress) (r : outcome follow_err unit)
  (HL : LoadCheckpoint w = Ok (Some cp)) (HF : FinalizedBlock = Ok head) (Hcp : 0 <= cp_BlockNumber cp) (Hhead : u_range 64 (ab_Number head))
  (H : Advance cfg HeadersDescending ReceiptsByNumber LoadCheckpoint SaveCheckpoint FinalizedBlock handle w = (w', prog, r)) :
  (w' = w /\ r <> Ok tt) \/
  exists done logs rest w1, linked (cp_BlockNumber cp) (cp_BlockHash cp) (done ++ rest) /\
    last_hash (cp_BlockHash cp) (done ++ rest) = ab_Hash head /\ cp_BlockNumber cp + Z.of_nat (length (done ++ rest)) = ab_Number head /\
    delivered cfg ReceiptsByNumber SaveCheckpoint handle done logs w w1 /\
    ((r = Ok tt /\ rest = [] /\ w' = w1 /\ pg_From prog = cp_BlockNumber cp /\ pg_To prog = ab_Number head /\
      pg_Examined prog = Z.of_nat (length done) /\ pg_Skipped prog + pg_Fetched prog = Z.of_nat (length done) /\ pg_Logs prog = Z.of_nat (length (concat logs))) \/
     exists b rest', rest = b :: rest' /\ stopped_at cfg ReceiptsByNumber SaveCheckpoint handle b w1 w' r).
Proof.
  destruct (Advance_walks w w' cp head prog r HL HF Hcp Hhead H) as [?|(blocks & B1 & B2 & B3 & HP)]; [by left|right].
  apply process_spec in HP as (done & logs & rest & w1 & -> & HD & HR). exists done, logs, rest, w1.
  split; [exact B1|]. split; [exact B2|]. split; [exact B3|]. split; [exact HD|].
  destruct HR as [(-> & -> & -> & (C1 & C2 & C3 & _ & C5) & C6)|HR]; [left|by right]. cbn in *. repeat split; try done; lia.
Qed.

(** The walk back to the checkpoint ends: more batches than blocks are never asked for. *)
Theorem walkBack_terminates (head : AuthenticatedBlock) (cp : FollowerCheckpoint)
  (HD : forall from count, HeadersDescending from count <> Err FollowOutOfFuel) (Hcp : 0 <= cp_BlockNumber cp) (Hhead : u_range 64 (ab_Number head)) :
  walkBack cfg HeadersDescending head cp <> Err FollowOutOfFuel.
Proof.
  unfold walkBack. pose proof (wrap_u_range 64 (ab_Number head - 1) ltac:(lia)) as [R1 R2].
  pose proof (walk_batches_fuel cfg HeadersDescending (Z.to_nat (wrap_u 64 (ab_Number head - 1) - cp_BlockNumber cp)) cp [head] (ab_ParentHash head)
    (wrap_u 64 (ab_Number head - 1)) HD Hcp R2 ltac:(lia)) as HF.
  destruct (walk_batches _ _ _ _ _ _ _) as [[ch ex]|e|]; cbn [obind]; [|congruence|done]. by destruct (negb _).
Qed.
End Theorems.

Section Providers.
Context `{K : Keccak} `{!KeccakLaws K}.

(** C15. The providers do not choose the history: between one checkpoint and one finalised head
    above it, two providers of headers that both satisfy the walk gave the same blocks, and two
    providers of receipts that both satisfy the reads gave the same logs of the contract block by
    block, up to their order in the block; or two of the headers they sent, or two nodes of the
    receipts they sent, are a collision of keccak256. Of the headers and receipts sent only what
    Go's types say is assumed ([header_ok], [receipt_ok]): every field in the range of its type, any
    64-bit transaction type and negative big integers included, and contents that fit in memory
    (under 2^49 bytes). *)
Theorem history_is_fixed (cfg cfg' : FollowerConfig) (HD HD' : Z -> Z -> outcome follow_err (list ExecutionHeader))
  (RN RN' : Z -> outcome follow_err (list Receipt)) (head : AuthenticatedBlock) (cp : FollowerCheckpoint) (chain chain' : list AuthenticatedBlock) (logs logs' : list (list Log))
  (EC : fc_Contract cfg = fc_Contract cfg') (Hcp : 0 <= cp_BlockNumber cp < ab_Number head) (Hhead : u_range 64 (ab_Number head)) (Ha : ab_authentic head = true)
  (HH : forall h, supplied HD h -> header_ok h) (HH' : forall h, supplied HD' h -> header_ok h)
  (HR : forall n rs, RN n = Ok rs -> Forall receipt_ok rs) (HR' : forall n rs, RN' n = Ok rs -> Forall receipt_ok rs)
  (HW : walkBack cfg HD head cp = Ok chain) (HW' : walkBack cfg' HD' head cp = Ok chain')
  (HL : Forall2 (fun b l => block_answer cfg RN b = Ok l) chain logs) (HL' : Forall2 (fun b l => block_answer cfg' RN' b = Ok l) chain' logs') :
  (chain = chain' /\ Forall2 Permutation logs logs') \/ header_collision (supplied HD) (supplied HD') \/
  receipt_collision (fun rs => exists n, RN n = Ok rs) (fun rs => exists n, RN' n = Ok rs).
Proof.
  destruct Hhead as [_ Hlt]. apply walkBack_spec in HW; [|done|done|done]. apply walkBack_spec in HW'; [|done|done|done].
  destruct (collected_agree _ _ _ _ _ _ _ _ HH HH' HW HW') as [<-|HC]; [|by right; left].
  assert (Forall2 Permutation logs logs' \/ receipt_collision (fun rs => exists n, RN n = Ok rs) (fun rs => exists n, RN' n = Ok rs)) as [?|?]; [|by left|by right; right].
  clear HW HW'. revert logs' HL'. induction HL as [|b l bs ls Hb HL IH]; intros logs' HL'.
  - apply Forall2_nil_inv_l in HL' as ->. left. constructor.
  - apply Forall2_cons_inv_l in HL' as (l' & ls' & Hb' & HL' & ->). destruct (answers_agree cfg cfg' RN RN' b l l' EC HR HR' Hb Hb') as [HP|]; [|by right].
    destruct (IH ls' HL') as [?|]; [left; by constructor|by right].
Qed.

(** No event is missed: whatever logs a block is handed over with are the
    contract's logs in the block's receipts as Ethereum committed them, all of
    them and no other, up to order - when the bloom let the receipts be fetched
    and when it did not - or a node of the receipts sent and one of the real
    ones are a collision of keccak256. *)
Theorem delivered_logs_are_all (cfg : FollowerConfig) (RN : Z -> outcome follow_err (list Receipt)) (b : AuthenticatedBlock) (real : list Receipt) (l : list Log)
  (Hreal : block_receipts b real) (HR : forall n rs, RN n = Ok rs -> Forall receipt_ok rs) (H : block_answer cfg RN b = Ok l) :
  l ≡ₚ logs_of (fc_Contract cfg) real \/ receipt_collision (fun rs => exists n, RN n = Ok rs) (fun rs => rs = real).
Proof.
  unfold block_answer, block_logs in H. destruct (MayContainAddress b (fc_Contract cfg)) eqn:HM; cbn [negb] in H.
  - destruct (RN (ab_Number b)) as [rs| |] eqn:ER; [|done|done]. destruct (AuthenticatedLogsFrom b (fc_Contract cfg) rs) as [k| |] eqn:EL; [|done|done].
    cbn in H. apply Ok_inj in H as ->. apply AuthenticatedLogsFrom_inv in EL as (out & EO & ->).
    destruct (same_logs _ (fc_Contract cfg) _ _ _ _ EO (br_root b real Hreal) (HR _ _ ER) (br_ok b real Hreal)) as [?|HC]; [by left|right].
    exists rs, real. split; [by eexists|]. by split.
  - cbn in H. apply Ok_inj in H as <-. left. by rewrite (skipped_no_logs b _ real Hreal HM).
Qed.

(** The recorded checkpoint survives a crash: wherever [SaveCheckpoint] is cut
    off, and whatever part of the temporary file was written, the file still
    loads as the checkpoint before, and after the rename as the new one. *)
Theorem checkpoint_survives_crash {Codec : CheckpointCodec} `{!CheckpointCodecLaws Codec} (torn : bytes) (cp : FollowerCheckpoint) (d d' : CheckpointDisk)
  (Hn : u_range 64 (cp_BlockNumber cp)) (Hh : array_ok 32 (cp_BlockHash cp)) (Hd : d' ∈ file_SaveCheckpoint torn cp d) :
  file_LoadCheckpoint d' = file_LoadCheckpoint d \/ file_LoadCheckpoint d' = Ok (Some cp).
Proof.
  unfold file_SaveCheckpoint in Hd. rewrite !elem_of_cons in Hd. destruct Hd as [->|[->|[->|[->|Hd]]]]; [by left..| |by apply not_elem_of_nil in Hd].
  right. unfold file_LoadCheckpoint, checkpoint_blob. cbn [cd_file]. rewrite cp_unmarshal_marshal by done. cbn [of_option obind].
  change (trim0x (String.append "0x" (hex_encode (cp_BlockHash cp)))) with (hex_encode (cp_BlockHash cp)).
  destruct Hh as [EL HB]. rewrite hex_decode_encode by done. cbn [of_option obind]. rewrite EL. cbn [Nat.eqb negb guard_err]. by destruct cp.
Qed.
End Providers.

(** ** Witnesses *)

Definition toy_cp : FollowerCheckpoint := mkFollowerCheckpoint 10 (be_encode 32 77).
Definition toy_header_11 : ExecutionHeader := toy_header (be_encode 32 77) 11 mainnetPragueTime toy_receipts_root (unionBloom toy_receipts).
Definition toy_hash_11 : bytes := match EncodeExecutionHeader toy_header_11 ForkPrague with Ok e => Keccak256 e | _ => [] end.
Definition toy_head_12 : AuthenticatedBlock := mkBlock 12 (be_encode 32 99) toy_hash_11 (zeros 32) (zeros 256) (mainnetPragueTime + 12) true.
Definition toy_follower (batch : Z) : FollowerConfig := mkFollowerConfig 1 (be_encode 20 1) 0 batch.
Definition toy_headers (from count : Z) : outcome follow_err (list ExecutionHeader) :=
  if (from =? 11) && (count =? 1) then Ok [toy_header_11] else Err ErrSource.
Definition toy_block_receipts (n : Z) : outcome follow_err (list Receipt) := if n =? 11 then Ok toy_receipts else Err ErrSource.
Definition toy_world : Type := option FollowerCheckpoint * list (AuthenticatedBlock * list Log).
Definition toy_load (w : toy_world) : outcome follow_err (option FollowerCheckpoint) := Ok w.1.
Definition toy_save (cp : FollowerCheckpoint) (w : toy_world) : toy_world * option follow_err := ((Some cp, w.2), None).
Definition toy_handle (b : AuthenticatedBlock) (l : list Log) (w : toy_world) : toy_world * option follow_err := ((w.1, w.2 ++ [(b, l)]), None).
Definition toy_advance : toy_world * Progress * outcome follow_err unit :=
  Advance (toy_follower 0) toy_headers toy_block_receipts toy_load toy_save (Ok toy_head_12) toy_handle (Some toy_cp, []).

Example toy_advance_delivers :
  (toy_advance.1.1.1, map (fun p => (ab_Number p.1, length p.2)) toy_advance.1.1.2, toy_advance.1.2, toy_advance.2) =
  (Some (mkFollowerCheckpoint 12 (be_encode 32 99)), [(11, 1%nat); (12, 0%nat)], mkProgress 10 12 2 1 1 1, Ok tt).
Proof. vm_compute. reflexivity. Qed.

Lemma toy_advance_result :
  Advance (toy_follower 0) toy_headers toy_block_receipts toy_load toy_save (Ok toy_head_12) toy_handle (Some toy_cp, []) = (toy_advance.1.1, toy_advance.1.2, Ok tt).
Proof. vm_compute. reflexivity. Qed.
Lemma Advance_exactly_once_witness :
  exists done, linked 10 (be_encode 32 77) done /\ last_hash (be_encode 32 77) done = be_encode 32 99 /\ 10 + Z.of_nat (length done) = 12.
Proof.
  destruct (Advance_exactly_once (toy_follower 0) toy_headers toy_block_receipts toy_load toy_save (Ok toy_head_12) toy_handle (Some toy_cp, []) toy_advance.1.1 toy_cp
    toy_head_12 toy_advance.1.2 (Ok tt) eq_refl eq_refl ltac:(cbn; lia) ltac:(unfold u_range; cbn; lia) toy_advance_result)
    as [[_ Hn]|(done & logs & rest & w1 & H1 & H2 & H3 & _)]; [by destruct (Hn eq_refl)|].
  exists (done ++ rest). split; [exact H1|]. split; [exact H2|exact H3].
Defined.

Definition toy_chain : list AuthenticatedBlock := match walkBack (toy_follower 0) toy_headers toy_head_12 toy_cp with Ok c => c | _ => [] end.
Lemma toy_chain_walked (batch : Z) : batch = 0 \/ batch = 1 -> walkBack (toy_follower batch) toy_headers toy_head_12 toy_cp = Ok toy_chain.
Proof. intros [->| ->]; vm_compute; reflexivity. Qed.
Definition toy_logs : list (list Log) := map (fun b => match block_answer (toy_follower 0) toy_block_receipts b with Ok l => l | _ => [] end) toy_chain.
Lemma toy_logs_answered : Forall2 (fun b l => block_answer (toy_follower 0) toy_block_receipts b = Ok l) toy_chain toy_logs.
Proof.
  assert (forallb (fun b => is_ok (block_answer (toy_follower 0) toy_block_receipts b)) toy_chain = true) as H by (vm_compute; reflexivity).
  unfold toy_logs. induction toy_chain as [|b bs IH]; [constructor|]. cbn [forallb map] in *. apply andb_true_iff in H as [Hb H].
  constructor; [|by apply IH]. by destruct (block_answer _ _ b).
Qed.
Lemma toy_supplied_ok (h : ExecutionHeader) : supplied toy_headers h -> header_ok h.
Proof.
  intros (n & c & hs & H & Hin). unfold toy_headers in H. destruct (_ && _); [|done]. apply Ok_inj in H as <-. apply list_elem_of_singleton in Hin as ->.
  apply toy_header_ok; [apply be_encode_array|apply array_okb_spec; vm_compute; reflexivity|apply array_okb_spec; vm_compute; reflexivity|lia|unfold u_range, mainnetPragueTime; lia].
Qed.
Lemma toy_receipts_sent_ok (n : Z) (rs : list Receipt) : toy_block_receipts n = Ok rs -> Forall receipt_ok rs.
Proof. unfold toy_block_receipts. destruct (n =? 11); [|done]. intros H. apply Ok_inj in H as <-. apply toy_receipts_ok. Qed.
Lemma history_is_fixed_witness :
  (toy_chain = toy_chain /\ Forall2 Permutation toy_logs toy_logs) \/ header_collision (supplied toy_headers) (supplied toy_headers) \/
  receipt_collision (fun rs => exists n, toy_block_receipts n = Ok rs) (fun rs => exists n, toy_block_receipts n = Ok rs).
Proof.
  exact (history_is_fixed (toy_follower 0) (toy_follower 1) toy_headers toy_headers toy_block_receipts toy_block_receipts toy_head_12 toy_cp toy_chain toy_chain toy_logs toy_logs
    eq_refl ltac:(cbn; lia) ltac:(unfold u_range; cbn; lia) eq_refl toy_supplied_ok toy_supplied_ok toy_receipts_sent_ok toy_receipts_sent_ok
    (toy_chain_walked 0 (or_introl eq_refl)) (toy_chain_walked 1 (or_intror eq_refl)) toy_logs_answered toy_logs_answered).
Defined.

Definition toy_block_11 : AuthenticatedBlock := mkBlock 11 toy_hash_11 (be_encode 32 77) toy_receipts_root (unionBloom toy_receipts) mainnetPragueTime true.
Lemma toy_block_real : block_receipts toy_block_11 toy_receipts.
Proof.
  split; [apply toy_receipts_admitted| |reflexivity|apply toy_receipts_ok].
  unfold toy_receipts. repeat first [apply Forall_cons_2|apply Forall_nil_2]; reflexivity.
Qed.
Definition toy_11_logs : list Log := match block_answer (toy_follower 0) toy_block_receipts toy_block_11 with Ok l => l | _ => [] end.
Lemma delivered_logs_are_all_witness :
  toy_11_logs ≡ₚ logs_of (be_encode 20 1) toy_receipts \/ receipt_collision (fun rs => exists n, toy_block_receipts n = Ok rs) (fun rs => rs = toy_receipts).
Proof.
  apply (delivered_logs_are_all (toy_follower 0) toy_block_receipts toy_block_11 toy_receipts toy_11_logs toy_block_real toy_receipts_sent_ok). vm_compute. reflexivity.
Defined.

(** A height in eight bytes, then the characters of the text. *)
#[export] Instance toy_checkpoint_codec : CheckpointCodec := {|
  cp_marshal n s := be_encode 8 n ++ text_bytes s;
  cp_unmarshal b := Some (be_decode (take 8 b), String.string_of_list_ascii (map (fun c => ascii_of_N (Z.to_N c)) (drop 8 b)))
|}.
#[export] Instance toy_checkpoint_codec_laws : CheckpointCodecLaws toy_checkpoint_codec.
Proof.
  intros n s Hn. unfold cp_unmarshal, cp_marshal, toy_checkpoint_codec. rewrite take_app_length' by (by rewrite length_be_encode). rewrite drop_app_length' by (by rewrite length_be_encode).
  rewrite be_decode_encode_small by exact Hn. f_equal. f_equal. unfold text_bytes. rewrite map_map. rewrite <- (String.string_of_list_ascii_of_string s) at 2. f_equal.
  rewrite <- (map_id (String.list_ascii_of_string s)) at 2. apply map_ext. intros c. rewrite N2Z.id. apply ascii_N_embedding.
Qed.
Lemma checkpoint_survives_crash_witness :
  file_LoadCheckpoint (mkCheckpointDisk None (Some [1; 2])) = Ok None \/ file_LoadCheckpoint (mkCheckpointDisk None (Some [1; 2])) = Ok (Some toy_cp).
Proof.
  apply (checkpoint_survives_crash [1; 2] toy_cp (mkCheckpointDisk None None) (mkCheckpointDisk None (Some [1; 2])));
    [unfold u_range; cbn; lia|apply be_encode_array|right; left].
Defined.
