(* ===== verification/EthLight.v ===== *)
(** * The light client ([internal/ethproof/checkpoint.go], [lightclient.go], [rotation.go], [finality.go],
    [execution.go], [lightclient_verifier.go], [bls.go], [beaconsource.go])

    The sealed checkpoint and the signing domain, the structure of an update,
    the rotation of sync committees, the two trust levels, the bridge from a
    finalised header to an execution state root, the record of such roots, the
    wrapper around the BLS library and the source that starts a chain follower.
    SHA-256 and the BLS library are parameters. *)
From S2P Require Import Prelude.
From S2P Require Import RecordUpdate.
From S2P Require Import GoBytes.
From S2P Require Import Rlp.
From S2P Require Import EthProof.
From S2P Require Import EthEvidence.
From S2P Require Import EthReceipts.
From S2P Require Import EthHeader.
From S2P Require Import EthSsz.
From S2P Require Import EthFollower.
From Stdlib Require Ascii.
From Stdlib Require String.
Import String.StringSyntax.

Inductive light_err : Type :=
| ErrUpdateStale | ErrSlotOrder | ErrInsufficientParticipation | ErrBranchWrongField | ErrCommitteeUnknown | ErrNextCommitteeUnknown
| ErrWrongPeriod | ErrCommitteeConflict | ErrNoVerifier | ErrFinalityRegression | ErrFinalityConflict | ErrNoFinalityProof
| ErrCheckpointIncomplete | ErrAnchorSealed | ErrNotFinalized | ErrPayloadNotAuthenticated | ErrDifferentExecution | ErrNotAuthenticated
| ErrCommitteeSize | ErrNoCommittee | ErrBadSignature | ErrNoParticipants | ErrBadPublicKey | ErrSignatureDoesNotVerify | ErrNoFinalizedExecution
| ErrSsz (e : ssz_err).

Definition of_ssz {A : Type} (m : outcome ssz_err A) : outcome light_err A :=
  match m with Ok a => Ok a | Err e => Err (ErrSsz e) | Panic => Panic end.
(** [fmt.Errorf("%w: %v", kind, err)] *)
Definition wrapped {A : Type} (kind : light_err) (m : outcome ssz_err A) : outcome light_err A :=
  match m with Ok a => Ok a | Err _ => Err kind | Panic => Panic end.

(** ** Forks and periods *)

Definition SyncCommitteeSize : Z := 512.
Definition MinParticipation : Z := go_quot (SyncCommitteeSize * 2) 3.
Definition SlotsPerSyncCommitteePeriod : Z := 32 * 256.
Definition SyncCommitteePeriod (slot : Z) : Z := slot / SlotsPerSyncCommitteePeriod.
Definition SlotsPerEpoch : Z := 32.
Definition EpochAtSlot (slot : Z) : Z := slot / SlotsPerEpoch.
Definition MainnetElectraForkEpoch : Z := 364032.

Record ForkIndices : Type := mkForkIndices { fi_FinalizedRoot : Z; fi_NextSyncCommittee : Z; fi_CurrentSyncCommittee : Z }.
Definition altair_indices : ForkIndices := mkForkIndices 105 55 54.
Definition electra_indices : ForkIndices := mkForkIndices 169 87 86.
Definition IndicesFor (v : SpecVersion) : outcome ssz_err ForkIndices :=
  if bool_decide (v = SpecAltair) then Ok altair_indices
  else if bool_decide (v = SpecElectra) || bool_decide (v = SpecFulu) then Ok electra_indices
  else Err ErrSpecUnsupported.
Definition IndicesAtSlot (slot : Z) : ForkIndices :=
  if MainnetElectraForkEpoch <=? EpochAtSlot slot then electra_indices else altair_indices.

(** Newest first. *)
Definition mainnetForks : list (Z * bytes) :=
  [(411392, [6; 0; 0; 0]); (364032, [5; 0; 0; 0]); (269568, [4; 0; 0; 0]); (194048, [3; 0; 0; 0]); (144896, [2; 0; 0; 0]); (74240, [1; 0; 0; 0]); (0, [0; 0; 0; 0])].
Fixpoint fork_version (epoch : Z) (forks : list (Z * bytes)) : option bytes :=
  match forks with
  | [] => None
  | (since, version) :: forks => if since <=? epoch then Some version else fork_version epoch forks
  end.
Definition ForkVersionAtSlot (slot : Z) : bytes := default [0; 0; 0; 0] (fork_version (EpochAtSlot slot) mainnetForks).

(** ** The checkpoint *)

Record Checkpoint : Type := mkCheckpoint {
  ck_Slot : Z; ck_BlockRoot : bytes; ck_SyncCommitteeRoot : bytes; ck_GenesisValidatorsRoot : bytes; ck_ForkVersion : bytes; ck_Source : string; ck_Note : string
}.
#[export] Instance Checkpoint_eta : Eta Checkpoint := fun x =>
  mkCheckpoint (ck_Slot x) (ck_BlockRoot x) (ck_SyncCommitteeRoot x) (ck_GenesisValidatorsRoot x) (ck_ForkVersion x) (ck_Source x) (ck_Note x).

(** [strings.TrimSpace(s) == ""]: white space of Unicode, in UTF-8. *)
Fixpoint blank (s : bytes) : bool :=
  match s with
  | [] => true
  | c :: rest =>
      if (c =? 32) || ((9 <=? c) && (c <=? 13)) then blank rest
      else match rest with
      | d :: rest =>
          if (c =? 0xC2) && ((d =? 0x85) || (d =? 0xA0)) then blank rest
          else match rest with
          | e :: rest =>
              if ((c =? 0xE1) && (d =? 0x9A) && (e =? 0x80)) ||
                 ((c =? 0xE2) && (d =? 0x80) && (((0x80 <=? e) && (e <=? 0x8A)) || (e =? 0xA8) || (e =? 0xA9) || (e =? 0xAF))) ||
                 ((c =? 0xE2) && (d =? 0x81) && (e =? 0x9F)) || ((c =? 0xE3) && (d =? 0x80) && (e =? 0x80))
              then blank rest else false
          | [] => false
          end
      | [] => false
      end
  end.

Definition Checkpoint_Validate (c : Checkpoint) : outcome light_err unit :=
  fail? bool_decide (ck_BlockRoot c = zeros 32) with ErrCheckpointIncomplete ;;
  fail? bool_decide (ck_SyncCommitteeRoot c = zeros 32) with ErrCheckpointIncomplete ;;
  fail? bool_decide (ck_GenesisValidatorsRoot c = zeros 32) with ErrCheckpointIncomplete ;;
  fail? bool_decide (ck_ForkVersion c = zeros 4) with ErrCheckpointIncomplete ;;
  fail? blank (text_bytes (ck_Source c)) with ErrCheckpointIncomplete ;;
  Ok tt.

(** [SealedAnchor]: the checkpoint once sealed. *)
Definition Seal (a : option Checkpoint) (c : Checkpoint) : outcome light_err (option Checkpoint) :=
  fail? bool_decide (is_Some a) with ErrAnchorSealed ;;
  let? _ := Checkpoint_Validate c in
  Ok (Some c).

(** ** Committees, participation, updates *)

Record SyncCommittee : Type := mkSyncCommittee { sc_Pubkeys : list bytes; sc_AggregatePubkey : bytes }.

Definition bit_set (b : Z) (i : nat) : bool := negb (Z.land b (Z.shiftl 1 (Z.of_nat i)) =? 0).
Definition Count (p : bytes) : Z := zsum (map (fun b => Z.of_nat (length (filter (fun i => bit_set b i = true) (seq 0 8)))) p).
Definition Members (p : bytes) : list nat :=
  filter (fun i => bit_set (nth (i / 8) p 0) (i mod 8) = true) (seq 0 (Nat.min (length p * 8) 512)).

Record Update : Type := mkUpdate {
  up_AttestedHeader : BeaconBlockHeader; up_FinalizedHeader : BeaconBlockHeader; up_FinalityBranch : list bytes;
  up_NextCommittee : option SyncCommittee; up_NextCommitteeBranch : list bytes;
  up_FinalizedExecution : option ExecutionPayloadHeader; up_FinalizedExecutionBranch : list bytes;
  up_Participation : bytes; up_Signature : bytes; up_SignatureSlot : Z
}.
#[export] Instance Update_eta : Eta Update := fun x =>
  mkUpdate (up_AttestedHeader x) (up_FinalizedHeader x) (up_FinalityBranch x) (up_NextCommittee x) (up_NextCommitteeBranch x)
    (up_FinalizedExecution x) (up_FinalizedExecutionBranch x) (up_Participation x) (up_Signature x) (up_SignatureSlot x).

(** The optimistic header is [None] until one is known. *)
Record LightClientState : Type := mkLightClientState {
  ls_FinalizedHeader : BeaconBlockHeader; ls_CurrentCommittee : option SyncCommittee; ls_NextCommittee : option SyncCommittee;
  ls_Checkpoint : Checkpoint; ls_Anchor : option Checkpoint; ls_optimistic : option BeaconBlockHeader; ls_Spec : SpecVersion
}.
#[export] Instance LightClientState_eta : Eta LightClientState := fun x =>
  mkLightClientState (ls_FinalizedHeader x) (ls_CurrentCommittee x) (ls_NextCommittee x) (ls_Checkpoint x) (ls_Anchor x) (ls_optimistic x) (ls_Spec x).

Inductive TrustLevel : Type := HeaderObserved | HeaderVerified | HeaderFinalized.
#[export] Instance TrustLevel_eq_dec : EqDecision TrustLevel.
Proof. solve_decision. Defined.

Definition Period (s : LightClientState) : Z := SyncCommitteePeriod (bb_Slot (ls_FinalizedHeader s)).

(** The committee for a period, from the state and nowhere else. *)
Definition committeeFor (s : LightClientState) (period : Z) : outcome light_err SyncCommittee :=
  if period =? Period s then of_option ErrCommitteeUnknown (ls_CurrentCommittee s)
  else if period =? wrap_u 64 (Period s + 1) then of_option ErrNextCommitteeUnknown (ls_NextCommittee s)
  else Err ErrWrongPeriod.

Section Light.
Context `{Hash : Sha256}.

Definition ComputeDomain (c : Checkpoint) : outcome light_err bytes :=
  let? forkData := of_ssz (ContainerRoot [to_chunk (ck_ForkVersion c); ck_GenesisValidatorsRoot c]) in
  Ok ([7; 0; 0; 0] ++ take 28 forkData).
Definition SigningRoot (headerRoot domain : bytes) : outcome light_err bytes := of_ssz (ContainerRoot [headerRoot; domain]).

Fixpoint key_roots (keys : list bytes) : outcome light_err (list bytes) :=
  match keys with
  | [] => Ok []
  | key :: keys =>
      let? leaf := of_ssz (BytesRoot key) in
      let? leaves := key_roots keys in
      Ok (leaf :: leaves)
  end.
Definition committee_root (c : SyncCommittee) : outcome light_err bytes :=
  fail? negb (Z.of_nat (length (sc_Pubkeys c)) =? SyncCommitteeSize) with ErrCommitteeSize ;;
  let? leaves := key_roots (sc_Pubkeys c) in
  let? keysRoot := of_ssz (Merkleize leaves SyncCommitteeSize) in
  let? aggregateRoot := of_ssz (BytesRoot (sc_AggregatePubkey c)) in
  of_ssz (ContainerRoot [keysRoot; aggregateRoot]).

Definition validateStructureWith (s : LightClientState) (u : Update) (indices : ForkIndices) : outcome light_err unit :=
  fail? bb_Slot (up_FinalizedHeader u) <=? bb_Slot (ls_FinalizedHeader s) with ErrUpdateStale ;;
  fail? bb_Slot (up_AttestedHeader u) <? bb_Slot (up_FinalizedHeader u) with ErrSlotOrder ;;
  fail? up_SignatureSlot u <=? bb_Slot (up_AttestedHeader u) with ErrSlotOrder ;;
  fail? Count (up_Participation u) <? MinParticipation with ErrInsufficientParticipation ;;
  let? finalizedRoot := of_ssz (header_root (up_FinalizedHeader u)) in
  let? _ := wrapped ErrBranchWrongField
    (VerifyBranch finalizedRoot (up_FinalityBranch u) (fi_FinalizedRoot indices) (bb_StateRoot (up_AttestedHeader u))) in
  match up_NextCommittee u with
  | None => Ok tt
  | Some next =>
      let? committeeRoot := committee_root next in
      wrapped ErrBranchWrongField
        (VerifyBranch committeeRoot (up_NextCommitteeBranch u) (fi_NextSyncCommittee indices) (bb_StateRoot (up_AttestedHeader u)))
  end.
(** The same checks against the package's constants, Altair's. *)
Definition ValidateStructure (s : LightClientState) (u : Update) : outcome light_err unit := validateStructureWith s u altair_indices.

(** The domain of the fork in force at the signature slot. *)
Definition SigningRootFor (s : LightClientState) (u : Update) : outcome light_err bytes :=
  let? attestedRoot := of_ssz (header_root (up_AttestedHeader u)) in
  let? domain := ComputeDomain ((ls_Checkpoint s) <| ck_ForkVersion := ForkVersionAtSlot (up_SignatureSlot u) |>) in
  SigningRoot attestedRoot domain.

(** [SyncCommitteeVerifier] *)
Definition Verifier : Type := bytes -> SyncCommittee -> bytes -> bytes -> outcome light_err unit.

Definition ApplyUpdate (s : LightClientState) (u : Update) (v : option Verifier) : outcome light_err LightClientState :=
  let? _ := ValidateStructure s u in
  let? verify := of_option ErrNoVerifier v in
  let? committee := of_option ErrCommitteeUnknown (ls_CurrentCommittee s) in
  let? signingRoot := SigningRootFor s u in
  let? _ := verify signingRoot committee (up_Participation u) (up_Signature u) in
  Ok ((s) <| ls_FinalizedHeader := up_FinalizedHeader u |>
          <| ls_NextCommittee := match up_NextCommittee u with Some next => Some next | None => ls_NextCommittee s end |>).

(** The committee already fixed for the next period. *)
Definition check_conflict (s : LightClientState) (u : Update) (signaturePeriod : Z) : outcome light_err unit :=
  match up_NextCommittee u, ls_NextCommittee s with
  | Some offered, Some known =>
      if signaturePeriod =? Period s then
        let? known := committee_root known in
        let? offered := committee_root offered in
        fail? negb (bool_decide (known = offered)) with ErrCommitteeConflict ;;
        Ok tt
      else Ok tt
  | _, _ => Ok tt
  end.

(** Step 5 of [ApplyRotatingUpdate]: everything passed. *)
Definition rotate (s : LightClientState) (u : Update) : LightClientState :=
  let previousPeriod := Period s in
  let s := (s) <| ls_FinalizedHeader := up_FinalizedHeader u |> in
  let s := match ls_optimistic s with
           | Some known => if bb_Slot known <? bb_Slot (up_AttestedHeader u) then (s) <| ls_optimistic := Some (up_AttestedHeader u) |> else s
           | None => (s) <| ls_optimistic := Some (up_AttestedHeader u) |>
           end in
  let newPeriod := Period s in
  let s := if (previousPeriod <? newPeriod) && (newPeriod =? wrap_u 64 (previousPeriod + 1)) then
             match ls_NextCommittee s with
             | Some next => (s) <| ls_CurrentCommittee := Some next |> <| ls_NextCommittee := None |>
             | None => s
             end
           else s in
  match up_NextCommittee u with Some next => (s) <| ls_NextCommittee := Some next |> | None => s end.

Definition ApplyRotatingUpdate (s : LightClientState) (u : Update) (v : option Verifier) : outcome light_err LightClientState :=
  let? verify := of_option ErrNoVerifier v in
  let? _ := validateStructureWith s u (IndicesAtSlot (bb_Slot (up_AttestedHeader u))) in
  let signaturePeriod := SyncCommitteePeriod (up_SignatureSlot u) in
  let? committee := committeeFor s signaturePeriod in
  let? _ := check_conflict s u signaturePeriod in
  let? signingRoot := SigningRootFor s u in
  let? _ := verify signingRoot committee (up_Participation u) (up_Signature u) in
  Ok (rotate s u).

(** ** Trust levels *)

Definition has_finalized (s : LightClientState) : bool :=
  negb (bb_Slot (ls_FinalizedHeader s) =? 0) || negb (bool_decide (bb_BodyRoot (ls_FinalizedHeader s) = zeros 32)).
Definition TrustLevelOf (s : LightClientState) (h : BeaconBlockHeader) : outcome light_err TrustLevel :=
  let? want := of_ssz (header_root h) in
  let? final := (if has_finalized s then
                   let? final := of_ssz (header_root (ls_FinalizedHeader s)) in Ok (bool_decide (final = want))
                 else Ok false) in
  if (final : bool) then Ok HeaderFinalized
  else match ls_optimistic s with
       | None => Ok HeaderObserved
       | Some known =>
           let? opt := of_ssz (header_root known) in
           Ok (if bool_decide (opt = want) then HeaderVerified else HeaderObserved)
       end.

Definition ApplyOptimisticUpdate (s : LightClientState) (attested : BeaconBlockHeader) (signatureSlot : Z) (participation signature : bytes)
    (v : option Verifier) : outcome light_err LightClientState :=
  let? verify := of_option ErrNoVerifier v in
  fail? signatureSlot <=? bb_Slot attested with ErrSlotOrder ;;
  fail? Count participation <? MinParticipation with ErrInsufficientParticipation ;;
  fail? match ls_optimistic s with Some known => bb_Slot attested <=? bb_Slot known | None => false end with ErrUpdateStale ;;
  let? committee := committeeFor s (SyncCommitteePeriod signatureSlot) in
  let? attestedRoot := of_ssz (header_root attested) in
  let? domain := ComputeDomain (ls_Checkpoint s) in
  let? signingRoot := SigningRoot attestedRoot domain in
  let? _ := verify signingRoot committee participation signature in
  Ok ((s) <| ls_optimistic := Some attested |>).

Definition ApplyFinalityUpdate (s : LightClientState) (u : Update) (v : option Verifier) : outcome light_err LightClientState :=
  let? _ := of_option ErrNoVerifier v in
  fail? (length (up_FinalityBranch u) =? 0)%nat with ErrNoFinalityProof ;;
  fail? bb_Slot (up_FinalizedHeader u) <? bb_Slot (ls_FinalizedHeader s) with ErrFinalityRegression ;;
  if (bb_Slot (up_FinalizedHeader u) =? bb_Slot (ls_FinalizedHeader s)) && negb (bb_Slot (ls_FinalizedHeader s) =? 0) then
    let? known := of_ssz (header_root (ls_FinalizedHeader s)) in
    let? offered := of_ssz (header_root (up_FinalizedHeader u)) in
    fail? negb (bool_decide (known = offered)) with ErrFinalityConflict ;;
    Ok s
  else ApplyRotatingUpdate s u v.

(** ** The execution bridge *)

Definition AuthenticatedStateRoot (s : LightClientState) (payload : ExecutionPayloadHeader) (executionBranch : list bytes)
    : outcome light_err (bytes * Z * bytes) :=
  fail? negb (has_finalized s) with ErrNotFinalized ;;
  let? level := TrustLevelOf s (ls_FinalizedHeader s) in
  fail? negb (bool_decide (level = HeaderFinalized)) with ErrNotFinalized ;;
  let? payloadRoot := of_ssz (payload_root payload (ls_Spec s)) in
  let? _ := wrapped ErrPayloadNotAuthenticated
    (VerifyBranch payloadRoot executionBranch ExecutionPayloadIndex (bb_BodyRoot (ls_FinalizedHeader s))) in
  Ok (ep_StateRoot payload, ep_BlockNumber payload, ep_BlockHash payload).

(** [LightClient.execution]: state root and block hash by height. *)
Definition ExecutionRecord : Type := gmap Z (bytes * bytes).
Definition AdoptExecutionPayload (s : LightClientState) (execution : ExecutionRecord) (payload : ExecutionPayloadHeader) (executionBranch : list bytes)
    : outcome light_err ExecutionRecord :=
  let? (stateRoot, number, hash) := AuthenticatedStateRoot s payload executionBranch in
  match execution !! number with
  | Some (existing, existingHash) =>
      fail? negb (bool_decide (existing = stateRoot)) || negb (bool_decide (existingHash = hash)) with ErrDifferentExecution ;;
      Ok execution
  | None => Ok (<[number := (stateRoot, hash)]> execution)
  end.
(** [number] is [h.BlockNumber()]. *)
Definition VerifyExecutionHeader (execution : ExecutionRecord) (number : Z) (h : BlockHeader) : outcome light_err unit :=
  let? (stateRoot, blockHash) := of_option ErrNotAuthenticated (execution !! number) in
  match decodeHex32 (bh_StateRoot h) with
  | Ok claimed =>
      fail? negb (bool_decide (claimed = stateRoot)) with ErrNotAuthenticated ;;
      if String.eqb (bh_Hash h) "" then Ok tt
      else match decodeHex32 (bh_Hash h) with
           | Ok claimedHash => fail? negb (bool_decide (claimedHash = blockHash)) with ErrNotAuthenticated ;; Ok tt
           | Err _ => Err ErrNotAuthenticated
           | Panic => Panic
           end
  | Err _ => Err ErrNotAuthenticated
  | Panic => Panic
  end.

(** ** The source of a chain follower ([beaconsource.go]) *)

(** [update] is the provider's finality update. *)
Definition BeaconFinalizedBlock (spec : SpecVersion) (update : Update) : outcome light_err AuthenticatedBlock :=
  let? payload := of_option ErrNoFinalizedExecution (up_FinalizedExecution update) in
  let? root := of_ssz (payload_root payload spec) in
  let? _ := wrapped ErrPayloadNotAuthenticated
    (VerifyBranch root (up_FinalizedExecutionBranch update) ExecutionPayloadIndex (bb_BodyRoot (up_FinalizedHeader update))) in
  Ok (BlockFromFinalizedPayload payload).
End Light.

(** ** The BLS boundary ([bls.go]; github.com/supranational/blst) *)

Definition BLSPubkeyBytes : nat := 48.
Definition BLSSignatureBytes : nat := 96.

Class Blst : Type := {
  bls_key_valid : bytes -> bool;                          (* [Uncompress] gives a point and [KeyValidate] accepts it *)
  bls_sig_valid : bytes -> bool;                          (* the same of a signature, [SigValidate(true)] *)
  bls_fast_aggregate_verify : bytes -> list bytes -> bytes -> bool   (* [FastAggregateVerify] of a signature, keys and a message *)
}.

Section Bls.
Context `{Hash : Sha256} {Lib : Blst}.

Definition isInfinitySignature (sig : bytes) : bool :=
  match sig with
  | c :: rest => (length sig =? BLSSignatureBytes)%nat && (c =? 0xC0) && forallb (fun b => b =? 0) rest
  | [] => false
  end.

Fixpoint keys_valid (keys : list bytes) : outcome light_err unit :=
  match keys with
  | [] => Ok tt
  | raw :: keys =>
      fail? negb (length raw =? BLSPubkeyBytes)%nat with ErrBadPublicKey ;;
      fail? negb (bls_key_valid raw) with ErrBadPublicKey ;;
      keys_valid keys
  end.

Definition verifyAggregate (signingRoot : bytes) (pubkeys : list bytes) (signature : bytes) : outcome light_err unit :=
  if (length pubkeys =? 0)%nat then (if isInfinitySignature signature then Ok tt else Err ErrNoParticipants)
  else
    fail? negb (length signature =? BLSSignatureBytes)%nat with ErrBadSignature ;;
    let? _ := keys_valid pubkeys in
    fail? negb (bls_sig_valid signature) with ErrBadSignature ;;
    fail? negb (bls_fast_aggregate_verify signature pubkeys signingRoot) with ErrSignatureDoesNotVerify ;;
    Ok tt.

(** [validated]: the committees whose keys passed, by root. *)
Definition ValidateCommittee (validated : gset bytes) (committee : SyncCommittee) : gset bytes * outcome light_err unit :=
  match committee_root committee with
  | Err e => (validated, Err e)
  | Panic => (validated, Panic)
  | Ok root =>
      if bool_decide (root ∈ validated) then (validated, Ok tt)
      else match keys_valid (sc_Pubkeys committee) with
           | Ok _ => ({[root]} ∪ validated, Ok tt)
           | Err e => (validated, Err e)
           | Panic => (validated, Panic)
           end
  end.

Fixpoint selected (pubkeys : list bytes) (members : list nat) : outcome light_err (list bytes) :=
  match members with
  | [] => Ok []
  | i :: members =>
      let? key := of_option ErrBadPublicKey (pubkeys !! i) in
      let? keys := selected pubkeys members in
      Ok (key :: keys)
  end.

Definition VerifySyncCommitteeSignature (validated : gset bytes) (signingRoot : bytes) (committee : option SyncCommittee) (participation signature : bytes)
    : gset bytes * outcome light_err unit :=
  match committee with
  | None => (validated, Err ErrNoCommittee)
  | Some committee =>
      if negb (length signature =? BLSSignatureBytes)%nat then (validated, Err ErrBadSignature)
      else
        let members := Members participation in
        if (length members =? 0)%nat then (validated, Err ErrNoParticipants)
        else
          let '(validated, r) := ValidateCommittee validated committee in
          (validated,
           let? _ := r in
           let? keys := selected (sc_Pubkeys committee) members in
           verifyAggregate signingRoot keys signature)
  end.
(** As the verifier of an update. *)
Definition BLSVerifier (validated : gset bytes) : Verifier :=
  fun signingRoot committee participation signature => (VerifySyncCommitteeSignature validated signingRoot (Some committee) participation signature).2.
End Bls.

(** ** Participation *)

Definition participation_bits (p : bytes) : list nat :=
  filter (fun i => bit_set (nth (i / 8) p 0) (i mod 8) = true) (seq 0 (length p * 8)).

Lemma Count_cons (b : Z) (p : bytes) : Count (b :: p) = Z.of_nat (length (filter (fun i => bit_set b i = true) (seq 0 8))) + Count p.
Proof. reflexivity. Qed.
Lemma Count_app (p q : bytes) : Count (p ++ q) = Count p + Count q.
Proof. unfold Count. rewrite map_app. apply zsum_app. Qed.

Lemma length_participation_bits (p : bytes) : Z.of_nat (length (participation_bits p)) = Count p.
Proof.
  unfold participation_bits. induction p as [|b p IH]; [done|]. rewrite Count_cons, <- IH. cbn [length]. replace (S (length p) * 8)%nat with (8 + length p * 8)%nat by lia. rewrite seq_app, filter_app, length_app.
  rewrite Nat2Z.inj_add. apply Z.add_cancel_l, (f_equal Z.of_nat). change (0 + 8)%nat with (8 + 0)%nat. rewrite <- (fmap_add_seq 8 0 (length p * 8)).
  change (Nat.add 8 <$> seq 0 (length p * 8)) with (map (Nat.add 8) (seq 0 (length p * 8))).
  rewrite length_filter_map. apply (f_equal length), filter_ext_in. intros i _.
  assert ((8 + i) / 8 = S (i / 8) /\ (8 + i) mod 8 = i mod 8)%nat as [-> ->]; [|done].
  pose proof (Nat.div_mod_eq i 8). pose proof (Nat.mod_upper_bound i 8 ltac:(done)). split; [symmetry; apply (Nat.div_unique _ 8 _ (i mod 8))|symmetry; apply (Nat.mod_unique _ 8 (S (i / 8)))]; lia.
Qed.

(** At most 64 bytes: the members are the bits. *)
Lemma Members_bits (p : bytes) : (length p <= 64)%nat -> Members p = participation_bits p.
Proof. intros H. unfold Members, participation_bits. by rewrite Nat.min_l by lia. Qed.
Lemma Members_bounds (p : bytes) : NoDup (Members p) /\ Forall (fun i => (i < 512)%nat) (Members p).
Proof.
  unfold Members. split; [apply NoDup_filter, NoDup_seq|]. apply Forall_forall. intros i Hi. apply list_elem_of_filter in Hi as [_ Hi].
  apply elem_of_seq in Hi. lia.
Qed.
Lemma Members_pad (p pad : bytes) : length p = 64%nat -> Members (p ++ pad) = Members p.
Proof.
  intros HL. unfold Members. rewrite length_app, HL. rewrite !Nat.min_r by lia. apply filter_ext_in. intros i Hi. apply elem_of_seq in Hi.
  rewrite app_nth1; [done|]. rewrite HL. apply Nat.Div0.div_lt_upper_bound. lia.
Qed.

(** 43 bytes of ones after the bitfield. *)
Definition ones_padding : bytes := replicate 43 0xFF.
Lemma Count_padding : Count ones_padding = 344.
Proof. vm_compute. reflexivity. Qed.
Lemma Count_nonneg (p : bytes) : 0 <= Count p.
Proof. rewrite <- length_participation_bits. lia. Qed.

(** ** What an accepted update passed *)

Section Accepted.
Context `{Hash : Sha256}.

Lemma of_ssz_ok {A : Type} (m : outcome ssz_err A) (a : A) : of_ssz m = Ok a <-> m = Ok a.
Proof. destruct m; cbn; split; intros H; try done; congruence. Qed.
Lemma wrapped_ok {A : Type} (k : light_err) (m : outcome ssz_err A) (a : A) : wrapped k m = Ok a <-> m = Ok a.
Proof. destruct m; cbn; split; intros H; try done; congruence. Qed.

(** The root of a header, and the domain of an era of a chain. *)
Definition root_of (h : BeaconBlockHeader) : bytes := subtree 3 0 (header_chunks h).
Lemma header_root_of (h : BeaconBlockHeader) : header_root h = Ok (root_of h).
Proof. unfold header_root, ContainerRoot. rewrite Merkleize_auto by (apply below_2_62; cbn; lia). reflexivity. Qed.
Definition domain_of (version genesis : bytes) : bytes := [7; 0; 0; 0] ++ take 28 (sha256Pair (to_chunk version) genesis).
Lemma pair_root (l r : bytes) : ContainerRoot [l; r] = Ok (sha256Pair l r).
Proof. reflexivity. Qed.
Lemma ComputeDomain_of (c : Checkpoint) : ComputeDomain c = Ok (domain_of (ck_ForkVersion c) (ck_GenesisValidatorsRoot c)).
Proof. reflexivity. Qed.
Definition signing_root (h : BeaconBlockHeader) (version genesis : bytes) : bytes := sha256Pair (root_of h) (domain_of version genesis).
Lemma SigningRootFor_of (s : LightClientState) (u : Update) :
  SigningRootFor s u = Ok (signing_root (up_AttestedHeader u) (ForkVersionAtSlot (up_SignatureSlot u)) (ck_GenesisValidatorsRoot (ls_Checkpoint s))).
Proof. unfold SigningRootFor. rewrite header_root_of. reflexivity. Qed.

Record structure_ok (s : LightClientState) (u : Update) (indices : ForkIndices) : Prop := {
  so_later : bb_Slot (ls_FinalizedHeader s) < bb_Slot (up_FinalizedHeader u);
  so_attested : bb_Slot (up_FinalizedHeader u) <= bb_Slot (up_AttestedHeader u);
  so_signed : bb_Slot (up_AttestedHeader u) < up_SignatureSlot u;
  so_count : MinParticipation <= Count (up_Participation u);
  so_final : VerifyBranch (root_of (up_FinalizedHeader u)) (up_FinalityBranch u) (fi_FinalizedRoot indices) (bb_StateRoot (up_AttestedHeader u)) = Ok tt;
  so_next : forall next, up_NextCommittee u = Some next ->
    exists r, committee_root next = Ok r /\ VerifyBranch r (up_NextCommitteeBranch u) (fi_NextSyncCommittee indices) (bb_StateRoot (up_AttestedHeader u)) = Ok tt
}.
Lemma validateStructureWith_ok (s : LightClientState) (u : Update) (indices : ForkIndices) :
  validateStructureWith s u indices = Ok tt <-> structure_ok s u indices.
Proof.
  unfold validateStructureWith. rewrite !guard_err_ok, Z.leb_gt, Z.ltb_ge, Z.leb_gt, Z.ltb_ge, header_root_of. cbn [of_ssz obind]. split.
  - intros (H1 & H2 & H3 & H4 & H5). apply obind_ok in H5 as ([] & HV & H5). apply (proj1 (wrapped_ok _ _ _)) in HV. split; try done.
    intros next E. rewrite E in H5. apply obind_ok in H5 as (r & Hr & H5). apply (proj1 (wrapped_ok _ _ _)) in H5. by exists r.
  - intros [H1 H2 H3 H4 H5 H6]. split; [done|]. split; [done|]. split; [done|]. split; [done|]. rewrite H5. cbn [wrapped obind].
    destruct (up_NextCommittee u) as [next|]; [|done]. destruct (H6 next eq_refl) as (r & -> & HV). cbn [obind]. by rewrite HV.
Qed.

Record update_accepted (s : LightClientState) (u : Update) (v : Verifier) (committee : SyncCommittee) : Prop := {
  ua_structure : structure_ok s u (IndicesAtSlot (bb_Slot (up_AttestedHeader u)));
  ua_committee : committeeFor s (SyncCommitteePeriod (up_SignatureSlot u)) = Ok committee;
  ua_conflict : check_conflict s u (SyncCommitteePeriod (up_SignatureSlot u)) = Ok tt;
  ua_signed : v (signing_root (up_AttestedHeader u) (ForkVersionAtSlot (up_SignatureSlot u)) (ck_GenesisValidatorsRoot (ls_Checkpoint s))) committee
                (up_Participation u) (up_Signature u) = Ok tt
}.
Lemma ApplyRotatingUpdate_ok (s s' : LightClientState) (u : Update) (v : Verifier) :
  ApplyRotatingUpdate s u (Some v) = Ok s' <-> s' = rotate s u /\ exists committee, update_accepted s u v committee.
Proof.
  unfold ApplyRotatingUpdate. cbn [of_option obind]. rewrite SigningRootFor_of. split.
  - intros H. apply obind_ok in H as ([] & HV & H). apply validateStructureWith_ok in HV. apply obind_ok in H as (c & Hc & H).
    apply obind_ok in H as ([] & Hk & H). cbn [obind] in H. apply obind_ok in H as ([] & Hs & H). apply Ok_inj in H as <-. split; [done|]. by exists c.
  - intros (-> & c & [HV Hc Hk Hs]). apply validateStructureWith_ok in HV. rewrite HV. cbn [obind]. rewrite Hc. cbn [obind]. rewrite Hk. cbn [obind]. by rewrite Hs.
Qed.

(** The finalised header, the committees and the checkpoint after step 5. *)
Lemma rotate_final (s : LightClientState) (u : Update) : ls_FinalizedHeader (rotate s u) = up_FinalizedHeader u /\ ls_Checkpoint (rotate s u) = ls_Checkpoint s
  /\ ls_Spec (rotate s u) = ls_Spec s.
Proof.
  unfold rotate.
  match goal with |- context [match ls_optimistic ?x with Some _ => _ | None => _ end] => set (s1 := x) end.
  set (s2 := match ls_optimistic s1 with Some _ => _ | None => _ end).
  assert (ls_FinalizedHeader s2 = up_FinalizedHeader u /\ ls_Checkpoint s2 = ls_Checkpoint s /\ ls_Spec s2 = ls_Spec s) as (E1 & E2 & E3).
  { unfold s2. destruct (ls_optimistic s1) as [k|]; [destruct (_ <? _)|]; done. }
  clearbody s2. rewrite <- E1, <- E2, <- E3. clear s1 E1 E2 E3.
  destruct (_ && _); [destruct (ls_NextCommittee s2)|]; destruct (up_NextCommittee u); done.
Qed.
Lemma rotate_committees (s : LightClientState) (u : Update) :
  let crossed := (Period s <? SyncCommitteePeriod (bb_Slot (up_FinalizedHeader u))) &&
                 (SyncCommitteePeriod (bb_Slot (up_FinalizedHeader u)) =? wrap_u 64 (Period s + 1)) in
  ls_CurrentCommittee (rotate s u) = (if crossed then match ls_NextCommittee s with Some c => Some c | None => ls_CurrentCommittee s end else ls_CurrentCommittee s) /\
  ls_NextCommittee (rotate s u) = match up_NextCommittee u with Some c => Some c | None => if crossed then None else ls_NextCommittee s end.
Proof.
  cbv zeta. unfold rotate.
  match goal with |- context [match ls_optimistic ?x with Some _ => _ | None => _ end] => set (s1 := x) end.
  set (s2 := match ls_optimistic s1 with Some _ => _ | None => _ end).
  assert (Period s2 = SyncCommitteePeriod (bb_Slot (up_FinalizedHeader u)) /\ ls_CurrentCommittee s2 = ls_CurrentCommittee s /\ ls_NextCommittee s2 = ls_NextCommittee s) as (E1 & E2 & E3).
  { unfold s2. destruct (ls_optimistic s1) as [k|]; [destruct (_ <? _)|]; done. }
  clearbody s2. rewrite E1, <- E2, <- E3. clear E1 E2 E3.
  destruct (_ && _); [destruct (ls_NextCommittee s2) as [c|] eqn:EN|]; destruct (up_NextCommittee u); split; cbn; by rewrite ?EN.
Qed.
End Accepted.

(** ** Following the beacon chain *)

(** What Ethereum's consensus says, as far as the client relies on it: the
    canonical headers, what the state and the body behind one commit to, and the
    committee of each period. *)
Record BeaconChain : Type := mkBeaconChain {
  bc_canonical : BeaconBlockHeader -> Prop;
  bc_genesis : bytes;
  bc_committee : Z -> bytes;                                (* the root of a period's sync committee *)
  bc_final : BeaconBlockHeader -> BeaconBlockHeader;        (* the finalised header in the state *)
  bc_final_branch : BeaconBlockHeader -> list bytes;
  bc_next_branch : BeaconBlockHeader -> list bytes;
  bc_payload : BeaconBlockHeader -> ExecutionPayloadHeader; (* the execution payload in the body *)
  bc_payload_branch : BeaconBlockHeader -> list bytes
}.

Section Follow.
Context `{Hash : Sha256} `{!Sha256Laws Hash}.

Record chain_rules (B : BeaconChain) (spec : SpecVersion) : Prop := {
  cr_typed : forall h, bc_canonical B h -> beacon_header_ok h;
  cr_genesis : array_ok 32 (bc_genesis B);
  cr_committee : forall p, array_ok 32 (bc_committee B p);
  cr_final : forall h, bc_canonical B h -> bb_Slot h <> 0 -> bc_canonical B (bc_final B h) /\ Forall (array_ok 32) (bc_final_branch B h) /\
    VerifyBranch (root_of (bc_final B h)) (bc_final_branch B h) (fi_FinalizedRoot (IndicesAtSlot (bb_Slot h))) (bb_StateRoot h) = Ok tt;
  cr_next : forall h, bc_canonical B h -> bb_Slot h <> 0 -> Forall (array_ok 32) (bc_next_branch B h) /\
    VerifyBranch (bc_committee B (SyncCommitteePeriod (bb_Slot h) + 1)) (bc_next_branch B h) (fi_NextSyncCommittee (IndicesAtSlot (bb_Slot h))) (bb_StateRoot h) = Ok tt;
  cr_payload : forall h, bc_canonical B h -> bb_Slot h <> 0 -> payload_ok (bc_payload B h) /\ Forall (array_ok 32) (bc_payload_branch B h) /\
    exists r, payload_root (bc_payload B h) spec = Ok r /\ VerifyBranch r (bc_payload_branch B h) ExecutionPayloadIndex (bb_BodyRoot h) = Ok tt
}.

(** A supermajority of a period's committee signs canonical headers only, under
    the chain's domain; [p] is a bitfield of at most 512 bits, so that each bit of it is a member. *)
Definition honest_majority (B : BeaconChain) (v : Verifier) : Prop :=
  forall root c p sig period, committee_root c = Ok (bc_committee B period) -> (length p <= 64)%nat -> MinParticipation <= Count p ->
    v root c p sig = Ok tt -> exists h slot, bc_canonical B h /\ root = signing_root h (ForkVersionAtSlot slot) (bc_genesis B).

(** The nodes of the canonical chain's trees. *)
Definition canonical_node (B : BeaconChain) (x : bytes) : Prop :=
  exists h, bc_canonical B h /\
    (x ∈ container_nodes (header_chunks h) \/ (exists slot, x = root_of h ++ domain_of (ForkVersionAtSlot slot) (bc_genesis B)) \/
     x ∈ climb_nodes (root_of (bc_final B h)) (bc_final_branch B h) 0 (fi_FinalizedRoot (IndicesAtSlot (bb_Slot h))) \/
     x ∈ climb_nodes (bc_committee B (SyncCommitteePeriod (bb_Slot h) + 1)) (bc_next_branch B h) 0 (fi_NextSyncCommittee (IndicesAtSlot (bb_Slot h)))).
(** The nodes of an update's. *)
Definition committee_value (c : option SyncCommittee) : bytes := match c with Some c => match committee_root c with Ok r => r | _ => [] end | None => [] end.
Definition update_node (genesis : bytes) (u : Update) (x : bytes) : Prop :=
  x ∈ container_nodes (header_chunks (up_AttestedHeader u)) \/ x ∈ container_nodes (header_chunks (up_FinalizedHeader u)) \/
  x = root_of (up_AttestedHeader u) ++ domain_of (ForkVersionAtSlot (up_SignatureSlot u)) genesis \/
  x ∈ climb_nodes (root_of (up_FinalizedHeader u)) (up_FinalityBranch u) 0 (fi_FinalizedRoot (IndicesAtSlot (bb_Slot (up_AttestedHeader u)))) \/
  x ∈ climb_nodes (committee_value (up_NextCommittee u)) (up_NextCommitteeBranch u) 0 (fi_NextSyncCommittee (IndicesAtSlot (bb_Slot (up_AttestedHeader u)))).
(** A node of an update and one of the canonical chain, different, with one digest. *)
Definition light_collision (B : BeaconChain) (u : Update) : Prop := exists a b, update_node (bc_genesis B) u a /\ canonical_node B b /\ sha_collide a b.

Lemma light_collision_of (B : BeaconChain) (u : Update) (xs ys : list bytes) :
  (forall x, x ∈ xs -> update_node (bc_genesis B) u x) -> (forall y, y ∈ ys -> canonical_node B y) -> sha_collision_in xs ys -> light_collision B u.
Proof. intros HX HY (a & b & Ha & Hb & H). exists a, b. auto. Qed.

(** An update as Go holds it: the widths of its fields. *)
Record update_typed (u : Update) : Prop := {
  ut_attested : beacon_header_ok (up_AttestedHeader u);
  ut_finalized : beacon_header_ok (up_FinalizedHeader u);
  ut_branch : Forall (array_ok 32) (up_FinalityBranch u);
  ut_next_branch : Forall (array_ok 32) (up_NextCommitteeBranch u);
  ut_slot : u_range 64 (up_SignatureSlot u)
}.
(** What an update may be without being refused: its bitfield is longer than the committee
    ([padded_bitfield_passes_threshold]), or it brings the next committee of another period than
    the one it finalises ([early_next_committee_lost]). *)
Definition padded_bitfield (u : Update) : Prop := (64 < length (up_Participation u))%nat.
Definition early_committee (u : Update) : Prop :=
  is_Some (up_NextCommittee u) /\ SyncCommitteePeriod (bb_Slot (up_AttestedHeader u)) <> SyncCommitteePeriod (bb_Slot (up_FinalizedHeader u)).

(** The state holds the chain's own header and the chain's own committees. *)
Record follows (B : BeaconChain) (s : LightClientState) : Prop := {
  fo_final : bc_canonical B (ls_FinalizedHeader s);
  fo_genesis : ck_GenesisValidatorsRoot (ls_Checkpoint s) = bc_genesis B;
  fo_current : forall c, ls_CurrentCommittee s = Some c -> committee_root c = Ok (bc_committee B (Period s));
  fo_next : forall c, ls_NextCommittee s = Some c -> committee_root c = Ok (bc_committee B (Period s + 1))
}.

Lemma root_of_array (h : BeaconBlockHeader) : array_ok 32 (root_of h).
Proof. apply sha256_array. Qed.
Lemma domain_length (version genesis : bytes) : length (domain_of version genesis) = 32%nat.
Proof. unfold domain_of. rewrite length_app, length_take. unfold sha256Pair. rewrite length_sha256. done. Qed.
Lemma Merkleize_array (chunks : list bytes) (d : nat) (r : bytes) : (d <= 62)%nat -> (0 < d)%nat -> (length chunks <= 2 ^ d)%nat ->
  Merkleize chunks (2 ^ Z.of_nat d) = Ok r -> array_ok 32 r.
Proof. intros H1 H2 H3 H. rewrite Merkleize_subtree in H by done. apply Ok_inj in H as <-. destruct d; [lia|]. apply sha256_array. Qed.
Lemma committee_root_array (c : SyncCommittee) (r : bytes) : committee_root c = Ok r -> array_ok 32 r.
Proof.
  unfold committee_root. intros H. apply guard_err_ok in H as [_ H]. apply obind_ok in H as (l & _ & H). apply obind_ok in H as (k & _ & H). apply obind_ok in H as (a & _ & H).
  apply (proj1 (of_ssz_ok _ _)) in H. rewrite pair_root in H. apply Ok_inj in H as <-. apply sha256_array.
Qed.

Lemma same_root_same_header (B : BeaconChain) (u : Update) (h h' : BeaconBlockHeader) : beacon_header_ok h -> bc_canonical B h' -> beacon_header_ok h' ->
  (forall x, x ∈ container_nodes (header_chunks h) -> update_node (bc_genesis B) u x) -> root_of h = root_of h' -> h = h' \/ light_collision B u.
Proof.
  intros O HC O' HN E. destruct (header_roots_agree h h' O O' ltac:(rewrite !header_root_of; congruence)) as [?|HS]; [by left|right].
  eapply light_collision_of; [exact HN| |exact HS]. intros y Hy. exists h'. split; [done|]. by left.
Qed.

(** The attested header of an update a committee of the chain signed is canonical. *)
Lemma signed_is_canonical (B : BeaconChain) (spec : SpecVersion) (u : Update) (v : Verifier) (c : SyncCommittee) (period : Z) :
  chain_rules B spec -> honest_majority B v -> update_typed u -> ~ padded_bitfield u -> committee_root c = Ok (bc_committee B period) -> MinParticipation <= Count (up_Participation u) ->
  v (signing_root (up_AttestedHeader u) (ForkVersionAtSlot (up_SignatureSlot u)) (bc_genesis B)) c (up_Participation u) (up_Signature u) = Ok tt ->
  bc_canonical B (up_AttestedHeader u) \/ light_collision B u.
Proof.
  intros R HM T HB%Nat.nlt_ge Hc Hn HV. destruct (HM _ _ _ _ _ Hc HB Hn HV) as (h & slot & HC & E). unfold signing_root in E.
  apply pair_binds in E as [[E _]|HX]; [|right|apply root_of_array|apply root_of_array].
  - destruct (same_root_same_header B u _ h (ut_attested u T) HC (cr_typed B spec R h HC) ltac:(by left) E) as [->|?]; [by left|by right].
  - eexists _, _. split; [by right; right; left|]. split; [|exact HX]. exists h. split; [done|]. right; left. by exists slot.
Qed.

(** One accepted update keeps the client on the chain and moves it forward. *)
Lemma rotating_update_follows (B : BeaconChain) (spec : SpecVersion) (s s' : LightClientState) (u : Update) (v : Verifier) :
  chain_rules B spec -> honest_majority B v -> follows B s -> update_typed u -> ~ padded_bitfield u -> ~ early_committee u ->
  ApplyRotatingUpdate s u (Some v) = Ok s' ->
  (follows B s' /\ bb_Slot (ls_FinalizedHeader s) < bb_Slot (ls_FinalizedHeader s')) \/ light_collision B u.
Proof.
  intros R HM F T HB HE H. apply ApplyRotatingUpdate_ok in H as (-> & c & [HS HC HK HV]). destruct HS as [S1 S2 S3 S4 S5 S6].
  destruct (rotate_final s u) as (RF & RC & _). destruct (rotate_committees s u) as [R1 R2].
  pose proof (cr_typed B spec R _ (fo_final B s F)) as HFs. destruct (bho_slot _ HFs) as [Hs0 Hs1]. destruct (ut_slot u T) as [_ Hu1].
  assert (0 <= Period s < 2 ^ 63) as HP.
  { unfold Period, SyncCommitteePeriod. split; [by apply Z.div_pos|]. apply Z.div_lt_upper_bound; [done|]. unfold SlotsPerSyncCommitteePeriod. lia. }
  set (P := Period s) in *. set (P' := SyncCommitteePeriod (bb_Slot (up_FinalizedHeader u))) in *. set (Q := SyncCommitteePeriod (up_SignatureSlot u)) in *.
  assert (P <= P') as HPP by (apply Z.div_le_mono; [done|lia]).
  assert (P' <= Q) as HPQ by (apply Z.div_le_mono; [done|lia]).
  assert (wrap_u 64 (P + 1) = P + 1) as EW by (apply wrap_u_small; unfold u_range; lia).
  assert (committee_root c = Ok (bc_committee B Q) /\ (Q = P \/ Q = P + 1 /\ ls_NextCommittee s = Some c)) as [HCc HQ].
  { unfold committeeFor in HC. fold P in HC. rewrite EW in HC. destruct (Z.eqb_spec Q P) as [EQ|EQ].
    - destruct (ls_CurrentCommittee s) as [x|] eqn:EX; [|done]. apply Ok_inj in HC as ->. rewrite EQ. split; [by apply (fo_current B s F)|by left].
    - destruct (Z.eqb_spec Q (P + 1)) as [EQ'|]; [|done]. destruct (ls_NextCommittee s) as [x|] eqn:EX; [|done]. apply Ok_inj in HC as ->. rewrite EQ'.
      split; [by apply (fo_next B s F)|by right]. }
  rewrite (fo_genesis B s F) in HV.
  destruct (signed_is_canonical B spec u v c Q R HM T HB HCc S4 HV) as [HA|]; [|by right].
  destruct (cr_final B spec R _ HA ltac:(lia)) as (HF1 & HF2 & HF3).
  destruct (branch_leaves_agree _ _ _ _ _ _ S5 HF3 (root_of_array _) (root_of_array _) (ut_branch u T) HF2) as [EF|HX];
    [|right; eapply light_collision_of; [| |exact HX]; [intros x Hx; by do 3 right; left|intros y Hy; exists (up_AttestedHeader u); split; [done|]; by do 2 right; left]].
  destruct (same_root_same_header B u _ _ (ut_finalized u T) HF1 (cr_typed B spec R _ HF1) ltac:(by right; left) EF) as [EFh|]; [|by right].
  assert ((forall next, up_NextCommittee u = Some next -> committee_root next = Ok (bc_committee B (P' + 1))) \/ light_collision B u) as [HN|]; [|clear - EFh HF1 RF RC R1 R2 F HN HP HPP HPQ HQ EW S1|by right].
  { destruct (up_NextCommittee u) as [next|] eqn:EN; [|by left]. destruct (S6 next eq_refl) as (r & Hr & HVr). destruct (cr_next B spec R _ HA ltac:(lia)) as [HN1 HN2].
    destruct (branch_leaves_agree _ _ _ _ _ _ HVr HN2 (committee_root_array _ _ Hr) (cr_committee B spec R _) (ut_next_branch u T) HN1) as [->|HX].
    - left. intros x [= <-]. rewrite Hr. do 3 f_equal.
      destruct (decide (SyncCommitteePeriod (bb_Slot (up_AttestedHeader u)) = SyncCommitteePeriod (bb_Slot (up_FinalizedHeader u)))) as [E|E]; [exact E|].
      destruct HE. split; [by rewrite EN|exact E].
    - right. eapply light_collision_of; [| |exact HX].
      + intros x Hx. do 4 right. unfold committee_value. by rewrite EN, Hr.
      + intros y Hy. exists (up_AttestedHeader u). split; [done|]. by do 3 right. }
  left. split; [|by rewrite RF]. assert (Period (rotate s u) = P') as EP by (unfold Period; by rewrite RF).
  fold P P' in R1, R2. rewrite EW in R1, R2. split.
  - rewrite RF, EFh. exact HF1.
  - rewrite RC. apply F.
  - intros x Hx. rewrite EP. rewrite R1 in Hx. destruct (Z.ltb_spec P P'); destruct (Z.eqb_spec P' (P + 1)); cbn [andb] in Hx; try lia.
    + destruct (ls_NextCommittee s) as [y|] eqn:EY; [injection Hx as <-; rewrite e; by apply (fo_next B s F)|].
      exfalso. destruct HQ as [?|[_ ?]]; [lia|done].
    + replace P' with P by lia. by apply (fo_current B s F).
  - intros x Hx. rewrite EP. rewrite R2 in Hx. destruct (up_NextCommittee u) as [next|]; [injection Hx as <-; by apply HN|].
    destruct (Z.ltb_spec P P'); destruct (Z.eqb_spec P' (P + 1)); cbn [andb] in Hx; try lia; [done|].
    replace P' with P by lia. by apply (fo_next B s F).
Qed.
End Follow.

(** ** A client at work *)

Inductive light_op : Type :=
| OpRotating (u : Update) | OpFinality (u : Update)
| OpOptimistic (attested : BeaconBlockHeader) (signatureSlot : Z) (participation signature : bytes)
| OpAdopt (payload : ExecutionPayloadHeader) (branch : list bytes).

Section Client.
Context `{Hash : Sha256} `{!Sha256Laws Hash}.

Definition client : Type := LightClientState * ExecutionRecord.
(** One call; a refused one changes nothing. *)
Definition light_step (v : Verifier) (c : client) (op : light_op) : client :=
  let keep (m : outcome light_err LightClientState) := match m with Ok s => (s, c.2) | _ => c end in
  match op with
  | OpRotating u => keep (ApplyRotatingUpdate c.1 u (Some v))
  | OpFinality u => keep (ApplyFinalityUpdate c.1 u (Some v))
  | OpOptimistic h slot p sig => keep (ApplyOptimisticUpdate c.1 h slot p sig (Some v))
  | OpAdopt payload branch => match AdoptExecutionPayload c.1 c.2 payload branch with Ok e => (c.1, e) | _ => c end
  end.
Definition light_run (v : Verifier) (c : client) (ops : list light_op) : client := foldl (light_step v) c ops.

Definition op_typed (op : light_op) : Prop :=
  match op with
  | OpRotating u | OpFinality u => update_typed u
  | OpOptimistic _ _ _ _ => True
  | OpAdopt payload branch => payload_ok payload /\ Forall (array_ok 32) branch
  end.

(** A node of a payload's proof and one of the canonical payloads', colliding. *)
Definition payload_collision (B : BeaconChain) (spec : SpecVersion) (p : ExecutionPayloadHeader) (branch : list bytes) : Prop :=
  exists h r r', bc_canonical B h /\ payload_root p spec = Ok r /\ payload_root (bc_payload B h) spec = Ok r' /\
    (sha_collision_in (payload_nodes p) (payload_nodes (bc_payload B h)) \/
     sha_collision_in (climb_nodes r branch 0 ExecutionPayloadIndex) (climb_nodes r' (bc_payload_branch B h) 0 ExecutionPayloadIndex)).
Definition op_collision (B : BeaconChain) (spec : SpecVersion) (op : light_op) : Prop :=
  match op with
  | OpRotating u | OpFinality u => light_collision B u
  | OpOptimistic _ _ _ _ => False
  | OpAdopt payload branch => payload_collision B spec payload branch
  end.

Definition op_unchecked (op : light_op) : Prop :=
  match op with OpRotating u | OpFinality u => padded_bitfield u \/ early_committee u | _ => False end.
(** The call is not refused. *)
Definition accepted (v : Verifier) (c : client) (op : light_op) : Prop :=
  match op with
  | OpRotating u => exists s, ApplyRotatingUpdate c.1 u (Some v) = Ok s
  | OpFinality u => exists s, ApplyFinalityUpdate c.1 u (Some v) = Ok s
  | OpOptimistic h slot p sig => exists s, ApplyOptimisticUpdate c.1 h slot p sig (Some v) = Ok s
  | OpAdopt payload branch => exists e, AdoptExecutionPayload c.1 c.2 payload branch = Ok e
  end.

(** Every recorded root is that of the payload of a canonical block. *)
Definition record_real (B : BeaconChain) (e : ExecutionRecord) : Prop :=
  forall n root hash, e !! n = Some (root, hash) ->
    exists h, bc_canonical B h /\ n = ep_BlockNumber (bc_payload B h) /\ root = ep_StateRoot (bc_payload B h) /\ hash = ep_BlockHash (bc_payload B h).
Record client_ok (B : BeaconChain) (spec : SpecVersion) (c : client) : Prop := {
  co_follows : follows B c.1;
  co_started : bb_Slot (ls_FinalizedHeader c.1) <> 0;
  co_spec : ls_Spec c.1 = spec;
  co_record : record_real B c.2
}.

Lemma payload_root_array (p : ExecutionPayloadHeader) (spec : SpecVersion) (r : bytes) : payload_ok p -> payload_root p spec = Ok r -> array_ok 32 r.
Proof.
  intros O H. apply payload_root_ok in H as (_ & _ & H); [|apply O]. unfold ContainerRoot in H.
  rewrite Merkleize_auto in H by (rewrite length_payload_fields; apply below_2_62; lia). rewrite length_payload_fields in H. apply Ok_inj in H as <-. apply sha256_array.
Qed.

(** The payload proven into a canonical header is its own. *)
Lemma proven_payload (B : BeaconChain) (spec : SpecVersion) (h : BeaconBlockHeader) (p : ExecutionPayloadHeader) (branch : list bytes) (r : bytes) :
  chain_rules B spec -> bc_canonical B h -> bb_Slot h <> 0 -> payload_ok p -> Forall (array_ok 32) branch ->
  payload_root p spec = Ok r -> VerifyBranch r branch ExecutionPayloadIndex (bb_BodyRoot h) = Ok tt -> p = bc_payload B h \/ payload_collision B spec p branch.
Proof.
  intros R HC Hs O HB Hr HV. destruct (cr_payload B spec R h HC Hs) as (O' & HB' & r' & Hr' & HV').
  destruct (branch_leaves_agree _ _ _ _ _ _ HV HV' (payload_root_array _ _ _ O Hr) (payload_root_array _ _ _ O' Hr') HB HB') as [<-|HX].
  - destruct (payload_roots_agree p (bc_payload B h) spec spec r O O' Hr Hr') as [?|HX]; [by left|right]. exists h, r, r. naive_solver.
  - right. exists h, r, r'. naive_solver.
Qed.

Lemma AuthenticatedStateRoot_ok (s : LightClientState) (p : ExecutionPayloadHeader) (branch : list bytes) (out : bytes * Z * bytes) :
  AuthenticatedStateRoot s p branch = Ok out ->
  out = (ep_StateRoot p, ep_BlockNumber p, ep_BlockHash p) /\
  exists r, payload_root p (ls_Spec s) = Ok r /\ VerifyBranch r branch ExecutionPayloadIndex (bb_BodyRoot (ls_FinalizedHeader s)) = Ok tt.
Proof.
  unfold AuthenticatedStateRoot. intros H. apply guard_err_ok in H as [_ H]. apply obind_ok in H as (l & _ & H). apply guard_err_ok in H as [_ H].
  apply obind_ok in H as (r & Hr & H). apply (proj1 (of_ssz_ok _ _)) in Hr. apply obind_ok in H as ([] & HV & H). apply (proj1 (wrapped_ok _ _ _)) in HV.
  apply Ok_inj in H as <-. split; [done|]. by exists r.
Qed.

Lemma light_step_ok (B : BeaconChain) (spec : SpecVersion) (v : Verifier) (c : client) (op : light_op) :
  chain_rules B spec -> honest_majority B v -> client_ok B spec c -> op_typed op ->
  (client_ok B spec (light_step v c op) /\ bb_Slot (ls_FinalizedHeader c.1) <= bb_Slot (ls_FinalizedHeader (light_step v c op).1) /\ c.2 ⊆ (light_step v c op).2) \/
  (accepted v c op /\ (op_collision B spec op \/ op_unchecked op)).
Proof.
  intros R HM OK T.
  assert (client_ok B spec c /\ bb_Slot (ls_FinalizedHeader c.1) <= bb_Slot (ls_FinalizedHeader c.1) /\ c.2 ⊆ c.2) as HSame by (split; [done|]; split; [lia|done]).
  assert (forall u s', update_typed u -> ApplyRotatingUpdate c.1 u (Some v) = Ok s' ->
    (client_ok B spec (s', c.2) /\ bb_Slot (ls_FinalizedHeader c.1) <= bb_Slot (ls_FinalizedHeader s') /\ c.2 ⊆ c.2) \/
    light_collision B u \/ padded_bitfield u \/ early_committee u) as HRot.
  { intros u s' Tu H. destruct OK as [F St Sp Re].
    destruct (decide (64 < length (up_Participation u))%nat) as [HB|HB]; [right; right; by left|].
    destruct (decide (is_Some (up_NextCommittee u) /\ SyncCommitteePeriod (bb_Slot (up_AttestedHeader u)) <> SyncCommitteePeriod (bb_Slot (up_FinalizedHeader u)))) as [HE|HE];
      [by do 3 right|].
    destruct (rotating_update_follows B spec _ _ u v R HM F Tu HB HE H) as [[HF HL]|]; [left|by right; left]. split; [|split; [lia|done]].
    apply ApplyRotatingUpdate_ok in H as (-> & _). destruct (rotate_final c.1 u) as (RF & _ & RS). split; cbn [fst snd]; [done| |congruence|done].
    pose proof (bho_slot _ (cr_typed B spec R _ (fo_final B _ F))) as [? _]. lia. }
  destruct op as [u|u|h slot p sig|p branch]; cbn [light_step op_collision op_typed op_unchecked accepted] in *.
  - destruct (ApplyRotatingUpdate c.1 u (Some v)) as [s'| |] eqn:E; [|by left..]. destruct (HRot u s' T E) as [?|?]; [by left|right; split; [by exists s'|done]].
  - destruct (ApplyFinalityUpdate c.1 u (Some v)) as [s'| |] eqn:E; [|by left..]. assert (exists s, Ok (E := light_err) s' = Ok s) as HA by (by exists s'). revert HA. generalize (exists s, Ok (E := light_err) s' = Ok s).
    intros A HA. unfold ApplyFinalityUpdate in E. cbn [of_option obind] in E.
    apply guard_err_ok in E as [_ E]. apply guard_err_ok in E as [_ E]. destruct (_ && _); [|destruct (HRot u s' T E) as [?|?]; [by left|by right]].
    apply obind_ok in E as (k & _ & E). apply obind_ok in E as (o & _ & E). apply guard_err_ok in E as [_ E]. apply Ok_inj in E as <-. left. by destruct c.
  - left. destruct (ApplyOptimisticUpdate c.1 h slot p sig (Some v)) as [s'| |] eqn:E; [|done..]. unfold ApplyOptimisticUpdate in E. cbn [of_option obind] in E.
    do 3 (apply guard_err_ok in E as [_ E]). apply obind_ok in E as (a & _ & E). apply obind_ok in E as (b & _ & E). apply obind_ok in E as (d & _ & E).
    apply obind_ok in E as (e & _ & E). apply obind_ok in E as ([] & _ & E). apply Ok_inj in E as <-. destruct OK as [[F1 F2 F3 F4] St Sp Re].
    split; [split; [split|..]; done|]. split; [cbn; lia|done].
  - destruct (AdoptExecutionPayload c.1 c.2 p branch) as [e| |] eqn:E; [|by left..]. unfold AdoptExecutionPayload in E.
    apply obind_ok in E as ([[sr n] hash] & HA & E). apply AuthenticatedStateRoot_ok in HA as (EO & r & Hr & HV). destruct OK as [F St Sp Re], T as [TO TB].
    apply pair_equal_spec in EO as [EO ->]. apply pair_equal_spec in EO as [-> ->]. rewrite Sp in Hr.
    destruct (proven_payload B spec _ p branch r R (fo_final B _ F) St TO TB Hr HV) as [->|]; [left|right; split; [by exists e|by left]].
    destruct (c.2 !! ep_BlockNumber (bc_payload B (ls_FinalizedHeader c.1))) as [[x y]|] eqn:EL.
    + apply guard_err_ok in E as [_ E]. apply Ok_inj in E as <-. by destruct c.
    + apply Ok_inj in E as <-. split; [split; try done|split; [cbn; lia|by apply insert_subseteq]]. cbn [snd]. intros m root hh Hm.
      apply lookup_insert_Some in Hm as [[<- [= <- <-]]|[_ Hm]]; [|by apply Re]. exists (ls_FinalizedHeader c.1). split; [apply F|done].
Qed.

(** A client in good standing accepts a call that shows a collision, or one that nothing checks. *)
Definition slips (B : BeaconChain) (spec : SpecVersion) (v : Verifier) (c : client) (ops : list light_op) : Prop :=
  exists before op after, ops = before ++ op :: after /\ client_ok B spec (light_run v c before) /\ accepted v (light_run v c before) op /\
    (op_collision B spec op \/ op_unchecked op).

Lemma light_run_ok (B : BeaconChain) (spec : SpecVersion) (v : Verifier) (ops : list light_op) (c : client) :
  chain_rules B spec -> honest_majority B v -> client_ok B spec c -> Forall op_typed ops ->
  (client_ok B spec (light_run v c ops) /\ bb_Slot (ls_FinalizedHeader c.1) <= bb_Slot (ls_FinalizedHeader (light_run v c ops).1) /\ c.2 ⊆ (light_run v c ops).2) \/
  slips B spec v c ops.
Proof.
  intros R HM OK T. revert c OK. induction T as [|op ops Top T IH]; intros c OK; cbn [light_run foldl]; [left; split; [done|]; split; [lia|done]|].
  destruct (light_step_ok B spec v c op R HM OK Top) as [(OK' & L & S)|HX]; [|right; exists [], op, ops; naive_solver].
  destruct (IH _ OK') as [(OK'' & L' & S')|(before & o & after & -> & HX)]; [left|right; by exists (op :: before), o, after].
  split; [done|]. split; [unfold light_run in L'; lia|by etrans].
Qed.
End Client.

(** ** Theorems *)

Section Theorems.
Context `{Hash : Sha256} `{!Sha256Laws Hash}.

(** C3. The light client follows the chain: started on a canonical finalised header with that
    period's committees, after any sequence of rotating, finality and optimistic updates and
    payloads, each refused or accepted, its finalised header is canonical, its committees are the
    chain's own for its period and the next, its finalised slot never went back, no recorded
    execution root was changed, and every one is the state root of a canonical block.  Unless, at
    a moment when all that still held, it accepted a call with a node that collides under SHA-256 with one of
    the canonical trees, or an update of one of the two kinds the code does not refuse: a
    bitfield of more than 512 bits (lightclient.go:126), or a next committee from another period
    than the finalised one (rotation.go:280).  Assumes that a supermajority of a true committee
    signs canonical headers only, and of what the provider sends only the widths of Go's types. *)
Theorem light_client_follows_chain (B : BeaconChain) (spec : SpecVersion) (v : Verifier) (c : client) (ops : list light_op)
  (R : chain_rules B spec) (HM : honest_majority B v) (OK : client_ok B spec c) (T : Forall op_typed ops) :
  let c' := light_run v c ops in
  (client_ok B spec c' /\ bb_Slot (ls_FinalizedHeader c.1) <= bb_Slot (ls_FinalizedHeader c'.1) /\ c.2 ⊆ c'.2) \/ slips B spec v c ops.
Proof. by apply light_run_ok. Qed.

(** An execution header the light client verifies is a canonical block's: in a
    client in good standing, a header accepted for a height names the state root
    (and, when it carries a hash, the hash) of the payload of a canonical beacon
    block with that height. *)
Theorem verified_header_is_canonical (B : BeaconChain) (spec : SpecVersion) (c : client) (number : Z) (h : BlockHeader)
  (OK : client_ok B spec c) (H : VerifyExecutionHeader c.2 number h = Ok tt) :
  exists b, bc_canonical B b /\ ep_BlockNumber (bc_payload B b) = number /\ decodeHex32 (bh_StateRoot h) = Ok (ep_StateRoot (bc_payload B b)) /\
    (bh_Hash h <> ""%string -> decodeHex32 (bh_Hash h) = Ok (ep_BlockHash (bc_payload B b))).
Proof.
  unfold VerifyExecutionHeader in H. apply obind_ok in H as ([root hash] & He & H). destruct (c.2 !! number) as [p|] eqn:EL; [|done].
  apply Ok_inj in He as ->. destruct (co_record B spec c OK _ _ _ EL) as (b & HB & -> & -> & ->). exists b. split; [done|]. split; [done|].
  destruct (decodeHex32 (bh_StateRoot h)) as [claimed| |]; [|done|done]. apply guard_err_ok in H as [H1 H]. apply negb_false_iff, bool_decide_eq_true in H1 as ->.
  split; [done|]. intros Hne. destruct (String.eqb_spec (bh_Hash h) ""); [done|].
  destruct (decodeHex32 (bh_Hash h)) as [ch| |]; [|done|done]. apply guard_err_ok in H as [H1 _]. by apply negb_false_iff, bool_decide_eq_true in H1 as ->.
Qed.

(** An accepted update was signed by a supermajority, when its bitfield has the
    512 bits of a committee: the BLS library verified the signature over the
    attested header's signing root under at least 341 keys, each valid, of 341
    different members of the committee the client itself held for the period the
    update was signed in. *)
Theorem accepted_has_supermajority {Lib : Blst} (validated : gset bytes) (s s' : LightClientState) (u : Update)
  (Hb : (length (up_Participation u) <= 64)%nat) (H : ApplyRotatingUpdate s u (Some (BLSVerifier validated)) = Ok s') :
  exists c keys, committeeFor s (SyncCommitteePeriod (up_SignatureSlot u)) = Ok c /\
    NoDup (Members (up_Participation u)) /\ MinParticipation <= Z.of_nat (length (Members (up_Participation u))) /\
    map Some keys = map (fun i => sc_Pubkeys c !! i) (Members (up_Participation u)) /\ Forall (fun k => bls_key_valid k = true) keys /\
    bls_fast_aggregate_verify (up_Signature u) keys (signing_root (up_AttestedHeader u) (ForkVersionAtSlot (up_SignatureSlot u)) (ck_GenesisValidatorsRoot (ls_Checkpoint s))) = true.
Proof.
  apply ApplyRotatingUpdate_ok in H as (_ & c & [HS HC _ HV]). exists c. unfold BLSVerifier, VerifySyncCommitteeSignature in HV.
  destruct (negb _); [done|]. destruct (length (Members (up_Participation u)) =? 0)%nat eqn:EM; [done|].
  destruct (ValidateCommittee validated c) as [v' r]. cbn [snd] in HV. apply obind_ok in HV as ([] & _ & HV). apply obind_ok in HV as (keys & Hk & HV).
  exists keys. assert (map Some keys = map (fun i => sc_Pubkeys c !! i) (Members (up_Participation u))) as EK.
  { clear - Hk. revert keys Hk. induction (Members (up_Participation u)) as [|i l IH]; intros keys Hk; cbn [selected] in Hk; [by apply Ok_inj in Hk as <-|].
    apply obind_ok in Hk as (k & Hi & Hk). apply obind_ok in Hk as (ks & Hs & Hk). apply Ok_inj in Hk as <-. cbn [map]. rewrite (IH _ Hs). f_equal.
    by destruct (sc_Pubkeys c !! i); [apply Ok_inj in Hi as ->|]. }
  split; [done|]. split; [apply Members_bounds|]. split; [rewrite Members_bits, length_participation_bits by done; apply HS|]. split; [done|].
  unfold verifyAggregate in HV. assert (length keys = length (Members (up_Participation u))) as EL.
  { apply (f_equal length) in EK. by rewrite !length_map in EK. }
  rewrite EL, EM in HV. apply guard_err_ok in HV as [_ HV]. apply obind_ok in HV as ([] & HK & HV). apply guard_err_ok in HV as [_ HV]. apply guard_err_ok in HV as [HF _].
  apply negb_false_iff in HF. split; [|done]. clear - HK. induction keys as [|k ks IH]; [by apply Forall_nil_2|]. cbn [keys_valid] in HK.
  apply guard_err_ok in HK as [_ HK]. apply guard_err_ok in HK as [Hv HK]. apply negb_false_iff in Hv. apply Forall_cons_2; [done|by apply IH].
Qed.

(** The two-thirds threshold can be passed by one signer: [Count] counts every
    bit of the bitfield the provider sent while the verifier selects members
    from the first 512, so an update signed by any members at all, correct in
    everything else, is refused as it stands and accepted once 43 bytes of ones
    follow its bitfield. *)
Theorem padded_bitfield_passes_threshold {Lib : Blst} (validated : gset bytes) (s : LightClientState) (u : Update) (c : SyncCommittee)
  (Hb : length (up_Participation u) = 64%nat) (Hfew : Count (up_Participation u) < MinParticipation)
  (Hrest : structure_ok s ((u) <| up_Participation := replicate 64 0xFF |>) (IndicesAtSlot (bb_Slot (up_AttestedHeader u))))
  (Hc : committeeFor s (SyncCommitteePeriod (up_SignatureSlot u)) = Ok c) (Hk : check_conflict s u (SyncCommitteePeriod (up_SignatureSlot u)) = Ok tt)
  (Hs : BLSVerifier validated (signing_root (up_AttestedHeader u) (ForkVersionAtSlot (up_SignatureSlot u)) (ck_GenesisValidatorsRoot (ls_Checkpoint s))) c
          (up_Participation u) (up_Signature u) = Ok tt) :
  ApplyRotatingUpdate s u (Some (BLSVerifier validated)) = Err ErrInsufficientParticipation /\
  exists s', ApplyRotatingUpdate s ((u) <| up_Participation := up_Participation u ++ ones_padding |>) (Some (BLSVerifier validated)) = Ok s' /\
    ls_FinalizedHeader s' = up_FinalizedHeader u.
Proof.
  destruct Hrest as [H1 H2 H3 _ H5 H6]. cbn [up_FinalizedHeader up_AttestedHeader up_SignatureSlot up_FinalityBranch up_NextCommittee up_NextCommitteeBranch setf] in *. split.
  - unfold ApplyRotatingUpdate, validateStructureWith. cbn [of_option obind]. rewrite (proj2 (Z.leb_gt _ _)) by done. cbn [guard_err].
    rewrite (proj2 (Z.ltb_ge _ _)) by done. cbn [guard_err]. rewrite (proj2 (Z.leb_gt _ _)) by done. cbn [guard_err]. by rewrite (proj2 (Z.ltb_lt _ _)) by done.
  - exists (rotate s ((u) <| up_Participation := up_Participation u ++ ones_padding |>)). split; [|by destruct (rotate_final s ((u) <| up_Participation := up_Participation u ++ ones_padding |>)) as [-> _]].
    apply ApplyRotatingUpdate_ok. split; [done|]. exists c. split; try done.
    + split; try done. change (MinParticipation <= Count (up_Participation u ++ ones_padding)). rewrite Count_app, Count_padding.
      pose proof (Count_nonneg (up_Participation u)). change MinParticipation with 341. lia.
    + unfold BLSVerifier, VerifySyncCommitteeSignature in *. cbn [up_AttestedHeader up_SignatureSlot]. change (up_Participation ((u) <| up_Participation := up_Participation u ++ ones_padding |>)) with (up_Participation u ++ ones_padding). by rewrite Members_pad.
Qed.

(** A next committee learned a period early displaces the right one: when an
    update finalised in the client's period but attested in the one after is
    accepted with a next committee - which the attested state proves for two
    periods on - the client files it as the committee of the coming period, in
    place of the committee it had already authenticated for it, and from then on
    accepts for that period only what the wrong committee signed. *)
Theorem early_next_committee_lost (v : Verifier) (s s' : LightClientState) (u : Update) (known late : SyncCommittee)
  (H : ApplyRotatingUpdate s u (Some v) = Ok s') (Hs : 0 <= Period s < 2 ^ 64 - 1) (Hknown : ls_NextCommittee s = Some known) (Hlate : up_NextCommittee u = Some late)
  (HF : SyncCommitteePeriod (bb_Slot (up_FinalizedHeader u)) = Period s) (HA : SyncCommitteePeriod (bb_Slot (up_AttestedHeader u)) = Period s + 1) :
  committeeFor s (Period s + 1) = Ok known /\ Period s' = Period s /\ committeeFor s' (Period s + 1) = Ok late /\
  forall u2 s2, SyncCommitteePeriod (up_SignatureSlot u2) = Period s + 1 -> ApplyRotatingUpdate s' u2 (Some v) = Ok s2 ->
    v (signing_root (up_AttestedHeader u2) (ForkVersionAtSlot (up_SignatureSlot u2)) (ck_GenesisValidatorsRoot (ls_Checkpoint s))) late
      (up_Participation u2) (up_Signature u2) = Ok tt.
Proof.
  apply ApplyRotatingUpdate_ok in H as (-> & _). destruct (rotate_final s u) as (RF & RC & _). destruct (rotate_committees s u) as [_ R2]. rewrite Hlate in R2.
  assert (wrap_u 64 (Period s + 1) = Period s + 1) as EW by (apply wrap_u_small; unfold u_range; lia).
  assert (Period (rotate s u) = Period s) as EP by (unfold Period at 1; by rewrite RF).
  assert (committeeFor (rotate s u) (Period s + 1) = Ok late) as HL.
  { unfold committeeFor. rewrite EP, EW, R2. rewrite (proj2 (Z.eqb_neq _ _)) by lia. by rewrite Z.eqb_refl. }
  split; [unfold committeeFor; rewrite EW, Hknown; rewrite (proj2 (Z.eqb_neq _ _)) by lia; by rewrite Z.eqb_refl|]. split; [done|]. split; [done|].
  intros u2 s2 Hu2 H2. apply ApplyRotatingUpdate_ok in H2 as (_ & c & [_ HC _ HV]). rewrite Hu2, HL in HC. apply Ok_inj in HC as <-. by rewrite RC in HV.
Qed.
End Theorems.

Section Source.
Context `{Hash : Sha256} `{!Sha256Laws Hash} `{K : Keccak}.

Lemma zero_bloom_denies (item : bytes) : MayContain (zeros 256) item = false.
Proof.
  rewrite MayContain_bits. unfold bloomPositions. cbn [forallb map]. unfold has_bit.
  assert (forall i, nth i (zeros 256) 0 = 0) as -> by (intros i; unfold zeros; apply nth_repeat || (rewrite nth_lookup; destruct (replicate 256 0 !! i) eqn:E; [by apply lookup_replicate_1 in E as [-> _]|done])).
  by rewrite Z.bits_0.
Qed.

(** The payload of the next height, with no logs. *)
Definition forged_payload (cp : FollowerCheckpoint) (hash : bytes) : ExecutionPayloadHeader :=
  mkExecutionPayloadHeader (cp_BlockHash cp) (zeros 20) (zeros 32) (zeros 32) (zeros 256) (zeros 32) (cp_BlockNumber cp + 1) 0 0 0 [] (zeros 32) hash (zeros 32) (zeros 32) 0 0.
(** A finality update nobody signed: only its body root fits the payload. *)
Definition forged_update (cp : FollowerCheckpoint) (hash : bytes) : Update :=
  let payload := forged_payload cp hash in
  let root := match payload_root payload SpecFulu with Ok r => r | _ => [] end in
  mkUpdate (mkBeaconBlockHeader 0 0 (zeros 32) (zeros 32) (zeros 32)) (mkBeaconBlockHeader 0 0 (zeros 32) (zeros 32) (climb root [zeros 32; zeros 32; zeros 32; zeros 32] 0 ExecutionPayloadIndex))
    [] None [] (Some payload) [zeros 32; zeros 32; zeros 32; zeros 32] [] [] 0.

(** The follower's finalised head is not authenticated: [BeaconFinalizedSource]
    checks the payload against the body root of a header the provider itself
    supplied, and neither the finality branch nor any signature, so from any
    checkpoint an update signed by nobody makes [Advance] succeed - without a
    header or a receipt being asked for - with a fabricated block of the next
    height that holds no logs, and leaves the checkpoint on it. *)
Theorem unsigned_head_blinds_follower {W : Type} (cfg : FollowerConfig) (HD : Z -> Z -> outcome follow_err (list ExecutionHeader))
  (RN : Z -> outcome follow_err (list Receipt)) (load : W -> outcome follow_err (option FollowerCheckpoint))
  (save : FollowerCheckpoint -> W -> W * option follow_err) (handle : AuthenticatedBlock -> list Log -> W -> W * option follow_err)
  (w : W) (cp : FollowerCheckpoint) (hash : bytes) (HL : load w = Ok (Some cp)) (Hcp : 0 <= cp_BlockNumber cp < 2 ^ 64 - 1)
  (Hsave : forall k w, (save k w).2 = None) (Hhandle : forall b l w, (handle b l w).2 = None) :
  exists head, up_Signature (forged_update cp hash) = [] /\ Count (up_Participation (forged_update cp hash)) = 0 /\ up_FinalityBranch (forged_update cp hash) = [] /\
    BeaconFinalizedBlock SpecFulu (forged_update cp hash) = Ok head /\ ab_Hash head = hash /\ ab_Number head = cp_BlockNumber cp + 1 /\
    Advance cfg HD RN load save (Ok head) handle w =
      ((save (mkFollowerCheckpoint (cp_BlockNumber cp + 1) hash) (handle head [] w).1).1, mkProgress (cp_BlockNumber cp) (cp_BlockNumber cp + 1) 1 1 0 0, Ok tt).
Proof.
  exists (BlockFromFinalizedPayload (forged_payload cp hash)). split; [done|]. split; [done|]. split; [done|]. split.
  - unfold BeaconFinalizedBlock, forged_update. cbn [up_FinalizedExecution up_FinalizedExecutionBranch up_FinalizedHeader bb_BodyRoot of_option obind].
    assert (exists r, payload_root (forged_payload cp hash) SpecFulu = Ok r) as [r Hr].
    { eexists. apply payload_root_ok; [done|]. split; [cbn; lia|]. split; [by right; right|]. unfold ContainerRoot. apply Merkleize_auto.
      rewrite length_payload_fields. apply below_2_62. lia. }
    rewrite Hr. cbn [of_ssz obind]. rewrite (proj2 (VerifyBranch_ok _ _ _ _)); [done|]. split; [done|]. split; [|done]. reflexivity.
  - split; [done|]. split; [done|]. unfold Advance. rewrite HL. cbn [BlockFromFinalizedPayload forged_payload ab_authentic negb ab_Number ab_Hash ep_BlockNumber ep_BlockHash].
    rewrite (proj2 (Z.eqb_neq _ _)) by lia. rewrite (proj2 (Z.ltb_ge _ _)) by lia.
    replace (cp_BlockNumber cp + 1 - cp_BlockNumber cp) with 1 by lia. change (wrap_s 64 1) with 1.
    destruct ((0 <? fc_MaxCatchUp cfg) && (fc_MaxCatchUp cfg <? 1)) eqn:EM. { apply andb_true_iff in EM as [E1 E2]. apply Z.ltb_lt in E1, E2. lia. }
    unfold walkBack. change (ab_Number (BlockFromFinalizedPayload (forged_payload cp hash))) with (cp_BlockNumber cp + 1). replace (cp_BlockNumber cp + 1 - 1) with (cp_BlockNumber cp) by lia. rewrite wrap_u_small by (unfold u_range; lia).
    rewrite Z.sub_diag. change (Z.to_nat 0) with 0%nat. unfold walk_batches. cbv zeta. rewrite Z.ltb_irrefl. cbn [negb obind]. change (ab_ParentHash (BlockFromFinalizedPayload (forged_payload cp hash))) with (cp_BlockHash cp). rewrite bool_decide_eq_true_2 by done. cbn [negb guard_err reverse rev_append].
    change (reverse [?x]) with [x]. cbn [process]. unfold block_logs, MayContainAddress. cbn [ab_LogsBloom ep_LogsBloom]. rewrite zero_bloom_denies. cbn [negb].
    pose proof (Hhandle (BlockFromFinalizedPayload (forged_payload cp hash)) [] w) as EH. unfold BlockFromFinalizedPayload, forged_payload in *. cbn in EH |- *.
    match goal with |- context [handle ?b [] w] => destruct (handle b [] w) as [w1 o] end. cbn in EH |- *. rewrite EH.
    pose proof (Hsave (mkFollowerCheckpoint (cp_BlockNumber cp + 1) hash) w1) as ES. destruct (save _ w1) as [w2 o2]. cbn in ES |- *. by rewrite ES.
Qed.
End Source.

(** ** Witnesses *)

#[local] Instance light_sha : Sha256 := fun b => be_encode 8 (foldl (fun acc x => Z.land (acc * 257 + x + 1) 2305843009213693951) 5 b) ++ zeros 24.
#[local] Instance light_sha_laws : Sha256Laws light_sha.
Proof. intros b. apply (array_app 8 24); [apply be_encode_array|apply zeros_array]. Qed.

Definition toy_committee (last : Z) : SyncCommittee := mkSyncCommittee (replicate 512 (zeros 48)) (zeros 47 ++ [last]).
Definition toy_committee_root : bytes := Eval vm_compute in match committee_root (toy_committee 0) with Ok r => r | _ => [] end.
Lemma toy_committee_rooted : committee_root (toy_committee 0) = Ok toy_committee_root.
Proof. vm_compute. reflexivity. Qed.

(** Headers every 64 slots; the state of each commits to the header before it and
    to the committee, its body to [toy_payload]. *)
Definition toy_light_branch : list bytes := [zeros 32; zeros 32; zeros 32; zeros 32].
Definition toy_light_body : bytes := match payload_root toy_payload SpecFulu with Ok r => climb r toy_light_branch 0 ExecutionPayloadIndex | _ => [] end.
Definition toy_node_26 (final : bytes) : bytes := sha256Pair (sha256Pair (zeros 32) final) (zeros 32).
Definition toy_node_27 : bytes := sha256Pair (zeros 32) toy_committee_root.
Definition toy_state_root (final : bytes) : bytes :=
  sha256Pair (zeros 32) (sha256Pair (sha256Pair (zeros 32) (sha256Pair (toy_node_26 final) toy_node_27)) (zeros 32)).
Definition toy_light_header (slot : Z) (final : bytes) : BeaconBlockHeader := mkBeaconBlockHeader slot 0 (zeros 32) (toy_state_root final) toy_light_body.
Fixpoint toy_header_at (n : nat) : BeaconBlockHeader :=
  toy_light_header (64 * Z.of_nat n) (match n with O => zeros 32 | S n => root_of (toy_header_at n) end).
Definition toy_before (h : BeaconBlockHeader) : BeaconBlockHeader := toy_header_at (pred (Z.to_nat (bb_Slot h / 64))).
Definition toy_final_branch : list bytes := [zeros 32; zeros 32; toy_node_27; zeros 32; zeros 32; zeros 32].
Definition toy_next_branch (final : bytes) : list bytes := [zeros 32; toy_node_26 final; zeros 32; zeros 32; zeros 32].
Definition toy_beacon : BeaconChain :=
  mkBeaconChain (fun h => exists n, (n <= 3)%nat /\ h = toy_header_at n) (zeros 32) (fun _ => toy_committee_root) toy_before
    (fun _ => toy_final_branch) (fun h => toy_next_branch (root_of (toy_before h))) (fun _ => toy_payload) (fun _ => toy_light_branch).

Lemma toy_committee_root_array : array_ok 32 toy_committee_root.
Proof. apply array_okb_spec. vm_compute. reflexivity. Qed.
Lemma toy_light_body_array : array_ok 32 toy_light_body.
Proof. apply array_okb_spec. vm_compute. reflexivity. Qed.
Lemma toy_zero_branch (n : nat) : Forall (array_ok 32) (replicate n (zeros 32)).
Proof. apply Forall_replicate, zeros_array. Qed.
Lemma toy_pair_array (l r : bytes) : array_ok 32 (sha256Pair l r).
Proof. exact (sha256_array (l ++ r)). Qed.
Lemma toy_state_root_array (final : bytes) : array_ok 32 (toy_state_root final).
Proof. unfold toy_state_root. apply toy_pair_array. Qed.
Lemma toy_node_26_array (final : bytes) : array_ok 32 (toy_node_26 final).
Proof. unfold toy_node_26. apply toy_pair_array. Qed.
Lemma toy_node_27_array : array_ok 32 toy_node_27.
Proof. unfold toy_node_27. apply toy_pair_array. Qed.
Ltac toy_array :=
  match goal with
  | |- array_ok 32 (zeros 32) => apply zeros_array
  | |- array_ok 32 (toy_state_root _) => apply toy_state_root_array
  | |- array_ok 32 (toy_node_26 _) => apply toy_node_26_array
  | |- array_ok 32 toy_node_27 => apply toy_node_27_array
  | |- array_ok 32 toy_light_body => apply toy_light_body_array
  | |- u_range _ _ => unfold u_range; lia
  end.
Lemma toy_beacon_rules : chain_rules toy_beacon SpecFulu.
Proof.
  split; cbn [bc_canonical bc_genesis bc_committee bc_final bc_final_branch bc_next_branch bc_payload bc_payload_branch toy_beacon].
  - intros h (n & Hn & ->). split; destruct n; cbn [toy_header_at toy_light_header bb_Slot bb_ProposerIndex bb_ParentRoot bb_StateRoot bb_BodyRoot];
      toy_array.
  - apply zeros_array.
  - intros _. apply toy_committee_root_array.
  - intros h (n & Hn & ->) Hs. destruct n as [|n]; [done|].
    assert (toy_before (toy_header_at (S n)) = toy_header_at n) as ->.
    { unfold toy_before. cbn [toy_header_at toy_light_header bb_Slot]. rewrite Z.mul_comm, Z.div_mul by done. rewrite Nat2Z.id. done. }
    split; [exists n; split; [lia|done]|]. split.
    + unfold toy_final_branch. repeat first [apply Forall_cons_2|apply Forall_nil_2]; toy_array.
    + assert (n = 0 \/ n = 1 \/ n = 2)%nat as [->|[->| ->]] by lia; vm_compute; reflexivity.
  - intros h (n & Hn & ->) Hs. destruct n as [|n]; [done|]. split.
    + unfold toy_next_branch. repeat first [apply Forall_cons_2|apply Forall_nil_2]; toy_array.
    + assert (n = 0 \/ n = 1 \/ n = 2)%nat as [->|[->| ->]] by lia; vm_compute; reflexivity.
  - intros h (n & Hn & ->) Hs. split; [apply toy_payload_ok|]. split; [apply (toy_zero_branch 4)|].
    destruct (payload_root toy_payload SpecFulu) as [r| |] eqn:Hr; [|exfalso; revert Hr; by vm_compute..]. exists r. split; [done|].
    destruct n; cbn [toy_header_at toy_light_header bb_BodyRoot]; (apply VerifyBranch_ok; split; [done|split; [done|]]; unfold toy_light_body; by rewrite Hr).
Qed.

Definition toy_bitfield : bytes := replicate 64 0xFF.
Definition toy_genesis_checkpoint : Checkpoint := mkCheckpoint 64 (zeros 32) toy_committee_root (zeros 32) [6; 0; 0; 0] "three explorers" "".
Definition toy_light_state : LightClientState :=
  mkLightClientState (toy_header_at 1) (Some (toy_committee 0)) (Some (toy_committee 0)) toy_genesis_checkpoint (Some toy_genesis_checkpoint) None SpecFulu.
(** Signed by whatever [bits] says; attested at slot 192, final at slot 128. *)
Definition toy_update (bits : bytes) : Update :=
  mkUpdate (toy_header_at 3) (toy_header_at 2) toy_final_branch None [] None [] bits (zeros 96) 193.
(** The root of the last header under the domain of its slot. *)
Definition toy_signing_root : bytes := signing_root (toy_header_at 3) (ForkVersionAtSlot 193) (zeros 32).
Definition toy_verifier : Verifier := fun root _ _ _ => if bool_decide (root = toy_signing_root) then Ok tt else Err ErrSignatureDoesNotVerify.

Lemma toy_majority : honest_majority toy_beacon toy_verifier.
Proof.
  intros root c p sig period _ _ _ HV. unfold toy_verifier in HV. destruct (bool_decide_reflect (root = toy_signing_root)) as [->|]; [|done].
  exists (toy_header_at 3), 193. split; [by exists 3%nat|reflexivity].
Qed.
Lemma toy_header_at_ok (n : nat) : (n <= 3)%nat -> beacon_header_ok (toy_header_at n).
Proof. intros Hn. apply (cr_typed _ _ toy_beacon_rules). by exists n. Qed.
Lemma toy_client_ok : client_ok toy_beacon SpecFulu (toy_light_state, ∅).
Proof.
  split; cbn [fst snd]; [|done|done|intros ? ? ? H; by apply lookup_empty_Some in H]. split; [exists 1%nat; split; [lia|done]|done| |]; intros c [= <-]; exact toy_committee_rooted.
Qed.
Lemma toy_update_typed : update_typed (toy_update toy_bitfield).
Proof.
  split; cbn [toy_update up_AttestedHeader up_FinalizedHeader up_FinalityBranch up_NextCommitteeBranch up_Participation up_SignatureSlot up_NextCommittee].
  - by apply toy_header_at_ok.
  - apply toy_header_at_ok. lia.
  - unfold toy_final_branch. repeat first [apply Forall_cons_2|apply Forall_nil_2]; toy_array.
  - by apply Forall_nil_2.
  - unfold u_range. lia.
Qed.
Definition toy_ops : list light_op := [OpRotating (toy_update toy_bitfield); OpAdopt toy_payload toy_light_branch].
Example toy_run_advances : let c := light_run toy_verifier (toy_light_state, ∅) toy_ops in
  (bb_Slot (ls_FinalizedHeader c.1), c.2 !! 1) = (128, Some (ep_StateRoot toy_payload, ep_BlockHash toy_payload)).
Proof. vm_compute. reflexivity. Qed.
(** Nothing in this run is of the two kinds the code lets pass. *)
Lemma light_client_follows_chain_witness :
  let c' := light_run toy_verifier (toy_light_state, ∅) toy_ops in
  (client_ok toy_beacon SpecFulu c' /\ bb_Slot (ls_FinalizedHeader toy_light_state) <= bb_Slot (ls_FinalizedHeader c'.1) /\ ∅ ⊆ c'.2) \/
  exists op, op ∈ toy_ops /\ op_collision toy_beacon SpecFulu op.
Proof.
  destruct (light_client_follows_chain toy_beacon SpecFulu toy_verifier (toy_light_state, ∅) toy_ops toy_beacon_rules toy_majority toy_client_ok)
    as [H|(before & op & after & E & _ & _ & [HC|HU])].
  - unfold toy_ops. apply Forall_cons_2; [exact toy_update_typed|]. apply Forall_cons_2; [|by apply Forall_nil_2]. split; [exact toy_payload_ok|exact (toy_zero_branch 4)].
  - left. exact H.
  - right. exists op. split; [rewrite E; apply elem_of_app; right; apply list_elem_of_here|exact HC].
  - exfalso. assert (op ∈ toy_ops) as Hin by (rewrite E; apply elem_of_app; right; apply list_elem_of_here).
    unfold toy_ops in Hin. rewrite !elem_of_cons in Hin. destruct Hin as [->|[->|Hin]]; [|exact HU|by apply elem_of_nil in Hin].
    destruct HU as [HU|[[x HU] _]]; [vm_compute in HU; lia|discriminate HU].
Defined.

Definition toy_record : ExecutionRecord := {[1 := (ep_StateRoot toy_payload, ep_BlockHash toy_payload)]}.
Lemma toy_record_ok : client_ok toy_beacon SpecFulu (toy_light_state, toy_record).
Proof.
  destruct toy_client_ok as [F S P _]. split; [exact F|exact S|exact P|]. intros n r h H. cbn [snd] in H; unfold toy_record in H; apply lookup_singleton_Some in H as [<- [= <- <-]].
  exists (toy_header_at 1). split; [exists 1%nat; split; [lia|done]|done].
Qed.
Lemma verified_header_is_canonical_witness : exists b, bc_canonical toy_beacon b /\ ep_BlockNumber (bc_payload toy_beacon b) = 1.
Proof.
  destruct (verified_header_is_canonical toy_beacon SpecFulu (toy_light_state, toy_record) 1 (mkBlockHeader "0x1" "" "" (hex32 (be_encode 32 5))) toy_record_ok
    ltac:(vm_compute; reflexivity)) as (b & HB & HN & _). exists b. split; [exact HB|exact HN].
Defined.

(** A library that accepts the one signature of zeros. *)
#[local] Instance toy_blst : Blst := {|
  bls_key_valid _ := true; bls_sig_valid _ := true; bls_fast_aggregate_verify sig keys msg := (0 <? length keys)%nat && bool_decide (sig = zeros 96)
|}.
Lemma toy_accepted : exists s', ApplyRotatingUpdate toy_light_state (toy_update toy_bitfield) (Some (BLSVerifier {[toy_committee_root]})) = Ok s'.
Proof. eexists. vm_compute. reflexivity. Qed.
Lemma accepted_has_supermajority_witness : exists c : SyncCommittee, committeeFor toy_light_state (SyncCommitteePeriod 193) = Ok c.
Proof.
  destruct toy_accepted as [s' H]. destruct (accepted_has_supermajority {[toy_committee_root]} toy_light_state s' (toy_update toy_bitfield) ltac:(vm_compute; lia) H) as (c & _ & HC & _).
  exists c. exact HC.
Defined.

(** One member signed. *)
Definition toy_one_bit : bytes := 1 :: zeros 63.
Lemma toy_one_signed : BLSVerifier {[toy_committee_root]} toy_signing_root (toy_committee 0) toy_one_bit (zeros 96) = Ok tt.
Proof. vm_compute. reflexivity. Qed.
Lemma toy_rest_ok : structure_ok toy_light_state ((toy_update toy_one_bit) <| up_Participation := replicate 64 0xFF |>) (IndicesAtSlot 192).
Proof. apply validateStructureWith_ok. vm_compute. reflexivity. Qed.
Lemma padded_bitfield_passes_threshold_witness :
  ApplyRotatingUpdate toy_light_state (toy_update toy_one_bit) (Some (BLSVerifier {[toy_committee_root]})) = Err ErrInsufficientParticipation.
Proof.
  exact (proj1 (padded_bitfield_passes_threshold {[toy_committee_root]} toy_light_state (toy_update toy_one_bit) (toy_committee 0) eq_refl ltac:(vm_compute; reflexivity)
    toy_rest_ok eq_refl eq_refl toy_one_signed)).
Defined.

(** Attested in period 1, final in period 0. *)
Definition toy_late_header : BeaconBlockHeader := toy_light_header 8200 (root_of (toy_header_at 2)).
Definition toy_late_update : Update :=
  mkUpdate toy_late_header (toy_header_at 2) toy_final_branch (Some (toy_committee 0)) (toy_next_branch (root_of (toy_header_at 2))) None [] toy_bitfield (zeros 96) 8201.
Definition toy_known : SyncCommittee := mkSyncCommittee [] [].
Definition toy_early_state : LightClientState := (toy_light_state) <| ls_NextCommittee := Some toy_known |>.
Lemma toy_late_accepted : ApplyRotatingUpdate toy_early_state toy_late_update (Some (fun _ _ _ _ => Ok tt)) = Ok (rotate toy_early_state toy_late_update).
Proof.
  apply ApplyRotatingUpdate_ok. split; [reflexivity|]. exists toy_known. split; [|reflexivity..].
  apply validateStructureWith_ok. vm_compute. reflexivity.
Qed.
Lemma early_next_committee_lost_witness : committeeFor (rotate toy_early_state toy_late_update) (Period toy_early_state + 1) = Ok (toy_committee 0).
Proof.
  exact (proj1 (proj2 (proj2 (early_next_committee_lost (fun _ _ _ _ => Ok tt) toy_early_state (rotate toy_early_state toy_late_update) toy_late_update toy_known (toy_committee 0)
    toy_late_accepted ltac:(vm_compute; split; [discriminate|reflexivity]) eq_refl eq_refl eq_refl eq_refl)))).
Defined.

Lemma unsigned_head_blinds_follower_witness : exists head, BeaconFinalizedBlock SpecFulu (forged_update toy_cp (be_encode 32 1)) = Ok head /\ ab_Number head = 11.
Proof.
  destruct (unsigned_head_blinds_follower (toy_follower 0) toy_headers toy_block_receipts toy_load toy_save toy_handle (Some toy_cp, []) toy_cp (be_encode 32 1) eq_refl
    ltac:(cbn; lia) (fun _ _ => eq_refl) (fun _ _ _ => eq_refl)) as (head & _ & _ & _ & HB & _ & HN & _).
  exists head. split; [exact HB|exact HN].
Defined.
