(* ===== verification/ChannelEvents.v ===== *)
(** * The event-driven chain reader ([internal/channel/eventreader.go])

    The events of the contract decoded from authenticated logs, and the reader
    that answers from a cache while no authenticated event names the channel.
    [Advance] is the chain follower's ([EthFollower]), run with the reader's own
    handler; the inner reader is an argument.  [ensureCurrent] and [ReadChannel] are
    made of the parts that run under the reader's lock - [is_due], [finish_advance],
    [cached_answer], [keep_answer]; the theorem on freshness takes the calls one at a time, and
    [racing_advances_hide_event] shows what two that interleave can do. *)
From S2P Require Import Prelude.
From S2P Require Import GoBytes.
From S2P Require Import RecordUpdate.
From S2P Require Import ChannelTypes.
From S2P Require Import ChannelStore.
From S2P Require Import ChannelWatch.
From S2P Require Import Rlp.
From S2P Require Import EthProof.
From S2P Require Import EthReceipts.
From S2P Require Import EthHeader.
From S2P Require Import EthFollower.
From Stdlib Require Ascii.
From Stdlib Require String.
Import String.StringSyntax.

(** ** Events *)

Inductive ChannelEventKind : Type :=
| EventChannelOpened | EventDeposited | EventCheckpointApplied | EventClosedCooperatively | EventCloseStarted
| EventChallenged | EventLockClaimed | EventLockExpired | EventSettled.
#[export] Instance ChannelEventKind_eq_dec : EqDecision ChannelEventKind.
Proof. solve_decision. Defined.

Definition event_signatures : list (string * ChannelEventKind) :=
  [("ChannelOpened(bytes32,address,address,uint256)"%string, EventChannelOpened);
   ("Deposited(bytes32,address,uint256)"%string, EventDeposited);
   ("CheckpointApplied(bytes32,uint64,uint256,uint256)"%string, EventCheckpointApplied);
   ("ClosedCooperatively(bytes32,uint256,uint256)"%string, EventClosedCooperatively);
   ("CloseStarted(bytes32,address,uint64,uint256)"%string, EventCloseStarted);
   ("Challenged(bytes32,uint64)"%string, EventChallenged);
   ("LockClaimed(bytes32,bytes32,bytes32)"%string, EventLockClaimed);
   ("LockExpired(bytes32,bytes32)"%string, EventLockExpired);
   ("Settled(bytes32,uint256,uint256)"%string, EventSettled)].

Record ChannelEvent : Type := mkChannelEvent {
  ev_Kind : ChannelEventKind; ev_Channel : bytes; ev_Block : Z; ev_Hash : bytes; ev_Nonce : Z; ev_Ends : Z
}.
#[export] Instance ChannelEvent_eta : Eta ChannelEvent := fun x =>
  mkChannelEvent (ev_Kind x) (ev_Channel x) (ev_Block x) (ev_Hash x) (ev_Nonce x) (ev_Ends x).

(** [binary.BigEndian.Uint64(data[lo:lo+8])]; the callers checked the length. *)
Definition word64 (data : bytes) (lo : nat) : Z := be_decode (take 8 (drop lo data)).

Section Events.
Context `{K : Keccak}.

(** A lookup of [channelEventSignatures]: the signatures hashed. *)
Fixpoint event_kind (topic : bytes) (sigs : list (string * ChannelEventKind)) : option ChannelEventKind :=
  match sigs with
  | [] => None
  | (sig, kind) :: sigs => if bool_decide (Keccak256 (text_bytes sig) = topic) then Some kind else event_kind topic sigs
  end.

Definition DecodeChannelEvent (l : Log) (block : Z) (blockHash : bytes) : option ChannelEvent :=
  match lg_Topics l with
  | topic :: id :: _ =>
      match event_kind topic event_signatures with
      | None => None
      | Some kind =>
          let ev := mkChannelEvent kind id block blockHash 0 0 in
          let ev := if bool_decide (kind = EventCloseStarted) && (64 <=? length (lg_Data l))%nat
                    then (ev) <| ev_Nonce := word64 (lg_Data l) 24 |> <| ev_Ends := wrap_s 64 (word64 (lg_Data l) 56) |> else ev in
          Some (if bool_decide (kind = EventChallenged) && (32 <=? length (lg_Data l))%nat then (ev) <| ev_Nonce := word64 (lg_Data l) 24 |> else ev)
      end
  | _ => None
  end.

(** ** The reader *)

Record cachedChannel : Type := mkCachedChannel { cc_occ : OnChainChannel; cc_validAt : Z }.
(** The fields the mutex guards; [advanceErr] is the error kept, when there is one. *)
Record EventReader : Type := mkEventReader {
  er_cache : gmap bytes cachedChannel; er_head : Z; er_lastAdvance : Z; er_advanceErr : bool; er_started : bool
}.
#[export] Instance EventReader_eta : Eta EventReader := fun x =>
  mkEventReader (er_cache x) (er_head x) (er_lastAdvance x) (er_advanceErr x) (er_started x).

Inductive reader_err : Type := ErrFollowerNotReady | ErrInnerReader.

Definition refreshInterval (RefreshInterval : Z) : Z := if 0 <? RefreshInterval then RefreshInterval else DefaultWatchInterval.

(** What [Advance] is given: the follower's configuration and what its three sources answer now. *)
Record FollowerView : Type := mkFollowerView {
  fv_config : FollowerConfig;
  fv_headers : Z -> Z -> outcome follow_err (list ExecutionHeader);
  fv_receipts : Z -> outcome follow_err (list Receipt);
  fv_final : outcome follow_err AuthenticatedBlock
}.

Context {S : Type}.
Context (LoadCheckpoint : S -> outcome follow_err (option FollowerCheckpoint)) (SaveCheckpoint : FollowerCheckpoint -> S -> S * option follow_err).
Context (RefreshInterval : Z).

(** [touched] and [events] of one advance: one entry each per decoded log. *)
Definition decoded_events (b : AuthenticatedBlock) (logs : list Log) : list ChannelEvent :=
  omap (fun l => DecodeChannelEvent l (ab_Number b) (ab_Hash b)) logs.
Definition advance_world : Type := S * list ChannelEvent.
Definition collect (b : AuthenticatedBlock) (logs : list Log) (w : advance_world) : advance_world * option follow_err :=
  ((w.1, w.2 ++ decoded_events b logs), None).
Definition advance_load (w : advance_world) : outcome follow_err (option FollowerCheckpoint) := LoadCheckpoint w.1.
Definition advance_save (cp : FollowerCheckpoint) (w : advance_world) : advance_world * option follow_err :=
  let '(s, err) := SaveCheckpoint cp w.1 in ((s, w.2), err).
Definition run_advance (view : FollowerView) (s : S) : advance_world * Progress * outcome follow_err unit :=
  Advance (fv_config view) (fv_headers view) (fv_receipts view) advance_load advance_save (fv_final view) collect (s, []).

(** Every entry not touched, stamped with the head. *)
Definition restamp (head : Z) (cache : gmap bytes cachedChannel) : gmap bytes cachedChannel :=
  (fun entry => mkCachedChannel (cc_occ entry) head) <$> cache.
Definition drop_touched (events : list ChannelEvent) (cache : gmap bytes cachedChannel) : gmap bytes cachedChannel :=
  foldl (fun cache ev => delete (ev_Channel ev) cache) cache events.

Definition is_due (now : Z) (r : EventReader) : bool :=
  negb (er_started r) || (refreshInterval RefreshInterval <=? time_Sub now (er_lastAdvance r)).

(** The second locked part of [ensureCurrent], with what the advance gave: the reader, the
    events [OnEvent] is told of, the error.  [later] is the time then. *)
Definition finish_advance (later : Z) (events : list ChannelEvent) (prog : Progress) (result : outcome follow_err unit) (r : EventReader)
    : EventReader * list ChannelEvent * outcome reader_err unit :=
  match result with
  | Panic => (r, [], Panic)
  | Err _ => ((r) <| er_started := true |> <| er_lastAdvance := later |> <| er_advanceErr := true |>, [], Err ErrFollowerNotReady)
  | Ok _ =>
      let head := if er_head r <? pg_To prog then pg_To prog else er_head r in
      ((r) <| er_started := true |> <| er_lastAdvance := later |> <| er_advanceErr := false |>
           <| er_cache := restamp head (drop_touched events (er_cache r)) |> <| er_head := head |>, events, Ok tt)
  end.

(** The reader, the follower's store, the events [OnEvent] is told of, the error.
    [view] is [None] without a follower. *)
Definition ensureCurrent (view : option FollowerView) (now later : Z) (r : EventReader) (s : S)
    : EventReader * S * list ChannelEvent * outcome reader_err unit :=
  if negb (is_due now r) then (r, s, [], if er_advanceErr r then Err ErrFollowerNotReady else Ok tt)
  else
    match view with
    | None => (r, s, [], Err ErrFollowerNotReady)
    | Some view =>
        let '(w, prog, result) := run_advance view s in
        let '(r, told, err) := finish_advance later w.2 prog result r in (r, w.1, told, err)
    end.

(** The lookup, under the lock: the entry of the id - of whichever contract it was read -
    when it is stamped with the head. *)
Definition cached_answer (id : bytes) (r : EventReader) : option OnChainChannel :=
  match er_cache r !! id with
  | Some entry => if cc_validAt entry =? er_head r then Some (cc_occ entry) else None
  | None => None
  end.
(** The inner reader's answer is kept when the head is still the one of the lookup. *)
Definition keep_answer (head : Z) (id : bytes) (occ : OnChainChannel) (r : EventReader) : EventReader :=
  if er_head r =? head then (r) <| er_cache := <[id := mkCachedChannel occ head]> (er_cache r) |> else r.

(** [inner] is [Inner.ReadChannel] now. *)
Definition ReadChannel (view : option FollowerView) (inner : bytes -> bytes -> option OnChainChannel) (now later : Z) (contract id : bytes)
    (r : EventReader) (s : S) : EventReader * S * list ChannelEvent * outcome reader_err OnChainChannel :=
  let '(r, s, told, err) := ensureCurrent view now later r s in
  match err with
  | Err e => (r, s, told, Err e)
  | Panic => (r, s, told, Panic)
  | Ok _ =>
      match cached_answer id r with
      | Some occ => (r, s, told, Ok occ)
      | None =>
          let head := er_head r in
          match inner contract id with
          | Some occ => (keep_answer head id occ r, s, told, Ok occ)
          | None => (r, s, told, Err ErrInnerReader)
          end
      end
  end.
End Events.

(** ** The cache *)

Lemma lookup_drop_touched (events : list ChannelEvent) (cache : gmap bytes cachedChannel) (id : bytes) :
  drop_touched events cache !! id = if bool_decide (id ∈ map ev_Channel events) then None else cache !! id.
Proof.
  unfold drop_touched. revert cache. induction events as [|ev events IH]; intros cache; cbn [foldl map]; [done|].
  rewrite IH. destruct (decide (id = ev_Channel ev)) as [->|Hne].
  - rewrite lookup_delete_eq. rewrite (bool_decide_eq_true_2 (_ ∈ _ :: _)) by apply list_elem_of_here. by destruct (bool_decide _).
  - rewrite lookup_delete_ne by done. by rewrite (bool_decide_ext (id ∈ ev_Channel ev :: map ev_Channel events) (id ∈ map ev_Channel events)) by set_solver.
Qed.
Lemma lookup_restamp (head : Z) (cache : gmap bytes cachedChannel) (id : bytes) :
  restamp head cache !! id = (fun e => mkCachedChannel (cc_occ e) head) <$> cache !! id.
Proof. apply lookup_fmap. Qed.

(** ** What was asked and what was told *)

Inductive reader_event : Type := HInner (contract id : bytes) (occ : OnChainChannel) | HEvent (ev : ChannelEvent).
(** An event that names the channel, or an answer of the inner reader about it. *)
Definition concerns (id : bytes) (h : reader_event) : Prop := match h with HEvent ev => ev_Channel ev = id | HInner _ id' _ => id' = id end.
(** [occ] is the last answer of the inner reader about the channel, and no event has
    named the channel since. *)
Definition fresh (history : list reader_event) (contract id : bytes) (occ : OnChainChannel) : Prop :=
  exists pre post, history = pre ++ HInner contract id occ :: post /\ Forall (fun h => ~ concerns id h) post.

Lemma fresh_app (history ext : list reader_event) (contract id : bytes) (occ : OnChainChannel) :
  fresh history contract id occ -> Forall (fun h => ~ concerns id h) ext -> fresh (history ++ ext) contract id occ.
Proof. intros (pre & post & -> & HP) HE. exists pre, (post ++ ext). rewrite <- app_assoc. split; [done|]. by apply Forall_app_2. Qed.
Lemma fresh_here (history : list reader_event) (contract id : bytes) (occ : OnChainChannel) :
  fresh (history ++ [HInner contract id occ]) contract id occ.
Proof. exists history, []. split; [done|by apply Forall_nil_2]. Qed.

Section Reads.
Context `{K : Keccak}.
Context {S : Type}.
Context (LoadCheckpoint : S -> outcome follow_err (option FollowerCheckpoint)) (SaveCheckpoint : FollowerCheckpoint -> S -> S * option follow_err).
Context (RefreshInterval : Z).

Record read_call : Type := mkReadCall {
  rc_view : option FollowerView; rc_inner : bytes -> bytes -> option OnChainChannel; rc_now : Z; rc_later : Z; rc_contract : bytes; rc_id : bytes
}.
Definition ensure (c : read_call) (r : EventReader) (s : S) : EventReader * S * list ChannelEvent * outcome reader_err unit :=
  ensureCurrent LoadCheckpoint SaveCheckpoint RefreshInterval (rc_view c) (rc_now c) (rc_later c) r s.
Definition read (c : read_call) (r : EventReader) (s : S) : EventReader * S * list ChannelEvent * outcome reader_err OnChainChannel :=
  ReadChannel LoadCheckpoint SaveCheckpoint RefreshInterval (rc_view c) (rc_inner c) (rc_now c) (rc_later c) (rc_contract c) (rc_id c) r s.

(** What one call adds to the history: the events of its advance, decoded whether
    or not the reader kept them, then the inner reader's answer if it was asked. *)
Definition advance_events (c : read_call) (r : EventReader) (s : S) : list ChannelEvent :=
  if is_due RefreshInterval (rc_now c) r then match rc_view c with Some view => (run_advance LoadCheckpoint SaveCheckpoint view s).1.1.2 | None => [] end else [].
Definition call_history (c : read_call) (r : EventReader) (s : S) : list reader_event :=
  map HEvent (advance_events c r s) ++
  match ensure c r s with
  | (r', _, _, Ok _) =>
      match cached_answer (rc_id c) r', rc_inner c (rc_contract c) (rc_id c) with
      | None, Some occ => [HInner (rc_contract c) (rc_id c) occ]
      | _, _ => []
      end
  | _ => []
  end.

(** No advance fails after it has handed over an event. *)
Definition clean_call (c : read_call) (r : EventReader) (s : S) : Prop :=
  (exists r' s' told, ensure c r s = (r', s', told, Ok tt)) \/ advance_events c r s = [].

(** Calls for one contract, one after the other. *)
Inductive reads (contract : bytes) : EventReader -> S -> list reader_event -> EventReader -> S -> list reader_event -> Prop :=
| reads_nil r s h : reads contract r s h r s h
| reads_step r s h c r1 s1 told res r' s' h' :
    rc_contract c = contract -> clean_call c r s -> read c r s = (r1, s1, told, res) ->
    reads contract r1 s1 (h ++ call_history c r s) r' s' h' -> reads contract r s h r' s' h'.

Definition reader_ok (contract : bytes) (r : EventReader) (h : list reader_event) : Prop :=
  forall id entry, er_cache r !! id = Some entry -> cc_validAt entry = er_head r /\ fresh h contract id (cc_occ entry).

Lemma finish_advance_ok (contract : bytes) (later : Z) (events : list ChannelEvent) (prog : Progress) (result : outcome follow_err unit)
    (r r' : EventReader) (told : list ChannelEvent) (res : outcome reader_err unit) (h : list reader_event) :
  (exists x, result = Ok x) \/ events = [] -> reader_ok contract r h -> finish_advance later events prog result r = (r', told, res) ->
  reader_ok contract r' (h ++ map HEvent events).
Proof.
  intros HC HR H. unfold finish_advance in H. destruct result as [[]|e|].
  2-3: destruct HC as [[? ?]| ->]; [done|]; cbn [map]; rewrite app_nil_r; by injection H as <- _ _.
  injection H as <- _ _. intros id entry HL. cbn [er_cache er_head setf] in HL |- *. rewrite lookup_restamp in HL. apply fmap_Some in HL as (e & HL & ->).
  rewrite lookup_drop_touched in HL. destruct (bool_decide_reflect (id ∈ map ev_Channel events)) as [|Hn]; [done|].
  cbn. split; [done|]. apply fresh_app; [by apply HR|]. apply Forall_map, Forall_forall. intros ev Hev E. cbn in E. apply Hn. rewrite <- E.
  by apply (list_elem_of_fmap_2 ev_Channel).
Qed.

Lemma ensure_ok (contract : bytes) (c : read_call) (r r' : EventReader) (s s' : S) (told : list ChannelEvent) (res : outcome reader_err unit) (h : list reader_event) :
  clean_call c r s -> reader_ok contract r h -> ensure c r s = (r', s', told, res) -> reader_ok contract r' (h ++ map HEvent (advance_events c r s)).
Proof.
  intros HC HR H. unfold clean_call in HC. rewrite H in HC. unfold advance_events in *. unfold ensure, ensureCurrent in H.
  destruct (is_due RefreshInterval (rc_now c) r); cbn [negb] in H; [|injection H as <- _ _ _; cbn [map]; by rewrite app_nil_r].
  destruct (rc_view c) as [view|]; [|injection H as <- _ _ _; cbn [map]; by rewrite app_nil_r].
  destruct (run_advance LoadCheckpoint SaveCheckpoint view s) as [[w prog] result] eqn:HA. cbn [fst snd] in *.
  destruct (finish_advance (rc_later c) w.2 prog result r) as [[r1 told1] err] eqn:HF. injection H as <- _ _ <-.
  eapply finish_advance_ok; [|exact HR|exact HF]. destruct HC as [(? & ? & ? & HC)|HC]; [left|by right].
  injection HC as _ _ _ HC. subst err. destruct result as [y|e|]; [by exists y|done|done].
Qed.

Lemma cached_answer_ok (contract : bytes) (r : EventReader) (h : list reader_event) (id : bytes) : reader_ok contract r h ->
  match cached_answer id r with Some occ => fresh h contract id occ | None => er_cache r !! id = None end.
Proof.
  intros HR. unfold cached_answer. destruct (er_cache r !! id) as [entry|] eqn:EL; [|done].
  destruct (HR _ _ EL) as [-> HF]. by rewrite Z.eqb_refl.
Qed.

Lemma read_ok (contract : bytes) (c : read_call) (r r' : EventReader) (s s' : S) (told : list ChannelEvent) (res : outcome reader_err OnChainChannel) (h : list reader_event) :
  rc_contract c = contract -> clean_call c r s -> reader_ok contract r h -> read c r s = (r', s', told, res) ->
  reader_ok contract r' (h ++ call_history c r s) /\ forall occ, res = Ok occ -> fresh (h ++ call_history c r s) contract (rc_id c) occ.
Proof.
  intros HK HC HR H. unfold read, ReadChannel in H. fold (ensure c r s) in H. unfold call_history. rewrite app_assoc.
  destruct (ensure c r s) as [[[r1 s1] told1] res1] eqn:HE. pose proof (ensure_ok contract c r r1 s s1 told1 res1 h HC HR HE) as HR1.
  set (h1 := h ++ map HEvent (advance_events c r s)) in *. pose proof (cached_answer_ok contract r1 h1 (rc_id c) HR1) as HA. rewrite HK in *.
  destruct res1 as [[]|e|]; [|injection H as <- _ _ <-; by rewrite app_nil_r..].
  destruct (cached_answer (rc_id c) r1) as [occ|]; [injection H as <- _ _ <-; rewrite app_nil_r; split; [done|by intros x [= <-]]|].
  destruct (rc_inner c contract (rc_id c)) as [occ|]; [|injection H as <- _ _ <-; by rewrite app_nil_r].
  unfold keep_answer in H. rewrite Z.eqb_refl in H. injection H as <- _ _ <-. split; [|intros x [= <-]; apply fresh_here].
  intros id entry HL. cbn [er_cache er_head setf] in HL |- *. apply lookup_insert_Some in HL as [[<- <-]|[Hne HL]]; [split; [done|apply fresh_here]|].
  destruct (HR1 _ _ HL) as [EV HF]. split; [done|]. apply fresh_app; [done|]. by apply Forall_cons_2; [|apply Forall_nil_2].
Qed.

Lemma reads_ok (contract : bytes) (r r' : EventReader) (s s' : S) (h h' : list reader_event) :
  reads contract r s h r' s' h' -> reader_ok contract r h -> reader_ok contract r' h'.
Proof. induction 1 as [|r s h c r1 s1 told res r' s' h' HK HC H _ IH]; intros HR; [done|]. apply IH. by apply (read_ok contract c r r1 s s1 told res h). Qed.
End Reads.

(** ** Theorems *)

Section Theorems.
Context `{K : Keccak}.
Context {S : Type}.
Context (LoadCheckpoint : S -> outcome follow_err (option FollowerCheckpoint)) (SaveCheckpoint : FollowerCheckpoint -> S -> S * option follow_err).
Context (RefreshInterval : Z).

(** A reader just made. *)
Definition new_reader : EventReader := mkEventReader ∅ 0 0 false false.

(** C23. While no advance fails halfway, a reader asked about one contract never answers from a
    stale cache: over any sequence of calls, one at a time, whatever the sources, the inner reader
    and the clock do, an answer is what the inner reader said the last time it was asked about
    the channel, and no event naming the channel has been handed over since.  Each condition is
    needed: an advance that fails after handing over an event hides it
    ([failed_advance_hides_event], eventreader.go:262), so do two advances whose locked parts run in the other
    order ([racing_advances_hide_event]), and the cache is keyed by the channel id alone, so a
    call about another contract is answered with this one's channel ([cache_ignores_contract]). *)
Theorem answers_are_fresh (contract : bytes) (c : read_call) (s s1 s2 : S) (r1 r2 : EventReader) (h1 : list reader_event) (told : list ChannelEvent) (occ : OnChainChannel)
  (H : reads LoadCheckpoint SaveCheckpoint RefreshInterval contract new_reader s [] r1 s1 h1)
  (HK : rc_contract c = contract) (HC : clean_call LoadCheckpoint SaveCheckpoint RefreshInterval c r1 s1)
  (HR : read LoadCheckpoint SaveCheckpoint RefreshInterval c r1 s1 = (r2, s2, told, Ok occ)) :
  fresh (h1 ++ call_history LoadCheckpoint SaveCheckpoint RefreshInterval c r1 s1) contract (rc_id c) occ.
Proof.
  apply reads_ok in H; [|intros id entry HL; unfold new_reader in HL; cbn [er_cache] in HL; by apply lookup_empty_Some in HL].
  by apply (read_ok LoadCheckpoint SaveCheckpoint RefreshInterval contract c r1 r2 s1 s2 told (Ok occ) h1 HK HC H HR).
Qed.

(** The advances of two calls run one after the other, the first finds an event and the
    second none; when the second gets the lock first it stamps the channel's old
    entry with the head, and a call then is answered with it; the first drops it when it gets the
    lock in its turn. *)
Theorem racing_advances_hide_event (later1 later2 : Z) (evs1 evs2 : list ChannelEvent) (prog1 prog2 : Progress) (r : EventReader)
  (ev : ChannelEvent) (entry : cachedChannel)
  (Hev : ev ∈ evs1) (Hcached : er_cache r !! ev_Channel ev = Some entry) (Hlater : ev_Channel ev ∉ map ev_Channel evs2) :
  exists r2 r21, finish_advance later2 evs2 prog2 (Ok tt) r = (r2, evs2, Ok tt) /\ cached_answer (ev_Channel ev) r2 = Some (cc_occ entry) /\
    finish_advance later1 evs1 prog1 (Ok tt) r2 = (r21, evs1, Ok tt) /\ cached_answer (ev_Channel ev) r21 = None.
Proof.
  eexists _, _. split; [reflexivity|]. unfold cached_answer. cbn [er_cache er_head setf].
  rewrite lookup_restamp, lookup_drop_touched, bool_decide_eq_false_2, Hcached by done. cbn [fmap option_fmap option_map cc_validAt cc_occ].
  rewrite Z.eqb_refl. split; [done|]. split; [reflexivity|]. cbn [er_cache er_head setf].
  rewrite lookup_restamp, lookup_drop_touched, bool_decide_eq_true_2; [done|]. by apply (list_elem_of_fmap_2 ev_Channel).
Qed.

(** While the reader is current, the answer kept for one contract is given for another. *)
Theorem cache_ignores_contract (view : option FollowerView) (inner : bytes -> bytes -> option OnChainChannel) (now later : Z)
  (contract id : bytes) (r : EventReader) (s : S) (occ : OnChainChannel)
  (Hdue : is_due RefreshInterval now r = false) (Herr : er_advanceErr r = false) (Hcached : cached_answer id r = Some occ) :
  ReadChannel LoadCheckpoint SaveCheckpoint RefreshInterval view inner now later contract id r s = (r, s, [], Ok occ).
Proof. unfold ReadChannel, ensureCurrent. rewrite Hdue, Herr. cbn [negb]. cbv beta iota zeta. by rewrite Hcached. Qed.

(** An advance that fails halfway loses the events it has handed over: they
    are recorded as processed by the follower's checkpoint, but the reader keeps
    neither them nor the invalidation they call for, [OnEvent] is not told, and
    the next advance that succeeds stamps the channel's old entry as proven
    unchanged, so the reader answers with it without asking the chain. *)
Theorem failed_advance_hides_event (view1 view2 : FollowerView) (inner : bytes -> bytes -> option OnChainChannel) (now1 later1 now2 later2 : Z) (contract : bytes) (r : EventReader)
  (s s1 s2 : S) (evs1 evs2 : list ChannelEvent) (prog1 prog2 : Progress) (e : follow_err) (ev : ChannelEvent) (entry : cachedChannel)
  (Hdue1 : is_due RefreshInterval now1 r = true) (Hdue2 : refreshInterval RefreshInterval <= time_Sub now2 later1)
  (H1 : run_advance LoadCheckpoint SaveCheckpoint view1 s = ((s1, evs1), prog1, Err e)) (H2 : run_advance LoadCheckpoint SaveCheckpoint view2 s1 = ((s2, evs2), prog2, Ok tt))
  (Hev : ev ∈ evs1) (Hcached : er_cache r !! ev_Channel ev = Some entry) (Hlater : ev_Channel ev ∉ map ev_Channel evs2) :
  exists r1 r2, ensureCurrent LoadCheckpoint SaveCheckpoint RefreshInterval (Some view1) now1 later1 r s = (r1, s1, [], Err ErrFollowerNotReady) /\
    ReadChannel LoadCheckpoint SaveCheckpoint RefreshInterval (Some view2) inner now2 later2 contract (ev_Channel ev) r1 s1 = (r2, s2, evs2, Ok (cc_occ entry)).
Proof.
  eexists _, _. split; [unfold ensureCurrent; rewrite Hdue1, H1; reflexivity|]. unfold ReadChannel, ensureCurrent.
  assert (forall x, er_started x = true -> er_lastAdvance x = later1 -> is_due RefreshInterval now2 x = true) as HD.
  { intros x Hs Hl. unfold is_due. rewrite Hs, Hl. cbn [negb orb]. by apply Z.leb_le. }
  rewrite HD by reflexivity. cbn [negb]. rewrite H2. unfold finish_advance, cached_answer. cbn [er_cache er_head setf fst snd].
  rewrite lookup_restamp, lookup_drop_touched, bool_decide_eq_false_2, Hcached by done. cbn [fmap option_fmap option_map cc_validAt cc_occ].
  by rewrite Z.eqb_refl.
Qed.

(** A CloseStarted log is decoded as what the contract emitted: the channel,
    the nonce, and the end of the challenge period, or keccak256 collides on the
    names of two events; an end beyond 2^63 seconds reads as negative. *)
Theorem close_started_decoded (id by_ : bytes) (nonce ends block : Z) (addr hash : bytes) (Hn : u_range 64 nonce) (He : u_range 64 ends) :
  DecodeChannelEvent (mkLog addr [Keccak256 (text_bytes "CloseStarted(bytes32,address,uint64,uint256)"); id; by_] (be_encode 32 nonce ++ be_encode 32 ends)) block hash =
    Some (mkChannelEvent EventCloseStarted id block hash nonce (wrap_s 64 ends)) \/
  exists sig kind, (sig, kind) ∈ event_signatures /\ keccak_collide (text_bytes sig) (text_bytes "CloseStarted(bytes32,address,uint64,uint256)").
Proof.
  assert (word64 (be_encode 32 nonce ++ be_encode 32 ends) 24 = nonce /\ word64 (be_encode 32 nonce ++ be_encode 32 ends) 56 = ends) as [EN EE].
  { assert (forall z, u_range 64 z -> be_encode 32 z = zeros 24 ++ be_encode 8 z) as HZ.
    { intros z Hz. apply be_decode_inj; [apply be_encode_ok|apply Forall_app_2; [apply zeros_ok|apply be_encode_ok]|rewrite length_app, !length_be_encode; done|].
      unfold u_range in Hz. rewrite be_decode_app, be_decode_zeros, !be_decode_encode_small; [lia|exact Hz|]. change (256 ^ Z.of_nat 32) with (2 ^ 256). lia. }
    assert (forall z k, u_range 64 z -> be_decode (take 8 (be_encode 8 z ++ k)) = z) as HT.
    { intros z k Hz. rewrite take_app_length' by (by rewrite length_be_encode). by apply be_decode_encode_small. }
    unfold word64. rewrite !HZ, <- !app_assoc by done. split.
    - rewrite drop_app_length' by done. by apply HT.
    - assert (forall (a b c d : bytes), length a = 24%nat -> length b = 8%nat -> length c = 24%nat -> drop 56 (a ++ b ++ c ++ d) = d) as HD.
      { intros a b c d La Lb Lc. rewrite !app_assoc. apply drop_app_length'. rewrite !length_app. lia. }
      rewrite HD by (try reflexivity; apply length_be_encode). rewrite <- (app_nil_r (be_encode 8 ends)). by apply HT. }
  unfold DecodeChannelEvent. cbn [lg_Topics lg_Data].
  assert (length (be_encode 32 nonce ++ be_encode 32 ends) = 64%nat) as EL by (by rewrite length_app, !length_be_encode).
  rewrite EN, EE, EL.
  unfold event_signatures at 1. cbn [event_kind].
  destruct (bool_decide_reflect (Keccak256 (text_bytes "ChannelOpened(bytes32,address,address,uint256)") = Keccak256 (text_bytes "CloseStarted(bytes32,address,uint64,uint256)"))) as [E|_];
    [right; eexists _, _; split; [apply list_elem_of_here|split; [by vm_compute|exact E]]|].
  destruct (bool_decide_reflect (Keccak256 (text_bytes "Deposited(bytes32,address,uint256)") = Keccak256 (text_bytes "CloseStarted(bytes32,address,uint64,uint256)"))) as [E|_];
    [right; eexists _, _; split; [do 1 apply list_elem_of_further; apply list_elem_of_here|split; [by vm_compute|exact E]]|].
  destruct (bool_decide_reflect (Keccak256 (text_bytes "CheckpointApplied(bytes32,uint64,uint256,uint256)") = Keccak256 (text_bytes "CloseStarted(bytes32,address,uint64,uint256)"))) as [E|_];
    [right; eexists _, _; split; [do 2 apply list_elem_of_further; apply list_elem_of_here|split; [by vm_compute|exact E]]|].
  destruct (bool_decide_reflect (Keccak256 (text_bytes "ClosedCooperatively(bytes32,uint256,uint256)") = Keccak256 (text_bytes "CloseStarted(bytes32,address,uint64,uint256)"))) as [E|_];
    [right; eexists _, _; split; [do 3 apply list_elem_of_further; apply list_elem_of_here|split; [by vm_compute|exact E]]|].
  left. rewrite bool_decide_eq_true_2 by done. reflexivity.
Qed.
End Theorems.

(** ** Witnesses *)

Definition toy_channel : bytes := be_encode 32 424242.
Definition toy_close_log : Log :=
  mkLog (be_encode 20 1) [Keccak256 (text_bytes "CloseStarted(bytes32,address,uint64,uint256)"); toy_channel; be_encode 32 7] (be_encode 32 5 ++ be_encode 32 1700000000).
Definition toy_close_receipts : list Receipt := [mkReceipt 0 0 1 [] 21000 (BloomFromLogs [toy_close_log]) [toy_close_log]].
Definition toy_close_root : bytes := match ReceiptsRoot toy_close_receipts with Ok r => r | _ => [] end.
Definition toy_close_header : ExecutionHeader := toy_header (be_encode 32 77) 11 mainnetPragueTime toy_close_root (unionBloom toy_close_receipts).
Definition toy_close_hash : bytes := match EncodeExecutionHeader toy_close_header ForkPrague with Ok e => Keccak256 e | _ => [] end.
Definition toy_next_head : AuthenticatedBlock := mkBlock 12 (be_encode 32 99) toy_close_hash toy_receipts_root (unionBloom toy_receipts) (mainnetPragueTime + 12) true.
(** Block 11 starts a close; the receipts of block 12 are there or not. *)
Definition toy_view (available : bool) : FollowerView :=
  mkFollowerView (toy_follower 0) (fun from count => if (from =? 11) && (count =? 1) then Ok [toy_close_header] else Err ErrSource)
    (fun n => if n =? 11 then Ok toy_close_receipts else if available then Ok toy_receipts else Err ErrSource) (Ok toy_next_head).
Definition toy_store_load (s : option FollowerCheckpoint) : outcome follow_err (option FollowerCheckpoint) := Ok s.
Definition toy_store_save (cp : FollowerCheckpoint) (_ : option FollowerCheckpoint) : option FollowerCheckpoint * option follow_err := (Some cp, None).
Definition toy_event : ChannelEvent := mkChannelEvent EventCloseStarted toy_channel 11 toy_close_hash 5 1700000000.
Definition toy_after_11 : option FollowerCheckpoint := Some (mkFollowerCheckpoint 11 toy_close_hash).
(** The first advance hands over the event and fails; the second finds nothing. *)
Lemma toy_first_run :
  run_advance toy_store_load toy_store_save (toy_view false) (Some toy_cp) = ((toy_after_11, [toy_event]), mkProgress 10 12 2 0 1 1, Err ErrSource).
Proof. vm_compute. reflexivity. Qed.
Definition toy_after_12 : option FollowerCheckpoint := Some (mkFollowerCheckpoint 12 (be_encode 32 99)).
Lemma toy_second_run :
  run_advance toy_store_load toy_store_save (toy_view true) toy_after_11 = ((toy_after_12, []), mkProgress 11 12 1 0 1 1, Ok tt).
Proof. vm_compute. reflexivity. Qed.
Definition toy_occ : OnChainChannel := mkOnChain toy_channel (be_encode 20 1) (be_encode 20 2) (Some 5) (Some 5) 1 0 0 (Some 5) (Some 5) (Some 0) true.
Definition toy_reader : EventReader := mkEventReader {[toy_channel := mkCachedChannel toy_occ 10]} 10 0 false false.

Lemma failed_advance_hides_event_witness : exists r1 r2,
  ensureCurrent toy_store_load toy_store_save 0 (Some (toy_view false)) 0 0 toy_reader (Some toy_cp) = (r1, toy_after_11, [], Err ErrFollowerNotReady) /\
  ReadChannel toy_store_load toy_store_save 0 (Some (toy_view true)) (fun _ _ => None) (60 * Second) (60 * Second) (be_encode 20 1) toy_channel r1 toy_after_11 =
    (r2, toy_after_12, [], Ok toy_occ).
Proof.
  refine (failed_advance_hides_event toy_store_load toy_store_save 0 (toy_view false) (toy_view true) (fun _ _ => None) 0 0 (60 * Second) (60 * Second) (be_encode 20 1) toy_reader
    (Some toy_cp) toy_after_11 toy_after_12 [toy_event] [] (mkProgress 10 12 2 0 1 1) (mkProgress 11 12 1 0 1 1) ErrSource toy_event (mkCachedChannel toy_occ 10)
    eq_refl _ toy_first_run toy_second_run (list_elem_of_here _ _) _ _).
  - vm_compute. discriminate.
  - reflexivity.
  - apply not_elem_of_nil.
Defined.

(** A first call, an answer of the inner reader; a second, too soon for another advance, of an
    inner reader that no longer answers. *)
Definition toy_call (inner : option OnChainChannel) (now : Z) : read_call :=
  mkReadCall (Some (toy_view true)) (fun _ _ => inner) now now (be_encode 20 1) toy_channel.
Definition toy_first : read_call := toy_call (Some toy_occ) 0.
Definition toy_second : read_call := toy_call None 1.
Definition toy_read (c : read_call) (r : EventReader) (s : option FollowerCheckpoint) := read toy_store_load toy_store_save 0 c r s.
Definition toy_read_once : EventReader := (toy_read toy_first new_reader (Some toy_cp)).1.1.1.
Definition toy_history : list reader_event := [HEvent toy_event; HInner (be_encode 20 1) toy_channel toy_occ].
Lemma toy_first_history : call_history toy_store_load toy_store_save 0 toy_first new_reader (Some toy_cp) = toy_history.
Proof. vm_compute. reflexivity. Qed.
Lemma toy_reads_once : reads toy_store_load toy_store_save 0 (be_encode 20 1) new_reader (Some toy_cp) [] toy_read_once toy_after_12 toy_history.
Proof.
  eapply (reads_step _ _ _ _ _ _ _ toy_first _ _ [toy_event] (Ok toy_occ)); [reflexivity| | |rewrite toy_first_history; apply reads_nil].
  - left. eexists _, _, _. vm_compute. reflexivity.
  - vm_compute. reflexivity.
Qed.
(** The second answer is the first one, out of the cache; nothing was asked. *)
Lemma answers_are_fresh_witness :
  fresh (toy_history ++ call_history toy_store_load toy_store_save 0 toy_second toy_read_once toy_after_12) (be_encode 20 1) toy_channel toy_occ /\
  call_history toy_store_load toy_store_save 0 toy_second toy_read_once toy_after_12 = [].
Proof.
  split; [|vm_compute; reflexivity].
  refine (answers_are_fresh toy_store_load toy_store_save 0 (be_encode 20 1) toy_second (Some toy_cp) toy_after_12 toy_after_12 toy_read_once toy_read_once
    toy_history [] toy_occ toy_reads_once eq_refl _ _).
  - left. eexists _, _, _. vm_compute. reflexivity.
  - vm_compute. reflexivity.
Defined.

Lemma toy_late_run : run_advance toy_store_load toy_store_save (toy_view true) (Some toy_cp) = ((toy_after_12, [toy_event]), mkProgress 10 12 2 0 2 2, Ok tt) /\
  run_advance toy_store_load toy_store_save (toy_view true) toy_after_12 = ((toy_after_12, []), mkProgress 12 12 0 0 0 0, Ok tt).
Proof. split; vm_compute; reflexivity. Qed.
Lemma racing_advances_hide_event_witness : exists r2, finish_advance 1 [] (mkProgress 12 12 0 0 0 0) (Ok tt) toy_reader = (r2, [], Ok tt) /\
  cached_answer toy_channel r2 = Some toy_occ.
Proof.
  destruct (racing_advances_hide_event 1 1 [toy_event] [] (mkProgress 10 12 2 0 2 2) (mkProgress 12 12 0 0 0 0) toy_reader toy_event (mkCachedChannel toy_occ 10)
    (list_elem_of_here _ _) eq_refl (not_elem_of_nil _)) as (r2 & _ & H1 & H2 & _). by exists r2.
Defined.
Lemma cache_ignores_contract_witness :
  ReadChannel toy_store_load toy_store_save 0 (Some (toy_view true)) (fun _ _ => None) 1 1 (be_encode 20 2) toy_channel toy_read_once toy_after_12 =
    (toy_read_once, toy_after_12, [], Ok toy_occ).
Proof. apply cache_ignores_contract; vm_compute; reflexivity. Defined.

Lemma close_started_decoded_witness :
  DecodeChannelEvent toy_close_log 11 toy_close_hash = Some (mkChannelEvent EventCloseStarted toy_channel 11 toy_close_hash 5 (wrap_s 64 1700000000)) \/
  exists sig kind, (sig, kind) ∈ event_signatures /\ keccak_collide (text_bytes sig) (text_bytes "CloseStarted(bytes32,address,uint64,uint256)").
Proof. apply (close_started_decoded toy_channel (be_encode 32 7) 5 1700000000 11 (be_encode 20 1) toy_close_hash); unfold u_range; lia. Defined.
