(* ===== verification/AxonCells.v ===== *)
(** * AXON cells ([internal/axon/link/cell.go], [internal/axon/circuit/relaycell.go])

    The two fixed-size frames every AXON layer speaks: the 1024-byte link cell,
    and the relay cell inside the fully peeled onion.  Commands and flags are
    the bytes they are on the wire. *)
From S2P Require Import Prelude.
From S2P Require Import GoBytes.

(** [params.go] *)
Definition CellSize : nat := 1024.
Definition CellHeaderSize : nat := 16.
Definition MaxPayload : nat := CellSize - CellHeaderSize.

(** [b[off:off+n]] within bounds. *)
Definition field (off n : nat) (b : bytes) : bytes := take n (drop off b).
Definition byte_at (off : nat) (b : bytes) : Z := be_decode (field off 1 b).

Lemma field_app (pre x post : bytes) (off n : nat) :
  length pre = off -> length x = n -> field off n (pre ++ x ++ post) = x.
Proof. intros <- <-. unfold field. by rewrite drop_app_length, take_app_length. Qed.

Lemma be_decode_byte (x : Z) : be_decode [x] = x.
Proof. unfold be_decode. cbn. lia. Qed.

Lemma field_split (b : bytes) (off n : nat) :
  drop off b = field off n b ++ drop (off + n) b.
Proof. unfold field. rewrite <- drop_drop. symmetry. apply take_drop. Qed.

Lemma field_length (b : bytes) (off n : nat) : (off + n <= length b)%nat -> length (field off n b) = n.
Proof. intros. unfold field. rewrite length_take, length_drop. lia. Qed.

Lemma field_bytes_ok (b : bytes) (off n : nat) : bytes_ok b -> bytes_ok (field off n b).
Proof. intros. by apply Forall_take, Forall_drop. Qed.

(** A field read as a big-endian number writes back as itself. *)
Lemma field_be (b : bytes) (off n : nat) :
  bytes_ok b -> (off + n <= length b)%nat -> be_encode n (be_decode (field off n b)) = field off n b.
Proof.
  intros Hb Hl. rewrite <- (field_length b off n Hl) at 1. apply be_encode_decode. by apply field_bytes_ok.
Qed.

Lemma field_range (b : bytes) (off n : nat) :
  bytes_ok b -> (off + n <= length b)%nat -> 0 <= be_decode (field off n b) < 256 ^ Z.of_nat n.
Proof.
  intros Hb Hl. pose proof (be_decode_range _ (field_bytes_ok b off n Hb)) as H. by rewrite field_length in H.
Qed.

Lemma all_zero (b : bytes) : forallb (fun x => x =? 0) b = true -> b = zeros (length b).
Proof.
  induction b as [|x b IH]; cbn; [done|]. intros [->%Z.eqb_eq H]%andb_true_iff. f_equal. by apply IH.
Qed.

Lemma zeros_all_zero (n : nat) : forallb (fun x => x =? 0) (zeros n) = true.
Proof. by induction n. Qed.

(** ** The link cell *)
Module Link.

Definition CmdPadding : Z := 0.
Definition CmdRelay : Z := 3.
Definition CmdRelayBuild : Z := 4.

(** The keys of [commandNames]. *)
Definition Valid (c : Z) : bool := (0 <=? c) && (c <=? 8).
Definition Onioned (c : Z) : bool := (c =? CmdRelay) || (c =? CmdRelayBuild).
Definition flagsKnown : Z := 3.

Record Cell : Type := mkCell {
  c_Circuit : Z;
  c_Command : Z;
  c_Flags : Z;
  c_Payload : bytes
}.

Inductive cell_err : Type :=
| ErrPayloadTooLarge | ErrShortBuffer | ErrBadLength | ErrBadCommand | ErrBadFlags
| ErrReservedNonZero | ErrPaddingNonZero | ErrEOF | ErrUnexpectedEOF.

(** What [Encode] leaves in [dst]: the cell, then whatever was behind it. *)
Definition Encode (c : Cell) (dst : bytes) : outcome cell_err bytes :=
  fail? (length dst <? CellSize)%nat with ErrShortBuffer ;;
  fail? (MaxPayload <? length (c_Payload c))%nat with ErrPayloadTooLarge ;;
  fail? negb (Valid (c_Command c)) with ErrBadCommand ;;
  fail? negb (Z.ldiff (c_Flags c) flagsKnown =? 0) with ErrBadFlags ;;
  let cell :=
    be_encode 8 (c_Circuit c) ++ [c_Command c] ++ [c_Flags c] ++
    be_encode 2 (if Onioned (c_Command c) then 0 else Z.of_nat (length (c_Payload c))) ++
    zeros 4 ++ c_Payload c ++ zeros (MaxPayload - length (c_Payload c)) in
  Ok (cell ++ drop CellSize dst).

Definition Decode (src : bytes) : outcome cell_err Cell :=
  fail? (length src <? CellSize)%nat with ErrShortBuffer ;;
  let cell := take CellSize src in
  fail? negb (forallb (fun x => x =? 0) (field 12 4 cell)) with ErrReservedNonZero ;;
  let cmd := byte_at 8 cell in
  fail? negb (Valid cmd) with ErrBadCommand ;;
  let flags := byte_at 9 cell in
  fail? negb (Z.ldiff flags flagsKnown =? 0) with ErrBadFlags ;;
  let length := be_decode (field 10 2 cell) in
  fail? Z.of_nat MaxPayload <? length with ErrBadLength ;;
  fail? Onioned cmd && negb (length =? 0) with ErrBadLength ;;
  let n := if Onioned cmd then MaxPayload else Z.to_nat length in
  fail? negb (Onioned cmd) && negb (forallb (fun x => x =? 0) (drop (16 + n) cell)) with ErrPaddingNonZero ;;
  Ok (mkCell (be_decode (field 0 8 cell)) cmd flags (field 16 n cell)).

Definition WriteCell (c : Cell) : outcome cell_err bytes := Encode c (zeros CellSize).
(** The cell and the rest of the stream. *)
Definition ReadCell (stream : bytes) : outcome cell_err (Cell * bytes) :=
  fail? (length stream =? 0)%nat with ErrEOF ;;
  fail? (length stream <? CellSize)%nat with ErrUnexpectedEOF ;;
  let? c := Decode (take CellSize stream) in
  Ok (c, drop CellSize stream).

Definition PaddingCell (circuit : Z) : Cell := mkCell circuit CmdPadding 0 [].

(** The Go types of the fields. *)
Definition cell_typed (c : Cell) : Prop :=
  u_range 64 (c_Circuit c) /\ byte_ok (c_Flags c) /\ bytes_ok (c_Payload c).

(** What the receiver sees: an onioned body arrives whole. *)
Definition received (c : Cell) : Cell :=
  if Onioned (c_Command c)
  then mkCell (c_Circuit c) (c_Command c) (c_Flags c) (c_Payload c ++ zeros (MaxPayload - length (c_Payload c)))
  else c.

Lemma Valid_range (c : Z) : Valid c = true -> 0 <= c <= 8.
Proof. unfold Valid. intros H. zbool. lia. Qed.

Definition layout (c : Cell) : bytes :=
  be_encode 8 (c_Circuit c) ++ [c_Command c] ++ [c_Flags c] ++
  be_encode 2 (if Onioned (c_Command c) then 0 else Z.of_nat (length (c_Payload c))) ++
  zeros 4 ++ c_Payload c ++ zeros (MaxPayload - length (c_Payload c)).

Lemma Encode_cell_ok (c : Cell) (dst d : bytes) :
  Encode c dst = Ok d <->
  (CellSize <= length dst)%nat /\ (length (c_Payload c) <= MaxPayload)%nat /\ Valid (c_Command c) = true /\
  Z.ldiff (c_Flags c) flagsKnown = 0 /\ d = layout c ++ drop CellSize dst.
Proof.
  unfold Encode. fold (layout c). rewrite !guard_err_ok, !negb_false_iff, !Nat.ltb_ge, Z.eqb_eq.
  split; [intros (? & ? & ? & ? & [= <-])|intros (? & ? & ? & ? & ->)]; auto.
Qed.

Lemma length_layout (c : Cell) : (length (c_Payload c) <= MaxPayload)%nat -> length (layout c) = CellSize.
Proof.
  intros H. unfold layout. rewrite !length_app, !length_be_encode. unfold zeros. rewrite !length_replicate. cbn [length].
  unfold MaxPayload, CellSize, CellHeaderSize in *. lia.
Qed.

(** The fields of a laid-out cell. *)
Lemma layout_fields (c : Cell) : (length (c_Payload c) <= MaxPayload)%nat -> cell_typed c ->
  field 0 8 (layout c) = be_encode 8 (c_Circuit c) /\ field 8 1 (layout c) = [c_Command c] /\
  field 9 1 (layout c) = [c_Flags c] /\
  field 10 2 (layout c) = be_encode 2 (if Onioned (c_Command c) then 0 else Z.of_nat (length (c_Payload c))) /\
  field 12 4 (layout c) = zeros 4 /\
  drop 16 (layout c) = c_Payload c ++ zeros (MaxPayload - length (c_Payload c)).
Proof.
  intros Hp Ht. unfold layout. set (L := be_encode 2 _). set (P := c_Payload c ++ _).
  assert (length L = 2%nat) by apply length_be_encode. pose proof (length_be_encode 8 (c_Circuit c)).
  set (C := be_encode 8 _) in *. split_and!.
  - exact (field_app [] C _ 0 8 eq_refl H0).
  - exact (field_app C [c_Command c] _ 8 1 H0 eq_refl).
  - pose proof (field_app (C ++ [c_Command c]) [c_Flags c] (L ++ zeros 4 ++ P) 9 1) as E. rewrite <- !app_assoc in E.
    apply E; [rewrite length_app, H0; done|done].
  - pose proof (field_app (C ++ [c_Command c] ++ [c_Flags c]) L (zeros 4 ++ P) 10 2) as E. rewrite <- !app_assoc in E.
    apply E; [rewrite length_app, H0; done|done].
  - pose proof (field_app (C ++ [c_Command c] ++ [c_Flags c] ++ L) (zeros 4) P 12 4) as E. rewrite <- !app_assoc in E.
    apply E; [rewrite !length_app, H0, H; done|done].
  - replace 16%nat with (length (C ++ [c_Command c] ++ [c_Flags c] ++ L ++ zeros 4))
      by (rewrite !length_app, H0, H; done).
    replace (C ++ [c_Command c] ++ [c_Flags c] ++ L ++ zeros 4 ++ P) with ((C ++ [c_Command c] ++ [c_Flags c] ++ L ++ zeros 4) ++ P)
      by (by rewrite <- !app_assoc). apply drop_app_length.
Qed.

Lemma Decode_ok (src : bytes) (c : Cell) :
  Decode src = Ok c <->
  let cell := take CellSize src in
  let cmd := byte_at 8 cell in
  let len := be_decode (field 10 2 cell) in
  (CellSize <= length src)%nat /\ field 12 4 cell = zeros 4 /\ Valid cmd = true /\
  Z.ldiff (byte_at 9 cell) flagsKnown = 0 /\ len <= Z.of_nat MaxPayload /\
  (if Onioned cmd then len = 0
   else drop (16 + Z.to_nat len) cell = zeros (CellSize - (16 + Z.to_nat len))) /\
  c = mkCell (be_decode (field 0 8 cell)) cmd (byte_at 9 cell)
        (field 16 (if Onioned cmd then MaxPayload else Z.to_nat len) cell).
Proof.
  unfold Decode. rewrite !guard_err_ok, Nat.ltb_ge, !negb_false_iff, Z.ltb_ge, Z.eqb_eq. cbv zeta.
  set (cell := take CellSize src).
  split.
  - intros (HL & E12%all_zero & HV & HF & Hn & EO & EP & [= <-]).
    assert (length cell = CellSize) as Hc by (unfold cell; rewrite length_take; lia).
    rewrite field_length in E12 by (rewrite Hc; unfold CellSize; lia).
    split_and!; auto. destruct (Onioned _); cbn [negb andb] in *; [by zbool|].
    apply negb_false_iff, all_zero in EP. by rewrite length_drop, Hc in EP.
  - intros (HL & E12 & HV & HF & Hn & EO & ->). rewrite E12. split_and!; auto.
    + destruct (Onioned _); cbn [andb]; [by rewrite EO|done].
    + destruct (Onioned _); cbn [negb andb]; [done|]. by rewrite EO, zeros_all_zero.
Qed.

(** What [WriteCell] put on the wire, [Decode] reads as [received c], whatever follows. *)
Lemma Decode_layout (c : Cell) (rest : bytes) :
  (length (c_Payload c) <= MaxPayload)%nat -> Valid (c_Command c) = true ->
  Z.ldiff (c_Flags c) flagsKnown = 0 -> cell_typed c -> Decode (layout c ++ rest) = Ok (received c).
Proof.
  intros Hp HV HF Ht. pose proof (length_layout c Hp) as HL. apply Decode_ok. cbv zeta.
  assert (take CellSize (layout c ++ rest) = layout c) as E by (rewrite <- HL; apply take_app_length).
  rewrite E, length_app, HL. clear E.
  destruct (layout_fields c Hp Ht) as (F0 & F8 & F9 & F10 & F12 & F16).
  unfold byte_at. rewrite F0, F8, F9, F10, F12, !be_decode_byte.
  assert (256 ^ Z.of_nat 2 = 65536) as E2 by done. unfold MaxPayload, CellSize, CellHeaderSize in *.
  rewrite be_decode_encode_small by (destruct (Onioned _); lia).
  rewrite be_decode_encode_small by apply Ht.
  split; [lia|]. split; [done|]. split; [done|]. split; [done|]. split; [destruct (Onioned _); lia|].
  destruct (Onioned (c_Command c)) eqn:EO; (split; [try done|]).
  - destruct c; unfold received; cbn [c_Payload c_Circuit c_Command c_Flags] in *. rewrite EO. f_equal. unfold field. rewrite F16, take_ge; [done|].
    rewrite length_app. unfold zeros. rewrite length_replicate. lia.
  - rewrite Nat2Z.id, <- drop_drop, F16, drop_app_length. unfold zeros. f_equal; lia.
  - destruct c; unfold received; cbn [c_Payload c_Circuit c_Command c_Flags] in *. rewrite EO. f_equal. unfold field. by rewrite F16, Nat2Z.id, take_app_length.
Qed.

(** Accepted input is canonical: encoding the decoded cell reproduces the bytes. *)
Lemma layout_Decode (src : bytes) (c : Cell) :
  bytes_ok src -> Decode src = Ok c -> layout c = take CellSize src.
Proof.
  intros Hb (HL & E12 & HV & HF & Hn & EO & ->)%Decode_ok. set (cell := take CellSize src) in *.
  assert (bytes_ok cell) as Hc by (by apply Forall_take).
  assert (length cell = CellSize) as Hl by (unfold cell; rewrite length_take; lia).
  assert (forall off n, off + n <= CellSize -> length (field off n cell) = n)%nat as HF'
    by (intros; apply field_length; rewrite Hl; done).
  unfold layout; cbn [c_Circuit c_Command c_Flags c_Payload].
  assert (forall off, off < CellSize -> [byte_at off cell] = field off 1 cell)%nat as H1.
  { intros off Ho. unfold byte_at. rewrite <- (field_be cell off 1 Hc) at 2 by lia. cbn [be_encode le_encode].
    unfold be_encode; cbn. rewrite Z.mod_small; [done|]. apply (field_range cell off 1); [done|lia]. }
  rewrite !H1 by (unfold CellSize; lia). rewrite (field_be cell 0 8) by (done || (rewrite Hl; unfold CellSize; lia)).
  pose proof (field_range cell 10 2 Hc ltac:(rewrite Hl; unfold CellSize; lia)) as Hr.
  assert (be_encode 2 (if Onioned (byte_at 8 cell) then 0 else Z.of_nat (length (field 16
            (if Onioned (byte_at 8 cell) then MaxPayload else Z.to_nat (be_decode (field 10 2 cell))) cell)))
          = field 10 2 cell) as ->.
  { rewrite <- (field_be cell 10 2 Hc) at 2 by (rewrite Hl; unfold CellSize; lia). f_equal.
    destruct (Onioned _); [done|]. rewrite HF' by (unfold MaxPayload, CellSize, CellHeaderSize in *; lia). lia. }
  rewrite <- E12.
  assert (forall k, k = 16%nat -> field 16 (if Onioned (byte_at 8 cell) then MaxPayload else Z.to_nat (be_decode (field 10 2 cell))) cell ++
    zeros (MaxPayload - length (field 16 (if Onioned (byte_at 8 cell) then MaxPayload else Z.to_nat (be_decode (field 10 2 cell))) cell))
    = drop k cell) as HB.
  { intros k ->. destruct (Onioned _).
    - rewrite HF' by (unfold MaxPayload, CellSize, CellHeaderSize; lia). rewrite Nat.sub_diag. change (zeros 0) with (@nil Z).
      rewrite app_nil_r. unfold field. apply take_ge. rewrite length_drop, Hl. done.
    - rewrite HF' by (unfold MaxPayload, CellSize, CellHeaderSize in *; lia).
      rewrite (field_split cell 16 (Z.to_nat (be_decode (field 10 2 cell)))), EO. done. }
  rewrite (HB 16%nat eq_refl).
  change 16%nat with (12 + 4)%nat at 1. rewrite <- (field_split cell 12 4).
  change 12%nat with (10 + 2)%nat at 1. rewrite <- (field_split cell 10 2).
  change 10%nat with (9 + 1)%nat at 1. rewrite <- (field_split cell 9 1).
  change 9%nat with (8 + 1)%nat at 1. rewrite <- (field_split cell 8 1).
  exact (eq_sym (field_split cell 0 8)).
Qed.

(** A cell [Encode] accepts arrives as it was sent: [Decode] of the buffer
    gives the same circuit, command, flags and payload (for an onioned command
    the payload padded with zeros to the full body, its length being hidden),
    whatever was in the buffer before and whatever follows the cell.  Exactly
    [CellSize] bytes are overwritten, and they depend on the cell alone, so no
    byte of an earlier cell survives in the padding. *)
Theorem cell_wire_roundtrip (c : Cell) (dst d : bytes) :
  cell_typed c -> Encode c dst = Ok d ->
  Decode d = Ok (received c) /\ length d = length dst /\ drop CellSize d = drop CellSize dst /\
  (forall dst' d', Encode c dst' = Ok d' -> take CellSize d' = take CellSize d).
Proof.
  intros Ht (HL & Hp & HV & HF & ->)%Encode_cell_ok. pose proof (length_layout c Hp) as Hl.
  assert (forall r, take CellSize (layout c ++ r) = layout c) as ET by (intros; rewrite <- Hl; apply take_app_length).
  split_and!.
  - by apply Decode_layout.
  - rewrite length_app, length_drop, Hl. lia.
  - rewrite <- Hl at 1. apply drop_app_length.
  - intros dst' d' (_ & _ & _ & _ & ->)%Encode_cell_ok. by rewrite !ET.
Qed.

(** A relay cannot be made to carry bytes it did not understand: whatever
    [Decode] accepts, re-encoding the decoded cell writes exactly the
    [CellSize] bytes that were read.  Reserved bytes, unknown flags and
    padding leave no second encoding of the same cell. *)
Theorem cell_encoding_canonical (src dst : bytes) (c : Cell) :
  bytes_ok src -> (CellSize <= length dst)%nat -> Decode src = Ok c ->
  Encode c dst = Ok (take CellSize src ++ drop CellSize dst).
Proof.
  intros Hb HL HD. pose proof (layout_Decode src c Hb HD) as E. apply Decode_ok in HD. cbv zeta in HD.
  destruct HD as (HS & E12 & HV & HF & Hn & EO & ->).
  apply Encode_cell_ok. rewrite E. split_and!; auto. cbn [c_Payload]. unfold field at 1. rewrite length_take.
  destruct (Onioned _); lia.
Qed.

(** Every relay on the path reads the header; for an onioned cell it does not
    depend on how long the payload is. *)
Lemma onioned_header_hides_length (ci cmd fl : Z) (p q : bytes) (d d' : bytes) :
  Onioned cmd = true -> Encode (mkCell ci cmd fl p) d = Ok d' ->
  forall e', Encode (mkCell ci cmd fl q) d = Ok e' -> take CellHeaderSize e' = take CellHeaderSize d'.
Proof.
  intros HO (_ & _ & _ & _ & ->)%Encode_cell_ok e' (_ & _ & _ & _ & ->)%Encode_cell_ok.
  unfold layout; cbn [c_Circuit c_Command c_Flags c_Payload]. rewrite HO.
  rewrite !(app_assoc (be_encode 8 ci)), !(app_assoc _ [fl]), !(app_assoc _ (be_encode 2 0)), !(app_assoc _ (zeros 4)).
  assert (length ((((be_encode 8 ci ++ [cmd]) ++ [fl]) ++ be_encode 2 0) ++ zeros 4) = CellHeaderSize) as <-
    by (rewrite !length_app, !length_be_encode; done).
  by rewrite <- !(app_assoc ((((be_encode 8 ci ++ [cmd]) ++ [fl]) ++ be_encode 2 0) ++ zeros 4)), !take_app_length.
Qed.

Lemma cell_wire_roundtrip_witness :
  let c := mkCell 77 1 2 [10; 20; 30] in
  exists d, Encode c (replicate 1030 255) = Ok d /\ Decode d = Ok c /\ length d = 1030%nat.
Proof.
  set (c := mkCell 77 1 2 [10; 20; 30]). eexists. split; [vm_compute; reflexivity|].
  match goal with |- Decode ?d = _ /\ _ =>
    destruct (cell_wire_roundtrip c (replicate 1030 255) d) as (H & HL & _) end.
  - repeat split; try (cbn; lia). repeat constructor; cbn; lia.
  - vm_compute. reflexivity.
  - split; [exact H|exact HL].
Defined.

Lemma cell_encoding_canonical_witness :
  let src := zeros 7 ++ [5; 3; 1; 0; 0; 0; 0; 0; 0] ++ replicate 1008 200 in
  let c := mkCell 5 3 1 (replicate 1008 200) in
  Decode src = Ok c /\ Encode c (replicate 1024 9) = Ok src.
Proof.
  cbv zeta. assert (Decode (zeros 7 ++ [5; 3; 1; 0; 0; 0; 0; 0; 0] ++ replicate 1008 200)
                    = Ok (mkCell 5 3 1 (replicate 1008 200))) as H by (vm_compute; reflexivity).
  split; [exact H|].
  refine (eq_trans (cell_encoding_canonical _ (replicate 1024 9) _ _ _ H) _).
  - apply Forall_app; split; [repeat (constructor; [by compute|]); constructor|].
    apply Forall_app; split; [repeat (constructor; [by compute|]); constructor|].
    by apply Forall_replicate.
  - by rewrite length_replicate.
  - vm_compute. reflexivity.
Defined.
End Link.

(** ** The relay cell inside the onion *)
Module Relay.

Definition InnerSize : nat := 1024 - 16 - 16.
Definition RelayHeaderSize : nat := 8.
Definition RelayDataSize : nat := InnerSize - RelayHeaderSize.

(** The initiator's stream ids are odd. *)
Definition IsInitiator (s : Z) : bool := s mod 2 =? 1.

Definition RCmdSendme : Z := 5.
Definition RCmdExtend : Z := 6.
Definition RCmdExtended : Z := 7.
Definition RCmdDrop : Z := 10.
Definition RCmdEstablishIntro : Z := 16.
Definition RCmdIntroduceAck : Z := 20.
Definition RCmdEstablishRendezvous : Z := 24.
Definition RCmdResumeStatus : Z := 31.

(** The keys of [rcmdNames]. *)
Definition Valid (r : Z) : bool :=
  ((1 <=? r) && (r <=? RCmdIntroduceAck)) || ((RCmdEstablishRendezvous <=? r) && (r <=? RCmdResumeStatus)).
Definition CircuitScoped (r : Z) : bool :=
  ((RCmdExtend <=? r) && (r <=? RCmdDrop)) || ((RCmdEstablishIntro <=? r) && (r <=? RCmdIntroduceAck)) ||
  ((RCmdEstablishRendezvous <=? r) && (r <=? RCmdResumeStatus)).
Definition ExtensionCommand (r : Z) : bool := (r =? RCmdExtend) || (r =? RCmdExtended).
Definition rflagsKnown : Z := 3.

Inductive relay_err : Type :=
| ErrRelayShort | ErrRelayBadCmd | ErrRelayBadFlags | ErrRelayReserved | ErrRelayBadLen | ErrRelayScope.

Record RelayCell : Type := mkRelay {
  r_Stream : Z;
  r_Cmd : Z;
  r_Flags : Z;
  r_Data : bytes
}.

Definition checkScope (cmd stream : Z) : outcome relay_err unit :=
  fail? CircuitScoped cmd && negb (stream =? 0) with ErrRelayScope ;;
  fail? negb (CircuitScoped cmd) && negb (cmd =? RCmdSendme) && (stream =? 0) with ErrRelayScope ;;
  Ok tt.

Definition Encode (r : RelayCell) : outcome relay_err bytes :=
  fail? (RelayDataSize <? length (r_Data r))%nat with ErrRelayBadLen ;;
  fail? negb (Valid (r_Cmd r)) with ErrRelayBadCmd ;;
  fail? negb (Z.ldiff (r_Flags r) rflagsKnown =? 0) with ErrRelayBadFlags ;;
  let? _ := checkScope (r_Cmd r) (r_Stream r) in
  Ok (be_encode 2 (r_Stream r) ++ [r_Cmd r] ++ [r_Flags r] ++ be_encode 2 (Z.of_nat (length (r_Data r))) ++
      zeros 2 ++ r_Data r ++ zeros (RelayDataSize - length (r_Data r))).

Definition DecodeRelay (inner : bytes) : outcome relay_err RelayCell :=
  fail? (length inner <? RelayHeaderSize)%nat with ErrRelayShort ;;
  fail? negb (byte_at 6 inner =? 0) || negb (byte_at 7 inner =? 0) with ErrRelayReserved ;;
  let cmd := byte_at 2 inner in
  fail? negb (Valid cmd) with ErrRelayBadCmd ;;
  let flags := byte_at 3 inner in
  fail? negb (Z.ldiff flags rflagsKnown =? 0) with ErrRelayBadFlags ;;
  let n := Z.to_nat (be_decode (field 4 2 inner)) in
  fail? (RelayDataSize <? n)%nat || (length inner <? 8 + n)%nat with ErrRelayBadLen ;;
  let stream := be_decode (field 0 2 inner) in
  let? _ := checkScope cmd stream in
  Ok (mkRelay stream cmd flags (field 8 n inner)).

(** Where a command may travel: the rule [checkScope] enforces. *)
Definition in_scope (cmd stream : Z) : Prop :=
  (CircuitScoped cmd = true -> stream = 0) /\ (CircuitScoped cmd = false -> cmd <> RCmdSendme -> stream <> 0).

Definition relay_typed (r : RelayCell) : Prop :=
  u_range 16 (r_Stream r) /\ byte_ok (r_Flags r) /\ bytes_ok (r_Data r).

Lemma checkScope_ok (cmd stream : Z) (u : unit) : checkScope cmd stream = Ok u <-> in_scope cmd stream.
Proof.
  unfold checkScope, in_scope. destruct u. rewrite !guard_err_ok.
  destruct (CircuitScoped cmd), (Z.eqb_spec stream 0), (Z.eqb_spec cmd RCmdSendme); cbn; intuition congruence.
Qed.

Definition header (r : RelayCell) : bytes :=
  be_encode 2 (r_Stream r) ++ [r_Cmd r] ++ [r_Flags r] ++ be_encode 2 (Z.of_nat (length (r_Data r))) ++ zeros 2.

Lemma length_header (r : RelayCell) : length (header r) = 8%nat.
Proof. unfold header. by rewrite !length_app, !length_be_encode. Qed.

Lemma Encode_relay_ok (r : RelayCell) (e : bytes) :
  Encode r = Ok e <->
  (length (r_Data r) <= RelayDataSize)%nat /\ Valid (r_Cmd r) = true /\ Z.ldiff (r_Flags r) rflagsKnown = 0 /\
  in_scope (r_Cmd r) (r_Stream r) /\ e = header r ++ r_Data r ++ zeros (RelayDataSize - length (r_Data r)).
Proof.
  unfold Encode, header. rewrite !guard_err_ok, obind_ok, Nat.ltb_ge, !negb_false_iff, Z.eqb_eq, <- !app_assoc.
  split.
  - intros (? & ? & ? & [] & ?%checkScope_ok & [= <-]). auto.
  - intros (? & ? & ? & ? & ->). split_and!; auto. exists tt. by rewrite checkScope_ok.
Qed.

Lemma DecodeRelay_ok (inner : bytes) (r : RelayCell) :
  DecodeRelay inner = Ok r <->
  let n := Z.to_nat (be_decode (field 4 2 inner)) in
  (8 + n <= length inner)%nat /\ byte_at 6 inner = 0 /\ byte_at 7 inner = 0 /\ Valid (byte_at 2 inner) = true /\
  Z.ldiff (byte_at 3 inner) rflagsKnown = 0 /\ (n <= RelayDataSize)%nat /\
  in_scope (byte_at 2 inner) (be_decode (field 0 2 inner)) /\
  r = mkRelay (be_decode (field 0 2 inner)) (byte_at 2 inner) (byte_at 3 inner) (field 8 n inner).
Proof.
  unfold DecodeRelay. rewrite !guard_err_ok, obind_ok, !orb_false_iff, !Nat.ltb_ge, !negb_false_iff, !Z.eqb_eq. cbv zeta.
  unfold RelayHeaderSize. split.
  - intros (? & [? ?] & ? & ? & [? ?] & [] & ?%checkScope_ok & [= <-]). auto 10.
  - intros (? & ? & ? & ? & ? & ? & ? & ->). split_and!; auto; [lia|]. exists tt. by rewrite checkScope_ok.
Qed.

Lemma byte_field (b : bytes) (off : nat) :
  bytes_ok b -> (off < length b)%nat -> field off 1 b = [byte_at off b].
Proof.
  intros Hb Hl. unfold byte_at. rewrite <- (field_be b off 1 Hb) at 1 by lia. unfold be_encode; cbn.
  rewrite Z.mod_small; [done|]. apply (field_range b off 1); [done|lia].
Qed.

Lemma header_fields (r : RelayCell) (k : bytes) :
  field 0 2 (header r ++ k) = be_encode 2 (r_Stream r) /\ field 2 1 (header r ++ k) = [r_Cmd r] /\
  field 3 1 (header r ++ k) = [r_Flags r] /\
  field 4 2 (header r ++ k) = be_encode 2 (Z.of_nat (length (r_Data r))) /\
  field 6 1 (header r ++ k) = [0] /\ field 7 1 (header r ++ k) = [0].
Proof.
  unfold header. set (S := be_encode 2 (r_Stream r)). set (L := be_encode 2 (Z.of_nat _)).
  assert (length S = 2%nat) as HS by apply length_be_encode. assert (length L = 2%nat) as HL by apply length_be_encode.
  clearbody S L. destruct S as [|s1 [|s2 [|]]]; try discriminate. destruct L as [|l1 [|l2 [|]]]; try discriminate.
  by split_and!.
Qed.

(** A relay cell [Encode] accepts fills the whole inner region, and
    [DecodeRelay] recovers the stream, command, flags and data exactly,
    whatever the bytes after [RLEN] are: the tail is deliberately not checked. *)
Theorem relay_cell_roundtrip (r : RelayCell) (e tail : bytes) :
  relay_typed r -> Encode r = Ok e ->
  length e = InnerSize /\ DecodeRelay (take (8 + length (r_Data r)) e ++ tail) = Ok r.
Proof.
  intros (HS & HF & HD) (HL & HV & HK & Hscope & ->)%Encode_relay_ok. pose proof (length_header r) as Hh. split.
  - rewrite !length_app, Hh. unfold zeros. rewrite length_replicate. unfold RelayDataSize, RelayHeaderSize, InnerSize in *. lia.
  - rewrite app_assoc, <- Hh, <- length_app, take_app_length, <- app_assoc.
    destruct (header_fields r (r_Data r ++ tail)) as (F0 & F2 & F3 & F4 & F6 & F7).
    apply DecodeRelay_ok. cbv zeta. unfold byte_at. rewrite F0, F2, F3, F4, F6, F7, !be_decode_byte.
    unfold RelayDataSize, RelayHeaderSize, InnerSize in *.
    assert (256 ^ Z.of_nat 2 = 65536) as E2 by done.
    rewrite !be_decode_encode_small by (exact HS || lia). rewrite Nat2Z.id, !length_app, Hh. split_and!; auto; [lia|].
    rewrite (field_app (header r) (r_Data r) tail) by done. by destruct r.
Qed.

(** What [DecodeRelay] accepts is a cell the sender could have encoded, at
    the scope its command requires, and the header and the data are the bytes
    that were read: only the tail can differ from a fresh encoding. *)
Theorem relay_decode_sound (inner : bytes) (r : RelayCell) :
  bytes_ok inner -> DecodeRelay inner = Ok r ->
  in_scope (r_Cmd r) (r_Stream r) /\
  exists e, Encode r = Ok e /\
    take (8 + length (r_Data r)) e = take (8 + length (r_Data r)) inner.
Proof.
  intros Hb H. apply DecodeRelay_ok in H. cbv zeta in H. destruct H as (HL & H6 & H7 & HV & HF & Hn & Hs & ->).
  set (n := Z.to_nat (be_decode (field 4 2 inner))) in *. cbn [r_Cmd r_Stream r_Data].
  assert (length (field 8 n inner) = n) as Hd by (apply field_length; lia).
  split; [done|]. eexists. split.
  - apply Encode_relay_ok. cbn [r_Cmd r_Stream r_Data r_Flags]. rewrite Hd. auto.
  - cbn [r_Data]. rewrite Hd.
    match goal with |- take _ (header ?r ++ _) = _ => pose proof (length_header r) as Hh; set (h := header r) in * end.
    replace (8 + n)%nat with (length (h ++ field 8 n inner)) by (rewrite length_app, Hh; lia).
    rewrite app_assoc, take_app_length, length_app, Hh, Hd.
    transitivity (take 8 inner ++ field 8 n inner); [|unfold field; by rewrite take_take_drop].
    f_equal. unfold h, header. cbn [r_Cmd r_Stream r_Data r_Flags]. rewrite Hd.
    rewrite (field_be inner 0 2 Hb) by lia.
    unfold n. rewrite Z2Nat.id by (apply (field_range inner 4 2); [done|lia]). rewrite (field_be inner 4 2 Hb) by lia.
    assert (zeros 2 = field 6 1 inner ++ field 7 1 inner) as ->
      by (rewrite !byte_field by (done || lia); by rewrite H6, H7).
    rewrite <- (byte_field inner 2), <- (byte_field inner 3) by (done || lia).
    unfold field. rewrite !(app_assoc _ _ (take 2 (drop 4 inner) ++ _)).
    rewrite drop_0. change (take 8 inner) with (take (2 + (1 + (1 + (2 + (1 + 1))))) inner).
    rewrite <- !take_take_drop. rewrite !drop_drop. by rewrite <- !app_assoc.
Qed.

(** Control commands cannot be confused with stream traffic: a decoded
    circuit-scoped command carries stream 0, every other command but SENDME
    carries a stream. *)
Theorem relay_scope_separates (inner : bytes) (r : RelayCell) :
  DecodeRelay inner = Ok r ->
  Valid (r_Cmd r) = true /\
  (CircuitScoped (r_Cmd r) = true -> r_Stream r = 0) /\
  (ExtensionCommand (r_Cmd r) = true -> r_Stream r = 0) /\
  (r_Stream r = 0 -> CircuitScoped (r_Cmd r) = true \/ r_Cmd r = RCmdSendme).
Proof.
  intros H. apply DecodeRelay_ok in H. cbv zeta in H. destruct H as (_ & _ & _ & HV & _ & _ & [H1 H2] & ->).
  cbn [r_Cmd r_Stream]. split; [done|]. split; [done|]. split.
  - intros HE. apply H1. unfold ExtensionCommand in HE. apply orb_true_iff in HE as [->%Z.eqb_eq| ->%Z.eqb_eq]; done.
  - intros E. destruct (CircuitScoped (byte_at 2 inner)) eqn:EC; [by left|]. right.
    destruct (decide (byte_at 2 inner = RCmdSendme)) as [|HN]; [done|]. by destruct (H2 eq_refl HN).
Qed.

Definition sample : RelayCell := mkRelay 3 2 1 [7; 8; 9].

Lemma relay_cell_roundtrip_witness :
  exists e, Encode sample = Ok e /\ length e = InnerSize /\ DecodeRelay (take 11 e ++ [1; 2; 3]) = Ok sample.
Proof.
  eexists. split; [vm_compute; reflexivity|].
  match goal with |- length ?e = _ /\ _ => apply (relay_cell_roundtrip sample e [1; 2; 3]) end.
  - split_and!; try (cbn; lia). all: repeat constructor; by compute.
  - vm_compute. reflexivity.
Defined.

Lemma relay_decode_sound_witness :
  let inner := [0; 3; 2; 1; 0; 3; 0; 0; 7; 8; 9; 99] in
  DecodeRelay inner = Ok sample /\ exists e, Encode sample = Ok e /\ take 11 e = take 11 inner.
Proof.
  cbv zeta. assert (DecodeRelay [0; 3; 2; 1; 0; 3; 0; 0; 7; 8; 9; 99] = Ok sample) as H by (vm_compute; reflexivity).
  split; [exact H|]. refine (proj2 (relay_decode_sound _ sample _ H)). repeat constructor; by compute.
Defined.

Lemma relay_scope_separates_witness :
  DecodeRelay [0; 0; 6; 0; 0; 0; 0; 0] = Ok (mkRelay 0 6 0 []) /\ CircuitScoped 6 = true.
Proof.
  assert (DecodeRelay [0; 0; 6; 0; 0; 0; 0; 0] = Ok (mkRelay 0 6 0 [])) as H by (vm_compute; reflexivity).
  split; [exact H|]. destruct (relay_scope_separates _ _ H) as (_ & _ & _ & H0).
  destruct (H0 eq_refl) as [HC|HC]; [exact HC|discriminate HC].
Defined.
End Relay.
