(* ===== verification/SessionPacket.v ===== *)
(** * Session packets ([internal/axon/session/packet.go], [keys.go])

    One sealed packet per SESSION relay cell, its header and its frame, and the
    1024-wide replay window.  The AEAD is the class [Aead]: what the package
    relies on is in [AeadLaws].  The window is the code's array of sixteen
    64-bit words; it refines the set of packet numbers seen. *)
From S2P Require Import Prelude.
From S2P Require Import GoBytes.
From S2P Require Import AxonCells.

(** [cipher.AEAD] for a 32-byte key: key, nonce, text, additional data. *)
Class Aead := {
  aead_seal : bytes -> bytes -> bytes -> bytes -> bytes;
  aead_open : bytes -> bytes -> bytes -> bytes -> option bytes
}.

Definition tagSize : nat := 16.

Class AeadLaws `{Aead} := {
  seal_length : forall k n p a, length (aead_seal k n p a) = (length p + tagSize)%nat;
  open_length : forall k n c a p, aead_open k n c a = Some p -> length c = (length p + tagSize)%nat;
  open_bytes : forall k n c a p, aead_open k n c a = Some p -> bytes_ok p;
  open_seal : forall k n p a, bytes_ok p -> aead_open k n (aead_seal k n p a) a = Some p
}.

Definition packetVersion : Z := 1.
Definition headerSize : nat := 13.
Definition PacketSize : nat := Relay.RelayDataSize.
Definition PlainSize : nat := PacketSize - headerSize - tagSize.
Definition frameHeaderSize : nat := 23.
Definition MaxData : nat := PlainSize - frameHeaderSize.

Definition ftAck : Z := 0.
Definition ftPing : Z := 1.
Definition ftOpen : Z := 16.
Definition ftData : Z := 17.
Definition ftFin : Z := 18.
Definition ftReset : Z := 19.
Definition ftWindow : Z := 20.
Definition ftClose : Z := 32.

Definition ft_reliable (t : Z) : bool := ftOpen <=? t.
Definition ft_valid (t : Z) : bool :=
  (t =? ftAck) || (t =? ftPing) || (t =? ftOpen) || (t =? ftData) || (t =? ftFin) ||
  (t =? ftReset) || (t =? ftWindow) || (t =? ftClose).

Record frame : Type := mkFrame {
  f_ack : Z;
  f_seq : Z;
  f_typ : Z;
  f_stream : Z;
  f_data : bytes
}.

Inductive packet_err : Type :=
| ErrPacketSize | ErrPacketVersion | ErrAuth | ErrReplay | ErrStaleKey | ErrFrame.

Record header : Type := mkHeader {
  h_gen : Z;
  h_epoch : Z;
  h_pn : Z
}.

Definition parseHeader (p : bytes) : outcome packet_err header :=
  fail? negb (length p =? PacketSize)%nat with ErrPacketSize ;;
  fail? negb (byte_at 0 p =? packetVersion) with ErrPacketVersion ;;
  Ok (mkHeader (le_decode (field 1 2 p)) (le_decode (field 3 2 p)) (le_decode (field 5 8 p))).

Definition nonceFor (pn : Z) : bytes := le_encode 8 pn ++ zeros 4.

Definition plain_of (f : frame) : bytes :=
  le_encode 8 (f_ack f) ++ le_encode 8 (f_seq f) ++ [f_typ f] ++ le_encode 4 (f_stream f) ++
  le_encode 2 (Z.of_nat (length (f_data f))) ++ f_data f ++ zeros (MaxData - length (f_data f)).
Definition header_bytes (h : header) : bytes :=
  [packetVersion] ++ le_encode 2 (h_gen h) ++ le_encode 2 (h_epoch h) ++ le_encode 8 (h_pn h).

Definition seal `{Aead} (k : bytes) (h : header) (f : frame) : outcome packet_err bytes :=
  fail? (MaxData <? length (f_data f))%nat with ErrFrame ;;
  Ok (header_bytes h ++ aead_seal k (nonceFor (h_pn h)) (plain_of f) (header_bytes h)).

(** A slice of [plain] out of range would panic. *)
Definition open `{Aead} (k : bytes) (h : header) (p : bytes) : outcome packet_err frame :=
  match aead_open k (nonceFor (h_pn h)) (drop headerSize p) (take headerSize p) with
  | None => Err ErrAuth
  | Some plain =>
      if (length plain <? frameHeaderSize)%nat then Panic
      else
        let typ := byte_at 16 plain in
        let seq := le_decode (field 8 8 plain) in
        let n := Z.to_nat (le_decode (field 21 2 plain)) in
        fail? (MaxData <? n)%nat || negb (ft_valid typ) || negb (Bool.eqb (ft_reliable typ) (negb (seq =? 0))) with ErrFrame ;;
        if (length plain <? frameHeaderSize + n)%nat then Panic
        else Ok (mkFrame (le_decode (field 0 8 plain)) seq typ (le_decode (field 17 4 plain)) (field frameHeaderSize n plain))
  end.

(** The Go types. *)
Definition header_typed (h : header) : Prop := u_range 16 (h_gen h) /\ u_range 16 (h_epoch h) /\ u_range 64 (h_pn h).
Definition frame_typed (f : frame) : Prop :=
  u_range 64 (f_ack f) /\ u_range 64 (f_seq f) /\ byte_ok (f_typ f) /\ u_range 32 (f_stream f) /\ bytes_ok (f_data f).
(** Frames the session sends: a known type, a sequence number exactly when reliable. *)
Definition frame_wf (f : frame) : Prop :=
  ft_valid (f_typ f) = true /\ ft_reliable (f_typ f) = negb (f_seq f =? 0).

(** ** The replay window *)

Definition replayWidth : Z := 1024.

Record replayWindow : Type := mkWindow {
  w_top : Z;
  w_bits : list Z
}.

Definition new_window : replayWindow := mkWindow 0 (zeros 16).

Definition word (bits : list Z) (i : Z) : Z := nth (Z.to_nat i) bits 0.

(** [shift]: bit [d] of the array means "[top-d] was seen". *)
Definition shift_word (bits : list Z) (words b i : Z) : Z :=
  let src := i - words in
  if src <? 0 then 0
  else
    let v := wrap_u64 (Z.shiftl (word bits src) b) in
    if negb (b =? 0) && (0 <=? src - 1) then Z.lor v (Z.shiftr (word bits (src - 1)) (64 - b)) else v.
Definition shift (bits : list Z) (n : Z) : list Z :=
  map (fun i => shift_word bits (n / 64) (n mod 64) (Z.of_nat i)) (seq 0 16).

Definition check (w : replayWindow) (pn : Z) : outcome packet_err unit :=
  fail? pn =? 0 with ErrReplay ;;
  if w_top w <? pn then Ok tt
  else
    let d := w_top w - pn in
    fail? replayWidth <=? d with ErrReplay ;;
    fail? negb (Z.land (word (w_bits w) (d / 64)) (Z.shiftl 1 (d mod 64)) =? 0) with ErrReplay ;;
    Ok tt.

(** [bits[i] |= 1 << j]; an index past the array panics. *)
Definition set_bit (bits : list Z) (i j : Z) : list Z :=
  <[Z.to_nat i := Z.lor (word bits i) (Z.shiftl 1 j)]> bits.
Definition mark (w : replayWindow) (pn : Z) : outcome packet_err replayWindow :=
  if w_top w <? pn then
    let sh := pn - w_top w in
    let bits := if replayWidth <=? sh then zeros 16 else shift (w_bits w) sh in
    Ok (mkWindow pn (set_bit bits 0 0))
  else
    let d := w_top w - pn in
    if 16 <=? d / 64 then Panic else Ok (mkWindow (w_top w) (set_bit (w_bits w) (d / 64) (d mod 64))).

(** ** Packets *)

Lemma field_le (b : bytes) (off n : nat) :
  bytes_ok b -> (off + n <= length b)%nat -> le_encode n (le_decode (field off n b)) = field off n b.
Proof.
  intros Hb Hl. rewrite <- (field_length b off n Hl) at 1. apply le_encode_decode. by apply field_bytes_ok.
Qed.

Lemma le_decode_small (n : nat) (z : Z) : 0 <= z < 256 ^ Z.of_nat n -> le_decode (le_encode n z) = z.
Proof. intros. rewrite le_decode_encode. by apply Z.mod_small. Qed.

Lemma length_header_bytes (h : header) : length (header_bytes h) = headerSize.
Proof. unfold header_bytes. by rewrite !length_app, !length_le_encode. Qed.

(** Field [x] of a concatenation, by the length of what precedes it. *)
Lemma field_at (pre x post : bytes) (off n : nat) (b : bytes) :
  b = pre ++ x ++ post -> length pre = off -> length x = n -> field off n b = x.
Proof. intros -> H1 H2. by apply field_app. Qed.

Lemma header_bytes_fields (h : header) (k : bytes) : header_typed h ->
  byte_at 0 (header_bytes h ++ k) = packetVersion /\ le_decode (field 1 2 (header_bytes h ++ k)) = h_gen h /\
  le_decode (field 3 2 (header_bytes h ++ k)) = h_epoch h /\ le_decode (field 5 8 (header_bytes h ++ k)) = h_pn h.
Proof.
  intros (Hg & He & Hp). unfold header_bytes.
  set (G := le_encode 2 (h_gen h)). set (EE := le_encode 2 (h_epoch h)). set (P := le_encode 8 (h_pn h)).
  assert (length G = 2%nat) as LG by apply length_le_encode. assert (length EE = 2%nat) as LE by apply length_le_encode.
  assert (length P = 8%nat) as LP by apply length_le_encode.
  rewrite (field_at [packetVersion] G (EE ++ P ++ k) 1 2) by (done || by rewrite <- !app_assoc).
  rewrite (field_at ([packetVersion] ++ G) EE (P ++ k) 3 2)
    by (done || (rewrite <- !app_assoc; done) || (rewrite length_app, LG; done)).
  rewrite (field_at ([packetVersion] ++ G ++ EE) P k 5 8)
    by (done || (rewrite <- !app_assoc; done) || (rewrite !length_app, LG, LE; done)).
  split; [done|]. unfold G, EE, P. rewrite !le_decode_small by assumption. done.
Qed.

Lemma length_plain_of (f : frame) : (length (f_data f) <= MaxData)%nat -> length (plain_of f) = PlainSize.
Proof.
  intros H. unfold plain_of. rewrite !length_app, !length_le_encode. unfold zeros. rewrite length_replicate. cbn [length].
  unfold MaxData, PlainSize, frameHeaderSize, PacketSize, Relay.RelayDataSize, Relay.InnerSize, Relay.RelayHeaderSize, headerSize, tagSize in *.
  lia.
Qed.

Lemma plain_of_bytes (f : frame) : byte_ok (f_typ f) -> bytes_ok (f_data f) -> bytes_ok (plain_of f).
Proof.
  intros Ht Hd. unfold plain_of. repeat apply Forall_app_2; try apply le_encode_ok; try apply zeros_ok; [|done].
  by constructor.
Qed.

(** Rewrite with the field of the concatenation that [pre ++ x ++ post] denotes. *)
Ltac fld pre x post off n :=
  rewrite (field_at pre x post off n) by
    first [reflexivity | (rewrite <- !app_assoc; reflexivity) | assumption
          | (rewrite ?length_app; repeat match goal with H : length _ = _ |- _ => rewrite H end; reflexivity)].

Lemma plain_fields (f : frame) : frame_typed f -> (length (f_data f) <= MaxData)%nat ->
  le_decode (field 0 8 (plain_of f)) = f_ack f /\ le_decode (field 8 8 (plain_of f)) = f_seq f /\
  byte_at 16 (plain_of f) = f_typ f /\ le_decode (field 17 4 (plain_of f)) = f_stream f /\
  le_decode (field 21 2 (plain_of f)) = Z.of_nat (length (f_data f)) /\
  field 23 (length (f_data f)) (plain_of f) = f_data f.
Proof.
  intros (Ha & Hs & Ht & Hst & Hd) Hl. unfold plain_of.
  set (A := le_encode 8 (f_ack f)). set (S := le_encode 8 (f_seq f)). set (T := le_encode 4 (f_stream f)).
  set (L := le_encode 2 (Z.of_nat (length (f_data f)))). set (Zs := zeros _).
  assert (length A = 8%nat) as LA by apply length_le_encode. assert (length S = 8%nat) as LS by apply length_le_encode.
  assert (length T = 4%nat) as LT by apply length_le_encode. assert (length L = 2%nat) as LL by apply length_le_encode.
  unfold byte_at.
  fld (@nil Z) A (S ++ [f_typ f] ++ T ++ L ++ f_data f ++ Zs) 0%nat 8%nat.
  fld A S ([f_typ f] ++ T ++ L ++ f_data f ++ Zs) 8%nat 8%nat. fld (A ++ S) [f_typ f] (T ++ L ++ f_data f ++ Zs) 16%nat 1%nat.
  fld (A ++ S ++ [f_typ f]) T (L ++ f_data f ++ Zs) 17%nat 4%nat. fld (A ++ S ++ [f_typ f] ++ T) L (f_data f ++ Zs) 21%nat 2%nat.
  fld (A ++ S ++ [f_typ f] ++ T ++ L) (f_data f) Zs 23%nat (length (f_data f)).
  rewrite be_decode_byte. unfold A, S, T, L.
  rewrite !le_decode_small; [done|..]; try assumption.
  unfold MaxData, PlainSize, frameHeaderSize, PacketSize, Relay.RelayDataSize, Relay.InnerSize, Relay.RelayHeaderSize, headerSize, tagSize in *.
  change (256 ^ Z.of_nat 2) with 65536. lia.
Qed.

Section Packets.
Context `{AeadLaws}.

Lemma seal_ok (k : bytes) (h : header) (f : frame) (p : bytes) :
  seal k h f = Ok p <->
  (length (f_data f) <= MaxData)%nat /\
  p = header_bytes h ++ aead_seal k (nonceFor (h_pn h)) (plain_of f) (header_bytes h).
Proof.
  unfold seal. rewrite guard_err_ok, Nat.ltb_ge. split; [intros (? & [= <-])|intros (? & ->)]; auto.
Qed.

Lemma open_ok (k : bytes) (h : header) (p : bytes) (f : frame) :
  open k h p = Ok f -> exists plain,
    aead_open k (nonceFor (h_pn h)) (drop headerSize p) (take headerSize p) = Some plain /\
    (length (f_data f) <= MaxData)%nat /\ frame_wf f /\
    let n := Z.to_nat (le_decode (field 21 2 plain)) in
    f = mkFrame (le_decode (field 0 8 plain)) (le_decode (field 8 8 plain)) (byte_at 16 plain)
          (le_decode (field 17 4 plain)) (field 23 n plain).
Proof.
  unfold open. destruct (aead_open _ _ _ _) as [plain|]; [|discriminate]. intros HO. exists plain. split; [done|].
  destruct (_ <? frameHeaderSize)%nat; [discriminate|]. apply guard_err_ok in HO as (HB & HO).
  destruct (length plain <? _)%nat eqn:EL; [discriminate|]. injection HO as <-. apply Nat.ltb_ge in EL.
  apply orb_false_iff in HB as [[HM HV]%orb_false_iff HR]. apply Nat.ltb_ge in HM. zbool.
  apply Bool.eqb_prop in HR. split_and!; try done. cbn [f_data]. rewrite field_length; [done|lia].
Qed.

Lemma open_plain_of (f : frame) : frame_typed f -> frame_wf f -> (length (f_data f) <= MaxData)%nat ->
  forall k h p, aead_open k (nonceFor (h_pn h)) (drop headerSize p) (take headerSize p) = Some (plain_of f) ->
  open k h p = Ok f.
Proof.
  intros Ht [Hv Hr] Hl k h p E. unfold open. rewrite E, length_plain_of by done.
  destruct (plain_fields f Ht Hl) as (-> & -> & -> & -> & -> & HD).
  change 23%nat with frameHeaderSize in HD. rewrite Nat2Z.id, HD, Hv, Hr, Bool.eqb_reflx.
  assert ((MaxData <? length (f_data f)) = false)%nat as -> by by apply Nat.ltb_ge. cbn [negb orb guard_err].
  assert ((PlainSize <? frameHeaderSize) = false)%nat as -> by done.
  assert ((PlainSize <? frameHeaderSize + length (f_data f)) = false)%nat as ->.
  { apply Nat.ltb_ge. unfold MaxData in Hl. assert (frameHeaderSize <= PlainSize)%nat by (vm_compute; lia). lia. }
  by destruct f.
Qed.

(** What the receiver makes of a sealed packet with the right key. *)
Lemma open_sealed (k : bytes) (h : header) (f : frame) (p : bytes) :
  header_typed h -> frame_typed f -> frame_wf f -> seal k h f = Ok p ->
  parseHeader p = Ok h /\ open k h p = Ok f.
Proof.
  intros Hh Hf Hw (Hl & ->)%seal_ok. split.
  - unfold parseHeader. rewrite length_app, length_header_bytes, seal_length, length_plain_of by done.
    change (negb (headerSize + (PlainSize + tagSize) =? PacketSize)%nat) with false. cbn [guard_err].
    destruct (header_bytes_fields h (aead_seal k (nonceFor (h_pn h)) (plain_of f) (header_bytes h)) Hh) as (-> & -> & -> & ->).
    cbn. by destruct h.
  - apply open_plain_of; try done. rewrite <- (length_header_bytes h), drop_app_length, take_app_length.
    apply open_seal, plain_of_bytes; apply Hf.
Qed.

End Packets.

(** ** The window refines the set of packet numbers seen *)

(** Bit [d] of the array. *)
Definition seen (bits : list Z) (d : Z) : bool := Z.testbit (word bits (d / 64)) (d mod 64).
Definition bits_ok (bits : list Z) : Prop := length bits = 16%nat /\ Forall (u_range 64) bits.

Lemma word_range (bits : list Z) (i : Z) : Forall (u_range 64) bits -> u_range 64 (word bits i).
Proof.
  intros H. unfold word. destruct (nth_in_or_default (Z.to_nat i) bits 0) as [Hin| ->]; [|done].
  rewrite Forall_forall in H. apply H. by apply list_elem_of_In.
Qed.

Lemma testbit_high (w x j : Z) : 0 <= w -> u_range w x -> w <= j -> Z.testbit x j = false.
Proof.
  intros Hw [H0 H1] Hj. destruct (decide (x = 0)) as [->|]; [apply Z.testbit_0_l|].
  apply Z.bits_above_log2; [done|]. apply Z.log2_lt_pow2; [lia|]. eapply Z.lt_le_trans; [exact H1|].
  apply Z.pow_le_mono_r; lia.
Qed.

Lemma word_shift (bits : list Z) (n i : Z) : 0 <= i < 16 ->
  word (shift bits n) i = shift_word bits (n / 64) (n mod 64) i.
Proof.
  intros Hi. unfold word, shift.
  rewrite (nth_indep _ 0 (shift_word bits (n / 64) (n mod 64) (Z.of_nat 0)))
    by (rewrite length_map, length_seq; lia).
  rewrite (map_nth (fun i => shift_word bits (n / 64) (n mod 64) (Z.of_nat i))), seq_nth by lia.
  f_equal. lia.
Qed.

Lemma wrap_u64_testbit (x j : Z) : 0 <= j < 64 -> Z.testbit (wrap_u64 x) j = Z.testbit x j.
Proof. intros. unfold wrap_u. apply Z.mod_pow2_bits_low. lia. Qed.

(** Moving the window by [n] moves every bit by [n]. *)
Lemma seen_shift (bits : list Z) (n d : Z) :
  Forall (u_range 64) bits -> 0 <= n -> 0 <= d < replayWidth ->
  seen (shift bits n) d = (n <=? d) && seen bits (d - n).
Proof.
  intros Hb Hn Hd. unfold replayWidth in Hd. unfold seen.
  pose proof (Z.div_mod d 64 ltac:(lia)) as Ed. pose proof (Z.mod_pos_bound d 64 ltac:(lia)) as Bd.
  pose proof (Z.div_mod n 64 ltac:(lia)) as En. pose proof (Z.mod_pos_bound n 64 ltac:(lia)) as Bn.
  set (i := d / 64) in *. set (j := d mod 64) in *. set (q := n / 64) in *. set (b := n mod 64) in *.
  rewrite word_shift by lia. fold q b. unfold shift_word.
  assert (forall k r, d - n = 64 * k + r -> 0 <= r < 64 -> (d - n) / 64 = k /\ (d - n) mod 64 = r) as HDM.
  { intros k r E Hr. split; [symmetry; apply (Z.div_unique _ 64 k r)|symmetry; apply (Z.mod_unique _ 64 k r)]; lia. }
  destruct (Z.ltb_spec (i - q) 0) as [Hs|Hs].
  { rewrite Z.testbit_0_l. destruct (Z.leb_spec n d); [lia|done]. }
  destruct (Z.le_gt_cases b j) as [Hbj|Hbj].
  - destruct (HDM (i - q) (j - b)) as [-> ->]; [lia|lia|].
    assert ((n <=? d) = true) as -> by (apply Z.leb_le; lia).
    assert (Z.testbit (wrap_u64 (Z.shiftl (word bits (i - q)) b)) j = Z.testbit (word bits (i - q)) (j - b)) as HV
      by (rewrite wrap_u64_testbit, Z.shiftl_spec by lia; done).
    destruct (_ && _) eqn:EB; [|by rewrite HV].
    rewrite Z.lor_spec, HV, Z.shiftr_spec by lia. apply andb_true_iff in EB as [Hb0 _]. zbool.
    rewrite (testbit_high 64 (word bits (i - q - 1))); [apply orb_false_r|lia|by apply word_range|lia].
  - assert (Z.testbit (wrap_u64 (Z.shiftl (word bits (i - q)) b)) j = false) as HV
      by (rewrite wrap_u64_testbit, Z.shiftl_spec, Z.testbit_neg_r by lia; done).
    assert ((b =? 0) = false) as -> by (apply Z.eqb_neq; lia). cbn [negb andb].
    destruct (Z.leb_spec 0 (i - q - 1)) as [Hp|Hp].
    + destruct (HDM (i - q - 1) (j + (64 - b))) as [-> ->]; [lia|lia|].
      assert ((n <=? d) = true) as -> by (apply Z.leb_le; lia).
      rewrite Z.lor_spec, HV, Z.shiftr_spec by lia. done.
    + rewrite HV. assert ((n <=? d) = false) as -> by (apply Z.leb_gt; lia). done.
Qed.

Lemma u_range_lor (w a b : Z) : 0 <= w -> u_range w a -> u_range w b -> u_range w (Z.lor a b).
Proof.
  intros Hw Ha Hb. assert (Z.lor a b = Z.lor a b mod 2 ^ w) as ->; [|by apply Z.mod_pos_bound; lia].
  apply Z.bits_inj'. intros j Hj. destruct (Z.lt_ge_cases j w).
  - by rewrite Z.mod_pow2_bits_low.
  - rewrite Z.mod_pow2_bits_high by lia. by rewrite Z.lor_spec, (testbit_high w a), (testbit_high w b).
Qed.

Lemma u_range_shiftr (w a n : Z) : 0 <= n -> u_range w a -> u_range w (Z.shiftr a n).
Proof.
  intros Hn [H0 H1]. rewrite Z.shiftr_div_pow2 by done. split; [apply Z.div_pos; lia|].
  eapply Z.le_lt_trans; [|exact H1]. apply Z.div_le_upper_bound; [lia|]. nia.
Qed.

Lemma shift_ok (bits : list Z) (n : Z) : bits_ok bits -> bits_ok (shift bits n).
Proof.
  intros [HL HF]. split; [unfold shift; by rewrite length_map, length_seq|].
  unfold shift. apply Forall_map, Forall_forall. intros i _. cbn. unfold shift_word.
  pose proof (Z.mod_pos_bound n 64 ltac:(lia)).
  destruct (_ <? 0); [done|]. destruct (_ && _); [|apply wrap_u_range; lia].
  apply u_range_lor; [lia|apply wrap_u_range; lia|]. apply u_range_shiftr; [lia|by apply word_range].
Qed.

Lemma pow2_range (j : Z) : 0 <= j < 64 -> u_range 64 (Z.shiftl 1 j).
Proof.
  intros. rewrite Z.shiftl_1_l. split; [lia|]. apply Z.pow_lt_mono_r; lia.
Qed.

Lemma set_bit_ok (bits : list Z) (i j : Z) : 0 <= j < 64 -> bits_ok bits -> bits_ok (set_bit bits i j).
Proof.
  intros Hj [HL HF]. split; unfold set_bit; [by rewrite length_insert|]. apply Forall_insert; [done|].
  apply u_range_lor; [lia|by apply word_range|by apply pow2_range].
Qed.

(** Setting bit [e] sets that bit and no other. *)
Lemma seen_set_bit (bits : list Z) (e d : Z) :
  bits_ok bits -> 0 <= e < replayWidth -> 0 <= d < replayWidth ->
  seen (set_bit bits (e / 64) (e mod 64)) d = (d =? e) || seen bits d.
Proof.
  intros [HL HF] He Hd. unfold replayWidth in *. unfold seen, set_bit, word.
  pose proof (Z.div_mod d 64 ltac:(lia)) as Ed. pose proof (Z.mod_pos_bound d 64 ltac:(lia)) as Bd.
  pose proof (Z.div_mod e 64 ltac:(lia)) as Ee. pose proof (Z.mod_pos_bound e 64 ltac:(lia)) as Be.
  assert (Z.to_nat (e / 64) < length bits)%nat as Hk by lia.
  rewrite (nth_lookup (<[_ := _]> bits)), list_lookup_insert.
  destruct (decide _) as [[Ei _]|Hne]; cbn [default].
  - assert (d / 64 = e / 64) as Edv by lia. change default with (@from_option Z Z id). cbn. rewrite Z.lor_spec, <- Edv.
    rewrite Z.shiftl_1_l, Z.pow2_bits_eqb, orb_comm by lia. f_equal.
    destruct (Z.eqb_spec (e mod 64) (d mod 64)), (Z.eqb_spec d e); lia.
  - rewrite <- nth_lookup. assert (d <> e) by (intros ->; by destruct Hne).
    assert ((d =? e) = false) as -> by by apply Z.eqb_neq. done.
Qed.

Definition win_ok (w : replayWindow) : Prop := u_range 64 (w_top w) /\ bits_ok (w_bits w).

(** The window represents the packet numbers [S] seen so far. *)
Definition represents (w : replayWindow) (S : list Z) : Prop :=
  win_ok w /\ Forall (fun p => 0 < p <= w_top w) S /\ (S <> [] -> w_top w ∈ S) /\ (S = [] -> w_top w = 0) /\
  forall d, 0 <= d < replayWidth -> seen (w_bits w) d = bool_decide (w_top w - d ∈ S).

Lemma seen_zeros (d : Z) : seen (zeros 16) d = false.
Proof.
  unfold seen, word, zeros. rewrite nth_lookup.
  destruct (replicate 16 0 !! Z.to_nat (d / 64)) as [x|] eqn:E; cbn; [|apply Z.testbit_0_l].
  apply lookup_replicate in E as [-> _]. apply Z.testbit_0_l.
Qed.

Lemma zeros_bits_ok : bits_ok (zeros 16).
Proof. split; [done|]. by apply Forall_replicate. Qed.

Lemma new_window_represents : represents new_window [].
Proof.
  split; [split; [done|apply zeros_bits_ok]|]. split; [constructor|]. split; [done|]. split; [done|].
  intros d _. cbn [new_window w_bits]. rewrite seen_zeros. symmetry. apply bool_decide_eq_false. apply not_elem_of_nil.
Qed.

(** The test of [check] reads the bit. *)
Lemma check_bit (x j : Z) : 0 <= j -> (Z.land x (Z.shiftl 1 j) =? 0) = negb (Z.testbit x j).
Proof.
  intros Hj. rewrite Z.shiftl_1_l. destruct (Z.testbit x j) eqn:E; cbn.
  - apply Z.eqb_neq. intros H0. apply (f_equal (fun z => Z.testbit z j)) in H0.
    rewrite Z.land_spec, E, Z.pow2_bits_eqb, Z.eqb_refl, Z.testbit_0_l in H0 by done. discriminate.
  - apply Z.eqb_eq, Z.bits_inj'. intros k Hk. rewrite Z.land_spec, Z.pow2_bits_eqb, Z.testbit_0_l by done.
    destruct (Z.eqb_spec j k) as [<-|]; [by rewrite E|apply andb_false_r].
Qed.

(** [check] accepts exactly the numbers the specification admits. *)
Definition admits (S : list Z) (top pn : Z) : Prop := 0 < pn /\ top - replayWidth < pn /\ pn ∉ S.

Lemma check_spec (w : replayWindow) (S : list Z) (pn : Z) :
  represents w S -> 0 <= pn ->
  (check w pn = Ok tt <-> admits S (w_top w) pn) /\ (check w pn <> Ok tt -> check w pn = Err ErrReplay).
Proof.
  intros ([_ Hb] & HS & _ & _ & Hd) Hp. unfold check, admits.
  destruct (Z.eqb_spec pn 0) as [->|Hn]; cbn [guard_err].
  { split; [|done]. split; [discriminate|lia]. }
  destruct (Z.ltb_spec (w_top w) pn) as [Hlt|Hge].
  { split; [|done]. split; [|done]. intros _. split; [lia|]. split; [unfold replayWidth; lia|].
    intros Hin. rewrite Forall_forall in HS. specialize (HS _ Hin). cbn in HS. lia. }
  destruct (Z.leb_spec replayWidth (w_top w - pn)) as [Hw|Hw]; cbn [guard_err].
  { split; [|done]. split; [discriminate|]. intros (_ & H & _). unfold replayWidth in *. lia. }
  rewrite check_bit by (apply Z.mod_pos_bound; lia). rewrite negb_involutive.
  fold (seen (w_bits w) (w_top w - pn)). rewrite Hd by lia.
  replace (w_top w - (w_top w - pn)) with pn by lia.
  destruct (decide (pn ∈ S)) as [Hin|Hin]; [rewrite bool_decide_true by done|rewrite bool_decide_false by done]; cbn [guard_err]; (split; [|done]).
  - split; [discriminate|]. by intros (_ & _ & H).
  - split; [|done]. intros _. split; [lia|]. split; [lia|done].
Qed.

(** ... and [mark] adds the number to the set, without panicking. *)
Lemma mark_spec (w : replayWindow) (S : list Z) (pn : Z) :
  represents w S -> u_range 64 pn -> check w pn = Ok tt ->
  exists w', mark w pn = Ok w' /\ represents w' (pn :: S) /\ w_top w' = Z.max (w_top w) pn.
Proof.
  intros HR Hp HC. pose proof (proj1 (proj1 (check_spec w S pn HR (proj1 Hp))) HC) as (Hpos & Hwin & Hnew).
  destruct HR as ([Ht Hb] & HS & Htop & Hnil & Hd). unfold mark. unfold replayWidth in Hwin.
  destruct (Z.ltb_spec (w_top w) pn) as [Hlt|Hge].
  - eexists. split; [done|]. split; [|cbn; lia]. set (bits := if replayWidth <=? pn - w_top w then zeros 16 else shift (w_bits w) (pn - w_top w)).
    assert (bits_ok bits) as Hbits by (unfold bits; destruct (_ <=? _); [apply zeros_bits_ok|by apply shift_ok]).
    assert (forall d, 0 <= d < replayWidth -> seen bits d = bool_decide (pn - d ∈ S)) as Hseen.
    { intros d Hdr. unfold bits. destruct (Z.leb_spec replayWidth (pn - w_top w)).
      - rewrite seen_zeros. symmetry. apply bool_decide_eq_false. intros Hin. rewrite Forall_forall in HS.
        specialize (HS _ Hin). cbn in HS. lia.
      - rewrite seen_shift; [|apply Hb|lia|done]. destruct (Z.leb_spec (pn - w_top w) d); cbn [andb].
        + rewrite Hd by lia. do 2 f_equal. apply bool_decide_ext. by replace (w_top w - (d - (pn - w_top w))) with (pn - d) by lia.
        + symmetry. apply bool_decide_eq_false. intros Hin. rewrite Forall_forall in HS. specialize (HS _ Hin). cbn in HS. lia. }
    split; [split; [done|]; by apply (set_bit_ok _ 0 0)|]. cbn [w_top w_bits].
    split; [constructor; [lia|]; eapply Forall_impl; [exact HS|]; cbn; lia|].
    split; [intros _; constructor|]. split; [done|]. intros d Hdr.
    change 0 with (0 / 64) at 1. change 0 with (0 mod 64) at 2. rewrite (seen_set_bit bits 0 d Hbits) by (unfold replayWidth in *; lia).
    rewrite Hseen by done. destruct (Z.eqb_spec d 0) as [->|Hd0]; cbn [orb].
    + symmetry. apply bool_decide_eq_true. rewrite Z.sub_0_r. constructor.
    + apply bool_decide_ext. rewrite elem_of_cons. split; [by right|]. intros [E|]; [lia|done].
  - assert ((16 <=? (w_top w - pn) / 64) = false) as ->.
    { apply Z.leb_gt. apply Z.div_lt_upper_bound; lia. }
    eexists. split; [done|]. split; [|cbn; lia]. cbn [w_top w_bits].
    split; [split; [done|]; apply set_bit_ok; [apply Z.mod_pos_bound; lia|done]|]. cbn [w_top w_bits].
    split; [constructor; [lia|done]|].
    assert (S <> []) as HSne by (intros E; specialize (Hnil E); lia).
    split; [intros _; right; by apply Htop|]. split; [done|]. intros d Hdr.
    rewrite seen_set_bit by (done || (unfold replayWidth; lia)). rewrite Hd by done.
    destruct (Z.eqb_spec d (w_top w - pn)) as [->|Hd0]; cbn [orb].
    + symmetry. apply bool_decide_eq_true. replace (w_top w - (w_top w - pn)) with pn by lia. constructor.
    + apply bool_decide_ext. rewrite elem_of_cons. split; [by right|]. intros [E|]; [lia|done].
Qed.

(** Packet numbers in order of arrival: the numbers accepted, the way [Receive]
    uses the window ([check], then [mark] once the packet has authenticated). *)
Fixpoint window_run (w : replayWindow) (pns : list Z) : outcome packet_err (replayWindow * list Z) :=
  match pns with
  | [] => Ok (w, [])
  | pn :: pns =>
      match check w pn with
      | Ok _ =>
          let? w := mark w pn in
          let? (w, acc) := window_run w pns in
          Ok (w, pn :: acc)
      | _ => window_run w pns
      end
  end.

(** The specification keeps the whole set. *)
Fixpoint spec_run (S : list Z) (top : Z) (pns : list Z) : list Z :=
  match pns with
  | [] => []
  | pn :: pns =>
      if bool_decide (0 < pn /\ top - replayWidth < pn /\ pn ∉ S)
      then pn :: spec_run (pn :: S) (Z.max top pn) pns
      else spec_run S top pns
  end.

Lemma window_run_spec (pns : list Z) : forall w S, represents w S -> Forall (u_range 64) pns ->
  exists w', window_run w pns = Ok (w', spec_run S (w_top w) pns) /\
             represents w' (rev (spec_run S (w_top w) pns) ++ S).
Proof.
  induction pns as [|pn pns IH]; intros w S HR HF; cbn [window_run spec_run].
  { exists w. by split. }
  apply Forall_cons in HF as [Hp HF]. destruct (check_spec w S pn HR (proj1 Hp)) as [HA _]. fold (admits S (w_top w) pn).
  destruct (check w pn) as [[]| |] eqn:EC.
  - destruct (mark_spec w S pn HR Hp EC) as (w' & -> & HR' & HT). rewrite bool_decide_true by by apply HA.
    destruct (IH w' (pn :: S) HR' HF) as (w'' & E & HR''). rewrite HT in *. cbn [obind]. rewrite E. exists w''. split; [done|].
    cbn [rev]. by rewrite <- app_assoc.
  - rewrite bool_decide_false by (intros HN; by apply HA in HN). by apply IH.
  - rewrite bool_decide_false by (intros HN; by apply HA in HN). by apply IH.
Qed.

Lemma spec_run_NoDup (pns : list Z) : forall S top, NoDup (spec_run S top pns) /\ (forall p, p ∈ spec_run S top pns -> p ∉ S).
Proof.
  induction pns as [|pn pns IH]; intros S top; cbn [spec_run]; [split; [constructor|intros p []%not_elem_of_nil]|].
  case_bool_decide as HA; [|apply IH]. destruct (IH (pn :: S) (Z.max top pn)) as [HN HS]. split.
  - constructor; [|done]. intros Hin. apply (HS _ Hin). constructor.
  - intros p [->|Hin]%elem_of_cons; [apply HA|]. intros HpS. apply (HS _ Hin). by right.
Qed.

(** C37. The sixteen-word window is the specification "a number is accepted when
      it is positive, was not accepted before, and is not 1024 or more behind the
      highest accepted": over any sequence of packet numbers the code accepts
      exactly those, never panics on an index, and so never accepts a number
      twice. *)
Theorem replay_window_exact (pns : list Z) :
  Forall (u_range 64) pns ->
  exists w, window_run new_window pns = Ok (w, spec_run [] 0 pns) /\ NoDup (spec_run [] 0 pns).
Proof.
  intros HF. destruct (window_run_spec pns new_window [] new_window_represents HF) as (w & E & _).
  exists w. split; [exact E|]. apply spec_run_NoDup.
Qed.

Lemma replay_window_exact_witness :
  exists w, window_run new_window [5; 3; 5; 2000; 3; 990; 977; 976; 990] = Ok (w, [5; 3; 2000; 990; 977]).
Proof.
  destruct (replay_window_exact [5; 3; 5; 2000; 3; 990; 977; 976; 990]) as (w & E & _).
  - repeat (constructor; [by compute|]). constructor.
  - exists w. rewrite E. reflexivity.
Defined.

(** A frame the session seals fills the packet exactly, and the peer holding
      the same key parses the same header and decodes the same frame. *)
Theorem packet_roundtrip `{AeadLaws} (k : bytes) (h : header) (f : frame) (p : bytes) :
  header_typed h -> frame_typed f -> frame_wf f -> seal k h f = Ok p ->
  length p = PacketSize /\ parseHeader p = Ok h /\ open k h p = Ok f.
Proof.
  intros Hh Hf Hw E. destruct (open_sealed k h f p Hh Hf Hw E) as [HP HO].
  split; [|by split].
  unfold parseHeader in HP. apply guard_err_ok in HP as [HL _]. apply negb_false_iff in HL. by apply Nat.eqb_eq.
Qed.

(** ** An AEAD for the witnesses: the text with the first half of the key as its tag *)
Definition toy_tag (k : bytes) : bytes := take tagSize (k ++ zeros tagSize).
Definition toy_open (k n c a : bytes) : option bytes :=
  let m := (length c - tagSize)%nat in
  if (tagSize <=? length c)%nat && bool_decide (drop m c = toy_tag k) && forallb byte_okb (take m c) then Some (take m c) else None.
Definition toy_aead : Aead := {| aead_seal := fun k n p a => p ++ toy_tag k; aead_open := toy_open |}.

Lemma length_toy_tag (k : bytes) : length (toy_tag k) = tagSize.
Proof. unfold toy_tag. rewrite length_take, length_app. unfold zeros. rewrite length_replicate. unfold tagSize. lia. Qed.

Lemma toy_open_some (k n c a q : bytes) : toy_open k n c a = Some q <-> c = q ++ toy_tag k /\ bytes_ok q.
Proof.
  unfold toy_open. set (m := (length c - tagSize)%nat). split.
  - destruct (_ && _) eqn:E; [|discriminate]. intros [= <-]. apply andb_true_iff in E as [[EL ET]%andb_true_iff EB].
    apply bool_decide_eq_true in ET. split.
    + rewrite <- ET. symmetry. apply take_drop.
    + rewrite forallb_forall in EB. apply Forall_forall. intros x Hx%list_elem_of_In. specialize (EB _ Hx).
      unfold byte_okb in EB. zbool. by split.
  - intros [E Hq]. assert (m = length q) as Em by (unfold m; rewrite E, length_app, length_toy_tag; lia).
    rewrite Em, E, drop_app_length, take_app_length, bool_decide_true by done.
    assert ((tagSize <=? length (q ++ toy_tag k))%nat = true) as -> by (apply Nat.leb_le; rewrite length_app, length_toy_tag; lia).
    assert (forallb byte_okb q = true) as ->; [|done]. apply forallb_forall. intros x Hx%list_elem_of_In.
    eapply Forall_forall in Hx as Hb; [|exact Hq]. unfold byte_okb. cbn in Hb. destruct Hb.
    apply andb_true_iff. split; [by apply Z.leb_le|by apply Z.ltb_lt].
Qed.

Lemma toy_laws : @AeadLaws toy_aead.
Proof.
  split; intros; cbn [aead_seal aead_open toy_aead] in *.
  - by rewrite length_app, length_toy_tag.
  - apply toy_open_some in H as [-> _]. by rewrite length_app, length_toy_tag.
  - by apply toy_open_some in H as [_ H].
  - by apply toy_open_some.
Qed.
(** Its tag is apart from the text, so a packet shows the same frame under every key that opens it. *)
Lemma toy_opens_one (k k' : bytes) (h h' : header) (f g : frame) (p : bytes) :
  frame_typed f -> frame_wf f -> @seal toy_aead k h f = Ok p -> @open toy_aead k' h' p = Ok g -> g = f.
Proof.
  intros Hf Hw Hs Ho. apply (@seal_ok toy_aead) in Hs as (Hl & ->). apply (@open_ok toy_aead) in Ho as Ho'. destruct Ho' as (plain & E & _).
  assert (plain = plain_of f) as ->.
  { rewrite <- (length_header_bytes h), drop_app_length in E. apply toy_open_some in E as [E _]. cbn [aead_seal toy_aead] in E.
    apply app_inj_2 in E as [E _]; [by rewrite E|by rewrite !length_toy_tag]. }
  apply (@open_plain_of toy_aead) in E; [|done..]. congruence.
Qed.

Lemma packet_roundtrip_witness :
  let h := mkHeader 0 1 9 in let f := mkFrame 4 5 ftData 1 [72; 105] in
  exists p, @seal toy_aead (zeros 32) h f = Ok p /\ @open toy_aead (zeros 32) h p = Ok f /\ length p = PacketSize.
Proof.
  cbv zeta. eexists. split; [vm_compute; reflexivity|].
  match goal with |- _ /\ length ?p = _ =>
    destruct (@packet_roundtrip toy_aead toy_laws (zeros 32) (mkHeader 0 1 9) (mkFrame 4 5 ftData 1 [72; 105]) p) as (HL & _ & HO) end.
  - by compute.
  - split; [by compute|]. split; [by compute|]. split; [by compute|]. split; [by compute|].
    constructor; [by compute|]. constructor; [by compute|]. constructor.
  - by split.
  - vm_compute. reflexivity.
  - split; [exact HO|exact HL].
Defined.
