(* ===== verification/Session.v ===== *)
(** * AXON sessions ([internal/axon/session/session.go], [stream.go], [keys.go])

    One end of a session: the key ring, the reliability state, the streams and
    the resumption counters, and the operations on them.  An operation is a
    function from the session and the current time to the session, under the
    session's mutex as in the code.  [*Stream] values are addresses into
    [s_heap], since the session, the accept queue and the application share
    them; a carrier is a number naming the interface value.  The condition
    variable and the kick channel only schedule, and are not modelled. *)
From S2P Require Import Prelude.
From S2P Require Import GoBytes.
From S2P Require Import RecordUpdate.
From S2P Require Import AxonCells.
From S2P Require Import SessionPacket.
From Stdlib Require Import Ascii.

(** ** Key derivation ([keys.go]) *)

(** [golang.org/x/crypto/hkdf] with SHA-256, HMAC-SHA256 and SHA-256. *)
Class Kdf := {
  hkdf : bytes -> bytes -> bytes -> nat -> bytes;
  hmac256 : bytes -> bytes -> bytes;
  sha256 : bytes -> bytes
}.

Fixpoint text (s : string) : bytes :=
  match s with
  | String.EmptyString => []
  | String.String c s => Z.of_N (N_of_ascii c) :: text s
  end.
Definition labelRoot : bytes := text "axon:sess:root:v1".
Definition labelKeys : bytes := text "axon:sess:keys:v1".
Definition labelRPID : bytes := text "axon:sess:rpid:v1".
Definition labelRekey : bytes := text "axon:sess:rekey:v1".
Definition labelRatchet : bytes := text "axon:sess:ratchet:v1".
Definition labelResumeSv : bytes := text "axon:sess:resume-svc:v1".
Definition labelRPResume : bytes := text "axon:rp:resume:v1".

Record keyState : Type := mkKeyState {
  k_root : bytes;
  k_kf : bytes;
  k_kb : bytes;
  k_resume : bytes;
  k_rpid : bytes
}.
Definition wiped_keys : keyState := mkKeyState (zeros 32) (zeros 32) (zeros 32) (zeros 32) (zeros 32).

Section Keys.
Context `{Kdf}.
Definition hkdf32 (salt ikm info : bytes) : bytes := hkdf salt ikm info 32.
Definition deriveKeys (root : bytes) : keyState :=
  let buf := hkdf [] root labelKeys 96 in
  mkKeyState root (take 32 buf) (take 32 (drop 32 buf)) (take 32 (drop 64 buf)) (hkdf32 [] root labelRPID).
Definition rootFromSeed (keySeed id : bytes) : bytes := hkdf32 [] keySeed (labelRoot ++ id).
Definition ratchetRoot (root newSeed : bytes) : bytes := hkdf32 root newSeed labelRatchet.
Definition rekey (k : bytes) (epoch : Z) : bytes := hkdf32 [] k (labelRekey ++ le_encode 4 epoch).
Definition ResumeCommit (preimage : bytes) (counter : Z) : bytes :=
  sha256 (labelRPResume ++ preimage ++ le_encode 4 counter).
Definition resumeProof (secret id : bytes) (counter : Z) (cookie rpRoutingID : bytes) : bytes :=
  hmac256 secret (labelResumeSv ++ id ++ le_encode 4 counter ++ cookie ++ rpRoutingID).
(** The loop of [openDirLocked]: [n] rekeys, from epoch [e]. *)
Fixpoint rekey_from (k : bytes) (e : Z) (n : nat) : bytes :=
  match n with
  | O => k
  | S n => rekey_from (rekey k e) (wrap_u 16 (e + 1)) n
  end.
End Keys.

(** ** State *)

Definition Client : Z := 1.
Definition Service : Z := 2.
Inductive SState : Type := Attached | Orphaned | Closed.
#[export] Instance SState_eq_dec : EqDecision SState.
Proof. solve_decision. Defined.

Inductive sess_err : Type :=
| ErrClosed | ErrSessionLost | ErrLifetime | ErrIdle | ErrPeerClosed | ErrCarrierHostile
| ErrCarrierSilent | ErrCarrierDead | ErrDegraded | ErrGoingAway | ErrStreamIDs | ErrResumeCounter
| ErrResumeProof | ErrWrongRole | ErrStreamReset | ErrStreamClosed | EOF | ErrDeadlineExceeded
| ErrPacket (e : packet_err).
#[export] Instance packet_err_eq_dec : EqDecision packet_err.
Proof. solve_decision. Defined.
#[export] Instance sess_err_eq_dec : EqDecision sess_err.
Proof. solve_decision. Defined.

Definition CloseNormal : Z := 0.
Definition CloseGoingAway : Z := 1.
Definition CloseLifetime : Z := 2.
Definition CloseIdle : Z := 3.
Definition ResetCancel : Z := 0.
Definition ResetFlowControl : Z := 1.

Definition Millisecond : Z := 1000000.
Definition Second : Z := 1000 * Millisecond.

Record Config : Type := mkConfig {
  OrphanRetention : Z; IdleTimeout : Z; HardLifetime : Z; RekeyPackets : Z; RekeyInterval : Z;
  MinRTO : Z; MaxRTO : Z; ProbeTimeout : Z; StreamWindow : Z; SendBuffer : Z; HostileLimit : Z;
  AckDelay : Z; MaxInFlight : Z;
  OnOrphan : bool; OnClose : bool
}.
(** [DefaultConfig]; the callbacks are absent. *)
Definition DefaultConfig : Config :=
  mkConfig (300 * Second) (900 * Second) (43200 * Second) (2 ^ 20) (3600 * Second)
    Second (8 * Second) (15 * Second) (256 * 2 ^ 10) (4 * 2 ^ 20) 8 (20 * Millisecond) 256 false false.
Definition MigrationBound (c : Config) (replace : Z) : Z := ProbeTimeout c + replace + MaxRTO c.

Record Stats : Type := mkStats {
  PacketsSent : Z; PacketsReceived : Z; FramesSent : Z; Retransmits : Z; Duplicates : Z;
  Hostile : Z; Replays : Z; Migrations : Z; Rekeys : Z; Ratchets : Z
}.
#[export] Instance eta_Stats : Eta Stats := fun r =>
  mkStats (PacketsSent r) (PacketsReceived r) (FramesSent r) (Retransmits r) (Duplicates r)
    (Hostile r) (Replays r) (Migrations r) (Rekeys r) (Ratchets r).
Definition incr64 (n : Z) : Z := wrap_u64 (n + 1).

(** [d_aead] is the key the AEAD was made with, [None] for a nil [cipher.AEAD]. *)
Record dirKey : Type := mkDirKey {
  d_gen : Z; d_epoch : Z; d_key : bytes; d_aead : option bytes; d_started : Z; d_count : Z
}.
#[export] Instance eta_dirKey : Eta dirKey := fun r =>
  mkDirKey (d_gen r) (d_epoch r) (d_key r) (d_aead r) (d_started r) (d_count r).
Definition zero_dirKey : dirKey := mkDirKey 0 0 (zeros 32) None 0 0.
Definition newDirKey (gen : Z) (k : bytes) (now : Z) : dirKey := mkDirKey gen 0 k (Some k) now 0.
Definition wipe_dir (d : dirKey) : dirKey := d <| d_key := zeros 32 |> <| d_aead := None |>.

(** [sentAt.IsZero()] is [o_sentAt = None]. *)
Record outFrame : Type := mkOut {
  o_f : frame; o_sent : bool; o_sentAt : option Z; o_retx : Z; o_size : Z
}.
#[export] Instance eta_outFrame : Eta outFrame := fun r =>
  mkOut (o_f r) (o_sent r) (o_sentAt r) (o_retx r) (o_size r).

Record Stream : Type := mkStream {
  st_id : Z; st_meta : bytes;
  st_recvBuf : bytes; st_recvOff : Z; st_readOff : Z; st_recvLimit : Z; st_recvFin : bool;
  st_peerReset : bool; st_resetCode : Z; st_readClosed : bool;
  st_sendOff : Z; st_sendLimit : Z; st_sendFin : bool; st_localReset : bool;
  st_rdl : option Z; st_wdl : option Z
}.
#[export] Instance eta_Stream : Eta Stream := fun r =>
  mkStream (st_id r) (st_meta r) (st_recvBuf r) (st_recvOff r) (st_readOff r) (st_recvLimit r) (st_recvFin r)
    (st_peerReset r) (st_resetCode r) (st_readClosed r) (st_sendOff r) (st_sendLimit r) (st_sendFin r)
    (st_localReset r) (st_rdl r) (st_wdl r).

(** The goroutines [go f(s, why)] the session starts. *)
Inductive callback : Type := CallOrphan (why : sess_err) | CallClose (why : sess_err).

(** A history entry: the key, the header and the frame of one sealed packet. *)
Record sealing : Type := mkSealing { sg_key : option bytes; sg_header : header; sg_frame : frame }.

Record Session : Type := mkSession {
  s_role : Z; s_id : bytes; s_cfg : Config;
  s_state : SState; s_closeErr : option sess_err; s_closeOnce : bool;
  s_created : Z; s_activity : Z; s_orphanedAt : option Z; s_attachedAt : option Z; s_lastRecv : Z;
  s_keys : keyState; s_gen : Z; s_pending : option keyState; s_pendingGen : Z;
  s_tx : dirKey; s_rx : dirKey; s_rxPrev : dirKey; s_prx : dirKey;
  s_pn : Z; s_replay : replayWindow;
  s_carrier : option nat; s_carrierHostile : Z;
  s_nextSeq : Z; s_unacked : list outFrame; s_unackedBytes : Z; s_peerAck : Z; s_recvNext : Z;
  s_reorder : gmap Z frame; s_ackOwed : bool; s_ackOwedAt : Z; s_ackNow : bool; s_pingOwed : bool;
  s_srtt : Z; s_rttvar : Z; s_rto : Z; s_final : list bytes;
  s_heap : list Stream; s_streams : gmap Z nat; s_nextStream : Z; s_acceptQ : list nat;
  s_degraded : bool; s_goingAway : bool; s_retryAfter : Z;
  s_rpCounter : Z; s_svcCounter : Z; s_stats : Stats; s_calls : list callback;
  (** History variables: the reliable frames queued, the frames [deliverLocked]
      has been given and what was sealed.  No operation reads them. *)
  h_queued : list frame; h_delivered : list frame; h_sealed : list sealing
}.
#[export] Instance eta_Session : Eta Session := fun r =>
  mkSession (s_role r) (s_id r) (s_cfg r) (s_state r) (s_closeErr r) (s_closeOnce r)
    (s_created r) (s_activity r) (s_orphanedAt r) (s_attachedAt r) (s_lastRecv r)
    (s_keys r) (s_gen r) (s_pending r) (s_pendingGen r) (s_tx r) (s_rx r) (s_rxPrev r) (s_prx r)
    (s_pn r) (s_replay r) (s_carrier r) (s_carrierHostile r)
    (s_nextSeq r) (s_unacked r) (s_unackedBytes r) (s_peerAck r) (s_recvNext r)
    (s_reorder r) (s_ackOwed r) (s_ackOwedAt r) (s_ackNow r) (s_pingOwed r)
    (s_srtt r) (s_rttvar r) (s_rto r) (s_final r)
    (s_heap r) (s_streams r) (s_nextStream r) (s_acceptQ r) (s_degraded r) (s_goingAway r) (s_retryAfter r)
    (s_rpCounter r) (s_svcCounter r) (s_stats r) (s_calls r) (h_queued r) (h_delivered r) (h_sealed r).

(** ** Streams in the shared heap *)

Definition the_stream (s : Session) (a : nat) : Stream :=
  nth a (s_heap s) (mkStream 0 [] [] 0 0 0 false false 0 false 0 0 false false None None).
Definition set_stream (a : nat) (st : Stream) (s : Session) : Session := s <| s_heap ::= <[a := st]> |>.
Definition upd_stream (a : nat) (g : Stream -> Stream) (s : Session) : Session := set_stream a (g (the_stream s a)) s.

(** [newStreamLocked]: the address of the new stream is the old length of the heap. *)
Definition newStreamLocked (id : Z) (meta : bytes) (s : Session) : nat * Session :=
  let w := StreamWindow (s_cfg s) in
  let st := mkStream id meta [] 0 0 w false false 0 false 0 w false false None None in
  (length (s_heap s), s <| s_heap ::= fun h => h ++ [st] |> <| s_streams ::= <[id := length (s_heap s)]> |>).

Definition count (f : Stats -> Stats) (s : Session) : Session := s <| s_stats ::= f |>.

Section Ops.
Context `{Aead} `{Kdf}.

Definition installKeysLocked (now : Z) (s : Session) : Session :=
  let s :=
    if s_role s =? Client
    then s <| s_tx := newDirKey (s_gen s) (k_kf (s_keys s)) now |> <| s_rx := newDirKey (s_gen s) (k_kb (s_keys s)) now |>
    else s <| s_tx := newDirKey (s_gen s) (k_kb (s_keys s)) now |> <| s_rx := newDirKey (s_gen s) (k_kf (s_keys s)) now |> in
  s <| s_rxPrev := zero_dirKey |>.

Definition newSession (role : Z) (id keySeed : bytes) (cfg : Config) (now : Z) : Session :=
  let s := mkSession role id cfg Orphaned None false now now (Some now) None now
    (deriveKeys (rootFromSeed keySeed id)) 0 None 0 zero_dirKey zero_dirKey zero_dirKey zero_dirKey
    0 new_window None 0 1 [] 0 0 1 ∅ false 0 false false 0 0 (MinRTO cfg) []
    [] ∅ (if role =? Client then 1 else 2) [] false false 0 0 0 (mkStats 0 0 0 0 0 0 0 0 0 0) [] [] [] [] in
  installKeysLocked now s.

(** *** Sending *)

(** [queueLocked] *)
Definition queueLocked (typ stream : Z) (data : bytes) (now : Z) (s : Session) : Session :=
  let o := mkOut (mkFrame 0 (s_nextSeq s) typ stream data) false None 0 (Z.of_nat (length data + frameHeaderSize)) in
  s <| s_nextSeq := wrap_u64 (s_nextSeq s + 1) |>
    <| s_unacked ::= fun u => u ++ [o] |>
    <| s_unackedBytes ::= Z.add (o_size o) |>
    <| s_activity := now |>
    <| h_queued ::= fun q => q ++ [o_f o] |>.

(** The rekey of [sealLocked]. *)
Definition rekey_tx (now : Z) (s : Session) : Session :=
  if (RekeyPackets (s_cfg s) <=? d_count (s_tx s)) || (RekeyInterval (s_cfg s) <=? now - d_started (s_tx s)) then
    let e := wrap_u 16 (d_epoch (s_tx s) + 1) in
    let next := (newDirKey (d_gen (s_tx s)) (rekey (d_key (s_tx s)) e) now) <| d_epoch := e |> in
    count (fun c => c <| Rekeys ::= incr64 |>) (s <| s_tx := next |>)
  else s.

Definition sealLocked (f : frame) (now : Z) (s : Session) : Session * outcome packet_err bytes :=
  let s := rekey_tx now s in
  let f := mkFrame (wrap_u64 (s_recvNext s - 1)) (f_seq f) (f_typ f) (f_stream f) (f_data f) in
  let s := s <| s_pn ::= incr64 |> <| s_tx ::= fun d => d <| d_count ::= incr64 |> |> in
  let s := count (fun c => c <| PacketsSent ::= incr64 |>) s in
  let h := mkHeader (d_gen (s_tx s)) (d_epoch (s_tx s)) (s_pn s) in
  (s <| h_sealed ::= fun l => l ++ [mkSealing (d_aead (s_tx s)) h f] |>,
   match d_aead (s_tx s) with
   | None => Panic
   | Some k => seal k h f
   end).

(** *** Carriers and closing *)

Definition unsend (o : outFrame) : outFrame := o <| o_sent := false |>.

Definition attachLocked (c : nat) (now : Z) (s : Session) : Session :=
  let s := if bool_decide (s_attachedAt s = None) then s else count (fun k => k <| Migrations ::= incr64 |>) s in
  s <| s_carrier := Some c |> <| s_carrierHostile := 0 |> <| s_state := Attached |>
    <| s_attachedAt := Some now |> <| s_orphanedAt := None |>
    <| s_unacked ::= map unsend |> <| s_pingOwed := true |>.

Definition Attach (c : nat) (now : Z) (s : Session) : Session * option sess_err :=
  if bool_decide (s_state s = Closed) then (s, Some ErrClosed) else (attachLocked c now s, None).

Definition orphanLocked (why : sess_err) (now : Z) (s : Session) : Session :=
  if bool_decide (s_state s = Attached) then
    let s := s <| s_state := Orphaned |> <| s_carrier := None |> <| s_orphanedAt := Some now |> <| s_unacked ::= map unsend |> in
    if OnOrphan (s_cfg s) then s <| s_calls ::= fun l => l ++ [CallOrphan why] |> else s
  else s.

Definition CarrierLost (c : nat) (why : option sess_err) (now : Z) (s : Session) : Session :=
  if bool_decide (s_carrier s = Some c) && bool_decide (s_state s = Attached)
  then orphanLocked (default ErrCarrierDead why) now s
  else s.

Definition SetDegraded (d : bool) (s : Session) : Session := s <| s_degraded := d |>.

(** The [SESSION_CLOSE] frame [closeLocked] seals when it tells the peer. *)
Definition say_close (why : sess_err) (now : Z) (s : Session) : Session :=
  let reason := match why with ErrLifetime => CloseLifetime | ErrIdle => CloseIdle | _ => CloseNormal end in
  let f := mkFrame 0 (s_nextSeq s) ftClose 0 [reason; 0; 0; 0; 0] in
  let s := s <| s_nextSeq := wrap_u64 (s_nextSeq s + 1) |> <| h_queued ::= fun q => q ++ [f] |> in
  let '(s, r) := sealLocked f now s in
  match r with Ok p => s <| s_final ::= fun l => l ++ [p] |> | _ => s end.

(** The rest of [closeLocked]: zeroise, drop the buffers, run the callback. *)
Definition wipe_session (why : sess_err) (s : Session) : Session :=
  let s := s <| s_state := Closed |> <| s_closeErr := Some why |> <| s_keys := wiped_keys |> <| s_pending := None |>
    <| s_tx ::= wipe_dir |> <| s_rx ::= wipe_dir |> <| s_rxPrev ::= wipe_dir |> <| s_prx ::= wipe_dir |>
    <| s_unacked := [] |> <| s_unackedBytes := 0 |> <| s_reorder := ∅ |> in
  let s := s <| s_heap := map_fold (fun _ a h => <[a := (the_stream s a) <| st_recvBuf := [] |>]> h) (s_heap s) (s_streams s) |> in
  let s := if OnClose (s_cfg s) && negb (s_closeOnce s) then s <| s_calls ::= fun l => l ++ [CallClose why] |> else s in
  s <| s_closeOnce := true |>.

Definition closeLocked (why : sess_err) (tell : bool) (now : Z) (s : Session) : Session :=
  if bool_decide (s_state s = Closed) then s
  else
    wipe_session why
      (if tell && bool_decide (s_state s = Attached) && bool_decide (s_carrier s <> None) then say_close why now s else s).

Definition Close (now : Z) (s : Session) : Session :=
  if bool_decide (s_state s = Closed) then s else closeLocked ErrClosed true now s.

Definition GoAway (retryAfter now : Z) (s : Session) : Session :=
  if bool_decide (s_state s = Closed) then s
  else queueLocked ftClose 0 (CloseGoingAway :: le_encode 4 (wrap_u 32 (Z.quot retryAfter Second))) now
         (s <| s_goingAway := true |>).

Definition RetryAfter (s : Session) : Z * bool := (s_retryAfter s, s_goingAway s).

(** *** Opening a packet *)

(** The key-state change a packet implies, applied once it has authenticated. *)
Record commit : Type := mkCommit { cm_pending : bool; cm_next : option dirKey }.

Definition open_with (d : dirKey) (h : header) (p : bytes) : outcome packet_err frame :=
  match d_aead d with None => Panic | Some k => open k h p end.

Definition openDirLocked (cur : dirKey) (prev : option dirKey) (h : header) (p : bytes) (now : Z)
    : outcome packet_err (frame * option dirKey) :=
  if h_epoch h =? d_epoch cur then let? f := open_with cur h p in Ok (f, None)
  else
    let prev_applies := match prev with
      | Some d => bool_decide (d_aead d <> None) && (h_epoch h =? d_epoch d) && (wrap_u 16 (h_epoch h + 1) =? d_epoch cur)
      | None => false end in
    if prev_applies then let? f := open_with (default zero_dirKey prev) h p in Ok (f, None)
    else if (d_epoch cur <? h_epoch h) && (h_epoch h - d_epoch cur <=? 8) then
      let k := rekey_from (d_key cur) (wrap_u 16 (d_epoch cur + 1)) (Z.to_nat (h_epoch h - d_epoch cur)) in
      let next := mkDirKey (d_gen cur) (h_epoch h) k (Some k) now 0 in
      let? f := open_with next h p in Ok (f, Some next)
    else Err ErrStaleKey.

Definition openLocked (h : header) (p : bytes) (now : Z) (s : Session) : outcome packet_err (frame * commit) :=
  if h_gen h =? s_gen s then
    let? (f, next) := openDirLocked (s_rx s) (Some (s_rxPrev s)) h p now in Ok (f, mkCommit false next)
  else if bool_decide (s_pending s <> None) && (h_gen h =? s_pendingGen s) then
    let? (f, next) := openDirLocked (s_prx s) None h p now in Ok (f, mkCommit true next)
  else Err ErrAuth.

Definition commitPendingLocked (s : Session) : Session :=
  match s_pending s with
  | None => s
  | Some ks =>
      s <| s_keys := ks |> <| s_pending := None |> <| s_gen := s_pendingGen s |>
        <| s_rx := s_prx s |> <| s_prx := zero_dirKey |> <| s_rxPrev := zero_dirKey |>
  end.

Definition run_commit (c : commit) (s : Session) : Session :=
  let s := match cm_next c with
    | None => s
    | Some next =>
        count (fun k => k <| Rekeys ::= incr64 |>)
          (if cm_pending c then s <| s_prx := next |> else s <| s_rxPrev := s_rx s |> <| s_rx := next |>)
    end in
  if cm_pending c then commitPendingLocked s else s.

(** *** Acknowledgements *)

(** The loop over [s.unacked]: what is left, the bytes still buffered, the last
    round-trip sample (Karn: never-retransmitted frames only). *)
Fixpoint pop_acked (ack now : Z) (u : list outFrame) (size sample : Z) : list outFrame * Z * Z :=
  match u with
  | o :: u' =>
      if f_seq (o_f o) <=? ack then
        let sample := if o_sent o && (o_retx o =? 0) then now - default 0 (o_sentAt o) else sample in
        pop_acked ack now u' (size - o_size o) sample
      else (u, size, sample)
  | [] => (u, size, sample)
  end.

Definition rtt_update (sample : Z) (s : Session) : Session :=
  if 0 <? sample then
    if s_srtt s =? 0 then s <| s_srtt := sample |> <| s_rttvar := Z.quot sample 2 |>
    else
      let d := Z.abs (s_srtt s - sample) in
      s <| s_rttvar := Z.quot (3 * s_rttvar s + d) 4 |> <| s_srtt := Z.quot (7 * s_srtt s + sample) 8 |>
  else s.

Definition ackLocked (ack now : Z) (s : Session) : Session :=
  if (ack <=? s_peerAck s) || (s_nextSeq s <=? ack) then s
  else
    let '(u, size, sample) := pop_acked ack now (s_unacked s) (s_unackedBytes s) 0 in
    let s := s <| s_peerAck := ack |> <| s_unacked := u |> <| s_unackedBytes := size |> in
    let s := rtt_update sample s in
    let rto := s_srtt s + 4 * s_rttvar s in
    let rto := if rto <? MinRTO (s_cfg s) then MinRTO (s_cfg s) else rto in
    let rto := if MaxRTO (s_cfg s) <? rto then MaxRTO (s_cfg s) else rto in
    s <| s_rto := rto |>.

(** *** Delivery *)

Definition forget (id : Z) (s : Session) : Session := s <| s_streams ::= delete id |>.

(** [resetLocked] *)
Definition resetLocked (a : nat) (code now : Z) (s : Session) : Session :=
  let s := upd_stream a (fun st => st <| st_localReset := true |> <| st_recvBuf := [] |>) s in
  let id := st_id (the_stream s a) in
  forget id (queueLocked ftReset id (le_encode 2 code) now s).

(** [maybeForgetLocked] *)
Definition maybeForgetLocked (a : nat) (s : Session) : Session :=
  let st := the_stream s a in
  if st_sendFin st && (st_recvFin st || st_readClosed st) && (length (st_recvBuf st) =? 0)%nat
  then forget (st_id st) s else s.

(** [refuseLocked] *)
Definition refuseLocked (id now : Z) (s : Session) : Session :=
  let ours := Bool.eqb (id mod 2 =? 1) (s_role s =? Client) in
  if (id =? 0) || (ours && (s_nextStream s <=? id)) then s
  else queueLocked ftReset id (le_encode 2 ResetCancel) now s.

(** Extend the window of stream [a] to [readOff + w] and tell the peer. *)
Definition grant (a : nat) (now : Z) (s : Session) : Session :=
  let st := the_stream s a in
  let lim := wrap_u64 (st_readOff st + StreamWindow (s_cfg s)) in
  queueLocked ftWindow (st_id st) (le_encode 8 lim) now (upd_stream a (fun st => st <| st_recvLimit := lim |>) s).
Definition window_half_used (st : Stream) (s : Session) : bool :=
  wrap_u64 (st_recvLimit st - st_readOff st) <=? StreamWindow (s_cfg s) / 2.

Definition deliver_open (f : frame) (s : Session) : Session :=
  if negb (Bool.eqb (f_stream f mod 2 =? 1) (s_role s =? Service)) || (f_stream f =? 0) then s
  else
    match s_streams s !! f_stream f with
    | Some _ => s
    | None => let '(a, s) := newStreamLocked (f_stream f) (f_data f) s in s <| s_acceptQ ::= fun q => q ++ [a] |>
    end.

Definition deliver_data (f : frame) (now : Z) (s : Session) : Session :=
  match s_streams s !! f_stream f with
  | None => refuseLocked (f_stream f) now s
  | Some a =>
      let off := wrap_u64 (st_recvOff (the_stream s a) + Z.of_nat (length (f_data f))) in
      if st_recvLimit (the_stream s a) <? off then resetLocked a ResetFlowControl now s
      else
        let s := upd_stream a (fun st => st <| st_recvOff := off |>) s in
        if st_readClosed (the_stream s a) then
          let s := upd_stream a (fun st => st <| st_readOff := off |>) s in
          if window_half_used (the_stream s a) s then grant a now s else s
        else upd_stream a (fun st => st <| st_recvBuf ::= fun b => b ++ f_data f |>) s
  end.

Definition deliver_window (f : frame) (s : Session) : Session :=
  match s_streams s !! f_stream f with
  | Some a =>
      if (length (f_data f) =? 8)%nat && (st_sendLimit (the_stream s a) <? le_decode (f_data f))
      then upd_stream a (fun st => st <| st_sendLimit := le_decode (f_data f) |>) s else s
  | None => s
  end.

Definition deliver_reset (f : frame) (s : Session) : Session :=
  match s_streams s !! f_stream f with
  | Some a =>
      let s := upd_stream a (fun st =>
        let st := st <| st_peerReset := true |> in
        if (2 <=? length (f_data f))%nat then st <| st_resetCode := le_decode (field 0 2 (f_data f)) |> else st) s in
      forget (st_id (the_stream s a)) s
  | None => s
  end.

Definition deliver_close (f : frame) (now : Z) (s : Session) : Session :=
  let reason := match f_data f with r :: _ => r | [] => CloseNormal end in
  if reason =? CloseGoingAway then
    let s := s <| s_goingAway := true |> in
    if (5 <=? length (f_data f))%nat then s <| s_retryAfter := le_decode (field 1 4 (f_data f)) * Second |> else s
  else closeLocked ErrPeerClosed false now s.

(** [deliverLocked] applies one in-order reliable frame. *)
Definition deliverLocked (f : frame) (now : Z) (s : Session) : Session :=
  if f_typ f =? ftOpen then deliver_open f s
  else if f_typ f =? ftData then deliver_data f now s
  else if f_typ f =? ftFin then
    match s_streams s !! f_stream f with
    | Some a => maybeForgetLocked a (upd_stream a (fun st => st <| st_recvFin := true |>) s)
    | None => s
    end
  else if f_typ f =? ftReset then deliver_reset f s
  else if f_typ f =? ftWindow then deliver_window f s
  else if f_typ f =? ftClose then deliver_close f now s
  else s.

(** *** Receiving *)

Definition hostileLocked (c : option nat) (now : Z) (s : Session) : Session :=
  let s := count (fun k => k <| Hostile ::= incr64 |>) s in
  if bool_decide (c <> None) && bool_decide (c = s_carrier s) && bool_decide (s_state s = Attached) then
    let s := s <| s_carrierHostile ::= Z.add 1 |> in
    if HostileLimit (s_cfg s) <=? s_carrierHostile s then orphanLocked ErrCarrierHostile now s else s
  else s.

(** [s.recvNext++], after [f] was delivered. *)
Definition advance (f : frame) (s : Session) : Session :=
  s <| s_recvNext := wrap_u64 (s_recvNext s + 1) |> <| h_delivered ::= fun d => d ++ [f] |>.

(** The frames the reorder buffer was holding: at most its size. *)
Fixpoint drain (fuel : nat) (now : Z) (s : Session) : Session :=
  match fuel with
  | O => s
  | S fuel =>
      match s_reorder s !! s_recvNext s with
      | None => s
      | Some nf =>
          let s := s <| s_reorder ::= delete (s_recvNext s) |> in
          drain fuel now (advance nf (deliverLocked nf now s))
      end
  end.

(** The [switch] of [Receive] on a reliable frame. *)
Definition receive_reliable (f : frame) (now : Z) (s : Session) : Session :=
  let s := s <| s_activity := now |> in
  if f_seq f <? s_recvNext s then
    count (fun k => k <| Duplicates ::= incr64 |>) (s <| s_ackOwed := true |> <| s_ackNow := true |>)
  else if f_seq f =? s_recvNext s then
    let s := advance f (deliverLocked f now s) in
    let s := drain (size (s_reorder s)) now s in
    if s_ackOwed s then s else s <| s_ackOwed := true |> <| s_ackOwedAt := now |>
  else
    let s :=
      if f_seq f - s_recvNext s <=? 4 * MaxInFlight (s_cfg s) then
        match s_reorder s !! f_seq f with
        | Some _ => count (fun k => k <| Duplicates ::= incr64 |>) s
        | None => s <| s_reorder ::= <[f_seq f := f]> |>
        end
      else s in
    s <| s_ackOwed := true |> <| s_ackNow := true |>.

(** What an authenticated frame does. *)
Definition accept_frame (c : option nat) (f : frame) (now : Z) (s : Session) : Session :=
  let s := match c with
    | Some c => if bool_decide (s_state s = Orphaned) then attachLocked c now s else s
    | None => s end in
  let s := count (fun k => k <| PacketsReceived ::= incr64 |>) (s <| s_lastRecv := now |>) in
  let s := ackLocked (f_ack f) now s in
  if f_seq f =? 0 then
    if f_typ f =? ftPing then s <| s_unacked ::= map unsend |> <| s_ackOwed := true |> <| s_ackNow := true |> else s
  else receive_reliable f now s.

Definition lift_err {A : Type} (r : outcome packet_err A) : outcome sess_err unit :=
  match r with Ok _ => Ok tt | Err e => Err (ErrPacket e) | Panic => Panic end.

(** [Receive]: [c] is the carrier the packet came on. *)
Definition Receive (c : option nat) (p : bytes) (now : Z) (s : Session) : Session * outcome sess_err unit :=
  if bool_decide (s_state s = Closed) then (s, Err ErrClosed)
  else
    match parseHeader p with
    | Ok h =>
        match check (s_replay s) (h_pn h) with
        | Ok _ =>
            match openLocked h p now s with
            | Ok (f, cm) =>
                let s := run_commit cm s in
                match mark (s_replay s) (h_pn h) with
                | Ok w => (accept_frame c f now (s <| s_replay := w |>), Ok tt)
                | r => (s, lift_err r)
                end
            | Err ErrAuth => (hostileLocked c now s, Err (ErrPacket ErrAuth))
            | r => (s, lift_err r)
            end
        | r => (hostileLocked c now (count (fun k => k <| Replays ::= incr64 |>) s), lift_err r)
        end
    | r => (hostileLocked c now s, lift_err r)
    end.

(** *** The run loop *)

(** The first loop of [collectLocked]: only the oldest frame times out, and
    what is sent and not timed out is in flight. *)
Definition sent_count (u : list outFrame) : Z := Z.of_nat (length (filter (fun o => o_sent o = true) u)).
Definition expire (now : Z) (s : Session) : Session * Z :=
  match s_unacked s with
  | o :: u =>
      if o_sent o && (s_rto s <=? now - default 0 (o_sentAt o)) then
        let rto := s_rto s * 2 in
        (s <| s_unacked := unsend o :: u |> <| s_rto := if MaxRTO (s_cfg s) <? rto then MaxRTO (s_cfg s) else rto |>,
         sent_count u)
      else (s, sent_count (o :: u))
  | [] => (s, 0)
  end.

(** The second loop: the frames as they are left, the packets, the session. *)
Fixpoint transmit (todo : list outFrame) (inflight now : Z) (s : Session) : list outFrame * list bytes * Session :=
  match todo with
  | [] => ([], [], s)
  | o :: todo' =>
      if o_sent o then
        let '(u, out, s) := transmit todo' inflight now s in (o :: u, out, s)
      else if MaxInFlight (s_cfg s) <=? inflight then (todo, [], s)
      else
        match sealLocked (o_f o) now s with
        | (s, Ok p) =>
            let s := if (o_retx o =? 0) && bool_decide (o_sentAt o = None)
                     then count (fun k => k <| FramesSent ::= incr64 |>) s
                     else count (fun k => k <| Retransmits ::= incr64 |>) s in
            let o := if bool_decide (o_sentAt o = None) then o else o <| o_retx ::= Z.add 1 |> in
            let o := o <| o_sent := true |> <| o_sentAt := Some now |> in
            let '(u, out, s) := transmit todo' (inflight + 1) now s in (o :: u, p :: out, s)
        | (s, _) => let '(u, out, s) := transmit todo' inflight now s in (o :: u, out, s)
        end
  end.

(** Seal an unreliable frame and append it to [out]. *)
Definition seal_control (typ now : Z) (out : list bytes) (s : Session) : list bytes * Session :=
  match sealLocked (mkFrame 0 0 typ 0 []) now s with
  | (s, Ok p) => (out ++ [p], s)
  | (s, _) => (out, s)
  end.

Definition collectLocked (now : Z) (s : Session) : list bytes * option nat * Session :=
  if negb (bool_decide (s_state s = Attached)) || bool_decide (s_carrier s = None) then ([], None, s)
  else
    let c := s_carrier s in
    let '(s, inflight) := expire now s in
    let '(u, out, s) := transmit (s_unacked s) inflight now s in
    let s := s <| s_unacked := u |> in
    let '(out, s) :=
      if s_pingOwed s then
        let '(out, s) := seal_control ftPing now out s in (out, s <| s_pingOwed := false |>)
      else (out, s) in
    let '(out, s) :=
      match out with
      | _ :: _ => (out, s <| s_ackOwed := false |> <| s_ackNow := false |>)
      | [] =>
          if s_ackOwed s && (s_ackNow s || (AckDelay (s_cfg s) <=? now - s_ackOwedAt s)) then
            let '(out, s) := seal_control ftAck now out s in (out, s <| s_ackOwed := false |> <| s_ackNow := false |>)
          else (out, s)
      end in
    (out, c, s).

Definition checkTimersLocked (now : Z) (s : Session) : Session :=
  if bool_decide (s_state s = Closed) then s
  else if HardLifetime (s_cfg s) <=? now - s_created s then closeLocked ErrLifetime true now s
  else if IdleTimeout (s_cfg s) <=? now - s_activity s then closeLocked ErrIdle true now s
  else if bool_decide (s_state s = Orphaned) && (OrphanRetention (s_cfg s) <=? now - default 0 (s_orphanedAt s))
  then closeLocked ErrSessionLost false now s
  else if bool_decide (s_state s = Attached) then
    let outstanding := existsb o_sent (s_unacked s) in
    let heard := Z.max (s_lastRecv s) (default (s_lastRecv s) (s_attachedAt s)) in
    if outstanding && (ProbeTimeout (s_cfg s) <=? now - heard) then orphanLocked ErrCarrierSilent now s else s
  else s.

Definition nextDeadlineLocked (now : Z) (s : Session) : Z :=
  let next := ProbeTimeout (s_cfg s) in
  let next := Z.min next (HardLifetime (s_cfg s) - (now - s_created s)) in
  let next := Z.min next (IdleTimeout (s_cfg s) - (now - s_activity s)) in
  let next := if bool_decide (s_state s = Orphaned)
              then Z.min next (OrphanRetention (s_cfg s) - (now - default 0 (s_orphanedAt s))) else next in
  let next :=
    if bool_decide (s_state s = Attached) then
      let next := match filter (fun o => o_sent o = true) (s_unacked s) with
        | o :: _ => Z.min next (s_rto s - (now - default 0 (o_sentAt o)))
        | [] => next end in
      if s_ackOwed s then Z.min next (AckDelay (s_cfg s) - (now - s_ackOwedAt s)) else next
    else next in
  Z.max next Millisecond.

(** One turn of [run] under the lock: the packets to send and the carrier to
    send them on, the time to sleep, and whether the loop ends. *)
Definition run_locked (now : Z) (s : Session) : (list bytes * option nat) * Z * bool * Session :=
  let s := checkTimersLocked now s in
  let '(out, c, s) := collectLocked now s in
  let '(out, c, s) :=
    if bool_decide (s_state s = Closed)
    then (s_final s, s_carrier s, s <| s_final := [] |> <| s_carrier := None |>) else (out, c, s) in
  ((out, c), nextDeadlineLocked now s, bool_decide (s_state s = Closed), s).

(** *** Resumption *)

Definition RPResumeID (s : Session) : bytes := k_rpid (s_keys s).

Definition NextResumeCommit (s : Session) : Session * outcome sess_err (Z * bytes) :=
  if negb (s_role s =? Client) then (s, Err ErrWrongRole)
  else if bool_decide (s_state s = Closed) then (s, Err ErrClosed)
  else
    let s := s <| s_rpCounter ::= fun n => wrap_u 32 (n + 1) |> in
    (s, Ok (s_rpCounter s, ResumeCommit (k_rpid (s_keys s)) (s_rpCounter s))).

Definition ResumeRendezvous (s : Session) : outcome sess_err (Z * bytes) :=
  if negb (s_role s =? Client) then Err ErrWrongRole
  else if bool_decide (s_state s = Closed) then Err ErrClosed
  else Ok (s_rpCounter s, k_rpid (s_keys s)).

Definition ResumeIntro (cookie rpRoutingID : bytes) (s : Session) : Session * outcome sess_err (bytes * Z * bytes) :=
  if negb (s_role s =? Client) then (s, Err ErrWrongRole)
  else if bool_decide (s_state s = Closed) then (s, Err ErrClosed)
  else
    let s := s <| s_svcCounter ::= fun n => wrap_u 32 (n + 1) |> in
    (s, Ok (s_id s, s_svcCounter s, resumeProof (k_resume (s_keys s)) (s_id s) (s_svcCounter s) cookie rpRoutingID)).

(** [hmacEqual]: the accumulated differences of the bytes. *)
Definition hmacEqual (a b : bytes) : bool := foldl Z.lor 0 (zip_with Z.lxor a b) =? 0.

Definition AcceptResume (counter : Z) (proof cookie rpRoutingID : bytes) (s : Session) : Session * outcome sess_err unit :=
  if negb (s_role s =? Service) then (s, Err ErrWrongRole)
  else if bool_decide (s_state s = Closed) then (s, Err ErrClosed)
  else if counter <=? s_svcCounter s then (s, Err ErrResumeCounter)
  else if hmacEqual (resumeProof (k_resume (s_keys s)) (s_id s) counter cookie rpRoutingID) proof
  then (s <| s_svcCounter := counter |>, Ok tt)
  else
    match s_pending s with
    | None => (s, Err ErrResumeProof)
    | Some ks =>
        if hmacEqual (resumeProof (k_resume ks) (s_id s) counter cookie rpRoutingID) proof
        then ((commitPendingLocked s) <| s_svcCounter := counter |>, Ok tt)
        else (s, Err ErrResumeProof)
    end.

Definition Ratchet (newSeed : bytes) (now : Z) (s : Session) : Session * outcome sess_err unit :=
  if bool_decide (s_state s = Closed) then (s, Err ErrClosed)
  else
    let ks := deriveKeys (ratchetRoot (k_root (s_keys s)) newSeed) in
    let s := count (fun k => k <| Ratchets ::= incr64 |>) s in
    if s_role s =? Client then
      let s := s <| s_keys := ks |> <| s_gen ::= fun g => wrap_u 16 (g + 1) |> in
      ((installKeysLocked now s) <| s_rpCounter := 0 |>, Ok tt)
    else
      let gen := wrap_u 16 (s_gen s + 1) in
      (s <| s_pending := Some ks |> <| s_pendingGen := gen |>
         <| s_prx := newDirKey gen (k_kf ks) now |> <| s_tx := newDirKey gen (k_kb ks) now |>, Ok tt).

(** *** Streams *)

Definition OpenStream (meta : bytes) (now : Z) (s : Session) : Session * outcome sess_err nat :=
  if (MaxData <? length meta)%nat then (s, Err (ErrPacket ErrFrame))
  else if bool_decide (s_state s = Closed) then (s, match s_closeErr s with Some e => Err e | None => Err ErrClosed end)
  else if s_degraded s then (s, Err ErrDegraded)
  else if s_goingAway s then (s, Err ErrGoingAway)
  else if 2 ^ 31 <? s_nextStream s then (s, Err ErrStreamIDs)
  else
    let id := s_nextStream s in
    let s := s <| s_nextStream := wrap_u 32 (id + 2) |> in
    let '(a, s) := newStreamLocked id meta s in
    (queueLocked ftOpen id meta now s, Ok a).

(** [None]: the call would wait. *)
Definition AcceptStream (s : Session) : Session * option (outcome sess_err nat) :=
  match s_acceptQ s with
  | a :: q => (s <| s_acceptQ := q |>, Some (Ok a))
  | [] =>
      if bool_decide (s_state s = Closed)
      then (s, Some (match s_closeErr s with Some e => Err e | None => Err ErrClosed end))
      else (s, None)
  end.

Definition deadline_passed (dl : option Z) (now : Z) : bool :=
  match dl with Some t => t <=? now | None => false end.

(** [Read] into a buffer of [n] bytes; [None]: the call would wait. *)
Definition Read (a n : nat) (now : Z) (s : Session) : Session * option (outcome sess_err bytes) :=
  let st := the_stream s a in
  if (n =? 0)%nat then (s, Some (Ok []))
  else
    match st_recvBuf st with
    | [] =>
        if st_peerReset st then (s, Some (Err ErrStreamReset))
        else if st_readClosed st || st_localReset st then (s, Some (Err ErrStreamClosed))
        else if st_recvFin st then (s, Some (Err EOF))
        else if bool_decide (s_state s = Closed)
        then (s, Some (match s_closeErr s with Some e => Err e | None => Ok [] end))
        else if deadline_passed (st_rdl st) now then (s, Some (Err ErrDeadlineExceeded))
        else (s, None)
    | buf =>
        let got := take n buf in
        let s := upd_stream a (fun st =>
          st <| st_recvBuf := drop n buf |> <| st_readOff ::= fun r => wrap_u64 (r + Z.of_nat (length got)) |>) s in
        let st := the_stream s a in
        let s := if negb (bool_decide (s_state s = Closed)) && negb (st_recvFin st) && window_half_used st s
                 then grant a now s else s in
        (s, Some (Ok got))
    end.

(** [Write]: the loop runs until every byte is queued, the stream fails, or the
    call would wait; the count is what was written.  Each turn queues at least
    one byte, so the length of the data bounds the turns. *)
Inductive write_result : Type := Wrote | WriteErr (e : sess_err) | WriteWaits.
Fixpoint write_loop (fuel a : nat) (p : bytes) (written : nat) (now : Z) (s : Session) : Session * nat * write_result :=
  match p, fuel with
  | [], _ => (s, written, Wrote)
  | _, O => (s, written, WriteWaits)
  | _, S fuel =>
      let st := the_stream s a in
      if bool_decide (s_state s = Closed) then (s, written, WriteErr (default ErrClosed (s_closeErr s)))
      else if st_peerReset st then (s, written, WriteErr ErrStreamReset)
      else if st_localReset st || st_sendFin st then (s, written, WriteErr ErrStreamClosed)
      else if deadline_passed (st_wdl st) now then (s, written, WriteErr ErrDeadlineExceeded)
      else if negb ((st_sendOff st <? st_sendLimit st) && (s_unackedBytes s <? SendBuffer (s_cfg s)))
      then (s, written, WriteWaits)
      else
        let n := Nat.min (length p) MaxData in
        let room := wrap_u64 (st_sendLimit st - st_sendOff st) in
        let n := if room <? Z.of_nat n then Z.to_nat room else n in
        let s := queueLocked ftData (st_id st) (take n p) now s in
        let s := upd_stream a (fun st => st <| st_sendOff ::= fun o => wrap_u64 (o + Z.of_nat n) |>) s in
        write_loop fuel a (drop n p) (written + n) now s
  end.
Definition Write (a : nat) (p : bytes) (now : Z) (s : Session) : Session * nat * write_result :=
  write_loop (length p) a p 0 now s.

Definition CloseWrite (a : nat) (now : Z) (s : Session) : Session * option sess_err :=
  let st := the_stream s a in
  if bool_decide (s_state s = Closed) then (s, s_closeErr s)
  else if st_sendFin st || st_localReset st || st_peerReset st then (s, None)
  else
    let s := upd_stream a (fun st => st <| st_sendFin := true |>) s in
    (maybeForgetLocked a (queueLocked ftFin (st_id st) [] now s), None).

(** [Stream.Close] *)
Definition StreamClose (a : nat) (now : Z) (s : Session) : Session :=
  let st := the_stream s a in
  if bool_decide (s_state s = Closed) then s
  else if st_localReset st || st_peerReset st then forget (st_id st) s
  else
    let s := if st_sendFin st then s
             else queueLocked ftFin (st_id st) [] now (upd_stream a (fun st => st <| st_sendFin := true |>) s) in
    let s := upd_stream a (fun st => st <| st_readClosed := true |> <| st_recvBuf := [] |>) s in
    maybeForgetLocked a s.

(** [Stream.Reset] *)
Definition Reset (a : nat) (code now : Z) (s : Session) : Session :=
  let st := the_stream s a in
  if negb (bool_decide (s_state s = Closed)) && negb (st_localReset st) && negb (st_peerReset st)
  then resetLocked a code now s else s.

Definition SetReadDeadline (a : nat) (t : option Z) (s : Session) : Session := upd_stream a (fun st => st <| st_rdl := t |>) s.
Definition SetWriteDeadline (a : nat) (t : option Z) (s : Session) : Session := upd_stream a (fun st => st <| st_wdl := t |>) s.
End Ops.

(** ** Rekeying *)

(** Rekeying keeps the two ends in step: when the sender's key is the
      receiver's key advanced by at most eight epochs, the receiver opens the
      packet, and the key it switches to (once the packet has authenticated) is
      the sender's. *)
Theorem rekey_in_step `{AeadLaws} `{Kdf} (tx rx : dirKey) (prev : option dirKey) (n : nat) (f : frame) (pn now : Z) (p k : bytes) :
  (n <= 8)%nat -> 0 <= d_epoch rx -> d_epoch rx + Z.of_nat n < 2 ^ 16 -> u_range 16 (d_gen tx) -> u_range 64 pn ->
  d_epoch tx = d_epoch rx + Z.of_nat n -> d_key tx = rekey_from (d_key rx) (wrap_u 16 (d_epoch rx + 1)) n ->
  d_aead tx = Some (d_key tx) -> d_aead rx = Some (d_key rx) ->
  (forall d, prev = Some d -> d_epoch d < d_epoch rx) ->
  frame_typed f -> frame_wf f -> seal (d_key tx) (mkHeader (d_gen tx) (d_epoch tx) pn) f = Ok p ->
  exists next, openDirLocked rx prev (mkHeader (d_gen tx) (d_epoch tx) pn) p now = Ok (f, next) /\
    d_key (default rx next) = d_key tx /\ d_epoch (default rx next) = d_epoch tx.
Proof.
  intros Hn He0 He Hg Hp Ee Ek Et Er Hprev Hf Hw ES.
  assert (header_typed (mkHeader (d_gen tx) (d_epoch tx) pn)) as Hh by (split; [done|]; split; [unfold u_range; cbn; lia|done]).
  destruct (open_sealed _ _ _ _ Hh Hf Hw ES) as [_ HO]. unfold openDirLocked; cbn [h_epoch].
  destruct (Z.eqb_spec (d_epoch tx) (d_epoch rx)) as [E|E].
  - assert (n = 0%nat) as -> by lia. cbn [rekey_from] in Ek. unfold open_with. rewrite Er, <- Ek, HO.
    exists None. by rewrite Ek in *.
  - assert (match prev with Some d => bool_decide (d_aead d <> None) && (d_epoch tx =? d_epoch d) && (wrap_u 16 (d_epoch tx + 1) =? d_epoch rx)
      | None => false end = false) as ->.
    { destruct prev as [d|]; [|done]. specialize (Hprev d eq_refl).
      assert ((d_epoch tx =? d_epoch d) = false) as -> by (apply Z.eqb_neq; lia). by rewrite andb_false_r. }
    assert ((d_epoch rx <? d_epoch tx) = true) as -> by (apply Z.ltb_lt; lia).
    assert ((d_epoch tx - d_epoch rx <=? 8) = true) as -> by (apply Z.leb_le; lia). cbn [andb].
    replace (Z.to_nat (d_epoch tx - d_epoch rx)) with n by lia. rewrite <- Ek. unfold open_with; cbn [d_aead]. rewrite HO.
    eexists. split; [reflexivity|]. by split.
Qed.

Definition toy_kdf : Kdf := {|
  hkdf := fun salt ikm info n => be_encode n (foldl (fun acc x => Z.land (acc * 257 + x + 1) 0xFFFFFFFFFFFFFFFF) 5 (salt ++ ikm ++ info));
  hmac256 := fun k m => be_encode 32 (foldl (fun acc x => Z.land (acc * 257 + x + 1) 0xFFFFFFFFFFFFFFFF) 7 (k ++ m));
  sha256 := fun m => be_encode 32 (foldl (fun acc x => Z.land (acc * 257 + x + 1) 0xFFFFFFFFFFFFFFFF) 9 m)
|}.

Definition toy_rx : dirKey := newDirKey 0 (replicate 32 7) 0.
Definition toy_tx : dirKey :=
  (newDirKey 0 (@rekey_from toy_kdf (replicate 32 7) 1 2) 0) <| d_epoch := 2 |>.

Lemma rekey_in_step_witness : exists p next,
  @seal toy_aead (d_key toy_tx) (mkHeader 0 2 40) (mkFrame 0 1 ftData 1 [5]) = Ok p /\
  @openDirLocked toy_aead toy_kdf toy_rx None (mkHeader 0 2 40) p 9 = Ok (mkFrame 0 1 ftData 1 [5], next) /\
  d_epoch (default toy_rx next) = 2.
Proof.
  destruct (@seal toy_aead (d_key toy_tx) (mkHeader 0 2 40) (mkFrame 0 1 ftData 1 [5])) as [p|e|] eqn:E.
  2, 3: exfalso; apply (f_equal is_ok) in E; vm_compute in E; discriminate.
  destruct (@rekey_in_step toy_aead toy_laws toy_kdf toy_tx toy_rx None 2 (mkFrame 0 1 ftData 1 [5]) 40 9 p [])
    as (next & HO & _ & He).
  - lia.
  - by compute.
  - by compute.
  - by compute.
  - by compute.
  - reflexivity.
  - reflexivity.
  - reflexivity.
  - reflexivity.
  - discriminate.
  - split; [by compute|]. split; [by compute|]. split; [by compute|]. split; [by compute|]. constructor; [by compute|constructor].
  - by split.
  - exact E.
  - exists p, next. split; [reflexivity|]. split; [exact HO|exact He].
Defined.
