(* ===== verification/SessionReliable.v ===== *)
(** * Sessions survive their carriers

    Two sessions and a network that drops, delays, reorders, repeats and forges
    packets.  Whatever it does, each end hands its streams exactly the frames
    the other end queued, in order, once; the sender keeps every frame until
    the receiver has it; and no packet number is sealed twice. *)
From S2P Require Import Prelude.
From S2P Require Import GoBytes.
From S2P Require Import RecordUpdate.
From S2P Require Import AxonCells.
From S2P Require Import SessionPacket.
From S2P Require Import Session.

(** Reduce the field of an updated record. *)
Ltac ssimpl :=
  cbn [setf count upd_stream set_stream s_role s_id s_cfg s_state s_closeErr s_closeOnce s_created s_activity s_orphanedAt s_attachedAt
       s_lastRecv s_keys s_gen s_pending s_pendingGen s_tx s_rx s_rxPrev s_prx s_pn s_replay s_carrier s_carrierHostile
       s_nextSeq s_unacked s_unackedBytes s_peerAck s_recvNext s_reorder s_ackOwed s_ackOwedAt s_ackNow s_pingOwed
       s_srtt s_rttvar s_rto s_final s_heap s_streams s_nextStream s_acceptQ s_degraded s_goingAway s_retryAfter
       s_rpCounter s_svcCounter s_stats s_calls h_queued h_delivered h_sealed d_aead d_gen d_epoch d_key d_count d_started
       o_f o_sent o_sentAt o_retx o_size fst snd].

(** A frame without its acknowledgement, which is filled in when it is sealed. *)
Definition strip (f : frame) : frame := mkFrame 0 (f_seq f) (f_typ f) (f_stream f) (f_data f).

(** The reliability state of a session: what the theorems below depend on. *)
Record core : Type := mkCore {
  c_nextSeq : Z; c_queued : list frame; c_peerAck : Z; c_unacked : list frame; c_recvNext : Z;
  c_delivered : list frame; c_ids : list Z; c_nextStream : Z; c_closed : bool; c_live : bool;
  c_reorder : gmap Z frame; c_final : list bytes; c_pn : Z; c_sealed : list sealing
}.
Definition core_of (s : Session) : core :=
  mkCore (s_nextSeq s) (h_queued s) (s_peerAck s) (map o_f (s_unacked s)) (s_recvNext s) (h_delivered s)
    (map st_id (s_heap s)) (s_nextStream s) (bool_decide (s_state s = Closed)) (bool_decide (d_aead (s_tx s) <> None))
    (s_reorder s) (s_final s) (s_pn s) (h_sealed s).

(** What a queued frame must be for the peer to accept it. *)
Definition queued_frame (i : nat) (f : frame) : Prop :=
  f_seq f = wrap_u64 (Z.of_nat i + 1) /\ f_ack f = 0 /\ ft_valid (f_typ f) = true /\ ft_reliable (f_typ f) = true /\
  u_range 32 (f_stream f) /\ bytes_ok (f_data f).

Record local (c : core) : Prop := {
  lo_seq : c_nextSeq c = wrap_u64 (Z.of_nat (length (c_queued c)) + 1);
  lo_queued : forall i f, c_queued c !! i = Some f -> queued_frame i f;
  lo_ack : 0 <= c_peerAck c <= Z.of_nat (length (c_queued c));
  lo_recv : c_recvNext c = wrap_u64 (Z.of_nat (length (c_delivered c)) + 1);
  lo_ids : Forall (u_range 32) (c_ids c);
  lo_next : u_range 32 (c_nextStream c);
  lo_pn : c_pn c = wrap_u64 (Z.of_nat (length (c_sealed c)));
  lo_sealed : forall i x, c_sealed c !! i = Some x -> h_pn (sg_header x) = wrap_u64 (Z.of_nat i + 1)
}.

(** Until the session closes: every queued frame the peer has not acknowledged is
    buffered, in order, and there is a key to send under. *)
Definition buffered (c : core) : Prop :=
  c_closed c = false -> c_unacked c = drop (Z.to_nat (c_peerAck c)) (c_queued c) /\ c_live c = true.

(** A packet the session may send: a sealed control frame, or a queued frame,
    acknowledging no more than was delivered. *)
Definition good `{Aead} (c : core) (p : bytes) : Prop :=
  exists k h f, seal k h f = Ok p /\ mkSealing (Some k) h f ∈ c_sealed c /\ frame_typed f /\ ft_valid (f_typ f) = true /\
    f_ack f <= Z.of_nat (length (c_delivered c)) /\
    ((f_seq f = 0 /\ ft_reliable (f_typ f) = false) \/ exists i, c_queued c !! i = Some (strip f)).

(** What every operation but the delivery of a packet does to the core. *)
Record grows `{Aead} (c c' : core) : Prop := {
  ev_queued : c_queued c `prefix_of` c_queued c';
  ev_delivered : c_delivered c' = c_delivered c;
  ev_recv : c_recvNext c' = c_recvNext c;
  ev_ack : c_peerAck c' = c_peerAck c;
  ev_reorder : forall n f, c_reorder c' !! n = Some f -> c_reorder c !! n = Some f;
  ev_final : forall p, p ∈ c_final c' -> p ∈ c_final c \/ good c' p;
  ev_sealed : c_sealed c `prefix_of` c_sealed c';
  ev_local : local c -> local c'
}.
Definition evolves `{Aead} (c c' : core) : Prop := grows c c' /\ (local c -> buffered c -> buffered c').

Section Local.
Context `{Aead} `{Kdf}.

Lemma good_mono (c c' : core) (p : bytes) :
  c_queued c `prefix_of` c_queued c' -> c_sealed c `prefix_of` c_sealed c' ->
  (length (c_delivered c) <= length (c_delivered c'))%nat -> good c p -> good c' p.
Proof.
  intros Hq [l Hs] Hd (k & h & f & E & Hh & Ht & Hv & Ha & Hf). exists k, h, f.
  split_and!; auto; [rewrite Hs; apply elem_of_app; by left|lia|].
  destruct Hf as [Hf|(i & Hi)]; [by left|]. right. exists i. by eapply prefix_lookup_Some.
Qed.

Lemma grows_refl (c : core) : grows c c.
Proof. split; auto. Qed.

Lemma grows_trans (c1 c2 c3 : core) : grows c1 c2 -> grows c2 c3 -> grows c1 c3.
Proof.
  intros [q1 d1 r1 a1 o1 f1 s1 l1] [q2 d2 r2 a2 o2 f2 s2 l2]. split; try congruence; auto.
  - by etransitivity.
  - intros p Hp. destruct (f2 p Hp) as [Hp'|]; [|by right]. destruct (f1 p Hp') as [|Hg]; [by left|].
    right. eapply good_mono; [..|exact Hg]; auto. by rewrite d2.
  - by etransitivity.
Qed.

Lemma evolves_refl (c : core) : evolves c c.
Proof. split; [apply grows_refl|auto]. Qed.

Lemma evolves_trans (c1 c2 c3 : core) : evolves c1 c2 -> evolves c2 c3 -> evolves c1 c3.
Proof.
  intros [g1 b1] [g2 b2]. split; [by eapply grows_trans|]. intros HL HB. apply b2; [by apply g1|]. by apply b1.
Qed.

Lemma evolves_same (s s' : Session) : core_of s' = core_of s -> evolves (core_of s) (core_of s').
Proof. intros ->. apply evolves_refl. Qed.

(** The core of a session after a change of fields outside it. *)
Ltac same_core := apply evolves_same; unfold core_of; ssimpl; try reflexivity.

Lemma evolves_count (g : Stats -> Stats) (s : Session) : evolves (core_of s) (core_of (count g s)).
Proof. same_core. Qed.

Lemma map_unsend (u : list outFrame) : map o_f (map unsend u) = map o_f u.
Proof. rewrite map_map. by apply map_ext. Qed.

Lemma map_st_id_insert (a : nat) (st : Stream) (h : list Stream) :
  (forall st', h !! a = Some st' -> st_id st = st_id st') -> map st_id (<[a := st]> h) = map st_id h.
Proof.
  intros E. change (map st_id) with (fmap (M := list) st_id). rewrite list_fmap_insert.
  destruct (decide (a < length h)%nat) as [Hl|Hl].
  - apply lookup_lt_is_Some in Hl as [st' Hs]. apply list_insert_id. by rewrite list_lookup_fmap, Hs, (E _ Hs).
  - apply list_insert_ge. rewrite length_fmap. lia.
Qed.

Lemma the_stream_lookup (s : Session) (a : nat) (st : Stream) : s_heap s !! a = Some st -> the_stream s a = st.
Proof. intros E. unfold the_stream. by rewrite nth_lookup, E. Qed.

(** Changing a stream in the heap but not its id. *)
Lemma core_upd (a : nat) (g : Stream -> Stream) (s : Session) :
  (forall st, st_id (g st) = st_id st) -> core_of (upd_stream a g s) = core_of s.
Proof.
  intros E. unfold upd_stream, set_stream, core_of; ssimpl. f_equal.
  apply map_st_id_insert. intros st' Hs. by rewrite E, (the_stream_lookup _ _ _ Hs).
Qed.

Lemma the_stream_id (s : Session) (a : nat) : local (core_of s) -> u_range 32 (st_id (the_stream s a)).
Proof.
  intros Hl. unfold the_stream. rewrite nth_lookup. destruct (s_heap s !! a) as [st|] eqn:E; cbn; [|done].
  pose proof (lo_ids _ Hl) as HF. rewrite Forall_forall in HF. apply HF.
  apply list_elem_of_fmap. exists st. split; [done|]. by eapply list_elem_of_lookup_2.
Qed.

(** Queueing a reliable frame. *)
Lemma evolves_queue (typ stream : Z) (data : bytes) (now : Z) (s : Session) :
  ft_valid typ = true -> ft_reliable typ = true -> (local (core_of s) -> u_range 32 stream) -> bytes_ok data ->
  evolves (core_of s) (core_of (queueLocked typ stream data now s)).
Proof.
  intros Hv Hr Hs Hd. unfold queueLocked, core_of; ssimpl. split.
  - split; cbn; auto; [by apply prefix_app_r|].
    intros HL. specialize (Hs HL). destruct HL as [L1 L2 L3 L5 L6 L7 L9 L10]; cbn in *. split; cbn; auto.
    + rewrite L1, length_app. cbn. rewrite Nat2Z.inj_add. unfold wrap_u. rewrite Zplus_mod_idemp_l. f_equal; lia.
    + intros i f Hi. apply lookup_app_Some in Hi as [Hi|[Hge Hi]]; [by apply L2|].
      apply list_lookup_singleton_Some in Hi as [Hi <-]. assert (i = length (h_queued s)) as -> by lia.
      unfold queued_frame; cbn. split_and!; auto.
    + rewrite length_app. cbn. lia.
  - intros HL HB Hc. destruct (HB Hc) as [HU Hv']. pose proof (lo_ack _ HL). cbn in *. split; [|done].
    rewrite map_app, HU. cbn. by rewrite drop_app_le by lia.
Qed.

(** The frames [sealLocked] is called with. *)
Definition sendable (s : Session) (f : frame) : Prop :=
  (f_seq f = 0 /\ ft_valid (f_typ f) = true /\ ft_reliable (f_typ f) = false /\ f_stream f = 0 /\ f_data f = []) \/
  exists i, h_queued s !! i = Some (strip f).

Lemma valid_byte (t : Z) : ft_valid t = true -> byte_ok t.
Proof. unfold ft_valid, byte_ok, ftAck, ftPing, ftOpen, ftData, ftFin, ftReset, ftWindow, ftClose. intros E. lia. Qed.

Lemma sendable_typed (s : Session) (f : frame) (ack : Z) :
  local (core_of s) -> sendable s f -> u_range 64 ack ->
  frame_typed (mkFrame ack (f_seq f) (f_typ f) (f_stream f) (f_data f)) /\ ft_valid (f_typ f) = true.
Proof.
  intros HL [(Hs & Hv & Hr & Hst & Hd)|(i & Hi)] Ha.
  - rewrite Hs, Hst, Hd. split; [|done]. split; cbn; [done|]. split; [done|]. split; [by apply valid_byte|]. split; [done|constructor].
  - destruct (lo_queued _ HL i _ Hi) as (Hseq & _ & Hv & Hr & Hst & Hd). cbn in *. split; [|done].
    split; cbn; [done|]. split; [rewrite Hseq; apply wrap_u_range; lia|]. split; [by apply valid_byte|]. by split.
Qed.

Lemma wrap_pred (n : nat) : wrap_u64 (wrap_u64 (Z.of_nat n + 1) - 1) <= Z.of_nat n.
Proof.
  unfold wrap_u. rewrite Zminus_mod_idemp_l. replace (Z.of_nat n + 1 - 1) with (Z.of_nat n) by lia. apply Z.mod_le; lia.
Qed.

(** Sealing leaves everything but the keys and the packet number. *)
Record seal_frame (s s' : Session) : Prop := {
  sf_unacked : s_unacked s' = s_unacked s; sf_state : s_state s' = s_state s; sf_cfg : s_cfg s' = s_cfg s;
  sf_ping : s_pingOwed s' = s_pingOwed s; sf_carrier : s_carrier s' = s_carrier s;
  sf_queued : h_queued s' = h_queued s; sf_delivered : h_delivered s' = h_delivered s; sf_recv : s_recvNext s' = s_recvNext s
}.

Lemma rekey_tx_core (now : Z) (s : Session) : exists d, s_stats (rekey_tx now s) = s_stats (rekey_tx now s) /\
  core_of (rekey_tx now s) = core_of (s <| s_tx := d |>) /\ seal_frame s (rekey_tx now s) /\
  s_tx (rekey_tx now s) = d /\ (d_aead (s_tx s) <> None -> d_aead d <> None).
Proof.
  exists (s_tx (rekey_tx now s)). unfold rekey_tx. destruct (_ || _); [|by destruct s].
  split; [done|]. unfold core_of; ssimpl. by split_and!.
Qed.

Lemma sealLocked_spec (f : frame) (now : Z) (s s' : Session) (r : outcome packet_err bytes) :
  sealLocked f now s = (s', r) ->
  evolves (core_of s) (core_of s') /\ seal_frame s s' /\
  (forall p, r = Ok p -> local (core_of s) -> sendable s f -> good (core_of s') p) /\
  (buffered (core_of s) -> s_state s <> Closed -> r <> Panic).
Proof.
  unfold sealLocked. destruct (rekey_tx_core now s) as (d & _ & Ec & SF & Et & Hlive).
  set (s1 := rekey_tx now s) in *. clearbody s1. intros [= <- <-].
  unfold core_of in Ec; revert Ec; ssimpl; intros [= En Eq Ea Eu Er Ed Ei Ens Ecl Eli Ero Ef Ep Es].
  destruct SF as [F1 F2 F3 F4 F5 F6 F7 F8]. split; [|split; [|split]].
  - unfold core_of; ssimpl. rewrite En, Eq, Ea, Eu, Er, Ed, Ei, Ens, Ecl, Ero, Ef, Ep, Es, Et. split; [split|]; cbn; auto.
    + by apply prefix_app_r.
    + intros [L1 L2 L3 L5 L6 L7 L9 L10]; cbn in *. split; cbn; auto.
      * rewrite L9, length_app. cbn. unfold incr64, wrap_u. rewrite Zplus_mod_idemp_l. f_equal; lia.
      * intros i h Hi. apply lookup_app_Some in Hi as [Hi|[Hge Hi]]; [by apply L10|].
        apply list_lookup_singleton_Some in Hi as [Hi <-]. cbn [sg_header h_pn]. assert (i = length (h_sealed s)) as -> by lia.
        rewrite L9. unfold incr64, wrap_u. by rewrite Zplus_mod_idemp_l.
    + intros HL HB Hc. destruct (HB Hc) as [HU Hv']. split; [done|]. cbn in *. apply bool_decide_eq_true in Hv'.
      apply bool_decide_eq_true. by apply Hlive.
  - split; ssimpl; done.
  - intros p. ssimpl. rewrite Et. destruct (d_aead d) as [k|]; [|discriminate]. intros E HL Hf.
    exists k. eexists _, _. split; [exact E|]. split; [unfold core_of; ssimpl; apply elem_of_app; right; by apply list_elem_of_singleton|].
    destruct (sendable_typed s f (wrap_u64 (s_recvNext s1 - 1)) HL Hf) as [HT HV]; [apply wrap_u_range; lia|].
    split; [done|]. split; [done|]. pose proof (lo_recv _ HL) as Lr. cbn in Lr. cbn. rewrite Ed, Er, Lr. split; [apply wrap_pred|].
    destruct Hf as [(Hs & _ & Hr & _)|(i & Hi)]; [by left|]. right. exists i. unfold core_of; ssimpl. by rewrite Eq, Hi.
  - intros HB Hns. ssimpl. rewrite Et. destruct (HB (bool_decide_eq_false_2 _ Hns)) as [_ HLv]. cbn in HLv.
    apply bool_decide_eq_true in HLv.
    destruct (d_aead d); [|by destruct (Hlive HLv)]. unfold seal, guard_err. by destruct (_ <? _)%nat.
Qed.

(** A change that only drops reliability state (or nothing). *)
Lemma evolves_attach (c : nat) (now : Z) (s : Session) :
  s_state s <> Closed -> evolves (core_of s) (core_of (attachLocked c now s)).
Proof.
  intros Hc. unfold attachLocked. destruct (bool_decide _); apply evolves_same; unfold core_of; ssimpl;
    rewrite map_unsend, bool_decide_false by done; by rewrite (bool_decide_false (s_state s = Closed)).
Qed.

Lemma evolves_orphan (why : sess_err) (now : Z) (s : Session) :
  evolves (core_of s) (core_of (orphanLocked why now s)).
Proof.
  unfold orphanLocked. case_bool_decide as E; [|apply evolves_refl].
  destruct (OnOrphan _); apply evolves_same; unfold core_of; ssimpl; rewrite map_unsend, E; reflexivity.
Qed.

Lemma evolves_carrier_lost (c : nat) (why : option sess_err) (now : Z) (s : Session) :
  evolves (core_of s) (core_of (CarrierLost c why now s)).
Proof. unfold CarrierLost. destruct (_ && _); [apply evolves_orphan|apply evolves_refl]. Qed.

Lemma evolves_hostile (c : option nat) (now : Z) (s : Session) :
  evolves (core_of s) (core_of (hostileLocked c now s)).
Proof.
  unfold hostileLocked. destruct (_ && _); [|apply evolves_count].
  eapply evolves_trans; [apply (evolves_count (fun k => k <| Hostile ::= incr64 |>))|].
  destruct (_ <=? _); [eapply evolves_trans; [|apply evolves_orphan]|]; same_core.
Qed.

Lemma evolves_forget (id : Z) (s : Session) : evolves (core_of s) (core_of (forget id s)).
Proof. same_core. Qed.

Lemma evolves_maybeForget (a : nat) (s : Session) : evolves (core_of s) (core_of (maybeForgetLocked a s)).
Proof. unfold maybeForgetLocked. destruct (_ && _); [apply evolves_forget|apply evolves_refl]. Qed.

Lemma close_heap_ids (s : Session) :
  map st_id (map_fold (fun _ a h => <[a := (the_stream s a) <| st_recvBuf := [] |>]> h) (s_heap s) (s_streams s))
  = map st_id (s_heap s).
Proof.
  apply (map_fold_weak_ind (fun r (_ : gmap Z nat) => map st_id r = map st_id (s_heap s))); [done|].
  intros i a m r _ IH. rewrite <- IH. apply map_st_id_insert. intros st' Hs.
  apply (f_equal (fun l => l !! a)) in IH. change (map st_id) with (fmap (M := list) st_id) in IH.
  rewrite !list_lookup_fmap, Hs in IH. cbn in IH. symmetry in IH.
  apply fmap_Some in IH as (st & Hst & E). by rewrite (the_stream_lookup _ _ _ Hst).
Qed.

(** The core of a closed session. *)
Definition shut (c : core) : core :=
  mkCore (c_nextSeq c) (c_queued c) (c_peerAck c) [] (c_recvNext c) (c_delivered c) (c_ids c) (c_nextStream c) true false ∅
    (c_final c) (c_pn c) (c_sealed c).

Lemma evolves_shut (c c' : core) : grows c c' -> evolves c (shut c').
Proof.
  intros HG. split; [|by intros _ _ ?]. eapply grows_trans; [exact HG|]. split; cbn; auto.
  { intros n f Hn. by rewrite lookup_empty in Hn. }
  intros [L1 L2 L3 L5 L6 L7 L9 L10]. by split.
Qed.

Lemma grows_say_close (why : sess_err) (now : Z) (s : Session) :
  local (core_of s) -> grows (core_of s) (core_of (say_close why now s)).
Proof.
  intros HL0. unfold say_close. set (f := mkFrame _ _ _ _ _). set (s1 := s <| s_nextSeq := _ |> <| h_queued ::= _ |>).
  assert (bytes_ok (f_data f)) as Hdat.
  { cbn. repeat constructor; cbn; try lia. all: destruct why; unfold CloseNormal, CloseLifetime, CloseIdle; cbn; lia. }
  assert (grows (core_of s) (core_of s1)) as G1.
  { split; unfold core_of, s1; ssimpl; cbn; auto; [by apply prefix_app_r|].
    intros [L1 L2 L3 L5 L6 L7 L9 L10]; cbn in *. split; cbn; auto.
    - rewrite L1, length_app. cbn. rewrite Nat2Z.inj_add. unfold wrap_u. rewrite Zplus_mod_idemp_l. f_equal; lia.
    - intros i g Hi. apply lookup_app_Some in Hi as [Hi|[Hge Hi]]; [by apply L2|].
      apply list_lookup_singleton_Some in Hi as [Hi <-]. assert (i = length (h_queued s)) as -> by lia. by split_and!.
    - rewrite length_app. cbn. lia. }
  destruct (sealLocked f now s1) as [s2 r] eqn:E. destruct (sealLocked_spec _ _ _ _ _ E) as ([G2 _] & SF & HG & _).
  pose proof (grows_trans _ _ _ G1 G2) as G. destruct r as [p| |]; auto.
  eapply grows_trans; [exact G|]. split; unfold core_of; ssimpl; cbn; auto.
  - intros q [Hq|Hq]%elem_of_app; [by left|]. apply list_elem_of_singleton in Hq as ->. right.
    specialize (HG p eq_refl (ev_local _ _ G1 HL0)). unfold good in *. cbn in *. apply HG. right.
    exists (length (h_queued s)). unfold s1. cbn. by rewrite lookup_app_r, Nat.sub_diag by lia.
  - intros [L1 L2 L3 L5 L6 L7 L9 L10]. by split.
Qed.

Lemma evolves_close (why : sess_err) (tell : bool) (now : Z) (s : Session) :
  local (core_of s) -> evolves (core_of s) (core_of (closeLocked why tell now s)).
Proof.
  intros HL. unfold closeLocked. case_bool_decide as Hc; [apply evolves_refl|].
  set (s1 := if _ && _ then _ else _).
  assert (grows (core_of s) (core_of s1)) as G by (unfold s1; destruct (_ && _); [by apply grows_say_close|apply grows_refl]).
  clearbody s1. apply evolves_shut in G. unfold wipe_session.
  match goal with |- evolves _ ?c => replace c with (shut (core_of s1)); [exact G|] end.
  destruct (OnClose _ && _); unfold core_of, shut; ssimpl; rewrite <- (close_heap_ids s1); reflexivity.
Qed.

(** *** Streams *)

(** Streams are queued for under their own id. *)
Lemma evolves_queue_for (a : nat) (typ : Z) (data : bytes) (now : Z) (s s' : Session) :
  ft_valid typ = true -> ft_reliable typ = true -> bytes_ok data -> core_of s' = core_of s ->
  evolves (core_of s) (core_of (queueLocked typ (st_id (the_stream s a)) data now s')).
Proof.
  intros Hv Hr Hd E. rewrite <- E. apply evolves_queue; auto. rewrite E. apply the_stream_id.
Qed.

Lemma evolves_reset (a : nat) (code now : Z) (s : Session) : evolves (core_of s) (core_of (resetLocked a code now s)).
Proof.
  unfold resetLocked. eapply evolves_trans; [|apply evolves_forget].
  match goal with |- context [upd_stream a ?g s] => rewrite <- (core_upd a g s) by done end.
  by apply evolves_queue_for; [..|apply le_encode_ok|].
Qed.

Lemma evolves_refuse (id now : Z) (s : Session) :
  u_range 32 id -> evolves (core_of s) (core_of (refuseLocked id now s)).
Proof.
  intros Hid. unfold refuseLocked. destruct (_ || _); [apply evolves_refl|].
  apply evolves_queue; [done|done|done|apply le_encode_ok].
Qed.

Lemma evolves_grant (a : nat) (now : Z) (s : Session) : evolves (core_of s) (core_of (grant a now s)).
Proof. unfold grant. apply evolves_queue_for; [done|done|apply le_encode_ok|]. by apply core_upd. Qed.

Lemma evolves_new_stream (id : Z) (meta : bytes) (s : Session) :
  u_range 32 id -> evolves (core_of s) (core_of (snd (newStreamLocked id meta s))).
Proof.
  intros Hid. unfold newStreamLocked, core_of; ssimpl. split; [|by intros _ HB]. split; cbn; auto.
  intros [L1 L2 L3 L5 L6 L7 L9 L10]. split; cbn in *; auto.
  rewrite map_app. apply Forall_app. split; [done|]. cbn. by constructor.
Qed.

Lemma evolves_OpenStream (meta : bytes) (now : Z) (s : Session) :
  bytes_ok meta -> local (core_of s) -> evolves (core_of s) (core_of (fst (OpenStream meta now s))).
Proof.
  intros Hm HL. unfold OpenStream. destruct (_ <? _)%nat; [apply evolves_refl|].
  destruct (bool_decide _); [apply evolves_refl|]. destruct (s_degraded s); [apply evolves_refl|].
  destruct (s_goingAway s); [apply evolves_refl|]. destruct (_ <? _); [apply evolves_refl|].
  pose proof (lo_next _ HL) as HR. cbn in HR. set (s1 := s <| s_nextStream := _ |>).
  apply (evolves_trans _ (core_of s1)).
  { unfold s1, core_of; ssimpl. split; [|by intros _ HB]. split; cbn; auto. intros [L1 L2 L3 L5 L6 L7 L9 L10].
    split; cbn in *; auto. apply wrap_u_range. lia. }
  pose proof (evolves_new_stream (s_nextStream s) meta s1 HR) as E2.
  destruct (newStreamLocked (s_nextStream s) meta s1) as [a s2]. cbn [fst snd] in *.
  eapply evolves_trans; [exact E2|]. by apply evolves_queue.
Qed.

Lemma evolves_Read (a n : nat) (now : Z) (s : Session) : evolves (core_of s) (core_of (fst (Read a n now s))).
Proof.
  unfold Read. destruct (n =? 0)%nat; [apply evolves_refl|].
  destruct (st_recvBuf (the_stream s a)) as [|b buf]; [repeat case_match; apply evolves_refl|]. cbn [fst].
  set (s1 := upd_stream _ _ s). assert (core_of s1 = core_of s) as <- by by apply core_upd.
  destruct (_ && _); [apply evolves_grant|apply evolves_refl].
Qed.

Lemma evolves_write_loop (fuel a : nat) (now : Z) : forall p written s,
  bytes_ok p -> evolves (core_of s) (core_of (fst (fst (write_loop fuel a p written now s)))).
Proof.
  induction fuel as [|fuel IH]; intros p written s Hp; cbn [write_loop]; (destruct p as [|b p]; [apply evolves_refl|]); [apply evolves_refl|].
  repeat match goal with |- context [if ?b then (_, _, _) else _] => destruct b; [apply evolves_refl|] end.
  set (s1 := queueLocked _ _ _ _ _). set (s2 := upd_stream _ _ s1).
  assert (core_of s2 = core_of s1) as E2 by by apply core_upd.
  apply (evolves_trans _ (core_of s1)).
  - apply evolves_queue_for; [done|done|by apply Forall_take|done].
  - rewrite <- E2. apply IH. by apply Forall_drop.
Qed.

Lemma evolves_CloseWrite (a : nat) (now : Z) (s : Session) : evolves (core_of s) (core_of (fst (CloseWrite a now s))).
Proof.
  unfold CloseWrite. destruct (bool_decide _); [apply evolves_refl|]. destruct (_ || _); [apply evolves_refl|]. cbn [fst].
  eapply evolves_trans; [|apply evolves_maybeForget]. apply evolves_queue_for; [done|done|constructor|by apply core_upd].
Qed.

Lemma evolves_StreamClose (a : nat) (now : Z) (s : Session) : evolves (core_of s) (core_of (StreamClose a now s)).
Proof.
  unfold StreamClose. destruct (bool_decide _); [apply evolves_refl|]. destruct (_ || _); [apply evolves_forget|].
  eapply evolves_trans; [|apply evolves_maybeForget]. rewrite core_upd by done.
  destruct (st_sendFin _); [apply evolves_refl|]. apply evolves_queue_for; [done|done|constructor|by apply core_upd].
Qed.

Lemma evolves_Reset (a : nat) (code now : Z) (s : Session) : evolves (core_of s) (core_of (Reset a code now s)).
Proof. unfold Reset. destruct (_ && _); [apply evolves_reset|apply evolves_refl]. Qed.

Lemma evolves_GoAway (retryAfter now : Z) (s : Session) : evolves (core_of s) (core_of (GoAway retryAfter now s)).
Proof.
  unfold GoAway. destruct (bool_decide _); [apply evolves_refl|]. set (s1 := s <| s_goingAway := true |>).
  change (core_of s) with (core_of s1). apply evolves_queue; [done|done|done|].
  constructor; [by compute|apply le_encode_ok].
Qed.

Lemma evolves_Ratchet (newSeed : bytes) (now : Z) (s : Session) : evolves (core_of s) (core_of (fst (Ratchet newSeed now s))).
Proof.
  unfold Ratchet. case_bool_decide as Hc; [apply evolves_refl|]. unfold installKeysLocked, core_of.
  destruct (s_role s =? Client) eqn:ER; ssimpl; rewrite ?ER; cbn [fst]; ssimpl.
  all: (split; [split; cbn; auto; by intros [L1 L2 L3 L5 L6 L7 L9 L10]|]).
  all: intros _ HB Hcl; destruct (HB Hcl) as [HU _]; cbn in *; by split.
Qed.

Lemma core_commitPending (s : Session) : core_of (commitPendingLocked s) = core_of s.
Proof. unfold commitPendingLocked. by destruct (s_pending s). Qed.

Lemma evolves_AcceptResume (counter : Z) (proof cookie rp : bytes) (s : Session) :
  core_of (fst (AcceptResume counter proof cookie rp s)) = core_of s.
Proof.
  unfold AcceptResume. repeat case_match; try done. cbn [fst].
  transitivity (core_of (commitPendingLocked s)); [done|apply core_commitPending].
Qed.

(** *** The run loop *)

Lemma seal_frame_trans (s1 s2 s3 : Session) : seal_frame s1 s2 -> seal_frame s2 s3 -> seal_frame s1 s3.
Proof. intros [] []. split; congruence. Qed.

Lemma seal_frame_refl (s : Session) : seal_frame s s.
Proof. by split. Qed.

(** A change of the buffered frames that keeps the frames themselves. *)
Lemma core_set_unacked (u : list outFrame) (s : Session) :
  map o_f u = map o_f (s_unacked s) -> core_of (s <| s_unacked := u |>) = core_of s.
Proof. intros E. unfold core_of; ssimpl. by rewrite E. Qed.

Lemma evolves_good (s s' : Session) (p : bytes) : evolves (core_of s) (core_of s') -> good (core_of s) p -> good (core_of s') p.
Proof. intros [G _]. apply good_mono; [apply G|apply G|]. by rewrite (ev_delivered _ _ G). Qed.

(** A sealing step of a loop: what it adds to the output is good at the end. *)
Definition emits (s s' : Session) (out : list bytes) : Prop :=
  evolves (core_of s) (core_of s') /\ seal_frame s s' /\ Forall (good (core_of s')) out.

Lemma emits_trans (s1 s2 s3 : Session) (o1 o2 : list bytes) :
  emits s1 s2 o1 -> emits s2 s3 o2 -> emits s1 s3 (o1 ++ o2).
Proof.
  intros (E1 & F1 & G1) (E2 & F2 & G2). split; [by eapply evolves_trans|]. split; [by eapply seal_frame_trans|].
  apply Forall_app. split; [|done]. eapply Forall_impl; [exact G1|]. intros p. by apply evolves_good.
Qed.

Lemma emits_nil (s : Session) : emits s s [].
Proof. split; [apply evolves_refl|]. split; [apply seal_frame_refl|constructor]. Qed.

Lemma emits_count (g : Stats -> Stats) (s s' : Session) (out : list bytes) :
  emits s s' out -> emits s (count g s') out.
Proof. intros (E & F & G). split; [exact E|]. split; [|exact G]. destruct F. by split. Qed.

Lemma seal_emits (f : frame) (now : Z) (s s' : Session) (r : outcome packet_err bytes) :
  sealLocked f now s = (s', r) -> local (core_of s) -> sendable s f ->
  emits s s' (match r with Ok p => [p] | _ => [] end).
Proof.
  intros E HL Hf. destruct (sealLocked_spec _ _ _ _ _ E) as (HE & HF & HG & _). split; [done|]. split; [done|].
  destruct r; constructor; [|constructor]. by apply HG.
Qed.

Lemma queued_sendable (s : Session) (i : nat) (f : frame) :
  local (core_of s) -> h_queued s !! i = Some f -> sendable s f.
Proof.
  intros HL Hi. right. exists i. destruct (lo_queued _ HL i f Hi) as (_ & Ha & _). rewrite Hi. f_equal. destruct f; cbn in *. by subst.
Qed.

Lemma transmit_spec (todo : list outFrame) (now : Z) : forall inflight s u out s',
  transmit todo inflight now s = (u, out, s') -> local (core_of s) ->
  Forall (fun o => exists i, h_queued s !! i = Some (o_f o)) todo ->
  map o_f u = map o_f todo /\ emits s s' out.
Proof.
  induction todo as [|o todo IH]; intros inflight s u out s' E HL HQ; cbn [transmit] in E.
  { injection E as <- <- <-. split; [done|apply emits_nil]. }
  apply Forall_cons in HQ as [[i Hi] HQ].
  destruct (o_sent o).
  { destruct (transmit todo inflight now s) as [[u1 out1] s1] eqn:E1. injection E as <- <- <-.
    destruct (IH _ _ _ _ _ E1 HL HQ) as [Hm HE]. split; [cbn; by rewrite Hm|done]. }
  destruct (_ <=? _). { injection E as <- <- <-. split; [done|apply emits_nil]. }
  destruct (sealLocked (o_f o) now s) as [s1 r] eqn:ES.
  pose proof (seal_emits _ _ _ _ _ ES HL (queued_sendable s i _ HL Hi)) as HE1.
  assert (local (core_of s1)) as HL1 by by apply HE1.
  assert (Forall (fun o => exists i, h_queued s1 !! i = Some (o_f o)) todo) as HQ1
    by (destruct HE1 as (_ & F & _); by rewrite (sf_queued _ _ F)).
  destruct r as [p| |].
  - revert E. set (s2 := if _ && _ then _ else _). intros E.
    assert (emits s s2 [p]) as HE2 by (unfold s2; destruct (_ && _); by apply emits_count).
    assert (local (core_of s2)) as HL2 by (unfold s2; by destruct (_ && _)).
    assert (h_queued s2 = h_queued s1) as EQ by (unfold s2; by destruct (_ && _)).
    destruct (transmit todo (inflight + 1) now s2) as [[u1 out1] s3] eqn:E1. injection E as <- <- <-.
    rewrite <- EQ in HQ1. destruct (IH _ _ _ _ _ E1 HL2 HQ1) as [Hm HE]. split; [|exact (emits_trans _ _ _ _ _ HE2 HE)].
    cbn. rewrite Hm. f_equal. by destruct (bool_decide _).
  - destruct (transmit todo inflight now s1) as [[u1 out1] s3] eqn:E1. injection E as <- <- <-.
    destruct (IH _ _ _ _ _ E1 HL1 HQ1) as [Hm HE]. split; [cbn; by rewrite Hm|]. exact (emits_trans _ _ _ _ _ HE1 HE).
  - destruct (transmit todo inflight now s1) as [[u1 out1] s3] eqn:E1. injection E as <- <- <-.
    destruct (IH _ _ _ _ _ E1 HL1 HQ1) as [Hm HE]. split; [cbn; by rewrite Hm|]. exact (emits_trans _ _ _ _ _ HE1 HE).
Qed.

Lemma seal_control_emits (typ now : Z) (out out' : list bytes) (s s' : Session) :
  seal_control typ now out s = (out', s') -> local (core_of s) -> typ = ftPing \/ typ = ftAck ->
  exists new, out' = out ++ new /\ emits s s' new.
Proof.
  unfold seal_control. intros E HL Ht. destruct (sealLocked _ now s) as [s1 r] eqn:ES.
  assert (emits s s1 (match r with Ok p => [p] | _ => [] end)) as HE.
  { eapply seal_emits; [exact ES|done|]. left. by destruct Ht as [-> | ->]. }
  destruct r; injection E as <- <-; eexists; (split; [|exact HE]); by rewrite ?app_nil_r.
Qed.

(** What the run loop hands to the carrier, and the session it leaves. *)
Definition sends (s s' : Session) (out : list bytes) : Prop :=
  evolves (core_of s) (core_of s') /\ Forall (good (core_of s')) out.

Lemma sends_app (s1 s2 s3 : Session) (o1 o2 : list bytes) : sends s1 s2 o1 -> sends s2 s3 o2 -> sends s1 s3 (o1 ++ o2).
Proof.
  intros (E1 & G1) (E2 & G2). split; [by eapply evolves_trans|].
  apply Forall_app. split; [|done]. eapply Forall_impl; [exact G1|]. intros p. by apply evolves_good.
Qed.

Lemma sends_core (s s' : Session) (out : list bytes) (s'' : Session) :
  sends s s' out -> core_of s'' = core_of s' -> sends s s'' out.
Proof. unfold sends. by intros ? ->. Qed.

Lemma expire_core (now : Z) (s : Session) : core_of (fst (expire now s)) = core_of s.
Proof.
  unfold expire. destruct (s_unacked s) as [|o u] eqn:E; [done|]. destruct (_ && _); [|done]. cbn [fst].
  unfold core_of; ssimpl. by rewrite E.
Qed.

Lemma collect_sends (now : Z) (s s' : Session) (out : list bytes) (c : option nat) :
  collectLocked now s = (out, c, s') -> local (core_of s) -> buffered (core_of s) -> sends s s' out.
Proof.
  unfold collectLocked. intros E HL HB.
  destruct (negb _ || _) eqn:EB. { injection E as <- <- <-. split; [apply evolves_refl|constructor]. }
  apply orb_false_iff in EB as [Hst _]. zbool.
  pose proof (expire_core now s) as Ex. destruct (expire now s) as [s1 n]. cbn [fst] in Ex.
  destruct (transmit (s_unacked s1) n now s1) as [[u out1] s2] eqn:ET.
  rewrite <- Ex in HL, HB.
  assert (s_state s1 <> Closed) as Hns.
  { intros HC. apply (f_equal c_closed) in Ex. unfold core_of in Ex; cbn in Ex.
    rewrite (bool_decide_eq_true_2 _ HC), Hst in Ex. by rewrite bool_decide_false in Ex. }
  destruct (transmit_spec _ _ _ _ _ _ _ ET HL) as [Hm HE].
  { destruct (HB (bool_decide_eq_false_2 _ Hns)) as [HU _]. cbn in HU. apply Forall_forall. intros o Ho.
    assert (o_f o ∈ map o_f (s_unacked s1)) as Hin by (apply list_elem_of_fmap; eauto).
    rewrite HU in Hin. apply list_elem_of_lookup_1 in Hin as [i Hi]. rewrite lookup_drop in Hi. eauto. }
  destruct HE as (HE & HF & HG).
  set (s3 := s2 <| s_unacked := u |>) in E.
  assert (core_of s3 = core_of s2) as E3 by (apply core_set_unacked; by rewrite Hm, (sf_unacked _ _ HF)).
  assert (sends s s3 out1) as S3 by (apply (sends_core _ s2); [split; [by rewrite <- Ex|done]|done]).
  assert (local (core_of s3)) as HL3 by (rewrite E3; by apply HE).
  set (ping := if s_pingOwed s3 then _ else _) in E.
  assert (exists new, ping.1 = out1 ++ new /\ sends s3 ping.2 new) as (new & Ep & Sp).
  { unfold ping. destruct (s_pingOwed s3); [|exists []; cbn; rewrite app_nil_r; split; [done|split; [apply evolves_refl|constructor]]].
    destruct (seal_control ftPing now out1 s3) as [out2 s4] eqn:EC.
    destruct (seal_control_emits _ _ _ _ _ _ EC HL3 (or_introl eq_refl)) as (new & -> & (HE4 & _ & HG4)).
    exists new. split; [done|]. by split. }
  destruct ping as [out2 s4]. cbn [fst snd] in *. subst out2. pose proof (sends_app _ _ _ _ _ S3 Sp) as S4.
  assert (local (core_of s4)) as HL4 by by apply Sp.
  destruct (out1 ++ new) as [|p rest]; [|by injection E as <- <- <-].
  destruct (_ && _); [|by injection E as <- <- <-].
  destruct (seal_control ftAck now [] s4) as [out5 s5] eqn:EC. injection E as <- <- <-.
  destruct (seal_control_emits _ _ _ _ _ _ EC HL4 (or_intror eq_refl)) as (new5 & -> & (HE5 & _ & HG5)).
  apply (sends_core _ s5); [|done]. eapply sends_app; [exact S4|]. by split.
Qed.

Lemma evolves_checkTimers (now : Z) (s : Session) :
  local (core_of s) -> evolves (core_of s) (core_of (checkTimersLocked now s)).
Proof.
  intros HL. unfold checkTimersLocked.
  repeat match goal with |- context [if ?b then _ else _] => destruct b end;
    first [apply evolves_refl|by apply evolves_close|apply evolves_orphan].
Qed.

Lemma run_sends (now : Z) (s s' : Session) (out : list bytes) (c : option nat) (d : Z) (b : bool) :
  run_locked now s = ((out, c), d, b, s') -> local (core_of s) -> buffered (core_of s) ->
  Forall (good (core_of s)) (s_final s) -> sends s s' out.
Proof.
  unfold run_locked. intros E HL HB HG. pose proof (evolves_checkTimers now s HL) as E1.
  destruct (collectLocked now (checkTimersLocked now s)) as [[out1 c1] s2] eqn:EC.
  pose proof (collect_sends _ _ _ _ _ EC ltac:(by apply E1) ltac:(by apply E1)) as [E2 S2].
  pose proof (evolves_trans _ _ _ E1 E2) as [G12 B12].
  destruct (bool_decide (s_state s2 = Closed)) eqn:ECl; injection E as <- <- <- <- <-; [|by split].
  split.
  - split; [|exact B12]. eapply grows_trans; [exact G12|]. unfold core_of; ssimpl.
    split; cbn; auto. { by intros p Hp%elem_of_nil. } intros [L1 L2 L3 L5 L6 L7 L9 L10]. by split.
  - apply Forall_forall. intros p Hp. destruct (ev_final _ _ G12 p Hp) as [Hin|Hg].
    + rewrite Forall_forall in HG. specialize (HG p Hin). eapply good_mono; [..|exact HG]; [apply G12|apply G12|].
      pose proof (ev_delivered _ _ G12) as ED. cbn in *. by rewrite ED.
    + exact Hg.
Qed.

(** *** Acknowledgements *)

Definition small (n : nat) : Prop := Z.of_nat n < 2 ^ 64 - 1.

Lemma small_seq (n i : nat) : small n -> (i < n)%nat -> wrap_u64 (Z.of_nat i + 1) = Z.of_nat i + 1.
Proof. unfold small. intros. apply wrap_u_small. unfold u_range. lia. Qed.

(** Frames numbered from [base + 1]: the loop drops those up to [ack]. *)
Lemma pop_acked_spec (ack now base : Z) (u : list outFrame) : forall size sample,
  (forall j o, u !! j = Some o -> f_seq (o_f o) = base + Z.of_nat j + 1) -> base <= ack ->
  fst (fst (pop_acked ack now u size sample)) = drop (Z.to_nat (ack - base)) u.
Proof.
  revert base. induction u as [|o u IH]; intros base size sample Hu Hb; cbn [pop_acked]; [by rewrite drop_nil|].
  pose proof (Hu 0%nat o eq_refl) as Ho. cbn in Ho. destruct (Z.leb_spec (f_seq (o_f o)) ack).
  - rewrite (IH (base + 1)); [|intros j o' Hj; rewrite (Hu (S j) o' Hj); lia|lia].
    replace (Z.to_nat (ack - base)) with (S (Z.to_nat (ack - (base + 1)))) by lia. done.
  - by replace (Z.to_nat (ack - base)) with 0%nat by lia.
Qed.

(** [ackLocked] only forgets frames, and only ones the peer acknowledged. *)
Lemma ackLocked_spec (ack now : Z) (s : Session) :
  local (core_of s) -> buffered (core_of s) -> s_state s <> Closed -> small (length (h_queued s)) ->
  exists pa u, core_of (ackLocked ack now s) =
    core_of (s <| s_peerAck := pa |> <| s_unacked := u |>) /\ (pa = s_peerAck s \/ s_peerAck s < pa /\ pa = ack) /\
    local (core_of (ackLocked ack now s)) /\ buffered (core_of (ackLocked ack now s)).
Proof.
  intros HL HB Hns Hsm. unfold ackLocked. destruct (_ || _) eqn:EB.
  { exists (s_peerAck s), (s_unacked s). split; [by destruct s|]. split; [by left|]. by split. }
  apply orb_false_iff in EB as [HA HN]. zbool.
  destruct (HB (bool_decide_eq_false_2 _ Hns)) as [HU Hv]. pose proof (lo_ack _ HL) as [HA0 HA1].
  pose proof (lo_seq _ HL) as HS. cbn in HU, HA0, HA1, HS.
  assert (ack <= Z.of_nat (length (h_queued s))) as Hle.
  { rewrite HS in HN. pose proof (Z.mod_le (Z.of_nat (length (h_queued s)) + 1) (2 ^ 64)). unfold wrap_u in HN. lia. }
  destruct (pop_acked ack now (s_unacked s) (s_unackedBytes s) 0) as [[u size] sample] eqn:EP.
  pose proof (pop_acked_spec ack now (s_peerAck s) (s_unacked s) (s_unackedBytes s) 0) as Eu. rewrite EP in Eu. cbn [fst] in Eu.
  exists ack, u. set (s2 := rtt_update _ _).
  assert (core_of s2 = core_of (s <| s_peerAck := ack |> <| s_unacked := u |>)) as E2
    by (unfold s2, rtt_update; repeat case_match; done).
  match goal with |- core_of ?x = _ /\ _ => assert (core_of x = core_of s2) as -> by (unfold core_of; ssimpl; done) end.
  rewrite E2. split; [done|]. split; [by right|].
  split.
  - destruct HL as [L1 L2 L3 L5 L6 L7 L9 L10]. split; cbn in *; auto. lia.
  - intros _. split; [|done]. cbn. rewrite Eu; [|clear Eu|lia].
    + change (map o_f) with (fmap (M := list) o_f) in *. rewrite fmap_drop, HU, drop_drop. f_equal. lia.
    + intros j o Hj. assert (map o_f (s_unacked s) !! j = Some (o_f o)) as Hj'
        by (change (map o_f) with (fmap (M := list) o_f); by rewrite list_lookup_fmap, Hj).
      rewrite HU, lookup_drop in Hj'. destruct (lo_queued _ HL _ _ Hj') as [Hseq _].
      apply lookup_lt_Some in Hj' as Hlt. rewrite Hseq, (small_seq (length (h_queued s))) by done. lia.
Qed.

(** *** Delivery *)

Lemma evolves_deliver (f : frame) (now : Z) (s : Session) :
  frame_typed f -> local (core_of s) -> evolves (core_of s) (core_of (deliverLocked f now s)).
Proof.
  intros Hf HL. assert (u_range 32 (f_stream f)) as Hst by apply Hf. unfold deliverLocked.
  destruct (f_typ f =? ftOpen).
  { unfold deliver_open. destruct (_ || _); [apply evolves_refl|]. destruct (s_streams s !! _); [apply evolves_refl|].
    pose proof (evolves_new_stream (f_stream f) (f_data f) s Hst) as E.
    destruct (newStreamLocked _ _ s) as [a s1]. exact E. }
  destruct (f_typ f =? ftData).
  { unfold deliver_data. destruct (s_streams s !! _) as [a|]; [|by apply evolves_refuse].
    destruct (_ <? _); [apply evolves_reset|]. set (s1 := upd_stream a _ s).
    assert (core_of s1 = core_of s) as E1 by by apply core_upd. rewrite <- E1.
    destruct (st_readClosed _); [|rewrite core_upd by done; apply evolves_refl].
    set (s2 := upd_stream a _ s1). assert (core_of s2 = core_of s1) as <- by by apply core_upd.
    destruct (window_half_used _ _); [apply evolves_grant|apply evolves_refl]. }
  destruct (f_typ f =? ftFin).
  { destruct (s_streams s !! _) as [a|]; [|apply evolves_refl].
    eapply evolves_trans; [|apply evolves_maybeForget]. rewrite core_upd by done. apply evolves_refl. }
  destruct (f_typ f =? ftReset).
  { unfold deliver_reset. destruct (s_streams s !! _) as [a|]; [|apply evolves_refl].
    eapply evolves_trans; [|apply evolves_forget]. rewrite core_upd; [apply evolves_refl|].
    intros st. by destruct (_ <=? _)%nat. }
  destruct (f_typ f =? ftWindow).
  { unfold deliver_window. destruct (s_streams s !! _) as [a|]; [|apply evolves_refl].
    destruct (_ && _); [|apply evolves_refl]. rewrite core_upd by done. apply evolves_refl. }
  destruct (f_typ f =? ftClose); [|apply evolves_refl].
  unfold deliver_close. set (reason := match f_data f with r :: _ => r | [] => CloseNormal end).
  destruct (reason =? _); [destruct (_ <=? _)%nat; apply evolves_same; done|by apply evolves_close].
Qed.

(** *** Receiving: what the peer queued is [Q] *)

Definition recv_ok (Q : list frame) (c : core) : Prop :=
  map strip (c_delivered c) `prefix_of` Q /\
  forall n f, c_reorder c !! n = Some f -> frame_typed f /\ exists i, n = Z.of_nat i + 1 /\ Q !! i = Some (strip f).

(** What processing a genuine frame does to the core. *)
Record receives (Q : list frame) (c c' : core) : Prop := {
  rc_queued : c_queued c `prefix_of` c_queued c';
  rc_sealed : c_sealed c `prefix_of` c_sealed c';
  rc_delivered : c_delivered c `prefix_of` c_delivered c';
  rc_final : forall p, p ∈ c_final c' -> p ∈ c_final c \/ good c' p;
  rc_ack : c_peerAck c' = c_peerAck c;
  rc_ok : local c -> recv_ok Q c -> local c' /\ recv_ok Q c' /\ (buffered c -> buffered c')
}.

Lemma receives_trans (Q : list frame) (c1 c2 c3 : core) : receives Q c1 c2 -> receives Q c2 c3 -> receives Q c1 c3.
Proof.
  intros [q1 s1 d1 f1 a1 o1] [q2 s2 d2 f2 a2 o2]. split; try (by etransitivity); try congruence.
  - intros p Hp. destruct (f2 p Hp) as [Hp'|]; [|by right]. destruct (f1 p Hp') as [|Hg]; [by left|].
    right. eapply good_mono; [..|exact Hg]; auto. by apply prefix_length.
  - intros HL HR. destruct (o1 HL HR) as (HL2 & HR2 & B1). destruct (o2 HL2 HR2) as (HL3 & HR3 & B2). auto.
Qed.

Lemma receives_refl (Q : list frame) (c : core) : receives Q c c.
Proof. split; auto. Qed.

Lemma evolves_receives (Q : list frame) (c c' : core) : evolves c c' -> receives Q c c'.
Proof.
  intros [G B]. split; try apply G.
  - by rewrite (ev_delivered _ _ G).
  - intros HL [HP HR]. split; [by apply G|]. split; [|by apply B]. split; [by rewrite (ev_delivered _ _ G)|].
    intros n f Hn. apply HR. by apply (ev_reorder _ _ G).
Qed.

Lemma core_count (g : Stats -> Stats) (s : Session) : core_of (count g s) = core_of s.
Proof. done. Qed.

Section Receiver.
Context (Q : list frame) (HQ : forall i q, Q !! i = Some q -> f_seq q = wrap_u64 (Z.of_nat i + 1)) (Hsmall : small (length Q)).

Lemma Q_seq (i : nat) (f : frame) : Q !! i = Some (strip f) -> f_seq f = Z.of_nat i + 1.
Proof.
  intros Hi. apply lookup_lt_Some in Hi as Hlt. pose proof (HQ i _ Hi) as E. cbn in E. rewrite E.
  by apply (small_seq (length Q)).
Qed.

Lemma delivered_small (c : core) : recv_ok Q c -> (length (c_delivered c) <= length Q)%nat.
Proof. intros [HP _]. apply prefix_length in HP. by rewrite length_map in HP. Qed.

Lemma recvNext_is (c : core) : local c -> recv_ok Q c -> c_recvNext c = Z.of_nat (length (c_delivered c)) + 1.
Proof.
  intros HL HR. rewrite (lo_recv _ HL). apply wrap_u_small. pose proof (delivered_small c HR).
  unfold small in Hsmall. unfold u_range. lia.
Qed.

(** Delivering the frame at the cursor. *)
Lemma receives_advance (f : frame) (s : Session) (i : nat) :
  Q !! i = Some (strip f) -> (local (core_of s) -> recv_ok Q (core_of s) -> i = length (h_delivered s)) ->
  receives Q (core_of s) (core_of (advance f s)).
Proof.
  intros Hi Hlen. unfold advance, core_of; ssimpl. split; cbn; auto; [by apply prefix_app_r|].
  - intros HL HR. pose proof (Hlen HL HR) as ->. pose proof (delivered_small _ HR) as Hd. cbn in Hd.
    apply lookup_lt_Some in Hi as Hlt. split; [|split; [|done]].
    + destruct HL as [L1 L2 L3 L5 L6 L7 L9 L10]. split; cbn in *; auto.
      rewrite L5, length_app. cbn. unfold wrap_u. rewrite Zplus_mod_idemp_l. f_equal; lia.
    + destruct HR as [HP HR]. split; [|exact HR]. cbn in *. rewrite map_app.
      destruct HP as [k Hk]. rewrite Hk in Hi |- *.
      rewrite lookup_app_r in Hi by (rewrite length_map; lia). rewrite length_map, Nat.sub_diag in Hi.
      destruct k as [|q k]; [discriminate|]. injection Hi as ->. exists k. by rewrite <- app_assoc.
Qed.

Lemma receives_deliver (f : frame) (now : Z) (s : Session) (i : nat) :
  frame_typed f -> Q !! i = Some (strip f) -> f_seq f = s_recvNext s -> local (core_of s) ->
  receives Q (core_of s) (core_of (advance f (deliverLocked f now s))).
Proof.
  intros Hf Hi Hs HL. pose proof (evolves_deliver f now s Hf HL) as HE.
  eapply receives_trans; [by apply evolves_receives|]. apply (receives_advance f _ i Hi).
  intros HL' HR'. pose proof (recvNext_is _ HL' HR') as E. destruct HE as [G _].
  rewrite (ev_recv _ _ G) in E. cbn in E. rewrite <- Hs, (Q_seq i f Hi) in E. cbn. lia.
Qed.

Lemma receives_drain (fuel : nat) (now : Z) : forall s,
  local (core_of s) -> recv_ok Q (core_of s) -> receives Q (core_of s) (core_of (drain fuel now s)).
Proof.
  induction fuel as [|fuel IH]; intros s HL HR; cbn [drain]; [apply receives_refl|].
  destruct (s_reorder s !! s_recvNext s) as [nf|] eqn:E; [|apply receives_refl].
  destruct (proj2 HR _ _ E) as (Hf & i & Hn & Hi).
  set (s1 := s <| s_reorder ::= delete (s_recvNext s) |>).
  assert (receives Q (core_of s) (core_of s1)) as R1.
  { unfold s1, core_of; ssimpl. split; cbn; auto. intros HL0 [HP0 HR0]. split; [|split; [|done]].
    - by destruct HL0.
    - split; [done|]. cbn. intros n f [_ Hn']%lookup_delete_Some. by apply HR0. }
  destruct (rc_ok _ _ _ R1 HL HR) as (HL1 & HR1 & _).
  assert (receives Q (core_of s1) (core_of (advance nf (deliverLocked nf now s1)))) as R2
    by (apply (receives_deliver nf now s1 i); [done|done|rewrite (Q_seq i nf Hi); unfold s1; ssimpl; congruence|done]).
  destruct (rc_ok _ _ _ R2 HL1 HR1) as (HL2 & HR2 & _).
  eapply receives_trans; [exact R1|]. eapply receives_trans; [exact R2|]. by apply IH.
Qed.

Lemma receives_reliable (f : frame) (now : Z) (s : Session) (i : nat) :
  frame_typed f -> Q !! i = Some (strip f) -> local (core_of s) -> recv_ok Q (core_of s) ->
  receives Q (core_of s) (core_of (receive_reliable f now s)).
Proof.
  intros Hf Hi HL HR. unfold receive_reliable. set (s0 := s <| s_activity := now |>).
  change (core_of s) with (core_of s0) in *. destruct (Z.ltb_spec (f_seq f) (s_recvNext s0)); [apply receives_refl|].
  destruct (Z.eqb_spec (f_seq f) (s_recvNext s0)) as [E|E].
  - set (s1 := advance f _). assert (receives Q (core_of s0) (core_of s1)) as R1 by by apply (receives_deliver f now s0 i).
    destruct (rc_ok _ _ _ R1 HL HR) as (HL1 & HR1 & _).
    pose proof (receives_drain (size (s_reorder s1)) now s1 HL1 HR1) as R2. set (s2 := drain _ _ _) in *.
    eapply receives_trans; [exact R1|]. by destruct (s_ackOwed s2).
  - set (s1 := if _ <=? _ then _ else _). change (core_of _) with (core_of s1) at 2. unfold s1.
    destruct (_ <=? _); [|apply receives_refl]. destruct (s_reorder s0 !! f_seq f) eqn:EL; [apply receives_refl|].
    unfold core_of; ssimpl. split; cbn; auto. intros HL0 [HP0 HR0]. split; [|split; [|done]].
    + by destruct HL0.
    + split; [done|]. cbn. intros n g Hn. apply lookup_insert_Some in Hn as [[<- <-]|[_ Hn]]; [|by apply HR0].
      split; [done|]. exists i. split; [by apply Q_seq|done].
Qed.
End Receiver.

Lemma openLocked_open (h : header) (p : bytes) (now : Z) (s : Session) (g : frame) (cm : commit) :
  openLocked h p now s = Ok (g, cm) -> exists k, open k h p = Ok g.
Proof.
  assert (forall cur prev r, openDirLocked cur prev h p now = Ok r -> exists k, open k h p = Ok r.1) as HD.
  { assert (forall d g, open_with d h p = Ok g -> exists k, open k h p = Ok g) as HW
      by (unfold open_with; intros d g'; destruct (d_aead d); [eauto|discriminate]).
    intros cur prev r. unfold openDirLocked.
    repeat match goal with |- context [if ?b then _ else _] => destruct b end; intros E; try discriminate;
      apply obind_ok in E as (f & E & [= <-]); exact (HW _ _ E). }
  unfold openLocked. destruct (_ =? s_gen s); [|destruct (_ && _); [|discriminate]].
  all: intros E; apply obind_ok in E as ([f next] & E & [= <- _]); exact (HD _ _ _ E).
Qed.

Lemma core_run_commit (cm : commit) (s : Session) : core_of (run_commit cm s) = core_of s.
Proof.
  unfold run_commit. destruct (cm_next cm), (cm_pending cm); cbn; rewrite ?core_commitPending; done.
Qed.

Lemma run_commit_state (cm : commit) (s : Session) : s_state (run_commit cm s) = s_state s.
Proof.
  unfold run_commit, commitPendingLocked. destruct (cm_next cm), (cm_pending cm); cbn; repeat case_match; done.
Qed.

(** A packet no key of [s] opens leaves the core alone. *)
Definition unauthenticated (p : bytes) (now : Z) (s : Session) : Prop :=
  forall h r, parseHeader p = Ok h -> openLocked h p now s <> Ok r.

Lemma evolves_unauthenticated (c : option nat) (p : bytes) (now : Z) (s : Session) :
  unauthenticated p now s -> evolves (core_of s) (core_of (fst (Receive c p now s))).
Proof.
  intros HU. unfold Receive. destruct (bool_decide _); [apply evolves_refl|].
  destruct (parseHeader p) as [h|e|] eqn:EP; try apply evolves_hostile.
  destruct (check _ _) as [[]|e|];
    [|eapply evolves_trans; [|apply evolves_hostile]; apply evolves_refl
     |eapply evolves_trans; [|apply evolves_hostile]; apply evolves_refl].
  destruct (openLocked h p now s) as [[f cm]|e|] eqn:EO; [by destruct (HU h _ EP EO)| |apply evolves_refl].
  destruct e; try apply evolves_refl. apply evolves_hostile.
Qed.

(** The packet, when it is one of these, opens under the keys of [s] to the frame that was sealed in it or
    not at all.  The sender's key gives that by [open_seal]; that no other key of the session opens the
    packet to another frame is assumed of the packets delivered, as it is that no key opens a forged one. *)
Definition opens_as_sealed (sealed : list sealing) (p : bytes) (now : Z) (s : Session) : Prop :=
  forall k h f h' g cm, mkSealing (Some k) h f ∈ sealed -> seal k h f = Ok p -> frame_typed f -> frame_wf f ->
    openLocked h' p now s = Ok (g, cm) -> g = f.

(** The packets of a peer whose reliability state is [c]. *)
Lemma receive_good (c0 : core) (c : option nat) (p : bytes) (now : Z) (s : Session) :
  opens_as_sealed (c_sealed c0) p now s -> good c0 p -> local c0 -> small (length (c_queued c0)) ->
  local (core_of s) -> buffered (core_of s) -> small (length (h_queued s)) -> recv_ok (c_queued c0) (core_of s) ->
  exists s1, (evolves (core_of s) (core_of s1) /\ s1 = fst (Receive c p now s)) \/
    (exists ack, ack <= Z.of_nat (length (c_delivered c0)) /\
       (exists pa u, core_of s1 = core_of (s <| s_peerAck := pa |> <| s_unacked := u |>) /\ (pa = s_peerAck s \/ pa = ack)) /\
       local (core_of s1) /\ buffered (core_of s1) /\
       receives (c_queued c0) (core_of s1) (core_of (fst (Receive c p now s)))).
Proof.
  intros Honly (k & h & f & ES & Hin & Hft & Hfv & Hack & Hf) HL0 Hs0 HL HB Hss HR.
  assert (frame_wf f) as Hwf.
  { split; [done|]. destruct Hf as [[-> ->]|(i & Hi)]; [done|]. apply lookup_lt_Some in Hi as Hlt.
    destruct (lo_queued _ HL0 i _ Hi) as (Hseq & _ & _ & Hr & _). cbn in Hseq, Hr. rewrite Hr, Hseq.
    rewrite (small_seq (length (c_queued c0))) by done. symmetry. apply negb_true_iff, Z.eqb_neq. lia. }
  assert (unauthenticated p now s -> exists s1, evolves (core_of s) (core_of s1) /\ s1 = fst (Receive c p now s)) as HUn
    by (intros HU; eexists; split; [by apply (evolves_unauthenticated c)|done]).
  destruct (parseHeader p) as [h'|e|] eqn:EP.
  2, 3: destruct HUn as [s1 HE]; [intros h0 r0; congruence|exists s1; by left].
  destruct (openLocked h' p now s) as [[g cm]|e|] eqn:EO.
  2, 3: destruct HUn as [s1 HE]; [intros h0 r0; congruence|exists s1; by left].
  clear HUn. unfold Receive. rewrite EP, EO. destruct (bool_decide (s_state s = Closed)) eqn:EC.
  { exists s. left. split; [apply evolves_refl|done]. }
  apply bool_decide_eq_false in EC.
  assert (forall r : outcome sess_err unit, exists s1, evolves (core_of s) (core_of s1) /\
    s1 = fst (hostileLocked c now (count (fun k => k <| Replays ::= incr64 |>) s), r)) as HHos
    by (intros r; eexists; split; [|cbn [fst]; reflexivity]; exact (evolves_hostile c now (count (fun k => k <| Replays ::= incr64 |>) s))).
  destruct (check _ _) as [[]|e|].
  2, 3: match goal with |- context [fst (_, ?r)] => destruct (HHos r) as [s1 HE]; exists s1; by left end.
  clear HHos.
  assert (g = f) as -> by exact (Honly k h f h' g cm Hin ES Hft Hwf EO).
  set (s0 := run_commit cm s). assert (core_of s0 = core_of s) as E0 by apply core_run_commit.
  destruct (mark (s_replay s0) (h_pn h')) as [w|e|];
    [|exists s0; left; cbn [fst]; rewrite E0; split; [apply evolves_refl|done]
     |exists s0; left; cbn [fst]; rewrite E0; split; [apply evolves_refl|done]].
  cbn [fst]. unfold accept_frame. set (s2 := s0 <| s_replay := w |>).
  assert (s_state s2 <> Closed) as Hns by (unfold s2, s0; ssimpl; by rewrite run_commit_state).
  set (s3 := match c with Some _ => _ | None => _ end).
  assert (evolves (core_of s2) (core_of s3) /\ s_state s3 <> Closed /\ s_peerAck s3 = s_peerAck s2) as (E3 & Hns3 & Hpa3).
  { unfold s3. destruct c as [c|]; [|split; [apply evolves_refl|done]]. destruct (bool_decide (s_state s2 = Orphaned));
      [split; [by apply evolves_attach|]|split; [apply evolves_refl|done]].
    unfold attachLocked. destruct (bool_decide _); ssimpl; split; done. }
  assert (core_of s3 = core_of s2) as E3'.
  { unfold s3. destruct c as [c|]; [|done]. destruct (bool_decide (s_state s2 = Orphaned)); [|done].
    unfold attachLocked. destruct (bool_decide _); unfold core_of; ssimpl; rewrite map_unsend, (bool_decide_eq_false_2 _ Hns); done. }
  clearbody s3. change (core_of s2) with (core_of s0) in E3'. rewrite E0 in E3'.
  set (s4 := count _ _). assert (core_of s4 = core_of s3) as E4 by done.
  rewrite <- E3', <- E4 in HL, HB, HR. assert (s_state s4 <> Closed) as Hns4 by done.
  clearbody s4. assert (core_of s4 = core_of s) as E4s by congruence.
  assert (h_queued s4 = h_queued s) as EQ by (apply (f_equal c_queued) in E4s; exact E4s).
  rewrite <- EQ in Hss. destruct (ackLocked_spec (f_ack f) now s4 HL HB Hns4 Hss) as (pa & u & E5 & Hpa & HL5 & HB5).
  set (s5 := ackLocked (f_ack f) now s4) in *.
  assert (s_peerAck s4 = s_peerAck s) as EA by (apply (f_equal c_peerAck) in E4s; exact E4s).
  assert (recv_ok (c_queued c0) (core_of s5)) as HR5 by (rewrite E5; exact HR).
  exists s5. right. exists (f_ack f). split; [done|]. split.
  { exists pa, u. split; [|rewrite EA in Hpa; destruct Hpa as [|[_ ?]]; auto].
    rewrite E5. revert E4s. unfold core_of; ssimpl. by intros [= -> -> _ _ -> -> -> -> -> -> -> -> -> ->]. }
  split; [done|]. split; [done|].
  destruct Hf as [[Hseq Hr]|(i & Hi)].
  - rewrite Hseq. cbn [Z.eqb]. destruct (f_typ f =? ftPing); [|apply receives_refl].
    match goal with |- receives _ _ ?c => assert (c = core_of s5) as -> end; [|apply receives_refl].
    unfold core_of; ssimpl. by rewrite map_unsend.
  - apply lookup_lt_Some in Hi as Hlt.
    assert (forall i q, c_queued c0 !! i = Some q -> f_seq q = wrap_u64 (Z.of_nat i + 1)) as HQ
      by (intros j q Hj; by destruct (lo_queued _ HL0 j q Hj)).
    rewrite (Q_seq _ HQ Hs0 i f Hi). assert ((Z.of_nat i + 1 =? 0) = false) as -> by (apply Z.eqb_neq; lia).
    by apply (receives_reliable _ HQ Hs0 f now s5 i).
Qed.
End Local.

(** ** Two sessions and a hostile network *)

(** What the application and the run loop do to one end. *)
Inductive action : Type :=
| DoOpen (meta : bytes) | DoAccept | DoWrite (a : nat) (p : bytes) | DoRead (a n : nat)
| DoCloseWrite (a : nat) | DoCloseStream (a : nat) | DoReset (a : nat) (code : Z)
| DoAttach (c : nat) | DoLost (c : nat) (why : option sess_err) | DoDegraded (b : bool)
| DoClose | DoGoAway (retryAfter : Z) | DoRun
| DoResumeCommit | DoResumeIntro (cookie rp : bytes) | DoAcceptResume (counter : Z) (proof cookie rp : bytes)
| DoRatchet (seed : bytes).

Definition action_ok (x : action) : Prop :=
  match x with DoOpen b => bytes_ok b | DoWrite _ p => bytes_ok p | _ => True end.

(** One end: the session, and every packet it has handed to a carrier. *)
Record node : Type := mkNode { n_s : Session; n_out : list bytes }.

Section Net.
Context `{Aead} `{Kdf}.

Definition perform (x : action) (now : Z) (s : Session) : Session * list bytes :=
  match x with
  | DoOpen meta => (fst (OpenStream meta now s), [])
  | DoAccept => (fst (AcceptStream s), [])
  | DoWrite a p => (fst (fst (Write a p now s)), [])
  | DoRead a n => (fst (Read a n now s), [])
  | DoCloseWrite a => (fst (CloseWrite a now s), [])
  | DoCloseStream a => (StreamClose a now s, [])
  | DoReset a code => (Reset a code now s, [])
  | DoAttach c => (fst (Attach c now s), [])
  | DoLost c why => (CarrierLost c why now s, [])
  | DoDegraded b => (SetDegraded b s, [])
  | DoClose => (Close now s, [])
  | DoGoAway t => (GoAway t now s, [])
  | DoRun => let '((out, _), _, _, s) := run_locked now s in (s, out)
  | DoResumeCommit => (fst (NextResumeCommit s), [])
  | DoResumeIntro cookie rp => (fst (ResumeIntro cookie rp s), [])
  | DoAcceptResume n proof cookie rp => (fst (AcceptResume n proof cookie rp s), [])
  | DoRatchet seed => (fst (Ratchet seed now s), [])
  end.

Definition swap (ab : node * node) : node * node := (snd ab, fst ab).

(** The first end acts, receives any packet the second ever sent (late, again,
    out of order) - its own keys open it to nothing but what was sealed - or receives bytes no key of it opens; or the ends swap roles.
    A packet that is lost is one that is never received. *)
Inductive net_step : node * node -> node * node -> Prop :=
| step_act a b x now : action_ok x ->
    net_step (a, b) (mkNode (fst (perform x now (n_s a))) (n_out a ++ snd (perform x now (n_s a))), b)
| step_deliver a b c p now : p ∈ n_out b -> opens_as_sealed (h_sealed (n_s b)) p now (n_s a) ->
    net_step (a, b) (mkNode (fst (Receive c p now (n_s a))) (n_out a), b)
| step_forge a b c p now : unauthenticated p now (n_s a) ->
    net_step (a, b) (mkNode (fst (Receive c p now (n_s a))) (n_out a), b)
| step_swap ab ab' : net_step (swap ab) ab' -> net_step ab (swap ab').

(** A client and a service that share a [KEY_SEED] or not: the theorems need no key agreement. *)
Definition net_init (id seed seed' : bytes) (cfg cfg' : Config) (now now' : Z) : node * node :=
  (mkNode (newSession Client id seed cfg now) [], mkNode (newSession Service id seed' cfg' now') []).

(** *** The invariant *)

Definition core_n (n : node) : core := core_of (n_s n).
Record half (a b : node) : Prop := {
  hf_local : local (core_n a);
  hf_buffered : buffered (core_n a);
  hf_good : forall p, p ∈ n_out a \/ p ∈ s_final (n_s a) -> good (core_n a) p;
  hf_recv : recv_ok (c_queued (core_n b)) (core_n a);
  hf_ack : c_peerAck (core_n a) <= Z.of_nat (length (c_delivered (core_n b)))
}.
Definition few (a : node) : Prop := small (length (c_queued (core_n a))).
Definition net_inv (ab : node * node) : Prop :=
  few (fst ab) /\ few (snd ab) /\ half (fst ab) (snd ab) /\ half (snd ab) (fst ab).
(** A run in which neither end queues [2^64 - 1] frames. *)
Definition net_run : relation (node * node) :=
  rtc (fun ab ab' => net_step ab ab' /\ few (fst ab') /\ few (snd ab')).

Lemma small_prefix {A : Type} (l k : list A) : l `prefix_of` k -> small (length k) -> small (length l).
Proof. intros HP%prefix_length. unfold small. lia. Qed.

Lemma half_peer (a b b' : node) :
  c_queued (core_n b) `prefix_of` c_queued (core_n b') -> c_delivered (core_n b) `prefix_of` c_delivered (core_n b') ->
  half a b -> half a b'.
Proof.
  intros HQ HD [h1 h2 h3 [hp hr] h5]. split; auto.
  - split; [by etransitivity|]. intros n f Hn. destruct (hr n f Hn) as (Hf & i & Hi & HiQ). split; [done|].
    exists i. split; [done|]. by eapply prefix_lookup_Some.
  - apply prefix_length in HD. lia.
Qed.

Lemma perform_sends (x : action) (now : Z) (s : Session) :
  action_ok x -> local (core_of s) -> buffered (core_of s) -> (forall p, p ∈ s_final s -> good (core_of s) p) ->
  sends s (fst (perform x now s)) (snd (perform x now s)).
Proof.
  intros Hx HL HB HF.
  assert (forall s', evolves (core_of s) (core_of s') -> sends s s' []) as HS by (intros s' E; by split).
  assert (forall s', core_of s' = core_of s -> sends s s' []) as HC by (intros s' E; apply HS; rewrite E; apply evolves_refl).
  destruct x; cbn [perform fst snd].
  - apply HS. by apply evolves_OpenStream.
  - apply HC. unfold AcceptStream. destruct (s_acceptQ s); [by destruct (bool_decide _)|done].
  - apply HS. by apply evolves_write_loop.
  - apply HS. apply evolves_Read.
  - apply HS. apply evolves_CloseWrite.
  - apply HS. apply evolves_StreamClose.
  - apply HS. apply evolves_Reset.
  - apply HS. unfold Attach. destruct (bool_decide (s_state s = Closed)) eqn:E; [apply evolves_refl|].
    apply evolves_attach. by apply bool_decide_eq_false in E.
  - apply HS. apply evolves_carrier_lost.
  - by apply HC.
  - apply HS. unfold Close. destruct (bool_decide _); [apply evolves_refl|by apply evolves_close].
  - apply HS. apply evolves_GoAway.
  - destruct (run_locked now s) as [[[[out c] d] b] s'] eqn:E. cbn [fst snd].
    eapply run_sends; [exact E|done|done|]. by apply Forall_forall.
  - apply HC. unfold NextResumeCommit. by repeat case_match.
  - apply HC. unfold ResumeIntro. by repeat case_match.
  - apply HC. apply evolves_AcceptResume.
  - apply HS. apply evolves_Ratchet.
Qed.

Lemma half_evolves (a b a' : node) :
  evolves (core_n a) (core_n a') -> (forall p, p ∈ n_out a' -> p ∈ n_out a \/ good (core_n a') p) ->
  half a b -> half a' b.
Proof.
  intros [G B] HO [h1 h2 h3 [hp hr] h5]. split.
  - by apply G.
  - by apply B.
  - assert (forall p, good (core_n a) p -> good (core_n a') p) as HM
      by (intros p; apply good_mono; [apply G|apply G|]; by rewrite (ev_delivered _ _ G)).
    intros p [Hp|Hp].
    + destruct (HO p Hp) as [Hp'|]; [|done]. apply HM. auto.
    + destruct (ev_final _ _ G p Hp) as [Hp'|]; [|done]. apply HM. auto.
  - split; [by rewrite (ev_delivered _ _ G)|]. intros n f Hn. apply hr. by apply (ev_reorder _ _ G).
  - by rewrite (ev_ack _ _ G).
Qed.

Lemma half_receives (a b a' : node) (ack : Z) (s1 : Session) (pa : Z) (u : list outFrame) :
  n_out a' = n_out a -> core_of s1 = core_of ((n_s a) <| s_peerAck := pa |> <| s_unacked := u |>) ->
  pa = s_peerAck (n_s a) \/ pa = ack -> ack <= Z.of_nat (length (c_delivered (core_n b))) ->
  local (core_of s1) -> buffered (core_of s1) -> receives (c_queued (core_n b)) (core_of s1) (core_n a') ->
  half a b -> half a' b.
Proof.
  intros HO E1 Hpa Hack HL1 HB1 HR [h1 h2 h3 h4 h5].
  assert (recv_ok (c_queued (core_n b)) (core_of s1)) as HR1 by (rewrite E1; exact h4).
  destruct (rc_ok _ _ _ HR HL1 HR1) as (HL & HR' & HB).
  assert (c_queued (core_of s1) = c_queued (core_n a) /\ c_sealed (core_of s1) = c_sealed (core_n a) /\
          c_delivered (core_of s1) = c_delivered (core_n a) /\ c_final (core_of s1) = c_final (core_n a)) as (EQ & ES & ED & EF)
    by (by rewrite E1).
  split; auto.
  - assert (forall p, good (core_n a) p -> good (core_n a') p) as HM.
    { intros p. apply good_mono; [rewrite <- EQ; apply HR|rewrite <- ES; apply HR|].
      rewrite <- ED. apply prefix_length, HR. }
    intros p [Hp|Hp]; [rewrite HO in Hp; auto|].
    destruct (rc_final _ _ _ HR p Hp) as [Hp'|]; [|done]. rewrite EF in Hp'. apply HM, h3. by right.
  - rewrite (rc_ack _ _ _ HR), E1. unfold core_of; ssimpl. destruct Hpa as [->| ->]; [exact h5|done].
Qed.

Lemma net_inv_swap (ab : node * node) : net_inv ab -> net_inv (swap ab).
Proof. intros (H1 & H2 & HA & HB). by split_and!. Qed.

(** Receiving, from a packet the peer sent or one nobody can open. *)
Lemma half_receive (a b : node) (c : option nat) (p : bytes) (now : Z) :
  net_inv (a, b) -> (p ∈ n_out b /\ opens_as_sealed (h_sealed (n_s b)) p now (n_s a)) \/ unauthenticated p now (n_s a) ->
  let a' := mkNode (fst (Receive c p now (n_s a))) (n_out a) in
  half a' b /\ half b a'.
Proof.
  intros (Ha & Hb & HA & HB) Hp a'. cbn [fst snd] in *.
  assert (evolves (core_n a) (core_n a') -> half a' b /\ half b a') as HEv.
  { intros HE. split; [eapply half_evolves; [exact HE|by left|done]|].
    destruct HE as [G _]. eapply half_peer; [apply G|by rewrite (ev_delivered _ _ G)|done]. }
  destruct Hp as [[Hp Honly]|Hu]; [|by apply HEv, evolves_unauthenticated].
  destruct (receive_good (core_n b) c p now (n_s a) Honly) as [s1 [[HE E]|(ack & Hack & (pa & u & E1 & Hpa) & HL1 & HB1 & HR)]].
  - apply (hf_good _ _ HB). by left.
  - apply HB.
  - exact Hb.
  - apply HA.
  - apply HA.
  - exact Ha.
  - apply HA.
  - apply HEv. unfold a', core_n in *; cbn [n_s]. by rewrite <- E.
  - split; [by eapply (half_receives a b a' ack s1)|].
    eapply half_peer; [| |done].
    + assert (c_queued (core_n a) = c_queued (core_of s1)) as -> by by rewrite E1. apply HR.
    + assert (c_delivered (core_n a) = c_delivered (core_of s1)) as -> by by rewrite E1. apply HR.
Qed.

Lemma net_inv_step (ab ab' : node * node) :
  net_step ab ab' -> few (fst ab') -> few (snd ab') -> net_inv ab -> net_inv ab'.
Proof.
  induction 1 as [a b x now Hx|a b c p now Hp Honly|a b c p now Hp|ab ab' Hs IH]; intros F1 F2 HI.
  4: by apply net_inv_swap, IH; [..|apply net_inv_swap].
  all: split; [done|]; split; [done|]; cbn [fst snd] in *.
  - destruct HI as (_ & _ & HA & HB). cbn [fst snd] in *. set (r := perform x now (n_s a)) in *. set (a' := mkNode _ _) in *.
    assert (sends (n_s a) (fst r) (snd r)) as [HE HG]
      by (apply perform_sends; [done|apply HA|apply HA|]; intros p Hp; apply (hf_good _ _ HA); by right).
    change (core_of (fst r)) with (core_n a') in HE, HG. change (core_of (n_s a)) with (core_n a) in HE. split.
    + eapply half_evolves; [exact HE| |done]. intros p [Hp|Hp]%elem_of_app; [by left|]. right.
      rewrite Forall_forall in HG. by apply HG.
    + destruct HE as [G _]. eapply half_peer; [apply G|by rewrite (ev_delivered _ _ G)|done].
  - apply half_receive; auto.
  - apply half_receive; auto.
Qed.

Lemma new_half (role role' : Z) (id id' seed seed' : bytes) (cfg cfg' : Config) (now now' : Z) :
  half (mkNode (newSession role id seed cfg now) []) (mkNode (newSession role' id' seed' cfg' now') []).
Proof.
  unfold newSession, installKeysLocked; ssimpl.
  destruct (role =? Client), (role' =? Client); (split; cbn;
    [split; cbn; try done; try constructor; intros; discriminate
    |intros _; by split
    |intros p [Hp|Hp]; by apply elem_of_nil in Hp
    |split; [done|]; intros n f Hn; discriminate Hn
    |done]).
Qed.

Lemma net_run_inv (id seed seed' : bytes) (cfg cfg' : Config) (now now' : Z) (ab : node * node) :
  net_run (net_init id seed seed' cfg cfg' now now') ab -> net_inv ab.
Proof.
  intros HR. assert (net_inv (net_init id seed seed' cfg cfg' now now')) as Hinit.
  { split_and!; try apply new_half; unfold few, net_init, newSession, installKeysLocked; cbn; done. }
  induction HR as [|x y z [Hs [F1 F2]] _ IH]; [done|]. apply IH. by eapply net_inv_step.
Qed.
End Net.

(** ** What the network cannot break *)

Section Guarantees.
Context `{Aead} `{Kdf}.
Context (id seed seed' : bytes) (cfg cfg' : Config) (t t' : Z).

(** C2. Whatever the network does (loses, delays, reorders, repeats and forges packets) and however
    often carriers die and sessions migrate or ratchet, the frames each end hands to its streams are
    a prefix of the frames the other end queued: in order, none twice, none skipped, none invented.
    A packet that was sent opens under the receiver's keys to nothing but the frame that was sealed
    into it, a forged one opens under no key, and neither end queues [2^64 - 1] frames. *)
Theorem session_exactly_once (a b : node) :
  net_run (net_init id seed seed' cfg cfg' t t') (a, b) ->
  map strip (h_delivered (n_s a)) `prefix_of` h_queued (n_s b) /\
  map strip (h_delivered (n_s b)) `prefix_of` h_queued (n_s a).
Proof.
  intros (_ & _ & HA & HB)%net_run_inv. cbn [fst snd] in *.
  split; [apply (hf_recv _ _ HA)|apply (hf_recv _ _ HB)].
Qed.

(** C11. Nothing is lost with a carrier: until a session closes, every frame it queued that the peer
    has not been given is still in its send buffer, the buffer holds the unacknowledged frames in
    order, and the peer never acknowledges a frame it has not delivered - over any network run (a
    packet that was sent opens to nothing but what was sealed into it, a forged one opens under no
    key, and neither end queues [2^64 - 1] frames). *)
Theorem session_loses_nothing (a b : node) :
  net_run (net_init id seed seed' cfg cfg' t t') (a, b) -> s_state (n_s a) <> Closed ->
  s_peerAck (n_s a) <= Z.of_nat (length (h_delivered (n_s b))) /\
  map o_f (s_unacked (n_s a)) = drop (Z.to_nat (s_peerAck (n_s a))) (h_queued (n_s a)) /\
  (forall i f, h_queued (n_s a) !! i = Some f -> (length (h_delivered (n_s b)) <= i)%nat ->
     f ∈ map o_f (s_unacked (n_s a))).
Proof.
  intros (_ & _ & HA & HB)%net_run_inv Hc. cbn [fst snd] in *.
  destruct (hf_buffered _ _ HA (bool_decide_eq_false_2 _ Hc)) as [HU _]. cbn in HU.
  pose proof (hf_ack _ _ HA) as Hack. pose proof (lo_ack _ (hf_local _ _ HA)) as H0'. cbn in Hack, H0'.
  split; [exact Hack|]. split; [exact HU|]. intros i f Hi Hd. rewrite HU. apply list_elem_of_lookup.
  exists (i - Z.to_nat (s_peerAck (n_s a)))%nat. rewrite lookup_drop. rewrite <- Hi. f_equal. lia.
Qed.

(** The AEAD nonce never repeats: across rekeys, migrations, ratchets,
    retransmissions and the closing packet, every packet a session seals has a
    packet number of its own (below [2^64] packets). *)
Theorem packet_numbers_never_reused (a b : node) :
  net_run (net_init id seed seed' cfg cfg' t t') (a, b) ->
  Z.of_nat (length (h_sealed (n_s a))) < 2 ^ 64 -> NoDup (map (fun x => h_pn (sg_header x)) (h_sealed (n_s a))).
Proof.
  intros (_ & _ & HA & _)%net_run_inv Hlt. cbn [fst snd] in *.
  pose proof (lo_sealed _ (hf_local _ _ HA)) as HS. cbn in HS.
  apply NoDup_alt. intros i j x Hi Hj. change (map (fun x => h_pn (sg_header x))) with (fmap (M := list) (fun x => h_pn (sg_header x))) in *.
  rewrite list_lookup_fmap in Hi, Hj. apply fmap_Some in Hi as (hi & Hi & ->). apply fmap_Some in Hj as (hj & Hj & E).
  apply lookup_lt_Some in Hi as Li. apply lookup_lt_Some in Hj as Lj. rewrite (HS _ _ Hi), (HS _ _ Hj) in E.
  unfold wrap_u in E. assert (Z.of_nat i + 1 = 2 ^ 64 \/ Z.of_nat i + 1 < 2 ^ 64) as [Ei|Ei] by lia;
  assert (Z.of_nat j + 1 = 2 ^ 64 \/ Z.of_nat j + 1 < 2 ^ 64) as [Ej|Ej] by lia.
  - lia.
  - rewrite Ei, Z_mod_same_full, Z.mod_small in E by lia. lia.
  - rewrite Ej, Z_mod_same_full, Z.mod_small in E by lia. lia.
  - rewrite !Z.mod_small in E by lia. lia.
Qed.
End Guarantees.

(** C21. A forger changes nothing that matters: a packet that no key of the session opens leaves the
    keys, the pending ratchet, the replay window, the packet number, the cursors, the reorder
    buffer, the buffered frames and every stream exactly as they were, in every state of the
    session; [Receive] reports an error, and only the counters and the carrier can change. *)
Theorem forged_packet_changes_nothing `{Aead} `{Kdf} (c : option nat) (p : bytes) (now : Z) (s : Session) :
  unauthenticated p now s ->
  let s' := fst (Receive c p now s) in
  snd (Receive c p now s) <> Ok tt /\
  s_keys s' = s_keys s /\ s_gen s' = s_gen s /\ s_pending s' = s_pending s /\ s_tx s' = s_tx s /\ s_rx s' = s_rx s /\
  s_rxPrev s' = s_rxPrev s /\ s_prx s' = s_prx s /\ s_replay s' = s_replay s /\ s_pn s' = s_pn s /\
  s_recvNext s' = s_recvNext s /\ s_nextSeq s' = s_nextSeq s /\ s_peerAck s' = s_peerAck s /\ s_reorder s' = s_reorder s /\
  map o_f (s_unacked s') = map o_f (s_unacked s) /\ s_heap s' = s_heap s /\ s_streams s' = s_streams s.
Proof.
  intros HU.
  assert (forall s0, let s' := hostileLocked c now s0 in
    s_keys s' = s_keys s0 /\ s_gen s' = s_gen s0 /\ s_pending s' = s_pending s0 /\ s_tx s' = s_tx s0 /\ s_rx s' = s_rx s0 /\
    s_rxPrev s' = s_rxPrev s0 /\ s_prx s' = s_prx s0 /\ s_replay s' = s_replay s0 /\ s_pn s' = s_pn s0 /\
    s_recvNext s' = s_recvNext s0 /\ s_nextSeq s' = s_nextSeq s0 /\ s_peerAck s' = s_peerAck s0 /\ s_reorder s' = s_reorder s0 /\
    map o_f (s_unacked s') = map o_f (s_unacked s0) /\ s_heap s' = s_heap s0 /\ s_streams s' = s_streams s0) as HH.
  { intros s0. unfold hostileLocked, orphanLocked. ssimpl.
    repeat match goal with |- context [if ?b then _ else _] => destruct b end; ssimpl; rewrite ?map_unsend; split_and!; reflexivity. }
  unfold Receive. destruct (bool_decide (s_state s = Closed)); [cbn [fst snd]; by split_and!|].
  destruct (parseHeader p) as [h|e|] eqn:EP; [|cbn [fst snd lift_err]; split; [done|apply HH]..].
  destruct (check (s_replay s) (h_pn h)) as [[]|e|];
    [|cbn [fst snd lift_err]; split; [done|exact (HH (count (fun k => k <| Replays ::= incr64 |>) s))]..].
  destruct (openLocked h p now s) as [r|e|] eqn:EO; [by destruct (HU h r EP)| |cbn [fst snd lift_err]; by split_and!].
  destruct e; cbn [fst snd lift_err]; first [split; [done|apply HH]|by split_and!].
Qed.

(** ** A schedule to evaluate *)

Inductive event : Type := OnA (x : action) (now : Z) | OnB (x : action) (now : Z)
  | ToA (i : nat) (c : nat) (now : Z) | ToB (i : nat) (c : nat) (now : Z).
Definition event_ok (e : event) : Prop := match e with OnA x _ | OnB x _ => action_ok x | _ => True end.

Section Schedule.
Context `{Aead} `{Kdf}.
Definition act_on (x : action) (now : Z) (n : node) : node :=
  mkNode (fst (perform x now (n_s n))) (n_out n ++ snd (perform x now (n_s n))).
(** Deliver the [i]-th packet [src] ever sent. *)
Definition hand (i c : nat) (now : Z) (src dst : node) : node :=
  match n_out src !! i with Some p => mkNode (fst (Receive (Some c) p now (n_s dst))) (n_out dst) | None => dst end.
Definition run_event (e : event) (ab : node * node) : node * node :=
  match e with
  | OnA x now => (act_on x now (fst ab), snd ab)
  | OnB x now => (fst ab, act_on x now (snd ab))
  | ToA i c now => (hand i c now (snd ab) (fst ab), snd ab)
  | ToB i c now => (fst ab, hand i c now (fst ab) (snd ab))
  end.
Definition few_b (n : node) : bool := Z.of_nat (length (h_queued (n_s n))) <? 2 ^ 64 - 1.
(** The state at the end of a schedule, if the bound held all the way. *)
Fixpoint run_events (evs : list event) (ab : node * node) : option (node * node) :=
  match evs with
  | [] => Some ab
  | e :: evs =>
      let ab := run_event e ab in
      if few_b (fst ab) && few_b (snd ab) then run_events evs ab else None
  end.

Lemma few_b_spec (n : node) : few_b n = true -> few n.
Proof. unfold few_b, few, small. intros E. apply Z.ltb_lt in E. exact E. Qed.

Lemma net_step_second (a b b' : node) : net_step (b, a) (b', a) -> net_step (a, b) (a, b').
Proof. exact (step_swap (a, b) (b', a)). Qed.

Lemma run_events_sound (evs : list event) : (forall sealed p now s, opens_as_sealed sealed p now s) -> forall ab ab',
  Forall event_ok evs -> run_events evs ab = Some ab' -> net_run ab ab'.
Proof.
  intros Honly. induction evs as [|e evs IH]; intros ab ab' HF; cbn [run_events]; [by intros [= ->]; apply rtc_refl|].
  apply Forall_cons in HF as [He HF]. destruct (_ && _) eqn:EB; [|discriminate]. intros HR.
  apply andb_true_iff in EB as [F1%few_b_spec F2%few_b_spec].
  specialize (IH _ _ HF HR). destruct ab as [a b].
  assert (net_step (a, b) (run_event e (a, b)) \/ run_event e (a, b) = (a, b)) as [Hs|E]; [|by eapply rtc_l|by rewrite <- E].
  destruct e as [x now|x now|i c now|i c now]; cbn [run_event fst snd] in *.
  - left. by apply step_act.
  - left. apply net_step_second. by apply step_act.
  - unfold hand. destruct (n_out b !! i) eqn:E; [|by right]. left. apply step_deliver; [by eapply list_elem_of_lookup_2|apply Honly].
  - unfold hand. destruct (n_out a !! i) as [p|] eqn:E; [|by right]. left.
    apply net_step_second. apply step_deliver; [by eapply list_elem_of_lookup_2|apply Honly].
Qed.

Lemma run_events_default (evs : list event) (ab : node * node) : (forall sealed p now s, opens_as_sealed sealed p now s) ->
  Forall event_ok evs -> match run_events evs ab with Some _ => true | None => false end = true ->
  net_run ab (default ab (run_events evs ab)).
Proof.
  intros Honly HF. destruct (run_events evs ab) as [ab'|] eqn:E; [|discriminate]. intros _.
  by apply (run_events_sound evs Honly).
Qed.
End Schedule.

(** The first carrier dies with everything on it; the second delivers out of
    order, and late and repeated packets of the first arrive as well. *)
Definition toy_schedule : list event :=
  [OnA (DoOpen [1; 2]) 10; OnA (DoAttach 1) 11; OnA DoRun 12; OnA (DoLost 1 None) 13;
   OnA (DoWrite 0 [72; 101; 108; 108; 111]) 14; OnA (DoAttach 2) 15; OnA DoRun 16;
   ToB 3 7 17; ToB 2 7 18; ToB 2 7 19; ToB 0 7 20; ToB 4 7 21; OnB (DoAttach 7) 22; OnB DoRun 23;
   ToA 0 2 24; OnA (DoWrite 0 [33]) 25; OnA DoRun 26].
Definition toy_start : node * node :=
  @net_init toy_kdf (zeros 16) (replicate 32 1) (replicate 32 1) DefaultConfig DefaultConfig 0 0.
Definition toy_end : option (node * node) := @run_events toy_aead toy_kdf toy_schedule toy_start.
Definition toy_pair : node * node := default toy_start toy_end.

Lemma toy_schedule_ok : Forall event_ok toy_schedule.
Proof.
  unfold toy_schedule.
  repeat (apply Forall_cons_2; [cbn [event_ok action_ok]; first [exact I|repeat (apply Forall_cons_2; [by compute|]); apply Forall_nil_2]|]).
  apply Forall_nil_2.
Qed.

Lemma toy_opens_as_sealed (sealed : list sealing) (p : bytes) (now : Z) (s : Session) : @opens_as_sealed toy_aead toy_kdf sealed p now s.
Proof. intros k h f h' g cm _ Hs Hf Hw [k' Ho]%openLocked_open. exact (toy_opens_one k k' h h' f g p Hf Hw Hs Ho). Qed.
Lemma toy_net_run : @net_run toy_aead toy_kdf toy_start toy_pair.
Proof.
  unfold toy_pair, toy_end. apply run_events_default; [exact toy_opens_as_sealed|exact toy_schedule_ok|]. vm_compute. reflexivity.
Qed.

(** Two frames reach the service, three are queued, one is still buffered. *)
Lemma session_exactly_once_witness :
  length (h_delivered (n_s (snd toy_pair))) = 2%nat /\ length (h_queued (n_s (fst toy_pair))) = 3%nat /\
  map strip (h_delivered (n_s (snd toy_pair))) `prefix_of` h_queued (n_s (fst toy_pair)).
Proof.
  split; [vm_compute; reflexivity|]. split; [vm_compute; reflexivity|]. pose proof toy_net_run as HR.
  destruct toy_pair as [a b]. exact (proj2 (@session_exactly_once toy_aead toy_kdf _ _ _ _ _ _ _ a b HR)).
Defined.

Lemma session_loses_nothing_witness :
  length (s_unacked (n_s (fst toy_pair))) = 1%nat /\
  s_peerAck (n_s (fst toy_pair)) <= Z.of_nat (length (h_delivered (n_s (snd toy_pair)))).
Proof.
  split; [vm_compute; reflexivity|].
  assert (bool_decide (s_state (n_s (fst toy_pair)) <> Closed) = true) as HC by (vm_compute; reflexivity).
  apply bool_decide_eq_true in HC. pose proof toy_net_run as HR. destruct toy_pair as [a b].
  exact (proj1 (@session_loses_nothing toy_aead toy_kdf _ _ _ _ _ _ _ a b HR HC)).
Defined.

Lemma packet_numbers_never_reused_witness :
  length (h_sealed (n_s (fst toy_pair))) = 6%nat /\ NoDup (map (fun x => h_pn (sg_header x)) (h_sealed (n_s (fst toy_pair)))).
Proof.
  assert (length (h_sealed (n_s (fst toy_pair))) = 6%nat) as HL by (vm_compute; reflexivity).
  split; [exact HL|]. pose proof toy_net_run as HR. destruct toy_pair as [a b].
  apply (@packet_numbers_never_reused toy_aead toy_kdf _ _ _ _ _ _ _ a b HR). cbn [fst] in HL. rewrite HL. reflexivity.
Defined.

(** A packet of the right size and version under a key nobody has. *)
Definition toy_forgery : bytes := 1 :: zeros 4 ++ [9; 0; 0; 0; 0; 0; 0; 0] ++ replicate 971 255.

Lemma forged_packet_changes_nothing_witness :
  let s := n_s (snd toy_start) in
  snd (@Receive toy_aead toy_kdf (Some 3%nat) toy_forgery 5 s) <> Ok tt /\
  s_recvNext (fst (@Receive toy_aead toy_kdf (Some 3%nat) toy_forgery 5 s)) = s_recvNext s.
Proof.
  intros s. destruct (@forged_packet_changes_nothing toy_aead toy_kdf (Some 3%nat) toy_forgery 5 s)
    as (HE & _ & _ & _ & _ & _ & _ & _ & _ & _ & HR & _); [|by split].
  assert (match @parseHeader toy_forgery with Ok h => is_ok (@openLocked toy_aead toy_kdf h toy_forgery 5 s) | _ => false end = false)
    as HF by (vm_compute; reflexivity).
  intros h r HP HO. rewrite HP, HO in HF. discriminate.
Defined.

