(* ===== verification/Placement.v ===== *)
(** * Where the shards of a chunk go ([internal/placement/plan.go], [reputation.go])

    The planner that gives the shards of one chunk to peers in distinct failure
    domains, the ranking by local reputation in front of it, the view that
    undoes crowding, and the count of the shard indexes that outlive the worst
    loss of holders: by enumeration of the sets of holders when there are few,
    by a pessimistic bound beyond.  Strings are compared bytewise. *)
From S2P Require Import Prelude.
From S2P Require Import GoBytes.
From S2P Require Import GoFloat.
From S2P Require Import RecordUpdate.
From Stdlib Require String.
Import String.StringSyntax.

(** ** Data *)

Record Candidate : Type := mkCandidate { cd_PeerID : string; cd_FreeBytes : Z; cd_Capacity : Z; cd_Domains : list string }.
Record Shard : Type := mkShard { sh_ID : string; sh_Index : Z; sh_Size : Z; sh_Holders : list string }.
#[export] Instance Shard_eta : Eta Shard := fun s => mkShard (sh_ID s) (sh_Index s) (sh_Size s) (sh_Holders s).
Record Assignment : Type := mkAssignment { as_ShardID : string; as_ShardIndex : Z; as_Peer : string }.

(** ** The gate *)

(** The peers that hold any shard of the chunk. *)
Definition occupied_by (shards : list Shard) : gset string := list_to_set (concat (map sh_Holders shards)).
(** [byPeer]: the last candidate of an id wins. *)
Definition by_peer (candidates : list Candidate) : gmap string (list string) :=
  foldl (fun m c => <[cd_PeerID c := cd_Domains c]> m) ∅ candidates.
Definition taken_by (byPeer : gmap string (list string)) (occupied : gset string) : gset string :=
  list_to_set (concat (map (fun holder => default [] (byPeer !! holder)) (elements occupied))).

Definition sharesDomain (domains : list string) (taken : gset string) : bool := existsb (fun k => bool_decide (k ∈ taken)) domains.

(** [occupied], [takenDomain] and [out]. *)
Record PlanState : Type := mkPlanState { ps_occupied : gset string; ps_taken : gset string; ps_out : list Assignment }.

Definition admits (st : PlanState) (size : Z) (c : Candidate) : bool :=
  negb (bool_decide (cd_PeerID c ∈ ps_occupied st)) &&
  negb ((0 <? cd_FreeBytes c) && (cd_FreeBytes c <? size)) &&
  negb (sharesDomain (cd_Domains c) (ps_taken st)).
(** The empty id stands for nobody. *)
Definition picked (ranked : list Candidate) (st : PlanState) (size : Z) : option Candidate :=
  match List.find (admits st size) ranked with
  | Some c => if String.eqb (cd_PeerID c) "" then None else Some c
  | None => None
  end.
Definition assign (st : PlanState) (sh : Shard) (c : Candidate) : PlanState :=
  mkPlanState ({[cd_PeerID c]} ∪ ps_occupied st) (list_to_set (cd_Domains c) ∪ ps_taken st)
    (ps_out st ++ [mkAssignment (sh_ID sh) (sh_Index sh) (cd_PeerID c)]).
(** The loop over [need]. *)
Fixpoint place_shard (ranked : list Candidate) (need : nat) (sh : Shard) (st : PlanState) : PlanState :=
  match need with
  | O => st
  | S need =>
      match picked ranked st (sh_Size sh) with
      | None => st
      | Some c => place_shard ranked need sh (assign st sh c)
      end
  end.

Definition fewer_holders (a b : Shard) : Prop := (length (sh_Holders a) <= length (sh_Holders b))%nat.
#[export] Instance fewer_holders_dec (a b : Shard) : Decision (fewer_holders a b).
Proof. unfold fewer_holders. apply _. Defined.
(** The shards [order] indexes. *)
Definition serve_order (wantHolders : nat) (shards : list Shard) : list Shard :=
  merge_sort fewer_holders (filter (fun sh => (length (sh_Holders sh) < wantHolders)%nat) shards).

Definition plan_step (ranked : list Candidate) (wantHolders : nat) (st : PlanState) (sh : Shard) : PlanState :=
  place_shard ranked (wantHolders - length (sh_Holders sh)) sh st.
Definition plan_start (shards : list Shard) (ranked : list Candidate) : PlanState :=
  let occupied := occupied_by shards in mkPlanState occupied (taken_by (by_peer ranked) occupied) [].
Definition want_holders (wantHolders : Z) : nat := if wantHolders <? 1 then 1%nat else Z.to_nat wantHolders.
Definition plan_final (shards : list Shard) (ranked : list Candidate) (wantHolders : Z) : PlanState :=
  foldl (plan_step ranked (want_holders wantHolders)) (plan_start shards ranked) (serve_order (want_holders wantHolders) shards).
Definition planOrdered (shards : list Shard) (ranked : list Candidate) (wantHolders : Z) : list Assignment :=
  ps_out (plan_final shards ranked wantHolders).

(** Emptiest first; ties by id. *)
Definition emptier (a b : Candidate) : bool :=
  if negb (cd_FreeBytes a =? cd_FreeBytes b) then cd_FreeBytes b <? cd_FreeBytes a else String.ltb (cd_PeerID a) (cd_PeerID b).
Definition Plan (shards : list Shard) (candidates : list Candidate) (wantHolders : Z) : list Assignment :=
  planOrdered shards (merge_sort (fun a b => Is_true (negb (emptier b a))) candidates) wantHolders.

Definition DomainsUnavailable (candidates : list Candidate) : Z :=
  Z.of_nat (length (filter (fun c => cd_Domains c = []) candidates)).

(** ** Reputation *)

Definition NeutralReputation : float64 := f64_div (f64_of_int 1) (f64_of_int 2).
Record HostScore : Type := mkHostScore { hs_Reputation : float64; hs_Observed : bool }.
Definition score_Value (h : HostScore) : float64 :=
  if negb (hs_Observed h) then NeutralReputation
  else if SFltb (hs_Reputation h) (f64_of_int 0) then f64_of_int 0
  else if SFltb (f64_of_int 1) (hs_Reputation h) then f64_of_int 1
  else hs_Reputation h.
Definition bucket (score : string -> HostScore) (peerID : string) : Z :=
  f64_to_int (f64_add (f64_mul (score_Value (score peerID)) (f64_of_int 10)) (f64_div (f64_of_int 1) (f64_of_int 2))).
Definition ranks_first (score : string -> HostScore) (a b : Candidate) : bool :=
  let ba := bucket score (cd_PeerID a) in
  let bb := bucket score (cd_PeerID b) in
  if negb (ba =? bb) then bb <? ba else emptier a b.
Definition RankByReputation (candidates : list Candidate) (score : option (string -> HostScore)) : list Candidate :=
  match score with
  | None => candidates
  | Some score => merge_sort (fun a b => Is_true (negb (ranks_first score b a))) candidates
  end.
Definition PlanWithReputation (shards : list Shard) (candidates : list Candidate) (wantHolders : Z) (score : option (string -> HostScore)) : list Assignment :=
  planOrdered shards (RankByReputation candidates score) wantHolders.

(** [count], and the loop that takes [ranked] away from it. *)
Definition count_peers (cs : list Candidate) : gmap string Z :=
  foldl (fun m c => <[cd_PeerID c := default 0 (m !! cd_PeerID c) + 1]> m) ∅ cs.
Fixpoint uncount (count : gmap string Z) (ranked : list Candidate) : bool :=
  match ranked with
  | [] => true
  | c :: ranked =>
      let left := default 0 (count !! cd_PeerID c) - 1 in
      if left <? 0 then false else uncount (<[cd_PeerID c := left]> count) ranked
  end.
Definition RankIsPermutation (original ranked : list Candidate) : bool :=
  (length original =? length ranked)%nat && uncount (count_peers original) ranked.

(** ** Crowding *)

Definition DistinctHolders (shards : list Shard) : Z := Z.of_nat (size (occupied_by shards)).

(** One turn of the inner loop: [credited] and [surplus]. *)
Definition credit (id : string) (st : gmap string string * bool) (holder : string) : gmap string string * bool :=
  match st.1 !! holder with
  | None => (<[holder := id]> st.1, false)
  | Some by_ => if String.eqb by_ id then (<[holder := id]> st.1, false) else st
  end.
Fixpoint uncrowd (credited : gmap string string) (shards : list Shard) : list Shard :=
  match shards with
  | [] => []
  | sh :: shards =>
      if (length (sh_Holders sh) =? 0)%nat then sh :: uncrowd credited shards
      else
        let '(credited, surplus) := foldl (credit (sh_ID sh)) (credited, true) (sh_Holders sh) in
        (if (surplus : bool) then (sh) <| sh_Holders := [] |> else sh) :: uncrowd credited shards
  end.
Definition WithoutCrowdedHolders (shards : list Shard) : list Shard := uncrowd ∅ shards.

(** ** Survivability *)

Definition RemoteIndexCount (shards : list Shard) : Z :=
  Z.of_nat (size (list_to_set (map sh_Index (filter (fun sh => sh_Holders sh <> []) shards)) : gset Z)).
Definition RemotelyRecoverable (shards : list Shard) (dataShards : Z) : bool := dataShards <=? RemoteIndexCount shards.

Definition maxEnumeratedHolders : Z := 63.
Definition maxEnumeratedSubsets : Z := 50000.

(** The product stays far below 64 bits: [result] is at most the cap before it. *)
Fixpoint choose_from (fuel : nat) (n k i result : Z) : Z :=
  match fuel with
  | O => result
  | S fuel =>
      let result := go_quot (result * (n - k + i)) i in
      if maxEnumeratedSubsets <? result then maxEnumeratedSubsets + 1 else choose_from fuel n k (i + 1) result
  end.
Definition choose (n k : Z) : Z :=
  if (k <? 0) || (n <? k) then 0
  else let k := if n - k <? k then n - k else k in choose_from (Z.to_nat k) n k 1 1.

(** The nested loops of [walk]; [visit] changes a state and may stop. *)
Section Subsets.
Context {A : Type} (visit : Z -> A -> A * bool) (total : nat).

Fixpoint walk_subsets (remaining start : nat) (mask : Z) (s : A) : A * bool :=
  match remaining with
  | O => visit mask s
  | S remaining =>
      (fix each (is_ : list nat) (s : A) : A * bool :=
         match is_ with
         | [] => (s, true)
         | i :: is_ =>
             let '(s, more) := walk_subsets remaining (S i) (Z.lor mask (Z.shiftl 1 (Z.of_nat i))) s in
             if (more : bool) then each is_ s else (s, false)
         end) (seq start (total - remaining - start)) s
  end.
Definition forEachSubset (pick : nat) (s : A) : A := (walk_subsets pick 0 0 s).1.
End Subsets.

(** [holderIndex] and [perIndex]. *)
Definition number_holder (m : gmap string nat) (holder : string) : gmap string nat :=
  match m !! holder with Some _ => m | None => <[holder := size m]> m end.
Definition holder_index (shards : list Shard) : gmap string nat := foldl number_holder ∅ (concat (map sh_Holders shards)).
Definition holders_at (shards : list Shard) (index : Z) : list string :=
  concat (map sh_Holders (filter (fun sh => sh_Index sh = index) shards)).
Definition held_indexes (shards : list Shard) : list Z :=
  elements (list_to_set (map sh_Index (filter (fun sh => sh_Holders sh <> []) shards)) : gset Z).

(** The masks, one per index of [perIndex]; [uint64], and at most 63 holders. *)
Definition mask_of (numbering : gmap string nat) (holders : list string) : Z :=
  foldl (fun mask holder => Z.lor mask (Z.shiftl 1 (Z.of_nat (default 0%nat (numbering !! holder))))) 0 holders.
Definition alive_masks (masks : list Z) (dead : Z) : Z := Z.of_nat (length (filter (fun mask => Z.ldiff mask dead <> 0) masks)).
Definition visit_dead (masks : list Z) (dead : Z) (worst : Z) : Z * bool :=
  let alive := alive_masks masks dead in
  let worst := if alive <? worst then alive else worst in
  (worst, 0 <? worst).

(** The pessimistic fallback; [load] counts the distinct indexes of each holder. *)
Definition holder_load (shards : list Shard) (holder : string) : Z :=
  Z.of_nat (size (list_to_set (map sh_Index (filter (fun sh => holder ∈ sh_Holders sh) shards)) : gset Z)).
Definition worstCaseHolderLoad (shards : list Shard) (losses covered : Z) : Z :=
  let counts := merge_sort Z.ge (map (holder_load shards) (elements (occupied_by shards))) in
  let lost := zsum (take (Z.to_nat losses) counts) in
  if covered <? lost then covered else lost.

Definition SurvivingIndexes (shards : list Shard) (losses : Z) : Z :=
  let covered := RemoteIndexCount shards in
  if (losses <=? 0) || (covered =? 0) then covered
  else
    let numbering := holder_index shards in
    let holders := Z.of_nat (size numbering) in
    if holders <=? losses then 0
    else if (maxEnumeratedHolders <? holders) || (maxEnumeratedSubsets <? choose holders losses) then
      covered - worstCaseHolderLoad shards losses covered
    else
      let masks := map (fun index => mask_of numbering (holders_at shards index)) (held_indexes shards) in
      forEachSubset (visit_dead masks) (size numbering) (Z.to_nat losses) covered.

Definition SurvivesHolderLosses (shards : list Shard) (dataShards losses : Z) : bool :=
  let dataShards := if dataShards <? 1 then 1 else dataShards in
  dataShards <=? SurvivingIndexes shards losses.

(** ** One holder fewer ([level.go]) *)

Definition WithoutHolder (shards : list Shard) (shardID peerID : string) : list Shard :=
  map (fun sh => (sh) <| sh_Holders := filter (fun holder => ~ (sh_ID sh = shardID /\ holder = peerID)) (sh_Holders sh) |>) shards.

(** ** What the gate guarantees *)

Definition disjoint_domains (a b : Candidate) : Prop := forall k, k ∈ cd_Domains a -> k ∉ cd_Domains b.
(** An assignment and the candidate it went to. *)
Record assigned_to (shards : list Shard) (candidates : list Candidate) (a : Assignment) (c : Candidate) : Prop := {
  at_peer : as_Peer a = cd_PeerID c;
  at_candidate : c ∈ candidates;
  at_named : cd_PeerID c <> ""%string;
  at_shard : exists sh, sh ∈ shards /\ as_ShardID a = sh_ID sh /\ as_ShardIndex a = sh_Index sh /\ (cd_FreeBytes c <= 0 \/ sh_Size sh <= cd_FreeBytes c)
}.
Record placed_apart (shards : list Shard) (candidates : list Candidate) (out : list Assignment) (chosen : list Candidate) : Prop := {
  pa_each : Forall2 (assigned_to shards candidates) out chosen;
  pa_peers : NoDup (map cd_PeerID chosen);
  pa_new : Forall (fun c => cd_PeerID c ∉ occupied_by shards) chosen;
  pa_apart : ForallOrdPairs disjoint_domains chosen;
  pa_holders : NoDup (map cd_PeerID candidates) ->
    forall c held, c ∈ chosen -> held ∈ candidates -> cd_PeerID held ∈ occupied_by shards -> disjoint_domains c held
}.

Lemma by_peer_Some (candidates : list Candidate) (peer : string) (domains : list string) :
  by_peer candidates !! peer = Some domains -> exists c, c ∈ candidates /\ cd_PeerID c = peer /\ cd_Domains c = domains.
Proof.
  unfold by_peer. induction candidates as [|c cs IH] using rev_ind; [cbn [foldl]; by rewrite lookup_empty|].
  rewrite foldl_app. cbn [foldl]. rewrite lookup_insert_Some. intros [[E1 E2]|[_ H]].
  - exists c. rewrite elem_of_app, list_elem_of_singleton. auto.
  - destruct (IH H) as (c' & H1 & H2). exists c'. rewrite elem_of_app. auto.
Qed.
Lemma by_peer_elem (candidates : list Candidate) (c : Candidate) :
  NoDup (map cd_PeerID candidates) -> c ∈ candidates -> by_peer candidates !! cd_PeerID c = Some (cd_Domains c).
Proof.
  unfold by_peer. induction candidates as [|d cs IH] using rev_ind; [by intros _ H%elem_of_nil|].
  rewrite map_app, foldl_app. cbn [map foldl]. intros (HN & HD & _)%NoDup_app. rewrite elem_of_app, list_elem_of_singleton. intros [H| ->].
  - rewrite lookup_insert_ne; [auto|]. intros E. apply (HD (cd_PeerID c)); [by apply list_elem_of_fmap_2|]. rewrite <- E. apply list_elem_of_here.
  - apply lookup_insert_eq.
Qed.

Lemma elem_of_taken_by (byPeer : gmap string (list string)) (occupied : gset string) (k : string) :
  k ∈ taken_by byPeer occupied <-> exists holder domains, holder ∈ occupied /\ byPeer !! holder = Some domains /\ k ∈ domains.
Proof.
  unfold taken_by. rewrite elem_of_list_to_set, list_elem_of_In, in_concat. setoid_rewrite <- list_elem_of_In. split.
  - intros (l & Hl & Hk). apply list_elem_of_fmap in Hl as (holder & -> & Hh). rewrite elem_of_elements in Hh.
    destruct (byPeer !! holder) as [domains|] eqn:E; cbn in Hk; [eauto|by apply elem_of_nil in Hk].
  - intros (holder & domains & H1 & H2 & H3). exists domains. split; [|done]. apply list_elem_of_fmap. exists holder.
    rewrite H2, elem_of_elements. done.
Qed.

Lemma sharesDomain_spec (domains : list string) (taken : gset string) : sharesDomain domains taken = true <-> exists k, k ∈ domains /\ k ∈ taken.
Proof.
  unfold sharesDomain. rewrite existsb_exists. setoid_rewrite <- list_elem_of_In. setoid_rewrite bool_decide_eq_true. done.
Qed.

Lemma admits_spec (st : PlanState) (size : Z) (c : Candidate) :
  admits st size c = true <->
  cd_PeerID c ∉ ps_occupied st /\ (cd_FreeBytes c <= 0 \/ size <= cd_FreeBytes c) /\ (forall k, k ∈ cd_Domains c -> k ∉ ps_taken st).
Proof.
  unfold admits. rewrite !andb_true_iff, !negb_true_iff, bool_decide_eq_false, andb_false_iff, Z.ltb_ge, Z.ltb_ge.
  rewrite <- not_true_iff_false, sharesDomain_spec. split.
  - intros [[H1 H2] H3]. split; [done|]. split; [done|]. intros k Hk Ht. apply H3. eauto.
  - intros (H1 & H2 & H3). split; [done|]. intros (k & Hk & Ht). by apply (H3 k).
Qed.

Lemma picked_spec (ranked : list Candidate) (st : PlanState) (size : Z) (c : Candidate) :
  picked ranked st size = Some c -> c ∈ ranked /\ cd_PeerID c <> ""%string /\ admits st size c = true.
Proof.
  unfold picked. destruct (List.find _ _) as [d|] eqn:E; [|done]. destruct (String.eqb_spec (cd_PeerID d) ""%string) as [|Hn]; [done|].
  intros [= ->]. apply find_some in E as [E1 E2]. rewrite list_elem_of_In. done.
Qed.

(** The state of a plan against the candidates chosen so far. *)
Record plan_inv (shards : list Shard) (ranked : list Candidate) (st : PlanState) (chosen : list Candidate) : Prop := {
  pi_each : Forall2 (assigned_to shards ranked) (ps_out st) chosen;
  pi_occupied : ps_occupied st = list_to_set (map cd_PeerID chosen) ∪ occupied_by shards;
  pi_taken : ps_taken st = list_to_set (concat (map cd_Domains chosen)) ∪ taken_by (by_peer ranked) (occupied_by shards);
  pi_peers : NoDup (map cd_PeerID chosen);
  pi_new : Forall (fun c => cd_PeerID c ∉ occupied_by shards) chosen;
  pi_apart : ForallOrdPairs disjoint_domains chosen;
  pi_holders : Forall (fun c => forall k, k ∈ cd_Domains c -> k ∉ taken_by (by_peer ranked) (occupied_by shards)) chosen
}.

Lemma elem_of_domains (chosen : list Candidate) (k : string) :
  k ∈ (list_to_set (concat (map cd_Domains chosen)) : gset string) <-> exists c, c ∈ chosen /\ k ∈ cd_Domains c.
Proof.
  rewrite elem_of_list_to_set, list_elem_of_In, in_concat. setoid_rewrite <- list_elem_of_In. split.
  - intros (l & (c & -> & Hc)%list_elem_of_fmap & Hk). eauto.
  - intros (c & Hc & Hk). exists (cd_Domains c). split; [|done]. by apply list_elem_of_fmap_2.
Qed.
Lemma ForallOrdPairs_snoc {A : Type} (R : A -> A -> Prop) (l : list A) (x : A) :
  ForallOrdPairs R l -> Forall (fun y => R y x) l -> ForallOrdPairs R (l ++ [x]).
Proof.
  induction 1 as [|y l Hy HR IH]; intros HF; cbn; [repeat constructor|]. apply Forall_cons in HF as [Hyx HF]. constructor; [|auto].
  apply Forall_app. auto.
Qed.

Lemma assign_inv (shards : list Shard) (ranked chosen : list Candidate) (st : PlanState) (sh : Shard) (c : Candidate) :
  plan_inv shards ranked st chosen -> sh ∈ shards -> picked ranked st (sh_Size sh) = Some c -> plan_inv shards ranked (assign st sh c) (chosen ++ [c]).
Proof.
  intros [IE IO IT IP IN IA IH] Hsh (Hc & Hn & (Ho & Hf & Hk)%admits_spec)%picked_spec.
  rewrite IO, not_elem_of_union in Ho. destruct Ho as [Ho1 Ho2]. setoid_rewrite IT in Hk. setoid_rewrite not_elem_of_union in Hk.
  split; cbn [assign ps_occupied ps_taken ps_out].
  - apply Forall2_app; [done|]. constructor; [|constructor]. split; cbn; [done..|]. exists sh. auto.
  - rewrite IO, map_app, list_to_set_app_L. cbn [map list_to_set]. by rewrite (union_comm_L _ ({[_]} ∪ ∅)), union_empty_r_L, (assoc_L (∪)).
  - rewrite IT, map_app, concat_app, list_to_set_app_L. cbn [map concat]. by rewrite app_nil_r, (union_comm_L _ (list_to_set (cd_Domains c))), (assoc_L (∪)).
  - rewrite map_app. apply NoDup_snoc; [done|]. rewrite elem_of_list_to_set in Ho1. done.
  - apply Forall_app. split; [done|]. by apply Forall_singleton.
  - apply ForallOrdPairs_snoc; [done|]. apply Forall_forall. intros d Hd k Hkd Hkc. apply (proj1 (Hk k Hkc)), elem_of_domains. eauto.
  - apply Forall_app. split; [done|]. apply Forall_singleton. intros k Hkc. apply Hk. done.
Qed.

Lemma place_shard_inv (shards : list Shard) (ranked : list Candidate) (need : nat) (sh : Shard) (st : PlanState) (chosen : list Candidate) :
  plan_inv shards ranked st chosen -> sh ∈ shards -> exists chosen', plan_inv shards ranked (place_shard ranked need sh st) chosen'.
Proof.
  revert st chosen. induction need as [|need IH]; intros st chosen HI Hsh; cbn [place_shard]; [eauto|].
  destruct (picked _ _ _) as [c|] eqn:E; [|eauto]. eapply IH; [|done]. by apply assign_inv.
Qed.

Lemma serve_order_spec (want : nat) (shards : list Shard) (sh : Shard) :
  sh ∈ serve_order want shards <-> sh ∈ shards /\ (length (sh_Holders sh) < want)%nat.
Proof. unfold serve_order. rewrite merge_sort_Permutation, list_elem_of_filter. naive_solver. Qed.

Lemma plan_start_inv (shards : list Shard) (ranked : list Candidate) : plan_inv shards ranked (plan_start shards ranked) [].
Proof. split; cbn; try constructor; set_solver. Qed.

Lemma plan_fold_inv (shards : list Shard) (ranked : list Candidate) (want : nat) (order : list Shard) (st : PlanState) (chosen : list Candidate) :
  plan_inv shards ranked st chosen -> order ⊆ shards -> exists chosen', plan_inv shards ranked (foldl (plan_step ranked want) st order) chosen'.
Proof.
  revert st chosen. induction order as [|sh order IH]; intros st chosen HI Hs; cbn [foldl]; [eauto|].
  destruct (place_shard_inv shards ranked (want - length (sh_Holders sh)) sh st chosen HI) as [chosen' H'].
  - apply Hs, list_elem_of_here.
  - eapply IH; [exact H'|]. intros x Hx. apply Hs. by apply list_elem_of_further.
Qed.
Lemma plan_final_inv (shards : list Shard) (ranked : list Candidate) (wantHolders : Z) :
  exists chosen, plan_inv shards ranked (plan_final shards ranked wantHolders) chosen.
Proof.
  eapply plan_fold_inv; [apply plan_start_inv|]. intros sh Hsh. by apply serve_order_spec in Hsh as [Hsh _].
Qed.

Lemma plan_inv_apart (shards : list Shard) (ranked candidates : list Candidate) (st : PlanState) (chosen : list Candidate) :
  plan_inv shards ranked st chosen -> ranked ≡ₚ candidates -> placed_apart shards candidates (ps_out st) chosen.
Proof.
  intros [IE IO IT IP IN IA IH] HP. split; try done.
  - eapply Forall2_impl; [exact IE|]. intros a c [A1 A2 A3 A4]. split; try done. by rewrite <- HP.
  - intros HN c held Hc Hh Ho k Hk Hk'. rewrite Forall_forall in IH. apply (IH c Hc k Hk), elem_of_taken_by.
    exists (cd_PeerID held), (cd_Domains held). split; [done|]. split; [|done]. apply by_peer_elem; [|by rewrite HP].
    by rewrite HP.
Qed.

Lemma planOrdered_apart (shards : list Shard) (ranked candidates : list Candidate) (wantHolders : Z) :
  ranked ≡ₚ candidates -> exists chosen, placed_apart shards candidates (planOrdered shards ranked wantHolders) chosen.
Proof.
  intros HP. destruct (plan_final_inv shards ranked wantHolders) as [chosen HI]. exists chosen. by eapply plan_inv_apart.
Qed.
Lemma RankByReputation_perm (candidates : list Candidate) (score : option (string -> HostScore)) : RankByReputation candidates score ≡ₚ candidates.
Proof. destruct score; [apply merge_sort_Permutation|done]. Qed.

(** ** When the gate gives up *)

(** [st'] came from [st]: more is occupied and taken, more is out. *)
Record extends (st st' : PlanState) : Prop := {
  ex_occupied : ps_occupied st ⊆ ps_occupied st';
  ex_taken : ps_taken st ⊆ ps_taken st';
  ex_out : ps_out st `prefix_of` ps_out st'
}.
#[export] Instance extends_preorder : PreOrder extends.
Proof. split; [by split|]. intros a b c [H1 H2 H3] [H4 H5 H6]. split; etransitivity; eassumption. Qed.

Lemma extends_assign (st : PlanState) (sh : Shard) (c : Candidate) : extends st (assign st sh c).
Proof. split; cbn; [apply union_subseteq_r..|by apply prefix_app_r]. Qed.
Lemma place_shard_extends (ranked : list Candidate) (need : nat) (sh : Shard) (st : PlanState) : extends st (place_shard ranked need sh st).
Proof.
  revert st. induction need as [|need IH]; intros st; cbn [place_shard]; [done|]. destruct (picked _ _ _) as [c|]; [|done].
  etransitivity; [apply (extends_assign st sh c)|apply IH].
Qed.
Lemma plan_fold_extends (ranked : list Candidate) (want : nat) (order : list Shard) (st : PlanState) :
  extends st (foldl (plan_step ranked want) st order).
Proof.
  revert st. induction order as [|sh order IH]; intros st; cbn [foldl]; [done|].
  etransitivity; [apply place_shard_extends|apply IH].
Qed.

Definition rejected (st : PlanState) (size : Z) (c : Candidate) : Prop := admits st size c = false.
Lemma rejected_extends (st st' : PlanState) (size : Z) (c : Candidate) : extends st st' -> rejected st size c -> rejected st' size c.
Proof.
  intros [H1 H2 _]. unfold rejected. rewrite <- !not_true_iff_false, !admits_spec. intros H (H3 & H4 & H5). apply H.
  split; [by intros ?%H1|]. split; [done|]. intros k Hk Ht. by apply (H5 k Hk), H2.
Qed.

(** The assignments of one shard. *)
Definition placements_of (sh : Shard) (out : list Assignment) : list Assignment :=
  filter (fun a => as_ShardID a = sh_ID sh /\ as_ShardIndex a = sh_Index sh) out.
Lemma placements_of_prefix (sh : Shard) (l k : list Assignment) : l `prefix_of` k -> (length (placements_of sh l) <= length (placements_of sh k))%nat.
Proof. intros [m ->]. unfold placements_of. rewrite filter_app, length_app. lia. Qed.

Lemma place_shard_progress (ranked : list Candidate) (need : nat) (sh : Shard) (st : PlanState) :
  Forall (fun c => cd_PeerID c <> ""%string) ranked ->
  (length (placements_of sh (ps_out st)) + need <= length (placements_of sh (ps_out (place_shard ranked need sh st))))%nat \/
  Forall (rejected (place_shard ranked need sh st) (sh_Size sh)) ranked.
Proof.
  intros HN. revert st. induction need as [|need IH]; intros st; cbn [place_shard]; [left; lia|].
  destruct (picked ranked st (sh_Size sh)) as [c|] eqn:E.
  - destruct (IH (assign st sh c)) as [H|H]; [left|by right].
    cbn [assign ps_out] in H. unfold placements_of in H at 1. rewrite filter_app, length_app in H.
    rewrite filter_cons_True in H by done. cbn [length filter] in H. unfold placements_of at 1. cbn in H. lia.
  - right. unfold picked in E. destruct (List.find _ _) as [d|] eqn:F.
    + apply find_some in F as [F _]. rewrite Forall_forall in HN. destruct (String.eqb_spec (cd_PeerID d) ""%string) as [E'|]; [|done].
      exfalso. apply (HN d); [by apply list_elem_of_In|done].
    + apply Forall_forall. intros d Hd. apply (find_none _ _ F). by apply list_elem_of_In.
Qed.

Lemma plan_fold_progress (ranked : list Candidate) (want : nat) (order : list Shard) (st : PlanState) (sh : Shard) :
  Forall (fun c => cd_PeerID c <> ""%string) ranked -> sh ∈ order ->
  (want - length (sh_Holders sh) <= length (placements_of sh (ps_out (foldl (plan_step ranked want) st order))))%nat \/
  Forall (rejected (foldl (plan_step ranked want) st order) (sh_Size sh)) ranked.
Proof.
  intros HN. revert st. induction order as [|x order IH]; intros st Hsh; [by apply elem_of_nil in Hsh|]. cbn [foldl].
  apply elem_of_cons in Hsh as [<-|Hsh]; [|by apply IH].
  pose proof (plan_fold_extends ranked want order (plan_step ranked want st sh)) as HX.
  destruct (place_shard_progress ranked (want - length (sh_Holders sh)) sh st HN) as [H|H].
  - left. pose proof (placements_of_prefix sh _ _ (ex_out _ _ HX)) as HP. unfold plan_step in *. lia.
  - right. eapply Forall_impl; [exact H|]. intros c. by apply rejected_extends.
Qed.

(** Why a candidate is of no use to a shard. *)
Inductive useless (shards : list Shard) (candidates : list Candidate) (out : list Assignment) (sh : Shard) (c : Candidate) : Prop :=
| useless_holder : cd_PeerID c ∈ occupied_by shards -> useless shards candidates out sh c
| useless_assigned : cd_PeerID c ∈ map as_Peer out -> useless shards candidates out sh c
| useless_full : 0 < cd_FreeBytes c < sh_Size sh -> useless shards candidates out sh c
| useless_domain (other : Candidate) (k : string) :
    other ∈ candidates -> cd_PeerID other ∈ occupied_by shards \/ cd_PeerID other ∈ map as_Peer out ->
    k ∈ cd_Domains c -> k ∈ cd_Domains other -> useless shards candidates out sh c.

Lemma rejected_useless (shards : list Shard) (ranked : list Candidate) (st : PlanState) (chosen : list Candidate) (sh : Shard) (c : Candidate) :
  plan_inv shards ranked st chosen -> rejected st (sh_Size sh) c -> useless shards ranked (ps_out st) sh c.
Proof.
  intros [IE IO IT _ _ _ _] HR.
  assert (map as_Peer (ps_out st) = map cd_PeerID chosen) as EM.
  { clear -IE. induction IE as [|a d l k [A1 _ _ _] _ IH]; cbn; [done|]. by rewrite A1, IH. }
  assert (Forall (fun d => d ∈ ranked) chosen) as HC.
  { clear -IE. induction IE as [|a d l k [_ A2 _ _] _ IH]; auto. }
  unfold rejected, admits in HR. rewrite !andb_false_iff, !negb_false_iff, bool_decide_eq_true, andb_true_iff, !Z.ltb_lt, sharesDomain_spec in HR.
  destruct HR as [[HR|HR]|(k & Hk & HT)].
  - rewrite IO, elem_of_union, elem_of_list_to_set in HR. destruct HR as [HR|HR]; [apply useless_assigned; by rewrite EM|by apply useless_holder].
  - by apply useless_full.
  - rewrite IT, elem_of_union, elem_of_domains, elem_of_taken_by in HT. destruct HT as [(d & Hd & Hk')|(h & ds & H1 & H2 & H3)].
    + eapply (useless_domain _ _ _ _ _ d k); [by rewrite Forall_forall in HC; apply HC| |done|done]. right. rewrite EM. by apply list_elem_of_fmap_2.
    + apply by_peer_Some in H2 as (d & Hd & <- & <-). eapply (useless_domain _ _ _ _ _ d k); [done|by left|done|done].
Qed.

Lemma planOrdered_complete (shards : list Shard) (ranked : list Candidate) (wantHolders : Z) (sh : Shard) :
  Forall (fun c => cd_PeerID c <> ""%string) ranked -> sh ∈ shards ->
  (want_holders wantHolders <= length (sh_Holders sh) + length (placements_of sh (planOrdered shards ranked wantHolders)))%nat \/
  Forall (useless shards ranked (planOrdered shards ranked wantHolders) sh) ranked.
Proof.
  intros HN Hsh. destruct (decide (length (sh_Holders sh) < want_holders wantHolders)%nat) as [Hl|]; [|left; lia].
  destruct (plan_final_inv shards ranked wantHolders) as [chosen HI].
  destruct (plan_fold_progress ranked (want_holders wantHolders) (serve_order (want_holders wantHolders) shards)
              (plan_start shards ranked) sh HN) as [H|H].
  - by apply serve_order_spec.
  - left. unfold planOrdered, plan_final. lia.
  - right. eapply Forall_impl; [exact H|]. intros c Hc. by eapply rejected_useless.
Qed.

Lemma useless_perm (shards : list Shard) (cs cs' : list Candidate) (out : list Assignment) (sh : Shard) (c : Candidate) :
  cs ≡ₚ cs' -> useless shards cs out sh c -> useless shards cs' out sh c.
Proof.
  intros HP [H|H|H|d k H1 H2 H3 H4]; [by apply useless_holder|by apply useless_assigned|by apply useless_full|].
  eapply useless_domain; [by rewrite <- HP|done..].
Qed.

(** ** Counting the peers of a ranking *)

Definition occurrences (cs : list Candidate) (peer : string) : Z := Z.of_nat (length (filter (fun c => cd_PeerID c = peer) cs)).
Lemma occurrences_cons (c : Candidate) (cs : list Candidate) (peer : string) :
  occurrences (c :: cs) peer = (if bool_decide (cd_PeerID c = peer) then 1 else 0) + occurrences cs peer.
Proof. unfold occurrences. rewrite filter_cons. repeat case_decide; case_bool_decide; cbn [length]; naive_solver lia. Qed.
Lemma occurrences_nonneg (cs : list Candidate) (peer : string) : 0 <= occurrences cs peer.
Proof. unfold occurrences. lia. Qed.

Lemma count_peers_spec (cs : list Candidate) (peer : string) : default 0 (count_peers cs !! peer) = occurrences cs peer.
Proof.
  unfold count_peers. induction cs as [|c cs IH] using rev_ind; [cbn [foldl]; by rewrite lookup_empty|].
  rewrite foldl_app. cbn [foldl]. unfold occurrences. rewrite filter_app, length_app, Nat2Z.inj_add. fold (occurrences cs peer). rewrite <- IH.
  destruct (decide (cd_PeerID c = peer)) as [<-|Hn].
  - rewrite lookup_insert_eq, filter_cons_True by done. cbn. lia.
  - rewrite lookup_insert_ne by done. rewrite filter_cons_False by done. cbn. lia.
Qed.

Lemma uncount_spec (count : gmap string Z) (ranked : list Candidate) :
  uncount count ranked = true <-> forall peer, peer ∈ map cd_PeerID ranked -> occurrences ranked peer <= default 0 (count !! peer).
Proof.
  revert count. induction ranked as [|c cs IH]; intros count; cbn [uncount map].
  - split; [|done]. intros _ peer H. by apply elem_of_nil in H.
  - destruct (Z.ltb_spec (default 0 (count !! cd_PeerID c) - 1) 0) as [Hl|Hl].
    + split; [done|]. intros H. specialize (H (cd_PeerID c) (list_elem_of_here _ _)). rewrite occurrences_cons in H.
      rewrite bool_decide_eq_true_2 in H by done. pose proof (occurrences_nonneg cs (cd_PeerID c)). lia.
    + rewrite IH. setoid_rewrite elem_of_cons. setoid_rewrite occurrences_cons. split; intros H peer Hp.
      * destruct (decide (cd_PeerID c = peer)) as [<-|Hn].
        -- rewrite bool_decide_eq_true_2 by done. destruct (decide (cd_PeerID c ∈ map cd_PeerID cs)) as [Hi|Hi].
           ++ specialize (H _ Hi). rewrite lookup_insert_eq in H. cbn in H. lia.
           ++ assert (occurrences cs (cd_PeerID c) = 0) as ->; [|lia]. unfold occurrences.
              destruct (filter _ cs) as [|d l] eqn:E; [done|]. exfalso. apply Hi. assert (d ∈ filter (fun x => cd_PeerID x = cd_PeerID c) cs) as Hd.
              { rewrite E. apply list_elem_of_here. }
              apply list_elem_of_filter in Hd as [<- Hd]. by apply list_elem_of_fmap_2.
        -- rewrite bool_decide_eq_false_2 by done. destruct Hp as [->|Hp]; [done|]. specialize (H _ Hp). rewrite lookup_insert_ne in H by done. lia.
      * specialize (H peer (or_intror Hp)). destruct (decide (cd_PeerID c = peer)) as [<-|Hn].
        -- rewrite lookup_insert_eq. rewrite bool_decide_eq_true_2 in H by done. cbn. lia.
        -- rewrite lookup_insert_ne by done. rewrite bool_decide_eq_false_2 in H by done. lia.
Qed.

Lemma occurrences_count (cs : list Candidate) (peer : string) : occurrences cs peer = Z.of_nat (length (filter (fun p => p = peer) (map cd_PeerID cs))).
Proof. unfold occurrences. induction cs as [|c cs IH]; [done|]. cbn [map]. rewrite !filter_cons. repeat case_decide; cbn [length]; lia. Qed.
Lemma counts_submseteq (k l : list string) :
  (forall x, x ∈ k -> (length (filter (fun p => p = x) k) <= length (filter (fun p => p = x) l))%nat) -> k ⊆+ l.
Proof.
  revert l. induction k as [|x k IH]; intros l H; [apply submseteq_nil_l|].
  assert (x ∈ l) as Hx.
  { specialize (H x (list_elem_of_here _ _)). rewrite filter_cons_True in H by done. destruct (filter _ l) as [|y m] eqn:E; [cbn in H; lia|].
    assert (y ∈ filter (fun p => p = x) l) as Hy by (rewrite E; apply list_elem_of_here). by apply list_elem_of_filter in Hy as [-> Hy]. }
  apply elem_of_Permutation in Hx as [l' HP]. rewrite HP. apply submseteq_skip, IH. intros y Hy.
  specialize (H y (list_elem_of_further _ _ _ Hy)). rewrite HP, !filter_cons in H. case_decide; cbn [length] in H; lia.
Qed.

Lemma RankIsPermutation_perm (original ranked : list Candidate) :
  RankIsPermutation original ranked = true <-> map cd_PeerID original ≡ₚ map cd_PeerID ranked.
Proof.
  unfold RankIsPermutation. rewrite andb_true_iff, Nat.eqb_eq, uncount_spec. setoid_rewrite count_peers_spec. setoid_rewrite occurrences_count. split.
  - intros [HL HC]. symmetry. apply submseteq_length_Permutation; [|rewrite !length_map; lia]. apply counts_submseteq. intros x Hx. specialize (HC x Hx). lia.
  - intros HP. split; [by rewrite <- (length_map cd_PeerID), HP, length_map|]. intros peer _. by rewrite HP.
Qed.

(** ** Crowding *)

(** The credits of a kept shard: one of its holders answers for its id, and keeps doing so. *)
Lemma credit_keeps (id : string) (holders : list string) (m : gmap string string) (s : bool) (h x : string) :
  m !! h = Some x -> (foldl (credit id) (m, s) holders).1 !! h = Some x.
Proof.
  revert m s. induction holders as [|y hs IH]; intros m s H; cbn [foldl]; [done|]. unfold credit at 2. cbn.
  destruct (m !! y) as [b|] eqn:E.
  - destruct (String.eqb_spec b id) as [->|]; [|by apply IH]. apply IH. destruct (decide (y = h)) as [->|].
    + rewrite lookup_insert_eq. congruence.
    + by rewrite lookup_insert_ne.
  - apply IH. rewrite lookup_insert_ne; [done|]. intros ->. congruence.
Qed.
Lemma credit_spec (id : string) (holders : list string) (m : gmap string string) (s : bool) :
  let st := foldl (credit id) (m, s) holders in
  if (st.2 : bool) then s = true /\ st.1 = m /\ Forall (fun h => exists x, m !! h = Some x /\ x <> id) holders
  else s = false \/ exists h, h ∈ holders /\ st.1 !! h = Some id.
Proof.
  revert m s. induction holders as [|y hs IH]; intros m s; cbn [foldl]; [destruct s; cbn; auto|].
  unfold credit at 2 4 6. cbn. destruct (m !! y) as [b|] eqn:E; [destruct (String.eqb_spec b id) as [->|Hn]|].
  - specialize (IH (<[y:=id]> m) false). cbn in IH. destruct (foldl _ _ hs) as [m' []] eqn:F; cbn in *; [naive_solver|].
    right. exists y. split; [apply list_elem_of_here|].
    pose proof (credit_keeps id hs (<[y:=id]> m) false y id (lookup_insert_eq _ _ _)) as HK. by rewrite F in HK.
  - specialize (IH m s). cbn in IH. destruct (foldl _ _ hs) as [m' []] eqn:F; cbn in *.
    + destruct IH as (H1 & H2 & H3). repeat (split; [done|]). constructor; eauto.
    + destruct IH as [|(h & H1 & H2)]; [auto|right]. exists h. split; [by apply list_elem_of_further|done].
  - specialize (IH (<[y:=id]> m) false). cbn in IH. destruct (foldl _ _ hs) as [m' []] eqn:F; cbn in *; [naive_solver|].
    right. exists y. split; [apply list_elem_of_here|].
    pose proof (credit_keeps id hs (<[y:=id]> m) false y id (lookup_insert_eq _ _ _)) as HK. by rewrite F in HK.
Qed.

(** What the view may do to a shard: keep it, or show it unplaced. *)
Definition shown_as (sh sh' : Shard) : Prop := sh' = sh \/ sh' = (sh) <| sh_Holders := [] |>.
Lemma uncrowd_spec (credited : gmap string string) (shards : list Shard) :
  exists final : gmap string string,
    credited ⊆ final /\
    Forall2 (fun sh sh' => (sh' = sh /\ (sh_Holders sh = [] \/ exists h, h ∈ sh_Holders sh /\ final !! h = Some (sh_ID sh))) \/
                           (sh' = (sh) <| sh_Holders := [] |> /\ sh_Holders sh <> [] /\
                            Forall (fun h => exists x, final !! h = Some x /\ x <> sh_ID sh) (sh_Holders sh)))
            shards (uncrowd credited shards).
Proof.
  revert credited. induction shards as [|sh shards IH]; intros credited; cbn [uncrowd]; [exists credited; auto|].
  destruct (Nat.eqb_spec (length (sh_Holders sh)) 0) as [E|E].
  - destruct (IH credited) as (final & HS & HF). exists final. split; [done|]. constructor; [|done]. left. split; [done|]. left. by apply length_zero_iff_nil.
  - pose proof (credit_spec (sh_ID sh) (sh_Holders sh) credited true) as HC.
    pose proof (credit_keeps (sh_ID sh) (sh_Holders sh) credited true) as HK.
    destruct (foldl _ _ (sh_Holders sh)) as [m surplus] eqn:F. cbn in HC, HK.
    destruct (IH m) as (final & HS & HF). exists final.
    assert (credited ⊆ m) as Hm by (apply map_subseteq_spec; intros; eapply HK; eauto).
    split; [by etransitivity|]. constructor; [|done]. rewrite map_subseteq_spec in HS. destruct surplus.
    + right. destruct HC as (_ & -> & HC). split; [done|]. split; [by intros EH; rewrite EH in E|]. eapply Forall_impl; [exact HC|].
      intros h (x & Hx & Hn). exists x. auto.
    + left. split; [done|]. right. destruct HC as [|(h & H1 & H2)]; [done|]. exists h. auto.
Qed.

(** ** The enumeration of subsets *)

(** The masks [walk] visits, in order. *)
Fixpoint subsets (total remaining start : nat) (mask : Z) : list Z :=
  match remaining with
  | O => [mask]
  | S remaining => concat (map (fun i => subsets total remaining (S i) (Z.lor mask (Z.shiftl 1 (Z.of_nat i)))) (seq start (total - remaining - start)))
  end.
Fixpoint visit_all {A : Type} (visit : Z -> A -> A * bool) (l : list Z) (s : A) : A * bool :=
  match l with
  | [] => (s, true)
  | m :: l => let '(s, more) := visit m s in if (more : bool) then visit_all visit l s else (s, false)
  end.
Lemma visit_all_app {A : Type} (visit : Z -> A -> A * bool) (l k : list Z) (s : A) :
  visit_all visit (l ++ k) s = (let '(s, more) := visit_all visit l s in if (more : bool) then visit_all visit k s else (s, false)).
Proof. revert s. induction l as [|m l IH]; intros s; cbn; [done|]. destruct (visit m s) as [s' []]; [apply IH|done]. Qed.

Lemma walk_visits {A : Type} (visit : Z -> A -> A * bool) (total remaining start : nat) (mask : Z) (s : A) :
  walk_subsets visit total remaining start mask s = visit_all visit (subsets total remaining start mask) s.
Proof.
  revert start mask s. induction remaining as [|r IH]; intros start mask s; cbn [walk_subsets subsets].
  - cbn. by destruct (visit mask s) as [s' []].
  - generalize (seq start (total - r - start)) as is_. intros is_. revert s. induction is_ as [|i is_ IHi]; intros s; cbn [map concat]; [done|].
    rewrite visit_all_app, <- IH. destruct (walk_subsets _ _ _ _ _ _) as [s' []]; [apply IHi|done].
Qed.

(** The set of positions of a mask. *)
Definition mask_is (mask : Z) (D : gset nat) : Prop := forall i : nat, Z.testbit mask (Z.of_nat i) = bool_decide (i ∈ D).
Lemma mask_is_add (mask : Z) (D : gset nat) (i : nat) :
  mask_is mask D -> mask_is (Z.lor mask (Z.shiftl 1 (Z.of_nat i))) ({[i]} ∪ D).
Proof.
  intros H j. rewrite Z.lor_spec, H, Z.shiftl_1_l, Z.pow2_bits_eqb by lia.
  destruct (Z.eqb_spec (Z.of_nat i) (Z.of_nat j)) as [E|E].
  - apply Nat2Z.inj in E as ->. rewrite orb_true_r, bool_decide_eq_true_2; [done|]. apply elem_of_union_l. by apply elem_of_singleton.
  - rewrite orb_false_r. apply bool_decide_ext. rewrite elem_of_union, elem_of_singleton. split; [auto|]. intros [->|]; done.
Qed.
Lemma mask_is_0 : mask_is 0 ∅.
Proof. intros i. by rewrite Z.testbit_0_l. Qed.

Lemma size_below (D : gset nat) (lo hi : nat) : (forall i, i ∈ D -> (lo <= i < hi)%nat) -> (size D <= hi - lo)%nat.
Proof.
  intros H. transitivity (size (list_to_set (seq lo (hi - lo)) : gset nat)).
  - apply subseteq_size. intros i Hi. apply elem_of_list_to_set, elem_of_seq. specialize (H i Hi). lia.
  - rewrite size_list_to_set by apply NoDup_seq. by rewrite length_seq.
Qed.

Lemma subsets_sound (total remaining start : nat) (mask m : Z) (D : gset nat) :
  m ∈ subsets total remaining start mask -> mask_is mask D -> (forall i, i ∈ D -> (i < start)%nat) ->
  exists E, mask_is m (E ∪ D) /\ size E = remaining /\ (forall i, i ∈ E -> (start <= i < total)%nat).
Proof.
  revert start mask D. induction remaining as [|r IH]; intros start mask D; cbn [subsets].
  - intros ->%list_elem_of_singleton HD _. exists ∅. rewrite union_empty_l_L. split; [done|]. split; [apply size_empty|]. set_solver.
  - intros Hm HD Hlt. apply list_elem_of_In, in_concat in Hm as (l & Hl & Hm). apply list_elem_of_In in Hl, Hm.
    apply list_elem_of_fmap in Hl as (i & -> & Hi). apply elem_of_seq in Hi.
    destruct (IH (S i) _ ({[i]} ∪ D) Hm (mask_is_add _ _ i HD)) as (E & HE & HS & HR).
    { intros j. rewrite elem_of_union, elem_of_singleton. intros [->|Hj%Hlt]; lia. }
    exists ({[i]} ∪ E). split; [|split].
    + by rewrite (comm_L (∪) {[i]} E), <- (assoc_L (∪)).
    + rewrite size_union, size_singleton; [lia|]. intros j ->%elem_of_singleton Hj%HR. lia.
    + intros j. rewrite elem_of_union, elem_of_singleton. intros [->|Hj%HR]; lia.
Qed.

Lemma subsets_complete (total remaining start : nat) (mask : Z) (D E : gset nat) :
  mask_is mask D -> size E = remaining -> (forall i, i ∈ E -> (start <= i < total)%nat) ->
  exists m, m ∈ subsets total remaining start mask /\ mask_is m (E ∪ D).
Proof.
  revert start mask D E. induction remaining as [|r IH]; intros start mask D E HD HS HR; cbn [subsets].
  - apply size_empty_inv in HS. apply leibniz_equiv in HS as ->. exists mask. rewrite union_empty_l_L. split; [apply list_elem_of_here|done].
  - destruct (minimal_exists_elem_of_L (≤)%nat E) as (i & Hi & Hmin); [intros ->; by rewrite size_empty in HS|].
    destruct (IH (S i) (Z.lor mask (Z.shiftl 1 (Z.of_nat i))) ({[i]} ∪ D) (E ∖ {[i]})) as (m & Hm & HM).
    + by apply mask_is_add.
    + rewrite size_difference, size_singleton by (by apply singleton_subseteq_l). lia.
    + intros j (Hj & Hn)%elem_of_difference. rewrite elem_of_singleton in Hn. pose proof (HR j Hj). split; [|lia].
      destruct (decide (j <= i)%nat) as [Hji|]; [|lia]. pose proof (Hmin j Hj Hji). lia.
    + exists m. split.
      * apply list_elem_of_In, in_concat. eexists. split; [|by apply list_elem_of_In]. apply list_elem_of_In, list_elem_of_fmap.
        exists i. split; [done|]. apply elem_of_seq. pose proof (HR i Hi) as Hb.
        assert (size E <= total - i)%nat as Hs; [|lia]. apply size_below. intros j Hj. split; [|by apply HR].
        destruct (decide (j <= i)%nat) as [Hji|]; [|lia]. by apply Hmin.
      * assert (E ∪ D = E ∖ {[i]} ∪ ({[i]} ∪ D)) as ->; [|done]. rewrite (assoc_L (∪)). f_equal.
        apply set_eq. intros j. rewrite elem_of_union, elem_of_difference, elem_of_singleton. destruct (decide (j = i)); naive_solver.
Qed.

(** The smallest count over the masks visited. *)
Lemma visit_all_min (masks l : list Z) (w r : Z) (more : bool) :
  0 <= w -> visit_all (visit_dead masks) l w = (r, more) ->
  r <= w /\ (forall m, m ∈ l -> r <= alive_masks masks m) /\ (r = w \/ exists m, m ∈ l /\ r = alive_masks masks m).
Proof.
  assert (forall m, 0 <= alive_masks masks m) as HA by (intros; unfold alive_masks; lia).
  revert w. induction l as [|m l IH]; intros w Hw; cbn [visit_all].
  - intros [= -> _]. split; [lia|]. split; [|auto]. intros m H. by apply elem_of_nil in H.
  - unfold visit_dead at 1. pose proof (HA m) as Hm.
    assert (exists v, 0 <= v /\ v <= w /\ v <= alive_masks masks m /\ (v = w \/ v = alive_masks masks m) /\
              (if alive_masks masks m <? w then alive_masks masks m else w) = v) as (v & Hv & Hvw & Hvm & Hor & ->).
    { destruct (Z.ltb_spec (alive_masks masks m) w); eexists; (split; [|split; [|split; [|split; [|reflexivity]]]]); try lia; auto. }
    cbv beta iota zeta. destruct (Z.ltb_spec 0 v).
    + intros H'. apply IH in H' as (H1 & H2 & H3); [|done]. split; [lia|]. split.
      * intros x [->|Hx]%elem_of_cons; [lia|auto].
      * destruct H3 as [->|(x & Hx & H3)]; [|right; exists x; split; [by apply list_elem_of_further|done]].
        destruct Hor as [->| ->]; [by left|right]. exists m. split; [apply list_elem_of_here|done].
    + intros [= -> _]. split; [lia|]. split; [intros x _; pose proof (HA x); lia|].
      destruct Hor as [->|Hor]; [by left|right]. exists m. split; [apply list_elem_of_here|done].
Qed.

(** ** Surviving indexes *)

(** The indexes still held when the peers [dead] are gone. *)
Definition alive_without (shards : list Shard) (dead : gset string) : gset Z :=
  list_to_set (map sh_Index (filter (fun sh => Exists (fun holder => holder ∉ dead) (sh_Holders sh)) shards)).
Lemma elem_of_alive (shards : list Shard) (dead : gset string) (i : Z) :
  i ∈ alive_without shards dead <-> exists sh holder, sh ∈ shards /\ sh_Index sh = i /\ holder ∈ sh_Holders sh /\ holder ∉ dead.
Proof.
  unfold alive_without. rewrite elem_of_list_to_set, list_elem_of_fmap. setoid_rewrite list_elem_of_filter. setoid_rewrite Exists_exists.
  split; [intros (sh & -> & (h & H1 & H2) & H3)|intros (sh & h & H1 & <- & H2 & H3)]; eauto 10.
Qed.
Lemma elem_of_occupied_by (shards : list Shard) (h : string) : h ∈ occupied_by shards <-> exists sh, sh ∈ shards /\ h ∈ sh_Holders sh.
Proof.
  unfold occupied_by. rewrite elem_of_list_to_set, list_elem_of_In, in_concat. setoid_rewrite <- list_elem_of_In. split.
  - intros (l & (sh & -> & H1)%list_elem_of_fmap & H2). eauto.
  - intros (sh & H1 & H2). exists (sh_Holders sh). split; [by apply list_elem_of_fmap_2|done].
Qed.
Lemma alive_mono (shards : list Shard) (a b : gset string) : a ⊆ b -> alive_without shards b ⊆ alive_without shards a.
Proof. intros HS i. rewrite !elem_of_alive. intros (sh & h & H1 & H2 & H3 & H4). exists sh, h. repeat (split; [done|]). intros H%HS. done. Qed.
Lemma alive_inter (shards : list Shard) (a : gset string) : alive_without shards (a ∩ occupied_by shards) = alive_without shards a.
Proof.
  apply set_eq. intros i. rewrite !elem_of_alive. apply exist_proper. intros sh. apply exist_proper. intros h.
  rewrite not_elem_of_intersection, elem_of_occupied_by. naive_solver.
Qed.

Lemma some_holder (sh : Shard) : sh_Holders sh <> [] <-> exists h, h ∈ sh_Holders sh.
Proof.
  destruct (sh_Holders sh) as [|h hs]; [split; [done|]|split; [|done]]; [intros (h & H); by apply elem_of_nil in H|].
  intros _. exists h. apply list_elem_of_here.
Qed.
Lemma held_set (shards : list Shard) :
  (list_to_set (map sh_Index (filter (fun sh => sh_Holders sh <> []) shards)) : gset Z) = alive_without shards ∅.
Proof.
  apply set_eq. intros i. rewrite elem_of_alive, elem_of_list_to_set, list_elem_of_fmap. setoid_rewrite list_elem_of_filter.
  setoid_rewrite some_holder. split; [intros (sh & -> & (h & H1) & H2)|intros (sh & h & H1 & <- & H2 & _)]; [exists sh, h|]; eauto 8.
  repeat (split; [done|]). apply not_elem_of_empty.
Qed.
Lemma RemoteIndexCount_alive (shards : list Shard) : RemoteIndexCount shards = Z.of_nat (size (alive_without shards ∅)).
Proof. unfold RemoteIndexCount. by rewrite held_set. Qed.

(** The numbering is a bijection between the holders and the positions below their number. *)
Record numbered (m : gmap string nat) : Prop := {
  nu_below : forall h n, m !! h = Some n -> (n < size m)%nat;
  nu_inj : forall g h n, m !! g = Some n -> m !! h = Some n -> g = h;
  nu_onto : forall n, (n < size m)%nat -> exists h, m !! h = Some n
}.
Lemma number_holder_ok (m : gmap string nat) (h : string) : numbered m -> numbered (number_holder m h).
Proof.
  intros [HB HI HO]. unfold number_holder. destruct (m !! h) eqn:E; [done|]. split.
  - intros g n. rewrite map_size_insert_None by done. rewrite lookup_insert_Some. intros [[-> <-]|[_ H%HB]]; lia.
  - intros g g' n. rewrite !lookup_insert_Some. intros [[-> <-]|[H1 H2]] [[-> H3]|[H3 H4]]; try done; try (by eapply HI).
    + apply HB in H4. lia.
    + subst n. apply HB in H2. lia.
  - intros n. rewrite map_size_insert_None by done. intros Hn. destruct (decide (n = size m)) as [->|].
    + exists h. apply lookup_insert_eq.
    + destruct (HO n) as (g & Hg); [lia|]. exists g. rewrite lookup_insert_ne; [done|]. intros ->. congruence.
Qed.
Lemma holder_index_ok (shards : list Shard) : numbered (holder_index shards) /\ dom (holder_index shards) = occupied_by shards.
Proof.
  unfold holder_index, occupied_by. induction (concat (map sh_Holders shards)) as [|h l IH] using rev_ind.
  - split; [|apply dom_empty_L]. cbn [foldl]. split; intros *; rewrite ?lookup_empty, ?map_size_empty; try done. lia.
  - destruct IH as [IH1 IH2]. rewrite foldl_app. cbn [foldl]. split; [by apply number_holder_ok|]. rewrite list_to_set_app_L, <- IH2. cbn.
    unfold number_holder. destruct (_ !! h) eqn:E.
    + apply elem_of_dom_2 in E. set_solver.
    + rewrite dom_insert_L. set_solver.
Qed.

Definition position (m : gmap string nat) (h : string) : nat := default 0%nat (m !! h).
Lemma position_inj (m : gmap string nat) (g h : string) : numbered m -> g ∈ dom m -> h ∈ dom m -> position m g = position m h -> g = h.
Proof.
  intros [_ HI _] (a & Ha)%elem_of_dom (b & Hb)%elem_of_dom. unfold position. rewrite Ha, Hb. cbn. intros ->. eauto.
Qed.
Lemma mask_of_spec (m : gmap string nat) (holders : list string) : mask_is (mask_of m holders) (list_to_set (map (position m) holders)).
Proof.
  unfold mask_of. induction holders as [|h hs IH] using rev_ind; [apply mask_is_0|]. rewrite foldl_app, map_app, list_to_set_app_L. cbn [foldl map list_to_set].
  rewrite union_empty_r_L, (comm_L (∪)). by apply mask_is_add.
Qed.
Lemma ldiff_nonzero (a b : Z) (D E : gset nat) : mask_is a D -> mask_is b E -> (Z.ldiff a b <> 0 <-> exists i, i ∈ D /\ i ∉ E).
Proof.
  intros HA HB. split.
  - intros HN. destruct (decide (D ⊆ E)) as [HS|HS].
    + exfalso. apply HN, Z.bits_inj'. intros n Hn. rewrite Z.bits_0, Z.ldiff_spec, <- (Z2Nat.id n), HA, HB by done.
      apply andb_false_iff. case_bool_decide as H1; [right|by left]. rewrite bool_decide_eq_true_2; [done|auto].
    + destruct (set_choose_or_empty (D ∖ E)) as [[i (H1 & H2)%elem_of_difference]|HE]; [eauto|]. exfalso. apply HS. set_solver.
  - intros (i & H1 & H2) HZ. assert (Z.testbit (Z.ldiff a b) (Z.of_nat i) = true) as HT; [|by rewrite HZ, Z.bits_0 in HT].
    rewrite Z.ldiff_spec, HA, HB, bool_decide_eq_true_2, bool_decide_eq_false_2 by done. done.
Qed.

Lemma elem_of_holders_at (shards : list Shard) (i : Z) (h : string) :
  h ∈ holders_at shards i <-> exists sh, sh ∈ shards /\ sh_Index sh = i /\ h ∈ sh_Holders sh.
Proof.
  unfold holders_at. rewrite list_elem_of_In, in_concat. setoid_rewrite <- list_elem_of_In. split.
  - intros (l & (sh & -> & [H1 H2]%list_elem_of_filter)%list_elem_of_fmap & H3). eauto.
  - intros (sh & H1 & H2 & H3). exists (sh_Holders sh). split; [|done]. apply list_elem_of_fmap. exists sh. split; [done|]. by apply list_elem_of_filter.
Qed.

(** A mask of dead holders counts what they leave. *)
Lemma alive_masks_alive (shards : list Shard) (dead : gset string) (m : Z) :
  let numbering := holder_index shards in
  dead ⊆ occupied_by shards -> mask_is m (set_map (position numbering) dead) ->
  alive_masks (map (fun index => mask_of numbering (holders_at shards index)) (held_indexes shards)) m = Z.of_nat (size (alive_without shards dead)).
Proof.
  intros numbering HD HM. destruct (holder_index_ok shards) as [HN HDom]. fold numbering in HN, HDom. unfold alive_masks. f_equal.
  rewrite length_filter_map. unfold held_indexes. rewrite held_set.
  transitivity (size (list_to_set (filter (fun index => Z.ldiff (mask_of numbering (holders_at shards index)) m <> 0) (elements (alive_without shards ∅))) : gset Z)).
  { rewrite size_list_to_set; [done|]. apply NoDup_filter, NoDup_elements. }
  f_equal. apply set_eq. intros i. rewrite elem_of_list_to_set, list_elem_of_filter, elem_of_elements, !elem_of_alive. cbn.
  rewrite (ldiff_nonzero _ _ _ _ (mask_of_spec numbering (holders_at shards i)) HM).
  setoid_rewrite elem_of_list_to_set. setoid_rewrite list_elem_of_fmap. setoid_rewrite elem_of_holders_at. split.
  - intros ((p & (h & -> & sh & H1 & H2 & H3) & H4) & _). exists sh, h. repeat (split; [done|]). intros Hh. apply H4. exists h. by rewrite elem_of_elements.
  - intros (sh & h & H1 & H2 & H3 & H4). split.
    + exists (position numbering h). split; [exists h; split; [done|]; exists sh; done|]. intros (g & Hp & Hg%elem_of_elements).
      apply H4. rewrite (position_inj numbering h g); try done; rewrite HDom; [|by apply HD]. apply elem_of_occupied_by. eauto.
    + exists sh, h. repeat (split; [done|]). apply not_elem_of_empty.
Qed.

Lemma grow_set (X H : gset string) (n : nat) :
  X ⊆ H -> (size X <= n <= size H)%nat -> exists D, X ⊆ D /\ D ⊆ H /\ size D = n.
Proof.
  intros HS [H1 H2]. remember (n - size X)%nat as k eqn:E. revert X HS H1 E. induction k as [|k IH]; intros X HS H1 E.
  - exists X. split; [done|]. split; [done|lia].
  - destruct (set_choose_or_empty (H ∖ X)) as [[h (Hh & Hn)%elem_of_difference]|HE].
    + assert (size ({[h]} ∪ X) = S (size X)) as Hs by (rewrite size_union, size_singleton; [done|set_solver]).
      destruct (IH ({[h]} ∪ X)) as (D & HD & HD2 & HD3); [set_solver|lia..|]. exists D. split; [set_solver|]. done.
    + assert (H ⊆ X) as HX by (intros x Hx; destruct (decide (x ∈ X)); set_solver). apply subseteq_size in HX. lia.
Qed.

Lemma size_positions (m : gmap string nat) (X : gset string) : numbered m -> X ⊆ dom m -> size (set_map (position m) X : gset nat) = size X.
Proof.
  intros HN HX. unfold set_map. rewrite size_list_to_set; [by rewrite length_fmap|].
  apply NoDup_fmap_2_strong; [|apply NoDup_elements]. intros g h Hg%elem_of_elements Hh%elem_of_elements. apply (position_inj m); auto.
Qed.
Lemma position_range (m : gmap string nat) (h : string) : numbered m -> h ∈ dom m -> (position m h < size m)%nat.
Proof. intros [HB _ _] (n & Hn)%elem_of_dom. unfold position. rewrite Hn. by eapply HB. Qed.
Lemma size_numbering (shards : list Shard) : size (holder_index shards) = size (occupied_by shards).
Proof. rewrite <- (proj2 (holder_index_ok shards)). by rewrite size_dom. Qed.

(** The enumeration against the sets of holders. *)
Lemma enumerated_exact (shards : list Shard) (losses : nat) :
  let numbering := holder_index shards in
  let masks := map (fun index => mask_of numbering (holders_at shards index)) (held_indexes shards) in
  let r := forEachSubset (visit_dead masks) (size numbering) losses (RemoteIndexCount shards) in
  (losses <= size (occupied_by shards))%nat ->
  (forall dead : gset string, dead ⊆ occupied_by shards -> size dead = losses -> r <= Z.of_nat (size (alive_without shards dead))) /\
  (exists dead : gset string, dead ⊆ occupied_by shards /\ size dead = losses /\ r = Z.of_nat (size (alive_without shards dead))).
Proof.
  intros numbering masks r HL. destruct (holder_index_ok shards) as [HN HD]. fold numbering in HN, HD.
  assert (forall dead, dead ⊆ occupied_by shards -> size dead = losses ->
            exists m, m ∈ subsets (size numbering) losses 0 0 /\ alive_masks masks m = Z.of_nat (size (alive_without shards dead))) as Hof.
  { intros dead Hs Hz. destruct (subsets_complete (size numbering) losses 0 0 ∅ (set_map (position numbering) dead)) as (m & Hm & HM).
    - apply mask_is_0.
    - rewrite size_positions; [done|done|by rewrite HD].
    - intros i (h & -> & Hh)%elem_of_map. split; [lia|]. apply position_range; [done|]. rewrite HD. auto.
    - rewrite union_empty_r_L in HM. exists m. split; [done|]. by apply alive_masks_alive. }
  destruct (visit_all (visit_dead masks) (subsets (size numbering) losses 0 0) (RemoteIndexCount shards)) as [v more] eqn:E.
  assert (r = v) as -> by (unfold r, forEachSubset; by rewrite walk_visits, E).
  apply visit_all_min in E as (H1 & H2 & H3); [|unfold RemoteIndexCount; lia]. split.
  - intros dead Hs Hz. destruct (Hof dead Hs Hz) as (m & Hm & <-). by apply H2.
  - destruct H3 as [->|(m & Hm & ->)].
    + destruct (grow_set ∅ (occupied_by shards) losses) as (dead & _ & Hs & Hz); [set_solver|rewrite size_empty; lia|].
      exists dead. split; [done|]. split; [done|]. destruct (Hof dead Hs Hz) as (m & Hm & EM). apply H2 in Hm. rewrite EM in Hm.
      rewrite RemoteIndexCount_alive in Hm |- *. pose proof (subseteq_size _ _ (alive_mono shards ∅ dead (empty_subseteq _))). lia.
    + apply (subsets_sound _ _ _ _ _ ∅) in Hm as (E & HM & HZ & HR); [|apply mask_is_0|set_solver]. rewrite union_empty_r_L in HM.
      set (dead := filter (fun h => position numbering h ∈ E) (occupied_by shards)).
      assert (set_map (position numbering) dead = E) as HE.
      { apply set_eq. intros i. rewrite elem_of_map. split; [intros (h & -> & [H _]%elem_of_filter); done|].
        intros Hi. destruct HN as [_ _ HO]. destruct (HO i) as (h & Hh); [by apply HR|]. exists h. unfold position. rewrite Hh. split; [done|].
        apply elem_of_filter. unfold position. rewrite Hh. split; [done|]. rewrite <- HD. by apply elem_of_dom_2 in Hh. }
      assert (dead ⊆ occupied_by shards) as Hs by (intros h Hh; by apply elem_of_filter in Hh as [_ Hh]).
      exists dead. split; [done|]. split.
      * rewrite <- HZ, <- HE. symmetry. apply size_positions; [done|by rewrite HD].
      * apply alive_masks_alive; [done|]. rewrite <- HE in HM. exact HM.
Qed.

#[local] Instance ge_transitive : Transitive Z.ge.
Proof. intros x y z. lia. Qed.
#[local] Instance ge_total : Total Z.ge.
Proof. intros x y. lia. Qed.

(** The sum of any few entries is at most that of the largest. *)
Lemma top_sum (l k : list Z) (n : nat) :
  StronglySorted Z.ge l -> Forall (fun x => 0 <= x) l -> k ⊆+ l -> (length k <= n)%nat -> zsum k <= zsum (take n l).
Proof.
  revert l k. induction n as [|n IH]; intros l k HS HP HK HL.
  - destruct k; [reflexivity|cbn in HL; lia].
  - destruct l as [|a l]; [apply submseteq_nil_r in HK as ->; done|]. apply StronglySorted_inv in HS as [HS Ha]. apply Forall_cons in HP as [Pa HP].
    cbn [take zsum foldr]. destruct k as [|b k].
    { cbn. assert (0 <= zsum (take n l)); [|unfold zsum in *; lia]. apply zsum_nonneg. by apply Forall_take. }
    apply submseteq_cons_r in HK as [HK|(k' & HP' & HK)].
    + assert (b ∈ l) as Hb by (eapply elem_of_submseteq; [apply list_elem_of_here|exact HK]). rewrite Forall_forall in Ha. specialize (Ha b Hb).
      assert (zsum k <= zsum (take n l)) as H; [|unfold zsum in *; cbn in *; lia]. apply IH; [done..| |cbn in HL; lia].
      etransitivity; [|exact HK]. by apply submseteq_cons.
    + rewrite (zsum_perm _ _ HP'). assert (zsum k' <= zsum (take n l)) as H; [|unfold zsum in *; cbn in *; lia].
      apply IH; [done..|]. apply Permutation_length in HP'. cbn in *. lia.
Qed.

(** What the dead carry. *)
Definition indexes_of (shards : list Shard) (holder : string) : gset Z := list_to_set (map sh_Index (filter (fun sh => holder ∈ sh_Holders sh) shards)).
Lemma lost_indexes (shards : list Shard) (dead : list string) :
  Z.of_nat (size (alive_without shards ∅)) <= Z.of_nat (size (alive_without shards (list_to_set dead))) + zsum (map (holder_load shards) dead).
Proof.
  induction dead as [|h dead IH]; [cbn; lia|]. cbn [map list_to_set].
  assert (alive_without shards (list_to_set dead) ⊆ alive_without shards ({[h]} ∪ list_to_set dead) ∪ indexes_of shards h) as HS.
  { intros i (sh & g & H1 & H2 & H3 & H4)%elem_of_alive. rewrite elem_of_union, elem_of_alive. destruct (decide (g = h)) as [->|Hn].
    - right. apply elem_of_list_to_set, list_elem_of_fmap. exists sh. split; [done|]. by apply list_elem_of_filter.
    - left. exists sh, g. repeat (split; [done|]). set_solver. }
  apply subseteq_size in HS. pose proof (size_union_alt (alive_without shards ({[h]} ∪ list_to_set dead)) (indexes_of shards h)) as HU.
  pose proof (subseteq_size (indexes_of shards h ∖ alive_without shards ({[h]} ∪ list_to_set dead)) (indexes_of shards h) ltac:(set_solver)).
  change (zsum (holder_load shards h :: map (holder_load shards) dead)) with (holder_load shards h + zsum (map (holder_load shards) dead)).
  unfold holder_load at 1. fold (indexes_of shards h). lia.
Qed.

Lemma worst_case_load (shards : list Shard) (losses : Z) (dead : gset string) :
  dead ⊆ occupied_by shards -> Z.of_nat (size dead) <= losses ->
  RemoteIndexCount shards - worstCaseHolderLoad shards losses (RemoteIndexCount shards) <= Z.of_nat (size (alive_without shards dead)).
Proof.
  intros HS HL. pose proof (lost_indexes shards (elements dead)) as HI. rewrite list_to_set_elements_L in HI. unfold worstCaseHolderLoad.
  rewrite RemoteIndexCount_alive. destruct (Z.ltb_spec (Z.of_nat (size (alive_without shards ∅)))
    (zsum (take (Z.to_nat losses) (merge_sort Z.ge (map (holder_load shards) (elements (occupied_by shards))))))) as [|HT]; [lia|].
  assert (zsum (map (holder_load shards) (elements dead)) <=
    zsum (take (Z.to_nat losses) (merge_sort Z.ge (map (holder_load shards) (elements (occupied_by shards)))))) as HZ; [|lia].
  apply top_sum.
  - apply (StronglySorted_merge_sort Z.ge).
  - rewrite merge_sort_Permutation. apply Forall_fmap, Forall_forall. intros h _. unfold holder_load. cbn. lia.
  - rewrite merge_sort_Permutation. apply fmap_submseteq. by apply elements_submseteq.
  - rewrite length_map. change (length (elements dead)) with (size dead). lia.
Qed.

Lemma SurvivingIndexes_sound (shards : list Shard) (losses : Z) (dead : gset string) :
  Z.of_nat (size dead) <= losses -> SurvivingIndexes shards losses <= Z.of_nat (size (alive_without shards dead)).
Proof.
  intros HL. unfold SurvivingIndexes. destruct (Z.leb_spec losses 0); cbn [orb].
  { assert (dead = ∅) as ->; [|by rewrite RemoteIndexCount_alive]. apply leibniz_equiv, size_empty_inv. lia. }
  destruct (Z.eqb_spec (RemoteIndexCount shards) 0) as [->|]; [lia|]. rewrite size_numbering.
  destruct (Z.leb_spec (Z.of_nat (size (occupied_by shards))) losses); [lia|].
  rewrite <- alive_inter. pose proof (subseteq_size (dead ∩ occupied_by shards) dead ltac:(set_solver)).
  destruct (_ || _); [apply worst_case_load; [set_solver|lia]|].
  destruct (grow_set (dead ∩ occupied_by shards) (occupied_by shards) (Z.to_nat losses)) as (D & HD & HDs & HDz); [set_solver|lia|].
  destruct (enumerated_exact shards (Z.to_nat losses)) as [H' _]; [lia|]. rewrite size_numbering in H'. specialize (H' D HDs HDz).
  pose proof (subseteq_size _ _ (alive_mono shards _ _ HD)). lia.
Qed.
Lemma alive_none (shards : list Shard) : alive_without shards (occupied_by shards) = ∅.
Proof. apply set_eq. intros i. rewrite elem_of_alive. setoid_rewrite elem_of_occupied_by. split; [|set_solver]. intros (sh & h & H1 & _ & H2 & H3). exfalso. eauto. Qed.

(** Few enough sets of holders to look at all of them. *)
Definition enumerable (shards : list Shard) (losses : Z) : Prop :=
  Z.of_nat (size (occupied_by shards)) <= maxEnumeratedHolders /\ choose (Z.of_nat (size (occupied_by shards))) losses <= maxEnumeratedSubsets.
Lemma SurvivingIndexes_attained (shards : list Shard) (losses : Z) :
  0 <= losses -> enumerable shards losses ->
  exists dead : gset string, Z.of_nat (size dead) <= losses /\ SurvivingIndexes shards losses = Z.of_nat (size (alive_without shards dead)).
Proof.
  intros HL [HE1 HE2]. unfold SurvivingIndexes. destruct (Z.leb_spec losses 0); cbn [orb].
  { exists ∅. rewrite size_empty. split; [lia|apply RemoteIndexCount_alive]. }
  destruct (Z.eqb_spec (RemoteIndexCount shards) 0) as [E|].
  { exists ∅. rewrite size_empty. split; [lia|apply RemoteIndexCount_alive]. }
  rewrite size_numbering. destruct (Z.leb_spec (Z.of_nat (size (occupied_by shards))) losses).
  { exists (occupied_by shards). split; [done|]. rewrite alive_none, size_empty. done. }
  destruct (Z.ltb_spec maxEnumeratedHolders (Z.of_nat (size (occupied_by shards)))); [lia|].
  destruct (Z.ltb_spec maxEnumeratedSubsets (choose (Z.of_nat (size (occupied_by shards))) losses)); [lia|]. cbn [orb].
  destruct (enumerated_exact shards (Z.to_nat losses)) as [_ (dead & Hs & Hz & Hr)]; [lia|]. rewrite size_numbering in Hr.
  exists dead. split; [lia|exact Hr].
Qed.

(** ** One index to a holder *)

Definition one_each (shards : list Shard) : Prop := forall holder, holder_load shards holder <= 1.
Lemma loads_at_most (shards : list Shard) (holders : list string) : one_each shards -> zsum (map (holder_load shards) holders) <= Z.of_nat (length holders).
Proof. intros H. induction holders as [|h hs IH]; [reflexivity|]. pose proof (H h). change (zsum (map (holder_load shards) (h :: hs))) with (holder_load shards h + zsum (map (holder_load shards) hs)). cbn [length]. lia. Qed.

Lemma take_sum (n : nat) (l : list Z) : Forall (fun x => x <= 1) l -> zsum (take n l) <= Z.of_nat n.
Proof.
  revert l. induction n as [|n IH]; intros l HF; [reflexivity|]. destruct l as [|x l]; [change (zsum (take (S n) [])) with 0; lia|]. apply Forall_cons in HF as [Hx HF].
  specialize (IH l HF). unfold zsum in *. cbn [take foldr]. lia.
Qed.

Lemma spread_survives (shards : list Shard) (losses : Z) :
  one_each shards -> 0 <= losses -> RemoteIndexCount shards - losses <= SurvivingIndexes shards losses.
Proof.
  intros HO HL. unfold SurvivingIndexes. destruct (Z.leb_spec losses 0); cbn [orb]; [lia|].
  destruct (Z.eqb_spec (RemoteIndexCount shards) 0) as [E|]; [lia|]. rewrite size_numbering.
  assert (forall dead : gset string, RemoteIndexCount shards - Z.of_nat (size dead) <= Z.of_nat (size (alive_without shards dead))) as HA.
  { intros dead. pose proof (lost_indexes shards (elements dead)) as HI. rewrite list_to_set_elements_L in HI.
    pose proof (loads_at_most shards (elements dead) HO) as HS. change (length (elements dead)) with (size dead) in HS. rewrite RemoteIndexCount_alive. lia. }
  destruct (Z.leb_spec (Z.of_nat (size (occupied_by shards))) losses).
  { pose proof (HA (occupied_by shards)) as HB. rewrite alive_none, size_empty in HB. lia. }
  destruct (_ || _).
  - unfold worstCaseHolderLoad. pose proof (take_sum (Z.to_nat losses) (merge_sort Z.ge (map (holder_load shards) (elements (occupied_by shards))))) as HT.
    rewrite merge_sort_Permutation in HT at 1. specialize (HT ltac:(apply Forall_fmap, Forall_forall; intros h _; apply HO)).
    destruct (_ <? _) eqn:EB; [apply Z.ltb_lt in EB|]; lia.
  - destruct (enumerated_exact shards (Z.to_nat losses)) as [_ (dead & Hs & Hz & Hr)]; [lia|]. rewrite size_numbering in Hr.
    cbn zeta in Hr. rewrite Hr. specialize (HA dead). lia.
Qed.

(** ** Properties *)

(** C17. The gate holds for both planners: every assignment goes to a named candidate with room for
    the shard as far as it says, no two go to one peer or to peers that share a failure domain, and
    none to a peer that already holds a shard of the chunk. When the candidate ids are distinct,
    none goes either to a peer that shares a domain with a holder listed among the candidates; a
    holder that is not listed contributes no domains, as the comment at plan.go:139-146 says. *)
Theorem plan_spreads_shards (shards : list Shard) (candidates : list Candidate) (wantHolders : Z) (score : option (string -> HostScore)) :
  (exists chosen, placed_apart shards candidates (Plan shards candidates wantHolders) chosen) /\
  (exists chosen, placed_apart shards candidates (PlanWithReputation shards candidates wantHolders score) chosen).
Proof. split; apply planOrdered_apart; [apply merge_sort_Permutation|apply RankByReputation_perm]. Qed.

(** A shard is left short only when nobody could take it: each candidate holds or was given a shard of the chunk, has less free space than
    the shard, or shares a domain with such a peer. *)
Theorem plan_places_what_it_can (shards : list Shard) (candidates : list Candidate) (wantHolders : Z) (sh : Shard) :
  Forall (fun c => cd_PeerID c <> ""%string) candidates -> sh ∈ shards ->
  (want_holders wantHolders <= length (sh_Holders sh) + length (placements_of sh (Plan shards candidates wantHolders)))%nat \/
  Forall (useless shards candidates (Plan shards candidates wantHolders) sh) candidates.
Proof.
  intros HN Hsh. unfold Plan. pose proof (merge_sort_Permutation (fun a b => Is_true (negb (emptier b a))) candidates) as HP.
  destruct (planOrdered_complete shards (merge_sort (fun a b => Is_true (negb (emptier b a))) candidates) wantHolders sh) as [H|H];
    [by rewrite HP|done|by left|right].
  apply Forall_forall. intros c Hc. rewrite <- HP in Hc. rewrite Forall_forall in H. eapply useless_perm; [exact HP|auto].
Qed.

(** [RankIsPermutation] decides that two rankings name the same peers, as often, and the ranking by reputation passes it whatever the
    scores: reputation changes the order in which the gate sees the peers and nothing else. *)
Theorem reputation_only_reorders (original ranked : list Candidate) (score : option (string -> HostScore)) :
  (RankIsPermutation original ranked = true <-> map cd_PeerID original ≡ₚ map cd_PeerID ranked) /\
  RankByReputation original score ≡ₚ original /\ RankIsPermutation original (RankByReputation original score) = true.
Proof.
  split; [apply RankIsPermutation_perm|]. split; [apply RankByReputation_perm|]. apply RankIsPermutation_perm. by rewrite (RankByReputation_perm original score).
Qed.

(** The view that undoes crowding: a shard that keeps its holders has one that answers for it and for no other id; a shard shown as
    unplaced has holders that each answer for another id. *)
Theorem crowding_undone (shards : list Shard) :
  exists answers : gmap string string,
    Forall2 (fun sh shown => (shown = sh /\ (sh_Holders sh = [] \/ exists h, h ∈ sh_Holders sh /\ answers !! h = Some (sh_ID sh))) \/
                             (shown = (sh) <| sh_Holders := [] |> /\ sh_Holders sh <> [] /\
                              Forall (fun h => exists x, answers !! h = Some x /\ x <> sh_ID sh) (sh_Holders sh)))
            shards (WithoutCrowdedHolders shards).
Proof. destruct (uncrowd_spec ∅ shards) as (answers & _ & H). by exists answers. Qed.

(** C14. [SurvivingIndexes] never overstates: whichever [losses] holders vanish, at least that many shard indexes are still held.  Up to the caps
    of the search it is exact: some such loss leaves no more. *)
Theorem survivability_exact (shards : list Shard) (losses : Z) :
  0 <= losses ->
  (forall dead : gset string, Z.of_nat (size dead) <= losses -> SurvivingIndexes shards losses <= Z.of_nat (size (alive_without shards dead))) /\
  (enumerable shards losses -> exists dead : gset string,
     Z.of_nat (size dead) <= losses /\ SurvivingIndexes shards losses = Z.of_nat (size (alive_without shards dead))).
Proof. intros HL. split; [intros dead; apply SurvivingIndexes_sound|by apply SurvivingIndexes_attained]. Qed.

(** ** Witnesses *)

Definition toy_shards : list Shard :=
  [mkShard "s0" 0 100 ["A"]; mkShard "s1" 1 100 ["A"; "B"]; mkShard "s2" 2 100 []; mkShard "s3" 3 100 []]%string.
Definition toy_candidates : list Candidate :=
  [mkCandidate "A" 500 900 ["n:1"]; mkCandidate "C" 50 900 ["n:3"]; mkCandidate "D" 700 900 ["n:4"]; mkCandidate "E" 600 900 ["n:4"]]%string.

Lemma plan_places_what_it_can_witness :
  Plan toy_shards toy_candidates 1 = [mkAssignment "s2" 2 "D"]%string /\
  Forall (useless toy_shards toy_candidates (Plan toy_shards toy_candidates 1) (mkShard "s3" 3 100 [])) toy_candidates.
Proof.
  split; [vm_compute; reflexivity|]. destruct (plan_places_what_it_can toy_shards toy_candidates 1 (mkShard "s3" 3 100 [])) as [H|H].
  - repeat constructor; discriminate.
  - unfold toy_shards. set_solver.
  - vm_compute in H. lia.
  - exact H.
Defined.

Lemma survivability_exact_witness :
  SurvivingIndexes toy_shards 1 = 1 /\ enumerable toy_shards 1 /\
  (forall dead : gset string, Z.of_nat (size dead) <= 1 -> SurvivingIndexes toy_shards 1 <= Z.of_nat (size (alive_without toy_shards dead))).
Proof.
  split; [vm_compute; reflexivity|]. split; [split; vm_compute; discriminate|]. apply (survivability_exact toy_shards 1). lia.
Defined.
