(* ===== verification/PlacementLevel.v ===== *)
(** * Levelling the pools ([internal/placement/level.go])

    The byte count every node should converge on, and the role of each node
    around it.  A round of the target's loop either returns or pins a pool, so
    the number of pools is fuel enough ([level_target_fair] has no case without
    a target).  The deadband is computed in binary64. *)
From S2P Require Import Prelude.
From S2P Require Import GoBytes.
From S2P Require Import GoFloat.
From Stdlib Require String.
Import String.StringSyntax.

Definition LevelDeadband : float64 := f64_div (f64_of_int 1) (f64_of_int 10).
Definition MinLevelMove : Z := Z.shiftl 64 20.

Record Pool : Type := mkPool { po_PeerID : string; po_Used : Z; po_Capacity : Z }.
Definition Headroom (p : Pool) : Z :=
  let free := wrap_s 64 (po_Capacity p - po_Used p) in if free <? 0 then 0 else free.

Inductive Role : Type := RoleBalanced | RoleSource | RoleSink.
#[export] Instance Role_eq_dec : EqDecision Role.
Proof. solve_decision. Defined.
Record PoolStatus : Type := mkPoolStatus { st_Pool : Pool; st_Target : Z; st_Delta : Z; st_Band : Z; st_Role : Role }.
Record Levelling : Type := mkLevelling { lv_Target : Z; lv_Nodes : list PoolStatus }.

(** ** The target *)

Definition add_wrapped (a b : Z) : Z := wrap_s 64 (a + b).
Definition capped_at (share : Z) (p : Pool) : bool := po_Capacity p <? share.
(** The loop over [open]; [None] is out of fuel. *)
Fixpoint level_loop (fuel : nat) (remaining pinned : Z) (open : list Pool) : option Z :=
  match open with
  | [] => Some 0
  | _ :: _ =>
      match fuel with
      | O => None
      | S fuel =>
          let share := go_quot (wrap_s 64 (remaining - pinned)) (Z.of_nat (length open)) in
          if existsb (capped_at share) open then
            level_loop fuel remaining (foldl add_wrapped pinned (map po_Capacity (List.filter (capped_at share) open)))
              (List.filter (fun p => negb (capped_at share p)) open)
          else Some share
      end
  end.
Definition level_share (pools : list Pool) : option Z := level_loop (length pools) (foldl add_wrapped 0 (map po_Used pools)) 0 pools.
Definition LevelTarget (pools : list Pool) : Z := default 0 (level_share pools).

(** ** Roles *)

Definition usable (pools : list Pool) : list Pool :=
  map (fun p => if po_Used p <? 0 then mkPool (po_PeerID p) 0 (po_Capacity p) else p)
    (List.filter (fun p => negb (String.eqb (po_PeerID p) "" || (po_Capacity p <=? 0))) pools).

Definition band (target : Z) : Z :=
  let b := f64_to_int (f64_mul (f64_of_int target) LevelDeadband) in if b <? MinLevelMove then MinLevelMove else b.
Definition pool_status (fleet : Z) (p : Pool) : PoolStatus :=
  let target := if po_Capacity p <? fleet then po_Capacity p else fleet in
  let delta := wrap_s 64 (po_Used p - target) in
  mkPoolStatus p target delta (band target)
    (if band target <? delta then RoleSource else if band target <? wrap_s 64 (- delta) then RoleSink else RoleBalanced).
Definition fatter (a b : PoolStatus) : bool :=
  if negb (st_Delta a =? st_Delta b) then st_Delta b <? st_Delta a else String.ltb (po_PeerID (st_Pool a)) (po_PeerID (st_Pool b)).
Definition LevelPools (pools : list Pool) : Levelling :=
  let fleet := LevelTarget (usable pools) in
  mkLevelling fleet (merge_sort (fun a b => Is_true (negb (fatter b a))) (map (pool_status fleet) (usable pools))).

Definition withRole (l : Levelling) (role : Role) : list PoolStatus := filter (fun s => st_Role s = role) (lv_Nodes l).
Definition Sources (l : Levelling) : list PoolStatus := withRole l RoleSource.
Definition thinner (a b : PoolStatus) : Prop := st_Delta a <= st_Delta b.
#[export] Instance thinner_dec (a b : PoolStatus) : Decision (thinner a b).
Proof. unfold thinner. apply _. Defined.
Definition Sinks (l : Levelling) : list PoolStatus := merge_sort thinner (withRole l RoleSink).

(** ** The target is fair *)

Definition total_used (pools : list Pool) : Z := zsum (map po_Used pools).
Definition total_capacity (pools : list Pool) : Z := zsum (map po_Capacity pools).
(** Usable pools, with sums that fit an [int64]. *)
Record fleet_ok (pools : list Pool) : Prop := {
  fk_pools : Forall (fun p => 0 <= po_Used p /\ 0 < po_Capacity p) pools;
  fk_used : total_used pools < 2 ^ 63;
  fk_capacity : total_capacity pools < 2 ^ 63
}.
(** What the pools hold when each is filled to [t], as far as it can be. *)
Definition filled (t : Z) (pools : list Pool) : Z := zsum (map (fun p => Z.min (po_Capacity p) t) pools).

Lemma add_wrapped_sum (l : list Z) (a : Z) :
  0 <= a -> Forall (fun x => 0 <= x) l -> a + zsum l < 2 ^ 63 -> foldl add_wrapped a l = a + zsum l.
Proof.
  revert a. induction l as [|x l IH]; intros a Ha HF HS; [cbn; unfold zsum; cbn; lia|]. apply Forall_cons in HF as [Hx HF].
  rewrite zsum_cons in *. pose proof (zsum_nonneg l HF). cbn [foldl]. assert (add_wrapped a x = a + x) as -> by (apply wrap_s_small; unfold s_range; lia).
  rewrite IH; lia || done.
Qed.

Lemma split_sum (f : Pool -> Z) (b : Pool -> bool) (l : list Pool) :
  zsum (map f l) = zsum (map f (List.filter b l)) + zsum (map f (List.filter (fun p => negb (b p)) l)).
Proof. induction l as [|p l IH]; [done|]. cbn [List.filter map]. destruct (b p); cbn [negb map]; rewrite !zsum_cons; lia. Qed.
Lemma below_share (share : Z) (l : list Pool) :
  zsum (map po_Capacity (List.filter (capped_at share) l)) <= Z.of_nat (length (List.filter (capped_at share) l)) * (share - 1).
Proof.
  induction l as [|p l IH]; [done|]. cbn [List.filter]. destruct (capped_at share p) eqn:E; [|done]. cbn [map length]. rewrite zsum_cons.
  unfold capped_at in E. apply Z.ltb_lt in E. nia.
Qed.
Lemma length_split (b : Pool -> bool) (l : list Pool) :
  (length (List.filter b l) + length (List.filter (fun p => negb (b p)) l) = length l)%nat.
Proof. induction l as [|p l IH]; [done|]. cbn [List.filter]. destruct (b p); cbn [negb length]; lia. Qed.
Lemma Forall_list_filter {A : Type} (P : A -> Prop) (b : A -> bool) (l : list A) : Forall P l -> Forall P (List.filter b l).
Proof. induction 1 as [|x l Hx HF IH]; cbn [List.filter]; [constructor|]. destruct (b x); auto. Qed.
Lemma existsb_filter_pos (b : Pool -> bool) (l : list Pool) : existsb b l = true -> (0 < length (List.filter b l))%nat.
Proof. induction l as [|p l IH]; cbn [existsb List.filter]; [done|]. destruct (b p); cbn; [lia|auto]. Qed.

(** One round: the pools still open, how many bytes they are to share, and the share of the round before. *)
Record round (used : Z) (pinned : Z) (open : list Pool) (floor : Z) : Prop := {
  rd_open : Forall (fun p => 0 < po_Capacity p /\ floor <= po_Capacity p) open;
  rd_pinned : 0 <= pinned;
  rd_left : Z.of_nat (length open) * floor <= used - pinned;
  rd_floor : 0 <= floor
}.

Lemma share_ok (used pinned floor : Z) (p : Pool) (open : list Pool) :
  0 <= used < 2 ^ 63 -> round used pinned (p :: open) floor ->
  let n := Z.of_nat (length (p :: open)) in
  let share := go_quot (wrap_s 64 (used - pinned)) n in
  floor <= share /\ n * share <= used - pinned < n * (share + 1).
Proof.
  intros HU [HO HP HL HF]. cbn zeta. set (n := Z.of_nat (length (p :: open))) in *. assert (0 < n) as Hn by (unfold n; cbn [length]; lia).
  rewrite wrap_s_small by (unfold s_range; nia). unfold go_quot. rewrite Z.quot_div_nonneg by nia.
  pose proof (Z.div_mod (used - pinned) n ltac:(lia)) as HD. pose proof (Z.mod_pos_bound (used - pinned) n Hn). split; [|nia].
  apply Z.div_le_lower_bound; lia.
Qed.

Definition open_at (t : Z) (pools : list Pool) : Z := Z.of_nat (length (List.filter (fun p => t <=? po_Capacity p) pools)).

Lemma filled_open (t : Z) (l : list Pool) : existsb (capped_at t) l = false -> filled t l = Z.of_nat (length l) * t /\ open_at t l = Z.of_nat (length l).
Proof.
  unfold filled, open_at. induction l as [|p l IH]; [done|]. cbn [existsb map List.filter length]. intros [Hp Hl]%orb_false_iff. destruct (IH Hl) as [I1 I2].
  unfold capped_at in Hp. apply Z.ltb_ge in Hp. rewrite zsum_cons, (proj2 (Z.leb_le _ _) Hp). cbn [length]. lia.
Qed.
Lemma filled_split (share t : Z) (l : list Pool) :
  share <= t ->
  filled t l = zsum (map po_Capacity (List.filter (capped_at share) l)) + filled t (List.filter (fun p => negb (capped_at share p)) l) /\
  open_at t l = open_at t (List.filter (fun p => negb (capped_at share p)) l).
Proof.
  intros Ht. unfold filled, open_at. induction l as [|p l [I1 I2]]; [done|]. cbn [map List.filter].
  destruct (capped_at share p) eqn:E; cbn [negb map List.filter]; rewrite !zsum_cons.
  - unfold capped_at in E. apply Z.ltb_lt in E. destruct (Z.leb_spec t (po_Capacity p)); lia.
  - destruct (t <=? po_Capacity p); cbn [length]; lia.
Qed.

Lemma level_loop_spec (fuel : nat) (used pinned floor : Z) (open : list Pool) :
  0 <= used < 2 ^ 63 -> round used pinned open floor -> pinned + total_capacity open < 2 ^ 63 -> (length open <= fuel)%nat ->
  exists t, level_loop fuel used pinned open = Some t /\
    ((t = 0 /\ (open = [] \/ pinned + total_capacity open < used)) \/
     (open <> [] /\ floor <= t /\ pinned + filled t open <= used < pinned + filled t open + open_at t open)).
Proof.
  intros HU. revert pinned floor open. induction fuel as [|fuel IH]; intros pinned floor open HR HC HF.
  { destruct open; [|cbn in HF; lia]. exists 0. split; [done|]. left. auto. }
  destruct open as [|p open']; [exists 0; split; [done|]; left; auto|].
  destruct (share_ok used pinned floor p open' HU HR) as [HS1 HS2]. destruct HR as [HO HP HL HF0].
  remember (p :: open') as open eqn:EO. assert (level_loop (S fuel) used pinned open =
    (let share := go_quot (wrap_s 64 (used - pinned)) (Z.of_nat (length open)) in
     if existsb (capped_at share) open then
       level_loop fuel used (foldl add_wrapped pinned (map po_Capacity (List.filter (capped_at share) open))) (List.filter (fun p => negb (capped_at share p)) open)
     else Some share)) as -> by (by rewrite EO).
  cbv zeta. set (share := go_quot _ _) in *. clearbody share.
  destruct (existsb (capped_at share) open) eqn:EX.
  - pose proof (split_sum po_Capacity (capped_at share) open) as HSp. pose proof (length_split (capped_at share) open) as HLs.
    pose proof (below_share share open) as HB. pose proof (existsb_filter_pos _ _ EX) as HPos.
    assert (Forall (fun x => 0 <= x) (map po_Capacity (List.filter (capped_at share) open))) as HNn.
    { apply Forall_fmap, Forall_list_filter. eapply Forall_impl; [exact HO|]. cbn. intros q [Hq _]. lia. }
    assert (0 <= total_capacity (List.filter (fun p => negb (capped_at share p)) open)) as HTn.
    { unfold total_capacity. apply zsum_nonneg, Forall_fmap, Forall_list_filter. eapply Forall_impl; [exact HO|]. cbn. intros q [Hq _]. lia. }
    unfold total_capacity in *. rewrite add_wrapped_sum by (lia || done).
    set (cut := zsum (map po_Capacity (List.filter (capped_at share) open))) in *.
    set (rest := List.filter (fun p => negb (capped_at share p)) open) in *.
    pose proof (zsum_nonneg _ HNn) as Hcut. fold cut in Hcut.
    destruct (IH (pinned + cut) share rest) as (t & Et & Ht).
    + split; [|lia|nia|lia]. apply Forall_forall. intros q Hq. apply list_elem_of_In in Hq. unfold rest in Hq. apply filter_In in Hq as [Hq1 Hq2].
      rewrite Forall_forall in HO. apply list_elem_of_In, HO in Hq1 as [Hq1 _]. split; [done|]. unfold capped_at in Hq2. by apply negb_true_iff, Z.ltb_ge in Hq2.
    + lia.
    + lia.
    + exists t. split; [done|]. destruct Ht as [[-> Ht]|(Hn & Ht1 & Ht2)].
      * left. split; [done|]. right. destruct Ht as [Hr|Ht]; [|lia]. rewrite Hr in HSp, HLs. change (zsum (map po_Capacity [])) with 0 in HSp.
        cbn [length] in HLs. nia.
      * right. destruct (filled_split share t open Ht1) as [F1 F2]. fold cut rest in F1, F2.
        split; [by subst open|]. split; [lia|]. rewrite F1, F2. lia.
  - exists share. split; [done|]. right. destruct (filled_open share open EX) as [F1 F2]. split; [by subst open|]. split; [done|]. rewrite F1, F2. nia.
Qed.

Lemma filled_capacity (t : Z) (pools : list Pool) : filled t pools <= total_capacity pools.
Proof. unfold filled, total_capacity. induction pools as [|p l IH]; [done|]. cbn [map]. rewrite !zsum_cons. lia. Qed.
Lemma open_at_length (t : Z) (pools : list Pool) : open_at t pools <= Z.of_nat (length pools).
Proof. unfold open_at. pose proof (filter_length_le (fun p => t <=? po_Capacity p) pools). lia. Qed.


Lemma used_nonneg (pools : list Pool) : fleet_ok pools -> Forall (fun x => 0 <= x) (map po_Used pools).
Proof. intros [HP _ _]. apply Forall_fmap. eapply Forall_impl; [exact HP|]. cbn. lia. Qed.
Lemma level_share_spec (pools : list Pool) :
  fleet_ok pools ->
  exists t, level_share pools = Some t /\
    ((t = 0 /\ (pools = [] \/ total_capacity pools < total_used pools)) \/
     (pools <> [] /\ 0 <= t /\ filled t pools <= total_used pools < filled t pools + open_at t pools)).
Proof.
  intros HK. pose proof (used_nonneg pools HK) as HF. destruct HK as [HP HU HC]. unfold level_share.
  rewrite add_wrapped_sum by (done || unfold total_used in HU; lia). rewrite Z.add_0_l. fold (total_used pools).
  destruct (level_loop_spec (length pools) (total_used pools) 0 0 pools) as (t & Et & Ht); [|split| |done|].
  - split; [by apply zsum_nonneg|done].
  - eapply Forall_impl; [exact HP|]. cbn. lia.
  - done.
  - pose proof (zsum_nonneg _ HF) as H0. unfold total_used. lia.
  - done.
  - done.
  - exists t. split; [done|]. rewrite !Z.add_0_l in Ht. exact Ht.
Qed.
Lemma LevelTarget_nonneg (pools : list Pool) : fleet_ok pools -> 0 <= LevelTarget pools.
Proof. intros HK. unfold LevelTarget. destruct (level_share_spec pools HK) as (t & -> & [[-> _]|(_ & H & _)]); cbn; lia. Qed.

Lemma zsum_elem (l : list Z) (x : Z) : Forall (fun y => 0 <= y) l -> x ∈ l -> x <= zsum l.
Proof.
  intros HF Hx. apply elem_of_Permutation in Hx as [k HP]. rewrite (zsum_perm _ _ HP), zsum_cons. rewrite HP in HF. apply Forall_cons in HF as [_ HF].
  pose proof (zsum_nonneg _ HF). lia.
Qed.
Lemma fleet_pool (pools : list Pool) (p : Pool) : fleet_ok pools -> p ∈ pools -> 0 <= po_Used p < 2 ^ 63 /\ 0 < po_Capacity p < 2 ^ 63.
Proof.
  intros HK Hp. pose proof (used_nonneg pools HK) as HF. destruct HK as [HP HU HC]. pose proof (proj1 (Forall_forall _ _) HP p Hp) as [H1 H2].
  pose proof (zsum_elem _ _ HF (list_elem_of_fmap_2 po_Used _ _ Hp)) as H3.
  assert (Forall (fun x => 0 <= x) (map po_Capacity pools)) as HF' by (apply Forall_fmap; eapply Forall_impl; [exact HP|]; cbn; lia).
  pose proof (zsum_elem _ _ HF' (list_elem_of_fmap_2 po_Capacity _ _ Hp)) as H4. unfold total_used, total_capacity in *. lia.
Qed.
Lemma band_least (target : Z) : MinLevelMove <= band target.
Proof. unfold band. destruct (Z.ltb_spec (f64_to_int (f64_mul (f64_of_int target) LevelDeadband)) MinLevelMove); lia. Qed.

Lemma pool_status_ok (fleet : Z) (p : Pool) :
  0 <= po_Used p < 2 ^ 63 -> 0 < po_Capacity p < 2 ^ 63 -> 0 <= fleet ->
  let s := pool_status fleet p in
  st_Pool s = p /\ st_Target s = Z.min (po_Capacity p) fleet /\ st_Delta s = po_Used p - st_Target s /\
  (st_Role s = RoleSource <-> st_Band s < st_Delta s) /\ (st_Role s = RoleSink <-> st_Band s < - st_Delta s) /\
  MinLevelMove <= st_Band s /\ (st_Role s = RoleSink -> - st_Delta s <= Headroom p).
Proof.
  intros HU HC HF. cbn zeta. unfold pool_status. set (target := if po_Capacity p <? fleet then po_Capacity p else fleet).
  assert (target = Z.min (po_Capacity p) fleet) as Et by (unfold target; destruct (Z.ltb_spec (po_Capacity p) fleet); lia). clearbody target.
  assert (wrap_s 64 (po_Used p - target) = po_Used p - target) as Ed by (apply wrap_s_small; unfold s_range; lia).
  assert (wrap_s 64 (- (po_Used p - target)) = - (po_Used p - target)) as Ed' by (apply wrap_s_small; unfold s_range; lia).
  pose proof (band_least target) as HB. change MinLevelMove with 67108864 in *. cbn [st_Pool st_Target st_Delta st_Band st_Role]. rewrite Ed, Ed'.
  repeat (split; [done|]). destruct (Z.ltb_spec (band target) (po_Used p - target)).
  - split; [done|]. split; [split; [done|lia]|]. split; [lia|done].
  - destruct (Z.ltb_spec (band target) (- (po_Used p - target))).
    + split; [split; [done|lia]|]. split; [done|]. split; [lia|]. intros _. unfold Headroom.
      rewrite wrap_s_small by (unfold s_range; lia). destruct (Z.ltb_spec (po_Capacity p - po_Used p) 0); lia.
    + split; [split; [done|lia]|]. split; [split; [done|lia]|]. split; [lia|done].
Qed.

Lemma elem_of_nodes (pools : list Pool) (s : PoolStatus) :
  s ∈ lv_Nodes (LevelPools pools) <-> exists p, p ∈ usable pools /\ s = pool_status (LevelTarget (usable pools)) p.
Proof. unfold LevelPools. cbn [lv_Nodes]. rewrite merge_sort_Permutation, list_elem_of_fmap. naive_solver. Qed.

Lemma usable_all (pools : list Pool) : fleet_ok pools -> Forall (fun p => po_PeerID p <> ""%string) pools -> usable pools = pools.
Proof.
  intros [HP _ _] HN. unfold usable. clear -HP HN. induction HP as [|p l [H1 H2] _ IH]; [done|]. apply Forall_cons in HN as [Hn HN].
  cbn [List.filter]. destruct (String.eqb_spec (po_PeerID p) ""%string); [done|]. destruct (Z.leb_spec (po_Capacity p) 0); [lia|]. cbn [orb negb map].
  destruct (Z.ltb_spec (po_Used p) 0); [lia|]. f_equal. auto.
Qed.

(** ** Properties *)

(** C32. The target of a fleet with room for what it holds, with usable pools (nothing negative,
    some capacity) and sums of what is held and of the capacities that fit an [int64]: with each
    node filled to the target, or to its capacity when that is less, the fleet holds what it held,
    short of less than a byte for each node that is not capped. *)
Theorem level_target_fair (pools : list Pool) :
  fleet_ok pools -> pools <> [] -> total_used pools <= total_capacity pools ->
  level_share pools = Some (LevelTarget pools) /\ 0 <= LevelTarget pools /\
  filled (LevelTarget pools) pools <= total_used pools < filled (LevelTarget pools) pools + open_at (LevelTarget pools) pools.
Proof.
  intros HK HN HR. unfold LevelTarget. destruct (level_share_spec pools HK) as (t & -> & Ht). split; [done|]. cbn.
  destruct Ht as [[-> [|]]|(_ & H1 & H2)]; [done|lia|done].
Qed.

(** The roles around the target: every node is measured against its own target, a node is a source or a sink only when it is further
    from it than the least move, never both, and a sink has room for its whole deficit. *)
Theorem levelling_roles (pools : list Pool) (s : PoolStatus) :
  fleet_ok (usable pools) -> s ∈ lv_Nodes (LevelPools pools) ->
  st_Pool s ∈ usable pools /\ st_Target s = Z.min (po_Capacity (st_Pool s)) (lv_Target (LevelPools pools)) /\
  st_Delta s = po_Used (st_Pool s) - st_Target s /\
  (st_Role s = RoleSource -> MinLevelMove < st_Delta s) /\
  (st_Role s = RoleSink -> MinLevelMove < - st_Delta s <= Headroom (st_Pool s)).
Proof.
  intros HK (p & Hp & ->)%elem_of_nodes. destruct (fleet_pool _ _ HK Hp) as [HU HC].
  destruct (pool_status_ok (LevelTarget (usable pools)) p HU HC (LevelTarget_nonneg _ HK)) as (H1 & H2 & H3 & H4 & H5 & H6 & H7).
  change (lv_Target (LevelPools pools)) with (LevelTarget (usable pools)). rewrite H1, H2. rewrite H2 in H3.
  split; [done|]. split; [done|]. split; [done|]. split; [intros H%H4; lia|]. intros H. split; [apply H5 in H; lia|auto].
Qed.

(** A fleet that holds more than its capacity by a byte a node has no target, and then every node that holds more than the least move is
    told to shed all it holds, with no node to take it. *)
Theorem overfull_fleet_sheds (pools : list Pool) :
  fleet_ok pools -> Forall (fun p => po_PeerID p <> ""%string) pools -> total_capacity pools + Z.of_nat (length pools) <= total_used pools ->
  lv_Target (LevelPools pools) = 0 /\ Sinks (LevelPools pools) = [] /\
  (forall p, p ∈ pools -> MinLevelMove < po_Used p -> exists s, s ∈ Sources (LevelPools pools) /\ st_Pool s = p /\ st_Delta s = po_Used p).
Proof.
  intros HK HN HO. assert (LevelTarget pools = 0) as ET.
  { unfold LevelTarget. destruct (level_share_spec pools HK) as (t & -> & [[-> _]|(_ & _ & H)]); [done|].
    pose proof (filled_capacity t pools). pose proof (open_at_length t pools). lia. }
  pose proof (usable_all pools HK HN) as EU. assert (lv_Target (LevelPools pools) = 0) as EL by (unfold LevelPools; cbn; by rewrite EU, ET).
  split; [done|]. split.
  - unfold Sinks, withRole. assert (filter (fun s => st_Role s = RoleSink) (lv_Nodes (LevelPools pools)) = []) as ->; [|done].
    destruct (filter _ _) as [|s l] eqn:EF; [done|]. exfalso. pose proof (list_elem_of_here s l) as Hs. rewrite <- EF in Hs.
    apply list_elem_of_filter in Hs as [Hs (p & Hp & ->)%elem_of_nodes]. revert Hs. clear EF. rewrite EU, ET in *. destruct (fleet_pool _ _ HK Hp) as [HU HC].
    destruct (pool_status_ok 0 p HU HC) as (_ & H2 & H3 & _ & H5 & H6 & _); [lia|]. rewrite H5, H3, H2. change MinLevelMove with 67108864 in *. lia.
  - intros p Hp Hm. destruct (fleet_pool _ _ HK Hp) as [HU HC]. exists (pool_status 0 p).
    destruct (pool_status_ok 0 p HU HC) as (H1 & H2 & H3 & H4 & _ & _ & _); [lia|]. split; [|split; [done|]]; [|rewrite H3, H2; lia].
    unfold Sources, withRole. apply list_elem_of_filter. split; [|apply elem_of_nodes; rewrite EU, ET; eauto].
    apply H4. rewrite H3, H2, Z.min_r, Z.sub_0_r by lia. unfold pool_status. cbn [st_Band]. rewrite (proj2 (Z.ltb_ge _ _)) by lia. exact Hm.
Qed.

(** ** Witnesses *)

Definition gib : Z := Z.shiftl 1 30.
Definition toy_pools : list Pool :=
  [mkPool "A" (9 * gib) (10 * gib); mkPool "B" (1 * gib) (2 * gib); mkPool "C" 0 (20 * gib); mkPool "D" (5 * gib) (8 * gib)]%string.
Lemma toy_pools_ok : fleet_ok toy_pools.
Proof. split; [repeat constructor; vm_compute; intuition discriminate|vm_compute; reflexivity..]. Qed.
Lemma level_target_fair_witness :
  LevelTarget toy_pools = 4652881237 /\ filled (LevelTarget toy_pools) toy_pools <= total_used toy_pools.
Proof. split; [vm_compute; reflexivity|]. apply (level_target_fair toy_pools toy_pools_ok); [discriminate|vm_compute; discriminate]. Defined.

Lemma toy_usable : fleet_ok (usable toy_pools).
Proof. assert (usable toy_pools = toy_pools) as -> by (vm_compute; reflexivity). apply toy_pools_ok. Qed.
Definition toy_source : PoolStatus := pool_status (LevelTarget (usable toy_pools)) (mkPool "A" (9 * gib) (10 * gib)).
Lemma levelling_roles_witness : st_Role toy_source = RoleSource /\ MinLevelMove < st_Delta toy_source.
Proof.
  split; [vm_compute; reflexivity|]. apply (levelling_roles toy_pools toy_source toy_usable); [|vm_compute; reflexivity].
  apply elem_of_nodes. exists (mkPool "A" (9 * gib) (10 * gib)). split; [|reflexivity]. vm_compute. apply list_elem_of_here.
Defined.

Definition toy_overfull : list Pool := [mkPool "A" (9 * gib) (2 * gib); mkPool "B" (3 * gib) (4 * gib)]%string.
Lemma toy_overfull_ok : fleet_ok toy_overfull.
Proof. split; [repeat constructor; vm_compute; intuition discriminate|vm_compute; reflexivity..]. Qed.
Lemma overfull_fleet_sheds_witness :
  map (fun s => (po_PeerID (st_Pool s), st_Role s)) (lv_Nodes (LevelPools toy_overfull)) = [("A", RoleSource); ("B", RoleSource)]%string /\
  Sinks (LevelPools toy_overfull) = [].
Proof.
  split; [vm_compute; reflexivity|]. apply (overfull_fleet_sheds toy_overfull toy_overfull_ok); [repeat constructor; discriminate|vm_compute; discriminate].
Defined.
