(* ===== verification/Ledger.v ===== *)
(** * The placement ledger ([internal/store/placement.go], [rebalance.go], [drain.go], [types.go])

    Where the shards of each object went: the rows and the index of shards in
    the database, the operations that change them, the durability the rows are
    judged by, and the queues of dispersal, repair, levelling and draining.
    A bucket is a map; a row whose bytes do not decode is [None].  A transaction
    commits: the database's own errors are not modelled, its refusal of an empty
    key among them, and neither is the order in which [sort.Slice] leaves two
    shards of one index.  Counters are unbounded. *)
From S2P Require Import Prelude.
From S2P Require Import GoBytes.
From S2P Require Import RecordUpdate.
From S2P Require Import Placement.
From Stdlib Require String.
Import String.StringSyntax.

(** ** Data *)

(** The zero [time.Time], in nanoseconds since 1970. *)
Definition zero_time : Z := - 62135596800 * 10 ^ 9.

Record ShardRef : Type := mkShardRef { sr_ID : string; sr_Index : Z; sr_Size : Z }.
Record ChunkManifest : Type := mkChunkManifest { cm_Index : Z; cm_CipherLength : Z; cm_ShardSize : Z; cm_Shards : list ShardRef }.
Record Manifest : Type := mkManifest {
  mf_Version : Z; mf_ObjectID : string; mf_Bucket : string; mf_Key : string; mf_ContentType : string; mf_PlainSize : Z; mf_PlainSHA256 : string;
  mf_DataShards : Z; mf_ParityShards : Z; mf_ChunkBytes : Z; mf_Chunks : list ChunkManifest; mf_CreatedAt : Z
}.

Record ShardPlacement : Type := mkShardPlacement {
  sp_ID : string; sp_Chunk : Z; sp_Index : Z; sp_Size : Z; sp_Holders : list string; sp_Silences : gmap string Z; sp_Local : bool
}.
#[export] Instance ShardPlacement_eta : Eta ShardPlacement := fun s =>
  mkShardPlacement (sp_ID s) (sp_Chunk s) (sp_Index s) (sp_Size s) (sp_Holders s) (sp_Silences s) (sp_Local s).
Record ObjectPlacement : Type := mkObjectPlacement {
  op_ObjectID : string; op_Bucket : string; op_Key : string; op_DataShards : Z; op_ParityShards : Z; op_Shards : list ShardPlacement;
  op_LastAttempt : Z; op_Attempts : Z; op_LastRebalance : Z; op_Rebalances : Z; op_LastDrain : Z; op_Drains : Z; op_UpdatedAt : Z
}.
#[export] Instance ObjectPlacement_eta : Eta ObjectPlacement := fun p =>
  mkObjectPlacement (op_ObjectID p) (op_Bucket p) (op_Key p) (op_DataShards p) (op_ParityShards p) (op_Shards p)
    (op_LastAttempt p) (op_Attempts p) (op_LastRebalance p) (op_Rebalances p) (op_LastDrain p) (op_Drains p) (op_UpdatedAt p).

#[export] Instance ShardPlacement_eq_dec : EqDecision ShardPlacement.
Proof. solve_decision. Defined.
#[export] Instance ObjectPlacement_eq_dec : EqDecision ObjectPlacement.
Proof. solve_decision. Defined.

(** The buckets [objects], [shard_placement], [shard_placement_index] and, of [denied], the moved-away records. *)
Record Ledger : Type := mkLedger {
  lg_objects : gmap string (option Manifest); lg_rows : gmap string (option ObjectPlacement); lg_index : gmap string string;
  lg_moved : gmap string Z
}.
#[export] Instance Ledger_eta : Eta Ledger := fun l => mkLedger (lg_objects l) (lg_rows l) (lg_index l) (lg_moved l).

(** [ForEach]: in the order of the keys. *)
Definition key_le (a b : string) : Prop := String.leb a b = true.
#[export] Instance key_le_dec (a b : string) : Decision (key_le a b).
Proof. unfold key_le. apply _. Defined.
Definition for_each {A : Type} (m : gmap string A) : list A := omap (fun k => m !! k) (merge_sort key_le (map fst (map_to_list m))).
Definition decoded_rows (l : Ledger) : list ObjectPlacement := omap id (for_each (lg_rows l)).

(** ** Durability *)

Definition DurableRemoteHolders (dataShards parityShards : Z) : Z :=
  let dataShards := if dataShards <? 1 then 1 else dataShards in
  if parityShards <? 1 then dataShards else dataShards + 1.

Definition lower_index (a b : Shard) : Prop := sh_Index a <= sh_Index b.
#[export] Instance lower_index_dec (a b : Shard) : Decision (lower_index a b).
Proof. unfold lower_index. apply _. Defined.
Definition snapshot_shard (s : ShardPlacement) : Shard := mkShard (sp_ID s) (sp_Index s) (sp_Size s) (sp_Holders s).
Definition PlacementSnapshot (p : ObjectPlacement) (chunkIndex : Z) : list Shard :=
  merge_sort lower_index (map snapshot_shard (filter (fun s => sp_Chunk s = chunkIndex) (op_Shards p))).
Definition ChunkIndexes (p : ObjectPlacement) : list Z :=
  merge_sort Z.le (remove_dups (map sp_Chunk (op_Shards p))).

Definition WeakestChunk (p : ObjectPlacement) : Z :=
  match ChunkIndexes p with
  | [] => 0
  | chunks => foldl (fun weakest chunk =>
                let count := DistinctHolders (PlacementSnapshot p chunk) in
                if (weakest <? 0) || (count <? weakest) then count else weakest) (-1) chunks
  end.
Definition ChunkIsDurable (p : ObjectPlacement) (chunkIndex : Z) : bool :=
  let shards := PlacementSnapshot p chunkIndex in
  if (length shards =? 0)%nat then false
  else if DistinctHolders shards <? DurableRemoteHolders (op_DataShards p) (op_ParityShards p) then false
  else SurvivesHolderLosses shards (op_DataShards p) 1.
Definition ChunkIsSpread (p : ObjectPlacement) (chunkIndex : Z) : bool :=
  let shards := PlacementSnapshot p chunkIndex in
  if (length shards =? 0)%nat then false
  else if existsb (fun sh => (length (sh_Holders sh) =? 0)%nat) shards then false
  else SurvivesHolderLosses shards (op_DataShards p) (op_ParityShards p).
Definition UnderReplicated (p : ObjectPlacement) : bool :=
  match ChunkIndexes p with [] => true | chunks => existsb (fun chunk => negb (ChunkIsDurable p chunk)) chunks end.
Definition FullyDispersed (p : ObjectPlacement) : bool :=
  match ChunkIndexes p with [] => false | chunks => forallb (ChunkIsSpread p) chunks end.

(** ** Writing rows *)

Definition fresh_shards (manifest : Manifest) : list ShardPlacement :=
  concat (map (fun chunk => map (fun ref => mkShardPlacement (sr_ID ref) (cm_Index chunk) (sr_Index ref) (sr_Size ref) [] ∅ true) (cm_Shards chunk))
    (mf_Chunks manifest)).
Definition fresh_row (manifest : Manifest) (now : Z) : ObjectPlacement :=
  mkObjectPlacement (mf_ObjectID manifest) (mf_Bucket manifest) (mf_Key manifest) (mf_DataShards manifest) (mf_ParityShards manifest)
    (fresh_shards manifest) zero_time 0 zero_time 0 zero_time 0 now.
Definition index_row (index : gmap string string) (row : ObjectPlacement) : gmap string string :=
  foldl (fun index s => <[sp_ID s := op_ObjectID row]> index) index (op_Shards row).
Definition put_row (l : Ledger) (row : ObjectPlacement) : Ledger :=
  (l) <| lg_rows := <[op_ObjectID row := Some row]> (lg_rows l) |> <| lg_index := index_row (lg_index l) row |>.

(** [known]: the last row of an id wins; an unknown id reads as the zero value. *)
Definition known_shards (previous : ObjectPlacement) : gmap string ShardPlacement :=
  foldl (fun known s => <[sp_ID s := s]> known) ∅ (op_Shards previous).
Definition carry_over (known : gmap string ShardPlacement) (s : ShardPlacement) : ShardPlacement :=
  let before := known !! sp_ID s in
  (s) <| sp_Holders := match before with Some b => sp_Holders b | None => [] end |>
      <| sp_Silences := match before with Some b => sp_Silences b | None => ∅ end |>.
Definition merge_previous (row previous : ObjectPlacement) : ObjectPlacement :=
  (row) <| op_Shards := map (carry_over (known_shards previous)) (op_Shards row) |>
        <| op_LastAttempt := op_LastAttempt previous |> <| op_Attempts := op_Attempts previous |>
        <| op_LastRebalance := op_LastRebalance previous |> <| op_Rebalances := op_Rebalances previous |>.
Definition RecordObjectPlacement (l : Ledger) (manifest : Manifest) (now : Z) : Ledger :=
  let row := fresh_row manifest now in
  put_row l (match lg_rows l !! op_ObjectID row with Some (Some previous) => merge_previous row previous | _ => row end).

(** One turn of the loop of [EnrolMissingPlacements]: the ledger, [enrolled] and [pending]. *)
Definition enrol (limit now : Z) (st : Ledger * Z * Z) (value : option Manifest) : Ledger * Z * Z :=
  let '(l, enrolled, pending) := st in
  match value with
  | None => st
  | Some manifest =>
      if String.eqb (mf_ObjectID manifest) "" || bool_decide (is_Some (lg_rows l !! mf_ObjectID manifest)) then st
      else if limit <=? enrolled then (l, enrolled, pending + 1)
      else (put_row l (fresh_row manifest now), enrolled + 1, pending)
  end.
Definition EnrolMissingPlacements (l : Ledger) (limit now : Z) : Ledger * Z * Z :=
  let limit := if limit <=? 0 then 1 else limit in foldl (enrol limit now) (l, 0, 0) (for_each (lg_objects l)).

Inductive ledger_err : Type := ErrNotExist | ErrDecode | ErrEmptyHolder.
Definition LoadObjectPlacement (l : Ledger) (objectID : string) : outcome ledger_err ObjectPlacement :=
  let? value := of_option ErrNotExist (lg_rows l !! objectID) in of_option ErrDecode value.

(** [mutate] never fails in the code. *)
Definition updatePlacement (l : Ledger) (objectID : string) (now : Z) (mutate : ObjectPlacement -> ObjectPlacement) : outcome ledger_err Ledger :=
  let? row := LoadObjectPlacement l objectID in
  Ok ((l) <| lg_rows := <[objectID := Some ((mutate row) <| op_UpdatedAt := now |>)]> (lg_rows l) |>).
(** The loops over the rows of one shard. *)
Definition at_shard (shardID : string) (f : ShardPlacement -> ShardPlacement) (row : ObjectPlacement) : ObjectPlacement :=
  (row) <| op_Shards := map (fun s => if String.eqb (sp_ID s) shardID then f s else s) (op_Shards row) |>.

Definition holds (peerID : string) (s : ShardPlacement) : bool := existsb (String.eqb peerID) (sp_Holders s).
(** [ConfirmShardHolder] returns from the whole loop at the first row that names the peer. *)
Fixpoint confirm_rows (shardID peerID : string) (rows : list ShardPlacement) : list ShardPlacement :=
  match rows with
  | [] => []
  | s :: rows =>
      if negb (String.eqb (sp_ID s) shardID) then s :: confirm_rows shardID peerID rows
      else if holds peerID s then s :: rows
      else (s) <| sp_Holders := sp_Holders s ++ [peerID] |> :: confirm_rows shardID peerID rows
  end.
Definition ConfirmShardHolder (l : Ledger) (objectID shardID peerID : string) (now : Z) : outcome ledger_err Ledger :=
  fail? String.eqb peerID "" with ErrEmptyHolder ;;
  updatePlacement l objectID now (fun row => (row) <| op_Shards := confirm_rows shardID peerID (op_Shards row) |>).

Definition drop_holder (peerID : string) (s : ShardPlacement) : ShardPlacement :=
  (s) <| sp_Holders := filter (fun h => h <> peerID) (sp_Holders s) |> <| sp_Silences := delete peerID (sp_Silences s) |>.
Definition DropShardHolder (l : Ledger) (objectID shardID peerID : string) (now : Z) : outcome ledger_err Ledger :=
  updatePlacement l objectID now (at_shard shardID (drop_holder peerID)).

Definition silence_of (peerID : string) (s : ShardPlacement) : Z := default 0 (sp_Silences s !! peerID).
Definition note_silence (peerID : string) (s : ShardPlacement) : ShardPlacement :=
  if holds peerID s then (s) <| sp_Silences := <[peerID := silence_of peerID s + 1]> (sp_Silences s) |> else s.
(** The largest count the loop wrote. *)
Definition most_silences (shardID peerID : string) (rows : list ShardPlacement) : Z :=
  foldl (fun silences s =>
    if String.eqb (sp_ID s) shardID && holds peerID s && (silences <? silence_of peerID s + 1) then silence_of peerID s + 1 else silences) 0 rows.
Definition NoteHolderSilence (l : Ledger) (objectID shardID peerID : string) (now : Z) : outcome ledger_err (Ledger * Z) :=
  let? row := LoadObjectPlacement l objectID in
  let? l := updatePlacement l objectID now (at_shard shardID (note_silence peerID)) in
  Ok (l, most_silences shardID peerID (op_Shards row)).
Definition note_answered (peerID : string) (s : ShardPlacement) : ShardPlacement := (s) <| sp_Silences := delete peerID (sp_Silences s) |>.
Definition NoteHolderAnswered (l : Ledger) (objectID shardID peerID : string) (now : Z) : outcome ledger_err Ledger :=
  updatePlacement l objectID now (at_shard shardID (note_answered peerID)).
Definition HolderSilences (p : ObjectPlacement) (shardID peerID : string) : Z :=
  match List.find (fun s => String.eqb (sp_ID s) shardID) (op_Shards p) with Some s => silence_of peerID s | None => 0 end.

Definition SetShardLocal (l : Ledger) (objectID shardID : string) (local : bool) (now : Z) : outcome ledger_err Ledger :=
  updatePlacement l objectID now (at_shard shardID (fun s => (s) <| sp_Local := local |>)).
Definition MarkPlacementAttempt (l : Ledger) (objectID : string) (now : Z) : outcome ledger_err Ledger :=
  updatePlacement l objectID now (fun row => (row) <| op_LastAttempt := now |> <| op_Attempts := op_Attempts row + 1 |>).
Definition MarkRebalanceAttempt (l : Ledger) (objectID : string) (now : Z) : outcome ledger_err Ledger :=
  updatePlacement l objectID now (fun row => (row) <| op_LastRebalance := now |> <| op_Rebalances := op_Rebalances row + 1 |>).
Definition MarkDrainAttempt (l : Ledger) (objectID : string) (now : Z) : outcome ledger_err Ledger :=
  updatePlacement l objectID now (fun row => (row) <| op_LastDrain := now |> <| op_Drains := op_Drains row + 1 |>).

(** The entries that still point at this object. *)
Definition unindex (objectID : string) (index : gmap string string) (s : ShardPlacement) : gmap string string :=
  if bool_decide (index !! sp_ID s = Some objectID) then delete (sp_ID s) index else index.
Definition forgetPlacement (l : Ledger) (objectID : string) : Ledger :=
  match lg_rows l !! objectID with
  | None => l
  | Some value =>
      let index := match value with Some row => foldl (unindex objectID) (lg_index l) (op_Shards row) | None => lg_index l end in
      (l) <| lg_rows := delete objectID (lg_rows l) |> <| lg_index := index |>
  end.

(** ** Reading *)

Definition HoldsSiblingShard (l : Ledger) (objectID shardID peerID : string) : bool :=
  match LoadObjectPlacement l objectID with
  | Ok row =>
      let chunks : gset Z := list_to_set (map sp_Chunk (filter (fun s => sp_ID s = shardID) (op_Shards row))) in
      existsb (fun s => bool_decide (sp_Chunk s ∈ chunks) && negb (String.eqb (sp_ID s) shardID) && holds peerID s) (op_Shards row)
  | _ => false
  end.
Definition HoldersForShard (l : Ledger) (shardID : string) : list string :=
  match lg_index l !! shardID with
  | None => []
  | Some objectID =>
      match lg_rows l !! objectID with
      | Some (Some row) => concat (map sp_Holders (filter (fun s => sp_ID s = shardID) (op_Shards row)))
      | _ => []
      end
  end.

Definition HasRemoteHolder (p : ObjectPlacement) : bool := existsb (fun s => negb (length (sp_Holders s) =? 0)%nat) (op_Shards p).
Definition HeldByAny (p : ObjectPlacement) (peers : gset string) : bool :=
  existsb (fun s => existsb (fun holder => bool_decide (holder ∈ peers)) (sp_Holders s)) (op_Shards p).

Definition ChunkHasDurabilityMargin (p : ObjectPlacement) (chunkIndex : Z) : bool :=
  let shards := PlacementSnapshot p chunkIndex in
  if (length shards =? 0)%nat then false
  else DurableRemoteHolders (op_DataShards p) (op_ParityShards p) <? DistinctHolders shards.
Definition ChunkShardsHeldBy (p : ObjectPlacement) (chunkIndex : Z) (from : string) : list Shard :=
  filter (fun sh => from ∈ sh_Holders sh) (PlacementSnapshot p chunkIndex).
Definition MovableChunkShards (p : ObjectPlacement) (chunkIndex : Z) (from : string) : list Shard :=
  if negb (ChunkHasDurabilityMargin p chunkIndex) then [] else ChunkShardsHeldBy p chunkIndex from.
Definition SurvivesLosingHolder (p : ObjectPlacement) (chunkIndex : Z) (shardID peerID : string) : bool :=
  let after := WithoutHolder (PlacementSnapshot p chunkIndex) shardID peerID in
  if DistinctHolders after <? DurableRemoteHolders (op_DataShards p) (op_ParityShards p) then false
  else SurvivesHolderLosses after (op_DataShards p) 1.
Definition ChunkIndexOfShard (p : ObjectPlacement) (shardID : string) : option Z :=
  option_map sp_Chunk (List.find (fun s => String.eqb (sp_ID s) shardID) (op_Shards p)).
Definition HolderOfShard (p : ObjectPlacement) (shardID peerID : string) : bool :=
  existsb (fun s => String.eqb (sp_ID s) shardID && holds peerID s) (op_Shards p).

(** ** Queues *)

(** [!t.IsZero() && t.After(cutoff)] *)
Definition too_recent (cutoff t : Z) : bool := negb (t =? zero_time) && (cutoff <? t).
Definition first_rows (limit : Z) (rows : list ObjectPlacement) : list ObjectPlacement :=
  if limit <? Z.of_nat (length rows) then take (Z.to_nat limit) rows else rows.

Definition attempt_before (a b : ObjectPlacement) : bool :=
  if negb (Bool.eqb (UnderReplicated a) (UnderReplicated b)) then UnderReplicated a else op_LastAttempt a <? op_LastAttempt b.
Definition placementCandidates (l : Ledger) (limit cooldown now : Z) (onlyIncomplete : bool) : list ObjectPlacement :=
  if limit <=? 0 then []
  else
    let cutoff := now - cooldown in
    let rows := filter (fun row => ~ (onlyIncomplete && FullyDispersed row = true) /\ too_recent cutoff (op_LastAttempt row) = false) (decoded_rows l) in
    first_rows limit (merge_sort (fun a b => Is_true (negb (attempt_before b a))) rows).
Definition DispersalCandidates (l : Ledger) (limit cooldown now : Z) : list ObjectPlacement := placementCandidates l limit cooldown now true.
Definition AuditCandidates (l : Ledger) (limit cooldown now : Z) : list ObjectPlacement := placementCandidates l limit cooldown now false.

Definition rebalanced_first (a b : ObjectPlacement) : Prop := op_LastRebalance a <= op_LastRebalance b.
#[export] Instance rebalanced_first_dec (a b : ObjectPlacement) : Decision (rebalanced_first a b).
Proof. unfold rebalanced_first. apply _. Defined.
Definition RebalanceCandidates (l : Ledger) (limit cooldown now : Z) : list ObjectPlacement :=
  if limit <=? 0 then []
  else
    let cutoff := now - cooldown in
    let rows := filter (fun row => UnderReplicated row = false /\ too_recent cutoff (op_LastRebalance row) = false /\ HasRemoteHolder row = true)
                  (decoded_rows l) in
    first_rows limit (merge_sort rebalanced_first rows).

Definition drained_first (a b : ObjectPlacement) : Prop := op_LastDrain a <= op_LastDrain b.
#[export] Instance drained_first_dec (a b : ObjectPlacement) : Decision (drained_first a b).
Proof. unfold drained_first. apply _. Defined.
Definition DrainCandidates (l : Ledger) (leaving : gset string) (limit cooldown now : Z) : list ObjectPlacement :=
  if (limit <=? 0) || (size leaving =? 0)%nat then []
  else
    let cutoff := now - cooldown in
    let rows := filter (fun row => HeldByAny row leaving = true /\ too_recent cutoff (op_LastDrain row) = false) (decoded_rows l) in
    first_rows limit (merge_sort drained_first rows).

(** ** Reports *)

Record PlacementSummary : Type := mkPlacementSummary { su_Objects : Z; su_UnderReplicated : Z; su_FullyDispersed : Z; su_LocalOnly : Z }.
Definition summarise (s : PlacementSummary) (row : ObjectPlacement) : PlacementSummary :=
  let dispersed := FullyDispersed row in
  mkPlacementSummary (su_Objects s + 1)
    (if UnderReplicated row then su_UnderReplicated s + 1 else su_UnderReplicated s)
    (if dispersed then su_FullyDispersed s + 1 else su_FullyDispersed s)
    (if negb dispersed && (WeakestChunk row =? 0) then su_LocalOnly s + 1 else su_LocalOnly s).
Definition PlacementStatus (l : Ledger) : PlacementSummary := foldl summarise (mkPlacementSummary 0 0 0 0) (decoded_rows l).

Record DrainRemaining : Type := mkDrainRemaining { dr_Objects : Z; dr_Shards : Z; dr_Bytes : Z }.
Definition recorded_in (peers : gset string) (out : DrainRemaining) (row : ObjectPlacement) : DrainRemaining :=
  let counted := map (fun s => Z.of_nat (length (filter (fun holder => holder ∈ peers) (sp_Holders s)))) (op_Shards row) in
  let shards := zsum counted in
  mkDrainRemaining (if 0 <? shards then dr_Objects out + 1 else dr_Objects out) (dr_Shards out + shards)
    (dr_Bytes out + zsum (zip_with (fun s n => sp_Size s * n) (op_Shards row) counted)).
Definition ShardsRecordedOn (l : Ledger) (peers : gset string) : DrainRemaining :=
  if (size peers =? 0)%nat then mkDrainRemaining 0 0 0 else foldl (recorded_in peers) (mkDrainRemaining 0 0 0) (decoded_rows l).

(** ** Moved away ([IsContentID] and [recallRefusalTTL] are [store.go]'s and [recall.go]'s) *)

Definition recallRefusalTTL : Z := 6 * 3600 * NanoSecond.
Definition hex_lower (c : Ascii.ascii) : bool :=
  let n := Z.of_N (Ascii.N_of_ascii c) in ((48 <=? n) && (n <=? 57)) || ((97 <=? n) && (n <=? 102)).
Definition IsContentID (id : string) : bool := (String.length id =? 64)%nat && forallb hex_lower (String.list_ascii_of_string id).

Definition movedAwayKey (objectID shardID peerID : string) : string :=
  let nul := String.String Ascii.zero "" in "moved" ++ nul ++ objectID ++ nul ++ shardID ++ nul ++ peerID.
(** The deadline recorded; [None] is a refusal. *)
Definition NoteShardMovedAway (l : Ledger) (objectID shardID peerID : string) (now : Z) : option Ledger :=
  if negb (IsContentID shardID) then None
  else if String.eqb objectID "" || String.eqb peerID "" then None
  else Some ((l) <| lg_moved := <[movedAwayKey objectID shardID peerID := now + recallRefusalTTL]> (lg_moved l) |>).
Definition ShardMovedAwayFrom (l : Ledger) (objectID shardID peerID : string) (now : Z) : bool :=
  match lg_moved l !! movedAwayKey objectID shardID peerID with Some deadline => now <? deadline | None => false end.

(** ** What durable means *)

Lemma elem_of_snapshot (p : ObjectPlacement) (c : Z) (sh : Shard) :
  sh ∈ PlacementSnapshot p c <-> exists s, s ∈ op_Shards p /\ sp_Chunk s = c /\ sh = snapshot_shard s.
Proof.
  unfold PlacementSnapshot. rewrite merge_sort_Permutation, list_elem_of_fmap. setoid_rewrite list_elem_of_filter. naive_solver.
Qed.
Lemma elem_of_ChunkIndexes (p : ObjectPlacement) (c : Z) : c ∈ ChunkIndexes p <-> exists s, s ∈ op_Shards p /\ sp_Chunk s = c.
Proof. unfold ChunkIndexes. rewrite merge_sort_Permutation, elem_of_remove_dups, list_elem_of_fmap. naive_solver. Qed.

(** The shard indexes of a chunk that some peer outside [dead] holds. *)
Definition still_held (p : ObjectPlacement) (chunk : Z) (dead : gset string) : gset Z := alive_without (PlacementSnapshot p chunk) dead.

Lemma survives_spec (shards : list Shard) (dataShards losses : Z) (dead : gset string) :
  SurvivesHolderLosses shards dataShards losses = true -> Z.of_nat (size dead) <= losses ->
  Z.max 1 dataShards <= Z.of_nat (size (alive_without shards dead)).
Proof.
  unfold SurvivesHolderLosses. intros HS%Z.leb_le HL. pose proof (SurvivingIndexes_sound shards losses dead HL).
  destruct (Z.ltb_spec dataShards 1); lia.
Qed.

Lemma ChunkIsDurable_spec (p : ObjectPlacement) (c : Z) (dead : gset string) :
  ChunkIsDurable p c = true -> (size dead <= 1)%nat ->
  DurableRemoteHolders (op_DataShards p) (op_ParityShards p) <= Z.of_nat (size (occupied_by (PlacementSnapshot p c))) /\
  Z.max 1 (op_DataShards p) <= Z.of_nat (size (still_held p c dead)).
Proof.
  unfold ChunkIsDurable. destruct (_ =? 0)%nat; [done|]. destruct (Z.ltb_spec (DistinctHolders (PlacementSnapshot p c))
    (DurableRemoteHolders (op_DataShards p) (op_ParityShards p))) as [|HD]; [done|]. intros HS Hd. split; [exact HD|]. eapply survives_spec; [exact HS|lia].
Qed.
Lemma ChunkIsSpread_spec (p : ObjectPlacement) (c : Z) (dead : gset string) :
  ChunkIsSpread p c = true -> Z.of_nat (size dead) <= op_ParityShards p ->
  Forall (fun sh => sh_Holders sh <> []) (PlacementSnapshot p c) /\ Z.max 1 (op_DataShards p) <= Z.of_nat (size (still_held p c dead)).
Proof.
  unfold ChunkIsSpread. destruct (_ =? 0)%nat; [done|]. destruct (existsb _ _) eqn:EX; [done|]. intros HS Hd. split; [|by eapply survives_spec].
  apply Forall_forall. intros sh Hsh Eh. apply not_true_iff_false in EX. apply EX, existsb_exists. exists sh. split; [by apply list_elem_of_In|]. by rewrite Eh.
Qed.
Lemma UnderReplicated_false (p : ObjectPlacement) (c : Z) : UnderReplicated p = false -> c ∈ ChunkIndexes p -> ChunkIsDurable p c = true.
Proof.
  unfold UnderReplicated. intros HU Hc. destruct (ChunkIndexes p) as [|c0 cs]; [by apply elem_of_nil in Hc|].
  destruct (ChunkIsDurable p c) eqn:E; [done|]. exfalso. apply not_true_iff_false in HU. apply HU, existsb_exists. exists c.
  split; [by apply list_elem_of_In|]. by rewrite E.
Qed.
Lemma FullyDispersed_true (p : ObjectPlacement) (c : Z) : FullyDispersed p = true -> c ∈ ChunkIndexes p -> ChunkIsSpread p c = true.
Proof.
  unfold FullyDispersed. intros HU Hc. destruct (ChunkIndexes p) as [|c0 cs]; [done|]. rewrite forallb_forall in HU. apply HU. by apply list_elem_of_In.
Qed.

(** ** Rows of one shard *)

Lemma at_shard_rows (shardID : string) (f : ShardPlacement -> ShardPlacement) (row : ObjectPlacement) :
  op_Shards (at_shard shardID f row) = map (fun s => if String.eqb (sp_ID s) shardID then f s else s) (op_Shards row).
Proof. done. Qed.
Lemma holds_spec (peer : string) (s : ShardPlacement) : holds peer s = true <-> peer ∈ sp_Holders s.
Proof.
  unfold holds. rewrite existsb_exists. split.
  - intros (h & H1 & ->%String.eqb_eq). by apply list_elem_of_In.
  - intros H. exists peer. split; [by apply list_elem_of_In|apply String.eqb_refl].
Qed.

(** The rows of one shard name the same holders and the same silences: they are always written together. *)
Definition twins_agree (rows : list ShardPlacement) : Prop :=
  forall s s', s ∈ rows -> s' ∈ rows -> sp_ID s = sp_ID s' -> sp_Holders s = sp_Holders s' /\ sp_Silences s = sp_Silences s'.
Record row_ok (s : ShardPlacement) : Prop := {
  ro_holders : NoDup (sp_Holders s);
  ro_silences : forall peer n, sp_Silences s !! peer = Some n -> peer ∈ sp_Holders s /\ 0 < n
}.
Record placement_ok (p : ObjectPlacement) : Prop := {
  pk_twins : twins_agree (op_Shards p);
  pk_rows : Forall row_ok (op_Shards p)
}.
Definition ledger_ok (l : Ledger) : Prop := forall objectID p, lg_rows l !! objectID = Some (Some p) -> placement_ok p.

Definition add_holder (peer : string) (s : ShardPlacement) : ShardPlacement := (s) <| sp_Holders := sp_Holders s ++ [peer] |>.
(** What a confirmation makes of a row. *)
Definition confirmed (shardID peer : string) (s : ShardPlacement) : ShardPlacement :=
  if String.eqb (sp_ID s) shardID && negb (holds peer s) then add_holder peer s else s.
Lemma confirm_rows_map (shardID peer : string) (rows : list ShardPlacement) :
  twins_agree rows -> confirm_rows shardID peer rows = map (confirmed shardID peer) rows.
Proof.
  induction rows as [|s rows IH]; intros HT; [done|]. cbn [confirm_rows map]. unfold confirmed at 1.
  assert (twins_agree rows) as HT' by (intros a b Ha Hb; apply HT; by apply list_elem_of_further).
  destruct (String.eqb_spec (sp_ID s) shardID) as [E|E]; cbn [negb andb]; [|f_equal; auto].
  destruct (holds peer s) eqn:EH; cbn [negb]; [|f_equal; auto]. f_equal.
  assert (Forall (fun s' => confirmed shardID peer s' = s') rows) as HF.
  { apply Forall_forall. intros s' Hs'. unfold confirmed. destruct (String.eqb_spec (sp_ID s') shardID) as [E'|]; [|done].
    destruct (HT s s' (list_elem_of_here _ _) (list_elem_of_further _ _ _ Hs')) as [Eh _]; [congruence|].
    assert (holds peer s' = true) as ->; [|done]. unfold holds in *. by rewrite <- Eh. }
  clear -HF. induction HF as [|x l H1 _ IH]; [done|]. cbn [map]. by rewrite H1, <- IH.
Qed.

Lemma map_elem {A B : Type} (f : A -> B) (l : list A) (y : B) : y ∈ map f l <-> exists x, x ∈ l /\ y = f x.
Proof. rewrite list_elem_of_fmap. naive_solver. Qed.

(** A change made to every row of a shard alike keeps the twins. *)
Lemma twins_map (f : ShardPlacement -> ShardPlacement) (rows : list ShardPlacement) :
  (forall s, sp_ID (f s) = sp_ID s) ->
  (forall s s', sp_ID s = sp_ID s' -> sp_Holders s = sp_Holders s' -> sp_Silences s = sp_Silences s' ->
     sp_Holders (f s) = sp_Holders (f s') /\ sp_Silences (f s) = sp_Silences (f s')) ->
  twins_agree rows -> twins_agree (map f rows).
Proof.
  intros HI HF HT a b (s & Hs & ->)%map_elem (s' & Hs' & ->)%map_elem. rewrite !HI. intros E. destruct (HT s s' Hs Hs' E). auto.
Qed.
Lemma placement_map (f : ShardPlacement -> ShardPlacement) (p p' : ObjectPlacement) :
  (forall s, sp_ID (f s) = sp_ID s) ->
  (forall s s', sp_ID s = sp_ID s' -> sp_Holders s = sp_Holders s' -> sp_Silences s = sp_Silences s' ->
     sp_Holders (f s) = sp_Holders (f s') /\ sp_Silences (f s) = sp_Silences (f s')) ->
  (forall s, row_ok s -> row_ok (f s)) ->
  op_Shards p' = map f (op_Shards p) -> placement_ok p -> placement_ok p'.
Proof.
  intros HI HF HR E [HT HA]. split; rewrite E; [by apply twins_map|]. apply Forall_fmap. eapply Forall_impl; [exact HA|exact HR].
Qed.

Lemma confirmed_ok (shardID peer : string) (s : ShardPlacement) : row_ok s -> row_ok (confirmed shardID peer s).
Proof.
  intros [HN HS]. unfold confirmed. destruct (String.eqb (sp_ID s) shardID); cbn [andb]; [|done]. destruct (holds peer s) eqn:EH; cbn [negb]; [done|].
  split; cbn.
  - apply NoDup_snoc; [done|]. intros H%holds_spec. congruence.
  - intros q n [Hq Hn]%HS. split; [|done]. apply elem_of_app. by left.
Qed.
Lemma drop_holder_ok (peer : string) (s : ShardPlacement) : row_ok s -> row_ok (drop_holder peer s).
Proof.
  intros [HN HS]. split; cbn; [by apply NoDup_filter|]. intros q n [Hq [H1 H2]%HS]%lookup_delete_Some. split; [|done]. apply list_elem_of_filter. auto.
Qed.
Lemma note_silence_ok (peer : string) (s : ShardPlacement) : row_ok s -> row_ok (note_silence peer s).
Proof.
  intros [HN HS]. unfold note_silence. destruct (holds peer s) eqn:EH; [|done]. split; cbn; [done|].
  intros q n [[<- <-]|[_ Hq%HS]]%lookup_insert_Some; [|done]. split; [by apply holds_spec|]. unfold silence_of.
  destruct (sp_Silences s !! peer) as [m|] eqn:Em; cbn; [|lia]. apply HS in Em as [_ Em]. lia.
Qed.
Lemma note_answered_ok (peer : string) (s : ShardPlacement) : row_ok s -> row_ok (note_answered peer s).
Proof. intros [HN HS]. split; cbn; [done|]. intros q n [_ Hq%HS]%lookup_delete_Some. done. Qed.

Lemma known_shards_spec (previous : ObjectPlacement) (id : string) (s : ShardPlacement) :
  known_shards previous !! id = Some s -> s ∈ op_Shards previous /\ sp_ID s = id.
Proof.
  unfold known_shards. induction (op_Shards previous) as [|x l IH] using rev_ind; [cbn [foldl]; by rewrite lookup_empty|].
  rewrite foldl_app. cbn [foldl]. rewrite lookup_insert_Some, elem_of_app, list_elem_of_singleton. naive_solver.
Qed.
Lemma known_shards_some (previous : ObjectPlacement) (s : ShardPlacement) : s ∈ op_Shards previous -> is_Some (known_shards previous !! sp_ID s).
Proof.
  unfold known_shards. induction (op_Shards previous) as [|x l IH] using rev_ind; [by intros H%elem_of_nil|].
  rewrite foldl_app, elem_of_app, list_elem_of_singleton. cbn [foldl]. intros [H| ->].
  - destruct (decide (sp_ID x = sp_ID s)) as [->|]; [rewrite lookup_insert_eq; eauto|]. rewrite lookup_insert_ne by done. auto.
  - rewrite lookup_insert_eq. eauto.
Qed.

Lemma fresh_row_ok (manifest : Manifest) (now : Z) : placement_ok (fresh_row manifest now).
Proof.
  assert (forall s, s ∈ fresh_shards manifest -> sp_Holders s = [] /\ sp_Silences s = ∅) as HF.
  { intros s Hs. unfold fresh_shards in Hs. apply list_elem_of_In, in_concat in Hs as (l & Hl & Hs). apply list_elem_of_In in Hl, Hs.
    apply map_elem in Hl as (c & _ & ->). apply map_elem in Hs as (r & _ & ->). done. }
  split; cbn.
  - intros s s' [-> ->]%HF [-> ->]%HF _. done.
  - apply Forall_forall. intros s [E1 E2]%HF. split; rewrite ?E1, ?E2; [constructor|]. intros q n. by rewrite lookup_empty.
Qed.
Lemma merge_previous_ok (row previous : ObjectPlacement) : placement_ok previous -> placement_ok (merge_previous row previous).
Proof.
  intros [HT HR]. split; cbn.
  - intros a b (s & _ & ->)%map_elem (s' & _ & ->)%map_elem. cbn. intros ->. done.
  - apply Forall_fmap, Forall_forall. intros s _. cbn. unfold carry_over. destruct (known_shards previous !! sp_ID s) as [k|] eqn:E.
    + apply known_shards_spec in E as [E _]. rewrite Forall_forall in HR. apply HR in E as [H1 H2]. by split.
    + split; cbn; [constructor|]. intros q n. by rewrite lookup_empty.
Qed.

(** ** Operations *)

Inductive ledger_op : Type :=
| OpRecord (manifest : Manifest) | OpEnrol (limit : Z) | OpConfirm (objectID shardID peerID : string) | OpDrop (objectID shardID peerID : string)
| OpSilence (objectID shardID peerID : string) | OpAnswered (objectID shardID peerID : string) | OpLocal (objectID shardID : string) (local : bool)
| OpAttempt (objectID : string) | OpRebalance (objectID : string) | OpDrain (objectID : string) | OpForget (objectID : string)
| OpMovedAway (objectID shardID peerID : string).

(** An operation that fails changes nothing. *)
Definition settled (l : Ledger) (m : outcome ledger_err Ledger) : Ledger := match m with Ok l' => l' | _ => l end.
Definition ledger_step (l : Ledger) (call : ledger_op * Z) : Ledger :=
  let '(op, now) := call in
  match op with
  | OpRecord manifest => RecordObjectPlacement l manifest now
  | OpEnrol limit => (EnrolMissingPlacements l limit now).1.1
  | OpConfirm o s p => settled l (ConfirmShardHolder l o s p now)
  | OpDrop o s p => settled l (DropShardHolder l o s p now)
  | OpSilence o s p => match NoteHolderSilence l o s p now with Ok (l', _) => l' | _ => l end
  | OpAnswered o s p => settled l (NoteHolderAnswered l o s p now)
  | OpLocal o s local => settled l (SetShardLocal l o s local now)
  | OpAttempt o => settled l (MarkPlacementAttempt l o now)
  | OpRebalance o => settled l (MarkRebalanceAttempt l o now)
  | OpDrain o => settled l (MarkDrainAttempt l o now)
  | OpForget o => forgetPlacement l o
  | OpMovedAway o s p => default l (NoteShardMovedAway l o s p now)
  end.

Lemma updatePlacement_ok (l l' : Ledger) (objectID : string) (now : Z) (mutate : ObjectPlacement -> ObjectPlacement) :
  updatePlacement l objectID now mutate = Ok l' ->
  exists row, lg_rows l !! objectID = Some (Some row) /\
    l' = (l) <| lg_rows := <[objectID := Some ((mutate row) <| op_UpdatedAt := now |>)]> (lg_rows l) |>.
Proof.
  unfold updatePlacement, LoadObjectPlacement. intros H. destruct (lg_rows l !! objectID) as [[row|]|] eqn:E; cbn in H; [|done..].
  apply Ok_inj in H as <-. eauto.
Qed.
Lemma update_keeps (l l' : Ledger) (objectID : string) (now : Z) (mutate : ObjectPlacement -> ObjectPlacement) :
  (forall row, placement_ok row -> placement_ok (mutate row)) -> ledger_ok l -> updatePlacement l objectID now mutate = Ok l' -> ledger_ok l'.
Proof.
  intros HM HL (row & Er & ->)%updatePlacement_ok o p. cbn. rewrite lookup_insert_Some. intros [[<- [= <-]]|[_ H]]; [|by eapply HL].
  destruct (HM row (HL _ _ Er)) as [H1 H2]. by split.
Qed.
Lemma put_row_ok (l : Ledger) (row : ObjectPlacement) : ledger_ok l -> placement_ok row -> ledger_ok (put_row l row).
Proof. intros HL HR o p. cbn. rewrite lookup_insert_Some. intros [[<- [= <-]]|[_ H]]; [done|by eapply HL]. Qed.

Lemma at_shard_keeps (shardID : string) (f : ShardPlacement -> ShardPlacement) (row : ObjectPlacement) :
  (forall s, sp_ID (f s) = sp_ID s) -> (forall s, row_ok s -> row_ok (f s)) ->
  (forall s s', sp_Holders s = sp_Holders s' -> sp_Silences s = sp_Silences s' -> sp_Holders (f s) = sp_Holders (f s') /\ sp_Silences (f s) = sp_Silences (f s')) ->
  placement_ok row -> placement_ok (at_shard shardID f row).
Proof.
  intros HI HR HF. apply (placement_map (fun s => if String.eqb (sp_ID s) shardID then f s else s)).
  - intros s. by destruct (String.eqb _ _).
  - intros s s' -> E1 E2. destruct (String.eqb (sp_ID s') shardID); auto.
  - intros s Hs. destruct (String.eqb _ _); auto.
  - apply at_shard_rows.
Qed.
Lemma note_silence_alike (peer : string) (s s' : ShardPlacement) : sp_Holders s = sp_Holders s' -> sp_Silences s = sp_Silences s' ->
  sp_Holders (note_silence peer s) = sp_Holders (note_silence peer s') /\ sp_Silences (note_silence peer s) = sp_Silences (note_silence peer s').
Proof. intros E1 E2. unfold note_silence, holds, silence_of. rewrite E1, E2. destruct (existsb _ _); cbn; auto. Qed.

Lemma confirm_keeps (shardID peer : string) (row : ObjectPlacement) :
  placement_ok row -> placement_ok ((row) <| op_Shards := confirm_rows shardID peer (op_Shards row) |>).
Proof.
  intros HP. eapply (placement_map (confirmed shardID peer)); [| | |by apply confirm_rows_map, (pk_twins _ HP)|done].
  - intros s. unfold confirmed. by destruct (_ && _).
  - intros s s' E1 E2 E3. unfold confirmed, holds. rewrite E1, E2. destruct (_ && _); cbn; [by rewrite E2, E3|done].
  - intros s. apply confirmed_ok.
Qed.
Lemma silence_update (l l' : Ledger) (o s p : string) (now n : Z) :
  NoteHolderSilence l o s p now = Ok (l', n) ->
  exists row, lg_rows l !! o = Some (Some row) /\ n = most_silences s p (op_Shards row) /\ updatePlacement l o now (at_shard s (note_silence p)) = Ok l'.
Proof.
  unfold NoteHolderSilence, LoadObjectPlacement. intros H. destruct (lg_rows l !! o) as [[row|]|] eqn:E; cbn in H; [|done..].
  apply obind_ok in H as (l2 & H1 & H2). apply Ok_inj, pair_equal_spec in H2 as [<- <-]. eauto.
Qed.

Lemma forget_rows (l : Ledger) (o : string) : lg_rows (forgetPlacement l o) = delete o (lg_rows l).
Proof. unfold forgetPlacement. destruct (lg_rows l !! o) as [v|] eqn:E; [done|]. by rewrite delete_id. Qed.

Lemma ledger_step_ok (l : Ledger) (call : ledger_op * Z) : ledger_ok l -> ledger_ok (ledger_step l call).
Proof.
  intros HL. destruct call as [op now]. destruct op as [m|limit|o s p|o s p|o s p|o s p|o s b|o|o|o|o|o s p]; cbn [ledger_step].
  - unfold RecordObjectPlacement. destruct (lg_rows l !! _) as [[previous|]|] eqn:E; apply put_row_ok; try done; try apply fresh_row_ok.
    apply merge_previous_ok. by eapply HL.
  - unfold EnrolMissingPlacements. generalize (if limit <=? 0 then 1 else limit), (for_each (lg_objects l)). intros lim vs.
    generalize 0 at 1 as e. generalize 0 as q. revert l HL. induction vs as [|v vs IH]; intros l HL q e; cbn [foldl]; [done|].
    destruct v as [m|]; cbn [enrol]; [|by apply IH]. destruct (_ || _); [by apply IH|]. destruct (_ <=? _); apply IH; [done|].
    apply put_row_ok; [done|apply fresh_row_ok].
  - unfold ConfirmShardHolder. destruct (String.eqb p ""); [done|]. cbn [guard_err]. destruct (updatePlacement _ _ _ _) eqn:E; cbn; try done.
    eapply update_keeps; [|exact HL|exact E]. intros row. apply confirm_keeps.
  - unfold DropShardHolder. destruct (updatePlacement _ _ _ _) eqn:E; cbn; try done. eapply update_keeps; [|exact HL|exact E].
    intros row. apply at_shard_keeps; [done|intros; by apply drop_holder_ok|]. cbn. intros x y -> ->. done.
  - destruct (NoteHolderSilence l o s p now) as [[l' n]| |] eqn:E; try done. apply silence_update in E as (row & _ & _ & E).
    eapply update_keeps; [|exact HL|exact E]. intros r. apply at_shard_keeps; [|intros; by apply note_silence_ok|intros; by apply note_silence_alike].
    intros x. unfold note_silence. by destruct (holds p x).
  - unfold NoteHolderAnswered. destruct (updatePlacement _ _ _ _) eqn:E; cbn; try done. eapply update_keeps; [|exact HL|exact E].
    intros row. apply at_shard_keeps; [done|intros; by apply note_answered_ok|]. cbn. intros x y -> ->. done.
  - unfold SetShardLocal. destruct (updatePlacement _ _ _ _) eqn:E; cbn; try done. eapply update_keeps; [|exact HL|exact E].
    intros row. apply at_shard_keeps; [done|intros x [H1 H2]; by split|]. cbn. auto.
  - unfold MarkPlacementAttempt. destruct (updatePlacement _ _ _ _) eqn:E; cbn; try done. eapply update_keeps; [|exact HL|exact E]. intros row [H1 H2]. by split.
  - unfold MarkRebalanceAttempt. destruct (updatePlacement _ _ _ _) eqn:E; cbn; try done. eapply update_keeps; [|exact HL|exact E]. intros row [H1 H2]. by split.
  - unfold MarkDrainAttempt. destruct (updatePlacement _ _ _ _) eqn:E; cbn; try done. eapply update_keeps; [|exact HL|exact E]. intros row [H1 H2]. by split.
  - intros o' r. rewrite forget_rows, lookup_delete_Some. intros [_ H]. by eapply HL.
  - unfold NoteShardMovedAway. destruct (negb _); [done|]. destruct (_ || _); [done|]. cbn. intros o' r. cbn. apply HL.
Qed.
Lemma ledger_run_ok (l : Ledger) (calls : list (ledger_op * Z)) : ledger_ok l -> ledger_ok (foldl ledger_step l calls).
Proof. revert l. induction calls as [|c cs IH]; intros l HL; cbn [foldl]; [done|]. apply IH. by apply ledger_step_ok. Qed.

(** ** Silences *)

Lemma find_at_shard (shardID : string) (f : ShardPlacement -> ShardPlacement) (rows : list ShardPlacement) :
  (forall s, sp_ID (f s) = sp_ID s) ->
  List.find (fun s => String.eqb (sp_ID s) shardID) (map (fun s => if String.eqb (sp_ID s) shardID then f s else s) rows) =
  option_map f (List.find (fun s => String.eqb (sp_ID s) shardID) rows).
Proof.
  intros HI. induction rows as [|s rows IH]; [done|]. cbn [map List.find].
  destruct (String.eqb (sp_ID s) shardID) eqn:E; [rewrite HI|]; rewrite E; [done|exact IH].
Qed.
(** The first row of a shard a peer holds. *)
Lemma holder_first (p : ObjectPlacement) (shardID peer : string) :
  placement_ok p -> HolderOfShard p shardID peer = true ->
  exists s, List.find (fun s => String.eqb (sp_ID s) shardID) (op_Shards p) = Some s /\ s ∈ op_Shards p /\ sp_ID s = shardID /\ holds peer s = true.
Proof.
  intros [HT _] (s & Hs & [E1%String.eqb_eq E2]%andb_true_iff)%existsb_exists. apply list_elem_of_In in Hs.
  destruct (List.find _ (op_Shards p)) as [x|] eqn:EF.
  - apply find_some in EF as [Hx Ex]. apply list_elem_of_In in Hx. apply String.eqb_eq in Ex. exists x. repeat (split; [done|]).
    destruct (HT x s Hx Hs) as [Eh _]; [congruence|]. unfold holds in *. by rewrite Eh.
  - apply list_elem_of_In in Hs. pose proof (find_none _ _ EF s Hs) as HN. cbn in HN. by rewrite E1, String.eqb_refl in HN.
Qed.
Lemma most_silences_spec (p : ObjectPlacement) (shardID peer : string) :
  placement_ok p -> HolderOfShard p shardID peer = true -> most_silences shardID peer (op_Shards p) = HolderSilences p shardID peer + 1.
Proof.
  intros HP HH. destruct (holder_first p shardID peer HP HH) as (x & EF & Hx & Ex & Hh). unfold HolderSilences. rewrite EF. destruct HP as [HT HR].
  set (v := silence_of peer x + 1). assert (0 < v) as Hv.
  { unfold v, silence_of. rewrite Forall_forall in HR. destruct (sp_Silences x !! peer) eqn:E; cbn; [|lia]. apply (ro_silences _ (HR x Hx)) in E as [_ E]. lia. }
  assert (forall s, s ∈ op_Shards p -> sp_ID s = shardID -> holds peer s = true /\ silence_of peer s + 1 = v) as HA.
  { intros s Hs Es. destruct (HT s x Hs Hx) as [E1 E2]; [congruence|]. unfold v, silence_of, holds in *. by rewrite E1, E2. }
  unfold most_silences. clear -HA Hx Ex Hv. clearbody v.
  assert (forall rows acc, (forall s, s ∈ rows -> sp_ID s = shardID -> holds peer s = true /\ silence_of peer s + 1 = v) ->
            (acc = v \/ (acc = 0 /\ x ∈ rows)) ->
            foldl (fun silences s => if String.eqb (sp_ID s) shardID && holds peer s && (silences <? silence_of peer s + 1)
                                     then silence_of peer s + 1 else silences) acc rows = v) as HF; [|apply HF; auto].
  clear -Hv Ex. induction rows as [|s rows IH]; intros acc HA Hacc; cbn [foldl].
  - destruct Hacc as [|[_ H]]; [done|by apply elem_of_nil in H].
  - apply IH; [intros y Hy; apply HA; by apply list_elem_of_further|]. destruct (String.eqb_spec (sp_ID s) shardID) as [Es|Es]; cbn [andb].
    + destruct (HA s (list_elem_of_here _ _) Es) as [-> ->]. cbn [andb]. left. destruct (Z.ltb_spec acc v); [done|]. destruct Hacc as [|[-> _]]; lia.
    + destruct Hacc as [|[-> [->|H]%elem_of_cons]]; auto; congruence.
Qed.

Inductive audit : Type := Missed | Answered.
Definition audit_op (objectID shardID peerID : string) (a : audit * Z) : ledger_op * Z :=
  (match a.1 with Missed => OpSilence objectID shardID peerID | Answered => OpAnswered objectID shardID peerID end, a.2).
(** The misses since the last answer. *)
Definition misses (n : Z) (a : audit * Z) : Z := match a.1 with Missed => n + 1 | Answered => 0 end.

Lemma HolderOfShard_at (p : ObjectPlacement) (shardID peer : string) (f : ShardPlacement -> ShardPlacement) :
  (forall s, sp_ID (f s) = sp_ID s /\ sp_Holders (f s) = sp_Holders s) ->
  HolderOfShard (at_shard shardID f p) shardID peer = HolderOfShard p shardID peer.
Proof.
  intros HF. unfold HolderOfShard, holds. rewrite at_shard_rows. induction (op_Shards p) as [|s l IH]; [done|]. cbn [map existsb]. rewrite IH. f_equal.
  destruct (String.eqb (sp_ID s) shardID) eqn:E; [|by rewrite E]. destruct (HF s) as [E1 E2]. by rewrite E1, E2, E.
Qed.
Lemma note_silence_fields (peer : string) (s : ShardPlacement) : sp_ID (note_silence peer s) = sp_ID s /\ sp_Holders (note_silence peer s) = sp_Holders s.
Proof. unfold note_silence. by destruct (holds peer s). Qed.

Lemma update_ok (l : Ledger) (o : string) (now : Z) (row : ObjectPlacement) (mutate : ObjectPlacement -> ObjectPlacement) :
  lg_rows l !! o = Some (Some row) ->
  updatePlacement l o now mutate = Ok ((l) <| lg_rows := <[o := Some ((mutate row) <| op_UpdatedAt := now |>)]> (lg_rows l) |>).
Proof. intros E. unfold updatePlacement, LoadObjectPlacement. by rewrite E. Qed.

Lemma silences_at (row : ObjectPlacement) (shardID peer : string) (f : ShardPlacement -> ShardPlacement) (now : Z) (x : ShardPlacement) :
  List.find (fun s => String.eqb (sp_ID s) shardID) (op_Shards row) = Some x -> (forall s, sp_ID (f s) = sp_ID s) ->
  HolderSilences ((at_shard shardID f row) <| op_UpdatedAt := now |>) shardID peer = silence_of peer (f x) /\ HolderSilences row shardID peer = silence_of peer x.
Proof.
  intros EF HI. unfold HolderSilences. rewrite EF. split; [|done].
  change (op_Shards ((at_shard shardID f row) <| op_UpdatedAt := now |>)) with (op_Shards (at_shard shardID f row)).
  by rewrite at_shard_rows, find_at_shard, EF.
Qed.
Lemma audit_step (l : Ledger) (o s p : string) (row : ObjectPlacement) (a : audit * Z) :
  ledger_ok l -> lg_rows l !! o = Some (Some row) -> HolderOfShard row s p = true ->
  exists row', lg_rows (ledger_step l (audit_op o s p a)) !! o = Some (Some row') /\ HolderOfShard row' s p = true /\
    HolderSilences row' s p = misses (HolderSilences row s p) a.
Proof.
  intros HL Er HH. destruct (holder_first row s p (HL _ _ Er) HH) as (x & EF & Hx & Ex & Hh). destruct a as [[|] now]; cbn [audit_op ledger_step fst snd].
  - unfold NoteHolderSilence, LoadObjectPlacement. rewrite Er. cbn [of_option obind]. rewrite (update_ok _ _ _ _ _ Er). cbn [obind].
    eexists. split; [cbn [lg_rows setf]; apply lookup_insert_eq|]. split.
    + etransitivity; [|exact HH]. apply (HolderOfShard_at row s p (note_silence p)). apply note_silence_fields.
    + destruct (silences_at row s p (note_silence p) now x EF) as [-> ->]; [intros; apply note_silence_fields|].
      unfold note_silence. rewrite Hh. unfold silence_of at 1. cbn [sp_Silences setf]. by rewrite lookup_insert_eq.
  - unfold NoteHolderAnswered. rewrite (update_ok _ _ _ _ _ Er). cbn [settled].
    eexists. split; [cbn [lg_rows setf]; apply lookup_insert_eq|]. split.
    + etransitivity; [|exact HH]. by apply (HolderOfShard_at row s p (note_answered p)).
    + destruct (silences_at row s p (note_answered p) now x EF) as [-> ->]; [done|].
      unfold silence_of. cbn [sp_Silences note_answered setf]. by rewrite lookup_delete_eq.
Qed.
Lemma audits_run (l : Ledger) (o s p : string) (row : ObjectPlacement) (audits : list (audit * Z)) :
  ledger_ok l -> lg_rows l !! o = Some (Some row) -> HolderOfShard row s p = true ->
  exists row', lg_rows (foldl ledger_step l (map (audit_op o s p) audits)) !! o = Some (Some row') /\ HolderOfShard row' s p = true /\
    HolderSilences row' s p = foldl misses (HolderSilences row s p) audits.
Proof.
  revert l row. induction audits as [|a audits IH]; intros l row HL Er HH; cbn [map foldl]; [eauto|].
  destruct (audit_step l o s p row a HL Er HH) as (row1 & E1 & H1 & <-). apply IH; [by apply ledger_step_ok|done|done].
Qed.

(** ** A round of placement on a fresh chunk *)

(** [Plan] with one holder wanted assigns each shard of a fresh chunk at most once. *)
Lemma plan_one_each (ranked : list Candidate) (order : list Shard) (st : PlanState) :
  NoDup (map sh_ID order) -> NoDup (map as_ShardID (ps_out st)) -> (forall id, id ∈ map as_ShardID (ps_out st) -> id ∉ map sh_ID order) ->
  NoDup (map as_ShardID (ps_out (foldl (plan_step ranked 1) st order))).
Proof.
  revert st. induction order as [|sh order IH]; intros st HO HS HD; cbn [foldl]; [done|]. cbn [map] in HO, HD. apply NoDup_cons in HO as [Hn HO].
  assert (exists out, ps_out (plan_step ranked 1 st sh) = ps_out st ++ out /\ (out = [] \/ map as_ShardID out = [sh_ID sh])) as (out & Eo & Ho).
  { unfold plan_step. destruct (1 - length (sh_Holders sh))%nat as [|[|n]] eqn:E; [| |lia]; cbn [place_shard].
    - exists []. rewrite app_nil_r. auto.
    - destruct (picked _ _ _) as [c|]; [|exists []; rewrite app_nil_r; auto]. cbn. eexists. split; [done|]. by right. }
  apply IH; [done|..]; rewrite Eo, map_app; destruct Ho as [->|Ho].
  - cbn. by rewrite app_nil_r.
  - rewrite Ho. apply NoDup_snoc; [done|]. intros H. apply (HD _ H), list_elem_of_here.
  - cbn. rewrite app_nil_r. intros id H%HD. intros H'. apply H. by apply list_elem_of_further.
  - rewrite Ho. intros id [H|H]%elem_of_app.
    + intros H'. apply (HD _ H). by apply list_elem_of_further.
    + apply list_elem_of_singleton in H as ->. done.
Qed.

(** Candidates that a fresh chunk can be spread over. *)
Record spreadable (shards : list Shard) (candidates : list Candidate) : Prop := {
  sb_named : Forall (fun c => cd_PeerID c <> ""%string) candidates;
  sb_distinct : NoDup (map cd_PeerID candidates);
  sb_apart : forall a b k, a ∈ candidates -> b ∈ candidates -> k ∈ cd_Domains a -> k ∈ cd_Domains b -> cd_PeerID a = cd_PeerID b;
  sb_room : forall c sh, c ∈ candidates -> sh ∈ shards -> cd_FreeBytes c <= 0 \/ sh_Size sh <= cd_FreeBytes c;
  sb_enough : (length shards <= length candidates)%nat
}.

Lemma fresh_occupied (shards : list Shard) : Forall (fun sh => sh_Holders sh = []) shards -> occupied_by shards = ∅.
Proof.
  intros HF. apply set_eq. intros h. rewrite elem_of_occupied_by. split; [|set_solver]. intros (sh & Hsh & Hh). rewrite Forall_forall in HF.
  rewrite (HF sh Hsh) in Hh. by apply elem_of_nil in Hh.
Qed.

Lemma fresh_plan (shards : list Shard) (candidates : list Candidate) :
  Forall (fun sh => sh_Holders sh = []) shards -> NoDup (map sh_ID shards) -> spreadable shards candidates ->
  NoDup (map as_Peer (Plan shards candidates 1)) /\
  (forall sh, sh ∈ shards -> exists a, a ∈ Plan shards candidates 1 /\ as_ShardID a = sh_ID sh) /\
  (forall a, a ∈ Plan shards candidates 1 -> as_Peer a <> ""%string).
Proof.
  intros HF HI [S1 S2 S3 S4 S5]. unfold Plan. pose proof (merge_sort_Permutation (fun a b => Is_true (negb (emptier b a))) candidates) as HP.
  set (ranked := merge_sort _ candidates) in *. clearbody ranked. set (out := planOrdered shards ranked 1).
  destruct (planOrdered_apart shards ranked candidates 1 HP) as [chosen [PE PP PN PA PH]]. fold out in PE, PP, PN, PA, PH.
  assert (map as_Peer out = map cd_PeerID chosen) as EM by (clear -PE; induction PE as [|a d l k [A1 _ _ _] _ IH]; cbn; [done|]; by rewrite A1, IH).
  assert (NoDup (map as_ShardID out)) as HO.
  { unfold out, planOrdered, plan_final. apply plan_one_each; [|constructor|intros id H; by apply elem_of_nil in H]. unfold serve_order.
    rewrite merge_sort_Permutation. clear -HI. induction shards as [|sh l IH]; [constructor|]. cbn [map] in HI. apply NoDup_cons in HI as [H1 H2].
    rewrite filter_cons. case_decide; [|auto]. cbn [map]. constructor; [|auto]. intros (x & E & [_ Hx]%list_elem_of_filter)%list_elem_of_fmap.
    apply H1. rewrite E. by apply list_elem_of_fmap_2. }
  rewrite EM. split; [done|]. split.
  - intros sh Hsh. destruct (decide (sh_ID sh ∈ map as_ShardID out)) as [(a & E & Ha)%list_elem_of_fmap|Hn]; [eauto|]. exfalso.
    assert (length out < length shards)%nat as HL.
    { assert (length (sh_ID sh :: map as_ShardID out) <= length (map sh_ID shards))%nat as HX; [|rewrite length_map in HX; cbn in HX; rewrite length_map in HX; lia].
      apply submseteq_length, NoDup_submseteq; [by constructor|]. intros id [->|(a & -> & Ha)%list_elem_of_fmap]%elem_of_cons; [by apply list_elem_of_fmap_2|].
      clear -PE Ha. induction PE as [|b d l k [_ _ _ (x & Hx & Ex & _)] _ IH]; [by apply elem_of_nil in Ha|].
      apply elem_of_cons in Ha as [->|Ha]; [rewrite Ex; by apply list_elem_of_fmap_2|auto]. }
    destruct (planOrdered_complete shards ranked 1 sh) as [H|H]; [by rewrite HP|done|..].
    + assert (placements_of sh out = []) as E0; [|fold out in H; rewrite E0 in H; rewrite Forall_forall in HF; rewrite (HF sh Hsh) in H; cbn in H; lia].
      unfold placements_of. destruct (filter _ out) as [|a l] eqn:EF; [done|]. exfalso. pose proof (list_elem_of_here a l) as Ha. rewrite <- EF in Ha.
      apply list_elem_of_filter in Ha as [[Ea _] Ha]. apply Hn. rewrite <- Ea. by apply list_elem_of_fmap_2.
    + fold out in H. assert (length (map cd_PeerID candidates) <= length (map as_Peer out))%nat as HX; [|rewrite !length_map in HX; lia].
      apply submseteq_length, NoDup_submseteq; [done|]. intros id (c & -> & Hc)%list_elem_of_fmap. rewrite <- HP in Hc.
      rewrite Forall_forall in H. pose proof (fresh_occupied shards HF) as EO. destruct (H c Hc) as [Hu|Hu|Hu|d k Hu1 Hu2 Hu3 Hu4].
      * by rewrite EO in Hu.
      * done.
      * rewrite HP in Hc. destruct (S4 c sh Hc Hsh); lia.
      * rewrite HP in Hc, Hu1. rewrite (S3 c d k Hc Hu1 Hu3 Hu4). destruct Hu2 as [Hu2|Hu2]; [by rewrite EO in Hu2|done].
  - intros a Ha. clear -PE Ha. induction PE as [|b d l k [E _ Hn _] _ IH]; [by apply elem_of_nil in Ha|].
    apply elem_of_cons in Ha as [->|Ha]; [by rewrite E|auto].
Qed.

(** The confirmations of a plan. *)
Definition confirm_ops (objectID : string) (now : Z) (out : list Assignment) : list (ledger_op * Z) :=
  map (fun a => (OpConfirm objectID (as_ShardID a) (as_Peer a), now)) out.
Definition confirm_all (out : list Assignment) (s : ShardPlacement) : ShardPlacement := foldl (fun s a => confirmed (as_ShardID a) (as_Peer a) s) s out.

Lemma confirm_run (l : Ledger) (o : string) (now : Z) (p : ObjectPlacement) (out : list Assignment) :
  ledger_ok l -> lg_rows l !! o = Some (Some p) -> (forall a, a ∈ out -> as_Peer a <> ""%string) ->
  exists p', lg_rows (foldl ledger_step l (confirm_ops o now out)) !! o = Some (Some p') /\
    op_DataShards p' = op_DataShards p /\ op_ParityShards p' = op_ParityShards p /\ op_Shards p' = map (confirm_all out) (op_Shards p).
Proof.
  revert l p. induction out as [|a out IH]; intros l p HL Er HN; cbn [confirm_ops map foldl].
  - exists p. repeat (split; [done|]). symmetry. apply map_id.
  - assert (lg_rows (ledger_step l (OpConfirm o (as_ShardID a) (as_Peer a), now)) !! o =
      Some (Some ((p) <| op_Shards := map (confirmed (as_ShardID a) (as_Peer a)) (op_Shards p) |> <| op_UpdatedAt := now |>))) as E1.
    { cbn [ledger_step]. unfold ConfirmShardHolder. destruct (String.eqb_spec (as_Peer a) ""%string) as [E|]; [by destruct (HN a (list_elem_of_here _ _))|].
      cbn [guard_err]. rewrite (update_ok _ _ _ _ _ Er). cbn [settled lg_rows setf]. rewrite lookup_insert_eq. do 2 f_equal.
      rewrite <- confirm_rows_map; [done|]. apply (HL _ _ Er). }
    destruct (IH _ _ (ledger_step_ok l _ HL) E1) as (p' & H1 & H2 & H3 & H4); [intros b Hb; apply HN; by apply list_elem_of_further|].
    exists p'. split; [done|]. split; [done|]. split; [done|]. rewrite H4. cbn. by rewrite map_map.
Qed.

Lemma confirm_all_fields (out : list Assignment) (s : ShardPlacement) :
  sp_ID (confirm_all out s) = sp_ID s /\ sp_Chunk (confirm_all out s) = sp_Chunk s /\ sp_Index (confirm_all out s) = sp_Index s.
Proof.
  unfold confirm_all. revert s. induction out as [|a out IH]; intros s; cbn [foldl]; [done|]. destruct (IH (confirmed (as_ShardID a) (as_Peer a) s)) as (-> & -> & ->).
  unfold confirmed. by destruct (_ && _).
Qed.
Lemma confirm_all_holders (out : list Assignment) (s : ShardPlacement) (h : string) :
  h ∈ sp_Holders (confirm_all out s) <-> h ∈ sp_Holders s \/ exists a, a ∈ out /\ as_ShardID a = sp_ID s /\ as_Peer a = h.
Proof.
  unfold confirm_all. revert s. induction out as [|a out IH]; intros s; cbn [foldl].
  - split; [by left|]. intros [|(a & H & _)]; [done|by apply elem_of_nil in H].
  - rewrite IH. assert (sp_ID (confirmed (as_ShardID a) (as_Peer a) s) = sp_ID s) as -> by (unfold confirmed; by destruct (_ && _)).
    assert (h ∈ sp_Holders (confirmed (as_ShardID a) (as_Peer a) s) <-> h ∈ sp_Holders s \/ (as_ShardID a = sp_ID s /\ as_Peer a = h)) as ->.
    { unfold confirmed. destruct (String.eqb_spec (sp_ID s) (as_ShardID a)) as [E|E]; cbn [andb]; [|naive_solver].
      destruct (holds (as_Peer a) s) eqn:EH; cbn [negb]; [apply holds_spec in EH; naive_solver|]. cbn. rewrite elem_of_app, list_elem_of_singleton. naive_solver. }
    setoid_rewrite elem_of_cons. naive_solver.
Qed.

(** The rows of a chunk, as the planner sees them. *)
Definition chunk_rows (p : ObjectPlacement) (c : Z) : list ShardPlacement := filter (fun s => sp_Chunk s = c) (op_Shards p).
Lemma snapshot_perm (p : ObjectPlacement) (c : Z) : PlacementSnapshot p c ≡ₚ map snapshot_shard (chunk_rows p c).
Proof. apply merge_sort_Permutation. Qed.
Lemma chunk_rows_map (p p' : ObjectPlacement) (c : Z) (f : ShardPlacement -> ShardPlacement) :
  (forall s, sp_Chunk (f s) = sp_Chunk s) -> op_Shards p' = map f (op_Shards p) -> chunk_rows p' c = map f (chunk_rows p c).
Proof.
  intros HC E. unfold chunk_rows. rewrite E. clear E. induction (op_Shards p) as [|s l IH]; [done|]. cbn [map]. pose proof (HC s).
  destruct (decide (sp_Chunk s = c)).
  - rewrite !filter_cons_True by congruence. cbn [map]. by rewrite IH.
  - rewrite !filter_cons_False by congruence. exact IH.
Qed.

(** A chunk whose every shard has a holder, with no peer holding two of its indexes, is spread. *)
Lemma spread_chunk (p : ObjectPlacement) (c : Z) :
  1 <= op_DataShards p -> 0 <= op_ParityShards p ->
  Z.of_nat (length (chunk_rows p c)) = op_DataShards p + op_ParityShards p ->
  NoDup (map sp_Index (chunk_rows p c)) -> Forall (fun s => sp_Holders s <> []) (chunk_rows p c) ->
  (forall s s' h, s ∈ chunk_rows p c -> s' ∈ chunk_rows p c -> h ∈ sp_Holders s -> h ∈ sp_Holders s' -> s = s') ->
  ChunkIsSpread p c = true.
Proof.
  intros HD HQ HL HI HF HA. pose proof (snapshot_perm p c) as HP. unfold ChunkIsSpread.
  assert (length (PlacementSnapshot p c) = length (chunk_rows p c)) as EL by (by rewrite HP, length_map).
  destruct (Nat.eqb_spec (length (PlacementSnapshot p c)) 0); [lia|].
  assert (forall sh, sh ∈ PlacementSnapshot p c -> sh_Holders sh <> []) as HN.
  { intros sh. rewrite HP. intros (s & Hs & ->)%map_elem. rewrite Forall_forall in HF. by apply HF. }
  destruct (existsb _ _) eqn:EX.
  { apply existsb_exists in EX as (sh & Hsh & Eh). apply list_elem_of_In in Hsh. apply Nat.eqb_eq, length_zero_iff_nil in Eh. by destruct (HN sh Hsh). }
  unfold SurvivesHolderLosses. apply Z.leb_le. destruct (Z.ltb_spec (op_DataShards p) 1); [lia|].
  assert (one_each (PlacementSnapshot p c)) as HO.
  { intros h. unfold holder_load. set (X := list_to_set _ : gset Z). assert (forall i j, i ∈ X -> j ∈ X -> i = j) as HX.
    { intros i j Hi Hj. apply elem_of_list_to_set, list_elem_of_fmap in Hi as (a & -> & [Ha1 Ha2]%list_elem_of_filter), Hj as (b & -> & [Hb1 Hb2]%list_elem_of_filter).
      rewrite HP in Ha2, Hb2. apply map_elem in Ha2 as (s & Hs & ->), Hb2 as (s' & Hs' & ->). by rewrite (HA s s' h Hs Hs' Ha1 Hb1). }
    clearbody X. destruct (set_choose_or_empty X) as [[i Hi]|HE%leibniz_equiv]; [|rewrite HE, size_empty; lia].
    assert (X = {[i]}) as ->; [|by rewrite size_singleton]. apply set_eq. intros j. rewrite elem_of_singleton. split; [intros Hj; by apply HX|by intros ->]. }
  pose proof (spread_survives (PlacementSnapshot p c) (op_ParityShards p) HO HQ) as HS.
  assert (RemoteIndexCount (PlacementSnapshot p c) = Z.of_nat (length (chunk_rows p c))) as ER; [|lia].
  unfold RemoteIndexCount. f_equal. assert (filter (fun sh => sh_Holders sh <> []) (PlacementSnapshot p c) = PlacementSnapshot p c) as ->.
  { clear -HN. induction (PlacementSnapshot p c) as [|sh l IH]; [done|]. rewrite filter_cons_True by (apply HN, list_elem_of_here).
    f_equal. apply IH. intros x Hx. apply HN. by apply list_elem_of_further. }
  rewrite size_list_to_set; [by rewrite length_map|]. rewrite HP, map_map. exact HI.
Qed.

(** The queue of a mover: what it leaves out is no older than what it takes. *)
Lemma first_rows_oldest (limit : Z) (rows : list ObjectPlacement) (clock : ObjectPlacement -> Z) (row taken : ObjectPlacement) :
  StronglySorted (fun a b => clock a <= clock b) rows -> row ∈ rows -> row ∉ first_rows limit rows -> taken ∈ first_rows limit rows ->
  clock taken <= clock row /\ Z.of_nat (length (first_rows limit rows)) = Z.max 0 limit.
Proof.
  unfold first_rows. destruct (Z.ltb_spec limit (Z.of_nat (length rows))) as [HL|]; [|done]. intros HS Hr Hn Ht. split; [|rewrite length_take; lia].
  rewrite <- (take_drop (Z.to_nat limit) rows) in HS, Hr. apply elem_of_app in Hr as [|Hr]; [done|].
  by eapply (StronglySorted_app_1_elem_of _ _ _ taken row) in HS.
Qed.
Lemma elem_of_first_rows (limit : Z) (rows : list ObjectPlacement) (row : ObjectPlacement) : row ∈ first_rows limit rows -> row ∈ rows.
Proof. unfold first_rows. destruct (_ <? _); [|done]. intros (i & H & _)%elem_of_take. by apply list_elem_of_lookup_2 in H. Qed.

Lemma NoDup_map_inj {A B : Type} (f : A -> B) (l : list A) (x y : A) : NoDup (map f l) -> x ∈ l -> y ∈ l -> f x = f y -> x = y.
Proof.
  induction l as [|z l IH]; intros HN Hx Hy E; [by apply elem_of_nil in Hx|]. cbn [map] in HN. apply NoDup_cons in HN as [Hn HN].
  apply elem_of_cons in Hx as [->|Hx], Hy as [->|Hy]; auto; destruct Hn; [rewrite E|rewrite <- E]; by apply list_elem_of_fmap_2.
Qed.

#[export] Instance drained_first_trans : Transitive drained_first.
Proof. intros a b c. unfold drained_first. lia. Qed.
#[export] Instance drained_first_total : Total drained_first.
Proof. intros a b. unfold drained_first. lia. Qed.

Lemma elem_of_decoded (l : Ledger) (row : ObjectPlacement) : row ∈ decoded_rows l <-> exists objectID, lg_rows l !! objectID = Some (Some row).
Proof.
  unfold decoded_rows, for_each. rewrite list_elem_of_omap. setoid_rewrite list_elem_of_omap. setoid_rewrite merge_sort_Permutation. split.
  - intros (v & (k & _ & Hk) & Hv). cbn in Hv. subst v. eauto.
  - intros (k & Hk). exists (Some row). split; [|done]. exists k. split; [|done]. apply list_elem_of_fmap. exists (k, Some row). split; [done|]. by apply elem_of_map_to_list.
Qed.
Lemma index_row_spec (index : gmap string string) (row : ObjectPlacement) (id : string) :
  index_row index row !! id = if decide (id ∈ map sp_ID (op_Shards row)) then Some (op_ObjectID row) else index !! id.
Proof.
  unfold index_row. revert index. induction (op_Shards row) as [|s l IH]; intros index; cbn [foldl map]; [by rewrite decide_False by apply not_elem_of_nil|].
  rewrite IH. destruct (decide (id ∈ map sp_ID l)) as [H|H].
  - rewrite decide_True; [done|]. by apply list_elem_of_further.
  - destruct (decide (id = sp_ID s)) as [->|N].
    + rewrite lookup_insert_eq, decide_True; [done|]. apply list_elem_of_here.
    + rewrite lookup_insert_ne by done. rewrite decide_False; [done|]. by intros [|]%elem_of_cons.
Qed.
Lemma unindex_none (objectID : string) (index : gmap string string) (shards : list ShardPlacement) (id : string) :
  id ∈ map sp_ID shards -> index !! id = Some objectID -> foldl (unindex objectID) index shards !! id = None.
Proof.
  revert index. induction shards as [|s l IH]; intros index Hin Hi; [by apply elem_of_nil in Hin|]. cbn [foldl].
  assert (forall shards i, i !! id = None -> foldl (unindex objectID) i shards !! id = None) as HK.
  { clear. induction shards as [|s l IH]; intros i Hi; [done|]. cbn [foldl]. apply IH. unfold unindex. case_bool_decide; [|done].
    rewrite lookup_delete_None. by right. }
  destruct (decide (id = sp_ID s)) as [->|N].
  - apply HK. unfold unindex. rewrite bool_decide_true by done. apply lookup_delete_eq.
  - apply IH; [by apply elem_of_cons in Hin as [|]|]. unfold unindex. case_bool_decide; [|done]. by rewrite lookup_delete_ne.
Qed.
(** A row older than all the others is the first one taken. *)
Lemma oldest_taken (limit : Z) (rows : list ObjectPlacement) (clock : ObjectPlacement -> Z) (row : ObjectPlacement) :
  0 < limit -> StronglySorted (fun a b => clock a <= clock b) rows -> row ∈ rows -> (forall r, r ∈ rows -> r = row \/ clock row < clock r) ->
  row ∈ first_rows limit rows.
Proof.
  intros HL HS Hr HO. destruct rows as [|x rows]; [by apply elem_of_nil in Hr|]. apply StronglySorted_inv in HS as [_ HS]. rewrite Forall_forall in HS.
  assert (x = row) as ->.
  { apply elem_of_cons in Hr as [->|Hr]; [done|]. destruct (HO x (list_elem_of_here _ _)) as [|H]; [done|]. pose proof (HS row Hr). lia. }
  unfold first_rows. destruct (_ <? _); [|done]. destruct (Z.to_nat limit) eqn:E; [lia|]. apply list_elem_of_here.
Qed.

(** ** Properties *)

(** What durability means, for every chunk of an object.  An object that is not under-replicated still has the pieces of a decode off this
    node when any one peer is gone, and sits on the distinct peers the threshold asks for; a fully dispersed one has a holder for every shard,
    and still decodes when any [ParityShards] peers are gone at once. *)
Theorem durable_object_decodes (p : ObjectPlacement) (chunk : Z) (dead : gset string) :
  chunk ∈ ChunkIndexes p ->
  (UnderReplicated p = false -> (size dead <= 1)%nat ->
     DurableRemoteHolders (op_DataShards p) (op_ParityShards p) <= Z.of_nat (size (occupied_by (PlacementSnapshot p chunk))) /\
     Z.max 1 (op_DataShards p) <= Z.of_nat (size (still_held p chunk dead))) /\
  (FullyDispersed p = true -> Z.of_nat (size dead) <= op_ParityShards p ->
     Forall (fun sh => sh_Holders sh <> []) (PlacementSnapshot p chunk) /\ Z.max 1 (op_DataShards p) <= Z.of_nat (size (still_held p chunk dead))).
Proof.
  intros Hc. split; intros H Hd.
  - apply ChunkIsDurable_spec; [by apply UnderReplicated_false|done].
  - apply ChunkIsSpread_spec; [by apply FullyDispersed_true|done].
Qed.

(** C5. A complete fresh chunk - distinct shard ids and indexes, no holders yet - planned over
    candidates that allow a full spread and confirmed as planned in the ledger is spread, so
    whichever [ParityShards] peers are gone, [DataShards] indexes are still held. A full spread is
    allowed when there are at least as many candidates as shards, each named, all distinct, no two
    with a failure domain in common and each with room for every shard: fewer domains or too little
    room can leave shards unplaced, as the planner means. *)
Theorem fresh_chunk_survives (l : Ledger) (objectID : string) (p : ObjectPlacement) (chunk now : Z) (candidates : list Candidate) :
  ledger_ok l -> lg_rows l !! objectID = Some (Some p) ->
  1 <= op_DataShards p -> 0 <= op_ParityShards p -> Z.of_nat (length (chunk_rows p chunk)) = op_DataShards p + op_ParityShards p ->
  NoDup (map sp_ID (chunk_rows p chunk)) -> NoDup (map sp_Index (chunk_rows p chunk)) -> Forall (fun s => sp_Holders s = []) (chunk_rows p chunk) ->
  spreadable (PlacementSnapshot p chunk) candidates ->
  exists p', lg_rows (foldl ledger_step l (confirm_ops objectID now (Plan (PlacementSnapshot p chunk) candidates 1))) !! objectID = Some (Some p') /\
    ChunkIsSpread p' chunk = true /\
    (forall dead : gset string, Z.of_nat (size dead) <= op_ParityShards p -> op_DataShards p <= Z.of_nat (size (still_held p' chunk dead))).
Proof.
  intros HL Er HD HQ Hlen HI HX HF HS. pose proof (snapshot_perm p chunk) as HP.
  destruct (fresh_plan (PlacementSnapshot p chunk) candidates) as (N1 & N2 & N3); [| |done|].
  { rewrite HP. apply Forall_fmap. exact HF. }
  { rewrite HP, map_map. exact HI. }
  set (out := Plan _ _ _) in *. clearbody out. destruct (confirm_run l objectID now p out HL Er N3) as (p' & E' & ED & EQ & ES).
  exists p'. split; [done|]. pose proof (chunk_rows_map p p' chunk (confirm_all out) (fun s => proj1 (proj2 (confirm_all_fields out s))) ES) as EC.
  assert (ChunkIsSpread p' chunk = true) as HSp.
  { apply spread_chunk; rewrite ?ED, ?EQ, ?EC, ?length_map; [done..| | |].
    - rewrite map_map, (map_ext _ sp_Index); [done|]. intros s. apply confirm_all_fields.
    - apply Forall_fmap, Forall_forall. intros s Hs. cbn. destruct (N2 (snapshot_shard s)) as (a & Ha & Ea); [rewrite HP; by apply list_elem_of_fmap_2|].
      assert (as_Peer a ∈ sp_Holders (confirm_all out s)) as Hh by (apply confirm_all_holders; eauto). intros E0. rewrite E0 in Hh. by apply elem_of_nil in Hh.
    - intros a b h (s & Hs & ->)%map_elem (s' & Hs' & ->)%map_elem Ha Hb. apply confirm_all_holders in Ha, Hb. rewrite Forall_forall in HF.
      rewrite (HF s Hs), (HF s' Hs') in *. destruct Ha as [Ha|(a & Ha1 & Ha2 & Ha3)]; [by apply elem_of_nil in Ha|].
      destruct Hb as [Hb|(b & Hb1 & Hb2 & Hb3)]; [by apply elem_of_nil in Hb|]. f_equal.
      assert (a = b) as <- by (eapply (NoDup_map_inj as_Peer); [exact N1|done|done|congruence]).
      eapply (NoDup_map_inj sp_ID); [exact HI|done|done|congruence]. }
  split; [done|]. intros dead Hd. destruct (ChunkIsSpread_spec p' chunk dead HSp) as [_ H]; [by rewrite EQ|]. rewrite ED in H. lia.
Qed.

(** The invariant of the ledger, whatever the sequence of operations: in every row a shard names a holder once, the rows of one shard name
    the same holders and silences, and a silence is counted only against a holder. *)
Theorem ledger_stays_ok (l : Ledger) (calls : list (ledger_op * Z)) : ledger_ok l -> ledger_ok (foldl ledger_step l calls).
Proof. apply ledger_run_ok. Qed.

(** C31. The silence count of a holder is the number of audits it missed since it last answered, and [NoteHolderSilence] returns it. *)
Theorem silences_are_consecutive (l : Ledger) (objectID shardID peer : string) (row : ObjectPlacement) (audits : list (audit * Z)) (now : Z) :
  ledger_ok l -> lg_rows l !! objectID = Some (Some row) -> HolderOfShard row shardID peer = true ->
  exists row' l', lg_rows (foldl ledger_step l (map (audit_op objectID shardID peer) audits)) !! objectID = Some (Some row') /\
    HolderSilences row' shardID peer = foldl misses (HolderSilences row shardID peer) audits /\
    NoteHolderSilence (foldl ledger_step l (map (audit_op objectID shardID peer) audits)) objectID shardID peer now =
      Ok (l', HolderSilences row' shardID peer + 1).
Proof.
  intros HL Er HH. destruct (audits_run l objectID shardID peer row audits HL Er HH) as (row' & E' & H' & ES).
  pose proof (ledger_run_ok l (map (audit_op objectID shardID peer) audits) HL) as HL'. set (lr := foldl _ _ _) in *. clearbody lr.
  eexists row', _. split; [done|]. split; [done|]. unfold NoteHolderSilence, LoadObjectPlacement. rewrite E'. cbn [of_option obind].
  rewrite (update_ok _ _ _ _ _ E'). cbn [obind]. rewrite (most_silences_spec row' shardID peer (HL' _ _ E') H'). reflexivity.
Qed.

(** The drain queue: what it offers still has a shard on a leaving peer and is out of its cooldown, and an object it leaves out that
    qualifies was not drained earlier than any it offers: the tail of the ledger is reached. *)
Theorem drain_queue_oldest_first (l : Ledger) (leaving : gset string) (limit cooldown now : Z) :
  Forall (fun row => HeldByAny row leaving = true /\ too_recent (now - cooldown) (op_LastDrain row) = false) (DrainCandidates l leaving limit cooldown now) /\
  (forall row taken, row ∈ decoded_rows l -> HeldByAny row leaving = true -> too_recent (now - cooldown) (op_LastDrain row) = false ->
     row ∉ DrainCandidates l leaving limit cooldown now -> taken ∈ DrainCandidates l leaving limit cooldown now ->
     op_LastDrain taken <= op_LastDrain row /\ Z.of_nat (length (DrainCandidates l leaving limit cooldown now)) = limit).
Proof.
  unfold DrainCandidates. destruct (Z.leb_spec limit 0); cbn [orb]; [split; [constructor|intros ? ? _ _ _ _ H'; by apply elem_of_nil in H']|].
  destruct (_ =? 0)%nat; [split; [constructor|intros ? ? _ _ _ _ H'; by apply elem_of_nil in H']|]. split.
  - apply Forall_forall. intros row H'%elem_of_first_rows. rewrite merge_sort_Permutation in H'. by apply list_elem_of_filter in H' as [H' _].
  - intros row taken Hr Hh Ht Hn Hk. destruct (first_rows_oldest limit (merge_sort drained_first
      (filter (fun row => HeldByAny row leaving = true /\ too_recent (now - cooldown) (op_LastDrain row) = false) (decoded_rows l))) op_LastDrain row taken) as [H1 H2].
    + apply (StronglySorted_merge_sort drained_first).
    + rewrite merge_sort_Permutation. apply list_elem_of_filter. auto.
    + done.
    + done.
    + split; [done|]. rewrite H2. lia.
Qed.

(** Writing the row of an object again keeps its placement and levelling clocks but not its drain clock: an object whose drain was just
    attempted is, in the queue of the same drain, again the first one offered. *)
Theorem rewrite_forgets_drain (l : Ledger) (manifest : Manifest) (previous : ObjectPlacement) (leaving : gset string) (now limit cooldown later : Z) :
  lg_rows l !! mf_ObjectID manifest = Some (Some previous) -> 0 < limit -> too_recent (later - cooldown) (op_LastDrain previous) = true ->
  (forall o row, lg_rows l !! o = Some (Some row) -> zero_time < op_LastDrain row) ->
  previous ∉ DrainCandidates l leaving limit cooldown later /\
  exists row, lg_rows (RecordObjectPlacement l manifest now) !! mf_ObjectID manifest = Some (Some row) /\
    op_LastAttempt row = op_LastAttempt previous /\ op_LastRebalance row = op_LastRebalance previous /\ op_LastDrain row = zero_time /\ op_Drains row = 0 /\
    (HeldByAny row leaving = true -> row ∈ DrainCandidates (RecordObjectPlacement l manifest now) leaving limit cooldown later).
Proof.
  intros Er HL HT HZ. split.
  { unfold DrainCandidates. destruct (_ || _); [apply not_elem_of_nil|]. intros H%elem_of_first_rows. rewrite merge_sort_Permutation in H.
    apply list_elem_of_filter in H as [[_ H] _]. congruence. }
  set (l' := RecordObjectPlacement l manifest now). exists (merge_previous (fresh_row manifest now) previous).
  assert (lg_rows l' = <[mf_ObjectID manifest := Some (merge_previous (fresh_row manifest now) previous)]> (lg_rows l)) as El.
  { unfold l', RecordObjectPlacement. cbn [fresh_row op_ObjectID]. by rewrite Er. }
  rewrite El. set (row := merge_previous _ _) in *. assert (op_LastDrain row = zero_time) as Ed by done.
  split; [apply lookup_insert_eq|]. do 4 (split; [done|]). intros HH.
  assert (row ∈ decoded_rows l') as Hd by (apply elem_of_decoded; exists (mf_ObjectID manifest); rewrite El; apply lookup_insert_eq).
  assert (forall r, r ∈ decoded_rows l' -> r <> row -> zero_time < op_LastDrain r) as HO.
  { intros r (o & Ho)%elem_of_decoded N. rewrite El, lookup_insert_Some in Ho. destruct Ho as [[_ [= E]]|[_ Ho]]; [congruence|eauto]. }
  clearbody l' row. unfold DrainCandidates. destruct (Z.leb_spec limit 0); [lia|]. cbn [orb].
  destruct (Nat.eqb_spec (size leaving) 0) as [E0|_].
  { apply size_empty_inv, leibniz_equiv in E0. subst leaving. unfold HeldByAny in HH. apply existsb_exists in HH as (s & _ & (h & _ & Hh)%existsb_exists).
    apply bool_decide_eq_true in Hh. set_solver. }
  apply (oldest_taken limit _ op_LastDrain row); [done|apply (StronglySorted_merge_sort drained_first)|..].
  - rewrite merge_sort_Permutation. apply list_elem_of_filter. split; [|done]. split; [done|]. unfold too_recent. by rewrite Ed.
  - intros r. rewrite merge_sort_Permutation. intros [_ H1]%list_elem_of_filter. rewrite Ed. destruct (decide (r = row)) as [->|N]; [by left|right; by apply HO].
Qed.

(** The index names one object for each shard, the last one written.  A shard that an older object has peers for is looked up in a new object
    with the same bytes, and once that one is deleted it is looked up nowhere, while the older object's row still names the peers. *)
Theorem forgetting_hides_holders (l : Ledger) (older : string) (row : ObjectPlacement) (s : ShardPlacement) (manifest : Manifest) (now : Z) :
  lg_rows l !! older = Some (Some row) -> s ∈ op_Shards row -> sp_Holders s <> [] ->
  mf_ObjectID manifest <> older -> lg_rows l !! mf_ObjectID manifest = None -> sp_ID s ∈ map sp_ID (fresh_shards manifest) ->
  let recorded := RecordObjectPlacement l manifest now in
  let forgotten := forgetPlacement recorded (mf_ObjectID manifest) in
  HoldersForShard recorded (sp_ID s) = [] /\ HoldersForShard forgotten (sp_ID s) = [] /\
  lg_rows recorded !! older = Some (Some row) /\ lg_rows forgotten !! older = Some (Some row).
Proof.
  intros Er Hs Hh Hne Hno Hin recorded forgotten.
  assert (lg_rows recorded = <[mf_ObjectID manifest := Some (fresh_row manifest now)]> (lg_rows l)) as Erow.
  { unfold recorded, RecordObjectPlacement. cbn [fresh_row op_ObjectID]. by rewrite Hno. }
  assert (lg_index recorded !! sp_ID s = Some (mf_ObjectID manifest)) as Eidx.
  { unfold recorded, RecordObjectPlacement. cbn [fresh_row op_ObjectID]. rewrite Hno. cbn [put_row lg_index setf]. by rewrite index_row_spec, decide_True. }
  assert (lg_index forgotten !! sp_ID s = None) as Efor.
  { unfold forgotten, forgetPlacement. rewrite Erow, lookup_insert_eq. cbn [lg_index setf]. by apply unindex_none. }
  assert (lg_rows recorded !! older = Some (Some row)) as Eo by (rewrite Erow; by rewrite lookup_insert_ne).
  repeat split; [| |done|].
  - unfold HoldersForShard. rewrite Eidx, Erow, lookup_insert_eq. cbn [fresh_row op_Shards].
    assert (forall x, x ∈ fresh_shards manifest -> sp_Holders x = []) as HF.
    { intros x Hx. unfold fresh_shards in Hx. apply list_elem_of_In, in_concat in Hx as (k & Hk & Hx). apply list_elem_of_In in Hk, Hx.
      apply map_elem in Hk as (c & _ & ->). by apply map_elem in Hx as (r & _ & ->). }
    clear -HF. induction (fresh_shards manifest) as [|x k IH]; [done|]. rewrite filter_cons.
    assert (concat (map sp_Holders (filter (fun s0 => sp_ID s0 = sp_ID s) k)) = []) as E by (apply IH; intros y Hy; apply HF; by apply list_elem_of_further).
    case_decide; [|done]. cbn [map concat]. rewrite E, HF by apply list_elem_of_here. done.
  - unfold HoldersForShard. by rewrite Efor.
  - unfold forgotten. rewrite forget_rows. by rewrite lookup_delete_ne.
Qed.

(** ** Witnesses *)

Definition toy_manifest (objectID : string) (first : string) : Manifest :=
  mkManifest 1 objectID "b" "k" "" 20 "" 2 1 20 [mkChunkManifest 0 20 10 [mkShardRef first 0 10; mkShardRef (objectID ++ "y") 1 10; mkShardRef (objectID ++ "z") 2 10]] 0.
Definition toy_shelf : Ledger := RecordObjectPlacement (mkLedger ∅ ∅ ∅ ∅) (toy_manifest "a" "x") 1.
Definition toy_row : ObjectPlacement := fresh_row (toy_manifest "a" "x") 1.
Definition toy_spread : list Candidate := [mkCandidate "p" 100 100 ["p"]; mkCandidate "q" 90 100 ["q"]; mkCandidate "r" 80 100 ["r"]].
(** One holder confirmed, the drain clock running. *)
Definition toy_placed : Ledger := foldl ledger_step toy_shelf [(OpConfirm "a" "x" "p", 2); (OpAttempt "a", 3); (OpDrain "a", 4)].
Definition toy_placed_row : ObjectPlacement :=
  mkObjectPlacement "a" "b" "k" 2 1 [mkShardPlacement "x" 0 0 10 ["p"] ∅ true; mkShardPlacement "ay" 0 1 10 [] ∅ true; mkShardPlacement "az" 0 2 10 [] ∅ true]
    3 1 zero_time 0 4 1 4.
Definition toy_spread_row : ObjectPlacement :=
  (toy_row) <| op_Shards := [mkShardPlacement "x" 0 0 10 ["p"] ∅ true; mkShardPlacement "ay" 0 1 10 ["q"] ∅ true; mkShardPlacement "az" 0 2 10 ["r"] ∅ true] |>.

Lemma toy_shelf_ok : ledger_ok toy_shelf.
Proof. apply put_row_ok; [|apply fresh_row_ok]. intros o p H. cbn in H. by rewrite lookup_empty in H. Qed.
Lemma toy_placed_ok : ledger_ok toy_placed.
Proof. apply ledger_run_ok, toy_shelf_ok. Qed.
Lemma toy_spreadable : spreadable (PlacementSnapshot toy_row 0) toy_spread.
Proof.
  split.
  - repeat constructor; discriminate.
  - by apply (bool_decide_unpack _); vm_compute.
  - unfold toy_spread. intros a b k Ha Hb. rewrite !elem_of_cons, elem_of_nil in Ha, Hb.
    destruct Ha as [->|[->|[->|[]]]], Hb as [->|[->|[->|[]]]]; cbn; rewrite !list_elem_of_singleton; congruence.
  - assert (Forall (fun c => Forall (fun sh => sh_Size sh <= cd_FreeBytes c) (PlacementSnapshot toy_row 0)) toy_spread) as HF
      by (vm_compute; repeat constructor; discriminate).
    intros c sh Hc Hs. right. rewrite Forall_forall in HF. specialize (HF c Hc). rewrite Forall_forall in HF. by apply HF.
  - vm_compute. lia.
Qed.

Lemma durable_object_decodes_witness :
  0 ∈ ChunkIndexes toy_spread_row /\ FullyDispersed toy_spread_row = true /\ 2 <= Z.of_nat (size (still_held toy_spread_row 0 {["q"]})).
Proof.
  assert (0 ∈ ChunkIndexes toy_spread_row) as Hc by (by apply (bool_decide_unpack _); vm_compute).
  assert (FullyDispersed toy_spread_row = true) as Hf by (by vm_compute). split; [done|]. split; [done|].
  destruct (durable_object_decodes toy_spread_row 0 {["q"]} Hc) as [_ H]. destruct (H Hf) as [_ H']; [by rewrite size_singleton|]. exact H'.
Defined.
Lemma fresh_chunk_survives_witness : exists p',
  lg_rows (foldl ledger_step toy_shelf (confirm_ops "a" 5 (Plan (PlacementSnapshot toy_row 0) toy_spread 1))) !! "a" = Some (Some p') /\
  ChunkIsSpread p' 0 = true /\ (forall dead : gset string, Z.of_nat (size dead) <= 1 -> 2 <= Z.of_nat (size (still_held p' 0 dead))).
Proof.
  apply (fresh_chunk_survives toy_shelf "a" toy_row 0 5 toy_spread);
    [apply toy_shelf_ok|by vm_compute|by cbn|by cbn|by vm_compute|by apply (bool_decide_unpack _); vm_compute|by apply (bool_decide_unpack _); vm_compute
    |vm_compute; repeat constructor|apply toy_spreadable].
Defined.
Lemma ledger_stays_ok_witness : ledger_ok (foldl ledger_step toy_shelf [(OpSilence "a" "x" "p", 2); (OpForget "a", 3)]).
Proof. apply (ledger_stays_ok toy_shelf), toy_shelf_ok. Defined.
Lemma silences_are_consecutive_witness : exists row' l',
  lg_rows (foldl ledger_step toy_placed (map (audit_op "a" "x" "p") [(Missed, 5); (Answered, 6); (Missed, 7); (Missed, 8)])) !! "a" = Some (Some row') /\
  HolderSilences row' "x" "p" = 2 /\
  NoteHolderSilence (foldl ledger_step toy_placed (map (audit_op "a" "x" "p") [(Missed, 5); (Answered, 6); (Missed, 7); (Missed, 8)])) "a" "x" "p" 9 =
    Ok (l', HolderSilences row' "x" "p" + 1).
Proof. apply (silences_are_consecutive toy_placed "a" "x" "p" toy_placed_row); [apply toy_placed_ok|by vm_compute|by vm_compute]. Defined.
Lemma rewrite_forgets_drain_witness :
  toy_placed_row ∉ DrainCandidates toy_placed {["p"]} 10 100 50 /\
  exists row, lg_rows (RecordObjectPlacement toy_placed (toy_manifest "a" "x") 40) !! "a" = Some (Some row) /\
    op_LastAttempt row = 3 /\ op_LastRebalance row = zero_time /\ op_LastDrain row = zero_time /\ op_Drains row = 0 /\
    (HeldByAny row {["p"]} = true -> row ∈ DrainCandidates (RecordObjectPlacement toy_placed (toy_manifest "a" "x") 40) {["p"]} 10 100 50).
Proof.
  apply (rewrite_forgets_drain toy_placed (toy_manifest "a" "x") toy_placed_row); [by vm_compute|lia|by vm_compute|].
  intros o row. assert (lg_rows toy_placed = {["a" := Some toy_placed_row]}) as -> by (by vm_compute).
  by intros [_ [= <-]]%lookup_singleton_Some.
Defined.
Lemma forgetting_hides_holders_witness :
  let recorded := RecordObjectPlacement toy_placed (toy_manifest "c" "x") 40 in
  HoldersForShard toy_placed "x" = ["p"] /\ HoldersForShard recorded "x" = [] /\ HoldersForShard (forgetPlacement recorded "c") "x" = [].
Proof.
  split; [by vm_compute|].
  destruct (forgetting_hides_holders toy_placed "a" toy_placed_row (mkShardPlacement "x" 0 0 10 ["p"] ∅ true) (toy_manifest "c" "x") 40) as (H1 & H2 & _);
    [by vm_compute|apply list_elem_of_here|done|done|by vm_compute|apply list_elem_of_here|]. by split.
Defined.
